(* ===== verification/_CoqProject ===== *)
-Q . S2P
Prelude.v
Bits.v
Buffer.v
Gf.v
Codec.v
Memory.v
Abd.v
AbdIter.v
RaidzMap.v
RaidzParity.v
RaidzReconst.v
RaidzMatrix.v
RaidzMath.v
RaidzScalar.v
RaidzSolve.v
Fletcher.v
Zle.v
Lzjb.v
Lz4.v
Lz4Format.v
Lz4Decode.v
Lz4Encode.v
ZioCompress.v
Avl.v
RangeTree.v
SpaceMap.v
SpaceReftree.v
Metaslab.v
MetaslabWeight.v
MetaslabGroup.v
MetaslabSync.v
MetaslabInv.v
MetaslabLife.v
