(* ===== verification/Prelude.v ===== *)
(** * cStor / uZFS: a verification library of the storage core

    cStor runs ZFS in user space.  Below its objects and datasets lies the
    storage core, which decides where on a device a block goes and remembers it:

    - a metaslab is a region of a device.  It keeps its free space in memory
      as a range tree, and on disk as a space map, a log of allocations and
      frees;
    - a metaslab group holds the metaslabs of one device, ordered by weight; a
      metaslab class links the groups of the pool in a ring;
    - every ordered collection in these is an intrusive AVL tree;
    - a space reference tree counts references to ranges, for the dirty time
      logs of the devices.

    A block travels through the core in a buffer that is one piece of memory or a
    list of pages; it may be compressed, and is protected by a checksum.  A RAID-Z
    device cuts it into columns, one for each child, and adds columns of parity,
    from which lost columns are computed again.

    The library translates this code into executable functions and proves what it
    promises.  Paths below are relative to the root of the sources.

    ** Files

    - [Prelude] (this file): the monad [res] of code that can stop the program,
      64-bit words, facts on lists and sums that several files use.
    - [Bits]: [highbit64] and [lowbit64] ([lib/libzpool/kernel.c]), the power-of-two
      macros, the bit-field macros of [include/sys/spa.h].
    - [Buffer]: one buffer of bytes read and written by index, as the compressors
      use it, and copies from earlier output.
    - [Codec]: the interface of a compressor and its inverse, the class [Codec].
    - [Memory]: memory as blocks of bytes, and the functions of the C library on it.
    - [Abd]: buffers in one piece or scattered over pages ([module/zfs/abd.c]), over
      [Memory].
    - [Gf]: the field of the parity, its tables and the operations on bytes and
      words ([include/sys/vdev_raidz_impl.h], [module/zfs/vdev_raidz_math_scalar.c]).
    - [AbdIter]: the walks over several buffers at once that parity uses, and rules
      for the four walks of [module/zfs/abd.c] with memory as lanes of bytes.
    - [RaidzMap]: the map of a block ([vdev_raidz_map_alloc] and [vdev_raidz_map_free]
      of [module/zfs/vdev_raidz.c]) and the space reserved for it.
    - [RaidzParity], [RaidzReconst], [RaidzMatrix]: the original routines of that
      file: parity generation; reconstruction from P, from Q and from both; the
      general one, by inverting a matrix.
    - [RaidzMath]: the implementations and the choice of one
      ([module/zfs/vdev_raidz_math.c]), [vdev_raidz_generate_parity] and
      [vdev_raidz_reconstruct].  The methods of an implementation are a record; the
      class [RaidzImpl] is what the callers rely on.
    - [RaidzScalar], [RaidzSolve]: the implementation in portable C, the template
      [module/zfs/vdev_raidz_math_impl.h] with the macros of
      [module/zfs/vdev_raidz_math_scalar.c]; the second file solves the equations of
      two and three lost columns and makes it an instance of [RaidzImpl].
    - [Fletcher]: the Fletcher checksums ([module/zcommon/zfs_fletcher.c] and its two
      interleaved variants, [module/zfs/zio_checksum.c]).  The implementations in
      assembly are a parameter; the class [Fletcher4Impl] is what the code that
      chooses among them relies on.
    - [Zle], [Lzjb]: [module/zfs/zle.c] and [module/zfs/lzjb.c], instances of [Codec].
    - [Lz4]: the functions of [module/zfs/lz4.c]; [Lz4Format] the format of a block
      as sequences, [Lz4Decode] the decompressor against it, [Lz4Encode] the
      compressor against it, an instance of [Codec].
    - [ZioCompress]: [module/zfs/zio_compress.c] and [module/zfs/gzip.c] over [Abd]
      and [Codec].  The two functions of zlib are parameters; [zlib_ok] is what
      its manual says of them.
    - [Avl]: [module/avl/avl.c].  A node and its chain of parents are a zipper;
      the rotations, the insertion and removal loops and the iterators follow the
      source.  The comparator of a tree is the class [AvlCompar]; [AvlOrder] is
      what the trees rely on.
    - [RangeTree]: [module/zfs/range_tree.c] over [Avl].  The callbacks of a tree
      are the record [range_tree_ops]; [RtOpsSpec] is what the tree relies on.
    - [SpaceMap]: [module/zfs/space_map.c].  The object layer is the interface
      [DmuOps], with its laws [DmuSpec] and [DmuObjSpec], which say that a read that
      succeeds returns what was written, that an object that exists can be freed and
      that the bonus buffer of a new one can be held; [MemDmu] is an object layer in
      memory that satisfies them.
    - [SpaceReftree]: [module/zfs/space_reftree.c].
    - [Metaslab]: the free tree of [module/zfs/metaslab.c] with its index by size,
      which discharges [RtOpsSpec], and the four block allocators, which discharge
      the interface [MsopSpec].
    - [MetaslabWeight]: fragmentation and the two kinds of weight.
    - [MetaslabGroup]: groups and classes: the tree of metaslabs, the ring, the
      accounting of space, the histograms.  The groups live in a map from
      addresses, so that the ring is made of the links of the source.
    - [MetaslabSync]: the calls that move a block through the trees of its
      metaslab: load, allocate, free, claim, sync, condense, the end of a
      transaction group, unload, creation and destruction.
    - [MetaslabInv]: the invariant of a metaslab and that each call maintains it.
    - [MetaslabLife]: a metaslab over time.  [run_op] is one call, [op_ok] what
      its caller observes, [reachable] the states any sequence of such calls
      leads to.

    ** How the code is represented

    A C structure is a record, an array a list, a 64-bit word a number in [Z] with
    its wrap-around written out ([wrap64]) wherever the code computes with it.  A
    function that can fail a [VERIFY], call [panic] or dereference a null pointer
    returns in [res]: [Panic] is the end of the process.  [ASSERT], which a
    production build leaves out, is not translated.  A pointer to an element of a
    tree is the element: elements of a tree are distinct.  A call is one step,
    as if it held the lock of its structure throughout: [metaslab_sync],
    [metaslab_condense], [space_map_load] and [space_map_write] drop the lock of the
    metaslab around calls of the object layer, and what other threads do meanwhile
    is not modelled (a free at once or a claim that finds [ms_condensing] set fails
    its verification).  Tunables, the state of the
    pool (the group that syncs, its pass, the slop space) and the addresses the
    memory allocator returns are parameters.  In [Abd] a pointer is a block of
    memory and an offset, and an access outside the block is [Panic].

    A loop of the source that is not structural takes fuel: the number of nodes of
    the tree it walks ([avl_destroy_loop], [picker_loop], [clear_loop]), the number
    of groups ([other_group]), the number of blocks of the log ([load_blocks]), of
    runs of a segment ([write_runs]) or of buckets ([rt_weight_loop],
    [sm_weight_loop]), the number of pages of a buffer ([iterate_loop]) or of pieces
    of 8 MiB ([incremental_loop]), the number of pages of all buffers ([gen_loop],
    [rec_loop]), of parity columns ([parity_to_use]); the loops of the compressors take the size of
    their input or of the copy they make ([copy_fuel]).  The theorems state the result, so they include that the
    fuel is enough.

    ** What is proved

    - Words: bit search against the position of the bit, the macros against
      division, reading a bit field after writing it.
    - Buffers: reading, writing, copying and comparing a part of a buffer is the
      same on the bytes it stands for, however they lie in pages, and touches
      nothing else; a buffer made from a part of another shares its bytes;
      allocation and release; a borrowed copy that is returned is stored.
    - Checksums: every implementation that can be chosen gives the same four sums,
      at once or in pieces, from one buffer or from scattered pages; a change of
      one word of a block changes each of them.  [abd_fletcher_4_loses_tail] shows
      a defect: the end of a piece that is no multiple of 64 bytes is lost.
    - RAID-Z: the columns of a block with the skipped sectors are the run of sectors
      reserved for it, each once; its buffers are apart and are given back; parity
      is the value of a polynomial over GF(2^8), with the original routines and the
      implementation in portable C; when no more columns are lost than there is
      parity, reconstruction gives back every byte, with every implementation that
      keeps the contract [RaidzImpl], which these two are proved to; elimination
      meets no zero pivot.  The ten methods of the implementation in portable C give
      the same bytes as the original routines.  Which implementation is used at any
      time, and which names select one: a name given before initialisation is
      accepted and has no effect.
    - Compression: for ZLE, LZJB and LZ4, and for the calls of the pool on buffers of
      any layout, what is written when a block gets smaller expands to the block;
      zeros alone are recognised; decompression by ZLE and LZ4 of any input stays
      inside its buffers.  [lz4_overruns_target] shows a defect: the LZ4
      compressors can write past the size they are given.
      [lzjb_depends_on_address] shows that LZJB is not deterministic.
    - AVL trees: insertion of an element with no equal one, removal and update keep
      the tree balanced and ordered and change its elements as they should;
      [avl_add] of an element equal to one in the tree replaces the tree; lookup
      finds the element or the place for it; the loop that destroys a tree ends
      and visits each node once.
    - Range trees: each operation as one on the set of offsets, on every branch;
      a tree is determined by its set of offsets; the space and the histogram kept
      are those of the segments.
    - Space maps: writing a tree and loading the log are inverse on the set of
      offsets, for any block size and with reads that fail; entries decode to what
      was encoded; truncation; histograms.
    - Reference trees: the offsets with at least a given number of references.
    - Allocators: each returns free space of the size asked for or finds none, and
      stops on no null pointer.
    - Weights and fragmentation: their values and bounds.
    - Groups: sorting, activation and passivation on the ring, the choice of a
      group, and that the histograms stay what the debugging checks recount.
    - Metaslabs, with calls one after the other and an object layer that keeps its
      laws: in every reachable state every permitted call succeeds; a block
      handed out overlaps no other; each offset is in exactly one place; the map
      on disk records the blocks; frees are deferred for two transaction groups;
      unloading and loading, and condensing or not, give the same; claiming a block,
      on every path; a metaslab opened satisfies the invariant.
    - [metaslab_unload_unsorts_group] shows a defect: unloading a metaslab lowers
      its weight inside the tree ordered by weight.

    Each theorem with hypotheses is followed, in a module [Example], by an instance
    on concrete data.

    ** What is not modelled

    The implementations of parity and checksums in assembly; the I/O of RAID-Z
    devices (issuing and retrying the reads and writes of the columns); what other
    threads do to a metaslab while a call has dropped its lock.
    The choice of a group and a metaslab for a block ([metaslab_alloc_dva] and its
    callers), with the allocation throttle and tracing; the debugging checks
    of freed blocks; the creation of groups and classes, which is memory
    management.  The object layer, the I/O pipeline, the cache, datasets, the
    intent log, the file system and volume interfaces and the commands are
    outside the library. *)

From stdpp Require Export prelude sorting.
From Stdlib Require Export ZArith Lia.
From Stdlib Require Ascii String.
#[global] Open Scope Z_scope.

(** ** Results of code that can stop the program

    [VERIFY] and [panic] end the process; a function that contains one, or
    that may dereference a null pointer, returns in [res]. *)

Inductive res (A : Type) : Type :=
| Ok (a : A)
| Panic.
Arguments Ok {A} _.
Arguments Panic {A}.

#[export] Instance res_ret : MRet res := fun A a => Ok a.
#[export] Instance res_bind : MBind res := fun A B f m =>
  match m with Ok a => f a | Panic => Panic end.

(** A pointer dereferenced. *)
Definition deref {A} (o : option A) : res A := match o with Some a => Ok a | None => Panic end.

(** [for (i = lo; i < hi; i++)] *)
Fixpoint for_loop {S} (n : nat) (i : Z) (body : Z -> S -> res S) (s : S) : res S :=
  match n with
  | O => Ok s
  | S n' => s ← body i s; for_loop n' (i + 1) body s
  end.

Definition for_range {S} (lo hi : Z) (body : Z -> S -> res S) (s : S) : res S := for_loop (Z.to_nat (hi - lo)) lo body s.

Lemma for_range_empty {S} lo hi (body : Z -> S -> res S) s : hi <= lo -> for_range lo hi body s = Ok s.
Proof. intros H. unfold for_range. by replace (Z.to_nat (hi - lo)) with 0%nat by lia. Qed.

Lemma for_range_ext {S} lo hi (f g : Z -> S -> res S) s : (forall i s, f i s = g i s) -> for_range lo hi f s = for_range lo hi g s.
Proof.
  intros H. unfold for_range. generalize (Z.to_nat (hi - lo)). intros n. revert lo s. induction n as [|n IH]; intros lo s; [done|]. cbn [for_loop]. rewrite H.
  destruct (g lo s); cbn [mbind res_bind]; [apply IH|done].
Qed.

Lemma for_range_first {S} lo hi (body : Z -> S -> res S) s :
  lo < hi -> for_range lo hi body s = (s ← body lo s; for_range (lo + 1) hi body s).
Proof. intros H. unfold for_range. replace (Z.to_nat (hi - lo)) with (Datatypes.S (Z.to_nat (hi - (lo + 1)))) by lia. done. Qed.

(** The rule of the loop. *)
Lemma for_range_inv {S} (I : Z -> S -> Prop) lo hi body s :
  lo <= hi -> (forall i s, lo <= i < hi -> I i s -> exists s', body i s = Ok s' /\ I (i + 1) s') -> I lo s ->
  exists s', for_range lo hi body s = Ok s' /\ I hi s'.
Proof.
  intros Hle. remember (Z.to_nat (hi - lo)) as n eqn:En. revert lo s Hle En. induction n as [|n IH]; intros lo s Hle En Hb HI.
  - exists s. rewrite for_range_empty by lia. by replace hi with lo by lia.
  - rewrite for_range_first by lia. destruct (Hb lo s) as (s' & E & HI'); [lia|done|]. rewrite E. cbn [mbind res_bind].
    apply IH; [lia|lia| |done]. intros i s2 Hi. apply Hb. lia.
Qed.

Declare Scope zfs_scope.
Delimit Scope zfs_scope with zfs.
Notation "'VERIFY' b ;; k" := (if b then k else Panic)
  (at level 100, b at level 99, k at level 200, right associativity) : zfs_scope.
#[global] Open Scope zfs_scope.

(** ** Machine words: an unsigned w-bit value is a [Z] in [0, 2^w) *)

Abbreviation B64 := 18446744073709551616.
Abbreviation B32 := 4294967296.

Definition wrap64 (z : Z) : Z := z mod B64.
Definition wrap32 (z : Z) : Z := z mod B32.
Definition wrap8 (z : Z) : Z := z mod 256.
Definition is_u64 (z : Z) : Prop := 0 <= z < B64.
Definition is_u32 (z : Z) : Prop := 0 <= z < B32.
Definition is_u8 (z : Z) : Prop := 0 <= z < 256.

(** A 32-bit signed [int]. *)
Definition to_int (x : Z) : Z := let y := wrap32 x in if y <? B32 / 2 then y else y - B32.

Lemma to_int_small x : 0 <= x < B32 / 2 -> to_int x = x.
Proof.
  intros Hx. change (B32 / 2) with 2147483648 in Hx. unfold to_int, wrap32. rewrite Z.mod_small by lia. cbv zeta.
  change (B32 / 2) with 2147483648. by rewrite (proj2 (Z.ltb_lt _ _)) by lia.
Qed.

(** ** Hint databases and tactics *)

Create HintDb zfs discriminated.
Create Rewrite HintDb zbits.

(** Case analysis on every integer comparison that guards the goal. *)
Ltac zcase_step :=
  match goal with
  | |- context [Z.eqb ?a ?b] => destruct (Z.eqb_spec a b)
  | |- context [Z.leb ?a ?b] => destruct (Z.leb_spec a b)
  | |- context [Z.ltb ?a ?b] => destruct (Z.ltb_spec a b)
  | |- context [Z.geb ?a ?b] => rewrite (Z.geb_leb a b)
  | |- context [Z.gtb ?a ?b] => rewrite (Z.gtb_ltb a b)
  end.
Ltac zcase := repeat (zcase_step; cbn [andb orb negb] in *; try lia).

(** Boolean comparisons in the context become propositions. *)
Ltac bool_hyps :=
  repeat match goal with
  | H : (_ && _)%bool = true |- _ => apply andb_prop in H; destruct H
  | H : (_ || _)%bool = false |- _ => apply orb_false_elim in H; destruct H
  | H : negb _ = true |- _ => apply negb_true_iff in H
  | H : negb _ = false |- _ => apply negb_false_iff in H
  | H : (_ =? _) = true |- _ => apply Z.eqb_eq in H
  | H : (_ =? _) = false |- _ => apply Z.eqb_neq in H
  | H : (_ <=? _) = true |- _ => apply Z.leb_le in H
  | H : (_ <=? _) = false |- _ => apply Z.leb_gt in H
  | H : (_ <? _) = true |- _ => apply Z.ltb_lt in H
  | H : (_ <? _) = false |- _ => apply Z.ltb_ge in H
  end.

(** Normal form of concatenations: right-nested, conses outside. *)
Ltac app_norm := cbn [app];
  repeat first [rewrite <- app_assoc | rewrite <- app_comm_cons
               | rewrite app_nil_r | rewrite app_nil_l].
Ltac app_norm_in H := cbn [app] in H;
  repeat first [rewrite <- app_assoc in H | rewrite <- app_comm_cons in H
               | rewrite app_nil_r in H | rewrite app_nil_l in H].

(** ** Words *)

Lemma wrap64_small z : is_u64 z -> wrap64 z = z.
Proof. apply Z.mod_small. Qed.

Lemma wrap64_range z : is_u64 (wrap64 z).
Proof. apply Z.mod_pos_bound. lia. Qed.

Lemma wrap64_idem z : wrap64 (wrap64 z) = wrap64 z.
Proof. apply wrap64_small, wrap64_range. Qed.

Lemma wrap64_add_l a b : wrap64 (wrap64 a + b) = wrap64 (a + b).
Proof. apply Zplus_mod_idemp_l. Qed.

Lemma wrap64_add_r a b : wrap64 (a + wrap64 b) = wrap64 (a + b).
Proof. apply Zplus_mod_idemp_r. Qed.

Lemma wrap64_sub_l a b : wrap64 (wrap64 a - b) = wrap64 (a - b).
Proof. apply Zminus_mod_idemp_l. Qed.

Lemma wrap64_sub_r a b : wrap64 (a - wrap64 b) = wrap64 (a - b).
Proof. apply Zminus_mod_idemp_r. Qed.

Lemma wrap64_mul_l a b : wrap64 (wrap64 a * b) = wrap64 (a * b).
Proof. apply Zmult_mod_idemp_l. Qed.

#[export] Hint Resolve wrap64_range : zfs.

(** ** The result monad *)

Lemma bind_Ok {A B} (m : res A) (f : A -> res B) (b : B) :
  m ≫= f = Ok b <-> exists a, m = Ok a /\ f a = Ok b.
Proof.
  destruct m; simpl; split; intros; try discriminate; [eauto| |].
  - destruct H as (? & [=] & ?); by subst.
  - by destruct H as (? & ? & _).
Qed.

(** Opens every monadic bind and guard of a hypothesis [_ = Ok _]. *)
Ltac inv_res :=
  repeat match goal with
  | H : _ ≫= _ = Ok _ |- _ =>
      let a := fresh "a" in let H1 := fresh "Hm" in
      apply bind_Ok in H; destruct H as (a & H1 & H)
  | H : (if ?b then _ else Panic) = Ok _ |- _ =>
      let E := fresh "E" in destruct b eqn:E; [|discriminate H]
  | H : Ok _ = Ok _ |- _ => injection H as H; try subst
  | H : Panic = Ok _ |- _ => discriminate H
  end.

(** ** Sorted lists *)

Lemma StronglySorted_app_inv {A} (R : A -> A -> Prop) l1 l2 :
  StronglySorted R (l1 ++ l2) <->
  StronglySorted R l1 /\ StronglySorted R l2 /\
  (forall x y, x ∈ l1 -> y ∈ l2 -> R x y).
Proof. rewrite StronglySorted_app. tauto. Qed.

Lemma filter_true {A} (P : A -> Prop) `{!forall x, Decision (P x)} l :
  Forall P l -> filter P l = l.
Proof. induction 1; rewrite ?filter_cons; [done|]. by rewrite decide_True, IHForall. Qed.

Lemma filter_false {A} (P : A -> Prop) `{!forall x, Decision (P x)} l :
  Forall (fun x => ~ P x) l -> filter P l = [].
Proof. induction 1; rewrite ?filter_cons; [done|]. by rewrite decide_False. Qed.

(** ** Sums *)

Definition zsum {A} (f : A -> Z) (l : list A) : Z := foldr (fun x n => f x + n) 0 l.

Lemma zsum_insert {A} (f : A -> Z) l i x y :
  l !! i = Some x -> zsum f (<[i := y]> l) = zsum f l - f x + f y.
Proof.
  revert i. induction l as [|z l IH]; intros [|i] E; simpl in *; [done|done| |].
  - injection E as ->. lia.
  - rewrite (IH i E). lia.
Qed.

Lemma zsum_app {A} (f : A -> Z) l1 l2 : zsum f (l1 ++ l2) = zsum f l1 + zsum f l2.
Proof. induction l1; simpl; lia. Qed.

Lemma zsum_ext {A} (f g : A -> Z) l : (forall x, x ∈ l -> f x = g x) -> zsum f l = zsum g l.
Proof.
  induction l as [|x l IH]; intros H; simpl; [done|]. rewrite H by (by left).
  rewrite IH; [done|]. intros y Hy. apply H. by right.
Qed.

Lemma zsum_add {A} (f g : A -> Z) l : zsum (fun x => f x + g x) l = zsum f l + zsum g l.
Proof. induction l; simpl; lia. Qed.

Lemma zsum_nonneg {A} (f : A -> Z) l : (forall x, 0 <= f x) -> 0 <= zsum f l.
Proof. intros H. induction l as [|x l IH]; simpl; [lia|]. specialize (H x). lia. Qed.

Lemma zsum_elem {A} (f : A -> Z) l i x : (forall x, 0 <= f x) -> l !! i = Some x -> f x <= zsum f l.
Proof.
  intros Hf. revert i. induction l as [|y l IH]; intros [|i] E; simpl in *; try done.
  - injection E as ->. pose proof (zsum_nonneg f l Hf). lia.
  - specialize (IH i E). specialize (Hf y). lia.
Qed.

Lemma zsum_zero {A} (f : A -> Z) l : Forall (fun x => f x = 0) l -> zsum f l = 0.
Proof. induction 1; simpl; lia. Qed.

Lemma take_seqZ n k : 0 <= n <= k -> take (Z.to_nat n) (seqZ 0 k) = seqZ 0 n.
Proof.
  intros Hn. replace k with (n + (k - n)) by lia. rewrite seqZ_app by lia. rewrite take_app_length'; [done|]. rewrite length_seqZ. lia.
Qed.

Lemma fmap_bind {A B C} (f : B -> C) (g : A -> list B) l : f <$> (l ≫= g) = l ≫= (fun x => f <$> g x).
Proof. induction l as [|x l IH]; [done|]. cbn. rewrite fmap_app. by f_equal. Qed.

Lemma bind_ext {A B} (f g : A -> list B) l : (forall x, x ∈ l -> f x = g x) -> l ≫= f = l ≫= g.
Proof. induction l as [|x l IH]; intros H; [done|]. cbn. rewrite (H x) by left. f_equal. apply IH. intros y Hy. apply H. by right. Qed.

Lemma length_bind_zsum {A B} (f : A -> list B) l : Z.of_nat (length (l ≫= f)) = zsum (fun x => Z.of_nat (length (f x))) l.
Proof. induction l as [|x l IH]; [done|]. cbn [mbind list_bind]. rewrite length_app. change (zsum _ (x :: l)) with (Z.of_nat (length (f x)) + zsum (fun x => Z.of_nat (length (f x))) l). rewrite <- IH. lia. Qed.

Lemma zsum_scale {A} (f : A -> Z) k l : zsum (fun x => f x * k) l = zsum f l * k.
Proof. induction l as [|x l IH]; [done|]. unfold zsum in *. cbn [foldr]. rewrite IH. lia. Qed.

Lemma zsum_fmap {A B} (f : B -> Z) (g : A -> B) l : zsum f (g <$> l) = zsum (fun x => f (g x)) l.
Proof. induction l as [|x l IH]; [done|]. unfold zsum in *. cbn [fmap list_fmap foldr]. by rewrite IH. Qed.

Lemma zsum_const {A} (f : A -> Z) k l : (forall x, x ∈ l -> f x = k) -> zsum f l = Z.of_nat (length l) * k.
Proof.
  induction l as [|x l IH]; intros H; [done|]. change (zsum f (x :: l)) with (f x + zsum f l). rewrite (H x) by left. rewrite IH; [cbn [length]; lia|].
  intros y Hy. apply H. by right.
Qed.

Lemma existsb_elem {A} (f : A -> bool) l : existsb f l = true <-> exists x, x ∈ l /\ f x = true.
Proof. rewrite existsb_exists. by setoid_rewrite list_elem_of_In. Qed.

(** ** Text *)

Definition EINVAL : Z := 22.

Definition is_space (c : Ascii.ascii) : bool :=
  let n := Ascii.N_of_ascii c in ((9 <=? n) && (n <=? 13) || (n =? 32))%N.

(** The text without the white space at its end. *)
Fixpoint trim_end (s : list Ascii.ascii) : list Ascii.ascii :=
  match s with
  | [] => []
  | c :: s' => match trim_end s' with [] => if is_space c then [] else [c] | s'' => c :: s'' end
  end.
