(* ===== verification/Bits.v ===== *)
(** * Machine-word helpers

    [highbit64] and [lowbit64] of [lib/libzpool/kernel.c], the power-of-two
    macros of [lib/libspl/include/sys/sysmacros.h] and the bit-field macros of
    [include/sys/spa.h].  Every on-disk encoding of the pool (space map
    entries, block pointers, metaslab weights) is built from these. *)

From S2P Require Import Prelude.

(** ** Definitions *)

Definition SPA_MINBLOCKSIZE : Z := 512.

(** One halving step of [highbit64]: [if (i & mask) { h += w; i >>= w; }] *)
Definition high_step (mask w : Z) (s : Z * Z) : Z * Z :=
  let '(h, i) := s in
  if Z.land i mask =? 0 then (h, i) else (h + w, Z.shiftr i w).

Definition highbit64 (i : Z) : Z :=
  if i =? 0 then 0 else
  let s := (1, i) in
  let s := high_step 0xffffffff00000000 32 s in
  let s := high_step 0xffff0000 16 s in
  let s := high_step 0xff00 8 s in
  let s := high_step 0xf0 4 s in
  let s := high_step 0xc 2 s in
  let '(h, i) := s in
  if Z.land i 0x2 =? 0 then h else h + 1.

(** One step of [lowbit64]: [if (i & mask) h -= w; else i >>= w;] *)
Definition low_step (mask w : Z) (s : Z * Z) : Z * Z :=
  let '(h, i) := s in
  if Z.land i mask =? 0 then (h, Z.shiftr i w) else (h - w, i).

Definition lowbit64 (i : Z) : Z :=
  if i =? 0 then 0 else
  let s := (64, i) in
  let s := low_step 0x00000000ffffffff 32 s in
  let s := low_step 0x0000ffff 16 s in
  let s := low_step 0x00ff 8 s in
  let s := low_step 0x0f 4 s in
  let s := low_step 0x3 2 s in
  let '(h, i) := s in
  if Z.land i 0x1 =? 0 then h else h - 1.

Definition P2PHASE (x align : Z) : Z := Z.land x (align - 1).
Definition P2ALIGN (x align : Z) : Z := Z.land x (wrap64 (- align)).
Definition P2ROUNDUP (x align : Z) : Z := wrap64 (Z.lor (wrap64 (x - 1)) (align - 1) + 1).

Definition BF64_DECODE (x low len : Z) : Z := P2PHASE (Z.shiftr x low) (Z.shiftl 1 len).
Definition BF64_ENCODE (x low len : Z) : Z :=
  wrap64 (Z.shiftl (P2PHASE x (Z.shiftl 1 len)) low).
Definition BF64_GET (x low len : Z) : Z := BF64_DECODE x low len.
Definition BF64_SET (x low len val : Z) : Z :=
  Z.lxor x (BF64_ENCODE (Z.lxor (Z.shiftr x low) val) low len).
Definition BF64_GET_SB (x low len shift bias : Z) : Z :=
  wrap64 (Z.shiftl (BF64_GET x low len + bias) shift).
Definition BF64_SET_SB (x low len shift bias val : Z) : Z :=
  BF64_SET x low len (wrap64 (Z.shiftr val shift - bias)).

(** ** Lemmas *)

Lemma shiftl1_pow n : 0 <= n -> Z.shiftl 1 n = 2 ^ n.
Proof. intros. rewrite Z.shiftl_mul_pow2; lia. Qed.

Lemma P2PHASE_mod x n : 0 <= n -> P2PHASE x (2 ^ n) = x mod 2 ^ n.
Proof.
  intros. unfold P2PHASE. replace (2 ^ n - 1) with (Z.ones n) by (rewrite Z.ones_equiv; lia).
  by apply Z.land_ones.
Qed.

Lemma BF64_DECODE_div x low len :
  0 <= low -> 0 <= len -> BF64_DECODE x low len = (x / 2 ^ low) mod 2 ^ len.
Proof.
  intros. unfold BF64_DECODE. rewrite shiftl1_pow, P2PHASE_mod, Z.shiftr_div_pow2 by lia. done.
Qed.

Lemma BF64_ENCODE_mul x low len :
  0 <= low -> 0 <= len -> low + len <= 64 ->
  BF64_ENCODE x low len = (x mod 2 ^ len) * 2 ^ low.
Proof.
  intros. unfold BF64_ENCODE. rewrite shiftl1_pow, P2PHASE_mod, Z.shiftl_mul_pow2 by lia.
  apply wrap64_small. pose proof (Z.mod_pos_bound x (2 ^ len) ltac:(lia)).
  assert (2 ^ low * 2 ^ len <= B64).
  { rewrite <- Z.pow_add_r by lia. change B64 with (2 ^ 64). apply Z.pow_le_mono_r; lia. }
  split; nia.
Qed.

Lemma testbit_DECODE x low len i :
  0 <= low -> 0 <= len -> 0 <= i ->
  Z.testbit (BF64_DECODE x low len) i = ((i <? len) && Z.testbit x (i + low))%bool.
Proof.
  intros. rewrite BF64_DECODE_div by lia. destruct (Z.ltb_spec i len).
  - rewrite Z.mod_pow2_bits_low by lia. by rewrite Z.div_pow2_bits by lia.
  - by rewrite Z.mod_pow2_bits_high by lia.
Qed.

Lemma testbit_ENCODE x low len i :
  0 <= low -> 0 <= len -> low + len <= 64 -> 0 <= i ->
  Z.testbit (BF64_ENCODE x low len) i =
  ((low <=? i) && (i <? low + len) && Z.testbit x (i - low))%bool.
Proof.
  intros. rewrite BF64_ENCODE_mul by lia. rewrite Z.mul_pow2_bits by lia.
  destruct (Z.leb_spec low i); simpl; [|by rewrite Z.testbit_neg_r by lia].
  destruct (Z.ltb_spec i (low + len)); simpl.
  - by rewrite Z.mod_pow2_bits_low by lia.
  - by rewrite Z.mod_pow2_bits_high by lia.
Qed.

#[export] Hint Rewrite testbit_DECODE testbit_ENCODE using lia : zbits.
#[export] Hint Rewrite Z.lxor_spec Z.lor_spec Z.land_spec : zbits.
#[export] Hint Rewrite Z.shiftr_spec using lia : zbits.
#[export] Hint Rewrite Z.shiftl_spec using lia : zbits.
#[export] Hint Rewrite Z.testbit_0_l : zbits.

(** Integer equality bit by bit, splitting on the comparisons that arise. *)
Ltac zbits :=
  apply Z.bits_inj'; intros ?i ?Hi; autorewrite with zbits;
  repeat (zcase_step; cbn [andb orb negb] in *; try lia; autorewrite with zbits).

Lemma testbit_high x n i : 0 <= n -> 0 <= x < 2 ^ n -> n <= i -> Z.testbit x i = false.
Proof.
  intros. destruct (decide (x = 0)) as [->|]; [apply Z.testbit_0_l|].
  apply Z.bits_above_log2; [lia|]. apply Z.log2_lt_pow2; [lia|].
  assert (2 ^ n <= 2 ^ i) by (apply Z.pow_le_mono_r; lia). lia.
Qed.

Lemma BF64_DECODE_range x low len : 0 <= low -> 0 <= len -> 0 <= BF64_DECODE x low len < 2 ^ len.
Proof. intros. rewrite BF64_DECODE_div by lia. apply Z.mod_pos_bound. lia. Qed.

(** Fields of a word assembled with [|] from encoded fields. *)
Lemma BF64_DECODE_lor a b low len :
  0 <= low -> 0 <= len ->
  BF64_DECODE (Z.lor a b) low len = Z.lor (BF64_DECODE a low len) (BF64_DECODE b low len).
Proof. intros. by zbits. Qed.

Lemma BF64_DECODE_ENCODE_same x low len :
  0 <= low -> 0 <= len -> low + len <= 64 -> 0 <= x < 2 ^ len ->
  BF64_DECODE (BF64_ENCODE x low len) low len = x.
Proof.
  intros. zbits.
  - f_equal. lia.
  - symmetry. by apply (testbit_high x len).
Qed.

Lemma BF64_DECODE_ENCODE_apart x low len low' len' :
  0 <= low -> 0 <= len -> low + len <= 64 -> 0 <= low' -> 0 <= len' ->
  low + len <= low' \/ low' + len' <= low ->
  BF64_DECODE (BF64_ENCODE x low len) low' len' = 0.
Proof. intros. zbits; by rewrite ?Z.bits_0. Qed.

Create Rewrite HintDb bf64.
#[export] Hint Rewrite BF64_DECODE_lor BF64_DECODE_ENCODE_same BF64_DECODE_ENCODE_apart using lia : bf64.
#[export] Hint Rewrite Z.lor_0_l Z.lor_0_r : bf64.

(** A masked value is zero exactly when the value has no bit at or above [w]. *)
Lemma land_high_zero i w :
  0 <= w -> 0 <= i < 2 ^ (w + w) ->
  (Z.land i (Z.shiftl (Z.ones w) w) =? 0) = (i <? 2 ^ w).
Proof.
  intros Hw Hi.
  assert (E : Z.land i (Z.shiftl (Z.ones w) w) = Z.shiftl (Z.shiftr i w) w).
  { apply Z.bits_inj'. intros n Hn. rewrite Z.land_spec, !Z.shiftl_spec by lia.
    destruct (Z.ltb_spec n w).
    { rewrite !(Z.testbit_neg_r _ (n - w)) by lia. by rewrite andb_false_r. }
    rewrite Z.shiftr_spec by lia. replace (n - w + w) with n by lia.
    destruct (Z.ltb_spec n (w + w)).
    - rewrite Z.ones_spec_low by lia. by rewrite andb_true_r.
    - by rewrite (testbit_high i (w + w) n) by lia. }
  rewrite E, Z.shiftr_div_pow2, Z.shiftl_mul_pow2 by lia.
  destruct (Z.ltb_spec i (2 ^ w)).
  - rewrite Z.div_small by lia. done.
  - assert (1 <= i / 2 ^ w) by (apply Z.div_le_lower_bound; lia). apply Z.eqb_neq. nia.
Qed.

Lemma high_step_spec w mask h i :
  0 <= w -> mask = Z.shiftl (Z.ones w) w -> 0 < i < 2 ^ (w + w) ->
  exists h' i', high_step mask w (h, i) = (h', i') /\ 0 < i' < 2 ^ w /\
    h' + Z.log2 i' = h + Z.log2 i.
Proof.
  intros Hw -> Hi. unfold high_step. rewrite land_high_zero by lia.
  destruct (Z.ltb_spec i (2 ^ w)).
  - exists h, i. split_and!; auto; lia.
  - exists (h + w), (Z.shiftr i w). rewrite Z.log2_shiftr by lia.
    rewrite Z.shiftr_div_pow2 by lia. rewrite Z.pow_add_r in Hi by lia.
    assert (1 <= i / 2 ^ w) by (apply Z.div_le_lower_bound; lia).
    assert (i / 2 ^ w < 2 ^ w) by (apply Z.div_lt_upper_bound; lia).
    assert (w <= Z.log2 i) by (apply Z.log2_le_pow2; lia).
    split_and!; auto; lia.
Qed.

Lemma highbit64_log2 i : 0 < i < B64 -> highbit64 i = Z.log2 i + 1.
Proof.
  intros Hi. unfold highbit64. rewrite (proj2 (Z.eqb_neq i 0)) by lia.
  destruct (high_step_spec 32 0xffffffff00000000 1 i) as (h1 & i1 & -> & H1 & E1); [lia|done|lia|].
  destruct (high_step_spec 16 0xffff0000 h1 i1) as (h2 & i2 & -> & H2 & E2); [lia|done|lia|].
  destruct (high_step_spec 8 0xff00 h2 i2) as (h3 & i3 & -> & H3 & E3); [lia|done|lia|].
  destruct (high_step_spec 4 0xf0 h3 i3) as (h4 & i4 & -> & H4 & E4); [lia|done|lia|].
  destruct (high_step_spec 2 0xc h4 i4) as (h5 & i5 & -> & H5 & E5); [lia|done|lia|].
  assert (i5 = 1 \/ i5 = 2 \/ i5 = 3) as [->|[->| ->]] by lia; simpl in *; lia.
Qed.

Lemma highbit64_range i : is_u64 i -> 0 <= highbit64 i <= 64.
Proof.
  intros Hi. destruct (decide (i = 0)) as [->|]; [done|]. unfold is_u64 in Hi.
  rewrite highbit64_log2 by lia. pose proof (Z.log2_nonneg i).
  assert (Z.log2 i < 64) by (apply Z.log2_lt_pow2; lia). lia.
Qed.

(** [lowbit64] looks for the exponent of the largest power of two dividing. *)
Lemma low_step_spec w mask h i k :
  0 <= w -> mask = Z.ones w -> (exists j, i = 2 ^ k * (2 * j + 1) /\ 0 <= j) -> 0 <= k < w + w ->
  exists h' i' k', low_step mask w (h, i) = (h', i') /\
    (exists j, i' = 2 ^ k' * (2 * j + 1) /\ 0 <= j) /\ 0 <= k' < w /\ h' - w + k' = h - (w + w) + k.
Proof.
  intros Hw -> (j & -> & Hj) Hk. unfold low_step. rewrite Z.land_ones by lia.
  destruct (Z.ltb_spec k w).
  - destruct (Z.eqb_spec ((2 ^ k * (2 * j + 1)) mod 2 ^ w) 0) as [E|E].
    + exfalso. apply Z.mod_divide in E; [|lia]. destruct E as [z E].
      replace w with (k + 1 + (w - k - 1)) in E by lia. rewrite !Z.pow_add_r in E by lia.
      assert (2 ^ k * (2 * j + 1 - 2 * (z * 2 ^ (w - k - 1))) = 0) by (rewrite Z.pow_1_r in E; lia).
      apply Z.mul_eq_0 in H0 as [?|?]; lia.
    + exists (h - w), (2 ^ k * (2 * j + 1)), k. split_and!; eauto; lia.
  - assert (Hp : 2 ^ k = 2 ^ (k - w) * 2 ^ w) by (rewrite <- Z.pow_add_r by lia; f_equal; lia).
    replace (2 ^ k * (2 * j + 1)) with (2 ^ (k - w) * (2 * j + 1) * 2 ^ w) by (rewrite Hp; ring).
    rewrite Z.mod_mul by lia. simpl.
    rewrite Z.shiftr_div_pow2, Z.div_mul by lia.
    exists h, (2 ^ (k - w) * (2 * j + 1)), (k - w). split_and!; eauto; lia.
Qed.

Lemma lowbit64_odd k j :
  0 <= k -> 0 <= j -> 2 ^ k * (2 * j + 1) < B64 -> lowbit64 (2 ^ k * (2 * j + 1)) = k + 1.
Proof.
  intros Hk Hj Hlt. assert (k < 64).
  { destruct (Z.ltb_spec k 64); [done|]. assert (2 ^ 64 <= 2 ^ k) by (apply Z.pow_le_mono_r; lia). nia. }
  assert (0 < 2 ^ k) by (apply Z.pow_pos_nonneg; lia).
  unfold lowbit64. rewrite (proj2 (Z.eqb_neq _ 0)) by nia.
  assert (Ho : exists j', 2 ^ k * (2 * j + 1) = 2 ^ k * (2 * j' + 1) /\ 0 <= j') by eauto.
  revert Ho. generalize (2 ^ k * (2 * j + 1)) as i. intros i Ho.
  destruct (low_step_spec 32 0xffffffff 64 i k) as (h1 & i1 & k1 & -> & O1 & K1 & E1); [lia|done|done|lia|].
  destruct (low_step_spec 16 0xffff h1 i1 k1) as (h2 & i2 & k2 & -> & O2 & K2 & E2); [lia|done|done|lia|].
  destruct (low_step_spec 8 0xff h2 i2 k2) as (h3 & i3 & k3 & -> & O3 & K3 & E3); [lia|done|done|lia|].
  destruct (low_step_spec 4 0xf h3 i3 k3) as (h4 & i4 & k4 & -> & O4 & K4 & E4); [lia|done|done|lia|].
  destruct (low_step_spec 2 0x3 h4 i4 k4) as (h5 & i5 & k5 & -> & O5 & K5 & E5); [lia|done|done|lia|].
  destruct O5 as (j5 & -> & Hj5). 
  match goal with |- context [Z.land ?x 1] => change (Z.land x 1) with (Z.land x (Z.ones 1)) end.
  rewrite Z.land_ones by lia.
  assert (k5 = 0 \/ k5 = 1) as [-> | ->] by lia.
  - replace ((2 ^ 0 * (2 * j5 + 1)) mod 2 ^ 1) with 1; [simpl; lia|].
    rewrite Z.mul_1_l, Z.add_comm, Z.mul_comm. symmetry. by rewrite Z.mod_add.
  - replace ((2 ^ 1 * (2 * j5 + 1)) mod 2 ^ 1) with 0; [simpl; lia|].
    rewrite Z.mul_comm. symmetry. by apply Z.mod_mul.
Qed.

(** A word is [n] bits wide when it has no bit at or above [n]. *)
Lemma width_of_bits n z :
  0 <= n -> (forall i, n <= i -> Z.testbit z i = false) -> 0 <= z < 2 ^ n.
Proof.
  intros Hn Hb. replace z with (z mod 2 ^ n); [apply Z.mod_pos_bound; lia|].
  apply Z.bits_inj'. intros i Hi. destruct (Z.ltb_spec i n).
  - by rewrite Z.mod_pow2_bits_low by lia.
  - by rewrite Z.mod_pow2_bits_high, Hb by lia.
Qed.

Lemma u64_of_bits z : (forall i, 64 <= i -> Z.testbit z i = false) -> is_u64 z.
Proof. intros. by apply (width_of_bits 64). Qed.

Lemma u64_testbit z i : is_u64 z -> 64 <= i -> Z.testbit z i = false.
Proof. intros. by apply (testbit_high z 64). Qed.

Lemma lxor_u64 a b : is_u64 a -> is_u64 b -> is_u64 (Z.lxor a b).
Proof. intros. apply u64_of_bits. intros. by rewrite Z.lxor_spec, !u64_testbit. Qed.

Lemma lor_u64 a b : is_u64 a -> is_u64 b -> is_u64 (Z.lor a b).
Proof. intros. apply u64_of_bits. intros. by rewrite Z.lor_spec, !u64_testbit. Qed.

Lemma land_u64 a b : is_u64 a -> is_u64 (Z.land a b).
Proof. intros. apply u64_of_bits. intros. by rewrite Z.land_spec, (u64_testbit a). Qed.

Lemma BF64_ENCODE_u64 x low len :
  0 <= low -> 0 <= len -> low + len <= 64 -> is_u64 (BF64_ENCODE x low len).
Proof. intros. apply wrap64_range. Qed.
#[export] Hint Resolve lxor_u64 lor_u64 land_u64 BF64_ENCODE_u64 : zfs.

(** Every positive number is a power of two times an odd number. *)
Lemma odd_part i : 0 < i -> exists k j, 0 <= k /\ 0 <= j /\ i = 2 ^ k * (2 * j + 1).
Proof.
  revert i. apply (well_founded_induction (Z.lt_wf 0) (fun i => 0 < i -> _)).
  intros i IH Hi. destruct (Z.Even_or_Odd i) as [[z Ez]|[z Ez]].
  - destruct (IH z) as (k & j & Hk & Hj & ->); [lia|lia|].
    exists (k + 1), j. rewrite Z.pow_add_r by lia. split_and!; lia.
  - exists 0, z. split_and!; lia.
Qed.

(** ** Alignment *)

Lemma P2ALIGN_div x k : is_u64 x -> 0 <= k < 64 -> P2ALIGN x (2 ^ k) = x / 2 ^ k * 2 ^ k.
Proof.
  intros Hx Hk. unfold P2ALIGN, wrap64. change B64 with (2 ^ 64).
  rewrite <- Z.shiftr_div_pow2, <- Z.shiftl_mul_pow2 by lia.
  replace (- 2 ^ k) with (Z.shiftl (-1) k) by (rewrite Z.shiftl_mul_pow2; lia).
  apply Z.bits_inj'. intros i Hi. rewrite Z.land_spec, Z.shiftl_spec by lia.
  destruct (Z.ltb_spec i 64).
  - rewrite Z.mod_pow2_bits_low, Z.shiftl_spec by lia. destruct (Z.leb_spec k i).
    + rewrite Z.shiftr_spec, Z.bits_m1 by lia. rewrite andb_true_r. f_equal. lia.
    + by rewrite !(Z.testbit_neg_r _ (i - k)), andb_false_r by lia.
  - rewrite Z.mod_pow2_bits_high, andb_false_r by lia. rewrite Z.shiftr_spec by lia.
    symmetry. apply u64_testbit; [done|lia].
Qed.

Lemma lor_shiftl_add a b n : 0 <= n -> 0 <= b < 2 ^ n -> Z.lor (Z.shiftl a n) b = a * 2 ^ n + b.
Proof.
  intros Hn Hb. rewrite Z.shiftl_mul_pow2 by done. symmetry. rewrite <- Z.lxor_lor, <- Z.add_nocarry_lxor; try done;
    apply Z.bits_inj'; intros i Hi; rewrite Z.land_spec, Z.bits_0; (destruct (Z.ltb_spec i n);
    [by rewrite Z.mul_pow2_bits_low by lia|by rewrite (testbit_high b n i), andb_false_r by lia]).
Qed.

Lemma lor_ones y k : 0 <= k -> Z.lor y (2 ^ k - 1) = y / 2 ^ k * 2 ^ k + (2 ^ k - 1).
Proof.
  intros Hk. replace (2 ^ k - 1) with (Z.ones k) by (rewrite Z.ones_equiv; lia).
  assert (0 < 2 ^ k) by (apply Z.pow_pos_nonneg; lia).
  rewrite <- Z.shiftr_div_pow2, <- Z.shiftl_mul_pow2 by lia.
  assert (Hd : Z.land (Z.shiftl (Z.shiftr y k) k) (Z.ones k) = 0).
  { rewrite Z.land_ones, Z.shiftl_mul_pow2 by lia. apply Z.mod_mul. lia. }
  rewrite (Z.add_nocarry_lxor _ _ Hd), (Z.lxor_lor _ _ Hd).
  apply Z.bits_inj'. intros i Hi. rewrite !Z.lor_spec, Z.shiftl_spec by lia.
  destruct (Z.ltb_spec i k).
  - rewrite Z.ones_spec_low by lia. by rewrite !orb_true_r.
  - rewrite Z.ones_spec_high, Z.shiftr_spec by lia. rewrite !orb_false_r. f_equal. lia.
Qed.

Lemma pow_pos k : 0 <= k -> 0 < 2 ^ k.
Proof. intros. apply Z.pow_pos_nonneg; lia. Qed.

Lemma P2ROUNDUP_0 k : 0 <= k < 64 -> P2ROUNDUP 0 (2 ^ k) = 0.
Proof.
  intros Hk. unfold P2ROUNDUP. change (wrap64 (0 - 1)) with (2 ^ 64 - 1).
  pose proof (pow_pos k). assert (2 ^ k <= 2 ^ 64) by (apply Z.pow_le_mono_r; lia).
  rewrite Z.lor_comm, lor_ones, Z.div_small by lia. done.
Qed.

Lemma P2ROUNDUP_div x k :
  0 < x < B64 -> 0 <= k < 64 -> P2ROUNDUP x (2 ^ k) = wrap64 (((x - 1) / 2 ^ k + 1) * 2 ^ k).
Proof.
  intros Hx Hk. unfold P2ROUNDUP. rewrite (wrap64_small (x - 1)) by (unfold is_u64; lia).
  rewrite lor_ones by lia. f_equal. lia.
Qed.

Lemma P2ROUNDUP_spec x k :
  0 <= x <= B64 - 2 ^ k -> 0 <= k < 64 ->
  (2 ^ k | P2ROUNDUP x (2 ^ k)) /\ x <= P2ROUNDUP x (2 ^ k) < x + 2 ^ k.
Proof.
  intros Hx Hk. pose proof (pow_pos k ltac:(lia)) as Hp.
  destruct (Z.eq_dec x 0) as [->|Hne].
  { rewrite P2ROUNDUP_0 by lia. split; [apply Z.divide_0_r|lia]. }
  rewrite P2ROUNDUP_div by lia.
  pose proof (Z.div_mod (x - 1) (2 ^ k)) as Hd. pose proof (Z.mod_pos_bound (x - 1) (2 ^ k)) as Hm.
  assert (Hlt : (x - 1) / 2 ^ k < 2 ^ (64 - k) - 1).
  { apply Z.div_lt_upper_bound; [lia|]. rewrite Z.mul_sub_distr_l, <- Z.pow_add_r by lia.
    replace (k + (64 - k)) with 64 by lia. lia. }
  rewrite wrap64_small.
  - split; [apply Z.divide_factor_r|]. lia.
  - assert (2 ^ (64 - k) * 2 ^ k = B64).
    { rewrite <- Z.pow_add_r by lia. by replace (64 - k + k) with 64 by lia. }
    unfold is_u64. nia.
Qed.

(** ** Bit fields as lenses *)

Section Fields.
Context (x low len v : Z).
Context (Hx : is_u64 x) (Hl : 0 <= low) (Hn : 0 <= len) (Hw : low + len <= 64) (Hv : 0 <= v < 2 ^ len).

Lemma BF64_GET_SET_same : BF64_GET (BF64_SET x low len v) low len = v.
Proof.
  unfold BF64_GET, BF64_SET. zbits.
  - rewrite !Z.add_simpl_r. by destruct (Z.testbit x (i + low)), (Z.testbit v i).
  - by rewrite (testbit_high v len) by lia.
Qed.

Lemma BF64_GET_SET_other low' len' :
  0 <= low' -> 0 <= len' -> low + len <= low' \/ low' + len' <= low ->
  BF64_GET (BF64_SET x low len v) low' len' = BF64_GET x low' len'.
Proof. intros. unfold BF64_GET, BF64_SET. zbits; by rewrite ?xorb_false_r. Qed.

Lemma BF64_SET_GET : BF64_SET x low len (BF64_GET x low len) = x.
Proof.
  unfold BF64_GET, BF64_SET. zbits; rewrite ?xorb_false_r; try done.
  replace (i - low + low) with i by lia. by rewrite xorb_nilpotent, xorb_false_r.
Qed.

Lemma BF64_SET_u64 : is_u64 (BF64_SET x low len v).
Proof. unfold BF64_SET. auto with zfs. Qed.

End Fields.
#[export] Hint Resolve BF64_SET_u64 : zfs.

(** ** Properties *)

(** For a 64-bit word, [highbit64] returns one more than the index of its
    highest one bit and [lowbit64] one more than the index of its lowest, both
    found by binary search over halves of the word; both return 0 for 0. *)
Theorem bit_search_correct :
  highbit64 0 = 0 /\ lowbit64 0 = 0 /\
  (forall i, 0 < i < B64 ->
     2 ^ (highbit64 i - 1) <= i < 2 ^ highbit64 i /\
     (2 ^ (lowbit64 i - 1) | i) /\ ~ (2 ^ lowbit64 i | i)).
Proof.
  split_and!; [done|done|]. intros i Hi. split.
  { rewrite highbit64_log2 by lia. replace (Z.log2 i + 1 - 1) with (Z.log2 i) by lia.
    rewrite Z.add_1_r. apply Z.log2_spec. lia. }
  destruct (odd_part i) as (k & j & Hk & Hj & ->); [lia|].
  rewrite lowbit64_odd by lia. replace (k + 1 - 1) with k by lia.
  split; [apply Z.divide_factor_l|]. intros [z Hz]. rewrite Z.pow_add_r, Z.pow_1_r in Hz by lia.
  assert (0 < 2 ^ k) by (apply Z.pow_pos_nonneg; lia).
  assert (2 * j + 1 = 2 * z) by nia. lia.
Qed.

(** On 64-bit words and a power-of-two alignment, [P2PHASE] is the
    remainder, [P2ALIGN] the greatest multiple not above the word and
    [P2ROUNDUP] the least multiple not below it, when that is a 64-bit word. *)
Theorem p2_macros_correct x k :
  is_u64 x -> 0 <= k < 64 ->
  P2PHASE x (2 ^ k) = x mod 2 ^ k /\
  (2 ^ k | P2ALIGN x (2 ^ k)) /\ P2ALIGN x (2 ^ k) <= x < P2ALIGN x (2 ^ k) + 2 ^ k /\
  (x <= B64 - 2 ^ k ->
     (2 ^ k | P2ROUNDUP x (2 ^ k)) /\ x <= P2ROUNDUP x (2 ^ k) < x + 2 ^ k).
Proof.
  intros Hx Hk. pose proof (pow_pos k ltac:(lia)) as Hp. pose proof Hx as [Hx0 Hx1].
  rewrite P2PHASE_mod, P2ALIGN_div by (done || lia). split; [done|]. split; [apply Z.divide_factor_r|].
  split; [pose proof (Z.div_mod x (2 ^ k)); pose proof (Z.mod_pos_bound x (2 ^ k)); lia|].
  intros Hle. by apply P2ROUNDUP_spec.
Qed.

(** The bit-field macros obey the laws of a lens: reading a field just
    written gives the value written, other fields keep their values, writing
    back what was read changes nothing, and the word stays 64 bits wide. *)
Theorem bitfield_laws x low len v low' len' :
  is_u64 x -> 0 <= low -> 0 <= len -> low + len <= 64 -> 0 <= v < 2 ^ len ->
  0 <= low' -> 0 <= len' -> (low + len <= low' \/ low' + len' <= low) ->
  BF64_GET (BF64_SET x low len v) low len = v /\
  BF64_GET (BF64_SET x low len v) low' len' = BF64_GET x low' len' /\
  BF64_SET x low len (BF64_GET x low len) = x /\
  is_u64 (BF64_SET x low len v).
Proof.
  intros. split_and!; auto using BF64_GET_SET_same, BF64_GET_SET_other, BF64_SET_GET, BF64_SET_u64.
Qed.

Lemma p2_macros_correct_witness :
  (4096 | P2ROUNDUP 5000 4096) /\ 5000 <= P2ROUNDUP 5000 4096 < 5000 + 4096.
Proof. apply (p2_macros_correct 5000 12); [by split|lia|done]. Defined.

Lemma bitfield_laws_witness :
  BF64_GET (BF64_SET 0xabcdef 8 8 0x42) 8 8 = 0x42 /\
  BF64_GET (BF64_SET 0xabcdef 8 8 0x42) 16 16 = BF64_GET 0xabcdef 16 16.
Proof.
  destruct (bitfield_laws 0xabcdef 8 8 0x42 16 16) as (H1 & H2 & _); [by split|lia..|].
  by split.
Defined.
