(* ===== verification/Buffer.v ===== *)
(** * Byte buffers addressed by index

    The codecs work on two raw buffers, reading one and writing the other
    through pointers that move forwards.  A buffer is the list of its bytes, a
    pointer into it an index.  An access outside the buffer is a [Panic], so a
    theorem that a function returns includes that it stays inside its buffers.
    The file also has the copy with a distance that every dictionary coder
    uses, whose source may overlap its target. *)

From S2P Require Import Prelude.

Abbreviation zlen b := (Z.of_nat (length b)).

Definition get (b : list Z) (i : Z) : res Z :=
  if 0 <=? i then deref (b !! Z.to_nat i) else Panic.

Definition put (b : list Z) (i v : Z) : res (list Z) :=
  VERIFY (0 <=? i) && (i <? zlen b) ;; Ok (<[Z.to_nat i := wrap8 v]> b).

(** Several bytes at once: [memcpy] and accesses wider than a byte. *)
Definition get_n (b : list Z) (i n : Z) : res (list Z) :=
  VERIFY (0 <=? i) && (0 <=? n) && (i + n <=? zlen b) ;; Ok (take (Z.to_nat n) (drop (Z.to_nat i) b)).

Definition put_n (b : list Z) (i : Z) (vs : list Z) : res (list Z) :=
  VERIFY (0 <=? i) && (i + zlen vs <=? zlen b) ;; Ok (list_inserts (Z.to_nat i) vs b).

(** The word of some bytes, the first the least significant. *)
Fixpoint le_word (bs : list Z) : Z :=
  match bs with
  | [] => 0
  | b :: bs' => b + 256 * le_word bs'
  end.

(** The bytes of a word. *)
Fixpoint le_bytes (n : nat) (w : Z) : list Z :=
  match n with
  | O => []
  | S n' => wrap8 w :: le_bytes n' (w / 256)
  end.

(** ** Reading and writing *)

(** The byte at an index of the buffer. *)
Definition byte (b : list Z) (i : Z) : Z := nth (Z.to_nat i) b 0.

Lemma byte_lookup b i v : b !! Z.to_nat i = Some v -> byte b i = v.
Proof. intros H. unfold byte. rewrite nth_lookup, H. done. Qed.

Lemma lookup_byte b i : 0 <= i < zlen b -> b !! Z.to_nat i = Some (byte b i).
Proof.
  intros Hi. destruct (lookup_lt_is_Some_2 b (Z.to_nat i)) as [v Hv]; [lia|]. by rewrite Hv, (byte_lookup b i v).
Qed.

Lemma get_ok b i : 0 <= i < zlen b -> get b i = Ok (byte b i).
Proof. intros Hi. unfold get. rewrite (proj2 (Z.leb_le 0 i)), lookup_byte by lia. done. Qed.

Lemma put_ok b i v : 0 <= i < zlen b -> put b i v = Ok (<[Z.to_nat i := wrap8 v]> b).
Proof. intros Hi. unfold put. by rewrite (proj2 (Z.leb_le 0 i)), (proj2 (Z.ltb_lt _ _)) by lia. Qed.

Lemma get_n_ok b i n :
  0 <= i -> 0 <= n -> i + n <= zlen b -> get_n b i n = Ok (take (Z.to_nat n) (drop (Z.to_nat i) b)).
Proof. intros Hi Hn Hb. unfold get_n. by rewrite !(proj2 (Z.leb_le _ _)) by lia. Qed.

Lemma put_n_ok b i vs : 0 <= i -> i + zlen vs <= zlen b -> put_n b i vs = Ok (list_inserts (Z.to_nat i) vs b).
Proof. intros Hi Hb. unfold put_n. by rewrite !(proj2 (Z.leb_le _ _)) by lia. Qed.

Lemma wrap8_small v : is_u8 v -> wrap8 v = v.
Proof. apply Z.mod_small. Qed.

Lemma wrap8_range v : is_u8 (wrap8 v).
Proof. apply Z.mod_pos_bound. lia. Qed.

Lemma byte_u8 b i : Forall is_u8 b -> is_u8 (byte b i).
Proof.
  intros H. unfold byte. destruct (nth_in_or_default (Z.to_nat i) b 0) as [Hin| ->]; [|by split].
  rewrite Forall_forall in H. apply H. by apply list_elem_of_In.
Qed.

(** ** A buffer filled up to a position

    The writing loops keep their target in the form [out ++ rest], with the
    position at the end of [out]. *)

Lemma byte_app_l out rest i : 0 <= i < zlen out -> byte (out ++ rest) i = byte out i.
Proof. intros Hi. unfold byte. rewrite app_nth1; [done|lia]. Qed.

Lemma put_next out r rest v : put (out ++ r :: rest) (zlen out) v = Ok (out ++ wrap8 v :: rest).
Proof.
  rewrite put_ok by (rewrite length_app; simpl; lia). f_equal. rewrite Nat2Z.id.
  replace (length out) with (length out + 0)%nat by lia. by rewrite insert_app_r.
Qed.

(** There is room for one more byte. *)
Lemma room_cons (rest : list Z) n : 0 < n -> n <= zlen rest -> exists r rest', rest = r :: rest' /\ n - 1 <= zlen rest'.
Proof. destruct rest as [|r rest']; simpl; [lia|]. intros. exists r, rest'. split; [done|lia]. Qed.

Lemma put_n_next out mid rest vs :
  length mid = length vs -> put_n (out ++ mid ++ rest) (zlen out) vs = Ok (out ++ vs ++ rest).
Proof.
  intros Hl. rewrite put_n_ok by (rewrite ?length_app; lia). f_equal. rewrite Nat2Z.id.
  replace (length out) with (length out + 0)%nat by lia. rewrite list_inserts_app_r. f_equal.
  by rewrite list_inserts_0_r.
Qed.

Lemma byte_app_r l1 l2 i : zlen l1 <= i -> byte (l1 ++ l2) i = byte l2 (i - zlen l1).
Proof. intros Hi. unfold byte. rewrite app_nth2 by lia. f_equal. lia. Qed.

(** The part of a list before an index. *)
Lemma split_at (l : list Z) n : 0 <= n <= zlen l -> exists l1 l2, l = l1 ++ l2 /\ zlen l1 = n.
Proof. intros Hn. exists (take (Z.to_nat n) l), (drop (Z.to_nat n) l). rewrite take_drop, length_take. split; [done|lia]. Qed.

(** ** Copies with a distance *)

(** [n] times: append the byte [off] before the end. *)
Fixpoint lz_copy (n : nat) (out : list Z) (off : Z) : list Z :=
  match n with
  | O => out
  | S n' => lz_copy n' (out ++ [byte out (zlen out - off)]) off
  end.

Lemma length_lz_copy n out off : length (lz_copy n out off) = (length out + n)%nat.
Proof. revert out. induction n as [|n IH]; intros out; simpl; [lia|]. rewrite IH, length_app. simpl. lia. Qed.

Lemma lz_copy_add n k out off : lz_copy (n + k) out off = lz_copy k (lz_copy n out off) off.
Proof. revert out. induction n as [|n IH]; intros out; simpl; [done|]. apply IH. Qed.

Lemma take_byte_S s a : 0 <= a < zlen s -> take (Z.to_nat (a + 1)) s = take (Z.to_nat a) s ++ [byte s a].
Proof.
  intros Ha. replace (Z.to_nat (a + 1)) with (S (Z.to_nat a)) by lia. apply take_S_r. by apply lookup_byte.
Qed.

Lemma byte_take s a i : 0 <= i < a -> byte (take (Z.to_nat a) s) i = byte s i.
Proof. intros Hi. unfold byte. rewrite !nth_lookup, lookup_take_lt; [done|lia]. Qed.

(** The copy that reproduces a part of [s] which repeats at the distance [off]. *)
Lemma lz_copy_source s a off n :
  0 < off <= a -> 0 <= n -> a + n <= zlen s ->
  (forall j, 0 <= j < n -> byte s (a + j) = byte s (a + j - off)) ->
  lz_copy (Z.to_nat n) (take (Z.to_nat a) s) off = take (Z.to_nat (a + n)) s.
Proof.
  intros Ho Hn Hs Hb. rewrite <- (Z2Nat.id n) in Hs, Hb |- * by done. rewrite Nat2Z.id.
  set (k := Z.to_nat n) in *. clearbody k. clear n Hn. revert a Ho Hs Hb. induction k as [|k IH]; intros a Ho Hs Hb.
  { simpl. by rewrite Z.add_0_r. }
  simpl. rewrite length_take_le, Z2Nat.id by lia.
  rewrite byte_take by lia. specialize (Hb 0 ltac:(lia)) as H0. rewrite Z.add_0_r in H0. rewrite <- H0, <- take_byte_S by lia.
  rewrite IH; [f_equal; lia|lia|lia|]. intros j Hj. specialize (Hb (j + 1) ltac:(lia)).
  by replace (a + 1 + j) with (a + (j + 1)) by lia.
Qed.

(** ** Words *)

Lemma le_word_range bs : Forall is_u8 bs -> 0 <= le_word bs < 256 ^ zlen bs.
Proof.
  intros H. induction H as [|b bs Hb H IH]; [by simpl|]. unfold is_u8 in Hb. cbn [le_word length].
  rewrite Nat2Z.inj_succ, Z.pow_succ_r by lia. lia.
Qed.

Lemma le_word_inj x y : length x = length y -> Forall is_u8 x -> Forall is_u8 y -> le_word x = le_word y -> x = y.
Proof.
  intros Hl Hx. revert y Hl. induction Hx as [|b x Hb Hx IH]; intros [|c y] Hl Hy E; try done.
  apply Forall_cons in Hy as [Hc Hy]. unfold is_u8 in *. cbn [le_word] in E. assert (b = c) as -> by lia.
  f_equal. apply IH; [by injection Hl|done|lia].
Qed.

Lemma length_le_bytes n w : length (le_bytes n w) = n.
Proof. revert w. induction n as [|n IH]; intros w; simpl; [done|]. by rewrite IH. Qed.

Lemma le_bytes_u8 n w : Forall is_u8 (le_bytes n w).
Proof. revert w. induction n as [|n IH]; intros w; constructor; [apply wrap8_range|apply IH]. Qed.

Lemma le_word_bytes n w : 0 <= w < 256 ^ Z.of_nat n -> le_word (le_bytes n w) = w.
Proof.
  revert w. induction n as [|n IH]; intros w Hw; [simpl in *; lia|]. cbn [le_bytes le_word].
  rewrite Nat2Z.inj_succ, Z.pow_succ_r in Hw by lia. rewrite IH.
  - unfold wrap8. pose proof (Z.div_mod w 256). lia.
  - split; [apply Z.div_pos; lia|apply Z.div_lt_upper_bound; lia].
Qed.

Lemma le_bytes_word n bs : length bs = n -> Forall is_u8 bs -> le_bytes n (le_word bs) = bs.
Proof.
  intros <- H. apply le_word_inj; [by rewrite length_le_bytes|apply le_bytes_u8|done|]. apply le_word_bytes. by apply le_word_range.
Qed.

(** ** Parts of a buffer *)

(** The bytes from [a] on and before [b]. *)
Definition sub_bytes (s : list Z) (a b : Z) : list Z := take (Z.to_nat (b - a)) (drop (Z.to_nat a) s).

Lemma sub_bytes_nil s a : sub_bytes s a a = [].
Proof. unfold sub_bytes. by rewrite Z.sub_diag. Qed.

Lemma sub_bytes_0 s b : sub_bytes s 0 b = take (Z.to_nat b) s.
Proof. unfold sub_bytes. by rewrite Z.sub_0_r. Qed.

Lemma length_sub_bytes s a b : 0 <= a <= b -> b <= zlen s -> zlen (sub_bytes s a b) = b - a.
Proof. intros Ha Hb. unfold sub_bytes. rewrite length_take, length_drop. lia. Qed.

Lemma sub_bytes_app s a b c : 0 <= a <= b -> b <= c -> sub_bytes s a b ++ sub_bytes s b c = sub_bytes s a c.
Proof.
  intros Ha Hb. unfold sub_bytes. replace (Z.to_nat b) with (Z.to_nat a + Z.to_nat (b - a))%nat by lia.
  rewrite <- drop_drop, take_take_drop. f_equal. lia.
Qed.

Lemma sub_bytes_1 s a : 0 <= a < zlen s -> sub_bytes s a (a + 1) = [byte s a].
Proof.
  intros Ha. unfold sub_bytes. replace (a + 1 - a) with 1 by lia. change (Z.to_nat 1) with 1%nat.
  apply lookup_byte in Ha. apply drop_S in Ha. by rewrite Ha.
Qed.

Lemma sub_bytes_snoc s a b : 0 <= a <= b -> b < zlen s -> sub_bytes s a (b + 1) = sub_bytes s a b ++ [byte s b].
Proof. intros Ha Hb. rewrite <- (sub_bytes_app s a b (b + 1)), sub_bytes_1 by lia. done. Qed.

Lemma sub_bytes_cons s a b : 0 <= a < b -> b <= zlen s -> sub_bytes s a b = byte s a :: sub_bytes s (a + 1) b.
Proof. intros Ha Hb. rewrite <- (sub_bytes_app s a (a + 1) b), sub_bytes_1 by lia. done. Qed.

Lemma sub_bytes_u8 s a b : Forall is_u8 s -> Forall is_u8 (sub_bytes s a b).
Proof. intros H. by apply Forall_take, Forall_drop. Qed.

Lemma byte_sub_bytes s a b i : 0 <= a -> 0 <= i < b - a -> byte (sub_bytes s a b) i = byte s (a + i).
Proof.
  intros Ha Hi. unfold sub_bytes, byte. rewrite !nth_lookup, lookup_take_lt, lookup_drop by lia. do 2 f_equal. lia.
Qed.

Lemma get_n_sub b i n : 0 <= i -> 0 <= n -> i + n <= zlen b -> get_n b i n = Ok (sub_bytes b i (i + n)).
Proof. intros Hi Hn Hb. rewrite get_n_ok by done. unfold sub_bytes. do 3 f_equal. lia. Qed.

Lemma sub_bytes_mid pre bs tl : sub_bytes (pre ++ bs ++ tl) (zlen pre) (zlen pre + zlen bs) = bs.
Proof.
  unfold sub_bytes. rewrite Nat2Z.id, drop_app_length. replace (Z.to_nat _) with (length bs) by lia. apply take_app_length.
Qed.

(** ** A buffer overwritten from its start *)

Definition over (out o : list Z) : list Z := out ++ drop (length out) o.

Lemma length_over out o : (length out <= length o)%nat -> length (over out o) = length o.
Proof. intros H. unfold over. rewrite length_app, length_drop. lia. Qed.

Lemma put_over out o v : zlen out < zlen o -> put (over out o) (zlen out) v = Ok (over (out ++ [wrap8 v]) o).
Proof.
  intros H. unfold over. destruct (lookup_lt_is_Some_2 o (length out)) as [r Hr]; [lia|]. rewrite (drop_S _ _ _ Hr), put_next.
  rewrite length_app, <- app_assoc. cbn [length app]. by rewrite Nat.add_1_r.
Qed.

Lemma byte_over out o i : 0 <= i < zlen out -> byte (over out o) i = byte out i.
Proof. apply byte_app_l. Qed.

Lemma lz_copy_u8 n out off : Forall is_u8 out -> Forall is_u8 (lz_copy n out off).
Proof.
  revert out. induction n as [|n IH]; intros out H; [done|]. simpl. apply IH, Forall_app. split; [done|]. constructor; [by apply byte_u8|done].
Qed.

(** ** Parts of a buffer that agree *)

Definition agree (s : list Z) (i j n : Z) : Prop := forall k, 0 <= k < n -> byte s (i + k) = byte s (j + k).

Lemma agree_snoc s i j n : agree s i j n -> byte s (i + n) = byte s (j + n) -> agree s i j (n + 1).
Proof. intros H E k Hk. destruct (decide (k = n)) as [->|]; [done|]. apply H. lia. Qed.

(** Lengths of concatenations, everywhere. *)
Ltac app_len :=
  repeat match goal with
  | H : context [length (_ ++ _)] |- _ => rewrite length_app in H
  | H : context [length (_ :: _)] |- _ => rewrite length_cons in H
  | |- context [length (_ ++ _)] => rewrite length_app
  | |- context [length (_ :: _)] => rewrite length_cons
  end; cbn [length] in *.
