(* ===== verification/Gf.v ===== *)
(** * The Galois field of RAID-Z: [include/sys/vdev_raidz_impl.h]

    Bytes with exclusive or as addition and a multiplication read off two tables,
    the powers of 2 and the logarithms ([module/zfs/vdev_raidz_math_scalar.c]).
    The tables are proved to define a field; [gf] is its carrier, declared to the
    [ring] and [field] tactics.  Parity is computed eight bytes at a time: the
    macros on 64-bit words are those on bytes. *)

From Stdlib Require Import Field.
From S2P Require Import Prelude Bits Buffer.

(** ** The tables and the operations *)

Definition vdev_raidz_pow2 : list Z :=
  [1; 2; 4; 8; 16; 32; 64; 128; 29; 58; 116; 232; 205; 135; 19; 38;
   76; 152; 45; 90; 180; 117; 234; 201; 143; 3; 6; 12; 24; 48; 96; 192;
   157; 39; 78; 156; 37; 74; 148; 53; 106; 212; 181; 119; 238; 193; 159; 35;
   70; 140; 5; 10; 20; 40; 80; 160; 93; 186; 105; 210; 185; 111; 222; 161;
   95; 190; 97; 194; 153; 47; 94; 188; 101; 202; 137; 15; 30; 60; 120; 240;
   253; 231; 211; 187; 107; 214; 177; 127; 254; 225; 223; 163; 91; 182; 113; 226;
   217; 175; 67; 134; 17; 34; 68; 136; 13; 26; 52; 104; 208; 189; 103; 206;
   129; 31; 62; 124; 248; 237; 199; 147; 59; 118; 236; 197; 151; 51; 102; 204;
   133; 23; 46; 92; 184; 109; 218; 169; 79; 158; 33; 66; 132; 21; 42; 84;
   168; 77; 154; 41; 82; 164; 85; 170; 73; 146; 57; 114; 228; 213; 183; 115;
   230; 209; 191; 99; 198; 145; 63; 126; 252; 229; 215; 179; 123; 246; 241; 255;
   227; 219; 171; 75; 150; 49; 98; 196; 149; 55; 110; 220; 165; 87; 174; 65;
   130; 25; 50; 100; 200; 141; 7; 14; 28; 56; 112; 224; 221; 167; 83; 166;
   81; 162; 89; 178; 121; 242; 249; 239; 195; 155; 43; 86; 172; 69; 138; 9;
   18; 36; 72; 144; 61; 122; 244; 245; 247; 243; 251; 235; 203; 139; 11; 22;
   44; 88; 176; 125; 250; 233; 207; 131; 27; 54; 108; 216; 173; 71; 142; 1].

Definition vdev_raidz_log2 : list Z :=
  [0; 0; 1; 25; 2; 50; 26; 198; 3; 223; 51; 238; 27; 104; 199; 75;
   4; 100; 224; 14; 52; 141; 239; 129; 28; 193; 105; 248; 200; 8; 76; 113;
   5; 138; 101; 47; 225; 36; 15; 33; 53; 147; 142; 218; 240; 18; 130; 69;
   29; 181; 194; 125; 106; 39; 249; 185; 201; 154; 9; 120; 77; 228; 114; 166;
   6; 191; 139; 98; 102; 221; 48; 253; 226; 152; 37; 179; 16; 145; 34; 136;
   54; 208; 148; 206; 143; 150; 219; 189; 241; 210; 19; 92; 131; 56; 70; 64;
   30; 66; 182; 163; 195; 72; 126; 110; 107; 58; 40; 84; 250; 133; 186; 61;
   202; 94; 155; 159; 10; 21; 121; 43; 78; 212; 229; 172; 115; 243; 167; 87;
   7; 112; 192; 247; 140; 128; 99; 13; 103; 74; 222; 237; 49; 197; 254; 24;
   227; 165; 153; 119; 38; 184; 180; 124; 17; 68; 146; 217; 35; 32; 137; 46;
   55; 63; 209; 91; 149; 188; 207; 205; 144; 135; 151; 178; 220; 252; 190; 97;
   242; 86; 211; 171; 20; 42; 93; 158; 132; 60; 57; 83; 71; 109; 65; 162;
   31; 45; 67; 216; 183; 123; 164; 118; 196; 23; 73; 236; 127; 12; 111; 246;
   108; 161; 59; 82; 41; 157; 85; 170; 251; 96; 134; 177; 187; 204; 62; 90;
   203; 89; 95; 176; 156; 169; 160; 81; 11; 245; 22; 235; 122; 117; 44; 215;
   79; 174; 213; 233; 230; 231; 173; 232; 116; 214; 244; 234; 168; 80; 88; 175].

(** The tables have 256 entries, and are read at the value of a byte. *)
Definition pow2_at (i : Z) : Z := nth (Z.to_nat i) vdev_raidz_pow2 0.
Definition log2_at (i : Z) : Z := nth (Z.to_nat i) vdev_raidz_log2 0.

(** Multiply by 2 raised to a power. *)
Definition vdev_raidz_exp2 (a exp : Z) : Z :=
  if a =? 0 then 0 else pow2_at ((exp + log2_at a) mod 255).

Definition gf_mul (a b : Z) : Z :=
  if (a =? 0) || (b =? 0) then 0 else pow2_at ((log2_at a + log2_at b) mod 255).

Definition gf_div (a b : Z) : Z :=
  if a =? 0 then 0 else pow2_at ((255 + log2_at a - log2_at b) mod 255).

Definition gf_inv (a : Z) : Z := pow2_at (255 - log2_at a).

Definition gf_exp2 (exp : Z) : Z := pow2_at (exp mod 255).

Definition gf_exp4 (exp : Z) : Z := pow2_at ((2 * exp) mod 255).

(** [VDEV_RAIDZ_MUL_2] of a byte, stored in a byte. *)
Definition VDEV_RAIDZ_MUL_2 (x : Z) : Z :=
  wrap8 (Z.lxor (Z.shiftl x 1) (if negb (Z.land x 128 =? 0) then 29 else 0)).
Definition VDEV_RAIDZ_MUL_4 (x : Z) : Z := VDEV_RAIDZ_MUL_2 (VDEV_RAIDZ_MUL_2 x).

(** The same for the eight bytes of a word. *)
Definition VDEV_RAIDZ_64MUL_2 (x : Z) : Z :=
  let mask := Z.land x 9259542123273814144 in
  let mask := wrap64 (wrap64 (Z.shiftl mask 1) - Z.shiftr mask 7) in
  Z.lxor (Z.land (wrap64 (Z.shiftl x 1)) 18374403900871474942) (Z.land mask 2097865012304223517).
Definition VDEV_RAIDZ_64MUL_4 (x : Z) : Z := VDEV_RAIDZ_64MUL_2 (VDEV_RAIDZ_64MUL_2 x).

(** ** Powers and logarithms *)

Definition bytes256 : list Z := seqZ 0 256.

Lemma bytes_check (P : Z -> bool) : forallb P bytes256 = true -> forall x, is_u8 x -> P x = true.
Proof. intros H x Hx. rewrite forallb_forall in H. apply H, list_elem_of_In, elem_of_seqZ. unfold is_u8 in Hx. lia. Qed.

Lemma pow2_range i : is_u8 i -> is_u8 (pow2_at i) /\ pow2_at i <> 0.
Proof.
  intros Hi. pose proof (bytes_check (fun i => (0 <? pow2_at i) && (pow2_at i <? 256)) ltac:(vm_compute; reflexivity) i Hi) as H. cbn beta in H.
  apply andb_prop in H as [H1 H2]. apply Z.ltb_lt in H1, H2. unfold is_u8. lia.
Qed.

Lemma log2_range a : is_u8 a -> 0 <= log2_at a < 255.
Proof.
  intros Hi. pose proof (bytes_check (fun i => (0 <=? log2_at i) && (log2_at i <? 255)) ltac:(vm_compute; reflexivity) a Hi) as H. cbn beta in H.
  apply andb_prop in H as [H1 H2]. apply Z.leb_le in H1. apply Z.ltb_lt in H2. lia.
Qed.

Lemma pow2_log2 a : is_u8 a -> a <> 0 -> pow2_at (log2_at a) = a.
Proof.
  intros Ha H0. pose proof (bytes_check (fun a => (a =? 0) || (pow2_at (log2_at a) =? a)) ltac:(vm_compute; reflexivity) a Ha) as H. cbn beta in H.
  apply orb_prop in H as [H|H]; apply Z.eqb_eq in H; done.
Qed.

Lemma log2_pow2 i : 0 <= i < 255 -> log2_at (pow2_at i) = i.
Proof.
  intros Hi. pose proof (bytes_check (fun i => (i =? 255) || (log2_at (pow2_at i) =? i)) ltac:(vm_compute; reflexivity) i ltac:(unfold is_u8; lia)) as H. cbn beta in H.
  apply orb_prop in H as [H|H]; apply Z.eqb_eq in H; [lia|done].
Qed.

Lemma mod255 i : 0 <= i mod 255 < 255.
Proof. by apply Z.mod_pos_bound. Qed.

Lemma pow2_mod i : is_u8 (pow2_at (i mod 255)) /\ pow2_at (i mod 255) <> 0.
Proof. apply pow2_range. pose proof (mod255 i). unfold is_u8. lia. Qed.

Lemma pow2_255 : pow2_at 255 = 1.
Proof. reflexivity. Qed.

(** ** Multiplication by 2 *)

Lemma mul_2_range a : is_u8 (VDEV_RAIDZ_MUL_2 a).
Proof. apply wrap8_range. Qed.

Lemma mul_2_pow2 i : 0 <= i -> VDEV_RAIDZ_MUL_2 (pow2_at (i mod 255)) = pow2_at ((i + 1) mod 255).
Proof.
  intros Hi. pose proof (bytes_check (fun i => (i =? 255) || (VDEV_RAIDZ_MUL_2 (pow2_at i) =? pow2_at ((i + 1) mod 255))) ltac:(vm_compute; reflexivity) (i mod 255)) as H.
  pose proof (mod255 i). cbn beta in H. rewrite orb_true_iff, !Z.eqb_eq in H. destruct H as [H| ->]; [unfold is_u8; lia|lia|]. by rewrite Z.add_mod_idemp_l.
Qed.

Lemma mul_2_lxor a b : is_u8 a -> is_u8 b -> VDEV_RAIDZ_MUL_2 (Z.lxor a b) = Z.lxor (VDEV_RAIDZ_MUL_2 a) (VDEV_RAIDZ_MUL_2 b).
Proof.
  intros Ha Hb. pose proof (bytes_check (fun a => forallb (fun b => VDEV_RAIDZ_MUL_2 (Z.lxor a b) =? Z.lxor (VDEV_RAIDZ_MUL_2 a) (VDEV_RAIDZ_MUL_2 b)) bytes256)
    ltac:(vm_compute; reflexivity) a Ha) as H. cbn beta in H. by apply Z.eqb_eq, (bytes_check _ H).
Qed.

Lemma lxor_u8 a b : is_u8 a -> is_u8 b -> is_u8 (Z.lxor a b).
Proof.
  unfold is_u8. intros Ha Hb. change 256 with (2 ^ 8). apply width_of_bits; [lia|]. intros i Hi. by rewrite Z.lxor_spec, (testbit_high a 8), (testbit_high b 8).
Qed.

Lemma iter_mul_2 k a : is_u8 a -> Nat.iter k VDEV_RAIDZ_MUL_2 a = vdev_raidz_exp2 a (Z.of_nat k).
Proof.
  intros Ha. unfold vdev_raidz_exp2. destruct (Z.eqb_spec a 0) as [->|H0]; induction k as [|k IH]; [done|simpl; by rewrite IH| |].
  - pose proof (log2_range a Ha). change (Nat.iter 0 VDEV_RAIDZ_MUL_2 a) with a. by rewrite Z.add_0_l, Z.mod_small, pow2_log2.
  - pose proof (log2_range a Ha). rewrite Nat.iter_succ, IH, mul_2_pow2 by lia. f_equal. f_equal. lia.
Qed.

Lemma iter_lxor k a b : is_u8 a -> is_u8 b ->
  Nat.iter k VDEV_RAIDZ_MUL_2 (Z.lxor a b) = Z.lxor (Nat.iter k VDEV_RAIDZ_MUL_2 a) (Nat.iter k VDEV_RAIDZ_MUL_2 b) /\
  is_u8 (Nat.iter k VDEV_RAIDZ_MUL_2 a).
Proof.
  intros Ha Hb. induction k as [|k [IH Hk]]; [done|]. split; [|rewrite Nat.iter_succ; apply mul_2_range]. rewrite !Nat.iter_succ, IH, mul_2_lxor; [done..|].
  clear IH Hk. induction k as [|k IH]; [done|]. rewrite Nat.iter_succ. apply mul_2_range.
Qed.

(** ** The laws on bytes *)

Lemma exp2_range a e : is_u8 (vdev_raidz_exp2 a e).
Proof. unfold vdev_raidz_exp2. destruct (a =? 0); [by split|apply pow2_mod]. Qed.

Lemma exp2_lxor a b e : is_u8 a -> is_u8 b -> 0 <= e -> vdev_raidz_exp2 (Z.lxor a b) e = Z.lxor (vdev_raidz_exp2 a e) (vdev_raidz_exp2 b e).
Proof.
  intros Ha Hb He. rewrite <- (Z2Nat.id e) by done. rewrite <- !iter_mul_2 by (done || by apply lxor_u8). by apply iter_lxor.
Qed.

Lemma gf_mul_exp2 a b : b <> 0 -> gf_mul a b = vdev_raidz_exp2 a (log2_at b).
Proof.
  intros Hb. unfold gf_mul, vdev_raidz_exp2. rewrite (proj2 (Z.eqb_neq b 0) Hb), orb_false_r. destruct (a =? 0); [done|]. by rewrite Z.add_comm.
Qed.

Lemma gf_mul_range a b : is_u8 (gf_mul a b).
Proof. unfold gf_mul. destruct (_ || _); [by split|apply pow2_mod]. Qed.

Lemma gf_mul_comm a b : gf_mul a b = gf_mul b a.
Proof. unfold gf_mul. by rewrite orb_comm, (Z.add_comm (log2_at a)). Qed.

Lemma gf_mul_0_r a : gf_mul a 0 = 0.
Proof. unfold gf_mul. by rewrite orb_true_r. Qed.

Lemma gf_mul_0_l a : gf_mul 0 a = 0.
Proof. done. Qed.

Lemma gf_mul_1_r a : is_u8 a -> gf_mul a 1 = a.
Proof.
  intros Ha. unfold gf_mul. rewrite orb_false_r. destruct (Z.eqb_spec a 0); [done|]. pose proof (log2_range a Ha). change (log2_at 1) with 0.
  rewrite Z.add_0_r, Z.mod_small by done. by apply pow2_log2.
Qed.

Lemma gf_mul_nonzero a b : a <> 0 -> b <> 0 -> gf_mul a b <> 0.
Proof. intros Ha Hb. unfold gf_mul. rewrite (proj2 (Z.eqb_neq a 0) Ha), (proj2 (Z.eqb_neq b 0) Hb). apply pow2_mod. Qed.

Lemma log2_mul a b : a <> 0 -> b <> 0 -> log2_at (gf_mul a b) = (log2_at a + log2_at b) mod 255.
Proof.
  intros Ha Hb. unfold gf_mul. rewrite (proj2 (Z.eqb_neq a 0) Ha), (proj2 (Z.eqb_neq b 0) Hb). cbn [orb]. apply log2_pow2, mod255.
Qed.

Lemma gf_mul_assoc a b c : gf_mul a (gf_mul b c) = gf_mul (gf_mul a b) c.
Proof.
  destruct (decide (a = 0)) as [->|Ha]; [done|]. destruct (decide (b = 0)) as [->|Hb]; [by rewrite gf_mul_0_l, gf_mul_0_r, gf_mul_0_l|].
  destruct (decide (c = 0)) as [->|Hc]; [by rewrite !gf_mul_0_r|].
  unfold gf_mul at 1 3. rewrite !log2_mul by done.
  rewrite (proj2 (Z.eqb_neq a 0) Ha), (proj2 (Z.eqb_neq c 0) Hc), (proj2 (Z.eqb_neq _ 0) (gf_mul_nonzero a b Ha Hb)), (proj2 (Z.eqb_neq _ 0) (gf_mul_nonzero b c Hb Hc)).
  cbn [orb]. rewrite Z.add_mod_idemp_r, Z.add_mod_idemp_l by done. f_equal. f_equal. lia.
Qed.

Lemma gf_mul_lxor_l a b c : is_u8 a -> is_u8 b -> is_u8 c -> gf_mul (Z.lxor a b) c = Z.lxor (gf_mul a c) (gf_mul b c).
Proof.
  intros Ha Hb Hc. destruct (decide (c = 0)) as [->|H0]; [by rewrite !gf_mul_0_r|]. rewrite !gf_mul_exp2 by done. apply exp2_lxor; [done..|]. by apply log2_range.
Qed.

Lemma gf_inv_range a : is_u8 a -> is_u8 (gf_inv a) /\ gf_inv a <> 0.
Proof. intros Ha. unfold gf_inv. pose proof (log2_range a Ha). apply pow2_range. unfold is_u8. lia. Qed.

Lemma log2_inv a : is_u8 a -> log2_at (gf_inv a) = (255 - log2_at a) mod 255.
Proof.
  intros Ha. unfold gf_inv. pose proof (log2_range a Ha). destruct (decide (log2_at a = 0)) as [E|].
  - rewrite E. reflexivity.
  - rewrite log2_pow2, Z.mod_small by lia. done.
Qed.

Lemma gf_mul_inv a : is_u8 a -> a <> 0 -> gf_mul (gf_inv a) a = 1.
Proof.
  intros Ha H0. destruct (gf_inv_range a Ha) as [_ Hi]. unfold gf_mul. rewrite (proj2 (Z.eqb_neq a 0) H0), (proj2 (Z.eqb_neq _ 0) Hi). cbn [orb].
  rewrite log2_inv by done. rewrite Z.add_mod_idemp_l by done. replace (255 - log2_at a + log2_at a) with (1 * 255) by lia. by rewrite Z_mod_mult.
Qed.

Lemma gf_div_mul a b : is_u8 a -> is_u8 b -> gf_div a b = gf_mul a (gf_inv b).
Proof.
  intros Ha Hb. destruct (gf_inv_range b Hb) as [_ Hi]. unfold gf_div, gf_mul. rewrite (proj2 (Z.eqb_neq _ 0) Hi), orb_false_r. destruct (a =? 0); [done|].
  rewrite log2_inv by done. rewrite Z.add_mod_idemp_r by done. f_equal. f_equal. lia.
Qed.

(** ** The field *)

Record gf : Type := Gf { gv : Z; gv_ok : (0 <=? gv) && (gv <? 256) = true }.

Lemma gv_u8 a : is_u8 (gv a).
Proof. pose proof (gv_ok a) as H. apply andb_prop in H as [H1 H2]. apply Z.leb_le in H1. apply Z.ltb_lt in H2. done. Qed.

Lemma u8_ok x : is_u8 x -> (0 <=? x) && (x <? 256) = true.
Proof. intros [H1 H2]. by rewrite (proj2 (Z.leb_le _ _) H1), (proj2 (Z.ltb_lt _ _) H2). Qed.

Lemma gf_eq a b : gv a = gv b -> a = b.
Proof. destruct a as [x Hx], b as [y Hy]. cbn. intros <-. f_equal. apply proof_irrel. Qed.

Definition gf_of (x : Z) : gf := Gf (wrap8 x) (u8_ok _ (wrap8_range x)).
Definition g0 : gf := gf_of 0.
Definition g1 : gf := gf_of 1.
Definition gadd (a b : gf) : gf := Gf (Z.lxor (gv a) (gv b)) (u8_ok _ (lxor_u8 _ _ (gv_u8 a) (gv_u8 b))).
Definition gmul (a b : gf) : gf := Gf (gf_mul (gv a) (gv b)) (u8_ok _ (gf_mul_range (gv a) (gv b))).
Definition gopp (a : gf) : gf := a.
Definition ginv (a : gf) : gf := Gf (gf_inv (gv a)) (u8_ok _ (proj1 (gf_inv_range _ (gv_u8 a)))).
Definition gdiv (a b : gf) : gf := gmul a (ginv b).

Lemma gv_of x : is_u8 x -> gv (gf_of x) = x.
Proof. apply wrap8_small. Qed.

Lemma gf_of_gv a : gf_of (gv a) = a.
Proof. apply gf_eq, gv_of, gv_u8. Qed.

Lemma gf_nonzero a : a <> g0 <-> gv a <> 0.
Proof. split; intros H E; apply H; [by apply gf_eq|by rewrite E]. Qed.

#[export] Instance gf_eq_dec : EqDecision gf.
Proof. intros a b. destruct (decide (gv a = gv b)) as [E|E]; [left; by apply gf_eq|right; congruence]. Defined.

Lemma gf_ring_theory : ring_theory g0 g1 gadd gmul gadd gopp eq.
Proof.
  constructor; intros; apply gf_eq; cbn [gv gadd gmul gopp].
  - apply Z.lxor_0_l.
  - apply Z.lxor_comm.
  - symmetry. apply Z.lxor_assoc.
  - rewrite gf_mul_comm. apply gf_mul_1_r, gv_u8.
  - apply gf_mul_comm.
  - apply gf_mul_assoc.
  - apply gf_mul_lxor_l; apply gv_u8.
  - done.
  - apply Z.lxor_nilpotent.
Qed.

Lemma gf_field_theory : field_theory g0 g1 gadd gmul gadd gopp gdiv ginv eq.
Proof.
  constructor; [exact gf_ring_theory|discriminate|done|]. intros a Ha. apply gf_eq. cbn [gv gmul ginv]. apply gf_mul_inv; [apply gv_u8|by apply gf_nonzero].
Qed.

Add Field gf_field : gf_field_theory.

Declare Scope gf_scope.
Delimit Scope gf_scope with gf.
Bind Scope gf_scope with gf.
Infix "+" := gadd : gf_scope.
Infix "*" := gmul : gf_scope.
Infix "/" := gdiv : gf_scope.

Lemma gadd_self a : (a + a)%gf = g0.
Proof. apply gf_eq. apply Z.lxor_nilpotent. Qed.

Lemma gadd_eq0 a b : (a + b)%gf = g0 <-> a = b.
Proof.
  split; [|intros ->; apply gadd_self]. intros H. apply gf_eq, Z.lxor_eq_0_iff. by apply (f_equal gv) in H.
Qed.

Lemma gmul_nonzero a b : a <> g0 -> b <> g0 -> (a * b)%gf <> g0.
Proof. rewrite !gf_nonzero. apply gf_mul_nonzero. Qed.

(** Powers of the generator. *)
Definition gpow (e : Z) : gf := gf_of (pow2_at (e mod 255)).

Lemma gv_gpow e : gv (gpow e) = pow2_at (e mod 255).
Proof. apply gv_of, pow2_mod. Qed.

Lemma gpow_nonzero e : gpow e <> g0.
Proof. apply gf_nonzero. rewrite gv_gpow. apply pow2_mod. Qed.

Lemma gpow_add e f : gpow (e + f) = (gpow e * gpow f)%gf.
Proof.
  apply gf_eq. cbn [gv gmul]. rewrite !gv_gpow. unfold gf_mul. destruct (pow2_mod e) as [_ He], (pow2_mod f) as [_ Hf].
  rewrite (proj2 (Z.eqb_neq _ 0) He), (proj2 (Z.eqb_neq _ 0) Hf). cbn [orb]. rewrite !log2_pow2 by apply mod255. by rewrite <- Z.add_mod.
Qed.

Lemma gpow_0 : gpow 0 = g1.
Proof. by apply gf_eq. Qed.

Lemma gpow_inj e f : 0 <= e < 255 -> 0 <= f < 255 -> gpow e = gpow f -> e = f.
Proof.
  intros He Hf H. apply (f_equal gv) in H. rewrite !gv_gpow, !Z.mod_small in H by done. apply (f_equal log2_at) in H. by rewrite !log2_pow2 in H.
Qed.

(** The operations of the code in the field. *)
Lemma exp2_gmul a e : gf_of (vdev_raidz_exp2 (gv a) e) = (a * gpow e)%gf.
Proof.
  apply gf_eq. rewrite gv_of by apply exp2_range. cbn [gv gmul]. rewrite gv_gpow. destruct (pow2_mod e) as [_ He]. rewrite gf_mul_exp2 by done.
  rewrite log2_pow2 by apply mod255. unfold vdev_raidz_exp2. destruct (gv a =? 0); [done|]. by rewrite Z.add_mod_idemp_l.
Qed.

Lemma gpow_log a : a <> g0 -> gpow (log2_at (gv a)) = a.
Proof.
  intros Ha%gf_nonzero. apply gf_eq. rewrite gv_gpow, Z.mod_small by apply log2_range, gv_u8. apply pow2_log2; [apply gv_u8|done].
Qed.

Lemma mul_2_gmul a : gf_of (VDEV_RAIDZ_MUL_2 (gv a)) = (a * gpow 1)%gf.
Proof. rewrite <- exp2_gmul. f_equal. apply (iter_mul_2 1), gv_u8. Qed.

(** ** Eight bytes at a time *)

Lemma lxor_split a b x y : is_u8 a -> is_u8 b -> Z.lxor (a + 256 * x) (b + 256 * y) = Z.lxor a b + 256 * Z.lxor x y.
Proof.
  intros Ha Hb. pose proof (lxor_u8 a b Ha Hb) as Hab. unfold is_u8 in *.
  assert (E : forall u v, 0 <= u < 256 -> u + 256 * v = Z.lor (Z.shiftl v 8) u).
  { intros u v Hu. rewrite lor_shiftl_add by done. change (2 ^ 8) with 256. lia. }
  rewrite !E by done. apply Z.bits_inj'. intros i Hi. rewrite Z.lxor_spec, !Z.lor_spec, !Z.shiftl_spec, !Z.lxor_spec by done.
  destruct (Z_lt_ge_dec i 8).
  - rewrite !(Z.testbit_neg_r _ (i - 8)) by lia. by destruct (Z.testbit a i), (Z.testbit b i).
  - rewrite !(testbit_high _ 8 i) by (done || lia). by rewrite !orb_false_r.
Qed.

Lemma land_u8_r a b : is_u8 b -> is_u8 (Z.land a b).
Proof. intros Hb. unfold is_u8 in *. change 256 with (2 ^ 8). apply width_of_bits; [lia|]. intros i Hi. by rewrite Z.land_spec, (testbit_high b 8), andb_false_r. Qed.

Lemma land_split a b x y : is_u8 a -> is_u8 b -> Z.land (a + 256 * x) (b + 256 * y) = Z.land a b + 256 * Z.land x y.
Proof.
  intros Ha Hb. pose proof (land_u8_r a b Hb) as Hab. unfold is_u8 in *. assert (E : forall u v, 0 <= u < 256 -> u + 256 * v = Z.lor (Z.shiftl v 8) u).
  { intros u v Hu. rewrite lor_shiftl_add by done. change (2 ^ 8) with 256. lia. }
  rewrite !E by done. apply Z.bits_inj'. intros i Hi. rewrite Z.land_spec, !Z.lor_spec, !Z.shiftl_spec, !Z.land_spec by done.
  destruct (Z_lt_ge_dec i 8).
  - rewrite !(Z.testbit_neg_r _ (i - 8)) by lia. done.
  - rewrite !(testbit_high _ 8 i) by (done || lia). by rewrite !orb_false_r.
Qed.

Lemma le_word_lxor xs ys : length xs = length ys -> Forall is_u8 xs -> Forall is_u8 ys -> Z.lxor (le_word xs) (le_word ys) = le_word (zip_with Z.lxor xs ys).
Proof.
  intros Hl Hx. revert ys Hl. induction Hx as [|x xs Hx Hxs IH]; intros [|y ys] Hl Hy; try done. apply Forall_cons in Hy as [Hy Hys].
  cbn [le_word zip_with]. rewrite lxor_split, IH by (done || (cbn in Hl; lia)). done.
Qed.

Lemma le_word_land xs ys : length xs = length ys -> Forall is_u8 xs -> Forall is_u8 ys -> Z.land (le_word xs) (le_word ys) = le_word (zip_with Z.land xs ys).
Proof.
  intros Hl Hx. revert ys Hl. induction Hx as [|x xs Hx Hxs IH]; intros [|y ys] Hl Hy; try done. apply Forall_cons in Hy as [Hy Hys].
  cbn [le_word zip_with]. rewrite land_split, IH by (done || (cbn in Hl; lia)). done.
Qed.

(** The top bit of a byte and the rest. *)
Definition top_bit (b : Z) : Z := b / 128.
Definition low_bits (b : Z) : Z := b mod 128.

Lemma byte_bits b : is_u8 b -> b = 128 * top_bit b + low_bits b /\ 0 <= top_bit b <= 1 /\ 0 <= low_bits b < 128.
Proof.
  intros Hb. unfold is_u8, top_bit, low_bits in *. pose proof (Z.div_mod b 128 ltac:(lia)). pose proof (Z.mod_pos_bound b 128 ltac:(lia)).
  split; [lia|]. split; [|lia]. split; [apply Z.div_pos; lia|]. assert (b / 128 < 2) by (apply Z.div_lt_upper_bound; lia). lia.
Qed.

Lemma land_128 b : is_u8 b -> Z.land b 128 = 128 * top_bit b.
Proof. intros Hb. apply Z.eqb_eq. apply (bytes_check (fun b => Z.land b 128 =? 128 * top_bit b)); [by vm_compute|done]. Qed.

(** One byte of the word: [t] is the bit that comes from the byte below. *)
Lemma mul_2_byte b t : is_u8 b -> 0 <= t <= 1 ->
  Z.lxor (Z.land (2 * low_bits b + t) 254) (Z.land (255 * top_bit b) 29) = VDEV_RAIDZ_MUL_2 b.
Proof.
  intros Hb Ht. apply Z.eqb_eq. assert (t = 0 \/ t = 1) as [-> | ->] by lia.
  - apply (bytes_check (fun b => Z.lxor (Z.land (2 * low_bits b + 0) 254) (Z.land (255 * top_bit b) 29) =? VDEV_RAIDZ_MUL_2 b)); [by vm_compute|done].
  - apply (bytes_check (fun b => Z.lxor (Z.land (2 * low_bits b + 1) 254) (Z.land (255 * top_bit b) 29) =? VDEV_RAIDZ_MUL_2 b)); [by vm_compute|done].
Qed.

Lemma forall_u8_8 (bs : list Z) : length bs = 8%nat -> exists a b c d e f g h, bs = [a; b; c; d; e; f; g; h].
Proof. intros H. do 8 (destruct bs as [|? bs]; [done|]). destruct bs; [|done]. by repeat eexists. Qed.

Lemma mul_64_mask bs : length bs = 8%nat -> Forall is_u8 bs ->
  let mask := Z.land (le_word bs) 9259542123273814144 in
  wrap64 (wrap64 (Z.shiftl mask 1) - Z.shiftr mask 7) = le_word ((fun b => 255 * top_bit b) <$> bs).
Proof.
  intros Hl Hu mask. unfold mask. replace 9259542123273814144 with (le_word (replicate 8 128)) by reflexivity.
  rewrite le_word_land by (done || (by rewrite length_replicate) || by apply Forall_replicate).
  destruct (forall_u8_8 bs Hl) as (b0 & b1 & b2 & b3 & b4 & b5 & b6 & b7 & ->). rewrite !Forall_cons in Hu. destruct Hu as (H0 & H1 & H2 & H3 & H4 & H5 & H6 & H7 & _).
  cbn [replicate zip_with fmap list_fmap]. rewrite !land_128 by done. unfold wrap64. rewrite Z.shiftl_mul_pow2, Z.shiftr_div_pow2 by done. rewrite Zminus_mod_idemp_l.
  change (2 ^ 1) with 2. change (2 ^ 7) with 128. set (T := le_word [top_bit b0; top_bit b1; top_bit b2; top_bit b3; top_bit b4; top_bit b5; top_bit b6; top_bit b7]).
  replace (le_word _) with (T * 128) at 1 2 by (unfold T; cbn [le_word]; lia). rewrite Z.div_mul by done. rewrite Z.mod_small; [unfold T; cbn [le_word]; lia|].
  apply byte_bits in H0, H1, H2, H3, H4, H5, H6, H7. unfold T. cbn [le_word]. lia.
Qed.

Lemma mul_64_shift b0 b1 b2 b3 b4 b5 b6 b7 : Forall is_u8 [b0; b1; b2; b3; b4; b5; b6; b7] ->
  wrap64 (Z.shiftl (le_word [b0; b1; b2; b3; b4; b5; b6; b7]) 1) =
  le_word [2 * low_bits b0 + 0; 2 * low_bits b1 + top_bit b0; 2 * low_bits b2 + top_bit b1; 2 * low_bits b3 + top_bit b2;
    2 * low_bits b4 + top_bit b3; 2 * low_bits b5 + top_bit b4; 2 * low_bits b6 + top_bit b5; 2 * low_bits b7 + top_bit b6].
Proof.
  rewrite !Forall_cons. intros (H0 & H1 & H2 & H3 & H4 & H5 & H6 & H7 & _). apply byte_bits in H0, H1, H2, H3, H4, H5, H6, H7.
  rewrite Z.shiftl_mul_pow2 by done. change (2 ^ 1) with 2. unfold wrap64. symmetry. apply (Z.mod_unique_pos _ _ (top_bit b7)); cbn [le_word]; lia.
Qed.

Lemma mul_64_2 bs : length bs = 8%nat -> Forall is_u8 bs -> VDEV_RAIDZ_64MUL_2 (le_word bs) = le_word (VDEV_RAIDZ_MUL_2 <$> bs).
Proof.
  intros Hl Hu. unfold VDEV_RAIDZ_64MUL_2. cbv zeta. rewrite mul_64_mask by done.
  destruct (forall_u8_8 bs Hl) as (b0 & b1 & b2 & b3 & b4 & b5 & b6 & b7 & ->). rewrite mul_64_shift by done.
  replace 18374403900871474942 with (le_word (replicate 8 254)) by reflexivity. replace 2097865012304223517 with (le_word (replicate 8 29)) by reflexivity.
  rewrite !Forall_cons in Hu. destruct Hu as (H0 & H1 & H2 & H3 & H4 & H5 & H6 & H7 & _).
  pose proof (byte_bits _ H0). pose proof (byte_bits _ H1). pose proof (byte_bits _ H2). pose proof (byte_bits _ H3).
  pose proof (byte_bits _ H4). pose proof (byte_bits _ H5). pose proof (byte_bits _ H6). pose proof (byte_bits _ H7).
  rewrite !le_word_land; [|done|repeat (constructor; [unfold is_u8; lia|]); constructor|by apply Forall_replicate|done|repeat (constructor; [unfold is_u8; lia|]); constructor|by apply Forall_replicate].
  rewrite le_word_lxor; [|done|..].
  - cbn [replicate zip_with fmap list_fmap]. f_equal. rewrite !mul_2_byte by (done || lia). done.
  - cbn [replicate zip_with fmap list_fmap]. repeat (constructor; [by apply land_u8_r|]). constructor.
  - cbn [replicate zip_with fmap list_fmap]. repeat (constructor; [by apply land_u8_r|]). constructor.
Qed.
