(* ===== verification/Codec.v ===== *)
(** * The interface of the compressors

    What [zio_compress.c] relies on of a pair of functions of its table.  A
    compressor gets an eighth of the block less room than the block has, in a
    target as large as the block. *)

From S2P Require Import Prelude Buffer.

(** The common signature: the address of the source, the two buffers, their sizes
    and the level.  A compressor returns a size, the other direction an error. *)
Definition zio_compress_func : Type := Z -> list Z -> list Z -> Z -> Z -> Z -> res (Z * list Z).

(** A buffer that starts with the first [c_len] bytes of [d] expands to the first
    [s_len] bytes of [s]. *)
Definition restores (g : list Z -> list Z -> Z -> Z -> res (Z * list Z)) (s : list Z) (s_len : Z) (d : list Z) (c_len : Z) : Prop :=
  forall z o z_len, Forall is_u8 z -> take (Z.to_nat c_len) z = take (Z.to_nat c_len) d -> c_len <= z_len <= zlen z -> s_len <= zlen o ->
    g z o z_len s_len = Ok (0, take (Z.to_nat s_len) s ++ drop (Z.to_nat s_len) o).

(** The sizes of the data of a block. *)
Definition block_size (s_len : Z) : Prop := 64 <= s_len < B32 / 2.

Class Codec (f g : zio_compress_func) (level : Z) : Prop := {
  codec_ok : forall addr s d s_len,
    Forall is_u8 s -> block_size s_len -> s_len <= zlen s -> s_len <= zlen d ->
    exists c_len d', f addr s d s_len (s_len - Z.shiftr s_len 3) level = Ok (c_len, d') /\ length d' = length d /\ 0 < c_len /\
      (c_len < s_len -> c_len <= s_len - Z.shiftr s_len 3 /\
        forall addr', restores (fun z o z_len o_len => g addr' z o z_len o_len level) s s_len d' c_len)
}.

(** Room for an eighth less. *)
Lemma compress_room s_len : block_size s_len -> 8 <= Z.shiftr s_len 3 < s_len - 4 /\ s_len <= Z.shiftr s_len 3 * 8 + 7.
Proof.
  intros Hs. unfold block_size in Hs. rewrite Z.shiftr_div_pow2 by lia. change (2 ^ 3) with 8. Z.to_euclidean_division_equations. lia.
Qed.

(** A size that is no smaller than the block need not be right. *)
Lemma codec_intro f g level :
  (forall addr s d s_len, Forall is_u8 s -> block_size s_len -> s_len <= zlen s -> s_len <= zlen d ->
    exists c_len d', f addr s d s_len (s_len - Z.shiftr s_len 3) level = Ok (c_len, d') /\ length d' = length d /\
      (c_len < s_len -> 0 < c_len <= s_len - Z.shiftr s_len 3 /\
        forall addr', restores (fun z o z_len o_len => g addr' z o z_len o_len level) s s_len d' c_len)) ->
  Codec f g level.
Proof.
  intros H. constructor. intros addr s d s_len Hu Hb Hs Hd. destruct (H addr s d s_len Hu Hb Hs Hd) as (c & d' & E & El & Hc).
  exists c, d'. unfold block_size in Hb. split_and!; [done|done| |].
  - destruct (Z_lt_ge_dec c s_len) as [Hlt|]; [|lia]. destruct (Hc Hlt). lia.
  - intros Hlt. destruct (Hc Hlt) as [Hle Hr]. split; [lia|done].
Qed.
