(* ===== verification/Memory.v ===== *)
(** * Byte memory

    Buffers of bytes by address, for the code that works on raw buffers.  A
    pointer is a buffer and an offset into it.  A [load] or [store] outside its
    buffer is a [Panic], so a theorem that a function returns includes that it
    stays inside its buffers.  [span] lists the locations a pointer and a size
    denote; [holds] and [written] describe memory location by location. *)

From stdpp Require Import gmap.
From S2P Require Import Prelude.

Abbreviation mem := (gmap Z (list Z)).

Record ptr : Type := Ptr { p_blk : Z; p_off : Z }.

#[export] Instance ptr_eq_dec : EqDecision ptr.
Proof. solve_decision. Defined.

Definition ptr_add (p : ptr) (n : Z) : ptr := Ptr (p_blk p) (p_off p + n).

Definition load (m : mem) (p : ptr) (n : Z) : res (list Z) :=
  bs ← deref (m !! p_blk p);
  VERIFY (0 <=? p_off p) && (p_off p + n <=? Z.of_nat (length bs)) ;;
  Ok (take (Z.to_nat n) (drop (Z.to_nat (p_off p)) bs)).

Definition store (m : mem) (p : ptr) (vs : list Z) : res mem :=
  bs ← deref (m !! p_blk p);
  VERIFY (0 <=? p_off p) && (p_off p + Z.of_nat (length vs) <=? Z.of_nat (length bs)) ;;
  Ok (<[p_blk p := list_inserts (Z.to_nat (p_off p)) vs bs]> m).

(** ** The string functions of the C library *)

Definition memcpy (m : mem) (dst src : ptr) (n : Z) : res mem :=
  vs ← load m src n; store m dst vs.

Definition memset (m : mem) (dst : ptr) (c n : Z) : res mem :=
  store m dst (replicate (Z.to_nat n) c).

Fixpoint memcmp_bytes (a b : list Z) : Z :=
  match a, b with
  | x :: a', y :: b' => if x =? y then memcmp_bytes a' b' else if x <? y then -1 else 1
  | _, _ => 0
  end.

Definition memcmp (m : mem) (a b : ptr) (n : Z) : res Z :=
  va ← load m a n; vb ← load m b n; Ok (memcmp_bytes va vb).

(** ** Locations *)

Definition span (p : ptr) (n : Z) : list ptr := ptr_add p <$> seqZ 0 n.

Definition mbyte (m : mem) (l : ptr) : option Z :=
  bs ← m !! p_blk l; if 0 <=? p_off l then bs !! Z.to_nat (p_off l) else None.

Definition holds (m : mem) (ls : list ptr) (vs : list Z) : Prop :=
  Forall2 (fun l v => mbyte m l = Some v) ls vs.

(** The memory [m'] is [m] with the bytes [vs] at the locations [ls]. *)
Definition written (m : mem) (ls : list ptr) (vs : list Z) (m' : mem) : Prop :=
  holds m' ls vs /\ forall l, l ∉ ls -> mbyte m' l = mbyte m l.

Lemma ptr_add_0 p : ptr_add p 0 = p.
Proof. destruct p. unfold ptr_add. simpl. f_equal. lia. Qed.

Lemma ptr_add_add p a b : ptr_add (ptr_add p a) b = ptr_add p (a + b).
Proof. unfold ptr_add. simpl. f_equal. lia. Qed.

Lemma length_span p n : length (span p n) = Z.to_nat n.
Proof. unfold span. by rewrite length_fmap, length_seqZ. Qed.

Lemma span_lookup p n i : span p n !! i = if decide (Z.of_nat i < n) then Some (ptr_add p (Z.of_nat i)) else None.
Proof.
  unfold span. rewrite list_lookup_fmap. destruct (decide _).
  - rewrite lookup_seqZ_lt by done. simpl. do 2 f_equal; lia.
  - by rewrite lookup_seqZ_ge by lia.
Qed.

Lemma elem_of_span p n l : l ∈ span p n <-> p_blk l = p_blk p /\ p_off p <= p_off l < p_off p + n.
Proof.
  unfold span. rewrite list_elem_of_fmap. split.
  - intros (k & -> & Hk%elem_of_seqZ). simpl. split; [done|lia].
  - intros [E H]. exists (p_off l - p_off p). split; [|apply elem_of_seqZ; lia].
    destruct l, p. unfold ptr_add. simpl in *. subst. f_equal. lia.
Qed.

Lemma span_app p a b : 0 <= a -> 0 <= b -> span p (a + b) = span p a ++ span (ptr_add p a) b.
Proof.
  intros Ha Hb. unfold span. rewrite seqZ_app, fmap_app by done. f_equal.
  rewrite Z.add_0_l. replace a with (a + 0) at 1 by lia. rewrite <- fmap_add_seqZ, <- list_fmap_compose.
  apply list_fmap_ext. intros i k _. simpl. by rewrite ptr_add_add.
Qed.

Lemma NoDup_span p n : NoDup (span p n).
Proof.
  apply NoDup_fmap_2; [|apply NoDup_seqZ]. intros a b E. unfold ptr_add in E. injection E. lia.
Qed.

(** ** Bytes at locations *)

Lemma holds_length m ls vs : holds m ls vs -> length ls = length vs.
Proof. apply Forall2_length. Qed.

Lemma holds_app m ls1 ls2 vs1 vs2 :
  holds m ls1 vs1 -> holds m ls2 vs2 -> holds m (ls1 ++ ls2) (vs1 ++ vs2).
Proof. apply Forall2_app. Qed.

Lemma holds_take_drop m ls vs a b :
  holds m ls vs -> holds m (take a (drop b ls)) (take a (drop b vs)).
Proof. intros H. by apply Forall2_take, Forall2_drop. Qed.

Lemma holds_fun m ls vs ws : holds m ls vs -> holds m ls ws -> vs = ws.
Proof.
  intros H. revert ws. induction H as [|l v ls vs Hl _ IH]; intros ws Hw; inversion_clear Hw; [done|].
  f_equal; [congruence|]. auto.
Qed.

Lemma holds_frame m ls vs ls' vs' m' :
  holds m ls vs -> written m ls' vs' m' -> (forall l, l ∈ ls -> l ∉ ls') -> holds m' ls vs.
Proof.
  intros H [_ Hw] Hd. induction H as [|l v ls vs Hl _ IH]; constructor.
  - rewrite Hw; [done|]. apply Hd. by left.
  - apply IH. intros l' ?. apply Hd. by right.
Qed.

Lemma holds_ext m m' ls vs : holds m ls vs -> (forall l, l ∈ ls -> mbyte m' l = mbyte m l) -> holds m' ls vs.
Proof. intros H He. induction H as [|l v ls vs Hl _ IH]; constructor; [rewrite He; [done|by left]|]. apply IH. intros l' ?. apply He. by right. Qed.

(** The blocks of the locations exist. *)
Lemma holds_block m ls vs l : holds m ls vs -> l ∈ ls -> is_Some (m !! p_blk l).
Proof.
  intros H (i & Hi)%list_elem_of_lookup. destruct (Forall2_lookup_l _ _ _ _ _ H Hi) as (v & _ & Hv). unfold mbyte in Hv.
  by destruct (m !! p_blk l).
Qed.

Lemma written_nil m : written m [] [] m.
Proof. split; [constructor|done]. Qed.

Lemma written_app m ls1 vs1 m1 ls2 vs2 m2 :
  written m ls1 vs1 m1 -> written m1 ls2 vs2 m2 -> (forall l, l ∈ ls1 -> l ∉ ls2) ->
  written m (ls1 ++ ls2) (vs1 ++ vs2) m2.
Proof.
  intros H1 H2 Hd. split.
  - apply holds_app; [|apply H2]. eapply holds_frame; [apply H1|exact H2|exact Hd].
  - intros l Hl. rewrite elem_of_app in Hl. rewrite (proj2 H2) by tauto. apply H1. tauto.
Qed.

(** Writing in the middle of a list of distinct locations. *)
Lemma written_middle m ls vs k ws m' :
  holds m ls vs -> NoDup ls -> (k + length ws <= length ls)%nat ->
  written m (take (length ws) (drop k ls)) ws m' ->
  holds m' ls (take k vs ++ ws ++ drop (k + length ws) vs).
Proof.
  intros Hh Hn Hk Hw. pose proof (take_drop k ls) as E1.
  pose proof (take_drop (length ws) (drop k ls)) as E2. rewrite drop_drop in E2.
  rewrite <- E1, <- E2 in Hn |- *. apply NoDup_app in Hn as (_ & Hn1 & Hn2).
  apply NoDup_app in Hn2 as (_ & Hn2 & _).
  apply holds_app; [|apply holds_app; [apply Hw|]].
  - eapply holds_frame; [by apply Forall2_take|exact Hw|]. intros l Hl Hl'.
    apply (Hn1 l Hl). rewrite elem_of_app. by left.
  - eapply holds_frame; [by apply Forall2_drop|exact Hw|]. intros l Hl Hl'. by apply (Hn2 l Hl').
Qed.

(** ** The accesses *)

Lemma mbyte_block m p n vs :
  0 < n -> holds m (span p n) vs ->
  exists bs, m !! p_blk p = Some bs /\ 0 <= p_off p /\ p_off p + n <= Z.of_nat (length bs).
Proof.
  intros Hn H.
  assert (Hb : forall i, 0 <= i < n -> exists bs v, m !! p_blk p = Some bs /\ 0 <= p_off p + i /\
    bs !! Z.to_nat (p_off p + i) = Some v).
  { intros i Hi. assert (Hs : span p n !! Z.to_nat i = Some (ptr_add p i)).
    { rewrite span_lookup, decide_True by lia. by rewrite Z2Nat.id by lia. }
    destruct (Forall2_lookup_l _ _ _ _ _ H Hs) as (v & _ & Hv). unfold mbyte in Hv. simpl in Hv.
    destruct (m !! p_blk p) as [bs|]; [|done]. simpl in Hv. destruct (Z.leb_spec 0 (p_off p + i)); [|done].
    by exists bs, v. }
  destruct (Hb 0) as (bs & v & E & H0 & _); [lia|]. destruct (Hb (n - 1)) as (bs' & v' & E' & H1 & Hl); [lia|].
  rewrite E in E'. injection E' as <-. exists bs. split_and!; [done|lia|]. apply lookup_lt_Some in Hl. lia.
Qed.

Lemma load_holds m p n vs : 0 < n -> holds m (span p n) vs -> load m p n = Ok vs.
Proof.
  intros Hn H. destruct (mbyte_block m p n vs Hn H) as (bs & E & H0 & H1). unfold load. rewrite E. cbn [deref mbind res_bind].
  rewrite (proj2 (Z.leb_le _ _) H0), (proj2 (Z.leb_le _ _) H1). cbn [andb]. f_equal.
  apply (holds_fun m (span p n)); [|done]. apply Forall2_same_length_lookup_2.
  { rewrite length_span, length_take, length_drop. lia. }
  intros i l v Hl Hv. rewrite span_lookup in Hl. destruct (decide _); [|done]. injection Hl as <-.
  unfold mbyte. simpl. rewrite E. simpl. rewrite (proj2 (Z.leb_le 0 _)) by lia.
  rewrite lookup_take, lookup_drop in Hv. destruct (decide _); [|done].
  by replace (Z.to_nat (p_off p + Z.of_nat i)) with (Z.to_nat (p_off p) + i)%nat by lia.
Qed.

Lemma store_ok m p vs ws :
  (0 < length vs)%nat -> holds m (span p (Z.of_nat (length vs))) ws ->
  exists m', store m p vs = Ok m' /\ written m (span p (Z.of_nat (length vs))) vs m'.
Proof.
  intros Hn H. destruct (mbyte_block m p (Z.of_nat (length vs)) ws ltac:(lia) H) as (bs & E & H0 & H1). unfold store. rewrite E.
  cbn [deref mbind res_bind]. rewrite (proj2 (Z.leb_le _ _) H0), (proj2 (Z.leb_le _ _) H1). cbn [andb].
  eexists. split; [done|]. split.
  - apply Forall2_same_length_lookup_2; [rewrite length_span; lia|]. intros i l v Hl Hv.
    rewrite span_lookup in Hl. destruct (decide _); [|done]. injection Hl as <-. unfold mbyte. simpl.
    rewrite lookup_insert_eq. simpl. rewrite (proj2 (Z.leb_le 0 _)) by lia.
    replace (Z.to_nat (p_off p + Z.of_nat i)) with (Z.to_nat (p_off p) + i)%nat by lia.
    rewrite list_lookup_inserts by lia. by replace (Z.to_nat (p_off p) + i - Z.to_nat (p_off p))%nat with i by lia.
  - intros l Hl. rewrite elem_of_span in Hl. unfold mbyte. destruct (decide (p_blk l = p_blk p)) as [Eb|Eb].
    + rewrite Eb, lookup_insert_eq, E. simpl. destruct (Z.leb_spec 0 (p_off l)); [|done].
      destruct (decide (p_off l < p_off p)); [rewrite list_lookup_inserts_lt by lia; done|].
      rewrite list_lookup_inserts_ge by lia. done.
    + by rewrite lookup_insert_ne.
Qed.

Lemma memcpy_ok m dst src n vs ws :
  0 < n -> holds m (span src n) vs -> holds m (span dst n) ws ->
  exists m', memcpy m dst src n = Ok m' /\ written m (span dst n) vs m'.
Proof.
  intros Hn Hs Hd. unfold memcpy. rewrite (load_holds m src n vs) by done. cbn [mbind res_bind].
  pose proof (holds_length _ _ _ Hs) as El. rewrite length_span in El.
  replace n with (Z.of_nat (length vs)) in Hd |- * by lia. by apply (store_ok m dst vs ws); [lia|].
Qed.

Lemma memset_ok m dst c n ws :
  0 < n -> holds m (span dst n) ws ->
  exists m', memset m dst c n = Ok m' /\ written m (span dst n) (replicate (Z.to_nat n) c) m'.
Proof.
  intros Hn Hd. unfold memset. set (vs := replicate (Z.to_nat n) c).
  assert (El : length vs = Z.to_nat n) by apply length_replicate.
  replace n with (Z.of_nat (length vs)) in Hd |- * by lia. apply (store_ok m dst vs ws); [lia|done].
Qed.

Lemma memcmp_ok m a b n va vb :
  0 < n -> holds m (span a n) va -> holds m (span b n) vb -> memcmp m a b n = Ok (memcmp_bytes va vb).
Proof. intros Hn Ha Hb. unfold memcmp. by rewrite (load_holds m a n va), (load_holds m b n vb) by done. Qed.

Lemma memcmp_bytes_app a1 a2 b1 b2 :
  length a1 = length b1 ->
  memcmp_bytes (a1 ++ a2) (b1 ++ b2) =
  if memcmp_bytes a1 b1 =? 0 then memcmp_bytes a2 b2 else memcmp_bytes a1 b1.
Proof.
  revert b1. induction a1 as [|x a1 IH]; intros [|y b1] E; try done. simpl in E |- *.
  destruct (x =? y); [apply IH; lia|]. by destruct (x <? y).
Qed.

Lemma memcmp_bytes_eq a b : length a = length b -> memcmp_bytes a b = 0 <-> a = b.
Proof.
  revert b. induction a as [|x a IH]; intros [|y b] E; try done. simpl in E |- *.
  destruct (Z.eqb_spec x y) as [->|Hne].
  - rewrite IH by lia. split; [by intros ->|by intros [=]].
  - destruct (x <? y); split; try done; intros [=]; done.
Qed.
