(* ===== verification/Abd.v ===== *)
(** * Scatter buffers: [module/zfs/abd.c], [include/sys/abd.h]

    The data of a block is one linear buffer or a list of pages.  The code that
    works on it iterates over the pieces.  The locations [locs] of a scatter
    buffer, in order, make it a flat array: every operation is proved to be the
    one on the array, and a buffer obtained by [abd_get_offset] to be a window
    on the array of its parent.  Sizes and offsets of the source are [size_t];
    those of a well-formed buffer are far from the end of its range. *)

From stdpp Require Import gmap.
From S2P Require Import Prelude Bits Memory.

Definition SPA_MAXBLOCKSIZE : Z := Z.shiftl 1 24.

(** [struct scatterlist]; the array up to the entry marked [end] is a list. *)
Record scatterlist : Type := Sg { sg_page : ptr; sg_length : Z }.

(** The union [abd_u]; its constructor is the flag [ABD_FLAG_LINEAR]. *)
Inductive abd_union : Type :=
| AbdLinear (abd_buf : ptr)
| AbdScatter (abd_offset abd_nents : Z) (abd_sgl : list scatterlist).

Record abd : Type := Abd {
  abd_owner : bool;
  abd_meta : bool;
  abd_size : Z;
  abd_children : Z;
  abd_u : abd_union
}.

Definition abd_is_linear (a : abd) : bool := match abd_u a with AbdLinear _ => true | _ => false end.

Definition set_abd_children (a : abd) (n : Z) : abd :=
  Abd (abd_owner a) (abd_meta a) (abd_size a) (wrap64 n) (abd_u a).

(** ** Iteration *)

(** [struct abd_iter]; the entry [iter_sg] and those after it are a list, [NULL]
    the empty one. *)
Record abd_iter : Type := AbdIter {
  iter_mapaddr : option ptr;
  iter_mapsize : Z;
  iter_abd : abd;
  iter_pos : Z;
  iter_offset : Z;
  iter_sg : list scatterlist
}.

Definition abd_iter_init (a : abd) : abd_iter :=
  match abd_u a with
  | AbdLinear _ => AbdIter None 0 a 0 0 []
  | AbdScatter offset _ sgl => AbdIter None 0 a 0 offset sgl
  end.

(** The loop of [abd_iter_advance] over the entries. *)
Fixpoint sg_advance (sgl : list scatterlist) (offset : Z) : res (list scatterlist * Z) :=
  match sgl with
  | [] => Panic
  | s :: sgl' =>
      if sg_length s <=? offset then
        match sgl' with
        | [] => Ok ([], offset - sg_length s)
        | _ => sg_advance sgl' (offset - sg_length s)
        end
      else Ok (sgl, offset)
  end.

Definition abd_iter_advance (it : abd_iter) (amount : Z) : res abd_iter :=
  if iter_pos it =? abd_size (iter_abd it) then Ok it else
  let pos := iter_pos it + amount in
  let offset := iter_offset it + amount in
  if abd_is_linear (iter_abd it) then
    Ok (AbdIter (iter_mapaddr it) (iter_mapsize it) (iter_abd it) pos offset (iter_sg it))
  else
    '(sgl, offset) ← sg_advance (iter_sg it) offset;
    Ok (AbdIter (iter_mapaddr it) (iter_mapsize it) (iter_abd it) pos offset sgl).

Definition abd_iter_map (it : abd_iter) : res abd_iter :=
  let a := iter_abd it in
  if iter_pos it =? abd_size a then Ok it else
  let offset := iter_offset it in
  match abd_u a with
  | AbdLinear buf =>
      Ok (AbdIter (Some (ptr_add buf offset)) (abd_size a - offset) a (iter_pos it) offset (iter_sg it))
  | AbdScatter _ _ _ =>
      match iter_sg it with
      | [] => Panic
      | s :: _ =>
          Ok (AbdIter (Some (ptr_add (sg_page s) offset))
            (Z.min (sg_length s - offset) (abd_size a - iter_pos it)) a (iter_pos it) offset (iter_sg it))
      end
  end.

Definition abd_iter_unmap (it : abd_iter) : abd_iter :=
  if iter_pos it =? abd_size (iter_abd it) then it else
  AbdIter None 0 (iter_abd it) (iter_pos it) (iter_offset it) (iter_sg it).

(** One iteration for each entry of the list is enough. *)
Definition iter_fuel (a : abd) : nat :=
  match abd_u a with AbdLinear _ => 1%nat | AbdScatter _ _ sgl => length sgl end.

Section Iterate.
Context {M : Type}.

(** The callback gets the address and the length of a piece, and the state. *)
Variable func : ptr -> Z -> M -> res (Z * M).

Fixpoint iterate_loop (fuel : nat) (it : abd_iter) (size : Z) (s : M) : res (Z * M) :=
  if 0 <? size then
    match fuel with
    | O => Panic
    | S fuel' =>
        it ← abd_iter_map it;
        let len := Z.min (iter_mapsize it) size in
        p ← deref (iter_mapaddr it);
        '(ret, s) ← func p len s;
        let it := abd_iter_unmap it in
        if negb (ret =? 0) then Ok (ret, s) else
        it ← abd_iter_advance it len;
        iterate_loop fuel' it (size - len) s
    end
  else Ok (0, s).

Definition abd_iterate_func (a : abd) (off size : Z) (s : M) : res (Z * M) :=
  it ← abd_iter_advance (abd_iter_init a) off;
  iterate_loop (iter_fuel a) it size s.

End Iterate.

Section Iterate2.
Context {M : Type}.
Variable func : ptr -> ptr -> Z -> M -> res (Z * M).

Fixpoint iterate_loop2 (fuel : nat) (dit sit : abd_iter) (size : Z) (s : M) : res (Z * M) :=
  if 0 <? size then
    match fuel with
    | O => Panic
    | S fuel' =>
        dit ← abd_iter_map dit;
        sit ← abd_iter_map sit;
        let dlen := Z.min (iter_mapsize dit) size in
        let slen := Z.min (iter_mapsize sit) size in
        let len := Z.min dlen slen in
        pd ← deref (iter_mapaddr dit);
        ps ← deref (iter_mapaddr sit);
        '(ret, s) ← func pd ps len s;
        let sit := abd_iter_unmap sit in
        let dit := abd_iter_unmap dit in
        if negb (ret =? 0) then Ok (ret, s) else
        dit ← abd_iter_advance dit len;
        sit ← abd_iter_advance sit len;
        iterate_loop2 fuel' dit sit (size - len) s
    end
  else Ok (0, s).

Definition abd_iterate_func2 (dabd sabd : abd) (doff soff size : Z) (s : M) : res (Z * M) :=
  dit ← abd_iter_advance (abd_iter_init dabd) doff;
  sit ← abd_iter_advance (abd_iter_init sabd) soff;
  iterate_loop2 (iter_fuel dabd + iter_fuel sabd) dit sit size s.

End Iterate2.

(** ** Copies and comparisons *)

(** The state of the callbacks: the memory and [arg_buf]. *)
Definition abd_copy_to_buf_off_cb (buf : ptr) (size : Z) (s : mem * ptr) : res (Z * (mem * ptr)) :=
  let '(m, arg_buf) := s in
  m ← memcpy m arg_buf buf size; Ok (0, (m, ptr_add arg_buf size)).

Definition abd_copy_to_buf_off (m : mem) (buf : ptr) (a : abd) (off size : Z) : res mem :=
  '(_, (m, _)) ← abd_iterate_func abd_copy_to_buf_off_cb a off size (m, buf); Ok m.

Definition abd_cmp_buf_off_cb (buf : ptr) (size : Z) (s : mem * ptr) : res (Z * (mem * ptr)) :=
  let '(m, arg_buf) := s in
  ret ← memcmp m buf arg_buf size; Ok (ret, (m, ptr_add arg_buf size)).

Definition abd_cmp_buf_off (m : mem) (a : abd) (buf : ptr) (off size : Z) : res Z :=
  '(ret, _) ← abd_iterate_func abd_cmp_buf_off_cb a off size (m, buf); Ok ret.

Definition abd_copy_from_buf_off_cb (buf : ptr) (size : Z) (s : mem * ptr) : res (Z * (mem * ptr)) :=
  let '(m, arg_buf) := s in
  m ← memcpy m buf arg_buf size; Ok (0, (m, ptr_add arg_buf size)).

Definition abd_copy_from_buf_off (m : mem) (a : abd) (buf : ptr) (off size : Z) : res mem :=
  '(_, (m, _)) ← abd_iterate_func abd_copy_from_buf_off_cb a off size (m, buf); Ok m.

Definition abd_zero_off_cb (buf : ptr) (size : Z) (m : mem) : res (Z * mem) :=
  m ← memset m buf 0 size; Ok (0, m).

Definition abd_zero_off (m : mem) (a : abd) (off size : Z) : res mem :=
  '(_, m) ← abd_iterate_func abd_zero_off_cb a off size m; Ok m.

Definition abd_copy_off_cb (dbuf sbuf : ptr) (size : Z) (m : mem) : res (Z * mem) :=
  m ← memcpy m dbuf sbuf size; Ok (0, m).

Definition abd_copy_off (m : mem) (dabd sabd : abd) (doff soff size : Z) : res mem :=
  '(_, m) ← abd_iterate_func2 abd_copy_off_cb dabd sabd doff soff size m; Ok m.

Definition abd_cmp_cb (bufa bufb : ptr) (size : Z) (m : mem) : res (Z * mem) :=
  ret ← memcmp m bufa bufb size; Ok (ret, m).

Definition abd_cmp (m : mem) (dabd sabd : abd) : res Z :=
  '(ret, _) ← abd_iterate_func2 abd_cmp_cb dabd sabd 0 0 (abd_size dabd) m; Ok ret.

(** ** Windows *)

(** The loop of [abd_get_offset_impl]: the entries left, the offset into the
    first of them and the number of entries passed. *)
Fixpoint offset_loop (nents : nat) (sgl : list scatterlist) (new_offset i : Z)
    : res (list scatterlist * Z * Z) :=
  match nents with
  | O => Ok (sgl, new_offset, i)
  | S nents' =>
      match sgl with
      | [] => Panic
      | s :: sgl' =>
          if new_offset <? sg_length s then Ok (sgl, new_offset, i)
          else offset_loop nents' sgl' (new_offset - sg_length s) (i + 1)
      end
  end.

(** The window and the parent, whose [abd_children] it counts in. *)
Definition abd_get_offset_impl (sabd : abd) (off size : Z) : res (abd * abd) :=
  u ←
    match abd_u sabd with
    | AbdLinear buf => Ok (AbdLinear (ptr_add buf off))
    | AbdScatter offset nents sgl =>
        '(sg, new_offset, i) ← offset_loop (Z.to_nat nents) sgl (offset + off) 0;
        Ok (AbdScatter new_offset (nents - i) sg)
    end;
  Ok (Abd false false size 0 u, set_abd_children sabd (abd_children sabd + size)).

Definition abd_get_offset (sabd : abd) (off : Z) : res (abd * abd) :=
  let size := if off <? abd_size sabd then abd_size sabd - off else 0 in
  VERIFY (0 <? size) ;; abd_get_offset_impl sabd off size.

Definition abd_get_offset_size (sabd : abd) (off size : Z) : res (abd * abd) :=
  abd_get_offset_impl sabd off size.

Definition abd_get_from_buf (buf : ptr) (size : Z) : res abd :=
  VERIFY (size <=? SPA_MAXBLOCKSIZE) ;; Ok (Abd false false size 0 (AbdLinear buf)).

(** The parent of the buffer put back. *)
Definition abd_put (a : abd) (abd_parent : option abd) : option abd :=
  (fun p => set_abd_children p (abd_children p - abd_size a)) <$> abd_parent.

Definition abd_to_buf (a : abd) : res ptr :=
  match abd_u a with AbdLinear buf => Ok buf | _ => Panic end.

Definition abd_take_ownership_of_buf (a : abd) (is_metadata : bool) : abd :=
  Abd true (is_metadata || abd_meta a) (abd_size a) (abd_children a) (abd_u a).

Definition abd_release_ownership_of_buf (a : abd) : abd :=
  Abd false false (abd_size a) (abd_children a) (abd_u a).

(** ** Allocation *)

Section Alloc.

(** The page size of the host, and its memory allocator: for a size, the
    address of a new buffer and what it contains. *)
Variable PAGESHIFT : Z.
Variable kmem_alloc : mem -> Z -> Z * list Z.
Variable zfs_abd_scatter_enabled : bool.

Definition PAGESIZE : Z := 2 ^ PAGESHIFT.

Definition alloc_buf (m : mem) (size : Z) : ptr * mem :=
  let '(blk, bs) := kmem_alloc m size in (Ptr blk 0, <[blk := bs]> m).

(** Only the start of a buffer can be given back. *)
Definition free_buf (m : mem) (p : ptr) : res mem :=
  _ ← deref (m !! p_blk p); VERIFY (p_off p =? 0) ;; Ok (delete (p_blk p) m).

Definition abd_chunkcnt_for_bytes (size : Z) : Z := P2ROUNDUP size PAGESIZE / PAGESIZE.

(** The loop of [abd_alloc_pages]. *)
Fixpoint alloc_pages (nr_pages : nat) (m : mem) : list scatterlist * mem :=
  match nr_pages with
  | O => ([], m)
  | S n =>
      let '(p, m) := alloc_buf m PAGESIZE in
      let '(sgl, m) := alloc_pages n m in
      (Sg p PAGESIZE :: sgl, m)
  end.

Definition abd_alloc_pages (m : mem) (size : Z) : Z * list scatterlist * mem :=
  let nr_pages := abd_chunkcnt_for_bytes size in
  let '(sgl, m) := alloc_pages (Z.to_nat nr_pages) m in (nr_pages, sgl, m).

Definition abd_alloc_linear (m : mem) (size : Z) (is_metadata : bool) : res (abd * mem) :=
  VERIFY (size <=? SPA_MAXBLOCKSIZE) ;;
  let '(buf, m) := alloc_buf m size in Ok (Abd true is_metadata size 0 (AbdLinear buf), m).

Definition abd_alloc (m : mem) (size : Z) (is_metadata : bool) : res (abd * mem) :=
  if negb zfs_abd_scatter_enabled || (size <=? PAGESIZE) then abd_alloc_linear m size is_metadata else
  VERIFY (size <=? SPA_MAXBLOCKSIZE) ;;
  let '(nents, sgl, m) := abd_alloc_pages m size in
  Ok (Abd true is_metadata size 0 (AbdScatter 0 nents sgl), m).

Definition abd_alloc_sametype (m : mem) (sabd : abd) (size : Z) : res (abd * mem) :=
  if abd_is_linear sabd then abd_alloc_linear m size (abd_meta sabd) else abd_alloc m size (abd_meta sabd).

Definition abd_alloc_for_io (m : mem) (size : Z) (is_metadata : bool) : res (abd * mem) :=
  abd_alloc m size is_metadata.

(** The pages of one entry, from the one at [j]. *)
Fixpoint free_sg_pages (fuel : nat) (m : mem) (page : ptr) (length j : Z) : res mem :=
  if j <? length then
    match fuel with
    | O => Panic
    | S fuel' =>
        m ← free_buf m (ptr_add page (Z.shiftr j PAGESHIFT * PAGESIZE));
        free_sg_pages fuel' m page length (j + PAGESIZE)
    end
  else Ok m.

Fixpoint abd_free_pages (m : mem) (sgl : list scatterlist) : res mem :=
  match sgl with
  | [] => Ok m
  | s :: sgl' =>
      m ← free_sg_pages (Z.to_nat (sg_length s / PAGESIZE + 1)) m (sg_page s) (sg_length s) 0;
      abd_free_pages m sgl'
  end.

Definition abd_free_scatter (m : mem) (nents : Z) (sgl : list scatterlist) : res mem :=
  abd_free_pages m (take (Z.to_nat nents) sgl).

Definition abd_free_linear (m : mem) (buf : ptr) : res mem := free_buf m buf.

Definition abd_free (m : mem) (a : abd) : res mem :=
  match abd_u a with
  | AbdLinear buf => abd_free_linear m buf
  | AbdScatter _ nents sgl => abd_free_scatter m nents sgl
  end.

(** ** Borrowed buffers *)

Definition abd_borrow_buf (m : mem) (a : abd) (n : Z) : ptr * abd * mem :=
  let '(buf, m) := match abd_u a with AbdLinear buf => (buf, m) | _ => alloc_buf m n end in
  (buf, set_abd_children a (abd_children a + n), m).

Definition abd_borrow_buf_copy (m : mem) (a : abd) (n : Z) : res (ptr * abd * mem) :=
  let '(buf, a', m) := abd_borrow_buf m a n in
  m ← (if abd_is_linear a then Ok m else abd_copy_to_buf_off m buf a 0 n);
  Ok (buf, a', m).

Definition abd_return_buf (m : mem) (a : abd) (buf : ptr) (n : Z) : res (abd * mem) :=
  m ← (if abd_is_linear a then Ok m else free_buf m buf);
  Ok (set_abd_children a (abd_children a - n), m).

Definition abd_return_buf_copy (m : mem) (a : abd) (buf : ptr) (n : Z) : res (abd * mem) :=
  m ← (if abd_is_linear a then Ok m else abd_copy_from_buf_off m a buf 0 n);
  abd_return_buf m a buf n.

End Alloc.

(** ** The array of a scatter buffer *)

Definition sg_locs (s : scatterlist) : list ptr := span (sg_page s) (sg_length s).

Definition sgs_locs (l : list scatterlist) : list ptr := sgl ← l; sg_locs sgl.

(** The entries of a buffer and the offset of its first byte; a linear buffer is
    a list of one entry. *)
Definition abd_sgs (a : abd) : list scatterlist :=
  match abd_u a with AbdLinear p => [Sg p (abd_size a)] | AbdScatter _ _ sgl => sgl end.

Definition abd_off (a : abd) : Z := match abd_u a with AbdLinear _ => 0 | AbdScatter off _ _ => off end.

Definition locs (a : abd) : list ptr :=
  take (Z.to_nat (abd_size a)) (drop (Z.to_nat (abd_off a)) (sgs_locs (abd_sgs a))).

Definition sgs_size (l : list scatterlist) : Z := zsum sg_length l.

Definition sg_ok (s : scatterlist) : Prop := 0 < sg_length s.

Record abd_wf (a : abd) : Prop := {
  aw_size : 0 < abd_size a;
  aw_off : 0 <= abd_off a;
  aw_sgs : Forall sg_ok (abd_sgs a);
  aw_end : abd_off a + abd_size a <= sgs_size (abd_sgs a);
  aw_first : match abd_sgs a with s :: _ => abd_off a < sg_length s | [] => True end;
  aw_nents : match abd_u a with AbdScatter _ nents sgl => nents = Z.of_nat (length sgl) | _ => True end
}.

(** ** The iterator *)

Lemma length_sgs_locs l : Forall sg_ok l -> Z.of_nat (length (sgs_locs l)) = sgs_size l.
Proof.
  induction 1 as [|s l Hs _ IH]; [done|]. unfold sgs_locs, sgs_size in *. cbn [mbind list_bind zsum foldr].
  rewrite length_app. unfold sg_locs at 1. rewrite length_span. unfold sg_ok in Hs. unfold zsum in IH. lia.
Qed.

Lemma sgs_size_nonneg l : Forall sg_ok l -> 0 <= sgs_size l.
Proof. intros H. rewrite <- length_sgs_locs by done. lia. Qed.

Lemma sgs_locs_cons s l : sgs_locs (s :: l) = sg_locs s ++ sgs_locs l.
Proof. done. Qed.

Lemma sgs_size_cons s l : sgs_size (s :: l) = sg_length s + sgs_size l.
Proof. done. Qed.

Lemma drop_sg s l off :
  sg_ok s -> sg_length s <= off -> drop (Z.to_nat off) (sgs_locs (s :: l)) = drop (Z.to_nat (off - sg_length s)) (sgs_locs l).
Proof.
  intros Hs Ho. unfold sg_ok in Hs. rewrite sgs_locs_cons, drop_app_ge by (unfold sg_locs; rewrite length_span; lia).
  f_equal. unfold sg_locs. rewrite length_span. lia.
Qed.

(** The entries of [l] from the offset [off] are those of [l'] from [off']. *)
Definition same_rest (l : list scatterlist) (off : Z) (l' : list scatterlist) (off' : Z) : Prop :=
  drop (Z.to_nat off) (sgs_locs l) = drop (Z.to_nat off') (sgs_locs l') /\
  sgs_size l - off = sgs_size l' - off' /\ Forall sg_ok l' /\ 0 <= off' /\
  match l' with [] => off' = 0 | s :: _ => off' < sg_length s end.

Lemma sg_advance_ok l off :
  Forall sg_ok l -> l <> [] -> 0 <= off <= sgs_size l ->
  exists l' off', sg_advance l off = Ok (l', off') /\ same_rest l off l' off' /\ (length l' <= length l)%nat /\
    (match l with s :: _ => sg_length s <= off -> (length l' < length l)%nat | [] => True end).
Proof.
  intros Hok. revert off. induction Hok as [|s l Hs Hok IH]; intros off Hne Ho; [done|]. cbn [sg_advance].
  rewrite sgs_size_cons in Ho. destruct (Z.leb_spec (sg_length s) off) as [Hle|Hlt].
  2:{ exists (s :: l), off. split_and!; try done; [|intros; lia]. split_and!; try done; [by constructor|lia]. }
  destruct l as [|s' l'].
  - exists [], (off - sg_length s). assert (off = sg_length s) as -> by (unfold sgs_size in Ho; simpl in Ho; lia).
    split_and!; try (simpl; lia); [done|]. unfold same_rest. rewrite drop_sg, sgs_size_cons by (done || lia). split_and!; try done; lia.
  - destruct (IH (off - sg_length s)) as (l2 & off2 & E & (S1 & S2 & S3 & S4 & S5) & Hl & _); [done|lia|].
    exists l2, off2. split_and!; [done| |simpl in *; lia|intros _; simpl in *; lia].
    unfold same_rest. rewrite drop_sg by done. split_and!; try done. rewrite sgs_size_cons. lia.
Qed.

(** The entries from the iterator on. *)
Definition it_sgs (it : abd_iter) : list scatterlist :=
  match abd_u (iter_abd it) with AbdLinear _ => abd_sgs (iter_abd it) | _ => iter_sg it end.

(** The iterator stands at a byte of the buffer, with nothing mapped. *)
Record it_ok (a : abd) (it : abd_iter) : Prop := {
  it_abd : iter_abd it = a;
  it_unmapped : iter_mapaddr it = None /\ iter_mapsize it = 0;
  it_pos : 0 <= iter_pos it <= abd_size a;
  it_rest : take (Z.to_nat (abd_size a - iter_pos it)) (drop (Z.to_nat (iter_offset it)) (sgs_locs (it_sgs it)))
            = drop (Z.to_nat (iter_pos it)) (locs a);
  it_left : abd_size a - iter_pos it <= sgs_size (it_sgs it) - iter_offset it;
  it_sg_ok : Forall sg_ok (it_sgs it);
  it_offset : 0 <= iter_offset it;
  it_head : match it_sgs it with
            | [] => iter_pos it = abd_size a
            | s :: _ => iter_pos it < abd_size a -> iter_offset it < sg_length s
            end;
  it_linear : abd_is_linear a = true -> iter_offset it = iter_pos it
}.

Lemma it_init a : abd_wf a -> it_ok a (abd_iter_init a) /\ it_sgs (abd_iter_init a) = abd_sgs a.
Proof.
  intros []. unfold abd_iter_init, abd_off, abd_sgs, locs in *.
  destruct (abd_u a) as [p|off n sgl] eqn:E; (split; [constructor|]); unfold it_sgs, abd_sgs; simpl; rewrite ?E; try done; simpl.
  all: rewrite ?Z.sub_0_r, ?drop_0; try done; try lia.
  - unfold locs, abd_off, abd_sgs. by rewrite E, drop_0.
  - unfold locs, abd_off, abd_sgs. by rewrite E.
  - destruct sgl; [|lia]. unfold sgs_size in aw_end0. simpl in aw_end0. lia.
  - unfold abd_is_linear. by rewrite E.
Qed.

Lemma advance_ok a it n :
  it_ok a it -> 0 <= n -> iter_pos it + n <= abd_size a ->
  exists it', abd_iter_advance it n = Ok it' /\ it_ok a it' /\ iter_pos it' = iter_pos it + n /\
    (length (it_sgs it') <= length (it_sgs it))%nat /\
    (abd_is_linear a = false -> iter_pos it < abd_size a ->
     match it_sgs it with s :: _ => sg_length s <= iter_offset it + n -> (length (it_sgs it') < length (it_sgs it))%nat | [] => True end).
Proof.
  intros Hit Hn Hend. pose proof Hit as []. unfold abd_iter_advance. rewrite it_abd0.
  destruct (Z.eqb_spec (iter_pos it) (abd_size a)) as [Ep|Ep].
  { exists it. split_and!; try done; lia. }
  unfold abd_is_linear. unfold it_sgs in *. rewrite it_abd0 in *. destruct (abd_u a) as [p|off0 nents sgl0] eqn:Eu.
  - eexists. split; [done|]. split_and!; try done; simpl; try lia; [|by rewrite Eu]. constructor; unfold it_sgs; simpl; rewrite ?Eu; try done.
    + lia.
    + replace (Z.to_nat (iter_pos it + n)) with (Z.to_nat (iter_pos it) + Z.to_nat n)%nat by lia. rewrite <- drop_drop, <- it_rest0.
      rewrite skipn_firstn_comm, drop_drop. f_equal; [lia|]. f_equal. lia.
    + lia.
    + lia.
    + unfold abd_sgs. rewrite Eu. simpl. rewrite it_linear0 by (unfold abd_is_linear; by rewrite Eu). lia.
    + intros _. rewrite it_linear0; [lia|]. unfold abd_is_linear. by rewrite Eu.
  - assert (Hne : iter_sg it <> []) by (intros E; rewrite E in it_head0; done).
    destruct (sg_advance_ok (iter_sg it) (iter_offset it + n)) as (l' & off' & -> & (S1 & S2 & S3 & S4 & S5) & Hl & Hl2);
      [done|done|lia|]. cbn [mbind res_bind]. eexists. split; [done|].
    split_and!; simpl; rewrite ?Eu; try done.
    constructor; unfold it_sgs; simpl; rewrite ?Eu; try done; try lia.
    + rewrite <- S1. replace (Z.to_nat (iter_pos it + n)) with (Z.to_nat (iter_pos it) + Z.to_nat n)%nat by lia. rewrite <- drop_drop, <- it_rest0.
      rewrite skipn_firstn_comm, drop_drop. f_equal; [lia|]. f_equal. lia.
    + destruct l' as [|s l']; [|done]. unfold sgs_size in S2 at 2. simpl in S2. lia.
    + unfold abd_is_linear. by rewrite Eu.
Qed.

Lemma map_ok a it :
  it_ok a it -> iter_pos it < abd_size a ->
  exists p it1, abd_iter_map it = Ok it1 /\ iter_mapaddr it1 = Some p /\ abd_iter_unmap it1 = it /\
    0 < iter_mapsize it1 <= abd_size a - iter_pos it /\
    (forall n, 0 <= n <= iter_mapsize it1 -> span p n = take (Z.to_nat n) (drop (Z.to_nat (iter_pos it)) (locs a))) /\
    (iter_mapsize it1 = abd_size a - iter_pos it \/ abd_is_linear a = false /\
     match it_sgs it with s :: _ => sg_length s <= iter_offset it + iter_mapsize it1 | [] => True end).
Proof.
  intros [] Hlt. unfold abd_iter_map. rewrite it_abd0. destruct (Z.eqb_spec (iter_pos it) (abd_size a)) as [|_]; [lia|].
  assert (Hhead : exists s l, it_sgs it = s :: l /\ iter_offset it < sg_length s /\ forall n, 0 <= n <= sg_length s - iter_offset it ->
    n <= abd_size a - iter_pos it ->
    span (ptr_add (sg_page s) (iter_offset it)) n = take (Z.to_nat n) (drop (Z.to_nat (iter_pos it)) (locs a))).
  { destruct (it_sgs it) as [|s l]; [lia|]. exists s, l. split_and!; [done|by apply it_head0|]. intros n Hn Hn2.
    rewrite <- it_rest0, take_take, Nat.min_l by lia. specialize (it_head0 Hlt).
    rewrite sgs_locs_cons, drop_app_le, take_app_le by (unfold sg_locs; rewrite ?length_drop, length_span; lia).
    unfold sg_locs. replace (sg_length s) with (iter_offset it + (n + (sg_length s - iter_offset it - n))) by lia.
    rewrite !span_app by lia. rewrite drop_app_ge by (rewrite length_span; lia). rewrite length_span, Nat.sub_diag, drop_0.
    by rewrite take_app_length' by (rewrite length_span; lia). }
  destruct Hhead as (s & l & Es & Hs & Hspan). unfold it_sgs in *. rewrite it_abd0 in *.
  unfold abd_iter_unmap, abd_is_linear. destruct it_unmapped0 as [Em En]. destruct (abd_u a) as [p|off0 nents sgl0] eqn:Eu.
  - assert (Eo : iter_offset it = iter_pos it) by (apply it_linear0; unfold abd_is_linear; by rewrite Eu).
    unfold abd_sgs in Es. rewrite Eu in Es. injection Es as <- <-. simpl in Hs, Hspan.
    eexists _, _. split; [done|]. simpl. split; [done|]. split.
    { destruct (Z.eqb_spec (iter_pos it) (abd_size a)); [lia|]. destruct it; simpl in *. by subst. }
    split_and!; [lia|lia| |by left; lia]. intros n Hn. apply Hspan; lia.
  - rewrite Es. eexists _, _. split; [done|]. simpl. split; [done|]. split.
    { destruct (Z.eqb_spec (iter_pos it) (abd_size a)); [lia|]. destruct it; simpl in *. by subst. }
    split_and!; [lia|lia| |]; [intros n Hn; apply Hspan; lia|].
    destruct (Z.min_spec (sg_length s - iter_offset it) (abd_size a - iter_pos it)) as [[? ->]|[? ->]]; [|by left].
    right. split; [done|]. lia.
Qed.

(** Buffers whose entries are multiples of a unit, and iterators at a multiple. *)
Definition it_div (k : Z) (it : abd_iter) : Prop :=
  (k | abd_size (iter_abd it)) /\ (k | iter_pos it) /\ (k | iter_offset it) /\
  Forall (fun s => (k | sg_length s)) (it_sgs it).

Lemma sg_advance_div k l off l' off' :
  sg_advance l off = Ok (l', off') -> Forall (fun s => (k | sg_length s)) l -> (k | off) ->
  Forall (fun s => (k | sg_length s)) l' /\ (k | off').
Proof.
  revert off. induction l as [|s l IH]; intros off E Hl Ho; [done|]. cbn [sg_advance] in E. pose proof Hl as [Hs Hl']%Forall_cons.
  destruct (sg_length s <=? off); [|by injection E as <- <-].
  assert (Hd : (k | off - sg_length s)) by (by apply Z.divide_sub_r). destruct l as [|s2 l]; [by injection E as <- <-|by eapply IH].
Qed.

Lemma advance_div k it n it' : abd_iter_advance it n = Ok it' -> it_div k it -> (k | n) -> it_div k it'.
Proof.
  unfold abd_iter_advance, it_div, it_sgs, abd_is_linear. intros E (H1 & H2 & H3 & H4) Hn.
  destruct (_ =? _); [by injection E as <-|]. pose proof (Z.divide_add_r k _ _ H3 Hn) as H5. pose proof (Z.divide_add_r k _ _ H2 Hn) as H6.
  destruct (abd_u (iter_abd it)) eqn:Eu; [injection E as <-; simpl; by rewrite Eu|].
  destruct (sg_advance _ _) as [[l off]|] eqn:Es; [|done]. injection E as <-. simpl. rewrite Eu.
  by destruct (sg_advance_div k _ _ _ _ Es H4 H5).
Qed.

Lemma min_div k a b : (k | a) -> (k | b) -> (k | Z.min a b).
Proof. intros. by destruct (Z.min_spec a b) as [[_ ->]|[_ ->]]. Qed.

Lemma map_div k it it1 : abd_iter_map it = Ok it1 -> iter_mapsize it = 0 -> it_div k it -> (k | iter_mapsize it1).
Proof.
  unfold abd_iter_map, it_div, it_sgs. intros E E0 (H1 & H2 & H3 & H4). destruct (_ =? _); [injection E as <-; rewrite E0; apply Z.divide_0_r|].
  destruct (abd_u (iter_abd it)); [injection E as <-; by apply Z.divide_sub_r|].
  destruct (iter_sg it); [done|]. injection E as <-. apply Forall_cons in H4 as [H4 _]. apply min_div; by apply Z.divide_sub_r.
Qed.

(** ** The pieces an iteration visits *)

(** The callback on each piece, until it answers other than 0. *)
Fixpoint run_pieces {M} (func : ptr -> Z -> M -> res (Z * M)) (cs : list (ptr * Z)) (s : M) : res (Z * M) :=
  match cs with
  | [] => Ok (0, s)
  | (p, n) :: cs' =>
      '(ret, s) ← func p n s; if negb (ret =? 0) then Ok (ret, s) else run_pieces func cs' s
  end.

Fixpoint run_pieces2 {M} (func : ptr -> ptr -> Z -> M -> res (Z * M)) (cs : list (ptr * ptr * Z)) (s : M)
    : res (Z * M) :=
  match cs with
  | [] => Ok (0, s)
  | (p, q, n) :: cs' =>
      '(ret, s) ← func p q n s; if negb (ret =? 0) then Ok (ret, s) else run_pieces2 func cs' s
  end.

Lemma it_sgs_empty a it : it_ok a it -> it_sgs it = [] -> iter_pos it = abd_size a.
Proof. intros [] E. by rewrite E in it_head0. Qed.

Lemma take_drop_add {A} (l : list A) a b c :
  take (a + b) (drop c l) = take a (drop c l) ++ take b (drop (c + a) l).
Proof. rewrite <- (drop_drop l a c). symmetry. apply take_take_drop. Qed.

Lemma locs_split a pos n size :
  0 <= pos -> 0 <= n <= size ->
  take (Z.to_nat size) (drop (Z.to_nat pos) (locs a)) =
  take (Z.to_nat n) (drop (Z.to_nat pos) (locs a)) ++ take (Z.to_nat (size - n)) (drop (Z.to_nat (pos + n)) (locs a)).
Proof.
  intros Hp Hn. replace (Z.to_nat size) with (Z.to_nat n + Z.to_nat (size - n))%nat by lia.
  rewrite take_drop_add. repeat f_equal. lia.
Qed.

(** After a piece was visited the iteration is over or has passed an entry. *)
Lemma advance_shorter a it it1 n size :
  it_ok a it -> iter_pos it < abd_size a -> size <= abd_size a - iter_pos it ->
  0 < iter_mapsize it1 <= abd_size a - iter_pos it ->
  (iter_mapsize it1 = abd_size a - iter_pos it \/ abd_is_linear a = false /\
   match it_sgs it with s :: _ => sg_length s <= iter_offset it + iter_mapsize it1 | [] => True end) ->
  n = Z.min (iter_mapsize it1) size ->
  forall it', (abd_is_linear a = false -> iter_pos it < abd_size a ->
     match it_sgs it with s :: _ => sg_length s <= iter_offset it + n -> (length (it_sgs it') < length (it_sgs it))%nat | [] => True end) ->
  n = size \/ (length (it_sgs it') < length (it_sgs it))%nat.
Proof.
  intros Hit Hlt Hs Hm Hcase -> it' Hadv.
  destruct (Z.min_spec (iter_mapsize it1) size) as [[Hl Em]|[_ Em]]; rewrite Em in *; [|by left].
  destruct Hcase as [E|[Hlin Hh]]; [lia|]. right. specialize (Hadv Hlin Hlt).
  destruct (it_sgs it) eqn:E; [|auto]. apply (it_sgs_empty a) in E; [lia|done].
Qed.

Lemma iterate_loop_pieces a fuel it size :
  it_ok a it -> 0 <= size <= abd_size a - iter_pos it -> (length (it_sgs it) <= fuel)%nat ->
  exists cs, (forall M func (s : M), iterate_loop func fuel it size s = run_pieces func cs s) /\
    Forall (fun c => 0 < c.2) cs /\
    (c ← cs; span c.1 c.2) = take (Z.to_nat size) (drop (Z.to_nat (iter_pos it)) (locs a)) /\
    (forall k, it_div k it -> (k | size) -> Forall (fun c => (k | c.2)) cs).
Proof.
  revert it size. induction fuel as [|fuel IH]; intros it size Hit Hsize Hfuel.
  { assert (size = 0) as ->; [|by exists []]. 
    destruct (it_sgs it) eqn:E; [|simpl in Hfuel; lia]. apply (it_sgs_empty a) in E; [lia|done]. }
  destruct (Z.ltb_spec 0 size) as [Hpos|Hpos].
  2:{ assert (size = 0) as -> by lia. by exists []. }
  assert (Hlt : iter_pos it < abd_size a) by lia.
  destruct (map_ok a it Hit Hlt) as (p & it1 & Emap & Eaddr & Eunmap & Hn & Hspan & Hcase).
  set (n := Z.min (iter_mapsize it1) size).
  destruct (advance_ok a it n Hit) as (it2 & Eadv & Hit2 & Epos & Hlen & Hless); [lia..|].
  assert (Hdec : n = size \/ (length (it_sgs it2) < length (it_sgs it))%nat)
    by (eapply advance_shorter; done || lia).
  assert (Hn_div : forall k, it_div k it -> (k | size) -> (k | n)).
  { intros k Hk Hks. apply min_div; [|done]. eapply map_div; [exact Emap|apply Hit|exact Hk]. }
  destruct Hdec as [En|Hdec].
  - exists [(p, n)]. split_and!; [|apply Forall_singleton; simpl; lia|..].
    + intros M func s. cbn [iterate_loop run_pieces]. rewrite (proj2 (Z.ltb_lt 0 size) Hpos), Emap. cbn [mbind res_bind].
      rewrite Eaddr. cbn [deref mbind res_bind]. fold n. destruct (func p n s) as [[ret s']|]; [|done]. cbn [mbind res_bind].
      destruct (negb (ret =? 0)); [done|]. rewrite Eunmap, Eadv. cbn [mbind res_bind].
      rewrite En, Z.sub_diag. by destruct fuel.
    + simpl. rewrite app_nil_r, <- En. apply Hspan. lia.
    + intros k Hk Hks. repeat constructor. simpl. auto.
  - destruct (IH it2 (size - n) Hit2) as (cs & Hrun & Hcs & Hlocs & Hdiv); [lia|lia|].
    exists ((p, n) :: cs). split_and!.
    + intros M func s. cbn [iterate_loop run_pieces]. rewrite (proj2 (Z.ltb_lt 0 size) Hpos), Emap. cbn [mbind res_bind].
      rewrite Eaddr. cbn [deref mbind res_bind]. fold n. destruct (func p n s) as [[ret s']|]; [|done]. cbn [mbind res_bind].
      destruct (negb (ret =? 0)); [done|]. rewrite Eunmap, Eadv. cbn [mbind res_bind]. apply Hrun.
    + constructor; [simpl; lia|done].
    + cbn [mbind list_bind fst snd]. rewrite Hlocs, Epos, (Hspan n) by lia. symmetry. apply locs_split; lia || apply Hit.
    + intros k Hk Hks. constructor; [simpl; auto|]. apply Hdiv; [|apply Z.divide_sub_r; auto]. eapply advance_div; [exact Eadv|exact Hk|auto].
Qed.

Lemma iter_fuel_sgs a : length (abd_sgs a) = iter_fuel a.
Proof. unfold abd_sgs, iter_fuel. by destruct (abd_u a). Qed.

(** An iteration visits the locations from [off] on, in pieces that depend on
    the buffer alone. *)
Lemma iterate_pieces a off size :
  abd_wf a -> 0 <= off -> 0 <= size -> off + size <= abd_size a ->
  exists cs, (forall M func (s : M), abd_iterate_func func a off size s = run_pieces func cs s) /\
    Forall (fun c => 0 < c.2) cs /\
    (c ← cs; span c.1 c.2) = take (Z.to_nat size) (drop (Z.to_nat off) (locs a)) /\
    (forall k, it_div k (abd_iter_init a) -> (k | off) -> (k | size) -> Forall (fun c => (k | c.2)) cs).
Proof.
  intros Hwf Ho Hs He. destruct (it_init a Hwf) as [Hit Esg].
  assert (E0 : iter_pos (abd_iter_init a) = 0) by (unfold abd_iter_init; by destruct (abd_u a)).
  destruct (advance_ok a _ off Hit Ho) as (it & Eadv & Hit' & Epos & Hlen & _); [lia|].
  rewrite Esg, iter_fuel_sgs in Hlen. rewrite E0, Z.add_0_l in Epos.
  destruct (iterate_loop_pieces a (iter_fuel a) it size Hit') as (cs & Hrun & Hcs & Hlocs & Hdiv); [lia|done|].
  rewrite Epos in Hlocs. exists cs. split_and!; [|done|done|].
  - intros M func s. unfold abd_iterate_func. rewrite Eadv. apply Hrun.
  - intros k Hk Hko Hks. apply Hdiv; [|done]. by eapply advance_div.
Qed.

(** Every piece is a multiple of [k] bytes. *)
Definition abd_multiple (k : Z) (a : abd) : Prop :=
  (k | abd_size a) /\ (k | abd_off a) /\ Forall (fun s => (k | sg_length s)) (abd_sgs a).

Lemma multiple_init k a : abd_wf a -> abd_multiple k a -> it_div k (abd_iter_init a).
Proof.
  intros Hwf (H1 & H2 & H3). destruct (it_init a Hwf) as [_ Esg]. unfold it_div. rewrite Esg.
  unfold abd_iter_init, abd_off in *. destruct (abd_u a); simpl; split_and!; done || apply Z.divide_0_r.
Qed.

Lemma iterate_loop2_pieces d a fuel dit sit size :
  it_ok d dit -> it_ok a sit -> 0 <= size <= abd_size d - iter_pos dit -> size <= abd_size a - iter_pos sit ->
  (length (it_sgs dit) + length (it_sgs sit) <= fuel)%nat ->
  exists cs, (forall M func (s : M), iterate_loop2 func fuel dit sit size s = run_pieces2 func cs s) /\
    Forall (fun c => 0 < c.2) cs /\
    (c ← cs; span c.1.1 c.2) = take (Z.to_nat size) (drop (Z.to_nat (iter_pos dit)) (locs d)) /\
    (c ← cs; span c.1.2 c.2) = take (Z.to_nat size) (drop (Z.to_nat (iter_pos sit)) (locs a)) /\
    (forall k, it_div k dit -> it_div k sit -> (k | size) -> Forall (fun c => (k | c.2)) cs).
Proof.
  revert dit sit size. induction fuel as [|fuel IH]; intros dit sit size Hd Hs Hsize Hsize2 Hfuel.
  { assert (size = 0) as ->; [|by exists []].
    destruct (it_sgs dit) eqn:E; [|simpl in Hfuel; lia]. apply (it_sgs_empty d) in E; [lia|done]. }
  destruct (Z.ltb_spec 0 size) as [Hpos|Hpos].
  2:{ assert (size = 0) as -> by lia. by exists []. }
  destruct (map_ok d dit Hd ltac:(lia)) as (p & dit1 & Emap & Eaddr & Eunmap & Hn & Hspan & Hcase).
  destruct (map_ok a sit Hs ltac:(lia)) as (q & sit1 & Emap' & Eaddr' & Eunmap' & Hn' & Hspan' & Hcase').
  set (n := Z.min (Z.min (iter_mapsize dit1) size) (Z.min (iter_mapsize sit1) size)).
  destruct (advance_ok d dit n Hd) as (dit2 & Eadv & Hd2 & Epos & Hlen & Hless); [lia..|].
  destruct (advance_ok a sit n Hs) as (sit2 & Eadv' & Hs2 & Epos' & Hlen' & Hless'); [lia..|].
  assert (Hstep : forall M func (s : M), iterate_loop2 func (S fuel) dit sit size s =
    '(ret, s) ← func p q n s; if negb (ret =? 0) then Ok (ret, s) else iterate_loop2 func fuel dit2 sit2 (size - n) s).
  { intros M func s. cbn [iterate_loop2]. rewrite (proj2 (Z.ltb_lt 0 size) Hpos), Emap. cbn [mbind res_bind].
    rewrite Emap'. cbn [mbind res_bind]. rewrite Eaddr, Eaddr'. cbn [deref mbind res_bind]. fold n.
    destruct (func p q n s) as [[ret s']|]; [|done]. cbn [mbind res_bind]. destruct (negb (ret =? 0)); [done|].
    rewrite Eunmap, Eunmap', Eadv. cbn [mbind res_bind]. by rewrite Eadv'. }
  assert (Hdec : n = size \/ (length (it_sgs dit2) + length (it_sgs sit2) < length (it_sgs dit) + length (it_sgs sit))%nat).
  { destruct (Z.min_spec (iter_mapsize dit1) (iter_mapsize sit1)) as [[Hle Em]|[Hle Em]].
    - destruct (advance_shorter d dit dit1 n size Hd ltac:(lia) ltac:(lia) Hn Hcase ltac:(lia) dit2 Hless) as [|]; [by left|right; lia].
    - destruct (advance_shorter a sit sit1 n size Hs ltac:(lia) ltac:(lia) Hn' Hcase' ltac:(lia) sit2 Hless') as [|]; [by left|right; lia]. }
  assert (Hn_div : forall k, it_div k dit -> it_div k sit -> (k | size) -> (k | n)).
  { intros k Hk Hk' Hks. apply min_div; (apply min_div; [|done]); [eapply map_div; [exact Emap|apply Hd|exact Hk]|eapply map_div; [exact Emap'|apply Hs|exact Hk']]. }
  destruct Hdec as [En|Hdec].
  - exists [(p, q, n)]. split_and!; [|by repeat constructor; simpl; lia|..].
    + intros M func s. rewrite Hstep. cbn [run_pieces2]. rewrite En, Z.sub_diag. by destruct fuel.
    + simpl. rewrite app_nil_r, <- En. apply Hspan. lia.
    + simpl. rewrite app_nil_r, <- En. apply Hspan'. lia.
    + intros k Hk Hk' Hks. repeat constructor. simpl. auto.
  - destruct (IH dit2 sit2 (size - n) Hd2 Hs2) as (cs & Hrun & Hcs & Hl1 & Hl2 & Hdiv); [lia..|].
    exists ((p, q, n) :: cs). split_and!.
    + intros M func s. rewrite Hstep. cbn [run_pieces2]. destruct (func p q n s) as [[ret s']|]; [|done].
      cbn [mbind res_bind]. destruct (negb _); [done|apply Hrun].
    + constructor; [simpl; lia|done].
    + cbn [mbind list_bind fst snd]. rewrite Hl1, Epos, (Hspan n) by lia. symmetry. apply locs_split; lia || apply Hd.
    + cbn [mbind list_bind fst snd]. rewrite Hl2, Epos', (Hspan' n) by lia. symmetry. apply locs_split; lia || apply Hs.
    + intros k Hk Hk' Hks. constructor; [simpl; auto|]. apply Hdiv; [eapply advance_div; [exact Eadv|exact Hk|auto]|eapply advance_div; [exact Eadv'|exact Hk'|auto]|].
      apply Z.divide_sub_r; auto.
Qed.

Lemma iterate2_pieces d a doff soff size :
  abd_wf d -> abd_wf a -> 0 <= doff -> 0 <= soff -> 0 <= size ->
  doff + size <= abd_size d -> soff + size <= abd_size a ->
  exists cs, (forall M func (s : M), abd_iterate_func2 func d a doff soff size s = run_pieces2 func cs s) /\
    Forall (fun c => 0 < c.2) cs /\
    (c ← cs; span c.1.1 c.2) = take (Z.to_nat size) (drop (Z.to_nat doff) (locs d)) /\
    (c ← cs; span c.1.2 c.2) = take (Z.to_nat size) (drop (Z.to_nat soff) (locs a)) /\
    (forall k, it_div k (abd_iter_init d) -> it_div k (abd_iter_init a) -> (k | doff) -> (k | soff) -> (k | size) -> Forall (fun c => (k | c.2)) cs).
Proof.
  intros Hd Ha Hdo Hso Hs He1 He2. destruct (it_init d Hd) as [Hit Esg]. destruct (it_init a Ha) as [Hit' Esg'].
  assert (E0 : forall a, iter_pos (abd_iter_init a) = 0) by (intros x; unfold abd_iter_init; by destruct (abd_u x)).
  destruct (advance_ok d _ doff Hit Hdo) as (dit & Eadv & Hdit & Epos & Hlen & _); [rewrite E0; lia|].
  destruct (advance_ok a _ soff Hit' Hso) as (sit & Eadv' & Hsit & Epos' & Hlen' & _); [rewrite E0; lia|].
  rewrite Esg, iter_fuel_sgs in Hlen. rewrite Esg', iter_fuel_sgs in Hlen'. rewrite E0, Z.add_0_l in Epos, Epos'.
  destruct (iterate_loop2_pieces d a (iter_fuel d + iter_fuel a) dit sit size Hdit Hsit) as (cs & Hrun & Hcs & Hl1 & Hl2 & Hdiv); [lia..|].
  rewrite Epos in Hl1. rewrite Epos' in Hl2. exists cs. split_and!; try done.
  - intros M func s. unfold abd_iterate_func2. rewrite Eadv. cbn [mbind res_bind]. rewrite Eadv'. apply Hrun.
  - intros k Hk Hk' Hko Hko' Hks. apply Hdiv; [by eapply advance_div|by eapply advance_div|done].
Qed.

(** ** Copies and comparisons by pieces *)

Definition dst_locs (ts : list (ptr * ptr * Z)) : list ptr := t ← ts; span t.1.1 t.2.
Definition src_locs (ts : list (ptr * ptr * Z)) : list ptr := t ← ts; span t.1.2 t.2.

Fixpoint copies (ts : list (ptr * ptr * Z)) (m : mem) : res mem :=
  match ts with
  | [] => Ok m
  | (d, s, n) :: ts' => m ← memcpy m d s n; copies ts' m
  end.

Fixpoint cmps (ts : list (ptr * ptr * Z)) (m : mem) : res Z :=
  match ts with
  | [] => Ok 0
  | (d, s, n) :: ts' => r ← memcmp m d s n; if negb (r =? 0) then Ok r else cmps ts' m
  end.

Lemma copies_ok ts m vs ws :
  Forall (fun t => 0 < t.2) ts -> holds m (src_locs ts) vs -> holds m (dst_locs ts) ws -> NoDup (dst_locs ts) ->
  (forall l, l ∈ dst_locs ts -> l ∉ src_locs ts) ->
  exists m', copies ts m = Ok m' /\ written m (dst_locs ts) vs m'.
Proof.
  intros Hpos. revert m vs ws. induction Hpos as [|[[d s] n] ts Hn Hpos IH]; intros m vs ws Hs Hd Hnd Hdis.
  { exists m. apply Forall2_nil_inv_l in Hs as ->. split; [done|apply written_nil]. }
  cbn [copies dst_locs src_locs mbind list_bind fst snd] in *. fold (dst_locs ts) (src_locs ts) in *. simpl in Hn.
  apply Forall2_app_inv_l in Hs as (vs1 & vs2 & Hs1 & Hs2 & ->). apply Forall2_app_inv_l in Hd as (ws1 & ws2 & Hd1 & Hd2 & ->).
  apply NoDup_app in Hnd as (_ & Hnd1 & Hnd2).
  destruct (memcpy_ok m d s n vs1 ws1 Hn Hs1 Hd1) as (m1 & E & Hw). rewrite E. cbn [mbind res_bind].
  destruct (IH m1 vs2 ws2) as (m2 & E2 & Hw2); [| |done| |].
  - eapply holds_frame; [exact Hs2|exact Hw|]. intros l Hl Hl'. apply (Hdis l); rewrite elem_of_app; auto.
  - eapply holds_frame; [exact Hd2|exact Hw|]. intros l Hl Hl'. by apply (Hnd1 l).
  - intros l Hl Hl'. apply (Hdis l); rewrite elem_of_app; auto.
  - exists m2. split; [done|]. by apply (written_app m _ _ m1).
Qed.

Lemma cmps_ok ts m va vb :
  Forall (fun t => 0 < t.2) ts -> holds m (dst_locs ts) va -> holds m (src_locs ts) vb ->
  cmps ts m = Ok (memcmp_bytes va vb).
Proof.
  intros Hpos. revert va vb. induction Hpos as [|[[d s] n] ts Hn Hpos IH]; intros va vb Ha Hb.
  { by apply Forall2_nil_inv_l in Ha as ->. }
  cbn [cmps dst_locs src_locs mbind list_bind fst snd] in *. fold (dst_locs ts) (src_locs ts) in *. simpl in Hn.
  apply Forall2_app_inv_l in Ha as (va1 & va2 & Ha1 & Ha2 & ->). apply Forall2_app_inv_l in Hb as (vb1 & vb2 & Hb1 & Hb2 & ->).
  rewrite (memcmp_ok m d s n va1 vb1) by done. cbn [mbind res_bind].
  rewrite memcmp_bytes_app by (by rewrite <- (holds_length _ _ _ Ha1), <- (holds_length _ _ _ Hb1), !length_span).
  destruct (memcmp_bytes va1 vb1 =? 0); [by apply IH|done].
Qed.

(** The pieces paired with the successive parts of a plain buffer. *)
Fixpoint with_arg (cs : list (ptr * Z)) (arg : ptr) : list (ptr * ptr * Z) :=
  match cs with
  | [] => []
  | (p, n) :: cs' => (p, arg, n) :: with_arg cs' (ptr_add arg n)
  end.

Definition flip_pieces (ts : list (ptr * ptr * Z)) : list (ptr * ptr * Z) := (fun t => (t.1.2, t.1.1, t.2)) <$> ts.

Lemma with_arg_dst cs arg : dst_locs (with_arg cs arg) = (c ← cs; span c.1 c.2).
Proof.
  revert arg. induction cs as [|[p n] cs IH]; intros arg; [done|]. cbn [with_arg dst_locs mbind list_bind fst snd].
  f_equal. apply IH.
Qed.

Lemma with_arg_src cs arg :
  Forall (fun c => 0 < c.2) cs -> src_locs (with_arg cs arg) = span arg (zsum snd cs) /\ 0 <= zsum snd cs.
Proof.
  intros H. revert arg. induction H as [|[p n] cs Hn H IH]; intros arg; [done|]. simpl in Hn.
  cbn [with_arg src_locs mbind list_bind fst snd zsum foldr]. destruct (IH (ptr_add arg n)) as [E Hz]. fold (src_locs (with_arg cs (ptr_add arg n))).
  rewrite E. unfold zsum in *. split; [|lia]. by rewrite span_app by lia.
Qed.

Lemma with_arg_pos cs arg : Forall (fun c => 0 < c.2) cs -> Forall (fun t => 0 < t.2) (with_arg cs arg).
Proof. intros H. revert arg. induction H as [|[p n] cs Hn H IH]; intros arg; constructor; [done|apply IH]. Qed.

Lemma flip_dst ts : dst_locs (flip_pieces ts) = src_locs ts.
Proof. unfold dst_locs, src_locs, flip_pieces. induction ts as [|t ts IH]; [done|]. simpl. by f_equal. Qed.

Lemma flip_src ts : src_locs (flip_pieces ts) = dst_locs ts.
Proof. unfold dst_locs, src_locs, flip_pieces. induction ts as [|t ts IH]; [done|]. simpl. by f_equal. Qed.

Lemma flip_pos ts : Forall (fun t => 0 < t.2) ts -> Forall (fun t => 0 < t.2) (flip_pieces ts).
Proof. unfold flip_pieces. intros H. by apply Forall_fmap. Qed.

Lemma pieces_size (cs : list (ptr * Z)) :
  Forall (fun c => 0 < c.2) cs -> Z.of_nat (length (c ← cs; span c.1 c.2)) = zsum snd cs.
Proof.
  induction 1 as [|[p n] cs Hn _ IH]; [done|]. simpl in Hn. cbn [mbind list_bind fst snd zsum foldr]. rewrite length_app, length_span.
  unfold zsum in IH. lia.
Qed.

Lemma run_copy_from cs m arg :
  run_pieces abd_copy_from_buf_off_cb cs (m, arg) =
  m ← copies (with_arg cs arg) m; Ok (0, (m, ptr_add arg (zsum snd cs))).
Proof.
  revert m arg. induction cs as [|[p n] cs IH]; intros m arg; simpl; [by rewrite ptr_add_0|].
  destruct (memcpy m p arg n) as [m'|]; [|done]. simpl. rewrite IH. destruct (copies _ _); [|done]. simpl.
  by rewrite ptr_add_add.
Qed.

Lemma run_copy_to cs m arg :
  run_pieces abd_copy_to_buf_off_cb cs (m, arg) =
  m ← copies (flip_pieces (with_arg cs arg)) m; Ok (0, (m, ptr_add arg (zsum snd cs))).
Proof.
  revert m arg. induction cs as [|[p n] cs IH]; intros m arg; simpl; [by rewrite ptr_add_0|].
  destruct (memcpy m arg p n) as [m'|]; [|done]. simpl. rewrite IH. unfold flip_pieces. destruct (copies _ _); [|done]. simpl.
  by rewrite ptr_add_add.
Qed.

Lemma run_cmp_buf cs m arg :
  ('(ret, _) ← run_pieces abd_cmp_buf_off_cb cs (m, arg); Ok ret) = cmps (with_arg cs arg) m.
Proof.
  revert arg. induction cs as [|[p n] cs IH]; intros arg; simpl; [done|].
  destruct (memcmp m p arg n) as [r|]; [|done]. simpl. destruct (r =? 0); [apply IH|done].
Qed.

Lemma run_copy_off cs m :
  run_pieces2 abd_copy_off_cb cs m = m ← copies cs m; Ok (0, m).
Proof.
  revert m. induction cs as [|[[d s] n] cs IH]; intros m; simpl; [done|].
  change (abd_copy_off_cb d s n m) with (m' ← memcpy m d s n; Ok (0, m')).
  destruct (memcpy m d s n) as [m'|]; [|done]. simpl. apply IH.
Qed.

Lemma run_cmp cs m : ('(ret, _) ← run_pieces2 abd_cmp_cb cs m; Ok ret) = cmps cs m.
Proof.
  induction cs as [|[[d s] n] cs IH]; simpl; [done|].
  change (abd_cmp_cb d s n m) with (r ← memcmp m d s n; Ok (r, m)).
  destruct (memcmp m d s n) as [r|]; [|done]. simpl. destruct (r =? 0); [apply IH|done].
Qed.

Lemma run_zero cs m ws :
  Forall (fun c => 0 < c.2) cs -> holds m (c ← cs; span c.1 c.2) ws -> NoDup (c ← cs; span c.1 c.2) ->
  exists m', run_pieces abd_zero_off_cb cs m = Ok (0, m') /\
    written m (c ← cs; span c.1 c.2) (replicate (length ws) 0) m'.
Proof.
  intros H. revert m ws. induction H as [|[p n] cs Hn H IH]; intros m ws Hh Hnd.
  { apply Forall2_nil_inv_l in Hh as ->. exists m. split; [done|apply written_nil]. }
  cbn [run_pieces mbind list_bind fst snd] in *. simpl in Hn.
  change (abd_zero_off_cb p n m) with (m' ← memset m p 0 n; Ok (0, m')).
  apply Forall2_app_inv_l in Hh as (ws1 & ws2 & H1 & H2 & ->). apply NoDup_app in Hnd as (_ & Hd & Hnd).
  destruct (memset_ok m p 0 n ws1 Hn H1) as (m1 & E & Hw). rewrite E. cbn [mbind res_bind].
  destruct (IH m1 ws2) as (m2 & E2 & Hw2); [|done|].
  { eapply holds_frame; [exact H2|exact Hw|]. intros l Hl Hl'. by apply (Hd l). }
  exists m2. split; [done|]. apply holds_length in H1. rewrite length_span in H1.
  rewrite length_app, replicate_add, <- H1. by apply (written_app m _ _ m1).
Qed.

(** ** What the operations do to the array *)

(** The locations of a part of the buffer, a part of its contents, and its
    contents with a part replaced. *)
Definition region (a : abd) (off size : Z) : list ptr := take (Z.to_nat size) (drop (Z.to_nat off) (locs a)).
Definition slice (off size : Z) (vs : list Z) : list Z := take (Z.to_nat size) (drop (Z.to_nat off) vs).
Definition splice (off : Z) (ws vs : list Z) : list Z :=
  take (Z.to_nat off) vs ++ ws ++ drop (Z.to_nat off + length ws) vs.

Definition part_ok (a : abd) (off size : Z) : Prop := 0 <= off /\ 0 <= size /\ off + size <= abd_size a.

Lemma length_locs a : abd_wf a -> length (locs a) = Z.to_nat (abd_size a).
Proof.
  intros []. unfold locs. rewrite length_take, length_drop. pose proof (length_sgs_locs _ aw_sgs0). lia.
Qed.

Lemma length_region a off size : abd_wf a -> part_ok a off size -> length (region a off size) = Z.to_nat size.
Proof.
  intros Hwf (? & ? & ?). unfold region. rewrite length_take, length_drop, length_locs by done. lia.
Qed.

Lemma region_sublist a off size : region a off size `sublist_of` locs a.
Proof. unfold region. etrans; [apply sublist_take|apply sublist_drop]. Qed.

Lemma region_sub a off size l : l ∈ region a off size -> l ∈ locs a.
Proof. intros H. eapply sublist_subseteq; [apply region_sublist|exact H]. Qed.

Lemma holds_region m a off size vs : holds m (locs a) vs -> holds m (region a off size) (slice off size vs).
Proof. apply holds_take_drop. Qed.

Lemma NoDup_region a off size : NoDup (locs a) -> NoDup (region a off size).
Proof. intros H. eapply sublist_NoDup; [exact H|apply region_sublist]. Qed.

(** The pieces of a part of the buffer, with their total size. *)
Lemma part_pieces a off size :
  abd_wf a -> part_ok a off size ->
  exists cs, (forall M func (s : M), abd_iterate_func func a off size s = run_pieces func cs s) /\
    Forall (fun c => 0 < c.2) cs /\ (c ← cs; span c.1 c.2) = region a off size /\ zsum snd cs = size.
Proof.
  intros Hwf Hp. pose proof Hp as (Ho & Hs & He). destruct (iterate_pieces a off size Hwf Ho Hs He) as (cs & Hrun & Hpos & Hl & _).
  exists cs. split_and!; try done. rewrite <- pieces_size, Hl by done.
  pose proof (length_region a off size Hwf Hp) as E. unfold region in E. rewrite E. lia.
Qed.

Lemma copy_to_buf_ok m buf a off size vs ws :
  abd_wf a -> part_ok a off size -> holds m (locs a) vs -> holds m (span buf size) ws ->
  (forall l, l ∈ span buf size -> l ∉ region a off size) ->
  exists m', abd_copy_to_buf_off m buf a off size = Ok m' /\ written m (span buf size) (slice off size vs) m'.
Proof.
  intros Hwf Hp Hh Hb Hdis. destruct (part_pieces a off size Hwf Hp) as (cs & Hrun & Hpos & Hl & Hz).
  unfold abd_copy_to_buf_off. rewrite Hrun, run_copy_to. destruct (with_arg_src cs buf Hpos) as [Es _]. rewrite Hz in Es.
  destruct (copies_ok (flip_pieces (with_arg cs buf)) m (slice off size vs) ws) as (m' & E & Hw);
    rewrite ?flip_dst, ?flip_src, ?Es, ?with_arg_dst, ?Hl in *; try done.
  - by apply flip_pos, with_arg_pos.
  - by apply holds_region.
  - apply NoDup_span.
  - exists m'. by rewrite E.
Qed.

Lemma copy_from_buf_ok m buf a off size vs ws :
  abd_wf a -> NoDup (locs a) -> part_ok a off size -> holds m (locs a) vs -> holds m (span buf size) ws ->
  (forall l, l ∈ region a off size -> l ∉ span buf size) ->
  exists m', abd_copy_from_buf_off m a buf off size = Ok m' /\ written m (region a off size) ws m'.
Proof.
  intros Hwf Hnd Hp Hh Hb Hdis. destruct (part_pieces a off size Hwf Hp) as (cs & Hrun & Hpos & Hl & Hz).
  unfold abd_copy_from_buf_off. rewrite Hrun, run_copy_from. destruct (with_arg_src cs buf Hpos) as [Es _]. rewrite Hz in Es.
  destruct (copies_ok (with_arg cs buf) m ws (slice off size vs)) as (m' & E & Hw);
    rewrite ?Es, ?with_arg_dst, ?Hl in *; try done.
  - by apply with_arg_pos.
  - by apply holds_region.
  - by apply NoDup_region.
  - exists m'. by rewrite E.
Qed.

Lemma zero_ok m a off size vs :
  abd_wf a -> NoDup (locs a) -> part_ok a off size -> holds m (locs a) vs ->
  exists m', abd_zero_off m a off size = Ok m' /\ written m (region a off size) (replicate (Z.to_nat size) 0) m'.
Proof.
  intros Hwf Hnd Hp Hh. destruct (part_pieces a off size Hwf Hp) as (cs & Hrun & Hpos & Hl & Hz).
  unfold abd_zero_off. rewrite Hrun. pose proof (holds_region m a off size vs Hh) as Hr.
  destruct (run_zero cs m (slice off size vs) Hpos) as (m' & E & Hw); rewrite ?Hl in *; [done|by apply NoDup_region|].
  exists m'. rewrite E. apply holds_length in Hr. rewrite length_region in Hr by done. by rewrite <- Hr in Hw.
Qed.

Lemma cmp_buf_ok m a buf off size vs ws :
  abd_wf a -> part_ok a off size -> holds m (locs a) vs -> holds m (span buf size) ws ->
  abd_cmp_buf_off m a buf off size = Ok (memcmp_bytes (slice off size vs) ws).
Proof.
  intros Hwf Hp Hh Hb. destruct (part_pieces a off size Hwf Hp) as (cs & Hrun & Hpos & Hl & Hz).
  unfold abd_cmp_buf_off. rewrite Hrun, run_cmp_buf. destruct (with_arg_src cs buf Hpos) as [Es _]. rewrite Hz in Es.
  apply cmps_ok; [by apply with_arg_pos| |by rewrite Es]. rewrite with_arg_dst, Hl. by apply holds_region.
Qed.

(** Contents after a write to a part. *)
Lemma written_splice m a off size vs ws m' :
  abd_wf a -> NoDup (locs a) -> part_ok a off size -> holds m (locs a) vs -> length ws = Z.to_nat size ->
  written m (region a off size) ws m' -> holds m' (locs a) (splice off ws vs).
Proof.
  intros Hwf Hnd (Ho & Hs & He) Hh El Hw. apply (written_middle m); [done|done| |].
  - rewrite length_locs by done. lia.
  - rewrite El. exact Hw.
Qed.

(** Reading a part of a scatter buffer, linear or not, gives that part of
    its array: [abd_copy_to_buf_off] writes it to the buffer and nothing else,
    and [abd_cmp_buf_off] compares it with the buffer as [memcmp] does. *)
Theorem abd_read_correct m a buf off size vs ws :
  abd_wf a -> part_ok a off size -> holds m (locs a) vs -> holds m (span buf size) ws ->
  (forall l, l ∈ span buf size -> l ∉ locs a) ->
  (exists m', abd_copy_to_buf_off m buf a off size = Ok m' /\
     written m (span buf size) (slice off size vs) m' /\ holds m' (locs a) vs) /\
  (exists r, abd_cmp_buf_off m a buf off size = Ok r /\ (r = 0 <-> slice off size vs = ws)).
Proof.
  intros Hwf Hp Hh Hb Hdis. split.
  - destruct (copy_to_buf_ok m buf a off size vs ws) as (m' & E & Hw); try done.
    { intros l Hl Hl'. by apply (Hdis l Hl), (region_sub _ _ _ _ Hl'). }
    exists m'. split_and!; [done|done|]. eapply holds_frame; [done..|]. intros l Hl Hl'. by apply (Hdis l).
  - eexists. split; [by apply cmp_buf_ok|]. apply memcmp_bytes_eq.
    pose proof (holds_length _ _ _ (holds_region m a off size vs Hh)) as E. rewrite length_region in E by done.
    rewrite <- E, <- (holds_length _ _ _ Hb). by rewrite length_span.
Qed.

(** Writing to a part of a scatter buffer replaces that part of its array
    and no other byte of the memory: by the buffer copied from, or by zeros. *)
Theorem abd_update_correct m a buf off size vs ws :
  abd_wf a -> NoDup (locs a) -> part_ok a off size -> holds m (locs a) vs -> holds m (span buf size) ws ->
  (forall l, l ∈ span buf size -> l ∉ locs a) ->
  (exists m', abd_copy_from_buf_off m a buf off size = Ok m' /\
     holds m' (locs a) (splice off ws vs) /\ forall l, l ∉ region a off size -> mbyte m' l = mbyte m l) /\
  (exists m', abd_zero_off m a off size = Ok m' /\
     holds m' (locs a) (splice off (replicate (Z.to_nat size) 0) vs) /\
     forall l, l ∉ region a off size -> mbyte m' l = mbyte m l).
Proof.
  intros Hwf Hnd Hp Hh Hb Hdis. split.
  - destruct (copy_from_buf_ok m buf a off size vs ws) as (m' & E & Hw); try done.
    { intros l Hl Hl'. by apply (Hdis l Hl'), (region_sub _ _ _ _ Hl). }
    exists m'. split_and!; [done| |apply Hw]. eapply written_splice; try done.
    by rewrite <- (holds_length _ _ _ Hb), length_span.
  - destruct (zero_ok m a off size vs) as (m' & E & Hw); try done.
    exists m'. split_and!; [done| |apply Hw]. eapply written_splice; try done. apply length_replicate.
Qed.

(** C31: copying between scatter buffers copies between their arrays however
    their pieces fall, and [abd_cmp] compares the arrays. *)
Theorem abd_copy_correct m d a doff soff size vd va :
  abd_wf d -> abd_wf a -> NoDup (locs d) -> part_ok d doff size -> part_ok a soff size ->
  holds m (locs d) vd -> holds m (locs a) va -> (forall l, l ∈ locs d -> l ∉ locs a) ->
  (exists m', abd_copy_off m d a doff soff size = Ok m' /\
     holds m' (locs d) (splice doff (slice soff size va) vd) /\ holds m' (locs a) va /\
     forall l, l ∉ region d doff size -> mbyte m' l = mbyte m l) /\
  (abd_size d = abd_size a -> exists r, abd_cmp m d a = Ok r /\ (r = 0 <-> vd = va)).
Proof.
  intros Hd Ha Hnd Hp Hp' Hhd Hha Hdis. split.
  - pose proof Hp as (? & ? & ?). pose proof Hp' as (? & ? & ?).
    destruct (iterate2_pieces d a doff soff size) as (cs & Hrun & Hpos & Hl1 & Hl2 & _); try done.
    fold (dst_locs cs) in Hl1. fold (src_locs cs) in Hl2. fold (region d doff size) in Hl1. fold (region a soff size) in Hl2.
    destruct (copies_ok cs m (slice soff size va) (slice doff size vd)) as (m' & E & Hw); rewrite ?Hl1, ?Hl2 in *; try done.
    + by apply holds_region.
    + by apply holds_region.
    + by apply NoDup_region.
    + intros l Hl Hl'. apply (Hdis l); by eapply region_sub.
    + exists m'. unfold abd_copy_off. rewrite Hrun, run_copy_off, E. split_and!; [done| | |apply Hw].
      * eapply written_splice; try done.
        by rewrite <- (holds_length _ _ _ (holds_region m a soff size va Hha)), length_region.
      * eapply holds_frame; [exact Hha|exact Hw|]. intros l Hl Hl'. by apply (Hdis l); [eapply region_sub|].
  - intros Es. pose proof (aw_size _ Hd). destruct (iterate2_pieces d a 0 0 (abd_size d)) as (cs & Hrun & Hpos & Hl1 & Hl2 & _); try done; try lia.
    rewrite drop_0, take_ge in Hl1 by (rewrite length_locs by done; lia).
    rewrite drop_0, take_ge in Hl2 by (rewrite length_locs by done; lia).
    exists (memcmp_bytes vd va). unfold abd_cmp. rewrite Hrun, run_cmp. split.
    + apply cmps_ok; [done|unfold dst_locs; by rewrite Hl1|unfold src_locs; by rewrite Hl2].
    + apply memcmp_bytes_eq. rewrite <- (holds_length _ _ _ Hhd), <- (holds_length _ _ _ Hha), !length_locs by done. by rewrite Es.
Qed.

(** ** Windows *)

Lemma offset_loop_ok l off i :
  Forall sg_ok l -> 0 <= off < sgs_size l ->
  exists l' off' i', offset_loop (length l) l off i = Ok (l', off', i') /\ same_rest l off l' off' /\
    l' <> [] /\ Z.of_nat (length l) - i' = Z.of_nat (length l') - i.
Proof.
  intros Hok. revert off i. induction Hok as [|s l Hs Hok IH]; intros off i Ho; [unfold sgs_size in Ho; simpl in Ho; lia|].
  cbn [offset_loop length]. rewrite sgs_size_cons in Ho. destruct (Z.ltb_spec off (sg_length s)) as [Hlt|Hge].
  - exists (s :: l), off, i. split_and!; try done. split_and!; try done; [by constructor|lia].
  - destruct (IH (off - sg_length s) (i + 1)) as (l' & off' & i' & E & (S1 & S2 & S3 & S4 & S5) & Hne & Hi); [lia|].
    exists l', off', i'. split_and!; [done| |done|lia]. unfold same_rest. rewrite drop_sg by done.
    split_and!; try done. rewrite sgs_size_cons. lia.
Qed.

Lemma span_part p n off size :
  0 <= off -> 0 <= size -> off + size <= n -> take (Z.to_nat size) (drop (Z.to_nat off) (span p n)) = span (ptr_add p off) size.
Proof.
  intros Ho Hs He. replace n with (off + (size + (n - off - size))) by lia. rewrite !span_app by lia.
  rewrite drop_app_length' by (by rewrite length_span). by rewrite take_app_length' by (by rewrite length_span).
Qed.

Lemma get_offset_impl_ok a off size :
  abd_wf a -> part_ok a off size -> 0 < size ->
  exists w a', abd_get_offset_impl a off size = Ok (w, a') /\ abd_wf w /\ abd_size w = size /\
    locs w = region a off size /\ locs a' = locs a /\ a' = set_abd_children a (abd_children a + size).
Proof.
  intros Hwf (Ho & Hs & He) Hpos. pose proof Hwf as []. unfold abd_get_offset_impl.
  assert (El : forall n, locs (set_abd_children a n) = locs a) by done.
  unfold region, locs in *. unfold abd_sgs, abd_off in *. destruct (abd_u a) as [buf|offset nents sgl] eqn:Eu.
  - cbn [mbind res_bind]. eexists _, _. split; [done|]. rewrite El. split_and!; try done.
    + constructor; unfold abd_sgs, abd_off, sgs_size; simpl; try done; try lia; by repeat constructor.
    + simpl. rewrite !app_nil_r, !drop_0. unfold sg_locs. simpl. 
      rewrite (take_ge (span buf (abd_size a))), (take_ge (span _ size)) by (rewrite length_span; lia).
      symmetry. by apply span_part.
  - rewrite aw_nents0, Nat2Z.id. destruct (offset_loop_ok sgl (offset + off) 0) as (l' & off' & i' & E & (S1 & S2 & S3 & S4 & S5) & Hne & Hi);
      [done|lia|]. rewrite E. cbn [mbind res_bind]. eexists _, _. split; [done|]. rewrite El. split_and!; try done.
    + constructor; unfold abd_sgs, abd_off; simpl; try done; try lia. by destruct l'.
    + simpl. rewrite <- S1, skipn_firstn_comm, take_take, drop_drop. f_equal; [lia|]. f_equal. lia.
Qed.

(** C32: [abd_get_offset] gives a window on the array of its parent, which it
    counts as a child: the window is a well-formed buffer whose bytes are those
    of the parent from the offset on, at the same locations, so that a write to
    the window is a write to the parent.  [abd_put] of the window makes the parent
    what it was.  An offset at or past the end stops the program. *)
Theorem abd_get_offset_correct m a off vs :
  abd_wf a -> NoDup (locs a) -> 0 <= off -> holds m (locs a) vs ->
  if off <? abd_size a then
    exists w a', abd_get_offset a off = Ok (w, a') /\ abd_wf w /\ abd_size w = abd_size a - off /\
      locs a' = locs a /\ abd_children a' = wrap64 (abd_children a + abd_size w) /\
      (is_u64 (abd_children a) -> abd_put w (Some a') = Some a) /\
      holds m (locs w) (drop (Z.to_nat off) vs) /\
      forall woff size ws m', part_ok w woff size -> length ws = Z.to_nat size ->
        written m (region w woff size) ws m' -> holds m' (locs a) (splice (off + woff) ws vs)
  else abd_get_offset a off = Panic.
Proof.
  intros Hwf Hnd Ho Hh. unfold abd_get_offset. destruct (Z.ltb_spec off (abd_size a)) as [Hlt|]; [|done].
  rewrite (proj2 (Z.ltb_lt 0 (abd_size a - off))) by lia.
  destruct (get_offset_impl_ok a off (abd_size a - off)) as (w & a' & E & Hw & Es & Elw & Ela & Ec); [done|split_and!; lia|lia|].
  exists w, a'. rewrite Es. split_and!; try done.
  - by rewrite Ec.
  - intros Hu. rewrite Ec. unfold abd_put, set_abd_children. cbn [fmap option_fmap option_map abd_owner abd_meta abd_size abd_children abd_u]. rewrite Es. f_equal.
    replace (wrap64 _) with (abd_children a); [by destruct a|]. unfold wrap64. rewrite Zminus_mod_idemp_l, Z.add_simpl_r. symmetry. by apply Z.mod_small.
  - rewrite Elw. unfold region. rewrite take_ge by (rewrite length_drop, length_locs by done; lia). by apply Forall2_drop.
  - intros woff size ws m' (H1 & H2 & H3) Hl Hwr. rewrite Es in H3.
    apply (written_splice m a (off + woff) size); try done; [split_and!; lia|].
    replace (region a (off + woff) size) with (region w woff size); [done|]. unfold region at 1 2. rewrite Elw. unfold region.
    rewrite skipn_firstn_comm, take_take, drop_drop. f_equal; [lia|]. f_equal. lia.
Qed.

(** ** Allocation *)

Section AllocProofs.
Variable PAGESHIFT : Z.
Variable kmem_alloc : mem -> Z -> Z * list Z.
Variable zfs_abd_scatter_enabled : bool.

Hypothesis Hshift : 0 <= PAGESHIFT <= 30.

(** The allocator returns buffers of the size asked for at unused addresses. *)
Hypothesis kmem_fresh : forall m n, m !! (kmem_alloc m n).1 = None.
Hypothesis kmem_size : forall m n, length (kmem_alloc m n).2 = Z.to_nat n.

Abbreviation psize := (PAGESIZE PAGESHIFT).
Abbreviation new_buf := (alloc_buf kmem_alloc).
Abbreviation new_pages := (alloc_pages PAGESHIFT kmem_alloc).
Abbreviation new_abd := (abd_alloc PAGESHIFT kmem_alloc zfs_abd_scatter_enabled).

Lemma alloc_buf_ok m n p m' :
  0 < n -> new_buf m n = (p, m') ->
  p_off p = 0 /\ m !! p_blk p = None /\ (exists bs, m' = <[p_blk p := bs]> m) /\
  exists vs, holds m' (span p n) vs.
Proof.
  intros Hn. unfold alloc_buf. pose proof (kmem_fresh m n) as Hf. pose proof (kmem_size m n) as Hs.
  destruct (kmem_alloc m n) as [blk bs]. simpl in *. intros [= <- <-]. simpl. split_and!; [done|done|by exists bs|].
  exists bs. apply Forall2_same_length_lookup_2; [rewrite length_span; lia|]. intros i l v Hl Hv.
  rewrite span_lookup in Hl. destruct (decide _); [|done]. injection Hl as <-. unfold mbyte.
  cbn [p_blk p_off ptr_add]. rewrite lookup_insert_eq. cbn [mbind option_bind]. rewrite (proj2 (Z.leb_le 0 _)) by lia.
  by rewrite Z.add_0_l, Nat2Z.id.
Qed.

Lemma mbyte_insert m b bs l : p_blk l <> b -> mbyte (<[b := bs]> m) l = mbyte m l.
Proof. intros H. unfold mbyte. by rewrite lookup_insert_ne. Qed.

(** The pages of a list: whole new buffers, at distinct addresses. *)
Record pages_ok (m : mem) (sgl : list scatterlist) (m' : mem) : Prop := {
  po_pages : Forall (fun s => p_off (sg_page s) = 0 /\ sg_length s = psize /\ m !! p_blk (sg_page s) = None) sgl;
  po_nodup : NoDup (p_blk <$> (sg_page <$> sgl));
  po_frame : forall k, k ∉ p_blk <$> (sg_page <$> sgl) -> m' !! k = m !! k;
  po_holds : exists vs, holds m' (sgs_locs sgl) vs;
  po_blocks : Forall (fun s => is_Some (m' !! p_blk (sg_page s))) sgl
}.

Lemma PAGESIZE_pos : 0 < psize.
Proof. unfold PAGESIZE. lia. Qed.

Lemma alloc_pages_ok n m sgl m' :
  new_pages n m = (sgl, m') -> length sgl = n /\ pages_ok m sgl m'.
Proof.
  revert m sgl m'. induction n as [|n IH]; intros m sgl m'; cbn [alloc_pages].
  { intros [= <- <-]. split; [done|]. constructor; try done; [constructor|]. by exists []; constructor. }
  destruct (new_buf m psize) as [p m1] eqn:E1. destruct (new_pages n m1) as [sgl2 m2] eqn:E2. intros [= <- <-].
  destruct (alloc_buf_ok m psize p m1 PAGESIZE_pos E1) as (Hoff & Hfree & (bs & Em1) & vs & Hvs).
  destruct (IH _ _ _ E2) as [Hl [P1 P2 P3 (vs2 & P4) P5]].
  assert (Hnew : p_blk p ∉ p_blk <$> (sg_page <$> sgl2)).
  { rewrite <- list_fmap_compose, list_elem_of_fmap. intros (s & Es & Hs). rewrite Forall_forall in P1. destruct (P1 s Hs) as (_ & _ & Hn).
    simpl in Es. rewrite <- Es, Em1, lookup_insert_eq in Hn. done. }
  split; [simpl; by rewrite Hl|]. constructor.
  - constructor; [done|]. eapply Forall_impl; [exact P1|]. intros s (? & ? & Hn). split_and!; try done.
    rewrite Em1 in Hn. by apply lookup_insert_None in Hn as [? _].
  - simpl. by constructor.
  - simpl. intros k [Hk1 Hk2]%not_elem_of_cons. rewrite P3, Em1 by done. by apply lookup_insert_ne.
  - exists (vs ++ vs2). rewrite sgs_locs_cons. apply holds_app; [|done]. eapply Forall2_impl; [exact Hvs|]. intros l v Hlv.
    unfold mbyte in *. destruct (decide (p_blk l = p_blk p)) as [El|El]; [by rewrite El, P3, <- El|].
    rewrite Em1, lookup_insert_ne in Hlv by done.
    destruct (decide (p_blk l ∈ p_blk <$> (sg_page <$> sgl2))) as [Hin|Hin]; [|by rewrite P3, Em1, lookup_insert_ne].
    exfalso. rewrite <- list_fmap_compose, list_elem_of_fmap in Hin. destruct Hin as (s & Es & Hs).
    rewrite Forall_forall in P1. destruct (P1 s Hs) as (_ & _ & Hn). simpl in Es. rewrite <- Es, Em1, lookup_insert_ne in Hn by done.
    by rewrite Hn in Hlv.
  - constructor; [|done]. simpl. rewrite P3, Em1, lookup_insert_eq by done. done.
Qed.

Lemma sgs_size_pages sgl : Forall (fun s => sg_length s = psize) sgl -> sgs_size sgl = Z.of_nat (length sgl) * psize.
Proof.
  unfold sgs_size. induction 1 as [|s l Hs _ IH]; [done|]. cbn [zsum foldr length]. unfold zsum in IH. rewrite IH, Hs. lia.
Qed.

Lemma elem_of_sgs_locs l sgl : l ∈ sgs_locs sgl -> p_blk l ∈ p_blk <$> (sg_page <$> sgl).
Proof.
  induction sgl as [|s sgl IH]; [by intros ?%elem_of_nil|]. rewrite sgs_locs_cons, elem_of_app. intros [H|H]; simpl.
  - apply elem_of_span in H as [-> _]. by left.
  - right. auto.
Qed.

Lemma NoDup_sgs_locs sgl : NoDup (p_blk <$> (sg_page <$> sgl)) -> NoDup (sgs_locs sgl).
Proof.
  induction sgl as [|s sgl IH]; [constructor|]. intros H. rewrite sgs_locs_cons. simpl in H. apply NoDup_cons in H as [Hn Hd].
  apply NoDup_app.
  split_and!; [apply NoDup_span| |auto]. intros l Hl Hl'. apply elem_of_span in Hl as [E _]. apply elem_of_sgs_locs in Hl'. by rewrite E in Hl'.
Qed.

Lemma free_buf_ok m p : is_Some (m !! p_blk p) -> p_off p = 0 -> free_buf m p = Ok (delete (p_blk p) m).
Proof. intros [bs E] E0. unfold free_buf. rewrite E, E0. done. Qed.

Lemma free_pages_ok m sgl :
  Forall (fun s => p_off (sg_page s) = 0 /\ sg_length s = psize) sgl -> NoDup (p_blk <$> (sg_page <$> sgl)) ->
  Forall (fun s => is_Some (m !! p_blk (sg_page s))) sgl ->
  exists m', abd_free_pages PAGESHIFT m sgl = Ok m' /\
    forall k, m' !! k = if decide (k ∈ p_blk <$> (sg_page <$> sgl)) then None else m !! k.
Proof.
  intros Hp. revert m. induction Hp as [|s sgl [Ho Hl] Hp IH]; intros m Hnd Hs.
  { exists m. split; [done|]. intros k. by rewrite decide_False by apply not_elem_of_nil. }
  simpl in Hnd. apply NoDup_cons in Hnd as [Hn Hnd]. apply Forall_cons in Hs as [Hs Hss].
  pose proof PAGESIZE_pos as Hpos. cbn [abd_free_pages]. rewrite Hl, Z.div_same by lia. change (Z.to_nat (1 + 1)) with 2%nat.
  cbn [free_sg_pages]. rewrite (proj2 (Z.ltb_lt 0 psize) Hpos), Z.shiftr_0_l, Z.mul_0_l, ptr_add_0, free_buf_ok by done.
  cbn [mbind res_bind]. rewrite Z.add_0_l, Z.ltb_irrefl. cbn [mbind res_bind].
  destruct (IH (delete (p_blk (sg_page s)) m)) as (m' & E & Hm'); [done| |].
  { rewrite Forall_forall in Hss |- *. intros s' Hs'. rewrite lookup_delete_ne; [auto|]. intros E. apply Hn. rewrite E.
    by apply list_elem_of_fmap_2, list_elem_of_fmap_2. }
  exists m'. split; [done|]. intros k. rewrite Hm'. simpl. destruct (decide (k = p_blk (sg_page s))) as [->|Hk].
  - rewrite (decide_True (P := _ ∈ _ :: _)) by (by left). by destruct (decide _); [|apply lookup_delete_eq].
  - rewrite lookup_delete_ne by done. destruct (decide (k ∈ p_blk <$> (sg_page <$> sgl))) as [H|H].
    + by rewrite decide_True by (by right).
    + rewrite decide_False; [done|]. by rewrite not_elem_of_cons.
Qed.

(** What a new buffer is: well-formed, at locations of its own, and free again
    after [abd_free]. *)
Definition fresh_abd (m : mem) (a : abd) (m' : mem) : Prop :=
  abd_wf a /\ NoDup (locs a) /\ (exists vs, holds m' (locs a) vs) /\
  (forall l, l ∈ locs a -> m !! p_blk l = None) /\ (forall k, is_Some (m !! k) -> m' !! k = m !! k) /\
  abd_free PAGESHIFT m' a = Ok m.

(** The blocks a buffer lies in. *)
Definition abd_blocks (a : abd) : list Z := p_blk <$> (sg_page <$> abd_sgs a).

Record new_buffer (m : mem) (a : abd) (m' : mem) : Prop := {
  nb_wf : abd_wf a;
  nb_nodup : NoDup (locs a);
  nb_holds : exists vs, holds m' (locs a) vs;
  nb_fresh : forall k, k ∈ abd_blocks a -> m !! k = None;
  nb_frame : forall k, k ∉ abd_blocks a -> m' !! k = m !! k;
  nb_in : forall l, l ∈ locs a -> p_blk l ∈ abd_blocks a;
  nb_hit : forall k, k ∈ abd_blocks a -> exists l, l ∈ locs a /\ p_blk l = k;
  nb_free : forall m2, (forall k, k ∈ abd_blocks a -> is_Some (m2 !! k)) ->
    exists m3, abd_free PAGESHIFT m2 a = Ok m3 /\ forall k, m3 !! k = if decide (k ∈ abd_blocks a) then None else m2 !! k
}.

Lemma mapped_block m l b : mbyte m l = Some b -> is_Some (m !! p_blk l).
Proof. unfold mbyte. by destruct (m !! p_blk l). Qed.

Lemma new_fresh m a m' : new_buffer m a m' -> fresh_abd m a m'.
Proof.
  intros []. unfold fresh_abd. split_and!; [done|done|done|auto| |].
  - intros k Hk. apply nb_frame0. intros Hin. rewrite (nb_fresh0 k Hin) in Hk. by apply is_Some_None in Hk.
  - destruct (nb_free0 m') as (m3 & -> & Hm3).
    { intros k Hk. destruct (nb_hit0 k Hk) as (l & Hl & <-). destruct nb_holds0 as [vs Hvs]. apply list_elem_of_lookup in Hl as [i Hi]. destruct (Forall2_lookup_l _ _ _ _ _ Hvs Hi) as (b & _ & Hb). by eapply mapped_block. }
    f_equal. apply map_eq. intros k. rewrite Hm3. destruct (decide _) as [Hin|Hin]; [symmetry; by apply nb_fresh0|by apply nb_frame0].
Qed.

Lemma alloc_linear_ok m size meta :
  0 < size <= SPA_MAXBLOCKSIZE ->
  exists buf m', abd_alloc_linear kmem_alloc m size meta = Ok (Abd true meta size 0 (AbdLinear buf), m') /\
    new_buffer m (Abd true meta size 0 (AbdLinear buf)) m'.
Proof.
  intros Hs. unfold abd_alloc_linear. rewrite (proj2 (Z.leb_le size _)) by lia. destruct (new_buf m size) as [buf m'] eqn:E.
  destruct (alloc_buf_ok m size buf m' ltac:(lia) E) as (Hoff & Hfree & (bs & Em) & vs & Hvs). set (a := Abd true meta size 0 (AbdLinear buf)).
  assert (El : locs a = span buf size).
  { unfold locs. simpl. rewrite app_nil_r, drop_0. unfold sg_locs. simpl. apply take_ge. rewrite length_span. lia. }
  assert (Eb : forall k, k ∈ abd_blocks a <-> k = p_blk buf) by (intros k; unfold abd_blocks; simpl; apply list_elem_of_singleton).
  exists buf, m'. split; [done|]. change (new_buffer m a m'). constructor; rewrite ?El.
  - constructor; unfold abd_sgs, abd_off, sgs_size; simpl; try done; try lia. by repeat constructor; unfold sg_ok; simpl; lia.
  - apply NoDup_span.
  - by exists vs.
  - by intros k ->%Eb.
  - intros k Hk. rewrite Em. apply lookup_insert_ne. intros <-. by apply Hk, Eb.
  - intros l [-> _]%elem_of_span. by apply Eb.
  - intros k ->%Eb. exists buf. split; [|done]. rewrite <- (ptr_add_0 buf) at 1. apply elem_of_span. simpl. split; [done|lia].
  - intros m2 Hm2. exists (delete (p_blk buf) m2). split; [apply free_buf_ok; [by apply Hm2, Eb|done]|]. intros k.
    destruct (decide (k ∈ abd_blocks a)) as [->%Eb|Hk]; [apply lookup_delete_eq|]. apply lookup_delete_ne. intros <-. by apply Hk, Eb.
Qed.

(** The first byte of a page. *)
Lemma page_first sgl n s : Forall (fun s => sg_length s = psize) sgl -> sgl !! n = Some s -> sgs_locs sgl !! (n * Z.to_nat psize)%nat = Some (sg_page s).
Proof.
  pose proof PAGESIZE_pos as Hps. intros H. revert n. induction H as [|s' l Hs' _ IH]; intros [|n] E; try done; rewrite sgs_locs_cons.
  - injection E as ->. rewrite lookup_app_l by (unfold sg_locs; rewrite length_span; lia). unfold sg_locs. rewrite span_lookup, decide_True by lia. f_equal. apply ptr_add_0.
  - rewrite lookup_app_r; unfold sg_locs; rewrite length_span, Hs'; [|lia]. rewrite <- (IH n E). f_equal. lia.
Qed.

Lemma alloc_scatter_ok m size meta :
  0 < size <= SPA_MAXBLOCKSIZE -> negb zfs_abd_scatter_enabled || (size <=? psize) = false ->
  exists sgl m', new_abd m size meta = Ok (Abd true meta size 0 (AbdScatter 0 (Z.of_nat (length sgl)) sgl), m') /\
    Forall (fun s => sg_length s = psize) sgl /\ new_buffer m (Abd true meta size 0 (AbdScatter 0 (Z.of_nat (length sgl)) sgl)) m'.
Proof.
  intros Hs Eb. unfold abd_alloc. rewrite Eb, (proj2 (Z.leb_le size SPA_MAXBLOCKSIZE)) by lia. unfold abd_alloc_pages. destruct (new_pages _ m) as [sgl m'] eqn:E.
  apply alloc_pages_ok in E as [El [P1 P2 P3 P4 P5]]. pose proof PAGESIZE_pos as Hps.
  assert (Hcnt : size <= Z.of_nat (length sgl) * psize < size + psize /\ abd_chunkcnt_for_bytes PAGESHIFT size = Z.of_nat (length sgl)).
  { rewrite El. unfold abd_chunkcnt_for_bytes. unfold SPA_MAXBLOCKSIZE in Hs. change (Z.shiftl 1 24) with 16777216 in Hs.
    assert (H30 : 2 ^ PAGESHIFT <= 1073741824) by (change 1073741824 with (2 ^ 30); apply Z.pow_le_mono_r; lia). unfold PAGESIZE in *.
    destruct (P2ROUNDUP_spec size PAGESHIFT) as [[q Hq] Hr]; [lia..|]. rewrite Hq, Z.div_mul by lia.
    rewrite Hq in Hr. assert (0 <= q) by nia. split; nia. }
  destruct Hcnt as [Hcnt Hn]. rewrite Hn. exists sgl, m'. split; [done|].
  assert (Hlen : Forall (fun s => sg_length s = psize) sgl) by (eapply Forall_impl; [exact P1|]; tauto). split; [done|].
  assert (Hok : Forall sg_ok sgl) by (eapply Forall_impl; [exact Hlen|]; intros s Es; unfold sg_ok; simpl in Es; lia).
  set (a := Abd _ _ _ _ _). assert (Ela : locs a = take (Z.to_nat size) (sgs_locs sgl)) by (unfold locs; simpl; by rewrite drop_0).
  assert (Ebl : abd_blocks a = p_blk <$> (sg_page <$> sgl)) by done. constructor; rewrite ?Ela, ?Ebl.
  - constructor; unfold abd_sgs, abd_off; simpl; try done; [lia|rewrite sgs_size_pages by done; lia|].
    destruct Hok as [|s l Hs' _]; done.
  - eapply sublist_NoDup; [apply NoDup_sgs_locs, P2|apply sublist_take].
  - destruct P4 as [vs Hvs]. exists (take (Z.to_nat size) vs). by apply Forall2_take.
  - intros k Hk. rewrite <- list_fmap_compose, list_elem_of_fmap in Hk. destruct Hk as (s & -> & Hs'). rewrite Forall_forall in P1. by apply P1.
  - done.
  - intros l Hl. eapply elem_of_sublist in Hl; [|apply sublist_take]. by apply elem_of_sgs_locs.
  - intros k Hk. rewrite <- list_fmap_compose, list_elem_of_fmap in Hk. destruct Hk as (s & -> & Hs'). apply list_elem_of_lookup in Hs' as [n Hs']. pose proof (lookup_lt_Some _ _ _ Hs').
    exists (sg_page s). split; [|done]. apply (list_elem_of_lookup_2 _ (n * Z.to_nat psize)%nat). rewrite lookup_take_lt by nia. by apply page_first.
  - intros m2 Hm2. unfold abd_free, abd_free_scatter. simpl. rewrite take_ge by lia. apply free_pages_ok; [eapply Forall_impl; [exact P1|]; tauto|done|].
    apply Forall_forall. intros s Hs'. apply Hm2, list_elem_of_fmap. exists (sg_page s). split; [done|]. by apply list_elem_of_fmap_2.
Qed.

Lemma abd_alloc_ok m size meta :
  0 < size <= SPA_MAXBLOCKSIZE ->
  exists a m', new_abd m size meta = Ok (a, m') /\ abd_size a = size /\ abd_is_linear a = negb zfs_abd_scatter_enabled || (size <=? psize) /\
    (forall k, (k | size) -> (k | psize) -> abd_multiple k a) /\ new_buffer m a m'.
Proof.
  intros Hs. destruct (negb _ || _) eqn:Eb.
  - destruct (alloc_linear_ok m size meta Hs) as (buf & m' & E & Hf). eexists _, m'. split; [unfold abd_alloc; by rewrite Eb|]. split_and!; [done|done| |done].
    intros k Hk _. split_and!; [done|apply Z.divide_0_r|by apply Forall_singleton].
  - destruct (alloc_scatter_ok m size meta Hs Eb) as (sgl & m' & E & Hl & Hf). eexists _, m'. split_and!; [done|done|done| |done].
    intros k Hk Hp. split_and!; [done|apply Z.divide_0_r|]. eapply Forall_impl; [exact Hl|]. by intros s ->.
Qed.

(** [abd_alloc] of a size a block can have returns a well-formed buffer of
    that size, linear when it is small, at locations that were not in use; the
    buffers there were keep their contents, and [abd_free] gives the memory
    back.  A larger size stops the program. *)
Theorem abd_alloc_correct m size meta :
  0 < size ->
  if size <=? SPA_MAXBLOCKSIZE then
    exists a m', new_abd m size meta = Ok (a, m') /\ abd_size a = size /\
      abd_is_linear a = negb zfs_abd_scatter_enabled || (size <=? psize) /\ fresh_abd m a m'
  else new_abd m size meta = Panic.
Proof.
  intros Hpos. destruct (Z.leb_spec size SPA_MAXBLOCKSIZE) as [Hs|Hs].
  - destruct (abd_alloc_ok m size meta ltac:(lia)) as (a & m' & E & Ez & El & _ & Hf). exists a, m'. split_and!; [done..|by apply new_fresh].
  - unfold abd_alloc, abd_alloc_linear. rewrite (proj2 (Z.leb_gt size SPA_MAXBLOCKSIZE)) by lia. by destruct (_ || _).
Qed.

(** The contents and the memory after a buffer is borrowed, written to and
    returned. *)
Definition borrow_returns (m : mem) (a : abd) (n : Z) (vs : list Z) : Prop :=
  exists buf a1 m1, abd_borrow_buf_copy kmem_alloc m a n = Ok (buf, a1, m1) /\
    holds m1 (span buf n) (slice 0 n vs) /\
    forall ws m2, length ws = Z.to_nat n -> written m1 (span buf n) ws m2 ->
    exists a3 m3, abd_return_buf_copy m2 a1 buf n = Ok (a3, m3) /\
      holds m3 (locs a) (splice 0 ws vs) /\ locs a3 = locs a /\
      abd_children a3 = wrap64 (abd_children a) /\ forall l, l ∉ locs a -> mbyte m3 l = mbyte m l.

Lemma children_back c n : wrap64 (wrap64 (c + n) - n) = wrap64 c.
Proof. rewrite wrap64_sub_l. f_equal. lia. Qed.

Lemma linear_region a buf n : abd_u a = AbdLinear buf -> 0 <= n <= abd_size a -> span buf n = region a 0 n.
Proof.
  intros Eu Hn. unfold region, locs, abd_sgs, abd_off. rewrite Eu. simpl. rewrite !drop_0, app_nil_r, take_take. unfold sg_locs. simpl.
  rewrite Nat.min_l by lia. rewrite <- (ptr_add_0 buf) at 1. rewrite <- (span_part buf (abd_size a)) by lia. by rewrite drop_0.
Qed.

Lemma borrow_linear m a n vs buf :
  abd_wf a -> NoDup (locs a) -> 0 < n <= abd_size a -> holds m (locs a) vs -> abd_u a = AbdLinear buf ->
  borrow_returns m a n vs.
Proof.
  intros Hwf Hnd Hn Hh Eu. assert (Hp : part_ok a 0 n) by (split_and!; lia).
  unfold borrow_returns, abd_borrow_buf_copy, abd_borrow_buf, abd_return_buf_copy, abd_return_buf, abd_is_linear. rewrite Eu.
  cbn [mbind res_bind]. pose proof (linear_region a buf n Eu ltac:(lia)) as El.
  eexists _, _, _. split; [done|]. rewrite El. split; [by apply holds_region|]. intros ws m2 Hl Hw. rewrite <- El in Hw.
  cbn [abd_u set_abd_children]. rewrite Eu. cbn [mbind res_bind]. eexists _, _. split; [done|]. split_and!; try done.
  - rewrite El in Hw. by apply (written_splice m a 0 n).
  - apply children_back.
  - intros l Hl'. apply Hw. rewrite El. intros Hr. by apply Hl', (region_sub _ _ _ _ Hr).
Qed.

Lemma borrow_scatter m a n vs off nents sgl :
  abd_wf a -> NoDup (locs a) -> 0 < n <= abd_size a -> holds m (locs a) vs -> abd_u a = AbdScatter off nents sgl ->
  borrow_returns m a n vs.
Proof.
  intros Hwf Hnd Hn Hh Eu. assert (Hp : part_ok a 0 n) by (split_and!; lia).
  unfold borrow_returns, abd_borrow_buf_copy, abd_borrow_buf, abd_return_buf_copy, abd_return_buf, abd_is_linear. rewrite Eu.
  destruct (new_buf m n) as [buf m0] eqn:Eb. destruct (alloc_buf_ok m n buf m0 ltac:(lia) Eb) as (Hoff & Hfree & (bs & Em0) & us & Hus).
  assert (Hdis : forall l, l ∈ locs a -> p_blk l <> p_blk buf).
  { intros l (i & Hi)%list_elem_of_lookup E. destruct (Forall2_lookup_l _ _ _ _ _ Hh Hi) as (v & _ & Hv).
    unfold mbyte in Hv. by rewrite E, Hfree in Hv. }
  assert (Hh0 : holds m0 (locs a) vs).
  { apply Forall2_same_length_lookup_2; [by eapply holds_length|]. intros i l v Hl Hv.
    rewrite Em0, mbyte_insert by (by apply Hdis, (list_elem_of_lookup_2 _ i)).
    by apply (Forall2_lookup_lr _ _ _ _ _ _ Hh Hl Hv). }
  destruct (copy_to_buf_ok m0 buf a 0 n vs us) as (m1 & E1 & Hw1); try done.
  { intros l Hl%elem_of_span Hl'%region_sub. by apply (Hdis l Hl'), Hl. }
  rewrite E1. cbn [mbind res_bind]. eexists _, _, _. split; [done|]. split; [apply Hw1|]. intros ws m2 Hl Hw2.
  cbn [abd_u set_abd_children]. rewrite Eu. set (a1 := set_abd_children a _).
  assert (Hwf1 : abd_wf a1) by (destruct Hwf; by constructor).
  assert (Hh2 : holds m2 (locs a) vs).
  { eapply (holds_frame m1); [|exact Hw2|]; [eapply (holds_frame m0); [exact Hh0|exact Hw1|]|];
      intros l Hl1 Hl2%elem_of_span; by apply (Hdis l Hl1), Hl2. }
  destruct (copy_from_buf_ok m2 buf a1 0 n vs ws) as (m3 & E3 & Hw3); try done; [apply Hw2| |].
  { intros l Hl1%region_sub Hl2%elem_of_span. by apply (Hdis l Hl1), Hl2. }
  rewrite E3. cbn [mbind res_bind].
  assert (Hblk : is_Some (m3 !! p_blk buf)).
  { assert (Hb3 : holds m3 (span buf n) ws).
    { eapply holds_frame; [apply Hw2|exact Hw3|]. intros l Hl1%elem_of_span Hl2%region_sub. by apply (Hdis l Hl2), Hl1. }
    destruct (mbyte_block m3 buf n ws) as (bs3 & -> & _); [lia|done|by eexists]. }
  rewrite free_buf_ok by done. cbn [mbind res_bind]. eexists _, _. split; [done|].
  assert (Hdel : forall l, p_blk l <> p_blk buf -> mbyte (delete (p_blk buf) m3) l = mbyte m3 l)
    by (intros l Hne; unfold mbyte; by rewrite lookup_delete_ne).
  split_and!; try done; [|apply children_back|].
  - apply Forall2_same_length_lookup_2; [rewrite (holds_length _ _ _ Hh); unfold splice; rewrite !length_app, length_take, length_drop;
      pose proof (holds_length _ _ _ Hh) as Hl'; rewrite length_locs in Hl' by done; lia|].
    intros i l v Hl1 Hv. rewrite Hdel by (by apply Hdis, (list_elem_of_lookup_2 _ i)).
    eapply (Forall2_lookup_lr _ _ _ _ _ _ (written_splice m2 a 0 n vs ws m3 Hwf Hnd Hp Hh2 Hl Hw3)); done.
  - intros l Hl1. destruct (decide (p_blk l = p_blk buf)) as [E|E].
    { unfold mbyte. by rewrite E, lookup_delete_eq, Hfree. }
    rewrite Hdel by done. rewrite (proj2 Hw3), (proj2 Hw2), (proj2 Hw1), Em0, mbyte_insert; try done.
    + intros Hl2%elem_of_span. by apply E, Hl2.
    + intros Hl2%elem_of_span. by apply E, Hl2.
    + intros Hl2%region_sub. by apply Hl1.
Qed.

(** A buffer borrowed to be read: memory that was in use stays as it is, and the
    buffer is given back whatever has happened to the rest of memory. *)
Lemma borrow_read m a n vs :
  abd_wf a -> 0 < n <= abd_size a -> holds m (locs a) vs ->
  exists buf a1 m1, abd_borrow_buf_copy kmem_alloc m a n = Ok (buf, a1, m1) /\
    holds m1 (span buf n) (slice 0 n vs) /\
    (forall l, is_Some (m !! p_blk l) -> mbyte m1 l = mbyte m l) /\
    (m !! p_blk buf = None \/ exists l, l ∈ locs a /\ p_blk l = p_blk buf) /\
    forall m2, is_Some (m2 !! p_blk buf) ->
    exists a3 m3, abd_return_buf m2 a1 buf n = Ok (a3, m3) /\ locs a3 = locs a /\ abd_children a3 = wrap64 (abd_children a) /\
      forall l, is_Some (m !! p_blk l) -> mbyte m3 l = mbyte m2 l.
Proof.
  intros Hwf Hn Hh. assert (Hp : part_ok a 0 n) by (split_and!; lia).
  unfold abd_borrow_buf_copy, abd_borrow_buf, abd_return_buf, abd_is_linear. destruct (abd_u a) as [buf|off nents sgl] eqn:Eu.
  - cbn [mbind res_bind]. pose proof (linear_region a buf n Eu ltac:(lia)) as El.
    eexists _, _, _. split; [done|]. rewrite El. split; [by apply holds_region|]. split; [done|]. split.
    { right. exists buf. split; [|done]. apply (region_sub a 0 n). rewrite <- El, elem_of_span. split; [done|lia]. }
    intros m2 _. cbn [abd_u set_abd_children]. rewrite Eu. cbn [mbind res_bind]. eexists _, _. split; [done|]. split_and!; [done|apply children_back|done].
  - destruct (new_buf m n) as [buf m0] eqn:Eb. destruct (alloc_buf_ok m n buf m0 ltac:(lia) Eb) as (Hoff & Hfree & (bs & Em0) & us & Hus).
    assert (Hold : forall l, is_Some (m !! p_blk l) -> p_blk l <> p_blk buf) by (intros l [x Hx] E; congruence).
    assert (Hh0 : holds m0 (locs a) vs).
    { eapply holds_ext; [exact Hh|]. intros l Hl. rewrite Em0, mbyte_insert; [done|]. apply Hold. by eapply holds_block. }
    destruct (copy_to_buf_ok m0 buf a 0 n vs us) as (m1 & E1 & Hw1); try done.
    { intros l Hl%elem_of_span Hl'%region_sub. apply (Hold l); [by eapply holds_block|apply Hl]. }
    rewrite E1. cbn [mbind res_bind]. eexists _, _, _. split; [done|]. split; [apply Hw1|]. split_and!; [|by left|].
    { intros l Hl. rewrite (proj2 Hw1) by (intros Hs%elem_of_span; apply (Hold l Hl), Hs). by rewrite Em0, mbyte_insert by (by apply Hold). }
    intros m2 H2. cbn [abd_u set_abd_children]. rewrite Eu. rewrite free_buf_ok by done. cbn [mbind res_bind]. eexists _, _. split; [done|].
    split_and!; [done|apply children_back|]. intros l Hl. unfold mbyte. by rewrite lookup_delete_ne by (apply not_eq_sym, Hold, Hl).
Qed.

(** A buffer borrowed with its contents and given back with changes: the
    borrowed buffer holds the first bytes of the array; whatever the borrower
    writes to it is in the array after [abd_return_buf_copy], the rest of the
    memory is as before, and the buffer has the children it had. *)
Theorem abd_borrow_return_correct m a n vs :
  abd_wf a -> NoDup (locs a) -> 0 < n <= abd_size a -> holds m (locs a) vs ->
  exists buf a1 m1, abd_borrow_buf_copy kmem_alloc m a n = Ok (buf, a1, m1) /\
    holds m1 (span buf n) (slice 0 n vs) /\
    forall ws m2, length ws = Z.to_nat n -> written m1 (span buf n) ws m2 ->
    exists a3 m3, abd_return_buf_copy m2 a1 buf n = Ok (a3, m3) /\
      holds m3 (locs a) (splice 0 ws vs) /\ locs a3 = locs a /\
      abd_children a3 = wrap64 (abd_children a) /\ forall l, l ∉ locs a -> mbyte m3 l = mbyte m l.
Proof.
  intros Hwf Hnd Hn Hh. change (borrow_returns m a n vs). destruct (abd_u a) eqn:Eu; [by eapply borrow_linear|by eapply borrow_scatter].
Qed.

End AllocProofs.

(** ** Examples: a buffer of two pages of 16 bytes *)

Module Example.

Definition pages : list scatterlist := [Sg (Ptr 1 0) 16; Sg (Ptr 2 0) 16].
Definition bytes (n : Z) : list Z := seqZ 0 n.
Definition m0 : mem := {[ 1 := bytes 16; 2 := bytes 16; 3 := replicate 20 7; 4 := bytes 24 ]}.

(** From byte 4 of the first page to byte 12 of the second. *)
Definition a0 : abd := Abd true false 24 0 (AbdScatter 4 2 pages).
Definition lin : abd := Abd true false 24 0 (AbdLinear (Ptr 4 0)).
Definition data : list Z := drop 4 (bytes 16) ++ take 12 (bytes 16).

Lemma a0_wf : abd_wf a0.
Proof. constructor; vm_compute; try done. by repeat constructor. Qed.

Lemma lin_wf : abd_wf lin.
Proof. constructor; vm_compute; try done. by repeat constructor. Qed.

Ltac decided := refine (bool_decide_unpack _ _); vm_compute; exact I.

Lemma a0_nodup : NoDup (locs a0).
Proof. decided. Qed.

Lemma a0_data : holds m0 (locs a0) data.
Proof. unfold holds. decided. Qed.

Lemma disjoint_dec (l1 l2 : list ptr) :
  bool_decide (Forall (fun l => l ∉ l2) l1) = true -> forall l, l ∈ l1 -> l ∉ l2.
Proof. intros H. apply bool_decide_eq_true_1 in H. by apply Forall_forall. Qed.

Lemma abd_read_correct_witness :
  exists m', abd_copy_to_buf_off m0 (Ptr 3 0) a0 8 10 = Ok m' /\ load m' (Ptr 3 0) 10 = Ok [12; 13; 14; 15; 0; 1; 2; 3; 4; 5].
Proof.
  destruct (abd_read_correct m0 a0 (Ptr 3 0) 8 10 data (replicate 10 7)) as [(m' & E & [Hw _] & _) _].
  - exact a0_wf.
  - split_and!; vm_compute; discriminate.
  - exact a0_data.
  - unfold holds. decided.
  - apply disjoint_dec. vm_compute. reflexivity.
  - exists m'. split; [exact E|]. apply load_holds; [lia|exact Hw].
Defined.

Lemma abd_update_correct_witness :
  exists m', abd_copy_from_buf_off m0 a0 (Ptr 3 0) 8 10 = Ok m' /\
    holds m' (locs a0) ([4; 5; 6; 7; 8; 9; 10; 11] ++ replicate 10 7 ++ [6; 7; 8; 9; 10; 11]).
Proof.
  destruct (abd_update_correct m0 a0 (Ptr 3 0) 8 10 data (replicate 10 7)) as [(m' & E & Hh & _) _].
  - exact a0_wf.
  - exact a0_nodup.
  - split_and!; vm_compute; discriminate.
  - exact a0_data.
  - unfold holds. decided.
  - apply disjoint_dec. vm_compute. reflexivity.
  - exists m'. split; [exact E|exact Hh].
Defined.

Lemma abd_copy_correct_witness :
  exists m', abd_copy_off m0 a0 lin 6 2 12 = Ok m' /\
    holds m' (locs a0) ([4; 5; 6; 7; 8; 9] ++ [2; 3; 4; 5; 6; 7; 8; 9; 10; 11; 12; 13] ++ [6; 7; 8; 9; 10; 11]).
Proof.
  destruct (abd_copy_correct m0 a0 lin 6 2 12 data (bytes 24)) as [(m' & E & Hh & _) _].
  - exact a0_wf.
  - exact lin_wf.
  - exact a0_nodup.
  - split_and!; vm_compute; discriminate.
  - split_and!; vm_compute; discriminate.
  - exact a0_data.
  - unfold holds. decided.
  - apply disjoint_dec. vm_compute. reflexivity.
  - exists m'. split; [exact E|exact Hh].
Defined.

Lemma abd_get_offset_correct_witness :
  exists w a', abd_get_offset a0 14 = Ok (w, a') /\ abd_size w = 10 /\ holds m0 (locs w) [2; 3; 4; 5; 6; 7; 8; 9; 10; 11] /\ abd_put w (Some a') = Some a0.
Proof.
  destruct (abd_get_offset_correct m0 a0 14 data) as (w & a' & E & _ & Es & _ & _ & Hp & Hh & _).
  - exact a0_wf.
  - exact a0_nodup.
  - lia.
  - exact a0_data.
  - exists w, a'. split_and!; [exact E|exact Es|exact Hh|]. apply Hp. by vm_compute.
Defined.

(** An allocator that takes the first address above those in use. *)
Definition kmem (m : mem) (n : Z) : Z * list Z := (fresh (dom m), replicate (Z.to_nat n) 0).

Lemma kmem_fresh m n : m !! (kmem m n).1 = None.
Proof. apply not_elem_of_dom, is_fresh. Qed.

Lemma kmem_size m n : length (kmem m n).2 = Z.to_nat n.
Proof. apply length_replicate. Qed.

Lemma abd_alloc_correct_witness :
  exists a m', abd_alloc 4 kmem true m0 40 false = Ok (a, m') /\ abd_is_linear a = false /\ abd_free 4 m' a = Ok m0.
Proof.
  destruct (abd_alloc_correct 4 kmem true ltac:(lia) kmem_fresh kmem_size m0 40 false) as (a & m' & E & _ & El & Hf).
  - lia.
  - exists a, m'. split_and!; [exact E|exact El|apply Hf].
Defined.

Lemma abd_borrow_return_correct_witness :
  exists buf a1 m1, abd_borrow_buf_copy kmem m0 a0 20 = Ok (buf, a1, m1) /\ holds m1 (span buf 20) (take 20 data).
Proof.
  destruct (abd_borrow_return_correct kmem kmem_fresh kmem_size m0 a0 20 data) as (buf & a1 & m1 & E & Hh & _).
  - exact a0_wf.
  - exact a0_nodup.
  - split; vm_compute; [reflexivity|discriminate].
  - exact a0_data.
  - exists buf, a1, m1. split; [exact E|exact Hh].
Defined.

End Example.
