(* ===== verification/AbdIter.v ===== *)
(** * Walks over several buffers: [module/zfs/abd.c]

    RAID-Z computes on columns that are scattered differently.
    [abd_raidz_gen_iterate] and [abd_raidz_rec_iterate] walk several buffers at
    once, in pieces that are contiguous in each.  This file has these two
    functions, and a rule for each walk: an invariant that every piece maintains
    holds at the end.  The array of a buffer is seen as a lane, a function from
    positions to locations; [swept] is the effect of a walk that gives new values
    to the bytes of some lanes. *)

From stdpp Require Import gmap.
From S2P Require Import Prelude Buffer Memory Abd.

(** ** The two walks *)

Section Walks.

Context {M : Type}.

Fixpoint map_iters (its : list abd_iter) : res (list abd_iter) :=
  match its with
  | [] => Ok []
  | it :: its' => it ← abd_iter_map it; its' ← map_iters its'; Ok (it :: its')
  end.

Fixpoint iter_addrs (its : list abd_iter) : res (list ptr) :=
  match its with
  | [] => Ok []
  | it :: its' => p ← deref (iter_mapaddr it); ps ← iter_addrs its'; Ok (p :: ps)
  end.

Definition min_mapsize (its : list abd_iter) (len : Z) : Z := foldr (fun it len => Z.min (iter_mapsize it) len) len its.

Fixpoint advance_iters (its : list abd_iter) (len : Z) : res (list abd_iter) :=
  match its with
  | [] => Ok []
  | it :: its' => it ← abd_iter_advance (abd_iter_unmap it) len; its' ← advance_iters its' len; Ok (it :: its')
  end.

Section Gen.

(** The addresses of the parity, the address of the data, and the two sizes. *)
Variable func_raidz_gen : list ptr -> option ptr -> Z -> Z -> M -> res M.

Fixpoint gen_loop (fuel : nat) (caiters : list abd_iter) (daiter : option abd_iter) (csize dsize : Z) (s : M) : res M :=
  if 0 <? csize then
    match fuel with
    | O => Panic
    | S fuel' =>
        daiter ← (match daiter with Some it => if 0 <? dsize then it ← abd_iter_map it; Ok (Some it) else Ok (Some it) | None => Ok None end);
        caiters ← map_iters caiters;
        caddrs ← iter_addrs caiters;
        let len := min_mapsize caiters csize in
        let '(len, dlen) :=
          match daiter with
          | Some it => if 0 <? dsize then (Z.min (iter_mapsize it) len, Z.min (iter_mapsize it) len) else (len, 0)
          | None => (len, 0)
          end in
        s ← func_raidz_gen caddrs (daiter ≫= iter_mapaddr) len dlen s;
        caiters ← advance_iters caiters len;
        '(daiter, dsize) ←
          (match daiter with
           | Some it => if 0 <? dsize then it ← abd_iter_advance (abd_iter_unmap it) dlen; Ok (Some it, dsize - dlen) else Ok (Some it, dsize)
           | None => Ok (None, dsize)
           end);
        gen_loop fuel' caiters daiter (csize - len) dsize s
    end
  else Ok s.

Definition iters_fuel (l : list abd) : nat := list_sum (iter_fuel <$> l).

Definition abd_raidz_gen_iterate (cabds : list abd) (dabd : option abd) (csize dsize : Z) (s : M) : res M :=
  gen_loop (iters_fuel cabds + match dabd with Some a => iter_fuel a | None => 0 end) (abd_iter_init <$> cabds) (abd_iter_init <$> dabd) csize dsize s.

End Gen.

Section Rec.

(** The addresses of the targets, the size, the addresses of the parity. *)
Variable func_raidz_rec : list ptr -> Z -> list ptr -> M -> res M.

Fixpoint rec_loop (fuel : nat) (citers xiters : list abd_iter) (tsize : Z) (s : M) : res M :=
  if 0 <? tsize then
    match fuel with
    | O => Panic
    | S fuel' =>
        citers ← map_iters citers;
        xiters ← map_iters xiters;
        caddrs ← iter_addrs citers;
        xaddrs ← iter_addrs xiters;
        let len := min_mapsize citers (min_mapsize xiters tsize) in
        s ← func_raidz_rec xaddrs len caddrs s;
        citers ← advance_iters citers len;
        xiters ← advance_iters xiters len;
        rec_loop fuel' citers xiters (tsize - len) s
    end
  else Ok s.

Definition abd_raidz_rec_iterate (cabds tabds : list abd) (tsize : Z) (s : M) : res M :=
  rec_loop (iters_fuel cabds + iters_fuel tabds) (abd_iter_init <$> cabds) (abd_iter_init <$> tabds) tsize s.

End Rec.

End Walks.

(** ** Lanes *)

Abbreviation lane := (Z -> ptr).

Definition abd_lane (a : abd) : lane := fun i => nth (Z.to_nat i) (locs a) (Ptr 0 0).

(** The [n] positions from [pos] on are at [p] and after. *)
Definition contig (l : lane) (pos : Z) (p : ptr) (n : Z) : Prop := forall k, 0 <= k < n -> l (pos + k) = ptr_add p k.

Definition reads (m : mem) (l : lane) (lo hi : Z) (v : Z -> Z) : Prop := forall i, lo <= i < hi -> mbyte m (l i) = Some (v i).

Definition mapped (m : mem) (l : lane) (lo hi : Z) : Prop := forall i, lo <= i < hi -> is_Some (mbyte m (l i)).

Lemma contig_ptr p pos n : contig (ptr_add p) pos (ptr_add p pos) n.
Proof. intros k _. by rewrite ptr_add_add. Qed.

Lemma contig_sub l pos p n k n' : contig l pos p n -> 0 <= k -> k + n' <= n -> contig l (pos + k) (ptr_add p k) n'.
Proof. intros H Hk Hn i Hi. rewrite <- Z.add_assoc, H by lia. by rewrite ptr_add_add. Qed.

Lemma contig_span a pos p n size :
  0 <= pos -> 0 <= n <= size -> span p n = take (Z.to_nat n) (drop (Z.to_nat pos) (locs a)) -> contig (abd_lane a) pos p n.
Proof.
  intros Hp Hn E k Hk. unfold abd_lane. apply (f_equal (fun l => l !! Z.to_nat k)) in E. rewrite span_lookup, decide_True in E by lia.
  rewrite lookup_take_lt, lookup_drop in E by lia. rewrite nth_lookup. replace (Z.to_nat (pos + k)) with (Z.to_nat pos + Z.to_nat k)%nat by lia.
  rewrite <- E. cbn. f_equal. lia.
Qed.

Lemma reads_mapped m l lo hi v : reads m l lo hi v -> mapped m l lo hi.
Proof. intros H i Hi. rewrite (H i Hi). by eexists. Qed.

Lemma reads_sub m l lo hi v lo' hi' : reads m l lo hi v -> lo <= lo' -> hi' <= hi -> reads m l lo' hi' v.
Proof. intros H H1 H2 i Hi. apply H. lia. Qed.

Lemma mapped_sub m l lo hi lo' hi' : mapped m l lo hi -> lo <= lo' -> hi' <= hi -> mapped m l lo' hi'.
Proof. intros H H1 H2 i Hi. apply H. lia. Qed.

Lemma reads_holds m l lo n v : reads m l lo (lo + n) v <-> holds m (l <$> seqZ lo n) (v <$> seqZ lo n).
Proof.
  split.
  - intros H. apply Forall2_same_length_lookup_2; [by rewrite !length_fmap|]. intros i x y Hx Hy. rewrite list_lookup_fmap in Hx. rewrite list_lookup_fmap in Hy.
    destruct (seqZ lo n !! i) as [a|] eqn:E; [|done]. injection Hx as <-. injection Hy as <-. apply lookup_seqZ in E as [-> ?]. apply H. lia.
  - intros H i Hi. assert (E : seqZ lo n !! Z.to_nat (i - lo) = Some i) by (apply lookup_seqZ; lia).
    apply (Forall2_lookup_lr _ _ _ (Z.to_nat (i - lo)) _ _ H); by rewrite list_lookup_fmap, E.
Qed.

Lemma contig_locs l pos p n : contig l pos p n -> span p n = l <$> seqZ pos n.
Proof.
  intros H. apply list_eq. intros i. rewrite span_lookup, list_lookup_fmap. destruct (decide (Z.of_nat i < n)) as [Hi|Hi].
  - rewrite lookup_seqZ_lt by done. cbn. f_equal. symmetry. apply H. lia.
  - rewrite lookup_seqZ_ge by lia. done.
Qed.

Lemma mapped_holds m l lo n : mapped m l lo (lo + n) -> exists ws, holds m (l <$> seqZ lo n) ws.
Proof.
  intros Hm. exists ((fun i => default 0 (mbyte m (l i))) <$> seqZ lo n). apply reads_holds. intros i Hi. destruct (Hm i Hi) as [x ->]. done.
Qed.

Lemma region_lane a off size : abd_wf a -> part_ok a off size -> region a off size = abd_lane a <$> seqZ off size.
Proof.
  intros Hwf Hp. pose proof Hp as (Ho & Hs & He). apply list_eq. intros i. rewrite list_lookup_fmap. unfold region. destruct (decide (Z.of_nat i < size)) as [Hi|Hi].
  - rewrite lookup_take_lt, lookup_drop, lookup_seqZ_lt by lia. cbn. unfold abd_lane. rewrite nth_lookup. replace (Z.to_nat (off + Z.of_nat i)) with (Z.to_nat off + i)%nat by lia.
    destruct (locs a !! (Z.to_nat off + i)%nat) eqn:E; [done|]. apply lookup_ge_None_1 in E. rewrite length_locs in E by done. lia.
  - rewrite lookup_take_ge, lookup_seqZ_ge by lia. done.
Qed.

Lemma locs_lane a : abd_wf a -> locs a = abd_lane a <$> seqZ 0 (abd_size a).
Proof.
  intros Hwf. rewrite <- region_lane; [|done|unfold part_ok; destruct Hwf; lia]. unfold region. rewrite drop_0, take_ge; [done|]. rewrite length_locs by done. lia.
Qed.

Lemma lane_locs a i : abd_wf a -> 0 <= i < abd_size a -> abd_lane a i ∈ locs a.
Proof. intros Hwf Hi. rewrite locs_lane by done. apply list_elem_of_fmap. exists i. split; [done|]. apply elem_of_seqZ. lia. Qed.

Lemma locs_lane_inv a x : abd_wf a -> x ∈ locs a -> exists i, 0 <= i < abd_size a /\ x = abd_lane a i.
Proof. intros Hwf Hx. rewrite locs_lane in Hx by done. apply list_elem_of_fmap in Hx as (i & -> & Hi%elem_of_seqZ). exists i. split; [lia|done]. Qed.

Lemma load_lane m l pos p n v : 0 < n -> contig l pos p n -> reads m l pos (pos + n) v -> load m p n = Ok (v <$> seqZ pos n).
Proof. intros Hn Hc Hr. apply load_holds; [done|]. rewrite (contig_locs l pos) by done. by apply reads_holds. Qed.

(** ** The effect of a walk *)

Record swept (m : mem) (ts : list (lane * (Z -> Z))) (lo hi : Z) (m' : mem) : Prop := {
  sw_new : forall l w, (l, w) ∈ ts -> reads m' l lo hi w;
  sw_old : forall x, (forall l w, (l, w) ∈ ts -> forall i, lo <= i < hi -> x <> l i) -> mbyte m' x = mbyte m x
}.

(** Distinct positions of the lanes are distinct locations. *)
Definition separate (ls : list lane) (hi : Z) : Prop :=
  forall a b l l' i j, ls !! a = Some l -> ls !! b = Some l' -> 0 <= i < hi -> 0 <= j < hi -> l i = l' j -> a = b /\ i = j.

Definition apart (l l' : lane) (hi hi' : Z) : Prop := forall i j, 0 <= i < hi -> 0 <= j < hi' -> l i <> l' j.

Lemma swept_empty m ts lo : swept m ts lo lo m.
Proof. constructor; [intros l w _ i Hi; lia|done]. Qed.

Lemma written_swept m l w lo n m' : written m (l <$> seqZ lo n) (w <$> seqZ lo n) m' -> swept m [(l, w)] lo (lo + n) m'.
Proof.
  intros [Hnew Hold]. apply reads_holds in Hnew. constructor.
  - by intros l' w' [= -> ->]%list_elem_of_singleton.
  - intros x Hx. apply Hold. intros (i & -> & Hi%elem_of_seqZ)%list_elem_of_fmap. by apply (Hx l w) with i; [left|lia|].
Qed.

Lemma store_lane m l pos p n w :
  0 < n -> contig l pos p n -> mapped m l pos (pos + n) ->
  exists m', store m p (w <$> seqZ pos n) = Ok m' /\ swept m [(l, w)] pos (pos + n) m'.
Proof.
  intros Hn Hc Hm. destruct (mapped_holds m l pos n Hm) as [ws Hw]. rewrite <- (contig_locs l pos p n Hc) in Hw.
  assert (El : Z.of_nat (length (w <$> seqZ pos n)) = n) by (rewrite length_fmap, length_seqZ; lia).
  destruct (store_ok m p (w <$> seqZ pos n) ws) as (m' & E & Hwr); [lia|by rewrite El|]. exists m'. split; [done|].
  apply written_swept. by rewrite El, (contig_locs l pos p n Hc) in Hwr.
Qed.

(** One walk after another, on the same lanes. *)
Lemma swept_trans m ts lo mid hi top m1 m2 :
  swept m ts lo mid m1 -> swept m1 ts mid hi m2 -> separate (fst <$> ts) top -> 0 <= lo <= mid -> mid <= hi <= top -> swept m ts lo hi m2.
Proof.
  intros [N1 O1] [N2 O2] Hs Hlo Hhi. constructor.
  - intros l w Hin i Hi. destruct (decide (mid <= i)) as [Hm|Hm]; [apply (N2 l w Hin); lia|]. rewrite O2; [apply (N1 l w Hin); lia|].
    intros l' w' Hin' j Hj E. apply list_elem_of_lookup in Hin as [a Ha]. apply list_elem_of_lookup in Hin' as [b Hb].
    destruct (Hs a b l l' i j) as [_ ->]; [by rewrite list_lookup_fmap, Ha|by rewrite list_lookup_fmap, Hb|lia|lia|done|lia].
  - intros x Hx. rewrite O2, O1; [done| |]; intros l w Hin i Hi; apply (Hx l w Hin); lia.
Qed.

(** Walks on different lanes. *)
Lemma swept_app m ts ts' lo hi m1 m2 :
  swept m ts lo hi m1 -> swept m1 ts' lo hi m2 ->
  (forall l w l' w' i j, (l, w) ∈ ts -> (l', w') ∈ ts' -> lo <= i < hi -> lo <= j < hi -> l i <> l' j) -> swept m (ts ++ ts') lo hi m2.
Proof.
  intros [N1 O1] [N2 O2] Ha. constructor.
  - intros l w [Hin|Hin]%elem_of_app; [|by apply N2]. intros i Hi. rewrite O2; [by apply (N1 l w)|]. intros l' w' Hin' j Hj. by apply (Ha l w l' w').
  - intros x Hx. rewrite O2, O1; [done| |]; intros l w Hin; apply (Hx l w); rewrite elem_of_app; auto.
Qed.

(** A second walk over the same lane. *)
Lemma swept_again m l w w' lo hi m1 m2 : swept m [(l, w)] lo hi m1 -> swept m1 [(l, w')] lo hi m2 -> swept m [(l, w')] lo hi m2.
Proof.
  intros [N1 O1] [N2 O2]. constructor; [done|]. intros x Hx. rewrite O2 by done. apply O1. intros l2 w2 [= -> ->]%list_elem_of_singleton. apply (Hx l w'). by left.
Qed.

Lemma swept_ext m l w w' lo hi m' : swept m [(l, w)] lo hi m' -> (forall i, lo <= i < hi -> w i = w' i) -> swept m [(l, w')] lo hi m'.
Proof.
  intros [N O] H. constructor.
  - intros l2 w2 [= -> ->]%list_elem_of_singleton i Hi. rewrite <- H by done. by apply (N l w); [left|].
  - intros x Hx. apply O. intros l2 w2 [= -> ->]%list_elem_of_singleton. apply (Hx l w'). by left.
Qed.

(** What a walk leaves. *)
Lemma swept_reads m ts lo hi m' l lo' hi' v :
  swept m ts lo hi m' -> reads m l lo' hi' v ->
  (forall l' w i j, (l', w) ∈ ts -> lo' <= i < hi' -> lo <= j < hi -> l i <> l' j) -> reads m' l lo' hi' v.
Proof. intros [_ O] Hr Ha i Hi. rewrite O; [by apply Hr|]. intros l' w Hin j Hj. by apply (Ha l' w). Qed.

Lemma swept_mapped m ts lo hi m' l lo' hi' :
  swept m ts lo hi m' -> mapped m l lo' hi' ->
  (forall l' w i j, (l', w) ∈ ts -> lo' <= i < hi' -> lo <= j < hi -> l i <> l' j) -> mapped m' l lo' hi'.
Proof. intros [_ O] Hr Ha i Hi. rewrite O; [by apply Hr|]. intros l' w Hin j Hj. by apply (Ha l' w). Qed.

(** ** Rules for the walks *)

Section Rules.

Context {M : Type} (k : Z).

Lemma iterate_inv (I : Z -> M -> Prop) (f : ptr -> Z -> M -> res (Z * M)) a off size s :
  abd_wf a -> abd_multiple k a -> part_ok a off size -> (k | off) -> (k | size) ->
  (forall pos p n s, 0 <= pos -> 0 < n -> pos + n <= size -> (k | pos) -> (k | n) -> contig (abd_lane a) (off + pos) p n -> I pos s ->
     exists s', f p n s = Ok (0, s') /\ I (pos + n) s') ->
  I 0 s -> exists s', abd_iterate_func f a off size s = Ok (0, s') /\ I size s'.
Proof.
  intros Hwf Hk (Ho & Hs & He) Hko Hks Hf HI. destruct (iterate_pieces a off size Hwf Ho Hs He) as (cs & Hrun & Hpos & Hlocs & Hdiv). rewrite Hrun.
  specialize (Hdiv k (multiple_init k a Hwf Hk) Hko Hks). clear Hrun.
  assert (Hg : forall pos s, 0 <= pos <= size -> (k | pos) -> (c ← cs; span c.1 c.2) = take (Z.to_nat (size - pos)) (drop (Z.to_nat (off + pos)) (locs a)) -> I pos s ->
    exists s', run_pieces f cs s = Ok (0, s') /\ I size s'); [|apply (Hg 0 s); [lia|apply Z.divide_0_r|by rewrite Z.sub_0_r, Z.add_0_r|done]].
  clear s HI Hlocs. induction cs as [|[p n] cs IH]; intros pos s Hp Hkp Hl HI.
  - exists s. split; [done|]. apply (f_equal length) in Hl. cbn in Hl. rewrite length_take, length_drop, length_locs in Hl by done. replace size with pos by lia. done.
  - apply Forall_cons in Hpos as [Hn Hpos]. apply Forall_cons in Hdiv as [Hkn Hdiv]. cbn [fst snd] in *. cbn [mbind list_bind fst snd] in Hl. cbn [run_pieces].
    assert (Hle : n <= size - pos).
    { apply (f_equal length) in Hl. rewrite length_app, length_span, length_take, length_drop, length_locs in Hl by done. lia. }
    rewrite (locs_split a (off + pos) n) in Hl by lia. apply app_inj_1 in Hl as [Hl1 Hl2]; [|rewrite length_span, length_take, length_drop, length_locs by done; lia].
    destruct (Hf pos p n s) as (s' & E & HI'); [lia|done|lia|done|done|by apply (contig_span a _ p n n); [lia..|]|done|]. rewrite E. cbn.
    apply (IH Hpos Hdiv (pos + n) s'); [lia|by apply Z.divide_add_r|by rewrite Z.sub_add_distr, Z.add_assoc|done].
Qed.

Lemma iterate2_inv (I : Z -> M -> Prop) (f : ptr -> ptr -> Z -> M -> res (Z * M)) d a doff soff size s :
  abd_wf d -> abd_wf a -> abd_multiple k d -> abd_multiple k a -> part_ok d doff size -> part_ok a soff size -> (k | doff) -> (k | soff) -> (k | size) ->
  (forall pos p q n s, 0 <= pos -> 0 < n -> pos + n <= size -> (k | pos) -> (k | n) ->
     contig (abd_lane d) (doff + pos) p n -> contig (abd_lane a) (soff + pos) q n -> I pos s ->
     exists s', f p q n s = Ok (0, s') /\ I (pos + n) s') ->
  I 0 s -> exists s', abd_iterate_func2 f d a doff soff size s = Ok (0, s') /\ I size s'.
Proof.
  intros Hwd Hwa Hkd Hka (Hdo & Hs & Hde) (Hso & _ & Hse) Hkdo Hkso Hks Hf HI.
  destruct (iterate2_pieces d a doff soff size) as (cs & Hrun & Hpos & Hl1 & Hl2 & Hdiv); [done..|]. rewrite Hrun.
  specialize (Hdiv k (multiple_init k d Hwd Hkd) (multiple_init k a Hwa Hka) Hkdo Hkso Hks). clear Hrun.
  assert (Hg : forall pos s, 0 <= pos <= size -> (k | pos) -> (c ← cs; span c.1.1 c.2) = take (Z.to_nat (size - pos)) (drop (Z.to_nat (doff + pos)) (locs d)) ->
    (c ← cs; span c.1.2 c.2) = take (Z.to_nat (size - pos)) (drop (Z.to_nat (soff + pos)) (locs a)) -> I pos s ->
    exists s', run_pieces2 f cs s = Ok (0, s') /\ I size s'); [|apply (Hg 0 s); [lia|apply Z.divide_0_r|by rewrite Z.sub_0_r, Z.add_0_r..|done]].
  clear s HI Hl1 Hl2. induction cs as [|[[p q] n] cs IH]; intros pos s Hp Hkp Hl1 Hl2 HI.
  - exists s. split; [done|]. apply (f_equal length) in Hl1. cbn in Hl1. rewrite length_take, length_drop, length_locs in Hl1 by done. replace size with pos by lia. done.
  - apply Forall_cons in Hpos as [Hn Hpos]. apply Forall_cons in Hdiv as [Hkn Hdiv]. cbn [fst snd] in *. cbn [mbind list_bind fst snd] in Hl1, Hl2. cbn [run_pieces2].
    assert (Hle : n <= size - pos).
    { apply (f_equal length) in Hl1. rewrite length_app, length_span, length_take, length_drop, length_locs in Hl1 by done. lia. }
    rewrite (locs_split d (doff + pos) n) in Hl1 by lia. rewrite (locs_split a (soff + pos) n) in Hl2 by lia.
    apply app_inj_1 in Hl1 as [Hp1 Hl1]; [|rewrite length_span, length_take, length_drop, length_locs by done; lia].
    apply app_inj_1 in Hl2 as [Hp2 Hl2]; [|rewrite length_span, length_take, length_drop, length_locs by done; lia].
    destruct (Hf pos p q n s) as (s' & E & HI'); [lia|done|lia|done|done|by apply (contig_span d _ p n n); [lia..|]|by apply (contig_span a _ q n n); [lia..|]|done|].
    rewrite E. cbn. apply (IH Hpos Hdiv (pos + n) s'); [lia|by apply Z.divide_add_r|by rewrite Z.sub_add_distr, Z.add_assoc..|done].
Qed.

End Rules.

(** Iterators at the same position of their buffers. *)
Definition its_at (k : Z) (bufs : list abd) (its : list abd_iter) (pos : Z) : Prop :=
  Forall2 (fun a it => it_ok a it /\ it_div k it /\ iter_pos it = pos) bufs its.

Definition entries (its : list abd_iter) : nat := list_sum ((fun it => length (it_sgs it)) <$> its).

Lemma its_init k bufs : Forall (fun a => abd_wf a /\ abd_multiple k a) bufs -> its_at k bufs (abd_iter_init <$> bufs) 0 /\ entries (abd_iter_init <$> bufs) = iters_fuel bufs.
Proof.
  induction 1 as [|a bufs [Hwf Hk] _ [IH1 IH2]]; [by split; [constructor|]|]. destruct (it_init a Hwf) as [Hit Esg]. split.
  - constructor; [|exact IH1]. split_and!; [done|by apply multiple_init|]. unfold abd_iter_init. by destruct (abd_u a).
  - unfold entries, iters_fuel in *. cbn [fmap list_fmap list_sum foldr]. unfold list_sum in IH2. cbn [fmap list_fmap] in IH2. by rewrite IH2, Esg, iter_fuel_sgs.
Qed.

(** The piece all of them can map, and the step past it. *)
Lemma its_step k bufs its pos c :
  its_at k bufs its pos -> 0 < c -> (k | c) -> Forall (fun a => c <= abd_size a - pos) bufs ->
  exists its1 ps, map_iters its = Ok its1 /\ iter_addrs its1 = Ok ps /\ 0 < min_mapsize its1 c <= c /\ (k | min_mapsize its1 c) /\
    Forall2 (fun a p => contig (abd_lane a) pos p (min_mapsize its1 c)) bufs ps /\
    forall n, 0 < n <= min_mapsize its1 c -> (k | n) -> exists its2, advance_iters its1 n = Ok its2 /\ its_at k bufs its2 (pos + n) /\
      (entries its2 <= entries its)%nat /\ (n = min_mapsize its1 c -> n = c \/ (entries its2 < entries its)%nat).
Proof.
  intros Hat Hc Hkc Hs. induction Hat as [|a it bufs its (Hit & Hdiv & Epos) Hat IH].
  { exists [], []. cbn. split_and!; try done; try lia. intros n Hn _. exists [].   split_and!; [done|constructor|done|by left]. }
  apply Forall_cons in Hs as [Ha Hs]. destruct (IH Hs) as (its1 & ps & Em & Ep & Hn0 & Hk0 & Hcon & Hadv). clear IH.
  pose proof (it_pos a it Hit) as Hpos. destruct (map_ok a it Hit ltac:(lia)) as (p & it1 & Emap & Eaddr & Eunmap & Hm & Hspan & Hcase).
  pose proof (map_div k it it1 Emap (proj2 (it_unmapped a it Hit)) Hdiv) as Hkm.
  exists (it1 :: its1), (p :: ps). cbn [map_iters iter_addrs min_mapsize foldr]. fold (min_mapsize its1 c). set (n0 := min_mapsize its1 c) in *. set (h := iter_mapsize it1) in *.
  rewrite Emap. cbn [mbind res_bind]. rewrite Em. cbn [mbind res_bind]. rewrite Eaddr. cbn [deref mbind res_bind]. rewrite Ep. cbn [mbind res_bind].
  split_and!; [done|done|lia|lia|by apply min_div| |].
  { constructor.
    - rewrite <- Epos. apply (contig_span a _ p (Z.min h n0) (Z.min h n0)); [lia|lia|]. apply Hspan. lia.
    - eapply Forall2_impl; [exact Hcon|]. intros a' p' Hc' i Hi. apply Hc'. lia. }
  intros n Hn Hkn. destruct (Hadv n) as (its2 & Eadv & Hat2 & Hle & Hless); [lia|done|].
  destruct (advance_ok a it n Hit) as (it2 & Eadv1 & Hit2 & Epos2 & Hlen & Hlt); [lia..|]. exists (it2 :: its2). cbn [advance_iters]. rewrite Eunmap, Eadv1. cbn [mbind res_bind].
  rewrite Eadv. cbn [mbind res_bind]. unfold entries in *. cbn [fmap list_fmap list_sum foldr]. unfold list_sum in *. split_and!; [done| |lia|].
  - constructor; [|done]. split_and!; [done|by eapply advance_div|lia].
  - intros En. destruct (decide (n = n0)) as [E0|E0]; [destruct (Hless E0); [by left|right; lia]|].
    destruct (advance_shorter a it it1 n c Hit ltac:(lia) ltac:(lia) Hm Hcase ltac:(fold h; lia) it2 Hlt) as [E|E]; [lia|right; lia].
Qed.

Section RaidzRules.

Context {M : Type} (k : Z) (I : Z -> M -> Prop).

Lemma rec_inv (f : list ptr -> Z -> list ptr -> M -> res M) cabds tabds tsize s :
  Forall (fun a => (abd_wf a /\ abd_multiple k a) /\ tsize <= abd_size a) cabds -> Forall (fun a => (abd_wf a /\ abd_multiple k a) /\ tsize <= abd_size a) tabds ->
  cabds <> [] -> 0 <= tsize -> (k | tsize) ->
  (forall pos xs n cs s, 0 <= pos -> 0 < n -> pos + n <= tsize -> (k | pos) -> (k | n) ->
     Forall2 (fun a p => contig (abd_lane a) pos p n) tabds xs -> Forall2 (fun a p => contig (abd_lane a) pos p n) cabds cs -> I pos s ->
     exists s', f xs n cs s = Ok s' /\ I (pos + n) s') ->
  I 0 s -> exists s', abd_raidz_rec_iterate f cabds tabds tsize s = Ok s' /\ I tsize s'.
Proof.
  intros Hc Ht Hne Hts Hkt Hf HI. unfold abd_raidz_rec_iterate.
  destruct (its_init k cabds) as [Hci Hcf]; [eapply Forall_impl; [exact Hc|by intros a [? _]]|]. destruct (its_init k tabds) as [Hti Htf]; [eapply Forall_impl; [exact Ht|by intros a [? _]]|].
  rewrite <- Hcf, <- Htf. revert Hci Hti. generalize (abd_iter_init <$> cabds) as cits, (abd_iter_init <$> tabds) as tits. intros cits tits Hci Hti.
  assert (Hg : forall fuel pos cits tits s, its_at k cabds cits pos -> its_at k tabds tits pos -> 0 <= pos <= tsize -> (k | pos) -> (entries cits + entries tits <= fuel)%nat -> I pos s ->
    exists s', rec_loop f fuel cits tits (tsize - pos) s = Ok s' /\ I tsize s'); [|apply (Hg (entries cits + entries tits)%nat 0 cits tits) in HI; [by rewrite Z.sub_0_r in HI|done|done|lia|apply Z.divide_0_r|done]].
  clear -Hc Ht Hf Hkt Hne. induction fuel as [|fuel IH]; intros pos cits tits s Hci Hti Hp Hkp Hfuel HI.
  - cbn [rec_loop]. destruct (Z.ltb_spec 0 (tsize - pos)) as [Hlt|Hge]; [|exists s; split; [done|]; by replace tsize with pos by lia].
    exfalso. destruct Hci as [|a it bufs its (Hit & _ & Epos) _]; [done|]. unfold entries in Hfuel. cbn [fmap list_fmap list_sum foldr] in Hfuel.
    apply Forall_cons in Hc as [[_ Hsz] _]. assert (E : it_sgs it = []) by (destruct (it_sgs it); [done|cbn in Hfuel; lia]). apply (it_sgs_empty a) in E; [lia|done].
  - cbn [rec_loop]. destruct (Z.ltb_spec 0 (tsize - pos)) as [Hlt|Hge]; [|exists s; split; [done|]; by replace tsize with pos by lia].
    assert (Hkr : (k | tsize - pos)) by (by apply Z.divide_sub_r).
    destruct (its_step k tabds tits pos (tsize - pos) Hti ltac:(lia) Hkr) as (tits1 & xs & Etm & Eta & Htn & Hktn & Htc & Htadv).
    { eapply Forall_impl; [exact Ht|]. intros a [_ Ha]. cbn. lia. }
    destruct (its_step k cabds cits pos (min_mapsize tits1 (tsize - pos)) Hci ltac:(lia) Hktn) as (cits1 & cs & Ecm & Eca & Hcn & Hkcn & Hcc & Hcadv).
    { eapply Forall_impl; [exact Hc|]. intros a [_ Ha]. cbn. lia. }
    rewrite Ecm. cbn [mbind res_bind]. rewrite Etm. cbn [mbind res_bind]. rewrite Eca. cbn [mbind res_bind]. rewrite Eta. cbn [mbind res_bind].
    set (n := min_mapsize cits1 (min_mapsize tits1 (tsize - pos))) in *.
    destruct (Hf pos xs n cs s) as (s' & E & HI'); [lia|lia|lia|done|done| |done|done|].
    { eapply Forall2_impl; [exact Htc|]. intros a p Hcp i Hi. apply Hcp. lia. }
    rewrite E. cbn [mbind res_bind]. destruct (Hcadv n ltac:(lia) Hkcn) as (cits2 & Ecadv & Hci2 & Hcle & Hcless). rewrite Ecadv. cbn [mbind res_bind].
    destruct (Htadv n ltac:(lia) Hkcn) as (tits2 & Etadv & Hti2 & Htle & Htless). rewrite Etadv. cbn [mbind res_bind].
    replace (tsize - pos - n) with (tsize - (pos + n)) by lia. destruct (decide (pos + n = tsize)) as [Eend|Hnend].
    + rewrite Eend in HI'. rewrite Eend, Z.sub_diag. exists s'. split; [by destruct fuel|done].
    + apply IH; [done|done|lia|by apply Z.divide_add_r| |done]. destruct (Hcless eq_refl) as [En|]; [|lia]. destruct (Htless En); lia.
Qed.


(** The data column, of [dsize] bytes; without one the size is 0. *)
Definition data_at (dabd : option abd) (dsize : Z) (daiter : option abd_iter) (pos : Z) : Prop :=
  match dabd, daiter with
  | Some a, Some it => dsize = abd_size a /\ (pos < dsize -> it_ok a it /\ it_div k it /\ iter_pos it = pos)
  | None, None => dsize = 0
  | _, _ => False
  end.

Definition data_entries (daiter : option abd_iter) (left : Z) : nat :=
  match daiter with Some it => if 0 <? left then length (it_sgs it) else 0 | None => 0 end.

(** One step of the walk. *)
Lemma gen_step (f : list ptr -> option ptr -> Z -> Z -> M -> res M) cabds dabd csize dsize fuel cits dit pos s :
  its_at k cabds cits pos -> data_at dabd dsize dit pos -> Forall (fun a => csize <= abd_size a) cabds -> 0 <= pos < csize -> (k | csize - pos) -> (k | pos) -> (k | dsize) -> 0 <= dsize ->
  exists cs dp n, 0 < n /\ pos + n <= csize /\ (k | n) /\ Forall2 (fun a p => contig (abd_lane a) pos p n) cabds cs /\
    (pos < dsize -> pos + n <= dsize /\ exists a p, dabd = Some a /\ dp = Some p /\ contig (abd_lane a) pos p n) /\
    forall s', f cs dp n (if pos <? dsize then n else 0) s = Ok s' ->
      exists cits' dit', its_at k cabds cits' (pos + n) /\ data_at dabd dsize dit' (pos + n) /\
        gen_loop f (S fuel) cits dit (csize - pos) (Z.max 0 (dsize - pos)) s = gen_loop f fuel cits' dit' (csize - (pos + n)) (Z.max 0 (dsize - (pos + n))) s' /\
        (pos + n = csize \/ (entries cits' + data_entries dit' (dsize - (pos + n)) < entries cits + data_entries dit (dsize - pos))%nat).
Proof.
  intros Hci Hd Hc Hp Hkr Hkp Hkd Hds.
  destruct (its_step k cabds cits pos (csize - pos) Hci ltac:(lia) Hkr) as (cits1 & cs & Ecm & Eca & Hcn & Hkcn & Hcc & Hcadv).
  { eapply Forall_impl; [exact Hc|]. intros a Ha. cbn in *. lia. }
  set (c := min_mapsize cits1 (csize - pos)) in *. destruct (Z.ltb_spec pos dsize) as [Hlt|Hge].
  - destruct dabd as [a|], dit as [it|]; try done; cbn in Hd; [|lia]. destruct Hd as [Esz Hit]. destruct (Hit Hlt) as (Hok & Hdiv & Epos).
    destruct (map_ok a it Hok ltac:(lia)) as (p & it1 & Emap & Eaddr & Eunmap & Hm & Hspan & Hcase).
    pose proof (map_div k it it1 Emap (proj2 (it_unmapped a it Hok)) Hdiv) as Hkm. set (n := Z.min (iter_mapsize it1) c).
    assert (Hkn : (k | n)) by (by apply min_div). destruct (Hcadv n ltac:(lia) Hkn) as (cits2 & Ecadv & Hci2 & Hcle & Hcless).
    destruct (advance_ok a it n Hok) as (it2 & Eadv & Hok2 & Epos2 & Hlen & Hless); [lia..|].
    exists cs, (Some p), n. split_and!; [lia|lia|done| | |].
    + eapply Forall2_impl; [exact Hcc|]. intros x y Hxy i Hi. apply Hxy. lia.
    + intros _. split; [lia|]. exists a, p. split_and!; try done. rewrite <- Epos. apply (contig_span a _ p n n); [lia|lia|]. apply Hspan. lia.
    + intros s' E. exists cits2, (Some it2). split_and!; [done| | |].
      * cbn. split; [done|]. intros _. split_and!; [done|by eapply advance_div|lia].
      * cbn [gen_loop]. rewrite (proj2 (Z.ltb_lt 0 (csize - pos))) by lia. replace (Z.max 0 (dsize - pos)) with (dsize - pos) by lia. rewrite (proj2 (Z.ltb_lt 0 (dsize - pos))) by lia.
        rewrite Emap. cbn [mbind res_bind]. rewrite Ecm. cbn [mbind res_bind]. rewrite Eca. cbn [mbind res_bind option_bind]. fold c n. rewrite Eaddr, E. cbn [mbind res_bind].
        rewrite Ecadv. cbn [mbind res_bind]. rewrite Eunmap, Eadv. cbn [mbind res_bind]. f_equal; lia.
      * cbn [data_entries]. rewrite (proj2 (Z.ltb_lt 0 (dsize - pos))) by lia. destruct (Z.ltb_spec 0 (dsize - (pos + n))) as [Hl|Hl].
        -- destruct (decide (n = c)) as [En|En]; [destruct (Hcless En); [left; lia|right; lia]|].
           destruct (advance_shorter a it it1 n (abd_size a - iter_pos it) Hok ltac:(lia) ltac:(lia) Hm Hcase ltac:(lia) it2 Hless) as [|]; [lia|right; lia].
        -- right. assert (it_sgs it <> []) by (intros E0; apply (it_sgs_empty a) in E0; [lia|done]). destruct (it_sgs it); [done|cbn; lia].
  - destruct (Hcadv c ltac:(lia) Hkcn) as (cits2 & Ecadv & Hci2 & Hcle & Hcless).
    exists cs, (dit ≫= iter_mapaddr), c. split_and!; [lia|lia|done|done|lia|]. intros s' E. exists cits2, dit. split_and!; [done| | |].
    + destruct dabd as [a|], dit as [it|]; try done; cbn in *. split; [by apply Hd|lia].
    + cbn [gen_loop]. rewrite (proj2 (Z.ltb_lt 0 (csize - pos))) by lia. replace (Z.max 0 (dsize - pos)) with 0 by lia. replace (Z.max 0 (dsize - (pos + c))) with 0 by lia.
      rewrite Ecm. change (0 <? 0) with false. destruct dit as [it|]; cbn [mbind res_bind option_bind] in *; rewrite Eca; cbn [mbind res_bind]; fold c; rewrite E; cbn [mbind res_bind];
        rewrite Ecadv; cbn [mbind res_bind]; f_equal; lia.
    + assert (Hz : forall d x, x <= 0 -> data_entries d x = 0%nat) by (intros [it|] x Hx; cbn; [|done]; by rewrite (proj2 (Z.ltb_ge 0 x) Hx)).
      rewrite !Hz by lia. destruct (Hcless eq_refl); [left; lia|right; lia].
Qed.

Lemma gen_inv (f : list ptr -> option ptr -> Z -> Z -> M -> res M) cabds dabd csize dsize s :
  Forall (fun a => (abd_wf a /\ abd_multiple k a) /\ csize <= abd_size a) cabds -> cabds <> [] ->
  match dabd with Some a => abd_wf a /\ abd_multiple k a /\ dsize = abd_size a | None => dsize = 0 end ->
  0 <= csize -> (k | csize) -> (k | dsize) ->
  (forall pos cs dp n s, 0 <= pos -> 0 < n -> pos + n <= csize -> (k | pos) -> (k | n) -> Forall2 (fun a p => contig (abd_lane a) pos p n) cabds cs ->
     (pos < dsize -> pos + n <= dsize /\ exists a p, dabd = Some a /\ dp = Some p /\ contig (abd_lane a) pos p n) -> I pos s ->
     exists s', f cs dp n (if pos <? dsize then n else 0) s = Ok s' /\ I (pos + n) s') ->
  I 0 s -> exists s', abd_raidz_gen_iterate f cabds dabd csize dsize s = Ok s' /\ I csize s'.
Proof.
  intros Hc Hne Hd Hcs Hkc Hkd Hf HI. unfold abd_raidz_gen_iterate. destruct (its_init k cabds) as [Hci Hcf]; [eapply Forall_impl; [exact Hc|by intros a [? _]]|].
  assert (Hc' : Forall (fun a => csize <= abd_size a) cabds) by (eapply Forall_impl; [exact Hc|by intros a [_ ?]]).
  assert (Hdi : data_at dabd dsize (abd_iter_init <$> dabd) 0 /\ 0 <= dsize /\ (data_entries (abd_iter_init <$> dabd) (dsize - 0) <= match dabd with Some a => iter_fuel a | None => 0 end)%nat).
  { destruct dabd as [a|]; cbn; [|by subst]. destruct Hd as (Hwf & Hk & ->). destruct (it_init a Hwf) as [Hit Esg]. pose proof (aw_size a Hwf). split_and!; [done| |lia|].
    - intros _. split_and!; [done|by apply multiple_init|]. unfold abd_iter_init. by destruct (abd_u a).
    - rewrite Esg, iter_fuel_sgs. destruct (0 <? _); lia. }
  destruct Hdi as (Hdi & Hds & Hdf).
  assert (Hg : forall fuel pos cits dit s, its_at k cabds cits pos -> data_at dabd dsize dit pos -> 0 <= pos <= csize -> (k | pos) ->
    (entries cits + data_entries dit (dsize - pos) <= fuel)%nat -> I pos s ->
    exists s', gen_loop f fuel cits dit (csize - pos) (Z.max 0 (dsize - pos)) s = Ok s' /\ I csize s').
  2:{ apply (Hg (iters_fuel cabds + match dabd with Some a => iter_fuel a | None => 0 end)%nat 0 _ _ s Hci Hdi) in HI; [|lia|apply Z.divide_0_r|lia].
      by replace (Z.max 0 (dsize - 0)) with dsize in HI by lia; rewrite Z.sub_0_r in HI. }
  clear s HI Hci Hdi Hdf Hcf. induction fuel as [|fuel IH]; intros pos cits dit s Hci Hdi Hp Hkp Hfuel HI.
  - cbn [gen_loop]. destruct (Z.ltb_spec 0 (csize - pos)) as [Hlt|Hge]; [|exists s; split; [done|]; by replace csize with pos by lia].
    exfalso. destruct Hci as [|a it bufs its (Hit & _ & Epos) _]; [done|]. unfold entries in Hfuel. cbn [fmap list_fmap list_sum foldr] in Hfuel.
    apply Forall_cons in Hc' as [Hsz _]. assert (E : it_sgs it = []) by (destruct (it_sgs it); [done|cbn in Hfuel; lia]). apply (it_sgs_empty a) in E; [lia|done].
  - destruct (decide (pos = csize)) as [->|Hne']; [exists s; split; [cbn [gen_loop]; by rewrite Z.sub_diag|done]|].
    destruct (gen_step f cabds dabd csize dsize fuel cits dit pos s) as (cs & dp & n & Hn & Hle & Hkn & Hcon & Hdcon & Hstep); [done..|lia|by apply Z.divide_sub_r|done|done|done|].
    destruct (Hf pos cs dp n s) as (s' & E & HI'); [lia|done|done|done|done|done|done|done|]. destruct (Hstep s' E) as (cits' & dit' & Hci' & Hdi' & -> & Hless).
    destruct Hless as [Eend|Hless].
    + rewrite Eend in HI'. rewrite Eend, Z.sub_diag. exists s'. split; [by destruct fuel|done].
    + apply IH; [done|done|lia|by apply Z.divide_add_r|lia|done].
Qed.

End RaidzRules.

(** ** Lanes that do not meet *)

Definition lane_inj (l : lane) (hi : Z) : Prop := forall i j, 0 <= i < hi -> 0 <= j < hi -> l i = l j -> i = j.

Lemma ptr_lane_inj p hi : lane_inj (ptr_add p) hi.
Proof. intros i j _ _ E. injection E. lia. Qed.

Lemma abd_lane_inj a : abd_wf a -> NoDup (locs a) -> lane_inj (abd_lane a) (abd_size a).
Proof.
  intros Hwf Hnd i j Hi Hj E. rewrite locs_lane in Hnd by done.
  enough (Z.to_nat i = Z.to_nat j) by lia. apply (NoDup_lookup _ _ _ (abd_lane a i) Hnd).
  - rewrite list_lookup_fmap, lookup_seqZ_lt by lia. cbn. f_equal. f_equal. lia.
  - rewrite E, list_lookup_fmap, lookup_seqZ_lt by lia. cbn. f_equal. f_equal. lia.
Qed.

Lemma apart_sym l l' hi hi' : apart l l' hi hi' -> apart l' l hi' hi.
Proof. intros H i j Hi Hj E. by apply (H j i). Qed.

Lemma apart_sub l l' hi hi' h h' : apart l l' hi hi' -> h <= hi -> h' <= hi' -> apart l l' h h'.
Proof. intros H H1 H2 i j Hi Hj. apply H; lia. Qed.

Lemma separate_nil hi : separate [] hi.
Proof. intros a b l l' i j H. by rewrite lookup_nil in H. Qed.

Lemma separate_cons l ls hi : lane_inj l hi -> Forall (fun l' => apart l l' hi hi) ls -> separate ls hi -> separate (l :: ls) hi.
Proof.
  intros Hi Ha Hs a b l1 l2 i j H1 H2 Hir Hjr E. rewrite Forall_forall in Ha.
  destruct a as [|a], b as [|b]; cbn in H1, H2; try (injection H1 as <-); try (injection H2 as <-).
  - split; [done|]. by apply Hi.
  - exfalso. apply (Ha l2 (list_elem_of_lookup_2 _ _ _ H2) i j); done.
  - exfalso. apply (Ha l1 (list_elem_of_lookup_2 _ _ _ H1) j i); done.
  - destruct (Hs a b l1 l2 i j) as [-> ->]; done.
Qed.

(** A lane whose bytes already have the new values. *)
Lemma swept_pad m l w ts lo hi m' : swept m ts lo hi m' -> reads m' l lo hi w -> swept m ((l, w) :: ts) lo hi m'.
Proof.
  intros [N O] Hr. constructor.
  - intros l' w' [[= -> ->]|Hin]%elem_of_cons; [done|by apply N].
  - intros x Hx. apply O. intros l' w' Hin. apply (Hx l' w'). by right.
Qed.

(** New values for the same lanes. *)
Lemma swept_lanes m ts ts' lo hi m1 m2 : swept m ts lo hi m1 -> swept m1 ts' lo hi m2 -> fst <$> ts = fst <$> ts' -> swept m ts' lo hi m2.
Proof.
  intros [N1 O1] [N2 O2] E. constructor; [done|]. intros x Hx. rewrite O2 by done. apply O1. intros l w Hin.
  assert (Hl : l ∈ fst <$> ts') by (rewrite <- E; apply list_elem_of_fmap; by exists (l, w)). apply list_elem_of_fmap in Hl as ([l' w'] & -> & Hin'). by apply (Hx l' w').
Qed.

(** Closes the goals about distinct locations, from hypotheses [apart]. *)
Ltac apart_solve :=
  match goal with
  | H : apart ?l ?l' _ _ |- ?l ?i <> ?l' ?j => apply H; lia
  | H : apart ?l' ?l _ _ |- ?l ?i <> ?l' ?j => apply not_eq_sym, H; lia
  | H : lane_inj ?l _ |- ?l ?i <> ?l ?j => let E := fresh in intros E; apply H in E; lia
  | |- ptr_add ?l ?i <> ptr_add ?l ?j => let E := fresh in intros E; injection E; lia
  end.

Ltac off_lanes :=
  let l := fresh "l" in let w := fresh "w" in let i := fresh "i" in let j := fresh "j" in let Hin := fresh "Hin" in
  intros l w i j Hin ? ?; repeat (apply elem_of_cons in Hin as [[= -> ->]|Hin]; [apart_solve|]); by apply elem_of_nil in Hin.

Ltac separated := repeat (apply separate_cons; [first [apply ptr_lane_inj | done]|repeat (apply Forall_cons; split; [done || (by apply apart_sym)|]); apply Forall_nil; done|]); apply separate_nil.

Ltac cross_lanes :=
  let l := fresh "l" in let w := fresh "w" in let l' := fresh "l" in let w' := fresh "w" in let i := fresh "i" in let j := fresh "j" in
  let Hin := fresh "Hin" in let Hin' := fresh "Hin" in
  intros l w l' w' i j Hin Hin' ? ?;
  repeat (apply elem_of_cons in Hin as [[= -> ->]|Hin];
    [repeat (apply elem_of_cons in Hin' as [[= -> ->]|Hin']; [apart_solve|]); by apply elem_of_nil in Hin'|]);
  by apply elem_of_nil in Hin.

(** ** Copies of lanes *)

Lemma memcpy_lane m d s n dl sl pos w :
  0 < n -> contig dl pos d n -> contig sl pos s n -> mapped m dl pos (pos + n) -> reads m sl pos (pos + n) w ->
  exists m', memcpy m d s n = Ok m' /\ swept m [(dl, w)] pos (pos + n) m'.
Proof. intros Hn Hd Hs Hm Hr. unfold memcpy. rewrite (load_lane m sl pos s n w) by done. cbn [mbind res_bind]. by apply store_lane. Qed.

Lemma memset_lane m d n dl pos c :
  0 < n -> contig dl pos d n -> mapped m dl pos (pos + n) -> exists m', memset m d c n = Ok m' /\ swept m [(dl, fun _ => c)] pos (pos + n) m'.
Proof.
  intros Hn Hd Hm. unfold memset. replace (replicate (Z.to_nat n) c) with ((fun _ : Z => c) <$> seqZ pos n); [by apply store_lane|].
  apply list_eq_Forall2, Forall2_same_length_lookup_2; [by rewrite length_fmap, length_seqZ, length_replicate|]. intros i x y Hx Hy.
  apply lookup_replicate in Hy as [-> _]. rewrite list_lookup_fmap in Hx. destruct (seqZ pos n !! i); [|done]. by injection Hx as <-.
Qed.

(** No byte is copied. *)
Lemma memcpy_none m d s N : 0 < N -> mapped m (ptr_add d) 0 N -> mapped m (ptr_add s) 0 N -> memcpy m d s 0 = Ok m.
Proof.
  assert (Hblk : forall p, 0 < N -> mapped m (ptr_add p) 0 N -> exists bs, m !! p_blk p = Some bs /\ 0 <= p_off p <= Z.of_nat (length bs)).
  { intros p HN Hm. destruct (Hm 0 ltac:(lia)) as [x Hx]. rewrite ptr_add_0 in Hx. unfold mbyte in Hx. destruct (m !! p_blk p) as [bs|] eqn:E; [|done]. cbn in Hx. exists bs. split; [done|].
    destruct (Z.leb_spec 0 (p_off p)); [|done]. apply lookup_lt_Some in Hx. lia. }
  intros HN Hd Hs. destruct (Hblk d HN Hd) as (bd & Ed & Hbd). destruct (Hblk s HN Hs) as (bs & Es & Hbs).
  unfold memcpy, load, store. rewrite Es. cbn [deref mbind res_bind]. rewrite (proj2 (Z.leb_le 0 (p_off s))), (proj2 (Z.leb_le (p_off s + 0) _)) by lia. cbn [andb mbind res_bind].
  change (Z.to_nat 0) with 0%nat. rewrite take_0, Ed. cbn [deref mbind res_bind length]. rewrite (proj2 (Z.leb_le 0 (p_off d))), (proj2 (Z.leb_le (p_off d + _) _)) by lia. cbn [andb list_inserts].
  by rewrite insert_id.
Qed.

Section Copies.

Context (m : mem) (a : abd) (size : Z).
Hypothesis Hwf : abd_wf a.
Hypothesis Hsize : 0 <= size <= abd_size a.

Lemma multiple_1 b : abd_multiple 1 b.
Proof. split_and!; [apply Z.divide_1_l..|]. apply Forall_true. intros s. apply Z.divide_1_l. Qed.

Lemma copy_to_buf_lane p w :
  reads m (abd_lane a) 0 size w -> mapped m (ptr_add p) 0 size -> apart (ptr_add p) (abd_lane a) size size ->
  exists m', abd_copy_to_buf_off m p a 0 size = Ok m' /\ swept m [(ptr_add p, w)] 0 size m'.
Proof using Hwf Hsize.
  intros Hr Hm Ha. assert (Hsep : separate [ptr_add p] size) by separated. unfold abd_copy_to_buf_off.
  destruct (iterate_inv 1 (fun pos s => swept m [(ptr_add p, w)] 0 pos s.1 /\ s.2 = ptr_add p pos) abd_copy_to_buf_off_cb a 0 size (m, p)) as ([m' s] & E & Hsw & _);
    [done|apply multiple_1|unfold part_ok; lia|apply Z.divide_1_l..| |split; [apply swept_empty|by rewrite ptr_add_0]|rewrite E; by exists m'].
  intros pos b n [m1 p1] Hpos Hn Hle _ _ Hc [Hsw Ep]. cbn [fst snd] in *. subst p1. unfold abd_copy_to_buf_off_cb.
  destruct (memcpy_lane m1 (ptr_add p pos) b n (ptr_add p) (abd_lane a) pos w) as (m2 & E2 & Hsw2); [done|apply contig_ptr|done| | |].
  - eapply swept_mapped; [exact Hsw|eapply mapped_sub; [exact Hm|lia|lia]|off_lanes].
  - eapply swept_reads; [exact Hsw|eapply reads_sub; [exact Hr|lia|lia]|off_lanes].
  - rewrite E2. cbn [mbind res_bind]. eexists. split; [done|]. cbn [fst snd]. rewrite ptr_add_add. split; [|done]. eapply swept_trans; [done..|lia|lia].
Qed.

Lemma copy_from_buf_lane p w :
  lane_inj (abd_lane a) size -> reads m (ptr_add p) 0 size w -> mapped m (abd_lane a) 0 size -> apart (abd_lane a) (ptr_add p) size size ->
  exists m', abd_copy_from_buf_off m a p 0 size = Ok m' /\ swept m [(abd_lane a, w)] 0 size m'.
Proof using Hwf Hsize.
  intros Hi Hr Hm Ha. assert (Hsep : separate [abd_lane a] size) by separated. unfold abd_copy_from_buf_off.
  destruct (iterate_inv 1 (fun pos s => swept m [(abd_lane a, w)] 0 pos s.1 /\ s.2 = ptr_add p pos) abd_copy_from_buf_off_cb a 0 size (m, p)) as ([m' s] & E & Hsw & _);
    [done|apply multiple_1|unfold part_ok; lia|apply Z.divide_1_l..| |split; [apply swept_empty|by rewrite ptr_add_0]|rewrite E; by exists m'].
  intros pos b n [m1 p1] Hpos Hn Hle _ _ Hc [Hsw Ep]. cbn [fst snd] in *. subst p1. unfold abd_copy_from_buf_off_cb.
  destruct (memcpy_lane m1 b (ptr_add p pos) n (abd_lane a) (ptr_add p) pos w) as (m2 & E2 & Hsw2); [done|done|apply contig_ptr| | |].
  - eapply swept_mapped; [exact Hsw|eapply mapped_sub; [exact Hm|lia|lia]|off_lanes].
  - eapply swept_reads; [exact Hsw|eapply reads_sub; [exact Hr|lia|lia]|off_lanes].
  - rewrite E2. cbn [mbind res_bind]. eexists. split; [done|]. cbn [fst snd]. rewrite ptr_add_add. split; [|done]. eapply swept_trans; [done..|lia|lia].
Qed.

Lemma copy_lane d w :
  abd_wf d -> size <= abd_size d -> lane_inj (abd_lane d) size -> reads m (abd_lane a) 0 size w -> mapped m (abd_lane d) 0 size -> apart (abd_lane d) (abd_lane a) size size ->
  exists m', abd_copy_off m d a 0 0 size = Ok m' /\ swept m [(abd_lane d, w)] 0 size m'.
Proof using Hwf Hsize.
  intros Hd Hs Hi Hr Hm Ha. assert (Hsep : separate [abd_lane d] size) by separated. unfold abd_copy_off.
  destruct (iterate2_inv 1 (fun pos s => swept m [(abd_lane d, w)] 0 pos s) abd_copy_off_cb d a 0 0 size m) as (m' & E & Hsw);
    [done|done|apply multiple_1|apply multiple_1|unfold part_ok; lia|unfold part_ok; lia|apply Z.divide_1_l..| |apply swept_empty|rewrite E; by exists m'].
  intros pos b c n m1 Hpos Hn Hle _ _ Hc Hc' Hsw. unfold abd_copy_off_cb.
  destruct (memcpy_lane m1 b c n (abd_lane d) (abd_lane a) pos w) as (m2 & E2 & Hsw2); [done|done|done| | |].
  - eapply swept_mapped; [exact Hsw|eapply mapped_sub; [exact Hm|lia|lia]|off_lanes].
  - eapply swept_reads; [exact Hsw|eapply reads_sub; [exact Hr|lia|lia]|off_lanes].
  - rewrite E2. cbn [mbind res_bind]. eexists. split; [done|]. eapply swept_trans; [done..|lia|lia].
Qed.

End Copies.

Lemma zero_lane m a off size :
  abd_wf a -> part_ok a off size -> lane_inj (abd_lane a) (abd_size a) -> mapped m (abd_lane a) off (off + size) ->
  exists m', abd_zero_off m a off size = Ok m' /\ swept m [(abd_lane a, fun _ => 0)] off (off + size) m'.
Proof.
  intros Hwf Hp Hi Hm. pose proof Hp as (Ho & Hs & He). assert (Hsep : separate [abd_lane a] (abd_size a)) by separated. unfold abd_zero_off.
  destruct (iterate_inv 1 (fun pos s => swept m [(abd_lane a, fun _ => 0)] off (off + pos) s) abd_zero_off_cb a off size m) as (m' & E & Hsw);
    [done|apply multiple_1|done|apply Z.divide_1_l..| |rewrite Z.add_0_r; apply swept_empty|rewrite E; by exists m'].
  intros pos b n m1 Hpos Hn Hle _ _ Hc Hsw. unfold abd_zero_off_cb.
  destruct (memset_lane m1 b n (abd_lane a) (off + pos) 0) as (m2 & E2 & Hsw2); [done|done| |].
  - eapply swept_mapped; [exact Hsw|eapply mapped_sub; [exact Hm|lia|lia]|off_lanes].
  - rewrite E2. cbn [mbind res_bind]. eexists. split; [done|]. rewrite Z.add_assoc. eapply swept_trans; [done..|lia|lia].
Qed.
