(* ===== verification/RaidzMap.v ===== *)
(** * The map of a RAID-Z block: [module/zfs/vdev_raidz.c]

    A RAID-Z device spreads the sectors of its address space over its children
    row by row.  A block takes a run of these sectors; [vdev_raidz_map_alloc]
    cuts the run into columns, one for each child it touches, the first ones for
    parity.  The columns are proved to be that run, and the space that the
    allocator reserves for a block to be what its map covers. *)

From stdpp Require Import gmap.
From S2P Require Import Prelude Bits Memory Abd.

Definition VDEV_RAIDZ_MAXPARITY : Z := 3.

(** [rc_gdata], and the fields of the map that only the error reports use, are
    left out. *)
Record raidz_col : Type := RaidzCol {
  rc_devidx : Z;
  rc_offset : Z;
  rc_size : Z;
  rc_abd : option abd;
  rc_error : Z;
  rc_tried : bool;
  rc_skipped : bool
}.

Record raidz_map : Type := RaidzMap {
  rm_cols : Z;
  rm_scols : Z;
  rm_bigcols : Z;
  rm_asize : Z;
  rm_missingdata : Z;
  rm_missingparity : Z;
  rm_firstdatacol : Z;
  rm_nskip : Z;
  rm_skipstart : Z;
  rm_ecksuminjected : bool;
  rm_col : list raidz_col
}.

Definition set_rc_abd (rc : raidz_col) (a : option abd) : raidz_col :=
  RaidzCol (rc_devidx rc) (rc_offset rc) (rc_size rc) a (rc_error rc) (rc_tried rc) (rc_skipped rc).
Definition set_rc_size (rc : raidz_col) (size : Z) : raidz_col :=
  RaidzCol (rc_devidx rc) (rc_offset rc) size (rc_abd rc) (rc_error rc) (rc_tried rc) (rc_skipped rc).
Definition set_rc_error (rc : raidz_col) (error : Z) : raidz_col :=
  RaidzCol (rc_devidx rc) (rc_offset rc) (rc_size rc) (rc_abd rc) error (rc_tried rc) (rc_skipped rc).
Definition set_rm_col (rm : raidz_map) (cols : list raidz_col) : raidz_map :=
  RaidzMap (rm_cols rm) (rm_scols rm) (rm_bigcols rm) (rm_asize rm) (rm_missingdata rm) (rm_missingparity rm) (rm_firstdatacol rm)
    (rm_nskip rm) (rm_skipstart rm) (rm_ecksuminjected rm) cols.
Definition set_rm_skipstart (rm : raidz_map) (c : Z) : raidz_map :=
  RaidzMap (rm_cols rm) (rm_scols rm) (rm_bigcols rm) (rm_asize rm) (rm_missingdata rm) (rm_missingparity rm) (rm_firstdatacol rm)
    (rm_nskip rm) c (rm_ecksuminjected rm) (rm_col rm).

(** The macro of the C library. *)
Definition roundup (x y : Z) : Z := (x + (y - 1)) / y * y.

(** ** The columns *)

Section Geometry.

Variables (io_offset io_size ashift dcols nparity : Z).

Definition stripe_q : Z := Z.shiftr io_size ashift / (dcols - nparity).
Definition stripe_r : Z := Z.shiftr io_size ashift - stripe_q * (dcols - nparity).
Definition stripe_bc : Z := if stripe_r =? 0 then 0 else stripe_r + nparity.
Definition stripe_tot : Z := Z.shiftr io_size ashift + nparity * (stripe_q + (if stripe_r =? 0 then 0 else 1)).
Definition stripe_acols : Z := if stripe_q =? 0 then stripe_bc else dcols.
Definition stripe_scols : Z := if stripe_q =? 0 then Z.min dcols (roundup stripe_bc (nparity + 1)) else dcols.

(** The body of the loop over the columns. *)
Definition raidz_col_init (c : Z) : raidz_col :=
  let b := Z.shiftr io_offset ashift in
  let f := b mod dcols in
  let o := wrap64 (Z.shiftl (b / dcols) ashift) in
  let col := f + c in
  let coff := o in
  let '(col, coff) := if dcols <=? col then (col - dcols, wrap64 (coff + Z.shiftl 1 ashift)) else (col, coff) in
  RaidzCol col coff
    (if stripe_acols <=? c then 0
     else if c <? stripe_bc then wrap64 (Z.shiftl (stripe_q + 1) ashift) else wrap64 (Z.shiftl stripe_q ashift))
    None 0 false false.

(** The map before its buffers are allocated. *)
Definition raidz_map_init : raidz_map :=
  let cols := raidz_col_init <$> seqZ 0 stripe_scols in
  let asize := wrap64 (zsum rc_size cols) in
  RaidzMap stripe_acols stripe_scols stripe_bc (wrap64 (roundup asize (Z.shiftl (nparity + 1) ashift))) 0 0 nparity
    (roundup stripe_tot (nparity + 1) - stripe_tot) stripe_bc false cols.

(** [if (rm->rm_firstdatacol == 1 && (zio->io_offset & (1ULL << 20)))] *)
Definition raidz_map_swap (rm : raidz_map) : res raidz_map :=
  if (rm_firstdatacol rm =? 1) && negb (Z.land io_offset (Z.shiftl 1 20) =? 0) then
    c0 ← deref (rm_col rm !! 0%nat); c1 ← deref (rm_col rm !! 1%nat);
    let c0' := RaidzCol (rc_devidx c1) (rc_offset c1) (rc_size c0) (rc_abd c0) (rc_error c0) (rc_tried c0) (rc_skipped c0) in
    let c1' := RaidzCol (rc_devidx c0) (rc_offset c0) (rc_size c1) (rc_abd c1) (rc_error c1) (rc_tried c1) (rc_skipped c1) in
    let rm := set_rm_col rm (<[1%nat := c1']> (<[0%nat := c0']> (rm_col rm))) in
    Ok (if rm_skipstart rm =? 0 then set_rm_skipstart rm 1 else rm)
  else Ok rm.

End Geometry.

(** ** The buffers *)

Section Alloc.

Variable kmem_alloc : mem -> Z -> Z * list Z.

(** [for (c = 0; c < rm->rm_firstdatacol; c++) rc_abd = abd_alloc_linear(...)] *)
Fixpoint alloc_parity (m : mem) (n : nat) (cols : list raidz_col) : res (list raidz_col * mem) :=
  match n with
  | O => Ok (cols, m)
  | S n' =>
      match cols with
      | [] => Panic
      | rc :: cols' =>
          '(a, m) ← abd_alloc_linear kmem_alloc m (rc_size rc) false;
          '(cols', m) ← alloc_parity m n' cols';
          Ok (set_rc_abd rc (Some a) :: cols', m)
      end
  end.

(** The data columns are windows of the buffer of the block, one after another. *)
Fixpoint data_windows (io_abd : abd) (off : Z) (n : nat) (cols : list raidz_col) : res (list raidz_col * abd) :=
  match n with
  | O => Ok (cols, io_abd)
  | S n' =>
      match cols with
      | [] => Panic
      | rc :: cols' =>
          '(a, io_abd) ← abd_get_offset_size io_abd off (rc_size rc);
          '(cols', io_abd) ← data_windows io_abd (off + rc_size rc) n' cols';
          Ok (set_rc_abd rc (Some a) :: cols', io_abd)
      end
  end.

Definition vdev_raidz_map_alloc (m : mem) (io_abd : abd) (io_offset io_size ashift dcols nparity : Z) : res (raidz_map * abd * mem) :=
  let rm := raidz_map_init io_offset io_size ashift dcols nparity in
  '(cols, m) ← alloc_parity m (Z.to_nat (rm_firstdatacol rm)) (rm_col rm);
  let '(pcols, dcols') := (take (Z.to_nat (rm_firstdatacol rm)) cols, drop (Z.to_nat (rm_firstdatacol rm)) cols) in
  '(dcols', io_abd) ← data_windows io_abd 0 (Z.to_nat (rm_cols rm - rm_firstdatacol rm)) dcols';
  rm ← raidz_map_swap io_offset (set_rm_col rm (pcols ++ dcols'));
  Ok (rm, io_abd, m).

End Alloc.

Section Free.

Variable PAGESHIFT : Z.

Fixpoint free_parity (m : mem) (cols : list raidz_col) : res mem :=
  match cols with
  | [] => Ok m
  | rc :: cols' => a ← deref (rc_abd rc); m ← abd_free PAGESHIFT m a; free_parity m cols'
  end.

Fixpoint put_data (io_abd : option abd) (cols : list raidz_col) : res (option abd) :=
  match cols with
  | [] => Ok io_abd
  | rc :: cols' => a ← deref (rc_abd rc); put_data (abd_put a io_abd) cols'
  end.

(** The windows of the data count in the buffer of the block. *)
Definition vdev_raidz_map_free (m : mem) (rm : raidz_map) (io_abd : option abd) : res (option abd * mem) :=
  m ← free_parity m (take (Z.to_nat (rm_firstdatacol rm)) (rm_col rm));
  io_abd ← put_data io_abd (take (Z.to_nat (rm_cols rm - rm_firstdatacol rm)) (drop (Z.to_nat (rm_firstdatacol rm)) (rm_col rm)));
  Ok (io_abd, m).

End Free.

(** [psize] bytes, as the allocator reserves them. *)
Definition vdev_raidz_asize (ashift cols nparity psize : Z) : Z :=
  let asize := Z.shiftr (wrap64 (psize - 1)) ashift + 1 in
  let asize := wrap64 (asize + nparity * ((asize + cols - nparity - 1) / (cols - nparity))) in
  wrap64 (Z.shiftl (roundup asize (nparity + 1)) ashift).

(** Whether a block touches a child with a dirty log; [vdev_dtl_empty] of a child
    is a parameter. *)
Definition vdev_raidz_need_resilver (dtl_empty : Z -> bool) (dcols nparity ashift offset psize : Z) : bool :=
  let b := Z.shiftr offset ashift in
  let s := Z.shiftr (wrap64 (psize - 1)) ashift + 1 in
  let f := b mod dcols in
  if dcols <=? s + nparity then true
  else existsb (fun c => negb (dtl_empty ((f + c) mod dcols))) (seqZ 0 (s + nparity)).

(** ** The children a write goes to *)

(** The I/Os of [vdev_raidz_io_start]: child, offset, size. *)
Definition data_ios (rm : raidz_map) : list (Z * Z * Z) :=
  (fun rc => (rc_devidx rc, rc_offset rc, rc_size rc)) <$> take (Z.to_nat (rm_cols rm)) (rm_col rm).

(** [for (c = rm->rm_skipstart, i = 0; i < rm->rm_nskip; c++, i++)] *)
Fixpoint skip_ios (rm : raidz_map) (ashift c : Z) (n : nat) : res (list (Z * Z * Z)) :=
  match n with
  | O => Ok []
  | S n' =>
      let c := if c =? rm_scols rm then 0 else c in
      rc ← deref (rm_col rm !! Z.to_nat c);
      ios ← skip_ios rm ashift (c + 1) n';
      Ok ((rc_devidx rc, rc_offset rc + rc_size rc, Z.shiftl 1 ashift) :: ios)
  end.

(** ** The shape of a stripe *)

Lemma roundup_spec x y : 0 < y -> x <= roundup x y < x + y /\ (y | roundup x y).
Proof.
  intros Hy. unfold roundup. split; [|by eexists]. pose proof (Z.div_mod (x + (y - 1)) y ltac:(lia)). pose proof (Z.mod_pos_bound (x + (y - 1)) y ltac:(lia)). lia.
Qed.

(** A sector of the device and the child that holds it. *)
Definition row_sector (dcols n : Z) : Z * Z := (n mod dcols, n / dcols).

(** The sectors of some I/Os, as a child and a sector of the child. *)
Definition io_sectors (ashift : Z) (io : Z * Z * Z) : list (Z * Z) :=
  (fun k => (io.1.1, io.1.2 / 2 ^ ashift + k)) <$> seqZ 0 (io.2 / 2 ^ ashift).

Record geometry_ok (io_offset io_size ashift dcols nparity : Z) : Prop := {
  go_parity : 1 <= nparity <= VDEV_RAIDZ_MAXPARITY;
  go_cols : nparity < dcols <= 255;
  go_ashift : 9 <= ashift <= 16;
  go_offset : 0 <= io_offset < 2 ^ 62;
  go_offset_sector : (2 ^ ashift | io_offset);
  go_size : 0 < io_size <= SPA_MAXBLOCKSIZE;
  go_size_sector : (2 ^ ashift | io_size)
}.

Section Layout.

Context (io_offset io_size ashift dcols nparity : Z).
Hypothesis Hg : geometry_ok io_offset io_size ashift dcols nparity.

Abbreviation sector := (2 ^ ashift).
Abbreviation b := (Z.shiftr io_offset ashift).
Abbreviation s := (Z.shiftr io_size ashift).
Abbreviation q := (stripe_q io_size ashift dcols nparity).
Abbreviation r := (stripe_r io_size ashift dcols nparity).
Abbreviation bc := (stripe_bc io_size ashift dcols nparity).
Abbreviation tot := (stripe_tot io_size ashift dcols nparity).
Abbreviation acols := (stripe_acols io_size ashift dcols nparity).
Abbreviation scols := (stripe_scols io_size ashift dcols nparity).
Abbreviation col := (raidz_col_init io_offset io_size ashift dcols nparity).
Abbreviation rm0 := (raidz_map_init io_offset io_size ashift dcols nparity).

Lemma sector_bounds : 512 <= sector <= 65536.
Proof.
  destruct Hg. change 512 with (2 ^ 9). change 65536 with (2 ^ 16). split; apply Z.pow_le_mono_r; lia.
Qed.

Lemma shiftl_sector x : Z.shiftl x ashift = x * sector.
Proof. destruct Hg. apply Z.shiftl_mul_pow2. lia. Qed.

Lemma size_sectors : io_size = s * sector /\ 1 <= s <= 32768.
Proof.
  pose proof sector_bounds. destruct Hg. rewrite Z.shiftr_div_pow2 by lia. destruct go_size_sector0 as [k E]. rewrite E, Z.div_mul by lia.
  change SPA_MAXBLOCKSIZE with 16777216 in *. split; [done|]. nia.
Qed.

Lemma offset_sectors : io_offset = b * sector /\ 0 <= b < 2 ^ 53.
Proof.
  pose proof sector_bounds. destruct Hg. rewrite Z.shiftr_div_pow2 by lia. destruct go_offset_sector0 as [k E]. rewrite E, Z.div_mul by lia.
  split; [done|]. change (2 ^ 62) with (2 ^ 53 * 512) in *. nia.
Qed.

Lemma stripe_shape : s = q * (dcols - nparity) + r /\ 0 <= r < dcols - nparity /\ 0 <= q <= s.
Proof.
  pose proof size_sectors as [_ Hs]. destruct Hg. unfold stripe_r, stripe_q. pose proof (Z.div_mod s (dcols - nparity) ltac:(lia)).
  pose proof (Z.mod_pos_bound s (dcols - nparity) ltac:(lia)). split; [lia|]. split; [lia|]. split; [apply Z.div_pos; lia|]. apply Z.div_le_upper_bound; nia.
Qed.

Lemma tot_rows : tot = q * dcols + bc /\ 0 <= bc < dcols /\ (bc = 0 \/ nparity < bc) /\ (q = 0 -> nparity < bc).
Proof.
  pose proof stripe_shape as (Es & Hr & Hq). pose proof size_sectors as [_ Hs]. destruct Hg. unfold stripe_tot, stripe_bc. destruct (Z.eqb_spec r 0) as [E|E].
  - rewrite E in Es. split; [rewrite Es at 1; lia|]. split; [lia|]. split; [by left|]. intros Eq. rewrite Eq in Es. lia.
  - split; [rewrite Es at 1; lia|]. split; [lia|]. split; [right; lia|]. lia.
Qed.

Lemma cols_shape : nparity < acols <= scols /\ scols <= dcols.
Proof.
  pose proof tot_rows as (_ & Hb & Hb0 & Hq). destruct Hg. unfold stripe_acols, stripe_scols. destruct (Z.eqb_spec q 0) as [E|]; [|lia].
  pose proof (roundup_spec bc (nparity + 1) ltac:(lia)) as [Hr _]. specialize (Hq E). lia.
Qed.

(** The number of rows of a column. *)
Definition col_rows (c : Z) : Z := if acols <=? c then 0 else if c <? bc then q + 1 else q.

Lemma rows_bound c : 0 <= col_rows c <= 32769.
Proof.
  pose proof stripe_shape as (_ & _ & Hq). pose proof size_sectors as [_ Hs]. unfold col_rows. destruct (acols <=? c), (c <? bc); lia.
Qed.

Lemma rows_spec c k : 0 <= c < dcols -> 0 <= k -> k < col_rows c <-> k * dcols + c < tot.
Proof.
  intros Hc Hk. pose proof tot_rows as (-> & Hb & Hb0 & Hq0). pose proof stripe_shape as (_ & _ & Hq). unfold col_rows, stripe_acols.
  destruct (Z.eqb_spec q 0) as [E|E].
  - rewrite E in *. destruct (Z.leb_spec bc c); [split; nia|]. rewrite (proj2 (Z.ltb_lt c bc)) by done. split; nia.
  - rewrite (proj2 (Z.leb_gt dcols c)) by lia. destruct (Z.ltb_spec c bc); split; nia.
Qed.

(** A column is where the sectors [b + c], [b + c + dcols], ... are. *)
Lemma col_place c : 0 <= c < dcols ->
  rc_devidx (col c) = (b + c) mod dcols /\ rc_offset (col c) = (b + c) / dcols * sector /\ rc_size (col c) = col_rows c * sector.
Proof.
  intros Hc. pose proof sector_bounds. pose proof offset_sectors as [Eb Hb]. pose proof (rows_bound c) as Hrows. pose proof Hg as [].
  assert (Hsmall : forall x, 0 <= x <= 32769 \/ 0 <= x <= b + 1 -> wrap64 (x * sector) = x * sector).
  { intros x Hx. apply Z.mod_small. change (2 ^ 62) with 4611686018427387904 in *. destruct Hx; [nia|]. assert (x * sector <= (b + 1) * sector) by (apply Z.mul_le_mono_nonneg_r; lia). nia. }
  assert (Hsz : rc_size (col c) = col_rows c * sector).
  { pose proof stripe_shape as (_ & _ & Hq). pose proof size_sectors as [_ Hs]. unfold raidz_col_init, col_rows. destruct (if dcols <=? _ then _ else _) as [cc oo].
    cbn [rc_size]. rewrite !shiftl_sector, !Hsmall by lia. by destruct (acols <=? c), (c <? bc). }
  split; [|split; [|done]]; unfold raidz_col_init; set (f := b mod dcols); pose proof (Z.div_mod b dcols ltac:(lia)) as Ed; pose proof (Z.mod_pos_bound b dcols ltac:(lia)) as Hf; fold f in Ed, Hf;
    pose proof (Z.div_pos b dcols ltac:(lia) ltac:(lia)) as Hd; assert (Hdb : b / dcols <= b) by (apply Z.div_le_upper_bound; nia).
  - destruct (Z.leb_spec dcols (f + c)); cbn [rc_devidx]; [apply (Z.mod_unique_pos _ _ (b / dcols + 1))|apply (Z.mod_unique_pos _ _ (b / dcols))]; lia.
  - rewrite !shiftl_sector. destruct (Z.leb_spec dcols (f + c)); cbn [rc_offset].
    + rewrite (Hsmall (b / dcols)) by lia. replace (b / dcols * sector + 1 * sector) with ((b / dcols + 1) * sector) by lia. rewrite Hsmall by lia. f_equal.
      apply (Z.div_unique_pos _ _ _ (f + c - dcols)); lia.
    + rewrite Hsmall by lia. f_equal. apply (Z.div_unique_pos _ _ _ (f + c)); lia.
Qed.

(** ** The sectors of a block *)

Lemma row_sector_add n k : row_sector dcols (n + k * dcols) = (n mod dcols, n / dcols + k).
Proof. destruct Hg. unfold row_sector. rewrite Z_mod_plus_full, Z.div_add by lia. done. Qed.

(** The sectors of a column, counted from the start of the block. *)
Definition col_run (c : Z) : list Z := (fun k => c + k * dcols) <$> seqZ 0 (col_rows c).

Lemma col_sectors c : 0 <= c < dcols ->
  io_sectors ashift (rc_devidx (col c), rc_offset (col c), rc_size (col c)) = (fun n => row_sector dcols (b + n)) <$> col_run c.
Proof.
  intros Hc. pose proof sector_bounds. destruct (col_place c Hc) as (-> & -> & ->). unfold io_sectors, col_run. cbn [fst snd]. rewrite !Z.div_mul by lia.
  rewrite <- list_fmap_compose. apply list_fmap_ext. intros i k _. cbn. by rewrite Z.add_assoc, row_sector_add.
Qed.

Lemma runs_permutation : (seqZ 0 acols ≫= col_run) ≡ₚ seqZ 0 tot.
Proof.
  pose proof tot_rows as (Etot & Hb & _ & _). pose proof cols_shape as [Ha Hs]. pose proof Hg as []. apply NoDup_Permutation.
  - apply NoDup_bind; [| |apply NoDup_seqZ].
    + intros c1 c2 n H1%elem_of_seqZ H2%elem_of_seqZ E1%list_elem_of_fmap E2%list_elem_of_fmap. destruct E1 as (k1 & E1 & Hk1), E2 as (k2 & E2 & Hk2).
      assert (M : c1 = n mod dcols) by (apply (Z.mod_unique_pos _ _ k1); lia). rewrite M. symmetry. apply (Z.mod_unique_pos _ _ k2); lia.
    + intros c _. apply NoDup_fmap_2; [|apply NoDup_seqZ]. intros k1 k2 E. nia.
  - apply NoDup_seqZ.
  - intros n. rewrite list_elem_of_bind, elem_of_seqZ. split.
    + intros (c & (k & -> & Hk%elem_of_seqZ)%list_elem_of_fmap & Hc%elem_of_seqZ). pose proof (proj1 (rows_spec c k ltac:(lia) ltac:(lia)) ltac:(lia)). nia.
    + intros Hn. pose proof (Z.div_mod n dcols ltac:(lia)). pose proof (Z.mod_pos_bound n dcols ltac:(lia)). pose proof (Z.div_pos n dcols ltac:(lia) ltac:(lia)).
      assert (Hk : n / dcols < col_rows (n mod dcols)) by (apply rows_spec; lia). exists (n mod dcols). split.
      * apply list_elem_of_fmap. exists (n / dcols). split; [lia|apply elem_of_seqZ; lia].
      * apply elem_of_seqZ. unfold col_rows in Hk. destruct (Z.leb_spec acols (n mod dcols)); lia.
Qed.

Lemma init_ios : data_ios rm0 = (fun c => (rc_devidx (col c), rc_offset (col c), rc_size (col c))) <$> seqZ 0 acols.
Proof.
  pose proof cols_shape as [Ha Hs]. pose proof Hg as []. unfold data_ios. cbn [rm_cols rm_col raidz_map_init]. rewrite <- fmap_take, take_seqZ by lia.
  by rewrite <- list_fmap_compose.
Qed.

Lemma init_sectors : (data_ios rm0 ≫= io_sectors ashift) ≡ₚ row_sector dcols <$> seqZ b tot.
Proof.
  pose proof cols_shape as [Ha Hs]. rewrite init_ios, list_fmap_bind.
  transitivity ((fun n => row_sector dcols (b + n)) <$> (seqZ 0 acols ≫= col_run)).
  - rewrite fmap_bind. apply reflexive_eq. apply bind_ext. intros c Hc%elem_of_seqZ. apply col_sectors. lia.
  - rewrite runs_permutation. apply reflexive_eq. replace (seqZ b tot) with (Z.add b <$> seqZ 0 tot) by (rewrite fmap_add_seqZ; f_equal; lia). by rewrite <- list_fmap_compose.
Qed.

Lemma init_lookup c : 0 <= c < scols -> rm_col rm0 !! Z.to_nat c = Some (col c).
Proof. intros Hc. cbn [rm_col raidz_map_init]. rewrite list_lookup_fmap, lookup_seqZ_lt by lia. cbn. f_equal. f_equal. lia. Qed.

(** With one parity column the first two columns have the same size. *)
Lemma first_two : nparity = 1 -> col_rows 0 = col_rows 1 /\ 1 < acols.
Proof.
  intros E. pose proof tot_rows as (_ & Hb & Hb0 & Hq0). pose proof cols_shape as [Ha _]. unfold col_rows. rewrite !(proj2 (Z.leb_gt acols _)) by lia.
  split; [|lia]. destruct (Z.ltb_spec 0 bc), (Z.ltb_spec 1 bc); lia.
Qed.

(** The swap exchanges the places of the first two columns. *)
Lemma swap_cases : exists rm, raidz_map_swap io_offset rm0 = Ok rm /\
  (rm = rm0 \/ (nparity = 1 /\ exists c0' c1', rm_col rm = <[1%nat := c1']> (<[0%nat := c0']> (rm_col rm0)) /\
    (rc_devidx c0', rc_offset c0', rc_size c0') = (rc_devidx (col 1), rc_offset (col 1), rc_size (col 1)) /\
    (rc_devidx c1', rc_offset c1', rc_size c1') = (rc_devidx (col 0), rc_offset (col 0), rc_size (col 0)) /\
    rm_cols rm = rm_cols rm0 /\ rm_scols rm = rm_scols rm0 /\ rm_nskip rm = rm_nskip rm0 /\ rm_asize rm = rm_asize rm0 /\
    rm_skipstart rm = (if rm_skipstart rm0 =? 0 then 1 else rm_skipstart rm0))).
Proof.
  unfold raidz_map_swap. cbn [rm_firstdatacol raidz_map_init]. destruct (Z.eqb_spec nparity 1) as [E|]; [|by eexists; split; [|left]]. cbn [andb].
  destruct (negb _); [|by eexists; split; [|left]]. destruct (first_two E) as [Hrows Ha]. pose proof cols_shape as [Ha' Hs]. pose proof Hg as [].
  pose proof (init_lookup 0 ltac:(lia)) as L0. pose proof (init_lookup 1 ltac:(lia)) as L1. change (Z.to_nat 0) with 0%nat in L0. change (Z.to_nat 1) with 1%nat in L1.
  rewrite L0, L1. cbn [deref mbind res_bind].
  destruct (col_place 0 ltac:(lia)) as (_ & _ & E0). destruct (col_place 1 ltac:(lia)) as (_ & _ & E1). rewrite <- Hrows in E1.
  eexists. split; [done|]. right. split; [done|]. eexists _, _. split; [by destruct (rm_skipstart _ =? 0)|]. cbn [rc_devidx rc_offset rc_size]. rewrite E0, E1.
  split_and!; try done; by destruct (_ =? 0).
Qed.

(** ** The sectors left out *)

Lemma nskip_range : 0 <= rm_nskip rm0 <= nparity.
Proof. destruct Hg. cbn [rm_nskip raidz_map_init]. pose proof (roundup_spec tot (nparity + 1) ltac:(lia)) as [Hr _]. lia. Qed.

Lemma rows_short c : bc <= c < scols -> col_rows c = q.
Proof.
  intros Hc. pose proof cols_shape as [_ Hs]. unfold col_rows. rewrite (proj2 (Z.ltb_ge c bc)) by lia. destruct (Z.leb_spec acols c); [|done].
  unfold stripe_acols in *. destruct (Z.eqb_spec q 0); lia.
Qed.

Lemma rows_long c : 0 <= c < bc -> col_rows c = q + 1.
Proof.
  intros Hc. pose proof tot_rows as (_ & Hb & _). unfold col_rows. rewrite (proj2 (Z.ltb_lt c bc)) by lia. rewrite (proj2 (Z.leb_gt acols c)); [done|].
  unfold stripe_acols. destruct (q =? 0); lia.
Qed.

(** An I/O of one sector of the device. *)
Definition sector_io (n : Z) : Z * Z * Z := (n mod dcols, n / dcols * sector, sector).

(** The sector after a column. *)
Lemma after_col c : 0 <= c < dcols -> (rc_devidx (col c), rc_offset (col c) + rc_size (col c), sector) = sector_io (b + c + col_rows c * dcols).
Proof.
  intros Hc. destruct (col_place c Hc) as (-> & -> & ->). unfold sector_io. pose proof (row_sector_add (b + c) (col_rows c)) as E. unfold row_sector in E. injection E as -> ->.
  f_equal. f_equal. lia.
Qed.

(** Only whole rows are followed by the first column again. *)
Lemma scols_full i : 0 <= i < rm_nskip rm0 -> scols <= bc + i -> scols = dcols.
Proof.
  intros Hi Hc. pose proof tot_rows as (Et & Hb & _ & Hq0). cbn [rm_nskip raidz_map_init] in Hi. unfold stripe_scols in *. destruct (Z.eqb_spec q 0) as [E|]; [|done].
  rewrite E in Et. rewrite Et in Hi. replace (0 * dcols + bc) with bc in Hi by lia. lia.
Qed.

Lemma skip_ok n i c :
  0 <= i -> i + Z.of_nat n = rm_nskip rm0 -> (c = bc + i /\ c <= scols) \/ (scols = dcols /\ c = bc + i - dcols /\ 0 <= c) ->
  skip_ios rm0 ashift c n = Ok (sector_io <$> seqZ (b + tot + i) (Z.of_nat n)).
Proof.
  pose proof tot_rows as (Et & Hb & Hb0 & _). pose proof cols_shape as [Ha Hs]. pose proof nskip_range as Hn. pose proof Hg as [].
  revert i c. induction n as [|n IH]; intros i c Hi En Hc; [done|]. cbn [skip_ios]. change (rm_scols rm0) with scols. rewrite shiftl_sector, Z.mul_1_l.
  rewrite (seqZ_cons (b + tot + i)) by lia. cbn [fmap list_fmap]. replace (Z.pred (Z.of_nat (S n))) with (Z.of_nat n) by lia. replace (Z.succ (b + tot + i)) with (b + tot + (i + 1)) by lia.
  assert (Hstep : forall c', 0 <= c' < scols -> b + c' + col_rows c' * dcols = b + tot + i -> (c' + 1 = bc + (i + 1) /\ c' + 1 <= scols) \/ (scols = dcols /\ c' + 1 = bc + (i + 1) - dcols /\ 0 <= c' + 1) ->
    (rc ← deref (rm_col rm0 !! Z.to_nat c'); ios ← skip_ios rm0 ashift (c' + 1) n; Ok ((rc_devidx rc, rc_offset rc + rc_size rc, sector) :: ios)) =
    Ok (sector_io (b + tot + i) :: (sector_io <$> seqZ (b + tot + (i + 1)) (Z.of_nat n)))).
  { intros c' Hc' E Hnext. rewrite init_lookup by done. cbn [deref mbind res_bind]. rewrite (IH (i + 1) (c' + 1)) by (done || lia). cbn [mbind res_bind].
    rewrite after_col by lia. by rewrite E. }
  assert (Hwrap : forall c', scols = dcols -> c' = bc + i - dcols -> 0 <= c' ->
    b + c' + col_rows c' * dcols = b + tot + i).
  { intros c' Ef E Hc'. rewrite rows_long by lia. lia. }
  destruct (Z.eqb_spec c scols) as [E|E].
  - destruct Hc as [[E' _]|(_ & ? & _)]; [|lia]. assert (Ef : scols = dcols) by (apply (scols_full i); lia). apply Hstep; [lia|apply Hwrap; lia|right; lia].
  - destruct Hc as [[E' Hle]|(Ef & E' & Hc0)].
    + apply Hstep; [lia|rewrite rows_short by lia; lia|left; lia].
    + apply Hstep; [lia|by apply Hwrap|right; lia].
Qed.

(** ** The space of a block *)

Lemma roundup_mul x y k : 0 < y -> 0 < k -> roundup (x * k) (y * k) = roundup x y * k.
Proof.
  intros Hy Hk. unfold roundup. rewrite Z.mul_assoc. f_equal. f_equal.
  replace (x * k + (y * k - 1)) with ((x + (y - 1)) * k + (k - 1)) by lia. rewrite (Z.mul_comm y k), <- Z.div_div by lia. rewrite Z.div_add_l by lia.
  rewrite (Z.div_small (k - 1)) by lia. f_equal. lia.
Qed.

Lemma rows_sum : zsum col_rows (seqZ 0 acols) = tot.
Proof.
  pose proof tot_rows as (Et & Hb & _). pose proof stripe_shape as (_ & _ & Hq). pose proof Hg as []. pose proof (Permutation_length runs_permutation) as E. apply (f_equal Z.of_nat) in E.
  rewrite length_bind_zsum, length_seqZ, Z2Nat.id in E by nia. rewrite <- E. apply zsum_ext. intros c _. unfold col_run. rewrite length_fmap, length_seqZ. pose proof (rows_bound c). lia.
Qed.

Lemma sizes_sum : zsum rc_size (rm_col rm0) = tot * sector.
Proof.
  pose proof cols_shape as [Ha Hs]. pose proof Hg as []. cbn [rm_col raidz_map_init]. rewrite zsum_fmap. rewrite (zsum_ext _ (fun c => col_rows c * sector)).
  2:{ intros c Hc%elem_of_seqZ. apply col_place. lia. }
  rewrite zsum_scale, <- rows_sum. f_equal. replace scols with (acols + (scols - acols)) at 1 by lia. rewrite seqZ_app, zsum_app by lia. rewrite (zsum_zero col_rows (seqZ (0 + acols) (scols - acols))); [lia|].
  apply Forall_forall. intros c Hc%elem_of_seqZ. unfold col_rows. by rewrite (proj2 (Z.leb_le acols c)) by lia.
Qed.

Lemma tot_bound : 0 < tot <= 32769 * 255.
Proof.
  pose proof tot_rows as (-> & Hb & _ & Hq0). pose proof stripe_shape as (_ & _ & Hq). pose proof size_sectors as [_ Hs]. pose proof Hg as []. split; [|nia].
  destruct (decide (q = 0)) as [E|]; [specialize (Hq0 E)|]; nia.
Qed.

Lemma asize_init : rm_asize rm0 = (tot + rm_nskip rm0) * sector.
Proof.
  pose proof tot_bound. pose proof sector_bounds. pose proof Hg as []. pose proof nskip_range. cbn [rm_asize rm_nskip raidz_map_init] in *. change (raidz_col_init io_offset io_size ashift dcols nparity <$> seqZ 0 scols) with (rm_col rm0).
  rewrite sizes_sum. change VDEV_RAIDZ_MAXPARITY with 3 in *. assert (E : forall x, 0 <= x <= 32769 * 255 + 3 -> wrap64 (x * sector) = x * sector) by (intros x Hx; apply Z.mod_small; nia).
  rewrite E, shiftl_sector, roundup_mul, E by lia. f_equal. lia.
Qed.

Lemma sectors_up : Z.shiftr (wrap64 (io_size - 1)) ashift + 1 = s.
Proof.
  pose proof sector_bounds. pose proof size_sectors as [Es Hs]. pose proof Hg as []. change SPA_MAXBLOCKSIZE with 16777216 in *. unfold wrap64. rewrite Z.mod_small by (change B64 with 18446744073709551616; lia). rewrite Z.shiftr_div_pow2 by lia.
  enough ((io_size - 1) / sector = s - 1) by lia. symmetry. apply (Z.div_unique_pos _ _ _ (sector - 1)); nia.
Qed.

Lemma asize_alloc : vdev_raidz_asize ashift dcols nparity io_size = (tot + rm_nskip rm0) * sector.
Proof.
  pose proof tot_bound. pose proof sector_bounds. pose proof size_sectors as [Es Hs]. pose proof stripe_shape as (Eq & Hr & Hq). pose proof nskip_range as Hn. pose proof Hg as [].
  unfold vdev_raidz_asize.
  cbv zeta. rewrite sectors_up. assert (E2 : (s + dcols - nparity - 1) / (dcols - nparity) = q + (if r =? 0 then 0 else 1)).
  { symmetry. destruct (Z.eqb_spec r 0) as [E|E]; [apply (Z.div_unique_pos _ _ _ (dcols - nparity - 1))|apply (Z.div_unique_pos _ _ _ (r - 1))]; rewrite ?Eq at 1; lia. }
  rewrite E2. change (s + nparity * (q + (if r =? 0 then 0 else 1))) with tot. rewrite shiftl_sector. cbn [rm_nskip raidz_map_init] in *.
  change VDEV_RAIDZ_MAXPARITY with 3 in *. unfold wrap64. rewrite (Z.mod_small tot) by lia. rewrite Z.mod_small by nia. f_equal. lia.
Qed.

(** ** After the swap *)

Lemma init_two : nparity = 1 -> exists tl, rm_col rm0 = col 0 :: col 1 :: tl.
Proof.
  intros E. pose proof cols_shape as [Ha Hs]. cbn [rm_col raidz_map_init]. rewrite seqZ_cons, seqZ_cons by lia. by eexists.
Qed.

Lemma swap_ios rm : raidz_map_swap io_offset rm0 = Ok rm -> data_ios rm ≡ₚ data_ios rm0.
Proof.
  intros E. destruct swap_cases as (rm' & E' & Hc). rewrite E in E'. injection E' as <-. destruct Hc as [->|(E1 & c0 & c1 & Ecol & E0' & E1' & Ecols & _)]; [done|].
  destruct (init_two E1) as [tl Etl]. pose proof cols_shape as [Ha _]. unfold data_ios. rewrite Ecols, Ecol, Etl. cbn [rm_cols raidz_map_init list_insert insert].
  replace (Z.to_nat acols) with (S (S (Z.to_nat (acols - 2)))) by lia. cbn [take fmap list_fmap]. rewrite E0', E1'. constructor.
Qed.

Lemma swap_skip rm : raidz_map_swap io_offset rm0 = Ok rm ->
  skip_ios rm ashift (rm_skipstart rm) (Z.to_nat (rm_nskip rm)) = Ok (sector_io <$> seqZ (b + tot) (rm_nskip rm0)).
Proof.
  intros E. pose proof nskip_range as Hn. pose proof cols_shape as [Ha Hs]. pose proof tot_rows as (Et & Hb & Hb0 & Hq0).
  assert (H0 : skip_ios rm0 ashift bc (Z.to_nat (rm_nskip rm0)) = Ok (sector_io <$> seqZ (b + tot) (rm_nskip rm0))).
  { rewrite (skip_ok (Z.to_nat (rm_nskip rm0)) 0 bc); [|lia|lia|]; [do 3 f_equal; lia|]. left. split; [lia|]. unfold stripe_acols in Ha. destruct (q =? 0); lia. }
  destruct swap_cases as (rm' & E' & Hc). rewrite E in E'. injection E' as <-. destruct Hc as [->|(E1 & c0 & c1 & Ecol & _ & E1' & _ & Escols & Enskip & _ & Estart)]; [done|].
  rewrite Enskip, Estart. change (rm_skipstart rm0) with bc. destruct (decide (rm_nskip rm0 = 0)) as [En|En]; [by rewrite En|].
  assert (En1 : rm_nskip rm0 = 1) by lia. rewrite En1 in H0 |- *. change (Z.to_nat 1) with 1%nat in *. cbn [skip_ios] in H0 |- *. rewrite Escols. change (rm_scols rm0) with scols in *.
  destruct (Z.eqb_spec bc 0) as [Ez|Ez].
  - rewrite (proj2 (Z.eqb_neq 1 scols)) by lia. rewrite Ez, (proj2 (Z.eqb_neq 0 scols)) in H0 by lia. rewrite init_lookup in H0 by lia. change (Z.to_nat 1) with 1%nat.
    destruct (init_two E1) as [tl Etl]. rewrite Ecol, Etl. cbn [insert list_insert lookup list_lookup deref mbind res_bind] in H0 |- *. injection E1' as -> -> ->. done.
  - assert (Hbs : bc < scols). { pose proof (scols_full 0 ltac:(lia)). destruct (Z_lt_ge_dec bc scols); [done|]. assert (scols = dcols) by (apply H; lia). lia. }
    rewrite (proj2 (Z.eqb_neq bc scols)) in H0 |- * by lia. rewrite Ecol, !list_lookup_insert_ne by lia. exact H0.
Qed.

Lemma sector_io_sectors n : io_sectors ashift (sector_io n) = [row_sector dcols n].
Proof.
  pose proof sector_bounds. unfold io_sectors, sector_io. cbn [fst snd]. rewrite Z.div_mul, Z_div_same_full by lia. change (seqZ 0 1) with [0].
  cbn [fmap list_fmap]. by rewrite Z.add_0_r.
Qed.

Lemma init_devices : NoDup ((fun io : Z * Z * Z => io.1.1) <$> data_ios rm0).
Proof.
  pose proof cols_shape as [Ha Hs]. rewrite init_ios, <- list_fmap_compose. apply NoDup_fmap_2_strong; [|apply NoDup_seqZ].
  intros c1 c2 H1%elem_of_seqZ H2%elem_of_seqZ E. cbn [compose fst] in E. destruct (col_place c1 ltac:(lia)) as (E1 & _), (col_place c2 ltac:(lia)) as (E2 & _). rewrite E1, E2 in E.
  destruct Hg. pose proof (Z.div_mod (b + c1) dcols ltac:(lia)). pose proof (Z.div_mod (b + c2) dcols ltac:(lia)).
  set (k1 := (b + c1) / dcols) in *. set (k2 := (b + c2) / dcols) in *. assert (Ek : c1 - c2 = dcols * (k1 - k2)) by lia. assert (k1 - k2 = 0) by nia. lia.
Qed.

Lemma rows_pos c : 0 <= c < acols -> 0 < col_rows c <= col_rows 0.
Proof.
  intros Hc. pose proof tot_rows as (Et & Hb & Hb0 & Hq0). pose proof stripe_shape as (_ & _ & Hq). pose proof cols_shape as [Ha Hs]. pose proof Hg as [].
  unfold col_rows. rewrite !(proj2 (Z.leb_gt acols _)) by lia. unfold stripe_acols in Hc. destruct (Z.eqb_spec q 0) as [E|E]; destruct (Z.ltb_spec c bc), (Z.ltb_spec 0 bc); lia.
Qed.

Lemma parity_rows c : 0 <= c <= nparity -> col_rows c = q + (if r =? 0 then 0 else 1).
Proof.
  intros Hc. pose proof tot_rows as (Et & Hb & Hb0 & Hq0). pose proof stripe_shape as (_ & Hr & Hq). pose proof cols_shape as [Ha Hs]. unfold col_rows.
  rewrite (proj2 (Z.leb_gt acols c)) by lia. unfold stripe_bc in *. destruct (Z.eqb_spec r 0); [destruct (Z.ltb_spec c 0)|destruct (Z.ltb_spec c (r + nparity))]; lia.
Qed.

(** The data columns have the size of the block. *)
Lemma data_rows : zsum col_rows (seqZ nparity (acols - nparity)) = s.
Proof.
  pose proof rows_sum as E. pose proof cols_shape as [Ha _]. pose proof Hg as []. replace acols with (nparity + (acols - nparity)) in E by lia.
  rewrite seqZ_app, zsum_app in E by lia. rewrite (zsum_const col_rows (q + (if r =? 0 then 0 else 1))) in E by (intros c Hc%elem_of_seqZ; apply parity_rows; lia).
  rewrite length_seqZ, Z2Nat.id, Z.add_0_l in E by lia. unfold stripe_tot in E. lia.
Qed.

Abbreviation data_cols := (take (Z.to_nat (acols - nparity)) (drop (Z.to_nat nparity) (rm_col rm0))).

Lemma init_data : data_cols = col <$> seqZ nparity (acols - nparity).
Proof.
  pose proof cols_shape as [Ha Hs]. pose proof Hg as []. cbn [rm_col raidz_map_init]. rewrite <- fmap_drop, <- fmap_take. f_equal.
  replace scols with (nparity + (acols - nparity + (scols - acols))) by lia. rewrite seqZ_app by lia. rewrite drop_app_length' by (rewrite length_seqZ; lia).
  rewrite seqZ_app by lia. by rewrite take_app_length' by (rewrite length_seqZ; lia).
Qed.

Lemma data_size : zsum rc_size data_cols = io_size.
Proof.
  pose proof cols_shape as [Ha Hs]. pose proof size_sectors as [Es _]. pose proof Hg as []. rewrite init_data, zsum_fmap.
  rewrite (zsum_ext _ (fun c => col_rows c * sector)); [rewrite zsum_scale, data_rows; done|]. intros c Hc%elem_of_seqZ. apply col_place. lia.
Qed.

Lemma col_size c : 0 <= c < acols -> 0 < rc_size (col c) <= rc_size (col 0) /\ (512 | rc_size (col c)) /\ rc_size (col c) <= SPA_MAXBLOCKSIZE.
Proof.
  intros Hc. pose proof sector_bounds. pose proof cols_shape as [Ha Hs]. pose proof Hg as []. pose proof (rows_pos c Hc). pose proof stripe_shape as (Es & Hr & Hq). pose proof size_sectors as [Ez _].
  destruct (col_place c ltac:(lia)) as (_ & _ & ->), (col_place 0 ltac:(lia)) as (_ & _ & ->). split_and!; [nia|nia| |].
  - apply Z.divide_mul_r. change 512 with (2 ^ 9). exists (2 ^ (ashift - 9)). rewrite <- Z.pow_add_r by lia. f_equal. lia.
  - assert (col_rows c <= s); [|nia]. unfold col_rows. destruct (acols <=? c), (c <? bc) eqn:Eb; try nia. apply Z.ltb_lt in Eb. unfold stripe_bc in Eb. destruct (Z.eqb_spec r 0); nia.
Qed.

Lemma cols_sorted c c' : 0 <= c <= c' -> c' < acols -> rc_size (col c') <= rc_size (col c).
Proof.
  intros Hc Hc'. pose proof sector_bounds. pose proof cols_shape as [Ha Hs]. pose proof Hg as []. destruct (col_place c ltac:(lia)) as (_ & _ & ->), (col_place c' ltac:(lia)) as (_ & _ & ->).
  apply Z.mul_le_mono_nonneg_r; [lia|]. unfold col_rows. rewrite !(proj2 (Z.leb_gt acols _)) by lia. destruct (Z.ltb_spec c' bc), (Z.ltb_spec c bc); lia.
Qed.

Lemma parity_size c : 0 <= c <= nparity -> rc_size (col c) = rc_size (col 0).
Proof.
  intros Hc. pose proof Hg as []. destruct (col_place c ltac:(lia)) as (_ & _ & ->), (col_place 0 ltac:(lia)) as (_ & _ & ->). by rewrite !parity_rows by lia.
Qed.

(** A block narrower than the device has a column for each of its sectors. *)
Lemma short_acols : s + nparity < dcols -> acols = s + nparity.
Proof.
  intros H. pose proof stripe_shape as (Es & Hr & Hq). pose proof size_sectors as [_ Hs]. assert (Eq : q = 0) by nia. rewrite Eq in Es.
  unfold stripe_acols, stripe_bc. rewrite Eq. cbn. destruct (Z.eqb_spec r 0); lia.
Qed.

End Layout.

(** ** The buffers of the columns *)

Definition with_abds (cols : list raidz_col) (bufs : list abd) : list raidz_col :=
  zip_with (fun rc a => set_rc_abd rc (Some a)) cols bufs.

(** A buffer of its own block of memory. *)
Definition own_buf (size : Z) (a : abd) : Prop :=
  exists buf, abd_u a = AbdLinear buf /\ p_off buf = 0 /\ abd_size a = size.

Definition abd_blk (a : abd) : Z := match abd_u a with AbdLinear buf => p_blk buf | _ => 0 end.

Lemma linear_locs a buf : abd_u a = AbdLinear buf -> locs a = span buf (abd_size a).
Proof.
  intros E. unfold locs, abd_sgs, abd_off. rewrite E. cbn. rewrite app_nil_r, drop_0. unfold sg_locs. cbn. apply take_ge. rewrite length_span. lia.
Qed.

Lemma linear_wf a buf : abd_u a = AbdLinear buf -> 0 < abd_size a -> abd_wf a.
Proof. intros E H. constructor; unfold abd_sgs, abd_off, sgs_size; rewrite ?E; cbn; try done; try lia. by repeat constructor; unfold sg_ok; cbn. Qed.

Section AllocProofs.

Variable kmem_alloc : mem -> Z -> Z * list Z.
Hypothesis kmem_fresh : forall m n, m !! (kmem_alloc m n).1 = None.
Hypothesis kmem_size : forall m n, length (kmem_alloc m n).2 = Z.to_nat n.

Lemma alloc_parity_ok n m cols :
  (n <= length cols)%nat -> Forall (fun rc => 0 < rc_size rc <= SPA_MAXBLOCKSIZE) (take n cols) ->
  exists bufs m', alloc_parity kmem_alloc m n cols = Ok (with_abds (take n cols) bufs ++ drop n cols, m') /\
    Forall2 (fun rc a => own_buf (rc_size rc) a /\ (exists vs, holds m' (locs a) vs)) (take n cols) bufs /\
    NoDup (abd_blk <$> bufs) /\ Forall (fun a => m !! abd_blk a = None) bufs /\ (forall k, is_Some (m !! k) -> m' !! k = m !! k) /\
    (forall k, is_Some (m' !! k) -> is_Some (m !! k) \/ k ∈ abd_blk <$> bufs).
Proof.
  revert m cols. induction n as [|n IH]; intros m cols Hn Hs.
  { exists [], m. rewrite take_0, drop_0. split_and!; try done; [constructor..|by left]. }
  destruct cols as [|rc cols]; [cbn in Hn; lia|]. cbn [take drop] in *. apply Forall_cons in Hs as [Hrc Hs]. cbn [alloc_parity].
  unfold abd_alloc_linear. rewrite (proj2 (Z.leb_le _ _)) by lia. destruct (alloc_buf kmem_alloc m (rc_size rc)) as [buf m1] eqn:Ea. cbn [mbind res_bind].
  destruct (alloc_buf_ok kmem_alloc kmem_fresh kmem_size m (rc_size rc) buf m1 ltac:(lia) Ea) as (Hoff & Hfree & (bs & Em) & vs & Hvs).
  destruct (IH m1 cols) as (bufs & m2 & E & Hb & Hnd & Hfr & Hold & Hdom); [cbn in Hn; lia|done|]. rewrite E. cbn [mbind res_bind].
  set (a := Abd true false (rc_size rc) 0 (AbdLinear buf)). exists (a :: bufs), m2. split; [done|].
  assert (Hm1 : m1 !! p_blk buf = Some bs) by (rewrite Em; apply lookup_insert_eq). split_and!.
  - constructor; [|done]. split; [by exists buf|]. exists vs. rewrite (linear_locs a buf) by done. eapply holds_ext; [exact Hvs|].
    intros l Hl%elem_of_span. unfold mbyte. destruct Hl as [-> _]. by rewrite Hold by (by rewrite Hm1).
  - cbn [fmap list_fmap]. constructor; [|done]. intros Hin%list_elem_of_fmap. destruct Hin as (a' & Ea' & Hin). rewrite Forall_forall in Hfr. specialize (Hfr a' Hin).
    rewrite <- Ea' in Hfr. change (abd_blk a) with (p_blk buf) in Hfr. congruence.
  - constructor; [exact Hfree|]. eapply Forall_impl; [exact Hfr|]. intros a' Ha'. cbn beta in Ha'. rewrite Em in Ha'. by apply lookup_insert_None in Ha' as [? _].
  - intros k Hk. rewrite Hold; [|rewrite Em; destruct (decide (k = p_blk buf)) as [->|]; [rewrite lookup_insert_eq; by eexists|by rewrite lookup_insert_ne]].
    rewrite Em. apply lookup_insert_ne. intros <-. rewrite Hfree in Hk. by apply is_Some_None in Hk.
  - intros k [Hk|Hk]%Hdom; [|right; by right]. rewrite Em in Hk. destruct (decide (k = p_blk buf)) as [->|]; [right; left|rewrite lookup_insert_ne in Hk by done; by left].
Qed.

End AllocProofs.

Lemma offset_loop_div k n sgl off i l' off' i' :
  offset_loop n sgl off i = Ok (l', off', i') -> (k | off) -> Forall (fun s => (k | sg_length s)) sgl -> (k | off') /\ Forall (fun s => (k | sg_length s)) l'.
Proof.
  revert sgl off i. induction n as [|n IH]; intros sgl off i E Ho Hs; cbn in E; [by injection E as <- <- <-|].
  destruct sgl as [|s sgl]; [done|]. destruct (off <? sg_length s); [by injection E as <- <- <-|].
  apply Forall_cons in Hs as [H1 H2]. apply (IH _ _ _ E); [by apply Z.divide_sub_r|done].
Qed.

Lemma window_multiple k a off size w a' :
  abd_get_offset_size a off size = Ok (w, a') -> abd_multiple k a -> (k | off) -> (k | size) -> abd_multiple k w /\ abd_multiple k a'.
Proof.
  unfold abd_get_offset_size, abd_get_offset_impl. intros E (H1 & H2 & H3) Ho Hs. unfold abd_multiple, abd_off, abd_sgs in *. destruct (abd_u a) as [buf|offset nents sgl] eqn:Eu.
  - cbn in E. injection E as <- <-. cbn. rewrite Eu. split; (split_and!; [done|apply Z.divide_0_r|]); by repeat constructor.
  - destruct (offset_loop _ _ _ _) as [[[l' off'] i']|] eqn:El; [|done]. cbn in E. injection E as <- <-. cbn. rewrite Eu.
    destruct (offset_loop_div k _ _ _ _ _ _ _ El) as [Ho' Hl']; [by apply Z.divide_add_r|done|]. split; split_and!; done.
Qed.

Lemma data_windows_ok k n io off cols :
  abd_wf io -> abd_multiple k io -> wrap64 (abd_children io) = abd_children io -> (k | off) -> (n <= length cols)%nat -> Forall (fun rc => 0 < rc_size rc /\ (k | rc_size rc)) (take n cols) ->
  0 <= off -> off + zsum rc_size (take n cols) <= abd_size io ->
  exists ws io', data_windows io off n cols = Ok (with_abds (take n cols) ws ++ drop n cols, io') /\
    io' = set_abd_children io (abd_children io + zsum rc_size (take n cols)) /\
    Forall2 (fun rc w => abd_wf w /\ abd_multiple k w /\ abd_size w = rc_size rc /\ abd_is_linear w = abd_is_linear io) (take n cols) ws /\
    (w ← ws; locs w) = region io off (zsum rc_size (take n cols)).
Proof.
  revert io off cols. induction n as [|n IH]; intros io off cols Hwf Hk Hch Hoff Hn Hs Ho He.
  { exists [], io. rewrite take_0, drop_0. split_and!; try done; try by constructor. unfold set_abd_children. rewrite Z.add_0_r, Hch. by destruct io. }
  destruct cols as [|rc cols]; [cbn in Hn; lia|]. cbn [take drop] in *. apply Forall_cons in Hs as [[Hrc Hdiv] Hs]. cbn [data_windows].
  change (zsum rc_size (rc :: take n cols)) with (rc_size rc + zsum rc_size (take n cols)) in *. set (z := zsum rc_size (take n cols)) in *.
  assert (Hz : 0 <= z). { unfold z. clear -Hs. induction Hs as [|x l [Hx _] _ IH]; [done|]. change (zsum rc_size (x :: l)) with (rc_size x + zsum rc_size l). lia. }
  destruct (get_offset_impl_ok io off (rc_size rc)) as (w & io1 & E & Hw & Ew & Elw & Elio & _); [done|split_and!; lia|lia|].
  destruct (window_multiple k io off (rc_size rc) w io1 E) as [Hkw Hk1]; [done..|]. pose proof (eq_refl : abd_get_offset_size io off (rc_size rc) = abd_get_offset_impl io off (rc_size rc)) as E'.
  rewrite E', E. cbn [mbind res_bind].
  assert (E1 : io1 = set_abd_children io (abd_children io + rc_size rc)).
  { unfold abd_get_offset_impl in E. destruct (match abd_u io with AbdLinear _ => _ | _ => _ end); [|done]. cbn in E. by injection E as _ <-. }
  assert (Ek : abd_is_linear w = abd_is_linear io).
  { unfold abd_get_offset_impl in E. unfold abd_is_linear. destruct (abd_u io) as [buf|o ne sgl]; [cbn in E; by injection E as <- _|]. destruct (offset_loop _ _ _ _) as [[[? ?] ?]|]; [|done]. cbn in E. by injection E as <- _. }
  assert (Hwf1 : abd_wf io1) by (rewrite E1; destruct Hwf; by constructor). assert (Es1 : abd_size io1 = abd_size io) by (by rewrite E1).
  destruct (IH io1 (off + rc_size rc) cols) as (ws & io' & E2 & El' & Hws & Eloc); [done|done|rewrite E1; apply Z.mod_mod; done|by apply Z.divide_add_r|cbn in Hn; lia|done|lia|rewrite Es1; fold z; lia|].
  rewrite E2. cbn [mbind res_bind]. exists (w :: ws), io'. split; [done|]. split.
  { rewrite El', E1. unfold set_abd_children. cbn [abd_owner abd_meta abd_size abd_children abd_u]. f_equal. unfold wrap64. rewrite Zplus_mod_idemp_l. f_equal. lia. }
  split; [constructor; [done|rewrite E1 in Hws; exact Hws]|].
  cbn [mbind list_bind]. rewrite Elw. change (ws ≫= (fun w => locs w)) with (w ← ws; locs w). rewrite Eloc. fold z. unfold region. rewrite Elio.
  rewrite !Z2Nat.inj_add by lia. by rewrite take_drop_add.
Qed.

(** ** A map and its buffers *)

Definition col_io (rc : raidz_col) : Z * Z * Z := (rc_devidx rc, rc_offset rc, rc_size rc).

(** Maps that differ only in what is not geometry. *)
Record same_geometry (rm rm' : raidz_map) : Prop := {
  sg_cols : rm_cols rm' = rm_cols rm;
  sg_scols : rm_scols rm' = rm_scols rm;
  sg_asize : rm_asize rm' = rm_asize rm;
  sg_first : rm_firstdatacol rm' = rm_firstdatacol rm;
  sg_nskip : rm_nskip rm' = rm_nskip rm;
  sg_skipstart : rm_skipstart rm' = rm_skipstart rm;
  sg_ios : col_io <$> rm_col rm' = col_io <$> rm_col rm
}.

Lemma same_lookup rm rm' i rc : same_geometry rm rm' -> rm_col rm !! i = Some rc -> exists rc', rm_col rm' !! i = Some rc' /\ col_io rc' = col_io rc.
Proof.
  intros [] E. apply (f_equal (fun l => l !! i)) in sg_ios0. rewrite !list_lookup_fmap, E in sg_ios0. destruct (rm_col rm' !! i) as [rc'|]; [|done].
  exists rc'. split; [done|]. by apply (inj Some).
Qed.

Lemma same_data_ios rm rm' : same_geometry rm rm' -> data_ios rm' = data_ios rm.
Proof.
  intros [Ec _ _ _ _ _ E]. unfold data_ios. change (fun rc => (rc_devidx rc, rc_offset rc, rc_size rc)) with col_io. by rewrite !fmap_take, Ec, E.
Qed.

Lemma same_skip_ios rm rm' ashift c n ios : same_geometry rm rm' -> skip_ios rm ashift c n = Ok ios -> skip_ios rm' ashift c n = Ok ios.
Proof.
  intros Hs. revert c ios. induction n as [|n IH]; intros c ios E; [done|]. cbn [skip_ios] in *. rewrite (sg_scols _ _ Hs). set (c' := if c =? rm_scols rm then 0 else c) in *.
  destruct (rm_col rm !! Z.to_nat c') as [rc|] eqn:El; [|done]. destruct (same_lookup _ _ _ _ Hs El) as (rc' & El' & Eio). rewrite El'. cbn [deref mbind res_bind] in *.
  destruct (skip_ios rm ashift (c' + 1) n) as [ios0|] eqn:E0; [|done]. rewrite (IH _ _ E0). cbn [mbind res_bind] in *. injection E as <-. unfold col_io in Eio. by injection Eio as -> -> ->.
Qed.

(** The swap moves the devices and offsets of the first two columns; sizes and
    buffers stay. *)
Lemma swap_same io_offset rm rm' r : same_geometry rm rm' -> raidz_map_swap io_offset rm = Ok r ->
  exists r', raidz_map_swap io_offset rm' = Ok r' /\ same_geometry r r' /\
    rc_abd <$> rm_col r' = rc_abd <$> rm_col rm' /\ rc_size <$> rm_col r' = rc_size <$> rm_col rm'.
Proof.
  intros Hs. unfold raidz_map_swap. rewrite (sg_first _ _ Hs). destruct (_ && _); [|intros [= <-]; by exists rm'].
  destruct (rm_col rm !! 0%nat) as [c0|] eqn:E0; [|done]. destruct (rm_col rm !! 1%nat) as [c1|] eqn:E1; [|done]. cbn [deref mbind res_bind]. intros [= <-].
  destruct (same_lookup _ _ _ _ Hs E0) as (d0 & Ed0 & I0), (same_lookup _ _ _ _ Hs E1) as (d1 & Ed1 & I1). rewrite Ed0, Ed1. cbn [deref mbind res_bind]. eexists. split; [done|].
  destruct Hs. cbn [rm_skipstart set_rm_col]. rewrite sg_skipstart0. unfold col_io in I0, I1. injection I0 as A1 A2 A3. injection I1 as B1 B2 B3.
  assert (Hid : forall {X} (g : raidz_col -> X) i x, rm_col rm' !! i = Some x -> <[i := g x]> (g <$> rm_col rm') = g <$> rm_col rm').
  { intros X g i x E. apply list_insert_id. by rewrite list_lookup_fmap, E. }
  destruct (rm_skipstart rm =? 0); (split; [constructor; try done; cbn [rm_col set_rm_skipstart set_rm_col]; rewrite !list_fmap_insert, sg_ios0; unfold col_io; cbn; by rewrite A1, A2, A3, B1, B2, B3|]);
    cbn [rm_col set_rm_skipstart set_rm_col]; rewrite !list_fmap_insert; cbn [rc_abd rc_size];
    split; by rewrite (Hid _ _ _ _ Ed0), (Hid _ _ _ _ Ed1).
Qed.

(** The size of the longest column, which the parity has. *)
Definition raidz_big (rm : raidz_map) : Z := match rm_col rm with rc :: _ => rc_size rc | [] => 0 end.

(** The buffers [pb] of the parity and [db] of the data of a map. *)
Record raidz_wf (rm : raidz_map) (pb db : list abd) : Prop := {
  rw_first : rm_firstdatacol rm = Z.of_nat (length pb) /\ 1 <= rm_firstdatacol rm <= VDEV_RAIDZ_MAXPARITY;
  rw_cols : rm_cols rm = rm_firstdatacol rm + Z.of_nat (length db) /\ rm_firstdatacol rm < rm_cols rm <= 255;
  rw_abds : rc_abd <$> take (Z.to_nat (rm_cols rm)) (rm_col rm) = Some <$> pb ++ db;
  rw_sizes : rc_size <$> take (Z.to_nat (rm_cols rm)) (rm_col rm) = abd_size <$> pb ++ db;
  rw_big : 0 < raidz_big rm <= SPA_MAXBLOCKSIZE /\ (512 | raidz_big rm);
  rw_pb : Forall (own_buf (raidz_big rm)) pb;
  rw_db : Forall (fun a => abd_wf a /\ abd_multiple 512 a /\ abd_size a <= raidz_big rm) db;
  rw_full : forall a, db !! 0%nat = Some a -> abd_size a = raidz_big rm;
  rw_sorted : forall i j a b, (i <= j)%nat -> db !! i = Some a -> db !! j = Some b -> abd_size b <= abd_size a;
  rw_sep : NoDup ((pb ++ db) ≫= locs);
  rw_kind : forall a b, a ∈ db -> b ∈ db -> abd_is_linear a = abd_is_linear b
}.

Lemma with_abds_fmap {X} (g : raidz_col -> X) cols bufs : (forall rc a, g (set_rc_abd rc a) = g rc) -> length cols = length bufs -> g <$> with_abds cols bufs = g <$> cols.
Proof. intros Hg. revert bufs. induction cols as [|c cols IH]; intros [|x bufs] E; try done. cbn. rewrite Hg. f_equal. apply IH. by injection E. Qed.

Lemma with_abds_abd cols bufs : length cols = length bufs -> rc_abd <$> with_abds cols bufs = Some <$> bufs.
Proof. revert bufs. induction cols as [|c cols IH]; intros [|x bufs] E; try done. cbn. f_equal. apply IH. by injection E. Qed.

Lemma length_with_abds cols bufs : length cols = length bufs -> length (with_abds cols bufs) = length cols.
Proof. intros E. unfold with_abds. rewrite length_zip_with. lia. Qed.

Lemma own_locs size a : own_buf size a -> locs a = span (Ptr (abd_blk a) 0) size.
Proof.
  intros (buf & Eu & Eo & Es). rewrite (linear_locs a buf Eu), Es. unfold abd_blk. rewrite Eu. destruct buf. cbn in *. by rewrite Eo.
Qed.

(** Buffers of distinct blocks are apart. *)
Lemma own_nodup size bufs : Forall (own_buf size) bufs -> NoDup (abd_blk <$> bufs) -> NoDup (bufs ≫= locs).
Proof.
  intros H Hn. induction H as [|a bufs Ha H IH]; [constructor|]. cbn [fmap list_fmap] in Hn. apply NoDup_cons in Hn as [Hni Hn]. cbn [mbind list_bind]. apply NoDup_app.
  rewrite (own_locs size a Ha). split_and!; [apply NoDup_span| |by apply IH]. intros l Hl%elem_of_span (a' & Hl' & Hin)%list_elem_of_bind.
  rewrite Forall_forall in H. rewrite (own_locs size a' (H a' Hin)), elem_of_span in Hl'. cbn in Hl, Hl'. apply Hni, list_elem_of_fmap. exists a'. split; [|done]. by destruct Hl as [<- _], Hl' as [<- _].
Qed.

Section MapAlloc.

Variable kmem_alloc : mem -> Z -> Z * list Z.
Hypothesis kmem_fresh : forall m n, m !! (kmem_alloc m n).1 = None.
Hypothesis kmem_size : forall m n, length (kmem_alloc m n).2 = Z.to_nat n.

Context (io_offset io_size ashift dcols nparity : Z) (io_abd : abd) (m : mem).
Hypothesis Hg : geometry_ok io_offset io_size ashift dcols nparity.
Hypothesis Hwf : abd_wf io_abd.
Hypothesis H8 : abd_multiple 512 io_abd.
Hypothesis Hch : wrap64 (abd_children io_abd) = abd_children io_abd.
Hypothesis Hsz : io_size <= abd_size io_abd.
Hypothesis Hnd : NoDup (locs io_abd).
Hypothesis Hh : exists vs, holds m (locs io_abd) vs.

Abbreviation rm0 := (raidz_map_init io_offset io_size ashift dcols nparity).
Abbreviation col := (raidz_col_init io_offset io_size ashift dcols nparity).
Abbreviation acols := (stripe_acols io_size ashift dcols nparity).
Abbreviation np := (Z.to_nat nparity).
Abbreviation pcols := (take np (rm_col rm0)).
Abbreviation nd := (Z.to_nat (acols - nparity)).
Abbreviation ndcols := (take nd (drop np (rm_col rm0))).

Lemma parity_init : pcols = col <$> seqZ 0 nparity.
Proof.
  destruct (cols_shape _ _ _ _ _ Hg) as [Ha Hs]. destruct Hg. cbn [rm_col raidz_map_init]. by rewrite <- fmap_take, take_seqZ by lia.
Qed.

Lemma length_init : length (rm_col rm0) = Z.to_nat (stripe_scols io_size ashift dcols nparity).
Proof. cbn [rm_col raidz_map_init]. by rewrite length_fmap, length_seqZ. Qed.

Lemma parity_cols_ok : Forall (fun rc => 0 < rc_size rc <= SPA_MAXBLOCKSIZE /\ rc_size rc = rc_size (col 0)) pcols.
Proof.
  rewrite parity_init. apply Forall_fmap, Forall_forall. intros c Hc%elem_of_seqZ. destruct (cols_shape _ _ _ _ _ Hg) as [Ha _].
  cbn [compose]. rewrite (parity_size _ _ _ _ _ Hg c) by lia. destruct Hg. destruct (col_size _ _ _ _ _ Hg 0) as ([? ?] & _ & ?); [lia|]. by split_and!.
Qed.

Lemma data_cols_ok : Forall (fun rc => (0 < rc_size rc /\ (512 | rc_size rc)) /\ rc_size rc <= rc_size (col 0)) ndcols.
Proof.
  rewrite (init_data _ _ _ _ _ Hg). apply Forall_fmap, Forall_forall. intros c Hc%elem_of_seqZ. cbn [compose]. destruct Hg. destruct (col_size _ _ _ _ _ Hg c) as ([? ?] & ? & _); [lia|done].
Qed.

(** The columns with their buffers. *)
Definition map_cols (pb db : list abd) : list raidz_col := with_abds pcols pb ++ with_abds ndcols db ++ drop nd (drop np (rm_col rm0)).

Lemma map_cols_geometry pb db : length pb = np -> length db = nd -> same_geometry rm0 (set_rm_col rm0 (map_cols pb db)).
Proof.
  intros Ep Ed. destruct (cols_shape _ _ _ _ _ Hg) as [Ha Hs]. constructor; try done. cbn [rm_col set_rm_col]. unfold map_cols. pose proof length_init as El. destruct Hg.
  rewrite !fmap_app, !with_abds_fmap; [|done|rewrite length_take, length_drop; lia|done|rewrite length_take; lia].
  by rewrite <- fmap_app, take_drop, <- fmap_app, take_drop.
Qed.

Lemma map_cols_take {X} (g : raidz_col -> X) pb db : length pb = np -> length db = nd ->
  take (Z.to_nat acols) (g <$> map_cols pb db) = (g <$> with_abds pcols pb) ++ (g <$> with_abds ndcols db).
Proof.
  intros Ep Ed. destruct (cols_shape _ _ _ _ _ Hg) as [Ha Hs]. unfold map_cols. pose proof length_init as El. destruct Hg. rewrite !fmap_app, app_assoc. apply take_app_length'.
  rewrite length_app, !length_fmap, !length_with_abds; rewrite !length_take, ?length_drop; lia.
Qed.

(** The map, its buffers, and the memory they are in. *)
Definition map_allocated (rm : raidz_map) (io' : abd) (m' : mem) (pb db : list abd) : Prop :=
  raidz_wf rm pb db /\ (db ≫= locs) = region io_abd 0 io_size /\ io' = set_abd_children io_abd (abd_children io_abd + io_size) /\
  (exists pv, holds m' (pb ≫= locs) pv) /\ (forall l, l ∈ (pb ≫= locs) -> m !! p_blk l = None) /\
  (forall k, is_Some (m !! k) -> m' !! k = m !! k) /\ (forall k, is_Some (m' !! k) -> is_Some (m !! k) \/ k ∈ abd_blk <$> pb) /\
  NoDup (abd_blk <$> pb) /\
  (exists r0, raidz_map_swap io_offset rm0 = Ok r0 /\ same_geometry r0 rm).

Lemma map_wf rm r0 pb db :
  raidz_map_swap io_offset rm0 = Ok r0 -> same_geometry r0 rm -> rc_abd <$> rm_col rm = rc_abd <$> map_cols pb db -> rc_size <$> rm_col rm = rc_size <$> map_cols pb db ->
  Forall2 (fun rc a => own_buf (rc_size rc) a) pcols pb ->
  Forall2 (fun rc w => abd_wf w /\ abd_multiple 512 w /\ abd_size w = rc_size rc /\ abd_is_linear w = abd_is_linear io_abd) ndcols db ->
  NoDup ((pb ++ db) ≫= locs) -> raidz_wf rm pb db.
Proof using Hg.
  intros Er Hs Ea Ez Hp Hd Hn. destruct (cols_shape _ _ _ _ _ Hg) as [Ha Hc]. pose proof length_init as El. pose proof Hg as [].
  pose proof (Forall2_length _ _ _ Hp) as Lp. pose proof (Forall2_length _ _ _ Hd) as Ld. rewrite length_take in Lp. rewrite length_take, length_drop in Ld.
  assert (Lp' : length pb = np) by lia. assert (Ld' : length db = nd) by lia.
  assert (Efirst : rm_cols r0 = acols /\ rm_firstdatacol r0 = nparity).
  { unfold raidz_map_swap in Er. destruct (_ && _); [|by injection Er as <-]. destruct (rm_col rm0 !! 0%nat); [|done]. destruct (rm_col rm0 !! 1%nat); [|done].
    cbn [deref mbind res_bind] in Er. injection Er as <-. by destruct (_ =? 0). }
  destruct Efirst as [Ec Ef]. rewrite <- (sg_cols _ _ Hs) in Ec. rewrite <- (sg_first _ _ Hs) in Ef.
  assert (Eb : raidz_big rm = rc_size (col 0)).
  { unfold raidz_big. pose proof (f_equal (fun l => l !! 0%nat) Ez) as E0. cbn beta in E0. rewrite !list_lookup_fmap in E0. rewrite parity_init in Hp by done. unfold map_cols in E0. rewrite parity_init in E0 by done.
    rewrite (seqZ_cons 0 nparity) in E0, Hp by lia. cbn [fmap list_fmap] in E0, Hp. inversion Hp as [|? a ? pb' Hown Hrest]; subst. cbn in E0.
    destruct (rm_col rm) as [|rc tl]; [done|]. by injection E0. }
  pose proof (parity_cols_ok) as Hpo. pose proof data_cols_ok as Hdo. destruct (col_size _ _ _ _ _ Hg 0) as ([Hs0 _] & Hs8 & Hsm); [lia|].
  assert (Hdc : forall i a, db !! i = Some a -> Z.of_nat i < acols - nparity /\ abd_size a = rc_size (col (nparity + Z.of_nat i))).
  { intros i a Ei. pose proof (lookup_lt_Some _ _ _ Ei). split; [lia|]. destruct (Forall2_lookup_r _ _ _ _ _ Hd Ei) as (rc & Hrc & _ & _ & -> & _). rewrite (init_data _ _ _ _ _ Hg), list_lookup_fmap, lookup_seqZ_lt in Hrc by lia. by injection Hrc as <-. }
  constructor; rewrite ?Ec, ?Ef, ?Eb; try done.
  - change VDEV_RAIDZ_MAXPARITY with 3 in *. lia.
  - lia.
  - rewrite fmap_take, Ea, map_cols_take, !with_abds_abd, fmap_app by (rewrite ?length_take, ?length_drop; lia). done.
  - rewrite fmap_take, Ez, map_cols_take, !with_abds_fmap, fmap_app by (done || rewrite ?length_take, ?length_drop; lia). f_equal.
    + apply list_eq_Forall2, Forall2_fmap. eapply Forall2_impl; [exact Hp|]. by intros rc a (buf & _ & _ & ->).
    + apply list_eq_Forall2, Forall2_fmap. eapply Forall2_impl; [exact Hd|]. by intros rc a (_ & _ & -> & _).
  - eapply Forall2_Forall_r; [exact Hp|]. eapply Forall_impl; [exact Hpo|]. by intros rc [_ ->] a Ho.
  - eapply Forall2_Forall_r; [exact Hd|]. eapply Forall_impl; [exact Hdo|]. intros rc [_ Hle] a (? & ? & -> & _). done.
  - intros a E0. destruct (Hdc 0%nat a E0) as [Hi ->]. rewrite (parity_size _ _ _ _ _ Hg) by lia. done.
  - intros i j a b Hij Ei Ej. destruct (Hdc i a Ei) as [Hi ->], (Hdc j b Ej) as [Hj ->]. apply (cols_sorted _ _ _ _ _ Hg); lia.
  - assert (Hk : forall a, a ∈ db -> abd_is_linear a = abd_is_linear io_abd) by (intros a [i Hi]%list_elem_of_lookup; by destruct (Forall2_lookup_r _ _ _ _ _ Hd Hi) as (? & _ & _ & _ & _ & ->)).
    intros a b Hia Hib. by rewrite (Hk a Hia), (Hk b Hib).
Qed.

Lemma map_alloc_ok : exists rm io' m' pb db,
  vdev_raidz_map_alloc kmem_alloc m io_abd io_offset io_size ashift dcols nparity = Ok (rm, io', m') /\ map_allocated rm io' m' pb db.
Proof.
  destruct (cols_shape _ _ _ _ _ Hg) as [Ha Hc]. pose proof length_init as El. unfold vdev_raidz_map_alloc. cbn [rm_firstdatacol rm_cols raidz_map_init]. change (RaidzMap acols _ _ _ _ _ _ _ _ _ _) with rm0.
  pose proof Hg as []. destruct (alloc_parity_ok kmem_alloc kmem_fresh kmem_size np m (rm_col rm0)) as (pb & m' & Ep & Hpb & Hnp & Hpn & Hold & Hdom); [lia|eapply Forall_impl; [exact parity_cols_ok|by intros rc [? _]]|].
  rewrite Ep. cbn [mbind res_bind]. pose proof (Forall2_length _ _ _ Hpb) as Lp. rewrite length_take in Lp.
  rewrite take_app_length', drop_app_length' by (rewrite length_with_abds, ?length_take by (rewrite length_take; lia); lia).
  destruct (data_windows_ok 512 nd io_abd 0 (drop np (rm_col rm0))) as (db & io' & Ed & Elio & Hdb & Eloc); [done|done|done|apply Z.divide_0_r|rewrite length_drop; lia|
    eapply Forall_impl; [exact data_cols_ok|by intros rc [? _]]|lia|rewrite (data_size _ _ _ _ _ Hg); lia|].
  rewrite Ed. cbn [mbind res_bind]. pose proof (Forall2_length _ _ _ Hdb) as Ld. rewrite length_take, length_drop in Ld.
  rewrite (data_size _ _ _ _ _ Hg) in Eloc, Elio. change (db ≫= locs = region io_abd 0 io_size) in Eloc. change (with_abds pcols pb ++ with_abds ndcols db ++ drop nd (drop np (rm_col rm0))) with (map_cols pb db).
  destruct (swap_cases _ _ _ _ _ Hg) as (r0 & Er & _).
  destruct (swap_same io_offset rm0 (set_rm_col rm0 (map_cols pb db)) r0) as (rm & Erm & Hsame & Eabd & Esz); [apply map_cols_geometry; [lia..]|done|].
  rewrite Erm. cbn [mbind res_bind]. exists rm, io', m', pb, db. split; [done|].
  assert (Hown : Forall (own_buf (rc_size (col 0))) pb).
  { eapply Forall2_Forall_r; [exact Hpb|]. eapply Forall_impl; [exact parity_cols_ok|]. by intros rc [_ ->] a [Ho _]. }
  assert (Hnew : forall l, l ∈ (pb ≫= locs) -> m !! p_blk l = None).
  { intros l (a & Hl & Hin)%list_elem_of_bind. rewrite Forall_forall in Hpn, Hown. rewrite (own_locs _ _ (Hown a Hin)) in Hl. apply elem_of_span in Hl as [-> _]. by apply Hpn. }
  unfold map_allocated. split_and!; try done.
  - eapply map_wf; try done; [eapply Forall2_impl; [exact Hpb|]; by intros rc a [? _]|]. rewrite bind_app. apply NoDup_app. split_and!; [by eapply own_nodup| |rewrite Eloc; by apply NoDup_region].
    intros l Hl Hl'. rewrite Eloc in Hl'. apply region_sub in Hl'. destruct Hh as [vs Hvs]. apply Hnew in Hl. destruct (holds_block _ _ _ _ Hvs Hl') as [x Hx]. congruence.
  - clear -Hpb. induction Hpb as [|rc a cols pb [_ [vs Hvs]] _ [pv Hpv]]; [by exists []; constructor|]. exists (vs ++ pv). by apply holds_app.
  - by exists r0.
Qed.

End MapAlloc.

(** ** The buffers given back *)

Lemma free_parity_ok PAGESHIFT m cols pb size :
  rc_abd <$> cols = Some <$> pb -> Forall (own_buf size) pb -> NoDup (abd_blk <$> pb) -> (forall a, a ∈ pb -> is_Some (m !! abd_blk a)) ->
  exists m', free_parity PAGESHIFT m cols = Ok m' /\ (forall k, m' !! k = if decide (k ∈ abd_blk <$> pb) then None else m !! k).
Proof.
  revert m cols. induction pb as [|a pb IH]; intros m [|rc cols] E Ho Hn Hm; try done; cbn [fmap list_fmap] in E.
  { by exists m. }
  injection E as Ea E. apply Forall_cons in Ho as [(buf & Eu & Eo & _) Ho]. cbn [fmap list_fmap] in Hn. apply NoDup_cons in Hn as [Hni Hn].
  assert (Eb : abd_blk a = p_blk buf) by (unfold abd_blk; by rewrite Eu). cbn [free_parity]. rewrite Ea. cbn [deref mbind res_bind]. unfold abd_free, abd_free_linear. rewrite Eu.
  rewrite free_buf_ok; [|rewrite <- Eb; apply Hm; by left|done]. cbn [mbind res_bind]. destruct (IH (delete (p_blk buf) m) cols) as (m' & E' & Hm'); [done..| |].
  { intros a' Ha'. rewrite lookup_delete_ne; [apply Hm; by right|]. rewrite <- Eb. intros Ex. apply Hni, list_elem_of_fmap. by exists a'. }
  exists m'. split; [done|]. intros k. rewrite Hm'. cbn [fmap list_fmap]. rewrite Eb.
  destruct (decide (k ∈ abd_blk <$> pb)) as [Hk|Hk]; [by rewrite decide_True by (by right)|]. destruct (decide (k = p_blk buf)) as [->|Hne].
  - rewrite lookup_delete_eq, decide_True by left. done.
  - rewrite lookup_delete_ne by done. rewrite decide_False; [done|]. by intros [?|?]%elem_of_cons.
Qed.

Lemma put_data_ok io cols db :
  rc_abd <$> cols = Some <$> db -> wrap64 (abd_children io) = abd_children io ->
  put_data (Some io) cols = Ok (Some (set_abd_children io (abd_children io - zsum abd_size db))).
Proof.
  revert io cols. induction db as [|a db IH]; intros io [|rc cols] E Hc; try done; cbn [fmap list_fmap] in E.
  { cbn [put_data zsum foldr]. unfold set_abd_children. rewrite Z.sub_0_r, Hc. by destruct io. }
  injection E as Ea E. cbn [put_data]. rewrite Ea. cbn [deref mbind res_bind abd_put fmap option_fmap option_map]. rewrite IH; [|done|apply Z.mod_mod; done].
  f_equal. f_equal. unfold set_abd_children. cbn [abd_owner abd_meta abd_size abd_children abd_u]. f_equal. unfold wrap64. rewrite Zminus_mod_idemp_l. f_equal. change (zsum abd_size (a :: db)) with (abd_size a + zsum abd_size db). lia.
Qed.

(** ** The theorems *)

(** The columns of the parity and of the data. *)
Lemma wf_split rm pb db : raidz_wf rm pb db ->
  rc_abd <$> take (Z.to_nat (rm_firstdatacol rm)) (rm_col rm) = Some <$> pb /\
  rc_abd <$> take (Z.to_nat (rm_cols rm - rm_firstdatacol rm)) (drop (Z.to_nat (rm_firstdatacol rm)) (rm_col rm)) = Some <$> db /\
  rc_size <$> take (Z.to_nat (rm_firstdatacol rm)) (rm_col rm) = abd_size <$> pb /\
  rc_size <$> take (Z.to_nat (rm_cols rm - rm_firstdatacol rm)) (drop (Z.to_nat (rm_firstdatacol rm)) (rm_col rm)) = abd_size <$> db.
Proof.
  intros [[Ef Hf] [Ec Hc] Ea Ez _ _ _ _ _ _ _].
  assert (Ht : take (Z.to_nat (rm_firstdatacol rm)) (take (Z.to_nat (rm_cols rm)) (rm_col rm)) = take (Z.to_nat (rm_firstdatacol rm)) (rm_col rm)) by (rewrite take_take; f_equal; lia).
  assert (Hd : drop (Z.to_nat (rm_firstdatacol rm)) (take (Z.to_nat (rm_cols rm)) (rm_col rm)) = take (Z.to_nat (rm_cols rm - rm_firstdatacol rm)) (drop (Z.to_nat (rm_firstdatacol rm)) (rm_col rm)))
    by (rewrite take_drop_commute; do 2 f_equal; lia).
  rewrite <- Ht, <- Hd. rewrite !fmap_drop, !fmap_take. rewrite fmap_take in Ea. rewrite fmap_take in Ez. rewrite Ea, Ez, !fmap_app.
  rewrite !take_app_length', !drop_app_length' by (rewrite length_fmap; lia). done.
Qed.

Section Theorems.

Variable kmem_alloc : mem -> Z -> Z * list Z.
Hypothesis kmem_fresh : forall m n, m !! (kmem_alloc m n).1 = None.
Hypothesis kmem_size : forall m n, length (kmem_alloc m n).2 = Z.to_nat n.

(** A buffer that a block can be written from. *)
Record block_buf (m : mem) (io_size : Z) (io_abd : abd) : Prop := {
  bb_wf : abd_wf io_abd;
  bb_words : abd_multiple 512 io_abd;
  bb_children : wrap64 (abd_children io_abd) = abd_children io_abd;
  bb_size : io_size <= abd_size io_abd;
  bb_nodup : NoDup (locs io_abd);
  bb_holds : exists vs, holds m (locs io_abd) vs
}.

Context (io_offset io_size ashift dcols nparity : Z) (io_abd : abd) (m : mem).
Hypothesis Hg : geometry_ok io_offset io_size ashift dcols nparity.
Hypothesis Hb : block_buf m io_size io_abd.

Abbreviation alloc := (vdev_raidz_map_alloc kmem_alloc m io_abd io_offset io_size ashift dcols nparity).
Abbreviation rm0 := (raidz_map_init io_offset io_size ashift dcols nparity).

Lemma swapped_layout rm r0 : raidz_map_swap io_offset rm0 = Ok r0 -> same_geometry r0 rm ->
  exists ios, skip_ios rm ashift (rm_skipstart rm) (Z.to_nat (rm_nskip rm)) = Ok ios /\
    ((data_ios rm ++ ios) ≫= io_sectors ashift) ≡ₚ row_sector dcols <$> seqZ (Z.shiftr io_offset ashift) (vdev_raidz_asize ashift dcols nparity io_size / 2 ^ ashift) /\
    rm_asize rm = vdev_raidz_asize ashift dcols nparity io_size /\ NoDup ((fun io : Z * Z * Z => io.1.1) <$> data_ios rm).
Proof using Hg.
  intros Er Hs. pose proof (sector_bounds _ _ _ _ _ Hg). pose proof (nskip_range _ _ _ _ _ Hg) as Hn. pose proof (tot_bound _ _ _ _ _ Hg) as Ht.
  exists (sector_io ashift dcols <$> seqZ (Z.shiftr io_offset ashift + stripe_tot io_size ashift dcols nparity) (rm_nskip rm0)). split.
  { rewrite (sg_skipstart _ _ Hs), (sg_nskip _ _ Hs). eapply same_skip_ios; [exact Hs|]. by apply swap_skip. }
  rewrite (same_data_ios _ _ Hs), (asize_alloc _ _ _ _ _ Hg), Z.div_mul by lia. split.
  - rewrite bind_app, seqZ_app, fmap_app by lia. apply Permutation_app.
    + rewrite (swap_ios _ _ _ _ _ Hg r0 Er). apply init_sectors, Hg.
    + rewrite list_fmap_bind. apply Permutation_refl'. induction (seqZ _ (rm_nskip rm0)) as [|x l IH]; [done|]. cbn [mbind list_bind fmap list_fmap].
      cbn [compose]. rewrite sector_io_sectors with (1 := Hg). cbn [app]. f_equal. exact IH.
  - split.
    + rewrite (sg_asize _ _ Hs), <- (asize_init _ _ _ _ _ Hg). destruct (swap_cases _ _ _ _ _ Hg) as (r1 & Er1 & Hc). rewrite Er in Er1. injection Er1 as <-.
      destruct Hc as [->|(_ & c0 & c1 & _ & _ & _ & _ & _ & _ & E & _)]; [done|exact E].
    + rewrite (fmap_Permutation _ _ _ (swap_ios _ _ _ _ _ Hg r0 Er)). apply init_devices, Hg.
Qed.

(** C4. The sectors that the I/Os of a block touch, those of its columns and the
    skipped ones, are exactly the run of sectors of the device that
    [vdev_raidz_asize] reserves for it, each once; no child has two columns. *)
Theorem raidz_map_layout : exists rm io' m' ios,
  alloc = Ok (rm, io', m') /\ skip_ios rm ashift (rm_skipstart rm) (Z.to_nat (rm_nskip rm)) = Ok ios /\
  ((data_ios rm ++ ios) ≫= io_sectors ashift) ≡ₚ
    row_sector dcols <$> seqZ (Z.shiftr io_offset ashift) (vdev_raidz_asize ashift dcols nparity io_size / 2 ^ ashift) /\
  rm_asize rm = vdev_raidz_asize ashift dcols nparity io_size /\ NoDup ((fun io : Z * Z * Z => io.1.1) <$> data_ios rm).
Proof using kmem_fresh kmem_size Hg Hb.
  destruct Hb. destruct (map_alloc_ok kmem_alloc kmem_fresh kmem_size io_offset io_size ashift dcols nparity io_abd m) as (rm & io' & m' & pb & db & E & Hm); [done..|].
  destruct Hm as (_ & _ & _ & _ & _ & _ & _ & _ & r0 & Er & Hs). destruct (swapped_layout rm r0 Er Hs) as (ios & H1 & H2). by exists rm, io', m', ios.
Qed.

Lemma windows_size rm pb db n : raidz_wf rm pb db -> (db ≫= locs) = region io_abd 0 n -> 0 <= n <= abd_size io_abd -> zsum abd_size db = n.
Proof using Hb.
  intros [_ _ _ _ _ _ Hdb _ _ _] E Hn. destruct Hb. apply (f_equal (fun l => Z.of_nat (length l))) in E. rewrite length_bind_zsum, length_region in E by (unfold part_ok; auto with lia).
  rewrite (zsum_ext _ abd_size) in E; [lia|]. intros a Ha. rewrite Forall_forall in Hdb. destruct (Hdb a Ha) as (Hwf & _). rewrite length_locs by done. destruct Hwf. lia.
Qed.

(** C5. The parity columns get buffers of their own, the data columns are
    windows that cut the block; [vdev_raidz_map_free] gives all of it back,
    whatever was written meanwhile. *)
Theorem raidz_map_buffers PAGESHIFT : exists rm io' m' pb db,
  alloc = Ok (rm, io', m') /\ raidz_wf rm pb db /\ (db ≫= locs) = region io_abd 0 io_size /\
  (forall l, l ∈ (pb ≫= locs) -> m !! p_blk l = None) /\ (forall k, is_Some (m !! k) -> m' !! k = m !! k) /\
  forall m2, dom m2 = dom m' -> exists m3, vdev_raidz_map_free PAGESHIFT m2 rm (Some io') = Ok (Some io_abd, m3) /\
    forall k, m3 !! k = if decide (is_Some (m !! k)) then m2 !! k else None.
Proof using kmem_fresh kmem_size Hg Hb.
  destruct Hb. destruct (map_alloc_ok kmem_alloc kmem_fresh kmem_size io_offset io_size ashift dcols nparity io_abd m) as (rm & io' & m' & pb & db & E & Hm); [done..|].
  destruct Hm as (Hwf & Eloc & Eio & [pv Hpv] & Hnew & Hold & Hdom & Hnd & _). exists rm, io', m', pb, db. split_and!; try done. intros m2 Em2.
  unfold vdev_raidz_map_free. destruct (wf_split _ _ _ Hwf) as (Ea & Ed & _ & _). pose proof Hwf as [_ _ _ _ Hbig Hpb Hdb _ _ _].
  assert (Hin : forall k, k ∈ abd_blk <$> pb -> is_Some (m2 !! k) /\ m !! k = None).
  { intros k (a & -> & Ha)%list_elem_of_fmap. rewrite Forall_forall in Hpb. pose proof (own_locs _ _ (Hpb a Ha)) as El.
    assert (Hl : Ptr (abd_blk a) 0 ∈ (pb ≫= locs)) by (apply list_elem_of_bind; exists a; split; [rewrite El, elem_of_span; cbn; lia|done]).
    split; [|exact (Hnew _ Hl)]. apply elem_of_dom. rewrite Em2. apply elem_of_dom. exact (holds_block _ _ _ _ Hpv Hl). }
  destruct (free_parity_ok PAGESHIFT m2 _ pb _ Ea Hpb Hnd) as (m3 & E3 & Hm3). { intros a Ha. apply Hin, list_elem_of_fmap. by exists a. }
  rewrite E3. cbn [mbind res_bind]. rewrite (put_data_ok io' _ db Ed) by (rewrite Eio; apply Z.mod_mod; done). cbn [mbind res_bind].
  exists m3. split.
  - f_equal. f_equal. f_equal. rewrite Eio. unfold set_abd_children. cbn [abd_owner abd_meta abd_size abd_children abd_u]. rewrite (windows_size rm pb db io_size) by (done || destruct Hg; lia).
    unfold wrap64. rewrite Zminus_mod_idemp_l, Z.add_simpl_r. change (?x mod B64) with (wrap64 x). rewrite bb_children0. by destruct io_abd.
  - intros k. rewrite Hm3. destruct (decide (k ∈ abd_blk <$> pb)) as [Hk|Hk].
    + apply Hin in Hk as [_ ->]. by rewrite decide_False by (intros H; by apply is_Some_None in H).
    + destruct (decide (is_Some (m !! k))) as [|Hn]; [done|]. apply eq_None_not_Some. intros Hs. apply Hn. apply elem_of_dom in Hs. rewrite Em2 in Hs. apply elem_of_dom in Hs.
      by destruct (Hdom k Hs).
Qed.

(** C0. A block is resilvered when it is as wide as the device, or when one of
    the children its columns are on has a dirty log. *)
Theorem raidz_need_resilver dtl_empty : exists rm io' m',
  alloc = Ok (rm, io', m') /\
  vdev_raidz_need_resilver dtl_empty dcols nparity ashift io_offset io_size =
    (dcols <=? Z.shiftr io_size ashift + nparity) || existsb (fun io : Z * Z * Z => negb (dtl_empty io.1.1)) (data_ios rm).
Proof using kmem_fresh kmem_size Hg Hb.
  destruct Hb. destruct (map_alloc_ok kmem_alloc kmem_fresh kmem_size io_offset io_size ashift dcols nparity io_abd m) as (rm & io' & m' & pb & db & E & Hm); [done..|].
  destruct Hm as (_ & _ & _ & _ & _ & _ & _ & _ & r0 & Er & Hs). exists rm, io', m'. split; [done|]. unfold vdev_raidz_need_resilver. rewrite (sectors_up _ _ _ _ _ Hg).
  destruct (Z.leb_spec dcols (Z.shiftr io_size ashift + nparity)) as [|Hlt]; [done|]. cbn [orb].
  rewrite (same_data_ios _ _ Hs). pose proof (swap_ios _ _ _ _ _ Hg r0 Er) as Hp. rewrite (init_ios _ _ _ _ _ Hg), (short_acols _ _ _ _ _ Hg) in Hp by lia.
  pose proof Hg as []. apply eq_true_iff_eq. rewrite !existsb_elem.
  split; [intros (c & Hc & Hd); eexists; split; [rewrite Hp; apply list_elem_of_fmap; exists c; split; [reflexivity|exact Hc]|]
    |intros (io & Hio & Hd); rewrite Hp in Hio; apply list_elem_of_fmap in Hio as (c & -> & Hc); exists c; split; [done|]];
    apply elem_of_seqZ in Hc; cbn [fst] in *; destruct (col_place _ _ _ _ _ Hg c ltac:(lia)) as (E1 & _); rewrite ?E1 in *; by rewrite Zplus_mod_idemp_l in *.
Qed.

End Theorems.

(** ** Examples *)

Module Example.

Import Abd.Example.

(** Three sectors in two fragments, on five children with double parity. *)
Definition io_abd : abd := Abd true false 1536 0 (AbdScatter 512 2 [Sg (Ptr 1 0) 1024; Sg (Ptr 2 0) 1024]).
Definition m0 : mem := {[ 1 := replicate 1024 7; 2 := replicate 1024 9 ]}.

Lemma geometry : geometry_ok 3584 1536 9 5 2.
Proof. constructor; vm_compute; try (split; congruence); [by exists 7|by exists 3]. Qed.

Lemma io_locs : locs io_abd = span (Ptr 1 512) 512 ++ span (Ptr 2 0) 1024.
Proof. vm_compute. reflexivity. Qed.

Lemma buf : block_buf m0 1536 io_abd.
Proof.
  constructor; try rewrite io_locs; try done.
  - constructor; vm_compute; try done. by repeat constructor.
  - split_and!; [by exists 3|by exists 1|repeat constructor; by exists 2].
  - apply NoDup_app. split_and!; [apply NoDup_span| |apply NoDup_span]. intros l Hl%elem_of_span Hl'%elem_of_span. cbn in *. lia.
  - exists (replicate 512 7 ++ replicate 1024 9). unfold holds. decided.
Qed.

(** Five sectors and one that is skipped. *)
Lemma raidz_map_layout_witness : exists rm io' m' ios,
  vdev_raidz_map_alloc kmem m0 io_abd 3584 1536 9 5 2 = Ok (rm, io', m') /\ rm_asize rm = 3072 /\
  ((data_ios rm ++ ios) ≫= io_sectors 9) ≡ₚ [(2, 1); (3, 1); (4, 1); (0, 2); (1, 2); (2, 2)].
Proof.
  destruct (raidz_map_layout kmem kmem_fresh kmem_size 3584 1536 9 5 2 io_abd m0 geometry buf) as (rm & io' & m' & ios & E & _ & Hp & Ea & _).
  exists rm, io', m', ios. split; [exact E|]. split; [rewrite Ea; vm_compute; reflexivity|]. rewrite Hp. vm_compute. reflexivity.
Defined.

Lemma raidz_map_buffers_witness : exists rm io' m' pb db,
  vdev_raidz_map_alloc kmem m0 io_abd 3584 1536 9 5 2 = Ok (rm, io', m') /\ raidz_wf rm pb db /\
  exists m3, vdev_raidz_map_free 12 m' rm (Some io') = Ok (Some io_abd, m3) /\ m3 = m0.
Proof.
  destruct (raidz_map_buffers kmem kmem_fresh kmem_size 3584 1536 9 5 2 io_abd m0 geometry buf 12) as (rm & io' & m' & pb & db & E & Hwf & _ & _ & Hold & Hfree).
  exists rm, io', m', pb, db. split; [exact E|]. split; [exact Hwf|]. destruct (Hfree m' eq_refl) as (m3 & E3 & Hm3). exists m3. split; [exact E3|].
  apply map_eq. intros k. rewrite Hm3. destruct (decide (is_Some (m0 !! k))) as [Hk|Hk]; [exact (Hold k Hk)|]. symmetry. by apply eq_None_not_Some.
Defined.

Lemma raidz_need_resilver_witness : exists rm io' m',
  vdev_raidz_map_alloc kmem m0 io_abd 3584 1536 9 5 2 = Ok (rm, io', m') /\ vdev_raidz_need_resilver (fun _ => true) 5 2 9 3584 1536 = true.
Proof.
  destruct (raidz_need_resilver kmem kmem_fresh kmem_size 3584 1536 9 5 2 io_abd m0 geometry buf (fun _ => true)) as (rm & io' & m' & E & Hn).
  exists rm, io', m'. split; [exact E|]. rewrite Hn. reflexivity.
Defined.

End Example.
