(* ===== verification/RaidzParity.v ===== *)
(** * Parity: [module/zfs/vdev_raidz.c]

    The original routines that compute the parity columns of a block, a word at a
    time.  The parity of the data columns [D_0], ..., [D_(n-1)] at a byte is
    [D_0 + ... + D_(n-1)], and for the second and third column the same sum with
    powers of 2 and of 4 as coefficients: [parity_at]. *)

From stdpp Require Import gmap.
From S2P Require Import Prelude Bits Buffer Gf Memory Abd AbdIter RaidzMap.

(** ** Words in memory *)

Definition load64 (m : mem) (p : ptr) : res Z := bs ← load m p 8; Ok (le_word bs).
Definition store64 (m : mem) (p : ptr) (w : Z) : res mem := store m p (le_bytes 8 w).

(** [*d ^= *s], and the macros on [*d]. *)
Definition xor_word (m : mem) (d s : ptr) : res mem := w ← load64 m d; x ← load64 m s; store64 m d (Z.lxor w x).
Definition mul2_word (m : mem) (d : ptr) : res mem := w ← load64 m d; store64 m d (VDEV_RAIDZ_64MUL_2 w).
Definition mul4_word (m : mem) (d : ptr) : res mem := w ← load64 m d; store64 m d (VDEV_RAIDZ_64MUL_4 w).

(** ** The callbacks *)

Definition vdev_raidz_p_func (buf : ptr) (size : Z) (s : mem * ptr) : res (Z * (mem * ptr)) :=
  let '(m, p) := s in
  let cnt := size / 8 in
  m ← for_range 0 cnt (fun i m => xor_word m (ptr_add p (8 * i)) (ptr_add buf (8 * i))) m;
  Ok (0, (m, ptr_add p (8 * cnt))).

Definition vdev_raidz_pq_func (buf : ptr) (size : Z) (s : mem * (ptr * ptr)) : res (Z * (mem * (ptr * ptr))) :=
  let '(m, (p, q)) := s in
  let cnt := size / 8 in
  m ← for_range 0 cnt (fun i m =>
    m ← xor_word m (ptr_add p (8 * i)) (ptr_add buf (8 * i));
    m ← mul2_word m (ptr_add q (8 * i));
    xor_word m (ptr_add q (8 * i)) (ptr_add buf (8 * i))) m;
  Ok (0, (m, (ptr_add p (8 * cnt), ptr_add q (8 * cnt)))).

Definition vdev_raidz_pqr_func (buf : ptr) (size : Z) (s : mem * (ptr * ptr * ptr)) : res (Z * (mem * (ptr * ptr * ptr))) :=
  let '(m, (p, q, r)) := s in
  let cnt := size / 8 in
  m ← for_range 0 cnt (fun i m =>
    m ← xor_word m (ptr_add p (8 * i)) (ptr_add buf (8 * i));
    m ← mul2_word m (ptr_add q (8 * i));
    m ← xor_word m (ptr_add q (8 * i)) (ptr_add buf (8 * i));
    m ← mul4_word m (ptr_add r (8 * i));
    xor_word m (ptr_add r (8 * i)) (ptr_add buf (8 * i))) m;
  Ok (0, (m, (ptr_add p (8 * cnt), ptr_add q (8 * cnt), ptr_add r (8 * cnt)))).

(** ** The routines *)

Definition VDEV_RAIDZ_P : Z := 0.
Definition VDEV_RAIDZ_Q : Z := 1.
Definition VDEV_RAIDZ_R : Z := 2.

(** [rm->rm_col[c]], its buffer, and the address of a linear buffer. *)
Definition rm_col_at (rm : raidz_map) (c : Z) : res raidz_col := deref (rm_col rm !! Z.to_nat c).
Definition col_abd (rm : raidz_map) (c : Z) : res abd := rc ← rm_col_at rm c; deref (rc_abd rc).
Definition col_buf (rm : raidz_map) (c : Z) : res ptr := a ← col_abd rm c; abd_to_buf a.

Definition vdev_raidz_generate_parity_p (m : mem) (rm : raidz_map) : res mem :=
  for_range (rm_firstdatacol rm) (rm_cols rm) (fun c m =>
    rc ← rm_col_at rm c;
    src ← deref (rc_abd rc);
    p ← col_buf rm VDEV_RAIDZ_P;
    if c =? rm_firstdatacol rm then abd_copy_to_buf_off m p src 0 (rc_size rc)
    else '(_, (m, _)) ← abd_iterate_func vdev_raidz_p_func src 0 (rc_size rc) (m, p); Ok m) m.

Definition vdev_raidz_generate_parity_pq (m : mem) (rm : raidz_map) : res mem :=
  rp ← rm_col_at rm VDEV_RAIDZ_P;
  let pcnt := rc_size rp / 8 in
  for_range (rm_firstdatacol rm) (rm_cols rm) (fun c m =>
    rc ← rm_col_at rm c;
    src ← deref (rc_abd rc);
    p ← col_buf rm VDEV_RAIDZ_P;
    q ← col_buf rm VDEV_RAIDZ_Q;
    let ccnt := rc_size rc / 8 in
    if c =? rm_firstdatacol rm then
      m ← abd_copy_to_buf_off m p src 0 (rc_size rc);
      m ← memcpy m q p (rc_size rc);
      for_range ccnt pcnt (fun i m =>
        m ← store64 m (ptr_add p (8 * i)) 0;
        store64 m (ptr_add q (8 * i)) 0) m
    else
      '(_, (m, _)) ← abd_iterate_func vdev_raidz_pq_func src 0 (rc_size rc) (m, (p, q));
      for_range ccnt pcnt (fun i m => mul2_word m (ptr_add q (8 * i))) m) m.

Definition vdev_raidz_generate_parity_pqr (m : mem) (rm : raidz_map) : res mem :=
  rp ← rm_col_at rm VDEV_RAIDZ_P;
  let pcnt := rc_size rp / 8 in
  for_range (rm_firstdatacol rm) (rm_cols rm) (fun c m =>
    rc ← rm_col_at rm c;
    src ← deref (rc_abd rc);
    p ← col_buf rm VDEV_RAIDZ_P;
    q ← col_buf rm VDEV_RAIDZ_Q;
    r ← col_buf rm VDEV_RAIDZ_R;
    let ccnt := rc_size rc / 8 in
    if c =? rm_firstdatacol rm then
      m ← abd_copy_to_buf_off m p src 0 (rc_size rc);
      m ← memcpy m q p (rc_size rc);
      m ← memcpy m r p (rc_size rc);
      for_range ccnt pcnt (fun i m =>
        m ← store64 m (ptr_add p (8 * i)) 0;
        m ← store64 m (ptr_add q (8 * i)) 0;
        store64 m (ptr_add r (8 * i)) 0) m
    else
      '(_, (m, _)) ← abd_iterate_func vdev_raidz_pqr_func src 0 (rc_size rc) (m, (p, q, r));
      for_range ccnt pcnt (fun i m =>
        m ← mul2_word m (ptr_add q (8 * i));
        mul4_word m (ptr_add r (8 * i))) m) m.

(** ** Lanes of field elements *)

Definition gfun (v : Z -> gf) : Z -> Z := fun i => gv (v i).

Lemma gfun_u8 v pos n : Forall is_u8 (gfun v <$> seqZ pos n).
Proof. apply Forall_fmap, Forall_true. intros i. apply gv_u8. Qed.

Lemma gfun_lxor v w s : zip_with Z.lxor (gfun v <$> s) (gfun w <$> s) = gfun (fun i => v i + w i)%gf <$> s.
Proof. induction s as [|i s IH]; [done|]. cbn. by f_equal. Qed.

Lemma gv_mul_2 a : gv (a * gpow 1)%gf = VDEV_RAIDZ_MUL_2 (gv a).
Proof. rewrite <- mul_2_gmul. apply gv_of, mul_2_range. Qed.

Lemma gv_mul_4 a : gv (a * gpow 2)%gf = VDEV_RAIDZ_MUL_4 (gv a).
Proof. unfold VDEV_RAIDZ_MUL_4. rewrite <- !gv_mul_2. f_equal. change 2 with (1 + 1). rewrite gpow_add. ring. Qed.

Lemma mul_64_4 bs : length bs = 8%nat -> Forall is_u8 bs -> VDEV_RAIDZ_64MUL_4 (le_word bs) = le_word (VDEV_RAIDZ_MUL_4 <$> bs).
Proof.
  intros Hl Hu. unfold VDEV_RAIDZ_64MUL_4. rewrite mul_64_2, mul_64_2; [by rewrite <- list_fmap_compose|by rewrite length_fmap| |done|done].
  apply Forall_fmap, Forall_true. intros b. apply mul_2_range.
Qed.

Lemma load64_lane m l pos p v : contig l pos p 8 -> reads m l pos (pos + 8) v -> load64 m p = Ok (le_word (v <$> seqZ pos 8)).
Proof. intros Hc Hr. unfold load64. by rewrite (load_lane m l pos p 8 v). Qed.

Lemma store64_lane m l pos p v :
  contig l pos p 8 -> mapped m l pos (pos + 8) -> exists m', store64 m p (le_word (gfun v <$> seqZ pos 8)) = Ok m' /\ swept m [(l, gfun v)] pos (pos + 8) m'.
Proof.
  intros Hc Hm. unfold store64. rewrite le_bytes_word; [|by rewrite length_fmap, length_seqZ|apply gfun_u8]. by apply store_lane.
Qed.

Lemma xor_word_ok m d s dl sl pos v w :
  contig dl pos d 8 -> contig sl pos s 8 -> reads m dl pos (pos + 8) (gfun v) -> reads m sl pos (pos + 8) (gfun w) ->
  exists m', xor_word m d s = Ok m' /\ swept m [(dl, gfun (fun i => v i + w i)%gf)] pos (pos + 8) m'.
Proof.
  intros Hd Hs Hrd Hrs. unfold xor_word. rewrite (load64_lane m dl pos d (gfun v)), (load64_lane m sl pos s (gfun w)) by done. cbn [mbind res_bind].
  rewrite le_word_lxor, gfun_lxor by (by rewrite ?length_fmap, ?length_seqZ || apply gfun_u8). apply store64_lane; [done|by eapply reads_mapped].
Qed.

Lemma mul2_word_ok m d dl pos v :
  contig dl pos d 8 -> reads m dl pos (pos + 8) (gfun v) ->
  exists m', mul2_word m d = Ok m' /\ swept m [(dl, gfun (fun i => v i * gpow 1)%gf)] pos (pos + 8) m'.
Proof.
  intros Hd Hrd. unfold mul2_word. rewrite (load64_lane m dl pos d (gfun v)) by done. cbn [mbind res_bind].
  rewrite mul_64_2 by (by rewrite ?length_fmap, ?length_seqZ || apply gfun_u8). rewrite <- list_fmap_compose.
  rewrite (list_fmap_ext _ (gfun (fun i => v i * gpow 1)%gf)); [|intros i x _; unfold gfun; by rewrite gv_mul_2].
  apply store64_lane; [done|by eapply reads_mapped].
Qed.

Lemma mul4_word_ok m d dl pos v :
  contig dl pos d 8 -> reads m dl pos (pos + 8) (gfun v) ->
  exists m', mul4_word m d = Ok m' /\ swept m [(dl, gfun (fun i => v i * gpow 2)%gf)] pos (pos + 8) m'.
Proof.
  intros Hd Hrd. unfold mul4_word. rewrite (load64_lane m dl pos d (gfun v)) by done. cbn [mbind res_bind].
  rewrite mul_64_4 by (by rewrite ?length_fmap, ?length_seqZ || apply gfun_u8). rewrite <- list_fmap_compose.
  rewrite (list_fmap_ext _ (gfun (fun i => v i * gpow 2)%gf)); [|intros i x _; unfold gfun; by rewrite gv_mul_4].
  apply store64_lane; [done|by eapply reads_mapped].
Qed.

(** ** One data column added *)

(** A column of [size] bytes with the contents [v], which count as zeros after
    its end. *)
Record col_data (m : mem) (a : abd) (size : Z) (v : Z -> gf) : Prop := {
  cd_wf : abd_wf a;
  cd_words : abd_multiple 8 a;
  cd_size : 0 <= size <= abd_size a;
  cd_div : (8 | size);
  cd_reads : reads m (abd_lane a) 0 size (gfun v);
  cd_zero : forall i, size <= i -> v i = g0
}.

Lemma div_units u n : 0 < u -> 0 <= n -> (u | n) -> n = u * (n / u) /\ 0 <= n / u.
Proof. intros Hu Hn [k ->]. rewrite Z.div_mul by lia. nia. Qed.

(** A walk whose callback is a loop over the units of [u] bytes of its piece: [B]
    is the body of the loop, [X] the state that the callback carries. *)
Lemma units_loop u m ts off top pos n N B m1 :
  0 < u -> separate (fst <$> ts) N -> 0 <= off <= pos -> pos + n <= top -> top <= N -> 0 <= n -> (u | n) -> swept m ts off pos m1 ->
  (forall i m2, 0 <= i -> u * i + u <= n -> swept m ts off (pos + u * i) m2 -> exists m3, B i m2 = Ok m3 /\ swept m2 ts (pos + u * i) (pos + u * i + u) m3) ->
  exists m', for_range 0 (n / u) B m1 = Ok m' /\ swept m ts off (pos + n) m'.
Proof.
  intros Hu Hsep Ho Hp Ht Hn Hun Hsw HB. destruct (div_units u n Hu Hn Hun) as [En Hn0].
  destruct (for_range_inv (fun i m2 => swept m ts off (pos + u * i) m2) 0 (n / u) B m1) as (m' & E & Hsw'); [lia| |by rewrite Z.mul_0_r, Z.add_0_r|exists m'; by rewrite <- En in Hsw'].
  intros i m2 Hi Hsw2. destruct (HB i m2) as (m3 & E3 & Hsw3); [lia|nia|done|]. exists m3. split; [done|]. replace (pos + u * (i + 1)) with (pos + u * i + u) by lia. eapply swept_trans; [done..|nia|nia].
Qed.

Lemma iterate_units u {A} (f : ptr -> Z -> mem * A -> res (Z * (mem * A))) (X : Z -> A) (B : Z -> ptr -> Z -> mem -> res mem) m ts src off size N :
  0 < u -> abd_wf src -> abd_multiple u src -> part_ok src off size -> (u | off) -> (u | size) -> separate (fst <$> ts) N -> off + size <= N ->
  (forall pos b n m1, (u | n) -> f b n (m1, X pos) = m' ← for_range 0 (n / u) (B pos b) m1; Ok (0, (m', X (pos + u * (n / u))))) ->
  (forall pos b i m1, off <= pos -> 0 <= i -> pos + u * i + u <= off + size -> contig (abd_lane src) (pos + u * i) (ptr_add b (u * i)) u ->
     swept m ts off (pos + u * i) m1 -> exists m2, B pos b i m1 = Ok m2 /\ swept m1 ts (pos + u * i) (pos + u * i + u) m2) ->
  exists m', abd_iterate_func f src off size (m, X off) = Ok (0, (m', X (off + size))) /\ swept m ts off (off + size) m'.
Proof.
  intros Hu Hwf Hk Hpart Hko Hks Hsep HN Hf HB. pose proof Hpart as (Ho & _ & _).
  destruct (iterate_inv u (fun pos s => swept m ts off (off + pos) s.1 /\ s.2 = X (off + pos)) f src off size (m, X off)) as ([m' s] & E & Hsw & Es); [done..| | |].
  2:{ rewrite Z.add_0_r. split; [apply swept_empty|done]. }
  2:{ cbn [fst snd] in *. subst s. by exists m'. }
  intros pos b n [m1 x] Hpos Hn Hle Hkp Hkn Hc [Hsw Ex]. cbn [fst snd] in *. subst x. destruct (div_units u n Hu ltac:(lia) Hkn) as [En Hn0]. rewrite Hf by done.
  destruct (units_loop u m ts off (off + size) (off + pos) n N (B (off + pos) b) m1) as (m' & E & Hsw'); [done|done|lia|lia|done|lia|done|done| |].
  - intros i m2 Hi Hile Hsw2. apply HB; [lia|lia|lia| |done]. apply (contig_sub (abd_lane src) (off + pos) b n); [done|lia|lia].
  - rewrite E. cbn [mbind res_bind]. eexists. split; [done|]. cbn [fst snd]. by rewrite <- En, Z.add_assoc.
Qed.

Lemma iterate2_units u {A} (f : ptr -> ptr -> Z -> mem * A -> res (Z * (mem * A))) (X : Z -> A) (B : Z -> ptr -> ptr -> Z -> mem -> res mem) m ts d src size N :
  0 < u -> abd_wf d -> abd_wf src -> abd_multiple u d -> abd_multiple u src -> 0 <= size <= abd_size d -> size <= abd_size src -> (u | size) -> separate (fst <$> ts) N -> size <= N ->
  (forall pos b c n m1, (u | n) -> f b c n (m1, X pos) = m' ← for_range 0 (n / u) (B pos b c) m1; Ok (0, (m', X (pos + u * (n / u))))) ->
  (forall pos b c i m1, 0 <= pos -> 0 <= i -> pos + u * i + u <= size -> contig (abd_lane d) (pos + u * i) (ptr_add b (u * i)) u -> contig (abd_lane src) (pos + u * i) (ptr_add c (u * i)) u ->
     swept m ts 0 (pos + u * i) m1 -> exists m2, B pos b c i m1 = Ok m2 /\ swept m1 ts (pos + u * i) (pos + u * i + u) m2) ->
  exists m', abd_iterate_func2 f d src 0 0 size (m, X 0) = Ok (0, (m', X size)) /\ swept m ts 0 size m'.
Proof.
  intros Hu Hwd Hws Hkd Hks Hsd Hss Hk Hsep HN Hf HB.
  destruct (iterate2_inv u (fun pos s => swept m ts 0 pos s.1 /\ s.2 = X pos) f d src 0 0 size (m, X 0)) as ([m' s] & E & Hsw & Es);
    [done|done|done|done|unfold part_ok; lia|unfold part_ok; lia|apply Z.divide_0_r|apply Z.divide_0_r|done| |split; [apply swept_empty|done]|cbn [fst snd] in *; subst s; by exists m'].
  intros pos b c n [m1 x] Hpos Hn Hle Hkp Hkn Hc Hc' [Hsw Ex]. cbn [fst snd] in *. subst x. destruct (div_units u n Hu ltac:(lia) Hkn) as [En Hn0]. rewrite Hf by done.
  destruct (units_loop u m ts 0 size pos n N (B pos b c) m1) as (m' & E & Hsw'); [done|done|lia|lia|done|lia|done|done| |].
  - intros i m2 Hi Hile Hsw2. apply HB; [lia|lia|lia| | |done]; [apply (contig_sub (abd_lane d) (0 + pos) b n); [done|lia|lia]|apply (contig_sub (abd_lane src) (0 + pos) c n); [done|lia|lia]].
  - rewrite E. cbn [mbind res_bind]. eexists. split; [done|]. cbn [fst snd]. by rewrite <- En.
Qed.

Section Add.

Context (m : mem) (p q r : ptr) (src : abd) (size N : Z) (v p0 q0 r0 : Z -> gf).
Hypothesis Hsrc : col_data m src size v.
Hypothesis HN : size <= N.
Hypothesis Hp : reads m (ptr_add p) 0 N (gfun p0).
Hypothesis Hps : apart (ptr_add p) (abd_lane src) N size.

Abbreviation sl := (abd_lane src).

(** What the callbacks do to the parity. *)
Abbreviation p_new := (gfun (fun i => p0 i + v i)%gf).
Abbreviation q_new := (gfun (fun i => q0 i * gpow 1 + v i)%gf).
Abbreviation r_new := (gfun (fun i => r0 i * gpow 2 + v i)%gf).

Lemma p_func_ok : exists s, abd_iterate_func vdev_raidz_p_func src 0 size (m, p) = Ok (0, s) /\ swept m [(ptr_add p, p_new)] 0 size s.1.
Proof using Hsrc HN Hp Hps.
  destruct Hsrc. assert (Hsep : separate [ptr_add p] N) by separated.
  destruct (iterate_units 8 vdev_raidz_p_func (ptr_add p) (fun pos b i m => xor_word m (ptr_add (ptr_add p pos) (8 * i)) (ptr_add b (8 * i)))
    m [(ptr_add p, p_new)] src 0 size N) as (m' & E & Hsw); [done|done|done|unfold part_ok; lia|apply Z.divide_0_r|done|done|lia| | |].
  - intros pos b n m1 _. unfold vdev_raidz_p_func. by rewrite ptr_add_add.
  - intros pos b i m1 Hpos Hi Hle Hc Hsw. rewrite ptr_add_add. set (x := pos + 8 * i) in *. apply (xor_word_ok _ _ _ _ sl); [apply contig_ptr|done|..].
    + eapply swept_reads; [exact Hsw|eapply reads_sub; [exact Hp|lia|lia]|off_lanes].
    + eapply swept_reads; [exact Hsw|eapply reads_sub; [exact cd_reads0|lia|lia]|off_lanes].
  - rewrite ptr_add_0 in E. by eexists.
Qed.

(** [*q] doubled and the source added. *)
Lemma mul2_xor_ok m1 d s dl pos w :
  contig dl pos d 8 -> contig sl pos s 8 -> reads m1 dl pos (pos + 8) (gfun w) -> reads m1 sl pos (pos + 8) (gfun v) -> (forall i j, pos <= i < pos + 8 -> pos <= j < pos + 8 -> sl i <> dl j) ->
  exists m2, (m ← mul2_word m1 d; xor_word m d s) = Ok m2 /\ swept m1 [(dl, gfun (fun i => w i * gpow 1 + v i)%gf)] pos (pos + 8) m2.
Proof using.
  intros Hd Hs Hw Hv Hne. destruct (mul2_word_ok m1 d dl pos w Hd Hw) as (m2 & E2 & Hsw2). rewrite E2. cbn [mbind res_bind].
  destruct (xor_word_ok m2 d s dl sl pos (fun i => w i * gpow 1)%gf v) as (m3 & E3 & Hsw3); [done|done|by apply Hsw2; left| |exists m3; split; [done|by eapply swept_again]].
  eapply swept_reads; [exact Hsw2|done|]. intros l w' i j [= -> ->]%list_elem_of_singleton. apply Hne.
Qed.

Lemma mul4_xor_ok m1 d s dl pos w :
  contig dl pos d 8 -> contig sl pos s 8 -> reads m1 dl pos (pos + 8) (gfun w) -> reads m1 sl pos (pos + 8) (gfun v) -> (forall i j, pos <= i < pos + 8 -> pos <= j < pos + 8 -> sl i <> dl j) ->
  exists m2, (m ← mul4_word m1 d; xor_word m d s) = Ok m2 /\ swept m1 [(dl, gfun (fun i => w i * gpow 2 + v i)%gf)] pos (pos + 8) m2.
Proof using.
  intros Hd Hs Hw Hv Hne. destruct (mul4_word_ok m1 d dl pos w Hd Hw) as (m2 & E2 & Hsw2). rewrite E2. cbn [mbind res_bind].
  destruct (xor_word_ok m2 d s dl sl pos (fun i => w i * gpow 2)%gf v) as (m3 & E3 & Hsw3); [done|done|by apply Hsw2; left| |exists m3; split; [done|by eapply swept_again]].
  eapply swept_reads; [exact Hsw2|done|]. intros l w' i j [= -> ->]%list_elem_of_singleton. apply Hne.
Qed.

Hypothesis Hq : reads m (ptr_add q) 0 N (gfun q0).
Hypothesis Hqs : apart (ptr_add q) (abd_lane src) N size.
Hypothesis Hpq : apart (ptr_add p) (ptr_add q) N N.

(** The words of the piece at [x], read after earlier writes. *)
Ltac still := eapply swept_reads; [eassumption| |off_lanes].
Ltac part H := eapply reads_sub; [exact H|lia|lia].

Lemma pq_func_ok : exists s, abd_iterate_func vdev_raidz_pq_func src 0 size (m, (p, q)) = Ok (0, s) /\ swept m [(ptr_add p, p_new); (ptr_add q, q_new)] 0 size s.1.
Proof using Hsrc HN Hp Hps Hq Hqs Hpq.
  destruct Hsrc. assert (Hsep : separate [ptr_add p; ptr_add q] N) by separated.
  destruct (iterate_units 8 vdev_raidz_pq_func (fun pos => (ptr_add p pos, ptr_add q pos)) (fun pos b i m =>
    m ← xor_word m (ptr_add (ptr_add p pos) (8 * i)) (ptr_add b (8 * i));
    m ← mul2_word m (ptr_add (ptr_add q pos) (8 * i));
    xor_word m (ptr_add (ptr_add q pos) (8 * i)) (ptr_add b (8 * i)))
    m [(ptr_add p, p_new); (ptr_add q, q_new)] src 0 size N) as (m' & E & Hsw); [done|done|done|unfold part_ok; lia|apply Z.divide_0_r|done|done|lia| | |].
  - intros pos b n m1 _. unfold vdev_raidz_pq_func. by rewrite !ptr_add_add.
  - intros pos b i m1 Hpos Hi Hle Hc Hsw. rewrite !ptr_add_add. set (x := pos + 8 * i) in *.
    destruct (xor_word_ok m1 (ptr_add p x) (ptr_add b (8 * i)) (ptr_add p) sl x p0 v) as (m2 & E2 & Hsw2); [apply contig_ptr|done|still; part Hp|still; part cd_reads0|].
    rewrite E2. cbn [mbind res_bind].
    destruct (mul2_xor_ok m2 (ptr_add q x) (ptr_add b (8 * i)) (ptr_add q) x q0) as (m3 & E3 & Hsw3);
      [apply contig_ptr|done|still; still; part Hq|still; still; part cd_reads0|intros; apart_solve|].
    exists m3. split; [exact E3|]. apply (swept_app m1 [_] [_] _ _ m2); [done|done|cross_lanes].
  - rewrite !ptr_add_0 in E. by eexists.
Qed.

Hypothesis Hr : reads m (ptr_add r) 0 N (gfun r0).
Hypothesis Hrs : apart (ptr_add r) (abd_lane src) N size.
Hypothesis Hpr : apart (ptr_add p) (ptr_add r) N N.
Hypothesis Hqr : apart (ptr_add q) (ptr_add r) N N.

Lemma pqr_func_ok : exists s, abd_iterate_func vdev_raidz_pqr_func src 0 size (m, (p, q, r)) = Ok (0, s) /\
  swept m [(ptr_add p, p_new); (ptr_add q, q_new); (ptr_add r, r_new)] 0 size s.1.
Proof using Hsrc HN Hp Hps Hq Hqs Hpq Hr Hrs Hpr Hqr.
  destruct Hsrc. assert (Hsep : separate [ptr_add p; ptr_add q; ptr_add r] N) by separated.
  destruct (iterate_units 8 vdev_raidz_pqr_func (fun pos => (ptr_add p pos, ptr_add q pos, ptr_add r pos)) (fun pos b i m =>
    m ← xor_word m (ptr_add (ptr_add p pos) (8 * i)) (ptr_add b (8 * i));
    m ← mul2_word m (ptr_add (ptr_add q pos) (8 * i));
    m ← xor_word m (ptr_add (ptr_add q pos) (8 * i)) (ptr_add b (8 * i));
    m ← mul4_word m (ptr_add (ptr_add r pos) (8 * i));
    xor_word m (ptr_add (ptr_add r pos) (8 * i)) (ptr_add b (8 * i)))
    m [(ptr_add p, p_new); (ptr_add q, q_new); (ptr_add r, r_new)] src 0 size N) as (m' & E & Hsw); [done|done|done|unfold part_ok; lia|apply Z.divide_0_r|done|done|lia| | |].
  - intros pos b n m1 _. unfold vdev_raidz_pqr_func. by rewrite !ptr_add_add.
  - intros pos b i m1 Hpos Hi Hle Hc Hsw. rewrite !ptr_add_add. set (x := pos + 8 * i) in *.
    destruct (xor_word_ok m1 (ptr_add p x) (ptr_add b (8 * i)) (ptr_add p) sl x p0 v) as (m2 & E2 & Hsw2); [apply contig_ptr|done|still; part Hp|still; part cd_reads0|].
    rewrite E2. cbn [mbind res_bind].
    destruct (mul2_xor_ok m2 (ptr_add q x) (ptr_add b (8 * i)) (ptr_add q) x q0) as (m3 & E3 & Hsw3);
      [apply contig_ptr|done|still; still; part Hq|still; still; part cd_reads0|intros; apart_solve|].
    apply bind_Ok in E3 as (m3' & E3 & E3'). rewrite E3. cbn [mbind res_bind]. rewrite E3'. cbn [mbind res_bind].
    destruct (mul4_xor_ok m3 (ptr_add r x) (ptr_add b (8 * i)) (ptr_add r) x r0) as (m4 & E4 & Hsw4);
      [apply contig_ptr|done|still; still; still; part Hr|still; still; still; part cd_reads0|intros; apart_solve|].
    exists m4. split; [exact E4|]. apply (swept_app m1 [_] [_; _] _ _ m2); [done|apply (swept_app m2 [_] [_] _ _ m3); [done|done|cross_lanes]|cross_lanes].
  - rewrite !ptr_add_0 in E. by eexists.
Qed.


(** The loops over the words after the end of a short column. *)
Lemma words_sweep ts top m1 body lo hi :
  separate (fst <$> ts) top -> 0 <= lo <= hi -> 8 * hi <= top ->
  (forall i m2, lo <= i < hi -> swept m1 ts (8 * lo) (8 * i) m2 -> exists m3, body i m2 = Ok m3 /\ swept m2 ts (8 * i) (8 * i + 8) m3) ->
  exists m', for_range lo hi body m1 = Ok m' /\ swept m1 ts (8 * lo) (8 * hi) m'.
Proof using.
  intros Hsep Hlo Htop Hb. destruct (for_range_inv (fun i m2 => swept m1 ts (8 * lo) (8 * i) m2) lo hi body m1) as (m' & E & Hsw); [lia| |apply swept_empty|by exists m'].
  intros i m2 Hi Hsw. destruct (Hb i m2 Hi Hsw) as (m3 & E3 & Hsw3). exists m3. split; [done|]. replace (8 * (i + 1)) with (8 * i + 8) by lia. eapply swept_trans; [done..|lia|lia].
Qed.

Hypothesis HN8 : (8 | N).

(** What a walk over the column leaves, and its end. *)
Lemma tail_pad l w ts m1 m2 w0 :
  swept m1 ts size N m2 -> reads m1 l size N (gfun w0) -> (forall l' w' i j, (l', w') ∈ ts -> size <= i < N -> size <= j < N -> l i <> l' j) ->
  (forall i, size <= i < N -> w i = w0 i) -> swept m1 ((l, gfun w) :: ts) size N m2.
Proof using.
  intros Hsw Hl Ha E. apply swept_pad; [done|]. intros i Hi. unfold gfun. rewrite E by done. by apply (swept_reads m1 ts size N m2 l size N _ Hsw Hl Ha).
Qed.

Lemma p_add_col : exists m',
  ('(_, (m1, _)) ← abd_iterate_func vdev_raidz_p_func src 0 size (m, p); Ok m1) = Ok m' /\ swept m [(ptr_add p, p_new)] 0 N m'.
Proof using Hsrc HN Hp Hps.
  destruct p_func_ok as ([m1 s] & E & Hsw). rewrite E. cbn [mbind res_bind fst] in *. exists m1. split; [done|]. pose proof Hsrc as [].
  eapply (swept_trans _ _ _ _ _ N); [exact Hsw| |separated|lia|lia]. apply (tail_pad _ _ _ _ _ p0); [by constructor; [intros l w ?%elem_of_nil|]|still; part Hp| |intros i Hi; rewrite cd_zero0 by lia; ring].
  by intros l' w' i j ?%elem_of_nil.
Qed.

Lemma pq_add_col : exists m',
  ('(_, (m1, _)) ← abd_iterate_func vdev_raidz_pq_func src 0 size (m, (p, q)); for_range (size / 8) (N / 8) (fun i m => mul2_word m (ptr_add q (8 * i))) m1) = Ok m' /\
  swept m [(ptr_add p, p_new); (ptr_add q, q_new)] 0 N m'.
Proof using Hsrc HN Hp Hps Hq Hqs Hpq HN8.
  destruct pq_func_ok as ([m1 s] & E & Hsw). rewrite E. cbn [mbind res_bind fst] in *. pose proof Hsrc as []. destruct (div_units 8 size ltac:(lia) ltac:(lia) cd_div0) as [Es Hs0]. destruct (div_units 8 N ltac:(lia) ltac:(lia) HN8) as [EN HN0].
  assert (Hle : size / 8 <= N / 8) by (apply Z.div_le_mono; lia).
  destruct (words_sweep [(ptr_add q, gfun (fun i => q0 i * gpow 1)%gf)] N m1 (fun i m => mul2_word m (ptr_add q (8 * i))) (size / 8) (N / 8)) as (m2 & E2 & Hsw2); [separated|lia|lia| |].
  { intros i m2 Hi Hsw2. apply mul2_word_ok; [apply contig_ptr|]. still. still. part Hq. }
  exists m2. split; [done|]. rewrite <- Es, <- EN in Hsw2. eapply swept_trans; [exact Hsw| |separated|lia|lia].
  apply (tail_pad _ _ _ _ _ p0); [|still; part Hp|off_lanes|intros i Hi; rewrite cd_zero0 by lia; ring].
  eapply swept_ext; [exact Hsw2|]. intros i Hi. unfold gfun. rewrite cd_zero0 by lia. f_equal. ring.
Qed.

Lemma pqr_add_col : exists m',
  ('(_, (m1, _)) ← abd_iterate_func vdev_raidz_pqr_func src 0 size (m, (p, q, r));
   for_range (size / 8) (N / 8) (fun i m => m ← mul2_word m (ptr_add q (8 * i)); mul4_word m (ptr_add r (8 * i))) m1) = Ok m' /\
  swept m [(ptr_add p, p_new); (ptr_add q, q_new); (ptr_add r, r_new)] 0 N m'.
Proof using Hsrc HN Hp Hps Hq Hqs Hpq Hr Hrs Hpr Hqr HN8.
  destruct pqr_func_ok as ([m1 s] & E & Hsw). rewrite E. cbn [mbind res_bind fst] in *. pose proof Hsrc as []. destruct (div_units 8 size ltac:(lia) ltac:(lia) cd_div0) as [Es Hs0]. destruct (div_units 8 N ltac:(lia) ltac:(lia) HN8) as [EN HN0].
  assert (Hle : size / 8 <= N / 8) by (apply Z.div_le_mono; lia).
  destruct (words_sweep [(ptr_add q, q_new); (ptr_add r, r_new)] N m1 (fun i m => m ← mul2_word m (ptr_add q (8 * i)); mul4_word m (ptr_add r (8 * i))) (size / 8) (N / 8)) as (m2 & E2 & Hsw2);
    [separated|lia|lia| |].
  { intros i m2 Hi Hsw2. destruct (mul2_word_ok m2 (ptr_add q (8 * i)) (ptr_add q) (8 * i) q0) as (m3 & E3 & Hsw3); [apply contig_ptr|still; still; part Hq|].
    rewrite E3. cbn [mbind res_bind]. destruct (mul4_word_ok m3 (ptr_add r (8 * i)) (ptr_add r) (8 * i) r0) as (m4 & E4 & Hsw4); [apply contig_ptr|still; still; still; part Hr|].
    exists m4. split; [done|]. apply (swept_app m2 [_] [_] _ _ m3); [| |cross_lanes].
    - eapply swept_ext; [exact Hsw3|]. intros j Hj. unfold gfun. rewrite cd_zero0 by lia. f_equal. ring.
    - eapply swept_ext; [exact Hsw4|]. intros j Hj. unfold gfun. rewrite cd_zero0 by lia. f_equal. ring. }
  exists m2. split; [done|]. rewrite <- Es, <- EN in Hsw2. eapply swept_trans; [exact Hsw| |separated|lia|lia].
  apply (tail_pad _ _ _ _ _ p0); [done|still; part Hp|off_lanes|intros i Hi; rewrite cd_zero0 by lia; ring].
Qed.

End Add.

(** ** The first data column *)

Section First.

Context (m : mem) (p q r : ptr) (src : abd) (size N : Z) (v : Z -> gf).
Hypothesis Hsrc : col_data m src size v.
Hypothesis HN : size <= N.
Hypothesis HN0 : 0 < N.
Hypothesis HN8 : (8 | N).
Hypothesis Hp : mapped m (ptr_add p) 0 N.
Hypothesis Hps : apart (ptr_add p) (abd_lane src) N size.

Ltac still_mapped H := repeat (eapply swept_mapped; [eassumption| |off_lanes]); eapply mapped_sub; [exact H|lia|lia].

Lemma zero_word m1 d dl pos : contig dl pos d 8 -> mapped m1 dl pos (pos + 8) -> exists m2, store64 m1 d 0 = Ok m2 /\ swept m1 [(dl, gfun (fun _ => g0))] pos (pos + 8) m2.
Proof using. intros Hd Hm. by apply (store64_lane m1 dl pos d (fun _ => g0)). Qed.

(** [memcpy] between two parity buffers. *)
Lemma parity_copy m1 d s w : mapped m1 (ptr_add d) 0 N -> mapped m1 (ptr_add s) 0 N -> reads m1 (ptr_add s) 0 size (gfun w) ->
  exists m2, memcpy m1 d s size = Ok m2 /\ swept m1 [(ptr_add d, gfun w)] 0 size m2.
Proof using Hsrc HN HN0.
  intros Hd Hs Hr. destruct Hsrc. destruct (decide (size = 0)) as [E0|Hne].
  - exists m1. rewrite E0. split; [by apply (memcpy_none m1 d s N)|apply swept_empty].
  - apply (memcpy_lane m1 d s size (ptr_add d) (ptr_add s) 0); [lia|rewrite <- (ptr_add_0 d) at 2; apply contig_ptr|rewrite <- (ptr_add_0 s) at 2; apply contig_ptr| |done].
    eapply mapped_sub; [exact Hd|lia|lia].
Qed.

Lemma p_first : size = N -> exists m', abd_copy_to_buf_off m p src 0 size = Ok m' /\ swept m [(ptr_add p, gfun v)] 0 N m'.
Proof using Hsrc Hp Hps. intros E. destruct Hsrc. rewrite <- E. apply copy_to_buf_lane; [done|done|done|by rewrite E|by rewrite <- E in Hps]. Qed.

Hypothesis Hq : mapped m (ptr_add q) 0 N.
Hypothesis Hqs : apart (ptr_add q) (abd_lane src) N size.
Hypothesis Hpq : apart (ptr_add p) (ptr_add q) N N.

Lemma pq_first : exists m',
  (m1 ← abd_copy_to_buf_off m p src 0 size; m1 ← memcpy m1 q p size;
   for_range (size / 8) (N / 8) (fun i m => m ← store64 m (ptr_add p (8 * i)) 0; store64 m (ptr_add q (8 * i)) 0) m1) = Ok m' /\
  swept m [(ptr_add p, gfun v); (ptr_add q, gfun v)] 0 N m'.
Proof using Hsrc HN HN0 HN8 Hp Hps Hq Hqs Hpq.
  pose proof Hsrc as []. destruct (div_units 8 size ltac:(lia) ltac:(lia) cd_div0) as [Es Hs0]. destruct (div_units 8 N ltac:(lia) ltac:(lia) HN8) as [EN HNn]. assert (Hle : size / 8 <= N / 8) by (apply Z.div_le_mono; lia).
  destruct (copy_to_buf_lane m src size cd_wf0 cd_size0 p (gfun v)) as (m1 & E1 & Hsw1); [done|by eapply mapped_sub|by eapply apart_sub|]. rewrite E1. cbn [mbind res_bind].
  destruct (parity_copy m1 q p v) as (m2 & E2 & Hsw2); [still_mapped Hq| |by apply Hsw1; left|].
  { intros i Hi. destruct (decide (i < size)); [rewrite (sw_new _ _ _ _ _ Hsw1 (ptr_add p) (gfun v)); [by eexists|by left|lia]|].
    rewrite (sw_old _ _ _ _ _ Hsw1); [by apply Hp|]. intros l w [= -> ->]%list_elem_of_singleton j Hj. apart_solve. }
  rewrite E2. cbn [mbind res_bind]. destruct (words_sweep [(ptr_add p, gfun v); (ptr_add q, gfun v)] N m2
    (fun i m => m ← store64 m (ptr_add p (8 * i)) 0; store64 m (ptr_add q (8 * i)) 0) (size / 8) (N / 8)) as (m3 & E3 & Hsw3); [separated|lia|lia| |].
  { intros i m3 Hi Hsw3. destruct (zero_word m3 (ptr_add p (8 * i)) (ptr_add p) (8 * i)) as (m4 & E4 & Hsw4); [apply contig_ptr|still_mapped Hp|]. rewrite E4. cbn [mbind res_bind].
    destruct (zero_word m4 (ptr_add q (8 * i)) (ptr_add q) (8 * i)) as (m5 & E5 & Hsw5); [apply contig_ptr|still_mapped Hq|].
    exists m5. split; [done|]. apply (swept_app m3 [_] [_] _ _ m4); [eapply swept_ext; [exact Hsw4|]|eapply swept_ext; [exact Hsw5|]|cross_lanes];
      intros j Hj; unfold gfun; by rewrite cd_zero0 by lia. }
  exists m3. split; [done|]. rewrite <- Es, <- EN in Hsw3. eapply swept_trans; [|exact Hsw3|separated|lia|lia]. apply (swept_app m [_] [_] _ _ m1); [done|done|cross_lanes].
Qed.

Hypothesis Hr : mapped m (ptr_add r) 0 N.
Hypothesis Hrs : apart (ptr_add r) (abd_lane src) N size.
Hypothesis Hpr : apart (ptr_add p) (ptr_add r) N N.
Hypothesis Hqr : apart (ptr_add q) (ptr_add r) N N.

Lemma pqr_first : exists m',
  (m1 ← abd_copy_to_buf_off m p src 0 size; m1 ← memcpy m1 q p size; m1 ← memcpy m1 r p size;
   for_range (size / 8) (N / 8) (fun i m => m ← store64 m (ptr_add p (8 * i)) 0; m ← store64 m (ptr_add q (8 * i)) 0; store64 m (ptr_add r (8 * i)) 0) m1) = Ok m' /\
  swept m [(ptr_add p, gfun v); (ptr_add q, gfun v); (ptr_add r, gfun v)] 0 N m'.
Proof using Hsrc HN HN0 HN8 Hp Hps Hq Hqs Hpq Hr Hrs Hpr Hqr.
  pose proof Hsrc as []. destruct (div_units 8 size ltac:(lia) ltac:(lia) cd_div0) as [Es Hs0]. destruct (div_units 8 N ltac:(lia) ltac:(lia) HN8) as [EN HNn]. assert (Hle : size / 8 <= N / 8) by (apply Z.div_le_mono; lia).
  destruct (copy_to_buf_lane m src size cd_wf0 cd_size0 p (gfun v)) as (m1 & E1 & Hsw1); [done|by eapply mapped_sub|by eapply apart_sub|]. rewrite E1. cbn [mbind res_bind].
  assert (Hp1 : mapped m1 (ptr_add p) 0 N).
  { intros i Hi. destruct (decide (i < size)); [rewrite (sw_new _ _ _ _ _ Hsw1 (ptr_add p) (gfun v)); [by eexists|by left|lia]|].
    rewrite (sw_old _ _ _ _ _ Hsw1); [by apply Hp|]. intros l w [= -> ->]%list_elem_of_singleton j Hj. apart_solve. }
  destruct (parity_copy m1 q p v) as (m2 & E2 & Hsw2); [still_mapped Hq|done|by apply Hsw1; left|]. rewrite E2. cbn [mbind res_bind].
  destruct (parity_copy m2 r p v) as (m3 & E3 & Hsw3); [still_mapped Hr|still_mapped Hp1| |]. { eapply swept_reads; [exact Hsw2|by apply Hsw1; left|off_lanes]. }
  rewrite E3. cbn [mbind res_bind].
  destruct (words_sweep [(ptr_add p, gfun v); (ptr_add q, gfun v); (ptr_add r, gfun v)] N m3
    (fun i m => m ← store64 m (ptr_add p (8 * i)) 0; m ← store64 m (ptr_add q (8 * i)) 0; store64 m (ptr_add r (8 * i)) 0) (size / 8) (N / 8)) as (m4 & E4 & Hsw4); [separated|lia|lia| |].
  { intros i m4 Hi Hsw4. destruct (zero_word m4 (ptr_add p (8 * i)) (ptr_add p) (8 * i)) as (m5 & E5 & Hsw5); [apply contig_ptr|still_mapped Hp|]. rewrite E5. cbn [mbind res_bind].
    destruct (zero_word m5 (ptr_add q (8 * i)) (ptr_add q) (8 * i)) as (m6 & E6 & Hsw6); [apply contig_ptr|still_mapped Hq|]. rewrite E6. cbn [mbind res_bind].
    destruct (zero_word m6 (ptr_add r (8 * i)) (ptr_add r) (8 * i)) as (m7 & E7 & Hsw7); [apply contig_ptr|still_mapped Hr|].
    exists m7. split; [done|].
    apply (swept_app m4 [_] [_; _] _ _ m5); [eapply swept_ext; [exact Hsw5|]|apply (swept_app m5 [_] [_] _ _ m6); [eapply swept_ext; [exact Hsw6|]|eapply swept_ext; [exact Hsw7|]|cross_lanes]|cross_lanes];
      intros j Hj; unfold gfun; by rewrite cd_zero0 by lia. }
  exists m4. split; [done|]. rewrite <- Es, <- EN in Hsw4. eapply swept_trans; [|exact Hsw4|separated|lia|lia].
  apply (swept_app m [_] [_; _] _ _ m1); [done|apply (swept_app m1 [_] [_] _ _ m2); [done|done|cross_lanes]|cross_lanes].
Qed.

End First.

(** ** All columns *)

Definition parity_at (k : Z) (vs : list (Z -> gf)) (i : Z) : gf := foldl (fun acc (v : Z -> gf) => acc * gpow k + v i)%gf g0 vs.

Lemma parity_snoc k vs v i : parity_at k (vs ++ [v]) i = (parity_at k vs i * gpow k + v i)%gf.
Proof. unfold parity_at. by rewrite foldl_app. Qed.

Lemma parity_one k v i : parity_at k [v] i = v i.
Proof. unfold parity_at. cbn. ring. Qed.

(** The map at the parity addresses [ps], with the contents [vs] of the data. *)
Record gen_ok (rm : raidz_map) (m : mem) (ps : list ptr) (N : Z) (vs : list (Z -> gf)) : Prop := {
  go_cols : rm_cols rm = rm_firstdatacol rm + Z.of_nat (length vs) /\ (0 < length vs)%nat /\ 0 <= rm_firstdatacol rm;
  go_N : 0 < N /\ (8 | N);
  go_ps : forall k p, ps !! k = Some p -> exists rc a, rm_col rm !! k = Some rc /\ rc_abd rc = Some a /\ abd_u a = AbdLinear p /\ rc_size rc = N;
  go_mapped : forall p, p ∈ ps -> mapped m (ptr_add p) 0 N;
  go_apart : forall k k' p p', ps !! k = Some p -> ps !! k' = Some p' -> k <> k' -> apart (ptr_add p) (ptr_add p') N N;
  go_data : forall j v, vs !! j = Some v -> exists rc a, rm_col rm !! (Z.to_nat (rm_firstdatacol rm) + j)%nat = Some rc /\ rc_abd rc = Some a /\
    col_data m a (rc_size rc) v /\ rc_size rc <= N /\ forall p, p ∈ ps -> apart (ptr_add p) (abd_lane a) N (rc_size rc)
}.

(** The parity of the columns so far. *)
Definition parity_targets (ps : list ptr) (vs : list (Z -> gf)) : list (lane * (Z -> Z)) :=
  imap (fun k p => (ptr_add p, gfun (parity_at (Z.of_nat k) vs))) ps.

(** Lanes of several parity buffers. *)
Abbreviation lanes f ps := (imap (fun k p => (ptr_add p, f k p)) ps).

Lemma lanes_fst (f : nat -> ptr -> Z -> Z) ps : fst <$> lanes f ps = ptr_add <$> ps.
Proof. rewrite fmap_imap. revert f. induction ps as [|p ps IH]; intros f; [done|]. cbn. f_equal. apply (IH (fun k => f (S k))). Qed.

Lemma lanes_elem (f : nat -> ptr -> Z -> Z) ps l w : (l, w) ∈ lanes f ps <-> exists k p, ps !! k = Some p /\ l = ptr_add p /\ w = f k p.
Proof.
  split.
  - intros [k Hk]%list_elem_of_lookup. rewrite list_lookup_imap in Hk. destruct (ps !! k) as [p|] eqn:E; [|done]. injection Hk as <- <-. by exists k, p.
  - intros (k & p & Hk & -> & ->). apply (list_elem_of_lookup_2 _ k). by rewrite list_lookup_imap, Hk.
Qed.

Lemma lanes_ext (f g : nat -> ptr -> Z -> Z) ps m lo hi m' :
  swept m (lanes f ps) lo hi m' -> (forall k p i, ps !! k = Some p -> lo <= i < hi -> f k p i = g k p i) -> swept m (lanes g ps) lo hi m'.
Proof.
  intros [Hn Ho] E. constructor.
  - intros l w (k & p & Hk & -> & ->)%lanes_elem i Hi. rewrite <- (E k p i Hk Hi). apply (Hn (ptr_add p) (f k p)); [apply lanes_elem; by exists k, p|done].
  - intros x Hx. apply Ho. intros l w (k & p & Hk & -> & ->)%lanes_elem i Hi. apply (Hx (ptr_add p) (g k p)); [apply lanes_elem; by exists k, p|done].
Qed.

Section Gen.

Context (rm : raidz_map) (m : mem) (N : Z) (vs : list (Z -> gf)).

(** A loop over the data columns that treats the first one and each other one
    right computes the parity. *)
Lemma gen_loop_ok ps (body : Z -> mem -> res mem) :
  gen_ok rm m ps N vs ->
  (forall m1 rc a v, rm_col rm !! Z.to_nat (rm_firstdatacol rm) = Some rc -> rc_abd rc = Some a -> vs !! 0%nat = Some v -> m1 = m -> col_data m1 a (rc_size rc) v -> rc_size rc <= N ->
     (forall p, p ∈ ps -> mapped m1 (ptr_add p) 0 N /\ apart (ptr_add p) (abd_lane a) N (rc_size rc)) ->
     exists m2, body (rm_firstdatacol rm) m1 = Ok m2 /\ swept m1 (lanes (fun _ _ => gfun v) ps) 0 N m2) ->
  (forall j m1 rc a v, (0 < j)%nat -> rm_col rm !! (Z.to_nat (rm_firstdatacol rm) + j)%nat = Some rc -> rc_abd rc = Some a -> vs !! j = Some v -> col_data m1 a (rc_size rc) v -> rc_size rc <= N ->
     (forall k p, ps !! k = Some p -> reads m1 (ptr_add p) 0 N (gfun (parity_at (Z.of_nat k) (take j vs))) /\ apart (ptr_add p) (abd_lane a) N (rc_size rc)) ->
     exists m2, body (rm_firstdatacol rm + Z.of_nat j) m1 = Ok m2 /\
       swept m1 (lanes (fun k _ => gfun (fun i => parity_at (Z.of_nat k) (take j vs) i * gpow (Z.of_nat k) + v i)%gf) ps) 0 N m2) ->
  exists m', for_range (rm_firstdatacol rm) (rm_cols rm) body m = Ok m' /\ swept m (parity_targets ps vs) 0 N m'.
Proof.
  intros Hg Hfirst Hnext. pose proof Hg as [[Ec [Hlen Hfd]] HN Hps Hmap Hap Hdata]. rewrite for_range_first by lia.
  destruct (lookup_lt_is_Some_2 vs 0%nat Hlen) as [v0 Hv0]. destruct (Hdata 0%nat v0 Hv0) as (rc & a & Hrc & Ha & Hcd & Hsz & Hpa). rewrite Nat.add_0_r in Hrc.
  destruct (Hfirst m rc a v0) as (m1 & E1 & Hsw1); [done..|intros p Hp; split; [by apply Hmap|by apply Hpa]|]. rewrite E1. cbn [mbind res_bind].
  destruct (for_range_inv (fun c m2 => swept m (parity_targets ps (take (Z.to_nat (c - rm_firstdatacol rm)) vs)) 0 N m2) (rm_firstdatacol rm + 1) (rm_cols rm) body m1) as (m' & E' & Hsw'); [lia| | |].
  - intros c m2 Hc Hsw. set (j := Z.to_nat (c - rm_firstdatacol rm)) in *. destruct (lookup_lt_is_Some_2 vs j) as [v Hv]; [lia|].
    destruct (Hdata j v Hv) as (rc' & a' & Hrc' & Ha' & Hcd' & Hsz' & Hpa').
    assert (Hkeep : forall l hi, (forall p, p ∈ ps -> apart (ptr_add p) l N hi) -> forall w, reads m l 0 hi w -> reads m2 l 0 hi w).
    { intros l hi Hl w Hw. eapply swept_reads; [exact Hsw|exact Hw|]. intros l' w' i i' (k & p & Ep & -> & ->)%lanes_elem Hi Hi'. apply not_eq_sym, Hl; [by eapply list_elem_of_lookup_2|lia|lia]. }
    destruct (Hnext j m2 rc' a' v) as (m3 & E3 & Hsw3); [lia|done|done|done| |done| |].
    { destruct Hcd'. constructor; try done. apply Hkeep; [|done]. intros p Hp. by apply Hpa'. }
    { intros k p Hk. split; [|apply Hpa'; by eapply list_elem_of_lookup_2]. apply Hsw, lanes_elem. by exists k, p. }
    replace (rm_firstdatacol rm + Z.of_nat j) with c in E3 by lia. exists m3. split; [done|]. eapply swept_lanes; [exact Hsw| |].
    + replace (Z.to_nat (c + 1 - rm_firstdatacol rm)) with (S j) by lia. rewrite (take_S_r _ _ _ Hv). eapply lanes_ext; [exact Hsw3|].
      intros k p i _ _. unfold gfun. by rewrite parity_snoc.
    + unfold parity_targets. by rewrite !lanes_fst.
  - replace (Z.to_nat (rm_firstdatacol rm + 1 - rm_firstdatacol rm)) with 1%nat by lia. destruct vs as [|v vs']; [done|]. injection Hv0 as ->. cbn [take firstn]. eapply lanes_ext; [exact Hsw1|].
    intros k p i _ _. unfold gfun. by rewrite parity_one.
  - exists m'. split; [done|]. replace (Z.to_nat (rm_cols rm - rm_firstdatacol rm)) with (length vs) in Hsw' by lia. by rewrite firstn_all in Hsw'.
Qed.


Lemma gen_buf ps k p : gen_ok rm m ps N vs -> ps !! k = Some p -> col_buf rm (Z.of_nat k) = Ok p /\ exists rc, rm_col_at rm (Z.of_nat k) = Ok rc /\ rc_size rc = N.
Proof.
  intros [_ _ Hps _ _ _] Hk. destruct (Hps k p Hk) as (rc & a & Hrc & Ha & Hu & Hs). unfold col_buf, col_abd, rm_col_at. rewrite Nat2Z.id, Hrc. cbn [deref mbind res_bind].
  rewrite Ha. cbn [deref mbind res_bind]. unfold abd_to_buf. rewrite Hu. split; [done|]. by exists rc.
Qed.

(** The body of each loop at a data column. *)
Lemma col_step rc a c : rm_col rm !! Z.to_nat c = Some rc -> rc_abd rc = Some a -> forall {A} (f : raidz_col -> abd -> res A), (rc ← rm_col_at rm c; src ← deref (rc_abd rc); f rc src) = f rc a.
Proof. intros Hrc Ha A f. unfold rm_col_at. rewrite Hrc. cbn [deref mbind res_bind]. by rewrite Ha. Qed.

Lemma gen_apart2 p q : gen_ok rm m [p; q] N vs -> apart (ptr_add p) (ptr_add q) N N.
Proof. intros [_ _ _ _ Ha _]. by apply (Ha 0%nat 1%nat). Qed.

Lemma gen_apart3 p q r : gen_ok rm m [p; q; r] N vs ->
  apart (ptr_add p) (ptr_add q) N N /\ apart (ptr_add p) (ptr_add r) N N /\ apart (ptr_add q) (ptr_add r) N N.
Proof. intros [_ _ _ _ Ha _]. split_and!; [by apply (Ha 0%nat 1%nat)|by apply (Ha 0%nat 2%nat)|by apply (Ha 1%nat 2%nat)]. Qed.

Lemma generate_p_ok p :
  gen_ok rm m [p] N vs -> (forall rc, rm_col rm !! Z.to_nat (rm_firstdatacol rm) = Some rc -> rc_size rc = N) ->
  exists m', vdev_raidz_generate_parity_p m rm = Ok m' /\ swept m (parity_targets [p] vs) 0 N m'.
Proof.
  intros Hg Hfull. pose proof Hg as [[_ [_ Hfd]] [HN HN8] _ _ _ _]. destruct (gen_buf [p] 0 p Hg eq_refl) as [Ep _]. change (Z.of_nat 0) with VDEV_RAIDZ_P in Ep.
  apply gen_loop_ok; [done|..].
  - intros m1 rc a v Hrc Ha Hv -> Hcd Hsz Hp. rewrite (col_step rc a) by done. rewrite Ep. cbn [mbind res_bind]. rewrite Z.eqb_refl.
    destruct (Hp p) as [Hm Hap]; [by left|]. by apply p_first; [..|apply Hfull].
  - intros j m1 rc a v Hj Hrc Ha Hv Hcd Hsz Hp. rewrite (col_step rc a) by (done || (replace (Z.to_nat _) with (Z.to_nat (rm_firstdatacol rm) + j)%nat by lia; done)).
    rewrite Ep. cbn [mbind res_bind]. rewrite (proj2 (Z.eqb_neq _ _)) by lia. destruct (Hp 0%nat p eq_refl) as [Hr Hap].
    destruct (p_add_col m1 p a (rc_size rc) N v (parity_at 0 (take j vs))) as (m2 & E & Hsw); [done..|]. exists m2. split; [done|].
    apply (lanes_ext (fun _ _ => gfun (fun i => parity_at 0 (take j vs) i + v i)%gf) _ [p]); [done|]. intros [|k] q i Hk _; [|done]. unfold gfun. f_equal. change (Z.of_nat 0) with 0. rewrite gpow_0. ring.
Qed.

Lemma generate_pq_ok p q :
  gen_ok rm m [p; q] N vs -> exists m', vdev_raidz_generate_parity_pq m rm = Ok m' /\ swept m (parity_targets [p; q] vs) 0 N m'.
Proof.
  intros Hg. pose proof Hg as [[_ [_ Hfd]] [HN HN8] _ _ _ _]. destruct (gen_buf _ 0 p Hg eq_refl) as (Ep & rp & Erp & EN). destruct (gen_buf _ 1 q Hg eq_refl) as [Eq _].
  change (Z.of_nat 0) with VDEV_RAIDZ_P in Ep, Erp. change (Z.of_nat 1) with VDEV_RAIDZ_Q in Eq. pose proof (gen_apart2 p q Hg) as Hpq.
  unfold vdev_raidz_generate_parity_pq. rewrite Erp. cbn [mbind res_bind]. rewrite EN. apply gen_loop_ok; [done|..].
  - intros m1 rc a v Hrc Ha Hv -> Hcd Hsz Hp. rewrite (col_step rc a) by done. rewrite Ep. cbn [mbind res_bind]. rewrite Eq. cbn [mbind res_bind]. rewrite Z.eqb_refl.
    destruct (Hp p) as [Hm Hap]; [by left|]. destruct (Hp q) as [Hmq Haq]; [right; by left|]. by apply pq_first.
  - intros j m1 rc a v Hj Hrc Ha Hv Hcd Hsz Hp. rewrite (col_step rc a) by (done || (replace (Z.to_nat _) with (Z.to_nat (rm_firstdatacol rm) + j)%nat by lia; done)).
    rewrite Ep. cbn [mbind res_bind]. rewrite Eq. cbn [mbind res_bind]. rewrite (proj2 (Z.eqb_neq _ _)) by lia. destruct (Hp 0%nat p eq_refl) as [Hr Hap]. destruct (Hp 1%nat q eq_refl) as [Hrq Haq].
    destruct (pq_add_col m1 p q a (rc_size rc) N v (parity_at 0 (take j vs)) (parity_at 1 (take j vs))) as (m2 & E & Hsw); [done..|]. exists m2. split; [done|].
    apply (lanes_ext (fun k _ => match k with O => gfun (fun i => parity_at 0 (take j vs) i + v i)%gf | _ => gfun (fun i => parity_at 1 (take j vs) i * gpow 1 + v i)%gf end) _ [p; q]); [done|].
    intros [|[|k]] x i Hk _; [|done|done]. unfold gfun. f_equal. change (Z.of_nat 0) with 0. rewrite gpow_0. ring.
Qed.

Lemma generate_pqr_ok p q r :
  gen_ok rm m [p; q; r] N vs -> exists m', vdev_raidz_generate_parity_pqr m rm = Ok m' /\ swept m (parity_targets [p; q; r] vs) 0 N m'.
Proof.
  intros Hg. pose proof Hg as [[_ [_ Hfd]] [HN HN8] _ _ _ _]. destruct (gen_buf _ 0 p Hg eq_refl) as (Ep & rp & Erp & EN). destruct (gen_buf _ 1 q Hg eq_refl) as [Eq _].
  destruct (gen_buf _ 2 r Hg eq_refl) as [Er _]. change (Z.of_nat 0) with VDEV_RAIDZ_P in Ep, Erp. change (Z.of_nat 1) with VDEV_RAIDZ_Q in Eq. change (Z.of_nat 2) with VDEV_RAIDZ_R in Er.
  destruct (gen_apart3 p q r Hg) as (Hpq & Hpr & Hqr).
  unfold vdev_raidz_generate_parity_pqr. rewrite Erp. cbn [mbind res_bind]. rewrite EN. apply gen_loop_ok; [done|..].
  - intros m1 rc a v Hrc Ha Hv -> Hcd Hsz Hp. rewrite (col_step rc a) by done. rewrite Ep. cbn [mbind res_bind]. rewrite Eq. cbn [mbind res_bind]. rewrite Er. cbn [mbind res_bind]. rewrite Z.eqb_refl.
    destruct (Hp p) as [Hm Hap]; [by left|]. destruct (Hp q) as [Hmq Haq]; [right; by left|]. destruct (Hp r) as [Hmr Har]; [right; right; by left|]. by apply pqr_first.
  - intros j m1 rc a v Hj Hrc Ha Hv Hcd Hsz Hp. rewrite (col_step rc a) by (done || (replace (Z.to_nat _) with (Z.to_nat (rm_firstdatacol rm) + j)%nat by lia; done)).
    rewrite Ep. cbn [mbind res_bind]. rewrite Eq. cbn [mbind res_bind]. rewrite Er. cbn [mbind res_bind]. rewrite (proj2 (Z.eqb_neq _ _)) by lia.
    destruct (Hp 0%nat p eq_refl) as [Hr Hap]. destruct (Hp 1%nat q eq_refl) as [Hrq Haq]. destruct (Hp 2%nat r eq_refl) as [Hrr Har].
    destruct (pqr_add_col m1 p q r a (rc_size rc) N v (parity_at 0 (take j vs)) (parity_at 1 (take j vs)) (parity_at 2 (take j vs))) as (m2 & E & Hsw); [done..|]. exists m2. split; [done|].
    apply (lanes_ext (fun k _ => match k with O => gfun (fun i => parity_at 0 (take j vs) i + v i)%gf | 1%nat => gfun (fun i => parity_at 1 (take j vs) i * gpow 1 + v i)%gf
      | _ => gfun (fun i => parity_at 2 (take j vs) i * gpow 2 + v i)%gf end) _ [p; q; r]); [done|].
    intros [|[|[|k]]] x i Hk _; [|done|done|done]. unfold gfun. f_equal. change (Z.of_nat 0) with 0. rewrite gpow_0. ring.
Qed.

End Gen.

(** ** The parity of a block *)

(** The contents of the data columns, zeros after their ends. *)
Definition raidz_data (m : mem) (db : list abd) (vs : list (Z -> gf)) : Prop :=
  Forall2 (fun a v => reads m (abd_lane a) 0 (abd_size a) (gfun v) /\ forall i, abd_size a <= i -> v i = g0) db vs.

(** The contents of the data columns, as far as these go. *)
Definition data_held (m : mem) (db : list abd) (vs : list (Z -> gf)) : Prop :=
  Forall2 (fun a v => reads m (abd_lane a) 0 (abd_size a) (gfun v)) db vs.

Lemma data_is_held m db vs : raidz_data m db vs -> data_held m db vs.
Proof. intros H. eapply Forall2_impl; [exact H|]. by intros a v [? _]. Qed.

Lemma held_is_data m m' db vs : raidz_data m db vs -> data_held m' db vs -> raidz_data m' db vs.
Proof.
  intros H H'. apply Forall2_same_length_lookup_2; [by eapply Forall2_length|]. intros j a v Ha Hv. destruct (Forall2_lookup_lr _ _ _ _ _ _ H Ha Hv) as [_ Hz]. split; [|done].
  exact (Forall2_lookup_lr _ _ _ _ _ _ H' Ha Hv).
Qed.

(** The addresses of the parity buffers. *)
Definition own_ptr (a : abd) : ptr := Ptr (abd_blk a) 0.

Lemma own_lane size a : own_buf size a -> forall i, 0 <= i < size -> abd_lane a i = ptr_add (own_ptr a) i.
Proof.
  intros H i Hi. unfold abd_lane. rewrite (own_locs _ _ H), nth_lookup, span_lookup, decide_True by lia. cbn. f_equal. lia.
Qed.

Lemma own_linear size a : own_buf size a -> abd_u a = AbdLinear (own_ptr a) /\ abd_size a = size.
Proof. intros (buf & Eu & Eo & Es). unfold own_ptr, abd_blk. rewrite Eu. split; [|done]. destruct buf. cbn in *. by subst. Qed.

Lemma multiple_sub k k' a : (k | k') -> abd_multiple k' a -> abd_multiple k a.
Proof. intros H (H1 & H2 & H3). split_and!; [by etrans|by etrans|]. eapply Forall_impl; [exact H3|]. intros s Hs. by etrans. Qed.

(** Columns are apart. *)
Lemma locs_apart bufs i j a b : NoDup (bufs ≫= locs) -> bufs !! i = Some a -> bufs !! j = Some b -> i <> j -> forall l, l ∈ locs a -> l ∉ locs b.
Proof.
  revert i j. induction bufs as [|x bufs IH]; intros i j Hn Hi Hj Hne l Ha Hb; [done|]. cbn [mbind list_bind] in Hn. apply NoDup_app in Hn as (_ & Hx & Hn).
  destruct i as [|i], j as [|j]; cbn in Hi, Hj; [done| | |by apply (IH i j Hn Hi Hj ltac:(lia) l)].
  - injection Hi as ->. apply (Hx l Ha). apply list_elem_of_bind. exists b. split; [done|]. by eapply list_elem_of_lookup_2.
  - injection Hj as ->. apply (Hx l Hb). apply list_elem_of_bind. exists a. split; [done|]. by eapply list_elem_of_lookup_2.
Qed.

Lemma own_multiple k size a : own_buf size a -> (k | size) -> abd_multiple k a.
Proof. intros (buf & Eu & Eo & Es) Hk. unfold abd_multiple, abd_off, abd_sgs. rewrite Eu, Es. split_and!; [done|apply Z.divide_0_r|by apply Forall_singleton]. Qed.

Lemma own_wf size a : 0 < size -> own_buf size a -> abd_wf a.
Proof. intros Hs H. destruct (own_linear _ _ H) as [Eu Es]. eapply linear_wf; [exact Eu|lia]. Qed.

Section Wf.

Context (rm : raidz_map) (pb db : list abd).
Hypothesis Hwf : raidz_wf rm pb db.

Abbreviation N := (raidz_big rm).

Lemma wf_col (c : nat) a : (pb ++ db) !! c = Some a -> exists rc, rm_col rm !! c = Some rc /\ rc_abd rc = Some a /\ rc_size rc = abd_size a.
Proof.
  intros E. destruct Hwf as [_ _ Ea Ez _ _ _ _ _ _]. pose proof (f_equal (fun l => l !! c) Ea) as Ea'. pose proof (f_equal (fun l => l !! c) Ez) as Ez'. cbn beta in Ea', Ez'.
  rewrite !list_lookup_fmap, E in Ea'. rewrite !list_lookup_fmap, E in Ez'. destruct (take (Z.to_nat (rm_cols rm)) (rm_col rm) !! c) as [rc|] eqn:Er; [|done].
  injection Ea' as Ea'. injection Ez' as Ez'. exists rc. split; [|done]. apply lookup_take_Some in Er as [Er _]. done.
Qed.

Lemma wf_apart i j a b hi hi' : (pb ++ db) !! i = Some a -> (pb ++ db) !! j = Some b -> i <> j -> abd_wf a -> abd_wf b -> hi <= abd_size a -> hi' <= abd_size b -> apart (abd_lane a) (abd_lane b) hi hi'.
Proof.
  intros Hi Hj Hne Ha Hb H1 H2 x y Hx Hy E. apply (locs_apart _ i j a b (rw_sep _ _ _ Hwf) Hi Hj Hne (abd_lane a x)); [apply lane_locs; [done|lia]|rewrite E; apply lane_locs; [done|lia]].
Qed.

Lemma wf_pb k a : pb !! k = Some a -> own_buf N a /\ abd_wf a.
Proof. intros E. pose proof (rw_pb _ _ _ Hwf) as Hp. pose proof (rw_big _ _ _ Hwf) as [? _]. rewrite Forall_lookup in Hp. split; [by eapply Hp|]. eapply own_wf; [|by eapply Hp]. lia. Qed.

Lemma wf_db j a : db !! j = Some a -> abd_wf a /\ abd_multiple 512 a /\ abd_size a <= N.
Proof. intros E. pose proof (rw_db _ _ _ Hwf) as Hd. rewrite Forall_lookup in Hd. by eapply Hd. Qed.

(** The parity lanes by address. *)
Lemma wf_pb_apart k j a b : pb !! k = Some a -> (pb ++ db) !! j = Some b -> k <> j -> abd_wf b -> apart (ptr_add (own_ptr a)) (abd_lane b) N (abd_size b).
Proof.
  intros Hk Hj Hne Hb x y Hx Hy. destruct (wf_pb k a Hk) as [Ho Ha]. rewrite <- (own_lane _ _ Ho) by done. destruct (own_linear _ _ Ho) as [_ Es].
  apply (wf_apart k j a b N (abd_size b)); [by apply lookup_app_l_Some|done|done|done|done|lia|lia|done|done].
Qed.

Lemma wf_gen_ok m vs n : (forall a, a ∈ pb -> mapped m (abd_lane a) 0 N) -> raidz_data m db vs ->
  gen_ok rm m (own_ptr <$> take n pb) N vs.
Proof.
  intros Hmap Hdata. pose proof Hwf as [[Ef Hf] [Ec Hc] _ _ [HN HN512] _ _ _ _ _]. pose proof (Forall2_length _ _ _ Hdata) as Hlen.
  assert (Hps : forall k p, (own_ptr <$> take n pb) !! k = Some p -> exists a, pb !! k = Some a /\ p = own_ptr a).
  { intros k p E. rewrite list_lookup_fmap in E. destruct (take n pb !! k) as [a|] eqn:Ea; [|done]. injection E as <-. apply lookup_take_Some in Ea as [Ea _]. by exists a. }
  constructor.
  - split_and!; lia.
  - split; [lia|]. etrans; [|exact HN512]. by exists 64.
  - intros k p Hk. destruct (Hps k p Hk) as (a & Ha & ->). destruct (wf_pb k a Ha) as [Ho _]. destruct (own_linear _ _ Ho) as [Eu Es]. destruct (wf_col k a) as (rc & Hrc & Hab & Hsz); [by apply lookup_app_l_Some|].
    exists rc, a. split_and!; [done..|lia].
  - intros p [k Hk]%list_elem_of_lookup i Hi. destruct (Hps k p Hk) as (a & Ha & ->). destruct (wf_pb k a Ha) as [Ho _]. rewrite <- (own_lane _ _ Ho) by done. apply Hmap; [by eapply list_elem_of_lookup_2|done].
  - intros k k' p p' Hk Hk' Hne i j Hi Hj. destruct (Hps k p Hk) as (a & Ha & ->), (Hps k' p' Hk') as (b & Hb & ->). destruct (wf_pb k' b Hb) as [Ho Hwb]. rewrite <- (own_lane _ _ Ho j) by done.
    destruct (own_linear _ _ Ho) as [_ Es]. apply (wf_pb_apart k k' a b); [done|by apply lookup_app_l_Some|done|done|done|lia].
  - intros j v Hj. destruct (Forall2_lookup_r _ _ _ _ _ Hdata Hj) as (a & Ha & Hr & Hz). destruct (wf_db j a Ha) as (Hwa & Hma & Hsa).
    assert (Hcol : (pb ++ db) !! (Z.to_nat (rm_firstdatacol rm) + j)%nat = Some a) by (rewrite lookup_app_r by lia; by replace (_ - length pb)%nat with j by lia).
    destruct (wf_col _ a Hcol) as (rc & Hrc & Hab & Hsz). exists rc, a. rewrite Hsz. split_and!; [done|done| |done|].
    + pose proof (aw_size a Hwa). assert (H8 : abd_multiple 8 a) by (eapply multiple_sub; [|exact Hma]; by exists 64). pose proof H8 as (Hd & _). constructor; try done; lia.
    + intros p [k Hk]%list_elem_of_lookup. destruct (Hps k p Hk) as (b & Hb & ->). apply (wf_pb_apart k (Z.to_nat (rm_firstdatacol rm) + j)%nat); [done|done| |done].
      apply lookup_lt_Some in Hb. lia.
Qed.


(** The parity columns hold the parity of the data. *)
Definition parity_holds (m : mem) (vs : list (Z -> gf)) : Prop :=
  forall k a, pb !! k = Some a -> reads m (abd_lane a) 0 N (gfun (parity_at (Z.of_nat k) vs)).

(** Only locations of these buffers are written. *)
Definition only_writes (bufs : list abd) (m m' : mem) : Prop := forall l, l ∉ (bufs ≫= locs) -> mbyte m' l = mbyte m l.

Lemma only_writes_trans bufs m m1 m2 : only_writes bufs m m1 -> only_writes bufs m1 m2 -> only_writes bufs m m2.
Proof. intros H1 H2 l Hl. by rewrite H2, H1. Qed.

Lemma targets_parity m m' vs : swept m (parity_targets (own_ptr <$> pb) vs) 0 N m' -> parity_holds m' vs /\ only_writes pb m m'.
Proof.
  intros [Hn Ho]. split.
  - intros k a Ha i Hi. destruct (wf_pb k a Ha) as [Hown _]. rewrite (own_lane _ _ Hown) by done. apply (Hn (ptr_add (own_ptr a))); [|done]. apply lanes_elem. exists k, (own_ptr a).
    by rewrite list_lookup_fmap, Ha.
  - intros l Hl. apply Ho. intros l' w (k & p & Hk & -> & ->)%lanes_elem i Hi ->. rewrite list_lookup_fmap in Hk. destruct (pb !! k) as [a|] eqn:Ha; [|done]. injection Hk as <-.
    destruct (wf_pb k a Ha) as [Hown Hwa]. destruct (own_linear _ _ Hown) as [_ Es]. apply Hl, list_elem_of_bind. exists a. split; [|by eapply list_elem_of_lookup_2].
    rewrite <- (own_lane _ _ Hown) by done. apply lane_locs; [done|lia].
Qed.

End Wf.

(** The switch of [vdev_raidz_generate_parity]. *)
Definition generate_parity_original (m : mem) (rm : raidz_map) : res mem :=
  if rm_firstdatacol rm =? 1 then vdev_raidz_generate_parity_p m rm
  else if rm_firstdatacol rm =? 2 then vdev_raidz_generate_parity_pq m rm
  else if rm_firstdatacol rm =? 3 then vdev_raidz_generate_parity_pqr m rm
  else Panic.

Lemma generate_original_ok rm pb db m vs :
  raidz_wf rm pb db -> (forall a, a ∈ pb -> mapped m (abd_lane a) 0 (raidz_big rm)) -> raidz_data m db vs ->
  exists m', generate_parity_original m rm = Ok m' /\ parity_holds rm pb m' vs /\ only_writes pb m m'.
Proof.
  intros Hwf Hmap Hdata. pose proof Hwf as [[Ef Hf] [Ec Hc] _ _ _ _ _ Hfull _ _ _]. pose proof (wf_gen_ok rm pb db Hwf m vs (length pb) Hmap Hdata) as Hg. rewrite firstn_all in Hg. change VDEV_RAIDZ_MAXPARITY with 3 in Hf.
  unfold generate_parity_original. enough (exists m', (if rm_firstdatacol rm =? 1 then vdev_raidz_generate_parity_p m rm else if rm_firstdatacol rm =? 2 then vdev_raidz_generate_parity_pq m rm
    else if rm_firstdatacol rm =? 3 then vdev_raidz_generate_parity_pqr m rm else Panic) = Ok m' /\ swept m (parity_targets (own_ptr <$> pb) vs) 0 (raidz_big rm) m') as (m' & E & Hsw).
  { exists m'. split; [done|]. by eapply targets_parity. }
  destruct pb as [|a0 [|a1 [|a2 [|a3 pb']]]]; cbn [length] in Ef; [lia| | | |lia]; rewrite Ef; cbn -[parity_targets vdev_raidz_generate_parity_p vdev_raidz_generate_parity_pq vdev_raidz_generate_parity_pqr].
  - apply generate_p_ok; [done|]. intros rc Hrc. destruct db as [|d db']; [cbn in Ec; lia|]. destruct (wf_col rm _ _ Hwf 1%nat d eq_refl) as (rc' & Hrc' & _ & Hsz).
    rewrite Ef in Hrc. change (Z.to_nat (Z.of_nat 1)) with 1%nat in Hrc. rewrite Hrc in Hrc'. injection Hrc' as ->. rewrite Hsz. by apply Hfull.
  - by apply generate_pq_ok.
  - by apply generate_pqr_ok.
Qed.

