(* ===== verification/RaidzReconst.v ===== *)
(** * Reconstruction: [module/zfs/vdev_raidz.c]

    The original routines that compute one or two lost data columns from the
    others and the parity.  Each is proved to give the data back. *)

From Stdlib Require Import Field.
From stdpp Require Import gmap.
From S2P Require Import Prelude Bits Buffer Gf Memory Abd AbdIter RaidzMap RaidzParity.

(** ** The callbacks *)

Definition load8 (m : mem) (p : ptr) : res Z := bs ← load m p 1; deref (head bs).
Definition store8 (m : mem) (p : ptr) (b : Z) : res mem := store m p [b].

(** Without a private argument. *)
Definition vdev_raidz_reconst_p_func (dbuf sbuf : ptr) (size : Z) (s : mem * unit) : res (Z * (mem * unit)) :=
  let '(m, u) := s in
  m ← for_range 0 (size / 8) (fun i m => xor_word m (ptr_add dbuf (8 * i)) (ptr_add sbuf (8 * i))) m;
  Ok (0, (m, u)).

Definition vdev_raidz_reconst_q_pre_func (dbuf sbuf : ptr) (size : Z) (s : mem * unit) : res (Z * (mem * unit)) :=
  let '(m, u) := s in
  m ← for_range 0 (size / 8) (fun i m =>
    m ← mul2_word m (ptr_add dbuf (8 * i)); xor_word m (ptr_add dbuf (8 * i)) (ptr_add sbuf (8 * i))) m;
  Ok (0, (m, u)).

Definition vdev_raidz_reconst_q_pre_tail_func (buf : ptr) (size : Z) (s : mem * unit) : res (Z * (mem * unit)) :=
  let '(m, u) := s in
  m ← for_range 0 (size / 8) (fun i m => mul2_word m (ptr_add buf (8 * i))) m; Ok (0, (m, u)).

(** The inner loop: each byte [b] of the word becomes [vdev_raidz_exp2(b, rq->exp)]. *)
Definition exp2_bytes (exp : Z) (m : mem) (dst : ptr) : res mem :=
  for_range 0 8 (fun j m => b ← load8 m (ptr_add dst j); store8 m (ptr_add dst j) (vdev_raidz_exp2 b exp)) m.

Definition vdev_raidz_reconst_q_post_func (exp : Z) (buf : ptr) (size : Z) (s : mem * ptr) : res (Z * (mem * ptr)) :=
  let '(m, q) := s in
  let cnt := size / 8 in
  m ← for_range 0 cnt (fun i m => m ← xor_word m (ptr_add buf (8 * i)) (ptr_add q (8 * i)); exp2_bytes exp m (ptr_add buf (8 * i))) m;
  Ok (0, (m, ptr_add q (8 * cnt))).

Record reconst_pq_struct : Type := Rpq { rpq_p : ptr; rpq_q : ptr; rpq_pxy : ptr; rpq_qxy : ptr }.

Definition rpq_add (s : reconst_pq_struct) (n : Z) : reconst_pq_struct :=
  Rpq (ptr_add (rpq_p s) n) (ptr_add (rpq_q s) n) (ptr_add (rpq_pxy s) n) (ptr_add (rpq_qxy s) n).

Section PQ.

Variables (aexp bexp : Z).

(** [*xd = ...], for both callbacks. *)
Definition reconst_x (m : mem) (xd : ptr) (s : reconst_pq_struct) : res mem :=
  p ← load8 m (rpq_p s); pxy ← load8 m (rpq_pxy s); q ← load8 m (rpq_q s); qxy ← load8 m (rpq_qxy s);
  store8 m xd (Z.lxor (vdev_raidz_exp2 (Z.lxor p pxy) aexp) (vdev_raidz_exp2 (Z.lxor q qxy) bexp)).

Definition vdev_raidz_reconst_pq_func (xbuf ybuf : ptr) (size : Z) (s : mem * reconst_pq_struct) : res (Z * (mem * reconst_pq_struct)) :=
  let '(m, rpq) := s in
  m ← for_range 0 size (fun i m =>
    let s := rpq_add rpq i in
    m ← reconst_x m (ptr_add xbuf i) s;
    p ← load8 m (rpq_p s); pxy ← load8 m (rpq_pxy s); x ← load8 m (ptr_add xbuf i);
    store8 m (ptr_add ybuf i) (Z.lxor (Z.lxor p pxy) x)) m;
  Ok (0, (m, rpq_add rpq size)).

Definition vdev_raidz_reconst_pq_tail_func (xbuf : ptr) (size : Z) (s : mem * reconst_pq_struct) : res (Z * (mem * reconst_pq_struct)) :=
  let '(m, rpq) := s in
  m ← for_range 0 size (fun i m => reconst_x m (ptr_add xbuf i) (rpq_add rpq i)) m;
  Ok (0, (m, rpq_add rpq size)).

End PQ.

(** ** The common cases *)

Definition vdev_raidz_reconstruct_p (m : mem) (rm : raidz_map) (tgts : list Z) : res (Z * mem) :=
  x ← deref (tgts !! 0%nat);
  rcx ← rm_col_at rm x;
  dst ← deref (rc_abd rcx);
  src ← col_buf rm VDEV_RAIDZ_P;
  m ← abd_copy_from_buf_off m dst src 0 (rc_size rcx);
  m ← for_range (rm_firstdatacol rm) (rm_cols rm) (fun c m =>
    rc ← rm_col_at rm c;
    let size := Z.min (rc_size rcx) (rc_size rc) in
    src ← deref (rc_abd rc);
    if c =? x then Ok m else
    '(_, (m, _)) ← abd_iterate_func2 vdev_raidz_reconst_p_func dst src 0 0 size (m, tt); Ok m) m;
  Ok (Z.shiftl 1 VDEV_RAIDZ_P, m).

Definition vdev_raidz_reconstruct_q (m : mem) (rm : raidz_map) (tgts : list Z) : res (Z * mem) :=
  x ← deref (tgts !! 0%nat);
  rcx ← rm_col_at rm x;
  dst ← deref (rc_abd rcx);
  m ← for_range (rm_firstdatacol rm) (rm_cols rm) (fun c m =>
    rc ← rm_col_at rm c;
    let size := if c =? x then 0 else Z.min (rc_size rcx) (rc_size rc) in
    src ← deref (rc_abd rc);
    if c =? rm_firstdatacol rm then
      m ← abd_copy_off m dst src 0 0 size;
      if size <? rc_size rcx then abd_zero_off m dst size (rc_size rcx - size) else Ok m
    else
      '(_, (m, _)) ← abd_iterate_func2 vdev_raidz_reconst_q_pre_func dst src 0 0 size (m, tt);
      '(_, (m, _)) ← abd_iterate_func vdev_raidz_reconst_q_pre_tail_func dst size (rc_size rcx - size) (m, tt);
      Ok m) m;
  q ← col_buf rm VDEV_RAIDZ_Q;
  let exp := 255 - (rm_cols rm - 1 - x) in
  '(_, (m, _)) ← abd_iterate_func (vdev_raidz_reconst_q_post_func exp) dst 0 (rc_size rcx) (m, q);
  Ok (Z.shiftl 1 VDEV_RAIDZ_Q, m).

Definition upd_col (rm : raidz_map) (c : Z) (f : raidz_col -> raidz_col) : raidz_map := set_rm_col rm (alter f (Z.to_nat c) (rm_col rm)).

Section ReconstructPQ.

Variable PAGESHIFT : Z.
Variable kmem_alloc : mem -> Z -> Z * list Z.

Definition vdev_raidz_reconstruct_pq (m : mem) (rm : raidz_map) (tgts : list Z) : res (Z * mem) :=
  x ← deref (tgts !! 0%nat);
  y ← deref (tgts !! 1%nat);
  pdata ← col_abd rm VDEV_RAIDZ_P;
  qdata ← col_abd rm VDEV_RAIDZ_Q;
  rcx ← rm_col_at rm x;
  rcy ← rm_col_at rm y;
  rcp ← rm_col_at rm VDEV_RAIDZ_P;
  rcq ← rm_col_at rm VDEV_RAIDZ_Q;
  '(pxyd, m) ← abd_alloc_linear kmem_alloc m (rc_size rcp) true;
  '(qxyd, m) ← abd_alloc_linear kmem_alloc m (rc_size rcq) true;
  let rm' := upd_col rm VDEV_RAIDZ_P (fun rc => set_rc_abd rc (Some pxyd)) in
  let rm' := upd_col rm' VDEV_RAIDZ_Q (fun rc => set_rc_abd rc (Some qxyd)) in
  let rm' := upd_col rm' x (fun rc => set_rc_size rc 0) in
  let rm' := upd_col rm' y (fun rc => set_rc_size rc 0) in
  m ← vdev_raidz_generate_parity_pq m rm';
  p ← abd_to_buf pdata;
  q ← abd_to_buf qdata;
  pxy ← abd_to_buf pxyd;
  qxy ← abd_to_buf qxyd;
  xd ← deref (rc_abd rcx);
  yd ← deref (rc_abd rcy);
  let a := pow2_at (255 + x - y) in
  let b := pow2_at (255 - (rm_cols rm - 1 - x)) in
  let tmp := 255 - log2_at (Z.lxor a 1) in
  let aexp := log2_at (vdev_raidz_exp2 a tmp) in
  let bexp := log2_at (vdev_raidz_exp2 b tmp) in
  '(_, (m, rpq)) ← abd_iterate_func2 (vdev_raidz_reconst_pq_func aexp bexp) xd yd 0 0 (rc_size rcy) (m, Rpq p q pxy qxy);
  '(_, (m, _)) ← abd_iterate_func (vdev_raidz_reconst_pq_tail_func aexp bexp) xd (rc_size rcy) (rc_size rcx - rc_size rcy) (m, rpq);
  m ← abd_free PAGESHIFT m pxyd;
  m ← abd_free PAGESHIFT m qxyd;
  Ok (Z.lor (Z.shiftl 1 VDEV_RAIDZ_P) (Z.shiftl 1 VDEV_RAIDZ_Q), m).

End ReconstructPQ.

(** ** The equations *)

Lemma parity_acc k vs i acc : foldl (fun acc (v : Z -> gf) => acc * gpow k + v i)%gf acc vs = (acc * gpow (k * Z.of_nat (length vs)) + parity_at k vs i)%gf.
Proof.
  unfold parity_at. revert acc. induction vs as [|v vs IH]; intros acc; cbn [foldl length].
  - change (Z.of_nat 0) with 0. rewrite Z.mul_0_r, gpow_0. ring.
  - rewrite IH, (IH (g0 * gpow k + v i)%gf). rewrite Nat2Z.inj_succ, Z.mul_succ_r, gpow_add. ring.
Qed.

Lemma parity_nil k i : parity_at k [] i = g0.
Proof. done. Qed.

Lemma parity_cons k v vs i : parity_at k (v :: vs) i = (v i * gpow (k * Z.of_nat (length vs)) + parity_at k vs i)%gf.
Proof. unfold parity_at at 1. cbn [foldl]. rewrite parity_acc. ring. Qed.

(** A column of zeros. *)
Definition gzero : Z -> gf := fun _ => g0.

(** The weight of a column in a parity. *)
Definition weight (k : Z) (n x : nat) : gf := gpow (k * (Z.of_nat n - 1 - Z.of_nat x)).

Lemma parity_without k vs x v i : vs !! x = Some v -> parity_at k vs i = (parity_at k (<[x := gzero]> vs) i + v i * weight k (length vs) x)%gf.
Proof.
  unfold weight. revert x. induction vs as [|w vs IH]; intros x E; [done|]. destruct x as [|x]; cbn in E.
  - injection E as ->. change (<[0%nat := gzero]> (v :: vs)) with (gzero :: vs). rewrite !parity_cons. unfold gzero. replace (Z.of_nat (length (v :: vs)) - 1 - Z.of_nat 0) with (Z.of_nat (length vs)) by (cbn [length]; lia). ring.
  - change (<[S x := gzero]> (w :: vs)) with (w :: <[x := gzero]> vs). rewrite !parity_cons, (IH x E), length_insert.
    replace (Z.of_nat (length (w :: vs)) - 1 - Z.of_nat (S x)) with (Z.of_nat (length vs) - 1 - Z.of_nat x) by (cbn [length]; lia). ring.
Qed.

Lemma gadd_cancel a b : (a + (a + b))%gf = b.
Proof. transitivity ((a + a) + b)%gf; [ring|]. rewrite gadd_self. ring. Qed.

Lemma gpow_cancel a e f : e + f = 255 -> (a * gpow e * gpow f)%gf = a.
Proof. intros E. transitivity (a * (gpow e * gpow f))%gf; [ring|]. rewrite <- gpow_add, E. change (gpow 255) with (gpow 0). rewrite gpow_0. ring. Qed.

(** ** The state to recover from *)

(** The contents [vs] of a block, the data columns [bad] of which are lost. *)
Record rec_state (m : mem) (pb db : list abd) (vs : list (Z -> gf)) (bad : list nat) : Prop := {
  rs_len : length vs = length db;
  rs_zero : forall j a v, db !! j = Some a -> vs !! j = Some v -> j ∉ bad -> forall i, abd_size a <= i -> v i = g0;
  rs_good : forall j a v, db !! j = Some a -> vs !! j = Some v -> j ∉ bad -> reads m (abd_lane a) 0 (abd_size a) (gfun v);
  rs_mapped : forall a, a ∈ pb ++ db -> mapped m (abd_lane a) 0 (abd_size a)
}.

Lemma rec_done m pb db vs bad m' :
  rec_state m pb db vs bad -> NoDup ((pb ++ db) ≫= locs) -> Forall abd_wf (pb ++ db) ->
  (forall j a v, db !! j = Some a -> vs !! j = Some v -> j ∈ bad -> reads m' (abd_lane a) 0 (abd_size a) (gfun v)) ->
  only_writes (omap (fun j => db !! j) bad) m m' -> data_held m' db vs.
Proof.
  intros [Hl _ Hg _] Hsep Hwf Hbad Ho. apply Forall2_same_length_lookup_2; [done|]. intros j a v Ha Hv. destruct (decide (j ∈ bad)) as [Hin|Hni]; [by eapply Hbad|].
  intros i Hi. rewrite Ho; [by eapply Hg|]. intros (b & Hlb & (k & Hk & Hdb)%list_elem_of_omap)%list_elem_of_bind.
  assert (Ha' : (pb ++ db) !! (length pb + j)%nat = Some a) by (rewrite lookup_app_r by lia; by replace (_ - length pb)%nat with j by lia).
  assert (Hb' : (pb ++ db) !! (length pb + k)%nat = Some b) by (rewrite lookup_app_r by lia; by replace (_ - length pb)%nat with k by lia).
  rewrite Forall_lookup in Hwf. apply (locs_apart _ _ _ _ _ Hsep Ha' Hb') with (abd_lane a i); [|apply lane_locs; [by eapply Hwf|done]|done]. intros E. assert (j = k) as -> by lia. done.
Qed.

Lemma swept_extend m ts lo mid hi m' :
  swept m ts lo mid m' -> lo <= mid <= hi -> (forall l w, (l, w) ∈ ts -> reads m' l mid hi w) -> swept m ts lo hi m'.
Proof.
  intros [Hn Ho] Hm Hr. constructor.
  - intros l w Hin i Hi. destruct (decide (i < mid)); [apply (Hn l w Hin); lia|apply (Hr l w Hin); lia].
  - intros x Hx. apply Ho. intros l w Hin i Hi. apply (Hx l w Hin). lia.
Qed.

Ltac still := eapply swept_reads; [eassumption| |off_lanes].
Ltac part H := eapply reads_sub; [exact H|lia|lia].

(** ** One word of a target *)

Section Target.

(** The target of [xs] bytes, with the contents [w], and a source of [size]. *)
Context (m : mem) (d src : abd) (xs size : Z) (w v : Z -> gf).
Hypothesis Hd : abd_wf d.
Hypothesis Hd8 : abd_multiple 8 d.
Hypothesis Hxs : xs = abd_size d.
Hypothesis Hdi : lane_inj (abd_lane d) xs.
Hypothesis Hw : reads m (abd_lane d) 0 xs (gfun w).
Hypothesis Hs : abd_wf src.
Hypothesis Hs8 : abd_multiple 8 src.
Hypothesis Hsize : 0 <= size <= xs.
Hypothesis Hsize' : size <= abd_size src.
Hypothesis Hsize8 : (8 | size).
Hypothesis Hv : reads m (abd_lane src) 0 size (gfun v).
Hypothesis Hvz : forall i, size <= i < xs -> v i = g0.
Hypothesis Hap : apart (abd_lane d) (abd_lane src) xs size.

Abbreviation dl := (abd_lane d).
Abbreviation sl := (abd_lane src).

Lemma reconst_p_func_ok : exists m', abd_iterate_func2 vdev_raidz_reconst_p_func d src 0 0 size (m, tt) = Ok (0, (m', tt)) /\
  swept m [(dl, gfun (fun i => w i + v i)%gf)] 0 xs m'.
Proof.
  destruct (iterate2_units 8 vdev_raidz_reconst_p_func (fun _ => tt) (fun _ b c i m => xor_word m (ptr_add b (8 * i)) (ptr_add c (8 * i)))
    m [(dl, gfun (fun i => w i + v i)%gf)] d src size xs) as (m' & E & Hsw); [lia|done..|lia|lia|done|separated|lia|done| |].
  - intros pos b c i m1 Hpos Hi Hle Hc Hc' Hsw. apply (xor_word_ok _ _ _ _ sl); [done|done|still; part Hw|still; part Hv].
  - exists m'. split; [done|]. apply (swept_extend _ _ _ size); [done|lia|]. intros l w' [= -> ->]%list_elem_of_singleton i Hi. unfold gfun. rewrite Hvz by lia.
    replace (w i + g0)%gf with (w i) by ring. revert i Hi. still. part Hw.
Qed.

Lemma reconst_q_func_ok : exists m1 m', abd_iterate_func2 vdev_raidz_reconst_q_pre_func d src 0 0 size (m, tt) = Ok (0, (m1, tt)) /\
  abd_iterate_func vdev_raidz_reconst_q_pre_tail_func d size (xs - size) (m1, tt) = Ok (0, (m', tt)) /\
  swept m [(dl, gfun (fun i => w i * gpow 1 + v i)%gf)] 0 xs m'.
Proof.
  destruct (iterate2_units 8 vdev_raidz_reconst_q_pre_func (fun _ => tt) (fun _ b c i m => m ← mul2_word m (ptr_add b (8 * i)); xor_word m (ptr_add b (8 * i)) (ptr_add c (8 * i)))
    m [(dl, gfun (fun i => w i * gpow 1 + v i)%gf)] d src size xs) as (m1 & E & Hsw); [lia|done..|lia|lia|done|separated|lia|done| |].
  { intros pos b c i m1 Hpos Hi Hle Hc Hc' Hsw. apply (mul2_xor_ok src); [done|done|still; part Hw|still; part Hv|intros; apart_solve]. }
  destruct (iterate_units 8 vdev_raidz_reconst_q_pre_tail_func (fun _ => tt) (fun _ b i m => mul2_word m (ptr_add b (8 * i))) m1 [(dl, gfun (fun i => w i * gpow 1)%gf)] d size (xs - size) xs)
    as (m2 & E2 & Hsw2); [lia|done|done|unfold part_ok; lia|done|apply Z.divide_sub_r; [subst xs; apply Hd8|done]|separated|lia|done| |].
  { intros pos b i m2 Hpos Hi Hle Hc Hsw2. apply mul2_word_ok; [done|]. still. still. part Hw. }
  exists m1, m2. split_and!; [done|done|]. replace (size + (xs - size)) with xs in Hsw2 by lia. eapply swept_trans; [exact Hsw| |separated|lia|lia].
  eapply swept_ext; [exact Hsw2|]. intros i Hi. unfold gfun. rewrite Hvz by lia. f_equal. ring.
Qed.

End Target.

(** ** One byte *)

Lemma load8_lane m l pos p v : contig l pos p 1 -> reads m l pos (pos + 1) v -> load8 m p = Ok (v pos).
Proof. intros Hc Hr. unfold load8. by rewrite (load_lane m l pos p 1 v). Qed.

Lemma store8_lane m l pos p b w : contig l pos p 1 -> mapped m l pos (pos + 1) -> b = w pos ->
  exists m', store8 m p b = Ok m' /\ swept m [(l, w)] pos (pos + 1) m'.
Proof. intros Hc Hm ->. apply (store_lane m l pos p 1 w); [lia|done|done]. Qed.

Lemma gv_exp2 a e : vdev_raidz_exp2 (gv a) e = gv (a * gpow e)%gf.
Proof. rewrite <- exp2_gmul. symmetry. apply gv_of, exp2_range. Qed.

Lemma exp2_bytes_ok exp m dl xs pos p v :
  lane_inj dl xs -> 0 <= pos -> pos + 8 <= xs -> contig dl pos p 8 -> reads m dl pos (pos + 8) (gfun v) ->
  exists m', exp2_bytes exp m p = Ok m' /\ swept m [(dl, gfun (fun i => v i * gpow exp)%gf)] pos (pos + 8) m'.
Proof.
  intros Hi Hp Hx Hc Hr. destruct (for_range_inv (fun j m1 => swept m [(dl, gfun (fun i => v i * gpow exp)%gf)] pos (pos + j) m1) 0 8
    (fun j m => b ← load8 m (ptr_add p j); store8 m (ptr_add p j) (vdev_raidz_exp2 b exp)) m) as (m' & E & Hsw); [lia| |rewrite Z.add_0_r; apply swept_empty|by exists m'].
  intros j m1 Hj Hsw. assert (Hr1 : reads m1 dl (pos + j) (pos + j + 1) (gfun v)) by (still; part Hr). assert (Hc1 : contig dl (pos + j) (ptr_add p j) 1) by (eapply contig_sub; [exact Hc|lia|lia]).
  rewrite (load8_lane m1 dl (pos + j) (ptr_add p j) (gfun v)) by done. cbn [mbind res_bind].
  destruct (store8_lane m1 dl (pos + j) (ptr_add p j) (vdev_raidz_exp2 (gfun v (pos + j)) exp) (gfun (fun i => v i * gpow exp)%gf)) as (m2 & E2 & Hsw2); [done|by eapply reads_mapped|apply gv_exp2|].
  exists m2. split; [done|]. rewrite Z.add_assoc. eapply (swept_trans _ _ _ _ _ xs); [exact Hsw|exact Hsw2|separated|lia|lia].
Qed.

(** The end of [vdev_raidz_reconstruct_q]. *)
Lemma reconst_q_post_ok exp m d q xs w v :
  abd_wf d -> abd_multiple 8 d -> xs = abd_size d -> lane_inj (abd_lane d) xs -> reads m (abd_lane d) 0 xs (gfun w) -> reads m (ptr_add q) 0 xs (gfun v) -> apart (ptr_add q) (abd_lane d) xs xs ->
  exists m', abd_iterate_func (vdev_raidz_reconst_q_post_func exp) d 0 xs (m, q) = Ok (0, (m', ptr_add q xs)) /\ swept m [(abd_lane d, gfun (fun i => (w i + v i) * gpow exp)%gf)] 0 xs m'.
Proof.
  intros Hd Hd8 Exs Hi Hw Hv Hap. pose proof (aw_size d Hd). replace (m, q) with (m, ptr_add q 0) by (by rewrite ptr_add_0).
  destruct (iterate_units 8 (vdev_raidz_reconst_q_post_func exp) (ptr_add q) (fun pos b i m => m ← xor_word m (ptr_add b (8 * i)) (ptr_add (ptr_add q pos) (8 * i)); exp2_bytes exp m (ptr_add b (8 * i)))
    m [(abd_lane d, gfun (fun i => (w i + v i) * gpow exp)%gf)] d 0 xs xs) as (m' & E & Hsw);
    [lia|done|done|unfold part_ok; lia|apply Z.divide_0_r|subst xs; apply Hd8|separated|lia| | |by exists m'].
  - intros pos b n m1. cbn [vdev_raidz_reconst_q_post_func]. by rewrite ptr_add_add.
  - intros pos b i m1 Hpos Hi' Hle Hc Hsw. destruct (xor_word_ok m1 (ptr_add b (8 * i)) (ptr_add (ptr_add q pos) (8 * i)) (abd_lane d) (ptr_add q) (pos + 8 * i) w v) as (m2 & E2 & Hsw2);
      [done|rewrite ptr_add_add; apply contig_ptr|still; part Hw|still; part Hv|]. rewrite E2. cbn [mbind res_bind].
    destruct (exp2_bytes_ok exp m2 (abd_lane d) xs (pos + 8 * i) (ptr_add b (8 * i)) (fun i => w i + v i)%gf) as (m3 & E3 & Hsw3); [done|lia|lia|done|apply Hsw2; by left|].
    exists m3. split; [done|]. eapply swept_again; [exact Hsw2|exact Hsw3].
Qed.

(** ** One lost column *)

Lemma rm_col_at_Some rm c rc : rm_col_at rm c = Ok rc -> rm_col rm !! Z.to_nat c = Some rc.
Proof. unfold rm_col_at. intros E. destruct (rm_col rm !! Z.to_nat c) as [rc'|]; [by injection E as ->|done]. Qed.

Section Recover.

Context (rm : raidz_map) (pb db : list abd).
Hypothesis Hwf : raidz_wf rm pb db.

Abbreviation N := (raidz_big rm).
Abbreviation first := (rm_firstdatacol rm).

Lemma first_length : first = Z.of_nat (length pb).
Proof. apply (rw_first _ _ _ Hwf). Qed.

Lemma cols_length : rm_cols rm = first + Z.of_nat (length db).
Proof. apply (rw_cols _ _ _ Hwf). Qed.

Lemma data_lookup j : (pb ++ db) !! (length pb + j)%nat = db !! j.
Proof. rewrite lookup_app_r by lia. f_equal. lia. Qed.

Lemma wf_data_col j a : db !! j = Some a -> exists rc, rm_col_at rm (first + Z.of_nat j) = Ok rc /\ rc_abd rc = Some a /\ rc_size rc = abd_size a.
Proof.
  intros E. rewrite <- data_lookup in E. destruct (wf_col rm pb db Hwf _ a E) as (rc & Hrc & Ha & Hs). exists rc. split; [|done]. unfold rm_col_at. rewrite first_length.
  replace (Z.to_nat _) with (length pb + j)%nat by lia. by rewrite Hrc.
Qed.

Lemma wf_parity_buf k a : pb !! k = Some a -> exists rc, rm_col_at rm (Z.of_nat k) = Ok rc /\ rc_size rc = N /\ rc_abd rc = Some a /\ col_abd rm (Z.of_nat k) = Ok a /\ col_buf rm (Z.of_nat k) = Ok (own_ptr a).
Proof.
  intros E. destruct (wf_pb rm pb db Hwf k a E) as [Ho _]. destruct (own_linear _ _ Ho) as [Eu Es]. destruct (wf_col rm pb db Hwf k a) as (rc & Hrc & Ha & Hs); [by apply lookup_app_l_Some|].
  exists rc. unfold col_buf, col_abd, rm_col_at. rewrite Nat2Z.id, Hrc. cbn [deref mbind res_bind]. rewrite Ha. cbn [deref mbind res_bind]. unfold abd_to_buf. rewrite Eu. split_and!; try done. lia.
Qed.

Lemma wf_data_apart j k a b hi hi' : db !! j = Some a -> db !! k = Some b -> j <> k -> hi <= abd_size a -> hi' <= abd_size b -> apart (abd_lane a) (abd_lane b) hi hi'.
Proof.
  intros Hj Hk Hne H1 H2. destruct (wf_db rm pb db Hwf j a Hj) as (Ha & _), (wf_db rm pb db Hwf k b Hk) as (Hb & _).
  apply (wf_apart rm pb db Hwf (length pb + j) (length pb + k)); [by rewrite data_lookup|by rewrite data_lookup|lia|done..].
Qed.

Lemma wf_parity_apart k j a b : pb !! k = Some a -> db !! j = Some b -> apart (ptr_add (own_ptr a)) (abd_lane b) N (abd_size b).
Proof.
  intros Hk Hj. destruct (wf_db rm pb db Hwf j b Hj) as (Hb & _). apply (wf_pb_apart rm pb db Hwf k (length pb + j)); [done|by rewrite data_lookup| |done]. apply lookup_lt_Some in Hk. lia.
Qed.

Lemma wf_all : Forall abd_wf (pb ++ db).
Proof.
  apply Forall_app. split; apply Forall_lookup; intros i a E; [by eapply wf_pb|by eapply wf_db].
Qed.

Lemma wf_inj j a : db !! j = Some a -> lane_inj (abd_lane a) (abd_size a).
Proof.
  intros E. destruct (wf_db rm pb db Hwf j a E) as (Ha & _). apply abd_lane_inj; [done|]. pose proof (rw_sep _ _ _ Hwf) as Hsep. rewrite <- data_lookup in E.
  revert E Hsep. generalize (length pb + j)%nat as i. induction (pb ++ db) as [|b l IH]; intros i E Hsep; [done|]. cbn [mbind list_bind] in Hsep. apply NoDup_app in Hsep as (H1 & _ & H3).
  destruct i as [|i]; [by injection E as <-|by eapply IH].
Qed.

Lemma wf_words j a : db !! j = Some a -> abd_multiple 8 a /\ (8 | abd_size a).
Proof.
  intros E. destruct (wf_db rm pb db Hwf j a E) as (_ & Hm & _). assert (H8 : abd_multiple 8 a) by (eapply multiple_sub; [|exact Hm]; by exists 64). split; [done|]. apply H8.
Qed.

Context (m : mem) (vs : list (Z -> gf)) (x : nat) (ax : abd) (vx : Z -> gf).
Hypothesis Hst : rec_state m pb db vs [x].
Hypothesis Hax : db !! x = Some ax.
Hypothesis Hvx : vs !! x = Some vx.

Abbreviation xs := (abd_size ax).
Abbreviation dl := (abd_lane ax).
Abbreviation zs := (<[x := gzero]> vs).

(** The other columns, where the target was written. *)
Lemma good_source ts m1 j a v size :
  swept m ts 0 xs m1 -> fst <$> ts = [dl] -> db !! j = Some a -> vs !! j = Some v -> j <> x -> size <= abd_size a -> reads m1 (abd_lane a) 0 size (gfun v).
Proof.
  intros Hsw El Ha Hv Hne Hs. destruct Hst. eapply swept_reads; [exact Hsw|eapply reads_sub; [eapply rs_good0; [exact Ha|exact Hv|by rewrite list_elem_of_singleton]|lia|lia]|].
  intros l w i i' Hin Hi Hi'. assert (Hl : l ∈ [dl]) by (rewrite <- El; apply list_elem_of_fmap; by exists (l, w)). apply list_elem_of_singleton in Hl as ->.
  apply (wf_data_apart j x a ax size xs); [done|done|done|done|lia|lia|lia].
Qed.

(** A target that holds the data is the recovered block. *)
Lemma recovered m' : swept m [(dl, gfun vx)] 0 xs m' -> data_held m' db vs /\ only_writes [ax] m m'.
Proof.
  intros Hsw. destruct (wf_db rm pb db Hwf x ax Hax) as (Hwx & _).
  assert (Ho : only_writes [ax] m m').
  { intros l Hl. apply (sw_old _ _ _ _ _ Hsw). intros l' w [= -> ->]%list_elem_of_singleton i Hi ->. apply Hl. cbn. rewrite app_nil_r. by apply lane_locs. }
  split; [|done]. eapply rec_done; [exact Hst|apply Hwf|apply wf_all| |cbn; by rewrite Hax].
  intros j a v Ha Hv ->%list_elem_of_singleton. rewrite Hax in Ha. injection Ha as <-. rewrite Hvx in Hv. injection Hv as <-. apply Hsw. by left.
Qed.

Lemma zs_lookup j v : vs !! j = Some v -> zs !! j = Some (if decide (j = x) then gzero else v).
Proof.
  intros E. destruct (decide (j = x)) as [->|Hne]; [apply list_lookup_insert_eq; by eapply lookup_lt_Some|by rewrite list_lookup_insert_ne].
Qed.

Lemma reconstruct_p_ok tgts ap :
  pb !! 0%nat = Some ap -> reads m (abd_lane ap) 0 N (gfun (parity_at 0 vs)) -> tgts !! 0%nat = Some (first + Z.of_nat x) ->
  exists m', vdev_raidz_reconstruct_p m rm tgts = Ok (1, m') /\ data_held m' db vs /\ only_writes [ax] m m'.
Proof.
  intros Hap Hp Ht. destruct (wf_data_col x ax Hax) as (rcx & Ercx & Eax & Esx). destruct (wf_parity_buf 0 ap Hap) as (_ & _ & _ & _ & _ & Ebuf). change (Z.of_nat 0) with VDEV_RAIDZ_P in Ebuf.
  destruct (wf_pb rm pb db Hwf 0 ap Hap) as [Hown _]. destruct (wf_db rm pb db Hwf x ax Hax) as (Hwx & _ & HxN). destruct (wf_words x ax Hax) as [Hx8 Hxs8]. pose proof (wf_inj x ax Hax) as Hinj.
  pose proof (wf_parity_apart 0 x ap ax Hap Hax) as Hpx. pose proof (aw_size ax Hwx). destruct Hst as [Hlen Hzero Hgood Hmap].
  unfold vdev_raidz_reconstruct_p. rewrite Ht. cbn [deref mbind res_bind]. rewrite Ercx. cbn [mbind res_bind]. rewrite Eax, Ebuf, Esx. cbn [deref mbind res_bind].
  destruct (copy_from_buf_lane m ax xs Hwx ltac:(lia) (own_ptr ap) (gfun (parity_at 0 vs))) as (m1 & E1 & Hsw1); [done| |apply Hmap, elem_of_app; right; by eapply list_elem_of_lookup_2| |].
  { intros i Hi. rewrite <- (own_lane _ _ Hown) by lia. apply Hp. lia. }
  { apply apart_sym. eapply apart_sub; [exact Hpx|lia|lia]. }
  rewrite E1. cbn [mbind res_bind].
  match goal with |- context [for_range ?lo ?hi ?B ?s] => destruct (for_range_inv (fun c m2 => swept m [(dl, gfun (fun i => parity_at 0 vs i + parity_at 0 (take (Z.to_nat (c - first)) zs) i)%gf)] 0 xs m2)
    lo hi B s) as (m' & E' & Hsw') end.
  - rewrite cols_length. lia.
  - intros c m2 Hc Hsw. rewrite cols_length in Hc. set (j := Z.to_nat (c - first)) in *. destruct (lookup_lt_is_Some_2 db j ltac:(lia)) as [a Ha]. destruct (lookup_lt_is_Some_2 vs j ltac:(lia)) as [v Hv].
    destruct (wf_data_col j a Ha) as (rc & Erc & Ea & Es). replace (first + Z.of_nat j) with c in Erc by lia. rewrite Erc. cbn [mbind res_bind]. rewrite Ea, Es. cbn [deref mbind res_bind].
    replace (Z.to_nat (c + 1 - first)) with (S j) by lia. rewrite (take_S_r _ _ _ (zs_lookup j v Hv)). destruct (Z.eqb_spec c (first + Z.of_nat x)) as [Ecx|Hcx].
    + exists m2. split; [done|]. rewrite decide_True by lia. eapply swept_ext; [exact Hsw|]. intros i Hi. unfold gfun. rewrite parity_snoc, gpow_0. f_equal. unfold gzero. ring.
    + rewrite decide_False by lia. destruct (wf_db rm pb db Hwf j a Ha) as (Hwa & _ & _). destruct (wf_words j a Ha) as [Ha8 Has8]. set (size := Z.min xs (abd_size a)).
      destruct (reconst_p_func_ok m2 ax a xs size (fun i => parity_at 0 vs i + parity_at 0 (take j zs) i)%gf v) as (m3 & E3 & Hsw3); [done..| |done|done| | | | | | |].
      * apply Hsw. by left.
      * pose proof (aw_size a Hwa). lia.
      * lia.
      * by apply min_div.
      * eapply good_source; [exact Hsw|done|exact Ha|exact Hv|lia|lia].
      * intros i Hi. eapply Hzero; [exact Ha|exact Hv|rewrite list_elem_of_singleton; lia|lia].
      * apply (wf_data_apart x j); [done|done|lia|lia|lia].
      * rewrite E3. cbn [mbind res_bind]. exists m3. split; [done|]. eapply swept_again; [exact Hsw|]. eapply swept_ext; [exact Hsw3|]. intros i Hi. unfold gfun. rewrite parity_snoc, gpow_0. f_equal. ring.
  - rewrite Z.sub_diag. eapply swept_ext; [exact Hsw1|]. intros i Hi. unfold gfun. f_equal. change (take (Z.to_nat 0) zs) with (@nil (Z -> gf)). rewrite parity_nil. ring.
  - rewrite E'. cbn [mbind res_bind]. exists m'. split; [done|]. apply recovered. eapply swept_ext; [exact Hsw'|]. intros i Hi. unfold gfun. f_equal. rewrite cols_length.
    replace (Z.to_nat (first + Z.of_nat (length db) - first)) with (length zs) by (rewrite length_insert; lia). rewrite firstn_all, (parity_without 0 vs x vx i Hvx). unfold weight. rewrite Z.mul_0_l, gpow_0.
    replace (parity_at 0 zs i + vx i * g1 + parity_at 0 zs i)%gf with (parity_at 0 zs i + (parity_at 0 zs i + vx i))%gf by ring. apply gadd_cancel.
Qed.

(** The first column of [vdev_raidz_reconstruct_q]. *)
Lemma reconst_q_first_ok a v size :
  db !! 0%nat = Some a -> vs !! 0%nat = Some v -> size = (if decide (x = 0%nat) then 0 else Z.min xs (abd_size a)) ->
  exists m1 m', abd_copy_off m ax a 0 0 size = Ok m1 /\ (if size <? xs then abd_zero_off m1 ax size (xs - size) else Ok m1) = Ok m' /\
    swept m [(dl, gfun (if decide (x = 0%nat) then gzero else v))] 0 xs m'.
Proof.
  intros Ha Hv Hsize. destruct (wf_db rm pb db Hwf x ax Hax) as (Hwx & _ & HxN), (wf_db rm pb db Hwf 0 a Ha) as (Hwa & _ & _). pose proof (wf_inj x ax Hax) as Hinj.
  pose proof (aw_size ax Hwx). pose proof (aw_size a Hwa). destruct Hst as [Hlen Hzero Hgood Hmap].
  assert (Hmx : mapped m dl 0 xs) by (apply Hmap, elem_of_app; right; by eapply list_elem_of_lookup_2).
  assert (Hs : 0 <= size <= abd_size a /\ size <= xs) by (destruct (decide (x = 0%nat)); lia).
  destruct (copy_lane m a size Hwa (proj1 Hs) ax (gfun (if decide (x = 0%nat) then gzero else v))) as (m1 & E1 & Hsw1); [done|lia|intros i j Hi Hj; apply Hinj; lia| | | |].
  - destruct (decide (x = 0%nat)) as [Ex|Hne]; [intros i Hi; lia|]. eapply reads_sub; [eapply Hgood; [exact Ha|exact Hv|rewrite list_elem_of_singleton; lia]|lia|lia].
  - eapply mapped_sub; [exact Hmx|lia|lia].
  - destruct (decide (x = 0%nat)) as [Ex|Hne]; [intros i j Hi; lia|]. apply (wf_data_apart x 0); [done|done|lia|lia|lia].
  - exists m1. destruct (Z.ltb_spec size xs) as [Hlt|Hge]; [|exists m1; split_and!; [done|done|by replace xs with size by lia]].
    destruct (zero_lane m1 ax size (xs - size)) as (m2 & E2 & Hsw2); [done|unfold part_ok; lia|done| |].
    { eapply swept_mapped; [exact Hsw1|eapply mapped_sub; [exact Hmx|lia|lia]|off_lanes]. }
    exists m2. split_and!; [done|done|]. replace (size + (xs - size)) with xs in Hsw2 by lia. eapply swept_trans; [exact Hsw1| |separated|lia|lia].
    eapply swept_ext; [exact Hsw2|]. intros i Hi. destruct (decide (x = 0%nat)) as [Ex|Hne]; [done|]. unfold gfun. by rewrite (Hzero 0%nat a v Ha Hv) by (rewrite ?list_elem_of_singleton; lia).
Qed.

Lemma reconstruct_q_ok tgts aq :
  pb !! 1%nat = Some aq -> reads m (abd_lane aq) 0 N (gfun (parity_at 1 vs)) -> tgts !! 0%nat = Some (first + Z.of_nat x) ->
  exists m', vdev_raidz_reconstruct_q m rm tgts = Ok (2, m') /\ data_held m' db vs /\ only_writes [ax] m m'.
Proof.
  intros Haq Hq Ht. destruct (wf_data_col x ax Hax) as (rcx & Ercx & Eax & Esx). destruct (wf_parity_buf 1 aq Haq) as (_ & _ & _ & _ & _ & Ebuf). change (Z.of_nat 1) with VDEV_RAIDZ_Q in Ebuf.
  destruct (wf_pb rm pb db Hwf 1 aq Haq) as [Hown _]. destruct (wf_db rm pb db Hwf x ax Hax) as (Hwx & _ & HxN). destruct (wf_words x ax Hax) as [Hx8 Hxs8]. pose proof (wf_inj x ax Hax) as Hinj.
  pose proof (wf_parity_apart 1 x aq ax Haq Hax) as Hqx. pose proof (aw_size ax Hwx). destruct Hst as [Hlen Hzero Hgood Hmap]. pose proof (proj2 (rw_cols _ _ _ Hwf)) as Hcols. pose proof cols_length as Ecols.
  pose proof (lookup_lt_Some _ _ _ Hax) as Hxlt.
  unfold vdev_raidz_reconstruct_q. rewrite Ht. cbn [deref mbind res_bind]. rewrite Ercx. cbn [mbind res_bind]. rewrite Eax, Ebuf, Esx. cbn [deref mbind res_bind].
  match goal with |- context [for_range ?lo ?hi ?B ?s] => destruct (for_range_inv (fun c m2 => (c = first /\ m2 = m) \/ (first < c /\ swept m [(dl, gfun (parity_at 1 (take (Z.to_nat (c - first)) zs)))] 0 xs m2))
    lo hi B s) as (m1 & E1 & HI1) end; [lia| |by left|].
  - intros c m2 Hc HI. set (j := Z.to_nat (c - first)) in *. destruct (lookup_lt_is_Some_2 db j ltac:(lia)) as [a Ha]. destruct (lookup_lt_is_Some_2 vs j ltac:(lia)) as [v Hv].
    destruct (wf_data_col j a Ha) as (rc & Erc & Ea & Es). replace (first + Z.of_nat j) with c in Erc by lia. rewrite Erc. cbn [mbind res_bind]. rewrite Ea, Es. cbn [deref mbind res_bind].
    replace (Z.to_nat (c + 1 - first)) with (S j) by lia. rewrite (take_S_r _ _ _ (zs_lookup j v Hv)). destruct HI as [[-> ->]|[Hlt Hsw]].
    + assert (j = 0%nat) as Ej by lia. rewrite Ej in Ha, Hv |- *. rewrite Z.eqb_refl.
      destruct (reconst_q_first_ok a v (if first =? first + Z.of_nat x then 0 else Z.min xs (abd_size a)) Ha Hv) as (m3 & m4 & E3 & E4 & Hsw4).
      { destruct (Z.eqb_spec first (first + Z.of_nat x)), (decide (x = 0%nat)); lia. }
      rewrite E3. cbn [mbind res_bind]. rewrite E4. exists m4. split; [done|]. right. split; [lia|]. eapply swept_ext; [exact Hsw4|]. intros i Hi. unfold gfun. f_equal.
      change (take 0 zs) with (@nil (Z -> gf)). cbn [app]. rewrite parity_one. by destruct (decide (x = 0%nat)), (decide (0%nat = x)).
    + rewrite (proj2 (Z.eqb_neq c first)) by lia. destruct (wf_db rm pb db Hwf j a Ha) as (Hwa & _ & _). destruct (wf_words j a Ha) as [Ha8 Has8]. pose proof (aw_size a Hwa).
      set (size := if c =? first + Z.of_nat x then 0 else Z.min xs (abd_size a)).
      assert (Hsz : if decide (j = x) then size = 0 else size = Z.min xs (abd_size a)) by (subst size; destruct (Z.eqb_spec c (first + Z.of_nat x)), (decide (j = x)); lia).
      destruct (reconst_q_func_ok m2 ax a xs size (parity_at 1 (take j zs)) (if decide (j = x) then gzero else v)) as (m3 & m4 & E3 & E4 & Hsw4);
        [done|done|done|done|apply Hsw; by left|done|done|destruct (decide (j = x)); lia|destruct (decide (j = x)); lia| | | | |].
      * destruct (decide (j = x)); rewrite Hsz; [apply Z.divide_0_r|by apply min_div].
      * destruct (decide (j = x)) as [->|Hne]; [intros i Hi; lia|]. eapply good_source; [exact Hsw|done|exact Ha|exact Hv|done|lia].
      * intros i Hi. destruct (decide (j = x)); [done|]. eapply Hzero; [exact Ha|exact Hv|by rewrite list_elem_of_singleton|lia].
      * destruct (decide (j = x)) as [Ejx|Hne]; [intros i i' Hi Hi'; lia|]. apply (wf_data_apart x j); [done|done|lia|lia|lia].
      * rewrite E3. cbn [mbind res_bind]. rewrite E4. cbn [mbind res_bind]. exists m4. split; [done|]. right. split; [lia|]. eapply swept_again; [exact Hsw|]. eapply swept_ext; [exact Hsw4|]. intros i Hi. unfold gfun. by rewrite parity_snoc.
  - rewrite E1. cbn [mbind res_bind]. destruct HI1 as [[E _]|[_ Hsw1]]; [lia|]. cbn [mbind res_bind].
    destruct (reconst_q_post_ok (255 - (rm_cols rm - 1 - (first + Z.of_nat x))) m1 ax (own_ptr aq) xs (parity_at 1 zs) (parity_at 1 vs)) as (m2 & E2 & Hsw2); [done..| | | |].
    + replace (Z.to_nat (rm_cols rm - first)) with (length zs) in Hsw1 by (rewrite length_insert; lia). rewrite firstn_all in Hsw1. apply Hsw1. by left.
    + eapply swept_reads; [exact Hsw1| |off_lanes]. intros i Hi. rewrite <- (own_lane _ _ Hown) by lia. apply Hq. lia.
    + eapply apart_sub; [exact Hqx|lia|lia].
    + rewrite E2. cbn [mbind res_bind]. exists m2. split; [done|]. apply recovered. eapply swept_again; [exact Hsw1|]. eapply swept_ext; [exact Hsw2|]. intros i Hi. unfold gfun. f_equal.
      rewrite (parity_without 1 vs x vx i Hvx), gadd_cancel. unfold weight. apply gpow_cancel. lia.
Qed.

End Recover.

(** ** Buffers of the routine's own *)

Lemma mbyte_delete m k l : p_blk l <> k -> mbyte (delete k m) l = mbyte m l.
Proof. intros H. unfold mbyte. by rewrite lookup_delete_ne. Qed.

(** The lanes there are lie in other blocks than a new buffer. *)
Lemma mapped_blk m l lo hi k : mapped m l lo hi -> m !! k = None -> forall i, lo <= i < hi -> p_blk (l i) <> k.
Proof. intros Hm Hk i Hi E. destruct (Hm i Hi) as [b Hb]. unfold mbyte in Hb. by rewrite E, Hk in Hb. Qed.

Lemma own_blk size a : own_buf size a -> forall i, p_blk (ptr_add (own_ptr a) i) = abd_blk a.
Proof. done. Qed.

Lemma alloc_own kmem_alloc m size meta :
  (forall m n, m !! (kmem_alloc m n).1 = None) -> (forall m n, length (kmem_alloc m n).2 = Z.to_nat n) -> 0 < size <= SPA_MAXBLOCKSIZE ->
  exists a m', abd_alloc_linear kmem_alloc m size meta = Ok (a, m') /\ own_buf size a /\ m !! abd_blk a = None /\
    mapped m' (ptr_add (own_ptr a)) 0 size /\ (forall l, p_blk l <> abd_blk a -> mbyte m' l = mbyte m l) /\ exists bs, m' = <[abd_blk a := bs]> m.
Proof.
  intros Hf Hs Hsize. unfold abd_alloc_linear. rewrite (proj2 (Z.leb_le size _)) by lia. destruct (alloc_buf kmem_alloc m size) as [buf m'] eqn:E.
  destruct (alloc_buf_ok kmem_alloc Hf Hs m size buf m' ltac:(lia) E) as (Hoff & Hfree & (bs & Em) & vs & Hvs). eexists _, m'. split; [done|].
  assert (Ho : own_buf size (Abd true meta size 0 (AbdLinear buf))) by (by exists buf). split_and!; [done|done| | |by exists bs].
  - replace (own_ptr _) with buf by (destruct (own_linear _ _ Ho) as [[= <-] _]; done). intros i Hi. destruct (Forall2_lookup_l _ _ _ (Z.to_nat i) (ptr_add buf i) Hvs) as (b & _ & Hb); [|by exists b].
    rewrite span_lookup, decide_True by lia. f_equal. f_equal. lia.
  - intros l Hl. unfold mbyte. rewrite Em, lookup_insert_ne; [done|]. intros E'. by apply Hl.
Qed.

Lemma free_own PAGESHIFT m size a : own_buf size a -> 0 < size -> mapped m (ptr_add (own_ptr a)) 0 size -> abd_free PAGESHIFT m a = Ok (delete (abd_blk a) m).
Proof.
  intros (buf & Eu & Eo & _) Hs Hm. assert (Eb : abd_blk a = p_blk buf) by (unfold abd_blk; by rewrite Eu). unfold abd_free, abd_free_linear. rewrite Eu, Eb. apply free_buf_ok; [|done].
  destruct (Hm 0 ltac:(lia)) as [b Hb]. unfold mbyte in Hb. cbn [p_blk ptr_add own_ptr] in Hb. rewrite Eb in Hb. by destruct (m !! p_blk buf).
Qed.

(** ** Two lost columns *)

Lemma pq_solve X Y n x y aexp bexp :
  0 <= x < y -> y < n -> n <= 254 ->
  let a := pow2_at (255 + x - y) in let b := pow2_at (255 - (n - 1 - x)) in let tmp := 255 - log2_at (Z.lxor a 1) in
  aexp = log2_at (vdev_raidz_exp2 a tmp) -> bexp = log2_at (vdev_raidz_exp2 b tmp) ->
  ((X + Y) * gpow aexp + (X * gpow (n - 1 - x) + Y * gpow (n - 1 - y)) * gpow bexp)%gf = X.
Proof.
  intros Hx Hy Hn a b tmp -> ->.
  assert (Ea : a = gv (gpow (255 + x - y))) by (rewrite gv_gpow, Z.mod_small by lia; done).
  assert (Eb : b = gv (gpow (255 - (n - 1 - x)))).
  { rewrite gv_gpow. destruct (decide (n - 1 - x = 0)) as [E|E]; [subst b; by rewrite E|rewrite Z.mod_small by lia; done]. }
  set (ga := gpow (255 + x - y)) in *. set (gb := gpow (255 - (n - 1 - x))) in *. set (e := (ga + g1)%gf).
  assert (He : e <> g0). { intros E. apply (proj1 (gadd_eq0 _ _)) in E. change g1 with (gpow 0) in E. apply gpow_inj in E; lia. }
  assert (Ee : Z.lxor a 1 = gv e) by (rewrite Ea; done). assert (Et : gpow tmp = ginv e).
  { subst tmp. rewrite Ee. apply gf_eq. unfold ginv, gf_inv. cbn [gv]. rewrite gv_gpow. pose proof (log2_range (gv e) (gv_u8 e)). destruct (decide (log2_at (gv e) = 0)) as [E|E]; [by rewrite E|by rewrite Z.mod_small by lia]. }
  rewrite Ea, Eb, !gv_exp2, !gpow_log by (apply gmul_nonzero; apply gpow_nonzero). rewrite Et.
  assert (E1 : (gpow (n - 1 - x) * gb)%gf = g1) by (subst gb; rewrite <- gpow_add; replace (_ + _) with 255 by lia; exact gpow_0).
  assert (E2 : (gpow (n - 1 - y) * gb)%gf = ga) by (subst ga gb; rewrite <- gpow_add; f_equal; lia).
  transitivity ((X * (ga + gpow (n - 1 - x) * gb) + Y * (ga + gpow (n - 1 - y) * gb)) * ginv e)%gf; [ring|]. rewrite E1, E2, gadd_self. fold e. field. done.
Qed.

Section PqTargets.

Context (aexp bexp : Z) (m : mem) (ax ay : abd) (xs ys : Z) (rpq : reconst_pq_struct) (fp fq fpxy fqxy : Z -> gf).
Hypothesis Hwx : abd_wf ax.
Hypothesis Hwy : abd_wf ay.
Hypothesis Hxs : xs = abd_size ax.
Hypothesis Hys : ys = abd_size ay.
Hypothesis Hle : ys <= xs.
Hypothesis Hix : lane_inj (abd_lane ax) xs.
Hypothesis Hiy : lane_inj (abd_lane ay) ys.
Hypothesis Hxy : apart (abd_lane ax) (abd_lane ay) xs ys.
Hypothesis Hmx : mapped m (abd_lane ax) 0 xs.
Hypothesis Hmy : mapped m (abd_lane ay) 0 ys.
Hypothesis Hp : reads m (ptr_add (rpq_p rpq)) 0 xs (gfun fp).
Hypothesis Hq : reads m (ptr_add (rpq_q rpq)) 0 xs (gfun fq).
Hypothesis Hpxy : reads m (ptr_add (rpq_pxy rpq)) 0 xs (gfun fpxy).
Hypothesis Hqxy : reads m (ptr_add (rpq_qxy rpq)) 0 xs (gfun fqxy).
Hypothesis Hpa : apart (ptr_add (rpq_p rpq)) (abd_lane ax) xs xs /\ apart (ptr_add (rpq_p rpq)) (abd_lane ay) xs ys.
Hypothesis Hqa : apart (ptr_add (rpq_q rpq)) (abd_lane ax) xs xs /\ apart (ptr_add (rpq_q rpq)) (abd_lane ay) xs ys.
Hypothesis Hpxya : apart (ptr_add (rpq_pxy rpq)) (abd_lane ax) xs xs /\ apart (ptr_add (rpq_pxy rpq)) (abd_lane ay) xs ys.
Hypothesis Hqxya : apart (ptr_add (rpq_qxy rpq)) (abd_lane ax) xs xs /\ apart (ptr_add (rpq_qxy rpq)) (abd_lane ay) xs ys.

Definition pq_x (i : Z) : gf := ((fp i + fpxy i) * gpow aexp + (fq i + fqxy i) * gpow bexp)%gf.
Definition pq_y (i : Z) : gf := (fp i + fpxy i + pq_x i)%gf.

Abbreviation xl := (abd_lane ax).
Abbreviation yl := (abd_lane ay).

(** The four sources keep their contents. *)
Definition pq_sources (m1 : mem) : Prop :=
  reads m1 (ptr_add (rpq_p rpq)) 0 xs (gfun fp) /\ reads m1 (ptr_add (rpq_q rpq)) 0 xs (gfun fq) /\
  reads m1 (ptr_add (rpq_pxy rpq)) 0 xs (gfun fpxy) /\ reads m1 (ptr_add (rpq_qxy rpq)) 0 xs (gfun fqxy).

Lemma pq_sources_x m1 m2 w lo hi : pq_sources m1 -> 0 <= lo -> hi <= xs -> swept m1 [(xl, w)] lo hi m2 -> pq_sources m2.
Proof using Hpa Hqa Hpxya Hqxya.
  intros (S1 & S2 & S3 & S4) Hlo Hhi Hsw. destruct Hpa as [A1 _], Hqa as [A2 _], Hpxya as [A3 _], Hqxya as [A4 _]. repeat split; still; assumption.
Qed.

Lemma pq_sources_xy m1 m2 w w' lo hi : pq_sources m1 -> 0 <= lo -> hi <= ys -> swept m1 [(xl, w); (yl, w')] lo hi m2 -> pq_sources m2.
Proof using Hpa Hqa Hpxya Hqxya Hle.
  intros (S1 & S2 & S3 & S4) Hlo Hhi Hsw. destruct Hpa as [A1 B1], Hqa as [A2 B2], Hpxya as [A3 B3], Hqxya as [A4 B4]. repeat split; still; assumption.
Qed.

Lemma reconst_x_ok m1 pos b :
  pq_sources m1 -> 0 <= pos -> pos + 1 <= xs -> contig xl pos b 1 -> mapped m1 xl pos (pos + 1) ->
  exists m2, reconst_x aexp bexp m1 b (rpq_add rpq pos) = Ok m2 /\ swept m1 [(xl, gfun pq_x)] pos (pos + 1) m2.
Proof using.
  intros (S1 & S2 & S3 & S4) Hpos Hhi Hc Hm. unfold reconst_x. cbn [rpq_add rpq_p rpq_q rpq_pxy rpq_qxy].
  rewrite (load8_lane m1 (ptr_add (rpq_p rpq)) pos _ (gfun fp) (contig_ptr _ _ _)) by part S1. rewrite (load8_lane m1 (ptr_add (rpq_pxy rpq)) pos _ (gfun fpxy) (contig_ptr _ _ _)) by part S3.
  rewrite (load8_lane m1 (ptr_add (rpq_q rpq)) pos _ (gfun fq) (contig_ptr _ _ _)) by part S2. rewrite (load8_lane m1 (ptr_add (rpq_qxy rpq)) pos _ (gfun fqxy) (contig_ptr _ _ _)) by part S4. cbn [mbind res_bind].
  apply store8_lane; [done|done|]. unfold gfun, pq_x. change (Z.lxor (gv ?a) (gv ?b)) with (gv (a + b)%gf). rewrite !gv_exp2. done.
Qed.

Lemma reconst_pq_func_ok : exists m1 m2 s, abd_iterate_func2 (vdev_raidz_reconst_pq_func aexp bexp) ax ay 0 0 ys (m, rpq) = Ok (0, (m1, rpq_add rpq ys)) /\
  abd_iterate_func (vdev_raidz_reconst_pq_tail_func aexp bexp) ax ys (xs - ys) (m1, rpq_add rpq ys) = Ok (0, (m2, s)) /\
  swept m [(xl, gfun pq_x); (yl, gfun pq_y)] 0 ys m1 /\ swept m1 [(xl, gfun pq_x)] ys xs m2.
Proof.
  pose proof (aw_size ay Hwy). assert (Hs0 : pq_sources m) by done.
  assert (E0 : forall n k, rpq_add (rpq_add rpq n) k = rpq_add rpq (n + k)) by (intros n k; unfold rpq_add; cbn; by rewrite !ptr_add_add).
  assert (Ez : rpq_add rpq 0 = rpq) by (unfold rpq_add; rewrite !ptr_add_0; by destruct rpq).
  assert (Hxy' : apart xl yl ys ys) by (eapply apart_sub; [exact Hxy|lia|lia]). assert (Hix' : lane_inj xl ys) by (intros i j Hi Hj; apply Hix; lia).
  destruct (iterate2_units 1 (vdev_raidz_reconst_pq_func aexp bexp) (rpq_add rpq) (fun pos b c i m1 => let s := rpq_add rpq (pos + i) in
    m1 ← reconst_x aexp bexp m1 (ptr_add b i) s; p ← load8 m1 (rpq_p s); pxy ← load8 m1 (rpq_pxy s); x ← load8 m1 (ptr_add b i); store8 m1 (ptr_add c i) (Z.lxor (Z.lxor p pxy) x))
    m [(xl, gfun pq_x); (yl, gfun pq_y)] ax ay ys ys) as (m1 & E1 & Hsw1);
    [lia|done|done|apply multiple_1|apply multiple_1|lia|lia|apply Z.divide_1_l|separated|lia| | |].
  { intros pos b c n m1. cbn [vdev_raidz_reconst_pq_func]. rewrite Z.div_1_r, Z.mul_1_l, E0. erewrite for_range_ext; [reflexivity|]. intros i m2. by rewrite E0. }
  { intros pos b c i m1 Hpos Hi Hle1 Hc Hc' Hsw. rewrite Z.mul_1_l in *. cbn zeta.
    assert (Hs1 : pq_sources m1) by (eapply pq_sources_xy; [exact Hs0| | |exact Hsw]; lia). assert (Hm1 : mapped m1 xl (pos + i) (pos + i + 1)) by (eapply swept_mapped; [exact Hsw|eapply mapped_sub; [exact Hmx|lia|lia]|off_lanes]).
    destruct (reconst_x_ok m1 (pos + i) (ptr_add b i)) as (m2 & E2 & Hsw2); [done|lia|lia|done|done|]. rewrite E2. cbn [mbind res_bind].
    assert (Hs2 : pq_sources m2) by (eapply pq_sources_x; [exact Hs1| | |exact Hsw2]; lia). destruct Hs2 as (S1 & _ & S3 & _). cbn [rpq_add rpq_p rpq_pxy].
    rewrite (load8_lane m2 (ptr_add (rpq_p rpq)) (pos + i) _ (gfun fp) (contig_ptr _ _ _)) by part S1. rewrite (load8_lane m2 (ptr_add (rpq_pxy rpq)) (pos + i) _ (gfun fpxy) (contig_ptr _ _ _)) by part S3.
    rewrite (load8_lane m2 xl (pos + i) _ (gfun pq_x)) by (done || (apply Hsw2; by left)). cbn [mbind res_bind].
    destruct (store8_lane m2 yl (pos + i) (ptr_add c i) (Z.lxor (Z.lxor (gfun fp (pos + i)) (gfun fpxy (pos + i))) (gfun pq_x (pos + i))) (gfun pq_y)) as (m3 & E3 & Hsw3); [done| |done|].
    { eapply swept_mapped; [exact Hsw2| |off_lanes]. eapply swept_mapped; [exact Hsw|eapply mapped_sub; [exact Hmy|lia|lia]|off_lanes]. }
    exists m3. split; [done|]. change [(xl, gfun pq_x); (yl, gfun pq_y)] with ([(xl, gfun pq_x)] ++ [(yl, gfun pq_y)]). eapply swept_app; [exact Hsw2|exact Hsw3|cross_lanes]. }
  rewrite Ez in E1. destruct (iterate_units 1 (vdev_raidz_reconst_pq_tail_func aexp bexp) (rpq_add rpq) (fun pos b i m1 => reconst_x aexp bexp m1 (ptr_add b i) (rpq_add rpq (pos + i)))
    m1 [(xl, gfun pq_x)] ax ys (xs - ys) xs) as (m2 & E2 & Hsw2); [lia|done|apply multiple_1|unfold part_ok; lia|apply Z.divide_1_l|apply Z.divide_1_l|separated|lia| | |].
  { intros pos b n m2. cbn [vdev_raidz_reconst_pq_tail_func]. rewrite Z.div_1_r, Z.mul_1_l, E0. erewrite for_range_ext; [reflexivity|]. intros i m3. by rewrite E0. }
  { intros pos b i m2 Hpos Hi Hle2 Hc Hsw. rewrite Z.mul_1_l in *. assert (Hs1 : pq_sources m1) by (eapply pq_sources_xy; [exact Hs0| | |exact Hsw1]; lia).
    apply reconst_x_ok; [eapply pq_sources_x; [exact Hs1| | |exact Hsw]; lia|lia|lia|done|].
    eapply swept_mapped; [exact Hsw| |off_lanes]. eapply swept_mapped; [exact Hsw1|eapply mapped_sub; [exact Hmx|lia|lia]|off_lanes]. }
  replace (ys + (xs - ys)) with xs in Hsw2 by lia. by eexists m1, m2, _.
Qed.

End PqTargets.

Section Recover2.

Context (rm : raidz_map) (pb db : list abd).
Hypothesis Hwf : raidz_wf rm pb db.
Context (PAGESHIFT : Z) (kmem_alloc : mem -> Z -> Z * list Z).
Hypothesis kmem_fresh : forall m n, m !! (kmem_alloc m n).1 = None.
Hypothesis kmem_size : forall m n, length (kmem_alloc m n).2 = Z.to_nat n.
Context (m : mem) (vs : list (Z -> gf)) (x y : nat) (ax ay : abd) (vx vy : Z -> gf).
Hypothesis Hst : rec_state m pb db vs [x; y].
Hypothesis Hxy : (x < y)%nat.
Hypothesis Hax : db !! x = Some ax.
Hypothesis Hay : db !! y = Some ay.
Hypothesis Hvx : vs !! x = Some vx.
Hypothesis Hvy : vs !! y = Some vy.
Context (ap aq : abd).
Hypothesis Hap : pb !! 0%nat = Some ap.
Hypothesis Haq : pb !! 1%nat = Some aq.
Hypothesis Hpar : forall k a, (k < 2)%nat -> pb !! k = Some a -> reads m (abd_lane a) 0 (raidz_big rm) (gfun (parity_at (Z.of_nat k) vs)).

Abbreviation N := (raidz_big rm).
Abbreviation first := (rm_firstdatacol rm).
Abbreviation X := (first + Z.of_nat x).
Abbreviation Y := (first + Z.of_nat y).
Abbreviation zs := (<[y := gzero]> (<[x := gzero]> vs)).

(** The map the routine lends to [vdev_raidz_generate_parity_pq]. *)
Definition pq_map (pxyd qxyd : abd) : raidz_map :=
  upd_col (upd_col (upd_col (upd_col rm VDEV_RAIDZ_P (fun rc => set_rc_abd rc (Some pxyd))) VDEV_RAIDZ_Q (fun rc => set_rc_abd rc (Some qxyd)))
    X (fun rc => set_rc_size rc 0)) Y (fun rc => set_rc_size rc 0).

Lemma pq_map_parity pxyd qxyd k d : [pxyd; qxyd] !! k = Some d -> exists rc, rm_col (pq_map pxyd qxyd) !! k = Some rc /\ rc_abd rc = Some d /\ rc_size rc = N.
Proof using Hwf Hap Haq Hxy.
  intros Hk. pose proof (first_length rm pb db Hwf) as Ef. pose proof (lookup_lt_Some _ _ _ Haq) as Hl. unfold pq_map, upd_col. cbn [rm_col set_rm_col].
  change (Z.to_nat VDEV_RAIDZ_P) with 0%nat. change (Z.to_nat VDEV_RAIDZ_Q) with 1%nat. destruct k as [|[|k]]; [..|done]; injection Hk as <-.
  - destruct (wf_parity_buf rm pb db Hwf 0 ap Hap) as (rc & Hrc & Hsz & _). apply rm_col_at_Some in Hrc. change (Z.to_nat (Z.of_nat 0)) with 0%nat in Hrc.
    rewrite 3!list_lookup_alter_ne, list_lookup_alter_eq, Hrc by lia. by eexists.
  - destruct (wf_parity_buf rm pb db Hwf 1 aq Haq) as (rc & Hrc & Hsz & _). apply rm_col_at_Some in Hrc. change (Z.to_nat (Z.of_nat 1)) with 1%nat in Hrc.
    rewrite 2!list_lookup_alter_ne, list_lookup_alter_eq, list_lookup_alter_ne, Hrc by lia. by eexists.
Qed.

Lemma pq_map_data pxyd qxyd j a : db !! j = Some a ->
  exists rc, rm_col (pq_map pxyd qxyd) !! (Z.to_nat first + j)%nat = Some rc /\ rc_abd rc = Some a /\ rc_size rc = if decide (j = x \/ j = y) then 0 else abd_size a.
Proof using Hwf Haq Hxy.
  intros Hj. pose proof (first_length rm pb db Hwf) as Ef. pose proof (lookup_lt_Some _ _ _ Haq) as Hl. destruct (wf_data_col rm pb db Hwf j a Hj) as (rc & Hrc & Ha & Hsz).
  apply rm_col_at_Some in Hrc. replace (Z.to_nat (first + Z.of_nat j)) with (Z.to_nat first + j)%nat in Hrc by lia.
  unfold pq_map, upd_col. cbn [rm_col set_rm_col]. change (Z.to_nat VDEV_RAIDZ_P) with 0%nat. change (Z.to_nat VDEV_RAIDZ_Q) with 1%nat.
  set (c := (Z.to_nat first + j)%nat) in *. destruct (decide (j = y)) as [->|Hy].
  - rewrite decide_True by auto. replace (Z.to_nat Y) with c by lia. rewrite list_lookup_alter_eq. rewrite !list_lookup_alter_ne, Hrc by lia. by eexists.
  - rewrite list_lookup_alter_ne by lia. destruct (decide (j = x)) as [->|Hx].
    + rewrite decide_True by auto. replace (Z.to_nat X) with c by lia. rewrite list_lookup_alter_eq, !list_lookup_alter_ne, Hrc by lia. by eexists.
    + rewrite decide_False by tauto. rewrite !list_lookup_alter_ne, Hrc by lia. by eexists.
Qed.

Lemma zs2_lookup j v : vs !! j = Some v -> zs !! j = Some (if decide (j = x \/ j = y) then gzero else v).
Proof using Hxy.
  intros E. pose proof (lookup_lt_Some _ _ _ E). destruct (decide (j = y)) as [->|Hy]; [rewrite decide_True by auto; apply list_lookup_insert_eq; by rewrite length_insert|].
  rewrite list_lookup_insert_ne by done. destruct (decide (j = x)) as [->|Hx]; [rewrite decide_True by auto; by apply list_lookup_insert_eq|].
  rewrite list_lookup_insert_ne, decide_False by (done || tauto). done.
Qed.

Lemma parity_without2 k i : parity_at k vs i = (parity_at k zs i + (vx i * weight k (length vs) x + vy i * weight k (length vs) y))%gf.
Proof using Hxy Hvx Hvy.
  rewrite (parity_without k vs x vx i Hvx), (parity_without k (<[x := gzero]> vs) y vy i) by (rewrite list_lookup_insert_ne by lia; done). rewrite length_insert. ring.
Qed.

(** The new buffers, and the parity of the columns that are left in them. *)
Lemma pq_gen_ok pd qd m2 :
  own_buf N pd -> own_buf N qd -> abd_blk pd <> abd_blk qd -> mapped m2 (ptr_add (own_ptr pd)) 0 N -> mapped m2 (ptr_add (own_ptr qd)) 0 N ->
  (forall a i, a ∈ db -> 0 <= i < abd_size a -> p_blk (abd_lane a i) <> abd_blk pd /\ p_blk (abd_lane a i) <> abd_blk qd /\ mbyte m2 (abd_lane a i) = mbyte m (abd_lane a i)) ->
  gen_ok (pq_map pd qd) m2 [own_ptr pd; own_ptr qd] N zs.
Proof using Hwf Hst Hxy Hap Haq.
  intros Op Oq Hne Mp Mq Hd. pose proof (rw_big _ _ _ Hwf) as [HN HN512]. destruct Hst as [Hlen Hzero Hgood _]. pose proof (cols_length rm pb db Hwf) as Ec. pose proof (rw_cols _ _ _ Hwf) as [_ Hc]. pose proof (rw_first _ _ _ Hwf) as [_ Hf].
  assert (Hps : forall k p, [own_ptr pd; own_ptr qd] !! k = Some p -> exists d, [pd; qd] !! k = Some d /\ p = own_ptr d /\ own_buf N d).
  { intros [|[|k]] p Hk; [..|done]; injection Hk as <-; eexists; by split_and!. }
  constructor.
  - cbn [pq_map upd_col set_rm_col rm_cols rm_firstdatacol]. rewrite !length_insert. lia.
  - split; [lia|]. etrans; [|exact HN512]. by exists 64.
  - intros k p Hk. destruct (Hps k p Hk) as (d & Hd' & -> & Ho). destruct (pq_map_parity pd qd k d Hd') as (rc & Hrc & Ha & Hs). destruct (own_linear _ _ Ho) as [Eu _]. by exists rc, d.
  - intros p [->|[->|[]%elem_of_nil]%elem_of_cons]%elem_of_cons; done.
  - intros k k' p p' Hk Hk' Hkk i j Hi Hj E. apply (f_equal p_blk) in E. destruct k as [|[|k]], k' as [|[|k']]; try done; injection Hk as <-; injection Hk' as <-; by cbn in E.
  - intros j v Hv. destruct (lookup_lt_is_Some_2 db j) as [a Ha]; [apply lookup_lt_Some in Hv; rewrite !length_insert in Hv; lia|].
    destruct (lookup_lt_is_Some_2 vs j) as [v' Hv']; [apply lookup_lt_Some in Ha; lia|]. rewrite (zs2_lookup j v' Hv') in Hv. injection Hv as <-.
    destruct (pq_map_data pd qd j a Ha) as (rc & Hrc & Hab & Hsz). pose proof (list_elem_of_lookup_2 _ _ _ Ha) as Hin. destruct (wf_db rm pb db Hwf j a Ha) as (Hwa & _ & HaN). destruct (wf_words rm pb db Hwf j a Ha) as [Ha8 Has8]. pose proof (aw_size a Hwa).
    exists rc, a. split_and!; [done|done| |destruct (decide _); lia|].
    + constructor; try done; [destruct (decide _); lia|destruct (decide _); rewrite Hsz; [apply Z.divide_0_r|done]| |].
      * intros i Hi. destruct (decide (j = x \/ j = y)) as [Hb|Hb]; [lia|]. destruct (Hd a i Hin) as (_ & _ & ->); [lia|]. apply (Hgood j a v' Ha Hv'); [|lia]. intros [->|[->|[]%elem_of_nil]%elem_of_cons]%elem_of_cons; tauto.
      * intros i Hi. destruct (decide _) as [Hb|Hb]; [done|]. apply (Hzero j a v' Ha Hv'); [|lia]. intros [->|[->|[]%elem_of_nil]%elem_of_cons]%elem_of_cons; tauto.
    + intros p [->|[->|[]%elem_of_nil]%elem_of_cons]%elem_of_cons i i' Hi Hi' E; destruct (Hd a i' Hin) as (H1 & H2 & _); try (destruct (decide _); lia); rewrite <- E in H1, H2; done.
Qed.

Lemma pq_generate : exists pxyd qxyd m1 m2 m3,
  abd_alloc_linear kmem_alloc m N true = Ok (pxyd, m1) /\ abd_alloc_linear kmem_alloc m1 N true = Ok (qxyd, m2) /\
  vdev_raidz_generate_parity_pq m2 (pq_map pxyd qxyd) = Ok m3 /\
  own_buf N pxyd /\ own_buf N qxyd /\ abd_blk pxyd <> abd_blk qxyd /\ m !! abd_blk pxyd = None /\ m !! abd_blk qxyd = None /\
  reads m3 (ptr_add (own_ptr pxyd)) 0 N (gfun (parity_at 0 zs)) /\ reads m3 (ptr_add (own_ptr qxyd)) 0 N (gfun (parity_at 1 zs)) /\
  (forall l, p_blk l <> abd_blk pxyd -> p_blk l <> abd_blk qxyd -> mbyte m3 l = mbyte m l).
Proof using All.
  pose proof (rw_big _ _ _ Hwf) as [HN HN512]. destruct (alloc_own kmem_alloc m N true kmem_fresh kmem_size HN) as (pd & m1 & E1 & Op & Fp & Mp & Ip & bs & Em1).
  destruct (alloc_own kmem_alloc m1 N true kmem_fresh kmem_size HN) as (qd & m2 & E2 & Oq & Fq & Mq & Iq & _).
  assert (Hpq : abd_blk pd <> abd_blk qd) by (apply (mapped_blk m1 (ptr_add (own_ptr pd)) 0 N _ Mp Fq 0); lia).
  assert (Fq' : m !! abd_blk qd = None) by (by rewrite Em1, lookup_insert_ne in Fq).
  assert (Hold : forall l, p_blk l <> abd_blk pd -> p_blk l <> abd_blk qd -> mbyte m2 l = mbyte m l) by (intros l H1 H2; by rewrite Iq, Ip).
  assert (Hoff : forall a i, a ∈ db -> 0 <= i < abd_size a -> p_blk (abd_lane a i) <> abd_blk pd /\ p_blk (abd_lane a i) <> abd_blk qd).
  { intros a i Ha Hi. assert (Hm : mapped m (abd_lane a) 0 (abd_size a)) by (apply (rs_mapped _ _ _ _ _ Hst), elem_of_app; by right). split; by eapply mapped_blk. }
  destruct (generate_pq_ok (pq_map pd qd) m2 N zs (own_ptr pd) (own_ptr qd)) as (m3 & E3 & Hsw).
  { apply pq_gen_ok; [done|done|done| |done|].
    - intros i Hi. rewrite Iq by (by cbn). by apply Mp.
    - intros a i Ha Hi. destruct (Hoff a i Ha Hi). split_and!; [done|done|by apply Hold]. }
  exists pd, qd, m1, m2, m3. split_and!; try done.
  - apply Hsw. left.
  - apply Hsw. right. left.
  - intros l H1 H2. rewrite <- Hold by done. apply Hsw. intros l' w (k & p & Hk & -> & ->)%lanes_elem i Hi ->. destruct k as [|[|k]]; [..|done]; injection Hk as <-; [by apply H1|by apply H2].
Qed.

Lemma data_off k a i : m !! k = None -> a ∈ pb ++ db -> 0 <= i < abd_size a -> p_blk (abd_lane a i) <> k.
Proof using Hst. intros Hk Ha Hi. by apply (mapped_blk m (abd_lane a) 0 (abd_size a) k (rs_mapped _ _ _ _ _ Hst a Ha) Hk). Qed.

(** The two columns given by the equations. *)
Lemma pq_solved aexp bexp :
  let a := pow2_at (255 + X - Y) in let b := pow2_at (255 - (rm_cols rm - 1 - X)) in let tmp := 255 - log2_at (Z.lxor a 1) in
  aexp = log2_at (vdev_raidz_exp2 a tmp) -> bexp = log2_at (vdev_raidz_exp2 b tmp) ->
  forall i, pq_x aexp bexp (parity_at 0 vs) (parity_at 1 vs) (parity_at 0 zs) (parity_at 1 zs) i = vx i /\
    pq_y aexp bexp (parity_at 0 vs) (parity_at 1 vs) (parity_at 0 zs) (parity_at 1 zs) i = vy i.
Proof using Hwf Hst Hxy Hay Hvx Hvy.
  intros a b tmp Ha Hb i. pose proof (cols_length rm pb db Hwf) as Ec. pose proof (rw_cols _ _ _ Hwf) as [_ Hc]. pose proof (rw_first _ _ _ Hwf) as [_ Hf]. pose proof (rs_len _ _ _ _ _ Hst) as Hlen. pose proof (lookup_lt_Some _ _ _ Hay) as Hy.
  assert (Ep : (parity_at 0 vs i + parity_at 0 zs i)%gf = (vx i + vy i)%gf).
  { rewrite (parity_without2 0 i). unfold weight. rewrite !Z.mul_0_l, gpow_0. replace (vx i * g1 + vy i * g1)%gf with (vx i + vy i)%gf by ring.
    transitivity (parity_at 0 zs i + (parity_at 0 zs i + (vx i + vy i)))%gf; [ring|]. apply gadd_cancel. }
  assert (Eq : (parity_at 1 vs i + parity_at 1 zs i)%gf = (vx i * weight 1 (length vs) x + vy i * weight 1 (length vs) y)%gf).
  { rewrite (parity_without2 1 i). transitivity (parity_at 1 zs i + (parity_at 1 zs i + (vx i * weight 1 (length vs) x + vy i * weight 1 (length vs) y)))%gf; [ring|]. apply gadd_cancel. }
  assert (Ex : pq_x aexp bexp (parity_at 0 vs) (parity_at 1 vs) (parity_at 0 zs) (parity_at 1 zs) i = vx i).
  { unfold pq_x. rewrite Ep, Eq. unfold weight. rewrite !Z.mul_1_l. apply (pq_solve (vx i) (vy i) (Z.of_nat (length vs)) (Z.of_nat x) (Z.of_nat y)); [lia|lia|lia|..].
    - rewrite Ha. subst tmp a. by replace (255 + X - Y) with (255 + Z.of_nat x - Z.of_nat y) by lia.
    - rewrite Hb. subst tmp a b. replace (255 + X - Y) with (255 + Z.of_nat x - Z.of_nat y) by lia. by replace (255 - (rm_cols rm - 1 - X)) with (255 - (Z.of_nat (length vs) - 1 - Z.of_nat x)) by lia. }
  split; [done|]. unfold pq_y. rewrite Ex, Ep. transitivity (vx i + (vx i + vy i))%gf; [ring|]. apply gadd_cancel.
Qed.

Lemma data_sizes : abd_wf ax /\ abd_wf ay /\ 0 < abd_size ay <= abd_size ax /\ abd_size ax <= N.
Proof using Hwf Hxy Hax Hay.
  destruct (wf_db rm pb db Hwf x ax Hax) as (Hwx & _ & HxN), (wf_db rm pb db Hwf y ay Hay) as (Hwy & _ & _). pose proof (aw_size ay Hwy). pose proof (rw_sorted _ _ _ Hwf x y ax ay ltac:(lia) Hax Hay). split_and!; done || lia.
Qed.

(** The columns computed from the parity and from that of the columns left. *)
Lemma pq_recover pd qd m3 aexp bexp :
  m !! abd_blk pd = None -> m !! abd_blk qd = None ->
  reads m3 (ptr_add (own_ptr pd)) 0 N (gfun (parity_at 0 zs)) -> reads m3 (ptr_add (own_ptr qd)) 0 N (gfun (parity_at 1 zs)) ->
  (forall l, p_blk l <> abd_blk pd -> p_blk l <> abd_blk qd -> mbyte m3 l = mbyte m l) ->
  (forall i, pq_x aexp bexp (parity_at 0 vs) (parity_at 1 vs) (parity_at 0 zs) (parity_at 1 zs) i = vx i /\
    pq_y aexp bexp (parity_at 0 vs) (parity_at 1 vs) (parity_at 0 zs) (parity_at 1 zs) i = vy i) ->
  let rpq := Rpq (own_ptr ap) (own_ptr aq) (own_ptr pd) (own_ptr qd) in
  exists m4 m5 s, abd_iterate_func2 (vdev_raidz_reconst_pq_func aexp bexp) ax ay 0 0 (abd_size ay) (m3, rpq) = Ok (0, (m4, rpq_add rpq (abd_size ay))) /\
    abd_iterate_func (vdev_raidz_reconst_pq_tail_func aexp bexp) ax (abd_size ay) (abd_size ax - abd_size ay) (m4, rpq_add rpq (abd_size ay)) = Ok (0, (m5, s)) /\
    reads m5 (abd_lane ax) 0 (abd_size ax) (gfun vx) /\ reads m5 (abd_lane ay) 0 (abd_size ay) (gfun vy) /\ only_writes [ax; ay] m3 m5.
Proof using Hwf Hst Hxy Hax Hay Hap Haq Hpar.
  intros Fp Fq Rp Rq Hold Hsol rpq. destruct data_sizes as (Hwx & Hwy & Hs & HN). pose proof (wf_inj rm pb db Hwf x ax Hax) as Hix. pose proof (wf_inj rm pb db Hwf y ay Hay) as Hiy.
  destruct (wf_pb rm pb db Hwf 0 ap Hap) as [Oap _], (wf_pb rm pb db Hwf 1 aq Haq) as [Oaq _]. destruct (own_linear _ _ Oap) as [_ Zap], (own_linear _ _ Oaq) as [_ Zaq].
  assert (Hin : ax ∈ pb ++ db /\ ay ∈ pb ++ db /\ ap ∈ pb ++ db /\ aq ∈ pb ++ db) by (split_and!; apply elem_of_app; ((by right; eapply list_elem_of_lookup_2) || (by left; eapply list_elem_of_lookup_2))).
  destruct Hin as (Inx & Iny & Inp & Inq).
  assert (Hkeep : forall a i, a ∈ pb ++ db -> 0 <= i < abd_size a -> mbyte m3 (abd_lane a i) = mbyte m (abd_lane a i)) by (intros a i Ha Hi; apply Hold; by apply data_off).
  assert (Hmap : forall a, a ∈ pb ++ db -> mapped m3 (abd_lane a) 0 (abd_size a)) by (intros a Ha i Hi; rewrite Hkeep by done; by apply (rs_mapped _ _ _ _ _ Hst)).
  assert (Hparity : forall k a, (k < 2)%nat -> pb !! k = Some a -> a ∈ pb ++ db -> reads m3 (ptr_add (own_ptr a)) 0 (abd_size ax) (gfun (parity_at (Z.of_nat k) vs))).
  { intros k a Hk2 Hk Ha i Hi. destruct (wf_pb rm pb db Hwf k a Hk) as [Oa _]. destruct (own_linear _ _ Oa) as [_ Za]. rewrite <- (own_lane _ _ Oa), Hkeep by (done || lia). apply (Hpar k a Hk2 Hk). lia. }
  assert (Hpa : forall k a, pb !! k = Some a -> apart (ptr_add (own_ptr a)) (abd_lane ax) (abd_size ax) (abd_size ax) /\ apart (ptr_add (own_ptr a)) (abd_lane ay) (abd_size ax) (abd_size ay)).
  { intros k a Hk. split; (eapply apart_sub; [eapply (wf_parity_apart rm pb db Hwf); [exact Hk|done]|lia|lia]). }
  assert (Hba : forall d, m !! abd_blk d = None -> apart (ptr_add (own_ptr d)) (abd_lane ax) (abd_size ax) (abd_size ax) /\ apart (ptr_add (own_ptr d)) (abd_lane ay) (abd_size ax) (abd_size ay)).
  { intros d Hd. split; intros i j Hi Hj E; apply (f_equal p_blk) in E; (eapply (data_off (abd_blk d)); [exact Hd| | |symmetry; exact E]; done). }
  destruct (reconst_pq_func_ok aexp bexp m3 ax ay (abd_size ax) (abd_size ay) rpq (parity_at 0 vs) (parity_at 1 vs) (parity_at 0 zs) (parity_at 1 zs)) as (m4 & m5 & s & E4 & E5 & Hsw4 & Hsw5);
    try done; cbn [rpq rpq_p rpq_q rpq_pxy rpq_qxy]; [lia|apply (wf_data_apart rm pb db Hwf x y); done || lia|by apply Hmap|by apply Hmap|apply (Hparity 0%nat); done || lia|apply (Hparity 1%nat); done || lia|part Rp|part Rq|by apply (Hpa 0%nat)|by apply (Hpa 1%nat)|by apply Hba|by apply Hba|].
  exists m4, m5, s. split_and!; [done|done|..].
  - intros i Hi. replace (gfun vx i) with (gfun (pq_x aexp bexp (parity_at 0 vs) (parity_at 1 vs) (parity_at 0 zs) (parity_at 1 zs)) i) by (unfold gfun; f_equal; apply Hsol). destruct (decide (abd_size ay <= i)); [apply (sw_new _ _ _ _ _ Hsw5); [left|lia]|]. apply (swept_reads m4 _ _ _ _ _ 0 (abd_size ay) _ Hsw5) ; [apply Hsw4; left|off_lanes|lia].
  - intros i Hi. replace (gfun vy i) with (gfun (pq_y aexp bexp (parity_at 0 vs) (parity_at 1 vs) (parity_at 0 zs) (parity_at 1 zs)) i) by (unfold gfun; f_equal; apply Hsol). pose proof (wf_data_apart rm pb db Hwf x y ax ay (abd_size ax) (abd_size ay) Hax Hay ltac:(lia) ltac:(lia) ltac:(lia)) as Hxya.
    apply (swept_reads m4 _ _ _ _ _ 0 (abd_size ay) _ Hsw5); [apply Hsw4; right; left|off_lanes|lia].
  - intros l Hl. cbn in Hl. rewrite app_nil_r, elem_of_app in Hl. rewrite (sw_old _ _ _ _ _ Hsw5), (sw_old _ _ _ _ _ Hsw4); [done|..].
    + intros l' w [[= -> ->]|[[= -> ->]|[]%elem_of_nil]%elem_of_cons]%elem_of_cons i Hi ->; apply Hl; [left|right]; apply lane_locs; done || lia.
    + intros l' w [= -> ->]%list_elem_of_singleton i Hi ->. apply Hl. left. apply lane_locs; done || lia.
Qed.

Lemma reconstruct_pq_ok tgts :
  tgts !! 0%nat = Some X -> tgts !! 1%nat = Some Y ->
  exists m', vdev_raidz_reconstruct_pq PAGESHIFT kmem_alloc m rm tgts = Ok (3, m') /\ data_held m' db vs /\ only_writes [ax; ay] m m'.
Proof using All.
  intros Ht Hu. destruct pq_generate as (pd & qd & m1 & m2 & m3 & E1 & E2 & E3 & Op & Oq & Hpq & Fp & Fq & Rp & Rq & Hold). pose proof (rw_big _ _ _ Hwf) as [HN _]. destruct data_sizes as (Hwx & Hwy & Hs & _).
  destruct (wf_parity_buf rm pb db Hwf 0 ap Hap) as (rcp & Ercp & Esp & _ & Eap & _). destruct (wf_parity_buf rm pb db Hwf 1 aq Haq) as (rcq & Ercq & Esq & _ & Eaq & _).
  destruct (wf_pb rm pb db Hwf 0 ap Hap) as [Oap _], (wf_pb rm pb db Hwf 1 aq Haq) as [Oaq _]. destruct (own_linear _ _ Oap) as [Uap _], (own_linear _ _ Oaq) as [Uaq _]. destruct (own_linear _ _ Op) as [Upd _], (own_linear _ _ Oq) as [Uqd _].
  change (Z.of_nat 0) with VDEV_RAIDZ_P in Ercp, Eap. change (Z.of_nat 1) with VDEV_RAIDZ_Q in Ercq, Eaq.
  destruct (wf_data_col rm pb db Hwf x ax Hax) as (rcx & Ercx & Eax & Esx). destruct (wf_data_col rm pb db Hwf y ay Hay) as (rcy & Ercy & Eay & Esy).
  destruct (pq_recover pd qd m3 _ _ Fp Fq Rp Rq Hold (pq_solved _ _ eq_refl eq_refl)) as (m4 & m5 & s & E4 & E5 & Rx & Ry & Ho).
  unfold vdev_raidz_reconstruct_pq. rewrite Ht, Hu. cbn [deref mbind res_bind]. rewrite Eap, Eaq. cbn [mbind res_bind]. rewrite Ercx, Ercy, Ercp, Ercq. cbn [mbind res_bind]. rewrite Esp, Esq, E1. cbn [mbind res_bind]. rewrite E2. cbn [mbind res_bind].
  change (upd_col _ Y _) with (pq_map pd qd). rewrite E3. cbn [mbind res_bind]. unfold abd_to_buf. rewrite Uap, Uaq, Upd, Uqd. cbn [mbind res_bind]. rewrite Eax, Eay. cbn [deref mbind res_bind]. rewrite Esx, Esy, E4. cbn [mbind res_bind]. rewrite E5. cbn [mbind res_bind].
  assert (Hnew : forall d v, m !! abd_blk d = None -> reads m3 (ptr_add (own_ptr d)) 0 N v -> mapped m5 (ptr_add (own_ptr d)) 0 N).
  { intros d v Hd Hr i Hi. rewrite Ho; [by eexists; apply Hr|]. intros (a & Hl & Ha)%list_elem_of_bind. assert (Hin : a = ax \/ a = ay) by (apply elem_of_cons in Ha as [->|[->|[]%elem_of_nil]%elem_of_cons]; auto). apply locs_lane_inv in Hl as (j & Hj & El); [|by destruct Hin as [->| ->]]. apply (f_equal p_blk) in El. eapply (data_off (abd_blk d)); [exact Hd| |exact Hj|symmetry; exact El].
    apply elem_of_app. right. destruct Hin as [->| ->]; by eapply list_elem_of_lookup_2. }
  rewrite (free_own PAGESHIFT m5 N pd) by (done || lia || by eapply Hnew). cbn [mbind res_bind].
  rewrite (free_own PAGESHIFT _ N qd); [|done|lia|intros i Hi; rewrite mbyte_delete by done; by eapply Hnew]. cbn [mbind res_bind]. set (m6 := delete _ _).
  assert (E6 : forall l, p_blk l <> abd_blk pd -> p_blk l <> abd_blk qd -> mbyte m6 l = mbyte m5 l) by (intros l H1 H2; subst m6; by rewrite !mbyte_delete).
  assert (Hw : only_writes [ax; ay] m m6).
  { intros l Hl. destruct (decide (p_blk l = abd_blk pd)) as [E|Hp]; [unfold mbyte, m6; rewrite E, Fp, lookup_delete_ne, lookup_delete_eq; done|].
    destruct (decide (p_blk l = abd_blk qd)) as [E|Hq]; [unfold mbyte, m6; rewrite E, Fq, lookup_delete_eq; done|]. rewrite E6, Ho, Hold; done. }
  exists m6. split; [done|]. split; [|done]. eapply rec_done; [exact Hst|apply Hwf|by eapply wf_all| |cbn; by rewrite Hax, Hay].
  intros j a v Ha Hv Hj i Hi. rewrite E6 by (eapply data_off; [done|apply elem_of_app; right; by eapply list_elem_of_lookup_2|done]).
  apply elem_of_cons in Hj as [->|[->|[]%elem_of_nil]%elem_of_cons]; simplify_eq; [by apply Rx|by apply Ry].
Qed.

End Recover2.
