(* ===== verification/RaidzMatrix.v ===== *)
(** * The general reconstruction: [module/zfs/vdev_raidz.c]

    Any lost data columns, up to the number of parity columns that are left, are
    the solution of linear equations: the rows of a matrix, one for each parity
    column used, are inverted by elimination and applied to the columns there are.
    Elimination uses logarithms, and never meets a zero of which it would take one. *)

From Stdlib Require Import Field.
From stdpp Require Import gmap.
From S2P Require Import Prelude Bits Buffer Gf Memory Abd AbdIter RaidzMap RaidzParity RaidzReconst.

(** ** The matrix *)

(** An array of [uint8_t], and an array of such. *)
Definition row_at (r : list Z) (j : Z) : Z := nth (Z.to_nat j) r 0.
Definition rows_at (rows : list (list Z)) (i : Z) : list Z := nth (Z.to_nat i) rows [].

Fixpoint matrix_row (n : nat) (map pow : Z) : list Z :=
  match n with
  | O => []
  | S n' =>
      let pow := pow - map in
      let pow := if pow <? 0 then pow + 255 else pow in
      pow2_at pow :: matrix_row n' map pow
  end.

Definition vdev_raidz_matrix_init (n : Z) (map : list Z) : list (list Z) :=
  (fun mi => let pow := mi * n in
             let pow := if 255 <? pow then pow - 255 else pow in
             matrix_row (Z.to_nat n) mi pow) <$> map.

Section Invert.

Variables (firstdatacol n nmissing : Z) (missing used : list Z).

Definition invrows_init : list (list Z) :=
  (fun i => (fun j => if i =? j then 1 else 0) <$> seqZ 0 n) <$> seqZ 0 nmissing.

(** The trivial rows, subtracted from one row. *)
Definition subtract_trivial (ri : list Z * list Z) : list Z * list Z :=
  foldl (fun '(row, inv) j =>
    let jj := row_at used j - firstdatacol in
    (<[Z.to_nat jj := 0]> row, <[Z.to_nat j := row_at row jj]> inv)) ri (seqZ nmissing (n - nmissing)).

Definition scale_row (log : Z) (row : list Z) : list Z := (fun a => vdev_raidz_exp2 a log) <$> row.
Definition add_row (log : Z) (row src : list Z) : list Z := zip_with (fun a b => Z.lxor a (vdev_raidz_exp2 b log)) row src.

(** One row subtracted from another. *)
Definition eliminate (i ii : Z) (s : list (list Z) * list (list Z)) : list (list Z) * list (list Z) :=
  let '(rows, invrows) := s in
  if i =? ii then s else
  let log := log2_at (row_at (rows_at rows ii) (row_at missing i)) in
  (alter (fun r => add_row log r (rows_at rows i)) (Z.to_nat ii) rows, alter (fun r => add_row log r (rows_at invrows i)) (Z.to_nat ii) invrows).

(** One of the rows of interest. *)
Definition invert_row (s : list (list Z) * list (list Z)) (i : Z) : list (list Z) * list (list Z) :=
  let '(rows, invrows) := s in
  let log := 255 - log2_at (row_at (rows_at rows i) (row_at missing i)) in
  foldl (fun s ii => eliminate i ii s) (alter (scale_row log) (Z.to_nat i) rows, alter (scale_row log) (Z.to_nat i) invrows) (seqZ 0 nmissing).

Definition vdev_raidz_matrix_invert (rows : list (list Z)) : list (list Z) * list (list Z) :=
  let ris := subtract_trivial <$> zip rows invrows_init in
  foldl invert_row (ris.*1, ris.*2) (seqZ 0 nmissing).

End Invert.

(** ** The columns *)

(** One byte of a source, added to one target. *)
Definition matrix_byte (first : bool) (src : ptr) (log il x : Z) (d : ptr * Z) (m : mem) : res mem :=
  let '(dst, dcount) := d in
  if dcount <=? x then Ok m else
  b ← load8 m src;
  let val := if b =? 0 then 0 else
             let ll := log + il in
             let ll := if 255 <=? ll then ll - 255 else ll in pow2_at ll in
  if first then store8 m (ptr_add dst x) val else
  old ← load8 m (ptr_add dst x); store8 m (ptr_add dst x) (Z.lxor old val).

Definition matrix_dst (rm : raidz_map) (mj : Z) : res (ptr * Z) :=
  let cc := mj + rm_firstdatacol rm in
  dst ← col_buf rm cc; rcc ← rm_col_at rm cc; Ok (dst, rc_size rcc).

Fixpoint matrix_dsts (rm : raidz_map) (missing : list Z) : res (list (ptr * Z)) :=
  match missing with
  | [] => Ok []
  | mj :: missing' => d ← matrix_dst rm mj; ds ← matrix_dsts rm missing'; Ok (d :: ds)
  end.

(** One source; [ils] are the logarithms of its coefficients.  [log] keeps its value
    over a byte that is zero. *)
Definition matrix_column (first : bool) (src : ptr) (ccount : Z) (ils : list Z) (dsts : list (ptr * Z)) (s : mem * Z) : res (mem * Z) :=
  for_range 0 ccount (fun x s =>
    let '(m, log) := s in
    b ← load8 m (ptr_add src x);
    let log := if b =? 0 then log else log2_at b in
    m ← for_range 0 (Z.of_nat (length dsts)) (fun cc m =>
      d ← deref (dsts !! Z.to_nat cc);
      matrix_byte first (ptr_add src x) log (row_at ils cc) x d m) m;
    Ok (m, log)) s.

Definition vdev_raidz_matrix_reconstruct (m : mem) (rm : raidz_map) (n : Z) (missing : list Z) (invrows : list (list Z)) (used : list Z) : res mem :=
  let invlog : list (list Z) := (fun r : list Z => log2_at <$> r) <$> invrows in
  s ← for_range 0 n (fun i s =>
    let c := row_at used i in
    src ← col_buf rm c;
    rc ← rm_col_at rm c;
    dsts ← matrix_dsts rm missing;
    matrix_column (i =? 0) src (rc_size rc) ((fun r => row_at r i) <$> invlog) dsts s) (m, 0);
  Ok s.1.

(** ** The routine *)

Section General.

Variable PAGESHIFT : Z.
Variable kmem_alloc : mem -> Z -> Z * list Z.

(** The data columns copied to linear buffers, and back. *)
Definition linear_columns (m : mem) (rm : raidz_map) : res (list abd * raidz_map * mem) :=
  for_range (rm_firstdatacol rm) (rm_cols rm) (fun c s =>
    let '(bufs, rm, m) := s in
    col ← rm_col_at rm c;
    buf ← deref (rc_abd col);
    '(a, m) ← abd_alloc_linear kmem_alloc m (rc_size col) true;
    m ← abd_copy_off m a buf 0 0 (rc_size col);
    Ok (bufs ++ [buf], upd_col rm c (fun rc => set_rc_abd rc (Some a)), m)) ([], rm, m).

Definition restore_columns (m : mem) (rm : raidz_map) (bufs : list abd) : res mem :=
  for_range (rm_firstdatacol rm) (rm_cols rm) (fun c m =>
    col ← rm_col_at rm c;
    a ← deref (rc_abd col);
    buf ← deref (bufs !! Z.to_nat (c - rm_firstdatacol rm));
    m ← abd_copy_off m buf a 0 0 (rc_size col);
    abd_free PAGESHIFT m a) m.

(** The parity columns to use, from column [c]; [tgts] are the targets left. *)
Fixpoint parity_to_use (fuel : nat) (nleft c : nat) (tgts : list Z) : res (list Z) :=
  match nleft with
  | O => Ok []
  | S nleft' =>
      match fuel with
      | O => Panic
      | S fuel' =>
          match tgts with
          | [] => Panic
          | t :: tgts' =>
              if Z.of_nat c =? t then parity_to_use fuel' nleft (S c) tgts' else
              cs ← parity_to_use fuel' nleft' (S c) tgts; Ok (Z.of_nat c :: cs)
          end
      end
  end.

(** The data columns that are no target, from column [c]. *)
Fixpoint data_to_use (n : nat) (c firstdatacol : Z) (missing : list Z) : list Z :=
  match n with
  | O => []
  | S n' =>
      match missing with
      | t :: missing' => if c =? t + firstdatacol then data_to_use n' (c + 1) firstdatacol missing' else c :: data_to_use n' (c + 1) firstdatacol missing
      | [] => c :: data_to_use n' (c + 1) firstdatacol missing
      end
  end.

(** The middle of the routine, where all columns are linear. *)
Definition reconstruct_linear (m : mem) (rm : raidz_map) (tgts : list Z) : res (Z * mem) :=
  let n := rm_cols rm - rm_firstdatacol rm in
  let missing_rows := (fun t => t - rm_firstdatacol rm) <$> filter (fun t => rm_firstdatacol rm <= t) tgts in
  let nmissing_rows := length missing_rows in
  parity_map ← parity_to_use (Z.to_nat (rm_firstdatacol rm)) nmissing_rows 0 tgts;
  let code := foldl (fun code c => Z.lor code (Z.shiftl 1 c)) 0 parity_map in
  let used := parity_map ++ data_to_use (Z.to_nat n) (rm_firstdatacol rm) (rm_firstdatacol rm) missing_rows in
  let rows := vdev_raidz_matrix_init n parity_map in
  let invrows := (vdev_raidz_matrix_invert (rm_firstdatacol rm) n (Z.of_nat nmissing_rows) missing_rows used rows).2 in
  m ← vdev_raidz_matrix_reconstruct m rm n missing_rows invrows used;
  Ok (code, m).

Definition vdev_raidz_reconstruct_general (m : mem) (rm : raidz_map) (tgts : list Z) : res (Z * mem) :=
  a ← col_abd rm (rm_firstdatacol rm);
  if abd_is_linear a then reconstruct_linear m rm tgts else
  '(bufs, rm, m) ← linear_columns m rm;
  '(code, m) ← reconstruct_linear m rm tgts;
  m ← restore_columns m rm bufs;
  Ok (code, m).

End General.

(** ** Rows over the field *)

Definition mkrow (n : Z) (f : Z -> gf) : list Z := (fun j => gv (f j)) <$> seqZ 0 n.

Lemma length_mkrow n f : length (mkrow n f) = Z.to_nat n.
Proof. unfold mkrow. by rewrite length_fmap, length_seqZ. Qed.

Lemma mkrow_lookup n f i : mkrow n f !! i = if decide (Z.of_nat i < n) then Some (gv (f (Z.of_nat i))) else None.
Proof.
  unfold mkrow. rewrite list_lookup_fmap. destruct (decide _) as [H|H]; [rewrite lookup_seqZ_lt by lia; cbn; do 2 f_equal; f_equal; lia|rewrite lookup_seqZ_ge by lia; done].
Qed.

Lemma row_at_mkrow n f j : 0 <= j < n -> row_at (mkrow n f) j = gv (f j).
Proof. intros H. unfold row_at. rewrite nth_lookup, mkrow_lookup, decide_True by lia. cbn. do 2 f_equal. lia. Qed.

Lemma mkrow_ext n f g : (forall j, 0 <= j < n -> f j = g j) -> mkrow n f = mkrow n g.
Proof. intros H. unfold mkrow. apply list_fmap_ext. intros i j Hj. apply lookup_seqZ in Hj as [-> Hj]. by rewrite H by lia. Qed.

Lemma scale_mkrow n f log : scale_row log (mkrow n f) = mkrow n (fun j => f j * gpow log)%gf.
Proof. unfold scale_row, mkrow. rewrite <- list_fmap_compose. apply list_fmap_ext. intros i j _. cbn [compose]. apply gv_exp2. Qed.

Lemma add_mkrow n f g log : add_row log (mkrow n f) (mkrow n g) = mkrow n (fun j => f j + g j * gpow log)%gf.
Proof.
  unfold add_row, mkrow. rewrite zip_with_fmap_l, zip_with_fmap_r. apply list_eq. intros i. rewrite lookup_zip_with, list_lookup_fmap.
  destruct (seqZ 0 n !! i); [|done]. cbn. by rewrite gv_exp2.
Qed.

Lemma insert_mkrow n f j a : 0 <= j < n -> <[Z.to_nat j := gv a]> (mkrow n f) = mkrow n (fun i => if decide (i = j) then a else f i).
Proof.
  intros Hj. apply list_eq. intros i. rewrite mkrow_lookup. destruct (decide (i = Z.to_nat j)) as [->|Hne].
  - rewrite list_lookup_insert_eq by (rewrite length_mkrow; lia). rewrite decide_True by lia. by rewrite decide_True by lia.
  - rewrite list_lookup_insert_ne, mkrow_lookup by done. destruct (decide (Z.of_nat i < n)); [|done]. by rewrite decide_False by lia.
Qed.

(** The powers that [vdev_raidz_matrix_init] counts down. *)
Lemma pow2_gpow p : 0 <= p <= 255 -> pow2_at p = gv (gpow p).
Proof. intros H. rewrite gv_gpow. destruct (decide (p = 255)) as [->|Hne]; [done|]. by rewrite Z.mod_small by lia. Qed.

Lemma gpow_mod e f : e mod 255 = f mod 255 -> gpow e = gpow f.
Proof. unfold gpow. by intros ->. Qed.

Lemma matrix_row_ok c (k : nat) pow e : 0 <= c <= 2 -> 0 <= pow <= 255 -> pow mod 255 = (c * e) mod 255 ->
  matrix_row k c pow = (fun j => gv (gpow (c * (e - 1 - j)))) <$> seqZ 0 (Z.of_nat k).
Proof.
  intros Hc. revert pow e. induction k as [|k IH]; intros pow e Hp Em; [done|]. cbn [matrix_row]. rewrite seqZ_cons by lia. cbn [fmap list_fmap].
  set (pow' := if pow - c <? 0 then pow - c + 255 else pow - c). assert (Hp' : 0 <= pow' <= 255 /\ pow' mod 255 = (c * (e - 1)) mod 255).
  { replace (c * (e - 1)) with (c * e - c) by lia. rewrite Zminus_mod, <- Em, <- Zminus_mod. subst pow'. destruct (Z.ltb_spec (pow - c) 0); split; try lia. replace (pow - c + 255) with (pow - c + 1 * 255) by lia. by rewrite Z_mod_plus_full. }
  destruct Hp' as [Hp' Em']. f_equal.
  - rewrite pow2_gpow by done. f_equal. apply gpow_mod. rewrite Em'. f_equal. lia.
  - rewrite (IH pow' (e - 1)) by done. replace (Z.pred (Z.of_nat (S k))) with (Z.of_nat k) by lia. replace (Z.succ 0) with (1 + 0) by done. rewrite <- (fmap_add_seqZ 1 0).
    rewrite <- list_fmap_compose. apply list_fmap_ext. intros i j _. cbn [compose]. do 2 f_equal. lia.
Qed.

Lemma matrix_init_ok n cs : 0 <= n <= 255 -> Forall (fun c => 0 <= c <= 2) cs -> vdev_raidz_matrix_init n cs = (fun c => mkrow n (fun j => gpow (c * (n - 1 - j)))) <$> cs.
Proof.
  intros Hn Hcs. unfold vdev_raidz_matrix_init. apply list_fmap_ext. intros i c Hc. rewrite Forall_lookup in Hcs. specialize (Hcs i c Hc). cbv beta zeta.
  rewrite (matrix_row_ok c _ _ n); [unfold mkrow; by rewrite Z2Nat.id by lia|done|destruct (Z.ltb_spec 255 (c * n)); nia|].
  destruct (Z.ltb_spec 255 (c * n)); [|done]. replace (c * n - 255) with (c * n + -1 * 255) by lia. apply Z_mod_plus_full.
Qed.

(** ** Sums *)

Definition gsum (l : list Z) (f : Z -> gf) : gf := foldr (fun j acc => f j + acc)%gf g0 l.

Lemma gsum_cons j l f : gsum (j :: l) f = (f j + gsum l f)%gf.
Proof. done. Qed.

Lemma gsum_ext l f g : (forall j, j ∈ l -> f j = g j) -> gsum l f = gsum l g.
Proof. induction l as [|j l IH]; intros H; [done|]. rewrite !gsum_cons, (H j) by left. f_equal. apply IH. intros i Hi. apply H. by right. Qed.

Lemma gsum_add l f g : gsum l (fun j => f j + g j)%gf = (gsum l f + gsum l g)%gf.
Proof. induction l as [|j l IH]; [cbn; ring|]. rewrite !gsum_cons, IH. ring. Qed.

Lemma gsum_scale l f a : gsum l (fun j => f j * a)%gf = (gsum l f * a)%gf.
Proof. induction l as [|j l IH]; [cbn; ring|]. rewrite !gsum_cons, IH. ring. Qed.

Lemma gsum_zero l f : (forall j, j ∈ l -> f j = g0) -> gsum l f = g0.
Proof. induction l as [|j l IH]; intros H; [done|]. rewrite gsum_cons, (H j) by left. rewrite IH by (intros i Hi; apply H; by right). ring. Qed.

Lemma gsum_fmap (h : Z -> Z) l f : gsum (h <$> l) f = gsum l (fun j => f (h j)).
Proof. induction l as [|j l IH]; [done|]. cbn [fmap list_fmap]. rewrite !gsum_cons. f_equal. exact IH. Qed.

Lemma gsum_app l l' f : gsum (l ++ l') f = (gsum l f + gsum l' f)%gf.
Proof. induction l as [|j l IH]; [cbn [app]; change (gsum [] f) with g0; ring|]. cbn [app]. rewrite !gsum_cons, IH. ring. Qed.

Lemma gsum_one l f i : NoDup l -> i ∈ l -> (forall j, j ∈ l -> j <> i -> f j = g0) -> gsum l f = f i.
Proof.
  intros Hn Hi Hz. induction l as [|j l IH]; [by apply elem_of_nil in Hi|]. apply NoDup_cons in Hn as [Hj Hn]. rewrite gsum_cons. apply elem_of_cons in Hi as [->|Hi].
  - rewrite gsum_zero; [ring|]. intros k Hk. apply Hz; [by right|]. by intros ->.
  - rewrite (Hz j), IH; [ring|done|done| |by left|by intros ->]. intros k Hk. apply Hz. by right.
Qed.

(** One term changed. *)
Lemma gsum_update l f i a : NoDup l -> i ∈ l -> gsum l (fun j => if decide (j = i) then a else f j) = (gsum l f + (f i + a))%gf.
Proof.
  intros Hn Hi. assert (E : gsum l (fun j => if decide (j = i) then (f i + a)%gf else g0) = (f i + a)%gf).
  { rewrite (gsum_one l _ i) by (done || (intros j _ Hne; by rewrite decide_False)). by rewrite decide_True. }
  rewrite <- E, <- gsum_add. apply gsum_ext. intros j _. destruct (decide (j = i)) as [->|]; [by rewrite gadd_cancel|ring].
Qed.

Lemma parity_gsum k vs i : parity_at k vs i = gsum (seqZ 0 (Z.of_nat (length vs))) (fun j => nth (Z.to_nat j) vs gzero i * gpow (k * (Z.of_nat (length vs) - 1 - j)))%gf.
Proof.
  induction vs as [|v vs IH]; [done|]. rewrite parity_cons, IH. cbn [length]. rewrite (seqZ_cons 0 (Z.of_nat (S (length vs)))), gsum_cons by lia. change (nth (Z.to_nat 0) (v :: vs) gzero) with v. replace (Z.of_nat (S (length vs)) - 1 - 0) with (Z.of_nat (length vs)) by lia. f_equal.
  replace (Z.pred (Z.of_nat (S (length vs)))) with (Z.of_nat (length vs)) by lia. replace (Z.succ 0) with (1 + 0) by done. rewrite <- (fmap_add_seqZ 1 0).
  rewrite gsum_fmap. apply gsum_ext. intros j Hj%elem_of_seqZ. replace (Z.to_nat (1 + j)) with (S (Z.to_nat j)) by lia. cbn [nth]. by replace (Z.of_nat (S (length vs)) - 1 - (1 + j)) with (Z.of_nat (length vs) - 1 - j) by lia.
Qed.

(** ** Elimination *)

(** What one round does to a column of the matrix, [a] being that of the pivot. *)
Definition elim (i : nat) (a w : list gf) : list gf :=
  imap (fun l x => if decide (l = i) then x * ginv (nth i a g0) else x + gopp (nth i w g0 * ginv (nth i a g0) * nth l a g0))%gf w.

(** And to the rows, as functions. *)
Definition estep (i : nat) (a : list gf) (Hs : list (Z -> gf)) : list (Z -> gf) :=
  imap (fun l h => if decide (l = i) then (fun j => h j * ginv (nth i a g0))%gf
                   else (fun j => h j + nth i Hs gzero j * ginv (nth i a g0) * nth l a g0)%gf) Hs.

Definition col_of (Hs : list (Z -> gf)) (j : Z) : list gf := (fun h => h j) <$> Hs.

Lemma col_lookup Hs j l : col_of Hs j !! l = (fun h : Z -> gf => h j) <$> Hs !! l.
Proof. apply list_lookup_fmap. Qed.

Lemma nth_col Hs i j : nth i (col_of Hs j) g0 = nth i Hs gzero j.
Proof. rewrite !nth_lookup, col_lookup. by destruct (Hs !! i). Qed.

Lemma length_estep i a Hs : length (estep i a Hs) = length Hs.
Proof. apply length_imap. Qed.

Lemma col_estep i a Hs j : col_of (estep i a Hs) j = elim i a (col_of Hs j).
Proof.
  apply list_eq. intros l. unfold estep, elim. rewrite col_lookup, !list_lookup_imap, col_lookup. destruct (Hs !! l) as [h|]; [|done]. cbn.
  destruct (decide (l = i)); [done|]. by rewrite nth_col.
Qed.

Section Rounds.

Context (n : Z) (missing : list Z).
Hypothesis Hmissing : Forall (fun mi => 0 <= mi < n) missing.
Abbreviation k := (length missing).

Lemma rows_at_mkrow Fs (i : nat) : rows_at (mkrow n <$> Fs) (Z.of_nat i) = if decide (i < length Fs)%nat then mkrow n (nth i Fs gzero) else [].
Proof.
  unfold rows_at. rewrite Nat2Z.id, !nth_lookup, list_lookup_fmap. destruct (decide _) as [H|H]; [by destruct (lookup_lt_is_Some_2 Fs i H) as [f ->]|]. by rewrite lookup_ge_None_2 by lia.
Qed.

Lemma missing_at (i : nat) : (i < k)%nat -> row_at missing (Z.of_nat i) = nth i missing 0 /\ 0 <= nth i missing 0 < n.
Proof using Hmissing.
  intros H. unfold row_at. rewrite Nat2Z.id. split; [done|]. destruct (lookup_lt_is_Some_2 missing i H) as [x E]. rewrite nth_lookup, E. rewrite Forall_lookup in Hmissing. by apply (Hmissing i).
Qed.

(** The rows below [t] done. *)
Definition partly (t i : nat) (a : list gf) (Hs : list (Z -> gf)) : list (Z -> gf) :=
  imap (fun l h => if decide (l = i) then (fun j => h j * ginv (nth i a g0))%gf
                   else if decide (l < t)%nat then (fun j => h j + nth i Hs gzero j * ginv (nth i a g0) * nth l a g0)%gf else h) Hs.

Lemma nth_partly t i l a Hs : (l < length Hs)%nat ->
  nth l (partly t i a Hs) gzero = if decide (l = i) then (fun j => nth l Hs gzero j * ginv (nth i a g0))%gf
    else if decide (l < t)%nat then (fun j => nth l Hs gzero j + nth i Hs gzero j * ginv (nth i a g0) * nth l a g0)%gf else nth l Hs gzero.
Proof. intros H. unfold partly. destruct (lookup_lt_is_Some_2 Hs l H) as [h Eh]. rewrite (nth_lookup (imap _ Hs)), list_lookup_imap, (nth_lookup Hs l), Eh. done. Qed.

Lemma partly_add t i a Hs : (i < length Hs)%nat -> (t < length Hs)%nat -> t <> i -> nth t a g0 <> g0 ->
  alter (fun r => add_row (log2_at (gv (nth t a g0))) r (mkrow n (nth i (partly t i a Hs) gzero))) t (mkrow n <$> partly t i a Hs) = mkrow n <$> partly (S t) i a Hs.
Proof.
  intros Hi Ht Hne Hnz. rewrite nth_partly, decide_True by done. apply list_eq. intros l. destruct (decide (l = t)) as [->|Hl].
  - rewrite list_lookup_alter_eq, !list_lookup_fmap. unfold partly. rewrite !list_lookup_imap. destruct (lookup_lt_is_Some_2 Hs t Ht) as [h Eh]. rewrite Eh. cbn [fmap option_fmap option_map].
    rewrite !(decide_False (P := t = i)), (decide_False (P := (t < t)%nat)), (decide_True (P := (t < S t)%nat)) by lia. f_equal. rewrite add_mkrow. apply mkrow_ext. intros j _. by rewrite gpow_log.
  - rewrite list_lookup_alter_ne, !list_lookup_fmap by done. unfold partly. rewrite !list_lookup_imap. destruct (Hs !! l) as [h|]; [|done]. cbn [fmap option_fmap option_map]. do 2 f_equal.
    destruct (decide (l = i)); [done|]. destruct (decide (l < t)%nat), (decide (l < S t)%nat); lia || done.
Qed.

Lemma partly_skip t i a Hs : t = i -> partly t i a Hs = partly (S t) i a Hs.
Proof. intros ->. unfold partly. apply imap_ext. intros l h _. cbn. destruct (decide (l = i)); [done|]. destruct (decide (l < i)%nat), (decide (l < S i)%nat); lia || done. Qed.

(** One round. *)
Lemma invert_row_ok Fs Gs (i : nat) :
  length Fs = k -> length Gs = k -> (i < k)%nat -> let a := col_of Fs (nth i missing 0) in (forall x, x ∈ a -> x <> g0) ->
  invert_row (Z.of_nat k) missing (mkrow n <$> Fs, mkrow n <$> Gs) (Z.of_nat i) = (mkrow n <$> estep i a Fs, mkrow n <$> estep i a Gs).
Proof using Hmissing.
  intros HF HG Hi a Ha. destruct (missing_at i Hi) as [Em Hm]. assert (Hn : forall l, (l < k)%nat -> nth l a g0 <> g0).
  { intros l Hl. apply Ha. destruct (lookup_lt_is_Some_2 a l) as [x Ex]; [unfold a, col_of; rewrite length_fmap; lia|]. rewrite nth_lookup, Ex. by eapply list_elem_of_lookup_2. }
  unfold invert_row. rewrite rows_at_mkrow, decide_True, Em, row_at_mkrow by lia. rewrite <- nth_col. fold a. set (log := 255 - log2_at (gv (nth i a g0))).
  assert (El : gpow log = ginv (nth i a g0)).
  { apply gf_eq. unfold ginv, gf_inv. cbn [gv]. pose proof (log2_range (gv (nth i a g0)) (gv_u8 _)). subst log. rewrite pow2_gpow by lia. done. }
  assert (Hscale : forall Hs, length Hs = k -> alter (scale_row log) (Z.to_nat (Z.of_nat i)) (mkrow n <$> Hs) = mkrow n <$> partly 0 i a Hs).
  { intros Hs HH. rewrite Nat2Z.id. apply list_eq. intros l. destruct (decide (l = i)) as [->|Hl].
    - rewrite list_lookup_alter_eq, !list_lookup_fmap. unfold partly. rewrite list_lookup_imap. destruct (lookup_lt_is_Some_2 Hs i) as [h Eh]; [lia|]. rewrite Eh. cbn [fmap option_fmap option_map]. rewrite decide_True, scale_mkrow, El by done. done.
    - rewrite list_lookup_alter_ne, !list_lookup_fmap by done. unfold partly. rewrite list_lookup_imap. destruct (Hs !! l) as [h|]; [|done]. cbn [fmap option_fmap option_map]. by rewrite decide_False, decide_False by lia. }
  rewrite (Hscale Fs), (Hscale Gs) by done.
  assert (Hloop : forall t : nat, (t <= k)%nat -> foldl (fun s ii => eliminate missing (Z.of_nat i) ii s) (mkrow n <$> partly 0 i a Fs, mkrow n <$> partly 0 i a Gs) (seqZ 0 (Z.of_nat t)) =
    (mkrow n <$> partly t i a Fs, mkrow n <$> partly t i a Gs)).
  { induction t as [|t IH]; intros Ht; [done|]. replace (Z.of_nat (S t)) with (Z.of_nat t + 1) by lia. rewrite seqZ_app, foldl_app, IH by lia. cbn [seqZ]. rewrite seqZ_cons, seqZ_nil by lia. cbn [foldl]. rewrite Z.add_0_l. unfold eliminate.
    destruct (Z.eqb_spec (Z.of_nat i) (Z.of_nat t)) as [E|E]; [rewrite (partly_skip t i a Fs), (partly_skip t i a Gs) by lia; done|].
    rewrite !rows_at_mkrow, !decide_True by (unfold partly; rewrite length_imap; lia). rewrite Em, row_at_mkrow, Nat2Z.id by done.
    rewrite (nth_partly t i t a Fs), decide_False, decide_False, <- nth_col by lia. fold a.
    by rewrite (partly_add t i a Fs), (partly_add t i a Gs) by (lia || (apply Hn; lia)). }
  rewrite Hloop by done. assert (Hend : forall Hs, length Hs = k -> partly k i a Hs = estep i a Hs).
  { intros Hs HH. unfold partly, estep. apply imap_ext. intros l h Hl. cbn. apply lookup_lt_Some in Hl. by rewrite (decide_True (P := (l < k)%nat)) by lia. }
  by rewrite !Hend.
Qed.

End Rounds.

(** ** No zero is met *)

(** A column of the matrix, and a column of the identity. *)
Definition vcol (cs : list Z) (e : Z) : list gf := (fun c => gpow (c * e)) <$> cs.
Definition unit_col (k i : nat) : list gf := (fun l => if decide (l = i) then g1 else g0) <$> seq 0 k.

(** The rounds, on the columns. *)
Fixpoint rounds (cs : list Z) (i : nat) (es : list Z) (L : list gf -> list gf) : list gf -> list gf :=
  match es with
  | [] => L
  | e :: es' => rounds cs (S i) es' (fun w => elim i (L (vcol cs e)) (L w))
  end.

Fixpoint pivots_ok (cs : list Z) (i : nat) (es : list Z) (L : list gf -> list gf) : Prop :=
  match es with
  | [] => True
  | e :: es' => (forall x, x ∈ L (vcol cs e) -> x <> g0) /\ pivots_ok cs (S i) es' (fun w => elim i (L (vcol cs e)) (L w))
  end.

Lemma gpow_eq_mod e f : gpow e = gpow f -> e mod 255 = f mod 255.
Proof.
  intros E. apply gpow_inj; [apply mod255|apply mod255|]. transitivity (gpow e); [apply gpow_mod; by rewrite Z.mod_mod|]. rewrite E. apply gpow_mod. by rewrite Z.mod_mod.
Qed.

Lemma gpow_mul_inj d e f : 1 <= d <= 2 -> 0 <= e < 255 -> 0 <= f < 255 -> gpow (d * e) = gpow (d * f) -> e = f.
Proof.
  intros Hd He Hf E%gpow_eq_mod. assert (d = 1 \/ d = 2) as [->| ->] by lia; [rewrite !Z.mul_1_l, !Z.mod_small in E by lia; done|].
  pose proof (Z.div_mod (2 * e) 255). pose proof (Z.div_mod (2 * f) 255). lia.
Qed.

Lemma gsub_nonzero a b : a <> b -> (a + gopp b)%gf <> g0.
Proof. intros H E. apply H. by apply (proj1 (gadd_eq0 a b)). Qed.

Lemma ginv_nonzero a : ginv a <> g0.
Proof. intros E%(f_equal gv). destruct (gf_inv_range _ (gv_u8 a)) as [_ H]. by apply H. Qed.

(** Two columns of two rows are independent. *)
Lemma minor_nonzero c c' e f : 0 <= c < c' -> c' <= 2 -> 0 <= e < 255 -> 0 <= f < 255 -> e <> f ->
  (gpow (c * e) * gpow (c' * f) + gopp (gpow (c * f) * gpow (c' * e)))%gf <> g0.
Proof.
  intros Hc Hc' He Hf Hne. apply gsub_nonzero. replace c' with (c + (c' - c)) by lia. rewrite !Z.mul_add_distr_r, !gpow_add. set (d := c' - c). intros E.
  apply Hne. symmetry. apply (gpow_mul_inj d); [lia|done|done|]. apply (proj1 (gadd_eq0 _ _)). destruct (decide ((gpow (d * f) + gpow (d * e))%gf = g0)) as [|Hz]; [done|exfalso].
  apply (gmul_nonzero (gpow (c * e) * gpow (c * f))%gf _ (gmul_nonzero _ _ (gpow_nonzero _) (gpow_nonzero _)) Hz).
  apply (proj2 (gadd_eq0 _ _)) in E. rewrite <- E. ring.
Qed.

Lemma solve2 p q r s u v : p <> g0 -> (p * s + gopp (q * r))%gf <> g0 ->
  elim 1 (elim 0 [p; r] [q; s]) (elim 0 [p; r] [u; v]) = [((u * s + gopp (q * v)) / (p * s + gopp (q * r)))%gf; ((p * v + gopp (r * u)) / (p * s + gopp (q * r)))%gf].
Proof.
  intros Hp HD. change (elim 0 [p; r] [q; s]) with [(q * ginv p)%gf; (s + gopp (q * ginv p * r))%gf]. change (elim 0 [p; r] [u; v]) with [(u * ginv p)%gf; (v + gopp (u * ginv p * r))%gf].
  set (a := (q * ginv p)%gf). set (b := (s + gopp (a * r))%gf). set (x := (u * ginv p)%gf). set (y := (v + gopp (x * r))%gf).
  change (elim 1 [a; b] [x; y]) with [(x + gopp (y * ginv b * a))%gf; (y * ginv b)%gf]. subst a b x y. f_equal; [|f_equal]; field; repeat split; done.
Qed.

Lemma list3_eq {A} (a b c a' b' c' : A) : a = a' -> b = b' -> c = c' -> [a; b; c] = [a'; b'; c'].
Proof. by intros -> -> ->. Qed.

Lemma solve3 x y z u v t : (y + gopp x)%gf <> g0 -> (z + gopp x)%gf <> g0 -> (z + gopp y)%gf <> g0 ->
  let e0 := elim 0 [g1; x; (x * x)%gf] in let e1 := elim 1 (e0 [g1; y; (y * y)%gf]) in let e2 := elim 2 (e1 (e0 [g1; z; (z * z)%gf])) in
  e0 [g1; y; (y * y)%gf] = [g1; (y + gopp x)%gf; ((y + gopp x) * (y + x))%gf] /\
  e1 (e0 [g1; z; (z * z)%gf]) = [((y + gopp z) / (y + gopp x))%gf; ((z + gopp x) / (y + gopp x))%gf; ((z + gopp x) * (z + gopp y))%gf] /\
  e2 (e1 (e0 [u; v; t])) = [((t + gopp ((y + z) * v) + y * z * u) / ((y + gopp x) * (z + gopp x)))%gf;
                            (gopp (t + gopp ((x + z) * v) + x * z * u) / ((y + gopp x) * (z + gopp y)))%gf;
                            ((t + gopp ((x + y) * v) + x * y * u) / ((z + gopp x) * (z + gopp y)))%gf].
Proof.
  intros H1 H2 H3 e0 e1 e2. assert (H10 : g1 <> g0) by (by intros [=]).
  assert (E0 : forall u v t, e0 [u; v; t] = [u; (v + gopp (u * x))%gf; (t + gopp (u * (x * x)))%gf]).
  { intros u' v' t'. change (e0 [u'; v'; t']) with [(u' * ginv g1)%gf; (v' + gopp (u' * ginv g1 * x))%gf; (t' + gopp (u' * ginv g1 * (x * x)))%gf]. apply list3_eq; field; done. }
  assert (Ey : e0 [g1; y; (y * y)%gf] = [g1; (y + gopp x)%gf; ((y + gopp x) * (y + x))%gf]) by (rewrite E0; apply list3_eq; ring).
  assert (E1 : forall u v t, e1 (e0 [u; v; t]) = [((u * y + gopp v) / (y + gopp x))%gf; ((v + gopp (u * x)) / (y + gopp x))%gf; (t + gopp ((x + y) * v) + x * y * u)%gf]).
  { intros u' v' t'. subst e1. rewrite Ey, E0. set (a := (y + gopp x)%gf). set (b := (a * (y + x))%gf). set (w1 := (v' + gopp (u' * x))%gf). set (w2 := (t' + gopp (u' * (x * x)))%gf).
    change (elim 1 [g1; a; b] [u'; w1; w2]) with [(u' + gopp (w1 * ginv a * g1))%gf; (w1 * ginv a)%gf; (w2 + gopp (w1 * ginv a * b))%gf]. subst a b w1 w2. apply list3_eq; field; done. }
  assert (Ez : e1 (e0 [g1; z; (z * z)%gf]) = [((y + gopp z) / (y + gopp x))%gf; ((z + gopp x) / (y + gopp x))%gf; ((z + gopp x) * (z + gopp y))%gf]) by (rewrite E1; apply list3_eq; field; done).
  split_and!; [done|done|]. subst e2. rewrite Ez, E1. set (a := ((y + gopp z) / (y + gopp x))%gf). set (b := ((z + gopp x) / (y + gopp x))%gf). set (c := ((z + gopp x) * (z + gopp y))%gf).
  set (w0 := ((u * y + gopp v) / (y + gopp x))%gf). set (w1 := ((v + gopp (u * x)) / (y + gopp x))%gf). set (w2 := (t + gopp ((x + y) * v) + x * y * u)%gf).
  change (elim 2 [a; b; c] [w0; w1; w2]) with [(w0 + gopp (w2 * ginv c * a))%gf; (w1 + gopp (w2 * ginv c * b))%gf; (w2 * ginv c)%gf]. subst a b c w0 w1 w2.
  apply list3_eq; field; repeat split; done.
Qed.

Lemma gdiv_nonzero a b : a <> g0 -> (a / b)%gf <> g0.
Proof. intros H. apply gmul_nonzero; [done|apply ginv_nonzero]. Qed.

Lemma g1_nonzero : g1 <> g0.
Proof. by intros [=]. Qed.

Abbreviation nonzero := (Forall (fun x : gf => x <> g0)).

(** What the rounds achieve. *)
Record solves (cs es : list Z) : Prop := {
  sv_pivots : pivots_ok cs 0 es id;
  sv_missing : forall i e, es !! i = Some e -> rounds cs 0 es id (vcol cs e) = unit_col (length cs) i;
  sv_data : forall e, 0 <= e < 255 -> e ∉ es -> nonzero (rounds cs 0 es id (vcol cs e));
  sv_parity : forall i, (i < length cs)%nat -> nonzero (rounds cs 0 es id (unit_col (length cs) i));
  sv_zero : rounds cs 0 es id (replicate (length cs) g0) = replicate (length cs) g0
}.

Lemma solves1 c e : solves [c] [e].
Proof.
  assert (E : forall w, rounds [c] 0 [e] id [w] = [(w * ginv (gpow (c * e)))%gf]) by done. pose proof (gpow_nonzero (c * e)) as Hp. constructor; cbn [length vcol fmap list_fmap].
  - split; [|done]. intros x ->%list_elem_of_singleton. exact Hp.
  - intros [|i] e'; [|done]. intros [= <-]. rewrite E. change (unit_col 1 0) with [g1]. f_equal. field. done.
  - intros e' _ _. rewrite E. constructor; [|constructor]. apply gmul_nonzero; [apply gpow_nonzero|apply ginv_nonzero].
  - intros i Hi. assert (i = 0%nat) as -> by lia. change (unit_col 1 0) with [g1]. rewrite E. constructor; [|constructor]. apply gmul_nonzero; [apply g1_nonzero|apply ginv_nonzero].
  - change (replicate 1 g0) with [g0]. rewrite E. f_equal. ring.
Qed.

Lemma solves2 c c' e f : 0 <= c < c' -> c' <= 2 -> 0 <= e < 255 -> 0 <= f < 255 -> e <> f -> solves [c; c'] [e; f].
Proof.
  intros Hc Hc' He Hf Hne. pose proof (minor_nonzero c c' e f Hc Hc' He Hf Hne) as HD. pose proof (gpow_nonzero (c * e)) as Hp.
  assert (E : forall u v, rounds [c; c'] 0 [e; f] id [u; v] = _) by (intros u v; exact (solve2 _ (gpow (c * f)) (gpow (c' * e)) (gpow (c' * f)) u v Hp HD)).
  constructor; cbn [length vcol fmap list_fmap].
  - split; [intros x [->|[->|[]%elem_of_nil]%elem_of_cons]%elem_of_cons; apply gpow_nonzero|]. split; [|done].
    change (elim 0 _ _) with [(gpow (c * f) * ginv (gpow (c * e)))%gf; (gpow (c' * f) + gopp (gpow (c * f) * ginv (gpow (c * e)) * gpow (c' * e)))%gf].
    intros x [->|[->|[]%elem_of_nil]%elem_of_cons]%elem_of_cons; [apply gmul_nonzero; [apply gpow_nonzero|apply ginv_nonzero]|].
    replace (_ + _)%gf with ((gpow (c * e) * gpow (c' * f) + gopp (gpow (c * f) * gpow (c' * e))) / gpow (c * e))%gf by (field; done). by apply gdiv_nonzero.
  - intros [|[|i]] e'; [..|done]; intros [= <-]; rewrite E; [change (unit_col 2 0) with [g1; g0]|change (unit_col 2 1) with [g0; g1]]; f_equal; [|f_equal| |f_equal]; field; done.
  - intros t Ht Hni. rewrite E. constructor; [|constructor; [|constructor]]; apply gdiv_nonzero.
    + apply minor_nonzero; try done. intros ->. apply Hni. right. left.
    + replace (gpow (c' * e) * gpow (c * t))%gf with (gpow (c * t) * gpow (c' * e))%gf by ring. apply minor_nonzero; try done. intros ->. apply Hni. left.
  - intros [|[|i]] Hi; [..|lia]; [change (unit_col 2 0) with [g1; g0]|change (unit_col 2 1) with [g0; g1]]; rewrite E; (constructor; [|constructor; [|constructor]]); apply gdiv_nonzero.
    + replace (_ + _)%gf with (gpow (c' * f)) by ring. apply gpow_nonzero.
    + replace (_ + _)%gf with (gopp (gpow (c' * e))) by ring. apply gpow_nonzero.
    + replace (_ + _)%gf with (gopp (gpow (c * f))) by ring. apply gpow_nonzero.
    + replace (_ + _)%gf with (gpow (c * e)) by ring. apply gpow_nonzero.
  - change (replicate 2 g0) with [g0; g0]. rewrite E. f_equal; [|f_equal]; field; done.
Qed.

Lemma vcol3 e : vcol [0; 1; 2] e = [g1; gpow e; (gpow e * gpow e)%gf].
Proof. unfold vcol. cbn [fmap list_fmap]. rewrite Z.mul_1_l, <- gpow_add. rewrite <- gpow_0. by replace (2 * e) with (e + e) by lia. Qed.

Lemma gpow_sub_nonzero e f : 0 <= e < 255 -> 0 <= f < 255 -> e <> f -> (gpow e + gopp (gpow f))%gf <> g0.
Proof. intros He Hf Hne. apply gsub_nonzero. by intros E%gpow_inj. Qed.

Lemma solves3 e f g : 0 <= e < 255 -> 0 <= f < 255 -> 0 <= g < 255 -> e <> f -> e <> g -> f <> g -> solves [0; 1; 2] [e; f; g].
Proof.
  intros He Hf Hg H1 H2 H3. assert (Hd : forall a b, 0 <= a < 255 -> 0 <= b < 255 -> a <> b -> (gpow a + gopp (gpow b))%gf <> g0) by apply gpow_sub_nonzero.
  assert (Hyx := Hd f e Hf He ltac:(done)). assert (Hzx := Hd g e Hg He ltac:(done)). assert (Hzy := Hd g f Hg Hf ltac:(done)). assert (Hyz := Hd f g Hf Hg ltac:(done)).
  assert (Hs : forall a b, 0 <= a < 255 -> 0 <= b < 255 -> a <> b -> (gpow a + gpow b)%gf <> g0) by exact Hd.
  set (x := gpow e) in *. set (y := gpow f) in *. set (z := gpow g) in *.
  assert (E : forall u v t, rounds [0; 1; 2] 0 [e; f; g] id [u; v; t] = [((t + gopp ((y + z) * v) + y * z * u) / ((y + gopp x) * (z + gopp x)))%gf;
    (gopp (t + gopp ((x + z) * v) + x * z * u) / ((y + gopp x) * (z + gopp y)))%gf; ((t + gopp ((x + y) * v) + x * y * u) / ((z + gopp x) * (z + gopp y)))%gf]).
  { intros u v t. cbn [rounds]. rewrite !vcol3. exact (proj2 (proj2 (solve3 (gpow e) (gpow f) (gpow g) u v t Hyx Hzx Hzy))). }
  constructor; cbn [length].
  - destruct (solve3 x y z g0 g0 g0 Hyx Hzx Hzy) as (P1 & P2 & _). cbn [pivots_ok]. unfold id. rewrite !vcol3. fold x y z. rewrite P2, P1.
    split_and!; try done; intros w [->|[->|[->|[]%elem_of_nil]%elem_of_cons]%elem_of_cons]%elem_of_cons.
    all: try apply g1_nonzero; try apply gpow_nonzero; try done; try (by apply gdiv_nonzero); try (by apply gmul_nonzero; [done|]; apply gpow_nonzero).
    + apply gmul_nonzero; apply gpow_nonzero.
    + apply gmul_nonzero; [done|]. by apply Hs.
    + by apply gmul_nonzero.
  - intros [|[|[|i]]] e'; [..|done]; intros [= <-]; rewrite vcol3, E; fold x y z; [change (unit_col 3 0) with [g1; g0; g0]|change (unit_col 3 1) with [g0; g1; g0]|change (unit_col 3 2) with [g0; g0; g1]]; apply list3_eq; field; repeat split; done.
  - intros t Ht Hni. rewrite vcol3, E. assert (Hte : t <> e) by (intros ->; apply Hni; left). assert (Htf : t <> f) by (intros ->; apply Hni; right; left). assert (Htg : t <> g) by (intros ->; apply Hni; right; right; left).
    constructor; [|constructor; [|constructor; [|constructor]]]; apply gdiv_nonzero.
    + replace (_ + _)%gf with ((gpow t + gopp y) * (gpow t + gopp z))%gf by ring. apply gmul_nonzero; by apply Hd.
    + replace (gopp _) with (gopp ((gpow t + gopp x) * (gpow t + gopp z)))%gf by ring. apply gmul_nonzero; by apply Hd.
    + replace (_ + _)%gf with ((gpow t + gopp x) * (gpow t + gopp y))%gf by ring. apply gmul_nonzero; by apply Hd.
  - intros [|[|[|i]]] Hi; [..|lia]; [change (unit_col 3 0) with [g1; g0; g0]|change (unit_col 3 1) with [g0; g1; g0]|change (unit_col 3 2) with [g0; g0; g1]]; rewrite E; (constructor; [|constructor; [|constructor; [|constructor]]]); apply gdiv_nonzero.
    + replace (_ + _)%gf with (y * z)%gf by ring. apply gmul_nonzero; apply gpow_nonzero.
    + replace (gopp _) with (gopp (x * z)) by ring. apply gmul_nonzero; apply gpow_nonzero.
    + replace (_ + _)%gf with (x * y)%gf by ring. apply gmul_nonzero; apply gpow_nonzero.
    + replace (_ + _)%gf with (gopp (y + z)) by ring. by apply Hs.
    + replace (gopp _) with (x + z)%gf by ring. by apply Hs.
    + replace (_ + _)%gf with (gopp (x + y)) by ring. by apply Hs.
    + replace (_ + _)%gf with g1 by ring. apply g1_nonzero.
    + replace (gopp _) with (gopp g1) by ring. apply g1_nonzero.
    + replace (_ + _)%gf with g1 by ring. apply g1_nonzero.
  - change (replicate 3 g0) with [g0; g0; g0]. rewrite E. apply list3_eq; field; repeat split; done.
Qed.

Lemma solves_all cs es :
  StronglySorted Z.lt cs -> Forall (fun c => 0 <= c <= 2) cs -> length es = length cs -> NoDup es -> Forall (fun e => 0 <= e < 255) es -> solves cs es.
Proof.
  intros Hs Hc Hl Hn He. destruct cs as [|c0 [|c1 [|c2 [|c3 cs]]]], es as [|e0 [|e1 [|e2 [|e3 es]]]]; try done; decompose_Forall_hyps.
  - apply solves1.
  - inversion Hs as [|? ? ? Hlt]. decompose_Forall_hyps. apply NoDup_cons in Hn as [Hn _]. apply solves2; try lia. intros ->. apply Hn. left.
  - inversion Hs as [|? ? Hs' Hlt]. inversion Hs' as [|? ? ? Hlt']. decompose_Forall_hyps. apply NoDup_cons in Hn as [Hn Hn']. apply NoDup_cons in Hn' as [Hn' _].
    assert (c0 = 0) as -> by lia. assert (c1 = 1) as -> by lia. assert (c2 = 2) as -> by lia. apply solves3; try lia; intros ->; [apply Hn; left|apply Hn; right; left|apply Hn'; left].
  - inversion Hs as [|? ? Hs' Hlt]. inversion Hs' as [|? ? Hs'' Hlt']. inversion Hs'' as [|? ? Hs3 Hlt'']. decompose_Forall_hyps. lia.
Qed.

(** ** The inverse *)

Lemma gsum_perm l l' f : l ≡ₚ l' -> gsum l f = gsum l' f.
Proof. induction 1 as [|j l l' _ IH|i j l|l1 l2 l3 _ IH1 _ IH2]; [done|rewrite !gsum_cons; by rewrite IH|rewrite !gsum_cons; ring|by rewrite IH1]. Qed.

Lemma gsum_part l us f : NoDup l -> NoDup us -> (forall u, u ∈ us -> u ∈ l) -> gsum l (fun j => if decide (j ∈ us) then f j else g0) = gsum us f.
Proof.
  intros Hl Hu Hin. transitivity (gsum (filter (fun j => j ∈ us) l) f).
  - clear Hl Hin. induction l as [|j l IH]; [done|]. rewrite filter_cons. destruct (decide (j ∈ us)) as [H|H]; rewrite !gsum_cons, IH; [by rewrite decide_True|rewrite decide_False by done; ring].
  - apply gsum_perm, NoDup_Permutation; [by apply NoDup_filter|done|]. intros u. rewrite list_elem_of_filter. naive_solver.
Qed.

Section Inverse.

Context (n : Z) (cs ms us : list Z).
Hypothesis Hn : 0 <= n <= 255.
Abbreviation k := (length cs).
Hypothesis Hms : length ms = k.
Hypothesis Hmr : Forall (fun j => 0 <= j < n) ms.
Hypothesis Hmd : NoDup ms.
Hypothesis Hud : NoDup us.
Hypothesis Hul : Z.of_nat (length us) = n - Z.of_nat k.
Hypothesis Hus : forall j, j ∈ us <-> 0 <= j < n /\ j ∉ ms.

Abbreviation node j := (n - 1 - j).
Abbreviation u_at j := (nth (Z.to_nat (j - Z.of_nat k)) us 0).

Lemma u_at_in j : Z.of_nat k <= j < n -> u_at j ∈ us.
Proof. intros H. rewrite nth_lookup. destruct (lookup_lt_is_Some_2 us (Z.to_nat (j - Z.of_nat k))) as [x E]; [lia|]. rewrite E. by eapply list_elem_of_lookup_2. Qed.

Lemma subtract_ok first used f g :
  (forall j, Z.of_nat k <= j < n -> row_at used j = u_at j + first) ->
  subtract_trivial first n (Z.of_nat k) used (mkrow n f, mkrow n g) =
    (mkrow n (fun j => if decide (j ∈ us) then g0 else f j), mkrow n (fun j => if decide (Z.of_nat k <= j) then f (u_at j) else g j)).
Proof.
  intros Hu. unfold subtract_trivial.
  assert (Hloop : forall t : nat, (t <= length us)%nat -> foldl (fun '(row, inv) j => let jj := row_at used j - first in (<[Z.to_nat jj := 0]> row, <[Z.to_nat j := row_at row jj]> inv)) (mkrow n f, mkrow n g) (seqZ (Z.of_nat k) (Z.of_nat t)) =
    (mkrow n (fun j => if decide (j ∈ take t us) then g0 else f j), mkrow n (fun j => if decide (Z.of_nat k <= j < Z.of_nat k + Z.of_nat t) then f (u_at j) else g j))).
  { induction t as [|t IH]; intros Ht.
    - rewrite seqZ_nil by lia. cbn [foldl]. f_equal; apply mkrow_ext; intros j Hj; rewrite decide_False; (done || lia || by apply not_elem_of_nil).
    - replace (Z.of_nat (S t)) with (Z.of_nat t + 1) by lia. rewrite seqZ_app, foldl_app, IH by lia. rewrite (seqZ_cons (_ + _)), seqZ_nil by lia. cbn [foldl]. set (j := Z.of_nat k + Z.of_nat t).
      destruct (lookup_lt_is_Some_2 us t ltac:(lia)) as [x Ex]. assert (Euj : u_at j = x) by (rewrite nth_lookup; replace (Z.to_nat (j - Z.of_nat k)) with t by lia; by rewrite Ex).
      rewrite Hu, Euj by lia. replace (x + first - first) with x by lia. assert (Hx : 0 <= x < n) by (apply Hus; by eapply list_elem_of_lookup_2).
      assert (Hxt : x ∉ take t us). { intros (i & Hi & Hlt)%elem_of_take. assert (i = t) by (eapply NoDup_lookup; done). lia. }
      rewrite row_at_mkrow, decide_False by done. change 0 with (gv g0) at 1. rewrite !insert_mkrow by lia. rewrite (take_S_r _ _ _ Ex). f_equal; apply mkrow_ext; intros i Hi.
      + destruct (decide (i = x)) as [->|Hne]; [by rewrite decide_True by (apply elem_of_app; right; left)|]. apply decide_ext. rewrite elem_of_app, list_elem_of_singleton. tauto.
      + destruct (decide (i = j)) as [->|Hne]; [rewrite decide_True by lia; by rewrite Euj|]. apply decide_ext. lia. }
  replace (n - Z.of_nat k) with (Z.of_nat (length us)) by lia. rewrite Hloop by done. rewrite firstn_all. f_equal. apply mkrow_ext. intros j Hj. apply decide_ext. lia.
Qed.

(** The rows before the rounds. *)
Definition Fs0 : list (Z -> gf) := (fun c j => if decide (j ∈ us) then g0 else gpow (c * node j)) <$> cs.
Definition Gs0 : list (Z -> gf) := imap (fun i c j => if decide (Z.of_nat k <= j) then gpow (c * node (u_at j)) else if decide (Z.of_nat i = j) then g1 else g0) cs.

Lemma col_Fs0 j : 0 <= j < n -> col_of Fs0 j = if decide (j ∈ us) then replicate k g0 else vcol cs (node j).
Proof.
  intros Hj. unfold Fs0, col_of, vcol. rewrite <- list_fmap_compose. destruct (decide (j ∈ us)) as [H|H].
  - apply list_eq. intros i. rewrite list_lookup_fmap. cbn [compose]. destruct (cs !! i) as [c|] eqn:E; cbn.
    + rewrite decide_True by done. symmetry. apply lookup_replicate_2. by eapply lookup_lt_Some.
    + symmetry. apply lookup_ge_None_2. rewrite length_replicate. by apply lookup_ge_None_1.
  - apply list_fmap_ext. intros i c _. cbn. by rewrite decide_False.
Qed.

Lemma col_Gs0 j : 0 <= j < n -> col_of Gs0 j = if decide (Z.of_nat k <= j) then vcol cs (node (u_at j)) else unit_col k (Z.to_nat j).
Proof.
  intros Hj. apply list_eq. intros i. unfold Gs0. rewrite col_lookup, list_lookup_imap. destruct (decide (Z.of_nat k <= j)) as [H|H].
  - unfold vcol. rewrite list_lookup_fmap. destruct (cs !! i); [|done]. cbn. by rewrite decide_True.
  - unfold unit_col. rewrite list_lookup_fmap. destruct (cs !! i) as [c|] eqn:E; cbn.
    + rewrite lookup_seq_lt by (by eapply lookup_lt_Some). cbn. rewrite decide_False by done. f_equal. apply decide_ext. lia.
    + rewrite lookup_seq_ge; [done|]. by apply lookup_ge_None_1.
Qed.

Lemma invert_start first used :
  (forall j, Z.of_nat k <= j < n -> row_at used j = u_at j + first) -> Forall (fun c => 0 <= c <= 2) cs ->
  let ris := subtract_trivial first n (Z.of_nat k) used <$> zip (vdev_raidz_matrix_init n cs) (invrows_init n (Z.of_nat k)) in
  (ris.*1, ris.*2) = (mkrow n <$> Fs0, mkrow n <$> Gs0).
Proof.
  intros Hu Hc ris. subst ris. rewrite matrix_init_ok by done.
  assert (E : forall i c, cs !! i = Some c -> (subtract_trivial first n (Z.of_nat k) used <$> zip ((fun c => mkrow n (fun j => gpow (c * node j))) <$> cs) (invrows_init n (Z.of_nat k))) !! i =
    Some (mkrow n (fun j => if decide (j ∈ us) then g0 else gpow (c * node j)), mkrow n (fun j => if decide (Z.of_nat k <= j) then gpow (c * node (u_at j)) else if decide (Z.of_nat i = j) then g1 else g0))).
  { intros i c Ei. pose proof (lookup_lt_Some _ _ _ Ei). rewrite list_lookup_fmap, lookup_zip_with, list_lookup_fmap, Ei. unfold invrows_init. rewrite list_lookup_fmap, lookup_seqZ_lt by lia. cbn [fmap option_fmap option_map mbind option_bind].
    f_equal. rewrite <- (subtract_ok first used (fun j => gpow (c * node j)) (fun j => if decide (Z.of_nat i = j) then g1 else g0)) by done. f_equal. f_equal. unfold mkrow. apply list_fmap_ext. intros l j _. rewrite Z.add_0_l. destruct (Z.eqb_spec (Z.of_nat i) j), (decide (Z.of_nat i = j)); done. }
  assert (El : forall i, cs !! i = None -> (subtract_trivial first n (Z.of_nat k) used <$> zip ((fun c => mkrow n (fun j => gpow (c * node j))) <$> cs) (invrows_init n (Z.of_nat k))) !! i = None).
  { intros i Ei. by rewrite list_lookup_fmap, lookup_zip_with, list_lookup_fmap, Ei. }
  set (ris := subtract_trivial first n (Z.of_nat k) used <$> _) in *. clearbody ris. f_equal; apply list_eq; intros i; rewrite !list_lookup_fmap; unfold Fs0, Gs0; rewrite ?list_lookup_fmap, ?list_lookup_imap; (destruct (cs !! i) as [c|] eqn:Ei; [rewrite (E i c Ei)|rewrite (El i Ei)]; done).
Qed.

(** The equations the rows stand for. *)
Definition equations (D U : Z -> gf) (Fs Gs : list (Z -> gf)) : Prop :=
  forall l, (l < k)%nat -> gsum (seqZ 0 n) (fun j => nth l Fs gzero j * D j)%gf = gsum (seqZ 0 n) (fun j => nth l Gs gzero j * U j)%gf.

Lemma nth_estep i l a Hs : (l < length Hs)%nat -> nth l (estep i a Hs) gzero =
  if decide (l = i) then (fun j => nth l Hs gzero j * ginv (nth i a g0))%gf else (fun j => nth l Hs gzero j + nth i Hs gzero j * ginv (nth i a g0) * nth l a g0)%gf.
Proof. intros H. unfold estep. destruct (lookup_lt_is_Some_2 Hs l H) as [h Eh]. rewrite (nth_lookup (imap _ Hs)), list_lookup_imap, (nth_lookup Hs l), Eh. done. Qed.

Lemma gsum_estep i l a Hs X : (l < length Hs)%nat -> gsum (seqZ 0 n) (fun j => nth l (estep i a Hs) gzero j * X j)%gf =
  if decide (l = i) then (gsum (seqZ 0 n) (fun j => nth l Hs gzero j * X j) * ginv (nth i a g0))%gf
  else (gsum (seqZ 0 n) (fun j => nth l Hs gzero j * X j) + gsum (seqZ 0 n) (fun j => nth i Hs gzero j * X j) * (ginv (nth i a g0) * nth l a g0))%gf.
Proof.
  intros Hl. rewrite nth_estep by done. destruct (decide (l = i)); rewrite <- !gsum_scale, <- ?gsum_add; apply gsum_ext; intros j _; ring.
Qed.

Lemma equations_step D U i a Fs Gs : length Fs = k -> length Gs = k -> (i < k)%nat -> equations D U Fs Gs -> equations D U (estep i a Fs) (estep i a Gs).
Proof. intros HF HG Hi He l Hl. rewrite !gsum_estep by lia. by rewrite (He l Hl), (He i Hi). Qed.

Lemma equations_start D U :
  (forall l c, cs !! l = Some c -> U (Z.of_nat l) = gsum (seqZ 0 n) (fun j => D j * gpow (c * node j))%gf) ->
  (forall j, Z.of_nat k <= j < n -> U j = D (u_at j)) -> equations D U Fs0 Gs0.
Proof.
  intros Hp Hd l Hl. destruct (lookup_lt_is_Some_2 cs l Hl) as [c Ec]. assert (EF : nth l Fs0 gzero = fun j => if decide (j ∈ us) then g0 else gpow (c * node j)) by (unfold Fs0; by rewrite nth_lookup, list_lookup_fmap, Ec).
  assert (EG : nth l Gs0 gzero = fun j => if decide (Z.of_nat k <= j) then gpow (c * node (u_at j)) else if decide (Z.of_nat l = j) then g1 else g0) by (unfold Gs0; by rewrite nth_lookup, list_lookup_imap, Ec).
  rewrite EF, EG.
  assert (Hseq : NoDup (seqZ 0 n)) by apply NoDup_seqZ. set (w j := (D j * gpow (c * node j))%gf).
  assert (Hsplit : gsum (seqZ 0 n) (fun j => (if decide (j ∈ us) then g0 else gpow (c * node j)) * D j)%gf = (gsum (seqZ 0 n) w + gsum us w)%gf).
  { rewrite <- (gsum_part (seqZ 0 n) us w); [|done|done|intros u Hu; apply elem_of_seqZ; apply Hus in Hu; lia]. rewrite <- gsum_add. apply gsum_ext. intros j _. unfold w. destruct (decide (j ∈ us)); [rewrite gadd_self|]; ring. }
  rewrite Hsplit. change (gsum (seqZ 0 n) w) with (gsum (seqZ 0 n) (fun j => D j * gpow (c * node j))%gf). rewrite <- (Hp l c Ec). replace (seqZ 0 n) with (seqZ 0 (Z.of_nat k) ++ seqZ (Z.of_nat k) (n - Z.of_nat k)) by (rewrite <- seqZ_app by lia; f_equal; lia). rewrite gsum_app. f_equal.
  - rewrite (gsum_one _ _ (Z.of_nat l)); [rewrite decide_False, decide_True by lia; ring|apply NoDup_seqZ|apply elem_of_seqZ; lia|].
    intros j Hj%elem_of_seqZ Hne. rewrite decide_False, decide_False by lia. ring.
  - transitivity (gsum (seqZ (Z.of_nat k) (n - Z.of_nat k)) (fun j => w (u_at j))).
    + rewrite <- (gsum_fmap (fun j => u_at j) _ w). f_equal. apply list_eq. intros i. rewrite list_lookup_fmap. destruct (us !! i) as [x|] eqn:E.
      * rewrite lookup_seqZ_lt by (apply lookup_lt_Some in E; lia). cbn. f_equal. rewrite nth_lookup. replace (Z.to_nat _) with i by lia. by rewrite E.
      * apply lookup_ge_None_1 in E. rewrite lookup_seqZ_ge by lia. done.
    + apply gsum_ext. intros j Hj%elem_of_seqZ. rewrite decide_True, Hd by lia. unfold w. ring.
Qed.

(** All rounds. *)
Lemma rounds_ok todo : forall i Fs Gs L,
  ms = take i ms ++ todo -> length (take i ms) = i -> length Fs = k -> length Gs = k ->
  (forall j, 0 <= j < n -> col_of Fs j = L (col_of Fs0 j)) -> (forall j, 0 <= j < n -> col_of Gs j = L (col_of Gs0 j)) ->
  pivots_ok cs i ((fun j => node j) <$> todo) L ->
  exists Fs' Gs', foldl (invert_row (Z.of_nat k) ms) (mkrow n <$> Fs, mkrow n <$> Gs) (seqZ (Z.of_nat i) (Z.of_nat (length todo))) = (mkrow n <$> Fs', mkrow n <$> Gs') /\
    length Fs' = k /\ length Gs' = k /\ (forall D U, equations D U Fs Gs -> equations D U Fs' Gs') /\
    (forall j, 0 <= j < n -> col_of Fs' j = rounds cs i ((fun j => node j) <$> todo) L (col_of Fs0 j)) /\
    (forall j, 0 <= j < n -> col_of Gs' j = rounds cs i ((fun j => node j) <$> todo) L (col_of Gs0 j)).
Proof.
  induction todo as [|mi todo IH]; intros i Fs Gs L Em Hi HF HG HcF HcG Hp.
  { exists Fs, Gs. split_and!; done. }
  cbn [fmap list_fmap pivots_ok rounds] in *. destruct Hp as [Hnz Hp]. assert (Ei : ms !! i = Some mi) by (rewrite Em, lookup_app_r by lia; by replace (i - _)%nat with 0%nat by lia).
  assert (Hmi : 0 <= mi < n) by (rewrite Forall_lookup in Hmr; by eapply Hmr). pose proof (lookup_lt_Some _ _ _ Ei) as Hik. rewrite Hms in Hik.
  assert (Ea : col_of Fs (nth i ms 0) = L (vcol cs (node mi))).
  { rewrite nth_lookup, Ei. cbn. rewrite HcF by done. f_equal. rewrite col_Fs0, decide_False by (done || (rewrite Hus; intros [_ H]; apply H; by eapply list_elem_of_lookup_2)). done. }
  cbn [length]. rewrite (seqZ_cons (Z.of_nat i)) by lia. cbn [foldl]. rewrite <- Hms. rewrite (invert_row_ok n ms Hmr Fs Gs i) by (lia || (rewrite Ea; done)). rewrite Ea.
  replace (Z.succ (Z.of_nat i)) with (Z.of_nat (S i)) by lia. replace (Z.pred (Z.of_nat (S (length todo)))) with (Z.of_nat (length todo)) by lia. rewrite Hms.
  destruct (IH (S i) (estep i (L (vcol cs (node mi))) Fs) (estep i (L (vcol cs (node mi))) Gs) (fun w => elim i (L (vcol cs (node mi))) (L w))) as (Fs' & Gs' & E & HF' & HG' & He & HcF' & HcG').
  - rewrite (take_S_r _ _ _ Ei), <- app_assoc. done.
  - rewrite (take_S_r _ _ _ Ei), length_app, Hi. cbn. lia.
  - by rewrite length_estep.
  - by rewrite length_estep.
  - intros j Hj. by rewrite col_estep, HcF.
  - intros j Hj. by rewrite col_estep, HcG.
  - done.
  - exists Fs', Gs'. split_and!; try done. intros D U Heq. apply He. by apply equations_step.
Qed.

Lemma invert_ok first used :
  (forall j, Z.of_nat k <= j < n -> row_at used j = u_at j + first) -> StronglySorted Z.lt cs -> Forall (fun c => 0 <= c <= 2) cs -> exists Gs,
    (vdev_raidz_matrix_invert first n (Z.of_nat k) ms used (vdev_raidz_matrix_init n cs)).2 = mkrow n <$> Gs /\ length Gs = k /\
    (forall t j, (t < k)%nat -> 0 <= j < n -> nth t Gs gzero j <> g0) /\
    forall D U, (forall l c, cs !! l = Some c -> U (Z.of_nat l) = gsum (seqZ 0 n) (fun j => D j * gpow (c * node j))%gf) -> (forall j, Z.of_nat k <= j < n -> U j = D (u_at j)) ->
      forall t mt, ms !! t = Some mt -> D mt = gsum (seqZ 0 n) (fun j => nth t Gs gzero j * U j)%gf.
Proof.
  intros Hu Hcs Hc. set (es := (fun j => node j) <$> ms).
  assert (Hsol : solves cs es).
  { apply solves_all; [done|done|unfold es; by rewrite length_fmap| |].
    - unfold es. apply (NoDup_fmap_2_strong); [intros a b _ _ E; lia|done].
    - unfold es. apply Forall_fmap. eapply Forall_impl; [exact Hmr|]. intros j Hj. cbv beta in Hj. change (0 <= n - 1 - j < 255). lia. }
  destruct Hsol as [Hpiv Hmis Hdata Hpar Hzero].
  assert (Lf : length Fs0 = k) by apply length_fmap. assert (Lg : length Gs0 = k) by apply length_imap.
  destruct (rounds_ok ms 0 Fs0 Gs0 id) as (Fs & Gs & E & HF & HG & He & HcF & HcG); [done|done|done|done|done|done|done|]. fold es in HcF, HcG.
  exists Gs. split_and!.
  - unfold vdev_raidz_matrix_invert. rewrite invert_start by done. change (Z.of_nat 0) with 0 in E. rewrite Hms in E. by rewrite E.
  - done.
  - intros t j Ht Hj. rewrite <- nth_col, HcG, col_Gs0 by done. set (w := rounds _ _ _ _ _). assert (Hw : nonzero w /\ length w = k).
    { split; [|unfold w; rewrite <- col_Gs0, <- HcG by done; by unfold col_of; rewrite length_fmap]. unfold w. destruct (decide (Z.of_nat k <= j)) as [Hkj|Hkj].
      - assert (Hin : u_at j ∈ us) by (apply u_at_in; lia). apply Hus in Hin as [Hr Hni]. apply Hdata; [lia|]. unfold es. intros (x & Ex & Hx)%list_elem_of_fmap. apply Hni. by replace (u_at j) with x by lia.
      - apply Hpar. lia. }
    destruct Hw as [Hw Hl]. rewrite Forall_lookup in Hw. destruct (lookup_lt_is_Some_2 w t) as [x Ex]; [lia|]. rewrite nth_lookup, Ex. by eapply Hw.
  - intros D U HP HD t mt Ht. pose proof (lookup_lt_Some _ _ _ Ht) as Htk. rewrite <- (He D U (equations_start D U HP HD) t) by lia.
    assert (Hmt : 0 <= mt < n) by (rewrite Forall_lookup in Hmr; by eapply Hmr).
    assert (Hrow : forall j, 0 <= j < n -> nth t Fs gzero j = if decide (j = mt) then g1 else g0).
    { intros j Hj. rewrite <- nth_col, HcF, col_Fs0 by done. destruct (decide (j ∈ us)) as [Hj'|Hj'].
      - rewrite Hzero, decide_False; [rewrite nth_lookup; by rewrite lookup_replicate_2 by lia|]. intros ->. apply Hus in Hj' as [_ Hni]. apply Hni. by eapply list_elem_of_lookup_2.
      - assert (Hjm : j ∈ ms) by (destruct (decide (j ∈ ms)); [done|]; exfalso; apply Hj', Hus; done). apply list_elem_of_lookup in Hjm as [s Es].
        rewrite (Hmis s (node j)) by (unfold es; by rewrite list_lookup_fmap, Es). unfold unit_col. rewrite nth_lookup, list_lookup_fmap, lookup_seq_lt by lia. cbn. apply decide_ext. split.
        + intros <-. rewrite Es in Ht. by injection Ht.
        + intros ->. exact (NoDup_lookup ms t s mt Hmd Ht Es). }
    rewrite (gsum_one _ _ mt); [rewrite Hrow, decide_True by done; ring|apply NoDup_seqZ|apply elem_of_seqZ; lia|]. intros j Hj%elem_of_seqZ Hne. rewrite Hrow, decide_False by (done || lia). ring.
Qed.

End Inverse.

(** ** The columns, byte by byte *)

Lemma load8_ok m p b : mbyte m p = Some b -> load8 m p = Ok b.
Proof.
  intros H. apply (load8_lane m (ptr_add p) 0 p (fun _ => b)); [intros k Hk; by rewrite Z.add_0_l|]. intros i Hi. assert (i = 0) as -> by lia. by rewrite ptr_add_0.
Qed.

Lemma store8_ok m p b : is_Some (mbyte m p) -> exists m', store8 m p b = Ok m' /\ mbyte m' p = Some b /\ forall l, l <> p -> mbyte m' l = mbyte m l.
Proof.
  intros Hm. destruct (store8_lane m (ptr_add p) 0 p b (fun _ => b)) as (m' & E & [Hn Ho]); [intros k Hk; by rewrite Z.add_0_l| |done|].
  - intros i Hi. assert (i = 0) as -> by lia. by rewrite ptr_add_0.
  - exists m'. split; [done|]. split.
    + rewrite <- (ptr_add_0 p). apply (Hn (ptr_add p) (fun _ => b)); [left|lia].
    + intros l Hl. apply Ho. intros l' w [= -> ->]%list_elem_of_singleton i Hi. assert (i = 0) as -> by lia. by rewrite ptr_add_0.
Qed.

Lemma log_mul b g : b <> g0 -> g <> g0 -> (let ll := log2_at (gv b) + log2_at (gv g) in pow2_at (if 255 <=? ll then ll - 255 else ll)) = gv (b * g)%gf.
Proof.
  intros Hb Hg. cbv zeta. pose proof (log2_range _ (gv_u8 b)). pose proof (log2_range _ (gv_u8 g)). cbn [gv gmul]. unfold gf_mul. rewrite (proj2 (Z.eqb_neq (gv b) 0)), (proj2 (Z.eqb_neq (gv g) 0)) by (by apply gf_nonzero). cbn [orb]. f_equal.
  destruct (Z.leb_spec 255 (log2_at (gv b) + log2_at (gv g))) as [H1|H1]; [|by rewrite Z.mod_small by lia]. symmetry. replace (log2_at (gv b) + log2_at (gv g)) with (log2_at (gv b) + log2_at (gv g) - 255 + 1 * 255) at 1 by lia.
  rewrite Z_mod_plus_full. apply Z.mod_small. lia.
Qed.

Section Bytes.

Context (dsts : list (ptr * Z)).
Hypothesis Hsep : forall c c' d dc d' dc' y y', dsts !! c = Some (d, dc) -> dsts !! c' = Some (d', dc') -> 0 <= y < dc -> 0 <= y' < dc' -> ptr_add d y = ptr_add d' y' -> c = c' /\ y = y'.

(** No target. *)
Definition off_targets (l : ptr) : Prop := forall c d dc y, dsts !! c = Some (d, dc) -> 0 <= y < dc -> l <> ptr_add d y.

(** What the targets hold so far; all else is as in [m0]. *)
Record targets (m0 m : mem) (W : nat -> Z -> option gf) : Prop := {
  ts_new : forall c d dc y, dsts !! c = Some (d, dc) -> 0 <= y < dc -> match W c y with Some v => mbyte m (ptr_add d y) = Some (gv v) | None => is_Some (mbyte m (ptr_add d y)) end;
  ts_old : forall l, off_targets l -> mbyte m l = mbyte m0 l
}.

Lemma targets_ext m0 m W W' : targets m0 m W -> (forall c d dc y, dsts !! c = Some (d, dc) -> 0 <= y < dc -> W c y = W' c y) -> targets m0 m W'.
Proof. intros [Hn Ho] H. constructor; [|done]. intros c d dc y Hc Hy. rewrite <- (H c d dc y Hc Hy). by apply (Hn c d dc). Qed.

(** One byte of one target. *)
Lemma matrix_byte_ok m0 m W (first : bool) src log x c d dc b g old :
  targets m0 m W -> dsts !! c = Some (d, dc) -> 0 <= x -> off_targets src -> mbyte m0 src = Some (gv b) -> (b <> g0 -> log = log2_at (gv b)) -> g <> g0 ->
  (first = false -> x < dc -> W c x = Some old) ->
  exists m', matrix_byte first src log (log2_at (gv g)) x (d, dc) m = Ok m' /\
    targets m0 m' (fun c' y => if decide (c' = c /\ y = x) then Some ((if first then g0 else old) + b * g)%gf else W c' y).
Proof.
  intros Ht Hc Hx Hsrc Hb Hlog Hg Hold. unfold matrix_byte. destruct (Z.leb_spec dc x) as [Hle|Hlt].
  { exists m. split; [done|]. eapply targets_ext; [exact Ht|]. intros c' d' dc' y Hc' Hy. rewrite decide_False; [done|]. intros [-> ->]. rewrite Hc in Hc'. injection Hc' as -> ->. lia. }
  rewrite (load8_ok m src (gv b)) by (by rewrite (ts_old _ _ _ Ht)). cbn [mbind res_bind].
  set (val := if gv b =? 0 then 0 else _). assert (Ev : val = gv (b * g)%gf).
  { subst val. destruct (Z.eqb_spec (gv b) 0) as [E|E]; [|rewrite Hlog by (by apply gf_nonzero); by apply log_mul, Hg; apply gf_nonzero]. assert (b = g0) as -> by (apply gf_eq; by rewrite E). replace (g0 * g)%gf with g0 by ring. done. }
  pose proof (ts_new _ _ _ Ht c d dc x Hc ltac:(lia)) as Hxn.
  assert (Hm : is_Some (mbyte m (ptr_add d x))) by (destruct (W c x); [by rewrite Hxn|done]).
  set (v := ((if first then g0 else old) + b * g)%gf).
  assert (E : exists m', (if first then store8 m (ptr_add d x) val else (o ← load8 m (ptr_add d x); store8 m (ptr_add d x) (Z.lxor o val))) = Ok m' /\ mbyte m' (ptr_add d x) = Some (gv v) /\ forall l, l <> ptr_add d x -> mbyte m' l = mbyte m l).
  { destruct first.
    - replace (gv v) with val by (rewrite Ev; subst v; f_equal; ring). by apply store8_ok.
    - rewrite Hold in Hxn by done. rewrite (load8_ok _ _ _ Hxn). cbn [mbind res_bind]. replace (gv v) with (Z.lxor (gv old) val) by (rewrite Ev; done). by apply store8_ok. }
  destruct E as (m' & E & Hnew & Hrest). rewrite E. exists m'. split; [done|]. constructor.
  - intros c' d' dc' y Hc' Hy. destruct (decide (c' = c /\ y = x)) as [[-> ->]|Hne]; [rewrite Hc in Hc'; by injection Hc' as <- <-|].
    pose proof (ts_new _ _ _ Ht c' d' dc' y Hc' Hy) as H. rewrite Hrest; [done|]. intros Ee. apply Hne. apply (Hsep c' c d' dc' d dc y x); done || lia.
  - intros l Hl. rewrite Hrest; [by apply Ht|]. by apply (Hl c d dc x Hc); lia.
Qed.

(** One source. *)
Section Source.

Context (m0 : mem) (first : bool) (src : ptr) (cnt : Z) (ils : list Z) (U : Z -> gf) (G : nat -> gf) (S : nat -> Z -> gf).
Hypothesis Hcnt : 0 <= cnt.
Hypothesis Hsrc : forall x, 0 <= x < cnt -> off_targets (ptr_add src x) /\ mbyte m0 (ptr_add src x) = Some (gv (U x)).
Hypothesis HG : forall c, (c < length dsts)%nat -> G c <> g0 /\ row_at ils (Z.of_nat c) = log2_at (gv (G c)).

Definition sum_before (c : nat) (y : Z) : option gf := if first then None else Some (S c y).
Definition sum_after (c : nat) (y : Z) : gf := ((if first then g0 else S c y) + U y * G c)%gf.

(** Done up to byte [x], and for the targets below [c0] at [x]. *)
Definition sum_at (x : Z) (c0 : nat) (c : nat) (y : Z) : option gf :=
  if decide (y < x \/ y = x /\ (c < c0)%nat) then Some (sum_after c y) else sum_before c y.

Lemma matrix_column_ok m log : targets m0 m sum_before ->
  exists m' log', matrix_column first src cnt ils dsts (m, log) = Ok (m', log') /\ targets m0 m' (fun c y => if decide (y < cnt) then Some (sum_after c y) else sum_before c y).
Proof.
  intros Ht. unfold matrix_column.
  match goal with |- context [for_range 0 cnt ?B ?s] => destruct (for_range_inv (fun x t => targets m0 t.1 (sum_at x 0)) 0 cnt B s) as ([m' log'] & E & HI) end; [done| | |].
  - intros x [m1 log1] Hx Ht1. cbn [fst] in Ht1. destruct (Hsrc x Hx) as [Hoff Hb]. rewrite (load8_ok m1 _ (gv (U x))) by (by rewrite (ts_old _ _ _ Ht1)). cbn [mbind res_bind].
    set (log2 := if gv (U x) =? 0 then log1 else log2_at (gv (U x))).
    match goal with |- context [for_range 0 _ ?B ?s] => destruct (for_range_inv (fun c m2 => targets m0 m2 (sum_at x (Z.to_nat c))) 0 (Z.of_nat (length dsts)) B s) as (m2 & E2 & HI2) end; [lia| |done|].
    + intros c m2 Hc Ht2. destruct (lookup_lt_is_Some_2 dsts (Z.to_nat c) ltac:(lia)) as [[d dc] Hd]. rewrite Hd. cbn [deref mbind res_bind]. destruct (HG (Z.to_nat c) ltac:(lia)) as [Hg Hil]. rewrite Z2Nat.id in Hil by lia. rewrite Hil.
      destruct (matrix_byte_ok m0 m2 (sum_at x (Z.to_nat c)) first (ptr_add src x) log2 x (Z.to_nat c) d dc (U x) (G (Z.to_nat c)) (S (Z.to_nat c) x)) as (m3 & E3 & Ht3); try done; [lia| | |].
      * intros Hnz. subst log2. rewrite (proj2 (Z.eqb_neq (gv (U x)) 0)); [done|]. by apply gf_nonzero.
      * intros Ef _. unfold sum_at, sum_before. rewrite decide_False by lia. by rewrite Ef.
      * exists m3. split; [done|]. eapply targets_ext; [exact Ht3|]. intros c' d' dc' y _ Hy. unfold sum_at. destruct (decide (c' = Z.to_nat c /\ y = x)) as [[-> ->]|Hne]; [rewrite decide_True by lia; done|]. apply decide_ext. lia.
    + rewrite E2. cbn [mbind res_bind]. eexists. split; [done|]. cbn [fst]. eapply targets_ext; [exact HI2|]. intros c d dc y Hc Hy. unfold sum_at. apply decide_ext. apply lookup_lt_Some in Hc. lia.
  - cbn [fst]. eapply targets_ext; [exact Ht|]. intros c d dc y _ Hy. unfold sum_at. by rewrite decide_False by lia.
  - exists m', log'. split; [exact E|]. cbn [fst] in HI. eapply targets_ext; [exact HI|]. intros c d dc y _ Hy. unfold sum_at. apply decide_ext. lia.
Qed.

End Source.

End Bytes.

Lemma gsum_snoc n f : 0 <= n -> gsum (seqZ 0 (n + 1)) f = (gsum (seqZ 0 n) f + f n)%gf.
Proof. intros Hn. rewrite seqZ_app, gsum_app, (seqZ_cons (0 + n)), (seqZ_nil _ (Z.pred 1)), gsum_cons by lia. change (gsum [] f) with g0. rewrite Z.add_0_l. ring. Qed.

(** All sources. *)
Lemma matrix_reconstruct_ok m0 rm n missing used dsts Gs (U : Z -> Z -> gf) :
  0 < n -> matrix_dsts rm missing = Ok dsts -> length Gs = length dsts ->
  (forall c c' d dc d' dc' y y', dsts !! c = Some (d, dc) -> dsts !! c' = Some (d', dc') -> 0 <= y < dc -> 0 <= y' < dc' -> ptr_add d y = ptr_add d' y' -> c = c' /\ y = y') ->
  (forall c d dc y, dsts !! c = Some (d, dc) -> 0 <= y < dc -> is_Some (mbyte m0 (ptr_add d y))) ->
  (forall c j, (c < length dsts)%nat -> 0 <= j < n -> nth c Gs gzero j <> g0) ->
  (forall i, 0 <= i < n -> exists src rc, col_buf rm (row_at used i) = Ok src /\ rm_col_at rm (row_at used i) = Ok rc /\ 0 <= rc_size rc /\
     (forall x, 0 <= x < rc_size rc -> off_targets dsts (ptr_add src x) /\ mbyte m0 (ptr_add src x) = Some (gv (U i x))) /\
     forall c d dc y, dsts !! c = Some (d, dc) -> rc_size rc <= y < dc -> i <> 0 /\ U i y = g0) ->
  exists m', vdev_raidz_matrix_reconstruct m0 rm n missing (mkrow n <$> Gs) used = Ok m' /\
    targets dsts m0 m' (fun c y => Some (gsum (seqZ 0 n) (fun j => nth c Gs gzero j * U j y)%gf)).
Proof.
  intros Hn Hd Hl Hsep Hmap Hnz Hsrc. unfold vdev_raidz_matrix_reconstruct. set (Sum i c y := gsum (seqZ 0 i) (fun j => nth c Gs gzero j * U j y)%gf).
  match goal with |- context [for_range 0 n ?B ?s] => destruct (for_range_inv (fun i t => targets dsts m0 t.1 (sum_before (i =? 0) (Sum i))) 0 n B s) as ([m' log'] & E & HI) end; [lia| | |].
  - intros i [m log] Hi Ht. cbn [fst] in Ht. destruct (Hsrc i Hi) as (src & rc & Eb & Erc & Hsz & Hs & Hz). rewrite Eb, Erc. cbn [mbind res_bind]. rewrite Hd. cbn [mbind res_bind].
    destruct (matrix_column_ok dsts Hsep m0 (i =? 0) src (rc_size rc) ((fun r => row_at r i) <$> ((fun r : list Z => log2_at <$> r) <$> (mkrow n <$> Gs))) (U i) (fun c => nth c Gs gzero i) (Sum i) Hsz Hs) with (m := m) (log := log) as (m1 & log1 & E1 & Ht1); [|done|].
    + intros c Hc. split; [by apply Hnz|]. destruct (lookup_lt_is_Some_2 Gs c ltac:(lia)) as [g Eg]. unfold row_at at 1. rewrite Nat2Z.id, nth_lookup, !list_lookup_fmap, Eg. cbn [fmap option_fmap option_map default]. rewrite (nth_lookup Gs), Eg. cbn [default].
      unfold row_at. rewrite nth_lookup, list_lookup_fmap, mkrow_lookup, decide_True by lia. cbn. by rewrite Z2Nat.id by lia.
    + eexists. split; [exact E1|]. cbn [fst]. eapply targets_ext; [exact Ht1|]. intros c d dc y Hc Hy. unfold sum_before, sum_after. rewrite (proj2 (Z.eqb_neq (i + 1) 0)) by lia.
      unfold Sum at 3. rewrite gsum_snoc by lia. fold (Sum i c y). destruct (decide (y < rc_size rc)) as [Hlt|Hge].
      * f_equal. destruct (Z.eqb_spec i 0) as [->|Hne]; [unfold Sum; rewrite seqZ_nil by lia; change (gsum [] _) with g0|]; ring.
      * destruct (Hz c d dc y Hc ltac:(lia)) as [Hne ->]. rewrite (proj2 (Z.eqb_neq i 0)) by done. f_equal. ring.
  - cbn [fst]. constructor; [|done]. intros c d dc y Hc Hy. by apply (Hmap c d dc).
  - rewrite E. cbn [mbind res_bind fst] in *. exists m'. split; [done|]. unfold sum_before in HI. by rewrite (proj2 (Z.eqb_neq n 0)) in HI by lia.
Qed.

(** ** The columns chosen *)

(** The first [n] parity columns that are no targets. *)
Definition chosen_parity (tgts : list Z) (n : nat) (c : Z) : Prop := c ∉ tgts /\ c - Z.of_nat (length (filter (fun t => t < c) tgts)) < Z.of_nat n.

Lemma parity_to_use_ok first fuel : forall nleft c tgts,
  Z.of_nat fuel = first - Z.of_nat c -> StronglySorted Z.lt tgts -> Forall (fun t => Z.of_nat c <= t) tgts -> ((0 < nleft)%nat -> exists t, t ∈ tgts /\ first <= t) ->
  Z.of_nat nleft + Z.of_nat (length (filter (fun t => t < first) tgts)) <= first - Z.of_nat c ->
  exists cs, parity_to_use fuel nleft c tgts = Ok cs /\ length cs = nleft /\ StronglySorted Z.lt cs /\ Forall (fun x => Z.of_nat c <= x < first /\ x ∉ tgts /\ x - Z.of_nat c - Z.of_nat (length (filter (fun t => t < x) tgts)) < Z.of_nat nleft) cs.
Proof.
  induction fuel as [|fuel IH]; intros nleft c tgts Hf Hs Hc Ht Hn; (destruct nleft as [|nleft]; [exists []; split_and!; constructor|]); [lia|].
  destruct (Ht ltac:(lia)) as (t0 & Hin & Ht0). destruct tgts as [|t tgts]; [by apply elem_of_nil in Hin|]. cbn [parity_to_use]. inversion Hs as [|? ? Hs' Hlt]; subst. apply Forall_cons in Hc as [Hct Hc].
  rewrite filter_cons in Hn. destruct (Z.eqb_spec (Z.of_nat c) t) as [E|E].
  - assert (t < first) by lia. rewrite decide_True in Hn by done. cbn [length] in Hn. destruct (IH (S nleft) (S c) tgts) as (cs & Ecs & Hl & Hss & Hr); [lia|done| |intros _; exists t0; split; [|done]; apply elem_of_cons in Hin as [->|Hin]; [lia|done]|lia|].
    { eapply Forall_impl; [exact Hlt|]. intros x Hx. cbv beta in Hx. lia. }
    exists cs. split_and!; [done|done|done|]. eapply Forall_impl; [exact Hr|]. intros x (Hx & Hni & Hcnt). split; [lia|]. rewrite not_elem_of_cons. split; [split; [lia|done]|]. rewrite filter_cons, decide_True by lia. cbn [length]. lia.
  - destruct (IH nleft (S c) (t :: tgts)) as (cs & Ecs & Hl & Hss & Hr); [lia|done| |intros _; by exists t0|rewrite filter_cons; lia|].
    { apply Forall_cons. split; [lia|]. eapply Forall_impl; [exact Hlt|]. intros x Hx. cbv beta in Hx. lia. }
    rewrite Ecs. cbn [mbind res_bind]. eexists. split; [done|]. split_and!; [cbn; lia| |].
    + constructor; [done|]. eapply Forall_impl; [exact Hr|]. intros x [Hx _]. lia.
    + constructor; [|eapply Forall_impl; [exact Hr|]; intros x (Hx & Hni & Hcnt); split_and!; [lia|lia|done|lia]]. split; [lia|]. rewrite not_elem_of_cons. split; [|lia]. split; [done|]. intros Hx. rewrite Forall_forall in Hlt. apply Hlt in Hx. lia.
Qed.

Lemma split_length a (l : list Z) : length l = Nat.add (length (filter (fun t : Z => a <= t) l)) (length (filter (fun t : Z => t < a) l)).
Proof. induction l as [|t l IH]; [done|]. rewrite !filter_cons. destruct (decide (a <= t)), (decide (t < a)); cbn [length]; lia. Qed.

Lemma filter_ext_in (P Q : Z -> Prop) `{!forall x, Decision (P x), !forall x, Decision (Q x)} (l : list Z) : (forall x, x ∈ l -> P x <-> Q x) -> filter P l = filter Q l.
Proof.
  induction l as [|x l IH]; intros HPQ; [done|]. rewrite !filter_cons, IH by (intros y Hy; apply HPQ; by right). apply decide_ext, HPQ. left.
Qed.

Lemma data_to_use_ok first n : forall c ms, StronglySorted Z.lt ms -> Forall (fun t => c <= t + first) ms ->
  data_to_use n c first ms = filter (fun x => x - first ∉ ms) (seqZ c (Z.of_nat n)).
Proof.
  induction n as [|n IH]; intros c ms Hs Hc; [done|]. cbn [data_to_use]. rewrite seqZ_cons, filter_cons by lia. replace (Z.pred (Z.of_nat (S n))) with (Z.of_nat n) by lia. replace (Z.succ c) with (c + 1) by lia.
  destruct ms as [|t ms].
  - rewrite decide_True by apply not_elem_of_nil. by rewrite IH.
  - inversion Hs as [|? ? Hs' Hlt]; subst. apply Forall_cons in Hc as [Hct Hc]. destruct (Z.eqb_spec c (t + first)) as [->|Hne].
    + rewrite decide_False by (intros H; apply H; replace (t + first - first) with t by lia; left). rewrite IH; [|done|eapply Forall_impl; [exact Hlt|]; intros x Hx; cbv beta in *; lia].
      apply filter_ext_in. intros x Hx%elem_of_seqZ. rewrite not_elem_of_cons. split; [intros; split; [lia|done]|tauto].
    + rewrite decide_True; [f_equal; rewrite IH; [done|done|]; apply Forall_cons; split; [lia|]; eapply Forall_impl; [exact Hlt|]; intros x Hx; cbv beta in *; lia|].
      rewrite not_elem_of_cons. split; [lia|]. intros Hin. rewrite Forall_forall in Hlt. apply Hlt in Hin. lia.
Qed.

(** ** Columns in one piece *)

Definition lin_ptr (a : abd) : ptr := match abd_u a with AbdLinear p => p | _ => Ptr 0 0 end.

Lemma lin_lane a : abd_is_linear a = true -> abd_u a = AbdLinear (lin_ptr a) /\ forall i, 0 <= i < abd_size a -> abd_lane a i = ptr_add (lin_ptr a) i.
Proof.
  unfold abd_is_linear, lin_ptr. destruct (abd_u a) as [p|] eqn:E; [|done]. intros _. split; [done|]. intros i Hi. unfold abd_lane. rewrite (linear_locs a p E), nth_lookup, span_lookup, decide_True by lia. cbn. f_equal. lia.
Qed.

Lemma parity_at_zero k vs y : (forall v, v ∈ vs -> v y = g0) -> parity_at k vs y = g0.
Proof.
  intros H. rewrite parity_gsum. apply gsum_zero. intros j Hj%elem_of_seqZ. rewrite nth_lookup. destruct (lookup_lt_is_Some_2 vs (Z.to_nat j)) as [v E]; [lia|]. rewrite E. cbn. rewrite H by (by eapply list_elem_of_lookup_2). ring.
Qed.

(** The parity columns a result says were used. *)
Definition code_of (cs : list Z) : Z := foldl (fun code c => Z.lor code (Z.shiftl 1 c)) 0 cs.

Lemma code_bits cs acc c : 0 <= c -> c ∈ cs \/ Z.testbit acc c = true -> Z.testbit (foldl (fun code c => Z.lor code (Z.shiftl 1 c)) acc cs) c = true.
Proof.
  intros Hc. revert acc. induction cs as [|c' cs IH]; intros acc H; [by destruct H as [?%elem_of_nil|]|]. apply IH. rewrite Z.lor_spec.
  destruct H as [[->|?]%elem_of_cons|H]; [right|by left|right; by rewrite H]. rewrite Z.shiftl_spec, Z.sub_diag by done. apply orb_true_r.
Qed.

Lemma code_pos cs : cs <> [] -> Forall (fun c => 0 <= c) cs -> 0 < code_of cs.
Proof.
  intros Hne Hcs. assert (H0 : 0 <= code_of cs).
  { unfold code_of. assert (forall acc, 0 <= acc -> 0 <= foldl (fun code c => Z.lor code (Z.shiftl 1 c)) acc cs) as H; [|by apply H]. clear Hne. induction Hcs as [|c l Hc _ IH]; intros acc Ha; [done|]. apply IH. apply Z.lor_nonneg. split; [done|]. by apply Z.shiftl_nonneg. }
  destruct cs as [|c cs]; [done|]. assert (Hb : Z.testbit (code_of (c :: cs)) c = true) by (apply code_bits; [by inversion Hcs|left; left]). destruct (Z.eq_dec (code_of (c :: cs)) 0) as [E|]; [|lia]. rewrite E, Z.bits_0 in Hb. done.
Qed.

(** The columns that are not among [ms]. *)
Lemma others_ok n (ms : list Z) : 0 <= n -> NoDup ms -> Forall (fun j => 0 <= j < n) ms ->
  NoDup (filter (fun j => j ∉ ms) (seqZ 0 n)) /\ Z.of_nat (length (filter (fun j => j ∉ ms) (seqZ 0 n))) = n - Z.of_nat (length ms) /\ forall j, j ∈ filter (fun j => j ∉ ms) (seqZ 0 n) <-> 0 <= j < n /\ j ∉ ms.
Proof.
  intros Hn Hd Hr. rewrite Forall_forall in Hr. split_and!; [apply NoDup_filter, NoDup_seqZ| |].
  - assert (Hp : filter (fun j => j ∈ ms) (seqZ 0 n) ≡ₚ ms).
    { apply NoDup_Permutation; [apply NoDup_filter, NoDup_seqZ|done|]. intros j. rewrite list_elem_of_filter, elem_of_seqZ. split; [tauto|]. intros Hj. split; [done|]. specialize (Hr j Hj). cbv beta in Hr. lia. }
    pose proof (filter_app_complement (fun j => j ∈ ms) (seqZ 0 n)) as Hc. apply Permutation_length in Hc. apply Permutation_length in Hp. rewrite length_app, Hp, length_seqZ in Hc. lia.
  - intros j. rewrite list_elem_of_filter, elem_of_seqZ. split; intros [? ?]; (split; [lia|done]) || (split; [done|lia]).
Qed.

Section Linear.

Context (rm : raidz_map) (pb db : list abd).
Hypothesis Hwf : raidz_wf rm pb db.
Hypothesis Hlin : forall a, a ∈ db -> abd_is_linear a = true.
Context (m : mem) (vs : list (Z -> gf)) (bad : list nat) (tgts : list Z).
Hypothesis Hst : rec_state m pb db vs bad.
Abbreviation N := (raidz_big rm).
Abbreviation first := (rm_firstdatacol rm).
Abbreviation n := (rm_cols rm - first).
Hypothesis Htgts : StronglySorted Z.lt tgts.
Hypothesis Hrange : Forall (fun t => 0 <= t < rm_cols rm) tgts.
Hypothesis Hcount : Z.of_nat (length tgts) <= first.
Hypothesis Hbad : (fun t => t - first) <$> filter (fun t => first <= t) tgts = Z.of_nat <$> bad.
Hypothesis Hpar : forall k a, pb !! k = Some a -> chosen_parity tgts (length bad) (Z.of_nat k) -> reads m (abd_lane a) 0 N (gfun (parity_at (Z.of_nat k) vs)).

Abbreviation ms := (Z.of_nat <$> bad).

Lemma n_range : n = Z.of_nat (length db) /\ 0 < n <= 254 /\ 1 <= first <= 3.
Proof. pose proof (rw_cols _ _ _ Hwf) as [Ec Hc]. pose proof (rw_first _ _ _ Hwf) as [Ef Hf]. change VDEV_RAIDZ_MAXPARITY with 3 in Hf. lia. Qed.

Lemma StronglySorted_filter (P : Z -> Prop) `{!forall x, Decision (P x)} (l : list Z) : StronglySorted Z.lt l -> StronglySorted Z.lt (filter P l).
Proof.
  induction 1 as [|x l _ IH Hx]; [constructor|]. rewrite filter_cons. destruct (decide (P x)); [|done]. constructor; [done|]. rewrite Forall_forall in Hx |- *. intros y [_ Hy]%list_elem_of_filter. by apply Hx.
Qed.

Lemma StronglySorted_shift (l : list Z) a : StronglySorted Z.lt l -> StronglySorted Z.lt ((fun t => t - a) <$> l).
Proof. induction 1 as [|x l _ IH Hx]; [constructor|]. cbn. constructor; [done|]. apply Forall_fmap. eapply Forall_impl; [exact Hx|]. intros y Hy. cbn. lia. Qed.

Lemma StronglySorted_NoDup (l : list Z) : StronglySorted Z.lt l -> NoDup l.
Proof. induction 1 as [|x l _ IH Hx]; constructor; [|done]. intros Hin. rewrite Forall_forall in Hx. apply Hx in Hin. lia. Qed.

Lemma ms_sorted : StronglySorted Z.lt ms.
Proof. rewrite <- Hbad. apply StronglySorted_shift. by apply StronglySorted_filter. Qed.

Lemma bad_nodup : NoDup bad.
Proof. eapply NoDup_fmap_1. apply StronglySorted_NoDup, ms_sorted. Qed.

Lemma ms_range : Forall (fun j => 0 <= j < n) ms.
Proof.
  rewrite <- Hbad. apply Forall_fmap, Forall_forall. intros t [Ht Hin]%list_elem_of_filter. rewrite Forall_forall in Hrange. apply Hrange in Hin. cbn. lia.
Qed.

Lemma bad_col b : b ∈ bad -> exists a, db !! b = Some a.
Proof.
  intros Hb. pose proof ms_range as Hr. rewrite Forall_forall in Hr. destruct n_range as (En & _). apply lookup_lt_is_Some_2. specialize (Hr (Z.of_nat b)). assert (Z.of_nat b ∈ ms) by (apply list_elem_of_fmap; by exists b). cbv beta in Hr. specialize (Hr H). lia.
Qed.

(** The parity columns. *)
Lemma parity_chosen : exists cs, parity_to_use (Z.to_nat first) (length bad) 0 tgts = Ok cs /\ length cs = length bad /\ StronglySorted Z.lt cs /\ Forall (fun c => 0 <= c < first /\ chosen_parity tgts (length bad) c) cs.
Proof.
  destruct n_range as (_ & _ & Hf). assert (Hlen : length (filter (fun t => first <= t) tgts) = length bad) by (rewrite <- (length_fmap (fun t => t - first)), Hbad; apply length_fmap).
  destruct (parity_to_use_ok first (Z.to_nat first) (length bad) 0 tgts) as (cs & E & Hl & Hs & Hr); [lia|done|eapply Forall_impl; [exact Hrange|]; intros t Ht; cbv beta in *; lia| | |].
  - intros Hpos. destruct (filter (fun t => first <= t) tgts) as [|t l] eqn:Ef; [cbn in Hlen; lia|]. exists t. assert (Hin : t ∈ filter (fun t => first <= t) tgts) by (rewrite Ef; left). apply list_elem_of_filter in Hin. tauto.
  - pose proof (split_length first tgts).
    lia.
  - exists cs. split_and!; [done|done|done|]. eapply Forall_impl; [exact Hr|]. intros c (Hc & ? & ?). split; [lia|]. split; [done|lia].
Qed.

Lemma filter_fmap (f : Z -> Z) (P : Z -> Prop) `{!forall x, Decision (P x)} (l : list Z) : filter P (f <$> l) = f <$> filter (fun x => P (f x)) l.
Proof. induction l as [|x l IH]; [done|]. cbn [fmap list_fmap]. rewrite !filter_cons. destruct (decide (P (f x))); [cbn [fmap list_fmap]; f_equal|]; exact IH. Qed.

(** The data columns. *)
Definition left_cols : list Z := filter (fun j => j ∉ ms) (seqZ 0 n).

Lemma left_used : data_to_use (Z.to_nat n) first first ms = Z.add first <$> left_cols.
Proof.
  destruct n_range as (_ & Hn & _). rewrite data_to_use_ok; [|exact ms_sorted|eapply Forall_impl; [exact ms_range|]; intros t Ht; cbv beta in *; lia]. unfold left_cols. rewrite Z2Nat.id by lia.
  replace (seqZ first n) with (Z.add first <$> seqZ 0 n) by (rewrite fmap_add_seqZ; f_equal; lia). rewrite filter_fmap.
  f_equal. apply filter_ext_in. intros x _. cbn. by replace (first + x - first) with x by lia.
Qed.

Lemma left_ok : NoDup left_cols /\ Z.of_nat (length left_cols) = n - Z.of_nat (length bad) /\ forall j, j ∈ left_cols <-> 0 <= j < n /\ j ∉ ms.
Proof. destruct n_range as (_ & Hn & _). rewrite <- (length_fmap Z.of_nat bad). apply (others_ok n ms); [lia|apply StronglySorted_NoDup, ms_sorted|exact ms_range]. Qed.

Definition dst_of (b : nat) : ptr * Z := match db !! b with Some a => (lin_ptr a, abd_size a) | None => (Ptr 0 0, 0) end.

Lemma linear_col j a : db !! j = Some a -> exists rc, rm_col_at rm (first + Z.of_nat j) = Ok rc /\ rc_size rc = abd_size a /\ col_buf rm (first + Z.of_nat j) = Ok (lin_ptr a).
Proof.
  intros Ha. destruct (wf_data_col rm pb db Hwf j a Ha) as (rc & Erc & Eab & Es). exists rc. split_and!; [done|done|]. destruct (lin_lane a) as [Eu _]; [apply Hlin; by eapply list_elem_of_lookup_2|].
  unfold col_buf, col_abd. rewrite Erc. cbn [mbind res_bind]. rewrite Eab. cbn [deref mbind res_bind]. unfold abd_to_buf. by rewrite Eu.
Qed.

Lemma dsts_ok l : (forall b, b ∈ l -> b ∈ bad) -> matrix_dsts rm (Z.of_nat <$> l) = Ok (dst_of <$> l).
Proof.
  induction l as [|b l IH]; intros Hl; [done|]. cbn [fmap list_fmap matrix_dsts]. destruct (bad_col b) as [a Ha]; [apply Hl; left|]. destruct (linear_col b a Ha) as (rc & Erc & Es & Eb).
  unfold matrix_dst. rewrite (Z.add_comm (Z.of_nat b)), Eb. cbn [mbind res_bind]. rewrite Erc. cbn [mbind res_bind]. rewrite IH by (intros b' Hb'; apply Hl; by right). cbn [mbind res_bind]. do 2 f_equal. unfold dst_of. by rewrite Ha, Es.
Qed.

(** A target, as a column. *)
Lemma dst_lookup c d dc : (dst_of <$> bad) !! c = Some (d, dc) -> exists b a, bad !! c = Some b /\ db !! b = Some a /\ d = lin_ptr a /\ dc = abd_size a /\ forall y, 0 <= y < dc -> ptr_add d y = abd_lane a y.
Proof.
  rewrite list_lookup_fmap. destruct (bad !! c) as [b|] eqn:Eb; [|done]. cbn. destruct (bad_col b) as [a Ha]; [by eapply list_elem_of_lookup_2|]. unfold dst_of. rewrite Ha. intros [= <- <-]. exists b, a. split_and!; try done.
  intros y Hy. symmetry. apply lin_lane; [|done]. apply Hlin. by eapply list_elem_of_lookup_2.
Qed.

Lemma dsts_sep c c' d dc d' dc' y y' : (dst_of <$> bad) !! c = Some (d, dc) -> (dst_of <$> bad) !! c' = Some (d', dc') -> 0 <= y < dc -> 0 <= y' < dc' -> ptr_add d y = ptr_add d' y' -> c = c' /\ y = y'.
Proof.
  intros Hc Hc' Hy Hy' E. destruct (dst_lookup c d dc Hc) as (b & a & Eb & Ea & _ & -> & Hd), (dst_lookup c' d' dc' Hc') as (b' & a' & Eb' & Ea' & _ & -> & Hd'). rewrite Hd, Hd' in E by done.
  destruct (decide (b = b')) as [->|Hne].
  - split; [eapply NoDup_lookup; [apply bad_nodup|done|done]|]. rewrite Ea in Ea'. injection Ea' as <-. by apply (wf_inj rm pb db Hwf b' a Ea) in E.
  - exfalso. revert E. apply (wf_data_apart rm pb db Hwf b b' a a' (abd_size a) (abd_size a')); done || lia.
Qed.

Lemma data_off_targets j a x : db !! j = Some a -> j ∉ bad -> 0 <= x < abd_size a -> off_targets (dst_of <$> bad) (abd_lane a x).
Proof.
  intros Ha Hj Hx c d dc y Hc Hy. destruct (dst_lookup c d dc Hc) as (b & a' & Eb & Ea' & _ & -> & Hd). rewrite Hd by done.
  apply (wf_data_apart rm pb db Hwf j b a a' (abd_size a) (abd_size a')); try done || lia. intros ->. apply Hj. by eapply list_elem_of_lookup_2.
Qed.

Lemma parity_off_targets k a x : pb !! k = Some a -> 0 <= x < N -> off_targets (dst_of <$> bad) (ptr_add (own_ptr a) x).
Proof.
  intros Ha Hx c d dc y Hc Hy. destruct (dst_lookup c d dc Hc) as (b & a' & Eb & Ea' & _ & -> & Hd). rewrite Hd by done. by apply (wf_parity_apart rm pb db Hwf k b a a' Ha Ea').
Qed.

(** The contents of the columns used: parity first, then data. *)
Definition used_val (cs : list Z) (j y : Z) : gf :=
  if decide (j < Z.of_nat (length cs)) then parity_at (nth (Z.to_nat j) cs 0) vs y else nth (Z.to_nat (nth (Z.to_nat (j - Z.of_nat (length cs))) left_cols 0)) vs gzero y.

Lemma used_source cs i :
  length cs = length bad -> Forall (fun c => 0 <= c < first /\ chosen_parity tgts (length bad) c) cs -> 0 <= i < n ->
  exists src rc, col_buf rm (row_at (cs ++ (Z.add first <$> left_cols)) i) = Ok src /\ rm_col_at rm (row_at (cs ++ (Z.add first <$> left_cols)) i) = Ok rc /\ 0 <= rc_size rc /\
    (forall x, 0 <= x < rc_size rc -> off_targets (dst_of <$> bad) (ptr_add src x) /\ mbyte m (ptr_add src x) = Some (gv (used_val cs i x))) /\
    forall c d dc y, (dst_of <$> bad) !! c = Some (d, dc) -> rc_size rc <= y < dc -> i <> 0 /\ used_val cs i y = g0.
Proof.
  intros Hl Hcs Hi. destruct n_range as (En & Hn & Hf). destruct left_ok as (Hld & Hll & Hlm). destruct Hst as [Hlen Hzero Hgood Hmap]. pose proof (first_length rm pb db Hwf) as Efl.
  unfold row_at, used_val. rewrite (nth_lookup (cs ++ _)). destruct (decide (i < Z.of_nat (length cs))) as [Hlt|Hge].
  - destruct (lookup_lt_is_Some_2 cs (Z.to_nat i) ltac:(lia)) as [c Ec]. rewrite (nth_lookup cs), lookup_app_l, Ec by lia. cbn [default]. rewrite Forall_lookup in Hcs. destruct (Hcs _ _ Ec) as [Hc Hni].
    destruct (lookup_lt_is_Some_2 pb (Z.to_nat c) ltac:(lia)) as [a Ha]. destruct (wf_parity_buf rm pb db Hwf (Z.to_nat c) a Ha) as (rc & Erc & Es & _ & _ & Eb). rewrite Z2Nat.id in Erc, Eb by lia.
    exists (own_ptr a), rc. destruct (wf_pb rm pb db Hwf (Z.to_nat c) a Ha) as [Ho Hwa]. pose proof (rw_big _ _ _ Hwf) as [HN _]. split_and!; [done|done|lia| |].
    + intros x Hx. rewrite Es in Hx. split; [by eapply parity_off_targets|]. rewrite <- (own_lane _ _ Ho) by done. rewrite (Hpar (Z.to_nat c) a Ha) by (rewrite ?Z2Nat.id by lia; done). unfold gfun. by rewrite Z2Nat.id by lia.
    + intros c' d dc y Hd Hy. exfalso. destruct (dst_lookup c' d dc Hd) as (b & a' & _ & Ha' & _ & -> & _). destruct (wf_db rm pb db Hwf b a' Ha') as (_ & _ & HaN). lia.
  - rewrite lookup_app_r, list_lookup_fmap by lia. set (j := (Z.to_nat i - length cs)%nat). replace (Z.to_nat (i - Z.of_nat (length cs))) with j by lia. destruct (lookup_lt_is_Some_2 left_cols j ltac:(lia)) as [u Eu].
    rewrite (nth_lookup left_cols), Eu. cbn [fmap option_fmap option_map default]. unfold id. assert (Hu : u ∈ left_cols) by (by eapply list_elem_of_lookup_2). apply Hlm in Hu as [Hu Hum].
    destruct (lookup_lt_is_Some_2 db (Z.to_nat u) ltac:(lia)) as [a Ha]. destruct (lookup_lt_is_Some_2 vs (Z.to_nat u) ltac:(lia)) as [v Hv]. destruct (linear_col (Z.to_nat u) a Ha) as (rc & Erc & Es & Eb). rewrite Z2Nat.id in Erc, Eb by lia.
    assert (Hub : Z.to_nat u ∉ bad) by (intros Hin; apply Hum, list_elem_of_fmap; exists (Z.to_nat u); split; [lia|done]). rewrite (nth_lookup vs), Hv. cbn [default]. unfold id.
    destruct (wf_db rm pb db Hwf _ a Ha) as (Hwa & _ & _). pose proof (aw_size a Hwa). exists (lin_ptr a), rc. split_and!; [done|done|lia| |].
    + intros x Hx. rewrite Es in Hx. destruct (lin_lane a) as [_ Hlane]; [apply Hlin; by eapply list_elem_of_lookup_2|]. rewrite <- Hlane by done. split; [by eapply data_off_targets|]. by apply (Hgood _ a v Ha Hv).
    + intros c d dc y Hd Hy. split; [|apply (Hzero _ a v Ha Hv Hub); lia]. intros ->. apply lookup_lt_Some in Hd. rewrite length_fmap in Hd. lia.
Qed.

Lemma reconstruct_linear_ok : exists cs m', reconstruct_linear m rm tgts = Ok (code_of cs, m') /\
  length cs = length bad /\ StronglySorted Z.lt cs /\ Forall (fun c => 0 <= c < first /\ chosen_parity tgts (length bad) c) cs /\
  data_held m' db vs /\ only_writes (omap (fun j => db !! j) bad) m m'.
Proof.
  destruct parity_chosen as (cs & Ecs & Hl & Hs & Hcs). destruct n_range as (En & Hn & Hf). destruct left_ok as (Hld & Hll & Hlm). pose proof (rs_len _ _ _ _ _ Hst) as Hlen. pose proof (wf_all rm pb db Hwf) as Hall.
  assert (Hc2 : Forall (fun c => 0 <= c <= 2) cs) by (eapply Forall_impl; [exact Hcs|]; intros c [Hc _]; lia).
  destruct (invert_ok n cs ms left_cols ltac:(lia) ltac:(by rewrite length_fmap) ms_range ltac:(apply StronglySorted_NoDup, ms_sorted) Hld ltac:(lia) Hlm first (cs ++ (Z.add first <$> left_cols))) as (Gs & EG & HlG & HnG & Hsol); [|done|done|].
  { intros j Hj. unfold row_at. rewrite nth_lookup, lookup_app_r, list_lookup_fmap by lia. destruct (lookup_lt_is_Some_2 left_cols (Z.to_nat (j - Z.of_nat (length cs))) ltac:(lia)) as [u Eu]. rewrite (nth_lookup left_cols).
    replace (Z.to_nat j - length cs)%nat with (Z.to_nat (j - Z.of_nat (length cs))) by lia. rewrite Eu. cbn. lia. }
  assert (Lb : length (dst_of <$> bad) = length bad) by apply length_fmap.
  destruct (matrix_reconstruct_ok m rm n ms (cs ++ (Z.add first <$> left_cols)) (dst_of <$> bad) Gs (used_val cs)) as (m' & E' & Ht); [lia|by apply dsts_ok|lia|exact dsts_sep| |intros c j Hc Hj; apply HnG; lia|intros i Hi; by apply used_source|].
  { intros c d dc y Hc Hy. destruct (dst_lookup c d dc Hc) as (b & a & _ & Ea & _ & -> & Hd). rewrite Hd by done. apply (rs_mapped _ _ _ _ _ Hst a); [|done]. apply elem_of_app. right. by eapply list_elem_of_lookup_2. }
  assert (Hvals : forall c b a v, bad !! c = Some b -> db !! b = Some a -> vs !! b = Some v -> reads m' (abd_lane a) 0 (abd_size a) (gfun v)).
  { intros c b a v Hb Ha Hv y Hy. destruct (dst_lookup c (lin_ptr a) (abd_size a)) as (b' & a' & Hb' & Ha' & _ & _ & Hd); [rewrite list_lookup_fmap, Hb; cbn; unfold dst_of; by rewrite Ha|]. rewrite Hb in Hb'. injection Hb' as <-. rewrite Ha in Ha'. injection Ha' as <-.
    rewrite <- Hd by done. rewrite (ts_new _ _ _ _ Ht c (lin_ptr a) (abd_size a) y) by (done || (rewrite list_lookup_fmap, Hb; cbn; unfold dst_of; by rewrite Ha)). unfold gfun. do 2 f_equal.
    rewrite <- (Hsol (fun j => nth (Z.to_nat j) vs gzero y) (fun j => used_val cs j y)) with (mt := Z.of_nat b); [by rewrite nth_lookup, Nat2Z.id, Hv| | |by rewrite list_lookup_fmap, Hb].
    - intros l c' Hc'. pose proof (lookup_lt_Some _ _ _ Hc'). unfold used_val. rewrite decide_True, Nat2Z.id, nth_lookup, Hc', parity_gsum by lia. cbn [default]. rewrite Hlen, <- En. done.
    - intros j Hj. unfold used_val. by rewrite decide_False by lia. }
  assert (Ho : only_writes (omap (fun j => db !! j) bad) m m').
  { intros l Hni. apply (ts_old _ _ _ _ Ht). intros c d dc y Hc Hy ->. apply Hni. destruct (dst_lookup c d dc Hc) as (b & a & Hb & Ha & _ & -> & Hd). rewrite Hd by done. apply list_elem_of_bind. exists a. rewrite Forall_forall in Hall. split.
    - apply lane_locs; [|done]. apply Hall, elem_of_app. right. by eapply list_elem_of_lookup_2.
    - apply list_elem_of_omap. exists b. split; [by eapply list_elem_of_lookup_2|done]. }
  exists cs, m'. split_and!; try done.
  - unfold reconstruct_linear. rewrite Hbad, length_fmap, Ecs. cbn [mbind res_bind]. rewrite left_used, <- Hl, EG, E'. done.
  - eapply rec_done; [exact Hst|apply Hwf|done| |done]. intros j a v Ha Hv [c Hc]%list_elem_of_lookup. by eapply Hvals.
Qed.

End Linear.

(** ** Columns in pages *)

(** The contents of a mapped lane. *)
Lemma mapped_reads m l lo hi : mapped m l lo hi -> reads m l lo hi (fun i => default 0 (mbyte m (l i))).
Proof. intros H i Hi. destruct (H i Hi) as [b Hb]. by rewrite Hb. Qed.

(** The data columns replaced. *)
Definition lin_map (rm : raidz_map) (lb : list abd) : raidz_map :=
  set_rm_col rm (imap (fun c rc => if decide (Z.to_nat (rm_firstdatacol rm) <= c)%nat then
    match lb !! (c - Z.to_nat (rm_firstdatacol rm))%nat with Some a => set_rc_abd rc (Some a) | None => rc end else rc) (rm_col rm)).

Lemma lin_map_nil rm : lin_map rm [] = rm.
Proof.
  unfold lin_map. destruct rm. unfold set_rm_col. cbn. f_equal. apply list_eq. intros i. rewrite list_lookup_imap. destruct (rm_col !! i) as [rc|]; [|done]. cbn. by destruct (decide _).
Qed.

Lemma lin_map_snoc rm lb a : 0 <= rm_firstdatacol rm ->
  upd_col (lin_map rm lb) (rm_firstdatacol rm + Z.of_nat (length lb)) (fun rc => set_rc_abd rc (Some a)) = lin_map rm (lb ++ [a]).
Proof.
  intros Hf. unfold upd_col, lin_map, set_rm_col. cbn. f_equal. apply list_eq. intros i. set (f := Z.to_nat (rm_firstdatacol rm)). replace (Z.to_nat (rm_firstdatacol rm + Z.of_nat (length lb))) with (f + length lb)%nat by lia.
  destruct (decide (i = f + length lb)%nat) as [->|Hne].
  - rewrite list_lookup_alter_eq, !list_lookup_imap. destruct (rm_col rm !! _) as [rc|]; [|done]. cbn. rewrite !decide_True by lia. replace (f + length lb - f)%nat with (length lb) by lia.
    rewrite lookup_ge_None_2, lookup_app_r by lia. by rewrite Nat.sub_diag.
  - rewrite list_lookup_alter_ne, !list_lookup_imap by done. destruct (rm_col rm !! i) as [rc|]; [|done]. cbn. f_equal. destruct (decide (f <= i)%nat) as [Hfi|Hfi]; [|done].
    destruct (decide (i < f + length lb)%nat); [by rewrite lookup_app_l by lia|]. rewrite !lookup_ge_None_2; [done|rewrite length_app; cbn; lia|lia].
Qed.

Section Scatter.

Context (rm : raidz_map) (pb db : list abd).
Hypothesis Hwf : raidz_wf rm pb db.
Context (PAGESHIFT : Z) (kmem_alloc : mem -> Z -> Z * list Z).
Hypothesis kmem_fresh : forall m n, m !! (kmem_alloc m n).1 = None.
Hypothesis kmem_size : forall m n, length (kmem_alloc m n).2 = Z.to_nat n.
Context (m : mem) (vs : list (Z -> gf)) (bad : list nat).
Hypothesis Hst : rec_state m pb db vs bad.
Abbreviation N := (raidz_big rm).
Abbreviation first := (rm_firstdatacol rm).

(** New buffers with copies of the first columns. *)
Record copied (lb : list abd) (m' : mem) : Prop := {
  cp_own : Forall2 (fun a b => own_buf (abd_size a) b) (take (length lb) db) lb;
  cp_nodup : NoDup (abd_blk <$> lb);
  cp_fresh : forall b l, b ∈ lb -> p_blk l = abd_blk b -> mbyte m l = None;
  cp_data : forall j a b, db !! j = Some a -> lb !! j = Some b -> reads m' (ptr_add (own_ptr b)) 0 (abd_size a) (fun i => default 0 (mbyte m (abd_lane a i)));
  cp_same : forall l, p_blk l ∉ abd_blk <$> lb -> mbyte m' l = mbyte m l
}.

Lemma lin_map_col lb (j : nat) a : db !! j = Some a -> exists rc, rm_col_at (lin_map rm lb) (first + Z.of_nat j) = Ok rc /\ rc_size rc = abd_size a /\ rc_abd rc = Some (default a (lb !! j)).
Proof.
  intros Ha. destruct (wf_data_col rm pb db Hwf j a Ha) as (rc & Erc%rm_col_at_Some & Eab & Es). pose proof (rw_first _ _ _ Hwf) as [_ Hf]. unfold rm_col_at, lin_map. cbn [rm_col set_rm_col]. rewrite list_lookup_imap, Erc. cbn.
  rewrite decide_True by lia. replace (Z.to_nat (first + Z.of_nat j) - Z.to_nat first)%nat with j by lia. destruct (lb !! j) as [b|] eqn:Eb; eexists; split_and!; try done.
Qed.

Lemma copy_step lb m1 (j : nat) a : j = length lb -> db !! j = Some a -> copied lb m1 ->
  exists b m2 m3, abd_alloc_linear kmem_alloc m1 (abd_size a) true = Ok (b, m2) /\ abd_copy_off m2 b a 0 0 (abd_size a) = Ok m3 /\ copied (lb ++ [b]) m3.
Proof.
  intros Hj Ha [Hown Hnd Hfr Hdata Hsame]. destruct (wf_db rm pb db Hwf j a Ha) as (Hwa & _ & HaN). pose proof (rw_big _ _ _ Hwf) as [HN _]. pose proof (aw_size a Hwa) as Hpos.
  assert (Hin : forall j a, db !! j = Some a -> a ∈ pb ++ db) by (intros j' a' H; apply elem_of_app; right; by eapply list_elem_of_lookup_2).
  destruct (alloc_own kmem_alloc m1 (abd_size a) true kmem_fresh kmem_size ltac:(lia)) as (b & m2 & E2 & Ob & Fb & Mb & Ib & _).
  assert (Hnone : forall l, p_blk l = abd_blk b -> mbyte m1 l = None) by (intros l El; unfold mbyte; by rewrite El, Fb).
  assert (Hblk : abd_blk b ∉ abd_blk <$> lb).
  { intros (b' & Eb & Hb')%list_elem_of_fmap. apply list_elem_of_lookup in Hb' as [i Hi]. destruct (Forall2_lookup_r _ _ _ _ _ Hown Hi) as (a' & Ha' & Ob'). apply lookup_take_Some in Ha' as [Ha' _]. destruct (wf_db rm pb db Hwf i a' Ha') as (Hwa' & _ & _).
    pose proof (aw_size a' Hwa'). assert (Hr := Hdata i a' b' Ha' Hi 0 ltac:(lia)). by rewrite Hnone in Hr. }
  assert (Hfb : forall l, p_blk l = abd_blk b -> mbyte m l = None) by (intros l El; rewrite <- Hsame by (by rewrite El); by apply Hnone).
  assert (Hlane : forall i, 0 <= i < abd_size a -> p_blk (abd_lane a i) ∉ abd_blk <$> lb /\ p_blk (abd_lane a i) <> abd_blk b).
  { intros i Hi. destruct (rs_mapped _ _ _ _ _ Hst a (Hin j a Ha) i Hi) as [x Hx]. split; [intros (b' & Eb & Hb')%list_elem_of_fmap; by rewrite (Hfr b' _ Hb' Eb) in Hx|intros Eb; by rewrite Hfb in Hx]. }
  assert (Hrd : reads m2 (abd_lane a) 0 (abd_size a) (fun i => default 0 (mbyte m (abd_lane a i)))).
  { intros i Hi. destruct (Hlane i Hi) as [H1 H2]. rewrite Ib, Hsame by done. by apply (mapped_reads m (abd_lane a) 0 (abd_size a)); [apply (rs_mapped _ _ _ _ _ Hst a (Hin j a Ha))|]. }
  destruct (own_linear _ _ Ob) as [Ub Sb]. assert (Hwb : abd_wf b) by (eapply own_wf; [|exact Ob]; lia).
  destruct (copy_lane m2 a (abd_size a) Hwa ltac:(lia) b (fun i => default 0 (mbyte m (abd_lane a i)))) as (m3 & E3 & Hsw); [done|lia| |done| | |].
  - intros i i' Hi Hi' E. rewrite !(own_lane _ _ Ob) in E by done. by injection E; lia.
  - intros i Hi. rewrite (own_lane _ _ Ob) by done. by apply Mb.
  - intros i i' Hi Hi' E. rewrite (own_lane _ _ Ob) in E by done. destruct (Hlane i' Hi') as [_ H2]. apply H2. by rewrite <- E.
  - assert (Hst3 : forall l, p_blk l <> abd_blk b -> mbyte m3 l = mbyte m1 l).
    { intros l Hl. rewrite (sw_old _ _ _ _ _ Hsw), Ib; [done|done|]. intros l' w [= -> ->]%list_elem_of_singleton i Hi ->. apply Hl. by rewrite (own_lane _ _ Ob). }
    exists b, m2, m3. split_and!; [done|done|]. constructor.
    + rewrite length_app. cbn [length]. replace (length lb + 1)%nat with (S (length lb)) by lia. rewrite <- Hj, (take_S_r _ _ _ Ha), Hj. apply Forall2_app; [done|]. by repeat constructor.
    + rewrite fmap_app. apply NoDup_app. split_and!; [done| |apply NoDup_singleton]. intros x Hx ->%list_elem_of_singleton. done.
    + intros b' l [Hb'| ->%list_elem_of_singleton]%elem_of_app El; [by eapply Hfr|by apply Hfb].
    + intros i a' b' Ha' Hb'. destruct (decide (i < length lb)%nat) as [Hlt|Hge].
      * rewrite lookup_app_l in Hb' by done. intros y Hy. rewrite Hst3; [by apply (Hdata i a' b')|]. cbn. intros E. apply Hblk. rewrite <- E. apply list_elem_of_fmap_2. by eapply list_elem_of_lookup_2.
      * rewrite lookup_app_r in Hb' by lia. destruct (i - length lb)%nat as [|q] eqn:Eq; [|done]. injection Hb' as <-. assert (i = j) as -> by lia. rewrite Ha in Ha'. injection Ha' as <-.
        intros y Hy. rewrite <- (own_lane _ _ Ob) by done. apply (sw_new _ _ _ _ _ Hsw (abd_lane b) (fun i => default 0 (mbyte m (abd_lane a i)))); [left|done].
    + intros l Hl. rewrite fmap_app, not_elem_of_app in Hl. destruct Hl as [Hl Hl']. rewrite Hst3, Hsame; [done|done|]. intros E. apply Hl'. rewrite E. left.
Qed.

Lemma linear_columns_ok : exists lb m1, linear_columns kmem_alloc m rm = Ok (db, lin_map rm lb, m1) /\ length lb = length db /\ copied lb m1.
Proof.
  pose proof (rw_cols _ _ _ Hwf) as [Ec Hc]. pose proof (rw_first _ _ _ Hwf) as [Ef Hf]. unfold linear_columns.
  match goal with |- context [for_range ?lo ?hi ?B ?s] => destruct (for_range_inv (fun c t => exists lb m1, t = (take (Z.to_nat (c - first)) db, lin_map rm lb, m1) /\ length lb = Z.to_nat (c - first) /\ copied lb m1) lo hi B s) as (t & E & lb & m1 & -> & Hl & Hcp) end; [lia| | |].
  - intros c t Hcr (lb & m1 & -> & Hl & Hcp). destruct (lookup_lt_is_Some_2 db (Z.to_nat (c - first)) ltac:(lia)) as [a Ha]. destruct (lin_map_col lb _ a Ha) as (rc & Erc & Es & Ea). replace (first + Z.of_nat (Z.to_nat (c - first))) with c in Erc by lia.
    rewrite Erc. cbn [mbind res_bind]. rewrite Ea, lookup_ge_None_2 by lia. cbn [default deref mbind res_bind]. unfold id. rewrite Es.
    destruct (copy_step lb m1 _ a ltac:(symmetry; exact Hl) Ha Hcp) as (b & m2 & m3 & E2 & E3 & Hcp3). rewrite E2. cbn [mbind res_bind]. rewrite E3. cbn [mbind res_bind]. eexists. split; [done|]. exists (lb ++ [b]), m3. split_and!; [|rewrite length_app; cbn; lia|done].
    rewrite <- lin_map_snoc by lia. rewrite Hl. replace (first + Z.of_nat (Z.to_nat (c - first))) with c by lia. replace (Z.to_nat (c + 1 - first)) with (S (Z.to_nat (c - first))) by lia. by rewrite (take_S_r _ _ _ Ha).
  - exists [], m. rewrite Z.sub_diag, lin_map_nil. split_and!; [done|done|]. constructor; try done; [constructor|by intros b l H%elem_of_nil].
  - exists lb, m1. rewrite E. replace (Z.to_nat (rm_cols rm - first)) with (length db) in * by lia. rewrite firstn_all. done.
Qed.

Section Copied.

Context (lb : list abd) (m1 : mem).
Hypothesis Hll : length lb = length db.
Hypothesis Hcp : copied lb m1.

Lemma lb_own j b : lb !! j = Some b -> exists a, db !! j = Some a /\ own_buf (abd_size a) b /\ abd_size b = abd_size a /\ abd_wf b /\ abd_wf a.
Proof.
  intros Hb. destruct (Forall2_lookup_r _ _ _ _ _ (cp_own _ _ Hcp) Hb) as (a & Ha & Ho). apply lookup_take_Some in Ha as [Ha _]. exists a. destruct (wf_db rm pb db Hwf j a Ha) as (Hwa & _ & _). pose proof (aw_size a Hwa).
  destruct (own_linear _ _ Ho) as [_ Es]. split_and!; try done. by eapply own_wf.
Qed.

Lemma lb_sizes : abd_size <$> lb = abd_size <$> db.
Proof.
  apply list_eq. intros i. rewrite !list_lookup_fmap. destruct (lb !! i) as [b|] eqn:Eb; [destruct (lb_own i b Eb) as (a & Ha & _ & Es & _); rewrite Ha; cbn; by rewrite Es|].
  apply lookup_ge_None_1 in Eb. by rewrite lookup_ge_None_2 by lia.
Qed.

Lemma lb_blk b l : b ∈ lb -> l ∈ locs b -> p_blk l = abd_blk b.
Proof. intros [j Hb]%list_elem_of_lookup Hl. destruct (lb_own j b Hb) as (a & _ & Ho & _). rewrite (own_locs _ _ Ho) in Hl. apply elem_of_span in Hl as [-> _]. done. Qed.

Lemma lb_nodup : NoDup (lb ≫= locs).
Proof.
  pose proof (cp_nodup _ _ Hcp) as Hn. assert (Hb : forall b l, b ∈ lb -> l ∈ locs b -> p_blk l = abd_blk b) by exact lb_blk.
  assert (Hl : forall b, b ∈ lb -> NoDup (locs b)). { intros b [j Hj]%list_elem_of_lookup. destruct (lb_own j b Hj) as (a & _ & Ho & _). rewrite (own_locs _ _ Ho). apply NoDup_span. }
  clear Hll Hcp. induction lb as [|b l IH]; [constructor|]. cbn [fmap list_fmap] in Hn. apply NoDup_cons in Hn as [Hni Hn]. cbn [mbind list_bind]. apply NoDup_app. split_and!; [apply Hl; left| |].
  - intros x Hx (b' & Hx' & Hb')%list_elem_of_bind. apply Hni, list_elem_of_fmap. exists b'. split; [|done]. rewrite <- (Hb b x), <- (Hb b' x); try done; [by right|left].
  - apply IH; [done|intros; apply Hb; [by right|done]|intros; apply Hl; by right].
Qed.

(** The parity buffers are elsewhere. *)
Lemma lane_off a i : a ∈ pb ++ db -> 0 <= i < abd_size a -> p_blk (abd_lane a i) ∉ abd_blk <$> lb.
Proof.
  intros Ha Hi (b & E & Hb)%list_elem_of_fmap. destruct (rs_mapped _ _ _ _ _ Hst a Ha i Hi) as [x Hx]. by rewrite (cp_fresh _ _ Hcp b _ Hb E) in Hx.
Qed.

Lemma lin_big : raidz_big (lin_map rm lb) = N.
Proof.
  pose proof (rw_first _ _ _ Hwf) as [_ Hf]. unfold raidz_big, lin_map. cbn [rm_col set_rm_col]. destruct (rm_col rm) as [|rc l]; [done|]. cbn [imap]. by rewrite decide_False by lia.
Qed.

Lemma lin_map_wf : raidz_wf (lin_map rm lb) pb lb.
Proof.
  pose proof (rw_cols _ _ _ Hwf) as [Ec Hc]. pose proof (rw_first _ _ _ Hwf) as [Ef Hf]. change VDEV_RAIDZ_MAXPARITY with 3 in *.
  assert (Hlk : forall c rc, rm_col rm !! c = Some rc -> rm_col (lin_map rm lb) !! c = Some (if decide (Z.to_nat first <= c)%nat then match lb !! (c - Z.to_nat first)%nat with Some a => set_rc_abd rc (Some a) | None => rc end else rc)).
  { intros c rc E. unfold lin_map. cbn [rm_col set_rm_col]. by rewrite list_lookup_imap, E. }
  assert (Hnone : forall c, rm_col rm !! c = None -> rm_col (lin_map rm lb) !! c = None) by (intros c E; unfold lin_map; cbn [rm_col set_rm_col]; by rewrite list_lookup_imap, E).
  pose proof lin_big as Hbig.
  assert (Hsz : rc_size <$> rm_col (lin_map rm lb) = rc_size <$> rm_col rm).
  { apply list_eq. intros c. rewrite !list_lookup_fmap. destruct (rm_col rm !! c) as [rc|] eqn:E; [rewrite (Hlk c rc E); cbn|by rewrite Hnone]. destruct (decide _); [|done]. by destruct (lb !! _). }
  constructor; rewrite ?Hbig; change (rm_cols (lin_map rm lb)) with (rm_cols rm); change (rm_firstdatacol (lin_map rm lb)) with first; try (by apply Hwf).
  - rewrite Hll. split; [done|lia].
  - pose proof (rw_abds _ _ _ Hwf) as Ea. apply list_eq. intros c. pose proof (f_equal (fun l => l !! c) Ea) as Ea'. cbv beta in Ea'. rewrite !list_lookup_fmap in *. destruct (decide (c < Z.to_nat (rm_cols rm))%nat) as [Hlt|Hge].
    + rewrite lookup_take_lt in Ea' by done. rewrite lookup_take_lt by done. destruct (rm_col rm !! c) as [rc|] eqn:E; [rewrite (Hlk c rc E)|].
      * cbn in Ea' |- *. destruct (decide (Z.to_nat first <= c)%nat) as [Hfc|Hfc]; [|rewrite Ea', !lookup_app_l by lia; done]. rewrite lookup_app_r by lia. replace (length pb) with (Z.to_nat first) by lia.
        destruct (lookup_lt_is_Some_2 lb (c - Z.to_nat first)) as [b Eb]; [lia|]. by rewrite Eb.
      * exfalso. cbn in Ea'. destruct (lookup_lt_is_Some_2 (pb ++ db) c) as [a Ha]; [rewrite length_app; lia|]. by rewrite Ha in Ea'.
    + rewrite (lookup_ge_None_2 (take _ _)), lookup_ge_None_2; [done|rewrite length_app; lia|rewrite length_take; lia].
  - rewrite fmap_take, Hsz, <- fmap_take, (rw_sizes _ _ _ Hwf), !fmap_app, lb_sizes. done.
  - apply Forall_lookup. intros j b Hb. destruct (lb_own j b Hb) as (a & Ha & Ho & Es & Hwb & _). destruct (wf_db rm pb db Hwf j a Ha) as (_ & (Hd & _) & HaN). split_and!; [done|by eapply own_multiple|lia].
  - intros b Hb. destruct (lb_own 0 b Hb) as (a & Ha & _ & -> & _). by apply (rw_full _ _ _ Hwf).
  - intros i j b b' Hij Hb Hb'. destruct (lb_own i b Hb) as (a & Ha & _ & -> & _), (lb_own j b' Hb') as (a' & Ha' & _ & -> & _). by apply (rw_sorted _ _ _ Hwf i j).
  - rewrite bind_app. apply NoDup_app. pose proof (rw_sep _ _ _ Hwf) as Hs. rewrite bind_app in Hs. apply NoDup_app in Hs as (Hs & _ & _). split_and!; [done| |apply lb_nodup].
    intros l (a & Hl & Ha)%list_elem_of_bind (b & Hl' & Hb)%list_elem_of_bind. pose proof (wf_all rm pb db Hwf) as Hall. rewrite Forall_forall in Hall. assert (Hin : a ∈ pb ++ db) by (apply elem_of_app; by left).
    apply locs_lane_inv in Hl as (i & Hi & ->); [|by apply Hall]. apply (lane_off a i Hin Hi). rewrite (lb_blk b _ Hb Hl'). by apply list_elem_of_fmap_2.
  - assert (Hl : forall b, b ∈ lb -> abd_is_linear b = true); [|intros b b' Hb Hb'; by rewrite (Hl b Hb), (Hl b' Hb')].
    intros b [j Hb]%list_elem_of_lookup. destruct (lb_own j b Hb) as (a & _ & Hown & _). destruct (own_linear _ _ Hown) as [Eu _]. unfold abd_is_linear. by rewrite Eu.
Qed.

Lemma lin_state : rec_state m1 pb lb vs bad.
Proof.
  destruct Hst as [Hlen Hzero Hgood Hmap]. constructor.
  - lia.
  - intros j b v Hb Hv Hj i Hi. destruct (lb_own j b Hb) as (a & Ha & _ & Es & _). apply (Hzero j a v Ha Hv Hj). lia.
  - intros j b v Hb Hv Hj i Hi. destruct (lb_own j b Hb) as (a & Ha & Ho & Es & _). rewrite (own_lane _ _ Ho) by lia. rewrite (cp_data _ _ Hcp j a b Ha Hb) by lia. rewrite (Hgood j a v Ha Hv Hj) by lia. done.
  - intros a [Ha|Ha]%elem_of_app i Hi.
    + rewrite (cp_same _ _ Hcp); [by apply Hmap; [apply elem_of_app; left|]|]. apply lane_off; [apply elem_of_app; by left|done].
    + apply list_elem_of_lookup in Ha as [j Hb]. destruct (lb_own j a Hb) as (a' & Ha & Ho & Es & _). rewrite (own_lane _ _ Ho) by lia. rewrite (cp_data _ _ Hcp j a' a Ha Hb) by lia. done.
Qed.

(** The columns copied back. *)
Section Restore.

Context (m2 : mem).
Hypothesis Hdata : data_held m2 lb vs.
Hypothesis Hsame : forall l, p_blk l ∉ abd_blk <$> lb -> mbyte m2 l = mbyte m l.

Record restored (j : nat) (m3 : mem) : Prop := {
  rt_done : forall i a v, (i < j)%nat -> db !! i = Some a -> vs !! i = Some v -> reads m3 (abd_lane a) 0 (abd_size a) (gfun v);
  rt_left : forall i b v, (j <= i)%nat -> lb !! i = Some b -> vs !! i = Some v -> reads m3 (ptr_add (own_ptr b)) 0 (abd_size b) (gfun v);
  rt_freed : forall i b l, (i < j)%nat -> lb !! i = Some b -> p_blk l = abd_blk b -> mbyte m3 l = None;
  rt_same : forall l, p_blk l ∉ abd_blk <$> lb -> l ∉ (take j db ≫= locs) -> mbyte m3 l = mbyte m2 l
}.

Lemma lb_blk_ne i j b b' : lb !! i = Some b -> lb !! j = Some b' -> i <> j -> abd_blk b <> abd_blk b'.
Proof.
  intros Hb Hb' Hne E. apply Hne. eapply (NoDup_lookup (abd_blk <$> lb)); [apply (cp_nodup _ _ Hcp)|by rewrite list_lookup_fmap, Hb|by rewrite list_lookup_fmap, Hb', E].
Qed.

Lemma lb_blk_in i b : lb !! i = Some b -> abd_blk b ∈ abd_blk <$> lb.
Proof. intros H. apply list_elem_of_fmap_2. by eapply list_elem_of_lookup_2. Qed.

Lemma db_locs_off i j a b l : db !! i = Some a -> db !! j = Some b -> i <> j -> l ∈ locs a -> l ∉ locs b.
Proof.
  intros Ha Hb Hne Hl Hl'. pose proof (rw_sep _ _ _ Hwf) as Hsep. eapply (locs_apart (pb ++ db) (length pb + i) (length pb + j) a b Hsep); [by rewrite data_lookup|by rewrite data_lookup|lia|exact Hl|exact Hl'].
Qed.

Lemma restore_step (j : nat) a b v m3 : db !! j = Some a -> lb !! j = Some b -> vs !! j = Some v -> restored j m3 ->
  exists m4, abd_copy_off m3 a b 0 0 (abd_size a) = Ok m4 /\ abd_free PAGESHIFT m4 b = Ok (delete (abd_blk b) m4) /\ restored (S j) (delete (abd_blk b) m4).
Proof.
  intros Ha Hb Hv [Rd Rl Rf Rs]. destruct (lb_own j b Hb) as (a' & Ha' & Ho & Es & Hwb & Hwa). rewrite Ha in Ha'. injection Ha' as <-. pose proof (aw_size a Hwa) as Hpos. pose proof (wf_inj rm pb db Hwf j a Ha) as Hinj.
  assert (Hin : a ∈ pb ++ db) by (apply elem_of_app; right; by eapply list_elem_of_lookup_2).
  assert (Hoff : forall i, 0 <= i < abd_size a -> p_blk (abd_lane a i) ∉ abd_blk <$> lb) by (intros i Hi; by apply lane_off).
  pose proof (lb_blk_in j b Hb) as Hbin.
  assert (Hprev : forall i, 0 <= i < abd_size a -> abd_lane a i ∉ (take j db ≫= locs)).
  { intros i Hi (a' & Hl & Hin')%list_elem_of_bind. apply list_elem_of_lookup in Hin' as [q Hq]. apply lookup_take_Some in Hq as [Hq Hlt]. apply (db_locs_off q j a' a (abd_lane a i)) in Hl; [|done|done|lia]. apply Hl. by apply lane_locs. }
  destruct (copy_lane m3 b (abd_size a) Hwb ltac:(lia) a (gfun v)) as (m4 & E4 & Hsw); [done|lia|done| | | |].
  - intros i Hi. rewrite (own_lane _ _ Ho) by done. apply (Rl j b v); [lia|done|done|lia].
  - intros i Hi. rewrite Rs, Hsame by (by apply Hoff || by apply Hprev). by apply (rs_mapped _ _ _ _ _ Hst).
  - intros i i' Hi Hi' E. apply (Hoff i Hi). rewrite E, (own_lane _ _ Ho) by done. done.
  - assert (Hkeep : forall l, l ∉ locs a -> mbyte m4 l = mbyte m3 l).
    { intros l Hl. apply (sw_old _ _ _ _ _ Hsw). intros l' w [= -> ->]%list_elem_of_singleton i Hi ->. apply Hl. by apply lane_locs. }
    assert (Hnb : forall l, p_blk l ∈ abd_blk <$> lb -> l ∉ locs a) by (intros l Hl Hla; apply locs_lane_inv in Hla as (i & Hi & ->); [by apply (Hoff i Hi)|done]).
    exists m4. split_and!; [done| |].
    + apply (free_own PAGESHIFT m4 (abd_size a) b Ho Hpos). intros i Hi. rewrite Hkeep by (by apply Hnb). rewrite (Rl j b v) by (done || lia). done.
    + constructor.
      * intros i a' v' Hi Ha' Hv' y Hy. rewrite mbyte_delete.
        2:{ intros E. assert (Hin' : a' ∈ pb ++ db) by (apply elem_of_app; right; by eapply list_elem_of_lookup_2). apply (lane_off a' y Hin' Hy). by rewrite E. }
        destruct (decide (i = j)) as [->|Hne]; [rewrite Ha in Ha'; injection Ha' as <-; rewrite Hv in Hv'; injection Hv' as <-; apply (sw_new _ _ _ _ _ Hsw (abd_lane a) (gfun v)); [left|done]|].
        rewrite Hkeep; [apply (Rd i a' v'); done || lia|]. destruct (wf_db rm pb db Hwf i a' Ha') as (Hwa' & _ & _). by apply (db_locs_off i j a' a); [..|apply lane_locs].
      * intros i b' v' Hi Hb' Hv' y Hy. assert (Hne : abd_blk b' <> abd_blk b) by (apply (lb_blk_ne i j); done || lia). rewrite mbyte_delete, Hkeep by (done || (apply Hnb; exact (lb_blk_in i b' Hb'))). apply (Rl i b' v'); done || lia.
      * intros i b' l Hi Hb' El. destruct (decide (i = j)) as [->|Hne]; [rewrite Hb in Hb'; injection Hb' as <-; unfold mbyte; by rewrite El, lookup_delete_eq|].
        rewrite mbyte_delete by (rewrite El; by apply (lb_blk_ne i j)). rewrite Hkeep by (apply Hnb; rewrite El; exact (lb_blk_in i b' Hb')). apply (Rf i b'); done || lia.
      * intros l Hl Hl'. rewrite (take_S_r _ _ _ Ha), bind_app, not_elem_of_app in Hl'. destruct Hl' as [Hl1 Hl2]. cbn in Hl2. rewrite app_nil_r in Hl2. rewrite mbyte_delete by (by intros E; rewrite E in Hl). rewrite Hkeep by done. by apply Rs.
Qed.

Lemma restore_columns_ok : exists m3, restore_columns PAGESHIFT m2 (lin_map rm lb) db = Ok m3 /\ restored (length db) m3.
Proof.
  pose proof (rw_cols _ _ _ Hwf) as [Ec Hc]. unfold restore_columns. change (rm_cols (lin_map rm lb)) with (rm_cols rm). change (rm_firstdatacol (lin_map rm lb)) with first. pose proof (rs_len _ _ _ _ _ Hst) as Hlen.
  match goal with |- context [for_range ?lo ?hi ?B ?s] => destruct (for_range_inv (fun c m3 => restored (Z.to_nat (c - first)) m3) lo hi B s) as (m3 & E & HI) end; [lia| | |].
  - intros c m3 Hcr HI. set (j := Z.to_nat (c - first)) in *. destruct (lookup_lt_is_Some_2 db j ltac:(lia)) as [a Ha]. destruct (lookup_lt_is_Some_2 lb j ltac:(lia)) as [b Hb]. destruct (lookup_lt_is_Some_2 vs j ltac:(lia)) as [v Hv].
    destruct (lin_map_col lb j a Ha) as (rc & Erc & Es & Ea). replace (first + Z.of_nat j) with c in Erc by lia. rewrite Erc. cbn [mbind res_bind]. rewrite Ea, Hb, Ha. cbn [default deref mbind res_bind]. unfold id. rewrite Es.
    destruct (restore_step j a b v m3 Ha Hb Hv HI) as (m4 & E4 & E5 & HI'). rewrite E4. cbn [mbind res_bind]. eexists. split; [exact E5|]. by replace (Z.to_nat (c + 1 - first)) with (S j) by lia.
  - rewrite Z.sub_diag. constructor; [lia| |lia|done]. intros i b v _ Hb Hv y Hy. destruct (lb_own i b Hb) as (a & Ha & Ho & Es & _). rewrite <- (own_lane _ _ Ho) by lia. by apply (Forall2_lookup_lr _ _ _ _ _ _ Hdata Hb Hv).
  - exists m3. split; [done|]. by replace (Z.to_nat (rm_cols rm - first)) with (length db) in HI by lia.
Qed.

End Restore.

End Copied.

End Scatter.

(** ** The general routine *)

Section GeneralOk.

Context (PAGESHIFT : Z) (kmem_alloc : mem -> Z -> Z * list Z).
Hypothesis kmem_fresh : forall m n, m !! (kmem_alloc m n).1 = None.
Hypothesis kmem_size : forall m n, length (kmem_alloc m n).2 = Z.to_nat n.
Context (rm : raidz_map) (pb db : list abd).
Hypothesis Hwf : raidz_wf rm pb db.
Context (m : mem) (vs : list (Z -> gf)) (bad : list nat) (tgts : list Z).
Hypothesis Hst : rec_state m pb db vs bad.
Abbreviation N := (raidz_big rm).
Abbreviation first := (rm_firstdatacol rm).
Hypothesis Htgts : StronglySorted Z.lt tgts.
Hypothesis Hrange : Forall (fun t => 0 <= t < rm_cols rm) tgts.
Hypothesis Hcount : Z.of_nat (length tgts) <= first.
Hypothesis Hbad : (fun t => t - first) <$> filter (fun t => first <= t) tgts = Z.of_nat <$> bad.
Hypothesis Hpar : forall k a, pb !! k = Some a -> chosen_parity tgts (length bad) (Z.of_nat k) -> reads m (abd_lane a) 0 N (gfun (parity_at (Z.of_nat k) vs)).

Lemma restored_data lb m1 m2 m3 :
  length lb = length db -> copied db m lb m1 -> (forall l, p_blk l ∉ abd_blk <$> lb -> mbyte m2 l = mbyte m l) -> restored db vs lb m2 (length db) m3 ->
  data_held m3 db vs /\ only_writes (omap (fun j => db !! j) bad) m m3.
Proof.
  intros Hll Hcp Hsame [Rd _ Rf Rs]. pose proof Hst as [Hlen _ Hgood _]. split.
  - apply Forall2_same_length_lookup_2; [done|]. intros j a v Ha Hv. apply (Rd j a v); try done; by eapply lookup_lt_Some.
  - intros l Hl. destruct (decide (p_blk l ∈ abd_blk <$> lb)) as [Hb|Hb].
    + apply list_elem_of_fmap in Hb as (b & El & Hb). pose proof Hb as Hb'. apply list_elem_of_lookup in Hb' as [i Hi]. rewrite (Rf i b l), (cp_fresh _ _ _ _ Hcp b l Hb El); try done. apply lookup_lt_Some in Hi. lia.
    + destruct (decide (l ∈ db ≫= locs)) as [Hd|Hd]; [|rewrite Rs by (by rewrite ?firstn_all); by apply Hsame].
      apply list_elem_of_bind in Hd as (a & Hla & Ha). apply list_elem_of_lookup in Ha as [j Hj]. destruct (lookup_lt_is_Some_2 vs j) as [v Hv]; [apply lookup_lt_Some in Hj; lia|]. destruct (wf_db rm pb db Hwf j a Hj) as (Hwa & _ & _).
      assert (Hjb : j ∉ bad). { intros Hb'. apply Hl, list_elem_of_bind. exists a. split; [done|]. apply list_elem_of_omap. by exists j. }
      apply locs_lane_inv in Hla as (y & Hy & ->); [|done]. rewrite (Rd j a v), (Hgood j a v) by (done || by eapply lookup_lt_Some). done.
Qed.

Lemma reconstruct_general_ok : exists cs m', vdev_raidz_reconstruct_general PAGESHIFT kmem_alloc m rm tgts = Ok (code_of cs, m') /\
  length cs = length bad /\ StronglySorted Z.lt cs /\ Forall (fun c => 0 <= c < first /\ chosen_parity tgts (length bad) c) cs /\
  data_held m' db vs /\ only_writes (omap (fun j => db !! j) bad) m m'.
Proof.
  pose proof (rw_cols _ _ _ Hwf) as [Ec Hc]. destruct (lookup_lt_is_Some_2 db 0 ltac:(lia)) as [a0 Ha0]. destruct (wf_data_col rm pb db Hwf 0 a0 Ha0) as (rc & Erc & Ea & _). rewrite Z.add_0_r in Erc.
  assert (Hin0 : a0 ∈ db) by (by eapply list_elem_of_lookup_2). unfold vdev_raidz_reconstruct_general, col_abd. rewrite Erc. cbn [mbind res_bind]. rewrite Ea. cbn [deref mbind res_bind]. destruct (abd_is_linear a0) eqn:El.
  - apply (reconstruct_linear_ok rm pb db Hwf); try done. intros a Ha. by rewrite (rw_kind _ _ _ Hwf a a0).
  - destruct (linear_columns_ok rm pb db Hwf kmem_alloc kmem_fresh kmem_size m vs bad Hst) as (lb & m1 & E1 & Hll & Hcp). rewrite E1. cbn [mbind res_bind].
    pose proof (lin_map_wf rm pb db Hwf m vs bad Hst lb m1 Hll Hcp) as Hwf1. pose proof (lin_big rm pb db Hwf lb) as Hbig.
    destruct (reconstruct_linear_ok (lin_map rm lb) pb lb Hwf1) with (m := m1) (vs := vs) (bad := bad) (tgts := tgts) as (cs & m2 & E2 & Hl & Hs & Hr & Hdata & Ho); try done.
    + intros b [j Hb]%list_elem_of_lookup. destruct (lb_own rm pb db Hwf m lb m1 Hcp j b Hb) as (a & _ & Hown & _). destruct (own_linear _ _ Hown) as [Eu _]. unfold abd_is_linear. by rewrite Eu.
    + by apply (lin_state rm pb db Hwf m vs bad Hst).
    + rewrite Hbig. intros k a Ha Hk i Hi. assert (Hin : a ∈ pb ++ db) by (apply elem_of_app; left; by eapply list_elem_of_lookup_2). destruct (wf_pb rm pb db Hwf k a Ha) as [Hown _]. destruct (own_linear _ _ Hown) as [_ Esz].
      rewrite (cp_same _ _ _ _ Hcp) by (apply (lane_off pb db m vs bad Hst lb m1 Hcp a i Hin); lia). 1: by apply (Hpar k a). done.
    + rewrite E2. cbn [mbind res_bind]. assert (Hsame : forall l, p_blk l ∉ abd_blk <$> lb -> mbyte m2 l = mbyte m l).
      { intros l Hlb. rewrite <- (cp_same _ _ _ _ Hcp) by done. apply Ho. intros (b & Hlb' & (j & _ & Hb)%list_elem_of_omap)%list_elem_of_bind. assert (Hbin : b ∈ lb) by (by eapply list_elem_of_lookup_2).
        apply Hlb. rewrite (lb_blk rm pb db Hwf m lb m1 Hcp b l Hbin Hlb'). by apply list_elem_of_fmap_2. }
      destruct (restore_columns_ok rm pb db Hwf PAGESHIFT m vs bad Hst lb m1 Hll Hcp m2 Hdata Hsame) as (m3 & E3 & HR). rewrite E3. cbn [mbind res_bind].
      destruct (restored_data lb m1 m2 m3 Hll Hcp Hsame HR) as [Hd3 Ho3]. by exists cs, m3.
Qed.

End GeneralOk.
