(* ===== verification/RaidzMath.v ===== *)
(** * The RAID-Z mathematics: [module/zfs/vdev_raidz_math.c]

    Parity is computed and data recovered by one of several implementations, chosen
    by name or in turn, and by the original routines where an implementation has no
    method.  An implementation is a record of methods; [RaidzImpl] is what the code
    that calls them relies on, and the theorems on [vdev_raidz_generate_parity] and
    [vdev_raidz_reconstruct] are proved against it. *)

From stdpp Require Import gmap strings.
From S2P Require Import Prelude Bits Buffer Gf Memory Abd AbdIter RaidzMap RaidzParity RaidzReconst RaidzMatrix.

(** ** Implementations *)

Inductive raidz_math_gen_op : Set := RAIDZ_GEN_P | RAIDZ_GEN_PQ | RAIDZ_GEN_PQR.
Inductive raidz_rec_op : Set := RAIDZ_REC_P | RAIDZ_REC_Q | RAIDZ_REC_R | RAIDZ_REC_PQ | RAIDZ_REC_PR | RAIDZ_REC_QR | RAIDZ_REC_PQR.

Record raidz_impl_ops : Type := RaidzImplOps {
  impl_gen : raidz_math_gen_op -> option (mem -> raidz_map -> res mem);
  impl_rec : raidz_rec_op -> option (mem -> raidz_map -> list Z -> res (Z * mem));
  impl_supported : bool;
  impl_name : string
}.

(** Null methods stand for the original routines. *)
Definition vdev_raidz_original_impl : raidz_impl_ops := RaidzImplOps (fun _ => None) (fun _ => None) true "original".

(** [None] is [RAIDZ_ORIGINAL_IMPL]. *)
Definition vdev_raidz_math_generate (ops : raidz_impl_ops) (m : mem) (rm : raidz_map) : res (option mem) :=
  gen_parity ← (if rm_firstdatacol rm =? 1 then Ok (impl_gen ops RAIDZ_GEN_P)
                else if rm_firstdatacol rm =? 2 then Ok (impl_gen ops RAIDZ_GEN_PQ)
                else if rm_firstdatacol rm =? 3 then Ok (impl_gen ops RAIDZ_GEN_PQR)
                else Panic);
  match gen_parity with
  | None => Ok None
  | Some gen_parity => m ← gen_parity m rm; Ok (Some m)
  end.

Section Select.

Variables (ops : raidz_impl_ops) (parity_valid : list bool) (nbaddata : Z).

Abbreviation valid c := (deref (parity_valid !! c)).

Definition reconstruct_fun_p_sel : res (option (mem -> raidz_map -> list Z -> res (Z * mem))) :=
  if nbaddata =? 1 then p ← valid 0%nat; Ok (if (p : bool) then impl_rec ops RAIDZ_REC_P else None) else Ok None.

Definition reconstruct_fun_pq_sel : res (option (mem -> raidz_map -> list Z -> res (Z * mem))) :=
  if nbaddata =? 1 then
    p ← valid 0%nat;
    if (p : bool) then Ok (impl_rec ops RAIDZ_REC_P) else
    q ← valid 1%nat; Ok (if (q : bool) then impl_rec ops RAIDZ_REC_Q else None)
  else if nbaddata =? 2 then
    p ← valid 0%nat; q ← valid 1%nat; Ok (if (p : bool) && (q : bool) then impl_rec ops RAIDZ_REC_PQ else None)
  else Ok None.

Definition reconstruct_fun_pqr_sel : res (option (mem -> raidz_map -> list Z -> res (Z * mem))) :=
  if nbaddata =? 1 then
    p ← valid 0%nat;
    if (p : bool) then Ok (impl_rec ops RAIDZ_REC_P) else
    q ← valid 1%nat;
    if (q : bool) then Ok (impl_rec ops RAIDZ_REC_Q) else
    r ← valid 2%nat; Ok (if (r : bool) then impl_rec ops RAIDZ_REC_R else None)
  else if nbaddata =? 2 then
    p ← valid 0%nat; q ← valid 1%nat; r ← valid 2%nat;
    Ok (if (p : bool) && (q : bool) then impl_rec ops RAIDZ_REC_PQ
        else if p && (r : bool) then impl_rec ops RAIDZ_REC_PR
        else if q && r then impl_rec ops RAIDZ_REC_QR else None)
  else if nbaddata =? 3 then
    p ← valid 0%nat; q ← valid 1%nat; r ← valid 2%nat;
    Ok (if (p : bool) && (q : bool) && (r : bool) then impl_rec ops RAIDZ_REC_PQR else None)
  else Ok None.

End Select.

Definition vdev_raidz_math_reconstruct (ops : raidz_impl_ops) (m : mem) (rm : raidz_map) (parity_valid : list bool) (dt : list Z) (nbaddata : Z) : res (option (Z * mem)) :=
  rec_fn ← (if rm_firstdatacol rm =? 1 then reconstruct_fun_p_sel ops parity_valid nbaddata
            else if rm_firstdatacol rm =? 2 then reconstruct_fun_pq_sel ops parity_valid nbaddata
            else if rm_firstdatacol rm =? 3 then reconstruct_fun_pqr_sel ops parity_valid nbaddata
            else Panic);
  match rec_fn with
  | None => Ok None
  | Some rec_fn => r ← rec_fn m rm dt; Ok (Some r)
  end.

(** ** [vdev_raidz_generate_parity] and [vdev_raidz_reconstruct] *)

Definition vdev_raidz_generate_parity (ops : raidz_impl_ops) (m : mem) (rm : raidz_map) : res mem :=
  r ← vdev_raidz_math_generate ops m rm;
  match r with Some m => Ok m | None => generate_parity_original m rm end.

(** The targets so far, the parity columns that are valid, and how many columns of
    either kind are bad; [fd_t] are the targets the caller names that are left. *)
Record find_state : Type := FindState {
  fd_t : list Z;
  fd_tgts : list Z;
  fd_parity_valid : list bool;
  fd_nbadparity : Z;
  fd_nbaddata : Z
}.

(** [tgts[ntgts++] = c], in an array of [VDEV_RAIDZ_MAXPARITY] entries. *)
Definition add_target (s : find_state) (t : list Z) (c : Z) : res find_state :=
  if VDEV_RAIDZ_MAXPARITY <=? Z.of_nat (length (fd_tgts s)) then Panic else
  Ok (FindState t (fd_tgts s ++ [c]) (fd_parity_valid s) (fd_nbadparity s) (fd_nbaddata s)).

Definition find_column (rm : raidz_map) (c : Z) (s : find_state) : res find_state :=
  let s := if c <? rm_firstdatacol rm then FindState (fd_t s) (fd_tgts s) (fd_parity_valid s ++ [false]) (fd_nbadparity s) (fd_nbaddata s) else s in
  let other :=
    rc ← rm_col_at rm c;
    if negb (rc_error rc =? 0) then add_target s (fd_t s) c
    else if rm_firstdatacol rm <=? c then Ok (FindState (fd_t s) (fd_tgts s) (fd_parity_valid s) (fd_nbadparity s) (fd_nbaddata s - 1))
    else Ok (FindState (fd_t s) (fd_tgts s) (<[Z.to_nat c := true]> (fd_parity_valid s)) (fd_nbadparity s - 1) (fd_nbaddata s)) in
  match fd_t s with
  | t :: t' => if c =? t then add_target s t' c else other
  | [] => other
  end.

Definition find_targets (rm : raidz_map) (t : list Z) : res find_state :=
  for_range 0 (rm_cols rm) (find_column rm) (FindState t [] [] (rm_firstdatacol rm) (rm_cols rm - rm_firstdatacol rm)).

Section Reconstruct.

Variable PAGESHIFT : Z.
Variable kmem_alloc : mem -> Z -> Z * list Z.

Abbreviation general := (vdev_raidz_reconstruct_general PAGESHIFT kmem_alloc).

(** The original routines. *)
Definition reconstruct_original (m : mem) (rm : raidz_map) (s : find_state) : res (Z * mem) :=
  let dt := drop (Z.to_nat (fd_nbadparity s)) (fd_tgts s) in
  if fd_nbaddata s =? 1 then
    p ← deref (fd_parity_valid s !! 0%nat);
    if (p : bool) then vdev_raidz_reconstruct_p m rm dt else
    q ← deref (fd_parity_valid s !! 1%nat);
    if (q : bool) then vdev_raidz_reconstruct_q m rm dt else general m rm (fd_tgts s)
  else if fd_nbaddata s =? 2 then
    p ← deref (fd_parity_valid s !! 0%nat);
    q ← (if (p : bool) then deref (fd_parity_valid s !! 1%nat) else Ok false);
    if p && q then vdev_raidz_reconstruct_pq PAGESHIFT kmem_alloc m rm dt else general m rm (fd_tgts s)
  else general m rm (fd_tgts s).

Definition vdev_raidz_reconstruct (ops : raidz_impl_ops) (m : mem) (rm : raidz_map) (t : list Z) : res (Z * mem) :=
  s ← find_targets rm t;
  let dt := drop (Z.to_nat (fd_nbadparity s)) (fd_tgts s) in
  ret ← vdev_raidz_math_reconstruct ops m rm (fd_parity_valid s) dt (fd_nbaddata s);
  match ret with
  | Some r => Ok r
  | None => reconstruct_original m rm s
  end.

End Reconstruct.

(** ** What the code relies on *)

(** The parity column [k] holds what the data makes it. *)
Definition parity_good (rm : raidz_map) (pb : list abd) (m : mem) (vs : list (Z -> gf)) (k : nat) : Prop :=
  exists a, pb !! k = Some a /\ reads m (abd_lane a) 0 (raidz_big rm) (gfun (parity_at (Z.of_nat k) vs)).

Definition gen_parities (op : raidz_math_gen_op) : nat :=
  match op with RAIDZ_GEN_P => 1 | RAIDZ_GEN_PQ => 2 | RAIDZ_GEN_PQR => 3 end.

(** The parity columns a method uses: as many as the data columns it recovers. *)
Definition rec_parities (op : raidz_rec_op) : list nat :=
  match op with
  | RAIDZ_REC_P => [0] | RAIDZ_REC_Q => [1] | RAIDZ_REC_R => [2]
  | RAIDZ_REC_PQ => [0; 1] | RAIDZ_REC_PR => [0; 2] | RAIDZ_REC_QR => [1; 2]
  | RAIDZ_REC_PQR => [0; 1; 2]
  end%nat.

(** Each method an implementation has generates the parity, respectively recovers
    the data, of every well-formed map; it writes to nothing else. *)
Class RaidzImpl (ops : raidz_impl_ops) : Prop := {
  gen_law op f rm pb db m vs :
    impl_gen ops op = Some f -> raidz_wf rm pb db -> length pb = gen_parities op ->
    (forall a, a ∈ pb -> mapped m (abd_lane a) 0 (raidz_big rm)) -> raidz_data m db vs ->
    exists m', f m rm = Ok m' /\ parity_holds rm pb m' vs /\ only_writes pb m m';
  rec_law op f rm pb db m vs bad :
    impl_rec ops op = Some f -> raidz_wf rm pb db -> rec_state m pb db vs bad ->
    StronglySorted lt bad -> Forall (fun j => (j < length db)%nat) bad -> length bad = length (rec_parities op) ->
    Forall (parity_good rm pb m vs) (rec_parities op) ->
    exists code m', f m rm ((fun j => rm_firstdatacol rm + Z.of_nat j) <$> bad) = Ok (code, m') /\
      0 < code /\ data_held m' db vs /\ only_writes (omap (fun j => db !! j) bad) m m'
}.

#[export] Instance original_spec : RaidzImpl vdev_raidz_original_impl.
Proof. split; intros; discriminate. Qed.

(** ** The columns that are lost *)

Definition col_error (rm : raidz_map) (c : Z) : Z := match rm_col rm !! Z.to_nat c with Some rc => rc_error rc | None => 0 end.

(** Those the caller names and those with an error. *)
Definition is_lost (rm : raidz_map) (t : list Z) (c : Z) : Prop := c ∈ t \/ col_error rm c <> 0.
#[export] Instance is_lost_dec rm t c : Decision (is_lost rm t c).
Proof. unfold is_lost. apply _. Defined.

Definition lost (rm : raidz_map) (t : list Z) : list Z := filter (is_lost rm t) (seqZ 0 (rm_cols rm)).

(** The data columns that are lost. *)
Definition lost_data (rm : raidz_map) (t : list Z) : list nat :=
  (fun c => Z.to_nat (c - rm_firstdatacol rm)) <$> filter (fun c => rm_firstdatacol rm <= c) (lost rm t).

(** ** The search for the targets *)

Lemma seqZ_snoc n : 0 <= n -> seqZ 0 (n + 1) = seqZ 0 n ++ [n].
Proof. intros Hn. by rewrite seqZ_app by lia. Qed.

Lemma seqZ_sorted lo n : StronglySorted Z.lt (seqZ lo n).
Proof.
  destruct (Z.le_gt_cases 0 n) as [Hn|Hn]; [|rewrite seqZ_nil by lia; constructor].
  revert lo. pattern n. apply natlike_ind; [intros lo; rewrite seqZ_nil by lia; constructor| |done].
  intros k Hk IH lo. rewrite seqZ_cons by lia. constructor; [replace (Z.pred (Z.succ k)) with k by lia; apply IH|].
  apply Forall_forall. intros x Hx%elem_of_seqZ. lia.
Qed.

(** The targets that are left start with the column at hand, or are behind it. *)
Lemma next_target t c t0 t1 : StronglySorted Z.lt t -> filter (fun x => c <= x) t = t0 :: t1 ->
  c <= t0 /\ (c = t0 -> filter (fun x => c + 1 <= x) t = t1) /\ (c <> t0 -> c ∉ t /\ filter (fun x => c + 1 <= x) t = t0 :: t1).
Proof.
  intros Hs E. assert (Hin : t0 ∈ filter (fun x => c <= x) t) by (rewrite E; left). apply list_elem_of_filter in Hin as [Hc Hin].
  assert (Ef : filter (fun x => c + 1 <= x) t = filter (fun x => c + 1 <= x) (t0 :: t1)).
  { rewrite <- E, list_filter_filter. apply list_filter_iff. intros x. lia. }
  pose proof (StronglySorted_filter (fun x => c <= x) t Hs) as Hs'. rewrite E in Hs'. inversion Hs' as [|? ? _ HF]; subst. rewrite Forall_forall in HF.
  split; [done|split].
  - intros ->. rewrite Ef, filter_cons, decide_False by lia. apply filter_true. apply Forall_forall. intros x Hx. specialize (HF x Hx). lia.
  - intros Hne. split.
    + intros Hct. assert (Hx : c ∈ filter (fun x => c <= x) t) by (apply list_elem_of_filter; split; [lia|done]). rewrite E in Hx.
      apply elem_of_cons in Hx as [->|Hx]; [done|]. specialize (HF c Hx). lia.
    + rewrite Ef, filter_cons, decide_True by lia. f_equal. apply filter_true. apply Forall_forall. intros x Hx. specialize (HF x Hx). lia.
Qed.

Section Targets.

Context (rm : raidz_map) (t : list Z).
Hypothesis Hfirst : 0 <= rm_firstdatacol rm <= rm_cols rm.
Hypothesis Hcols : rm_cols rm <= Z.of_nat (length (rm_col rm)).
Hypothesis Ht : StronglySorted Z.lt t.
Hypothesis Hrange : Forall (fun c => 0 <= c < rm_cols rm) t.

Abbreviation first := (rm_firstdatacol rm).
Abbreviation P := (is_lost rm t).
Abbreviation lostp := (filter (fun c => c < first) (lost rm t)).
Abbreviation lostd := (filter (fun c => first <= c) (lost rm t)).

(** The columns before [c] have been looked at. *)
Record found (c : Z) (s : find_state) : Prop := {
  fo_t : fd_t s = filter (fun x => c <= x) t;
  fo_tgts : fd_tgts s = filter P (seqZ 0 c);
  fo_valid : fd_parity_valid s = (fun c => negb (bool_decide (P c))) <$> seqZ 0 (c `min` first);
  fo_parity : fd_nbadparity s = first - Z.of_nat (length (filter (fun c => c < first) (filter (fun c => ~ P c) (seqZ 0 c))));
  fo_data : fd_nbaddata s = rm_cols rm - first - Z.of_nat (length (filter (fun c => first <= c) (filter (fun c => ~ P c) (seqZ 0 c))))
}.

Lemma found_start : found 0 (FindState t [] [] first (rm_cols rm - first)).
Proof using Hfirst Hrange.
  split; cbn [fd_tgts fd_t fd_parity_valid fd_nbadparity fd_nbaddata]; rewrite ?Z.min_l, ?seqZ_nil by lia; [|done|done|change (filter _ (filter _ [])) with (@nil Z); cbn; lia..].
  symmetry. apply filter_true. eapply Forall_impl; [exact Hrange|]. intros c Hc. cbv beta in *. lia.
Qed.

Lemma found_lost c s t' : 0 <= c < rm_cols rm -> found c s -> P c -> t' = filter (fun x => c + 1 <= x) t -> (length (lost rm t) <= 3)%nat ->
  exists s', add_target (if c <? first then FindState (fd_t s) (fd_tgts s) (fd_parity_valid s ++ [false]) (fd_nbadparity s) (fd_nbaddata s) else s) t' c = Ok s' /\ found (c + 1) s'.
Proof.
  intros Hc [Ft Fg Fv Fp Fd] HP -> Hlen. assert (Hlt : (length (filter P (seqZ 0 c)) < 3)%nat).
  { unfold lost in Hlen. replace (rm_cols rm) with (c + 1 + (rm_cols rm - c - 1)) in Hlen by lia. rewrite seqZ_app, seqZ_snoc, !filter_app, !length_app, filter_singleton_True in Hlen by (done || lia). cbn in Hlen. lia. }
  unfold add_target. destruct (Z.ltb_spec c first) as [Hcf|Hcf]; cbn [fd_tgts fd_t fd_parity_valid fd_nbadparity fd_nbaddata]; rewrite Fg, (proj2 (Z.leb_gt _ _)) by (change VDEV_RAIDZ_MAXPARITY with 3; lia).
  all: eexists; split; [done|]; split; cbn [fd_tgts fd_t fd_parity_valid fd_nbadparity fd_nbaddata].
  all: rewrite ?(Z.min_l (c + 1) first), ?(Z.min_r (c + 1) first) by lia; rewrite ?seqZ_snoc, ?filter_app, ?fmap_app, ?filter_singleton_True, ?filter_singleton_False by (done || lia || tauto); rewrite ?app_nil_r; try done.
  - rewrite Fv, Z.min_l by lia. cbn. by rewrite bool_decide_true by done.
  - rewrite Fv, Z.min_r by lia. done.
Qed.

Lemma found_good c s : 0 <= c < rm_cols rm -> found c s -> ~ P c -> fd_t s = filter (fun x => c + 1 <= x) t ->
  found (c + 1) (if first <=? c then FindState (fd_t s) (fd_tgts s) (fd_parity_valid s) (fd_nbadparity s) (fd_nbaddata s - 1)
    else FindState (fd_t s) (fd_tgts s) (<[Z.to_nat c := true]> (fd_parity_valid s ++ [false])) (fd_nbadparity s - 1) (fd_nbaddata s)).
Proof.
  intros Hc [Ft Fg Fv Fp Fd] HP Et. destruct (Z.leb_spec first c) as [Hcf|Hcf]; split; cbn [fd_tgts fd_t fd_parity_valid fd_nbadparity fd_nbaddata]; try done.
  all: rewrite ?(Z.min_l (c + 1) first), ?(Z.min_r (c + 1) first) by lia; rewrite ?seqZ_snoc, ?filter_app, ?fmap_app, ?filter_singleton_True, ?filter_singleton_False, ?filter_app by (done || lia || tauto); rewrite ?app_nil_r; try done.
  - rewrite Fv, Z.min_r by lia. done.
  - rewrite Fd, length_app. cbn [length]. lia.
  - rewrite Fv, Z.min_l, insert_app_r_alt by (rewrite ?length_fmap, ?length_seqZ; lia). rewrite length_fmap, length_seqZ. f_equal. replace (Z.to_nat c - Z.to_nat c)%nat with 0%nat by lia. cbn. by rewrite bool_decide_false by done.
  - rewrite Fp, length_app. cbn [length]. lia.
Qed.

Lemma find_column_ok c s : 0 <= c < rm_cols rm -> found c s -> (length (lost rm t) <= 3)%nat -> exists s', find_column rm c s = Ok s' /\ found (c + 1) s'.
Proof.
  intros Hc Hf Hlen. unfold find_column. set (s0 := if c <? first then _ else s).
  assert (Et0 : fd_t s0 = fd_t s) by (unfold s0; by destruct (c <? first)).
  destruct (lookup_lt_is_Some_2 (rm_col rm) (Z.to_nat c) ltac:(lia)) as [rc Hrc].
  assert (Erc : rm_col_at rm c = Ok rc) by (unfold rm_col_at; by rewrite Hrc).
  assert (Eerr : col_error rm c = rc_error rc) by (unfold col_error; by rewrite Hrc).
  assert (Hother : c ∉ t -> fd_t s = filter (fun x => c + 1 <= x) t -> exists s', (rc ← rm_col_at rm c; if negb (rc_error rc =? 0) then add_target s0 (fd_t s0) c
    else if first <=? c then Ok (FindState (fd_t s0) (fd_tgts s0) (fd_parity_valid s0) (fd_nbadparity s0) (fd_nbaddata s0 - 1))
    else Ok (FindState (fd_t s0) (fd_tgts s0) (<[Z.to_nat c := true]> (fd_parity_valid s0)) (fd_nbadparity s0 - 1) (fd_nbaddata s0))) = Ok s' /\ found (c + 1) s').
  { intros Hnt Et. rewrite Erc. cbn [mbind res_bind]. destruct (Z.eqb_spec (rc_error rc) 0) as [E0|E0]; cbn [negb].
    - pose proof (found_good c s Hc Hf) as Hg. eexists. split; [|apply Hg; [|done]; unfold is_lost; rewrite Eerr; tauto].
      unfold s0. destruct (Z.leb_spec first c) as [Hfc|Hfc]; [by rewrite (proj2 (Z.ltb_ge _ _))|by rewrite (proj2 (Z.ltb_lt _ _))].
    - rewrite Et0. apply found_lost; try done. right. by rewrite Eerr. }
  destruct (fd_t s0) as [|t0 t1] eqn:Es0; rewrite (fo_t _ _ Hf) in Et0.
  - apply Hother; rewrite ?(fo_t _ _ Hf).
    + intros Hin. assert (H : c ∈ filter (fun x => c <= x) t) by (apply list_elem_of_filter; split; [lia|done]). rewrite <- Et0 in H. by apply elem_of_nil in H.
    + rewrite <- Et0. symmetry. apply filter_false, Forall_forall. intros x Hx Hcx. assert (H : x ∈ filter (fun x => c <= x) t) by (apply list_elem_of_filter; split; [lia|done]). rewrite <- Et0 in H. by apply elem_of_nil in H.
  - symmetry in Et0. destruct (next_target t c t0 t1 Ht Et0) as (Hle & Heq & Hne). destruct (Z.eqb_spec c t0) as [E|E].
    + apply found_lost; try done; [left|by rewrite Heq]. assert (H : t0 ∈ filter (fun x => c <= x) t) by (rewrite Et0; left). apply list_elem_of_filter in H as [_ H]. by rewrite E.
    + destruct (Hne E) as [Hnt Ef]. apply Hother; [done|]. by rewrite (fo_t _ _ Hf), Et0, Ef.
Qed.

(** The loop finds the lost columns, and counts them. *)
Lemma find_targets_ok : (length (lost rm t) <= 3)%nat -> find_targets rm t =
  Ok (FindState [] (lost rm t) ((fun c => negb (bool_decide (P c))) <$> seqZ 0 first) (Z.of_nat (length lostp)) (Z.of_nat (length lostd))).
Proof.
  intros Hlen. unfold find_targets. destruct (for_range_inv found 0 (rm_cols rm) (find_column rm) (FindState t [] [] first (rm_cols rm - first))) as (s & E & [Ft Fg Fv Fp Fd]); [lia| |apply found_start|].
  { intros c s Hc Hf. apply find_column_ok; done || lia. }
  rewrite E. f_equal. destruct s as [st sg sv sp sd]. cbn in *. rewrite Z.min_r in Fv by lia. subst sg sv.
  assert (Hcnt : forall (R : Z -> Prop) `{!forall c, Decision (R c)} l, length (filter R l) = (length (filter R (filter P l)) + length (filter R (filter (fun c => ~ P c) l)))%nat).
  { intros R HR l. induction l as [|c l IH]; [done|]. rewrite !filter_cons. destruct (decide (R c)), (decide (P c)), (decide (~ P c)); rewrite ?filter_cons, ?decide_True, ?decide_False by (done || tauto); cbn; lia || tauto. }
  pose proof (Hcnt (fun c => c < first) _ (seqZ 0 (rm_cols rm))) as Hp. pose proof (Hcnt (fun c => first <= c) _ (seqZ 0 (rm_cols rm))) as Hd.
  assert (Esplit : seqZ 0 (rm_cols rm) = seqZ 0 first ++ seqZ first (rm_cols rm - first)) by (rewrite <- seqZ_app by lia; f_equal; lia).
  assert (Lp : length (filter (fun c => c < first) (seqZ 0 (rm_cols rm))) = Z.to_nat first).
  { rewrite Esplit, filter_app, (filter_true _ (seqZ 0 first)), (filter_false _ (seqZ first _)), app_nil_r; [by rewrite length_seqZ|apply Forall_forall; intros x Hx%elem_of_seqZ; lia..]. }
  assert (Ld : length (filter (fun c => first <= c) (seqZ 0 (rm_cols rm))) = Z.to_nat (rm_cols rm - first)).
  { rewrite Esplit, filter_app, (filter_false _ (seqZ 0 first)), (filter_true _ (seqZ first _)); [by rewrite app_nil_l, length_seqZ|apply Forall_forall; intros x Hx%elem_of_seqZ; lia..]. }
  f_equal.
  - rewrite Ft. apply filter_false. eapply Forall_impl; [exact Hrange|]. intros c Hc. cbv beta in *. lia.
  - unfold lost. lia.
  - unfold lost. lia.
Qed.

(** The targets are in order: the parity columns, then the data columns. *)
Lemma lost_sorted : StronglySorted Z.lt (lost rm t).
Proof. apply StronglySorted_filter, seqZ_sorted. Qed.

Lemma lost_split : lost rm t = lostp ++ lostd.
Proof.
  assert (forall l, StronglySorted Z.lt l -> l = filter (fun c => c < first) l ++ filter (fun c => first <= c) l) as H; [|apply H, lost_sorted].
  induction 1 as [|c l Hl IH HF]; [done|]. rewrite !filter_cons. destruct (decide (c < first)).
  - rewrite (decide_False (P := first <= c)) by lia. cbn. by f_equal.
  - rewrite (decide_True (P := first <= c)), filter_false by (lia || (eapply Forall_impl; [exact HF|]; intros x Hx; cbv beta in *; lia)). cbn. f_equal. symmetry. apply filter_true.
    eapply Forall_impl; [exact HF|]. intros x Hx. cbv beta in *. lia.
Qed.

Lemma lost_dt : drop (length lostp) (lost rm t) = (fun j => first + Z.of_nat j) <$> lost_data rm t.
Proof.
  rewrite (lost_split : lost rm t = _) at 2. rewrite drop_app_length. unfold lost_data. rewrite <- list_fmap_compose. symmetry. rewrite <- (list_fmap_id lostd) at 2. apply list_fmap_ext. intros i c Hc%list_elem_of_lookup_2. apply list_elem_of_filter in Hc as [Hc _]. cbn. lia.
Qed.

Lemma lost_bad : (fun c => c - first) <$> lostd = Z.of_nat <$> lost_data rm t.
Proof. unfold lost_data. rewrite <- list_fmap_compose. apply list_fmap_ext. intros i c Hc%list_elem_of_lookup_2. apply list_elem_of_filter in Hc as [Hc _]. cbn. lia. Qed.

Lemma lost_data_sorted : StronglySorted lt (lost_data rm t).
Proof.
  unfold lost_data. pose proof (StronglySorted_filter (fun c => first <= c) _ lost_sorted) as Hs. assert (HF : Forall (fun c => first <= c) lostd) by (apply Forall_forall; by intros c [? _]%list_elem_of_filter).
  induction Hs as [|c l Hl IH HF']; [constructor|]. inversion HF as [|? ? Hc Hl']; subst. cbn. constructor; [by apply IH|]. apply Forall_fmap. rewrite Forall_forall in HF' |- *. intros x Hx. cbn. specialize (HF' x Hx). rewrite Forall_forall in Hl'. specialize (Hl' x Hx). cbv beta in Hl'. lia.
Qed.

Lemma lost_range : Forall (fun c => 0 <= c < rm_cols rm) (lost rm t).
Proof. apply Forall_forall. intros c [_ Hc%elem_of_seqZ]%list_elem_of_filter. lia. Qed.

Lemma lost_elem c : 0 <= c < rm_cols rm -> c ∈ lost rm t <-> P c.
Proof. intros Hc. unfold lost. rewrite list_elem_of_filter, elem_of_seqZ. intuition lia. Qed.

Lemma lost_data_range : Forall (fun j => (j < Z.to_nat (rm_cols rm - first))%nat) (lost_data rm t).
Proof. unfold lost_data. apply Forall_fmap, Forall_forall. intros c [Hc Hin]%list_elem_of_filter. pose proof lost_range as HF. rewrite Forall_forall in HF. specialize (HF c Hin). cbn. lia. Qed.

End Targets.

(** ** Generation *)

(** The parity of a map, with an implementation whose methods generate it. *)
Lemma generate_parity_by ops rm pb db m vs :
  (forall op f, impl_gen ops op = Some f -> length pb = gen_parities op ->
     exists m', f m rm = Ok m' /\ parity_holds rm pb m' vs /\ only_writes pb m m') ->
  raidz_wf rm pb db -> (forall a, a ∈ pb -> mapped m (abd_lane a) 0 (raidz_big rm)) -> raidz_data m db vs ->
  exists m', vdev_raidz_generate_parity ops m rm = Ok m' /\ parity_holds rm pb m' vs /\ only_writes pb m m'.
Proof.
  intros Hgen Hwf Hmap Hdata. pose proof (rw_first _ _ _ Hwf) as [Ef Hf]. change VDEV_RAIDZ_MAXPARITY with 3 in Hf.
  assert (Hop : exists op, length pb = gen_parities op /\ vdev_raidz_math_generate ops m rm = match impl_gen ops op with None => Ok None | Some f => m ← f m rm; Ok (Some m) end).
  { unfold vdev_raidz_math_generate. destruct (Z.eqb_spec (rm_firstdatacol rm) 1); [exists RAIDZ_GEN_P; split; [cbn; lia|done]|]. destruct (Z.eqb_spec (rm_firstdatacol rm) 2); [exists RAIDZ_GEN_PQ; split; [cbn; lia|done]|].
    destruct (Z.eqb_spec (rm_firstdatacol rm) 3); [exists RAIDZ_GEN_PQR; split; [cbn; lia|done]|lia]. }
  destruct Hop as (op & Hlen & E). unfold vdev_raidz_generate_parity. rewrite E. destruct (impl_gen ops op) as [f|] eqn:Eop; [|by apply (generate_original_ok rm pb db)].
  destruct (Hgen op f Eop Hlen) as (m' & E' & H). rewrite E'. by exists m'.
Qed.

Lemma generate_parity_ok ops `{!RaidzImpl ops} rm pb db m vs :
  raidz_wf rm pb db -> (forall a, a ∈ pb -> mapped m (abd_lane a) 0 (raidz_big rm)) -> raidz_data m db vs ->
  exists m', vdev_raidz_generate_parity ops m rm = Ok m' /\ parity_holds rm pb m' vs /\ only_writes pb m m'.
Proof. intros Hwf Hmap Hdata. apply (generate_parity_by ops rm pb db); try done. intros op f Eop Hl. by apply (gen_law op f rm pb db). Qed.

(** ** Reconstruction *)

(** The first [n] parity columns that are valid. *)
Definition chosen_valid (valid : list bool) (n k : nat) : Prop := valid !! k = Some true /\ (k < n + length (filter (fun b => b = false) (take k valid)))%nat.

(** The method chosen uses the first valid parity columns, as many as there are columns
    to recover. *)
Lemma method_select ops m rm valid dt n : zlen valid = rm_firstdatacol rm -> 1 <= rm_firstdatacol rm <= 3 ->
  vdev_raidz_math_reconstruct ops m rm valid dt n = Ok None \/
  exists op f, impl_rec ops op = Some f /\ n = zlen (rec_parities op) /\ Forall (chosen_valid valid (Z.to_nat n)) (rec_parities op) /\
    vdev_raidz_math_reconstruct ops m rm valid dt n = (r ← f m rm dt; Ok (Some r)).
Proof.
  intros Hl Hf. assert (Hdone : forall op, n = zlen (rec_parities op) -> Forall (chosen_valid valid (Z.to_nat n)) (rec_parities op) ->
    vdev_raidz_math_reconstruct ops m rm valid dt n = (match impl_rec ops op with None => Ok None | Some f => r ← f m rm dt; Ok (Some r) end) ->
    vdev_raidz_math_reconstruct ops m rm valid dt n = Ok None \/
    exists op f, impl_rec ops op = Some f /\ n = zlen (rec_parities op) /\ Forall (chosen_valid valid (Z.to_nat n)) (rec_parities op) /\
      vdev_raidz_math_reconstruct ops m rm valid dt n = (r ← f m rm dt; Ok (Some r))).
  { intros op Hn Hv E. destruct (impl_rec ops op) as [f|] eqn:Eop; [|by left]. right. by exists op, f. }
  unfold vdev_raidz_math_reconstruct, reconstruct_fun_p_sel, reconstruct_fun_pq_sel, reconstruct_fun_pqr_sel in *.
  destruct valid as [|p [|q [|r [|? ?]]]]; cbn [length] in Hl; [lia| | | |lia]; rewrite <- Hl in *; cbn [Z.eqb Pos.eqb Z.of_nat Pos.of_succ_nat Pos.succ lookup list_lookup] in *.
  all: destruct (Z.eqb_spec n 1) as [->|]; [|destruct (Z.eqb_spec n 2) as [->|]; [|destruct (Z.eqb_spec n 3) as [->|]]]; try by left.
  all: change (Z.to_nat 1) with 1%nat in *; change (Z.to_nat 2) with 2%nat in *; change (Z.to_nat 3) with 3%nat in *; repeat match goal with b : bool |- _ => destruct b end; try by left.
  all: first [by apply (Hdone RAIDZ_REC_P); [|by repeat constructor|]|by apply (Hdone RAIDZ_REC_Q); [|by repeat constructor|]|by apply (Hdone RAIDZ_REC_R); [|by repeat constructor|]
    |by apply (Hdone RAIDZ_REC_PQ); [|by repeat constructor|]|by apply (Hdone RAIDZ_REC_PR); [|by repeat constructor|]|by apply (Hdone RAIDZ_REC_QR); [|by repeat constructor|]|by apply (Hdone RAIDZ_REC_PQR); [|by repeat constructor|]].
Qed.

Section ReconstructOk.

Context (PAGESHIFT : Z) (kmem_alloc : mem -> Z -> Z * list Z).
Hypothesis kmem_fresh : forall m n, m !! (kmem_alloc m n).1 = None.
Hypothesis kmem_size : forall m n, length (kmem_alloc m n).2 = Z.to_nat n.
Context (ops : raidz_impl_ops) `{!RaidzImpl ops}.
Context (rm : raidz_map) (pb db : list abd) (m : mem) (vs : list (Z -> gf)) (t : list Z).

(** What [vdev_raidz_reconstruct] is called with: a map, targets in order, no more
    columns lost than there is parity, and the other data columns and the parity columns
    used intact. *)
Record recoverable : Prop := {
  rv_wf : raidz_wf rm pb db;
  rv_sorted : StronglySorted Z.lt t;
  rv_range : Forall (fun c => 0 <= c < rm_cols rm) t;
  rv_count : Z.of_nat (length (lost rm t)) <= rm_firstdatacol rm;
  rv_state : rec_state m pb db vs (lost_data rm t);
  rv_parity : forall k, (k < length pb)%nat -> chosen_parity (lost rm t) (length (lost_data rm t)) (Z.of_nat k) -> parity_good rm pb m vs k
}.

Hypothesis Hrec : recoverable.

Abbreviation first := (rm_firstdatacol rm).
Abbreviation bad := (lost_data rm t).
Abbreviation valid := ((fun c => negb (bool_decide (is_lost rm t c))) <$> seqZ 0 first).
Abbreviation recovered_by r := (exists code m', r = Ok (code, m') /\ (bad = [] \/ 0 < code) /\ data_held m' db vs /\ only_writes (omap (fun j => db !! j) bad) m m').

Lemma map_geometry : 0 <= first <= rm_cols rm /\ rm_cols rm <= Z.of_nat (length (rm_col rm)) /\ 1 <= first <= 3 /\ Z.to_nat (rm_cols rm - first) = length db /\ Z.to_nat first = length pb.
Proof using Hrec.
  destruct Hrec as [Hwf _ _ _ _ _]. pose proof (rw_cols _ _ _ Hwf) as [Ec Hc]. pose proof (rw_first _ _ _ Hwf) as [Ef Hf]. change VDEV_RAIDZ_MAXPARITY with 3 in Hf.
  pose proof (f_equal length (rw_abds _ _ _ Hwf)) as El. rewrite !length_fmap, length_take, length_app in El. lia.
Qed.

Lemma valid_lookup k : (k < length pb)%nat -> valid !! k = Some (negb (bool_decide (is_lost rm t (Z.of_nat k)))).
Proof using Hrec. intros Hk. destruct map_geometry as (_ & _ & _ & _ & Ef). by rewrite list_lookup_fmap, lookup_seqZ_lt by lia. Qed.

(** A parity column that is among the first that are valid is good. *)
Lemma lost_below k : (k <= length pb)%nat -> length (filter (fun b => b = false) (take k valid)) = length (filter (fun c => c < Z.of_nat k) (lost rm t)).
Proof using Hrec.
  intros Hk. destruct map_geometry as (Hf & _ & _ & _ & Ef). replace (take k valid) with ((fun c => negb (bool_decide (is_lost rm t c))) <$> seqZ 0 (Z.of_nat k)).
  2:{ rewrite <- fmap_take. f_equal. replace first with (Z.of_nat k + (first - Z.of_nat k)) by lia. rewrite seqZ_app by lia. rewrite take_app_length' by (rewrite length_seqZ; lia). done. }
  unfold lost. rewrite list_filter_filter. replace (rm_cols rm) with (Z.of_nat k + (rm_cols rm - Z.of_nat k)) by lia. rewrite seqZ_app, filter_app, (filter_false _ (seqZ (0 + _) _)), app_nil_r by (try lia; apply Forall_forall; intros c Hc%elem_of_seqZ; lia).
  assert (HF : Forall (fun c => c < Z.of_nat k) (seqZ 0 (Z.of_nat k))) by (apply Forall_forall; intros c Hc%elem_of_seqZ; lia).
  induction HF as [|c l Hc _ IH]; [done|]. cbn [fmap list_fmap]. rewrite !filter_cons. destruct (decide (is_lost rm t c)) as [Hl|Hl].
  - rewrite bool_decide_eq_true_2 by done. rewrite !decide_True by done. cbn [length]. by rewrite IH.
  - rewrite bool_decide_eq_false_2 by done. rewrite decide_False, decide_False by (done || tauto). exact IH.
Qed.

Lemma chosen_good k : chosen_valid valid (length bad) k -> (k < length pb)%nat /\ parity_good rm pb m vs k.
Proof using Hrec.
  intros [Hv Hn]. destruct map_geometry as (Hf & Hc & _ & _ & Ef). assert (Hk : (k < length pb)%nat) by (apply lookup_lt_Some in Hv; rewrite length_fmap, length_seqZ in Hv; lia).
  split; [done|]. rewrite valid_lookup in Hv by done. injection Hv as Hv. apply negb_true_iff, bool_decide_eq_false in Hv. rewrite lost_below in Hn by lia.
  apply (rv_parity Hrec); [done|]. split; [rewrite lost_elem by lia; done|lia].
Qed.

Lemma method_ok op f : impl_rec ops op = Some f -> length bad = length (rec_parities op) -> Forall (chosen_valid valid (length bad)) (rec_parities op) ->
  recovered_by (f m rm ((fun j => first + Z.of_nat j) <$> bad)).
Proof using Hrec RaidzImpl0.
  intros Eop Hlen Hv. destruct map_geometry as (Hf & Hc & _ & Ed & _). destruct Hrec as [Hwf _ _ _ Hst _]. destruct (rec_law op f rm pb db m vs bad Eop Hwf Hst) as (code & m' & E & H0 & H); [by apply lost_data_sorted| |done| |exists code, m'; split; [done|by split; [right|]]].
  - rewrite <- Ed. by apply lost_data_range.
  - eapply Forall_impl; [exact Hv|]. intros k Hk. by apply chosen_good.
Qed.

Lemma general_ok : recovered_by (vdev_raidz_reconstruct_general PAGESHIFT kmem_alloc m rm (lost rm t)).
Proof using Hrec kmem_fresh kmem_size.
  destruct map_geometry as (Hf & Hc & _ & Ed & Ef). pose proof Hrec as [Hwf Hs Hr Hn Hst Hp].
  destruct (reconstruct_general_ok PAGESHIFT kmem_alloc kmem_fresh kmem_size rm pb db Hwf m vs bad (lost rm t) Hst) as (cs & m' & E & Hl & _ & Hcs & H); [by apply lost_sorted|by apply lost_range|done|by apply lost_bad| |].
  2:{ exists (code_of cs), m'. split_and!; try apply H; [done|]. destruct cs as [|c cs]; [left; by apply nil_length_inv|]. right. apply code_pos; [done|]. eapply Forall_impl; [exact Hcs|]. intros c' [? _]. lia. }
  intros k a Ha Hk. destruct (Hp k) as (a' & Ha' & H); [by eapply lookup_lt_Some|done|]. rewrite Ha in Ha'. by injection Ha' as <-.
Qed.

Abbreviation found_state := (FindState [] (lost rm t) valid (Z.of_nat (length (filter (fun c => c < first) (lost rm t)))) (Z.of_nat (length bad))).

Lemma found_targets : find_targets rm t = Ok found_state /\ drop (Z.to_nat (fd_nbadparity found_state)) (lost rm t) = (fun j => first + Z.of_nat j) <$> bad.
Proof using Hrec.
  destruct map_geometry as (Hf & Hc & H3 & _ & _). destruct Hrec as [_ Hs Hr Hn _ _]. split.
  - rewrite find_targets_ok by (done || lia). unfold lost_data. by rewrite length_fmap.
  - cbn [fd_nbadparity]. rewrite Nat2Z.id. by apply lost_dt.
Qed.

(** There are enough valid parity columns. *)
Lemma enough_valid : zlen bad + zlen (filter (fun c => c < first) (lost rm t)) <= zlen pb.
Proof using Hrec.
  destruct map_geometry as (_ & _ & _ & _ & Ef). pose proof (rv_count Hrec) as Hn. pose proof (split_length first (lost rm t)) as Hs. unfold lost_data. rewrite length_fmap. lia.
Qed.

Lemma original_ok : recovered_by (reconstruct_original PAGESHIFT kmem_alloc m rm found_state).
Proof using Hrec kmem_fresh kmem_size.
  pose proof found_targets as [_ Edt]. destruct map_geometry as (Hf & _ & H13 & Ed & Efp). pose proof enough_valid as Hen. pose proof general_ok as Hgen. pose proof chosen_good as Hvg.
  pose proof (rv_wf Hrec) as Hwf. pose proof (rv_state Hrec) as Hst. pose proof (rs_len _ _ _ _ _ Hst) as Hlen.
  pose proof (lost_data_range rm t) as Hbr. rewrite Ed in Hbr. pose proof (lost_data_sorted rm t) as Hbs. cbn [fd_nbadparity] in Edt.
  assert (Hv0 : valid !! 0%nat = Some (negb (bool_decide (is_lost rm t 0)))) by (apply (valid_lookup 0); destruct (rw_first _ _ _ Hwf); lia).
  unfold reconstruct_original. cbn [fd_nbadparity fd_nbaddata fd_tgts fd_parity_valid]. rewrite Edt. clear Edt.
  destruct bad as [|x [|y [|z l]]]; cbn [length fmap list_fmap]; change (Z.of_nat 1 =? 1) with true; change (Z.of_nat 2 =? 1) with false; change (Z.of_nat 2 =? 2) with true.
  - exact Hgen.
  - cbv iota. inversion Hbr as [|? ? Hx _]; subst. cbv beta in Hx. destruct (lookup_lt_is_Some_2 db x Hx) as [ax Hax]. destruct (lookup_lt_is_Some_2 vs x ltac:(lia)) as [vx Hvx]. cbn [omap list_omap] in Hgen |- *. rewrite Hax in Hgen |- *.
    rewrite Hv0. cbn [deref mbind res_bind]. destruct (negb (bool_decide (is_lost rm t 0))) eqn:E0.
    + destruct (Hvg 0%nat (conj Hv0 ltac:(apply Nat.lt_0_succ))) as (_ & ap & Hap & Hp). destruct (reconstruct_p_ok rm pb db Hwf m vs x ax vx Hst Hax Hvx [first + Z.of_nat x] ap Hap Hp eq_refl) as (m' & E & H). exists 1, m'. split; [done|]. by split; [right|].
    + apply negb_false_iff, bool_decide_eq_true in E0. assert (H2 : (1 < length pb)%nat).
      { assert (H0 : 0 ∈ filter (fun c => c < first) (lost rm t)) by (apply list_elem_of_filter; split; [lia|apply lost_elem; done || lia]). destruct (filter _ (lost rm t)); [by apply elem_of_nil in H0|]. cbn in Hen. lia. }
      pose proof (valid_lookup 1%nat H2) as Hv1. rewrite Hv1. cbn [deref mbind res_bind]. destruct (negb (bool_decide (is_lost rm t (Z.of_nat 1)))) eqn:E1; [|exact Hgen].
      destruct (Hvg 1%nat) as (_ & aq & Haq & Hq); [split; [done|]; rewrite (take_S_r _ 0 false) by done; rewrite take_0; change (length [x] + _)%nat with 2%nat; lia|]. destruct (reconstruct_q_ok rm pb db Hwf m vs x ax vx Hst Hax Hvx [first + Z.of_nat x] aq Haq Hq eq_refl) as (m' & E & H). exists 2, m'. split; [done|]. by split; [right|].
  - cbv iota. rewrite Hv0. cbn [deref mbind res_bind]. destruct (negb (bool_decide (is_lost rm t 0))) eqn:E0; [|exact Hgen].
    assert (H2 : (1 < length pb)%nat) by (cbn [length] in Hen; lia). pose proof (valid_lookup 1%nat H2) as Hv1. rewrite Hv1. cbn [deref mbind res_bind andb]. destruct (negb (bool_decide (is_lost rm t (Z.of_nat 1)))) eqn:E1; [|exact Hgen].
    inversion Hbr as [|? ? Hx Hbr']; subst. inversion Hbr' as [|? ? Hy _]; subst. cbv beta in Hx, Hy. inversion Hbs as [|? ? _ Hxy]; subst. inversion Hxy as [|? ? Hlt _]; subst.
    destruct (lookup_lt_is_Some_2 db x Hx) as [ax Hax]. destruct (lookup_lt_is_Some_2 vs x ltac:(lia)) as [vx Hvx]. destruct (lookup_lt_is_Some_2 db y Hy) as [ay Hay]. destruct (lookup_lt_is_Some_2 vs y ltac:(lia)) as [vy Hvy].
    destruct (Hvg 0%nat (conj Hv0 ltac:(apply Nat.lt_0_succ))) as (_ & ap & Hap & Hp). destruct (Hvg 1%nat (conj Hv1 (Nat.lt_le_trans 1 2 _ Nat.lt_1_2 (Nat.le_add_r 2 _)))) as (_ & aq & Haq & Hq).
    destruct (reconstruct_pq_ok rm pb db Hwf PAGESHIFT kmem_alloc kmem_fresh kmem_size m vs x y ax ay vx vy Hst Hlt Hax Hay Hvx Hvy ap aq Hap Haq) with (tgts := [first + Z.of_nat x; first + Z.of_nat y]) as (m' & E & H); [|done|done|].
    { intros [|[|k]] a Hk Ha; [rewrite Hap in Ha; by injection Ha as <-|rewrite Haq in Ha; by injection Ha as <-|lia]. }
    exists 3, m'. cbn [omap list_omap]. rewrite Hax, Hay. split; [done|]. by split; [right|].
  - rewrite !(proj2 (Z.eqb_neq (Z.of_nat (S (S (S (length l))))) _)) by lia. exact Hgen.
Qed.

(** The search, the method and the original routine, in that order. *)
Lemma reconstruct_ok : recovered_by (vdev_raidz_reconstruct PAGESHIFT kmem_alloc ops m rm t).
Proof using Hrec kmem_fresh kmem_size RaidzImpl0.
  destruct found_targets as [Ef Edt]. pose proof original_ok as Hor. destruct map_geometry as (Hf & _ & H13 & Ed & Efp).
  unfold vdev_raidz_reconstruct. rewrite Ef. cbn [mbind res_bind fd_tgts fd_nbaddata fd_parity_valid]. rewrite Edt.
  destruct (method_select ops m rm valid ((fun j => first + Z.of_nat j) <$> bad) (Z.of_nat (length bad))) as [E | (op & f & Eop & Hl & Hv & E)]; [rewrite length_fmap, length_seqZ; lia|done| |]; rewrite E.
  - exact Hor.
  - destruct (method_ok op f Eop ltac:(lia) ltac:(by rewrite Nat2Z.id in Hv)) as (code & m' & E' & H). rewrite E'. by exists code, m'.
Qed.

End ReconstructOk.

(** ** The choice of an implementation *)

Definition IMPL_FASTEST : Z := 2 ^ 32 - 1.
Definition IMPL_CYCLE : Z := 2 ^ 32 - 2.
Definition IMPL_ORIGINAL : Z := 0.
Definition IMPL_SCALAR : Z := 1.
Definition RAIDZ_IMPL_NAME_MAX : Z := 16.

(** The variables of the file; [cycle_impl_idx] is static in [vdev_raidz_math_get_ops]. *)
Record math_state : Type := MathState {
  zfs_vdev_raidz_impl : Z;
  user_sel_impl : Z;
  raidz_supp_impl : list raidz_impl_ops;
  vdev_raidz_fastest_impl : raidz_impl_ops;
  raidz_math_initialized : bool;
  cycle_impl_idx : Z
}.

Definition math_initial : math_state :=
  MathState IMPL_SCALAR IMPL_FASTEST [] (RaidzImplOps (fun _ => None) (fun _ => None) false "fastest") false 0.

Section Choice.

(** [vdev_raidz_scalar_impl], and [raidz_all_maths]. *)
Variable scalar : raidz_impl_ops.
Variable raidz_all_maths : list raidz_impl_ops.

(** As it is outside of the kernel; an entry that is not set is a null pointer. *)
Definition vdev_raidz_math_get_ops (st : math_state) : res (raidz_impl_ops * math_state) :=
  let impl := zfs_vdev_raidz_impl st in
  if impl =? IMPL_FASTEST then Ok (vdev_raidz_fastest_impl st, st)
  else if impl =? IMPL_CYCLE then
    let cnt := zlen (raidz_supp_impl st) in
    let cycle := wrap64 (cycle_impl_idx st + 1) in
    if cnt =? 0 then Panic else
    ops ← deref (raidz_supp_impl st !! Z.to_nat (cycle mod cnt));
    Ok (ops, MathState impl (user_sel_impl st) (raidz_supp_impl st) (vdev_raidz_fastest_impl st) (raidz_math_initialized st) cycle)
  else if impl =? IMPL_ORIGINAL then Ok (vdev_raidz_original_impl, st)
  else if impl =? IMPL_SCALAR then Ok (scalar, st)
  else ops ← deref (raidz_supp_impl st !! Z.to_nat impl); Ok (ops, st).

Definition math_impl_opts : list (string * Z) :=
  [("cycle", IMPL_CYCLE); ("fastest", IMPL_FASTEST); ("original", IMPL_ORIGINAL); ("scalar", IMPL_SCALAR)].

(** The name without the white space at its end. *)
Definition sanitize (val : string) : string := String.string_of_list_ascii (trim_end (String.list_ascii_of_string val)).

Fixpoint index_of {A} (name : A -> string) (req : string) (i : Z) (l : list A) : option Z :=
  match l with
  | [] => None
  | x :: l' => if bool_decide (name x = req) then Some i else index_of name req (i + 1) l'
  end.

Definition opt_sel (req : string) : option Z :=
  i ← index_of fst req 0 math_impl_opts; snd <$> math_impl_opts !! Z.to_nat i.

Definition vdev_raidz_impl_set (st : math_state) (val : string) : Z * math_state :=
  let n := Z.of_nat (String.length val) in
  if (n =? 0) || (RAIDZ_IMPL_NAME_MAX <=? n) then (- EINVAL, st) else
  let req := sanitize val in
  let impl := match opt_sel req with
              | Some impl => Some impl
              | None => if raidz_math_initialized st then index_of impl_name req 0 (raidz_supp_impl st) else None
              end in
  match impl with
  | None => (- EINVAL, st)
  | Some impl =>
      if raidz_math_initialized st
      then (0, MathState impl (user_sel_impl st) (raidz_supp_impl st) (vdev_raidz_fastest_impl st) true (cycle_impl_idx st))
      else (0, MathState (zfs_vdev_raidz_impl st) impl (raidz_supp_impl st) (vdev_raidz_fastest_impl st) false (cycle_impl_idx st))
  end.

(** As it is outside of the kernel: no benchmark, the last implementation is the
    fastest. *)
Definition vdev_raidz_math_init (st : math_state) : res math_state :=
  let supp := List.filter impl_supported raidz_all_maths in
  fast ← deref (last supp);
  let st := MathState (zfs_vdev_raidz_impl st) (user_sel_impl st) supp (RaidzImplOps (impl_gen fast) (impl_rec fast) (impl_supported fast) "fastest") true (cycle_impl_idx st) in
  let '(err, st) := vdev_raidz_impl_set st "cycle" in
  VERIFY (err =? 0) ;; Ok st.

(** ** The choice at any time *)

(** The first two implementations are the original one and the scalar one. *)
Record all_maths_ok : Prop := {
  am_scalar : impl_supported scalar = true /\ impl_name scalar = "scalar";
  am_first : exists maths, raidz_all_maths = vdev_raidz_original_impl :: scalar :: maths;
  am_num : zlen raidz_all_maths < IMPL_CYCLE
}.
Hypothesis Hall : all_maths_ok.

(** The implementations this machine supports, and the copy of one of them that is
    called the fastest. *)
Definition supported : list raidz_impl_ops := List.filter impl_supported raidz_all_maths.
Definition fastest_of (fast : raidz_impl_ops) : raidz_impl_ops := RaidzImplOps (impl_gen fast) (impl_rec fast) (impl_supported fast) "fastest".

(** The module is loaded, then used; names come from the administrator at any time. *)
Inductive math_reach : math_state -> Prop :=
| reach_initial : math_reach math_initial
| reach_set st val : math_reach st -> math_reach (vdev_raidz_impl_set st val).2
| reach_init st st' : math_reach st -> vdev_raidz_math_init st = Ok st' -> math_reach st'
| reach_get st ops st' : math_reach st -> vdev_raidz_math_get_ops st = Ok (ops, st') -> math_reach st'.

Record choice_ok (st : math_state) : Prop := {
  co_impl : zfs_vdev_raidz_impl st ∈ math_impl_opts.*2 \/ 0 <= zfs_vdev_raidz_impl st < zlen (raidz_supp_impl st);
  co_init : raidz_math_initialized st = false -> zfs_vdev_raidz_impl st = IMPL_SCALAR;
  co_supp : raidz_math_initialized st = true -> raidz_supp_impl st = supported;
  co_fastest : raidz_math_initialized st = true -> exists fast, last supported = Some fast /\ vdev_raidz_fastest_impl st = fastest_of fast
}.

(** Which names are accepted, and what an accepted name selects after
    initialisation. *)
Definition accepted (st : math_state) (val : string) : Prop :=
  0 < Z.of_nat (String.length val) < RAIDZ_IMPL_NAME_MAX /\
  (sanitize val ∈ math_impl_opts.*1 \/ raidz_math_initialized st = true /\ sanitize val ∈ impl_name <$> supported).

Definition selects (st : math_state) (name : string) : Prop :=
  if bool_decide (name = "cycle") then
    exists ops st', supported !! Z.to_nat (wrap64 (cycle_impl_idx st + 1) mod zlen supported) = Some ops /\
      vdev_raidz_math_get_ops st = Ok (ops, st') /\ zfs_vdev_raidz_impl st' = IMPL_CYCLE /\ cycle_impl_idx st' = wrap64 (cycle_impl_idx st + 1)
  else if bool_decide (name = "fastest") then
    exists fast, last supported = Some fast /\ vdev_raidz_math_get_ops st = Ok (fastest_of fast, st)
  else exists ops, ops ∈ supported /\ impl_name ops = name /\ vdev_raidz_math_get_ops st = Ok (ops, st).

Lemma index_of_ok {A} (name : A -> string) req i l j : index_of name req i l = Some j ->
  i <= j < i + zlen l /\ exists x, l !! Z.to_nat (j - i) = Some x /\ name x = req.
Proof.
  revert i. induction l as [|x l IH]; intros i; cbn [index_of]; [done|]. destruct (bool_decide_reflect (name x = req)) as [E|E].
  - intros [= <-]. cbn [length]. rewrite Z.sub_diag. split; [lia|]. by exists x.
  - intros H. destruct (IH _ H) as [Hj (y & Hy & En)]. cbn [length]. split; [lia|]. exists y. replace (Z.to_nat (j - i)) with (S (Z.to_nat (j - (i + 1)))) by lia. done.
Qed.

Lemma opt_sel_ok req impl : opt_sel req = Some impl -> impl ∈ math_impl_opts.*2.
Proof.
  unfold opt_sel. destruct (index_of _ _ _ _) as [i|]; [|done]. cbn [mbind option_bind]. intros H. apply list_elem_of_lookup. exists (Z.to_nat i). by rewrite list_lookup_fmap.
Qed.

Lemma index_of_none {A} (name : A -> string) req i l : index_of name req i l = None <-> req ∉ name <$> l.
Proof.
  revert i. induction l as [|x l IH]; intros i; cbn [index_of]; [split; [intros _ H; by apply elem_of_nil in H|done]|].
  rewrite fmap_cons, elem_of_cons. destruct (bool_decide_reflect (name x = req)) as [E|E]; [split; [done|intros H; destruct H; by left]|]. rewrite IH. split; [|tauto]. by intros H [->|?].
Qed.

Lemma opt_sel_none req : opt_sel req = None <-> req ∉ math_impl_opts.*1.
Proof.
  unfold opt_sel. destruct (index_of fst req 0 math_impl_opts) as [i|] eqn:E.
  - pose proof (index_of_ok _ _ _ _ _ E) as [Hi (x & Hx & En)]. rewrite Z.sub_0_r in Hx. cbn [mbind option_bind]. rewrite Hx. split; [done|]. intros H. destruct H. rewrite <- En. apply list_elem_of_fmap. exists x. split; [done|by eapply list_elem_of_lookup_2].
  - by apply index_of_none in E.
Qed.

Lemma supported_first : exists maths, supported = vdev_raidz_original_impl :: scalar :: maths.
Proof using Hall. destruct Hall as [[Es _] [maths Em] _]. unfold supported. rewrite Em. cbn. rewrite Es. by eexists. Qed.

Lemma supported_num : 0 < zlen supported < IMPL_CYCLE.
Proof using Hall.
  destruct supported_first as [maths E]. pose proof (am_num Hall). pose proof (filter_length impl_supported raidz_all_maths) as Hfl. fold supported in Hfl. split; [rewrite E; cbn [length]; lia|lia].
Qed.

Lemma last_supported : exists fast, last supported = Some fast.
Proof using Hall. destruct supported_first as [maths E]. destruct (last supported) as [fast|] eqn:El; [by exists fast|]. apply last_None in El. by rewrite E in El. Qed.

Lemma set_ok st val : choice_ok st -> choice_ok (vdev_raidz_impl_set st val).2.
Proof.
  intros [Hi Hn Hs Hf]. unfold vdev_raidz_impl_set. destruct (_ || _); [by constructor|]. destruct (match opt_sel _ with Some _ => _ | None => _ end) as [impl|] eqn:E; [|by constructor].
  destruct (raidz_math_initialized st) eqn:Einit; constructor; cbn; try done; try (intros _; by auto).
  destruct (opt_sel (sanitize val)) eqn:Eo; [injection E as ->; left; by eapply opt_sel_ok|]. right. apply index_of_ok in E. lia.
Qed.

Lemma init_selects st : exists st', vdev_raidz_math_init st = Ok st' /\ choice_ok st' /\ zfs_vdev_raidz_impl st' = IMPL_CYCLE /\ raidz_math_initialized st' = true.
Proof using Hall.
  unfold vdev_raidz_math_init. fold supported. destruct last_supported as [fast El]. rewrite El. cbn. eexists. split; [done|]. split; [|done].
  constructor; cbn; try done; [left; left|]. intros _. by exists fast.
Qed.

(** What is used: the selection, by the value of [zfs_vdev_raidz_impl]. *)
Lemma get_cycle st : zfs_vdev_raidz_impl st = IMPL_CYCLE -> raidz_supp_impl st = supported -> exists ops st', supported !! Z.to_nat (wrap64 (cycle_impl_idx st + 1) mod zlen supported) = Some ops /\
  vdev_raidz_math_get_ops st = Ok (ops, st') /\ (choice_ok st -> choice_ok st') /\ zfs_vdev_raidz_impl st' = IMPL_CYCLE /\ cycle_impl_idx st' = wrap64 (cycle_impl_idx st + 1).
Proof using Hall.
  intros E Es. pose proof supported_num as Hn. unfold vdev_raidz_math_get_ops. rewrite E, Es. change (IMPL_CYCLE =? IMPL_FASTEST) with false. change (IMPL_CYCLE =? IMPL_CYCLE) with true. cbv iota zeta. rewrite (proj2 (Z.eqb_neq _ 0)) by lia.
  pose proof (Z.mod_pos_bound (wrap64 (cycle_impl_idx st + 1)) (zlen supported) ltac:(lia)).
  destruct (lookup_lt_is_Some_2 supported (Z.to_nat (wrap64 (cycle_impl_idx st + 1) mod zlen supported)) ltac:(lia)) as [ops Ho]. rewrite Ho. cbn. eexists ops, _. split_and!; try done.
  intros [H1 H2 H3 H4]. constructor; cbn; try done; [left; left|intros Hf; specialize (H2 Hf); by rewrite E in H2].
Qed.

Lemma get_index st i ops : 2 <= i < IMPL_CYCLE -> zfs_vdev_raidz_impl st = i -> raidz_supp_impl st !! Z.to_nat i = Some ops -> vdev_raidz_math_get_ops st = Ok (ops, st).
Proof.
  intros Hi Ez E. unfold vdev_raidz_math_get_ops. rewrite Ez. unfold IMPL_ORIGINAL, IMPL_SCALAR, IMPL_FASTEST, IMPL_CYCLE in *. rewrite !(proj2 (Z.eqb_neq _ _)) by lia. by rewrite E.
Qed.

Lemma get_ops_ok st : choice_ok st -> exists ops st', vdev_raidz_math_get_ops st = Ok (ops, st') /\ choice_ok st' /\
  if raidz_math_initialized st then ops ∈ supported \/ exists fast, last supported = Some fast /\ ops = fastest_of fast else ops = scalar /\ st' = st.
Proof using Hall.
  intros Hc. pose proof Hc as [Hi Hn Hs Hf]. destruct supported_first as [maths Em], supported_num as [_ Hnum].
  destruct (raidz_math_initialized st) eqn:Einit; [|exists scalar, st; split; [unfold vdev_raidz_math_get_ops; by rewrite (Hn eq_refl)|done]].
  specialize (Hs eq_refl). destruct (Hf eq_refl) as (fast & El & Ef).
  assert (H : zfs_vdev_raidz_impl st = IMPL_CYCLE \/ zfs_vdev_raidz_impl st = IMPL_FASTEST \/ zfs_vdev_raidz_impl st = 0 \/ zfs_vdev_raidz_impl st = 1 \/ 2 <= zfs_vdev_raidz_impl st < zlen supported).
  { destruct Hi as [Hi|Hi]; [|rewrite Hs in Hi; lia]. cbn in Hi. repeat (apply elem_of_cons in Hi as [Hi|Hi]; [unfold IMPL_ORIGINAL, IMPL_SCALAR in *; auto|]). by apply elem_of_nil in Hi. }
  destruct H as [H|[H|[H|[H|H]]]].
  - destruct (get_cycle st H Hs) as (ops & st' & Ho & E & Hc' & _). exists ops, st'. split_and!; [done|by apply Hc'|left; by eapply list_elem_of_lookup_2].
  - exists (vdev_raidz_fastest_impl st), st. split_and!; [unfold vdev_raidz_math_get_ops; by rewrite H|done|]. right. by exists fast.
  - exists vdev_raidz_original_impl, st. split_and!; [unfold vdev_raidz_math_get_ops; by rewrite H|done|]. left. rewrite Em. left.
  - exists scalar, st. split_and!; [unfold vdev_raidz_math_get_ops; by rewrite H|done|]. left. rewrite Em. right. left.
  - destruct (lookup_lt_is_Some_2 supported (Z.to_nat (zfs_vdev_raidz_impl st)) ltac:(lia)) as [ops Ho]. exists ops, st. split_and!; [|done|left; by eapply list_elem_of_lookup_2].
    apply (get_index st (zfs_vdev_raidz_impl st)); [lia|done|by rewrite Hs].
Qed.

Lemma reach_ok st : math_reach st -> choice_ok st.
Proof using Hall.
  induction 1 as [|st val _ IH|st st' _ IH E|st ops st' _ IH E].
  - constructor; cbn; try done. left. do 3 right. left.
  - by apply set_ok.
  - destruct (init_selects st) as (st1 & E1 & H & _). rewrite E in E1. by injection E1 as ->.
  - destruct (get_ops_ok st IH) as (ops1 & st1 & E1 & H & _). rewrite E in E1. by injection E1 as <- <-.
Qed.

(** A name is accepted or changes nothing. *)
Lemma set_accepted st val : choice_ok st -> ((vdev_raidz_impl_set st val).1 = 0 <-> accepted st val) /\ ((vdev_raidz_impl_set st val).1 <> 0 -> vdev_raidz_impl_set st val = (- EINVAL, st)).
Proof.
  intros [_ _ Hs _]. unfold vdev_raidz_impl_set, accepted. destruct (Z.eqb_spec (Z.of_nat (String.length val)) 0) as [E0|E0]; [cbn; split; [split; [done|lia]|done]|].
  destruct (Z.leb_spec RAIDZ_IMPL_NAME_MAX (Z.of_nat (String.length val))) as [E1|E1]; [cbn; split; [split; [done|lia]|done]|]. cbn [orb].
  destruct (opt_sel (sanitize val)) as [impl|] eqn:Eo.
  - destruct (raidz_math_initialized st); cbn; (split; [|done]); (split; [intros _|done]); (split; [lia|]); left; destruct (decide (sanitize val ∈ math_impl_opts.*1)) as [|Hn]; [done|apply opt_sel_none in Hn; congruence|done|apply opt_sel_none in Hn; congruence].
  - apply opt_sel_none in Eo. destruct (raidz_math_initialized st); [rewrite Hs by done; destruct (index_of impl_name (sanitize val) 0 supported) as [i|] eqn:Ei|]; cbn; (split; [|done]).
    + split; [intros _|done]. split; [lia|right]. split; [done|]. apply index_of_ok in Ei as [_ (x & Hx & <-)]. apply list_elem_of_fmap. exists x. split; [done|by eapply list_elem_of_lookup_2].
    + apply index_of_none in Ei. split; [done|]. tauto.
    + split; [done|]. intros [_ [?|[? _]]]; done.
Qed.

(** A name that is accepted selects the implementation of that name: the indices 0
    and 1 of the supported implementations agree with the fixed ones. *)
Lemma set_selects st val st' : choice_ok st -> raidz_math_initialized st = true -> vdev_raidz_impl_set st val = (0, st') -> selects st' (sanitize val).
Proof using Hall.
  intros [_ _ Hs Hf] Einit. specialize (Hs Einit). destruct (Hf Einit) as (fast & El & Ef), supported_first as [maths Em], supported_num as [_ Hnum]. destruct (am_scalar Hall) as [_ En]. unfold vdev_raidz_impl_set. destruct (_ || _); [done|]. rewrite Einit.
  set (req := sanitize val). unfold selects. destruct (bool_decide_reflect (req = "cycle")) as [Ec|Ec].
  { rewrite Ec. intros [= <-]. destruct (get_cycle (MathState IMPL_CYCLE (user_sel_impl st) (raidz_supp_impl st) (vdev_raidz_fastest_impl st) true (cycle_impl_idx st)) eq_refl Hs) as (ops & st' & H1 & H2 & _ & H3). by exists ops, st'. }
  destruct (bool_decide_reflect (req = "fastest")) as [Efa|Efa]; [rewrite Efa; intros [= <-]; exists fast; split; [done|]; unfold vdev_raidz_math_get_ops; cbn; by rewrite Ef|].
  assert (Ho : opt_sel req = if bool_decide ("original" = req) then Some 0 else if bool_decide ("scalar" = req) then Some 1 else None).
  { unfold opt_sel. cbn [index_of math_impl_opts fst]. rewrite (bool_decide_false ("cycle" = req)), (bool_decide_false ("fastest" = req)) by done. by repeat case_bool_decide. }
  rewrite Ho. destruct (bool_decide_reflect ("original" = req)) as [Er|Er]; [intros [= <-]; exists vdev_raidz_original_impl; split_and!; [rewrite Em; left|done..]|].
  destruct (bool_decide_reflect ("scalar" = req)) as [Er'|Er']; [intros [= <-]; exists scalar; split_and!; [rewrite Em; right; left|by rewrite En|done]|].
  rewrite Hs. destruct (index_of impl_name req 0 supported) as [i|] eqn:Ei; [|done]. intros [= <-]. apply index_of_ok in Ei as [Hi (ops & Hops & Hname)]. rewrite Z.sub_0_r in Hops.
  exists ops. split_and!; [by eapply list_elem_of_lookup_2|done|]. apply (get_index _ i); [|done|done]. assert (i <> 0 /\ i <> 1); [|lia].
  split; intros ->; rewrite Em in Hops; cbn in Hops; injection Hops as <-; [by apply Er|apply Er'; by rewrite <- En].
Qed.

End Choice.

(** ** What is written can be read back *)

Lemma data_readable rm pb db m : raidz_wf rm pb db -> (forall l, l ∈ (db ≫= locs) -> exists b, mbyte m l = Some b /\ is_u8 b) -> exists vs, raidz_data m db vs.
Proof.
  intros Hwf Hb. exists ((fun a i => if decide (i < abd_size a) then gf_of (default 0 (mbyte m (abd_lane a i))) else g0) <$> db). apply Forall2_fmap_r, Forall_Forall2_diag, Forall_forall. intros a Ha. split.
  - intros i Hi. assert (Hwa : abd_wf a) by (apply list_elem_of_lookup in Ha as [j Hj]; by destruct (wf_db rm pb db Hwf j a Hj)). destruct (Hb (abd_lane a i)) as (b & Eb & Hu).
    { apply list_elem_of_bind. exists a. split; [by apply lane_locs|done]. }
    unfold gfun. rewrite decide_True by lia. rewrite Eb. unfold default, id. by rewrite gv_of.
  - intros i Hi. by rewrite decide_False by lia.
Qed.

(** The buffers of the lost columns. *)
Definition lost_bufs (rm : raidz_map) (bufs : list abd) (t : list Z) : list abd := omap (fun c => bufs !! Z.to_nat c) (lost rm t).

Section Damage.

Context (rm : raidz_map) (pb db : list abd) (m1 m2 : mem) (vs : list (Z -> gf)) (t : list Z).
Hypothesis Hwf : raidz_wf rm pb db.
Hypothesis Hdata : raidz_data m1 db vs.
Hypothesis Hpar : parity_holds rm pb m1 vs.
Hypothesis Hsame : only_writes (lost_bufs rm (pb ++ db) t) m1 m2.
Hypothesis Hmap : forall l, l ∈ ((pb ++ db) ≫= locs) -> is_Some (mbyte m2 l).

Lemma undamaged c a i : (pb ++ db) !! c = Some a -> Z.of_nat c ∉ lost rm t -> 0 <= i < abd_size a -> mbyte m2 (abd_lane a i) = mbyte m1 (abd_lane a i).
Proof using Hwf Hsame.
  intros Ha Hc Hi. apply Hsame. intros (b & Hl & (c' & Hc' & Hb)%list_elem_of_omap)%list_elem_of_bind. pose proof (wf_all rm pb db Hwf) as Hall. rewrite Forall_forall in Hall.
  destruct (decide (c = Z.to_nat c')) as [->|Hne].
  - apply Hc. pose proof (lost_range rm t) as Hr. rewrite Forall_forall in Hr. pose proof (Hr c' Hc') as Hr'. cbv beta in Hr'. by rewrite Z2Nat.id by lia.
  - eapply (locs_apart (pb ++ db) c (Z.to_nat c') a b); [exact (rw_sep _ _ _ Hwf)|done|done|done| |exact Hl]. apply lane_locs; [|done]. apply Hall. by eapply list_elem_of_lookup_2.
Qed.

Lemma damaged : StronglySorted Z.lt t -> Forall (fun c => 0 <= c < rm_cols rm) t -> Z.of_nat (length (lost rm t)) <= rm_firstdatacol rm -> recoverable rm pb db m2 vs t.
Proof using All.
  intros Hs Hr Hn. pose proof (rw_first _ _ _ Hwf) as [Ef Hf]. pose proof (rw_cols _ _ _ Hwf) as [Ec Hc]. pose proof (Forall2_length _ _ _ Hdata) as Hlen. constructor; try done.
  - constructor; [done| | |].
    + intros j a v Ha Hv _ i Hi. destruct (Forall2_lookup_lr _ _ _ _ _ _ Hdata Ha Hv) as [_ Hz]. by apply Hz.
    + intros j a v Ha Hv Hj i Hi. destruct (Forall2_lookup_lr _ _ _ _ _ _ Hdata Ha Hv) as [Hread _]. rewrite (undamaged (length pb + j) a i); [by apply Hread|by rewrite data_lookup| |done].
      intros Hin. apply Hj. unfold lost_data. apply list_elem_of_fmap. exists (Z.of_nat (length pb + j)). split; [lia|]. apply list_elem_of_filter. split; [lia|done].
    + intros a Ha i Hi. apply Hmap, list_elem_of_bind. exists a. split; [|done]. apply lane_locs; [|done]. pose proof (wf_all rm pb db Hwf) as Hall. rewrite Forall_forall in Hall. by apply Hall.
  - intros k Hk [Hl _]. destruct (lookup_lt_is_Some_2 pb k Hk) as [a Ha]. exists a. split; [done|]. intros i Hi. destruct (wf_pb rm pb db Hwf k a Ha) as [Hown _]. destruct (own_linear _ _ Hown) as [_ Esz].
    rewrite (undamaged k a i); [by apply (Hpar k a Ha)|rewrite lookup_app_l by done; done|done|lia].
Qed.

End Damage.

Lemma only_writes_same bufs m m' db vs : Forall abd_wf db -> (forall a b l, a ∈ db -> b ∈ bufs -> l ∈ locs a -> l ∉ locs b) -> only_writes bufs m m' -> raidz_data m db vs -> raidz_data m' db vs.
Proof.
  intros Hw Hap Ho Hd. apply Forall2_same_length_lookup_2; [by eapply Forall2_length|]. intros j a v Ha Hv. destruct (Forall2_lookup_lr _ _ _ _ _ _ Hd Ha Hv) as [Hr Hz]. split; [|done].
  intros i Hi. rewrite Ho; [by apply Hr|]. intros (b & Hl & Hb)%list_elem_of_bind. eapply Hap; [by eapply list_elem_of_lookup_2|exact Hb| |exact Hl]. apply lane_locs; [|done]. by eapply Forall_lookup_1.
Qed.

Lemma data_bytes m m' db vs : Forall abd_wf db -> data_held m db vs -> data_held m' db vs -> forall l, l ∈ (db ≫= locs) -> mbyte m' l = mbyte m l.
Proof.
  intros Hw Hd Hd' l (a & Hl & Ha)%list_elem_of_bind. assert (Hwa : abd_wf a) by (rewrite Forall_forall in Hw; by apply Hw). apply locs_lane_inv in Hl as (i & Hi & ->); [|done].
  apply list_elem_of_lookup in Ha as [j Hj]. destruct (Forall2_lookup_l _ _ _ _ _ Hd Hj) as (v & Hv & Hr). pose proof (Forall2_lookup_lr _ _ _ _ _ _ Hd' Hj Hv) as Hr'. cbv beta in Hr'. by rewrite (Hr i), (Hr' i).
Qed.

(** The parity does not overlap the data. *)
Lemma parity_data_apart rm pb db a b l : raidz_wf rm pb db -> a ∈ db -> b ∈ pb -> l ∈ locs a -> l ∉ locs b.
Proof.
  intros Hwf Ha Hb. pose proof (rw_sep _ _ _ Hwf) as Hn. rewrite bind_app in Hn. apply NoDup_app in Hn as (_ & Hn & _). intros Hl Hl'. apply (Hn l); apply list_elem_of_bind; [by exists b|by exists a].
Qed.

Lemma holds_mapped m ls vs l : holds m ls vs -> l ∈ ls -> is_Some (mbyte m l).
Proof. intros Hh [i Hi]%list_elem_of_lookup. destruct (Forall2_lookup_l _ _ _ _ _ Hh Hi) as (v & _ & ->). done. Qed.

Lemma swap_first off rm r : raidz_map_swap off rm = Ok r -> rm_firstdatacol r = rm_firstdatacol rm.
Proof.
  unfold raidz_map_swap. destruct (_ && _); [|by intros [= <-]]. destruct (rm_col rm !! 0%nat); [|done]. destruct (rm_col rm !! 1%nat); [|done]. cbn [deref mbind res_bind]. intros [= <-]. by destruct (_ =? 0).
Qed.

(** ** The theorems *)

Section Roundtrip.

Context (PAGESHIFT : Z) (kmem_alloc : mem -> Z -> Z * list Z).
Hypothesis kmem_fresh : forall m n, m !! (kmem_alloc m n).1 = None.
Hypothesis kmem_size : forall m n, length (kmem_alloc m n).2 = Z.to_nat n.

(** C1: A block is written and read back.  The map is allocated and the parity
    generated; then as many columns as there is parity are lost, some by an error, some
    named by the caller, and hold anything; [vdev_raidz_reconstruct] gives back every
    byte of the block, and writes to the lost data columns only.  The two
    implementations need not be the same. *)
Theorem raidz_roundtrip ops ops' `{!RaidzImpl ops, !RaidzImpl ops'} io_offset io_size ashift dcols nparity io_abd m :
  geometry_ok io_offset io_size ashift dcols nparity -> block_buf m io_size io_abd ->
  (forall l, l ∈ locs io_abd -> exists b, mbyte m l = Some b /\ is_u8 b) ->
  exists rm io' m0 m1 pb db,
    vdev_raidz_map_alloc kmem_alloc m io_abd io_offset io_size ashift dcols nparity = Ok (rm, io', m0) /\ raidz_wf rm pb db /\ length pb = Z.to_nat nparity /\
    vdev_raidz_generate_parity ops m0 rm = Ok m1 /\
    forall rm' t m2, raidz_wf rm' pb db -> StronglySorted Z.lt t -> Forall (fun c => 0 <= c < rm_cols rm') t -> zlen (lost rm' t) <= nparity ->
      only_writes (lost_bufs rm' (pb ++ db) t) m1 m2 -> (forall l, l ∈ ((pb ++ db) ≫= locs) -> is_Some (mbyte m2 l)) ->
      exists code m3, vdev_raidz_reconstruct PAGESHIFT kmem_alloc ops' m2 rm' t = Ok (code, m3) /\
        (forall l, l ∈ region io_abd 0 io_size -> mbyte m3 l = mbyte m l) /\ only_writes (omap (fun j => db !! j) (lost_data rm' t)) m2 m3.
Proof using kmem_fresh kmem_size.
  intros Hg Hb Hu8. destruct Hb. destruct (map_alloc_ok kmem_alloc kmem_fresh kmem_size io_offset io_size ashift dcols nparity io_abd m) as (rm & io' & m0 & pb & db & E & Hm); [done..|].
  destruct Hm as (Hwf & Eloc & _ & [pv Hpv] & Hnew & Hold & _ & _ & r0 & Er & Hsg).
  assert (Hbyte : forall l, l ∈ locs io_abd -> mbyte m0 l = mbyte m l).
  { intros l Hl. destruct (Hu8 l Hl) as (b & Eb & _). unfold mbyte in *. destruct (m !! p_blk l) as [bs|] eqn:Ek; [|done]. rewrite (Hold (p_blk l)) by (by rewrite Ek). by rewrite Ek. }
  assert (Hsub : forall l, l ∈ (db ≫= locs) -> l ∈ locs io_abd) by (intros l Hl; rewrite Eloc in Hl; by apply region_sub in Hl).
  destruct (data_readable rm pb db m0 Hwf) as [vs Hdata]; [intros l Hl; rewrite (Hbyte l) by auto; auto|].
  assert (Hpm : forall a, a ∈ pb -> mapped m0 (abd_lane a) 0 (raidz_big rm)).
  { intros a Ha i Hi. apply list_elem_of_lookup in Ha as [k Hk]. destruct (wf_pb rm pb db Hwf k a Hk) as [Hown Hwa]. destruct (own_linear _ _ Hown) as [_ Es].
    eapply holds_mapped; [exact Hpv|]. apply list_elem_of_bind. exists a. split; [apply lane_locs; [done|lia]|by eapply list_elem_of_lookup_2]. }
  destruct (generate_parity_ok ops rm pb db m0 vs Hwf Hpm Hdata) as (m1 & E1 & Hpar & Ho). exists rm, io', m0, m1, pb, db.
  assert (Ef : rm_firstdatacol rm = nparity) by (by rewrite (sg_first _ _ Hsg), (swap_first _ _ _ Er)). pose proof (rw_first _ _ _ Hwf) as [Efp _]. split_and!; [done|done|lia|done|].
  intros rm' t m2 Hwf' Hs Hr Hn Hsame Hmap2. assert (Hdb : Forall abd_wf db) by (pose proof (rw_db _ _ _ Hwf) as H; eapply Forall_impl; [exact H|]; by intros a [? _]).
  assert (Hdata1 : raidz_data m1 db vs). { eapply only_writes_same; [done| |exact Ho|done]. intros a b l Ha Hb. by eapply parity_data_apart. }
  assert (Hbig : raidz_big rm' = raidz_big rm). { destruct pb as [|a pb']; [cbn in Efp; destruct (rw_first _ _ _ Hwf); lia|]. destruct (wf_pb rm _ db Hwf 0 a eq_refl) as [O1 _], (wf_pb rm' _ db Hwf' 0 a eq_refl) as [O2 _]. destruct (own_linear _ _ O1) as [_ <-], (own_linear _ _ O2) as [_ <-]. done. }
  assert (Hpar' : parity_holds rm' pb m1 vs) by (intros k a Ha; rewrite Hbig; by apply Hpar). pose proof (rw_first _ _ _ Hwf') as [Ef' _].
  destruct (reconstruct_ok PAGESHIFT kmem_alloc kmem_fresh kmem_size ops' rm' pb db m2 vs t) as (code & m3 & E3 & _ & Hdata3 & Ho3); [apply (damaged rm' pb db m1); done || lia|].
  exists code, m3. split_and!; [done| |done]. intros l Hl. rewrite <- Eloc in Hl. rewrite (data_bytes m0 m3 db vs Hdb (data_is_held _ _ _ Hdata) Hdata3 l Hl). by apply Hbyte, Hsub.
Qed.

End Roundtrip.

(** C6: The choice of an implementation, outside the kernel.  Before
    initialisation the scalar implementation is used, whatever names were accepted;
    initialisation selects the cycle through the supported implementations, and does
    not apply a name that was accepted before.  Then there is always an
    implementation to use, a supported one or the copy of the last of them, and an
    accepted name selects what it says.  Accepted are the four fixed names and, after
    initialisation, those of the supported implementations; any other is an error
    that changes nothing. *)
Theorem raidz_math_selection scalar all st : all_maths_ok scalar all -> math_reach scalar all st ->
  (raidz_math_initialized st = false -> vdev_raidz_math_get_ops scalar st = Ok (scalar, st)) /\
  (raidz_math_initialized st = true -> exists ops st', vdev_raidz_math_get_ops scalar st = Ok (ops, st') /\
     (ops ∈ supported all \/ exists fast, last (supported all) = Some fast /\ ops = fastest_of fast)) /\
  (exists st', vdev_raidz_math_init all st = Ok st' /\ raidz_math_initialized st' = true /\ zfs_vdev_raidz_impl st' = IMPL_CYCLE) /\
  forall val, exists err st', vdev_raidz_impl_set st val = (err, st') /\ (err = 0 <-> accepted all st val) /\
    (err <> 0 -> err = - EINVAL /\ st' = st) /\
    (err = 0 -> if raidz_math_initialized st then selects scalar all st' (sanitize val)
                else vdev_raidz_math_get_ops scalar st' = Ok (scalar, st')).
Proof.
  intros Hall Hr. pose proof (reach_ok scalar all Hall st Hr) as Hc. destruct (get_ops_ok scalar all Hall st Hc) as (ops & st1 & Eg & _ & Hget). split_and!.
  - intros Ei. rewrite Ei in Hget. by destruct Hget as [-> ->].
  - intros Ei. rewrite Ei in Hget. by exists ops, st1.
  - destruct (init_selects scalar all Hall st) as (st' & E & _ & H1 & H2). by exists st'.
  - intros val. destruct (vdev_raidz_impl_set st val) as [err st'] eqn:E. exists err, st'. split; [done|]. destruct (set_accepted all st val Hc) as [H1 H2]. rewrite E in H1, H2. cbn [fst] in H1, H2. split; [done|]. split.
    + intros Hne. by injection (H2 Hne) as -> ->.
    + intros ->. destruct (raidz_math_initialized st) eqn:Ei; [by eapply set_selects|].
      destruct (get_ops_ok scalar all Hall st') as (ops' & st2 & Eg' & _ & Hget'); [replace st' with (vdev_raidz_impl_set st val).2 by (by rewrite E); by apply set_ok|].
      assert (Ei' : raidz_math_initialized st' = false).
      { unfold vdev_raidz_impl_set in E. destruct (_ || _); [done|]. rewrite Ei in E. destruct (match opt_sel _ with Some _ => _ | None => _ end); [|done]. by injection E as <-. }
      rewrite Ei' in Hget'. destruct Hget' as [-> ->]. done.
Qed.

(** ** Examples *)

Module Example.

Import Abd.Example RaidzMap.Example.

Lemma no_bytes_wrong : forall l, l ∈ locs io_abd -> exists b, mbyte m0 l = Some b /\ is_u8 b.
Proof.
  intros l Hl. rewrite io_locs in Hl. apply elem_of_app in Hl as [Hl|Hl]; apply elem_of_span in Hl as [Eb Ho]; destruct l as [k o]; cbn in *; subst k; [exists 7|exists 9].
  - split; [|unfold is_u8; lia]. unfold mbyte. cbn [p_blk p_off]. change (m0 !! 1) with (Some (replicate 1024 7)). cbn [mbind option_bind]. rewrite (proj2 (Z.leb_le _ _)) by lia. by apply lookup_replicate_2; lia.
  - split; [|unfold is_u8; lia]. unfold mbyte. cbn [p_blk p_off]. change (m0 !! 2) with (Some (replicate 1024 9)). cbn [mbind option_bind]. rewrite (proj2 (Z.leb_le _ _)) by lia. by apply lookup_replicate_2; lia.
Qed.

(** The block of [RaidzMap.Example] written: the map and the memory with the parity. *)
Definition written : res (raidz_map * mem) :=
  '(rm, _, m) ← vdev_raidz_map_alloc kmem m0 io_abd 3584 1536 9 5 2;
  m ← vdev_raidz_generate_parity vdev_raidz_original_impl m rm; Ok (rm, m).

Definition the {A} (x : A) (r : res A) : A := match r with Ok y => y | Panic => x end.
Definition rm1 : raidz_map := (the (raidz_map_init 3584 1536 9 5 2, m0) written).1.
Definition m1 : mem := (the (raidz_map_init 3584 1536 9 5 2, m0) written).2.

(** The first half of a page, which is the second data column, is overwritten. *)
Definition m2 : mem := alter (fun bs => replicate 512 77 ++ drop 512 bs) 2 m1.

Lemma written_ok : written = Ok (rm1, m1).
Proof. vm_compute. reflexivity. Qed.

Lemma Ok_pair {A B} (a c : A) (b d : B) : Ok (a, b) = Ok (c, d) -> a = c /\ b = d.
Proof. by intros [= -> ->]. Qed.

Lemma omap_bufs (cols : list raidz_col) (bufs : list abd) : rc_abd <$> cols = Some <$> bufs -> omap rc_abd cols = bufs.
Proof. revert bufs. induction cols as [|rc cols IH]; intros [|a bufs] E; try done. cbn in E. injection E as Ea E. cbn. rewrite Ea. f_equal. by apply IH. Qed.

Lemma bufs1 pb db : raidz_wf rm1 pb db -> omap rc_abd (rm_col rm1) = pb ++ db.
Proof.
  intros Hwf. pose proof (rw_abds _ _ _ Hwf) as E. assert (Et : take (Z.to_nat (rm_cols rm1)) (rm_col rm1) = rm_col rm1) by (vm_compute; reflexivity). rewrite Et in E. exact (omap_bufs _ _ E).
Qed.

Lemma wrecked : only_writes (lost_bufs rm1 (omap rc_abd (rm_col rm1)) [0; 3]) m1 m2.
Proof.
  intros [k o] Hl. unfold m2, mbyte. cbn [p_blk p_off]. destruct (decide (k = 2)) as [->|Hk]; [|by rewrite lookup_alter_ne]. rewrite lookup_alter_eq. assert (E : m1 !! 2 = Some (replicate 1024 9)) by (vm_compute; reflexivity). rewrite E. cbn [fmap option_fmap option_map mbind option_bind].
  destruct (Z.leb_spec 0 o) as [Ho|Ho]; [|done]. destruct (decide (o < 512)) as [Ho'|Ho'].
  - exfalso. apply Hl. assert (El : lost_bufs rm1 (omap rc_abd (rm_col rm1)) [0; 3] ≫= locs = span (Ptr 3 0) 512 ++ span (Ptr 2 0) 512) by (vm_compute; reflexivity). rewrite El. apply elem_of_app. right. apply elem_of_span. cbn. lia.
  - rewrite lookup_app_r by (rewrite length_replicate; lia). rewrite lookup_drop. f_equal. rewrite length_replicate. lia.
Qed.

Lemma wrecked_mapped : Forall (fun l => is_Some (mbyte m2 l)) (omap rc_abd (rm_col rm1) ≫= locs).
Proof. decided. Qed.

Lemma byte_lost : mbyte m2 (Ptr 2 100) = Some 77.
Proof. vm_compute. reflexivity. Qed.

Lemma byte_before : mbyte m0 (Ptr 2 100) = Some 9.
Proof. vm_compute. reflexivity. Qed.

Lemma byte_in : Ptr 2 100 ∈ region io_abd 0 1536.
Proof. unfold region. rewrite io_locs, drop_0, take_ge by (rewrite length_app, !length_span; lia). apply elem_of_app. right. apply elem_of_span. cbn. lia. Qed.

Lemma lost1 : zlen (lost rm1 [0; 3]) <= 2 /\ rm_cols rm1 = 5.
Proof. vm_compute. split; congruence. Qed.

Lemma raidz_roundtrip_witness : exists code m3, vdev_raidz_reconstruct 12 kmem vdev_raidz_original_impl m2 rm1 [0; 3] = Ok (code, m3) /\ mbyte m2 (Ptr 2 100) = Some 77 /\ mbyte m3 (Ptr 2 100) = Some 9.
Proof.
  destruct (raidz_roundtrip 12 kmem kmem_fresh kmem_size vdev_raidz_original_impl vdev_raidz_original_impl 3584 1536 9 5 2 io_abd m0 geometry buf no_bytes_wrong) as (rm & io' & m' & m1' & pb & db & E & Hwf & _ & E1 & Hrec).
  assert (Ew : Ok (rm, m1') = written) by (unfold written; rewrite E; cbn [mbind res_bind]; rewrite E1; reflexivity). rewrite written_ok in Ew. destruct (Ok_pair _ _ _ _ Ew) as [-> ->]. pose proof (bufs1 pb db Hwf) as Eb.
  destruct (Hrec rm1 [0; 3] m2 Hwf) as (code & m3 & E3 & Hback & _).
  - repeat constructor.
  - rewrite (proj2 lost1). repeat constructor; lia.
  - exact (proj1 lost1).
  - rewrite <- Eb. exact wrecked.
  - rewrite <- Eb. apply Forall_forall. exact wrecked_mapped.
  - exists code, m3. split; [exact E3|]. split; [exact byte_lost|]. rewrite Hback; [exact byte_before|exact byte_in].
Defined.

Definition newline : string := String.String (Ascii.ascii_of_nat 10) EmptyString.

(** Implementations without methods. *)
Definition named (s : string) : raidz_impl_ops := RaidzImplOps (fun _ => None) (fun _ => None) true s.
Definition maths : list raidz_impl_ops := [vdev_raidz_original_impl; named "scalar"; named "avx2"].

Lemma maths_ok : all_maths_ok (named "scalar") maths.
Proof. constructor; [done|by eexists|done]. Qed.

(** A name is accepted before the module is initialised, and not applied; then a
    name with a newline is written to it. *)
Lemma raidz_math_selection_witness : exists st0 st st' ops, vdev_raidz_impl_set math_initial "original" = (0, st0) /\ vdev_raidz_math_get_ops (named "scalar") st0 = Ok (named "scalar", st0) /\
  vdev_raidz_math_init maths st0 = Ok st /\ zfs_vdev_raidz_impl st = IMPL_CYCLE /\
  vdev_raidz_impl_set st (String.append "avx2" newline) = (0, st') /\ vdev_raidz_math_get_ops (named "scalar") st' = Ok (ops, st') /\ impl_name ops = "avx2".
Proof.
  destruct (raidz_math_selection (named "scalar") maths math_initial maths_ok (reach_initial _ _)) as (_ & _ & _ & H0). destruct (H0 "original") as (e0 & st0 & E0 & Ha0 & _ & Hs0).
  assert (He0 : e0 = 0) by (apply Ha0; split; [vm_compute; done|left; vm_compute; set_solver]). subst e0. specialize (Hs0 eq_refl). cbn [raidz_math_initialized math_initial] in Hs0.
  assert (R0 : math_reach (named "scalar") maths st0) by (replace st0 with (vdev_raidz_impl_set math_initial "original").2 by (by rewrite E0); apply reach_set, reach_initial).
  destruct (raidz_math_selection (named "scalar") maths st0 maths_ok R0) as (_ & _ & (st & E & Ei & Ec) & _).
  destruct (raidz_math_selection (named "scalar") maths st maths_ok (reach_init _ _ _ _ R0 E)) as (_ & _ & _ & H). destruct (H (String.append "avx2" newline)) as (e & st' & E' & Ha & _ & Hs). rewrite Ei in Hs.
  assert (He : e = 0) by (apply Ha; split; [vm_compute; done|right; split; [exact Ei|vm_compute; set_solver]]). subst e. destruct (Hs eq_refl) as (ops & _ & En & Eg).
  exists st0, st, st', ops. split_and!; [exact E0|exact Hs0|exact E|exact Ec|exact E'|exact Eg|exact En].
Defined.

End Example.
