(* ===== verification/RaidzScalar.v ===== *)
(** * The scalar implementation: [module/zfs/vdev_raidz_math_scalar.c] and
    [module/zfs/vdev_raidz_math_impl.h]

    The methods of [vdev_raidz_math_impl.h] with the macros of the scalar
    implementation, whose vectors are 64-bit words.  Data is recovered by computing
    the parity with zeros for what is lost, the syndromes, in the place of the lost
    columns, and solving for them word by word with coefficients computed in
    advance.  Here the generation of parity and the recovery of one column are proved;
    [RaidzSolve] has the rest. *)

From Stdlib Require Import Field.
From stdpp Require Import gmap strings.
From S2P Require Import Prelude Bits Buffer Gf Memory Abd AbdIter RaidzMap RaidzParity RaidzReconst RaidzMath.

(** ** Vectors *)

Definition CODE_P : Z := 0.
Definition CODE_Q : Z := 1.
Definition CODE_R : Z := 2.

(** [raidz_init_scalar] fills the table of products. *)
Definition vdev_raidz_mul_lt : list (list Z) := (fun c => (fun i => gf_mul c i) <$> seqZ 0 256) <$> seqZ 0 256.
Definition mul_lt_at (c i : Z) : Z := nth (Z.to_nat i) (nth (Z.to_nat c) vdev_raidz_mul_lt []) 0.

(** [LOAD] and [STORE] are [load64] and [store64]. *)
Definition XOR (src acc : Z) : Z := Z.lxor acc src.
Definition XOR_ACC (m : mem) (src : ptr) (acc : Z) : res Z := w ← load64 m src; Ok (Z.lxor acc w).

Definition scalar_mul2_mod : Z := 2097865012304223517.
Definition scalar_mul2_mask : Z := 18374403900871474942.
Definition scalar_mul2_msb : Z := 9259542123273814144.

Definition MUL2 (a : Z) : Z :=
  let _mask := Z.land a scalar_mul2_msb in
  let _mask := wrap64 (wrap64 (Z.shiftl _mask 1) - Z.shiftr _mask 7) in
  let a := Z.land (wrap64 (Z.shiftl a 1)) scalar_mul2_mask in
  Z.lxor a (Z.land _mask scalar_mul2_mod).
Definition MUL4 (a : Z) : Z := MUL2 (MUL2 a).

(** Byte by byte, through the table. *)
Definition MUL (c a : Z) : Z := le_word ((fun b => mul_lt_at c b) <$> le_bytes 8 a).

(** [for (i = 0; i < cnt; i += 2)] *)
Definition for_two (cnt : Z) (body : Z -> mem -> res mem) (m : mem) : res mem := for_range 0 ((cnt + 1) / 2) (fun j => body (2 * j)) m.

(** One word of the loops below. *)
Definition clear_word (m : mem) (d : ptr) : res mem := store64 m d 0.
Definition copy_word (m : mem) (d s : ptr) : res mem := d0 ← load64 m s; store64 m d d0.
Definition add_word (m : mem) (d s : ptr) : res mem := d0 ← load64 m d; d0 ← XOR_ACC m s d0; store64 m d d0.
Definition mul_word (mul : Z) (m : mem) (d : ptr) : res mem := d0 ← load64 m d; store64 m d (MUL mul d0).

Definition raidz_zero_abd_cb (dst : ptr) (dsize : Z) (s : mem * unit) : res (Z * (mem * unit)) :=
  m ← for_two (dsize / 8) (fun i m => m ← clear_word m (ptr_add dst (8 * i)); clear_word m (ptr_add dst (8 * (i + 1)))) s.1;
  Ok (0, (m, tt)).
Definition raidz_zero (m : mem) (dabd : abd) (size : Z) : res mem :=
  '(_, (m, _)) ← abd_iterate_func raidz_zero_abd_cb dabd 0 size (m, tt); Ok m.

Definition raidz_copy_abd_cb (dst src : ptr) (size : Z) (s : mem * unit) : res (Z * (mem * unit)) :=
  m ← for_two (size / 8) (fun i m =>
    m ← copy_word m (ptr_add dst (8 * i)) (ptr_add src (8 * i));
    copy_word m (ptr_add dst (8 * (i + 1))) (ptr_add src (8 * (i + 1)))) s.1;
  Ok (0, (m, tt)).
Definition raidz_copy (m : mem) (dabd sabd : abd) (size : Z) : res mem :=
  '(_, (m, _)) ← abd_iterate_func2 raidz_copy_abd_cb dabd sabd 0 0 size (m, tt); Ok m.

Definition raidz_add_abd_cb (dst src : ptr) (size : Z) (s : mem * unit) : res (Z * (mem * unit)) :=
  m ← for_two (size / 8) (fun i m =>
    m ← add_word m (ptr_add dst (8 * i)) (ptr_add src (8 * i));
    add_word m (ptr_add dst (8 * (i + 1))) (ptr_add src (8 * (i + 1)))) s.1;
  Ok (0, (m, tt)).
Definition raidz_add (m : mem) (dabd sabd : abd) (size : Z) : res mem :=
  '(_, (m, _)) ← abd_iterate_func2 raidz_add_abd_cb dabd sabd 0 0 size (m, tt); Ok m.

Definition raidz_mul_abd_cb (mul : Z) (d : ptr) (size : Z) (s : mem * unit) : res (Z * (mem * unit)) :=
  m ← for_two (size / 8) (fun i m => m ← mul_word mul m (ptr_add d (8 * i)); mul_word mul m (ptr_add d (8 * (i + 1)))) s.1;
  Ok (0, (m, tt)).

(** ** Syndromes *)

Definition P_D_SYNDROME (d : Z) (t : ptr) (m : mem) : res mem := w ← load64 m t; store64 m t (XOR d w).
Definition Q_D_SYNDROME (d : Z) (t : ptr) (m : mem) : res mem := w ← load64 m t; store64 m t (XOR d (MUL2 w)).
Definition Q_SYNDROME (t : ptr) (m : mem) : res mem := w ← load64 m t; store64 m t (MUL2 w).
Definition R_D_SYNDROME (d : Z) (t : ptr) (m : mem) : res mem := w ← load64 m t; store64 m t (XOR d (MUL4 w)).
Definition R_SYNDROME (t : ptr) (m : mem) : res mem := w ← load64 m t; store64 m t (MUL4 w).

(** The two loops of the callbacks: the words that have data, then the rest. *)
Definition syndrome_loops (with_data : Z -> Z -> mem -> res mem) (without : Z -> mem -> res mem) (dc : option ptr) (csize dsize : Z) (m : mem) : res mem :=
  m ← for_range 0 (dsize / 8) (fun i m => d ← deref dc; d0 ← load64 m (ptr_add d (8 * i)); with_data d0 i m) m;
  for_range (dsize / 8) (csize / 8) without m.

Definition raidz_gen_pq_add (c : list ptr) (dc : option ptr) (csize dsize : Z) (m : mem) : res mem :=
  p ← deref (c !! 0%nat); q ← deref (c !! 1%nat);
  syndrome_loops (fun d i m => m ← P_D_SYNDROME d (ptr_add p (8 * i)) m; Q_D_SYNDROME d (ptr_add q (8 * i)) m)
    (fun i m => Q_SYNDROME (ptr_add q (8 * i)) m) dc csize dsize m.

Definition raidz_gen_pqr_add (c : list ptr) (dc : option ptr) (csize dsize : Z) (m : mem) : res mem :=
  p ← deref (c !! 0%nat); q ← deref (c !! 1%nat); r ← deref (c !! 2%nat);
  syndrome_loops (fun d i m => m ← P_D_SYNDROME d (ptr_add p (8 * i)) m; m ← Q_D_SYNDROME d (ptr_add q (8 * i)) m; R_D_SYNDROME d (ptr_add r (8 * i)) m)
    (fun i m => m ← Q_SYNDROME (ptr_add q (8 * i)) m; R_SYNDROME (ptr_add r (8 * i)) m) dc csize dsize m.

Definition raidz_syn_q_abd (xc : list ptr) (dc : option ptr) (xsize dsize : Z) (m : mem) : res mem :=
  x ← deref (xc !! 0%nat);
  syndrome_loops (fun d i m => Q_D_SYNDROME d (ptr_add x (8 * i)) m) (fun i m => Q_SYNDROME (ptr_add x (8 * i)) m) dc xsize dsize m.

Definition raidz_syn_r_abd (xc : list ptr) (dc : option ptr) (tsize dsize : Z) (m : mem) : res mem :=
  x ← deref (xc !! 0%nat);
  syndrome_loops (fun d i m => R_D_SYNDROME d (ptr_add x (8 * i)) m) (fun i m => R_SYNDROME (ptr_add x (8 * i)) m) dc tsize dsize m.

Definition raidz_syn_pq_abd (tc : list ptr) (dc : option ptr) (tsize dsize : Z) (m : mem) : res mem :=
  x ← deref (tc !! 0%nat); y ← deref (tc !! 1%nat);
  syndrome_loops (fun d i m => m ← P_D_SYNDROME d (ptr_add x (8 * i)) m; Q_D_SYNDROME d (ptr_add y (8 * i)) m)
    (fun i m => Q_SYNDROME (ptr_add y (8 * i)) m) dc tsize dsize m.

Definition raidz_syn_pr_abd (tc : list ptr) (dc : option ptr) (tsize dsize : Z) (m : mem) : res mem :=
  x ← deref (tc !! 0%nat); y ← deref (tc !! 1%nat);
  syndrome_loops (fun d i m => m ← P_D_SYNDROME d (ptr_add x (8 * i)) m; R_D_SYNDROME d (ptr_add y (8 * i)) m)
    (fun i m => R_SYNDROME (ptr_add y (8 * i)) m) dc tsize dsize m.

Definition raidz_syn_qr_abd (tc : list ptr) (dc : option ptr) (tsize dsize : Z) (m : mem) : res mem :=
  x ← deref (tc !! 0%nat); y ← deref (tc !! 1%nat);
  syndrome_loops (fun d i m => m ← Q_D_SYNDROME d (ptr_add x (8 * i)) m; R_D_SYNDROME d (ptr_add y (8 * i)) m)
    (fun i m => m ← Q_SYNDROME (ptr_add x (8 * i)) m; R_SYNDROME (ptr_add y (8 * i)) m) dc tsize dsize m.

Definition raidz_syn_pqr_abd (tc : list ptr) (dc : option ptr) (tsize dsize : Z) (m : mem) : res mem :=
  x ← deref (tc !! 0%nat); y ← deref (tc !! 1%nat); z ← deref (tc !! 2%nat);
  syndrome_loops (fun d i m => m ← P_D_SYNDROME d (ptr_add x (8 * i)) m; m ← Q_D_SYNDROME d (ptr_add y (8 * i)) m; R_D_SYNDROME d (ptr_add z (8 * i)) m)
    (fun i m => m ← Q_SYNDROME (ptr_add y (8 * i)) m; R_SYNDROME (ptr_add z (8 * i)) m) dc tsize dsize m.

(** ** Generation *)

Definition raidz_col_size (rm : raidz_map) (c : Z) : res Z := rc ← rm_col_at rm c; Ok (rc_size rc).

Definition raidz_generate_p_impl (m : mem) (rm : raidz_map) : res mem :=
  psize ← raidz_col_size rm CODE_P;
  pabd ← col_abd rm CODE_P;
  dabd ← col_abd rm 1;
  m ← raidz_copy m pabd dabd psize;
  for_range 2 (rm_cols rm) (fun c m =>
    dabd ← col_abd rm c; size ← raidz_col_size rm c; raidz_add m pabd dabd size) m.

Definition raidz_generate_pq_impl (m : mem) (rm : raidz_map) : res mem :=
  csize ← raidz_col_size rm CODE_P;
  p ← col_abd rm CODE_P; q ← col_abd rm CODE_Q;
  dabd ← col_abd rm 2;
  m ← raidz_copy m p dabd csize;
  m ← raidz_copy m q dabd csize;
  for_range 3 (rm_cols rm) (fun c m =>
    dabd ← col_abd rm c; dsize ← raidz_col_size rm c;
    abd_raidz_gen_iterate raidz_gen_pq_add [p; q] (Some dabd) csize dsize m) m.

Definition raidz_generate_pqr_impl (m : mem) (rm : raidz_map) : res mem :=
  csize ← raidz_col_size rm CODE_P;
  p ← col_abd rm CODE_P; q ← col_abd rm CODE_Q; r ← col_abd rm CODE_R;
  dabd ← col_abd rm 3;
  m ← raidz_copy m p dabd csize;
  m ← raidz_copy m q dabd csize;
  m ← raidz_copy m r dabd csize;
  for_range 4 (rm_cols rm) (fun c m =>
    dabd ← col_abd rm c; dsize ← raidz_col_size rm c;
    abd_raidz_gen_iterate raidz_gen_pqr_add [p; q; r] (Some dabd) csize dsize m) m.

(** ** Coefficients, for [ncols] columns and the targets [x], [y] and [z] *)

Definition raidz_rec_q_coeff (ncols x : Z) : Z := gf_exp2 (255 - (ncols - x - 1)).

Definition raidz_rec_r_coeff (ncols x : Z) : Z := gf_exp4 (255 - (ncols - x - 1)).

(** [MUL_PQ_X] and [MUL_PQ_Y] *)
Definition raidz_rec_pq_coeff (ncols x y : Z) : Z * Z :=
  let a := gf_exp2 (x + 255 - y) in
  let b := gf_exp2 (255 - (ncols - x - 1)) in
  let e := Z.lxor a 1 in
  (gf_div a e, gf_div b e).

Definition raidz_rec_pr_coeff (ncols x y : Z) : Z * Z :=
  let a := gf_exp4 (x + 255 - y) in
  let b := gf_exp4 (255 - (ncols - x - 1)) in
  let e := Z.lxor a 1 in
  (gf_div a e, gf_div b e).

(** [MUL_QR_XQ], [MUL_QR_X], [MUL_QR_YQ] and [MUL_QR_Y] *)
Definition raidz_rec_qr_coeff (ncols x y : Z) : Z * Z * Z * Z :=
  let nx := gf_exp2 (ncols - x - 1) in
  let ny := gf_exp2 (ncols - y - 1) in
  let nxxy := gf_mul (gf_mul nx nx) ny in
  let nxyy := gf_mul (gf_mul nx ny) ny in
  let d := Z.lxor nxxy nxyy in
  (ny, gf_div ny d, nx, gf_div nx d).

Record pqr_coeff : Type := PqrCoeff { MUL_PQR_XP : Z; MUL_PQR_XQ : Z; MUL_PQR_XR : Z; MUL_PQR_YU : Z; MUL_PQR_YP : Z; MUL_PQR_YQ : Z }.

Definition raidz_rec_pqr_coeff (ncols x y z : Z) : pqr_coeff :=
  let nx := gf_exp2 (ncols - x - 1) in
  let ny := gf_exp2 (ncols - y - 1) in
  let nz := gf_exp2 (ncols - z - 1) in
  let nxx := gf_exp4 (ncols - x - 1) in
  let nyy := gf_exp4 (ncols - y - 1) in
  let nzz := gf_exp4 (ncols - z - 1) in
  let nyyz := gf_mul (gf_mul ny nz) ny in
  let nyzz := gf_mul nzz ny in
  let xd := Z.lxor (Z.lxor (Z.lxor (Z.lxor (Z.lxor (gf_mul nxx ny) (gf_mul nx nyy)) nyyz) (gf_mul nxx nz)) (gf_mul nzz nx)) nyzz in
  let yd := gf_inv (Z.lxor ny nz) in
  PqrCoeff (gf_div (Z.lxor nyyz nyzz) xd) (gf_div (Z.lxor nyy nzz) xd) (gf_div (Z.lxor ny nz) xd) nx (gf_mul nz yd) yd.

(** ** Words of the lost columns, from the syndromes [x], [y], [z] and the parity *)

Definition rec_pq_word (mul : Z * Z) (x y p q : ptr) (m : mem) : res mem :=
  x0 ← load64 m x;
  y0 ← load64 m y;
  x0 ← XOR_ACC m p x0;
  y0 ← XOR_ACC m q y0;
  let t0 := x0 in
  let x0 := MUL mul.1 x0 in
  let y0 := MUL mul.2 y0 in
  let x0 := XOR y0 x0 in
  m ← store64 m x x0;
  let x0 := XOR t0 x0 in
  store64 m y x0.

Definition raidz_rec_pq_abd (mul : Z * Z) (t : list ptr) (tsize : Z) (c : list ptr) (m : mem) : res mem :=
  x ← deref (t !! 0%nat); y ← deref (t !! 1%nat); p ← deref (c !! 0%nat); q ← deref (c !! 1%nat);
  for_range 0 (tsize / 8) (fun i => rec_pq_word mul (ptr_add x (8 * i)) (ptr_add y (8 * i)) (ptr_add p (8 * i)) (ptr_add q (8 * i))) m.

(** The loop of [raidz_rec_pr_abd] has the text of that of [raidz_rec_pq_abd]. *)
Definition raidz_rec_pr_abd (mul : Z * Z) (t : list ptr) (tsize : Z) (c : list ptr) (m : mem) : res mem :=
  x ← deref (t !! 0%nat); y ← deref (t !! 1%nat); p ← deref (c !! 0%nat); q ← deref (c !! 1%nat);
  for_range 0 (tsize / 8) (fun i => rec_pq_word mul (ptr_add x (8 * i)) (ptr_add y (8 * i)) (ptr_add p (8 * i)) (ptr_add q (8 * i))) m.

Definition rec_qr_word (mul : Z * Z * Z * Z) (x y p q : ptr) (m : mem) : res mem :=
  let '(xq, xm, yq, ym) := mul in
  x0 ← load64 m x;
  y0 ← load64 m y;
  x0 ← XOR_ACC m p x0;
  y0 ← XOR_ACC m q y0;
  let t0 := x0 in
  let x0 := MUL xq x0 in
  let x0 := XOR y0 x0 in
  let x0 := MUL xm x0 in
  m ← store64 m x x0;
  let t0 := MUL yq t0 in
  let t0 := XOR y0 t0 in
  let t0 := MUL ym t0 in
  store64 m y t0.

Definition raidz_rec_qr_abd (mul : Z * Z * Z * Z) (t : list ptr) (tsize : Z) (c : list ptr) (m : mem) : res mem :=
  x ← deref (t !! 0%nat); y ← deref (t !! 1%nat); p ← deref (c !! 0%nat); q ← deref (c !! 1%nat);
  for_range 0 (tsize / 8) (fun i => rec_qr_word mul (ptr_add x (8 * i)) (ptr_add y (8 * i)) (ptr_add p (8 * i)) (ptr_add q (8 * i))) m.

Definition rec_pqr_word (mul : pqr_coeff) (x y z p q r : ptr) (m : mem) : res mem :=
  x0 ← load64 m x;
  y0 ← load64 m y;
  z0 ← load64 m z;
  x0 ← XOR_ACC m p x0;
  y0 ← XOR_ACC m q y0;
  z0 ← XOR_ACC m r z0;
  let xs0 := x0 in
  let ys0 := y0 in
  let x0 := MUL (MUL_PQR_XP mul) x0 in
  let y0 := MUL (MUL_PQR_XQ mul) y0 in
  let x0 := XOR y0 x0 in
  let z0 := MUL (MUL_PQR_XR mul) z0 in
  let x0 := XOR z0 x0 in
  m ← store64 m x x0;
  let xs0 := XOR x0 xs0 in
  let x0 := MUL (MUL_PQR_YU mul) x0 in
  let ys0 := XOR x0 ys0 in
  let x0 := xs0 in
  let x0 := MUL (MUL_PQR_YP mul) x0 in
  let ys0 := MUL (MUL_PQR_YQ mul) ys0 in
  let ys0 := XOR x0 ys0 in
  m ← store64 m y ys0;
  let ys0 := XOR xs0 ys0 in
  store64 m z ys0.

Definition raidz_rec_pqr_abd (mul : pqr_coeff) (t : list ptr) (tsize : Z) (c : list ptr) (m : mem) : res mem :=
  x ← deref (t !! 0%nat); y ← deref (t !! 1%nat); z ← deref (t !! 2%nat);
  p ← deref (c !! 0%nat); q ← deref (c !! 1%nat); r ← deref (c !! 2%nat);
  for_range 0 (tsize / 8) (fun i => rec_pqr_word mul (ptr_add x (8 * i)) (ptr_add y (8 * i)) (ptr_add z (8 * i)) (ptr_add p (8 * i)) (ptr_add q (8 * i)) (ptr_add r (8 * i))) m.

(** ** Reconstruction *)

Definition raidz_reconstruct_p_impl (m : mem) (rm : raidz_map) (tgtidx : list Z) : res (Z * mem) :=
  x ← deref (tgtidx !! 0%nat);
  xsize ← raidz_col_size rm x;
  xabd ← col_abd rm x;
  p ← col_abd rm CODE_P;
  m ← raidz_copy m xabd p xsize;
  m ← for_range (rm_firstdatacol rm) (rm_cols rm) (fun c m =>
    if c =? x then Ok m else
    dabd ← col_abd rm c; size ← raidz_col_size rm c;
    raidz_add m xabd dabd (Z.min size xsize)) m;
  Ok (Z.shiftl 1 CODE_P, m).

(** The targets start as the first data column, or as zeros if that is a target;
    being the least, it can only be the first of them. *)
Fixpoint start_syndrome (m : mem) (first : option abd) (tabds : list abd) (xsize : Z) : res mem :=
  match tabds with
  | [] => Ok m
  | t :: tabds' =>
      m ← match first with Some a => raidz_copy m t a xsize | None => raidz_zero m t xsize end;
      start_syndrome m first tabds' xsize
  end.

(** The loop over the other data columns, [NULL] in place of a target. *)
Definition syndrome_columns (func : list ptr -> option ptr -> Z -> Z -> mem -> res mem) (rm : raidz_map) (tgtidx : list Z) (tabds : list abd) (xsize : Z) (m : mem) : res mem :=
  for_range (rm_firstdatacol rm + 1) (rm_cols rm) (fun c m =>
    '(dabd, dsize) ← (if bool_decide (c ∈ tgtidx) then Ok (None, 0) else a ← col_abd rm c; size ← raidz_col_size rm c; Ok (Some a, size));
    abd_raidz_gen_iterate func tabds dabd xsize dsize m) m.

Definition syndrome (func : list ptr -> option ptr -> Z -> Z -> mem -> res mem) (m : mem) (rm : raidz_map) (tgtidx : list Z) (tabds : list abd) (xsize : Z) : res mem :=
  x ← deref (tgtidx !! 0%nat);
  first ← (if rm_firstdatacol rm =? x then Ok None else a ← col_abd rm (rm_firstdatacol rm); Ok (Some a));
  m ← start_syndrome m first tabds xsize;
  syndrome_columns func rm tgtidx tabds xsize m.

Definition raidz_reconstruct_q_impl (m : mem) (rm : raidz_map) (tgtidx : list Z) : res (Z * mem) :=
  x ← deref (tgtidx !! 0%nat);
  xabd ← col_abd rm x;
  xsize ← raidz_col_size rm x;
  let coeff := raidz_rec_q_coeff (rm_cols rm) x in
  m ← syndrome raidz_syn_q_abd m rm [x] [xabd] xsize;
  q ← col_abd rm CODE_Q;
  m ← raidz_add m xabd q xsize;
  '(_, (m, _)) ← abd_iterate_func (raidz_mul_abd_cb coeff) xabd 0 xsize (m, tt);
  Ok (Z.shiftl 1 CODE_Q, m).

Definition raidz_reconstruct_r_impl (m : mem) (rm : raidz_map) (tgtidx : list Z) : res (Z * mem) :=
  x ← deref (tgtidx !! 0%nat);
  xabd ← col_abd rm x;
  xsize ← raidz_col_size rm x;
  let coeff := raidz_rec_r_coeff (rm_cols rm) x in
  m ← syndrome raidz_syn_r_abd m rm [x] [xabd] xsize;
  r ← col_abd rm CODE_R;
  m ← raidz_add m xabd r xsize;
  '(_, (m, _)) ← abd_iterate_func (raidz_mul_abd_cb coeff) xabd 0 xsize (m, tt);
  Ok (Z.shiftl 1 CODE_R, m).

Section Several.

Variable PAGESHIFT : Z.
Variable kmem_alloc : mem -> Z -> Z * list Z.
Variable zfs_abd_scatter_enabled : bool.

(** A target shorter than the first one is replaced with a new buffer. *)
Fixpoint target_bufs (m : mem) (xsize : Z) (cols : list (abd * Z)) : res (list abd * mem) :=
  match cols with
  | [] => Ok ([], m)
  | (a, size) :: cols' =>
      '(t, m) ← (if size <? xsize then abd_alloc PAGESHIFT kmem_alloc zfs_abd_scatter_enabled m xsize false else Ok (a, m));
      '(tabds, m) ← target_bufs m xsize cols';
      Ok (t :: tabds, m)
  end.

Fixpoint copy_back (m : mem) (xsize : Z) (cols : list (abd * Z)) (tabds : list abd) : res mem :=
  match cols, tabds with
  | (a, size) :: cols', t :: tabds' =>
      m ← (if size <? xsize then raidz_copy m a t size else Ok m);
      copy_back m xsize cols' tabds'
  | _, _ => Ok m
  end.

Fixpoint free_bufs (m : mem) (xsize : Z) (cols : list (abd * Z)) (tabds : list abd) : res mem :=
  match cols, tabds with
  | (_, size) :: cols', t :: tabds' =>
      m ← (if size <? xsize then abd_free PAGESHIFT m t else Ok m);
      free_bufs m xsize cols' tabds'
  | _, _ => Ok m
  end.

(** Columns with their sizes. *)
Fixpoint cols_at (rm : raidz_map) (cs : list Z) : res (list (abd * Z)) :=
  match cs with
  | [] => Ok []
  | c :: cs' => a ← col_abd rm c; size ← raidz_col_size rm c; l ← cols_at rm cs'; Ok ((a, size) :: l)
  end.

(** The body that the routines for two and three targets have in common; [codes]
    are the parity columns used. *)
Definition reconstruct_several (syn : list ptr -> option ptr -> Z -> Z -> mem -> res mem) (rec : list ptr -> Z -> list ptr -> mem -> res mem)
    (codes : list Z) (m : mem) (rm : raidz_map) (tgtidx : list Z) : res mem :=
  x ← deref (tgtidx !! 0%nat);
  xsize ← raidz_col_size rm x;
  cols ← cols_at rm tgtidx;
  cabds ← cols_at rm codes;
  '(tabds, m) ← target_bufs m xsize cols;
  m ← syndrome syn m rm tgtidx tabds xsize;
  m ← abd_raidz_rec_iterate rec cabds.*1 tabds xsize m;
  m ← copy_back m xsize cols tabds;
  free_bufs m xsize cols tabds.

Definition raidz_reconstruct_pq_impl (m : mem) (rm : raidz_map) (tgtidx : list Z) : res (Z * mem) :=
  x ← deref (tgtidx !! 0%nat); y ← deref (tgtidx !! 1%nat);
  let coeff := raidz_rec_pq_coeff (rm_cols rm) x y in
  m ← reconstruct_several raidz_syn_pq_abd (raidz_rec_pq_abd coeff) [CODE_P; CODE_Q] m rm [x; y];
  Ok (Z.lor (Z.shiftl 1 CODE_P) (Z.shiftl 1 CODE_Q), m).

(** The code returned names [CODE_Q], which is not used. *)
Definition raidz_reconstruct_pr_impl (m : mem) (rm : raidz_map) (tgtidx : list Z) : res (Z * mem) :=
  x ← deref (tgtidx !! 0%nat); y ← deref (tgtidx !! 1%nat);
  let coeff := raidz_rec_pr_coeff (rm_cols rm) x y in
  m ← reconstruct_several raidz_syn_pr_abd (raidz_rec_pr_abd coeff) [CODE_P; CODE_R] m rm [x; y];
  Ok (Z.lor (Z.shiftl 1 CODE_P) (Z.shiftl 1 CODE_Q), m).

Definition raidz_reconstruct_qr_impl (m : mem) (rm : raidz_map) (tgtidx : list Z) : res (Z * mem) :=
  x ← deref (tgtidx !! 0%nat); y ← deref (tgtidx !! 1%nat);
  let coeff := raidz_rec_qr_coeff (rm_cols rm) x y in
  m ← reconstruct_several raidz_syn_qr_abd (raidz_rec_qr_abd coeff) [CODE_Q; CODE_R] m rm [x; y];
  Ok (Z.lor (Z.shiftl 1 CODE_Q) (Z.shiftl 1 CODE_R), m).

Definition raidz_reconstruct_pqr_impl (m : mem) (rm : raidz_map) (tgtidx : list Z) : res (Z * mem) :=
  x ← deref (tgtidx !! 0%nat); y ← deref (tgtidx !! 1%nat); z ← deref (tgtidx !! 2%nat);
  let coeff := raidz_rec_pqr_coeff (rm_cols rm) x y z in
  m ← reconstruct_several raidz_syn_pqr_abd (raidz_rec_pqr_abd coeff) [CODE_P; CODE_Q; CODE_R] m rm [x; y; z];
  Ok (Z.lor (Z.lor (Z.shiftl 1 CODE_P) (Z.shiftl 1 CODE_Q)) (Z.shiftl 1 CODE_R), m).

Definition scalar_gen (op : raidz_math_gen_op) : mem -> raidz_map -> res mem :=
  match op with RAIDZ_GEN_P => raidz_generate_p_impl | RAIDZ_GEN_PQ => raidz_generate_pq_impl | RAIDZ_GEN_PQR => raidz_generate_pqr_impl end.

Definition scalar_rec (op : raidz_rec_op) : mem -> raidz_map -> list Z -> res (Z * mem) :=
  match op with
  | RAIDZ_REC_P => raidz_reconstruct_p_impl | RAIDZ_REC_Q => raidz_reconstruct_q_impl | RAIDZ_REC_R => raidz_reconstruct_r_impl
  | RAIDZ_REC_PQ => raidz_reconstruct_pq_impl | RAIDZ_REC_PR => raidz_reconstruct_pr_impl | RAIDZ_REC_QR => raidz_reconstruct_qr_impl
  | RAIDZ_REC_PQR => raidz_reconstruct_pqr_impl
  end.

Definition vdev_raidz_scalar_impl : raidz_impl_ops := RaidzImplOps (fun op => Some (scalar_gen op)) (fun op => Some (scalar_rec op)) true "scalar".

End Several.

(** ** Words of field elements *)

Definition wd (v : Z -> gf) (pos : Z) : Z := le_word (gfun v <$> seqZ pos 8).

Lemma wd_bytes v pos : length (gfun v <$> seqZ pos 8) = 8%nat /\ Forall is_u8 (gfun v <$> seqZ pos 8).
Proof. split; [by rewrite length_fmap, length_seqZ|apply gfun_u8]. Qed.

Lemma wd_ext v w pos : (forall i, pos <= i < pos + 8 -> v i = w i) -> wd v pos = wd w pos.
Proof. intros H. unfold wd. f_equal. apply list_fmap_ext. intros k i Hi. apply lookup_seqZ in Hi as [-> Hk]. unfold gfun. rewrite H by lia. done. Qed.

Lemma wd_zero pos : wd gzero pos = 0.
Proof. unfold wd, gzero. rewrite (list_fmap_ext (gfun _) (fun _ => 0)) by done. done. Qed.

Lemma XOR_wd v w pos : XOR (wd v pos) (wd w pos) = wd (fun i => w i + v i)%gf pos.
Proof. destruct (wd_bytes v pos), (wd_bytes w pos). unfold XOR, wd. rewrite le_word_lxor, gfun_lxor by congruence. done. Qed.

Lemma wd_map (f : Z -> Z) (g : gf -> gf) v pos : (forall a, gv (g a) = f (gv a)) -> le_word (f <$> (gfun v <$> seqZ pos 8)) = wd (fun i => g (v i)) pos.
Proof. intros H. unfold wd. rewrite <- list_fmap_compose. f_equal. apply list_fmap_ext. intros k i _. unfold gfun. cbn. by rewrite H. Qed.

Lemma MUL2_wd v pos : MUL2 (wd v pos) = wd (fun i => v i * gpow 1)%gf pos.
Proof.
  change (MUL2 (wd v pos)) with (VDEV_RAIDZ_64MUL_2 (wd v pos)). destruct (wd_bytes v pos). unfold wd at 1. rewrite mul_64_2 by done. apply (wd_map _ (fun a => a * gpow 1)%gf). intros a. apply gv_mul_2.
Qed.

Lemma MUL4_wd v pos : MUL4 (wd v pos) = wd (fun i => v i * gpow 2)%gf pos.
Proof. unfold MUL4. rewrite !MUL2_wd. apply wd_ext. intros i _. change 2 with (1 + 1). rewrite gpow_add. ring. Qed.

Lemma mul_lt_ok c i : is_u8 c -> is_u8 i -> mul_lt_at c i = gf_mul c i.
Proof.
  intros Hc Hi. unfold is_u8 in *. unfold mul_lt_at, vdev_raidz_mul_lt. rewrite (nth_lookup _ (Z.to_nat c)), list_lookup_fmap, lookup_seqZ_lt by lia. cbn [fmap option_fmap option_map default].
  unfold id. rewrite nth_lookup, list_lookup_fmap, lookup_seqZ_lt by lia. cbn. unfold id. f_equal; lia.
Qed.

Lemma MUL_wd c v pos : MUL (gv c) (wd v pos) = wd (fun i => v i * c)%gf pos.
Proof.
  destruct (wd_bytes v pos) as [Hl Hu]. unfold MUL. unfold wd at 1. rewrite le_bytes_word by done. apply (wd_map _ (fun a => a * c)%gf). intros a. rewrite mul_lt_ok by apply gv_u8.
  replace (a * c)%gf with (c * a)%gf by ring. done.
Qed.

Lemma load_wd m l pos p v : contig l pos p 8 -> reads m l pos (pos + 8) (gfun v) -> load64 m p = Ok (wd v pos).
Proof. apply load64_lane. Qed.

Lemma store_wd m l pos p v : contig l pos p 8 -> mapped m l pos (pos + 8) -> exists m', store64 m p (wd v pos) = Ok m' /\ swept m [(l, gfun v)] pos (pos + 8) m'.
Proof. apply store64_lane. Qed.

(** ** Walks two words at a time *)

Lemma two_count n : (16 | n) -> (n / 8 + 1) / 2 = n / 16.
Proof. intros [k ->]. replace (k * 16) with (k * 2 * 8) at 1 by lia. rewrite Z.div_mul by lia. rewrite Z.div_mul by lia. rewrite Z.add_comm, Z.div_add by lia. done. Qed.

Section Two.

Context (m : mem) (ts : list (lane * (Z -> Z))) (N : Z).
Hypothesis Hsep : separate (fst <$> ts) N.

Lemma two_words (A B : mem -> res mem) x m1 :
  0 <= x -> x + 16 <= N -> swept m ts 0 x m1 ->
  (exists m2, A m1 = Ok m2 /\ swept m1 ts x (x + 8) m2) ->
  (forall m2, swept m ts 0 (x + 8) m2 -> exists m3, B m2 = Ok m3 /\ swept m2 ts (x + 8) (x + 8 + 8) m3) ->
  exists m3, (m2 ← A m1; B m2) = Ok m3 /\ swept m1 ts x (x + 16) m3.
Proof using Hsep.
  intros Hx HN Hsw (m2 & E2 & Hsw2) HB. rewrite E2. cbn [mbind res_bind]. destruct (HB m2) as (m3 & E3 & Hsw3); [eapply swept_trans; [exact Hsw|exact Hsw2|exact Hsep|lia|lia]|].
  exists m3. split; [done|]. replace (x + 16) with (x + 8 + 8) by lia. eapply swept_trans; [exact Hsw2|exact Hsw3|exact Hsep|lia|lia].
Qed.

Lemma walk1 (W : mem -> ptr -> res mem) d size :
  abd_wf d -> abd_multiple 512 d -> 0 <= size <= abd_size d -> (512 | size) -> size <= N ->
  (forall x p m1, 0 <= x -> x + 8 <= size -> contig (abd_lane d) x p 8 -> swept m ts 0 x m1 -> exists m2, W m1 p = Ok m2 /\ swept m1 ts x (x + 8) m2) ->
  exists m', abd_iterate_func (fun b n (s : mem * unit) => m ← for_two (n / 8) (fun i m => m ← W m (ptr_add b (8 * i)); W m (ptr_add b (8 * (i + 1)))) s.1; Ok (0, (m, tt))) d 0 size (m, tt) = Ok (0, (m', tt)) /\
    swept m ts 0 size m'.
Proof using Hsep.
  intros Hwf Hk Hs Hks HN HW. assert (D : (16 | 512)) by (by exists 32). set (f := fun _ _ _ => _).
  destruct (iterate_units 16 f (fun _ => tt) (fun _ b i m => m ← W m (ptr_add b (8 * (2 * i))); W m (ptr_add b (8 * (2 * i + 1)))) m ts d 0 size N) as (m' & E & Hsw);
    [lia|done|by eapply multiple_sub|unfold part_ok; lia|apply Z.divide_0_r|by eapply Z.divide_trans|done|lia| | |by exists m'].
  - intros pos b n m1 Hn. unfold f, for_two. by rewrite two_count.
  - intros pos b i m1 Hpos Hi Hle Hc Hsw. set (x := pos + 16 * i) in *. replace (8 * (2 * i)) with (16 * i) by lia. replace (8 * (2 * i + 1)) with (16 * i + 8) by lia. rewrite <- (ptr_add_add b (16 * i) 8).
    apply (two_words (fun m => W m _) (fun m => W m _) x); [lia|lia|done| |].
    + apply HW; [lia|lia| |done]. intros k Hk'. apply Hc. lia.
    + intros m2 Hsw2. apply HW; [lia|lia| |done]. apply (contig_sub _ x _ 16); [done|lia|lia].
Qed.

Lemma walk2 (W : mem -> ptr -> ptr -> res mem) d s size :
  abd_wf d -> abd_wf s -> abd_multiple 512 d -> abd_multiple 512 s -> 0 <= size <= abd_size d -> size <= abd_size s -> (512 | size) -> size <= N ->
  (forall x p q m1, 0 <= x -> x + 8 <= size -> contig (abd_lane d) x p 8 -> contig (abd_lane s) x q 8 -> swept m ts 0 x m1 -> exists m2, W m1 p q = Ok m2 /\ swept m1 ts x (x + 8) m2) ->
  exists m', abd_iterate_func2 (fun b c n (st : mem * unit) => m ← for_two (n / 8) (fun i m => m ← W m (ptr_add b (8 * i)) (ptr_add c (8 * i)); W m (ptr_add b (8 * (i + 1))) (ptr_add c (8 * (i + 1)))) st.1; Ok (0, (m, tt))) d s 0 0 size (m, tt) = Ok (0, (m', tt)) /\
    swept m ts 0 size m'.
Proof using Hsep.
  intros Hwd Hws Hkd Hks Hs Hs' Hk HN HW. assert (D : (16 | 512)) by (by exists 32). set (f := fun _ _ _ _ => _).
  destruct (iterate2_units 16 f (fun _ => tt) (fun _ b c i m => m ← W m (ptr_add b (8 * (2 * i))) (ptr_add c (8 * (2 * i))); W m (ptr_add b (8 * (2 * i + 1))) (ptr_add c (8 * (2 * i + 1)))) m ts d s size N) as (m' & E & Hsw);
    [lia|done|done|by eapply multiple_sub|by eapply multiple_sub|lia|lia|by eapply Z.divide_trans|done|lia| | |by exists m'].
  - intros pos b c n m1 Hn. unfold f, for_two. by rewrite two_count.
  - intros pos b c i m1 Hpos Hi Hle Hc Hc' Hsw. set (x := pos + 16 * i) in *. replace (8 * (2 * i)) with (16 * i) by lia. replace (8 * (2 * i + 1)) with (16 * i + 8) by lia. rewrite <- (ptr_add_add b (16 * i) 8), <- (ptr_add_add c (16 * i) 8).
    apply (two_words (fun m => W m _ _) (fun m => W m _ _) x); [lia|lia|done| |].
    + apply HW; [lia|lia| | |done]; intros k Hk'; [apply Hc|apply Hc']; lia.
    + intros m2 Hsw2. apply HW; [lia|lia| | |done]; [apply (contig_sub _ x _ 16 8 8 Hc)|apply (contig_sub _ x _ 16 8 8 Hc')]; lia.
Qed.

End Two.

(** ** Whole buffers *)

Section Walks.

Context (m : mem) (d s : abd) (size : Z) (v w : Z -> gf).
Hypothesis Hd : abd_wf d.
Hypothesis Hdk : abd_multiple 512 d.
Hypothesis Hsd : 0 <= size <= abd_size d.
Hypothesis Hk : (512 | size).
Hypothesis Hi : lane_inj (abd_lane d) size.

Abbreviation dl := (abd_lane d).
Abbreviation sl := (abd_lane s).

Lemma raidz_zero_ok : mapped m dl 0 size -> exists m', raidz_zero m d size = Ok m' /\ swept m [(dl, gfun gzero)] 0 size m'.
Proof using Hd Hdk Hsd Hk Hi.
  intros Hm. destruct (walk1 m [(dl, gfun gzero)] size ltac:(separated) clear_word d size) as (m' & E & Hsw); [done|done|done|done|lia| |].
  - intros x p m1 Hx Hle Hc Hsw. unfold clear_word. rewrite <- (wd_zero x). apply store_wd; [done|]. eapply swept_mapped; [exact Hsw|eapply mapped_sub; [exact Hm|lia|lia]|off_lanes].
  - exists m'. split; [|done]. unfold raidz_zero, raidz_zero_abd_cb. by rewrite E.
Qed.

Lemma raidz_mul_ok c : reads m dl 0 size (gfun w) ->
  exists m', abd_iterate_func (raidz_mul_abd_cb (gv c)) d 0 size (m, tt) = Ok (0, (m', tt)) /\ swept m [(dl, gfun (fun i => w i * c)%gf)] 0 size m'.
Proof using Hd Hdk Hsd Hk Hi.
  intros Hw. apply (walk1 m [(dl, gfun (fun i => w i * c)%gf)] size ltac:(separated) (mul_word (gv c)) d size); [done|done|done|done|lia|].
  intros x p m1 Hx Hle Hc Hsw. unfold mul_word. rewrite (load_wd m1 dl x p w Hc); [|still; part Hw]. cbn [mbind res_bind]. rewrite MUL_wd. apply store_wd; [done|].
  apply (reads_mapped _ _ _ _ (gfun w)). still. part Hw.
Qed.

Hypothesis Hs : abd_wf s.
Hypothesis Hsk : abd_multiple 512 s.
Hypothesis Hss : size <= abd_size s.
Hypothesis Hap : apart dl sl size size.
Hypothesis Hv : reads m sl 0 size (gfun v).

Lemma raidz_copy_ok : mapped m dl 0 size -> exists m', raidz_copy m d s size = Ok m' /\ swept m [(dl, gfun v)] 0 size m'.
Proof using Hd Hdk Hsd Hk Hi Hs Hsk Hss Hap Hv.
  intros Hm. destruct (walk2 m [(dl, gfun v)] size ltac:(separated) copy_word d s size) as (m' & E & Hsw); [done..|lia|lia|done|lia| |].
  - intros x p q m1 Hx Hle Hc Hc' Hsw. unfold copy_word. rewrite (load_wd m1 sl x q v Hc'); [|still; part Hv]. cbn [mbind res_bind]. apply store_wd; [done|].
    eapply swept_mapped; [exact Hsw|eapply mapped_sub; [exact Hm|lia|lia]|off_lanes].
  - exists m'. split; [|done]. unfold raidz_copy, raidz_copy_abd_cb. by rewrite E.
Qed.

Lemma raidz_add_ok : reads m dl 0 size (gfun w) -> exists m', raidz_add m d s size = Ok m' /\ swept m [(dl, gfun (fun i => w i + v i)%gf)] 0 size m'.
Proof using Hd Hdk Hsd Hk Hi Hs Hsk Hss Hap Hv.
  intros Hw. destruct (walk2 m [(dl, gfun (fun i => w i + v i)%gf)] size ltac:(separated) add_word d s size) as (m' & E & Hsw); [done..|lia|lia|done|lia| |].
  - intros x p q m1 Hx Hle Hc Hc' Hsw. unfold add_word, XOR_ACC. rewrite (load_wd m1 dl x p w Hc), (load_wd m1 sl x q v Hc'); [|still; part Hv|still; part Hw]. cbn [mbind res_bind].
    change (Z.lxor (wd w x) (wd v x)) with (XOR (wd v x) (wd w x)). rewrite XOR_wd. apply store_wd; [done|]. apply (reads_mapped _ _ _ _ (gfun w)). still. part Hw.
  - exists m'. split; [|done]. unfold raidz_add, raidz_add_abd_cb. by rewrite E.
Qed.

End Walks.

(** ** Syndromes *)

Definition syn_data (k d : Z) (t : ptr) (m : mem) : res mem := if k =? 0 then P_D_SYNDROME d t m else if k =? 1 then Q_D_SYNDROME d t m else R_D_SYNDROME d t m.
Definition syn_rest (k : Z) (t : ptr) (m : mem) : res mem := if k =? 0 then Ok m else if k =? 1 then Q_SYNDROME t m else R_SYNDROME t m.

Fixpoint each (fs : list (mem -> res mem)) (m : mem) : res mem := match fs with [] => Ok m | [f] => f m | f :: fs' => m ← f m; each fs' m end.

Lemma each_cons f fs m : each (f :: fs) m = (m ← f m; each fs m).
Proof. destruct fs; [|done]. cbn. by destruct (f m). Qed.

(** The callback for targets that hold the syndromes [ks]. *)
Definition syn_words (ks : list Z) (c : list ptr) (dc : option ptr) (csize dsize : Z) (m : mem) : res mem :=
  syndrome_loops (fun d i m => each (zip_with (fun k p => syn_data k d (ptr_add p (8 * i))) ks c) m)
    (fun i m => each (zip_with (fun k p => syn_rest k (ptr_add p (8 * i))) ks c) m) dc csize dsize m.

Lemma syndrome_loops_ext f f' g g' dc csize dsize m :
  (forall d i m, f d i m = f' d i m) -> (forall i m, g i m = g' i m) -> syndrome_loops f g dc csize dsize m = syndrome_loops f' g' dc csize dsize m.
Proof.
  intros Hf Hg. unfold syndrome_loops. rewrite (for_range_ext _ _ _ (fun i m => d ← deref dc; d0 ← load64 m (ptr_add d (8 * i)); f' d0 i m)).
  - destruct (for_range 0 _ _ m) as [m1|]; [|done]. cbn [mbind res_bind]. apply for_range_ext. intros i m2. apply Hg.
  - intros i m1. destruct dc as [p|]; [|done]. cbn [deref mbind res_bind]. destruct (load64 _ _); [|done]. cbn [mbind res_bind]. apply Hf.
Qed.

Ltac is_syn_words c := intros; repeat (destruct c as [|? c]; try discriminate); by apply syndrome_loops_ext.

Lemma gen_pq_words c dc csize dsize m : length c = 2%nat -> raidz_gen_pq_add c dc csize dsize m = syn_words [0; 1] c dc csize dsize m.
Proof. is_syn_words c. Qed.

Lemma gen_pqr_words c dc csize dsize m : length c = 3%nat -> raidz_gen_pqr_add c dc csize dsize m = syn_words [0; 1; 2] c dc csize dsize m.
Proof. is_syn_words c. Qed.

Lemma syn_q_words c dc csize dsize m : length c = 1%nat -> raidz_syn_q_abd c dc csize dsize m = syn_words [1] c dc csize dsize m.
Proof. is_syn_words c. Qed.

Lemma syn_r_words c dc csize dsize m : length c = 1%nat -> raidz_syn_r_abd c dc csize dsize m = syn_words [2] c dc csize dsize m.
Proof. is_syn_words c. Qed.

Lemma syn_pq_words c dc csize dsize m : length c = 2%nat -> raidz_syn_pq_abd c dc csize dsize m = syn_words [0; 1] c dc csize dsize m.
Proof. is_syn_words c. Qed.

Lemma syn_pr_words c dc csize dsize m : length c = 2%nat -> raidz_syn_pr_abd c dc csize dsize m = syn_words [0; 2] c dc csize dsize m.
Proof. is_syn_words c. Qed.

Lemma syn_qr_words c dc csize dsize m : length c = 2%nat -> raidz_syn_qr_abd c dc csize dsize m = syn_words [1; 2] c dc csize dsize m.
Proof. is_syn_words c. Qed.

Lemma syn_pqr_words c dc csize dsize m : length c = 3%nat -> raidz_syn_pqr_abd c dc csize dsize m = syn_words [0; 1; 2] c dc csize dsize m.
Proof. is_syn_words c. Qed.

(** A target: its buffer, the syndrome and what it holds. *)
Abbreviation target := (abd * Z * (Z -> gf))%type.

Definition tgt_old (t : target) : lane * (Z -> Z) := (abd_lane t.1.1, gfun t.2).
Definition tgt_new (v : Z -> gf) (t : target) : lane * (Z -> Z) := (abd_lane t.1.1, gfun (fun i => t.2 i * gpow t.1.2 + v i)%gf).

Lemma syn_data_ok k v w l x p m :
  0 <= k <= 2 -> contig l x p 8 -> reads m l x (x + 8) (gfun w) ->
  exists m', syn_data k (wd v x) p m = Ok m' /\ swept m [(l, gfun (fun i => w i * gpow k + v i)%gf)] x (x + 8) m'.
Proof.
  intros Hk Hc Hr. assert (E : syn_data k (wd v x) p m = store64 m p (wd (fun i => w i * gpow k + v i)%gf x)).
  { unfold syn_data, P_D_SYNDROME, Q_D_SYNDROME, R_D_SYNDROME. rewrite (load_wd m l x p w Hc Hr). cbn [mbind res_bind]. destruct (Z.eqb_spec k 0) as [->|H0]; [|destruct (Z.eqb_spec k 1) as [->|H1]].
    - rewrite XOR_wd. f_equal. apply wd_ext. intros i _. rewrite gpow_0. ring.
    - by rewrite MUL2_wd, XOR_wd.
    - assert (k = 2) as -> by lia. by rewrite MUL4_wd, XOR_wd. }
  rewrite E. apply store_wd; [done|by eapply reads_mapped].
Qed.

Lemma swept_same m l w lo hi : reads m l lo hi w -> swept m [(l, w)] lo hi m.
Proof. intros H. constructor; [by intros l' w' [= -> ->]%list_elem_of_singleton|done]. Qed.

Lemma syn_rest_ok k v w l x p m :
  0 <= k <= 2 -> (forall i, x <= i < x + 8 -> v i = g0) -> contig l x p 8 -> reads m l x (x + 8) (gfun w) ->
  exists m', syn_rest k p m = Ok m' /\ swept m [(l, gfun (fun i => w i * gpow k + v i)%gf)] x (x + 8) m'.
Proof.
  intros Hk Hz Hc Hr. assert (Hnew : forall i, x <= i < x + 8 -> gfun (fun i => w i * gpow k)%gf i = gfun (fun i => w i * gpow k + v i)%gf i).
  { intros i Hi. unfold gfun. f_equal. rewrite Hz by done. ring. }
  assert (Hst : forall f, store64 m p (wd (fun i => w i * gpow k)%gf x) = f -> exists m', f = Ok m' /\ swept m [(l, gfun (fun i => w i * gpow k + v i)%gf)] x (x + 8) m').
  { intros f <-. destruct (store_wd m l x p (fun i => w i * gpow k)%gf Hc) as (m' & E & Hsw); [by eapply reads_mapped|]. exists m'. split; [done|]. by eapply swept_ext. }
  unfold syn_rest, Q_SYNDROME, R_SYNDROME. rewrite (load_wd m l x p w Hc Hr). cbn [mbind res_bind]. destruct (Z.eqb_spec k 0) as [->|H0]; [|destruct (Z.eqb_spec k 1) as [->|H1]].
  - exists m. split; [done|]. apply swept_same. intros i Hi. rewrite Hr by done. rewrite <- Hnew by done. unfold gfun. rewrite gpow_0. do 2 f_equal. ring.
  - apply Hst. by rewrite MUL2_wd.
  - assert (k = 2) as -> by lia. apply Hst. by rewrite MUL4_wd.
Qed.

(** Steps that write to their own lane, and depend on no other. *)
Lemma each_ok fs ts x N m :
  separate (fst <$> ts) N -> 0 <= x -> x + 8 <= N ->
  Forall2 (fun (f : mem -> res mem) (t : lane * (Z -> Z)) => forall m1, (forall i, x <= i < x + 8 -> mbyte m1 (t.1 i) = mbyte m (t.1 i)) -> exists m2, f m1 = Ok m2 /\ swept m1 [t] x (x + 8) m2) fs ts ->
  exists m', each fs m = Ok m' /\ swept m ts x (x + 8) m'.
Proof.
  intros Hsep Hx HN. revert m ts Hsep. induction fs as [|f fs IH]; intros m ts Hsep H; inversion H as [|? [l w] ? ts' Hf Hfs]; subst; cbn [fst] in *.
  - exists m. split; [done|]. constructor; [|done]. by intros l w Hin%elem_of_nil.
  - rewrite each_cons. destruct (Hf m) as (m1 & E1 & Hsw1); [done|]. rewrite E1. cbn [mbind res_bind].
    assert (Hoff : forall l' w' i j, (l', w') ∈ ts' -> x <= i < x + 8 -> x <= j < x + 8 -> l i <> l' j).
    { intros l' w' i j [a Ha]%list_elem_of_lookup Hi Hj E. destruct (Hsep 0%nat (S a) l l' i j) as [? _]; try done; try lia. change ((fst <$> ts') !! a = Some l'). by rewrite list_lookup_fmap, Ha. }
    destruct (IH m1 ts') as (m2 & E2 & Hsw2).
    + intros a b l1 l2 i j Ha Hb Hi Hj E. destruct (Hsep (S a) (S b) l1 l2 i j) as [? ->]; try done. split; [lia|done].
    + apply Forall2_same_length_lookup_2; [by eapply Forall2_length|]. intros a f' [l' w'] Ha Hb m2 Hm2. pose proof (Forall2_lookup_lr _ _ _ _ _ _ Hfs Ha Hb) as Hf'. apply Hf'. intros i Hi. rewrite Hm2 by done.
      apply (sw_old _ _ _ _ _ Hsw1). intros l1 w1 [= -> ->]%list_elem_of_singleton j Hj E. apply (Hoff l' w' j i); [by eapply list_elem_of_lookup_2|done..].
    + exists m2. split; [done|]. apply (swept_app m [(l, w)] ts' x (x + 8) m1 m2 Hsw1 Hsw2). intros l1 w1 l2 w2 i j [= -> ->]%list_elem_of_singleton Hin Hi Hj. by apply (Hoff l2 w2).
Qed.

(** What is ahead of a walk is as it was. *)
Lemma swept_ahead m ts x m1 l w N hi :
  swept m ts 0 x m1 -> separate (fst <$> ts) N -> l ∈ fst <$> ts -> reads m l 0 N w -> 0 <= x -> hi <= N -> reads m1 l x hi w.
Proof.
  intros Hsw Hsep Hl Hr Hx Hhi i Hi. rewrite (sw_old _ _ _ _ _ Hsw); [apply Hr; lia|]. intros l' w' Hin j Hj E.
  apply list_elem_of_lookup in Hl as [a Ha]. apply list_elem_of_lookup in Hin as [b Hb]. destruct (Hsep a b l l' i j) as [_ ->]; [done|by rewrite list_lookup_fmap, Hb|lia|lia|done|lia].
Qed.

Lemma tgt_new_lanes v (T : list target) : fst <$> (tgt_new v <$> T) = (abd_lane ∘ fst ∘ fst) <$> T.
Proof. by rewrite <- list_fmap_compose. Qed.

Section Syndrome.

Context (f : list ptr -> option ptr -> Z -> Z -> mem -> res mem) (T : list target) (csize : Z) (m : mem).

Abbreviation ks := (snd ∘ fst <$> T).
Abbreviation tabds := (fst ∘ fst <$> T).

Hypothesis Hf : forall cs dc n dn m, length cs = length T -> f cs dc n dn m = syn_words ks cs dc n dn m.
Hypothesis HT : Forall (fun t : target => (abd_wf t.1.1 /\ abd_multiple 512 t.1.1) /\ csize <= abd_size t.1.1) T.
Hypothesis HT0 : T <> [].
Hypothesis Hks : Forall (fun t : target => 0 <= t.1.2 <= 2) T.
Hypothesis Hcs : 0 <= csize.
Hypothesis Hck : (512 | csize).
Hypothesis Hsep : separate ((abd_lane ∘ fst ∘ fst) <$> T) csize.
Hypothesis HR : forall t, t ∈ T -> reads m (abd_lane t.1.1) 0 csize (gfun t.2).

Lemma syn_each_ok F v cs pos n i m1 :
  0 <= pos -> pos + n <= csize -> 0 <= i -> 8 * i + 8 <= n -> Forall2 (fun t p => contig (abd_lane t.1.1) pos p n) T cs -> swept m (tgt_new v <$> T) 0 (pos + 8 * i) m1 ->
  (forall t p m, t ∈ T -> contig (abd_lane t.1.1) (pos + 8 * i) p 8 -> reads m (abd_lane t.1.1) (pos + 8 * i) (pos + 8 * i + 8) (gfun t.2) ->
     exists m', F t.1.2 p m = Ok m' /\ swept m [tgt_new v t] (pos + 8 * i) (pos + 8 * i + 8) m') ->
  exists m2, each (zip_with (fun k p => F k (ptr_add p (8 * i))) ks cs) m1 = Ok m2 /\ swept m1 (tgt_new v <$> T) (pos + 8 * i) (pos + 8 * i + 8) m2.
Proof using Hsep HR.
  intros Hp Hn Hi Hin Hc Hsw HF. apply each_ok with csize; [by rewrite tgt_new_lanes|lia|lia|].
  apply Forall2_same_length_lookup_2; [rewrite length_zip_with, !length_fmap, <- (Forall2_length _ _ _ Hc); lia|]. intros a f' t' Ha Ht m2 Hm2. rewrite list_lookup_fmap in Ht.
  destruct (T !! a) as [t|] eqn:Et; [|done]. injection Ht as <-. apply lookup_zip_with_Some in Ha as (k & p & -> & Hk & Hpa). rewrite list_lookup_fmap, Et in Hk. injection Hk as <-.
  apply list_elem_of_lookup_2 in Et as Ht. apply HF; [done| |].
  - eapply contig_sub; [exact (Forall2_lookup_lr _ _ _ _ _ _ Hc Et Hpa)|lia|lia].
  - intros j Hj. cbn [tgt_new fst] in Hm2. rewrite (Hm2 j Hj). revert j Hj. eapply (swept_ahead m (tgt_new v <$> T) (pos + 8 * i) m1 _ _ csize); [done|by rewrite tgt_new_lanes| |by apply HR|lia|lia]. rewrite tgt_new_lanes. apply list_elem_of_fmap. by exists t.
Qed.

Lemma syn_iterate_ok dabd dsize v :
  match dabd with Some a => abd_wf a /\ abd_multiple 512 a /\ dsize = abd_size a | None => dsize = 0 end -> (512 | dsize) ->
  (forall a, dabd = Some a -> reads m (abd_lane a) 0 dsize (gfun v) /\ forall t, t ∈ T -> apart (abd_lane t.1.1) (abd_lane a) csize dsize) ->
  (forall i, dsize <= i -> v i = g0) ->
  exists m', abd_raidz_gen_iterate f tabds dabd csize dsize m = Ok m' /\ swept m (tgt_new v <$> T) 0 csize m'.
Proof using All.
  intros Hd Hdk Hdr Hz. assert (D8 : (8 | 512)) by (by exists 64). assert (Hsep' : separate (fst <$> (tgt_new v <$> T)) csize) by (by rewrite tgt_new_lanes).
  apply (gen_inv 512 (fun pos m1 => swept m (tgt_new v <$> T) 0 pos m1)); [by apply Forall_fmap|by destruct T|done|done|done|done| |apply swept_empty].
  intros pos cs dp n m1 Hpos Hn Hle Hkp Hkn Hc Hdp Hsw. apply Forall2_fmap_l in Hc. rewrite Hf by (symmetry; by eapply Forall2_length). unfold syn_words, syndrome_loops.
  rewrite Forall_forall in Hks. destruct (Z.ltb_spec pos dsize) as [Hlt|Hge].
  - destruct (Hdp Hlt) as (Hdn & a & p & Ea & -> & Hcd). destruct (Hdr a Ea) as [Hra Hoff]. cbn [deref mbind res_bind].
    match goal with |- context [for_range 0 (n / 8) ?B m1] => destruct (units_loop 8 m (tgt_new v <$> T) 0 csize pos n csize B m1) as (m2 & E2 & Hsw2) end; [lia|done|lia|lia|lia|lia|by eapply Z.divide_trans|done| |].
    + intros i m2 Hi Hin Hsw2. rewrite (load_wd m2 (abd_lane a) (pos + 8 * i) (ptr_add p (8 * i)) v); [| |].
      * cbn [mbind res_bind]. apply (syn_each_ok (fun k => syn_data k (wd v (pos + 8 * i))) v cs pos n i m2); [lia|lia|lia|lia|done|done|]. intros t q m3 Ht Hcq Hrq. apply syn_data_ok; [by apply Hks|done|done].
      * eapply contig_sub; [exact Hcd|lia|lia].
      * eapply swept_reads; [exact Hsw2|part Hra|]. intros l w j j' (t & [= -> ->] & Ht)%list_elem_of_fmap Hj Hj'. apply not_eq_sym, (Hoff t Ht); lia.
    + exists m2. rewrite E2. cbn [mbind res_bind]. rewrite for_range_empty by lia. done.
  - change (0 / 8) with 0. rewrite (for_range_empty 0 0) by lia. cbn [mbind res_bind].
    match goal with |- context [for_range 0 (n / 8) ?B m1] => destruct (units_loop 8 m (tgt_new v <$> T) 0 csize pos n csize B m1) as (m2 & E2 & Hsw2) end; [lia|done|lia|lia|lia|lia|by eapply Z.divide_trans|done| |by exists m2].
    intros i m2 Hi Hin Hsw2. apply (syn_each_ok syn_rest v cs pos n i m2); [lia|lia|lia|lia|done|done|]. intros t q m3 Ht Hcq Hrq. apply syn_rest_ok; [by apply Hks|intros j Hj; apply Hz; lia|done|done].
Qed.

End Syndrome.

(** The same contents, written otherwise. *)
Lemma swept_pointwise m ts ts' lo hi m' :
  swept m ts lo hi m' -> Forall2 (fun t t' : lane * (Z -> Z) => t.1 = t'.1 /\ forall i, lo <= i < hi -> t.2 i = t'.2 i) ts ts' -> swept m ts' lo hi m'.
Proof.
  intros [Hn Ho] H. constructor.
  - intros l w Hin i Hi. apply list_elem_of_lookup in Hin as [a Ha]. destruct (Forall2_lookup_r _ _ _ _ _ H Ha) as ([l' w'] & Ha' & E & Ew). cbn in E, Ew. subst l'. rewrite <- Ew by done.
    apply (Hn l w'); [by eapply list_elem_of_lookup_2|done].
  - intros x Hx. apply Ho. intros l w Hin i Hi. apply list_elem_of_lookup in Hin as [a Ha]. destruct (Forall2_lookup_l _ _ _ _ _ H Ha) as ([l' w'] & Ha' & E & Ew). cbn in E. subst l'.
    apply (Hx l w'); [by eapply list_elem_of_lookup_2|done].
Qed.

(** No byte is lost. *)
Lemma swept_some m ts lo hi m' x : swept m ts lo hi m' -> is_Some (mbyte m x) -> is_Some (mbyte m' x).
Proof.
  intros [Hn Ho] Hx. destruct (decide (Exists (fun t : lane * (Z -> Z) => Exists (fun i => x = t.1 i) (seqZ lo (hi - lo))) ts)) as [H|H].
  - apply Exists_exists in H as ([l w] & Hin & (i & Hi%elem_of_seqZ & ->)%Exists_exists). cbn [fst]. rewrite (Hn l w Hin i) by lia. done.
  - rewrite Ho; [done|]. intros l w Hin i Hi ->. apply H, Exists_exists. exists (l, w). split; [done|]. apply Exists_exists. exists i. split; [apply elem_of_seqZ; lia|done].
Qed.

Lemma zip_proj_l {A B C D} (g : C -> D) (h : A -> D) (F : A -> B -> C) l k : (forall x y, g (F x y) = h x) -> length k = length l -> g <$> zip_with F l k = h <$> l.
Proof. intros H. revert k. induction l as [|x l IH]; intros [|y k] E; try done. cbn. rewrite H. f_equal. apply IH. by injection E. Qed.

Lemma zip_proj_r {A B C} (g : C -> B) (F : A -> B -> C) l k : (forall x y, g (F x y) = y) -> length k = length l -> g <$> zip_with F l k = k.
Proof. intros H E. apply fmap_zip_with_r; [done|lia]. Qed.

(** The contents with zeros for what is lost. *)
Definition without (bad : list nat) (vs : list (Z -> gf)) : list (Z -> gf) := imap (fun j v => if decide (j ∈ bad) then gzero else v) vs.

Lemma without_lookup bad vs j v : vs !! j = Some v -> without bad vs !! j = Some (if decide (j ∈ bad) then gzero else v).
Proof. intros E. unfold without. by rewrite list_lookup_imap, E. Qed.

Lemma without_nil vs : without [] vs = vs.
Proof. apply list_eq. intros j. unfold without. rewrite list_lookup_imap. destruct (vs !! j); [|done]. cbn. rewrite decide_False; [done|]. by intros ?%elem_of_nil. Qed.

Section Columns.

Context (rm : raidz_map) (pb db : list abd).
Hypothesis Hwf : raidz_wf rm pb db.
Context (m : mem) (vs : list (Z -> gf)) (bad : list nat).
Hypothesis Hst : rec_state m pb db vs bad.
Context (tabds : list abd) (ks : list Z) (xs : Z).
Hypothesis Hlk : length ks = length tabds.
Hypothesis Hne : tabds <> [].
Hypothesis Htab : Forall (fun a => (abd_wf a /\ abd_multiple 512 a) /\ xs <= abd_size a) tabds.
Hypothesis Hks : Forall (fun k => 0 <= k <= 2) ks.
Hypothesis Hxs : 0 <= xs <= raidz_big rm.
Hypothesis Hxk : (512 | xs).
Hypothesis Hsep : separate (abd_lane <$> tabds) xs.
Hypothesis Hoff : forall t j a, t ∈ tabds -> db !! j = Some a -> j ∉ bad -> apart (abd_lane t) (abd_lane a) xs (abd_size a).
Hypothesis Hmap : forall t, t ∈ tabds -> mapped m (abd_lane t) 0 xs.

Abbreviation first := (rm_firstdatacol rm).
Abbreviation zs := (without bad vs).

Definition tgts (us : list (Z -> gf)) : list target := zip_with (fun a k => (a, k, parity_at k us)) tabds ks.
Definition held (us : list (Z -> gf)) : list (lane * (Z -> Z)) := zip_with (fun a k => (abd_lane a, gfun (parity_at k us))) tabds ks.

Lemma tgts_abd {X} (g : abd -> X) us : (g ∘ fst ∘ fst) <$> tgts us = g <$> tabds.
Proof using Hlk. unfold tgts. by apply zip_proj_l. Qed.

Lemma tgts_k us : (snd ∘ fst) <$> tgts us = ks.
Proof using Hlk. unfold tgts. by apply zip_proj_r. Qed.

Lemma tgts_elem t us : t ∈ tgts us -> exists a k, t = (a, k, parity_at k us) /\ a ∈ tabds /\ k ∈ ks.
Proof.
  intros Ht. apply list_elem_of_lookup in Ht as [i Hi]. apply lookup_zip_with_Some in Hi as (a & k & -> & Ha & Hk). exists a, k. split_and!; [done|by eapply list_elem_of_lookup_2..].
Qed.

Lemma held_fst us : fst <$> held us = abd_lane <$> tabds.
Proof using Hlk. unfold held. by apply zip_proj_l. Qed.

(** One more column. *)
Lemma held_snoc m2 us z m3 : swept m2 (tgt_new z <$> tgts us) 0 xs m3 -> swept m2 (held (us ++ [z])) 0 xs m3.
Proof.
  intros Hsw. eapply swept_pointwise; [exact Hsw|]. unfold tgts, held. clear. revert ks. induction tabds as [|a l IH]; intros [|k ks']; [constructor..|]. cbn. constructor; [|apply IH].
  split; [done|]. intros i _. cbn. unfold gfun. by rewrite parity_snoc.
Qed.

Lemma start_ok first_abd z l :
  (forall a, first_abd = Some a -> abd_wf a /\ abd_multiple 512 a /\ xs <= abd_size a /\ reads m (abd_lane a) 0 xs (gfun z) /\ forall t, t ∈ tabds -> apart (abd_lane t) (abd_lane a) xs xs) ->
  (first_abd = None -> z = gzero) -> (exists l0, tabds = l0 ++ l) ->
  forall m1, (forall t, t ∈ l -> mapped m1 (abd_lane t) 0 xs) -> (forall a, first_abd = Some a -> reads m1 (abd_lane a) 0 xs (gfun z)) ->
  exists m2, start_syndrome m1 first_abd l xs = Ok m2 /\ swept m1 ((fun a => (abd_lane a, gfun z)) <$> l) 0 xs m2.
Proof using Hlk Htab Hxs Hxk Hsep.
  intros Hf Hz. induction l as [|t l IH]; intros (l0 & El) m1 Hm Hr; [exists m1; split; [done|]; constructor; [by intros ? ? ?%elem_of_nil|done]|].
  assert (Hin : t ∈ tabds) by (rewrite El; apply elem_of_app; right; by left). rewrite Forall_forall in Htab. destruct (Htab t Hin) as [[Hwt Hkt] Hst'].
  assert (Hlt : tabds !! length l0 = Some t) by (rewrite El, lookup_app_r by lia; by rewrite Nat.sub_diag).
  assert (Hinj : lane_inj (abd_lane t) xs) by (intros i j Hi Hj E; apply (Hsep (length l0) (length l0) (abd_lane t) (abd_lane t) i j); rewrite ?list_lookup_fmap, ?Hlt; done).
  assert (H1 : exists m2, match first_abd with Some a => raidz_copy m1 t a xs | None => raidz_zero m1 t xs end = Ok m2 /\ swept m1 [(abd_lane t, gfun z)] 0 xs m2).
  { destruct first_abd as [a|]; [|rewrite Hz by done; apply raidz_zero_ok; [done|done|lia|done|done|apply Hm; by left]].
    destruct (Hf a eq_refl) as (Hwa & Hka & Hsa & _ & Hap). apply raidz_copy_ok; [done|done|lia|done|done|done|done|done|by apply Hap|by apply Hr|apply Hm; by left]. }
  destruct H1 as (m2 & E2 & Hsw2). cbn [start_syndrome]. rewrite E2. cbn [mbind res_bind].
  assert (Hrest : forall t', t' ∈ l -> apart (abd_lane t) (abd_lane t') xs xs).
  { intros t' [k Hk]%list_elem_of_lookup i j Hi Hj E. assert (Hk' : tabds !! (length l0 + S k)%nat = Some t') by (rewrite El, lookup_app_r by lia; by replace (length l0 + S k - length l0)%nat with (S k) by lia).
    destruct (Hsep (length l0) (length l0 + S k)%nat (abd_lane t) (abd_lane t') i j) as [E' _]; [by rewrite list_lookup_fmap, Hlt|by rewrite list_lookup_fmap, Hk'|done|done|done|lia]. }
  destruct (IH ltac:(exists (l0 ++ [t]); by rewrite <- app_assoc) m2) as (m3 & E3 & Hsw3).
  - intros t' Ht'. eapply swept_mapped; [exact Hsw2|apply Hm; by right|]. intros l' w i j [= -> ->]%list_elem_of_singleton Hi Hj E. by apply (Hrest t' Ht' j i).
  - intros a Ea. destruct (Hf a Ea) as (_ & _ & _ & _ & Hap). eapply swept_reads; [exact Hsw2|by apply Hr|]. intros l' w i j [= -> ->]%list_elem_of_singleton Hi Hj E. by apply (Hap t Hin j i).
  - exists m3. split; [done|]. rewrite fmap_cons. apply (swept_app m1 [_] _ 0 xs m2 m3 Hsw2 Hsw3). intros l1 w l2 w' i j [= -> ->]%list_elem_of_singleton (t' & [= -> ->] & Ht')%list_elem_of_fmap Hi Hj. by apply Hrest.
Qed.

Context (f : list ptr -> option ptr -> Z -> Z -> mem -> res mem).
Hypothesis Hf : forall cs dc n dn m, length cs = length ks -> f cs dc n dn m = syn_words ks cs dc n dn m.

Abbreviation idx := ((fun j : nat => first + Z.of_nat j) <$> bad).

Lemma idx_elem j : first + Z.of_nat j ∈ idx <-> j ∈ bad.
Proof. rewrite list_elem_of_fmap. split; [intros (j' & E & Hj); by assert (j = j') as -> by lia|intros Hj; by exists j]. Qed.

(** The data columns other than the targets, where the targets were written. *)
Lemma good_column us m1 j a v : swept m (held us) 0 xs m1 -> db !! j = Some a -> vs !! j = Some v -> j ∉ bad -> reads m1 (abd_lane a) 0 (abd_size a) (gfun v).
Proof using Hst Hoff.
  intros Hsw Ha Hv Hj. eapply swept_reads; [exact Hsw|by apply (rs_good _ _ _ _ _ Hst j)|]. intros l w i i' Hin Hi Hi' E.
  apply list_elem_of_lookup in Hin as [n Hn]. apply lookup_zip_with_Some in Hn as (t & k & [= -> ->] & Ht & Hk). apply (Hoff t j a) with i' i; [by eapply list_elem_of_lookup_2|done..].
Qed.

Lemma column_step_ok m2 us z dabd dsize :
  swept m (held us) 0 xs m2 ->
  match dabd with Some a => abd_wf a /\ abd_multiple 512 a /\ dsize = abd_size a | None => dsize = 0 end -> (512 | dsize) ->
  (forall a, dabd = Some a -> reads m2 (abd_lane a) 0 dsize (gfun z) /\ forall t, t ∈ tabds -> apart (abd_lane t) (abd_lane a) xs dsize) ->
  (forall i, dsize <= i -> z i = g0) ->
  exists m3, abd_raidz_gen_iterate f tabds dabd xs dsize m2 = Ok m3 /\ swept m (held (us ++ [z])) 0 xs m3.
Proof using All.
  intros Hsw Hd Hdk Hdr Hz. rewrite Forall_forall in Htab. rewrite Forall_forall in Hks.
  destruct (syn_iterate_ok f (tgts us) xs m2) with (dabd := dabd) (dsize := dsize) (v := z) as (m3 & E & Hsw3).
  - intros cs dc n dn m3 El. rewrite tgts_k. apply Hf. rewrite El. unfold tgts. rewrite length_zip_with. lia.
  - apply Forall_forall. intros t (a & k & -> & Ha & Hk)%tgts_elem. by apply Htab.
  - unfold tgts. destruct tabds as [|a l], ks as [|k l']; done.
  - apply Forall_forall. intros t (a & k & -> & Ha & Hk)%tgts_elem. by apply Hks.
  - lia.
  - done.
  - by rewrite tgts_abd.
  - intros t Ht. apply Hsw. apply list_elem_of_lookup in Ht as [i Hi]. apply lookup_zip_with_Some in Hi as (a & k & -> & Ha & Hk). apply (list_elem_of_lookup_2 _ i), lookup_zip_with_Some. by exists a, k.
  - done.
  - done.
  - intros a Ea. destruct (Hdr a Ea) as [Hr Hap]. split; [done|]. intros t (b & k & -> & Hb & Hk)%tgts_elem. by apply Hap.
  - done.
  - assert (Et : fst ∘ fst <$> tgts us = tabds) by (rewrite <- (list_fmap_id tabds); apply (tgts_abd id)). rewrite Et in E. exists m3. split; [done|]. eapply swept_lanes; [exact Hsw|by apply held_snoc|by rewrite !held_fst].
Qed.

Lemma syndrome_columns_ok m1 :
  swept m (held (take 1 zs)) 0 xs m1 -> exists m', syndrome_columns f rm idx tabds xs m1 = Ok m' /\ swept m (held zs) 0 xs m'.
Proof using All.
  intros Hsw1. pose proof (rs_len _ _ _ _ _ Hst) as Hlen. pose proof (cols_length rm pb db Hwf) as Ec. pose proof (proj2 (rw_cols _ _ _ Hwf)) as Hc.
  destruct (for_range_inv (fun c m2 => swept m (held (take (Z.to_nat (c - first)) zs)) 0 xs m2) (first + 1) (rm_cols rm)
    (fun c m => '(dabd, dsize) ← (if bool_decide (c ∈ idx) then Ok (None, 0) else a ← col_abd rm c; size ← raidz_col_size rm c; Ok (Some a, size)); abd_raidz_gen_iterate f tabds dabd xs dsize m) m1)
    as (m' & E & Hsw); [lia| | |].
  - intros c m2 Hcr Hsw2. set (j := Z.to_nat (c - first)) in *. destruct (lookup_lt_is_Some_2 db j ltac:(lia)) as [a Ha]. destruct (lookup_lt_is_Some_2 vs j ltac:(lia)) as [v Hv].
    pose proof (without_lookup bad vs j v Hv) as Hz. set (z := if decide (j ∈ bad) then gzero else v) in *.
    destruct (wf_data_col rm pb db Hwf j a Ha) as (rc & Erc & Ea & Es). replace (first + Z.of_nat j) with c in Erc by lia. unfold col_abd, raidz_col_size. rewrite Erc. cbn [mbind res_bind]. rewrite Ea, Es. cbn [deref mbind res_bind].
    replace (Z.to_nat (c + 1 - first)) with (S j) by lia. rewrite (take_S_r _ _ _ Hz).
    assert (Hidx : bool_decide (c ∈ idx) = bool_decide (j ∈ bad)) by (apply bool_decide_ext; replace c with (first + Z.of_nat j) by lia; apply idx_elem). rewrite Hidx.
    destruct (bool_decide_reflect (j ∈ bad)) as [Hin|Hni]; cbn [mbind res_bind].
    + apply column_step_ok; [done|done|apply Z.divide_0_r|done|]. intros i _. subst z. by rewrite decide_True.
    + destruct (wf_db rm pb db Hwf j a Ha) as (Hwa & Hka & _). subst z. rewrite decide_False by done. apply column_step_ok; [done|done|apply Hka| |by apply (rs_zero _ _ _ _ _ Hst j a)].
      intros a' [= <-]. split; [by eapply good_column|]. intros t Ht. by apply (Hoff t j).
  - by replace (Z.to_nat (first + 1 - first)) with 1%nat by lia.
  - exists m'. split; [done|]. rewrite take_ge in Hsw; [done|]. unfold without. rewrite length_imap. lia.
Qed.

(** The first column. *)
Lemma start_columns_ok a0 v0 :
  db !! 0%nat = Some a0 -> vs !! 0%nat = Some v0 ->
  exists m1, start_syndrome m (if decide (0%nat ∈ bad) then None else Some a0) tabds xs = Ok m1 /\ swept m (held (take 1 zs)) 0 xs m1.
Proof using Hwf Hst Hlk Htab Hxs Hxk Hsep Hoff Hmap.
  intros Ha Hv. destruct (wf_db rm pb db Hwf 0 a0 Ha) as (Hwa & Hka & _). pose proof (rw_full _ _ _ Hwf a0 Ha) as Hbig. pose proof (without_lookup bad vs 0 v0 Hv) as Hz.
  set (z := if decide (0%nat ∈ bad) then gzero else v0) in *.
  assert (Hr : forall a, (if decide (0%nat ∈ bad) then None else Some a0) = Some a -> a = a0 /\ 0%nat ∉ bad /\ z = v0) by (intros a Ea; subst z; destruct (decide (0%nat ∈ bad)); [done|by injection Ea as <-]).
  assert (Hr' : forall a, (if decide (0%nat ∈ bad) then None else Some a0) = Some a -> reads m (abd_lane a) 0 xs (gfun z)).
  { intros a (-> & Hni & ->)%Hr. eapply reads_sub; [by apply (rs_good _ _ _ _ _ Hst 0%nat a0 v0)|lia|lia]. }
  destruct (start_ok (if decide (0%nat ∈ bad) then None else Some a0) z tabds) with (m1 := m) as (m1 & E & Hsw); [| |by exists []|done|done|].
  - intros a Ea. pose proof (Hr' a Ea) as Hra. apply Hr in Ea as (-> & Hni & _). split_and!; [done|done|lia|done|]. intros t Ht. eapply apart_sub; [by apply (Hoff t 0%nat a0)|lia|lia].
  - subst z. by destruct (decide _).
  - exists m1. split; [done|]. eapply swept_pointwise; [exact Hsw|]. rewrite (take_S_r _ _ _ Hz), take_0. cbn [app]. unfold held. clear -Hlk. revert ks Hlk. induction tabds as [|a l IH]; intros [|k ks'] El; try done.
    cbn [zip_with fmap list_fmap]. constructor; [|apply IH; by injection El]. split; [done|]. intros i _. cbn [fst snd]. unfold gfun. by rewrite parity_one.
Qed.

(** The targets get the syndromes. *)
Lemma syndrome_ok : bad <> [] -> StronglySorted lt bad -> exists m', syndrome f m rm idx tabds xs = Ok m' /\ swept m (held zs) 0 xs m'.
Proof using All.
  intros Hbad Hso. pose proof (rs_len _ _ _ _ _ Hst) as Hlen. pose proof (cols_length rm pb db Hwf) as Ec. pose proof (proj2 (rw_cols _ _ _ Hwf)) as Hc.
  destruct (lookup_lt_is_Some_2 db 0 ltac:(lia)) as [a0 Ha]. destruct (lookup_lt_is_Some_2 vs 0 ltac:(lia)) as [v0 Hv]. destruct (start_columns_ok a0 v0 Ha Hv) as (m1 & E1 & Hsw1).
  destruct (wf_data_col rm pb db Hwf 0 a0 Ha) as (rc & Erc & Ea & Es). replace (first + Z.of_nat 0) with first in Erc by lia.
  destruct (syndrome_columns_ok m1 Hsw1) as (m' & E' & Hsw'). exists m'. split; [|done]. rewrite <- E'. unfold syndrome.
  assert (Hx : exists j0, bad !! 0%nat = Some j0 /\ (j0 = 0%nat <-> 0%nat ∈ bad)).
  { destruct bad as [|j0 bad']; [done|]. exists j0. split; [done|]. split; [intros ->; by left|]. intros [->|Hin]%elem_of_cons; [done|]. apply StronglySorted_inv in Hso as [_ Hs]. rewrite Forall_forall in Hs. specialize (Hs _ Hin). lia. }
  destruct Hx as (j0 & E0 & Hj0). rewrite list_lookup_fmap, E0. cbn [fmap option_fmap option_map deref mbind res_bind].
  replace (if first =? first + Z.of_nat j0 then Ok None else a ← col_abd rm first; Ok (Some a)) with (Ok (if decide (0%nat ∈ bad) then None else Some a0)).
  - cbn [mbind res_bind]. by rewrite E1.
  - unfold col_abd. rewrite Erc. cbn [mbind res_bind]. rewrite Ea. cbn [deref mbind res_bind]. destruct (Z.eqb_spec first (first + Z.of_nat j0)), (decide (0%nat ∈ bad)) as [Hd|Hd]; try done; exfalso; [apply Hd, Hj0; lia|apply Hj0 in Hd; lia].
Qed.

End Columns.

(** ** Generation *)

Section Generate.

Context (rm : raidz_map) (pb db : list abd).
Hypothesis Hwf : raidz_wf rm pb db.
Context (m : mem) (vs : list (Z -> gf)).
Hypothesis Hpm : forall a, a ∈ pb -> mapped m (abd_lane a) 0 (raidz_big rm).
Hypothesis Hdata : raidz_data m db vs.

Abbreviation N := (raidz_big rm).
Abbreviation first := (rm_firstdatacol rm).

Lemma gen_state : rec_state m pb db vs [].
Proof.
  constructor.
  - symmetry. by eapply Forall2_length.
  - intros j a v Ha Hv _. by destruct (Forall2_lookup_lr _ _ _ _ _ _ Hdata Ha Hv).
  - intros j a v Ha Hv _. by destruct (Forall2_lookup_lr _ _ _ _ _ _ Hdata Ha Hv).
  - intros a [Ha|Ha]%elem_of_app.
    + apply list_elem_of_lookup in Ha as [k Hk]. destruct (wf_pb rm pb db Hwf k a Hk) as [Ho _]. destruct (own_linear _ _ Ho) as [_ Es]. rewrite Es. apply Hpm. by eapply list_elem_of_lookup_2.
    + apply list_elem_of_lookup in Ha as [j Hj]. destruct (Forall2_lookup_l _ _ _ _ _ Hdata Hj) as (v & _ & Hr & _). by eapply reads_mapped.
Qed.

Lemma parity_bufs k a : pb !! k = Some a -> abd_wf a /\ abd_multiple 512 a /\ abd_size a = N /\ lane_inj (abd_lane a) N /\ col_abd rm (Z.of_nat k) = Ok a /\ raidz_col_size rm (Z.of_nat k) = Ok N.
Proof.
  intros E. destruct (wf_pb rm pb db Hwf k a E) as [Ho Hwa]. destruct (own_linear _ _ Ho) as [_ Es]. destruct (wf_parity_buf rm pb db Hwf k a E) as (rc & Erc & Ez & _ & Ea & _).
  split_and!; [done|by eapply own_multiple; [|apply (rw_big _ _ _ Hwf)]|done| |done|unfold raidz_col_size; by rewrite Erc; cbn; rewrite Ez].
  intros i j Hi Hj E'. rewrite !(own_lane _ _ Ho) in E' by done. by apply (ptr_lane_inj _ N) in E'.
Qed.

Lemma parity_lanes_apart k k' a b : pb !! k = Some a -> pb !! k' = Some b -> k <> k' -> apart (abd_lane a) (abd_lane b) N N.
Proof.
  intros Ha Hb Hne. destruct (parity_bufs k a Ha) as (Hwa & _ & Ea & _), (parity_bufs k' b Hb) as (Hwb & _ & Eb & _).
  apply (wf_apart rm pb db Hwf k k'); [by apply lookup_app_l_Some|by apply lookup_app_l_Some|done|done|done|lia|lia].
Qed.

Lemma parity_data_lanes k j a b hi hi' : pb !! k = Some a -> db !! j = Some b -> hi <= N -> hi' <= abd_size b -> apart (abd_lane a) (abd_lane b) hi hi'.
Proof.
  intros Ha Hb H1 H2. destruct (parity_bufs k a Ha) as (Hwa & _ & Ea & _). destruct (wf_db rm pb db Hwf j b Hb) as (Hwb & _).
  apply (wf_apart rm pb db Hwf k (length pb + j)); [by apply lookup_app_l_Some|by rewrite data_lookup|apply lookup_lt_Some in Ha; lia|done|done|lia|lia].
Qed.

Lemma parity_separate : separate (abd_lane <$> pb) N.
Proof.
  intros k k' l l' i j Hk Hk' Hi Hj E. rewrite list_lookup_fmap in Hk. rewrite list_lookup_fmap in Hk'. destruct (pb !! k) as [a|] eqn:Ea; [|done]. destruct (pb !! k') as [b|] eqn:Eb; [|done].
  injection Hk as <-. injection Hk' as <-. destruct (decide (k = k')) as [->|Hne]; [|by apply (parity_lanes_apart k k' a b) in E]. rewrite Ea in Eb. injection Eb as ->. split; [done|]. by apply (parity_bufs k' b Ea).
Qed.

(** The lanes of the parity columns that hold the parity. *)
Lemma held_parity m' : swept m (held pb (Z.of_nat <$> seq 0 (length pb)) vs) 0 N m' -> parity_holds rm pb m' vs /\ only_writes pb m m'.
Proof.
  intros [Hn Ho]. split.
  - intros k a Ha. apply Hn, (list_elem_of_lookup_2 _ k), lookup_zip_with_Some. exists a, (Z.of_nat k). split_and!; [done|done|]. rewrite list_lookup_fmap, lookup_seq_lt; [done|by eapply lookup_lt_Some].
  - intros l Hl. apply Ho. intros l' w Hin i Hi ->. apply list_elem_of_lookup in Hin as [n Hn']. apply lookup_zip_with_Some in Hn' as (a & k & [= -> ->] & Ha & _).
    destruct (parity_bufs n a Ha) as (Hwa & _ & Es & _). apply Hl, list_elem_of_bind. exists a. split; [apply lane_locs; [done|lia]|by eapply list_elem_of_lookup_2].
Qed.

(** The columns of the syndrome walk, with no column lost. *)
Lemma generate_columns f a0 :
  db !! 0%nat = Some a0 -> (forall cs dc n dn m, length cs = length pb -> f cs dc n dn m = syn_words (Z.of_nat <$> seq 0 (length pb)) cs dc n dn m) ->
  exists m1 m', start_syndrome m (Some a0) pb N = Ok m1 /\
    for_range (first + 1) (rm_cols rm) (fun c m => dabd ← col_abd rm c; dsize ← raidz_col_size rm c; abd_raidz_gen_iterate f pb (Some dabd) N dsize m) m1 = Ok m' /\
    parity_holds rm pb m' vs /\ only_writes pb m m'.
Proof using All.
  intros Ha Hf. pose proof gen_state as Hst. pose proof (proj2 (rw_first _ _ _ Hwf)) as Hfirst. change VDEV_RAIDZ_MAXPARITY with 3 in Hfirst. pose proof (first_length rm pb db Hwf) as Ef. pose proof (rw_big _ _ _ Hwf) as [HN HN512].
  destruct (Forall2_lookup_l _ _ _ _ _ Hdata Ha) as (v0 & Hv & _).
  assert (Hlk : length (Z.of_nat <$> seq 0 (length pb)) = length pb) by (by rewrite length_fmap, length_seq).
  assert (Hne : pb <> []) by (intros ->; cbn in Ef; lia).
  assert (Htab : Forall (fun a => (abd_wf a /\ abd_multiple 512 a) /\ N <= abd_size a) pb) by (apply Forall_lookup; intros k a Hk; destruct (parity_bufs k a Hk) as (? & ? & -> & _); done).
  assert (Hks : Forall (fun k => 0 <= k <= 2) (Z.of_nat <$> seq 0 (length pb))) by (apply Forall_fmap, Forall_seq; intros k Hk; cbn; lia).
  assert (Hoff : forall t j a, t ∈ pb -> db !! j = Some a -> j ∉ [] -> apart (abd_lane t) (abd_lane a) N (abd_size a)).
  { intros t j a [k Hk]%list_elem_of_lookup Hj _. by apply (parity_data_lanes k j). }
  destruct (start_columns_ok rm pb db Hwf m vs [] Hst pb (Z.of_nat <$> seq 0 (length pb)) N Hlk Htab ltac:(lia) HN512 parity_separate Hoff Hpm a0 v0 Ha Hv) as (m1 & E1 & Hsw1). rewrite decide_False in E1 by (by intros ?%elem_of_nil).
  destruct (syndrome_columns_ok rm pb db Hwf m vs [] Hst pb (Z.of_nat <$> seq 0 (length pb)) N Hlk Hne Htab Hks ltac:(lia) HN512 parity_separate Hoff Hpm f ltac:(intros; apply Hf; lia) m1 Hsw1) as (m' & E' & Hsw').
  exists m1, m'. split; [done|]. rewrite without_nil in Hsw'. split; [|by apply held_parity]. rewrite <- E'. apply for_range_ext. intros c m2. cbn [fmap list_fmap]. rewrite bool_decide_false by (by intros ?%elem_of_nil).
  destruct (col_abd rm c); [|done]. cbn [mbind res_bind]. destruct (raidz_col_size rm c); done.
Qed.

Lemma first_data_col : exists a0, db !! 0%nat = Some a0 /\ abd_size a0 = N /\ col_abd rm first = Ok a0.
Proof.
  pose proof (cols_length rm pb db Hwf) as Ec. pose proof (proj2 (rw_cols _ _ _ Hwf)) as Hc. destruct (lookup_lt_is_Some_2 db 0 ltac:(lia)) as [a0 Ha]. exists a0.
  destruct (wf_data_col rm pb db Hwf 0 a0 Ha) as (rc & Erc & Ea & Es). replace (first + Z.of_nat 0) with first in Erc by lia. split_and!; [done|by apply (rw_full _ _ _ Hwf)|]. unfold col_abd. rewrite Erc. cbn. by rewrite Ea.
Qed.

Lemma generate_pq_impl_ok : length pb = 2%nat -> exists m', raidz_generate_pq_impl m rm = Ok m' /\ parity_holds rm pb m' vs /\ only_writes pb m m'.
Proof using All.
  intros El. pose proof (first_length rm pb db Hwf) as Ef. rewrite El in Ef. destruct first_data_col as (a0 & Ha & _ & E0). destruct (generate_columns raidz_gen_pq_add a0 Ha) as (m1 & m' & E1 & E' & H').
  { intros cs dc n dn m1 Hl. rewrite El in Hl |- *. by apply gen_pq_words. }
  exists m'. split; [|done]. assert (Ep : exists p q, pb = [p; q]) by (by destruct pb as [|p [|q [|]]]; try discriminate El; exists p, q). destruct Ep as (p & q & Ep). rewrite Ep in E1, E'.
  destruct (parity_bufs 0 p) as (_ & _ & _ & _ & E00 & E01); [by rewrite Ep|]. destruct (parity_bufs 1 q) as (_ & _ & _ & _ & E10 & _); [by rewrite Ep|]. change (Z.of_nat 0) with CODE_P in *. change (Z.of_nat 1) with CODE_Q in *. change (Z.of_nat 2) with 2 in *.
  unfold raidz_generate_pq_impl. rewrite E01, E00, E10. rewrite Ef in E0, E'. cbn [mbind res_bind]. rewrite E0. cbn [mbind res_bind]. cbn [start_syndrome] in E1.
  destruct (raidz_copy m p a0 N) as [m2|]; [|done]. cbn [mbind res_bind] in *. destruct (raidz_copy m2 q a0 N) as [m3|]; [|done]. cbn [mbind res_bind] in *. by injection E1 as ->.
Qed.

Lemma generate_pqr_impl_ok : length pb = 3%nat -> exists m', raidz_generate_pqr_impl m rm = Ok m' /\ parity_holds rm pb m' vs /\ only_writes pb m m'.
Proof using All.
  intros El. pose proof (first_length rm pb db Hwf) as Ef. rewrite El in Ef. destruct first_data_col as (a0 & Ha & _ & E0). destruct (generate_columns raidz_gen_pqr_add a0 Ha) as (m1 & m' & E1 & E' & H').
  { intros cs dc n dn m1 Hl. rewrite El in Hl |- *. by apply gen_pqr_words. }
  exists m'. split; [|done]. assert (Ep : exists p q r, pb = [p; q; r]) by (by destruct pb as [|p [|q [|r [|]]]]; try discriminate El; exists p, q, r). destruct Ep as (p & q & r & Ep). rewrite Ep in E1, E'.
  destruct (parity_bufs 0 p) as (_ & _ & _ & _ & E00 & E01); [by rewrite Ep|]. destruct (parity_bufs 1 q) as (_ & _ & _ & _ & E10 & _); [by rewrite Ep|]. destruct (parity_bufs 2 r) as (_ & _ & _ & _ & E20 & _); [by rewrite Ep|].
  change (Z.of_nat 0) with CODE_P in *. change (Z.of_nat 1) with CODE_Q in *. change (Z.of_nat 2) with CODE_R in *. change (Z.of_nat 3) with 3 in *.
  unfold raidz_generate_pqr_impl. rewrite E01, E00, E10, E20. rewrite Ef in E0, E'. cbn [mbind res_bind]. rewrite E0. cbn [mbind res_bind]. cbn [start_syndrome] in E1.
  destruct (raidz_copy m p a0 N) as [m2|]; [|done]. cbn [mbind res_bind] in *. destruct (raidz_copy m2 q a0 N) as [m3|]; [|done]. cbn [mbind res_bind] in *. destruct (raidz_copy m3 r a0 N) as [m4|]; [|done]. cbn [mbind res_bind] in *. by injection E1 as ->.
Qed.

(** A column added to the parity as far as it reaches. *)
Lemma add_column m2 d w j a v size :
  abd_wf d -> abd_multiple 512 d -> lane_inj (abd_lane d) (abd_size d) -> reads m2 (abd_lane d) 0 (abd_size d) (gfun w) ->
  db !! j = Some a -> reads m2 (abd_lane a) 0 (abd_size a) (gfun v) -> (forall i, abd_size a <= i -> v i = g0) -> apart (abd_lane d) (abd_lane a) (abd_size d) (abd_size a) ->
  size = Z.min (abd_size a) (abd_size d) ->
  exists m3, raidz_add m2 d a size = Ok m3 /\ swept m2 [(abd_lane d, gfun (fun i => w i + v i)%gf)] 0 (abd_size d) m3.
Proof using Hwf.
  intros Hwd Hkd Hid Hw Ha Hv Hz Hap Hs. destruct (wf_db rm pb db Hwf j a Ha) as (Hwa & Hka & _). pose proof (aw_size a Hwa). pose proof (aw_size d Hwd).
  destruct (raidz_add_ok m2 d a size v w) as (m3 & E3 & Hsw3); [done|done|lia| |intros i i' Hi Hi'; apply Hid; lia|done|done|lia|eapply apart_sub; [exact Hap|lia|lia]|part Hv|part Hw|].
  { rewrite Hs. apply min_div; [apply Hka|apply Hkd]. }
  exists m3. split; [done|]. apply (swept_extend _ _ _ size); [done|lia|]. intros l w' [= -> ->]%list_elem_of_singleton i Hi. rewrite (sw_old _ _ _ _ _ Hsw3).
  - rewrite Hw by lia. unfold gfun. rewrite Hz by lia. do 2 f_equal. ring.
  - intros l w' [= -> ->]%list_elem_of_singleton i' Hi' E. apply Hid in E; lia.
Qed.

Lemma generate_p_impl_ok : length pb = 1%nat -> exists m', raidz_generate_p_impl m rm = Ok m' /\ parity_holds rm pb m' vs /\ only_writes pb m m'.
Proof using All.
  intros El. pose proof gen_state as Hst. pose proof (first_length rm pb db Hwf) as Ef. rewrite El in Ef. destruct first_data_col as (a0 & Ha & Es & E0). pose proof (cols_length rm pb db Hwf) as Ec. pose proof (proj2 (rw_cols _ _ _ Hwf)) as Hc.
  pose proof (rw_big _ _ _ Hwf) as [HN HN512]. destruct (Forall2_lookup_l _ _ _ _ _ Hdata Ha) as (v0 & Hv0 & Hr0 & _). destruct (wf_db rm pb db Hwf 0 a0 Ha) as (Hwa & Hka & _).
  destruct (pb !! 0%nat) as [p|] eqn:Ep; [|apply lookup_ge_None in Ep; lia]. destruct (parity_bufs 0 p Ep) as (Hwp & Hkp & Esp & Hip & E00 & E01). change (Z.of_nat 0) with CODE_P in *. change (Z.of_nat 1) with 1 in *.
  assert (Hp : p ∈ pb) by (by eapply list_elem_of_lookup_2). unfold raidz_generate_p_impl. rewrite E01, E00. rewrite Ef in E0. cbn [mbind res_bind]. rewrite E0. cbn [mbind res_bind].
  destruct (raidz_copy_ok m p a0 N v0) as (m1 & E1 & Hsw1); [done|done|lia|done|done|done|done|lia|apply (parity_data_lanes 0 0); [done|done|lia|lia]|part Hr0|by apply Hpm|]. rewrite E1. cbn [mbind res_bind].
  match goal with |- context [for_range ?lo ?hi ?B ?s] => destruct (for_range_inv (fun c m2 => swept m [(abd_lane p, gfun (parity_at 0 (take (Z.to_nat (c - first)) vs)))] 0 N m2) lo hi B s) as (m' & E' & Hsw') end; [lia| | |].
  - intros c m2 Hcr Hsw. pose proof (rs_len _ _ _ _ _ Hst) as Hlen. set (j := Z.to_nat (c - first)) in *. destruct (lookup_lt_is_Some_2 db j ltac:(lia)) as [a Hja]. destruct (lookup_lt_is_Some_2 vs j ltac:(lia)) as [v Hv].
    destruct (wf_data_col rm pb db Hwf j a Hja) as (rc & Erc & Ea & Esz). replace (first + Z.of_nat j) with c in Erc by lia. unfold col_abd at 1, raidz_col_size. rewrite Erc. cbn [mbind res_bind]. rewrite Ea, Esz. cbn [deref mbind res_bind].
    destruct (wf_db rm pb db Hwf j a Hja) as (_ & _ & HaN).
    destruct (add_column m2 p (parity_at 0 (take j vs)) j a v (abd_size a)) as (m3 & E3 & Hsw3); rewrite ?Esp; [done|done|done|apply Hsw; by left|done| |apply (rs_zero _ _ _ _ _ Hst j a v Hja Hv), not_elem_of_nil|apply (parity_data_lanes 0 j); done || lia|lia|].
    + eapply swept_reads; [exact Hsw|apply (rs_good _ _ _ _ _ Hst j a v Hja Hv); by intros ?%elem_of_nil|]. intros l w i i' [= -> ->]%list_elem_of_singleton Hi Hi' E. by apply (parity_data_lanes 0 j p a N (abd_size a) Ep Hja ltac:(lia) ltac:(lia) i' i).
    + exists m3. split; [done|]. rewrite Esp in Hsw3. eapply swept_again; [exact Hsw|]. replace (Z.to_nat (c + 1 - first)) with (S j) by lia. rewrite (take_S_r _ _ _ Hv). eapply swept_ext; [exact Hsw3|].
      intros i _. unfold gfun. rewrite parity_snoc, gpow_0. f_equal. ring.
  - replace (Z.to_nat (2 - first)) with 1%nat by lia. rewrite (take_S_r _ _ _ Hv0). eapply swept_ext; [exact Hsw1|]. intros i _. unfold gfun. by rewrite take_0; cbn [app]; rewrite parity_one.
  - exists m'. split; [done|]. apply held_parity. rewrite take_ge in Hsw' by (pose proof (rs_len _ _ _ _ _ Hst); lia). assert (Epb : pb = [p]) by (destruct pb as [|p' [|]]; try discriminate El; by injection Ep as ->). by rewrite Epb.
Qed.

End Generate.

(** ** One lost column *)

Lemma without_cons x bad vs : without (x :: bad) vs = <[x := gzero]> (without bad vs).
Proof.
  apply list_eq. intros j. destruct (decide (j = x)) as [->|Hne].
  - destruct (vs !! x) as [v|] eqn:E.
    + rewrite (without_lookup _ _ _ _ E), decide_True by (by left). rewrite list_lookup_insert_eq; [done|]. unfold without. rewrite length_imap. by eapply lookup_lt_Some.
    + unfold without. rewrite list_lookup_imap, E. symmetry. apply lookup_ge_None. rewrite length_insert, length_imap. by apply lookup_ge_None.
  - rewrite list_lookup_insert_ne by done. unfold without. rewrite !list_lookup_imap. destruct (vs !! j); [|done]. cbn. f_equal. destruct (decide (j ∈ bad)); [by rewrite decide_True by (by right)|].
    rewrite decide_False; [done|]. by intros [->|?]%elem_of_cons.
Qed.

(** What one more lost column takes from the parity. *)
Lemma parity_lost k x bad vs v i : vs !! x = Some v -> x ∉ bad ->
  parity_at k (without bad vs) i = (parity_at k (without (x :: bad) vs) i + v i * weight k (length vs) x)%gf.
Proof.
  intros E Hx. rewrite without_cons, (parity_without k (without bad vs) x v i). { unfold without. by rewrite length_imap. } rewrite (without_lookup _ _ _ _ E). by rewrite decide_False.
Qed.

Lemma gpow_mod1 e : gv (gpow e) = gf_exp2 e.
Proof. apply gv_gpow. Qed.

Lemma gpow_mod2 e : gv (gpow (2 * e)) = gf_exp4 e.
Proof. apply gv_gpow. Qed.

Section One.

Context (rm : raidz_map) (pb db : list abd).
Hypothesis Hwf : raidz_wf rm pb db.
Context (m : mem) (vs : list (Z -> gf)) (x : nat) (ax : abd) (vx : Z -> gf).
Hypothesis Hst : rec_state m pb db vs [x].
Hypothesis Hax : db !! x = Some ax.
Hypothesis Hvx : vs !! x = Some vx.

Abbreviation first := (rm_firstdatacol rm).
Abbreviation xs := (abd_size ax).
Abbreviation dl := (abd_lane ax).
Abbreviation zs := (without [x] vs).

Lemma target_col : col_abd rm (first + Z.of_nat x) = Ok ax /\ raidz_col_size rm (first + Z.of_nat x) = Ok xs.
Proof. destruct (wf_data_col rm pb db Hwf x ax Hax) as (rc & Erc & Ea & Es). unfold col_abd, raidz_col_size. rewrite Erc. cbn. by rewrite Ea, Es. Qed.

Lemma target_mapped : mapped m dl 0 xs.
Proof. apply (rs_mapped _ _ _ _ _ Hst), elem_of_app. right. by eapply list_elem_of_lookup_2. Qed.

(** The routines for [Q] and [R] after the syndrome: parity [k] is added, and the sum
    multiplied. *)
Lemma reconstruct_one_ok k f ap c :
  (1 <= k <= 2)%nat -> (forall cs dc n dn m, length cs = 1%nat -> f cs dc n dn m = syn_words [Z.of_nat k] cs dc n dn m) ->
  pb !! k = Some ap -> reads m (abd_lane ap) 0 (raidz_big rm) (gfun (parity_at (Z.of_nat k) vs)) -> (weight (Z.of_nat k) (length vs) x * c)%gf = g1 ->
  exists m1 m2 m3, syndrome f m rm [first + Z.of_nat x] [ax] xs = Ok m1 /\ raidz_add m1 ax ap xs = Ok m2 /\
    abd_iterate_func (raidz_mul_abd_cb (gv c)) ax 0 xs (m2, tt) = Ok (0, (m3, tt)) /\ data_held m3 db vs /\ only_writes [ax] m m3.
Proof using All.
  intros Hk Hf Hap Hp Hc. destruct (wf_db rm pb db Hwf x ax Hax) as (Hwx & Hkx & HxN). pose proof (aw_size ax Hwx) as Hxs. pose proof (wf_inj rm pb db Hwf x ax Hax) as Hinj.
  destruct (parity_bufs rm pb db Hwf k ap Hap) as (Hwp & Hkp & Esp & _). pose proof (parity_data_lanes rm pb db Hwf k x ap ax xs xs Hap Hax HxN ltac:(lia)) as Hpx.
  assert (Hx512 : (512 | xs)) by apply Hkx.
  destruct (syndrome_ok rm pb db Hwf m vs [x] Hst [ax] [Z.of_nat k] xs) with (f := f) as (m1 & E1 & Hsw1); try done; try lia.
  - by apply Forall_singleton.
  - apply Forall_singleton. lia.
  - cbn. separated.
  - intros t j a ->%list_elem_of_singleton Ha Hj. apply (wf_data_apart rm pb db Hwf x j); [done|done| |lia|lia]. intros ->. apply Hj. by left.
  - intros t ->%list_elem_of_singleton. apply target_mapped.
  - repeat constructor.
  - change (held _ _ _) with [(dl, gfun (parity_at (Z.of_nat k) zs))] in Hsw1.
    destruct (raidz_add_ok m1 ax ap xs (parity_at (Z.of_nat k) vs) (parity_at (Z.of_nat k) zs)) as (m2 & E2 & Hsw2); [done|done|lia|done|done|done|done|lia|by apply apart_sym| |apply Hsw1; by left|].
    { eapply swept_reads; [exact Hsw1|part Hp|off_lanes]. }
    destruct (raidz_mul_ok m2 ax xs (fun i => parity_at (Z.of_nat k) zs i + parity_at (Z.of_nat k) vs i)%gf) with (c := c) as (m3 & E3 & Hsw3); [done|done|lia|done|done|apply Hsw2; by left|].
    exists m1, m2, m3. split_and!; [done..| |]; apply (recovered rm pb db Hwf m vs x ax vx Hst Hax Hvx); eapply swept_again; [exact Hsw1| |exact Hsw1|]; eapply swept_again; [exact Hsw2| |exact Hsw2|];
      (eapply swept_ext; [exact Hsw3|]); intros i _; unfold gfun; f_equal; rewrite <- (without_nil vs) at 2; rewrite (parity_lost _ x [] vs vx i Hvx) by (by intros ?%elem_of_nil); rewrite gadd_cancel;
      transitivity (vx i * (weight (Z.of_nat k) (length vs) x * c))%gf; [ring|rewrite Hc; ring|ring|rewrite Hc; ring].
Qed.

Lemma rec_coeff k : (weight k (length vs) x * gpow (k * (255 - (Z.of_nat (length vs) - Z.of_nat x - 1))))%gf = g1.
Proof.
  unfold weight. rewrite <- gpow_add. replace (_ + _) with (k * 255) by lia. rewrite <- gpow_0. apply gf_eq. rewrite !gv_gpow. rewrite Z.mod_mul by lia. done.
Qed.

Lemma reconstruct_q_impl_ok : parity_good rm pb m vs 1 -> exists m', raidz_reconstruct_q_impl m rm [first + Z.of_nat x] = Ok (Z.shiftl 1 CODE_Q, m') /\ data_held m' db vs /\ only_writes [ax] m m'.
Proof using All.
  intros (ap & Hap & Hp). destruct target_col as [Ea Es]. pose proof (cols_length rm pb db Hwf) as Ec. pose proof (rs_len _ _ _ _ _ Hst) as Hlen. destruct (parity_bufs rm pb db Hwf 1 ap Hap) as (_ & _ & _ & _ & Eq & _). change (Z.of_nat 1) with CODE_Q in Eq.
  destruct (reconstruct_one_ok 1 raidz_syn_q_abd ap _ ltac:(lia) syn_q_words Hap Hp (rec_coeff 1)) as (m1 & m2 & m3 & E1 & E2 & E3 & H3). exists m3. split; [|done].
  unfold raidz_reconstruct_q_impl. cbn [lookup list_lookup deref mbind res_bind]. rewrite Ea, Es. cbn [mbind res_bind]. rewrite E1. cbn [mbind res_bind]. rewrite Eq. cbn [mbind res_bind]. rewrite E2. cbn [mbind res_bind].
  rewrite Z.mul_1_l, gpow_mod1 in E3. unfold raidz_rec_q_coeff. replace (255 - (rm_cols rm - _ - 1)) with (255 - (Z.of_nat (length vs) - Z.of_nat x - 1)) by lia. by rewrite E3.
Qed.

Lemma reconstruct_r_impl_ok : parity_good rm pb m vs 2 -> exists m', raidz_reconstruct_r_impl m rm [first + Z.of_nat x] = Ok (Z.shiftl 1 CODE_R, m') /\ data_held m' db vs /\ only_writes [ax] m m'.
Proof using All.
  intros (ap & Hap & Hp). destruct target_col as [Ea Es]. pose proof (cols_length rm pb db Hwf) as Ec. pose proof (rs_len _ _ _ _ _ Hst) as Hlen. destruct (parity_bufs rm pb db Hwf 2 ap Hap) as (_ & _ & _ & _ & Eq & _). change (Z.of_nat 2) with CODE_R in Eq.
  destruct (reconstruct_one_ok 2 raidz_syn_r_abd ap _ ltac:(lia) syn_r_words Hap Hp (rec_coeff 2)) as (m1 & m2 & m3 & E1 & E2 & E3 & H3). exists m3. split; [|done].
  unfold raidz_reconstruct_r_impl. cbn [lookup list_lookup deref mbind res_bind]. rewrite Ea, Es. cbn [mbind res_bind]. rewrite E1. cbn [mbind res_bind]. rewrite Eq. cbn [mbind res_bind]. rewrite E2. cbn [mbind res_bind].
  rewrite gpow_mod2 in E3. unfold raidz_rec_r_coeff. replace (255 - (rm_cols rm - _ - 1)) with (255 - (Z.of_nat (length vs) - Z.of_nat x - 1)) by lia. by rewrite E3.
Qed.

Lemma reconstruct_p_impl_ok : parity_good rm pb m vs 0 -> exists m', raidz_reconstruct_p_impl m rm [first + Z.of_nat x] = Ok (Z.shiftl 1 CODE_P, m') /\ data_held m' db vs /\ only_writes [ax] m m'.
Proof using All.
  intros (ap & Hap & Hp). destruct target_col as [Ea Es]. pose proof (cols_length rm pb db Hwf) as Ec. pose proof (rs_len _ _ _ _ _ Hst) as Hlen. destruct (parity_bufs rm pb db Hwf 0 ap Hap) as (Hwp & Hkp & Esp & _ & Eq & _).
  change (Z.of_nat 0) with CODE_P in *. destruct (wf_db rm pb db Hwf x ax Hax) as (Hwx & Hkx & HxN). pose proof (aw_size ax Hwx) as Hxs. pose proof (wf_inj rm pb db Hwf x ax Hax) as Hinj. pose proof (lookup_lt_Some _ _ _ Hax).
  unfold raidz_reconstruct_p_impl. cbn [lookup list_lookup deref mbind res_bind]. rewrite Ea, Es. cbn [mbind res_bind]. rewrite Eq. cbn [mbind res_bind].
  destruct (raidz_copy_ok m ax ap xs (parity_at 0 vs)) as (m1 & E1 & Hsw1); [done|done|lia|apply Hkx|done|done|done|lia|apply apart_sym, (parity_data_lanes rm pb db Hwf 0 x); done || lia|part Hp|apply target_mapped|].
  rewrite E1. cbn [mbind res_bind].
  match goal with |- context [for_range ?lo ?hi ?B ?s] => destruct (for_range_inv (fun c m2 => swept m [(dl, gfun (fun i => parity_at 0 vs i + parity_at 0 (take (Z.to_nat (c - first)) zs) i)%gf)] 0 xs m2) lo hi B s) as (m' & E' & Hsw') end; [lia| | |].
  - intros c m2 Hcr Hsw. set (j := Z.to_nat (c - first)) in *. destruct (lookup_lt_is_Some_2 db j ltac:(lia)) as [a Ha]. destruct (lookup_lt_is_Some_2 vs j ltac:(lia)) as [v Hv].
    replace (Z.to_nat (c + 1 - first)) with (S j) by lia. rewrite (take_S_r _ _ _ (without_lookup [x] vs j v Hv)). destruct (Z.eqb_spec c (first + Z.of_nat x)) as [Ecx|Hcx].
    + exists m2. split; [done|]. assert (j = x) as -> by lia. rewrite decide_True by (by left). eapply swept_ext; [exact Hsw|]. intros i _. unfold gfun. rewrite parity_snoc, gpow_0. f_equal. unfold gzero. ring.
    + assert (Hjx : j <> x) by lia. rewrite decide_False by (by rewrite list_elem_of_singleton). destruct (wf_data_col rm pb db Hwf j a Ha) as (rc & Erc & Eja & Esz). replace (first + Z.of_nat j) with c in Erc by lia.
      unfold col_abd, raidz_col_size. rewrite Erc. cbn [mbind res_bind]. rewrite Eja, Esz. cbn [deref mbind res_bind].
      destruct (add_column rm pb db Hwf m2 ax (fun i => parity_at 0 vs i + parity_at 0 (take j zs) i)%gf j a v (Z.min (abd_size a) xs)) as (m3 & E3 & Hsw3);
        [done|done|done|apply Hsw; by left|done| |by apply (rs_zero _ _ _ _ _ Hst j a v Ha Hv); rewrite list_elem_of_singleton|by apply (wf_data_apart rm pb db Hwf x j)|done|].
      { eapply (good_source rm pb db Hwf m vs x ax Hst Hax); [exact Hsw|done|exact Ha|done|done|lia]. }
      exists m3. split; [done|]. eapply swept_again; [exact Hsw|]. eapply swept_ext; [exact Hsw3|]. intros i _. unfold gfun. rewrite parity_snoc, gpow_0. f_equal. ring.
  - rewrite Z.sub_diag, take_0. eapply swept_ext; [exact Hsw1|]. intros i _. unfold gfun. rewrite parity_nil. f_equal. ring.
  - rewrite E'. cbn [mbind res_bind]. exists m'. split; [done|]. apply (recovered rm pb db Hwf m vs x ax vx Hst Hax Hvx). eapply swept_ext; [exact Hsw'|]. intros i _. unfold gfun. f_equal.
    rewrite take_ge by (unfold without; rewrite length_imap; lia). rewrite <- (without_nil vs) at 1. rewrite (parity_lost _ x [] vs vx i Hvx) by (by intros ?%elem_of_nil). unfold weight. rewrite Z.mul_0_l, gpow_0.
    replace (parity_at 0 zs i + vx i * g1 + parity_at 0 zs i)%gf with (parity_at 0 zs i + (parity_at 0 zs i + vx i))%gf by ring. apply gadd_cancel.
Qed.

End One.
