(* ===== verification/RaidzSolve.v ===== *)
(** * Several lost columns: [module/zfs/vdev_raidz_math_impl.h]

    The routines of [RaidzScalar] for two and three lost columns: the buffers in
    place of targets that are shorter than the first, the solution of the equations
    word by word, and the results copied back.  With it the scalar implementation
    keeps the contract [RaidzImpl], and is equivalent to the original routines. *)

From Stdlib Require Import Field.
From stdpp Require Import gmap strings.
From S2P Require Import Prelude Bits Buffer Gf Memory Abd AbdIter RaidzMap RaidzParity RaidzReconst RaidzMatrix RaidzMath RaidzScalar.

(** ** The buffers in place of short targets *)

Section Temps.

Context (PAGESHIFT xs : Z).

(** The allocations of [target_bufs]. *)
Inductive temps : list (abd * Z) -> mem -> list abd -> mem -> Prop :=
| temps_nil m : temps [] m [] m
| temps_old a size cols m tabds m' : xs <= size -> temps cols m tabds m' -> temps ((a, size) :: cols) m (a :: tabds) m'
| temps_new a size cols m t m1 tabds m' :
    size < xs -> new_buffer PAGESHIFT m t m1 -> abd_size t = xs -> abd_multiple 512 t -> temps cols m1 tabds m' -> temps ((a, size) :: cols) m (t :: tabds) m'.

(** The blocks of the new buffers. *)
Fixpoint new_blocks (cols : list (abd * Z)) (tabds : list abd) : list Z :=
  match cols, tabds with
  | (_, size) :: cols', t :: tabds' => if size <? xs then abd_blocks t ++ new_blocks cols' tabds' else new_blocks cols' tabds'
  | _, _ => []
  end.

Lemma temps_length cols m tabds m' : temps cols m tabds m' -> length tabds = length cols.
Proof. induction 1; cbn; congruence. Qed.

Lemma temps_frame cols m tabds m' : temps cols m tabds m' ->
  (forall k, k ∈ new_blocks cols tabds -> m !! k = None) /\ (forall k, k ∉ new_blocks cols tabds -> m' !! k = m !! k).
Proof.
  induction 1 as [m|a size cols m tabds m' Hge _ IH|a size cols m t m1 tabds m' Hlt Hn _ _ _ [IH1 IH2]]; cbn [new_blocks].
  - split; [by intros k ?%elem_of_nil|done].
  - by rewrite (proj2 (Z.ltb_ge size xs)) by lia.
  - rewrite (proj2 (Z.ltb_lt size xs)) by lia. split; intros k Hk.
    + apply elem_of_app in Hk as [Hk|Hk]; [by apply (nb_fresh _ _ _ _ Hn)|]. destruct (decide (k ∈ abd_blocks t)) as [Hin|Hni]; [by apply (nb_fresh _ _ _ _ Hn)|]. rewrite <- (nb_frame _ _ _ _ Hn k Hni). by apply IH1.
    + rewrite elem_of_app in Hk. rewrite IH2 by tauto. apply (nb_frame _ _ _ _ Hn). tauto.
Qed.

(** A target of the list is its column, or a new buffer. *)
Lemma temps_target cols m tabds m' i a size t : temps cols m tabds m' -> cols !! i = Some (a, size) -> tabds !! i = Some t ->
  if size <? xs then abd_wf t /\ abd_size t = xs /\ abd_multiple 512 t /\ NoDup (locs t) /\ mapped m' (abd_lane t) 0 xs /\ (forall l, l ∈ locs t -> p_blk l ∈ new_blocks cols tabds) else t = a.
Proof.
  intros HT. revert i. induction HT as [m|a' size' cols m tabds m' Hge _ IH|a' size' cols m t' m1 tabds m' Hlt Hn Es Hk HT IH]; intros [|i] Hc Ht; cbn in Hc, Ht; try done; cbn [new_blocks].
  - injection Hc as -> ->. injection Ht as ->. by rewrite (proj2 (Z.ltb_ge size xs)) by lia.
  - rewrite (proj2 (Z.ltb_ge size' xs)) by lia. by apply (IH i).
  - injection Hc as -> ->. injection Ht as ->. rewrite (proj2 (Z.ltb_lt size xs)) by lia. pose proof (nb_wf _ _ _ _ Hn) as Hw. split_and!; [done|done|done|apply (nb_nodup _ _ _ _ Hn)| |].
    + intros j Hj. destruct (nb_holds _ _ _ _ Hn) as [vs Hvs]. assert (Hl : abd_lane t j ∈ locs t) by (apply lane_locs; [done|lia]).
      unfold mbyte. rewrite (proj2 (temps_frame _ _ _ _ HT)); [apply list_elem_of_lookup in Hl as [n Hl]; destruct (Forall2_lookup_l _ _ _ _ _ Hvs Hl) as (b & _ & Hb); by exists b|].
      intros Hin. apply (temps_frame _ _ _ _ HT) in Hin. apply list_elem_of_lookup in Hl as [n Hl]. destruct (Forall2_lookup_l _ _ _ _ _ Hvs Hl) as (b & _ & Hb). unfold mbyte in Hb. by rewrite Hin in Hb.
    + intros l Hl. apply elem_of_app. left. by apply (nb_in _ _ _ _ Hn).
  - specialize (IH i Hc Ht). rewrite (proj2 (Z.ltb_lt size' xs)) by lia. destruct (size <? xs); [|done]. destruct IH as (H1 & H2 & H3 & H4 & H5 & H6). split_and!; try done. intros l Hl. apply elem_of_app. right. by apply H6.
Qed.

Lemma new_present m t m1 k : new_buffer PAGESHIFT m t m1 -> k ∈ abd_blocks t -> is_Some (m1 !! k).
Proof.
  intros Hn Hk. destruct (nb_hit _ _ _ _ Hn k Hk) as (l & Hl & <-). destruct (nb_holds _ _ _ _ Hn) as [vs Hvs]. apply list_elem_of_lookup in Hl as [n Hl].
  destruct (Forall2_lookup_l _ _ _ _ _ Hvs Hl) as (b & _ & Hb). by eapply mapped_block.
Qed.

Lemma new_disjoint cols m t m1 tabds m' k : new_buffer PAGESHIFT m t m1 -> temps cols m1 tabds m' -> k ∈ abd_blocks t -> k ∉ new_blocks cols tabds.
Proof. intros Hn HT Hk Hin. apply (temps_frame _ _ _ _ HT) in Hin. destruct (new_present _ _ _ _ Hn Hk) as [b Hb]. by rewrite Hin in Hb. Qed.

Lemma temps_apart cols m tabds m' i j a size a' size' t t' : temps cols m tabds m' ->
  cols !! i = Some (a, size) -> tabds !! i = Some t -> size < xs -> cols !! j = Some (a', size') -> tabds !! j = Some t' -> size' < xs -> i <> j ->
  forall l l', l ∈ locs t -> l' ∈ locs t' -> l <> l'.
Proof.
  intros HT. revert i j a size a' size' t t'.
  enough (Hlt : forall i j a size a' size' t t', cols !! i = Some (a, size) -> tabds !! i = Some t -> size < xs -> cols !! j = Some (a', size') -> tabds !! j = Some t' -> size' < xs -> (i < j)%nat ->
    forall l l', l ∈ locs t -> l' ∈ locs t' -> l <> l').
  { intros i j a size a' size' t t' H1 H2 H3 H4 H5 H6 Hne l l' Hl Hl'. destruct (decide (i < j)%nat); [by eapply (Hlt i j)|]. apply not_eq_sym. eapply (Hlt j i); try eassumption. lia. }
  induction HT as [m|a' size' cols m tabds m' Hge _ IH|a' size' cols m t' m1 tabds m' Hlt' Hn Es Hk HT IH]; intros [|i] [|j] b z b' z' u u' H1 H2 H3 H4 H5 H6 Hij l l' Hl Hl'; cbn in H1, H2, H4, H5; try done; try lia.
  - injection H1 as -> ->. lia.
  - eapply (IH i j); try eassumption. lia.
  - injection H2 as ->. pose proof (temps_target _ _ _ _ j b' z' u' HT H4 H5) as Ht. rewrite (proj2 (Z.ltb_lt z' xs)) in Ht by lia. destruct Ht as (_ & _ & _ & _ & _ & Hin).
    intros ->. eapply new_disjoint; [exact Hn|exact HT|by apply (nb_in _ _ _ _ Hn)|by apply Hin].
  - eapply (IH i j); try eassumption. lia.
Qed.

Lemma temps_free cols m tabds m' m2 : temps cols m tabds m' -> (forall k, k ∈ new_blocks cols tabds -> is_Some (m2 !! k)) ->
  exists m3, free_bufs PAGESHIFT m2 xs cols tabds = Ok m3 /\ forall k, m3 !! k = if decide (k ∈ new_blocks cols tabds) then None else m2 !! k.
Proof.
  intros HT. revert m2. induction HT as [m|a size cols m tabds m' Hge _ IH|a size cols m t m1 tabds m' Hlt Hn Es Hk HT IH]; intros m2 Hm2; cbn [free_bufs new_blocks] in *.
  - exists m2. split; [done|]. intros k. rewrite decide_False; [done|by apply not_elem_of_nil].
  - rewrite (proj2 (Z.ltb_ge size xs)) in * by lia. cbn [mbind res_bind]. by apply IH.
  - rewrite (proj2 (Z.ltb_lt size xs)) in * by lia. destruct (nb_free _ _ _ _ Hn m2) as (m3 & E3 & Hm3); [intros k Hk'; apply Hm2, elem_of_app; by left|]. rewrite E3. cbn [mbind res_bind].
    destruct (IH m3) as (m4 & E4 & Hm4).
    + intros k Hk'. rewrite Hm3, decide_False; [apply Hm2, elem_of_app; by right|]. intros Hin. by eapply new_disjoint.
    + exists m4. split; [done|]. intros k. rewrite Hm4, Hm3. destruct (decide (k ∈ abd_blocks t)) as [Hin|Hni].
      * rewrite (decide_True (P := k ∈ _ ++ _)) by (apply elem_of_app; by left). by destruct (decide (k ∈ new_blocks cols tabds)).
      * apply decide_ext. rewrite elem_of_app. tauto.
Qed.

Lemma temps_hit cols m tabds m' k : temps cols m tabds m' -> k ∈ new_blocks cols tabds ->
  exists i a size t l, cols !! i = Some (a, size) /\ tabds !! i = Some t /\ size < xs /\ l ∈ locs t /\ p_blk l = k.
Proof.
  induction 1 as [m|a size cols m tabds m' Hge _ IH|a size cols m t m1 tabds m' Hlt Hn Es Hk HT IH]; cbn [new_blocks]; intros Hin.
  - by apply elem_of_nil in Hin.
  - rewrite (proj2 (Z.ltb_ge size xs)) in Hin by lia. destruct (IH Hin) as (i & a' & size' & t' & l & H). by exists (S i), a', size', t', l.
  - rewrite (proj2 (Z.ltb_lt size xs)) in Hin by lia. apply elem_of_app in Hin as [Hin|Hin].
    + destruct (nb_hit _ _ _ _ Hn k Hin) as (l & Hl & El). by exists 0%nat, a, size, t, l.
    + destruct (IH Hin) as (i & a' & size' & t' & l & H). by exists (S i), a', size', t', l.
Qed.

Lemma target_bufs_ok kmem_alloc zfs_abd_scatter_enabled cols m :
  9 <= PAGESHIFT <= 30 -> (forall m n, m !! (kmem_alloc m n).1 = None) -> (forall m n, length (kmem_alloc m n).2 = Z.to_nat n) -> 0 < xs <= SPA_MAXBLOCKSIZE -> (512 | xs) ->
  exists tabds m', target_bufs PAGESHIFT kmem_alloc zfs_abd_scatter_enabled m xs cols = Ok (tabds, m') /\ temps cols m tabds m'.
Proof.
  intros Hshift kmem_fresh kmem_size Hxs Hxk. revert m. induction cols as [|[a size] cols IH]; intros m; [exists [], m; split; [done|constructor]|]. cbn [target_bufs]. destruct (Z.ltb_spec size xs) as [Hlt|Hge].
  - destruct (abd_alloc_ok PAGESHIFT kmem_alloc zfs_abd_scatter_enabled ltac:(lia) kmem_fresh kmem_size m xs false Hxs) as (t & m1 & E & Es & _ & Hk & Hn). rewrite E. cbn [mbind res_bind].
    destruct (IH m1) as (tabds & m' & E' & HT). rewrite E'. cbn [mbind res_bind]. exists (t :: tabds), m'. split; [done|]. apply (temps_new _ _ _ _ _ m1); [done|done|done| |done].
    apply Hk; [done|]. unfold PAGESIZE. exists (2 ^ (PAGESHIFT - 9)). change 512 with (2 ^ 9). rewrite <- Z.pow_add_r by lia. f_equal. lia.
  - cbn [mbind res_bind]. destruct (IH m) as (tabds & m' & E' & HT). rewrite E'. cbn [mbind res_bind]. exists (a :: tabds), m'. split; [done|]. by constructor.
Qed.

End Temps.

(** ** The results of short targets *)

(** A column and its size, its target, and what the target holds. *)
Record slot : Type := Slot { sl_col : abd; sl_size : Z; sl_tgt : abd; sl_val : Z -> gf }.

Section Back.

Context (xs : Z).

Record slots_ok (L : list slot) : Prop := {
  so_col : forall e, e ∈ L -> abd_wf (sl_col e) /\ abd_multiple 512 (sl_col e) /\ abd_size (sl_col e) = sl_size e /\ sl_size e <= xs /\ lane_inj (abd_lane (sl_col e)) (sl_size e);
  so_tgt : forall e, e ∈ L -> abd_wf (sl_tgt e) /\ abd_multiple 512 (sl_tgt e) /\ abd_size (sl_tgt e) = xs /\ (xs <= sl_size e -> sl_tgt e = sl_col e);
  so_cols : forall i j e f, L !! i = Some e -> L !! j = Some f -> i <> j -> apart (abd_lane (sl_col e)) (abd_lane (sl_col f)) (sl_size e) (sl_size f);
  so_tgts : forall i j e f, L !! i = Some e -> L !! j = Some f -> i <> j \/ sl_size f < xs -> apart (abd_lane (sl_col e)) (abd_lane (sl_tgt f)) (sl_size e) xs
}.

Lemma slots_tail e L : slots_ok (e :: L) -> slots_ok L.
Proof.
  intros [H1 H2 H3 H4]. constructor; [intros f Hf; apply H1; by right|intros f Hf; apply H2; by right| |].
  - intros i j f g Hf Hg Hne. apply (H3 (S i) (S j)); [done|done|lia].
  - intros i j f g Hf Hg Hne. apply (H4 (S i) (S j)); [done|done|]. destruct Hne; [left; lia|by right].
Qed.

Lemma copy_back_ok L m :
  slots_ok L -> (forall e, e ∈ L -> reads m (abd_lane (sl_tgt e)) 0 xs (gfun (sl_val e))) -> (forall e, e ∈ L -> mapped m (abd_lane (sl_col e)) 0 (sl_size e)) ->
  exists m', copy_back m xs ((fun e => (sl_col e, sl_size e)) <$> L) (sl_tgt <$> L) = Ok m' /\ (forall e, e ∈ L -> reads m' (abd_lane (sl_col e)) 0 (sl_size e) (gfun (sl_val e))) /\
    forall l, (forall e i, e ∈ L -> sl_size e < xs -> 0 <= i < sl_size e -> l <> abd_lane (sl_col e) i) -> mbyte m' l = mbyte m l.
Proof.
  revert m. induction L as [|e L IH]; intros m Hok Hr Hm; [exists m; split_and!; [done|by intros e ?%elem_of_nil|done]|]. cbn [fmap list_fmap copy_back].
  destruct (so_col _ Hok e ltac:(by left)) as (Hwc & Hkc & Esc & Hle & Hic), (so_tgt _ Hok e ltac:(by left)) as (Hwt & Hkt & Est & Het). pose proof (aw_size _ Hwc).
  assert (H1 : exists m1, (if sl_size e <? xs then raidz_copy m (sl_col e) (sl_tgt e) (sl_size e) else Ok m) = Ok m1 /\ reads m1 (abd_lane (sl_col e)) 0 (sl_size e) (gfun (sl_val e)) /\
    forall l, (sl_size e < xs -> forall i, 0 <= i < sl_size e -> l <> abd_lane (sl_col e) i) -> mbyte m1 l = mbyte m l).
  { destruct (Z.ltb_spec (sl_size e) xs) as [Hlt|Hge].
    - destruct (raidz_copy_ok m (sl_col e) (sl_tgt e) (sl_size e) (sl_val e)) as (m1 & E1 & Hsw1); [done|done|lia|rewrite <- Esc; apply Hkc|done|done|done|lia| |eapply reads_sub; [apply Hr; by left|lia|lia]|apply Hm; by left|].
      + eapply apart_sub; [apply (so_tgts _ Hok 0 0 e e); [done|done|by right]|lia|lia].
      + exists m1. split_and!; [done|apply Hsw1; by left|]. intros l Hl. apply (sw_old _ _ _ _ _ Hsw1). intros l' w [= -> ->]%list_elem_of_singleton i Hi. by apply Hl.
    - exists m. split_and!; [done| |done]. rewrite <- Het by lia. eapply reads_sub; [apply Hr; by left|lia|lia]. }
  destruct H1 as (m1 & E1 & Hr1 & Ho1). rewrite E1. cbn [mbind res_bind].
  destruct (IH m1 (slots_tail _ _ Hok)) as (m2 & E2 & Hr2 & Ho2).
  - intros f Hf i Hi. rewrite Ho1; [apply Hr; [by right|done]|]. intros Hlt j Hj E. apply list_elem_of_lookup in Hf as [n Hn]. symmetry in E. apply (so_tgts _ Hok 0 (S n) e f) in E; [done|done|done|by left|done|done].
  - intros f Hf i Hi. rewrite Ho1; [apply Hm; [by right|done]|]. intros Hlt j Hj E. apply list_elem_of_lookup in Hf as [n Hn]. symmetry in E. apply (so_cols _ Hok 0 (S n) e f) in E; done.
  - exists m2. split_and!; [done| |].
    + intros f [->|Hf]%elem_of_cons; [|by apply Hr2]. intros i Hi. rewrite Ho2; [by apply Hr1|]. intros g j Hg Hlt Hj E. apply list_elem_of_lookup in Hg as [n Hn]. apply (so_cols _ Hok 0 (S n) e g) in E; done.
    + intros l Hl. rewrite Ho2, Ho1; [done| |]; [intros Hlt i Hi; apply (Hl e); [by left|done|done]|intros g i Hg; apply (Hl g); by right].
Qed.

End Back.

(** ** Several lost columns *)

Lemma sorted_lookup (l : list nat) i j a b : StronglySorted lt l -> l !! i = Some a -> l !! j = Some b -> (i < j)%nat -> (a < b)%nat.
Proof.
  intros Hs. revert i j. induction Hs as [|x l _ IH HF]; intros [|i] [|j] Ha Hb Hij; try done; try lia.
  - injection Ha as ->. rewrite Forall_lookup in HF. by apply (HF j).
  - apply (IH i j); [done|done|lia].
Qed.

Section SeveralOk.

Context (PAGESHIFT : Z) (kmem_alloc : mem -> Z -> Z * list Z) (zfs_abd_scatter_enabled : bool).
Hypothesis Hshift : 9 <= PAGESHIFT <= 30.
Hypothesis kmem_fresh : forall m n, m !! (kmem_alloc m n).1 = None.
Hypothesis kmem_size : forall m n, length (kmem_alloc m n).2 = Z.to_nat n.

Context (rm : raidz_map) (pb db : list abd).
Hypothesis Hwf : raidz_wf rm pb db.
Context (m : mem) (vs : list (Z -> gf)).

(** The lost columns: index, buffer and contents. *)
Context (B : list (nat * abd * (Z -> gf))).
Abbreviation bad := (fst ∘ fst <$> B).
Hypothesis Hst : rec_state m pb db vs bad.
Hypothesis HB : Forall (fun b : nat * abd * (Z -> gf) => db !! b.1.1 = Some b.1.2 /\ vs !! b.1.1 = Some b.2) B.
Hypothesis Hsorted : StronglySorted lt bad.
Context (b0 : nat * abd * (Z -> gf)).
Hypothesis Hb0 : B !! 0%nat = Some b0.

Abbreviation first := (rm_firstdatacol rm).
Abbreviation xs := (abd_size b0.1.2).
Abbreviation zs := (without bad vs).
Abbreviation cols := ((fun b : nat * abd * (Z -> gf) => (b.1.2, abd_size b.1.2)) <$> B).

Lemma lost_lookup i b : B !! i = Some b -> db !! b.1.1 = Some b.1.2 /\ vs !! b.1.1 = Some b.2.
Proof using HB. intros E. rewrite Forall_lookup in HB. by apply (HB i). Qed.

Lemma lost_inj i j b c : B !! i = Some b -> B !! j = Some c -> i <> j -> b.1.1 <> c.1.1.
Proof using Hsorted.
  intros Hi Hj Hne E. assert (Hs : forall n n' d d', B !! n = Some d -> B !! n' = Some d' -> (n < n')%nat -> (d.1.1 < d'.1.1)%nat).
  { intros n n' d d' Hn Hn' Hlt. apply (sorted_lookup bad n n'); [done|by rewrite list_lookup_fmap, Hn|by rewrite list_lookup_fmap, Hn'|done]. }
  destruct (decide (i < j)%nat); [pose proof (Hs i j b c Hi Hj); lia|pose proof (Hs j i c b Hj Hi); lia].
Qed.

Lemma lost_size i b : B !! i = Some b -> abd_size b.1.2 <= xs.
Proof using Hwf HB Hsorted Hb0.
  intros Hi. destruct (lost_lookup i b Hi) as [Ha _], (lost_lookup 0 b0 Hb0) as [H0 _]. apply (rw_sorted _ _ _ Hwf b0.1.1 b.1.1); [|done|done].
  destruct i as [|i]; [rewrite Hb0 in Hi; by injection Hi as ->|]. apply Nat.lt_le_incl, (sorted_lookup bad 0 (S i)); [done|by rewrite list_lookup_fmap, Hb0|by rewrite list_lookup_fmap, Hi|lia].
Qed.

Lemma lost_in_bad i b : B !! i = Some b -> b.1.1 ∈ bad.
Proof. intros Hi. apply (list_elem_of_lookup_2 _ i). by rewrite list_lookup_fmap, Hi. Qed.

Lemma cols_at_list cs (g : list (abd * Z)) : Forall2 (fun c p => col_abd rm c = Ok p.1 /\ raidz_col_size rm c = Ok p.2) cs g -> cols_at rm cs = Ok g.
Proof. induction 1 as [|c [a size] cs g [Ea Es] _ IH]; [done|]. cbn [cols_at]. rewrite Ea, Es, IH. done. Qed.

Lemma cols_at_lost : cols_at rm ((fun j : nat => first + Z.of_nat j) <$> bad) = Ok cols.
Proof using Hwf HB.
  apply cols_at_list. rewrite <- list_fmap_compose. apply Forall2_fmap, Forall_Forall2_diag. eapply Forall_impl; [exact HB|]. intros [[j a] v] [Ha _]. cbn in *.
  destruct (wf_data_col rm pb db Hwf j a Ha) as (rc & Erc & Ea & Es). unfold col_abd, raidz_col_size. rewrite Erc. cbn. by rewrite Ea, Es.
Qed.

(** The parity columns used. *)
Context (par : list (nat * abd)).
Hypothesis Hpar : Forall (fun p : nat * abd => pb !! p.1 = Some p.2 /\ reads m (abd_lane p.2) 0 (raidz_big rm) (gfun (parity_at (Z.of_nat p.1) vs))) par.

Abbreviation ks := (Z.of_nat ∘ fst <$> par).

Lemma cols_at_parity : cols_at rm ks = Ok ((fun p => (p.2, raidz_big rm)) <$> par).
Proof using Hwf Hpar.
  apply cols_at_list, Forall2_fmap, Forall_Forall2_diag. eapply Forall_impl; [exact Hpar|]. intros [k a] [Ha _]. cbn in *. by destruct (parity_bufs rm pb db Hwf k a Ha) as (_ & _ & _ & _ & Ea & Es).
Qed.

(** Bytes there were are not those of a new buffer. *)
Lemma old_block xs' cs tabds m1 l : temps PAGESHIFT xs' cs m tabds m1 -> is_Some (mbyte m l) -> p_blk l ∉ new_blocks xs' cs tabds /\ mbyte m1 l = mbyte m l.
Proof.
  intros HT [b Hb]. destruct (temps_frame _ _ _ _ _ _ HT) as [H1 H2]. assert (Hni : p_blk l ∉ new_blocks xs' cs tabds).
  { intros Hin. apply H1 in Hin. unfold mbyte in Hb. by rewrite Hin in Hb. }
  split; [done|]. unfold mbyte. by rewrite H2.
Qed.

Section Targets.

Context (tabds : list abd) (m1 : mem).
Hypothesis HT : temps PAGESHIFT xs cols m tabds m1.

Abbreviation nb := (new_blocks xs cols tabds).

Lemma tabds_length : length tabds = length B.
Proof using HT. rewrite (temps_length _ _ _ _ _ _ HT). by rewrite length_fmap. Qed.

Lemma lost_mapped i b : B !! i = Some b -> mapped m (abd_lane b.1.2) 0 (abd_size b.1.2).
Proof using Hst HB. intros Hb. destruct (lost_lookup i b Hb) as [Ha _]. apply (rs_mapped _ _ _ _ _ Hst), elem_of_app. right. by eapply list_elem_of_lookup_2. Qed.

Lemma target_ok i b t : B !! i = Some b -> tabds !! i = Some t ->
  abd_wf t /\ abd_multiple 512 t /\ abd_size t = xs /\ lane_inj (abd_lane t) xs /\ mapped m1 (abd_lane t) 0 xs /\
  (xs <= abd_size b.1.2 -> t = b.1.2) /\ (abd_size b.1.2 < xs -> forall l, l ∈ locs t -> p_blk l ∈ nb).
Proof using Hwf Hst HB Hsorted Hb0 HT.
  intros Hb Ht. pose proof (temps_target _ _ _ _ _ _ i b.1.2 (abd_size b.1.2) t HT) as H. rewrite list_lookup_fmap, Hb in H. specialize (H eq_refl Ht). pose proof (lost_size i b Hb) as Hs. destruct (lost_lookup i b Hb) as [Ha _].
  destruct (Z.ltb_spec (abd_size b.1.2) xs) as [Hlt|Hge].
  - destruct H as (H1 & H2 & H3 & H4 & H5 & H6). split_and!; try done; [|lia]. rewrite <- H2. by apply abd_lane_inj.
  - subst t. destruct (wf_db rm pb db Hwf _ _ Ha) as (Hwa & Hka & _). replace xs with (abd_size b.1.2) by lia. split_and!; try done; [by apply (wf_inj rm pb db Hwf b.1.1)| |lia].
    pose proof (lost_mapped i b Hb) as Hm. intros j Hj. destruct (old_block _ _ _ _ (abd_lane b.1.2 j) HT (Hm j Hj)) as [_ ->]. by apply Hm.
Qed.

Lemma target_of t : t ∈ tabds -> exists i b, B !! i = Some b /\ tabds !! i = Some t.
Proof using HT. intros [i Hi]%list_elem_of_lookup. destruct (lookup_lt_is_Some_2 B i) as [b Hb]; [rewrite <- tabds_length; by eapply lookup_lt_Some|]. by exists i, b. Qed.

Lemma new_apart i b t l hi : B !! i = Some b -> tabds !! i = Some t -> abd_size b.1.2 < xs -> mapped m l 0 hi -> apart (abd_lane t) l xs hi.
Proof using Hwf Hst HB Hsorted Hb0 HT.
  intros Hb Ht Hlt Hm x y Hx Hy E. destruct (target_ok i b t Hb Ht) as (Hwt & _ & Es & _ & _ & _ & Hin). destruct (old_block _ _ _ _ (l y) HT (Hm y Hy)) as [Hni _]. apply Hni. rewrite <- E. apply Hin; [done|]. apply lane_locs; [done|lia].
Qed.

Lemma targets_apart i j b c t u : B !! i = Some b -> tabds !! i = Some t -> B !! j = Some c -> tabds !! j = Some u -> i <> j -> apart (abd_lane t) (abd_lane u) xs xs.
Proof using Hwf Hst HB Hsorted Hb0 HT.
  intros Hb Ht Hc Hu Hne. destruct (target_ok i b t Hb Ht) as (Hwt & _ & Et & _ & _ & Hto & _), (target_ok j c u Hc Hu) as (Hwu & _ & Eu & _ & _ & Huo & _). destruct (lost_lookup i b Hb) as [Ha _], (lost_lookup j c Hc) as [Ha' _].
  pose proof (lost_size i b Hb). pose proof (lost_size j c Hc). destruct (decide (abd_size b.1.2 < xs)) as [Hlt|Hge], (decide (abd_size c.1.2 < xs)) as [Hlt'|Hge'].
  - intros x y Hx Hy. eapply (temps_apart _ _ _ _ _ _ i j b.1.2 (abd_size b.1.2) c.1.2 (abd_size c.1.2) t u HT); [by rewrite list_lookup_fmap, Hb|done|done|by rewrite list_lookup_fmap, Hc|done|done|done| |]; (apply lane_locs; [done|lia]).
  - rewrite Huo by lia. apply (new_apart i b); [done|done|done|]. replace xs with (abd_size c.1.2) by lia. by apply (lost_mapped j).
  - rewrite Hto by lia. apply apart_sym, (new_apart j c); [done|done|done|]. replace xs with (abd_size b.1.2) by lia. by apply (lost_mapped i).
  - rewrite Hto, Huo by lia. apply (wf_data_apart rm pb db Hwf b.1.1 c.1.1); [done|done|by apply (lost_inj i j)|lia|lia].
Qed.

Lemma targets_separate : separate (abd_lane <$> tabds) xs.
Proof using Hwf Hst HB Hsorted Hb0 HT.
  intros i j l l' x y Hl Hl' Hx Hy E. rewrite list_lookup_fmap in Hl. rewrite list_lookup_fmap in Hl'. destruct (tabds !! i) as [t|] eqn:Ht; [|done]. destruct (tabds !! j) as [u|] eqn:Hu; [|done]. injection Hl as <-. injection Hl' as <-.
  destruct (lookup_lt_is_Some_2 B i) as [b Hb]; [rewrite <- tabds_length; by eapply lookup_lt_Some|]. destruct (lookup_lt_is_Some_2 B j) as [c Hc]; [rewrite <- tabds_length; by eapply lookup_lt_Some|].
  destruct (decide (i = j)) as [->|Hne]; [|by apply (targets_apart i j b c t u) in E]. rewrite Ht in Hu. injection Hu as <-. split; [done|]. by apply (target_ok j b t Hb Ht).
Qed.

(** A target and a buffer of the map that is not lost. *)
Lemma target_other_apart t a j : t ∈ tabds -> (pb ++ db) !! j = Some a -> (forall i b, B !! i = Some b -> j <> (length pb + b.1.1)%nat) -> apart (abd_lane t) (abd_lane a) xs (abd_size a).
Proof using Hwf Hst HB Hsorted Hb0 HT.
  intros (i & b & Hb & Ht)%target_of Ha Hj. destruct (target_ok i b t Hb Ht) as (Hwt & _ & Et & _ & _ & Hto & _). destruct (lost_lookup i b Hb) as [Hba _]. pose proof (lost_size i b Hb).
  destruct (decide (abd_size b.1.2 < xs)) as [Hlt|Hge].
  - apply (new_apart i b); [done|done|done|]. apply (rs_mapped _ _ _ _ _ Hst). by eapply list_elem_of_lookup_2.
  - rewrite Hto by lia. pose proof (wf_all rm pb db Hwf) as Hall. rewrite Forall_lookup in Hall. destruct (wf_db rm pb db Hwf _ _ Hba) as (Hwb & _).
    apply (wf_apart rm pb db Hwf (length pb + b.1.1) j); [by rewrite data_lookup|done|apply not_eq_sym; by apply (Hj i)|done|by apply (Hall j)|lia|lia].
Qed.

Lemma state_alloced : rec_state m1 pb db vs bad.
Proof using Hst HT.
  destruct Hst as [H1 H2 H3 H4]. constructor; [done|done| |].
  - intros j a v Ha Hv Hj i Hi. pose proof (H3 j a v Ha Hv Hj i Hi) as E. destruct (old_block _ _ _ _ (abd_lane a i) HT) as [_ ->]; [by rewrite E|done].
  - intros a Ha i Hi. pose proof (H4 a Ha i Hi) as E. by destruct (old_block _ _ _ _ (abd_lane a i) HT E) as [_ ->].
Qed.

Definition slots : list slot := zip_with (fun b t => Slot b.1.2 (abd_size b.1.2) t b.2) B tabds.

Lemma slots_lookup i e : slots !! i = Some e -> exists b t, B !! i = Some b /\ tabds !! i = Some t /\ e = Slot b.1.2 (abd_size b.1.2) t b.2.
Proof. intros (b & t & -> & Hb & Ht)%lookup_zip_with_Some. by exists b, t. Qed.

Lemma slots_fine : slots_ok xs slots.
Proof using Hwf Hst HB Hsorted Hb0 HT.
  constructor.
  - intros e [i Hi]%list_elem_of_lookup. apply slots_lookup in Hi as (b & t & Hb & Ht & ->). cbn. destruct (lost_lookup i b Hb) as [Ha _]. destruct (wf_db rm pb db Hwf _ _ Ha) as (Hwa & Hka & _).
    split_and!; [done|done|done|by apply (lost_size i)|by apply (wf_inj rm pb db Hwf b.1.1)].
  - intros e [i Hi]%list_elem_of_lookup. apply slots_lookup in Hi as (b & t & Hb & Ht & ->). cbn. by destruct (target_ok i b t Hb Ht) as (? & ? & ? & _ & _ & ? & _).
  - intros i j e f Hi Hj Hne. apply slots_lookup in Hi as (b & t & Hb & Ht & ->), Hj as (c & u & Hc & Hu & ->). cbn. destruct (lost_lookup i b Hb) as [Ha _], (lost_lookup j c Hc) as [Ha' _].
    apply (wf_data_apart rm pb db Hwf b.1.1 c.1.1); [done|done|by apply (lost_inj i j)|done|done].
  - intros i j e f Hi Hj Hne. apply slots_lookup in Hi as (b & t & Hb & Ht & ->), Hj as (c & u & Hc & Hu & ->). cbn in *. destruct (decide (abd_size c.1.2 < xs)) as [Hlt|Hge].
    + apply apart_sym, (new_apart j c); [done|done|done|by apply (lost_mapped i)].
    + destruct Hne as [Hne|?]; [|done]. destruct (target_ok j c u Hc Hu) as (_ & _ & _ & _ & _ & -> & _); [|lia]. destruct (lost_lookup i b Hb) as [Ha _], (lost_lookup j c Hc) as [Ha' _].
      apply (wf_data_apart rm pb db Hwf b.1.1 c.1.1); [done|done|by apply (lost_inj i j)|lia|lia].
Qed.

(** After the syndromes the callback [rec] is to solve for the contents. *)
Definition solves (rec : list ptr -> Z -> list ptr -> mem -> res mem) : Prop :=
  forall (tabds cabds : list abd) m2, length tabds = length B -> length cabds = length B ->
    Forall (fun a => (abd_wf a /\ abd_multiple 512 a) /\ xs <= abd_size a) cabds -> Forall (fun a => (abd_wf a /\ abd_multiple 512 a) /\ xs <= abd_size a) tabds ->
    separate (abd_lane <$> tabds) xs -> (forall t c, t ∈ tabds -> c ∈ cabds -> apart (abd_lane t) (abd_lane c) xs xs) ->
    (forall i t k, tabds !! i = Some t -> ks !! i = Some k -> reads m2 (abd_lane t) 0 xs (gfun (parity_at k zs))) ->
    (forall i c k, cabds !! i = Some c -> ks !! i = Some k -> reads m2 (abd_lane c) 0 xs (gfun (parity_at k vs))) ->
    exists m3, abd_raidz_rec_iterate rec cabds tabds xs m2 = Ok m3 /\ swept m2 (zip_with (fun t (b : nat * abd * (Z -> gf)) => (abd_lane t, gfun b.2)) tabds B) 0 xs m3.

Lemma first_size : 0 < xs <= raidz_big rm /\ (512 | xs).
Proof using Hwf HB Hb0. destruct (lost_lookup 0 b0 Hb0) as [Ha _]. destruct (wf_db rm pb db Hwf _ _ Ha) as (Hw & Hk & Hs). pose proof (aw_size _ Hw). split; [lia|apply Hk]. Qed.

Lemma parity_of p : p ∈ par -> pb !! p.1 = Some p.2 /\ reads m (abd_lane p.2) 0 (raidz_big rm) (gfun (parity_at (Z.of_nat p.1) vs)).
Proof using Hpar. intros Hp. rewrite Forall_forall in Hpar. by apply Hpar. Qed.

Lemma target_parity_apart t p : t ∈ tabds -> p ∈ par -> apart (abd_lane t) (abd_lane p.2) xs (raidz_big rm).
Proof using Hwf Hst HB Hsorted Hb0 HT Hpar.
  intros Ht Hp. destruct (parity_of p Hp) as [Ha _]. destruct (parity_bufs rm pb db Hwf _ _ Ha) as (_ & _ & Es & _). rewrite <- Es. apply (target_other_apart t p.2 p.1); [done|by apply lookup_app_l_Some|].
  intros i b Hb. apply lookup_lt_Some in Ha. lia.
Qed.

Lemma bad_not_nil : bad <> [].
Proof using Hb0. intros E. apply (f_equal (fun l => l !! 0%nat)) in E. by rewrite list_lookup_fmap, Hb0 in E. Qed.

Hypothesis Hlen : length par = length B.
Context (syn : list ptr -> option ptr -> Z -> Z -> mem -> res mem) (rec : list ptr -> Z -> list ptr -> mem -> res mem).
Hypothesis Hsyn : forall cs dc n dn m, length cs = length ks -> syn cs dc n dn m = syn_words ks cs dc n dn m.
Hypothesis Hrec : solves rec.

Lemma solved_syndromes : exists m2 m3, syndrome syn m1 rm ((fun j : nat => first + Z.of_nat j) <$> bad) tabds xs = Ok m2 /\ abd_raidz_rec_iterate rec (snd <$> par) tabds xs m2 = Ok m3 /\
  swept m1 (zip_with (fun t (b : nat * abd * (Z -> gf)) => (abd_lane t, gfun b.2)) tabds B) 0 xs m3.
Proof using All.
  destruct first_size as [Hxs Hxk]. pose proof (first_length rm pb db Hwf) as Ef. pose proof (proj2 (rw_first _ _ _ Hwf)) as Hf. change VDEV_RAIDZ_MAXPARITY with 3 in Hf. pose proof tabds_length as Etl.
  assert (Hlk : length ks = length tabds) by (rewrite length_fmap; lia).
  assert (Htab : Forall (fun a => (abd_wf a /\ abd_multiple 512 a) /\ xs <= abd_size a) tabds).
  { apply Forall_forall. intros t (i & b & Hb & Ht)%target_of. destruct (target_ok i b t Hb Ht) as (? & ? & -> & _). done. }
  destruct (syndrome_ok rm pb db Hwf m1 vs bad state_alloced tabds ks xs Hlk) with (f := syn) as (m2 & E2 & Hsw2); [|done| |lia|done|apply targets_separate| | |done|apply bad_not_nil|done|].
  - intros E. rewrite E in Etl. cbn in Etl. destruct B; [done|discriminate].
  - apply Forall_fmap, Forall_forall. intros p Hp. destruct (parity_of p Hp) as [Ha%lookup_lt_Some _]. cbn. lia.
  - intros t j a Ht Ha Hj. apply (target_other_apart t a (length pb + j)); [done|by rewrite data_lookup|]. intros i b Hb E. assert (j = b.1.1) as -> by lia. by apply Hj, (lost_in_bad i).
  - intros t (i & b & Hb & Ht)%target_of. by apply (target_ok i b t Hb Ht).
  - destruct (Hrec tabds (snd <$> par) m2) as (m3 & E3 & Hsw3); [done|by rewrite length_fmap| |done|apply targets_separate| | | |].
    + apply Forall_fmap, Forall_forall. intros p Hp. destruct (parity_of p Hp) as [Ha _]. destruct (parity_bufs rm pb db Hwf _ _ Ha) as (? & ? & Es & _). cbn. rewrite Es. split; [done|lia].
    + intros t c Ht (p & -> & Hp)%list_elem_of_fmap. eapply apart_sub; [by apply target_parity_apart|lia|lia].
    + intros i t k Ht Hk. apply Hsw2, (list_elem_of_lookup_2 _ i), lookup_zip_with_Some. by exists t, k.
    + intros i c k Hc Hk. rewrite list_lookup_fmap in Hc. rewrite list_lookup_fmap in Hk. destruct (par !! i) as [p|] eqn:Ep; [|done]. injection Hc as <-. injection Hk as <-. apply list_elem_of_lookup_2 in Ep. destruct (parity_of p Ep) as [Ha Hr].
      eapply swept_reads; [exact Hsw2| |].
      * intros j Hj. rewrite <- Hr by lia. apply (old_block _ _ _ _ _ HT). rewrite Hr by lia. done.
      * intros l w j j' Hin Hj Hj' E. apply list_elem_of_lookup in Hin as [n Hn]. apply lookup_zip_with_Some in Hn as (t & k' & [= -> ->] & Ht & _). symmetry in E. apply (target_parity_apart t p) in E; [done|by eapply list_elem_of_lookup_2|done|lia|lia].
    + exists m2, m3. split_and!; [done|done|]. eapply swept_lanes; [exact Hsw2|exact Hsw3|]. rewrite held_fst by done. symmetry. by apply zip_proj_l.
Qed.

(** Only the lost columns are written to, apart from the new buffers, which are gone. *)
Lemma only_lost m3 m4 m5 :
  (forall l, (forall i b t x, B !! i = Some b -> tabds !! i = Some t -> 0 <= x < xs -> l <> abd_lane t x) -> mbyte m3 l = mbyte m1 l) ->
  (forall l, (forall e i, e ∈ slots -> sl_size e < xs -> 0 <= i < sl_size e -> l <> abd_lane (sl_col e) i) -> mbyte m4 l = mbyte m3 l) ->
  (forall k, m5 !! k = if decide (k ∈ nb) then None else m4 !! k) -> only_writes (omap (fun j => db !! j) bad) m m5.
Proof using Hwf Hst HB Hsorted Hb0 HT Hlen.
  intros H3 H4 H5 l Hl. destruct (temps_frame _ _ _ _ _ _ HT) as [Hf1 Hf2]. unfold mbyte at 1. rewrite H5. destruct (decide (p_blk l ∈ nb)) as [Hin|Hni]; [unfold mbyte; by rewrite (Hf1 _ Hin)|]. change (mbyte m4 l = mbyte m l).
  assert (Hcol : forall i b x, B !! i = Some b -> 0 <= x < abd_size b.1.2 -> l <> abd_lane b.1.2 x).
  { intros i b x Hb Hx ->. destruct (lost_lookup i b Hb) as [Ha _]. destruct (wf_db rm pb db Hwf _ _ Ha) as (Hw & _). apply Hl, list_elem_of_bind. exists b.1.2. split; [by apply lane_locs|].
    apply list_elem_of_omap. exists b.1.1. split; [by apply (lost_in_bad i)|done]. }
  rewrite H4, H3; [unfold mbyte; by rewrite (Hf2 _ Hni)| |].
  - intros i b t x Hb Ht Hx. destruct (target_ok i b t Hb Ht) as (Hwt & _ & Es & _ & _ & Hto & Hnew). destruct (decide (abd_size b.1.2 < xs)) as [Hlt|Hge]; [|rewrite Hto by lia; apply (Hcol i); [done|lia]].
    intros ->. apply Hni, Hnew; [done|]. apply lane_locs; [done|lia].
  - intros e x [i Hi]%list_elem_of_lookup _ Hx. apply slots_lookup in Hi as (b & t & Hb & Ht & ->). by apply (Hcol i).
Qed.

(** The whole routine. *)
Lemma several_steps : exists m2 m3 m4 m5, syndrome syn m1 rm ((fun j : nat => first + Z.of_nat j) <$> bad) tabds xs = Ok m2 /\ abd_raidz_rec_iterate rec (snd <$> par) tabds xs m2 = Ok m3 /\
  copy_back m3 xs cols tabds = Ok m4 /\ free_bufs PAGESHIFT m4 xs cols tabds = Ok m5 /\ data_held m5 db vs /\ only_writes (omap (fun j => db !! j) bad) m m5.
Proof using All.
  destruct solved_syndromes as (m2 & m3 & E2 & E3 & Hsw). pose proof tabds_length as Etl. pose proof slots_fine as Hok.
  assert (Ec : (fun e => (sl_col e, sl_size e)) <$> slots = cols) by (unfold slots; by apply zip_proj_l).
  assert (Et : sl_tgt <$> slots = tabds) by (unfold slots; by apply zip_proj_r).
  (* bytes of the memory there was *)
  assert (H3 : forall l, (forall i b t x, B !! i = Some b -> tabds !! i = Some t -> 0 <= x < xs -> l <> abd_lane t x) -> mbyte m3 l = mbyte m1 l).
  { intros l Hl. apply (sw_old _ _ _ _ _ Hsw). intros l' w Hin x Hx. apply list_elem_of_lookup in Hin as [i Hi]. apply lookup_zip_with_Some in Hi as (t & b & [= -> ->] & Ht & Hb). by apply (Hl i b t). }
  destruct (copy_back_ok xs slots m3 Hok) as (m4 & E4 & Hr4 & Ho4).
  { intros e [i Hi]%list_elem_of_lookup. apply slots_lookup in Hi as (b & t & Hb & Ht & ->). cbn. apply Hsw, (list_elem_of_lookup_2 _ i), lookup_zip_with_Some. by exists t, b. }
  { intros e [i Hi]%list_elem_of_lookup x Hx. apply slots_lookup in Hi as (b & t & Hb & Ht & ->). cbn in *. eapply swept_some; [exact Hsw|]. pose proof (lost_mapped i b Hb x Hx) as E. by destruct (old_block _ _ _ _ _ HT E) as [_ ->]. }
  rewrite Ec, Et in E4. assert (H4 : forall k, k ∈ nb -> is_Some (m4 !! k)).
  { intros k Hk. destruct (temps_hit _ _ _ _ _ _ _ HT Hk) as (i & a & size & t & l & Hc & Ht & Hlt & Hl & <-). rewrite list_lookup_fmap in Hc. destruct (B !! i) as [b|] eqn:Hb; [|done]. injection Hc as <- <-.
    destruct (target_ok i b t Hb Ht) as (Hwt & _ & Es & _ & Hmt & _). apply locs_lane_inv in Hl as (x & Hx & ->); [|done]. rewrite Es in Hx.
    assert (H' : is_Some (mbyte m4 (abd_lane t x))); [|destruct H' as [y Hy]; by eapply mapped_block]. rewrite Ho4; [eapply swept_some; [exact Hsw|by apply Hmt]|].
    intros e y [j Hj]%list_elem_of_lookup Hlt' Hy. pose proof Hj as Hj'. apply slots_lookup in Hj' as (c & u & Hc & Hu & ->). cbn in *. apply (new_apart i b t _ (abd_size c.1.2) Hb Ht Hlt); [by apply (lost_mapped j)|done|done]. }
  destruct (temps_free _ _ _ _ _ _ m4 HT H4) as (m5 & E5 & Hm5). exists m2, m3, m4, m5. split_and!; [done..| |].
  - eapply rec_done; [exact Hst|apply Hwf|apply (wf_all rm pb db Hwf)| |by apply (only_lost m3 m4)].
    intros j a v Ha Hv (b & -> & [i Hb]%list_elem_of_lookup)%list_elem_of_fmap x Hx. cbn [compose] in *. destruct (lost_lookup i b Hb) as [Ha' Hv']. rewrite Ha' in Ha. injection Ha as <-. rewrite Hv' in Hv. injection Hv as <-.
    destruct (old_block _ _ _ _ _ HT (lost_mapped i b Hb x Hx)) as [Hni _]. unfold mbyte. rewrite Hm5, decide_False by done. destruct (lookup_lt_is_Some_2 tabds i) as [t Ht]; [rewrite Etl; by eapply lookup_lt_Some|].
    apply (Hr4 (Slot b.1.2 (abd_size b.1.2) t b.2)); [|done]. apply (list_elem_of_lookup_2 _ i), lookup_zip_with_Some. by exists b, t.
  - by apply (only_lost m3 m4).
Qed.

End Targets.

Hypothesis Hlen : length par = length B.
Context (syn : list ptr -> option ptr -> Z -> Z -> mem -> res mem) (rec : list ptr -> Z -> list ptr -> mem -> res mem).
Hypothesis Hsyn : forall cs dc n dn m, length cs = length ks -> syn cs dc n dn m = syn_words ks cs dc n dn m.
Hypothesis Hrec : solves rec.

Lemma reconstruct_several_ok : exists m', reconstruct_several PAGESHIFT kmem_alloc zfs_abd_scatter_enabled syn rec ks m rm ((fun j : nat => first + Z.of_nat j) <$> bad) = Ok m' /\
  data_held m' db vs /\ only_writes (omap (fun j => db !! j) bad) m m'.
Proof using All.
  destruct first_size as [Hxs Hxk]. pose proof (proj1 (rw_big _ _ _ Hwf)) as Hbig. destruct (target_bufs_ok PAGESHIFT xs kmem_alloc zfs_abd_scatter_enabled cols m Hshift kmem_fresh kmem_size ltac:(lia) Hxk) as (tabds & m1 & E1 & HT).
  destruct (several_steps tabds m1 HT Hlen syn rec Hsyn Hrec) as (m2 & m3 & m4 & m5 & E2 & E3 & E4 & E5 & H5). exists m5. split; [|done]. destruct (lost_lookup 0 b0 Hb0) as [Ha0 _].
  destruct (wf_data_col rm pb db Hwf _ _ Ha0) as (rc & Erc & Ea & Es). unfold reconstruct_several. rewrite list_lookup_fmap, list_lookup_fmap, Hb0. cbn [fmap option_fmap option_map deref mbind res_bind compose].
  unfold raidz_col_size at 1. rewrite Erc. cbn [mbind res_bind]. rewrite Es, cols_at_lost, cols_at_parity. cbn [mbind res_bind]. rewrite E1. cbn [mbind res_bind]. rewrite E2. cbn [mbind res_bind].
  rewrite <- list_fmap_compose. change (fst ∘ (fun p : nat * abd => (p.2, raidz_big rm))) with (snd : nat * abd -> abd). rewrite E3. cbn [mbind res_bind]. rewrite E4. cbn [mbind res_bind]. done.
Qed.

End SeveralOk.

(** ** Words of the solution *)

Lemma store_words (T : list (lane * (Z -> gf))) ps x N m :
  separate (fst <$> T) N -> 0 <= x -> x + 8 <= N -> Forall2 (fun t p => contig t.1 x p 8) T ps -> (forall t, t ∈ T -> mapped m t.1 x (x + 8)) ->
  exists m', each (zip_with (fun t p m => store64 m p (wd t.2 x)) T ps) m = Ok m' /\ swept m ((fun t => (t.1, gfun t.2)) <$> T) x (x + 8) m'.
Proof.
  intros Hsep Hx HN Hc Hm. apply each_ok with N; [by rewrite <- list_fmap_compose|done|done|]. apply Forall2_same_length_lookup_2; [rewrite length_zip_with, length_fmap, (Forall2_length _ _ _ Hc); lia|].
  intros i f t' Hf Ht m1 Hm1. rewrite list_lookup_fmap in Ht. destruct (T !! i) as [t|] eqn:Et; [|done]. injection Ht as <-. apply lookup_zip_with_Some in Hf as (t0 & p & -> & Et0 & Hp). rewrite Et in Et0. injection Et0 as <-. cbn [fst] in Hm1.
  apply store_wd; [exact (Forall2_lookup_lr _ _ _ _ _ _ Hc Et Hp)|]. intros j Hj. rewrite Hm1 by done. apply (Hm t); [by eapply list_elem_of_lookup_2|done].
Qed.

Lemma zip_fmap {A B C D} (g : C -> D) (F : A -> B -> C) l k : g <$> zip_with F l k = zip_with (fun x y => g (F x y)) l k.
Proof. revert k. induction l as [|x l IH]; intros [|y k]; try done. cbn. f_equal. apply IH. Qed.

Lemma zip_zip_l {A B C D E} (F : C -> D -> E) (G : A -> B -> C) (H : B -> D -> E) l k j :
  (forall x y z, F (G x y) z = H y z) -> length l = length k -> zip_with F (zip_with G l k) j = zip_with H k j.
Proof. intros HF. revert k j. induction l as [|x l IH]; intros [|y k] [|z j] El; try done. cbn. rewrite HF. f_equal. apply IH. by injection El. Qed.

Section Words.

Context (vs : list (Z -> gf)) (B : list (nat * abd * (Z -> gf))) (b0 : nat * abd * (Z -> gf)) (par : list (nat * abd)).

Abbreviation ks := (Z.of_nat ∘ fst <$> par).
Abbreviation zs := (without (fst ∘ fst <$> B) vs).
Abbreviation xs := (abd_size b0.1.2).

(** It is enough that the loop's body stores the right words. *)
Lemma solves_words (W : list ptr -> list ptr -> mem -> res mem) rec :
  B <> [] -> length par = length B -> 0 <= xs -> (512 | xs) ->
  (forall t n c m, length t = length B -> length c = length B -> rec t n c m = for_range 0 (n / 8) (fun i => W ((fun p => ptr_add p (8 * i)) <$> t) ((fun p => ptr_add p (8 * i)) <$> c)) m) ->
  (forall t c x m, length t = length B -> length c = length B -> 
     (forall i p k, t !! i = Some p -> ks !! i = Some k -> load64 m p = Ok (wd (parity_at k zs) x)) -> (forall i p k, c !! i = Some p -> ks !! i = Some k -> load64 m p = Ok (wd (parity_at k vs) x)) ->
     W t c m = each (zip_with (fun (b : nat * abd * (Z -> gf)) p m => store64 m p (wd b.2 x)) B t) m) ->
  solves vs B b0 par rec.
Proof.
  intros HB Hlen Hxs Hxk Hloop HW tabds cabds m Ht Hc HFc HFt Hsep Hap Hrt Hrc. assert (D8 : (8 | 512)) by (by exists 64).
  set (ts := zip_with (fun t (b : nat * abd * (Z -> gf)) => (abd_lane t, gfun b.2)) tabds B). assert (Hts : fst <$> ts = abd_lane <$> tabds) by (by apply zip_proj_l).
  apply (rec_inv 512 (fun pos m1 => swept m ts 0 pos m1)); [done|done|by destruct cabds, B|done|done| |apply swept_empty].
  intros pos t n c m1 Hpos Hn Hle Hkp Hkn Hct Hcc Hsw. rewrite Hloop by (rewrite <- ?(Forall2_length _ _ _ Hct), <- ?(Forall2_length _ _ _ Hcc); done).
  destruct (units_loop 8 m ts 0 xs pos n xs (fun i => W ((fun p => ptr_add p (8 * i)) <$> t) ((fun p => ptr_add p (8 * i)) <$> c)) m1) as (m2 & E2 & Hsw2); [lia|by rewrite Hts|lia|lia|lia|lia|by eapply Z.divide_trans|done| |by exists m2].
  intros i m2 Hi Hin Hsw2. set (x := pos + 8 * i) in *. pose proof (Forall2_length _ _ _ Hct) as Elt. pose proof (Forall2_length _ _ _ Hcc) as Elc.
  assert (Ht1 : forall j a k, tabds !! j = Some a -> ks !! j = Some k -> reads m2 (abd_lane a) x (x + 8) (gfun (parity_at k zs))).
  { intros j a k Ha Hk. eapply (swept_ahead m ts x m2 _ _ xs); [done|by rewrite Hts| |by apply (Hrt j)|lia|lia]. rewrite Hts. apply list_elem_of_fmap. exists a. split; [done|by eapply list_elem_of_lookup_2]. }
  rewrite (HW _ _ x); [|by rewrite length_fmap; lia|by rewrite length_fmap; lia| |].
  - destruct (store_words (zip_with (fun t (b : nat * abd * (Z -> gf)) => (abd_lane t, b.2)) tabds B) ((fun p => ptr_add p (8 * i)) <$> t) x xs m2) as (m3 & E3 & Hsw3).
    + by rewrite (zip_proj_l _ abd_lane).
    + lia.
    + lia.
    + apply Forall2_same_length_lookup_2; [rewrite length_zip_with, length_fmap; lia|]. intros j u p Hu Hp. apply lookup_zip_with_Some in Hu as (a & b & -> & Ha & _). rewrite list_lookup_fmap in Hp. destruct (t !! j) as [q|] eqn:Hq; [|done]. injection Hp as <-.
      cbn. eapply contig_sub; [exact (Forall2_lookup_lr _ _ _ _ _ _ Hct Ha Hq)|lia|lia].
    + intros u [j Hj]%list_elem_of_lookup. apply lookup_zip_with_Some in Hj as (a & b & -> & Ha & _). cbn. destruct (lookup_lt_is_Some_2 ks j) as [k Hk]; [rewrite length_fmap, Hlen, <- Ht; by eapply lookup_lt_Some|]. eapply reads_mapped, (Ht1 j); done.
    + exists m3. split; [rewrite <- E3; f_equal; symmetry; by apply zip_zip_l|]. by rewrite zip_fmap in Hsw3.
  - intros j p k Hp Hk. rewrite list_lookup_fmap in Hp. destruct (t !! j) as [q|] eqn:Hq; [|done]. injection Hp as <-. destruct (lookup_lt_is_Some_2 tabds j) as [a Ha]; [rewrite Elt; by eapply lookup_lt_Some|].
    apply (load_wd _ (abd_lane a)); [eapply contig_sub; [exact (Forall2_lookup_lr _ _ _ _ _ _ Hct Ha Hq)|lia|lia]|by apply (Ht1 j)].
  - intros j p k Hp Hk. rewrite list_lookup_fmap in Hp. destruct (c !! j) as [q|] eqn:Hq; [|done]. injection Hp as <-. destruct (lookup_lt_is_Some_2 cabds j) as [a Ha]; [rewrite Elc; by eapply lookup_lt_Some|].
    apply (load_wd _ (abd_lane a)); [eapply contig_sub; [exact (Forall2_lookup_lr _ _ _ _ _ _ Hcc Ha Hq)|lia|lia]|]. eapply swept_reads; [exact Hsw2|eapply reads_sub; [by apply (Hrc j)|lia|lia]|].
    intros l w y y' Hin' Hy Hy' E. apply list_elem_of_lookup in Hin' as [j' Hj']. apply lookup_zip_with_Some in Hj' as (a' & b & [= -> ->] & Ha' & _). symmetry in E. apply (Hap a' a) in E; [done|by eapply list_elem_of_lookup_2|by eapply list_elem_of_lookup_2|lia|lia].
Qed.

End Words.

(** ** The equations *)

Lemma gcancel2 a b : (a + (b + b))%gf = a.
Proof. rewrite gadd_self. ring. Qed.

Lemma pq_algebra a b wx wy X Y : (b * wx)%gf = g1 -> (b * wy)%gf = a -> (a + g1)%gf <> g0 -> ((X + Y) * (a / (a + g1)) + (X * wx + Y * wy) * (b / (a + g1)))%gf = X.
Proof.
  intros H1 H2 H0. transitivity (((X * a + X * (b * wx)) + (Y * a + Y * (b * wy))) / (a + g1))%gf; [unfold gdiv; ring|]. rewrite H1, H2, gadd_self. field. done.
Qed.

Lemma qr_algebra nx ny d X Y : nx <> g0 -> ny <> g0 -> (nx + ny)%gf <> g0 -> d = (nx * nx * ny + nx * ny * ny)%gf ->
  (((X * nx + Y * ny) * ny + (X * (nx * nx) + Y * (ny * ny))) * (ny / d))%gf = X /\ (((X * nx + Y * ny) * nx + (X * (nx * nx) + Y * (ny * ny))) * (nx / d))%gf = Y.
Proof.
  intros Hx Hy Hxy Ed. assert (Ed' : d = (nx * ny * (nx + ny))%gf) by (rewrite Ed; ring). assert (Hd : d <> g0) by (rewrite Ed'; repeat apply gmul_nonzero; done). split.
  - transitivity ((X * d + (Y * ny * ny * ny + Y * ny * ny * ny)) / d)%gf; [rewrite Ed; unfold gdiv; ring|]. rewrite gcancel2. field. done.
  - transitivity ((Y * d + (X * nx * nx * nx + X * nx * nx * nx)) / d)%gf; [rewrite Ed; unfold gdiv; ring|]. rewrite gcancel2. field. done.
Qed.

Definition pqr_det (nx ny nz : gf) : gf := (nx * nx * ny + nx * (ny * ny) + ny * nz * ny + nx * nx * nz + nz * nz * nx + nz * nz * ny)%gf.

Lemma pqr_det_nonzero nx ny nz : (nx + ny)%gf <> g0 -> (nx + nz)%gf <> g0 -> (ny + nz)%gf <> g0 -> pqr_det nx ny nz <> g0.
Proof.
  intros H1 H2 H3. assert (E : pqr_det nx ny nz = ((nx + ny) * (nx + nz) * (ny + nz))%gf).
  { transitivity (pqr_det nx ny nz + (nx * ny * nz + nx * ny * nz))%gf; [by rewrite gcancel2|unfold pqr_det; ring]. }
  rewrite E. repeat apply gmul_nonzero; done.
Qed.

Lemma pqr_algebra nx ny nz X Y Z :
  (nx + ny)%gf <> g0 -> (nx + nz)%gf <> g0 -> (ny + nz)%gf <> g0 ->
  let d := pqr_det nx ny nz in let P := (X + Y + Z)%gf in let Q := (X * nx + Y * ny + Z * nz)%gf in let R := (X * (nx * nx) + Y * (ny * ny) + Z * (nz * nz))%gf in
  (P * ((ny * nz * ny + nz * nz * ny) / d) + Q * ((ny * ny + nz * nz) / d) + R * ((ny + nz) / d))%gf = X /\
  ((Q + X * nx) * ginv (ny + nz) + (P + X) * (nz * ginv (ny + nz)))%gf = Y /\ (Y + (P + X))%gf = Z.
Proof.
  intros H1 H2 H3 d P Q R. pose proof (pqr_det_nonzero nx ny nz H1 H2 H3) as Hd. fold d in Hd. split_and!.
  - set (W := (Y * (ny * ny * nz + ny * nz * nz + ny * ny * ny) + Z * (ny * ny * nz + ny * nz * nz + nz * nz * nz))%gf).
    transitivity ((X * d + (W + W)) / d)%gf; [subst d P Q R W; unfold pqr_det, gdiv; ring|]. rewrite gcancel2. field. done.
  - transitivity ((Y * (ny + nz) + (X * nx + X * nx) + (X * nz + X * nz) + (Z * nz + Z * nz)) * ginv (ny + nz))%gf; [subst P Q; ring|]. rewrite !gcancel2. field. done.
  - transitivity (Z + (X + X) + (Y + Y))%gf; [subst P; ring|]. by rewrite !gcancel2.
Qed.

(** ** The parity less the syndrome *)

Section Lost.

Context (vs : list (Z -> gf)) (k : Z) (i : Z).
Abbreviation w := (weight k (length vs)).

Lemma lost2 x y vx vy : vs !! x = Some vx -> vs !! y = Some vy -> x <> y -> (parity_at k (without [x; y] vs) i + parity_at k vs i)%gf = (vx i * w x + vy i * w y)%gf.
Proof.
  intros Hx Hy Hne. pose proof (parity_lost k y [] vs vy i Hy ltac:(by intros ?%elem_of_nil)) as E. rewrite without_nil in E. rewrite E. rewrite (parity_lost k x [y] vs vx i Hx) by (by rewrite list_elem_of_singleton).
  set (s := parity_at k (without [x; y] vs) i). transitivity (s + (s + (vx i * w x + vy i * w y)))%gf; [ring|apply gadd_cancel].
Qed.

Lemma lost3 x y z vx vy vz : vs !! x = Some vx -> vs !! y = Some vy -> vs !! z = Some vz -> x <> y -> x <> z -> y <> z ->
  (parity_at k (without [x; y; z] vs) i + parity_at k vs i)%gf = (vx i * w x + vy i * w y + vz i * w z)%gf.
Proof.
  intros Hx Hy Hz H1 H2 H3. pose proof (parity_lost k z [] vs vz i Hz ltac:(by intros ?%elem_of_nil)) as E. rewrite without_nil in E. rewrite E. rewrite (parity_lost k y [z] vs vy i Hy) by (by rewrite list_elem_of_singleton).
  rewrite (parity_lost k x [y; z] vs vx i Hx) by (rewrite !not_elem_of_cons; split_and!; [done|done|apply not_elem_of_nil]).
  set (s := parity_at k (without [x; y; z] vs) i). transitivity (s + (s + (vx i * w x + vy i * w y + vz i * w z)))%gf; [ring|apply gadd_cancel].
Qed.

End Lost.

Lemma weight_0 n x : weight 0 n x = g1.
Proof. unfold weight. rewrite Z.mul_0_l. apply gpow_0. Qed.

Lemma weight_2 n x : weight 2 n x = (weight 1 n x * weight 1 n x)%gf.
Proof. unfold weight. rewrite <- gpow_add. f_equal. lia. Qed.

Lemma weight_ne k n x y : 1 <= k <= 2 -> (x < n)%nat -> (y < n)%nat -> x <> y -> (n <= 255)%nat -> (weight k n x + weight k n y)%gf <> g0.
Proof. intros Hk Hx Hy Hne Hn H. apply (proj1 (gadd_eq0 _ _)) in H. unfold weight in H. apply gpow_mul_inj in H; lia. Qed.

Lemma weight_nonzero k n x : weight k n x <> g0.
Proof. apply gpow_nonzero. Qed.

(** ** The routines for two and three columns *)

Lemma gv_div a b : gf_div (gv a) (gv b) = gv (a / b)%gf.
Proof. apply gf_div_mul; apply gv_u8. Qed.

Lemma gv_mul a b : gf_mul (gv a) (gv b) = gv (a * b)%gf.
Proof. done. Qed.

Lemma gv_add a b : Z.lxor (gv a) (gv b) = gv (a + b)%gf.
Proof. done. Qed.

Lemma gv_inv a : gf_inv (gv a) = gv (ginv a).
Proof. done. Qed.

Lemma list2 {A} (l : list A) : length l = 2%nat -> exists a b, l = [a; b].
Proof. intros E. destruct l as [|a [|b [|]]]; try discriminate. by exists a, b. Qed.

Lemma list3 {A} (l : list A) : length l = 3%nat -> exists a b c, l = [a; b; c].
Proof. intros E. destruct l as [|a [|b [|c [|]]]]; try discriminate. by exists a, b, c. Qed.

Lemma xor_wd v w x : Z.lxor (wd v x) (wd w x) = wd (fun i => v i + w i)%gf x.
Proof. apply XOR_wd. Qed.

Lemma two_stores F G v w tx ty pos m : (forall i, F i = v i) -> (forall i, G i = w i) ->
  (m ← store64 m tx (wd F pos); store64 m ty (wd G pos)) = (m ← store64 m tx (wd v pos); store64 m ty (wd w pos)).
Proof. intros HF HG. by rewrite (wd_ext F v), (wd_ext G w) by auto. Qed.

Definition word2 (word : ptr -> ptr -> ptr -> ptr -> mem -> res mem) (t c : list ptr) : mem -> res mem :=
  match t, c with [x; y], [p; q] => word x y p q | _, _ => fun _ => Panic end.

Definition word3 (word : ptr -> ptr -> ptr -> ptr -> ptr -> ptr -> mem -> res mem) (t c : list ptr) : mem -> res mem :=
  match t, c with [x; y; z], [p; q; r] => word x y z p q r | _, _ => fun _ => Panic end.

Section Solve.

Context (vs : list (Z -> gf)) (x y : nat) (ax ay : abd) (vx vy : Z -> gf).
Hypothesis Hx : vs !! x = Some vx.
Hypothesis Hy : vs !! y = Some vy.
Hypothesis Hxy : x <> y.
Hypothesis Hn : (length vs <= 254)%nat.
Hypothesis Hs : 0 <= abd_size ax.
Hypothesis Hk : (512 | abd_size ax).

Abbreviation bx := (x, ax, vx).
Abbreviation by_ := (y, ay, vy).
Abbreviation n := (length vs).

(** Two parity columns [k] and [k'], of which [k] is [P] or [Q]. *)
Lemma solves_two word rec k k' pk pk' :
  (forall t n c m, length t = 2%nat -> length c = 2%nat -> rec t n c m = for_range 0 (n / 8) (fun i => word2 word ((fun p => ptr_add p (8 * i)) <$> t) ((fun p => ptr_add p (8 * i)) <$> c)) m) ->
  (forall tx ty p q pos m sx sy fp fq, load64 m tx = Ok (wd sx pos) -> load64 m ty = Ok (wd sy pos) -> load64 m p = Ok (wd fp pos) -> load64 m q = Ok (wd fq pos) ->
     (forall i, (sx i + fp i)%gf = (vx i * weight (Z.of_nat k) n x + vy i * weight (Z.of_nat k) n y)%gf) -> (forall i, (sy i + fq i)%gf = (vx i * weight (Z.of_nat k') n x + vy i * weight (Z.of_nat k') n y)%gf) ->
     word tx ty p q m = (m ← store64 m tx (wd vx pos); store64 m ty (wd vy pos))) ->
  solves vs [bx; by_] bx [(k, pk); (k', pk')] rec.
Proof using Hx Hy Hxy Hs Hk.
  intros Hrec Hword. apply (solves_words _ _ _ _ (word2 word)); [done|done|done|done|done|]. intros t c pos m Et Ec Ht Hc. destruct (list2 t Et) as (tx & ty & ->), (list2 c Ec) as (p & q & ->).
  apply (Hword _ _ _ _ pos m (parity_at (Z.of_nat k) (without [x; y] vs)) (parity_at (Z.of_nat k') (without [x; y] vs)) (parity_at (Z.of_nat k) vs) (parity_at (Z.of_nat k') vs));
    [by apply (Ht 0%nat)|by apply (Ht 1%nat)|by apply (Hc 0%nat)|by apply (Hc 1%nat)|intros i; by apply lost2..].
Qed.

Lemma rec_pq_word_ok a b wx wy tx ty p q pos m sx sy fp fq :
  load64 m tx = Ok (wd sx pos) -> load64 m ty = Ok (wd sy pos) -> load64 m p = Ok (wd fp pos) -> load64 m q = Ok (wd fq pos) ->
  (b * wx)%gf = g1 -> (b * wy)%gf = a -> (a + g1)%gf <> g0 -> (forall i, (sx i + fp i)%gf = (vx i + vy i)%gf) -> (forall i, (sy i + fq i)%gf = (vx i * wx + vy i * wy)%gf) ->
  rec_pq_word (gf_div (gv a) (Z.lxor (gv a) 1), gf_div (gv b) (Z.lxor (gv a) 1)) tx ty p q m = (m ← store64 m tx (wd vx pos); store64 m ty (wd vy pos)).
Proof.
  intros E1 E2 E3 E4 H1 H2 H0 HP HQ. unfold rec_pq_word, XOR_ACC. rewrite E1, E2, E3, E4. cbn [mbind res_bind fst snd]. change (Z.lxor (gv a) 1) with (gv (a + g1)%gf). rewrite !gv_div, !xor_wd, !MUL_wd, !XOR_wd.
  apply two_stores; intros i; rewrite HP, HQ, (pq_algebra a b wx wy) by done; [done|]. transitivity (vy i + (vx i + vx i))%gf; [ring|apply gcancel2].
Qed.

Lemma coeff_facts k : 1 <= k <= 2 ->
  let a := gpow (k * (Z.of_nat x + 255 - Z.of_nat y)) in let b := gpow (k * (255 - (Z.of_nat n - Z.of_nat x - 1))) in
  (b * weight k n x)%gf = g1 /\ (b * weight k n y)%gf = a /\ (a + g1)%gf <> g0.
Proof using Hx Hy Hxy Hn.
  intros Hk' a b. pose proof (lookup_lt_Some _ _ _ Hx) as Hlx. pose proof (lookup_lt_Some _ _ _ Hy) as Hly.
  assert (H1 : (b * weight k n x)%gf = g1) by (rewrite <- (rec_coeff vs x k); subst b; ring).
  assert (H2 : (b * weight k n y)%gf = a) by (subst a b; unfold weight; rewrite <- gpow_add; f_equal; lia). split_and!; [done|done|]. intros Ha. apply (proj1 (gadd_eq0 _ _)) in Ha.
  apply (weight_ne k n x y Hk' Hlx Hly Hxy ltac:(lia)). apply gadd_eq0. transitivity (weight k n x * (b * weight k n y))%gf; [rewrite H2, Ha; ring|]. transitivity (b * weight k n x * weight k n y)%gf; [ring|]. rewrite H1. ring.
Qed.

Context (ncols xi yi : Z).
Hypothesis Hxi : ncols - xi = Z.of_nat n - Z.of_nat x.
Hypothesis Hyi : ncols - yi = Z.of_nat n - Z.of_nat y.

Lemma solves_pq pp pq : solves vs [bx; by_] bx [(0%nat, pp); (1%nat, pq)] (raidz_rec_pq_abd (raidz_rec_pq_coeff ncols xi yi)).
Proof using Hx Hy Hxy Hn Hs Hk Hxi Hyi.
  apply (solves_two (rec_pq_word (raidz_rec_pq_coeff ncols xi yi))). { intros t n' c m Et Ec. by destruct (list2 t Et) as (tx & ty & ->), (list2 c Ec) as (p & q & ->). }
  intros tx ty p q pos m sx sy fp fq E1 E2 E3 E4 HP HQ. destruct (coeff_facts 1 ltac:(lia)) as (H1 & H2 & H0). unfold raidz_rec_pq_coeff. cbv zeta.
  rewrite <- !gpow_mod1. replace (xi + 255 - yi) with (1 * (Z.of_nat x + 255 - Z.of_nat y)) by lia. replace (255 - (ncols - xi - 1)) with (1 * (255 - (Z.of_nat n - Z.of_nat x - 1))) by lia.
  eapply rec_pq_word_ok; [done..| |done]. intros i. rewrite HP. change (Z.of_nat 0) with 0. rewrite !weight_0. ring.
Qed.

Lemma solves_pr pp pr : solves vs [bx; by_] bx [(0%nat, pp); (2%nat, pr)] (raidz_rec_pr_abd (raidz_rec_pr_coeff ncols xi yi)).
Proof using Hx Hy Hxy Hn Hs Hk Hxi Hyi.
  apply (solves_two (rec_pq_word (raidz_rec_pr_coeff ncols xi yi))). { intros t n' c m Et Ec. by destruct (list2 t Et) as (tx & ty & ->), (list2 c Ec) as (p & q & ->). }
  intros tx ty p q pos m sx sy fp fq E1 E2 E3 E4 HP HQ. destruct (coeff_facts 2 ltac:(lia)) as (H1 & H2 & H0). unfold raidz_rec_pr_coeff. cbv zeta.
  rewrite <- !gpow_mod2. replace (xi + 255 - yi) with (Z.of_nat x + 255 - Z.of_nat y) by lia. replace (255 - (ncols - xi - 1)) with (255 - (Z.of_nat n - Z.of_nat x - 1)) by lia.
  eapply rec_pq_word_ok; [done..| |done]. intros i. rewrite HP. change (Z.of_nat 0) with 0. rewrite !weight_0. ring.
Qed.

Lemma solves_qr pq pr : solves vs [bx; by_] bx [(1%nat, pq); (2%nat, pr)] (raidz_rec_qr_abd (raidz_rec_qr_coeff ncols xi yi)).
Proof using Hx Hy Hxy Hn Hs Hk Hxi Hyi.
  apply (solves_two (rec_qr_word (raidz_rec_qr_coeff ncols xi yi))). { intros t n' c m Et Ec. by destruct (list2 t Et) as (tx & ty & ->), (list2 c Ec) as (p & q & ->). }
  intros tx ty p q pos m sx sy fp fq E1 E2 E3 E4 HP HQ. pose proof (lookup_lt_Some _ _ _ Hx) as Hlx. pose proof (lookup_lt_Some _ _ _ Hy) as Hly. pose proof (weight_ne 1 n x y ltac:(lia) Hlx Hly Hxy ltac:(lia)) as Hw.
  unfold raidz_rec_qr_coeff. cbv zeta. rewrite <- !gpow_mod1. replace (ncols - xi - 1) with (1 * (Z.of_nat n - 1 - Z.of_nat x)) by lia. replace (ncols - yi - 1) with (1 * (Z.of_nat n - 1 - Z.of_nat y)) by lia.
  fold (weight 1 n x) (weight 1 n y). set (nx := weight 1 n x) in *. set (ny := weight 1 n y) in *. set (d := (nx * nx * ny + nx * ny * ny)%gf).
  change (Z.lxor (gf_mul (gf_mul (gv nx) (gv nx)) (gv ny)) (gf_mul (gf_mul (gv nx) (gv ny)) (gv ny))) with (gv d). rewrite !gv_div. unfold rec_qr_word, XOR_ACC. rewrite E1, E2, E3, E4. cbn [mbind res_bind].
  rewrite !xor_wd, !MUL_wd, !XOR_wd, !MUL_wd. assert (HQ' : forall i, (sy i + fq i)%gf = (vx i * (nx * nx) + vy i * (ny * ny))%gf) by (intros i; rewrite HQ; change (Z.of_nat 2) with 2; by rewrite !weight_2).
  change (Z.of_nat 1) with 1 in HP. fold nx ny in HP.
  pose proof (fun i => qr_algebra nx ny d (vx i) (vy i) (weight_nonzero _ _ _) (weight_nonzero _ _ _) Hw eq_refl) as Halg. apply two_stores; intros i; rewrite HP, HQ'; destruct (Halg i) as [HX HY]; [exact HX|exact HY].
Qed.

Context (z : nat) (az : abd) (vz : Z -> gf) (zi : Z).
Hypothesis Hz : vs !! z = Some vz.
Hypothesis Hzi : ncols - zi = Z.of_nat n - Z.of_nat z.
Hypothesis Hxz : x <> z.
Hypothesis Hyz : y <> z.

Lemma rec_pqr_word_ok nx ny nz tx ty tz p q r pos m sx sy sz fp fq fr :
  load64 m tx = Ok (wd sx pos) -> load64 m ty = Ok (wd sy pos) -> load64 m tz = Ok (wd sz pos) -> load64 m p = Ok (wd fp pos) -> load64 m q = Ok (wd fq pos) -> load64 m r = Ok (wd fr pos) ->
  (nx + ny)%gf <> g0 -> (nx + nz)%gf <> g0 -> (ny + nz)%gf <> g0 -> (forall i, (sx i + fp i)%gf = (vx i + vy i + vz i)%gf) -> (forall i, (sy i + fq i)%gf = (vx i * nx + vy i * ny + vz i * nz)%gf) ->
  (forall i, (sz i + fr i)%gf = (vx i * (nx * nx) + vy i * (ny * ny) + vz i * (nz * nz))%gf) ->
  rec_pqr_word (PqrCoeff (gv ((ny * nz * ny + nz * nz * ny) / pqr_det nx ny nz)) (gv ((ny * ny + nz * nz) / pqr_det nx ny nz)) (gv ((ny + nz) / pqr_det nx ny nz)) (gv nx) (gv (nz * ginv (ny + nz))) (gv (ginv (ny + nz)))) tx ty tz p q r m =
  (m ← store64 m tx (wd vx pos); m ← store64 m ty (wd vy pos); store64 m tz (wd vz pos)).
Proof.
  intros E1 E2 E3 E4 E5 E6 H1 H2 H3 HP HQ HR. pose proof (fun i => pqr_algebra nx ny nz (vx i) (vy i) (vz i) H1 H2 H3) as Halg. cbv zeta in Halg. unfold rec_pqr_word, XOR_ACC. rewrite E1, E2, E3, E4, E5, E6. cbn [mbind res_bind].
  cbn [MUL_PQR_XP MUL_PQR_XQ MUL_PQR_XR MUL_PQR_YU MUL_PQR_YP MUL_PQR_YQ]. rewrite !xor_wd, !MUL_wd, !XOR_wd.
  match goal with |- context [store64 m tx (wd ?F pos)] => rewrite (wd_ext F vx) by (intros i _; rewrite HP, HQ, HR; apply Halg) end. rewrite !MUL_wd, !XOR_wd, !MUL_wd, !XOR_wd.
  destruct (store64 m tx (wd vx pos)) as [m1|]; [|done]. cbn [mbind res_bind]. apply two_stores; intros i; destruct (Halg i) as (HX & HY & HZ); rewrite HP, HQ, ?HR, ?HX; [exact HY|]. rewrite HY. exact HZ.
Qed.

Lemma solves_pqr pp pq pr : solves vs [bx; by_; (z, az, vz)] bx [(0%nat, pp); (1%nat, pq); (2%nat, pr)] (raidz_rec_pqr_abd (raidz_rec_pqr_coeff ncols xi yi zi)).
Proof using All.
  apply (solves_words _ _ _ _ (word3 (rec_pqr_word (raidz_rec_pqr_coeff ncols xi yi zi)))); [done|done|done|done| |].
  { intros t n' c m Et Ec. by destruct (list3 t Et) as (tx & ty & tz & ->), (list3 c Ec) as (p & q & r & ->). }
  intros t c pos m Et Ec Ht Hc. destruct (list3 t Et) as (tx & ty & tz & ->), (list3 c Ec) as (p & q & r & ->). cbn [word3].
  pose proof (lookup_lt_Some _ _ _ Hx) as Hlx. pose proof (lookup_lt_Some _ _ _ Hy) as Hly. pose proof (lookup_lt_Some _ _ _ Hz) as Hlz.
  unfold raidz_rec_pqr_coeff. cbv zeta. rewrite <- !gpow_mod1, <- !gpow_mod2. replace (ncols - xi - 1) with (Z.of_nat n - 1 - Z.of_nat x) by lia. replace (ncols - yi - 1) with (Z.of_nat n - 1 - Z.of_nat y) by lia. replace (ncols - zi - 1) with (Z.of_nat n - 1 - Z.of_nat z) by lia.
  fold (weight 2 n x) (weight 2 n y) (weight 2 n z). rewrite !weight_2. rewrite <- (Z.mul_1_l (Z.of_nat n - 1 - Z.of_nat x)), <- (Z.mul_1_l (Z.of_nat n - 1 - Z.of_nat y)), <- (Z.mul_1_l (Z.of_nat n - 1 - Z.of_nat z)). fold (weight 1 n x) (weight 1 n y) (weight 1 n z).
  set (nx := weight 1 n x). set (ny := weight 1 n y). set (nz := weight 1 n z).
  rewrite !gv_mul, !gv_add, gv_inv, !gv_mul, !gv_div. fold (pqr_det nx ny nz). cbn [zip_with each].
  rewrite (rec_pqr_word_ok nx ny nz tx ty tz p q r pos m (parity_at 0 (without [x; y; z] vs)) (parity_at 1 (without [x; y; z] vs)) (parity_at 2 (without [x; y; z] vs)) (parity_at 0 vs) (parity_at 1 vs) (parity_at 2 vs));
    [done|by apply (Ht 0%nat)|by apply (Ht 1%nat)|by apply (Ht 2%nat)|by apply (Hc 0%nat)|by apply (Hc 1%nat)|by apply (Hc 2%nat)|apply weight_ne; done || lia|apply weight_ne; done || lia|apply weight_ne; done || lia|..]; intros i.
  - rewrite (lost3 vs 0 i x y z vx vy vz) by done. rewrite !weight_0. ring.
  - by rewrite (lost3 vs 1 i x y z vx vy vz).
  - rewrite (lost3 vs 2 i x y z vx vy vz) by done. by rewrite !weight_2.
Qed.

End Solve.

(** ** The contract *)

Lemma lost_triples {A B} (db : list A) (vs : list B) bad : Forall (fun j => (j < length db)%nat) bad -> length vs = length db ->
  exists L : list (nat * A * B), bad = fst ∘ fst <$> L /\ Forall (fun b => db !! b.1.1 = Some b.1.2 /\ vs !! b.1.1 = Some b.2) L.
Proof.
  intros H Hl. induction H as [|j bad Hj _ (L & -> & HL)]; [by exists []|]. destruct (lookup_lt_is_Some_2 db j Hj) as [a Ha]. destruct (lookup_lt_is_Some_2 vs j ltac:(lia)) as [v Hv].
  exists ((j, a, v) :: L). split; [done|]. by constructor.
Qed.

Section Contract.

Context (PAGESHIFT : Z) (kmem_alloc : mem -> Z -> Z * list Z) (zfs_abd_scatter_enabled : bool).
Hypothesis Hshift : 9 <= PAGESHIFT <= 30.
Hypothesis kmem_fresh : forall m n, m !! (kmem_alloc m n).1 = None.
Hypothesis kmem_size : forall m n, length (kmem_alloc m n).2 = Z.to_nat n.

Abbreviation scalar_rec := (scalar_rec PAGESHIFT kmem_alloc zfs_abd_scatter_enabled).

(** The code that is returned does not matter. *)
Ltac several E m' :=
  eexists _, m'; split; [cbn [RaidzScalar.scalar_rec]; unfold raidz_reconstruct_pq_impl, raidz_reconstruct_pr_impl, raidz_reconstruct_qr_impl, raidz_reconstruct_pqr_impl;
    cbn [lookup list_lookup deref mbind res_bind]; match goal with |- (?r ≫= _) = _ => change (r = Ok m') in E; rewrite E end; reflexivity|split; [reflexivity|eassumption]].

Section Maps.

Context (rm : raidz_map) (pb db : list abd) (m : mem) (vs : list (Z -> gf)).
Hypothesis Hwf : raidz_wf rm pb db.
Abbreviation first := (rm_firstdatacol rm).
Abbreviation at_ j := (first + Z.of_nat j).
Abbreviation recovered_by r bad := (exists code m', r = Ok (code, m') /\ 0 < code /\ data_held m' db vs /\ only_writes (omap (fun j => db !! j) bad) m m').

Lemma few_columns : length vs = length db -> (length vs <= 254)%nat.
Proof. intros E. pose proof (rw_cols _ _ _ Hwf) as [Ec Hc]. pose proof (proj2 (rw_first _ _ _ Hwf)). lia. Qed.

Lemma scalar_two op x y ax ay vx vy :
  op = RAIDZ_REC_PQ \/ op = RAIDZ_REC_PR \/ op = RAIDZ_REC_QR ->
  rec_state m pb db vs [x; y] -> StronglySorted lt [x; y] -> Forall (parity_good rm pb m vs) (rec_parities op) ->
  db !! x = Some ax -> vs !! x = Some vx -> db !! y = Some ay -> vs !! y = Some vy -> recovered_by (scalar_rec op m rm [at_ x; at_ y]) [x; y].
Proof using All.
  intros Hop Hst Hso Hpar Hax Hvx Hay Hvy. pose proof (few_columns (rs_len _ _ _ _ _ Hst)) as Hn. pose proof (cols_length rm pb db Hwf) as Ec. pose proof (rs_len _ _ _ _ _ Hst) as El.
  assert (Hxy : x <> y) by (inversion Hso as [|? ? _ HF]; inversion HF; lia). destruct (wf_db rm pb db Hwf x ax Hax) as (Hwx & Hkx & _). pose proof (aw_size ax Hwx).
  assert (HB : Forall (fun b : nat * abd * (Z -> gf) => db !! b.1.1 = Some b.1.2 /\ vs !! b.1.1 = Some b.2) [(x, ax, vx); (y, ay, vy)]) by (by repeat constructor).
  pose proof (reconstruct_several_ok PAGESHIFT kmem_alloc zfs_abd_scatter_enabled Hshift kmem_fresh kmem_size rm pb db Hwf m vs [(x, ax, vx); (y, ay, vy)] Hst HB Hso (x, ax, vx) eq_refl) as Hsev.
  destruct Hop as [->|[->| ->]]; cbn [rec_parities] in Hpar; apply Forall_cons in Hpar as [(p & Hp & Hrp) Hpar]; apply Forall_cons in Hpar as [(q & Hq & Hrq) _].
  - destruct (Hsev [(0%nat, p); (1%nat, q)] ltac:(by repeat constructor) eq_refl raidz_syn_pq_abd (raidz_rec_pq_abd (raidz_rec_pq_coeff (rm_cols rm) (at_ x) (at_ y)))) as (m' & E & H'); [intros; by apply syn_pq_words|apply solves_pq; done || lia || apply Hkx|].
    several E m'.
  - destruct (Hsev [(0%nat, p); (2%nat, q)] ltac:(by repeat constructor) eq_refl raidz_syn_pr_abd (raidz_rec_pr_abd (raidz_rec_pr_coeff (rm_cols rm) (at_ x) (at_ y)))) as (m' & E & H'); [intros; by apply syn_pr_words|apply solves_pr; done || lia || apply Hkx|].
    several E m'.
  - destruct (Hsev [(1%nat, p); (2%nat, q)] ltac:(by repeat constructor) eq_refl raidz_syn_qr_abd (raidz_rec_qr_abd (raidz_rec_qr_coeff (rm_cols rm) (at_ x) (at_ y)))) as (m' & E & H'); [intros; by apply syn_qr_words|apply solves_qr; done || lia || apply Hkx|].
    several E m'.
Qed.

Lemma scalar_three x y z ax ay az vx vy vz :
  rec_state m pb db vs [x; y; z] -> StronglySorted lt [x; y; z] -> Forall (parity_good rm pb m vs) (rec_parities RAIDZ_REC_PQR) ->
  db !! x = Some ax -> vs !! x = Some vx -> db !! y = Some ay -> vs !! y = Some vy -> db !! z = Some az -> vs !! z = Some vz -> recovered_by (scalar_rec RAIDZ_REC_PQR m rm [at_ x; at_ y; at_ z]) [x; y; z].
Proof using All.
  intros Hst Hso Hpar Hax Hvx Hay Hvy Haz Hvz. pose proof (few_columns (rs_len _ _ _ _ _ Hst)) as Hn. pose proof (cols_length rm pb db Hwf) as Ec. pose proof (rs_len _ _ _ _ _ Hst) as El.
  assert (Hlt : (x < y < z)%nat) by (split; [apply (sorted_lookup [x; y; z] 0 1)|apply (sorted_lookup [x; y; z] 1 2)]; done || lia). destruct (wf_db rm pb db Hwf x ax Hax) as (Hwx & Hkx & _). pose proof (aw_size ax Hwx).
  assert (HB : Forall (fun b : nat * abd * (Z -> gf) => db !! b.1.1 = Some b.1.2 /\ vs !! b.1.1 = Some b.2) [(x, ax, vx); (y, ay, vy); (z, az, vz)]) by (by repeat constructor).
  cbn [rec_parities] in Hpar. apply Forall_cons in Hpar as [(p & Hp & Hrp) Hpar]. apply Forall_cons in Hpar as [(q & Hq & Hrq) Hpar]. apply Forall_cons in Hpar as [(r & Hr & Hrr) _].
  destruct (reconstruct_several_ok PAGESHIFT kmem_alloc zfs_abd_scatter_enabled Hshift kmem_fresh kmem_size rm pb db Hwf m vs [(x, ax, vx); (y, ay, vy); (z, az, vz)] Hst HB Hso (x, ax, vx) eq_refl [(0%nat, p); (1%nat, q); (2%nat, r)] ltac:(by repeat constructor) eq_refl
    raidz_syn_pqr_abd (raidz_rec_pqr_abd (raidz_rec_pqr_coeff (rm_cols rm) (at_ x) (at_ y) (at_ z)))) as (m' & E & H'); [intros; by apply syn_pqr_words|apply solves_pqr; done || lia || apply Hkx|].
  several E m'.
Qed.

Lemma scalar_one op x ax vx :
  op = RAIDZ_REC_P \/ op = RAIDZ_REC_Q \/ op = RAIDZ_REC_R -> rec_state m pb db vs [x] -> Forall (parity_good rm pb m vs) (rec_parities op) ->
  db !! x = Some ax -> vs !! x = Some vx -> recovered_by (scalar_rec op m rm [at_ x]) [x].
Proof using Hwf.
  intros Hop Hst Hpar Hax Hvx. assert (Eo : omap (fun j => db !! j) [x] = [ax]) by (cbn; by rewrite Hax). rewrite Eo.
  destruct Hop as [->|[->| ->]]; cbn [rec_parities] in Hpar; apply Forall_cons in Hpar as [Hp _].
  - destruct (reconstruct_p_impl_ok rm pb db Hwf m vs x ax vx Hst Hax Hvx Hp) as (m' & E & H'). by exists (Z.shiftl 1 CODE_P), m'.
  - destruct (reconstruct_q_impl_ok rm pb db Hwf m vs x ax vx Hst Hax Hvx Hp) as (m' & E & H'). by exists (Z.shiftl 1 CODE_Q), m'.
  - destruct (reconstruct_r_impl_ok rm pb db Hwf m vs x ax vx Hst Hax Hvx Hp) as (m' & E & H'). by exists (Z.shiftl 1 CODE_R), m'.
Qed.

End Maps.

Lemma scalar_gen op f rm pb db m vs :
  impl_gen (vdev_raidz_scalar_impl PAGESHIFT kmem_alloc zfs_abd_scatter_enabled) op = Some f -> raidz_wf rm pb db -> length pb = gen_parities op ->
  (forall a, a ∈ pb -> mapped m (abd_lane a) 0 (raidz_big rm)) -> raidz_data m db vs ->
  exists m', f m rm = Ok m' /\ parity_holds rm pb m' vs /\ only_writes pb m m'.
Proof using.
  intros [= <-] Hwf Hl Hm Hd. destruct op; cbn [gen_parities] in Hl; [by apply generate_p_impl_ok with db|by apply generate_pq_impl_ok with db|by apply generate_pqr_impl_ok with db].
Qed.

Lemma scalar_spec : RaidzImpl (vdev_raidz_scalar_impl PAGESHIFT kmem_alloc zfs_abd_scatter_enabled).
Proof using All.
  constructor.
  - apply scalar_gen.
  - intros op f rm pb db m vs bad [= <-] Hwf Hst Hso Hr Hl Hp. destruct (lost_triples db vs bad Hr (rs_len _ _ _ _ _ Hst)) as (L & -> & HL). rewrite length_fmap in Hl.
    assert (Hop : length (rec_parities op) = length L) by done. destruct L as [|[[x ax] vx] [|[[y ay] vy] [|[[z az] vz] [|]]]]; repeat (apply Forall_cons in HL as [[? ?] HL]); cbn [fst snd fmap list_fmap compose] in *.
    + by destruct op.
    + apply (scalar_one rm pb db m vs Hwf op x ax vx); [destruct op; cbn in Hop; auto; discriminate|done..].
    + apply (scalar_two rm pb db m vs Hwf op x y ax ay vx vy); [destruct op; cbn in Hop; auto; discriminate|done..].
    + destruct op; try discriminate Hop. by apply (scalar_three rm pb db m vs Hwf x y z ax ay az vx vy vz).
    + by destruct op.
Qed.

End Contract.

(** ** The two implementations *)

(** Memories that agree outside some buffers and hold the same data in them. *)
Lemma same_bytes bufs m m1 m2 : only_writes bufs m m1 -> only_writes bufs m m2 -> (forall a l, a ∈ bufs -> l ∈ locs a -> mbyte m1 l = mbyte m2 l) -> forall l, mbyte m1 l = mbyte m2 l.
Proof.
  intros H1 H2 H l. destruct (decide (l ∈ (bufs ≫= locs))) as [Hin|Hni]; [|by rewrite H1, H2]. apply list_elem_of_bind in Hin as (a & Hl & Ha). by apply (H a).
Qed.

Lemma same_data db vs m1 m2 a l : Forall abd_wf db -> data_held m1 db vs -> data_held m2 db vs -> a ∈ db -> l ∈ locs a -> mbyte m1 l = mbyte m2 l.
Proof.
  intros Hwf H1 H2 [j Hj]%list_elem_of_lookup Hl. rewrite Forall_lookup in Hwf. destruct (locs_lane_inv a l (Hwf j a Hj) Hl) as (i & Hi & ->). destruct (Forall2_lookup_l _ _ _ _ _ H1 Hj) as (v & Hv & Hr1).
  pose proof (Forall2_lookup_lr _ _ _ _ _ _ H2 Hj Hv) as Hr2. cbv beta in Hr2. by rewrite Hr1, Hr2.
Qed.

(** C3: With the original routines and with the implementation in portable C, the
    parity of a block whose data is the functions [vs] over GF(2^8) becomes, byte by
    byte, the values at 1, 2 and 4 of the polynomial that the data columns are the
    coefficients of; nothing else is written. *)
Theorem raidz_generate_parity PAGESHIFT kmem_alloc zfs_abd_scatter_enabled ops rm pb db m vs :
  ops = vdev_raidz_original_impl \/ ops = vdev_raidz_scalar_impl PAGESHIFT kmem_alloc zfs_abd_scatter_enabled ->
  raidz_wf rm pb db -> (forall a, a ∈ pb -> mapped m (abd_lane a) 0 (raidz_big rm)) -> raidz_data m db vs ->
  exists m', vdev_raidz_generate_parity ops m rm = Ok m' /\ only_writes pb m m' /\
    forall k a i, pb !! k = Some a -> 0 <= i < raidz_big rm ->
      mbyte m' (abd_lane a i) = Some (gv (foldl (fun acc (v : Z -> gf) => acc * gpow (Z.of_nat k) + v i)%gf g0 vs)).
Proof.
  intros Hops Hwf Hmap Hdata. destruct (generate_parity_by ops rm pb db m vs) as (m' & E & Hp & Ho); try done.
  - intros op f Eop Hl. destruct Hops as [->| ->]; [done|]. by eapply scalar_gen.
  - exists m'. split_and!; [done|done|]. intros k a i Ha Hi. by apply (Hp k a Ha).
Qed.

Section Equivalent.

Context (PAGESHIFT : Z) (kmem_alloc : mem -> Z -> Z * list Z) (zfs_abd_scatter_enabled : bool).
Hypothesis Hshift : 9 <= PAGESHIFT <= 30.
Hypothesis kmem_fresh : forall m n, m !! (kmem_alloc m n).1 = None.
Hypothesis kmem_size : forall m n, length (kmem_alloc m n).2 = Z.to_nat n.

Abbreviation scalar := (vdev_raidz_scalar_impl PAGESHIFT kmem_alloc zfs_abd_scatter_enabled).

(** C2: The scalar implementation is equivalent to the original routines: for every
    well-formed map they generate the same parity, and when as many columns as there
    is parity are lost afterwards, both recover the block, every byte of memory being
    the same. *)
Theorem raidz_scalar_equivalent rm pb db m vs :
  raidz_wf rm pb db -> (forall a, a ∈ pb -> mapped m (abd_lane a) 0 (raidz_big rm)) -> raidz_data m db vs ->
  exists m1 m1', vdev_raidz_generate_parity vdev_raidz_original_impl m rm = Ok m1 /\ vdev_raidz_generate_parity scalar m rm = Ok m1' /\ (forall l, mbyte m1' l = mbyte m1 l) /\
  forall t m2, StronglySorted Z.lt t -> Forall (fun c => 0 <= c < rm_cols rm) t -> zlen (lost rm t) <= rm_firstdatacol rm ->
    only_writes (lost_bufs rm (pb ++ db) t) m1 m2 -> (forall l, l ∈ ((pb ++ db) ≫= locs) -> is_Some (mbyte m2 l)) ->
    exists code code' m3 m3', vdev_raidz_reconstruct PAGESHIFT kmem_alloc vdev_raidz_original_impl m2 rm t = Ok (code, m3) /\
      vdev_raidz_reconstruct PAGESHIFT kmem_alloc scalar m2 rm t = Ok (code', m3') /\ raidz_data m3' db vs /\ forall l, mbyte m3' l = mbyte m3 l.
Proof using Hshift kmem_fresh kmem_size.
  intros Hwf Hmap Hdata. pose proof (scalar_spec PAGESHIFT kmem_alloc zfs_abd_scatter_enabled Hshift kmem_fresh kmem_size) as Hlaw.
  destruct (generate_parity_ok vdev_raidz_original_impl rm pb db m vs Hwf Hmap Hdata) as (m1 & E1 & Hp1 & Ho1), (generate_parity_ok scalar rm pb db m vs Hwf Hmap Hdata) as (m1' & E1' & Hp1' & Ho1').
  exists m1, m1'. split_and!; [done|done| |].
  - apply (same_bytes pb m); [done|done|]. intros a l [k Hk]%list_elem_of_lookup Hl. destruct (parity_bufs rm pb db Hwf k a Hk) as (Hwa & _ & Es & _). destruct (locs_lane_inv a l Hwa Hl) as (i & Hi & ->). rewrite Es in Hi. by rewrite (Hp1 k a Hk), (Hp1' k a Hk).
  - intros t m2 Hs Hr Hn Hw Hm2. assert (Hdb : Forall abd_wf db) by (pose proof (rw_db _ _ _ Hwf) as H; eapply Forall_impl; [exact H|]; by intros a [? _]).
    assert (Hdata1 : raidz_data m1 db vs) by (eapply only_writes_same; [done| |exact Ho1|done]; intros a b l Ha Hb; by eapply parity_data_apart).
    assert (Hrec : recoverable rm pb db m2 vs t) by (apply (damaged rm pb db m1); done).
    destruct (reconstruct_ok PAGESHIFT kmem_alloc kmem_fresh kmem_size vdev_raidz_original_impl rm pb db m2 vs t Hrec) as (c & m3 & E3 & _ & Hd3 & Ho3), (reconstruct_ok PAGESHIFT kmem_alloc kmem_fresh kmem_size scalar rm pb db m2 vs t Hrec) as (c' & m3' & E3' & _ & Hd3' & Ho3').
    exists c, c', m3, m3'. split_and!; [done|done|by eapply held_is_data|]. apply (same_bytes (omap (fun j => db !! j) (lost_data rm t)) m2); [done|done|]. intros a l (j & _ & Ha)%list_elem_of_omap Hl. apply (same_data db vs m3' m3 a l); [done|done|done|by eapply list_elem_of_lookup_2|done].
Qed.

End Equivalent.

(** ** Examples *)

Module Example.

Import Abd.Example RaidzMap.Example RaidzMath.Example.

Lemma raidz_scalar_equivalent_witness : exists code code' m3 m3', vdev_raidz_reconstruct 12 kmem vdev_raidz_original_impl m2 rm1 [0; 3] = Ok (code, m3) /\
  vdev_raidz_reconstruct 12 kmem (vdev_raidz_scalar_impl 12 kmem true) m2 rm1 [0; 3] = Ok (code', m3') /\ mbyte m3' (Ptr 2 100) = mbyte m3 (Ptr 2 100).
Proof.
  destruct buf. destruct (map_alloc_ok kmem kmem_fresh kmem_size 3584 1536 9 5 2 io_abd m0) as (rm & io' & m & pb & db & E & Hm); [exact geometry|done..|].
  destruct Hm as (Hwf & Eloc & _ & [pv Hpv] & _ & Hold & _). destruct (data_readable rm pb db m Hwf) as [vs Hdata].
  { intros l Hl. rewrite Eloc in Hl. apply region_sub in Hl. destruct (no_bytes_wrong l Hl) as (b & Eb & Hb). exists b. split; [|done]. unfold mbyte in *. destruct (m0 !! p_blk l) as [bs|] eqn:Ek; [|done]. rewrite (Hold (p_blk l)) by (by rewrite Ek). by rewrite Ek. }
  destruct (raidz_scalar_equivalent 12 kmem true ltac:(lia) kmem_fresh kmem_size rm pb db m vs Hwf) as (m1' & m1'' & E1 & _ & _ & Hrec).
  - intros a Ha i Hi. apply list_elem_of_lookup in Ha as [k Hk]. destruct (wf_pb rm pb db Hwf k a Hk) as [Hown Hwa]. destruct (own_linear _ _ Hown) as [_ Es].
    eapply holds_mapped; [exact Hpv|]. apply list_elem_of_bind. exists a. split; [apply lane_locs; [done|lia]|by eapply list_elem_of_lookup_2].
  - exact Hdata.
  - assert (Ew : Ok (rm, m1') = written) by (unfold written; rewrite E; cbn [mbind res_bind]; rewrite E1; reflexivity). rewrite written_ok in Ew. destruct (Ok_pair _ _ _ _ Ew) as [-> ->]. pose proof (bufs1 pb db Hwf) as Eb.
    destruct (Hrec [0; 3] m2) as (c & c' & m3 & m3' & E3 & E3' & _ & Hl).
    + repeat constructor.
    + rewrite (proj2 lost1). repeat constructor; lia.
    + exact (proj1 lost1).
    + rewrite <- Eb. exact wrecked.
    + rewrite <- Eb. apply Forall_forall. exact wrecked_mapped.
    + exists c, c', m3, m3'. split; [exact E3|]. split; [exact E3'|]. apply Hl.
Defined.

(** The block of [RaidzMap.Example], written by both implementations. *)
Lemma raidz_generate_parity_witness : exists rm io' m pb db vs, vdev_raidz_map_alloc kmem m0 io_abd 3584 1536 9 5 2 = Ok (rm, io', m) /\ raidz_wf rm pb db /\ raidz_data m db vs /\
  (exists m', vdev_raidz_generate_parity vdev_raidz_original_impl m rm = Ok m' /\ only_writes pb m m') /\
  exists m', vdev_raidz_generate_parity (vdev_raidz_scalar_impl 12 kmem true) m rm = Ok m' /\ only_writes pb m m'.
Proof.
  destruct buf. destruct (map_alloc_ok kmem kmem_fresh kmem_size 3584 1536 9 5 2 io_abd m0) as (rm & io' & m & pb & db & E & Hm); [exact geometry|done..|].
  destruct Hm as (Hwf & Eloc & _ & [pv Hpv] & _ & Hold & _). destruct (data_readable rm pb db m Hwf) as [vs Hdata].
  { intros l Hl. rewrite Eloc in Hl. apply region_sub in Hl. destruct (no_bytes_wrong l Hl) as (b & Eb & Hb). exists b. split; [|done]. unfold mbyte in *. destruct (m0 !! p_blk l) as [bs|] eqn:Ek; [|done]. rewrite (Hold (p_blk l)) by (by rewrite Ek). by rewrite Ek. }
  assert (Hmap : forall a, a ∈ pb -> mapped m (abd_lane a) 0 (raidz_big rm)).
  { intros a Ha i Hi. apply list_elem_of_lookup in Ha as [k Hk]. destruct (wf_pb rm pb db Hwf k a Hk) as [Hown Hwa]. destruct (own_linear _ _ Hown) as [_ Es].
    eapply holds_mapped; [exact Hpv|]. apply list_elem_of_bind. exists a. split; [apply lane_locs; [done|lia]|by eapply list_elem_of_lookup_2]. }
  destruct (raidz_generate_parity 12 kmem true vdev_raidz_original_impl rm pb db m vs (or_introl eq_refl) Hwf Hmap Hdata) as (m1' & E1 & Ho1 & _).
  destruct (raidz_generate_parity 12 kmem true (vdev_raidz_scalar_impl 12 kmem true) rm pb db m vs (or_intror eq_refl) Hwf Hmap Hdata) as (m2' & E2 & Ho2 & _).
  exists rm, io', m, pb, db, vs. split_and!; [exact E|exact Hwf|exact Hdata|by exists m1'|by exists m2'].
Defined.

End Example.
