(* ===== verification/Fletcher.v ===== *)
(** * Fletcher checksums: [module/zcommon/zfs_fletcher.c] and its variants

    The fourth-order checksum has several implementations that must agree: a
    scalar loop, two loops that keep two or four independent lanes and combine
    them at the end ([zfs_fletcher_superscalar.c],
    [zfs_fletcher_superscalar4.c]), and vector code in assembly.  The interface
    [Fletcher4Impl] says what an implementation promises; the scalar and the
    superscalar ones are proved to keep it, and the functions that choose an
    implementation are proved against it.  A buffer is a list of bytes; the host
    is little-endian. *)

From Stdlib Require Import Ascii String Znumtheory.
From S2P Require Import Prelude Bits Buffer Memory Abd.

(** ** Byte order: [lib/libspl/include/sys/byteorder.h] *)

Definition BSWAP_8 (x : Z) : Z := Z.land x 255.
Definition BSWAP_16 (x : Z) : Z := Z.lor (Z.shiftl (BSWAP_8 x) 8) (BSWAP_8 (Z.shiftr x 8)).
Definition BSWAP_32 (x : Z) : Z := Z.lor (Z.shiftl (BSWAP_16 x) 16) (BSWAP_16 (Z.shiftr x 16)).
Definition BSWAP_64 (x : Z) : Z := Z.lor (Z.shiftl (BSWAP_32 x) 32) (BSWAP_32 (Z.shiftr x 32)).

(** A buffer read as an array of [uint32_t] or of [uint64_t]. *)
Fixpoint words32 (bs : list Z) : list Z :=
  match bs with
  | b0 :: b1 :: b2 :: b3 :: bs' => le_word [b0; b1; b2; b3] :: words32 bs'
  | _ => []
  end.

Fixpoint words64 (bs : list Z) : list Z :=
  match bs with
  | b0 :: b1 :: b2 :: b3 :: b4 :: b5 :: b6 :: b7 :: bs' =>
      le_word [b0; b1; b2; b3; b4; b5; b6; b7] :: words64 bs'
  | _ => []
  end.

(** ** Checksums and contexts *)

(** [zio_cksum_t]: the array [zc_word]. *)
Record zio_cksum : Type := ZioCksum { zc_word0 : Z; zc_word1 : Z; zc_word2 : Z; zc_word3 : Z }.

#[export] Instance zio_cksum_eq_dec : EqDecision zio_cksum.
Proof. solve_decision. Defined.

Definition fletcher_init : zio_cksum := ZioCksum 0 0 0 0.

(** The union [fletcher_4_ctx_t] as an array of 64-bit words: the words of
    [scalar] are the first four; [superscalar\[i\].v\[j\]] is word [4 * i + j]. *)
Definition fletcher_4_ctx : Type := list Z.

Definition ctx_word (ctx : fletcher_4_ctx) (i : nat) : Z := nth i ctx 0.

Definition ctx_scalar (ctx : fletcher_4_ctx) : zio_cksum :=
  ZioCksum (ctx_word ctx 0) (ctx_word ctx 1) (ctx_word ctx 2) (ctx_word ctx 3).

Definition set_ctx_scalar (ctx : fletcher_4_ctx) (z : zio_cksum) : fletcher_4_ctx :=
  [zc_word0 z; zc_word1 z; zc_word2 z; zc_word3 z] ++ drop 4 ctx.

(** Lane [j]: [superscalar\[0\].v\[j\]] to [superscalar\[3\].v\[j\]]. *)
Definition ctx_lane (ctx : fletcher_4_ctx) (j : nat) : zio_cksum :=
  ZioCksum (ctx_word ctx j) (ctx_word ctx (4 + j)) (ctx_word ctx (8 + j)) (ctx_word ctx (12 + j)).

Definition set_ctx_lanes (ctx : fletcher_4_ctx) (l0 l1 l2 l3 : zio_cksum) : fletcher_4_ctx :=
  [zc_word0 l0; zc_word0 l1; zc_word0 l2; zc_word0 l3;
   zc_word1 l0; zc_word1 l1; zc_word1 l2; zc_word1 l3;
   zc_word2 l0; zc_word2 l1; zc_word2 l2; zc_word2 l3;
   zc_word3 l0; zc_word3 l1; zc_word3 l2; zc_word3 l3] ++ drop 16 ctx.

(** ** Fletcher 2 *)

(** The loop; [get] is the identity or [BSWAP_64].  It reads two words at a
    time, whether or not both are before [ipend]. *)
Fixpoint fletcher_2_loop (get : Z -> Z) (n : nat) (ip : list Z) (z : zio_cksum) : res zio_cksum :=
  match n with
  | O => Ok z
  | S n' =>
      match ip with
      | w0 :: w1 :: ip' =>
          let a0 := wrap64 (zc_word0 z + get w0) in
          let a1 := wrap64 (zc_word1 z + get w1) in
          fletcher_2_loop get (Nat.pred n') ip'
            (ZioCksum a0 a1 (wrap64 (zc_word2 z + a0)) (wrap64 (zc_word3 z + a1)))
      | _ => Panic
      end
  end.

Definition fletcher_2_incremental_native (buf : list Z) (size : Z) (zcp : zio_cksum) : res zio_cksum :=
  fletcher_2_loop id (Z.to_nat (size / 8)) (words64 buf) zcp.

Definition fletcher_2_native (buf : list Z) (size : Z) : res zio_cksum :=
  fletcher_2_incremental_native buf size fletcher_init.

Definition fletcher_2_incremental_byteswap (buf : list Z) (size : Z) (zcp : zio_cksum) : res zio_cksum :=
  fletcher_2_loop BSWAP_64 (Z.to_nat (size / 8)) (words64 buf) zcp.

Definition fletcher_2_byteswap (buf : list Z) (size : Z) : res zio_cksum :=
  fletcher_2_incremental_byteswap buf size fletcher_init.

(** ** Fletcher 4: the implementations *)

(** [a += w; b += a; c += b; d += c] *)
Definition step4 (z : zio_cksum) (w : Z) : zio_cksum :=
  let a := wrap64 (zc_word0 z + w) in
  let b := wrap64 (zc_word1 z + a) in
  let c := wrap64 (zc_word2 z + b) in
  ZioCksum a b c (wrap64 (zc_word3 z + c)).

Fixpoint scalar_loop (get : Z -> Z) (n : nat) (ip : list Z) (z : zio_cksum) : res zio_cksum :=
  match n with
  | O => Ok z
  | S n' => match ip with w :: ip' => scalar_loop get n' ip' (step4 z (get w)) | [] => Panic end
  end.

Definition fletcher_4_scalar_init (ctx : fletcher_4_ctx) : fletcher_4_ctx := set_ctx_scalar ctx (ZioCksum 0 0 0 0).

Definition fletcher_4_scalar_fini (ctx : fletcher_4_ctx) : zio_cksum := ctx_scalar ctx.

Definition fletcher_4_scalar_native (ctx : fletcher_4_ctx) (buf : list Z) (size : Z) : res fletcher_4_ctx :=
  z ← scalar_loop id (Z.to_nat (size / 4)) (words32 buf) (ctx_scalar ctx); Ok (set_ctx_scalar ctx z).

Definition fletcher_4_scalar_byteswap (ctx : fletcher_4_ctx) (buf : list Z) (size : Z) : res fletcher_4_ctx :=
  z ← scalar_loop BSWAP_32 (Z.to_nat (size / 4)) (words32 buf) (ctx_scalar ctx); Ok (set_ctx_scalar ctx z).

(** [(fletcher_4_ctx_t * )zcp]: the scalar functions on a checksum. *)
Definition on_cksum (f : fletcher_4_ctx -> list Z -> Z -> res fletcher_4_ctx) (zcp : zio_cksum) (buf : list Z) (size : Z)
    : res zio_cksum :=
  ctx ← f [zc_word0 zcp; zc_word1 zcp; zc_word2 zcp; zc_word3 zcp] buf size; Ok (ctx_scalar ctx).

(** Two lanes. *)
Fixpoint superscalar_loop (get : Z -> Z) (n : nat) (ip : list Z) (l0 l1 : zio_cksum) : res (zio_cksum * zio_cksum) :=
  match n with
  | O => Ok (l0, l1)
  | S n' =>
      match ip with
      | w0 :: w1 :: ip' => superscalar_loop get (Nat.pred n') ip' (step4 l0 (get w0)) (step4 l1 (get w1))
      | _ => Panic
      end
  end.

Definition fletcher_4_superscalar_init (ctx : fletcher_4_ctx) : fletcher_4_ctx := replicate 16 0 ++ drop 16 ctx.

Definition fletcher_4_superscalar_fini (ctx : fletcher_4_ctx) : zio_cksum :=
  let '(ZioCksum a b c d) := ctx_lane ctx 0 in
  let '(ZioCksum a2 b2 c2 d2) := ctx_lane ctx 1 in
  ZioCksum (wrap64 (a + a2)) (wrap64 (2 * b + 2 * b2 - a2)) (wrap64 (4 * c - b + 4 * c2 - 3 * b2))
    (wrap64 (8 * d - 4 * c + 8 * d2 - 8 * c2 + b2)).

Definition superscalar_compute (get : Z -> Z) (ctx : fletcher_4_ctx) (buf : list Z) (size : Z) : res fletcher_4_ctx :=
  '(l0, l1) ← superscalar_loop get (Z.to_nat (size / 4)) (words32 buf) (ctx_lane ctx 0) (ctx_lane ctx 1);
  Ok (set_ctx_lanes ctx l0 l1 (ctx_lane ctx 2) (ctx_lane ctx 3)).

Definition fletcher_4_superscalar_native := superscalar_compute id.
Definition fletcher_4_superscalar_byteswap := superscalar_compute BSWAP_32.

(** Four lanes. *)
Fixpoint superscalar4_loop (get : Z -> Z) (n : nat) (ip : list Z) (l0 l1 l2 l3 : zio_cksum)
    : res (zio_cksum * zio_cksum * zio_cksum * zio_cksum) :=
  match n with
  | O => Ok (l0, l1, l2, l3)
  | S n' =>
      match ip with
      | w0 :: w1 :: w2 :: w3 :: ip' =>
          superscalar4_loop get (Nat.pred (Nat.pred (Nat.pred n'))) ip'
            (step4 l0 (get w0)) (step4 l1 (get w1)) (step4 l2 (get w2)) (step4 l3 (get w3))
      | _ => Panic
      end
  end.

Definition fletcher_4_superscalar4_init (ctx : fletcher_4_ctx) : fletcher_4_ctx := replicate 16 0 ++ drop 16 ctx.

Definition fletcher_4_superscalar4_fini (ctx : fletcher_4_ctx) : zio_cksum :=
  let '(ZioCksum a b c d) := ctx_lane ctx 0 in
  let '(ZioCksum a2 b2 c2 d2) := ctx_lane ctx 1 in
  let '(ZioCksum a3 b3 c3 d3) := ctx_lane ctx 2 in
  let '(ZioCksum a4 b4 c4 d4) := ctx_lane ctx 3 in
  ZioCksum (wrap64 (a + a2 + a3 + a4))
    (wrap64 (0 - a2 - 2 * a3 - 3 * a4 + 4 * b + 4 * b2 + 4 * b3 + 4 * b4))
    (wrap64 (a3 + 3 * a4 - 6 * b - 10 * b2 - 14 * b3 - 18 * b4 + 16 * c + 16 * c2 + 16 * c3 + 16 * c4))
    (wrap64 (0 - a4 + 4 * b + 10 * b2 + 20 * b3 + 34 * b4 - 48 * c - 64 * c2 - 80 * c3 - 96 * c4
       + 64 * d + 64 * d2 + 64 * d3 + 64 * d4)).

Definition superscalar4_compute (get : Z -> Z) (ctx : fletcher_4_ctx) (buf : list Z) (size : Z) : res fletcher_4_ctx :=
  '(l0, l1, l2, l3) ← superscalar4_loop get (Z.to_nat (size / 4)) (words32 buf)
     (ctx_lane ctx 0) (ctx_lane ctx 1) (ctx_lane ctx 2) (ctx_lane ctx 3);
  Ok (set_ctx_lanes ctx l0 l1 l2 l3).

Definition fletcher_4_superscalar4_native := superscalar4_compute id.
Definition fletcher_4_superscalar4_byteswap := superscalar4_compute BSWAP_32.

(** [fletcher_4_ops_t] *)
Record fletcher_4_ops : Type := Fletcher4Ops {
  init_native : fletcher_4_ctx -> fletcher_4_ctx;
  fini_native : fletcher_4_ctx -> zio_cksum;
  compute_native : fletcher_4_ctx -> list Z -> Z -> res fletcher_4_ctx;
  init_byteswap : fletcher_4_ctx -> fletcher_4_ctx;
  fini_byteswap : fletcher_4_ctx -> zio_cksum;
  compute_byteswap : fletcher_4_ctx -> list Z -> Z -> res fletcher_4_ctx;
  valid : bool;
  name : string
}.

Definition fletcher_4_scalar_ops : fletcher_4_ops :=
  Fletcher4Ops fletcher_4_scalar_init fletcher_4_scalar_fini fletcher_4_scalar_native
    fletcher_4_scalar_init fletcher_4_scalar_fini fletcher_4_scalar_byteswap true "scalar".

Definition fletcher_4_superscalar_ops : fletcher_4_ops :=
  Fletcher4Ops fletcher_4_superscalar_init fletcher_4_superscalar_fini fletcher_4_superscalar_native
    fletcher_4_superscalar_init fletcher_4_superscalar_fini fletcher_4_superscalar_byteswap true "superscalar".

Definition fletcher_4_superscalar4_ops : fletcher_4_ops :=
  Fletcher4Ops fletcher_4_superscalar4_init fletcher_4_superscalar4_fini fletcher_4_superscalar4_native
    fletcher_4_superscalar4_init fletcher_4_superscalar4_fini fletcher_4_superscalar4_byteswap true "superscalar4".

(** ** Choosing an implementation *)

Definition IMPL_FASTEST : Z := B32 - 1.
Definition IMPL_CYCLE : Z := B32 - 2.
Definition IMPL_SCALAR : Z := 0.

(** The variables of the file. *)
Record fletcher_state : Type := FletcherState {
  fletcher_4_supp_impls : list fletcher_4_ops;
  fletcher_4_impl_chosen : Z;
  fletcher_4_fastest_impl : option fletcher_4_ops;
  cycle_count : Z;
  fletcher_4_initialized : bool
}.

Definition fletcher_4_impl_selectors : list (string * Z) :=
  [("cycle"%string, IMPL_CYCLE); ("fastest"%string, IMPL_FASTEST); ("scalar"%string, IMPL_SCALAR)].

(** The loop over the selectors, and the one over the names from index [i]. *)
Fixpoint find_selector (val : list ascii) (l : list (string * Z)) : option Z :=
  match l with
  | [] => None
  | (n, sel) :: l' => if decide (val = list_ascii_of_string n) then Some sel else find_selector val l'
  end.

Fixpoint find_impl (val : list ascii) (l : list fletcher_4_ops) (i : Z) : option Z :=
  match l with
  | [] => None
  | o :: l' => if decide (val = list_ascii_of_string (name o)) then Some i else find_impl val l' (i + 1)
  end.

Definition fletcher_4_impl_set (st : fletcher_state) (val : string) : Z * fletcher_state :=
  let val := trim_end (list_ascii_of_string val) in
  let impl :=
    match find_selector val fletcher_4_impl_selectors with
    | Some sel => Some sel
    | None => if fletcher_4_initialized st then find_impl val (fletcher_4_supp_impls st) 0 else None
    end in
  match impl with
  | Some impl =>
      (0, FletcherState (fletcher_4_supp_impls st) impl (fletcher_4_fastest_impl st) (cycle_count st)
        (fletcher_4_initialized st))
  | None => (- EINVAL, st)
  end.

Definition fletcher_4_impl_get (st : fletcher_state) : res (fletcher_4_ops * fletcher_state) :=
  let impl := fletcher_4_impl_chosen st in
  if impl =? IMPL_FASTEST then ops ← deref (fletcher_4_fastest_impl st); Ok (ops, st)
  else if impl =? IMPL_CYCLE then
    let count := wrap32 (cycle_count st + 1) in
    let cnt := Z.of_nat (length (fletcher_4_supp_impls st)) in
    VERIFY negb (cnt =? 0) ;;
    ops ← deref (fletcher_4_supp_impls st !! Z.to_nat (count mod cnt));
    Ok (ops, FletcherState (fletcher_4_supp_impls st) impl (fletcher_4_fastest_impl st) count
      (fletcher_4_initialized st))
  else ops ← deref (fletcher_4_supp_impls st !! Z.to_nat impl); Ok (ops, st).

(** The implementations in assembly that the build includes. *)
Definition fletcher_4_impls (simd : list fletcher_4_ops) : list fletcher_4_ops :=
  [fletcher_4_scalar_ops; fletcher_4_superscalar_ops; fletcher_4_superscalar4_ops] ++ simd.

(** In user space the last supported implementation is the fastest. *)
Definition fletcher_4_init (simd : list fletcher_4_ops) (st : fletcher_state) : fletcher_state :=
  let supp := List.filter valid (fletcher_4_impls simd) in
  FletcherState supp (fletcher_4_impl_chosen st) (last supp) (cycle_count st) true.

(** ** Fletcher 4 *)

Definition FLETCHER_MIN_SIMD_SIZE : Z := 64.

Definition fletcher_4_native_impl (st : fletcher_state) (buf : list Z) (size : Z) : res (zio_cksum * fletcher_state) :=
  '(ops, st) ← fletcher_4_impl_get st;
  ctx ← compute_native ops (init_native ops []) buf size;
  Ok (fini_native ops ctx, st).

Definition fletcher_4_native (st : fletcher_state) (buf : list Z) (size : Z) : res (zio_cksum * fletcher_state) :=
  let p2size := P2ALIGN size FLETCHER_MIN_SIMD_SIZE in
  if (size =? 0) || (p2size =? 0) then
    if 0 <? size then
      z ← on_cksum fletcher_4_scalar_native (ZioCksum 0 0 0 0) buf size; Ok (z, st)
    else Ok (ZioCksum 0 0 0 0, st)
  else
    '(z, st) ← fletcher_4_native_impl st buf p2size;
    if p2size <? size then
      z ← on_cksum fletcher_4_scalar_native z (drop (Z.to_nat p2size) buf) (size - p2size); Ok (z, st)
    else Ok (z, st).

Definition fletcher_4_native_varsize (buf : list Z) (size : Z) : res zio_cksum :=
  on_cksum fletcher_4_scalar_native (ZioCksum 0 0 0 0) buf size.

Definition fletcher_4_byteswap_impl (st : fletcher_state) (buf : list Z) (size : Z) : res (zio_cksum * fletcher_state) :=
  '(ops, st) ← fletcher_4_impl_get st;
  ctx ← compute_byteswap ops (init_byteswap ops []) buf size;
  Ok (fini_byteswap ops ctx, st).

Definition fletcher_4_byteswap (st : fletcher_state) (buf : list Z) (size : Z) : res (zio_cksum * fletcher_state) :=
  let p2size := P2ALIGN size FLETCHER_MIN_SIMD_SIZE in
  if (size =? 0) || (p2size =? 0) then
    if 0 <? size then
      z ← on_cksum fletcher_4_scalar_byteswap (ZioCksum 0 0 0 0) buf size; Ok (z, st)
    else Ok (ZioCksum 0 0 0 0, st)
  else
    '(z, st) ← fletcher_4_byteswap_impl st buf p2size;
    if p2size <? size then
      z ← on_cksum fletcher_4_scalar_byteswap z (drop (Z.to_nat p2size) buf) (size - p2size); Ok (z, st)
    else Ok (z, st).

(** ** Incremental checksums *)

Definition ZFS_FLETCHER_4_INC_MAX_SIZE : Z := Z.shiftl 8 20.

Definition fletcher_4_incremental_combine (zcp : zio_cksum) (size : Z) (nzcp : zio_cksum) : zio_cksum :=
  let c1 := size / 4 in
  let c2 := wrap64 (c1 * (c1 + 1)) / 2 in
  let c3 := wrap64 (c2 * (c1 + 2)) / 3 in
  let '(ZioCksum a b c d) := zcp in
  ZioCksum (wrap64 (a + zc_word0 nzcp))
    (wrap64 (b + (zc_word1 nzcp + c1 * a)))
    (wrap64 (c + (zc_word2 nzcp + c1 * b + c2 * a)))
    (wrap64 (d + (zc_word3 nzcp + c1 * c + c2 * b + c3 * a))).

(** One iteration for each [ZFS_FLETCHER_4_INC_MAX_SIZE] bytes. *)
Fixpoint incremental_loop (fuel : nat) (st : fletcher_state) (native : bool) (buf : list Z) (size : Z) (zcp : zio_cksum)
    : res (zio_cksum * fletcher_state) :=
  if 0 <? size then
    match fuel with
    | O => Panic
    | S fuel' =>
        let len := Z.min size ZFS_FLETCHER_4_INC_MAX_SIZE in
        '(nzc, st) ← (if native then fletcher_4_native st buf len else fletcher_4_byteswap st buf len);
        incremental_loop fuel' st native (drop (Z.to_nat len) buf) (size - len)
          (fletcher_4_incremental_combine zcp len nzc)
    end
  else Ok (zcp, st).

Definition fletcher_4_incremental_impl (st : fletcher_state) (native : bool) (buf : list Z) (size : Z) (zcp : zio_cksum)
    : res (zio_cksum * fletcher_state) :=
  incremental_loop (Z.to_nat (size / ZFS_FLETCHER_4_INC_MAX_SIZE + 1)) st native buf size zcp.

Definition fletcher_4_incremental_native (st : fletcher_state) (buf : list Z) (size : Z) (zcp : zio_cksum)
    : res (zio_cksum * fletcher_state) :=
  if size <? SPA_MINBLOCKSIZE then z ← on_cksum fletcher_4_scalar_native zcp buf size; Ok (z, st)
  else fletcher_4_incremental_impl st true buf size zcp.

Definition fletcher_4_incremental_byteswap (st : fletcher_state) (buf : list Z) (size : Z) (zcp : zio_cksum)
    : res (zio_cksum * fletcher_state) :=
  if size <? SPA_MINBLOCKSIZE then z ← on_cksum fletcher_4_scalar_byteswap zcp buf size; Ok (z, st)
  else fletcher_4_incremental_impl st false buf size zcp.

(** ** Checksums of scatter buffers: [zfs_fletcher.c] and [zio_checksum.c] *)

(** [zio_abd_checksum_data_t]; [acd_native] is [acd_byteorder]. *)
Record zio_abd_checksum_data : Type := AbdChecksumData {
  acd_native : bool;
  acd_ctx : fletcher_4_ctx;
  acd_zcp : zio_cksum;
  acd_private : fletcher_4_ops
}.

Definition abd_fletcher_4_init (st : fletcher_state) (native : bool) (ctx : fletcher_4_ctx) (zcp : zio_cksum)
    : res (zio_abd_checksum_data * fletcher_state) :=
  '(ops, st) ← fletcher_4_impl_get st;
  Ok (AbdChecksumData native (if native then init_native ops ctx else init_byteswap ops ctx) zcp ops, st).

Definition abd_fletcher_4_fini (cdp : zio_abd_checksum_data) : zio_abd_checksum_data :=
  let ops := acd_private cdp in
  AbdChecksumData (acd_native cdp) (acd_ctx cdp)
    (if acd_native cdp then fini_native ops (acd_ctx cdp) else fini_byteswap ops (acd_ctx cdp)) ops.

Definition abd_fletcher_4_simd2scalar (st : fletcher_state) (native : bool) (data : list Z) (size : Z)
    (cdp : zio_abd_checksum_data) : res (zio_abd_checksum_data * fletcher_state) :=
  let cdp := abd_fletcher_4_fini cdp in
  '(z, st) ← (if native then fletcher_4_incremental_native st data size (acd_zcp cdp)
              else fletcher_4_incremental_byteswap st data size (acd_zcp cdp));
  Ok (AbdChecksumData (acd_native cdp) (acd_ctx cdp) z fletcher_4_scalar_ops, st).

(** The callback on a piece, with the memory it is in. *)
Definition abd_fletcher_4_iter (m : mem) (p : ptr) (size : Z) (s : zio_abd_checksum_data * fletcher_state)
    : res (Z * (zio_abd_checksum_data * fletcher_state)) :=
  data ← load m p size;
  let '(cdp, st) := s in
  let ops := acd_private cdp in
  let asize := P2ALIGN size FLETCHER_MIN_SIMD_SIZE in
  cdp ←
    (if 0 <? asize then
       ctx ← (if acd_native cdp then compute_native ops (acd_ctx cdp) data asize
              else compute_byteswap ops (acd_ctx cdp) data asize);
       Ok (AbdChecksumData (acd_native cdp) ctx (acd_zcp cdp) ops)
     else Ok cdp);
  if 0 <? size - asize then
    '(cdp, st) ← abd_fletcher_4_simd2scalar st (acd_native cdp) (drop (Z.to_nat asize) data) (size - asize) cdp;
    Ok (0, (cdp, st))
  else Ok (0, (cdp, st)).

Definition abd_fletcher_4_impl (st : fletcher_state) (native : bool) (m : mem) (a : abd) (size : Z)
    : res (zio_cksum * fletcher_state) :=
  '(cdp, st) ← abd_fletcher_4_init st native [] (ZioCksum 0 0 0 0);
  '(_, (cdp, st)) ← abd_iterate_func (abd_fletcher_4_iter m) a 0 size (cdp, st);
  Ok (acd_zcp (abd_fletcher_4_fini cdp), st).

Definition abd_fletcher_4_native (st : fletcher_state) := abd_fletcher_4_impl st true.
Definition abd_fletcher_4_byteswap (st : fletcher_state) := abd_fletcher_4_impl st false.

Definition abd_fletcher_2 (f : list Z -> Z -> zio_cksum -> res zio_cksum) (m : mem) (a : abd) (size : Z) : res zio_cksum :=
  '(_, z) ← abd_iterate_func (fun p n z => bs ← load m p n; z ← f bs n z; Ok (0, z)) a 0 size fletcher_init; Ok z.

Definition abd_fletcher_2_native := abd_fletcher_2 fletcher_2_incremental_native.
Definition abd_fletcher_2_byteswap := abd_fletcher_2 fletcher_2_incremental_byteswap.

(** ** Arithmetic modulo 2^64 *)

(** Congruence of integers, which the accumulators of the checksums respect. *)
Definition eqm64 (x y : Z) : Prop := wrap64 x = wrap64 y.

#[export] Instance eqm64_equiv : Equivalence eqm64.
Proof. split; unfold eqm64; [intros ?|intros ???|intros ?????]; congruence. Qed.

#[export] Instance eqm64_add : Proper (eqm64 ==> eqm64 ==> eqm64) Z.add.
Proof. intros x x' Hx y y' Hy. unfold eqm64 in *. by rewrite <- wrap64_add_l, <- wrap64_add_r, Hx, Hy, wrap64_add_l, wrap64_add_r. Qed.

#[export] Instance eqm64_sub : Proper (eqm64 ==> eqm64 ==> eqm64) Z.sub.
Proof. intros x x' Hx y y' Hy. unfold eqm64 in *. by rewrite <- wrap64_sub_l, <- wrap64_sub_r, Hx, Hy, wrap64_sub_l, wrap64_sub_r. Qed.

#[export] Instance eqm64_mul : Proper (eqm64 ==> eqm64 ==> eqm64) Z.mul.
Proof.
  intros x x' Hx y y' Hy. unfold eqm64 in *.
  by rewrite <- wrap64_mul_l, Z.mul_comm, <- wrap64_mul_l, Hx, Hy, wrap64_mul_l, Z.mul_comm, wrap64_mul_l.
Qed.

#[export] Instance wrap64_eqm : Proper (eqm64 ==> eq) wrap64.
Proof. by intros x y H. Qed.

Lemma wrap64_eqm_id x : eqm64 (wrap64 x) x.
Proof. apply wrap64_idem. Qed.

(** Equations between words that hold in the ring of integers. *)
Ltac ring64 :=
  apply wrap64_eqm; repeat (setoid_rewrite wrap64_eqm_id);
  match goal with |- eqm64 ?x ?y => replace x with y by ring; reflexivity end.

Lemma step4_lane z w :
  step4 z w = ZioCksum (wrap64 (zc_word0 z + w)) (wrap64 (zc_word1 z + zc_word0 z + w))
    (wrap64 (zc_word2 z + zc_word1 z + zc_word0 z + w)) (wrap64 (zc_word3 z + zc_word2 z + zc_word1 z + zc_word0 z + w)).
Proof. unfold step4. f_equal; ring64. Qed.

(** ** Words of a buffer *)

Lemma BSWAP_16_bytes x : 0 <= x -> BSWAP_16 x = x mod 256 * 256 + x / 256 mod 256.
Proof.
  intros Hx. unfold BSWAP_16, BSWAP_8. rewrite Z.shiftr_div_pow2 by lia. change 255 with (Z.ones 8).
  rewrite !Z.land_ones by lia. change (2 ^ 8) with 256. apply lor_shiftl_add; [lia|]. apply Z.mod_pos_bound. lia.
Qed.

Lemma BSWAP_16_range x : 0 <= x -> 0 <= BSWAP_16 x < 65536.
Proof.
  intros Hx. rewrite BSWAP_16_bytes by done. pose proof (Z.mod_pos_bound x 256). pose proof (Z.mod_pos_bound (x / 256) 256). lia.
Qed.

Lemma BSWAP_32_bytes b0 b1 b2 b3 :
  is_u8 b0 -> is_u8 b1 -> is_u8 b2 -> is_u8 b3 -> BSWAP_32 (le_word [b0; b1; b2; b3]) = le_word [b3; b2; b1; b0].
Proof.
  unfold is_u8. intros. cbn [le_word]. set (x := b0 + 256 * (b1 + 256 * (b2 + 256 * (b3 + 256 * 0)))).
  assert (E1 : x / 65536 = b2 + 256 * b3) by (symmetry; apply (Z.div_unique_pos _ _ _ (b0 + 256 * b1)); unfold x; lia).
  assert (E0 : x / 256 = b1 + 256 * (b2 + 256 * b3)) by (symmetry; apply (Z.div_unique_pos _ _ _ b0); unfold x; lia).
  unfold BSWAP_32. rewrite Z.shiftr_div_pow2 by lia. change (2 ^ 16) with 65536.
  rewrite lor_shiftl_add; [|lia|apply BSWAP_16_range, Z.div_pos; unfold x; lia].
  rewrite E1, !BSWAP_16_bytes, E0 by (unfold x; lia).
  replace (x mod 256) with b0 by (apply (Z.mod_unique_pos _ _ (b1 + 256 * (b2 + 256 * b3))); unfold x; lia).
  replace ((b1 + 256 * (b2 + 256 * b3)) mod 256) with b1 by (apply (Z.mod_unique_pos _ _ (b2 + 256 * b3)); lia).
  replace ((b2 + 256 * b3) mod 256) with b2 by (apply (Z.mod_unique_pos _ _ b3); lia).
  replace ((b2 + 256 * b3) / 256) with b3 by (apply (Z.div_unique_pos _ _ _ b2); lia).
  rewrite (Z.mod_small b3) by lia. lia.
Qed.

(** The words a big-endian host reads. *)
Fixpoint words32_be (bs : list Z) : list Z :=
  match bs with
  | b0 :: b1 :: b2 :: b3 :: bs' => le_word [b3; b2; b1; b0] :: words32_be bs'
  | _ => []
  end.

Lemma length_ind4 {A} (P : list A -> Prop) :
  (forall l, (length l < 4)%nat -> P l) -> (forall a b c d l, P l -> P (a :: b :: c :: d :: l)) -> forall l, P l.
Proof.
  intros H1 H2 l. remember (length l) as n eqn:E. revert l E. induction (lt_wf n) as [n _ IH]. intros l ->.
  destruct l as [|a [|b [|c [|d l]]]]; try (apply H1; simpl; lia). apply H2, (IH (length l)); simpl; lia.
Qed.

Lemma words32_short bs : (length bs < 4)%nat -> words32 bs = [] /\ words32_be bs = [].
Proof. destruct bs as [|? [|? [|? [|? ?]]]]; simpl; intros; done || lia. Qed.

Lemma length_words32 bs : length (words32 bs) = (length bs / 4)%nat.
Proof.
  induction bs as [l Hl|a b c d l IH] using length_ind4.
  - rewrite (proj1 (words32_short l Hl)), Nat.div_small by done. done.
  - cbn [words32 length]. rewrite IH. replace (S (S (S (S (length l))))) with (length l + 1 * 4)%nat by lia.
    rewrite Nat.div_add by lia. lia.
Qed.

Lemma words32_drop k bs : words32 (drop (4 * k) bs) = drop k (words32 bs).
Proof.
  revert bs. induction k as [|k IH]; intros bs; [done|]. replace (4 * S k)%nat with (S (S (S (S (4 * k))))) by lia.
  destruct bs as [|a [|b [|c [|d l]]]]; cbn [drop words32]; rewrite ?drop_nil; done || apply IH.
Qed.

Lemma words32_take k bs : words32 (take (4 * k) bs) = take k (words32 bs).
Proof.
  revert bs. induction k as [|k IH]; intros bs; [done|]. replace (4 * S k)%nat with (S (S (S (S (4 * k))))) by lia.
  destruct bs as [|a [|b [|c [|d l]]]]; cbn [take words32]; done || (f_equal; apply IH).
Qed.

(** The words of the bytes that count: a part at the end that is not a word is
    left out. *)
Lemma words32_take_size size bs : 0 <= size -> words32 (take (Z.to_nat size) bs) = take (Z.to_nat (size / 4)) (words32 bs).
Proof.
  intros Hs. replace (Z.to_nat size) with (Z.to_nat (size mod 4) + 4 * Z.to_nat (size / 4))%nat.
  2:{ pose proof (Z.mod_pos_bound size 4). pose proof (Z.div_pos size 4). pose proof (Z.div_mod size 4). lia. }
  assert (Hr : (Z.to_nat (size mod 4) < 4)%nat) by (pose proof (Z.mod_pos_bound size 4); lia).
  generalize dependent (Z.to_nat (size mod 4)). intros r Hr. generalize (Z.to_nat (size / 4)). intros k. revert bs.
  induction k as [|k IH]; intros bs.
  - rewrite Nat.add_0_r, take_0. apply words32_short. rewrite length_take. lia.
  - replace (r + 4 * S k)%nat with (S (S (S (S (r + 4 * k))))) by lia.
    destruct bs as [|a [|b [|c [|d l]]]]; cbn [take words32]; done || (f_equal; apply IH).
Qed.

Lemma words32_app b1 b2 : (4 | Z.of_nat (length b1)) -> words32 (b1 ++ b2) = words32 b1 ++ words32 b2.
Proof.
  induction b1 as [l Hl|a b c d l IH] using length_ind4; intros [q Hq].
  - destruct l as [|? l]; [done|]. simpl in *. lia.
  - cbn [app words32]. f_equal. apply IH. exists (q - 1). simpl in Hq. lia.
Qed.

Lemma words32_swap bs : Forall is_u8 bs -> BSWAP_32 <$> words32 bs = words32_be bs.
Proof.
  induction bs as [l Hl|a b c d l IH] using length_ind4; intros H.
  - by destruct (words32_short l Hl) as [-> ->].
  - apply Forall_cons in H as [Ha [Hb [Hc [Hd Hl]%Forall_cons]%Forall_cons]%Forall_cons].
    cbn [words32 words32_be fmap list_fmap]. rewrite BSWAP_32_bytes by done. f_equal. by apply IH.
Qed.

(** ** The checksum of a list of words *)

Definition run4 (ws : list Z) (z : zio_cksum) : zio_cksum := foldl step4 z ws.

Definition get32 (native : bool) : Z -> Z := if native then id else BSWAP_32.

(** The words of a buffer in the byte order of the function. *)
Definition data32 (native : bool) (bs : list Z) : list Z := get32 native <$> words32 bs.

Definition cksum4 (native : bool) (bs : list Z) : zio_cksum := run4 (data32 native bs) (ZioCksum 0 0 0 0).

Lemma run4_app ws1 ws2 z : run4 (ws1 ++ ws2) z = run4 ws2 (run4 ws1 z).
Proof. apply foldl_app. Qed.

Lemma scalar_loop_ok get n ip z : (n <= length ip)%nat -> scalar_loop get n ip z = Ok (run4 (get <$> take n ip) z).
Proof.
  revert ip z. induction n as [|n IH]; intros [|w ip] z Hn; simpl in *; try done; try lia. rewrite IH by lia. done.
Qed.

(** What two or four lanes amount to. *)
Definition combine2 (l0 l1 : zio_cksum) : zio_cksum :=
  let '(ZioCksum a b c d) := l0 in let '(ZioCksum a2 b2 c2 d2) := l1 in
  ZioCksum (wrap64 (a + a2)) (wrap64 (2 * b + 2 * b2 - a2)) (wrap64 (4 * c - b + 4 * c2 - 3 * b2))
    (wrap64 (8 * d - 4 * c + 8 * d2 - 8 * c2 + b2)).

Definition combine4 (l0 l1 l2 l3 : zio_cksum) : zio_cksum :=
  let '(ZioCksum a b c d) := l0 in let '(ZioCksum a2 b2 c2 d2) := l1 in
  let '(ZioCksum a3 b3 c3 d3) := l2 in let '(ZioCksum a4 b4 c4 d4) := l3 in
  ZioCksum (wrap64 (a + a2 + a3 + a4))
    (wrap64 (0 - a2 - 2 * a3 - 3 * a4 + 4 * b + 4 * b2 + 4 * b3 + 4 * b4))
    (wrap64 (a3 + 3 * a4 - 6 * b - 10 * b2 - 14 * b3 - 18 * b4 + 16 * c + 16 * c2 + 16 * c3 + 16 * c4))
    (wrap64 (0 - a4 + 4 * b + 10 * b2 + 20 * b3 + 34 * b4 - 48 * c - 64 * c2 - 80 * c3 - 96 * c4
       + 64 * d + 64 * d2 + 64 * d3 + 64 * d4)).

Lemma combine2_step l0 l1 x y : combine2 (step4 l0 x) (step4 l1 y) = step4 (step4 (combine2 l0 l1) x) y.
Proof. destruct l0, l1. unfold step4, combine2. cbn [zc_word0 zc_word1 zc_word2 zc_word3]. f_equal; ring64. Qed.

Lemma combine4_step l0 l1 l2 l3 x y z w :
  combine4 (step4 l0 x) (step4 l1 y) (step4 l2 z) (step4 l3 w)
  = step4 (step4 (step4 (step4 (combine4 l0 l1 l2 l3) x) y) z) w.
Proof.
  destruct l0, l1, l2, l3. unfold step4, combine4. cbn [zc_word0 zc_word1 zc_word2 zc_word3]. f_equal; ring64.
Qed.

Lemma superscalar_loop_ok get k ip l0 l1 :
  (2 * k <= length ip)%nat ->
  exists m0 m1, superscalar_loop get (2 * k) ip l0 l1 = Ok (m0, m1) /\
    combine2 m0 m1 = run4 (get <$> take (2 * k) ip) (combine2 l0 l1).
Proof.
  revert ip l0 l1. induction k as [|k IH]; intros ip l0 l1 Hk; [by exists l0, l1|].
  replace (2 * S k)%nat with (S (S (2 * k))) in * by lia. destruct ip as [|x [|y ip]]; simpl in Hk; try lia.
  destruct (IH ip (step4 l0 (get x)) (step4 l1 (get y))) as (m0 & m1 & E & Hc); [lia|]. exists m0, m1. split; [exact E|].
  rewrite Hc, combine2_step. done.
Qed.

Lemma superscalar4_loop_ok get k ip l0 l1 l2 l3 :
  (4 * k <= length ip)%nat ->
  exists m0 m1 m2 m3, superscalar4_loop get (4 * k) ip l0 l1 l2 l3 = Ok (m0, m1, m2, m3) /\
    combine4 m0 m1 m2 m3 = run4 (get <$> take (4 * k) ip) (combine4 l0 l1 l2 l3).
Proof.
  revert ip l0 l1 l2 l3. induction k as [|k IH]; intros ip l0 l1 l2 l3 Hk; [by exists l0, l1, l2, l3|].
  replace (4 * S k)%nat with (S (S (S (S (4 * k))))) in * by lia.
  destruct ip as [|x [|y [|z [|w ip]]]]; simpl in Hk; try lia.
  destruct (IH ip (step4 l0 (get x)) (step4 l1 (get y)) (step4 l2 (get z)) (step4 l3 (get w))) as (m0 & m1 & m2 & m3 & E & Hc); [lia|].
  exists m0, m1, m2, m3. split; [exact E|]. rewrite Hc, combine4_step. done.
Qed.

(** ** What an implementation promises *)

Definition ops_init (native : bool) (o : fletcher_4_ops) := if native then init_native o else init_byteswap o.
Definition ops_compute (native : bool) (o : fletcher_4_ops) := if native then compute_native o else compute_byteswap o.
Definition ops_fini (native : bool) (o : fletcher_4_ops) := if native then fini_native o else fini_byteswap o.

(** A context stands for the words it has seen; [compute] adds those of a
    buffer whose size is a multiple of 64 bytes, and [fini] gives the checksum. *)
Class Fletcher4Impl (o : fletcher_4_ops) : Prop :=
  impl_spec native : exists R : list Z -> fletcher_4_ctx -> Prop,
    (forall ctx, R [] (ops_init native o ctx)) /\
    (forall ws ctx buf size, R ws ctx -> 0 <= size <= Z.of_nat (length buf) -> (64 | size) ->
       exists ctx', ops_compute native o ctx buf size = Ok ctx' /\
         R (ws ++ data32 native (take (Z.to_nat size) buf)) ctx') /\
    (forall ws ctx, R ws ctx -> ops_fini native o ctx = run4 ws (ZioCksum 0 0 0 0)).

Lemma words_enough buf size :
  0 <= size <= Z.of_nat (length buf) -> (Z.to_nat (size / 4) <= length (words32 buf))%nat.
Proof.
  intros Hs. rewrite length_words32. apply Nat.div_le_lower_bound; [lia|].
  pose proof (Z.mul_div_le size 4). pose proof (Z.div_pos size 4). lia.
Qed.

Lemma data32_take native buf size :
  0 <= size -> data32 native (take (Z.to_nat size) buf) = get32 native <$> take (Z.to_nat (size / 4)) (words32 buf).
Proof. intros Hs. unfold data32. by rewrite words32_take_size. Qed.

Lemma multiple_words size : 0 <= size -> (64 | size) -> exists k, Z.to_nat (size / 4) = (4 * k)%nat.
Proof.
  intros Hs [q ->]. exists (Z.to_nat (4 * q)). replace (q * 64 / 4) with (16 * q); [lia|].
  apply Z.div_unique_exact; lia.
Qed.

Lemma ctx_scalar_set ctx z : ctx_scalar (set_ctx_scalar ctx z) = z.
Proof. by destruct z. Qed.

#[export] Instance fletcher_4_scalar_impl : Fletcher4Impl fletcher_4_scalar_ops.
Proof.
  intros native. exists (fun ws ctx => ctx_scalar ctx = run4 ws (ZioCksum 0 0 0 0)). split_and!.
  - intros ctx. by destruct native.
  - intros ws ctx buf size Hr Hs _. rewrite data32_take by lia.
    exists (set_ctx_scalar ctx (run4 (get32 native <$> take (Z.to_nat (size / 4)) (words32 buf)) (ctx_scalar ctx))). split.
    + destruct native; simpl; unfold fletcher_4_scalar_native, fletcher_4_scalar_byteswap;
        by rewrite scalar_loop_ok by (by apply words_enough).
    + by rewrite run4_app, <- Hr, ctx_scalar_set.
  - intros ws ctx Hr. by destruct native.
Qed.

#[export] Instance fletcher_4_superscalar_impl : Fletcher4Impl fletcher_4_superscalar_ops.
Proof.
  intros native. exists (fun ws ctx => combine2 (ctx_lane ctx 0) (ctx_lane ctx 1) = run4 ws (ZioCksum 0 0 0 0)). split_and!.
  - intros ctx. by destruct native.
  - intros ws ctx buf size Hr Hs Hd. rewrite data32_take by lia. destruct (multiple_words size ltac:(lia) Hd) as [k Hk].
    pose proof (words_enough buf size Hs) as Hw. rewrite Hk in *. replace (4 * k)%nat with (2 * (2 * k))%nat in * by lia.
    destruct (superscalar_loop_ok (get32 native) (2 * k) (words32 buf) (ctx_lane ctx 0) (ctx_lane ctx 1) Hw) as (m0 & m1 & E & Hc).
    exists (set_ctx_lanes ctx m0 m1 (ctx_lane ctx 2) (ctx_lane ctx 3)). split.
    + transitivity (superscalar_compute (get32 native) ctx buf size); [by destruct native|].
      unfold superscalar_compute. rewrite Hk. replace (4 * k)%nat with (2 * (2 * k))%nat by lia. by rewrite E.
    + rewrite run4_app, <- Hr, <- Hc. by destruct m0, m1.
  - intros ws ctx Hr. rewrite <- Hr. by destruct native.
Qed.

#[export] Instance fletcher_4_superscalar4_impl : Fletcher4Impl fletcher_4_superscalar4_ops.
Proof.
  intros native.
  exists (fun ws ctx => combine4 (ctx_lane ctx 0) (ctx_lane ctx 1) (ctx_lane ctx 2) (ctx_lane ctx 3)
    = run4 ws (ZioCksum 0 0 0 0)). split_and!.
  - intros ctx. by destruct native.
  - intros ws ctx buf size Hr Hs Hd. rewrite data32_take by lia. destruct (multiple_words size ltac:(lia) Hd) as [k Hk].
    pose proof (words_enough buf size Hs) as Hw. rewrite Hk in *.
    destruct (superscalar4_loop_ok (get32 native) k (words32 buf) (ctx_lane ctx 0) (ctx_lane ctx 1) (ctx_lane ctx 2)
      (ctx_lane ctx 3) Hw) as (m0 & m1 & m2 & m3 & E & Hc).
    exists (set_ctx_lanes ctx m0 m1 m2 m3). split.
    + transitivity (superscalar4_compute (get32 native) ctx buf size); [by destruct native|].
      unfold superscalar4_compute. by rewrite Hk, E.
    + rewrite run4_app, <- Hr, <- Hc. by destruct m0, m1, m2, m3.
  - intros ws ctx Hr. rewrite <- Hr. by destruct native.
Qed.

(** ** The functions that choose *)

Section Choose.
Variable simd : list fletcher_4_ops.
Hypothesis simd_impl : Forall Fletcher4Impl simd.

(** The states the module can be in: its start, and what [fletcher_4_init],
    [fletcher_4_impl_set] and the choice of an implementation lead to. *)
Inductive fl_state : fletcher_state -> Prop :=
| fl_start : fl_state (FletcherState [] IMPL_FASTEST None 0 false)
| fl_init st : fl_state st -> fl_state (fletcher_4_init simd st)
| fl_set st val : fl_state st -> fl_state (fletcher_4_impl_set st val).2
| fl_get st ops st' : fl_state st -> fletcher_4_impl_get st = Ok (ops, st') -> fl_state st'.

Lemma supp_impl : Forall Fletcher4Impl (List.filter valid (fletcher_4_impls simd)).
Proof.
  apply Forall_forall. intros o [Ho _]%list_elem_of_In%filter_In. apply list_elem_of_In in Ho.
  unfold fletcher_4_impls in Ho. rewrite elem_of_app in Ho. destruct Ho as [Ho|Ho].
  - rewrite !elem_of_cons, elem_of_nil in Ho. destruct Ho as [->|[->|[->|[]]]]; apply _.
  - rewrite Forall_forall in simd_impl. by apply simd_impl.
Qed.

Lemma find_impl_lt val l i j : find_impl val l i = Some j -> i <= j < i + Z.of_nat (length l).
Proof.
  revert i. induction l as [|o l IH]; intros i; [done|]. cbn [find_impl length]. case_decide; [intros [= <-]; lia|].
  intros Hj%IH. lia.
Qed.

Lemma find_selector_in val l s : find_selector val l = Some s -> s ∈ l.*2.
Proof. induction l as [|[n x] l IH]; [done|]. simpl. case_decide; [intros [= <-]; by left|]. intros Hs. right. auto. Qed.

(** The index chosen is one of the fixed ones or that of an implementation. *)
Lemma fl_inv st :
  fl_state st ->
  (fletcher_4_impl_chosen st = IMPL_FASTEST \/ fletcher_4_impl_chosen st = IMPL_CYCLE \/
   fletcher_4_impl_chosen st = IMPL_SCALAR \/
   0 <= fletcher_4_impl_chosen st < Z.of_nat (length (fletcher_4_supp_impls st))) /\
  (if fletcher_4_initialized st
   then fletcher_4_supp_impls st = List.filter valid (fletcher_4_impls simd) /\
        fletcher_4_fastest_impl st = last (fletcher_4_supp_impls st)
   else fletcher_4_supp_impls st = []).
Proof.
  induction 1 as [|st _ [IH1 IH2]|st val _ [IH1 IH2]|st ops st' _ [IH1 IH2] E].
  - split; [by left|done].
  - split; [|done]. unfold fletcher_4_init. cbn [fletcher_4_impl_chosen fletcher_4_supp_impls].
    destruct (fletcher_4_initialized st); [destruct IH2 as [<- _]; exact IH1|]. rewrite IH2 in IH1. simpl in IH1.
    destruct IH1 as [?|[?|[?|?]]]; auto. lia.
  - unfold fletcher_4_impl_set. destruct (find_selector _ _) as [s|] eqn:Es.
    + simpl. split; [|done]. apply find_selector_in in Es. simpl in Es.
      rewrite !elem_of_cons, elem_of_nil in Es. destruct Es as [->|[->|[->|[]]]]; auto.
    + destruct (fletcher_4_initialized st) eqn:Ei; [|simpl; by rewrite Ei].
      destruct (find_impl _ _ _) as [j|] eqn:Ej; simpl; rewrite ?Ei; [|done]. split; [|done].
      apply find_impl_lt in Ej. right. right. right. lia.
  - unfold fletcher_4_impl_get in E. destruct (_ =? IMPL_FASTEST).
    { destruct (fletcher_4_fastest_impl st) eqn:Ef; [|done]. simpl in E. injection E as <- <-. by rewrite Ef. }
    destruct (_ =? IMPL_CYCLE) eqn:Ec.
    + destruct (negb _); [|done]. destruct (_ !! _); [|done]. simpl in E. injection E as <- <-. simpl. split; [|done].
      apply Z.eqb_eq in Ec. rewrite Ec in *. exact IH1.
    + destruct (_ !! _); [|done]. simpl in E. injection E as <- <-. done.
Qed.

(** An initialised module always has an implementation to use. *)
Lemma impl_get_ok st :
  fl_state st -> fletcher_4_initialized st = true ->
  exists ops st', fletcher_4_impl_get st = Ok (ops, st') /\ Fletcher4Impl ops /\ fl_state st' /\
    fletcher_4_initialized st' = true.
Proof.
  intros Hst Hi. destruct (fl_inv st Hst) as [Hc Hs]. rewrite Hi in Hs. destruct Hs as [Hs Hf].
  pose proof supp_impl as Himpl. rewrite <- Hs in Himpl.
  assert (Hne : (3 <= length (fletcher_4_supp_impls st))%nat).
  { rewrite Hs. unfold fletcher_4_impls. cbn [List.filter app valid fletcher_4_scalar_ops fletcher_4_superscalar_ops fletcher_4_superscalar4_ops length]. lia. }
  assert (Hlook : forall i, 0 <= i < Z.of_nat (length (fletcher_4_supp_impls st)) ->
    exists o, fletcher_4_supp_impls st !! Z.to_nat i = Some o /\ Fletcher4Impl o).
  { intros i Hlt. destruct (lookup_lt_is_Some_2 (fletcher_4_supp_impls st) (Z.to_nat i)) as [o Ho]; [lia|]. exists o.
    split; [done|]. by apply (Forall_lookup_1 _ _ _ _ Himpl Ho). }
  assert (Hget : exists ops st', fletcher_4_impl_get st = Ok (ops, st') /\ Fletcher4Impl ops /\ fletcher_4_initialized st' = true).
  { unfold fletcher_4_impl_get. destruct (Z.eqb_spec (fletcher_4_impl_chosen st) IMPL_FASTEST) as [_|Hn1].
    { destruct (last_is_Some (fletcher_4_supp_impls st)) as [_ [o Ho]]; [intros E; rewrite E in Hne; simpl in Hne; lia|].
      rewrite Hf, Ho. exists o, st. split_and!; try done. rewrite last_lookup in Ho. by apply (Forall_lookup_1 _ _ _ _ Himpl Ho). }
    destruct (Z.eqb_spec (fletcher_4_impl_chosen st) IMPL_CYCLE) as [_|Hn2].
    - set (cnt := Z.of_nat (length (fletcher_4_supp_impls st))). destruct (Z.eqb_spec cnt 0) as [|_]; [unfold cnt in *; lia|].
      cbn [negb]. destruct (Hlook (wrap32 (cycle_count st + 1) mod cnt)) as (o & -> & Ho); [apply Z.mod_pos_bound; unfold cnt; lia|].
      by eexists o, _.
    - destruct (Hlook (fletcher_4_impl_chosen st)) as (o & -> & Ho); [|by exists o, st].
      destruct Hc as [?|[?|[->|?]]]; [done|done|unfold IMPL_SCALAR; lia|lia]. }
  destruct Hget as (o & st' & E & Ho & Hi'). exists o, st'. split_and!; try done. by eapply fl_get.
Qed.

(** The checksum of a buffer of a multiple of 64 bytes. *)
Lemma native_impl_ok (native : bool) st buf size :
  fl_state st -> fletcher_4_initialized st = true -> 0 <= size <= Z.of_nat (length buf) -> (64 | size) ->
  exists st', (if native then fletcher_4_native_impl st buf size else fletcher_4_byteswap_impl st buf size)
    = Ok (cksum4 native (take (Z.to_nat size) buf), st') /\ fl_state st' /\ fletcher_4_initialized st' = true.
Proof.
  intros Hst Hi Hs Hd. destruct (impl_get_ok st Hst Hi) as (o & st' & E & Ho & Hst' & Hi').
  destruct (Ho native) as (R & H0 & Hc & Hf). destruct (Hc [] (ops_init native o []) buf size) as (ctx & Ec & Hr); [done..|].
  specialize (Hf _ _ Hr). exists st'. unfold fletcher_4_native_impl, fletcher_4_byteswap_impl.
  destruct native; rewrite E; cbn [mbind res_bind]; simpl in Ec; rewrite Ec; cbn [mbind res_bind]; simpl in Hf; by rewrite Hf.
Qed.

Lemma on_cksum_ok (native : bool) z buf size :
  0 <= size <= Z.of_nat (length buf) ->
  on_cksum (if native then fletcher_4_scalar_native else fletcher_4_scalar_byteswap) z buf size
  = Ok (run4 (data32 native (take (Z.to_nat size) buf)) z).
Proof.
  intros Hs. rewrite data32_take by lia. unfold on_cksum. destruct native; unfold fletcher_4_scalar_native, fletcher_4_scalar_byteswap;
    rewrite scalar_loop_ok by (by apply words_enough); cbn [mbind res_bind]; rewrite ctx_scalar_set; by destruct z.
Qed.

(** The words of a buffer split at a multiple of 64 bytes. *)
Lemma data32_split native buf p size :
  0 <= p <= size -> (4 | p) -> size <= Z.of_nat (length buf) ->
  data32 native (take (Z.to_nat size) buf)
  = data32 native (take (Z.to_nat p) buf) ++ data32 native (take (Z.to_nat (size - p)) (drop (Z.to_nat p) buf)).
Proof.
  intros Hp Hd Hs. replace (Z.to_nat size) with (Z.to_nat p + Z.to_nat (size - p))%nat by lia.
  rewrite <- take_take_drop. unfold data32. rewrite words32_app, fmap_app; [done|]. rewrite length_take. by rewrite Nat.min_l, Z2Nat.id by lia.
Qed.

Lemma fletcher_4_ok (native : bool) st buf size :
  fl_state st -> fletcher_4_initialized st = true -> 0 <= size <= Z.of_nat (length buf) -> size < B64 ->
  exists st', (if native then fletcher_4_native st buf size else fletcher_4_byteswap st buf size)
    = Ok (cksum4 native (take (Z.to_nat size) buf), st') /\ fl_state st' /\ fletcher_4_initialized st' = true.
Proof.
  intros Hst Hi Hs Hb. unfold fletcher_4_native, fletcher_4_byteswap. unfold FLETCHER_MIN_SIMD_SIZE. change 64 with (2 ^ 6).
  rewrite P2ALIGN_div by (unfold is_u64; lia). change (2 ^ 6) with 64. set (p := size / 64 * 64).
  assert (Hp : 0 <= p <= size /\ size - p < 64) by (unfold p; pose proof (Z.mod_pos_bound size 64); pose proof (Z.div_mod size 64);
    pose proof (Z.div_pos size 64); lia).
  assert (Hd : (64 | p)) by (exists (size / 64); lia).
  assert (Hscalar : forall st, fl_state st -> fletcher_4_initialized st = true ->
    exists st', (if native then z ← on_cksum fletcher_4_scalar_native (ZioCksum 0 0 0 0) buf size; Ok (z, st)
                 else z ← on_cksum fletcher_4_scalar_byteswap (ZioCksum 0 0 0 0) buf size; Ok (z, st))
      = Ok (cksum4 native (take (Z.to_nat size) buf), st') /\ fl_state st' /\ fletcher_4_initialized st' = true).
  { intros st0 ? ?. exists st0. split_and!; try done. pose proof (on_cksum_ok native (ZioCksum 0 0 0 0) buf size Hs) as Eo.
    destruct native; by rewrite Eo. }
  destruct (Z.eqb_spec size 0) as [->|Hs0].
  { cbn [orb]. change (0 <? 0) with false. exists st. by destruct native. }
  rewrite (proj2 (Z.ltb_lt 0 size)) by lia. destruct (Z.eqb_spec p 0) as [Hp0|Hp0].
  { cbn [orb]. by apply Hscalar. }
  cbn [orb]. destruct (native_impl_ok native st buf p Hst Hi ltac:(lia) Hd) as (st' & E & Hst' & Hi').
  assert (Htail : (4 | p)) by (etrans; [|exact Hd]; by exists 16).
  exists st'. split; [|done]. unfold cksum4. rewrite (data32_split native buf p size), run4_app by (done || lia).
  pose proof (on_cksum_ok native (cksum4 native (take (Z.to_nat p) buf)) (drop (Z.to_nat p) buf) (size - p)) as Eo.
  rewrite length_drop in Eo. specialize (Eo ltac:(lia)).
  destruct (Z.ltb_spec p size) as [Hlt|Hge].
  - destruct native; rewrite E; cbn [mbind res_bind]; by rewrite Eo.
  - replace (size - p) with 0 by lia. rewrite take_0. destruct native; by rewrite E.
Qed.

(** The checksum of the words after those a checksum stands for. *)
Fixpoint tri (n : nat) : Z := match n with O => 0 | S n' => tri n' + Z.of_nat n end.
Fixpoint tet (n : nat) : Z := match n with O => 0 | S n' => tet n' + tri n end.

Lemma tri_eq n : 2 * tri n = Z.of_nat n * (Z.of_nat n + 1).
Proof. induction n as [|n IH]; [done|]. cbn [tri]. lia. Qed.

Lemma tet_eq n : 6 * tet n = Z.of_nat n * (Z.of_nat n + 1) * (Z.of_nat n + 2).
Proof. induction n as [|n IH]; [done|]. cbn [tet]. pose proof (tri_eq (S n)). lia. Qed.

Definition cksum_ok (z : zio_cksum) : Prop :=
  is_u64 (zc_word0 z) /\ is_u64 (zc_word1 z) /\ is_u64 (zc_word2 z) /\ is_u64 (zc_word3 z).

Lemma run4_cksum_ok ws z : cksum_ok z -> cksum_ok (run4 ws z).
Proof.
  revert z. induction ws as [|w ws IH]; intros z Hz; [done|]. apply IH. unfold step4. split_and!; apply wrap64_range.
Qed.

Lemma run4_from ws z :
  cksum_ok z ->
  let n := Z.of_nat (length ws) in
  let '(ZioCksum a b c d) := z in
  let '(ZioCksum a' b' c' d') := run4 ws (ZioCksum 0 0 0 0) in
  run4 ws z = ZioCksum (wrap64 (a + a')) (wrap64 (b + (b' + n * a))) (wrap64 (c + (c' + n * b + tri (length ws) * a)))
    (wrap64 (d + (d' + n * c + tri (length ws) * b + tet (length ws) * a))).
Proof.
  intros Hz. destruct z as [a b c d]. induction ws as [|w ws IH] using rev_ind.
  - unfold cksum_ok in Hz. simpl in *. rewrite !Z.mul_0_l, !Z.add_0_r, !wrap64_small by tauto. done.
  - cbn zeta in *. rewrite !run4_app. destruct (run4 ws (ZioCksum 0 0 0 0)) as [a' b' c' d']. rewrite IH. clear IH.
    rewrite length_app. cbn [length]. rewrite Nat.add_1_r. cbn [run4 foldl]. unfold step4. cbn [zc_word0 zc_word1 zc_word2 zc_word3].
    cbn [tri tet]. rewrite !Nat2Z.inj_succ. unfold Z.succ. f_equal; ring64.
Qed.

Lemma combine_ok ws z size :
  cksum_ok z -> size / 4 = Z.of_nat (length ws) -> 0 <= size <= ZFS_FLETCHER_4_INC_MAX_SIZE ->
  fletcher_4_incremental_combine z size (run4 ws (ZioCksum 0 0 0 0)) = run4 ws z.
Proof.
  intros Hz Hn Hs. pose proof (run4_from ws z Hz) as E. unfold fletcher_4_incremental_combine. rewrite Hn. set (n := Z.of_nat (length ws)) in *.
  assert (Hb : 0 <= n <= 2097152).
  { unfold ZFS_FLETCHER_4_INC_MAX_SIZE in Hs. change (Z.shiftl 8 20) with 8388608 in Hs. rewrite <- Hn. split; [apply Z.div_pos; lia|].
    apply Z.div_le_upper_bound; lia. }
  assert (E2 : wrap64 (n * (n + 1)) / 2 = tri (length ws)).
  { pose proof (tri_eq (length ws)). rewrite wrap64_small by (unfold is_u64; nia). rewrite <- (Z.div_mul (tri (length ws)) 2) by lia. f_equal. lia. }
  rewrite E2. assert (E3 : wrap64 (tri (length ws) * (n + 2)) / 3 = tet (length ws)).
  { pose proof (tri_eq (length ws)) as Ht. pose proof (tet_eq (length ws)) as Hte. fold n in Ht, Hte.
    assert (E6 : tri (length ws) * (n + 2) = tet (length ws) * 3) by nia.
    rewrite wrap64_small; [rewrite E6; apply Z.div_mul; lia|]. unfold is_u64. assert (0 <= tri (length ws) <= 2199024304128) by nia. nia. }
  rewrite E3. destruct z as [a b c d]. destruct (run4 ws (ZioCksum 0 0 0 0)) as [a' b' c' d']. cbn zeta in E. rewrite E. done.
Qed.

Lemma incremental_ok fuel (native : bool) st buf size z :
  fl_state st -> fletcher_4_initialized st = true -> 0 <= size <= Z.of_nat (length buf) -> size < B64 -> (4 | size) ->
  cksum_ok z -> size <= Z.of_nat fuel * ZFS_FLETCHER_4_INC_MAX_SIZE ->
  exists st', incremental_loop fuel st native buf size z = Ok (run4 (data32 native (take (Z.to_nat size) buf)) z, st') /\
    fl_state st' /\ fletcher_4_initialized st' = true.
Proof.
  assert (Hmax : ZFS_FLETCHER_4_INC_MAX_SIZE = 8388608) by done.
  revert st buf size z. induction fuel as [|fuel IH]; intros st buf size z Hst Hi Hs Hb Hd Hz Hf.
  { assert (size = 0) as -> by lia. by exists st. }
  cbn [incremental_loop]. destruct (Z.ltb_spec 0 size) as [Hpos|Hpos].
  2:{ assert (size = 0) as -> by lia. by exists st. }
  set (len := Z.min size ZFS_FLETCHER_4_INC_MAX_SIZE). assert (Hlen : 0 < len <= size /\ len <= ZFS_FLETCHER_4_INC_MAX_SIZE) by lia.
  assert (Hd4 : (4 | len)).
  { unfold len. destruct (Z.min_spec size ZFS_FLETCHER_4_INC_MAX_SIZE) as [[_ ->]|[_ ->]]; [done|]. by exists 2097152. }
  destruct (fletcher_4_ok native st buf len Hst Hi ltac:(lia) ltac:(lia)) as (st' & E & Hst' & Hi').
  assert (El : len / 4 = Z.of_nat (length (data32 native (take (Z.to_nat len) buf)))).
  { rewrite data32_take by lia. rewrite length_fmap, length_take, Nat.min_l by (apply words_enough; lia).
    rewrite Z2Nat.id; [done|]. apply Z.div_pos; lia. }
  assert (Ec : fletcher_4_incremental_combine z len (cksum4 native (take (Z.to_nat len) buf))
    = run4 (data32 native (take (Z.to_nat len) buf)) z) by (apply combine_ok; [done|done|lia]).
  destruct (IH st' (drop (Z.to_nat len) buf) (size - len) (run4 (data32 native (take (Z.to_nat len) buf)) z)) as (st'' & E2 & Hst'' & Hi'');
    try done; [rewrite length_drop; lia|lia|by apply Z.divide_sub_r|by apply run4_cksum_ok|lia|].
  exists st''. split; [|done]. rewrite (data32_split native buf len size), run4_app by (done || lia). rewrite <- E2, <- Ec.
  destruct native; by rewrite E.
Qed.

(** The series of the checksum: the word [i] places from the end counts
    [coef i] times. *)
Fixpoint series (coef : Z -> Z) (ws : list Z) : Z :=
  match ws with
  | [] => 0
  | w :: ws' => coef (Z.of_nat (length ws)) * w + series coef ws'
  end.

Definition fletcher_4_series (ws : list Z) : zio_cksum :=
  ZioCksum (wrap64 (series (fun _ => 1) ws)) (wrap64 (series (fun i => i) ws))
    (wrap64 (series (fun i => i * (i + 1) / 2) ws)) (wrap64 (series (fun i => i * (i + 1) * (i + 2) / 6) ws)).

Lemma tri_div n : Z.of_nat n * (Z.of_nat n + 1) / 2 = tri n.
Proof. rewrite <- tri_eq, Z.mul_comm. by apply Z.div_mul. Qed.

Lemma tet_div n : Z.of_nat n * (Z.of_nat n + 1) * (Z.of_nat n + 2) / 6 = tet n.
Proof. rewrite <- tet_eq, Z.mul_comm. by apply Z.div_mul. Qed.

Lemma run4_series ws : run4 ws (ZioCksum 0 0 0 0) = fletcher_4_series ws.
Proof.
  induction ws as [|w ws IH]; [done|]. unfold fletcher_4_series in *. cbn [series length]. cbn [run4 foldl].
  fold (run4 ws (step4 (ZioCksum 0 0 0 0) w)).
  assert (Hz : cksum_ok (step4 (ZioCksum 0 0 0 0) w)) by (unfold step4; split_and!; apply wrap64_range).
  pose proof (run4_from ws _ Hz) as E. destruct (step4 (ZioCksum 0 0 0 0) w) as [a b c d] eqn:Es. cbn zeta in E.
  rewrite IH in E. rewrite E. clear E IH. unfold step4 in Es. cbn [zc_word0 zc_word1 zc_word2 zc_word3] in Es. injection Es as <- <- <- <-.
  rewrite tri_div, tet_div. cbn [tri tet]. rewrite !Nat2Z.inj_succ. unfold Z.succ. f_equal; ring64.
Qed.

Lemma cksum4_series native bs : cksum4 native bs = fletcher_4_series (data32 native bs).
Proof. apply run4_series. Qed.

Lemma data32_be bs : Forall is_u8 bs -> data32 false bs = words32_be bs.
Proof. apply words32_swap. Qed.

Lemma data32_native bs : data32 true bs = words32 bs.
Proof. apply list_fmap_id. Qed.

(** C25: whatever implementation is chosen, [fletcher_4_native] gives the sums
    that define the checksum, over the words of the buffer; and
    [fletcher_4_byteswap] gives those a host of the other byte order gets. *)
Theorem fletcher_4_correct st buf size :
  fl_state st -> fletcher_4_initialized st = true -> 0 <= size <= Z.of_nat (length buf) -> size < B64 -> Forall is_u8 buf ->
  (exists st', fletcher_4_native st buf size = Ok (fletcher_4_series (words32 (take (Z.to_nat size) buf)), st') /\ fl_state st') /\
  (exists st', fletcher_4_byteswap st buf size = Ok (fletcher_4_series (words32_be (take (Z.to_nat size) buf)), st') /\ fl_state st').
Proof.
  intros Hst Hi Hs Hb Hu. split.
  - destruct (fletcher_4_ok true st buf size) as (st' & E & Hst' & _); try done. exists st'. split; [|done].
    by rewrite E, cksum4_series, data32_native.
  - destruct (fletcher_4_ok false st buf size) as (st' & E & Hst' & _); try done. exists st'. split; [|done].
    rewrite E, cksum4_series, data32_be; [done|]. by apply Forall_take.
Qed.

(** C26: the incremental functions extend a checksum: from that of the bytes
    before they give that of all the bytes, for buffers of any size. *)
Theorem fletcher_4_incremental_correct st pre buf size :
  fl_state st -> fletcher_4_initialized st = true -> 0 <= size <= Z.of_nat (length buf) -> size < B64 -> (4 | size) ->
  (4 | Z.of_nat (length pre)) ->
  (exists st', fletcher_4_incremental_native st buf size (fletcher_4_series (words32 pre))
     = Ok (fletcher_4_series (words32 (pre ++ take (Z.to_nat size) buf)), st') /\ fl_state st') /\
  (Forall is_u8 (pre ++ buf) ->
   exists st', fletcher_4_incremental_byteswap st buf size (fletcher_4_series (words32_be pre))
     = Ok (fletcher_4_series (words32_be (pre ++ take (Z.to_nat size) buf)), st') /\ fl_state st').
Proof.
  intros Hst Hi Hs Hb Hd Hp.
  assert (Hfuel : size <= Z.of_nat (Z.to_nat (size / ZFS_FLETCHER_4_INC_MAX_SIZE + 1)) * ZFS_FLETCHER_4_INC_MAX_SIZE).
  { change ZFS_FLETCHER_4_INC_MAX_SIZE with 8388608. pose proof (Z.mod_pos_bound size 8388608). pose proof (Z.div_mod size 8388608).
    pose proof (Z.div_pos size 8388608). lia. }
  assert (Hinc : forall native : bool, exists st',
    (if native then fletcher_4_incremental_native st buf size (cksum4 true pre)
     else fletcher_4_incremental_byteswap st buf size (cksum4 false pre))
    = Ok (cksum4 native (pre ++ take (Z.to_nat size) buf), st') /\ fl_state st').
  { intros native. assert (Ec : cksum4 native (pre ++ take (Z.to_nat size) buf) = run4 (data32 native (take (Z.to_nat size) buf)) (cksum4 native pre)).
    { unfold cksum4, data32. by rewrite words32_app, fmap_app, run4_app. }
    rewrite Ec. unfold fletcher_4_incremental_native, fletcher_4_incremental_byteswap, fletcher_4_incremental_impl.
    destruct (size <? SPA_MINBLOCKSIZE).
    - exists st. pose proof (on_cksum_ok native (cksum4 native pre) buf size Hs) as Eo. destruct native; by rewrite Eo.
    - destruct (incremental_ok (Z.to_nat (size / ZFS_FLETCHER_4_INC_MAX_SIZE + 1)) native st buf size (cksum4 native pre))
        as (st' & E & Hst' & _); try done; [apply run4_cksum_ok; by split_and!|]. exists st'. split; [|done]. by destruct native. }
  split.
  - destruct (Hinc true) as (st' & E & Hst'). exists st'. by rewrite <- !data32_native, <- !cksum4_series.
  - intros Hu. destruct (Hinc false) as (st' & E & Hst'). exists st'. apply Forall_app in Hu as [Hu1 Hu2].
    assert (Hu3 : Forall is_u8 (pre ++ take (Z.to_nat size) buf)) by (apply Forall_app; split; [done|by apply Forall_take]).
    by rewrite <- (data32_be pre), <- (data32_be (pre ++ _)), <- !cksum4_series.
Qed.

(** ** Detection of errors *)

(** No multiple of 2^16 among the coefficients of a block of 128 kilobytes. *)
Definition coefs_ok (n : nat) : bool := negb (tri n mod 65536 =? 0) && negb (tet n mod 65536 =? 0).

Fixpoint coefs_from (n t2 t3 : Z) (k : nat) : bool :=
  match k with
  | O => true
  | S k' =>
      let n := n + 1 in
      let t2 := t2 + n in
      let t3 := t3 + t2 in
      negb (t2 mod 65536 =? 0) && negb (t3 mod 65536 =? 0) && coefs_from n t2 t3 k'
  end.

Lemma coefs_from_ok n k :
  coefs_from (Z.of_nat n) (tri n) (tet n) k = true -> forall i, (n < i <= n + k)%nat -> coefs_ok i = true.
Proof.
  revert n. induction k as [|k IH]; intros n H i Hi; [lia|]. cbn [coefs_from] in H.
  replace (Z.of_nat n + 1) with (Z.of_nat (S n)) in H by lia. replace (tri n + Z.of_nat (S n)) with (tri (S n)) in H by done.
  replace (tet n + tri (S n)) with (tet (S n)) in H by done. apply andb_prop in H as [H1 H2].
  destruct (decide (i = S n)) as [->|Hne]; [done|]. apply (IH (S n)); [done|lia].
Qed.

Lemma coefs_32768 i : 1 <= Z.of_nat i <= 32768 -> coefs_ok i = true.
Proof. intros Hi. apply (coefs_from_ok 0 (Z.to_nat 32768)); [vm_compute; reflexivity|lia]. Qed.

(** A difference below 2^32 times such a coefficient does not vanish. *)
Lemma coef_detects delta k :
  delta <> 0 -> - B32 < delta < B32 -> k mod 65536 <> 0 -> wrap64 (delta * k) <> 0.
Proof.
  intros Hd Hr Hk H. apply Z.mod_divide in H; [|lia].
  destruct (odd_part (Z.abs delta)) as (e & o & He & Ho & Eo); [lia|].
  assert (He32 : e < 32).
  { destruct (Z.lt_ge_cases e 32) as [|Hge]; [done|]. pose proof (Z.pow_le_mono_r 2 32 e ltac:(lia) Hge). nia. }
  assert (Hdiv : (2 ^ 64 | 2 ^ e * ((2 * o + 1) * k))).
  { replace (2 ^ e * ((2 * o + 1) * k)) with (Z.abs delta * k) by (rewrite Eo; ring).
    change (2 ^ 64) with B64. destruct (Z.abs_eq_or_opp delta) as [->| ->]; [done|]. rewrite Z.mul_opp_l. by apply Z.divide_opp_r. }
  assert (H32 : (2 ^ 32 | (2 * o + 1) * k)).
  { apply (Z.mul_divide_cancel_l (2 ^ 32) _ (2 ^ e)); [lia|]. etrans; [|exact Hdiv]. rewrite <- Z.pow_add_r by lia.
    exists (2 ^ (64 - (e + 32))). rewrite <- Z.pow_add_r by lia. f_equal. lia. }
  assert (Hk16 : (2 ^ 32 | k)).
  { apply (Z.gauss _ (2 * o + 1)); [done|]. apply Z.coprime_pow_l; [lia|]. apply Z.coprime_prime_l; [apply Z.prime_2|].
    intros [q Hq]. lia. }
  apply Hk. apply Z.mod_divide; [lia|]. etrans; [|exact Hk16]. by exists 65536.
Qed.

Lemma wrap64_differ x y delta k :
  eqm64 (x - y) (delta * k) -> wrap64 (delta * k) <> 0 -> wrap64 x <> wrap64 y.
Proof.
  intros E Hk Heq. apply Hk. unfold eqm64 in E. rewrite <- E. rewrite <- wrap64_sub_l, Heq, wrap64_sub_l, Z.sub_diag. done.
Qed.

(** Checksums that differ in every word. *)
Definition all_differ (z z' : zio_cksum) : Prop :=
  zc_word0 z <> zc_word0 z' /\ zc_word1 z <> zc_word1 z' /\ zc_word2 z <> zc_word2 z' /\ zc_word3 z <> zc_word3 z'.

Lemma run4_differs q w w' ws :
  is_u32 w -> is_u32 w' -> w <> w' -> Z.of_nat (length ws) < 32768 -> all_differ (run4 ws (step4 q w)) (run4 ws (step4 q w')).
Proof.
  unfold is_u32. intros Hw Hw' Hne Hn.
  assert (Hok : forall w, cksum_ok (step4 q w)) by (intros; unfold step4; split_and!; apply wrap64_range).
  pose proof (coefs_32768 (S (length ws)) ltac:(lia)) as Hc. unfold coefs_ok in Hc. bool_hyps.
  pose proof (run4_from ws _ (Hok w)) as E. pose proof (run4_from ws _ (Hok w')) as E'. rewrite !step4_lane in *.
  cbn [zc_word0 zc_word1 zc_word2 zc_word3] in E, E'. cbn zeta in E, E'. destruct (run4 ws (ZioCksum 0 0 0 0)) as [a b c d].
  rewrite E, E'. clear E E'. unfold all_differ. cbn [zc_word0 zc_word1 zc_word2 zc_word3].
  assert (Hdet : forall k, k mod 65536 <> 0 -> wrap64 ((w - w') * k) <> 0) by (intros k Hk; apply coef_detects; [lia|lia|done]).
  split_and!.
  - apply (wrap64_differ _ _ (w - w') 1); [|by apply Hdet]. setoid_rewrite wrap64_eqm_id.
    match goal with |- eqm64 ?x ?y => replace x with y by ring; reflexivity end.
  - apply (wrap64_differ _ _ (w - w') (Z.of_nat (S (length ws)))); [|apply Hdet; rewrite Z.mod_small; lia]. repeat setoid_rewrite wrap64_eqm_id.
    match goal with |- eqm64 ?x ?y => replace x with y by (rewrite Nat2Z.inj_succ; ring); reflexivity end.
  - apply (wrap64_differ _ _ (w - w') (tri (S (length ws)))); [|by apply Hdet]. repeat setoid_rewrite wrap64_eqm_id. cbn [tri].
    match goal with |- eqm64 ?x ?y => replace x with y by (rewrite Nat2Z.inj_succ; ring); reflexivity end.
  - apply (wrap64_differ _ _ (w - w') (tet (S (length ws)))); [|by apply Hdet]. repeat setoid_rewrite wrap64_eqm_id. cbn [tri tet].
    match goal with |- eqm64 ?x ?y => replace x with y by (rewrite Nat2Z.inj_succ; ring); reflexivity end.
Qed.

Lemma word4_range x : length x = 4%nat -> Forall is_u8 x -> is_u32 (le_word x).
Proof. intros Hl Hu. pose proof (le_word_range x Hu) as H. by rewrite Hl in H. Qed.

(** C28: in blocks of up to 128 kilobytes an error within one word changes every
    word of the checksum. *)
Theorem fletcher_4_detects st pre x y post :
  fl_state st -> fletcher_4_initialized st = true -> (4 | Z.of_nat (length pre)) -> length x = 4%nat -> length y = 4%nat -> x <> y ->
  Forall is_u8 (pre ++ x ++ y ++ post) -> Z.of_nat (length (pre ++ x ++ post)) <= 131072 ->
  exists z st1 z' st2,
    fletcher_4_native st (pre ++ x ++ post) (Z.of_nat (length (pre ++ x ++ post))) = Ok (z, st1) /\
    fletcher_4_native st (pre ++ y ++ post) (Z.of_nat (length (pre ++ y ++ post))) = Ok (z', st2) /\ all_differ z z'.
Proof.
  intros Hst Hi Hp Hx Hy Hne Hu Hlen. rewrite !Forall_app in Hu. destruct Hu as (Hu1 & Hu2 & Hu3 & Hu4).
  assert (Elen : length (pre ++ y ++ post) = length (pre ++ x ++ post)) by (rewrite !length_app; lia).
  assert (Hone : forall v, length v = 4%nat -> exists st', fletcher_4_native st (pre ++ v ++ post) (Z.of_nat (length (pre ++ v ++ post)))
    = Ok (run4 (words32 post) (step4 (run4 (words32 pre) (ZioCksum 0 0 0 0)) (le_word v)), st')).
  { intros v Hv. destruct (fletcher_4_ok true st (pre ++ v ++ post) (Z.of_nat (length (pre ++ v ++ post)))) as (st' & E & _); try done;
      [lia|rewrite !length_app in *; lia|].
    exists st'. rewrite E. unfold cksum4. rewrite data32_native, Nat2Z.id, take_ge by done. rewrite !words32_app by (done || (by exists 1; lia)).
    destruct v as [|v0 [|v1 [|v2 [|v3 [|? ?]]]]]; try done. by rewrite !run4_app. }
  destruct (Hone x Hx) as (st1 & E1). destruct (Hone y Hy) as (st2 & E2). eexists _, st1, _, st2. split_and!; [exact E1|exact E2|].
  apply run4_differs; [by apply word4_range..| |].
  - intros E. by apply Hne, le_word_inj; [congruence|..].
  - rewrite length_words32, Nat2Z.inj_div. apply Z.div_lt_upper_bound; [done|]. rewrite !length_app in Hlen. lia.
Qed.

End Choose.

(** ** Scatter buffers *)

(** What [Fletcher4Impl] gives for one byte order. *)
Definition represents (native : bool) (o : fletcher_4_ops) (R : list Z -> fletcher_4_ctx -> Prop) : Prop :=
  (forall ctx, R [] (ops_init native o ctx)) /\
  (forall ws ctx buf size, R ws ctx -> 0 <= size <= Z.of_nat (length buf) -> (64 | size) ->
     exists ctx', ops_compute native o ctx buf size = Ok ctx' /\
       R (ws ++ data32 native (take (Z.to_nat size) buf)) ctx') /\
  (forall ws ctx, R ws ctx -> ops_fini native o ctx = run4 ws (ZioCksum 0 0 0 0)).

(** The checksum data after the words [ws]. *)
Definition acd_seen (native : bool) (ws : list Z) (cdp : zio_abd_checksum_data) : Prop :=
  acd_native cdp = native /\ exists R, represents native (acd_private cdp) R /\ R ws (acd_ctx cdp).

Lemma data32_app native b1 b2 : (4 | Z.of_nat (length b1)) -> data32 native (b1 ++ b2) = data32 native b1 ++ data32 native b2.
Proof. intros H. unfold data32. by rewrite words32_app, fmap_app. Qed.

Lemma iter_piece native ws cdp st m p n bs :
  acd_seen native ws cdp -> 0 < n < B64 -> (64 | n) -> holds m (span p n) bs ->
  exists cdp', abd_fletcher_4_iter m p n (cdp, st) = Ok (0, (cdp', st)) /\ acd_seen native (ws ++ data32 native bs) cdp'.
Proof.
  intros [Hn (R & HR & Hr)] Hpos Hd Hh. unfold abd_fletcher_4_iter. rewrite (load_holds m p n bs) by (done || lia). cbn [mbind res_bind].
  pose proof (holds_length _ _ _ Hh) as El. rewrite length_span in El.
  assert (Ea : P2ALIGN n FLETCHER_MIN_SIMD_SIZE = n).
  { unfold FLETCHER_MIN_SIMD_SIZE. change 64 with (2 ^ 6). rewrite P2ALIGN_div by (unfold is_u64; lia). change (2 ^ 6) with 64.
    destruct Hd as [q ->]. by rewrite Z.div_mul. }
  rewrite Ea, (proj2 (Z.ltb_lt 0 n)), Z.sub_diag by lia. change (0 <? 0) with false.
  pose proof HR as (H0 & Hc & Hf). destruct (Hc ws (acd_ctx cdp) bs n Hr) as (ctx & E & Hr'); [lia|done|].
  rewrite take_ge in Hr' by lia. exists (AbdChecksumData (acd_native cdp) ctx (acd_zcp cdp) (acd_private cdp)). split.
  - rewrite Hn in *. destruct native; simpl in E; rewrite E; done.
  - split; [done|]. by exists R.
Qed.

Lemma iter_pieces native ws cdp st m cs bs :
  acd_seen native ws cdp -> Forall (fun c => 0 < c.2 < B64) cs -> Forall (fun c => (64 | c.2)) cs ->
  holds m (c ← cs; span c.1 c.2) bs ->
  exists cdp', run_pieces (abd_fletcher_4_iter m) cs (cdp, st) = Ok (0, (cdp', st)) /\ acd_seen native (ws ++ data32 native bs) cdp'.
Proof.
  intros Hs Hpos. revert ws cdp bs Hs. induction Hpos as [|[p n] cs Hn Hpos IH]; intros ws cdp bs Hs Hd Hh.
  { apply Forall2_nil_inv_l in Hh as ->. exists cdp. split; [done|]. by rewrite app_nil_r. }
  cbn [run_pieces mbind list_bind fst snd] in *. apply Forall_cons in Hd as [Hdn Hd].
  apply Forall2_app_inv_l in Hh as (b1 & b2 & H1 & H2 & ->). simpl in Hn, Hdn.
  destruct (iter_piece native ws cdp st m p n b1 Hs Hn Hdn H1) as (cdp1 & E1 & Hs1). rewrite E1. cbn [mbind res_bind negb]. change (0 =? 0) with true.
  destruct (IH _ _ _ Hs1 Hd H2) as (cdp2 & E2 & Hs2). exists cdp2. split; [done|].
  rewrite data32_app, app_assoc; [done|]. apply holds_length in H1. rewrite length_span in H1. rewrite <- H1, Z2Nat.id by lia.
  etrans; [|exact Hdn]. by exists 16.
Qed.

Definition aligned_abd (a : abd) : Prop := abd_size a < B64 /\ abd_multiple 64 a.

(** C27: the checksum of a scatter buffer whose pieces are multiples of 64 bytes
    is that of its contents, in either byte order and whatever implementation
    is chosen. *)
Theorem abd_fletcher_4_correct simd st m a size vs :
  Forall Fletcher4Impl simd -> fl_state simd st -> fletcher_4_initialized st = true ->
  abd_wf a -> aligned_abd a -> 0 <= size <= abd_size a -> (64 | size) -> holds m (locs a) vs -> Forall is_u8 vs ->
  (exists st', abd_fletcher_4_native st m a size = Ok (fletcher_4_series (words32 (take (Z.to_nat size) vs)), st')) /\
  (exists st', abd_fletcher_4_byteswap st m a size = Ok (fletcher_4_series (words32_be (take (Z.to_nat size) vs)), st')).
Proof.
  intros Hsimd Hst Hi Hwf (Hb & Ha) Hs Hd Hh Hu.
  assert (Hboth : forall native, exists st', abd_fletcher_4_impl st native m a size = Ok (cksum4 native (take (Z.to_nat size) vs), st')).
  { intros native. destruct (impl_get_ok simd Hsimd st Hst Hi) as (o & st' & E & Ho & _ & _).
    destruct (Ho native) as (R & H0 & Hc & Hf).
    destruct (iterate_pieces a 0 size Hwf) as (cs & Hrun & Hpos & Hl & Hdiv); [lia..|]. rewrite drop_0 in Hl.
    assert (Hcs : Forall (fun c => (64 | c.2)) cs).
    { apply Hdiv; [by apply multiple_init|apply Z.divide_0_r|done]. }
    assert (Hle : Forall (fun c => 0 < c.2 < B64) cs).
    { assert (Hz : zsum snd cs <= abd_size a) by (rewrite <- pieces_size, Hl, length_take, length_locs by done; lia).
      apply Forall_lookup. intros i c Hci. rewrite Forall_lookup in Hpos. pose proof (Hpos i c Hci).
      assert (Hsum : c.2 <= zsum (fun c => Z.max 0 c.2) cs) by (etrans; [|eapply (zsum_elem (fun c : ptr * Z => Z.max 0 c.2)); [intros; lia|exact Hci]]; simpl; lia).
      rewrite (zsum_ext _ snd) in Hsum; [lia|]. intros x (j & Hj)%list_elem_of_lookup. pose proof (Hpos j x Hj). lia. }
    set (cdp := AbdChecksumData native (ops_init native o []) (ZioCksum 0 0 0 0) o).
    destruct (iter_pieces native [] cdp st' m cs (take (Z.to_nat size) vs)) as (cdp' & E2 & [Hn (R' & (_ & _ & Hf') & Hr')]); [|done|done| |].
    - split; [done|]. exists R. split; [done|apply H0].
    - rewrite Hl. by apply Forall2_take.
    - exists st'. unfold abd_fletcher_4_impl, abd_fletcher_4_init. rewrite E. cbn [mbind res_bind].
      replace (if native then init_native o [] else init_byteswap o []) with (ops_init native o []) by (by destruct native).
      fold cdp. rewrite Hrun, E2. cbn [mbind res_bind]. f_equal. f_equal. unfold abd_fletcher_4_fini. cbn [acd_zcp].
      rewrite Hn. specialize (Hf' _ _ Hr'). by destruct native. }
  split.
  - destruct (Hboth true) as [st' E]. exists st'. by rewrite <- data32_native, <- cksum4_series.
  - destruct (Hboth false) as [st' E]. exists st'. rewrite <- data32_be, <- cksum4_series; [done|]. by apply Forall_take.
Qed.

(** Fletcher 2 of a scatter buffer. *)

Lemma words64_app b1 b2 : (8 | Z.of_nat (length b1)) -> words64 (b1 ++ b2) = words64 b1 ++ words64 b2.
Proof.
  intros [q Hq]. assert (Hk : exists k, length b1 = (8 * k)%nat) by (exists (Z.to_nat q); lia). destruct Hk as [k Hk]. clear q Hq.
  revert b1 Hk. induction k as [|k IH]; intros b1 Hk; [by destruct b1|].
  do 8 (destruct b1 as [|? b1]; [simpl in Hk; lia|]). cbn [app words64]. f_equal. apply IH. simpl in Hk. lia.
Qed.

Lemma length_words64 k bs : length bs = (8 * k)%nat -> length (words64 bs) = k.
Proof.
  revert bs. induction k as [|k IH]; intros bs Hk; [by destruct bs|].
  do 8 (destruct bs as [|? bs]; [simpl in Hk; lia|]). cbn [words64 length]. f_equal. apply IH. simpl in Hk. lia.
Qed.

Lemma fletcher_2_loop_app get k n ws1 ws2 z :
  length ws1 = (2 * k)%nat ->
  fletcher_2_loop get (2 * k + n) (ws1 ++ ws2) z = z ← fletcher_2_loop get (2 * k) ws1 z; fletcher_2_loop get n ws2 z.
Proof.
  revert ws1 z. induction k as [|k IH]; intros ws1 z Hl; [by destruct ws1|].
  destruct ws1 as [|w0 [|w1 ws1]]; simpl in Hl; try lia. replace (2 * S k)%nat with (S (S (2 * k))) by lia. cbn [Nat.add fletcher_2_loop Nat.pred app].
  apply IH. lia.
Qed.

Lemma fletcher_2_loop_ok get k ws z : length ws = (2 * k)%nat -> exists z', fletcher_2_loop get (2 * k) ws z = Ok z'.
Proof.
  revert ws z. induction k as [|k IH]; intros ws z Hl; [by exists z|]. destruct ws as [|w0 [|w1 ws]]; simpl in Hl; try lia.
  replace (2 * S k)%nat with (S (S (2 * k))) by lia. cbn [fletcher_2_loop Nat.pred]. apply IH. lia.
Qed.

Definition get64 (native : bool) : Z -> Z := if native then id else BSWAP_64.
Definition incremental2 (native : bool) := if native then fletcher_2_incremental_native else fletcher_2_incremental_byteswap.

Lemma incremental2_loop native bs n z :
  incremental2 native bs n z = fletcher_2_loop (get64 native) (Z.to_nat (n / 8)) (words64 bs) z.
Proof. by destruct native. Qed.

Lemma abd_fletcher_2_pieces native m cs bs z :
  Forall (fun c => 0 < c.2) cs -> Forall (fun c => (16 | c.2)) cs -> holds m (c ← cs; span c.1 c.2) bs ->
  run_pieces (fun p n z => bs ← load m p n; z ← incremental2 native bs n z; Ok (0, z)) cs z
  = z ← incremental2 native bs (Z.of_nat (length bs)) z; Ok (0, z).
Proof.
  intros Hpos. revert bs z. induction Hpos as [|[p n] cs Hn Hpos IH]; intros bs z Hd Hh.
  { apply Forall2_nil_inv_l in Hh as ->. by rewrite incremental2_loop. }
  cbn [mbind list_bind fst snd run_pieces] in *. apply Forall_cons in Hd as [[q Hq] Hd]. simpl in Hn, Hq.
  apply Forall2_app_inv_l in Hh as (b1 & b2 & H1 & H2 & ->). rewrite (load_holds m p n b1) by done. cbn [mbind res_bind].
  pose proof (holds_length _ _ _ H1) as El. rewrite length_span in El. set (k := Z.to_nat q). assert (Ek : length b1 = (8 * (2 * k))%nat) by lia.
  pose proof (length_words64 _ _ Ek) as Ew. rewrite !incremental2_loop, words64_app by (exists (2 * q); lia).
  replace (Z.to_nat (n / 8)) with (2 * k)%nat by (rewrite Hq; replace (q * 16) with (2 * q * 8) by lia; rewrite Z.div_mul by lia; lia).
  replace (Z.to_nat (Z.of_nat (length (b1 ++ b2)) / 8)) with (2 * k + Z.to_nat (Z.of_nat (length b2) / 8))%nat.
  2:{ rewrite length_app, Ek. replace (Z.of_nat (8 * (2 * k) + length b2)) with (Z.of_nat (length b2) + Z.of_nat (2 * k) * 8) by lia.
      rewrite Z.div_add by lia. pose proof (Z.div_pos (Z.of_nat (length b2)) 8). lia. }
  rewrite fletcher_2_loop_app by done. destruct (fletcher_2_loop_ok (get64 native) k (words64 b1) z Ew) as [z' ->]. cbn [mbind res_bind].
  change (negb (0 =? 0)) with false. cbn iota. by rewrite (IH b2), incremental2_loop by done.
Qed.

(** The second-order checksum of a scatter buffer is that of its contents. *)
Theorem abd_fletcher_2_correct m a size vs :
  abd_wf a -> abd_multiple 16 a ->
  0 <= size <= abd_size a -> (16 | size) -> holds m (locs a) vs ->
  abd_fletcher_2_native m a size = fletcher_2_native (take (Z.to_nat size) vs) size /\
  abd_fletcher_2_byteswap m a size = fletcher_2_byteswap (take (Z.to_nat size) vs) size.
Proof.
  intros Hwf Ha Hs Hd Hh.
  assert (Hboth : forall native, abd_fletcher_2 (incremental2 native) m a size
    = incremental2 native (take (Z.to_nat size) vs) size fletcher_init).
  { intros native. destruct (iterate_pieces a 0 size Hwf) as (cs & Hrun & Hpos & Hl & Hdiv); [lia..|]. rewrite drop_0 in Hl.
    unfold abd_fletcher_2. rewrite Hrun, (abd_fletcher_2_pieces native m cs (take (Z.to_nat size) vs)); [|done| |].
    - replace (Z.of_nat (length (take (Z.to_nat size) vs))) with size; [by destruct (incremental2 _ _ _ _)|].
      rewrite length_take, <- (holds_length _ _ _ Hh), length_locs by done. lia.
    - apply Hdiv; [by apply multiple_init|apply Z.divide_0_r|done].
    - rewrite Hl. by apply Forall2_take. }
  split; [apply (Hboth true)|apply (Hboth false)].
Qed.

(** ** Examples *)

Module Example.

Definition st0 : fletcher_state := fletcher_4_init [] (FletcherState [] IMPL_FASTEST None 0 false).

Lemma st0_state : fl_state [] st0.
Proof. apply fl_init, fl_start. Qed.

(** The bytes 1, 2, ... *)
Definition bytes (n : Z) : list Z := seqZ 1 n.

Lemma bytes_u8 n : 0 <= n < 255 -> Forall is_u8 (bytes n).
Proof. intros Hn. apply Forall_forall. intros x Hx%elem_of_seqZ. unfold is_u8. lia. Qed.

Lemma fletcher_4_correct_witness :
  (exists st', fletcher_4_native st0 (bytes 132) 132 = Ok (fletcher_4_series (words32 (bytes 132)), st')) /\
  exists st', fletcher_4_byteswap st0 (bytes 132) 132 = Ok (fletcher_4_series (words32_be (bytes 132)), st').
Proof.
  destruct (fletcher_4_correct [] (Forall_nil_2 _) st0 (bytes 132) 132) as [(s1 & E1 & _) (s2 & E2 & _)].
  - exact st0_state.
  - reflexivity.
  - split; vm_compute; discriminate.
  - reflexivity.
  - apply bytes_u8. lia.
  - split; [exists s1; exact E1|exists s2; exact E2].
Defined.

Lemma fletcher_4_incremental_correct_witness :
  exists st', fletcher_4_incremental_native st0 (bytes 600) 600 (fletcher_4_series (words32 (bytes 8)))
    = Ok (fletcher_4_series (words32 (bytes 8 ++ bytes 600)), st').
Proof.
  destruct (fletcher_4_incremental_correct [] (Forall_nil_2 _) st0 (bytes 8) (bytes 600) 600) as [(s1 & E1 & _) _].
  - exact st0_state.
  - reflexivity.
  - split; vm_compute; discriminate.
  - reflexivity.
  - by exists 150.
  - by exists 2.
  - exists s1. exact E1.
Defined.

Lemma fletcher_4_detects_witness :
  exists z st1 z' st2, fletcher_4_native st0 (bytes 64 ++ [1; 2; 3; 4] ++ bytes 64) 132 = Ok (z, st1) /\
    fletcher_4_native st0 (bytes 64 ++ [1; 2; 3; 5] ++ bytes 64) 132 = Ok (z', st2) /\ all_differ z z'.
Proof.
  destruct (fletcher_4_detects [] (Forall_nil_2 _) st0 (bytes 64) [1; 2; 3; 4] [1; 2; 3; 5] (bytes 64)) as (z & s1 & z' & s2 & E1 & E2 & Hd).
  - exact st0_state.
  - reflexivity.
  - by exists 16.
  - reflexivity.
  - reflexivity.
  - discriminate.
  - rewrite !Forall_app. split_and!; try (apply bytes_u8; lia); repeat constructor; vm_compute; discriminate.
  - vm_compute. discriminate.
  - exists z, s1, z', s2. split_and!; [exact E1|exact E2|exact Hd].
Defined.

(** A buffer of two pages of 128 bytes, used from byte 64 of the first on. *)
Definition m0 : mem := {[ 1 := bytes 128; 2 := bytes 128 ]}.
Definition a0 : abd := Abd true false 128 0 (AbdScatter 64 2 [Sg (Ptr 1 0) 128; Sg (Ptr 2 0) 128]).
Definition data : list Z := drop 64 (bytes 128) ++ take 64 (bytes 128).

Lemma sc_wf : abd_wf a0.
Proof. constructor; vm_compute; try done. by repeat constructor. Qed.

Lemma sc_data : holds m0 (locs a0) data.
Proof. unfold holds. Abd.Example.decided. Qed.

Lemma abd_fletcher_4_correct_witness :
  exists st', abd_fletcher_4_native st0 m0 a0 128 = Ok (fletcher_4_series (words32 data), st').
Proof.
  destruct (abd_fletcher_4_correct [] st0 m0 a0 128 data) as [(s1 & E1) _].
  - constructor.
  - exact st0_state.
  - reflexivity.
  - exact sc_wf.
  - split; [reflexivity|]. split_and!; [by exists 2|by exists 1|]. repeat constructor; by exists 2.
  - split; vm_compute; discriminate.
  - by exists 2.
  - exact sc_data.
  - unfold data. apply Forall_app. split; [apply Forall_drop|apply Forall_take]; apply bytes_u8; lia.
  - exists s1. exact E1.
Defined.

(** The checksum of a call, without the state it leaves. *)
Definition cksum_of (r : res (zio_cksum * fletcher_state)) : option zio_cksum :=
  match r with Ok (z, _) => Some z | Panic => None end.

Lemma cksum_of_Ok r z : cksum_of r = Some z -> exists st, r = Ok (z, st).
Proof. destruct r as [[z' st]|]; [|done]. intros [= ->]. by exists st. Qed.

(** C39: the checksum of a scatter buffer with a piece that is not a multiple of
    64 bytes is wrong.  [abd_fletcher_4_simd2scalar] leaves the checksum of the
    piece in [acd_zcp], where [abd_fletcher_4_fini] overwrites it from a context
    the last bytes never reached. *)
Theorem abd_fletcher_4_loses_tail :
  let m := {[ 1 := bytes 68 ]} in
  let a := Abd true false 68 0 (AbdLinear (Ptr 1 0)) in
  exists z st1 z' st2, abd_fletcher_4_native st0 m a 68 = Ok (z, st1) /\
    fletcher_4_native st0 (bytes 68) 68 = Ok (z', st2) /\ z <> z'.
Proof.
  intros m a.
  destruct (cksum_of (abd_fletcher_4_native st0 m a 68)) as [z|] eqn:E1; vm_compute in E1; [|done].
  destruct (cksum_of (fletcher_4_native st0 (bytes 68) 68)) as [z'|] eqn:E2; vm_compute in E2; [|done].
  destruct (cksum_of_Ok (abd_fletcher_4_native st0 m a 68) z) as [s1 ->]; [rewrite <- E1; by vm_compute|].
  destruct (cksum_of_Ok (fletcher_4_native st0 (bytes 68) 68) z') as [s2 ->]; [rewrite <- E2; by vm_compute|].
  exists z, s1, z', s2. split_and!; [done..|]. intros <-. congruence.
Qed.

End Example.
