(* ===== verification/Zle.v ===== *)
(** * Zero-length encoding: [module/zfs/zle.c]

    A compressed block is a sequence of chunks, each a length byte and, for a
    chunk of literals, the bytes.  [zle_compress] is shown to write such a
    sequence for its input, or to give up, and [zle_decompress] to expand any
    such sequence and to stay inside its buffers on any input at all. *)

From S2P Require Import Prelude Buffer Codec.

(** ** Compression *)

(** [while (src < stop && src[0] == 0) src++;] *)
Fixpoint zero_run (fuel : nat) (s : list Z) (src stop : Z) : res Z :=
  match fuel with
  | O => Panic
  | S fuel' =>
      if src <? stop then
        a ← get s src;
        if a =? 0 then zero_run fuel' s (src + 1) stop else Ok src
      else Ok src
  end.

(** [while (src < stop - 1 && (src[0] | src[1])) *dst++ = *src++;] *)
Fixpoint literal_run (fuel : nat) (s d : list Z) (src dst stop : Z) : res (Z * Z * list Z) :=
  match fuel with
  | O => Panic
  | S fuel' =>
      if src <? stop - 1 then
        a ← get s src; b ← get s (src + 1);
        if negb (Z.lor a b =? 0) then
          d ← put d dst a; literal_run fuel' s d (src + 1) (dst + 1) stop
        else Ok (src, dst, d)
      else Ok (src, dst, d)
  end.

Fixpoint zle_compress_loop (fuel : nat) (n : Z) (s d : list Z) (s_len d_len src dst : Z) : res (Z * Z * list Z) :=
  match fuel with
  | O => Panic
  | S fuel' =>
      if (src <? s_len) && (dst <? d_len - 1) then
        let first := src in
        let len := dst in
        let dst := dst + 1 in
        a ← get s src;
        if a =? 0 then
          src ← zero_run (Z.to_nat (257 - n)) s src (Z.min (src + (256 - n)) s_len);
          d ← put d len (src - first - 1 + n);
          zle_compress_loop fuel' n s d s_len d_len src dst
        else if d_len - dst <? n then Ok (src, dst, d)
        else
          '(src, dst, d) ← literal_run (Z.to_nat n) s d src dst (Z.min (src + n) s_len);
          a ← get s src;
          '(src, dst, d) ← (if negb (a =? 0) then d ← put d dst a; Ok (src + 1, dst + 1, d) else Ok (src, dst, d));
          d ← put d len (src - first - 1);
          zle_compress_loop fuel' n s d s_len d_len src dst
      else Ok (src, dst, d)
  end.

Definition zle_compress (s d : list Z) (s_len d_len n : Z) : res (Z * list Z) :=
  '(src, dst, d) ← zle_compress_loop (S (Z.to_nat s_len)) n s d s_len d_len 0 0;
  Ok (if src =? s_len then dst else s_len, d).

(** ** Decompression *)

(** [while (len-- != 0) *dst++ = *src++;] *)
Fixpoint copy_literals (len : nat) (s d : list Z) (src dst : Z) : res (list Z) :=
  match len with
  | O => Ok d
  | S len' => a ← get s src; d ← put d dst a; copy_literals len' s d (src + 1) (dst + 1)
  end.

(** [while (len-- != 0) *dst++ = 0;] *)
Fixpoint write_zeros (len : nat) (d : list Z) (dst : Z) : res (list Z) :=
  match len with
  | O => Ok d
  | S len' => d ← put d dst 0; write_zeros len' d (dst + 1)
  end.

Fixpoint zle_decompress_loop (fuel : nat) (n : Z) (s d : list Z) (s_len d_len src dst : Z) : res (Z * list Z) :=
  match fuel with
  | O => Panic
  | S fuel' =>
      if (src <? s_len) && (dst <? d_len) then
        a ← get s src;
        let len := 1 + a in
        let src := src + 1 in
        if len <=? n then
          if (s_len <? src + len) || (d_len <? dst + len) then Ok (-1, d)
          else
            d ← copy_literals (Z.to_nat len) s d src dst;
            zle_decompress_loop fuel' n s d s_len d_len (src + len) (dst + len)
        else
          let len := len - n in
          if d_len <? dst + len then Ok (-1, d)
          else
            d ← write_zeros (Z.to_nat len) d dst;
            zle_decompress_loop fuel' n s d s_len d_len src (dst + len)
      else Ok (if dst =? d_len then 0 else -1, d)
  end.

Definition zle_decompress (s d : list Z) (s_len d_len n : Z) : res (Z * list Z) :=
  zle_decompress_loop (S (Z.to_nat s_len)) n s d s_len d_len 0 0.

(** ** Chunks *)

Inductive zle_chunk : Type :=
| Zeros (k : Z)
| Literals (bs : list Z).

Definition zle_encode (n : Z) (c : zle_chunk) : list Z :=
  match c with Zeros k => [k - 1 + n] | Literals bs => (zlen bs - 1) :: bs end.

Definition zle_expand (c : zle_chunk) : list Z :=
  match c with Zeros k => replicate (Z.to_nat k) 0 | Literals bs => bs end.

Definition zle_chunk_ok (n : Z) (c : zle_chunk) : Prop :=
  match c with Zeros k => 1 <= k <= 256 - n | Literals bs => 1 <= zlen bs <= n /\ Forall is_u8 bs end.

Definition encode_all (n : Z) (cs : list zle_chunk) : list Z := c ← cs; zle_encode n c.
Definition expand_all (cs : list zle_chunk) : list Z := c ← cs; zle_expand c.

Lemma encode_snoc n cs c : encode_all n (cs ++ [c]) = encode_all n cs ++ zle_encode n c.
Proof. unfold encode_all. rewrite bind_app. cbn. by rewrite app_nil_r. Qed.

Lemma expand_snoc cs c : expand_all (cs ++ [c]) = expand_all cs ++ zle_expand c.
Proof. unfold expand_all. rewrite bind_app. cbn. by rewrite app_nil_r. Qed.

(** ** The loops of the compressor *)

Lemma zero_run_ok fuel s src stop :
  0 <= src <= stop -> stop <= zlen s -> (Z.to_nat (stop - src) < fuel)%nat ->
  exists src', zero_run fuel s src stop = Ok src' /\ src <= src' <= stop /\
    sub_bytes s src src' = replicate (Z.to_nat (src' - src)) 0 /\ (src < stop -> byte s src = 0 -> src < src').
Proof.
  revert src. induction fuel as [|fuel IH]; intros src Hs Hl Hf; [lia|]. cbn [zero_run].
  assert (Hstop : sub_bytes s src src = replicate (Z.to_nat (src - src)) 0) by (by rewrite sub_bytes_nil, Z.sub_diag).
  destruct (Z.ltb_spec src stop); [|exists src; split_and!; try done; lia].
  rewrite get_ok by lia. cbn [mbind res_bind]. destruct (Z.eqb_spec (byte s src) 0) as [E|]; [|by exists src; split_and!; try lia].
  destruct (IH (src + 1)) as (src' & -> & Hr & Hz & _); [lia..|]. exists src'. split_and!; try (done || lia).
  rewrite <- (sub_bytes_app s src (src + 1) src'), sub_bytes_1, Hz, E by lia.
  by replace (Z.to_nat (src' - src)) with (S (Z.to_nat (src' - (src + 1)))) by lia.
Qed.

Lemma literal_run_ok fuel s out rest src stop :
  Forall is_u8 s -> 0 <= src < stop -> stop <= zlen s -> (Z.to_nat (stop - src) <= fuel)%nat -> stop - 1 - src <= zlen rest ->
  exists src' rest', literal_run fuel s (out ++ rest) src (zlen out) stop
      = Ok (src', zlen out + (src' - src), out ++ sub_bytes s src src' ++ rest') /\
    src <= src' < stop /\ zlen rest' = zlen rest - (src' - src) /\ (src' = src -> byte s src <> 0 -> src + 1 = stop).
Proof.
  intros Hu. revert out rest src. induction fuel as [|fuel IH]; intros out rest src Hs Hl Hf Hr; [lia|]. cbn [literal_run].
  assert (Hstop : forall P : Prop, P -> exists src' rest', Ok (src, zlen out, out ++ rest)
      = Ok (src', zlen out + (src' - src), out ++ sub_bytes s src src' ++ rest') /\
    src <= src' < stop /\ zlen rest' = zlen rest - (src' - src) /\ P).
  { intros P HP. exists src, rest. rewrite sub_bytes_nil, Z.sub_diag, Z.add_0_r. by split_and!; try lia. }
  destruct (Z.ltb_spec src (stop - 1)); [|destruct (Hstop (src + 1 = stop)) as (src' & rest' & ? & ? & ? & ?); [lia|by exists src', rest']].
  rewrite !get_ok by lia. cbn [mbind res_bind]. destruct (Z.eqb_spec (Z.lor (byte s src) (byte s (src + 1))) 0) as [E|].
  { apply Z.lor_eq_0_iff in E as [E _]. cbn [negb]. destruct (Hstop (byte s src = 0) E) as (src' & rest' & ? & ? & ? & ?). by exists src', rest'. }
  cbn [negb]. destruct (room_cons rest (stop - 1 - src)) as (r & rest1 & -> & Hr1); [lia..|]. rewrite put_next, wrap8_small by (by apply byte_u8).
  cbn [mbind res_bind]. destruct (IH (out ++ [byte s src]) rest1 (src + 1)) as (src' & rest' & E & Hs' & Hl' & _); [lia..|].
  rewrite length_app in E. cbn [length] in E. rewrite <- app_assoc in E. cbn [app] in E.
  replace (zlen out + 1) with (Z.of_nat (length out + 1)) by lia. rewrite E. exists src', rest'. split_and!; [|lia|lia|cbn [length]; lia|lia].
  rewrite <- app_assoc, (sub_bytes_cons s src src') by lia. cbn [app]. do 3 f_equal. lia.
Qed.

(** What the loop has done: the chunks written expand to the input read. *)
Record zle_state (n : Z) (s d : list Z) (src dst : Z) (cs : list zle_chunk) (rest : list Z) : Prop := {
  zs_d : d = encode_all n cs ++ rest;
  zs_dst : dst = zlen (encode_all n cs);
  zs_src : sub_bytes s 0 src = expand_all cs;
  zs_ok : Forall (zle_chunk_ok n) cs
}.

Lemma zle_state_next n s d src dst cs rest c src' rest' :
  zle_state n s d src dst cs rest -> 0 <= src <= src' -> zle_chunk_ok n c -> zle_expand c = sub_bytes s src src' ->
  zle_state n s (encode_all n cs ++ zle_encode n c ++ rest') src' (dst + zlen (zle_encode n c)) (cs ++ [c]) rest'.
Proof.
  intros [-> -> Hs Hok] Hsrc Hc He. constructor.
  - by rewrite encode_snoc, <- app_assoc.
  - rewrite encode_snoc, length_app. lia.
  - by rewrite expand_snoc, <- Hs, He, sub_bytes_app by lia.
  - apply Forall_app. split; [done|by constructor].
Qed.

(** A run of literals with its length byte. *)
Lemma literal_chunk_ok n s out rest s_len src :
  1 <= n <= 255 -> Forall is_u8 s -> s_len <= zlen s -> 0 <= src < s_len -> byte s src <> 0 -> 1 + n <= zlen rest ->
  exists src1 dst1 d1, literal_run (Z.to_nat n) s (out ++ rest) src (zlen out + 1) (Z.min (src + n) s_len) = Ok (src1, dst1, d1) /\
    get s src1 = Ok (byte s src1) /\
    exists src' dst' d', (if negb (byte s src1 =? 0) then d ← put d1 dst1 (byte s src1); Ok (src1 + 1, dst1 + 1, d)
        else Ok (src1, dst1, d1)) = Ok (src', dst', d') /\
      src < src' <= s_len /\ src' - src <= n /\ dst' = zlen out + 1 + (src' - src) /\
      exists rest', put d' (zlen out) (src' - src - 1) = Ok (out ++ (src' - src - 1) :: sub_bytes s src src' ++ rest') /\
        zlen rest' + 1 + (src' - src) = zlen rest.
Proof.
  intros Hn Hu Hl Hs Hnz Hr. destruct (room_cons rest (1 + n)) as (r & rest1 & -> & Hr1); [lia..|].
  destruct (literal_run_ok (Z.to_nat n) s (out ++ [r]) rest1 src (Z.min (src + n) s_len)) as (src1 & rest2 & E & Hs1 & Hl1 & Hp); [done|lia..|].
  rewrite length_app in E. cbn [length] in E. rewrite <- app_assoc in E. cbn [app] in E.
  replace (zlen out + 1) with (Z.of_nat (length out + 1)) by lia. rewrite E. do 3 eexists. split; [done|]. split; [apply get_ok; lia|].
  assert (Hw : forall v, 0 <= v < 255 -> wrap8 v = v) by (intros; apply wrap8_small; unfold is_u8; lia).
  destruct (Z.eqb_spec (byte s src1) 0) as [Ez|Ez]; cbn [negb].
  - assert (src1 <> src) by (intros ->; done). do 3 eexists. split; [done|]. split_and!; [lia..|].
    exists rest2. rewrite <- !app_assoc. cbn [app]. rewrite put_next, Hw by lia. cbn [length] in *. split; [done|lia].
  - destruct (room_cons rest2 1) as (r2 & rest3 & -> & Hr3); [lia| |].
    { lia. }
    replace (Z.of_nat (length out + 1) + (src1 - src)) with (zlen ((out ++ [r]) ++ sub_bytes s src src1)).
    2:{ rewrite !length_app, !Nat2Z.inj_add, length_sub_bytes by lia. cbn [length]. lia. }
    rewrite app_assoc, put_next. cbn [mbind res_bind]. do 3 eexists. split; [done|].
    rewrite wrap8_small by (by apply byte_u8).
    split_and!; [lia..| |].
    { rewrite !length_app, !Nat2Z.inj_add, length_sub_bytes by lia. cbn [length]. lia. }
    exists rest3. rewrite <- !app_assoc. cbn [app]. rewrite put_next, Hw by lia. cbn [length] in *.
    rewrite sub_bytes_snoc, <- app_assoc by lia. split; [done|lia].
Qed.

Lemma zle_compress_loop_ok fuel n s d s_len d_len src dst cs rest :
  1 <= n <= 255 -> Forall is_u8 s -> s_len <= zlen s ->
  zle_state n s d src dst cs rest -> d_len <= zlen d -> 0 <= src <= s_len -> dst <= d_len -> (Z.to_nat (s_len - src) < fuel)%nat ->
  exists src' dst' d', zle_compress_loop fuel n s d s_len d_len src dst = Ok (src', dst', d') /\ length d' = length d /\
    src' <= s_len /\
    (src' = s_len -> exists cs' rest', zle_state n s d' src' dst' cs' rest' /\ dst' <= d_len).
Proof.
  intros Hn Hu Hl. revert d src dst cs rest. induction fuel as [|fuel IH]; intros d src dst cs rest Hst Hd Hs Hdst Hf; [lia|].
  cbn [zle_compress_loop]. destruct (Z.ltb_spec src s_len) as [Hlt|Hge]; cbn [andb].
  2:{ exists src, dst, d. split_and!; [done..|lia|]. intros _. by exists cs, rest. }
  destruct (Z.ltb_spec dst (d_len - 1)); cbn [andb].
  2:{ exists src, dst, d. split_and!; [done..|lia|lia]. }
  rewrite get_ok by lia. cbn [mbind res_bind].
  assert (Hrest : zlen rest = zlen d - dst) by (rewrite (zs_d _ _ _ _ _ _ _ Hst), (zs_dst _ _ _ _ _ _ _ Hst), length_app; lia).
  destruct (Z.eqb_spec (byte s src) 0) as [E|E].
  - destruct (zero_run_ok (Z.to_nat (257 - n)) s src (Z.min (src + (256 - n)) s_len)) as (src' & -> & Hsrc' & Hz & Hp); [lia..|].
    cbn [mbind res_bind]. specialize (Hp ltac:(lia) E).
    destruct (room_cons rest 1) as (r & rest' & -> & _); [lia..|].
    pose proof (zle_state_next n s d src dst cs _ (Zeros (src' - src)) src' rest' Hst ltac:(lia) ltac:(simpl; lia) (eq_sym Hz)) as Hst'.
    destruct Hst as [-> -> _ _]. rewrite put_next, wrap8_small by (unfold is_u8; lia). cbn [mbind res_bind].
    cbn [zle_encode app length] in Hst'. rewrite length_app in Hd. cbn [length] in Hd.
    destruct (IH _ _ _ _ _ Hst') as (s1 & d1 & b1 & Er & El & Hle & Hfin); [rewrite length_app; cbn [length]; lia|lia..|].
    change (Z.of_nat 1) with 1 in Er. rewrite Er. exists s1, d1, b1. split_and!; [done| |done..]. rewrite El, !length_app. done.
  - destruct (Z.ltb_spec (d_len - (dst + 1)) n) as [|Hroom].
    { exists src, (dst + 1), d. split_and!; [done..|lia|lia]. }
    pose proof Hst as [-> -> _ _].
    destruct (literal_chunk_ok n s (encode_all n cs) rest s_len src) as (src1 & dst1 & d1 & -> & Hg & src' & dst' & d' & Eif & Hs' & Hn' & -> & rest' & Ep & Hr');
      [done|done|done|lia|done|lia|]. cbn [mbind res_bind]. rewrite Hg. cbn [mbind res_bind]. rewrite Eif. cbn [mbind res_bind].
    rewrite Ep. cbn [mbind res_bind].
    assert (Hlen : zlen (sub_bytes s src src') = src' - src) by (rewrite length_sub_bytes; lia).
    pose proof (zle_state_next n s _ src _ cs _ (Literals (sub_bytes s src src')) src' rest' Hst ltac:(lia)
      ltac:(split; [lia|by apply sub_bytes_u8]) eq_refl) as Hst'. cbn [zle_encode app length] in Hst'. rewrite Hlen in Hst'.
    replace (zlen (encode_all n cs) + Z.of_nat (S (length (sub_bytes s src src')))) with (zlen (encode_all n cs) + 1 + (src' - src)) in Hst' by lia.
    rewrite length_app in Hd. assert (Hd' : length (encode_all n cs ++ (src' - src - 1) :: sub_bytes s src src' ++ rest') = length (encode_all n cs ++ rest)).
    { rewrite !length_app. cbn [length]. rewrite length_app. lia. }
    destruct (IH _ _ _ _ _ Hst') as (s1 & d2 & b1 & Er & El & Hle & Hfin); [rewrite Hd', length_app; lia|lia..|].
    rewrite Er. exists s1, d2, b1. split_and!; [done|congruence|done..].
Qed.

(** ** The loops of the decompressor *)

Lemma copy_literals_ok len s out mid rest src :
  Forall is_u8 s -> 0 <= src -> src + Z.of_nat len <= zlen s -> length mid = len ->
  copy_literals len s (out ++ mid ++ rest) src (zlen out) = Ok (out ++ sub_bytes s src (src + Z.of_nat len) ++ rest).
Proof.
  intros Hu. revert out mid src. induction len as [|len IH]; intros out mid src Hs Hl Hm.
  { destruct mid; [|done]. by rewrite Z.add_0_r, sub_bytes_nil. }
  destruct mid as [|r mid]; [done|]. injection Hm as Hm. cbn [copy_literals app]. rewrite get_ok by lia. cbn [mbind res_bind].
  rewrite put_next, wrap8_small by (by apply byte_u8). cbn [mbind res_bind].
  specialize (IH (out ++ [byte s src]) mid (src + 1) ltac:(lia) ltac:(lia) Hm). rewrite length_app, <- app_assoc in IH. cbn [length app] in IH.
  replace (zlen out + 1) with (Z.of_nat (length out + 1)) by lia. rewrite IH, (sub_bytes_cons s src) by lia.
  rewrite <- app_assoc. cbn [app]. do 4 f_equal. f_equal. lia.
Qed.

Lemma write_zeros_ok len out mid rest :
  length mid = len -> write_zeros len (out ++ mid ++ rest) (zlen out) = Ok (out ++ replicate len 0 ++ rest).
Proof.
  revert out mid. induction len as [|len IH]; intros out mid Hm; [by destruct mid|].
  destruct mid as [|r mid]; [done|]. injection Hm as Hm. cbn [write_zeros app]. rewrite put_next. cbn [mbind res_bind]. change (wrap8 0) with 0.
  specialize (IH (out ++ [0]) mid Hm). rewrite length_app, <- app_assoc in IH. cbn [length app] in IH.
  replace (zlen out + 1) with (Z.of_nat (length out + 1)) by lia. rewrite IH, <- app_assoc. done.
Qed.

Lemma zle_decompress_loop_safe fuel n s out mid tail s_len d_len src :
  1 <= n -> Forall is_u8 s -> s_len <= zlen s -> 0 <= src -> zlen (out ++ mid) = d_len -> (Z.to_nat (s_len - src) < fuel)%nat ->
  exists r front, zle_decompress_loop fuel n s (out ++ mid ++ tail) s_len d_len src (zlen out) = Ok (r, front ++ tail) /\
    zlen front = d_len /\ (r = 0 \/ r = -1).
Proof.
  intros Hn Hu Hl. revert out mid src. induction fuel as [|fuel IH]; intros out mid src Hs Hd Hf; [lia|].
  cbn [zle_decompress_loop]. rewrite length_app in Hd.
  assert (Hstop : forall r, r = 0 \/ r = -1 -> exists r' front, Ok (r, out ++ mid ++ tail) = Ok (r', front ++ tail) /\ zlen front = d_len /\ (r' = 0 \/ r' = -1)).
  { intros r Hr. exists r, (out ++ mid). by rewrite <- app_assoc, length_app. }
  destruct (Z.ltb_spec src s_len); cbn [andb]; [|apply Hstop; destruct (_ =? _); lia].
  destruct (Z.ltb_spec (zlen out) d_len); cbn [andb]; [|apply Hstop; destruct (_ =? _); lia].
  rewrite get_ok by lia. cbn [mbind res_bind]. pose proof (byte_u8 s src Hu) as [Hb0 Hb1]. set (b := byte s src) in *. clearbody b.
  destruct (Z.leb_spec (1 + b) n).
  - destruct (Z.ltb_spec s_len (src + 1 + (1 + b))); cbn [orb]; [by apply Hstop; right|].
    destruct (Z.ltb_spec d_len (zlen out + (1 + b))); cbn [orb]; [by apply Hstop; right|].
    destruct (split_at mid (1 + b)) as (m1 & m2 & -> & Hm1); [lia|]. rewrite <- app_assoc, copy_literals_ok by (done || lia). cbn [mbind res_bind].
    set (lits := sub_bytes s (src + 1) _). assert (Hlits : zlen lits = 1 + b) by (unfold lits; rewrite length_sub_bytes; lia).
    destruct (IH (out ++ lits) m2 (src + 1 + (1 + b))) as (r & front & E & Hfr & Hr); [lia|rewrite !length_app in *; lia|lia|].
    rewrite length_app, Nat2Z.inj_add, Hlits, <- app_assoc in E. rewrite E. by exists r, front.
  - destruct (Z.ltb_spec d_len (zlen out + (1 + b - n))); [by apply Hstop; right|].
    destruct (split_at mid (1 + b - n)) as (m1 & m2 & -> & Hm1); [lia|]. rewrite <- app_assoc, write_zeros_ok by lia. cbn [mbind res_bind].
    set (zs := replicate _ 0). assert (Hzs : zlen zs = 1 + b - n) by (unfold zs; rewrite length_replicate; lia).
    destruct (IH (out ++ zs) m2 (src + 1)) as (r & front & E & Hfr & Hr); [lia|rewrite !length_app in *; lia|lia|].
    rewrite length_app, Nat2Z.inj_add, Hzs, <- app_assoc in E. rewrite E. by exists r, front.
Qed.

Lemma zle_expand_pos n c : zle_chunk_ok n c -> 1 <= zlen (zle_expand c).
Proof. destruct c; simpl; [rewrite length_replicate|]; lia. Qed.

Lemma zle_decompress_chunks fuel n pre cs tail out mid rest s_len d_len :
  1 <= n <= 255 -> Forall (zle_chunk_ok n) cs -> Forall is_u8 (pre ++ encode_all n cs ++ tail) ->
  zlen (pre ++ encode_all n cs) <= s_len -> s_len <= zlen (pre ++ encode_all n cs ++ tail) ->
  zlen mid = zlen (expand_all cs) -> d_len = zlen out + zlen mid -> (Z.to_nat (s_len - zlen pre) < fuel)%nat ->
  zle_decompress_loop fuel n (pre ++ encode_all n cs ++ tail) (out ++ mid ++ rest) s_len d_len (zlen pre) (zlen out)
  = Ok (0, out ++ expand_all cs ++ rest).
Proof.
  intros Hn Hcs. revert pre out mid fuel. induction Hcs as [|c cs Hc Hcs IH]; intros pre out mid fuel Hu Hs Hs' Hm Hd Hf; (destruct fuel as [|fuel]; [lia|]).
  { destruct mid; [|done]. cbn [zle_decompress_loop length] in *. rewrite (proj2 (Z.ltb_ge (zlen out) d_len)), andb_false_r by lia.
    by rewrite (proj2 (Z.eqb_eq _ _)) by lia. }
  cbn [zle_decompress_loop]. change (encode_all n (c :: cs)) with (zle_encode n c ++ encode_all n cs) in *.
  change (expand_all (c :: cs)) with (zle_expand c ++ expand_all cs) in *.
  pose proof (zle_expand_pos n c Hc) as Hpos. rewrite <- app_assoc in Hu, Hs' |- *. app_len.
  assert (Henc : 1 <= zlen (zle_encode n c)) by (destruct c; cbn [zle_encode length]; lia).
  rewrite (proj2 (Z.ltb_lt (zlen pre) s_len)), (proj2 (Z.ltb_lt (zlen out) d_len)) by lia. cbn [andb].
  rewrite get_ok by (rewrite !length_app; lia). cbn [mbind res_bind].
  rewrite byte_app_r, Z.sub_diag by lia.
  destruct (split_at mid (zlen (zle_expand c))) as (m1 & m2 & -> & Hm1); [lia|]. rewrite <- (app_assoc m1).
  rewrite length_app in Hm, Hd. destruct c as [k|bs]; cbn [zle_encode zle_expand zle_chunk_ok app length] in *.
  - change (byte (k - 1 + n :: _) 0) with (k - 1 + n). rewrite length_replicate in *. rewrite (proj2 (Z.leb_gt _ n)) by lia.
    replace (1 + (k - 1 + n) - n) with k by lia. rewrite (proj2 (Z.ltb_ge _ _)), write_zeros_ok by lia. cbn [mbind res_bind].
    specialize (IH (pre ++ [k - 1 + n]) (out ++ replicate (Z.to_nat k) 0) m2 fuel). rewrite <- !app_assoc in IH. cbn [app] in IH.
    rewrite !length_app, length_replicate in IH. cbn [length] in IH.
    replace (zlen pre + 1) with (Z.of_nat (length pre + 1)) by lia. replace (zlen out + k) with (Z.of_nat (length out + Z.to_nat k)) by lia.
    rewrite IH; [by rewrite <- app_assoc|done|app_len; lia..].
  - destruct Hc as [Hbs Hbu]. change (byte (zlen bs - 1 :: _) 0) with (zlen bs - 1). replace (1 + (zlen bs - 1)) with (zlen bs) by lia.
    rewrite (proj2 (Z.leb_le _ n)), !(proj2 (Z.ltb_ge _ _)) by lia. cbn [orb]. rewrite Nat2Z.id.
    specialize (IH (pre ++ zlen bs - 1 :: bs) (out ++ bs) m2 fuel). rewrite <- !app_assoc in IH. cbn [app] in IH. rewrite <- ?app_assoc in IH.
    rewrite !length_app in IH. cbn [length] in IH.
    rewrite copy_literals_ok; [|done|lia|rewrite !length_app; cbn [length]; rewrite length_app; lia|lia]. cbn [mbind res_bind].
    replace (sub_bytes _ (zlen pre + 1) _) with bs.
    2:{ unfold sub_bytes. replace (Z.to_nat (zlen pre + 1)) with (length pre + 1)%nat by lia. rewrite <- drop_drop, drop_app_length.
        cbn [drop]. replace (Z.to_nat _) with (length bs) by lia. by rewrite drop_0, take_app_length. }
    replace (zlen pre + 1 + zlen bs) with (Z.of_nat (length pre + S (length bs))) by lia. replace (zlen out + zlen bs) with (Z.of_nat (length out + length bs)) by lia.
    rewrite IH; [by rewrite <- app_assoc|done|app_len; lia..].
Qed.

Lemma encode_nonempty n cs : 0 < zlen (expand_all cs) -> 0 < zlen (encode_all n cs).
Proof. destruct cs as [|c cs]; [done|]. intros _. destruct c; cbn; lia. Qed.

Lemma zle_compress_restores n s d s_len d_len :
  1 <= n <= 255 -> Forall is_u8 s -> 0 <= s_len <= zlen s -> 0 <= d_len <= zlen d ->
  exists c_len d', zle_compress s d s_len d_len n = Ok (c_len, d') /\ length d' = length d /\
    (c_len < s_len -> 0 < c_len <= d_len /\ restores (fun z o z_len o_len => zle_decompress z o z_len o_len n) s s_len d' c_len).
Proof.
  intros Hn Hu Hs Hd.
  assert (H0 : zle_state n s d 0 0 [] d) by (constructor; rewrite ?sub_bytes_nil; done).
  destruct (zle_compress_loop_ok (S (Z.to_nat s_len)) n s d s_len d_len 0 0 [] d) as (src & dst & d' & E & El & Hle & Hfin); [done|done|lia|done|lia..|].
  unfold zle_compress. rewrite E. cbn [mbind res_bind]. do 2 eexists. split; [done|]. split; [done|].
  destruct (Z.eqb_spec src s_len) as [->|]; [|lia]. intros Hc. destruct (Hfin eq_refl) as (cs & rest & [Ed Edst Esrc Hok] & Hfit). rewrite sub_bytes_0 in Esrc.
  assert (Hex : zlen (expand_all cs) = s_len) by (rewrite <- Esrc, length_take; lia).
  split; [split; [|done]; rewrite Edst; apply encode_nonempty; lia|]. intros z o z_len Hz Ez Hzl Ho.
  assert (Ez' : z = encode_all n cs ++ drop (Z.to_nat dst) z).
  { rewrite <- (take_drop (Z.to_nat dst) z) at 1. f_equal. rewrite Ez, Ed, Edst, Nat2Z.id. apply take_app_length. }
  destruct (split_at o s_len) as (m1 & m2 & -> & Hm1); [lia|].
  pose proof (zle_decompress_chunks (S (Z.to_nat z_len)) n [] cs (drop (Z.to_nat dst) z) [] m1 m2 z_len s_len) as H. cbn [app length] in H.
  rewrite <- Ez' in H. unfold zle_decompress. change (Z.of_nat 0) with 0 in H. rewrite H by (done || lia).
  rewrite Esrc. do 2 f_equal. replace (Z.to_nat s_len) with (length m1) by lia. by rewrite drop_app_length.
Qed.

#[export] Instance zle_codec n : 1 <= n <= 255 -> Codec (fun _ => zle_compress) (fun _ => zle_decompress) n.
Proof.
  intros Hn. apply codec_intro. intros _ s d s_len Hu Hb Hs Hd. destruct (compress_room s_len Hb) as [H8 E8]. unfold block_size in Hb.
  destruct (zle_compress_restores n s d s_len (s_len - Z.shiftr s_len 3)) as (c & d' & E & El & Hc); [done|done|lia|lia|].
  exists c, d'. split_and!; [done..|]. intros Hlt. destruct (Hc Hlt) as [Hle Hr]. split; [done|]. intros _. exact Hr.
Qed.

(** ** Properties *)

(** C30: whatever [zle_compress] writes when it makes a block smaller fits in the
    target and expands to the block again, also from a larger buffer that only
    starts with it. *)
Theorem zle_roundtrip n s d s_len d_len :
  1 <= n <= 255 -> Forall is_u8 s -> 0 <= s_len <= zlen s -> 0 <= d_len <= zlen d ->
  exists c_len d', zle_compress s d s_len d_len n = Ok (c_len, d') /\ length d' = length d /\
    (c_len < s_len -> 0 < c_len <= d_len /\
      forall z o z_len, Forall is_u8 z -> take (Z.to_nat c_len) z = take (Z.to_nat c_len) d' -> c_len <= z_len <= zlen z -> s_len <= zlen o ->
        zle_decompress z o z_len s_len n = Ok (0, take (Z.to_nat s_len) s ++ drop (Z.to_nat s_len) o)).
Proof. apply zle_compress_restores. Qed.

(** [zle_decompress] returns on any input, reads only the input and writes
    only the first [d_len] bytes of the output. *)
Theorem zle_decompress_safe n s d s_len d_len :
  1 <= n -> Forall is_u8 s -> s_len <= zlen s -> 0 <= d_len <= zlen d ->
  exists r d', zle_decompress s d s_len d_len n = Ok (r, d') /\ (r = 0 \/ r = -1) /\ length d' = length d /\
    drop (Z.to_nat d_len) d' = drop (Z.to_nat d_len) d.
Proof.
  intros Hn Hu Hs Hd. destruct (split_at d d_len) as (m1 & m2 & -> & Hm1); [lia|].
  destruct (zle_decompress_loop_safe (S (Z.to_nat s_len)) n s [] m1 m2 s_len d_len 0) as (r & front & E & Hf & Hr); [done|done|done|lia|done|lia|].
  exists r, (front ++ m2). split; [exact E|]. split; [done|]. rewrite !length_app. split; [lia|].
  replace (Z.to_nat d_len) with (length front) at 1 by lia. replace (Z.to_nat d_len) with (length m1) by lia. by rewrite !drop_app_length.
Qed.

Module Example.

Definition block : list Z := [1; 2; 0; 3; 0; 0] ++ replicate 40 0 ++ [9; 0; 0; 0; 0; 0; 0; 0].

Lemma zle_roundtrip_witness :
  exists d', zle_compress block (replicate 54 7) 54 50 8 = Ok (9, d') /\
    zle_decompress d' (replicate 54 7) 20 54 8 = Ok (0, block).
Proof.
  destruct (zle_roundtrip 8 block (replicate 54 7) 54 50) as (c & d' & E & El & Hrt).
  - lia.
  - repeat (constructor; [split; vm_compute; done|]). constructor.
  - vm_compute. split; discriminate.
  - vm_compute. split; discriminate.
  - vm_compute in E. injection E as <- <-. eexists. split; [vm_compute; reflexivity|].
    apply Hrt; [lia| |reflexivity|vm_compute; split; discriminate|vm_compute; discriminate].
    repeat (constructor; [split; vm_compute; done|]). constructor.
Defined.

Lemma zle_decompress_safe_witness :
  exists r d', zle_decompress [200; 63; 1; 2; 3] (replicate 10 7) 5 6 64 = Ok (r, d') /\ drop 6 d' = [7; 7; 7; 7].
Proof.
  destruct (zle_decompress_safe 64 [200; 63; 1; 2; 3] (replicate 10 7) 5 6) as (r & d' & E & _ & _ & Hd).
  - lia.
  - repeat (constructor; [split; vm_compute; done|]). constructor.
  - vm_compute. discriminate.
  - vm_compute. split; discriminate.
  - exists r, d'. split; [exact E|exact Hd].
Defined.

End Example.
