(* ===== verification/Lzjb.v ===== *)
(** * The LZJB compressor: [module/zfs/lzjb.c]

    A compressed block is a sequence of items in groups of eight.  A group starts
    with a byte whose bits say which of its items are copies of earlier output,
    given by distance and length, and which are literal bytes.  The compressor
    finds copies with a table of 16-bit addresses, so what it writes depends on
    the address of its source; that it can be expanded again does not. *)

From S2P Require Import Prelude Bits Buffer Codec.

Definition NBBY : Z := 8.
Definition MATCH_BITS : Z := 6.
Definition MATCH_MIN : Z := 3.
Definition MATCH_MAX : Z := Z.shiftl 1 MATCH_BITS + (MATCH_MIN - 1).
Definition OFFSET_MASK : Z := Z.shiftl 1 (16 - MATCH_BITS) - 1.
Definition LEMPEL_SIZE : Z := 1024.

(** ** Compression *)

Definition same_byte (s : list Z) (i j : Z) : res bool := a ← get s i; b ← get s j; Ok (a =? b).

(** [src[0] == cpy[0] && src[1] == cpy[1] && src[2] == cpy[2]] *)
Definition same3 (s : list Z) (src cpy : Z) : res bool :=
  b0 ← same_byte s src cpy;
  if b0 : bool then
    b1 ← same_byte s (src + 1) (cpy + 1);
    if b1 : bool then same_byte s (src + 2) (cpy + 2) else Ok false
  else Ok false.

(** [for (; mlen < MATCH_MAX; mlen++) if (src[mlen] != cpy[mlen]) break;] *)
Fixpoint match_length (fuel : nat) (s : list Z) (src cpy mlen : Z) : res Z :=
  match fuel with
  | O => Panic
  | S fuel' =>
      if mlen <? MATCH_MAX then
        b ← same_byte s (src + mlen) (cpy + mlen);
        if b : bool then match_length fuel' s src cpy (mlen + 1) else Ok mlen
      else Ok mlen
  end.

Definition lzjb_hash (a0 a1 a2 : Z) : Z :=
  let hash := Z.shiftl a0 16 + Z.shiftl a1 8 + a2 in
  let hash := hash + Z.shiftr hash 9 in
  hash + Z.shiftr hash 5.

(** The part of the loop after the group byte; [s_addr] is the address of the
    source buffer. *)
Definition lzjb_item (s_addr : Z) (s d : list Z) (s_len src dst copymap copymask : Z) (lempel : list Z)
    : res (Z * Z * list Z * list Z) :=
  if s_len - MATCH_MAX <? src then
    a ← get s src; d ← put d dst a; Ok (src + 1, dst + 1, d, lempel)
  else
    a0 ← get s src; a1 ← get s (src + 1); a2 ← get s (src + 2);
    let hp := Z.to_nat (Z.land (lzjb_hash a0 a1 a2) (LEMPEL_SIZE - 1)) in
    old ← deref (lempel !! hp);
    let offset := Z.land (s_addr + src - old) OFFSET_MASK in
    let lempel := <[hp := (s_addr + src) mod 65536]> lempel in
    let cpy := src - offset in
    found ← (if (0 <=? cpy) && negb (cpy =? src) then same3 s src cpy else Ok false);
    if found : bool then
      map ← get d copymap; d ← put d copymap (Z.lor map copymask);
      mlen ← match_length (Z.to_nat MATCH_MAX) s src cpy MATCH_MIN;
      d ← put d dst (Z.lor (Z.shiftl (mlen - MATCH_MIN) (NBBY - MATCH_BITS)) (Z.shiftr offset NBBY));
      d ← put d (dst + 1) offset;
      Ok (src + mlen, dst + 2, d, lempel)
    else
      d ← put d dst a0; Ok (src + 1, dst + 1, d, lempel).

(** The loop; the result is what [lzjb_compress] returns. *)
Fixpoint lzjb_compress_loop (fuel : nat) (s_addr : Z) (s d : list Z) (s_len d_len src dst copymap copymask : Z)
    (lempel : list Z) : res (Z * list Z) :=
  match fuel with
  | O => Panic
  | S fuel' =>
      if src <? s_len then
        let copymask := Z.shiftl copymask 1 in
        if copymask =? Z.shiftl 1 NBBY then
          if d_len - 1 - 2 * NBBY <=? dst then Ok (s_len, d)
          else
            d ← put d dst 0;
            '(src, dst', d, lempel) ← lzjb_item s_addr s d s_len src (dst + 1) dst 1 lempel;
            lzjb_compress_loop fuel' s_addr s d s_len d_len src dst' dst 1 lempel
        else
          '(src, dst, d, lempel) ← lzjb_item s_addr s d s_len src dst copymap copymask lempel;
          lzjb_compress_loop fuel' s_addr s d s_len d_len src dst copymap copymask lempel
      else Ok (dst, d)
  end.

(** The group pointer starts null, the table zero. *)
Definition lzjb_compress (s_addr : Z) (s d : list Z) (s_len d_len n : Z) : res (Z * list Z) :=
  lzjb_compress_loop (S (Z.to_nat s_len)) s_addr s d s_len d_len 0 0 (-1) (Z.shiftl 1 (NBBY - 1))
    (replicate (Z.to_nat LEMPEL_SIZE) 0).

(** ** Decompression *)

(** [while (--mlen >= 0 && dst < d_end) *dst++ = *cpy++;] *)
Fixpoint copy_match (mlen : nat) (d : list Z) (d_len dst cpy : Z) : res (Z * list Z) :=
  match mlen with
  | O => Ok (dst, d)
  | S mlen' =>
      if dst <? d_len then
        a ← get d cpy; d ← put d dst a; copy_match mlen' d d_len (dst + 1) (cpy + 1)
      else Ok (dst, d)
  end.

Fixpoint lzjb_decompress_loop (fuel : nat) (s d : list Z) (d_len src dst copymap copymask : Z) : res (Z * list Z) :=
  match fuel with
  | O => Panic
  | S fuel' =>
      if dst <? d_len then
        let copymask := Z.shiftl copymask 1 in
        '(copymask, copymap, src) ←
          (if copymask =? Z.shiftl 1 NBBY then m ← get s src; Ok (1, m, src + 1) else Ok (copymask, copymap, src));
        if negb (Z.land copymap copymask =? 0) then
          a0 ← get s src; a1 ← get s (src + 1);
          let mlen := Z.shiftr a0 (NBBY - MATCH_BITS) + MATCH_MIN in
          let offset := Z.land (Z.lor (Z.shiftl a0 NBBY) a1) OFFSET_MASK in
          let src := src + 2 in
          let cpy := dst - offset in
          if cpy <? 0 then Ok (-1, d)
          else
            '(dst, d) ← copy_match (Z.to_nat mlen) d d_len dst cpy;
            lzjb_decompress_loop fuel' s d d_len src dst copymap copymask
        else
          a ← get s src; d ← put d dst a;
          lzjb_decompress_loop fuel' s d d_len (src + 1) (dst + 1) copymap copymask
      else Ok (0, d)
  end.

Definition lzjb_decompress (s d : list Z) (s_len d_len n : Z) : res (Z * list Z) :=
  lzjb_decompress_loop (S (Z.to_nat d_len)) s d d_len 0 0 0 (Z.shiftl 1 (NBBY - 1)).

(** ** Items and groups *)

Inductive lz_item : Type :=
| Lit (b : Z)
| Copy (off len : Z).

Definition is_copy (it : lz_item) : bool := match it with Lit _ => false | Copy _ _ => true end.

Definition item_bytes (it : lz_item) : list Z :=
  match it with Lit b => [b] | Copy off len => [4 * (len - 3) + off / 256; off mod 256] end.

Definition expand_item (out : list Z) (it : lz_item) : list Z :=
  match it with Lit b => out ++ [b] | Copy off len => lz_copy (Z.to_nat len) out off end.

Definition expand_items (its : list lz_item) (out : list Z) : list Z := foldl expand_item out its.

Definition item_ok (out : list Z) (it : lz_item) : Prop :=
  match it with Lit b => is_u8 b | Copy off len => 0 < off <= 1023 /\ off <= zlen out /\ 3 <= len <= 66 end.

Fixpoint items_ok (out : list Z) (its : list lz_item) : Prop :=
  match its with [] => True | it :: its' => item_ok out it /\ items_ok (expand_item out it) its' end.

(** The byte of a group: bit [i] is set when item [i] is a copy. *)
Fixpoint group_map (g : list lz_item) : Z :=
  match g with [] => 0 | it :: g' => Z.b2z (is_copy it) + 2 * group_map g' end.

Definition group_bytes (g : list lz_item) : list Z := group_map g :: (it ← g; item_bytes it).

Definition stream (gs : list (list lz_item)) : list Z := g ← gs; group_bytes g.

Lemma items_ok_app out its1 its2 : items_ok out (its1 ++ its2) <-> items_ok out its1 /\ items_ok (expand_items its1 out) its2.
Proof. revert out. induction its1 as [|it its1 IH]; intros out; simpl; [tauto|]. rewrite IH. tauto. Qed.

Lemma expand_items_app its1 its2 out : expand_items (its1 ++ its2) out = expand_items its2 (expand_items its1 out).
Proof. apply foldl_app. Qed.

Lemma group_map_range g : 0 <= group_map g < 2 ^ zlen g.
Proof.
  induction g as [|it g IH]; [by simpl|]. cbn [group_map length]. rewrite Nat2Z.inj_succ, Z.pow_succ_r by lia.
  destruct (is_copy it); simpl; lia.
Qed.

Lemma group_map_snoc g it : group_map (g ++ [it]) = group_map g + Z.b2z (is_copy it) * 2 ^ zlen g.
Proof.
  induction g as [|i g IH]; cbn [app group_map length]; [simpl; lia|]. rewrite IH, Nat2Z.inj_succ, Z.pow_succ_r by lia. lia.
Qed.

Lemma group_map_bit g1 it g2 : Z.testbit (group_map (g1 ++ it :: g2)) (zlen g1) = is_copy it.
Proof.
  induction g1 as [|i g1 IH]; cbn [app group_map length].
  - change (Z.of_nat 0) with 0. rewrite Z.add_b2z_double_bit0. done.
  - rewrite Nat2Z.inj_succ, Z.add_comm, Z.testbit_succ_r by lia. done.
Qed.

(** ** The compressor writes groups of items *)

Lemma same_byte_ok s i j : 0 <= i < zlen s -> 0 <= j < zlen s -> same_byte s i j = Ok (byte s i =? byte s j).
Proof. intros Hi Hj. unfold same_byte. by rewrite !get_ok by lia. Qed.

Lemma same3_ok s src cpy :
  0 <= cpy <= src -> src + 3 <= zlen s -> exists b : bool, same3 s src cpy = Ok b /\ (b = true -> agree s src cpy 3).
Proof.
  intros Hc Hs. assert (H0 : agree s src cpy 0) by (intros k Hk; lia).
  unfold same3. rewrite !same_byte_ok by lia. cbn [mbind res_bind].
  destruct (Z.eqb_spec (byte s src) (byte s cpy)) as [E0|]; [|by exists false].
  destruct (Z.eqb_spec (byte s (src + 1)) (byte s (cpy + 1))) as [E1|]; [|by exists false].
  eexists. split; [done|]. intros E2%Z.eqb_eq.
  apply (agree_snoc s src cpy 2), E2. apply (agree_snoc s src cpy 1), E1. apply (agree_snoc s src cpy 0); [done|].
  by rewrite !Z.add_0_r.
Qed.

Lemma match_length_ok fuel s src cpy mlen :
  0 <= cpy <= src -> src + 66 <= zlen s -> 0 <= mlen <= 66 -> agree s src cpy mlen -> (Z.to_nat (66 - mlen) < fuel)%nat ->
  exists mlen', match_length fuel s src cpy mlen = Ok mlen' /\ mlen <= mlen' <= 66 /\ agree s src cpy mlen'.
Proof.
  intros Hc Hs. revert mlen. induction fuel as [|fuel IH]; intros mlen Hm Ha Hf; [lia|].
  cbn [match_length]. change MATCH_MAX with 66. destruct (Z.ltb_spec mlen 66); [|by exists mlen; split_and!; try lia].
  rewrite same_byte_ok by lia. cbn [mbind res_bind]. destruct (Z.eqb_spec (byte s (src + mlen)) (byte s (cpy + mlen))) as [E|].
  - destruct (IH (mlen + 1)) as (m' & -> & Hm' & Ha'); [lia|by apply agree_snoc|lia|]. exists m'. split_and!; [done|lia..|done].
  - by exists mlen; split_and!; try lia.
Qed.

(** A match found is a copy that reproduces the source. *)
Lemma copy_item_ok s src off mlen :
  0 < off <= 1023 -> off <= src -> 3 <= mlen <= 66 -> src + mlen <= zlen s -> agree s src (src - off) mlen ->
  item_ok (take (Z.to_nat src) s) (Copy off mlen) /\
  expand_item (take (Z.to_nat src) s) (Copy off mlen) = take (Z.to_nat (src + mlen)) s.
Proof.
  intros Ho Hs Hm Hl Ha. split.
  - cbn [item_ok]. rewrite length_take. lia.
  - cbn [expand_item]. apply lz_copy_source; [lia..|]. intros j Hj. rewrite (Ha j Hj). f_equal. lia.
Qed.

Lemma lit_item_ok s src :
  Forall is_u8 s -> 0 <= src < zlen s ->
  item_ok (take (Z.to_nat src) s) (Lit (byte s src)) /\
  expand_item (take (Z.to_nat src) s) (Lit (byte s src)) = take (Z.to_nat (src + 1)) s.
Proof. intros Hu Hs. split; [by apply byte_u8|]. symmetry. by apply take_byte_S. Qed.

(** Writing an item that is a literal, or a copy with its bit in the group byte. *)
Lemma put_literal pre g rest v :
  is_u8 v -> 1 <= zlen rest ->
  exists rest', put (pre ++ group_bytes g ++ rest) (zlen (pre ++ group_bytes g)) v = Ok (pre ++ group_bytes (g ++ [Lit v]) ++ rest') /\
    zlen rest' = zlen rest - 1.
Proof.
  intros Hv Hr. destruct (room_cons rest 1) as (r & rest' & -> & _); [lia..|]. exists rest'.
  rewrite app_assoc, put_next, wrap8_small by done. split; [|cbn [length]; lia].
  unfold group_bytes. rewrite bind_app, group_map_snoc. cbn [mbind list_bind is_copy Z.b2z item_bytes app]. rewrite Z.mul_0_l, Z.add_0_r.
  by rewrite <- !app_assoc.
Qed.

Lemma lor_group_bit g : Z.lor (group_map g) (2 ^ zlen g) = group_map g + 2 ^ zlen g.
Proof.
  rewrite <- Z.add_nocarry_lor; [done|]. apply Z.bits_inj'. intros n Hn. rewrite Z.land_spec, Z.pow2_bits_eqb, Z.bits_0 by lia.
  destruct (Z.eqb_spec (zlen g) n) as [<-|]; [|apply andb_false_r]. rewrite andb_true_r.
  pose proof (group_map_range g). apply Z.testbit_false; [lia|]. rewrite Z.div_small; [done|lia].
Qed.

Lemma put_copy pre g rest off len :
  (length g < 8)%nat -> 0 < off <= 1023 -> 3 <= len <= 66 -> 2 <= zlen rest ->
  exists map d1 d2 rest', get (pre ++ group_bytes g ++ rest) (zlen pre) = Ok map /\
    put (pre ++ group_bytes g ++ rest) (zlen pre) (Z.lor map (2 ^ zlen g)) = Ok d1 /\
    put d1 (zlen (pre ++ group_bytes g)) (Z.lor (Z.shiftl (len - MATCH_MIN) (NBBY - MATCH_BITS)) (Z.shiftr off NBBY)) = Ok d2 /\
    put d2 (zlen (pre ++ group_bytes g) + 1) off = Ok (pre ++ group_bytes (g ++ [Copy off len]) ++ rest') /\
    zlen rest' = zlen rest - 2.
Proof.
  intros Hg Ho Hlen Hr. destruct (room_cons rest 2) as (r0 & rest0 & -> & Hr0); [lia..|].
  destruct (room_cons rest0 1) as (r1 & rest' & -> & _); [lia..|].
  set (m := group_map g). set (body := it ← g; item_bytes it). change (group_bytes g) with (m :: body).
  pose proof (group_map_range g) as Hm. assert (Hk : 2 ^ zlen g <= 2 ^ 7) by (apply Z.pow_le_mono_r; lia). change (2 ^ 7) with 128 in Hk.
  set (m' := m + 2 ^ zlen g). set (b0 := 4 * (len - 3) + off / 256).
  assert (Hq : 0 <= off / 256 < 4) by (split; [apply Z.div_pos|apply Z.div_lt_upper_bound]; lia).
  exists m, (pre ++ m' :: body ++ r0 :: r1 :: rest'), (pre ++ m' :: body ++ b0 :: r1 :: rest'), rest'. split_and!.
  - rewrite get_ok by (app_len; lia). by rewrite byte_app_r, Z.sub_diag by lia.
  - cbn [app]. unfold m. by rewrite put_next, lor_group_bit, wrap8_small by (unfold is_u8; lia).
  - assert (Eo : Z.shiftr off NBBY = off / 256) by (by apply Z.shiftr_div_pow2).
    replace (Z.lor _ _) with b0; [|rewrite Eo; change (NBBY - MATCH_BITS) with 2; rewrite lor_shiftl_add by (done || lia); unfold b0; change MATCH_MIN with 3; lia].
    change (m' :: body ++ r0 :: r1 :: rest') with ((m' :: body) ++ r0 :: r1 :: rest'). rewrite app_assoc.
    replace (zlen (pre ++ m :: body)) with (zlen (pre ++ m' :: body)) by (by app_len). rewrite put_next, wrap8_small by (unfold is_u8, b0; lia).
    by rewrite <- app_assoc.
  - replace (zlen (pre ++ m :: body) + 1) with (zlen (pre ++ m' :: body ++ [b0])) by (app_len; lia).
    replace (pre ++ m' :: body ++ b0 :: r1 :: rest') with ((pre ++ m' :: body ++ [b0]) ++ r1 :: rest') by (app_norm; done). rewrite put_next.
    unfold group_bytes. rewrite bind_app, group_map_snoc. cbn [mbind list_bind is_copy Z.b2z item_bytes app]. fold body m b0.
    rewrite Z.mul_1_l. fold m'. change (wrap8 off) with (off mod 256). app_norm. done.
  - app_len. lia.
Qed.

Lemma lzjb_hash_slot a0 a1 a2 (lempel : list Z) :
  length lempel = Z.to_nat LEMPEL_SIZE -> exists old, lempel !! Z.to_nat (Z.land (lzjb_hash a0 a1 a2) (LEMPEL_SIZE - 1)) = Some old.
Proof.
  intros Hl. apply lookup_lt_is_Some_2. rewrite Hl. change (LEMPEL_SIZE - 1) with (Z.ones 10). rewrite Z.land_ones by lia.
  pose proof (Z.mod_pos_bound (lzjb_hash a0 a1 a2) (2 ^ 10)). change LEMPEL_SIZE with 1024. change (2 ^ 10) with 1024 in *. lia.
Qed.

Lemma length_put_literal pre g v (rest rest' : list Z) :
  zlen rest' = zlen rest - 1 -> length (pre ++ group_bytes (g ++ [Lit v]) ++ rest') = length (pre ++ group_bytes g ++ rest) /\
  zlen (pre ++ group_bytes (g ++ [Lit v])) = zlen (pre ++ group_bytes g) + 1.
Proof. intros H. unfold group_bytes. rewrite bind_app. cbn [mbind list_bind item_bytes app]. app_len. lia. Qed.

Lemma length_put_copy pre g off len (rest rest' : list Z) :
  zlen rest' = zlen rest - 2 -> length (pre ++ group_bytes (g ++ [Copy off len]) ++ rest') = length (pre ++ group_bytes g ++ rest) /\
  zlen (pre ++ group_bytes (g ++ [Copy off len])) = zlen (pre ++ group_bytes g) + 2.
Proof. intros H. unfold group_bytes. rewrite bind_app. cbn [mbind list_bind item_bytes app]. app_len. lia. Qed.

(** One turn of the loop adds an item that continues the output with the next
    bytes of the source. *)
Definition item_added (s : list Z) (s_len src : Z) (pre : list Z) (g : list lz_item) (d : list Z) (r : Z * Z * list Z * list Z) : Prop :=
  let '(src', dst', d', lempel') := r in
  exists it rest', d' = pre ++ group_bytes (g ++ [it]) ++ rest' /\ dst' = zlen (pre ++ group_bytes (g ++ [it])) /\ length d' = length d /\
    length lempel' = Z.to_nat LEMPEL_SIZE /\ src < src' <= s_len /\
    item_ok (take (Z.to_nat src) s) it /\ expand_item (take (Z.to_nat src) s) it = take (Z.to_nat src') s.

Lemma literal_added s s_len src pre g rest lempel :
  Forall is_u8 s -> 0 <= src < s_len -> s_len <= zlen s -> 1 <= zlen rest -> length lempel = Z.to_nat LEMPEL_SIZE ->
  exists d', put (pre ++ group_bytes g ++ rest) (zlen (pre ++ group_bytes g)) (byte s src) = Ok d' /\
    item_added s s_len src pre g (pre ++ group_bytes g ++ rest) (src + 1, zlen (pre ++ group_bytes g) + 1, d', lempel).
Proof.
  intros Hu Hs Hl Hr Hlem. destruct (put_literal pre g rest (byte s src)) as (rest' & E & Hr'); [by apply byte_u8|done|].
  eexists. split; [exact E|]. destruct (length_put_literal pre g (byte s src) _ _ Hr') as [H1 H2].
  exists (Lit (byte s src)), rest'. destruct (lit_item_ok s src Hu) as [Hi He]; [lia|]. split_and!; try done; lia.
Qed.

Lemma lzjb_item_ok s_addr s pre g rest s_len src lempel :
  Forall is_u8 s -> 0 <= src < s_len -> s_len <= zlen s -> (length g < 8)%nat -> 2 <= zlen rest -> length lempel = Z.to_nat LEMPEL_SIZE ->
  exists r, lzjb_item s_addr s (pre ++ group_bytes g ++ rest) s_len src (zlen (pre ++ group_bytes g)) (zlen pre) (2 ^ zlen g) lempel = Ok r /\
    item_added s s_len src pre g (pre ++ group_bytes g ++ rest) r.
Proof.
  intros Hu Hs Hl Hg Hr Hlem. unfold lzjb_item. change (s_len - MATCH_MAX) with (s_len - 66). destruct (Z.ltb_spec (s_len - 66) src) as [Hnear|Hfar].
  { rewrite get_ok by lia. cbn [mbind res_bind]. destruct (literal_added s s_len src pre g rest lempel) as (d' & E & H); [done|done|done|lia|done|].
    rewrite E. by eexists. }
  rewrite (get_ok s src), (get_ok s (src + 1)), (get_ok s (src + 2)) by lia. cbn [mbind res_bind].
  destruct (lzjb_hash_slot (byte s src) (byte s (src + 1)) (byte s (src + 2)) lempel Hlem) as [old Eold]. rewrite Eold. cbn [deref mbind res_bind].
  set (off := Z.land (s_addr + src - old) OFFSET_MASK). set (hp := Z.to_nat _).
  assert (Hoff : 0 <= off <= 1023).
  { unfold off. change OFFSET_MASK with (Z.ones 10). rewrite Z.land_ones by lia. pose proof (Z.mod_pos_bound (s_addr + src - old) (2 ^ 10)).
    change (2 ^ 10) with 1024 in *. lia. }
  clearbody off. set (lempel' := <[hp := _]> lempel). assert (Hlem' : length lempel' = Z.to_nat LEMPEL_SIZE) by (unfold lempel'; by rewrite length_insert).
  assert (Hf : exists b : bool, (if (0 <=? src - off) && negb (src - off =? src) then same3 s src (src - off) else Ok false) = Ok b /\
    (b = true -> 0 < off <= src /\ agree s src (src - off) 3)).
  { destruct (Z.leb_spec 0 (src - off)); cbn [andb]; [|by exists false]. destruct (Z.eqb_spec (src - off) src); cbn [negb]; [by exists false|].
    destruct (same3_ok s src (src - off)) as (b & -> & Hb); [lia..|]. exists b. split; [done|]. intros Eb. split; [lia|by apply Hb]. }
  destruct Hf as ([|] & -> & Hf); cbn [mbind res_bind].
  - destruct (Hf eq_refl) as [Ho Ha]. destruct (match_length_ok (Z.to_nat MATCH_MAX) s src (src - off) MATCH_MIN) as (mlen & Em & Hm & Ham);
      [lia|lia|by vm_compute|done|change MATCH_MAX with 66; change MATCH_MIN with 3; lia|]. change MATCH_MIN with 3 in Hm.
    destruct (put_copy pre g rest off mlen) as (map & d1 & d2 & rest' & E1 & E2 & E3 & E4 & Hr'); [done|lia..|].
    rewrite E1. cbn [mbind res_bind]. rewrite E2. cbn [mbind res_bind]. rewrite Em. cbn [mbind res_bind]. rewrite E3. cbn [mbind res_bind].
    rewrite E4. cbn [mbind res_bind]. eexists. split; [done|]. destruct (length_put_copy pre g off mlen _ _ Hr') as [H1 H2].
    destruct (copy_item_ok s src off mlen) as [Hi He]; [lia..|done|]. exists (Copy off mlen), rest'. split_and!; try done; lia.
  - destruct (literal_added s s_len src pre g rest lempel') as (d' & E & H); [done|done|done|lia|done|]. rewrite E. by eexists.
Qed.

(** ** The loop *)

(** Groups before the last are full. *)
Fixpoint groups_ok (gs : list (list lz_item)) : Prop :=
  match gs with
  | [] => True
  | [g] => (1 <= length g <= 8)%nat
  | g :: gs' => length g = 8%nat /\ groups_ok gs'
  end.

Lemma groups_ok_snoc gs g : Forall (fun g => length g = 8%nat) gs -> (1 <= length g <= 8)%nat -> groups_ok (gs ++ [g]).
Proof.
  intros Hgs Hg. induction Hgs as [|g0 gs H0 Hgs IH]; [done|]. cbn [app groups_ok]. destruct (gs ++ [g]) eqn:E; [by destruct gs|]. done.
Qed.

Lemma stream_snoc gs g : stream (gs ++ [g]) = stream gs ++ group_bytes g.
Proof. unfold stream. rewrite bind_app. cbn. by rewrite app_nil_r. Qed.

Lemma length_group_bytes g : zlen (group_bytes g) <= 1 + 2 * zlen g.
Proof.
  unfold group_bytes. induction g as [|it g IH]; cbn [mbind list_bind length app] in *; [lia|]. app_len.
  destruct it; cbn [item_bytes length]; lia.
Qed.

(** The compressed form of the first [n] bytes of [s]. *)
Definition compressed (s : list Z) (n : Z) (gs : list (list lz_item)) : Prop :=
  take (Z.to_nat n) s = expand_items (concat gs) [] /\ items_ok [] (concat gs) /\ groups_ok gs.

Definition lzjb_done (s d : list Z) (s_len d_len : Z) (r : Z * list Z) : Prop :=
  let '(c_len, d') := r in length d' = length d /\
  (c_len = s_len \/ exists gs rest, d' = stream gs ++ rest /\ c_len = zlen (stream gs) /\ c_len <= d_len /\ compressed s s_len gs).

(** The state of the loop inside the group [g]. *)
Record in_group (s d : list Z) (s_len d_len src dst copymap copymask : Z) (gs : list (list lz_item)) (g : list lz_item) (rest lempel : list Z) : Prop := {
  ig_d : d = stream gs ++ group_bytes g ++ rest;
  ig_dst : dst = zlen (stream gs ++ group_bytes g);
  ig_map : copymap = zlen (stream gs);
  ig_mask : copymask = 2 ^ (zlen g - 1);
  ig_room : zlen (stream gs) + 17 < d_len;
  ig_full : Forall (fun g => length g = 8%nat) gs;
  ig_len : (1 <= length g <= 8)%nat;
  ig_src : take (Z.to_nat src) s = expand_items (concat (gs ++ [g])) [];
  ig_ok : items_ok [] (concat (gs ++ [g]));
  ig_range : 0 <= src <= s_len;
  ig_lempel : length lempel = Z.to_nat LEMPEL_SIZE
}.

(** Adding an item to a group, or the first item to a new one. *)
Lemma item_in_group s d0 s_len d_len src gs g rest lempel s_addr :
  Forall is_u8 s -> 0 <= src < s_len -> s_len <= zlen s -> (length g < 8)%nat -> d_len <= zlen d0 ->
  d0 = stream gs ++ group_bytes g ++ rest -> zlen (stream gs) + 17 < d_len -> Forall (fun g => length g = 8%nat) gs ->
  take (Z.to_nat src) s = expand_items (concat (gs ++ [g])) [] -> items_ok [] (concat (gs ++ [g])) -> length lempel = Z.to_nat LEMPEL_SIZE ->
  exists src' dst' d' lempel' g' rest',
    lzjb_item s_addr s d0 s_len src (zlen (stream gs ++ group_bytes g)) (zlen (stream gs)) (2 ^ zlen g) lempel = Ok (src', dst', d', lempel') /\
    in_group s d' s_len d_len src' dst' (zlen (stream gs)) (2 ^ zlen g) gs g' rest' lempel' /\ length d' = length d0 /\ src < src'.
Proof.
  intros Hu Hs Hl Hg Hd -> Hroom Hfull Hsrc Hok Hlem. pose proof (length_group_bytes g) as Hgb.
  destruct (lzjb_item_ok s_addr s (stream gs) g rest s_len src lempel) as ([[[src' dst'] d'] lempel'] & E & it & rest' & Ed & Edst & El & Hlem' & Hs' & Hi & He);
    [done|done|done|done|app_len; lia|done|]. exists src', dst', d', lempel', (g ++ [it]), rest'. split; [exact E|]. split; [|split; [done|lia]].
  constructor; try done; try lia.
  - app_len. f_equal. lia.
  - app_len. lia.
  - rewrite concat_app in *. cbn [concat] in *. rewrite app_nil_r in *. rewrite <- He, Hsrc, app_assoc, (expand_items_app _ [it]). done.
  - rewrite concat_app in *. cbn [concat] in *. rewrite app_nil_r in *. rewrite app_assoc, items_ok_app. split; [done|]. rewrite <- Hsrc. done.
Qed.

(** A new group. *)
Lemma new_group s d s_len d_len src gs rest lempel s_addr :
  Forall is_u8 s -> 0 <= src < s_len -> s_len <= zlen s -> d_len <= zlen d -> d = stream gs ++ rest ->
  zlen (stream gs) + 17 < d_len -> Forall (fun g => length g = 8%nat) gs ->
  take (Z.to_nat src) s = expand_items (concat gs) [] -> items_ok [] (concat gs) -> length lempel = Z.to_nat LEMPEL_SIZE ->
  exists d1 src' dst' d' lempel' g' rest', put d (zlen (stream gs)) 0 = Ok d1 /\
    lzjb_item s_addr s d1 s_len src (zlen (stream gs) + 1) (zlen (stream gs)) 1 lempel = Ok (src', dst', d', lempel') /\
    in_group s d' s_len d_len src' dst' (zlen (stream gs)) 1 gs g' rest' lempel' /\ length d' = length d /\ src < src'.
Proof.
  intros Hu Hs Hl Hd -> Hroom Hfull Hsrc Hok Hlem. destruct (room_cons rest 1) as (r & rest' & -> & _); [lia|app_len; lia|].
  rewrite put_next. change (wrap8 0) with 0. app_len.
  assert (Ec : concat (gs ++ [[]]) = concat gs) by (rewrite concat_app; cbn [concat]; by rewrite !app_nil_r).
  destruct (item_in_group s (stream gs ++ group_bytes [] ++ rest') s_len d_len src gs [] rest' lempel s_addr)
    as (src' & dst' & d' & lempel' & g' & rest1 & E & Hst' & El & Hs'); try done; try (rewrite Ec; done); try lia.
  - simpl. lia.
  - change (group_bytes []) with [0]. app_len. lia.
  - change (group_bytes []) with [0] in E, El. cbn [app] in E, El. rewrite length_app in E at 1. cbn [length] in E.
    change (2 ^ Z.of_nat 0) with 1 in E. change (2 ^ zlen []) with 1 in Hst'.
    replace (Z.of_nat (length (stream gs) + 1)) with (zlen (stream gs) + 1) in E by lia.
    eexists _, src', dst', d', lempel', g', rest1. split_and!; [done|exact E|done| |done]. rewrite El. app_len. lia.
Qed.

Lemma lzjb_loop_ok fuel s_addr s d s_len d_len src dst copymap copymask gs g rest lempel :
  Forall is_u8 s -> s_len <= zlen s -> d_len <= zlen d ->
  in_group s d s_len d_len src dst copymap copymask gs g rest lempel -> (Z.to_nat (s_len - src) < fuel)%nat ->
  exists r, lzjb_compress_loop fuel s_addr s d s_len d_len src dst copymap copymask lempel = Ok r /\ lzjb_done s d s_len d_len r.
Proof.
  intros Hu Hl. revert d src dst copymap copymask gs g rest lempel. induction fuel as [|fuel IH];
    intros d src dst copymap copymask gs g rest lempel Hd Hst Hf; [lia|].
  cbn [lzjb_compress_loop]. pose proof Hst as [Ed Edst Emap Emask Hroom Hfull Hlen Hsrc Hok Hrange Hlem].
  pose proof (length_group_bytes g) as Hgb.
  destruct (Z.ltb_spec src s_len) as [Hlt|Hge].
  2:{ eexists. split; [done|]. split; [done|]. right. exists (gs ++ [g]), rest. rewrite stream_snoc, <- app_assoc.
      replace s_len with src by lia. split_and!; [done..| |split_and!; [done..|by apply groups_ok_snoc]]. app_len. lia. }
  assert (Hmask : Z.shiftl copymask 1 = 2 ^ zlen g).
  { rewrite Emask, Z.shiftl_mul_pow2, <- Z.pow_add_r by lia. f_equal. lia. }
  rewrite Hmask. change (Z.shiftl 1 NBBY) with (2 ^ 8). change (d_len - 1 - 2 * NBBY) with (d_len - 1 - 16).
  destruct (Z.eqb_spec (2 ^ zlen g) (2 ^ 8)) as [E8|E8].
  - assert (Hg8 : length g = 8%nat) by (apply Z.pow_inj_r in E8; lia).
    destruct (Z.leb_spec (d_len - 1 - 16) dst) as [|Hfit]. { eexists. split; [done|]. split; [done|by left]. }
    destruct (new_group s d s_len d_len src (gs ++ [g]) rest lempel s_addr)
      as (d1 & src' & dst' & d' & lempel' & g' & rest1 & Ep & E & Hst' & El & Hs'); try done; try lia.
    + by rewrite stream_snoc, <- app_assoc.
    + rewrite stream_snoc. lia.
    + apply Forall_app. by split; [|constructor].
    + rewrite Edst, <- stream_snoc, Ep. cbn [mbind res_bind]. rewrite E. cbn [mbind res_bind].
      destruct (IH d' src' dst' _ 1 _ _ _ _ ltac:(lia) Hst' ltac:(lia)) as ([c d''] & -> & Hlen' & Hres). eexists. split; [done|]. split; [lia|done].
  - destruct (item_in_group s d s_len d_len src gs g rest lempel s_addr) as (src' & dst' & d' & lempel' & g' & rest1 & E & Hst' & El & Hs'); try done; try lia.
    { destruct (decide (length g = 8%nat)) as [E'|]; [|lia]. by rewrite E' in E8. }
    rewrite Edst, Emap, E. cbn [mbind res_bind].
    destruct (IH d' src' dst' _ _ _ _ _ _ ltac:(lia) Hst' ltac:(lia)) as ([c d''] & -> & Hlen' & Hres). eexists. split; [done|]. split; [lia|done].
Qed.

Lemma lzjb_compress_ok s_addr s d s_len d_len n :
  Forall is_u8 s -> 0 <= s_len <= zlen s -> d_len <= zlen d ->
  exists r, lzjb_compress s_addr s d s_len d_len n = Ok r /\ lzjb_done s d s_len d_len r.
Proof.
  intros Hu Hs Hd. unfold lzjb_compress. cbn [lzjb_compress_loop]. destruct (Z.ltb_spec 0 s_len) as [Hpos|].
  2:{ eexists. split; [done|]. split; [done|left; lia]. }
  change (Z.shiftl 1 NBBY) with 256. change (Z.shiftl (Z.shiftl 1 (NBBY - 1)) 1) with 256. change (d_len - 1 - 2 * NBBY) with (d_len - 1 - 16).
  change (256 =? 256) with true. cbn iota. destruct (Z.leb_spec (d_len - 1 - 16) 0). { eexists. split; [done|]. split; [done|by left]. }
  destruct (new_group s d s_len d_len 0 [] d (replicate (Z.to_nat LEMPEL_SIZE) 0) s_addr)
    as (d1 & src' & dst' & d' & lempel' & g' & rest1 & Ep & E & Hst' & El & Hs'); try done; try lia.
  - cbn. lia.
  - change (zlen (stream [])) with 0 in *. rewrite Ep. cbn [mbind res_bind]. rewrite E. cbn [mbind res_bind].
    destruct (lzjb_loop_ok (Z.to_nat s_len) s_addr s d' s_len d_len src' dst' 0 1 [] g' rest1 lempel') as ([c d''] & -> & Hlen' & Hres); [done|lia|lia|done| |].
    { lia. }
    eexists. split; [done|]. split; [lia|done].
Qed.

(** ** The decompressor expands groups of items *)

Lemma copy_match_ok n out off o d_len :
  Forall is_u8 out -> 0 < off <= zlen out -> zlen out + Z.of_nat n <= d_len -> d_len <= zlen o ->
  copy_match n (over out o) d_len (zlen out) (zlen out - off) = Ok (zlen out + Z.of_nat n, over (lz_copy n out off) o).
Proof.
  revert out. induction n as [|n IH]; intros out Hu Ho Hd Hl; [by rewrite Z.add_0_r|]. cbn [copy_match lz_copy].
  rewrite (proj2 (Z.ltb_lt _ _)), get_ok by (rewrite ?length_over; lia). cbn [mbind res_bind].
  rewrite byte_over, put_over, wrap8_small by (lia || by apply byte_u8). cbn [mbind res_bind].
  specialize (IH (out ++ [byte out (zlen out - off)])). app_len.
  replace (zlen out + 1) with (Z.of_nat (length out + 1)) by lia. replace (zlen out - off + 1) with (Z.of_nat (length out + 1) - off) by lia.
  rewrite IH; [do 2 f_equal; lia| |lia..]. apply Forall_app. split; [done|]. constructor; [by apply byte_u8|done].
Qed.

Lemma expand_item_u8 out it : Forall is_u8 out -> item_ok out it -> Forall is_u8 (expand_item out it).
Proof. intros Hu. destruct it; cbn; intros Hi; [apply Forall_app; split; [done|by apply Forall_singleton]|by apply lz_copy_u8]. Qed.

Lemma expand_item_longer out it : item_ok out it -> zlen out + 1 <= zlen (expand_item out it).
Proof. destruct it; cbn; intros Hi; [app_len|rewrite length_lz_copy]; lia. Qed.

Lemma expand_items_longer its out : items_ok out its -> zlen out + zlen its <= zlen (expand_items its out).
Proof.
  revert out. induction its as [|it its IH]; intros out; cbn; [lia|]. intros [Hi Hok]. pose proof (expand_item_longer out it Hi).
  specialize (IH _ Hok). unfold expand_items in IH. lia.
Qed.

(** The two bytes of a copy, read back. *)
Lemma copy_bytes off len :
  0 < off <= 1023 -> 3 <= len <= 66 ->
  Z.shiftr (4 * (len - 3) + off / 256) (NBBY - MATCH_BITS) + MATCH_MIN = len /\
  Z.land (Z.lor (Z.shiftl (4 * (len - 3) + off / 256) NBBY) (off mod 256)) OFFSET_MASK = off.
Proof.
  intros Ho Hl. assert (Hq : 0 <= off / 256 < 4) by (split; [apply Z.div_pos|apply Z.div_lt_upper_bound]; lia).
  pose proof (Z.mod_pos_bound off 256 ltac:(lia)) as Hr. split.
  - change (NBBY - MATCH_BITS) with 2. change MATCH_MIN with 3. rewrite Z.shiftr_div_pow2 by lia. change (2 ^ 2) with 4.
    rewrite Z.mul_comm, Z.div_add_l, (Z.div_small (off / 256)) by lia. lia.
  - change NBBY with 8. change OFFSET_MASK with (Z.ones 10). rewrite lor_shiftl_add, Z.land_ones by (done || lia). change (2 ^ 8) with 256. change (2 ^ 10) with 1024.
    pose proof (Z.div_mod off 256). replace (_ + off mod 256) with (off + (len - 3) * 1024) by lia. rewrite Z.mod_add by lia. apply Z.mod_small. lia.
Qed.

(** One turn of the loop, once the group byte [m] and the bit [mask] are known. *)
Lemma decode_item fuel z o d_len src out copymap copymask m mask src1 it :
  (if Z.shiftl copymask 1 =? Z.shiftl 1 NBBY then m ← get z src; Ok (1, m, src + 1) else Ok (Z.shiftl copymask 1, copymap, src)) = Ok (mask, m, src1) ->
  negb (Z.land m mask =? 0) = is_copy it -> 0 <= src1 -> src1 + zlen (item_bytes it) <= zlen z ->
  sub_bytes z src1 (src1 + zlen (item_bytes it)) = item_bytes it ->
  item_ok out it -> Forall is_u8 out -> zlen (expand_item out it) <= d_len -> d_len <= zlen o ->
  lzjb_decompress_loop (S fuel) z (over out o) d_len src (zlen out) copymap copymask
  = lzjb_decompress_loop fuel z (over (expand_item out it) o) d_len (src1 + zlen (item_bytes it)) (zlen (expand_item out it)) m mask.
Proof.
  intros Hmap Hbit Hs1 Hz Hsub Hok Hu Hd Hl. pose proof (expand_item_longer out it Hok). cbn [lzjb_decompress_loop].
  rewrite (proj2 (Z.ltb_lt _ _)), Hmap by lia. cbn [mbind res_bind]. rewrite Hbit.
  assert (Hb : forall i, 0 <= i < zlen (item_bytes it) -> get z (src1 + i) = Ok (byte (item_bytes it) i)).
  { intros i Hi. rewrite get_ok, <- Hsub, byte_sub_bytes by lia. done. }
  destruct it as [b|off len]; cbn [is_copy item_bytes item_ok expand_item length] in *.
  - specialize (Hb 0 ltac:(lia)). rewrite Z.add_0_r in Hb. rewrite Hb. cbn [mbind res_bind]. change (byte [b] 0) with b.
    rewrite put_over, wrap8_small by (done || app_len; lia). cbn [mbind res_bind]. app_len. do 2 f_equal; lia.
  - pose proof (Hb 0 ltac:(lia)) as H0. rewrite Z.add_0_r in H0. rewrite H0, (Hb 1 ltac:(lia)). cbn [mbind res_bind]. destruct Hok as (Ho & Ho' & Hlen).
    destruct (copy_bytes off len Ho Hlen) as [E1 E2].
    change (byte [_; _] 0) with (4 * (len - 3) + off / 256). change (byte [_; _] 1) with (off mod 256). rewrite E1, E2.
    rewrite (proj2 (Z.ltb_ge _ 0)) by lia. rewrite length_lz_copy in *. rewrite copy_match_ok by (done || lia). cbn [mbind res_bind].
    do 2 f_equal; lia.
Qed.

Lemma group_bit_land g1 it g2 : negb (Z.land (group_map (g1 ++ it :: g2)) (2 ^ zlen g1) =? 0) = is_copy it.
Proof.
  rewrite <- (group_map_bit g1 it g2). set (m := group_map _). clearbody m. set (k := zlen g1). assert (Hk : 0 <= k) by lia. clearbody k.
  destruct (Z.testbit m k) eqn:E.
  - destruct (Z.eqb_spec (Z.land m (2 ^ k)) 0) as [E'|]; [|done]. apply (f_equal (fun x => Z.testbit x k)) in E'.
    by rewrite Z.land_spec, Z.pow2_bits_true, E, Z.bits_0 in E'.
  - destruct (Z.eqb_spec (Z.land m (2 ^ k)) 0) as [|E']; [done|]. destruct E'. apply Z.bits_inj'. intros i Hi.
    rewrite Z.land_spec, Z.pow2_bits_eqb, Z.bits_0 by lia. destruct (Z.eqb_spec k i) as [<-|]; [by rewrite E|apply andb_false_r].
Qed.

Lemma decode_group fuel zpre g1 g2 ztail o d_len out :
  (1 <= length g1)%nat -> (length (g1 ++ g2) <= 8)%nat -> items_ok out g2 -> Forall is_u8 out ->
  zlen (expand_items g2 out) <= d_len -> d_len <= zlen o ->
  lzjb_decompress_loop (length g2 + fuel) (zpre ++ (it ← g2; item_bytes it) ++ ztail) (over out o) d_len (zlen zpre) (zlen out)
    (group_map (g1 ++ g2)) (2 ^ (zlen g1 - 1))
  = lzjb_decompress_loop fuel (zpre ++ (it ← g2; item_bytes it) ++ ztail) (over (expand_items g2 out) o) d_len
      (zlen (zpre ++ (it ← g2; item_bytes it))) (zlen (expand_items g2 out)) (group_map (g1 ++ g2)) (2 ^ (zlen (g1 ++ g2) - 1)).
Proof.
  revert zpre g1 out. induction g2 as [|it g2 IH]; intros zpre g1 out H1 H8 Hok Hu Hd Hl.
  { cbn [mbind list_bind length expand_items foldl Nat.add]. by rewrite !app_nil_r. }
  destruct Hok as [Hi Hok]. cbn [length Nat.add mbind list_bind].
  pose proof (expand_items_longer g2 _ Hok) as Hlong. cbn [expand_items foldl] in Hd. fold (expand_items g2 (expand_item out it)) in Hd.
  rewrite (decode_item _ _ _ _ _ _ _ _ (group_map (g1 ++ it :: g2)) (2 ^ zlen g1) (zlen zpre) it); try done; try lia.
  - specialize (IH (zpre ++ item_bytes it) (g1 ++ [it]) (expand_item out it)). rewrite <- !app_assoc in IH. cbn [app] in IH.
    replace (zlen (g1 ++ [it]) - 1) with (zlen g1) in IH by (app_len; lia).
    replace (zlen zpre + zlen (item_bytes it)) with (zlen (zpre ++ item_bytes it)) by (app_len; lia).
    rewrite <- !(app_assoc (item_bytes it)). rewrite IH; [done|app_len; lia|app_len; lia|done|by apply expand_item_u8|done|done].
  - rewrite Z.shiftl_mul_pow2, <- Z.pow_add_r by lia. replace (zlen g1 - 1 + 1) with (zlen g1) by lia.
    rewrite (proj2 (Z.eqb_neq _ _)); [done|]. change (Z.shiftl 1 NBBY) with (2 ^ 8). app_len. intros E%Z.pow_inj_r; lia.
  - apply group_bit_land.
  - app_len. lia.
  - rewrite <- app_assoc. apply sub_bytes_mid.
Qed.

Lemma decode_end fuel z d d_len src copymap copymask : (0 < fuel)%nat -> lzjb_decompress_loop fuel z d d_len src d_len copymap copymask = Ok (0, d).
Proof. intros Hf. destruct fuel; [lia|]. cbn [lzjb_decompress_loop]. by rewrite (proj2 (Z.ltb_ge _ _)) by lia. Qed.

Lemma expand_items_u8 its out : items_ok out its -> Forall is_u8 out -> Forall is_u8 (expand_items its out).
Proof.
  revert out. induction its as [|it its IH]; intros out Hok Hu; [done|]. destruct Hok as [Hi Hok].
  apply (IH (expand_item out it) Hok). by apply expand_item_u8.
Qed.

Lemma decode_whole_group fuel zpre g ztail o d_len out copymap :
  (1 <= length g <= 8)%nat -> items_ok out g -> Forall is_u8 out -> zlen (expand_items g out) <= d_len -> d_len <= zlen o ->
  lzjb_decompress_loop (length g + fuel) (zpre ++ group_bytes g ++ ztail) (over out o) d_len (zlen zpre) (zlen out) copymap 128
  = lzjb_decompress_loop fuel (zpre ++ group_bytes g ++ ztail) (over (expand_items g out) o) d_len
      (zlen (zpre ++ group_bytes g)) (zlen (expand_items g out)) (group_map g) (2 ^ (zlen g - 1)).
Proof.
  intros Hg Hok Hu Hd Hl. destruct g as [|it g2]; [simpl in Hg; lia|]. cbn [length Nat.add].
  set (m := group_map (it :: g2)). set (body := it ← g2; item_bytes it). pose proof Hok as [Hi Hok'].
  change (expand_items (it :: g2) out) with (expand_items g2 (expand_item out it)) in *. pose proof (expand_items_longer g2 _ Hok').
  change (group_bytes (it :: g2)) with (m :: item_bytes it ++ body).
  rewrite (decode_item _ _ _ _ _ _ _ _ m 1 (zlen zpre + 1) it); try done; try lia.
  - pose proof (decode_group fuel (zpre ++ m :: item_bytes it) [it] g2 ztail o d_len (expand_item out it)) as IH.
    rewrite <- !app_assoc in IH. cbn [app] in IH. rewrite <- ?app_assoc in IH. fold body in IH.
    replace (zlen zpre + 1 + zlen (item_bytes it)) with (zlen (zpre ++ m :: item_bytes it)) by (app_len; lia).
    cbn [app]. rewrite <- !(app_assoc (item_bytes it)). change (zlen [it] - 1) with 0 in IH. change (2 ^ 0) with 1 in IH. fold m in IH.
    rewrite IH; [|simpl; lia|simpl in *; lia|done|by apply expand_item_u8|done|done].
    do 2 f_equal; app_len; lia.
  - change (Z.shiftl 128 1 =? Z.shiftl 1 NBBY) with true. cbn iota. rewrite get_ok by (app_len; lia). by rewrite byte_app_r, Z.sub_diag by lia.
  - apply (group_bit_land [] it g2).
  - app_len. lia.
  - change (zpre ++ (m :: item_bytes it ++ body) ++ ztail) with (zpre ++ [m] ++ (item_bytes it ++ body) ++ ztail). rewrite app_assoc, <- (app_assoc (item_bytes it)).
    replace (zlen zpre + 1) with (zlen (zpre ++ [m])) by (app_len; lia). apply sub_bytes_mid.
Qed.

Lemma decode_stream fuel gs zpre ztail o d_len out copymap :
  groups_ok gs -> items_ok out (concat gs) -> Forall is_u8 out -> d_len = zlen (expand_items (concat gs) out) -> d_len <= zlen o ->
  (length (concat gs) < fuel)%nat ->
  lzjb_decompress_loop fuel (zpre ++ stream gs ++ ztail) (over out o) d_len (zlen zpre) (zlen out) copymap 128
  = Ok (0, over (expand_items (concat gs) out) o).
Proof.
  revert zpre out copymap fuel. induction gs as [|g gs IH]; intros zpre out copymap fuel Hgs Hok Hu Hd Hl Hf.
  { cbn [concat expand_items foldl] in *. rewrite <- Hd. apply decode_end. simpl in Hf. lia. }
  cbn [concat] in *. rewrite length_app in Hf. apply items_ok_app in Hok as [Hok1 Hok2]. rewrite expand_items_app in Hd |- *.
  pose proof (expand_items_longer _ _ Hok2) as Hlong. change (stream (g :: gs)) with (group_bytes g ++ stream gs).
  assert (Hlen : (1 <= length g <= 8)%nat) by (destruct gs; cbn in Hgs; lia).
  replace fuel with (length g + (fuel - length g))%nat by lia. rewrite <- app_assoc.
  rewrite decode_whole_group by (done || lia). destruct gs as [|g' gs].
  { cbn [concat expand_items foldl] in *. rewrite <- Hd. apply decode_end. lia. }
  destruct Hgs as [H8 Hgs]. specialize (IH (zpre ++ group_bytes g) (expand_items g out) (group_map g) (fuel - length g)%nat). rewrite <- app_assoc in IH.
  replace (2 ^ (zlen g - 1)) with 128 by (by rewrite H8). apply IH; [done|done|by apply expand_items_u8|done|done|lia].
Qed.

Lemma stream_nonempty gs : 0 < zlen (expand_items (concat gs) []) -> 0 < zlen (stream gs).
Proof. destruct gs as [|g gs]; [done|]. intros _. unfold stream. rewrite bind_cons. unfold group_bytes at 1. app_len. lia. Qed.

Lemma lzjb_compress_restores s_addr s d s_len d_len n :
  Forall is_u8 s -> 0 <= s_len <= zlen s -> d_len <= zlen d ->
  exists c_len d', lzjb_compress s_addr s d s_len d_len n = Ok (c_len, d') /\ length d' = length d /\
    (c_len < s_len -> 0 < c_len <= d_len /\ restores (fun z o z_len o_len => lzjb_decompress z o z_len o_len n) s s_len d' c_len).
Proof.
  intros Hu Hs Hd. destruct (lzjb_compress_ok s_addr s d s_len d_len n Hu Hs Hd) as ([c_len d'] & E & El & Hres).
  exists c_len, d'. split; [done|]. split; [done|]. intros Hc. destruct Hres as [->|(gs & rest & Ed & Ec & Hfit & Hsrc & Hok & Hgs)]; [lia|].
  assert (Hlen : zlen (expand_items (concat gs) []) = s_len) by (rewrite <- Hsrc, length_take; lia).
  split; [split; [|done]; rewrite Ec; apply stream_nonempty; lia|]. intros z o z_len Hz8 Ez Hz Ho.
  assert (Ez' : z = stream gs ++ drop (Z.to_nat c_len) z).
  { rewrite <- (take_drop (Z.to_nat c_len) z) at 1. f_equal. rewrite Ez, Ed, Ec, Nat2Z.id. apply take_app_length. }
  pose proof (expand_items_longer _ _ Hok) as Hlong. pose proof (decode_stream (S (Z.to_nat s_len)) gs [] (drop (Z.to_nat c_len) z) o s_len [] 0) as H.
  cbn [app length] in H, Hlong. rewrite <- Ez' in H. change (over [] o) with o in H. change (Z.of_nat 0) with 0 in H.
  unfold lzjb_decompress. change (Z.shiftl 1 (NBBY - 1)) with 128. rewrite H by (done || lia).
  unfold over. rewrite <- Hsrc, length_take. do 4 f_equal. lia.
Qed.

#[export] Instance lzjb_codec n : Codec lzjb_compress (fun _ => lzjb_decompress) n.
Proof.
  apply codec_intro. intros addr s d s_len Hu Hb Hs Hd. destruct (compress_room s_len Hb) as [H8 E8]. unfold block_size in Hb.
  destruct (lzjb_compress_restores addr s d s_len (s_len - Z.shiftr s_len 3) n) as (c & d' & E & El & Hc); [done|lia|lia|].
  exists c, d'. split_and!; [done..|]. intros Hlt. destruct (Hc Hlt) as [Hle Hr]. split; [done|]. intros _. exact Hr.
Qed.

(** ** Properties *)

(** C29: whatever [lzjb_compress] writes when it makes a block smaller fits in the
    target and expands to the block again, wherever the block lies in memory. *)
Theorem lzjb_roundtrip s_addr s d s_len d_len n :
  Forall is_u8 s -> 0 <= s_len <= zlen s -> d_len <= zlen d ->
  exists c_len d', lzjb_compress s_addr s d s_len d_len n = Ok (c_len, d') /\ length d' = length d /\
    (c_len < s_len -> 0 < c_len <= d_len /\
      forall z o z_len, Forall is_u8 z -> take (Z.to_nat c_len) z = take (Z.to_nat c_len) d' -> c_len <= z_len <= zlen z -> s_len <= zlen o ->
        lzjb_decompress z o z_len s_len n = Ok (0, take (Z.to_nat s_len) s ++ drop (Z.to_nat s_len) o)).
Proof. apply lzjb_compress_restores. Qed.

Module Example.

Definition a : Z := 97.
Definition b : Z := 98.
Definition block : list Z := replicate 67 a ++ [b; b + 1; b + 2; a; b; b + 1] ++ replicate 70 b.
Definition target : list Z := replicate 200 0.

Lemma block_u8 : Forall is_u8 block.
Proof. repeat (constructor; [split; vm_compute; done|]). constructor. Qed.

Lemma lzjb_roundtrip_witness :
  exists c_len d', lzjb_compress 4096 block target 143 125 0 = Ok (c_len, d') /\ c_len < 143 /\
    lzjb_decompress d' (replicate 143 0) 200 143 0 = Ok (0, block).
Proof.
  destruct (lzjb_roundtrip 4096 block target 143 125 0) as (c & d' & E & El & Hrt).
  - exact block_u8.
  - vm_compute. split; discriminate.
  - vm_compute. discriminate.
  - assert (Hc : c < 143) by (vm_compute in E; injection E as <- _; lia).
    assert (Hd8 : Forall is_u8 d') by (vm_compute in E; injection E as _ <-; repeat (constructor; [split; vm_compute; done|]); constructor).
    exists c, d'. split; [exact E|]. split; [exact Hc|]. destruct (Hrt Hc) as [Hfit Hd].
    apply Hd; [exact Hd8|reflexivity| |vm_compute; discriminate]. rewrite El. change (zlen target) with 200. lia.
Defined.

(** C38: the output is not a function of the block alone.  An entry of the table
    that is still zero denotes a distance that depends on the address of the
    block; the same block at two addresses gives two different streams. *)
Theorem lzjb_depends_on_address :
  exists c1 d1 c2 d2, lzjb_compress 4096 block target 143 125 0 = Ok (c1, d1) /\
    lzjb_compress (4096 + 958) block target 143 125 0 = Ok (c2, d2) /\
    take (Z.to_nat c1) d1 <> take (Z.to_nat c2) d2.
Proof. do 4 eexists. split; [vm_compute; reflexivity|]. split; [vm_compute; reflexivity|]. vm_compute. discriminate. Qed.

End Example.
