(* ===== verification/Lz4.v ===== *)
(** * LZ4: [module/zfs/lz4.c]

    The default compressor of a pool, as built for a 64-bit little-endian host.
    A compressed block is a sequence of tokens, each with some literal bytes and
    a copy of earlier output; the last one has literals only.

    Both directions copy eight bytes at a time and past the end of what they mean
    to write, relying on what follows being overwritten or ignored; the copies are
    translated as they are, with every access checked against its buffer.  The
    source and the target are two buffers, a pointer into one is an index.

    This file has the functions.  [Lz4Format] has the format, [Lz4Decode] and
    [Lz4Encode] what is proved of the two directions. *)

From S2P Require Import Prelude Buffer.

Definition MINMATCH : Z := 4.
Definition HASH_LOG : Z := 12.
Definition SKIPSTRENGTH : Z := 6.
Definition COPYLENGTH : Z := 8.
Definition LASTLITERALS : Z := 5.
Definition MFLIMIT : Z := COPYLENGTH + MINMATCH.
Definition MINLENGTH : Z := MFLIMIT + 1.
Definition MAX_DISTANCE : Z := Z.shiftl 1 16 - 1.
Definition ML_BITS : Z := 4.
Definition ML_MASK : Z := Z.shiftl 1 ML_BITS - 1.
Definition RUN_BITS : Z := 8 - ML_BITS.
Definition RUN_MASK : Z := Z.shiftl 1 RUN_BITS - 1.
Definition STEPSIZE : Z := 8.
Definition LZ4_64KLIMIT : Z := Z.shiftl 1 16 + (MFLIMIT - 1).
Definition HASHLOG64K : Z := HASH_LOG + 1.

(** Unaligned words. *)
Definition A16 (b : list Z) (i : Z) : res Z := vs ← get_n b i 2; Ok (le_word vs).
Definition A32 (b : list Z) (i : Z) : res Z := vs ← get_n b i 4; Ok (le_word vs).
Definition A64 (b : list Z) (i : Z) : res Z := vs ← get_n b i 8; Ok (le_word vs).

(** [A64(d) = A64(s)], the source in another buffer or in the same. *)
Definition LZ4_COPYSTEP (sb : list Z) (s : Z) (db : list Z) (d : Z) : res (list Z) :=
  vs ← get_n sb s 8; put_n db d vs.

(** ** Hashing *)

Definition LZ4_HASH_FUNCTION (log i : Z) : Z := Z.shiftr (wrap32 (i * 2654435761)) (MINMATCH * 8 - log).

(** [__builtin_ctzll]. *)
Fixpoint count_trailing_zeros (n : nat) (v : Z) : Z :=
  match n with
  | O => 0
  | S n' => if Z.odd v then 0 else 1 + count_trailing_zeros n' (Z.shiftr v 1)
  end.

Definition LZ4_NbCommonBytes (val : Z) : Z := Z.shiftr (count_trailing_zeros 64 val) 3.

(** ** Compression

    [LZ4_compressCtx] and [LZ4_compress64kCtx] are the same text but for the hash,
    the width of the table and the distance test; [small] chooses the second. *)

Section Compress.

Variables (small : bool) (s : list Z) (isize osize : Z).

Definition hash_log : Z := if small then HASHLOG64K else HASH_LOG.

(** [LZ4_HASH_VALUE] and [LZ4_HASH64K_VALUE] at an index of the source. *)
Definition hash_value (p : Z) : res Z := w ← A32 s p; Ok (LZ4_HASH_FUNCTION hash_log w).

Definition mflimit : Z := isize - MFLIMIT.
Definition matchlimit : Z := isize - LASTLITERALS.

(** The table holds positions, in 16 or 32 bits. *)
Definition table_get (t : list Z) (h : Z) : res Z := deref (t !! Z.to_nat h).
Definition table_set (t : list Z) (h pos : Z) : list Z :=
  <[Z.to_nat h := (if small then pos mod 65536 else wrap32 pos)]> t.

(** [(ref < ip - MAX_DISTANCE) || (A32(ref) != A32(ip))] *)
Definition no_match (ref ip : Z) : res bool :=
  if negb small && (ref <? ip - MAX_DISTANCE) then Ok true
  else a ← A32 s ref; b ← A32 s ip; Ok (negb (a =? b)).

(** The loop that looks for a match; [None] is the jump to the last literals. *)
Fixpoint find_match (fuel : nat) (t : list Z) (forwardIp forwardH attempts : Z) : res (option (Z * Z * list Z)) :=
  match fuel with
  | O => Panic
  | S fuel' =>
      let h := forwardH in
      let step := Z.shiftr attempts SKIPSTRENGTH in
      let ip := forwardIp in
      let forwardIp := ip + step in
      if mflimit <? forwardIp then Ok None
      else
        forwardH ← hash_value forwardIp;
        ref ← table_get t h;
        let t := table_set t h ip in
        again ← no_match ref ip;
        if again : bool then find_match fuel' t forwardIp forwardH (attempts + 1)
        else Ok (Some (ip, ref, t))
  end.

(** [while ((ip > anchor) && (ref > source) && (ip[-1] == ref[-1])) { ip--; ref--; }] *)
Fixpoint catch_up (fuel : nat) (ip ref anchor : Z) : res (Z * Z) :=
  match fuel with
  | O => Panic
  | S fuel' =>
      if (anchor <? ip) && (0 <? ref) then
        a ← get s (ip - 1); b ← get s (ref - 1);
        if a =? b then catch_up fuel' (ip - 1) (ref - 1) anchor else Ok (ip, ref)
      else Ok (ip, ref)
  end.

(** [for (; len > 254; len -= 255) *op++ = 255; *op++ = (BYTE)len;] *)
Fixpoint put_length (fuel : nat) (d : list Z) (op len : Z) : res (Z * list Z) :=
  match fuel with
  | O => Panic
  | S fuel' =>
      if 254 <? len then d ← put d op 255; put_length fuel' d (op + 1) (len - 255)
      else d ← put d op len; Ok (op + 1, d)
  end.

(** [for (; len > 509; len -= 510) { *op++ = 255; *op++ = 255; }
     if (len > 254) { len -= 255; *op++ = 255; } *op++ = (BYTE)len;] *)
Fixpoint put_match_length (fuel : nat) (d : list Z) (op len : Z) : res (Z * list Z) :=
  match fuel with
  | O => Panic
  | S fuel' =>
      if 509 <? len then
        d ← put d op 255; d ← put d (op + 1) 255; put_match_length fuel' d (op + 2) (len - 510)
      else
        '(op, len, d) ← (if 254 <? len then d ← put d op 255; Ok (op + 1, len - 255, d) else Ok (op, len, d));
        d ← put d op len; Ok (op + 1, d)
  end.

(** [LZ4_WILDCOPY(s, d, e)] from the source, at least one packet. *)
Fixpoint wild_copy (fuel : nat) (sb : list Z) (sp : Z) (db : list Z) (dp e : Z) : res (Z * Z * list Z) :=
  match fuel with
  | O => Panic
  | S fuel' =>
      db ← LZ4_COPYSTEP sb sp db dp;
      if dp + 8 <? e then wild_copy fuel' sb (sp + 8) db (dp + 8) e else Ok (sp + 8, dp + 8, db)
  end.

Definition copy_fuel (n : Z) : nat := S (Z.to_nat n).

(** [LZ4_BLINDCOPY(anchor, op, length)] *)
Definition LZ4_BLINDCOPY (anchor : Z) (d : list Z) (op l : Z) : res (Z * list Z) :=
  let e := op + l in
  '(_, _, d) ← wild_copy (copy_fuel l) s anchor d op e;
  Ok (e, d).

(** [while (ip < matchlimit - (STEPSIZE - 1)) ...]; the flag is the jump to the
    end of the count. *)
Fixpoint count_words (fuel : nat) (ip ref : Z) : res (bool * Z * Z) :=
  match fuel with
  | O => Panic
  | S fuel' =>
      if ip <? matchlimit - (STEPSIZE - 1) then
        a ← A64 s ref; b ← A64 s ip;
        let diff := Z.lxor a b in
        if diff =? 0 then count_words fuel' (ip + STEPSIZE) (ref + STEPSIZE)
        else Ok (true, ip + LZ4_NbCommonBytes diff, ref)
      else Ok (false, ip, ref)
  end.

Definition count_match (ip ref : Z) : res Z :=
  '(stop, ip, ref) ← count_words (copy_fuel isize) ip ref;
  if stop : bool then Ok ip
  else
    '(ip, ref) ← (if ip <? matchlimit - 3 then a ← A32 s ref; b ← A32 s ip; Ok (if a =? b then (ip + 4, ref + 4) else (ip, ref)) else Ok (ip, ref));
    '(ip, ref) ← (if ip <? matchlimit - 1 then a ← A16 s ref; b ← A16 s ip; Ok (if a =? b then (ip + 2, ref + 2) else (ip, ref)) else Ok (ip, ref));
    if ip <? matchlimit then a ← get s ref; b ← get s ip; Ok (if a =? b then ip + 1 else ip) else Ok ip.

(** How the part from [_next_match] on goes on: return 0, the last literals, or
    the next turn of the main loop. *)
Inductive lz4_next : Type :=
| NextFail (d : list Z)
| NextLast (anchor op : Z) (d : list Z)
| NextLoop (ip anchor forwardH op : Z) (d t : list Z).

(** [if (length >= RUN_MASK) ... else ...]: the token and the length of the literals. *)
Definition put_run (d : list Z) (token op l : Z) : res (Z * list Z) :=
  if RUN_MASK <=? l then
    d ← put d token (Z.shiftl RUN_MASK ML_BITS);
    put_length (copy_fuel l) d op (l - RUN_MASK)
  else d ← put d token (Z.shiftl l ML_BITS); Ok (op, d).

(** The same for the length of a match, added to the token. *)
Definition put_match (d : list Z) (token op len : Z) : res (Z * list Z) :=
  v ← get d token;
  if ML_MASK <=? len then
    d ← put d token (v + ML_MASK);
    put_match_length (copy_fuel len) d op (len - ML_MASK)
  else d ← put d token (v + len); Ok (op, d).

(** From the label [_next_match]. *)
Fixpoint next_match (fuel : nat) (d t : list Z) (ip ref token op : Z) : res lz4_next :=
  match fuel with
  | O => Panic
  | S fuel' =>
      d ← put_n d op (le_bytes 2 (ip - ref));
      let op := op + 2 in
      let anchor := ip + MINMATCH in
      ip ← count_match (ip + MINMATCH) (ref + MINMATCH);
      let len := ip - anchor in
      if osize <? op + (1 + LASTLITERALS) + Z.shiftr len 8 then Ok (NextFail d)
      else
        '(op, d) ← put_match d token op len;
        if mflimit <? ip then Ok (NextLast ip op d)
        else
          h ← hash_value (ip - 2);
          let t := table_set t h (ip - 2) in
          h ← hash_value ip;
          ref ← table_get t h;
          let t := table_set t h ip in
          found ← (if small || (ip - (MAX_DISTANCE + 1) <? ref) then a ← A32 s ref; b ← A32 s ip; Ok (a =? b) else Ok false);
          if found : bool then
            d ← put d op 0;
            next_match fuel' d t ip ref op (op + 1)
          else
            h ← hash_value (ip + 1);
            Ok (NextLoop (ip + 1) ip h op d t)
  end.

(** The last literals. *)
Definition last_literals (d : list Z) (anchor op : Z) : res (Z * list Z) :=
  let lastRun := isize - anchor in
  if osize <? op + lastRun + 1 + (lastRun + 255 - RUN_MASK) / 255 then Ok (0, d)
  else
    '(op, d) ← put_run d op (op + 1) lastRun;
    vs ← get_n s anchor lastRun;
    d ← put_n d op vs;
    Ok (op + lastRun, d).

(** The main loop. *)
Fixpoint main_loop (fuel : nat) (d t : list Z) (ip anchor forwardH op : Z) : res (Z * list Z) :=
  match fuel with
  | O => Panic
  | S fuel' =>
      found ← find_match (copy_fuel isize) t ip forwardH (Z.shiftl 1 SKIPSTRENGTH + 3);
      match found with
      | None => last_literals d anchor op
      | Some (ip, ref, t) =>
          '(ip, ref) ← catch_up (copy_fuel isize) ip ref anchor;
          let l := ip - anchor in
          let token := op in
          let op := op + 1 in
          if osize <? op + l + (2 + 1 + LASTLITERALS) + Z.shiftr l 8 then Ok (0, d)
          else
            '(op, d) ← put_run d token op l;
            '(op, d) ← LZ4_BLINDCOPY anchor d op l;
            next ← next_match (copy_fuel isize) d t ip ref token op;
            match next with
            | NextFail d => Ok (0, d)
            | NextLast anchor op d => last_literals d anchor op
            | NextLoop ip anchor forwardH op d t => main_loop fuel' d t ip anchor forwardH op
            end
      end
  end.

Definition compress_ctx (t d : list Z) : res (Z * list Z) :=
  if isize <? MINLENGTH then last_literals d 0 0
  else
    t ← (if small then Ok t else h ← hash_value 0; Ok (table_set t h 0));
    forwardH ← hash_value 1;
    main_loop (copy_fuel isize) d t 1 0 forwardH 0.

End Compress.

Definition LZ4_compressCtx (ctx s d : list Z) (isize osize : Z) : res (Z * list Z) := compress_ctx false s isize osize ctx d.
Definition LZ4_compress64kCtx (ctx s d : list Z) (isize osize : Z) : res (Z * list Z) := compress_ctx true s isize osize ctx d.

(** The context is 16 KiB of zeros: 4096 words of 32 bits or 8192 of 16.  It is
    allocated with [KM_SLEEP], which waits for memory: the branch for a null context
    is not taken and left out. *)
Definition real_LZ4_compress (s d : list Z) (isize osize : Z) : res (Z * list Z) :=
  if isize <? LZ4_64KLIMIT then LZ4_compress64kCtx (replicate (Z.to_nat (Z.shiftl 1 HASHLOG64K)) 0) s d isize osize
  else LZ4_compressCtx (replicate (Z.to_nat (Z.shiftl 1 HASH_LOG)) 0) s d isize osize.

(** ** Decompression *)

Definition dec32table : list Z := [0; 3; 2; 3; 0; 0; 0; 0].
Definition dec64table : list Z := [0; 0; 0; -1; 0; 1; 2; 3].

(** Positions are offsets into the two buffers.  The test [cpy < op] for a pointer
    that wraps around the address space is left out: the sum of a buffer's address
    and a length, which is at most 255 times the size of the input, does not wrap
    with addresses of 64 bits. *)
Section Decompress.

Variables (s : list Z) (isize maxOutputSize : Z).

(** The loops that add up a length; [None] is the jump to the error. *)
Fixpoint get_run (fuel : nat) (ip l last : Z) : res (option (Z * Z)) :=
  match fuel with
  | O => Panic
  | S fuel' =>
      if (ip <? isize) && (last =? 255) then
        v ← get s ip;
        if wrap64 (l + v) <? l then Ok None
        else get_run fuel' (ip + 1) (wrap64 (l + v)) v
      else Ok (Some (ip, l))
  end.

Fixpoint get_match_run (fuel : nat) (ip l : Z) : res (option (Z * Z)) :=
  match fuel with
  | O => Panic
  | S fuel' =>
      if ip <? isize then
        v ← get s ip;
        if wrap64 (l + v) <? l then Ok None
        else if v =? 255 then get_match_run fuel' (ip + 1) (wrap64 (l + v))
        else Ok (Some (ip + 1, wrap64 (l + v)))
      else Ok (Some (ip, l))
  end.

(** [while (op < cpy) *op++ = *ref++;] *)
Fixpoint copy_bytes_to (fuel : nat) (d : list Z) (op ref cpy : Z) : res (list Z) :=
  match fuel with
  | O => Panic
  | S fuel' =>
      if op <? cpy then v ← get d ref; d ← put d op v; copy_bytes_to fuel' d (op + 1) (ref + 1) cpy
      else Ok d
  end.

(** [LZ4_WILDCOPY] with both pointers in the target. *)
Fixpoint wild_copy_self (fuel : nat) (db : list Z) (sp dp e : Z) : res (Z * Z * list Z) :=
  match fuel with
  | O => Panic
  | S fuel' =>
      db ← LZ4_COPYSTEP db sp db dp;
      if dp + 8 <? e then wild_copy_self fuel' db (sp + 8) (dp + 8) e else Ok (sp + 8, dp + 8, db)
  end.

(** [LZ4_SECURECOPY(ref, op, e)] *)
Definition LZ4_SECURECOPY (d : list Z) (ref op e : Z) : res (Z * Z * list Z) :=
  if op <? e then wild_copy_self (copy_fuel (e - op)) d ref op e else Ok (ref, op, d).

(** The first eight bytes of a copy; the distance may be smaller. *)
Definition copy_start (d : list Z) (op ref : Z) : res (Z * Z * list Z) :=
  if op - ref <? STEPSIZE then
    dec64 ← deref (dec64table !! Z.to_nat (op - ref));
    v ← get d ref; d ← put d op v;
    v ← get d (ref + 1); d ← put d (op + 1) v;
    v ← get d (ref + 2); d ← put d (op + 2) v;
    v ← get d (ref + 3); d ← put d (op + 3) v;
    let op := op + 4 in
    let ref := ref + 4 in
    dec32 ← deref (dec32table !! Z.to_nat (op - ref));
    let ref := ref - dec32 in
    vs ← get_n d ref 4;
    d ← put_n d op vs;
    Ok (op + (STEPSIZE - 4), ref - dec64, d)
  else
    d ← LZ4_COPYSTEP d ref d op;
    Ok (op + 8, ref + 8, d).

(** The rest of the copy; [None] is the jump to the error. *)
Definition copy_rest (d : list Z) (op ref l : Z) : res (option Z * list Z) :=
  let cpy := op + l - (STEPSIZE - 4) in
  if maxOutputSize - COPYLENGTH <? cpy then
    if maxOutputSize <? cpy then Ok (None, d)
    else if maxOutputSize <? ref + COPYLENGTH then Ok (None, d)
    else
      '(ref, op, d) ← LZ4_SECURECOPY d ref op (maxOutputSize - COPYLENGTH);
      d ← copy_bytes_to (copy_fuel (cpy - op)) d op ref cpy;
      if cpy =? maxOutputSize then Ok (None, d) else Ok (Some cpy, d)
  else
    '(_, _, d) ← LZ4_SECURECOPY d ref op cpy;
    Ok (Some cpy, d).

Fixpoint uncompress_loop (fuel : nat) (d : list Z) (ip op : Z) : res (Z * list Z) :=
  match fuel with
  | O => Panic
  | S fuel' =>
      if ip <? isize then
        token ← get s ip;
        let ip := ip + 1 in
        let l := Z.shiftr token ML_BITS in
        r ← (if l =? RUN_MASK then get_run (copy_fuel isize) ip l 255 else Ok (Some (ip, l)));
        match r with
        | None => Ok (-1, d)
        | Some (ip, l) =>
            let cpy := op + l in
            if cpy <? op then Ok (-1, d)
            else if (maxOutputSize - COPYLENGTH <? cpy) || (isize - COPYLENGTH <? ip + l) then
              if maxOutputSize <? cpy then Ok (-1, d)
              else if negb (ip + l =? isize) then Ok (-1, d)
              else
                vs ← get_n s ip l;
                d ← put_n d op vs;
                Ok (op + l, d)
            else
              '(ip, op, d) ← wild_copy (copy_fuel l) s ip d op cpy;
              let ip := ip - (op - cpy) in
              let op := cpy in
              off ← A16 s ip;
              let ref := cpy - off in
              let ip := ip + 2 in
              if ref <? 0 then Ok (-1, d)
              else
                let l := Z.land token ML_MASK in
                r ← (if l =? ML_MASK then get_match_run (copy_fuel isize) ip l else Ok (Some (ip, l)));
                match r with
                | None => Ok (-1, d)
                | Some (ip, l) =>
                    '(op, ref, d) ← copy_start d op ref;
                    '(next, d) ← copy_rest d op ref l;
                    match next with
                    | None => Ok (-1, d)
                    | Some op => uncompress_loop fuel' d ip op
                    end
                end
        end
      else Ok (op, d)
  end.

Definition LZ4_uncompress_unknownOutputSize (d : list Z) : res (Z * list Z) := uncompress_loop (copy_fuel isize) d 0 0.

End Decompress.

(** ** The entry points *)

(** The four bytes of [BE_32(bufsiz)] in memory, and [BE_IN32]. *)
Definition be32_bytes (w : Z) : list Z := rev (le_bytes 4 w).
Definition BE_IN32 (b : list Z) : res Z := vs ← get_n b 0 4; Ok (le_word (rev vs)).

(** [&dest[sizeof (bufsiz)]] is the buffer without its first four bytes. *)
Definition lz4_compress_zfs (s d : list Z) (s_len d_len n : Z) : res (Z * list Z) :=
  '(bufsiz, body) ← real_LZ4_compress s (drop 4 d) (to_int s_len) (to_int (d_len - 4));
  if bufsiz =? 0 then Ok (s_len, take 4 d ++ body)
  else d ← put_n (take 4 d ++ body) 0 (be32_bytes bufsiz); Ok (bufsiz + 4, d).

Definition lz4_decompress_zfs (s d : list Z) (s_len d_len n : Z) : res (Z * list Z) :=
  bufsiz ← BE_IN32 s;
  if s_len <? bufsiz + 4 then Ok (1, d)
  else
    '(r, d) ← LZ4_uncompress_unknownOutputSize (drop 4 s) (to_int bufsiz) (to_int d_len) d;
    Ok (if r <? 0 then 1 else 0, d).
