(* ===== verification/Lz4Format.v ===== *)
(** * The LZ4 format, and buffers written in place

    A block is a list of sequences, each some literals and a copy, and the last
    literals.  [seq_bytes] and [last_bytes] are their encoding, [expand_seqs] is
    what they stand for; [seqs_ok] has the conditions on the end of a block that
    let the decoder copy eight bytes at a time. *)

From S2P Require Import Prelude Buffer Lz4.

(** ** Lengths *)

(** The bytes after a field of four bits that holds at most 15. *)
Definition ext (n : Z) : list Z :=
  if n <? 15 then [] else replicate (Z.to_nat ((n - 15) / 255)) 255 ++ [(n - 15) mod 255].

Lemma ext_step n : 270 <= n -> ext n = 255 :: ext (n - 255).
Proof.
  intros Hn. unfold ext. rewrite !(proj2 (Z.ltb_ge _ 15)) by lia.
  replace (n - 15) with (n - 255 - 15 + 1 * 255) by lia. rewrite Z.div_add, Z_mod_plus_full by lia.
  pose proof (Z.div_pos (n - 255 - 15) 255 ltac:(lia) ltac:(lia)).
  replace (Z.to_nat _) with (S (Z.to_nat ((n - 255 - 15) / 255))) by lia. done.
Qed.

Lemma ext_last n : 15 <= n < 270 -> ext n = [n - 15].
Proof. intros Hn. unfold ext. by rewrite (proj2 (Z.ltb_ge _ 15)), Z.div_small, Z.mod_small by lia. Qed.

Lemma length_ext n : 0 <= n -> zlen (ext n) <= n / 256 + n / 65280 + 2.
Proof.
  intros Hn. unfold ext. destruct (Z.ltb_spec n 15); [cbn [length]; pose proof (Z.div_pos n 256); pose proof (Z.div_pos n 65280); lia|].
  app_len. rewrite length_replicate. pose proof (Z.div_pos (n - 15) 255). rewrite Nat2Z.inj_add, Z2Nat.id by lia.
  Z.to_euclidean_division_equations. lia.
Qed.

Lemma ext_u8 n : 0 <= n -> Forall is_u8 (ext n).
Proof.
  intros Hn. unfold ext. destruct (Z.ltb_spec n 15); [done|]. apply Forall_app. split; [by apply Forall_replicate|].
  apply Forall_singleton. pose proof (Z.mod_pos_bound (n - 15) 255). unfold is_u8. lia.
Qed.

(** ** Sequences *)

Record lz4_seq : Type := Seq { sq_lits : list Z; sq_off : Z; sq_len : Z }.

Definition seq_token (nlits len : Z) : Z := 16 * Z.min 15 nlits + Z.min 15 (len - 4).

Definition seq_bytes (q : lz4_seq) : list Z :=
  seq_token (zlen (sq_lits q)) (sq_len q) :: ext (zlen (sq_lits q)) ++ sq_lits q ++ le_bytes 2 (sq_off q) ++ ext (sq_len q - 4).

Definition last_bytes (ll : list Z) : list Z := 16 * Z.min 15 (zlen ll) :: ext (zlen ll) ++ ll.

Definition expand_seq (out : list Z) (q : lz4_seq) : list Z := lz_copy (Z.to_nat (sq_len q)) (out ++ sq_lits q) (sq_off q).

Definition expand_seqs (qs : list lz4_seq) (out : list Z) : list Z := foldl expand_seq out qs.

(** A sequence of a block of [n] bytes, after the output [out]. *)
Record seq_ok (n : Z) (out : list Z) (q : lz4_seq) : Prop := {
  sk_lits : Forall is_u8 (sq_lits q);
  sk_off : 0 < sq_off q <= 65535;
  sk_back : sq_off q <= zlen (out ++ sq_lits q);
  sk_len : 4 <= sq_len q;
  sk_start : zlen (out ++ sq_lits q) <= n - 12;
  sk_end : zlen (out ++ sq_lits q) + sq_len q <= n - 5
}.

Fixpoint seqs_ok (n : Z) (out : list Z) (qs : list lz4_seq) : Prop :=
  match qs with [] => True | q :: qs' => seq_ok n out q /\ seqs_ok n (expand_seq out q) qs' end.

Lemma seqs_ok_snoc n out qs q : seqs_ok n out qs -> seq_ok n (expand_seqs qs out) q -> seqs_ok n out (qs ++ [q]).
Proof. revert out. induction qs as [|q0 qs IH]; intros out; cbn; [done|]. intros [H0 H] Hq. split; [done|]. by apply IH. Qed.

Lemma expand_seqs_snoc qs q out : expand_seqs (qs ++ [q]) out = expand_seq (expand_seqs qs out) q.
Proof. unfold expand_seqs. by rewrite foldl_app. Qed.

Lemma length_expand_seq n out q : seq_ok n out q -> zlen (expand_seq out q) = zlen (out ++ sq_lits q) + sq_len q.
Proof. intros []. unfold expand_seq. rewrite length_lz_copy. lia. Qed.

Lemma expand_seq_u8 n out q : Forall is_u8 out -> seq_ok n out q -> Forall is_u8 (expand_seq out q).
Proof. intros Hu []. apply lz_copy_u8, Forall_app. done. Qed.

(** The block [s] of [n] bytes as sequences and last literals. *)
Definition lz4_block (s : list Z) (n : Z) (qs : list lz4_seq) (ll : list Z) : Prop :=
  take (Z.to_nat n) s = expand_seqs qs [] ++ ll /\ seqs_ok n [] qs /\ Forall is_u8 ll.

Definition block_bytes (qs : list lz4_seq) (ll : list Z) : list Z := (q ← qs; seq_bytes q) ++ last_bytes ll.

(** ** Writing in place *)

(** The first [p] bytes. *)
Definition upto (d : list Z) (p : Z) : list Z := take (Z.to_nat p) d.

(** Only the bytes from [lo] on and before [hi] may differ. *)
Record writes (lo hi : Z) (d d' : list Z) : Prop := {
  wr_len : length d' = length d;
  wr_lo : upto d' lo = upto d lo;
  wr_hi : drop (Z.to_nat hi) d' = drop (Z.to_nat hi) d
}.

Lemma writes_refl lo hi d : writes lo hi d d.
Proof. by constructor. Qed.

Lemma take_take_le {A} (l : list A) n m : (n <= m)%nat -> take n (take m l) = take n l.
Proof. intros H. rewrite take_take. f_equal. lia. Qed.

Lemma upto_le d d' p q : p <= q -> upto d' q = upto d q -> upto d' p = upto d p.
Proof.
  intros Hp H. unfold upto in *. rewrite <- (take_take_le d' _ (Z.to_nat q)) by lia. rewrite <- (take_take_le d _ (Z.to_nat q)) by lia. by rewrite H.
Qed.

Lemma writes_weaken lo hi lo' hi' d d' : lo' <= lo -> hi <= hi' -> writes lo hi d d' -> writes lo' hi' d d'.
Proof.
  intros Hlo Hhi []. constructor; [done|by eapply upto_le|]. replace (Z.to_nat hi') with (Z.to_nat hi + (Z.to_nat hi' - Z.to_nat hi))%nat by lia.
  by rewrite <- !drop_drop, wr_hi0.
Qed.

Lemma writes_trans lo hi d1 d2 d3 : writes lo hi d1 d2 -> writes lo hi d2 d3 -> writes lo hi d1 d3.
Proof. intros [] []. constructor; congruence. Qed.

Lemma put_n_upto d i vs :
  0 <= i -> i + zlen vs <= zlen d ->
  exists d', put_n d i vs = Ok d' /\ writes i (i + zlen vs) d d' /\ upto d' (i + zlen vs) = upto d i ++ vs.
Proof.
  intros Hi Hl. destruct (split_at d i) as (x & d1 & -> & Hx); [lia|]. destruct (split_at d1 (zlen vs)) as (m & y & -> & Hm); [app_len; lia|].
  rewrite <- Hx, put_n_next by lia. eexists. split; [done|]. assert (E : Z.to_nat (zlen x + zlen vs) = length (x ++ vs)) by (app_len; lia).
  assert (E' : length (x ++ vs) = length (x ++ m)) by (app_len; lia). split; [constructor|].
  - app_len. lia.
  - unfold upto. by rewrite !Nat2Z.id, !take_app_length.
  - rewrite E, !(app_assoc x). rewrite drop_app_length, E', drop_app_length. done.
  - unfold upto. by rewrite E, Nat2Z.id, app_assoc, !take_app_length.
Qed.

Lemma put_upto d i v :
  0 <= i < zlen d -> exists d', put d i v = Ok d' /\ writes i (i + 1) d d' /\ upto d' (i + 1) = upto d i ++ [wrap8 v].
Proof.
  intros Hi. destruct (put_n_upto d i [wrap8 v]) as (d' & E & Hw & Hu); [lia|cbn [length]; lia|]. exists d'. split; [|done].
  rewrite put_ok by done. unfold put_n in E. cbn [length] in E. rewrite !(proj2 (Z.leb_le _ _)) in E by lia. done.
Qed.

Lemma length_upto d p : 0 <= p <= zlen d -> zlen (upto d p) = p.
Proof. intros Hp. unfold upto. rewrite length_take. lia. Qed.

Lemma byte_upto d p i : 0 <= i < p -> byte (upto d p) i = byte d i.
Proof. apply byte_take. Qed.

Lemma upto_sub d p q : 0 <= p <= q -> upto d q = upto d p ++ sub_bytes d p q.
Proof. intros Hp. unfold upto. rewrite <- !sub_bytes_0, sub_bytes_app by lia. done. Qed.

Lemma sub_upto d a b p : 0 <= a <= b -> b <= p -> sub_bytes (upto d p) a b = sub_bytes d a b.
Proof.
  intros Ha Hb. unfold upto, sub_bytes. rewrite skipn_firstn_comm, take_take_le by lia. done.
Qed.
