(* ===== verification/Lz4Decode.v ===== *)
(** * Decompression of LZ4 blocks

    [LZ4_uncompress_unknownOutputSize] stays inside its buffers on any input, and
    expands every block in the format of [Lz4Format].  The copies are of eight
    bytes at a time: a copy at a distance below eight first writes eight bytes
    and moves its source back to a multiple of the distance that is at least
    eight, so that no packet reads what it is about to write. *)

From S2P Require Import Prelude Bits Buffer Lz4 Lz4Format.

(** ** Copies at a distance *)

Lemma lz_copy_block n out D :
  0 <= n <= D -> D <= zlen out -> lz_copy (Z.to_nat n) out D = out ++ sub_bytes out (zlen out - D) (zlen out - D + n).
Proof.
  intros Hn HD. rewrite <- (Z2Nat.id n) at 2 by lia. rewrite <- (Z2Nat.id n) in Hn by lia. set (k := Z.to_nat n) in *. clearbody k. clear n.
  induction k as [|k IH]. { cbn [lz_copy]. by rewrite Z.add_0_r, sub_bytes_nil, app_nil_r. }
  replace (S k) with (k + 1)%nat by lia. rewrite lz_copy_add, IH by lia. cbn [lz_copy].
  rewrite <- app_assoc. f_equal. replace (Z.of_nat (k + 1)) with (Z.of_nat k + 1) by lia. rewrite Z.add_assoc, sub_bytes_snoc by lia. f_equal.
  assert (El : zlen (sub_bytes out (zlen out - D) (zlen out - D + Z.of_nat k)) = Z.of_nat k) by (rewrite length_sub_bytes; lia).
  app_len. rewrite Nat2Z.inj_add, El. rewrite byte_app_l by lia. do 2 f_equal. lia.
Qed.

Lemma lz_copy_take n k out off : take (length out + n) (lz_copy (n + k) out off) = lz_copy n out off.
Proof.
  rewrite lz_copy_add. set (x := lz_copy n out off). assert (E : (length out + n)%nat = length x) by (unfold x; by rewrite length_lz_copy).
  rewrite E. clearbody x. clear E out n. revert x. induction k as [|k IH]; intros x; cbn [lz_copy]; [apply take_ge; lia|].
  rewrite <- (take_take_le _ (length x) (length (x ++ [byte x (zlen x - off)]))) by (app_len; lia). rewrite IH. apply take_app_length.
Qed.

(** From [a] on every byte is the one [off] before it. *)
Definition periodic (out : list Z) (a off : Z) : Prop := forall i, a <= i < zlen out -> byte out i = byte out (i - off).

Lemma periodic_snoc out a off v :
  0 < off <= a -> a <= zlen out -> periodic out a off -> v = byte out (zlen out - off) -> periodic (out ++ [v]) a off.
Proof.
  intros Ho Ha Hp -> i Hi. app_len. destruct (decide (i = zlen out)) as [->|].
  - rewrite byte_app_r, Z.sub_diag, byte_app_l by lia. done.
  - rewrite !byte_app_l by lia. apply Hp. lia.
Qed.

Lemma lz_copy_periodic n out off : 0 < off <= zlen out -> periodic (lz_copy n out off) (zlen out) off.
Proof.
  intros Ho. assert (H : forall out', zlen out <= zlen out' -> periodic out' (zlen out) off -> periodic (lz_copy n out' off) (zlen out) off).
  { induction n as [|n IH]; intros out' Hl Hp; [done|]. cbn [lz_copy]. apply IH; [app_len; lia|]. by apply periodic_snoc. }
  apply H; [lia|]. intros i Hi. lia.
Qed.

Lemma periodic_multiple out a off k :
  0 < off <= a -> periodic out a off -> 1 <= k -> a <= zlen out - k * off + off -> byte out (zlen out - k * off) = byte out (zlen out - off).
Proof.
  intros Ho Hp Hk. replace k with (Z.of_nat (Z.to_nat (k - 1)) + 1) by lia. induction (Z.to_nat (k - 1)) as [|j IH]; intros Ha; [f_equal; lia|].
  rewrite <- IH by lia. rewrite (Hp (zlen out - (Z.of_nat j + 1) * off)) by lia. f_equal. lia.
Qed.

(** A multiple of the distance gives the same copy. *)
Lemma lz_copy_distance n out a off D :
  0 < off <= a -> a <= zlen out -> periodic out a off -> (off | D) -> 0 < D -> D - off <= zlen out - a -> lz_copy n out D = lz_copy n out off.
Proof.
  intros Ho Ha Hp [k ->] HD Hlen. revert out Ha Hp Hlen. induction n as [|n IH]; intros out Ha Hp Hlen; [done|]. cbn [lz_copy].
  rewrite (periodic_multiple out a off k) by (done || nia). apply IH; [app_len; lia| |app_len; lia]. by apply periodic_snoc.
Qed.

(** ** The copying loops *)

Lemma LZ4_COPYSTEP_ok sb sp db dp :
  0 <= sp -> sp + 8 <= zlen sb -> 0 <= dp -> dp + 8 <= zlen db ->
  exists db', LZ4_COPYSTEP sb sp db dp = Ok db' /\ writes dp (dp + 8) db db' /\ upto db' (dp + 8) = upto db dp ++ sub_bytes sb sp (sp + 8).
Proof.
  intros Hsp Hsl Hdp Hdl. unfold LZ4_COPYSTEP. rewrite get_n_sub by lia. cbn [mbind res_bind].
  assert (El : zlen (sub_bytes sb sp (sp + 8)) = 8) by (rewrite length_sub_bytes; lia).
  destruct (put_n_upto db dp (sub_bytes sb sp (sp + 8))) as (db' & E & Hw & Hu); [lia..|]. rewrite El in *. by exists db'.
Qed.

Lemma wild_copy_ok fuel sb sp db dp e :
  0 <= sp -> sp + 8 <= zlen sb -> sp + (e - dp) + 7 <= zlen sb -> 0 <= dp -> dp + 8 <= zlen db -> e + 7 <= zlen db -> (Z.to_nat (e - dp) < fuel)%nat ->
  exists n db', wild_copy fuel sb sp db dp e = Ok (sp + n, dp + n, db') /\ 8 <= n /\ e <= dp + n /\ dp + n <= Z.max (dp + 8) (e + 7) /\
    writes dp (dp + n) db db' /\ upto db' (dp + n) = upto db dp ++ sub_bytes sb sp (sp + n).
Proof.
  revert sp db dp. induction fuel as [|fuel IH]; intros sp db dp Hsp Hs8 Hsl Hdp Hd8 Hdl Hf; [lia|]. cbn [wild_copy].
  destruct (LZ4_COPYSTEP_ok sb sp db dp) as (db1 & -> & Hw1 & Hu1); [lia..|]. cbn [mbind res_bind].
  destruct (Z.ltb_spec (dp + 8) e).
  - pose proof (wr_len _ _ _ _ Hw1). destruct (IH (sp + 8) db1 (dp + 8)) as (n & db2 & -> & Hn & He & Hm & Hw2 & Hu2); [lia..|].
    exists (8 + n), db2. replace (sp + (8 + n)) with (sp + 8 + n) by lia. replace (dp + (8 + n)) with (dp + 8 + n) by lia. split_and!; [done|lia..| |].
    + apply (writes_trans _ _ _ db1); [apply (writes_weaken dp (dp + 8)); [lia..|done]|apply (writes_weaken (dp + 8) (dp + 8 + n)); [lia..|done]].
    + rewrite Hu2, Hu1, <- app_assoc, sub_bytes_app by lia. done.
  - exists 8, db1. split_and!; [done|lia..|done|done].
Qed.

(** Inside the target, up to the limit [m]. *)
Lemma wild_copy_self_ok fuel d sp dp e m :
  0 <= sp <= dp -> dp < e -> e + 7 <= m -> m <= zlen d -> (Z.to_nat (e - dp) < fuel)%nat ->
  exists n d', wild_copy_self fuel d sp dp e = Ok (sp + n, dp + n, d') /\ 0 <= n /\ e <= dp + n <= m /\ writes dp m d d' /\
    (8 <= dp - sp -> upto d' (dp + n) = lz_copy (Z.to_nat n) (upto d dp) (dp - sp)).
Proof.
  revert sp d dp. induction fuel as [|fuel IH]; intros sp d dp Hsp He Hm Hd Hf; [lia|]. cbn [wild_copy_self].
  destruct (LZ4_COPYSTEP_ok d sp d dp) as (d1 & -> & Hw1 & Hu1); [lia..|]. cbn [mbind res_bind].
  assert (Hw1' : writes dp m d d1) by (by apply (writes_weaken dp (dp + 8)); [lia..|]).
  assert (Hc : 8 <= dp - sp -> upto d1 (dp + 8) = lz_copy (Z.to_nat 8) (upto d dp) (dp - sp)).
  { intros HD. rewrite Hu1, lz_copy_block by (rewrite ?length_upto; lia). f_equal. rewrite length_upto by lia. rewrite sub_upto by lia. f_equal; lia. }
  destruct (Z.ltb_spec (dp + 8) e).
  - pose proof (wr_len _ _ _ _ Hw1). destruct (IH (sp + 8) d1 (dp + 8)) as (n & d2 & -> & Hn & He' & Hw2 & Hu2); [lia..|].
    exists (8 + n), d2. replace (sp + (8 + n)) with (sp + 8 + n) by lia. replace (dp + (8 + n)) with (dp + 8 + n) by lia. split_and!; [done|lia..| |].
    + apply (writes_trans _ _ _ d1); [done|apply (writes_weaken (dp + 8) m); [lia..|done]].
    + intros HD. rewrite Hu2, Hc by lia. rewrite Z2Nat.inj_add, lz_copy_add by lia. f_equal. lia.
  - exists 8, d1. split_and!; [done|lia..|done|done].
Qed.

Lemma LZ4_SECURECOPY_ok d ref op e m :
  0 <= ref <= op -> op <= m -> e + 7 <= m -> m <= zlen d ->
  exists n d', LZ4_SECURECOPY d ref op e = Ok (ref + n, op + n, d') /\ 0 <= n /\ e <= op + n <= m /\ writes op m d d' /\
    (8 <= op - ref -> upto d' (op + n) = lz_copy (Z.to_nat n) (upto d op) (op - ref)).
Proof.
  intros Hr Ho He Hm. unfold LZ4_SECURECOPY. destruct (Z.ltb_spec op e).
  - apply wild_copy_self_ok; unfold copy_fuel; lia.
  - exists 0, d. rewrite !Z.add_0_r. split_and!; [done|lia..|apply writes_refl|done].
Qed.

(** One byte. *)
Lemma copy_byte_ok d op ref :
  0 <= ref <= op -> op < zlen d ->
  exists v d', get d ref = Ok v /\ put d op v = Ok d' /\ writes op (op + 1) d d' /\
    (ref < op -> Forall is_u8 (upto d op) -> upto d' (op + 1) = lz_copy 1 (upto d op) (op - ref)).
Proof.
  intros Hr Ho. destruct (put_upto d op (byte d ref)) as (d' & E & Hw & Hu); [lia|]. exists (byte d ref), d'.
  rewrite get_ok by lia. split_and!; [done..|]. intros Hlt H8. rewrite Hu. cbn [lz_copy]. rewrite length_upto by lia.
  replace (op - (op - ref)) with ref by lia. rewrite byte_upto by lia. f_equal. f_equal. apply wrap8_small.
  rewrite <- (byte_upto d op) by lia. by apply byte_u8.
Qed.

Lemma copy_bytes_to_ok fuel d op ref cpy m :
  0 <= ref <= op -> cpy <= m -> op <= m -> m <= zlen d -> (Z.to_nat (cpy - op) < fuel)%nat ->
  exists n d', copy_bytes_to fuel d op ref cpy = Ok d' /\ 0 <= n /\ cpy <= op + n <= m /\ writes op m d d' /\
    (ref < op -> Forall is_u8 (upto d op) -> upto d' (op + n) = lz_copy (Z.to_nat n) (upto d op) (op - ref)).
Proof.
  revert d op ref. induction fuel as [|fuel IH]; intros d op ref Hr Hc Ho Hm Hf; [lia|]. cbn [copy_bytes_to].
  destruct (Z.ltb_spec op cpy).
  - destruct (copy_byte_ok d op ref) as (v & d1 & -> & E & Hw1 & Hu1); [lia..|]. cbn [mbind res_bind]. rewrite E. cbn [mbind res_bind].
    pose proof (wr_len _ _ _ _ Hw1). destruct (IH d1 (op + 1) (ref + 1)) as (n & d2 & -> & Hn & He & Hw2 & Hu2); [lia..|].
    exists (1 + n), d2. replace (op + (1 + n)) with (op + 1 + n) by lia. split_and!; [done|lia..| |].
    + apply (writes_trans _ _ _ d1); [apply (writes_weaken op (op + 1))|apply (writes_weaken (op + 1) m)]; lia || done.
    + intros Hlt H8. specialize (Hu1 Hlt H8). rewrite Hu2 by (lia || rewrite Hu1; by apply lz_copy_u8).
      rewrite Hu1, Z2Nat.inj_add, lz_copy_add by lia. f_equal. lia.
  - exists 0, d. rewrite Z.add_0_r. split_and!; [done|lia..|apply writes_refl|done].
Qed.

(** ** The start of a copy *)

(** The two tables move the source of a copy at a distance below eight. *)
Lemma dec_tables off :
  0 <= off < 8 ->
  exists a b, dec32table !! Z.to_nat off = Some a /\ dec64table !! Z.to_nat off = Some b /\ 0 <= a <= 4 /\ 1 <= 4 - a - b <= 4 /\
    (0 < off -> (off | off + a) /\ 4 <= off + a /\ (off | off + 4 + a + b) /\ 8 <= off + 4 + a + b <= off + 8).
Proof.
  intros Ho. assert (H : off = 0 \/ off = 1 \/ off = 2 \/ off = 3 \/ off = 4 \/ off = 5 \/ off = 6 \/ off = 7) by lia.
  repeat destruct H as [->|H]; try subst off; (eexists _, _; split; [reflexivity|]; split; [reflexivity|]; split; [lia|]; split; [lia|];
    intros; split_and!; try lia).
  all: match goal with |- (?k | ?n) => exists (n / k); reflexivity end.
Qed.

(** Four bytes, one after the other. *)
Lemma copy_four_ok d op ref :
  0 <= ref <= op -> op + 4 <= zlen d ->
  exists d', (v ← get d ref; d ← put d op v; v ← get d (ref + 1); d ← put d (op + 1) v; v ← get d (ref + 2); d ← put d (op + 2) v;
      v ← get d (ref + 3); put d (op + 3) v) = Ok d' /\ writes op (op + 4) d d' /\
    (ref < op -> Forall is_u8 (upto d op) -> upto d' (op + 4) = lz_copy 4 (upto d op) (op - ref)).
Proof.
  intros Hr Ho.
  assert (Hstep : forall k d1, 0 <= k < 4 -> writes op (op + 4) d d1 ->
    exists v d2, get d1 (ref + k) = Ok v /\ put d1 (op + k) v = Ok d2 /\ writes op (op + 4) d d2 /\
      (ref < op -> Forall is_u8 (upto d op) -> upto d1 (op + k) = lz_copy (Z.to_nat k) (upto d op) (op - ref) ->
        upto d2 (op + (k + 1)) = lz_copy (Z.to_nat (k + 1)) (upto d op) (op - ref))).
  { intros k d1 Hk Hw1. pose proof (wr_len _ _ _ _ Hw1). destruct (copy_byte_ok d1 (op + k) (ref + k)) as (v & d2 & E1 & E2 & Hw & Hu); [lia..|].
    exists v, d2. split_and!; [done..| |].
    - apply (writes_trans _ _ _ d1); [done|]. apply (writes_weaken (op + k) (op + k + 1)); [lia..|done].
    - intros Hlt H8 Hu1. rewrite Z.add_assoc, Hu, Hu1 by (lia || rewrite Hu1; by apply lz_copy_u8). replace (op + k - (ref + k)) with (op - ref) by lia.
      rewrite <- lz_copy_add. f_equal. lia. }
  destruct (Hstep 0 d ltac:(lia) (writes_refl _ _ _)) as (v0 & d0 & G0 & P0 & W0 & U0). rewrite !Z.add_0_r in *.
  rewrite G0. cbn [mbind res_bind]. rewrite P0. cbn [mbind res_bind].
  destruct (Hstep 1 d0 ltac:(lia) W0) as (v1 & d1 & -> & P1 & W1 & U1). cbn [mbind res_bind]. rewrite P1. cbn [mbind res_bind].
  destruct (Hstep 2 d1 ltac:(lia) W1) as (v2 & d2 & -> & P2 & W2 & U2). cbn [mbind res_bind]. rewrite P2. cbn [mbind res_bind].
  destruct (Hstep 3 d2 ltac:(lia) W2) as (v3 & d3 & -> & P3 & W3 & U3). cbn [mbind res_bind]. rewrite P3.
  exists d3. split; [done|]. split; [done|]. intros Hlt H8. by apply U3, U2, U1, U0.
Qed.

Lemma copy_start_ok d op ref :
  0 <= ref <= op -> op + 8 <= zlen d ->
  exists ref' d', copy_start d op ref = Ok (op + 8, ref', d') /\ writes op (op + 8) d d' /\ 0 <= ref' <= op + 8 /\ ref' <= op + 4 /\
    (ref < op -> Forall is_u8 (upto d op) ->
      upto d' (op + 8) = lz_copy 8 (upto d op) (op - ref) /\
      8 <= op + 8 - ref' <= op - ref + 8 /\ (op - ref | op + 8 - ref') /\ ref' <= op).
Proof.
  intros Hr Ho. unfold copy_start. change STEPSIZE with 8. destruct (Z.ltb_spec (op - ref) 8) as [Hshort|Hlong].
  - destruct (dec_tables (op - ref)) as (a & b & Ea & Eb & Ha & Hab & Hdiv); [lia|]. rewrite Eb. cbn [deref mbind res_bind].
    destruct (copy_four_ok d op ref) as (d1 & E & Hw & Hu); [lia..|].
    match goal with |- exists _ _, ?t = _ /\ _ => assert (Et : t = (d1 ← Ok d1; dec32 ← deref (dec32table !! Z.to_nat (op + 4 - (ref + 4)));
      vs ← get_n d1 (ref + 4 - dec32) 4; d ← put_n d1 (op + 4) vs; Ok (op + 4 + (8 - 4), ref + 4 - dec32 - b, d))) end.
    { rewrite <- E. do 8 (match goal with |- ?r ≫= _ = _ => destruct r; [cbn [mbind res_bind]|done] end). done. }
    rewrite Et. cbn [mbind res_bind]. replace (op + 4 - (ref + 4)) with (op - ref) by lia. rewrite Ea. cbn [deref mbind res_bind].
    pose proof (wr_len _ _ _ _ Hw). rewrite get_n_sub by lia. cbn [mbind res_bind]. set (r1 := ref + 4 - a).
    assert (El : zlen (sub_bytes d1 r1 (r1 + 4)) = 4) by (rewrite length_sub_bytes; unfold r1; lia).
    destruct (put_n_upto d1 (op + 4) (sub_bytes d1 r1 (r1 + 4))) as (d2 & -> & Hw2 & Hu2); [lia..|]. rewrite El in *. cbn [mbind res_bind].
    exists (r1 - b), d2. replace (op + 4 + (8 - 4)) with (op + 8) by lia. replace (op + 4 + 4) with (op + 8) in * by lia.
    split; [done|]. split. { apply (writes_trans _ _ _ d1); [apply (writes_weaken op (op + 4))|apply (writes_weaken (op + 4) (op + 8))]; lia || done. }
    unfold r1 in *. split; [lia|]. split; [lia|]. intros Hlt H8. specialize (Hu Hlt H8). destruct (Hdiv ltac:(lia)) as (D1 & B1 & D2 & B2).
    split_and!; [|lia..| |lia].
    + rewrite Hu2. assert (Lu : zlen (upto d1 (op + 4)) = op + 4) by (rewrite length_upto; lia).
      assert (Ed : sub_bytes d1 (ref + 4 - a) (ref + 4 - a + 4) = sub_bytes (upto d1 (op + 4)) (zlen (upto d1 (op + 4)) - (op - ref + a)) (zlen (upto d1 (op + 4)) - (op - ref + a) + 4)).
      { rewrite Lu, sub_upto by lia. f_equal; lia. }
      rewrite Ed, <- (lz_copy_block 4) by lia. change (Z.to_nat 4) with 4%nat.
      assert (Lo : zlen (upto d op) = op) by (rewrite length_upto; lia).
      rewrite (lz_copy_distance 4 _ op (op - ref)); [|lia|lia| |done|lia|lia].
      * rewrite Hu, <- lz_copy_add. done.
      * rewrite Hu. pose proof (lz_copy_periodic 4 (upto d op) (op - ref)) as Hp. rewrite Lo in Hp. apply Hp. lia.
    + replace (op + 8 - (ref + 4 - a - b)) with (op - ref + 4 + a + b) by lia. done.
  - destruct (LZ4_COPYSTEP_ok d ref d op) as (d1 & -> & Hw & Hu); [lia..|]. cbn [mbind res_bind]. exists (ref + 8), d1.
    split_and!; [done..|lia|lia|lia|]. intros Hlt H8. split_and!; [|lia..| |lia].
    + rewrite Hu. assert (Lo : zlen (upto d op) = op) by (rewrite length_upto; lia). change 8%nat with (Z.to_nat 8).
      rewrite lz_copy_block, Lo, sub_upto by lia. do 2 f_equal; lia.
    + replace (op + 8 - (ref + 8)) with (op - ref) by lia. done.
Qed.

(** ** The rest of a copy *)

Lemma copy_rest_ok m d op ref l :
  0 <= ref <= op -> op <= m -> m <= zlen d -> 0 <= l -> 4 <= op -> 8 <= m ->
  exists next d', copy_rest m d op ref l = Ok (next, d') /\ writes op m d d' /\
    (forall c, next = Some c -> c = op + l - 4 /\ 0 <= c <= m) /\
    (8 <= op - ref -> Forall is_u8 (upto d op) -> op + l - 4 < m -> ref + 8 <= m ->
      next = Some (op + l - 4) /\ exists n, 0 <= n /\ op + l - 4 <= op + n /\ upto d' (op + n) = lz_copy (Z.to_nat n) (upto d op) (op - ref)).
Proof.
  intros Hr Ho Hm Hl H4 Hm8. unfold copy_rest. change COPYLENGTH with 8. change (STEPSIZE - 4) with 4. set (cpy := op + l - 4).
  assert (Hfail : forall d1, writes op m d d1 -> exists next d', Ok (None, d1) = Ok (next, d') /\ writes op m d d' /\ (forall c, next = Some c -> c = cpy /\ 0 <= c <= m) /\
    (False -> next = Some cpy /\ exists n, 0 <= n /\ cpy <= op + n /\ upto d' (op + n) = lz_copy (Z.to_nat n) (upto d op) (op - ref))).
  { intros d1 Hw. exists None, d1. split_and!; [done..| |]; [discriminate|done]. }
  destruct (Z.ltb_spec (m - 8) cpy) as [Hnear|Hfar].
  - destruct (Z.ltb_spec m cpy). { destruct (Hfail d (writes_refl _ _ _)) as (? & ? & ? & ? & ? & _). do 2 eexists. split_and!; [done..|]. lia. }
    destruct (Z.ltb_spec m (ref + 8)). { destruct (Hfail d (writes_refl _ _ _)) as (? & ? & ? & ? & ? & _). do 2 eexists. split_and!; [done..|]. lia. }
    destruct (LZ4_SECURECOPY_ok d ref op (m - 8) m) as (n & d1 & -> & Hn & He & Hw1 & Hu1); [lia..|]. cbn [mbind res_bind].
    pose proof (wr_len _ _ _ _ Hw1).
    destruct (copy_bytes_to_ok (copy_fuel (cpy - (op + n))) d1 (op + n) (ref + n) cpy m) as (k & d2 & -> & Hk & Hc & Hw2 & Hu2); [unfold copy_fuel; lia..|].
    cbn [mbind res_bind]. assert (Hw : writes op m d d2) by (apply (writes_trans _ _ _ d1); [done|by apply (writes_weaken (op + n) m); [lia..|]]).
    destruct (Z.eqb_spec cpy m). { destruct (Hfail d2 Hw) as (? & ? & ? & ? & ? & _). do 2 eexists. split_and!; [done..|]. lia. }
    exists (Some cpy), d2. split_and!; [done..| |]. { intros c [= <-]. split; [done|]. unfold cpy. lia. }
    intros HD H8 Hcm Href. split; [done|]. exists (n + k). split; [lia|]. split; [lia|]. rewrite Z.add_assoc.
    specialize (Hu1 HD). rewrite Hu2 by (lia || rewrite Hu1; by apply lz_copy_u8). rewrite Hu1, Z2Nat.inj_add, lz_copy_add by lia. f_equal. lia.
  - destruct (LZ4_SECURECOPY_ok d ref op cpy m) as (n & d1 & -> & Hn & He & Hw1 & Hu1); [lia..|]. cbn [mbind res_bind].
    exists (Some cpy), d1. split_and!; [done..| |]. { intros c [= <-]. split; [done|]. unfold cpy. lia. }
    intros HD H8 Hcm Href. split; [done|]. exists n. split_and!; [lia..|by apply Hu1].
Qed.

(** ** Safety on any input *)

Lemma get_run_safe fuel s isize ip l last :
  isize <= zlen s -> 0 <= ip -> 0 <= l -> (Z.to_nat (isize - ip) < fuel)%nat ->
  exists r, get_run s isize fuel ip l last = Ok r /\ (forall ip' l', r = Some (ip', l') -> ip <= ip' <= Z.max ip isize /\ 0 <= l').
Proof.
  intros Hs. revert ip l last. induction fuel as [|fuel IH]; intros ip l last Hi Hl Hf; [lia|]. cbn [get_run].
  destruct (Z.ltb_spec ip isize); cbn [andb]; [|eexists; split; [done|]; intros ? ? [= <- <-]; lia].
  destruct (last =? 255); [|eexists; split; [done|]; intros ? ? [= <- <-]; lia].
  rewrite get_ok by lia. cbn [mbind res_bind]. destruct (Z.ltb_spec (wrap64 (l + byte s ip)) l); [by eexists|].
  destruct (IH (ip + 1) (wrap64 (l + byte s ip)) (byte s ip)) as (r & -> & Hr); [lia..|]. exists r. split; [done|]. intros ip' l' E. specialize (Hr ip' l' E). lia.
Qed.

Lemma get_match_run_safe fuel s isize ip l :
  isize <= zlen s -> 0 <= ip -> 0 <= l -> (Z.to_nat (isize - ip) < fuel)%nat ->
  exists r, get_match_run s isize fuel ip l = Ok r /\ (forall ip' l', r = Some (ip', l') -> ip <= ip' <= Z.max ip isize /\ 0 <= l').
Proof.
  intros Hs. revert ip l. induction fuel as [|fuel IH]; intros ip l Hi Hl Hf; [lia|]. cbn [get_match_run].
  destruct (Z.ltb_spec ip isize); [|eexists; split; [done|]; intros ? ? [= <- <-]; lia].
  rewrite get_ok by lia. cbn [mbind res_bind]. destruct (Z.ltb_spec (wrap64 (l + byte s ip)) l); [by eexists|].
  destruct (byte s ip =? 255); [|eexists; split; [done|]; intros ? ? [= <- <-]; lia].
  destruct (IH (ip + 1) (wrap64 (l + byte s ip))) as (r & -> & Hr); [lia..|]. exists r. split; [done|]. intros ip' l' E. specialize (Hr ip' l' E). lia.
Qed.

Lemma A16_ok b i : Forall is_u8 b -> 0 <= i -> i + 2 <= zlen b -> A16 b i = Ok (le_word (sub_bytes b i (i + 2))) /\ 0 <= le_word (sub_bytes b i (i + 2)).
Proof.
  intros Hu Hi Hl. unfold A16. rewrite get_n_sub by lia. split; [done|]. apply le_word_range, sub_bytes_u8, Hu.
Qed.

(** The two fields of a token with the bytes that continue them. *)
Lemma token_run_safe s isize token ip :
  isize <= zlen s -> 0 <= token -> 0 <= ip <= isize ->
  exists r, (if Z.shiftr token ML_BITS =? RUN_MASK then get_run s isize (copy_fuel isize) ip (Z.shiftr token ML_BITS) 255
      else Ok (Some (ip, Z.shiftr token ML_BITS))) = Ok r /\ (forall ip' l', r = Some (ip', l') -> ip <= ip' <= isize /\ 0 <= l').
Proof.
  intros Hs Ht Hi. assert (Hsh : 0 <= Z.shiftr token ML_BITS) by (apply Z.shiftr_nonneg; lia).
  destruct (_ =? _); [|eexists; split; [done|]; intros ? ? [= <- <-]; lia].
  destruct (get_run_safe (copy_fuel isize) s isize ip (Z.shiftr token ML_BITS) 255) as (r & -> & Hr); [done|lia|done|unfold copy_fuel; lia|].
  exists r. split; [done|]. intros ip' l' E. specialize (Hr ip' l' E). lia.
Qed.

Lemma token_match_run_safe s isize token ip :
  isize <= zlen s -> 0 <= token -> 0 <= ip <= isize ->
  exists r, (if Z.land token ML_MASK =? ML_MASK then get_match_run s isize (copy_fuel isize) ip (Z.land token ML_MASK)
      else Ok (Some (ip, Z.land token ML_MASK))) = Ok r /\ (forall ip' l', r = Some (ip', l') -> ip <= ip' <= isize /\ 0 <= l').
Proof.
  intros Hs Ht Hi. assert (Hland : 0 <= Z.land token ML_MASK) by (apply Z.land_nonneg; lia).
  destruct (_ =? _); [|eexists; split; [done|]; intros ? ? [= <- <-]; lia].
  destruct (get_match_run_safe (copy_fuel isize) s isize ip (Z.land token ML_MASK)) as (r & -> & Hr); [done|lia|done|unfold copy_fuel; lia|].
  exists r. split; [done|]. intros ip' l' E. specialize (Hr ip' l' E). lia.
Qed.

(** The copy of the last literals. *)
Lemma last_copied s ip l d op m :
  0 <= ip -> 0 <= l -> ip + l <= zlen s -> 0 <= op -> op + l <= m -> m <= zlen d ->
  exists d', (vs ← get_n s ip l; d ← put_n d op vs; Ok (op + l, d)) = Ok (op + l, d') /\ writes op m d d' /\
    upto d' (op + l) = upto d op ++ sub_bytes s ip (ip + l).
Proof.
  intros Hi Hl Hs Ho Hm Hd. rewrite get_n_sub by lia. cbn [mbind res_bind].
  assert (El : zlen (sub_bytes s ip (ip + l)) = l) by (rewrite length_sub_bytes; lia).
  destruct (put_n_upto d op (sub_bytes s ip (ip + l))) as (d1 & -> & Hw & Hu); [lia..|]. rewrite El in *. exists d1. split; [done|]. split; [|done].
  by apply (writes_weaken op (op + l)); [lia..|].
Qed.

(** What a call may leave: at most [m] bytes counted, and only they written. *)
Definition lz4_safe (m : Z) (d : list Z) (r : Z * list Z) : Prop := -1 <= r.1 <= m /\ writes 0 m d r.2.

Lemma uncompress_loop_safe fuel s isize m d ip op :
  Forall is_u8 s -> isize <= zlen s -> 0 <= m <= zlen d -> 0 <= ip -> 0 <= op <= m -> (Z.to_nat (isize - ip) < fuel)%nat ->
  exists r, uncompress_loop s isize m fuel d ip op = Ok r /\ lz4_safe m d r.
Proof.
  intros Hu Hs. revert d ip op. induction fuel as [|fuel IH]; intros d ip op Hm Hi Ho Hf; [lia|]. cbn [uncompress_loop].
  assert (Hstop : forall r d', -1 <= r <= m -> writes 0 m d d' -> exists r', Ok (r, d') = Ok r' /\ lz4_safe m d r') by (intros r d' Hr Hw; by exists (r, d')).
  pose proof (writes_refl 0 m d) as Hw0.
  destruct (Z.ltb_spec ip isize); [|by apply Hstop; [lia|]].
  rewrite get_ok by lia. cbn [mbind res_bind]. set (token := byte s ip). pose proof (byte_u8 s ip Hu) as Htok. fold token in Htok. unfold is_u8 in Htok.
  destruct (token_run_safe s isize token (ip + 1)) as (r & -> & Hr); [done|lia..|]. cbn [mbind res_bind]. destruct r as [[ip1 l]|]; [|by apply Hstop; [lia|]].
  destruct (Hr ip1 l eq_refl) as [Hip1 Hl]. clear Hr. change COPYLENGTH with 8.
  rewrite (proj2 (Z.ltb_ge (op + l) op)) by lia.
  destruct (Z.ltb_spec (m - 8) (op + l)) as [Hend|Hfar]; [|destruct (Z.ltb_spec (isize - 8) (ip1 + l)) as [Hend|Hfar']]; cbn [orb].
  1,2: destruct (Z.ltb_spec m (op + l)); [by apply Hstop; [lia|]|]; destruct (Z.eqb_spec (ip1 + l) isize); cbn [negb]; [|by apply Hstop; [lia|]];
    destruct (last_copied s ip1 l d op m) as (d1 & -> & Hw & _); [lia..|]; apply Hstop; [lia|]; by apply (writes_weaken op m); [lia..|].
  destruct (wild_copy_ok (copy_fuel l) s ip1 d op (op + l)) as (n & d1 & -> & Hn & He & Hmax & Hw1 & _); [unfold copy_fuel; lia..|]. cbn [mbind res_bind].
  assert (Hw1' : writes 0 m d d1) by (by apply (writes_weaken op (op + n)); [lia..|]). pose proof (wr_len _ _ _ _ Hw1').
  replace (ip1 + n - (op + n - (op + l))) with (ip1 + l) by lia. destruct (A16_ok s (ip1 + l)) as [-> Hoff]; [done|lia..|]. cbn [mbind res_bind].
  set (off := le_word _) in *. clearbody off. destruct (Z.ltb_spec (op + l - off) 0); [by apply Hstop; [lia|]|].
  destruct (token_match_run_safe s isize token (ip1 + l + 2)) as (r & -> & Hr); [done|lia..|]. cbn [mbind res_bind]. destruct r as [[ip2 l2]|]; [|by apply Hstop; [lia|]].
  destruct (Hr ip2 l2 eq_refl) as [Hip2 Hl2]. clear Hr.
  destruct (copy_start_ok d1 (op + l) (op + l - off)) as (ref & d2 & -> & Hw2 & Href & Href' & _); [lia..|]. cbn [mbind res_bind].
  pose proof (wr_len _ _ _ _ Hw2).
  destruct (copy_rest_ok m d2 (op + l + 8) ref l2) as (next & d3 & -> & Hw3 & Hnext & _); [lia..|]. cbn [mbind res_bind].
  assert (Hw3' : writes 0 m d d3).
  { apply (writes_trans _ _ _ d1); [done|]. apply (writes_trans _ _ _ d2);
      [apply (writes_weaken (op + l) (op + l + 8))|apply (writes_weaken (op + l + 8) m)]; lia || done. }
  pose proof (wr_len _ _ _ _ Hw3'). destruct next as [c|]; [|by apply Hstop; [lia|]]. destruct (Hnext c eq_refl) as [-> Hc].
  destruct (IH d3 ip2 (op + l + 8 + l2 - 4)) as ([r d4] & -> & Hr & Hw4); [lia..|]. eexists. split; [done|]. split; [done|]. by apply (writes_trans _ _ _ d3).
Qed.

(** ** Expansion of a block *)

Lemma get_run_ext fuel zpre n tl isize l :
  15 <= n -> 0 <= l -> l + n < B64 -> zlen (zpre ++ ext n) <= isize -> (Z.to_nat (isize - zlen zpre) < fuel)%nat ->
  get_run (zpre ++ ext n ++ tl) isize fuel (zlen zpre) l 255 = Ok (Some (zlen (zpre ++ ext n), l + (n - 15))).
Proof.
  revert zpre n l. induction fuel as [|fuel IH]; intros zpre n l Hn Hl Hb Hs Hf; [lia|]. cbn [get_run].
  destruct (Z_lt_ge_dec n 270) as [Hlt|Hge].
  - rewrite ext_last in * by lia. app_len. rewrite (proj2 (Z.ltb_lt _ isize)) by lia. cbn [andb Z.eqb Pos.eqb].
    rewrite get_ok, byte_app_r, Z.sub_diag by (app_len; lia). change (byte ([n - 15] ++ tl) 0) with (n - 15). cbn [mbind res_bind].
    rewrite wrap64_small by (unfold is_u64; lia). rewrite (proj2 (Z.ltb_ge _ l)) by lia. destruct fuel as [|fuel]; [lia|]. cbn [get_run].
    rewrite (proj2 (Z.eqb_neq (n - 15) 255)), andb_false_r by lia. do 3 f_equal. lia.
  - rewrite ext_step in * by lia. app_len. rewrite (proj2 (Z.ltb_lt _ isize)) by lia. cbn [andb Z.eqb Pos.eqb].
    rewrite get_ok, byte_app_r, Z.sub_diag by (app_len; lia). change (byte ((255 :: _) ++ tl) 0) with 255. cbn [mbind res_bind].
    rewrite wrap64_small by (unfold is_u64; lia). rewrite (proj2 (Z.ltb_ge _ l)) by lia.
    specialize (IH (zpre ++ [255]) (n - 255) (l + 255)). rewrite <- !app_assoc in IH. app_len. cbn [app] in *.
    replace (zlen zpre + 1) with (Z.of_nat (length zpre + 1)) by lia. rewrite IH by lia. do 3 f_equal; lia.
Qed.

Lemma get_match_run_ext fuel zpre n tl isize l :
  15 <= n -> 0 <= l -> l + n < B64 -> zlen (zpre ++ ext n) <= isize -> (Z.to_nat (isize - zlen zpre) < fuel)%nat ->
  get_match_run (zpre ++ ext n ++ tl) isize fuel (zlen zpre) l = Ok (Some (zlen (zpre ++ ext n), l + (n - 15))).
Proof.
  revert zpre n l. induction fuel as [|fuel IH]; intros zpre n l Hn Hl Hb Hs Hf; [lia|]. cbn [get_match_run].
  destruct (Z_lt_ge_dec n 270) as [Hlt|Hge].
  - rewrite ext_last in * by lia. app_len. rewrite (proj2 (Z.ltb_lt _ isize)) by lia.
    rewrite get_ok, byte_app_r, Z.sub_diag by (app_len; lia). change (byte ([n - 15] ++ tl) 0) with (n - 15). cbn [mbind res_bind].
    rewrite wrap64_small by (unfold is_u64; lia). rewrite (proj2 (Z.ltb_ge _ l)), (proj2 (Z.eqb_neq (n - 15) 255)) by lia. do 3 f_equal. lia.
  - rewrite ext_step in * by lia. app_len. rewrite (proj2 (Z.ltb_lt _ isize)) by lia.
    rewrite get_ok, byte_app_r, Z.sub_diag by (app_len; lia). change (byte ((255 :: _) ++ tl) 0) with 255. cbn [mbind res_bind Z.eqb Pos.eqb].
    rewrite wrap64_small by (unfold is_u64; lia). rewrite (proj2 (Z.ltb_ge _ l)) by lia.
    specialize (IH (zpre ++ [255]) (n - 255) (l + 255)). rewrite <- !app_assoc in IH. app_len. cbn [app] in *.
    replace (zlen zpre + 1) with (Z.of_nat (length zpre + 1)) by lia. rewrite IH by lia. do 3 f_equal; lia.
Qed.

(** A field of four bits and the bytes that continue it. *)
Lemma read_run zpre n tl isize :
  0 <= n < B64 - 15 -> zlen (zpre ++ ext n) <= isize ->
  (if Z.min 15 n =? RUN_MASK then get_run (zpre ++ ext n ++ tl) isize (copy_fuel isize) (zlen zpre) (Z.min 15 n) 255
   else Ok (Some (zlen zpre, Z.min 15 n))) = Ok (Some (zlen (zpre ++ ext n), n)).
Proof.
  intros Hn Hs. change RUN_MASK with 15. destruct (Z.eqb_spec (Z.min 15 n) 15).
  - rewrite get_run_ext by (unfold copy_fuel; lia). do 3 f_equal. lia.
  - unfold ext. rewrite (proj2 (Z.ltb_lt n 15)), app_nil_r by lia. do 3 f_equal. lia.
Qed.

Lemma read_match_run zpre n tl isize :
  0 <= n < B64 - 15 -> zlen (zpre ++ ext n) <= isize ->
  (if Z.min 15 n =? ML_MASK then get_match_run (zpre ++ ext n ++ tl) isize (copy_fuel isize) (zlen zpre) (Z.min 15 n)
   else Ok (Some (zlen zpre, Z.min 15 n))) = Ok (Some (zlen (zpre ++ ext n), n)).
Proof.
  intros Hn Hs. change ML_MASK with 15. destruct (Z.eqb_spec (Z.min 15 n) 15).
  - rewrite get_match_run_ext by (unfold copy_fuel; lia). do 3 f_equal. lia.
  - unfold ext. rewrite (proj2 (Z.ltb_lt n 15)), app_nil_r by lia. do 3 f_equal. lia.
Qed.

Lemma token_fields a b : 0 <= a <= 15 -> 0 <= b <= 15 -> Z.shiftr (16 * a + b) ML_BITS = a /\ Z.land (16 * a + b) ML_MASK = b.
Proof.
  intros Ha Hb. change ML_BITS with 4. change ML_MASK with (Z.ones 4). rewrite Z.shiftr_div_pow2, Z.land_ones by lia. change (2 ^ 4) with 16.
  split; [symmetry; apply (Z.div_unique_pos _ _ _ b)|symmetry; apply (Z.mod_unique_pos _ _ a)]; lia.
Qed.

(** The literals and the offset of a sequence are copied and read. *)
Lemma lits_copied zpre lits tl d op m :
  0 <= op <= zlen d -> op + zlen lits <= m - 8 -> m <= zlen d -> 8 <= zlen tl ->
  exists n d', wild_copy (copy_fuel (zlen lits)) (zpre ++ lits ++ tl) (zlen zpre) d op (op + zlen lits) = Ok (zlen zpre + n, op + n, d') /\
    writes op m d d' /\ upto d' (op + zlen lits) = upto d op ++ lits.
Proof.
  intros Ho Hm Hd Ht. destruct (wild_copy_ok (copy_fuel (zlen lits)) (zpre ++ lits ++ tl) (zlen zpre) d op (op + zlen lits)) as (n & d' & E & Hn & He & Hmax & Hw & Hu);
    [unfold copy_fuel; app_len; lia..|]. exists n, d'. split; [done|]. pose proof (wr_len _ _ _ _ Hw). split; [by apply (writes_weaken op (op + n)); [lia..|]|].
  assert (Hp : upto d' (op + zlen lits) = take (Z.to_nat (op + zlen lits)) (upto d' (op + n))) by (unfold upto; rewrite take_take_le by lia; done).
  rewrite Hp, Hu, <- (sub_bytes_app _ _ (zlen zpre + zlen lits)), sub_bytes_mid, app_assoc by lia.
  apply take_app_length'. pose proof (length_upto d op ltac:(lia)). app_len. lia.
Qed.

(** A copy is the one its distance and length denote. *)
Lemma match_copied m d op off len :
  0 < off <= op -> op <= m - 12 -> 4 <= len -> op + len <= m - 5 -> m <= zlen d -> Forall is_u8 (upto d op) ->
  exists op1 ref d1 d2, copy_start d op (op - off) = Ok (op1, ref, d1) /\ copy_rest m d1 op1 ref (len - 4) = Ok (Some (op + len), d2) /\
    writes op m d d2 /\ upto d2 (op + len) = lz_copy (Z.to_nat len) (upto d op) off.
Proof.
  intros Ho Hm Hl Hend Hd H8. destruct (copy_start_ok d op (op - off)) as (ref & d1 & E1 & Hw1 & Href & _ & H); [lia..|].
  destruct (H ltac:(lia) H8) as (Hu1 & HD & Hdiv & Hre). clear H. replace (op - (op - off)) with off in * by lia. pose proof (wr_len _ _ _ _ Hw1) as Hlen1.
  destruct (copy_rest_ok m d1 (op + 8) ref (len - 4)) as (next & d2 & E2 & Hw2 & _ & H); [lia..|].
  destruct (H ltac:(lia)) as (-> & n & Hn & Hcpy & Hu2); [rewrite Hu1; by apply lz_copy_u8|lia..|]. clear H.
  exists (op + 8), ref, d1, d2. replace (op + 8 + (len - 4) - 4) with (op + len) in * by lia. split; [done|]. split; [done|].
  split. { apply (writes_trans _ _ _ d1); [apply (writes_weaken op (op + 8))|apply (writes_weaken (op + 8) m)]; lia || done. }
  assert (Lo : zlen (upto d op) = op) by (rewrite length_upto; lia).
  rewrite Hu1, (lz_copy_distance _ _ op off) in Hu2; [|lia|rewrite length_lz_copy; lia| |done|lia|rewrite length_lz_copy; lia].
  2:{ pose proof (lz_copy_periodic 8 (upto d op) off) as Hp. rewrite Lo in Hp. apply Hp. lia. }
  rewrite <- lz_copy_add in Hu2. replace (upto d2 (op + len)) with (take (Z.to_nat (op + len)) (upto d2 (op + 8 + n))) by (unfold upto; rewrite take_take_le by lia; done).
  rewrite Hu2. replace (8 + Z.to_nat n)%nat with (Z.to_nat len + (8 + Z.to_nat n - Z.to_nat len))%nat by lia.
  replace (Z.to_nat (op + len)) with (length (upto d op) + Z.to_nat len)%nat by lia. apply lz_copy_take.
Qed.

Lemma seq_bytes_app q :
  seq_bytes q = [seq_token (zlen (sq_lits q)) (sq_len q)] ++ ext (zlen (sq_lits q)) ++ sq_lits q ++ le_bytes 2 (sq_off q) ++ ext (sq_len q - 4).
Proof. done. Qed.

Lemma decode_seq fuel zpre q tl isize m d op :
  seq_ok m (upto d op) q -> Forall is_u8 (upto d op) -> Forall is_u8 (zpre ++ seq_bytes q ++ tl) -> 0 <= op <= m -> m <= zlen d -> m < B64 - 15 ->
  zlen (zpre ++ seq_bytes q) + 6 <= isize -> isize <= zlen (zpre ++ seq_bytes q ++ tl) ->
  exists d', uncompress_loop (zpre ++ seq_bytes q ++ tl) isize m (S fuel) d (zlen zpre) op
      = uncompress_loop (zpre ++ seq_bytes q ++ tl) isize m fuel d' (zlen (zpre ++ seq_bytes q)) (zlen (expand_seq (upto d op) q)) /\
    writes 0 m d d' /\ upto d' (zlen (expand_seq (upto d op) q)) = expand_seq (upto d op) q.
Proof.
  intros Hq H8 Hz Ho Hm Hbig Hs Hs'. pose proof (length_expand_seq _ _ _ Hq) as Hlen. pose proof Hq as [Hl8 Hoff Hback Hlen4 Hstart Hend].
  assert (Lo : zlen (upto d op) = op) by (rewrite length_upto; lia). destruct q as [lits off len]. cbn [sq_lits sq_off sq_len] in *.
  set (z := zpre ++ seq_bytes _ ++ tl) in *. set (tok := seq_token (zlen lits) len).
  set (z1 := zpre ++ [tok]). set (z2 := z1 ++ ext (zlen lits)). set (z3 := z2 ++ lits). set (z4 := z3 ++ le_bytes 2 off).
  assert (E1 : z = z1 ++ ext (zlen lits) ++ lits ++ le_bytes 2 off ++ ext (len - 4) ++ tl) by (unfold z, z1; rewrite seq_bytes_app; app_norm; done).
  assert (E2 : z = z2 ++ lits ++ le_bytes 2 off ++ ext (len - 4) ++ tl) by (rewrite E1; unfold z2; app_norm; done).
  assert (E3 : z = z3 ++ le_bytes 2 off ++ ext (len - 4) ++ tl) by (rewrite E2; unfold z3; app_norm; done).
  assert (E4 : z = z4 ++ ext (len - 4) ++ tl) by (rewrite E3; unfold z4; app_norm; done).
  assert (E5 : zpre ++ seq_bytes (Seq lits off len) = z4 ++ ext (len - 4)) by (unfold z4, z3, z2, z1; rewrite seq_bytes_app; app_norm; done).
  rewrite E5 in *. assert (L4 : zlen z4 = zlen z3 + 2) by (unfold z4; rewrite length_app, length_le_bytes; lia).
  assert (L3 : zlen z3 = zlen z2 + zlen lits) by (unfold z3; app_len; lia). assert (L1 : zlen z1 = zlen zpre + 1) by (unfold z1; app_len; lia).
  assert (L2 : zlen z2 = zlen z1 + zlen (ext (zlen lits))) by (unfold z2; app_len; lia).
  destruct (token_fields (Z.min 15 (zlen lits)) (Z.min 15 (len - 4))) as [T1 T2]; [lia..|]. fold (seq_token (zlen lits) len) tok in T1, T2.
  app_len. cbn [uncompress_loop]. rewrite (proj2 (Z.ltb_lt _ isize)) by lia.
  rewrite get_ok by lia. replace (byte z (zlen zpre)) with tok by (rewrite E1; unfold z1; rewrite <- app_assoc, byte_app_r, Z.sub_diag by lia; done).
  cbn [mbind res_bind]. rewrite T1, <- L1. pose proof (read_run z1 (zlen lits) (lits ++ le_bytes 2 off ++ ext (len - 4) ++ tl) isize) as R.
  rewrite <- E1 in R. rewrite R by (fold z2; lia). clear R. fold z2. cbn [mbind res_bind].
  change COPYLENGTH with 8. rewrite (proj2 (Z.ltb_ge _ op)), (proj2 (Z.ltb_ge (m - 8) _)), (proj2 (Z.ltb_ge (isize - 8) _)) by lia. cbn [orb].
  destruct (lits_copied z2 lits (le_bytes 2 off ++ ext (len - 4) ++ tl) d op m) as (n & d1 & W & Hw1 & Hu1); [lia..| |].
  { rewrite E4 in Hs'. app_len. rewrite length_le_bytes. lia. }
  rewrite <- E2 in W. rewrite W. cbn [mbind res_bind]. replace (zlen z2 + n - (op + n - (op + zlen lits))) with (zlen z3) by lia.
  assert (Lb : zlen (le_bytes 2 off) = 2) by (by rewrite length_le_bytes).
  destruct (A16_ok z (zlen z3) Hz) as [-> _]; [lia..|]. cbn [mbind res_bind].
  replace (sub_bytes z (zlen z3) (zlen z3 + 2)) with (le_bytes 2 off) by (rewrite E3, <- Lb; symmetry; apply sub_bytes_mid).
  rewrite le_word_bytes by (change (256 ^ Z.of_nat 2) with 65536; lia). rewrite (proj2 (Z.ltb_ge _ 0)) by lia. rewrite T2, <- L4. pose proof (read_match_run z4 (len - 4) tl isize) as R.
  rewrite <- E4 in R. rewrite R by (app_len; lia). clear R. rewrite length_app. cbn [mbind res_bind]. pose proof (wr_len _ _ _ _ Hw1).
  destruct (match_copied m d1 (op + zlen lits) off len) as (op1 & ref & d2 & d3 & C1 & C2 & Hw & Hu); [lia..| |].
  { rewrite Hu1. by apply Forall_app. }
  rewrite C1. cbn [mbind res_bind]. rewrite C2. cbn [mbind res_bind]. exists d3. rewrite Hlen. replace (Z.of_nat (length (upto d op) + length lits) + len) with (op + zlen lits + len) by lia.
  split; [done|]. split; [apply (writes_trans _ _ _ d1); [apply (writes_weaken op m)|apply (writes_weaken (op + zlen lits) m)]; lia || done|].
  unfold expand_seq. cbn [sq_lits sq_off sq_len]. by rewrite <- Hu1.
Qed.

Lemma decode_last fuel zpre ll tl isize m d op :
  isize = zlen (zpre ++ last_bytes ll) -> 0 <= op -> m = op + zlen ll -> m <= zlen d -> m < B64 - 15 ->
  exists d', uncompress_loop (zpre ++ last_bytes ll ++ tl) isize m (S fuel) d (zlen zpre) op = Ok (m, d') /\
    writes 0 m d d' /\ upto d' m = upto d op ++ ll.
Proof.
  intros Hs Ho -> Hd Hbig. set (m := op + zlen ll) in *. set (z := zpre ++ last_bytes ll ++ tl). set (tok := 16 * Z.min 15 (zlen ll)).
  set (z1 := zpre ++ [tok]). set (z2 := z1 ++ ext (zlen ll)).
  assert (E1 : z = z1 ++ ext (zlen ll) ++ ll ++ tl) by (unfold z, z1, last_bytes; app_norm; done).
  assert (E2 : z = z2 ++ ll ++ tl) by (rewrite E1; unfold z2; app_norm; done).
  assert (L1 : zlen z1 = zlen zpre + 1) by (unfold z1; app_len; lia).
  assert (L2 : zlen z2 + zlen ll = isize) by (rewrite Hs; unfold z2, z1, last_bytes; app_len; lia).
  assert (Lz : isize <= zlen z) by (rewrite E2; app_len; lia).
  destruct (token_fields (Z.min 15 (zlen ll)) 0) as [T1 _]; [lia..|]. rewrite Z.add_0_r in T1. fold tok in T1.
  assert (L12 : zlen z2 = zlen z1 + zlen (ext (zlen ll))) by (unfold z2; app_len; lia).
  cbn [uncompress_loop]. rewrite (proj2 (Z.ltb_lt _ isize)) by lia.
  rewrite get_ok by lia. replace (byte z (zlen zpre)) with tok by (rewrite E1; unfold z1; rewrite <- app_assoc, byte_app_r, Z.sub_diag by lia; done).
  cbn [mbind res_bind]. rewrite T1, <- L1. pose proof (read_run z1 (zlen ll) (ll ++ tl) isize) as R. rewrite <- E1 in R. fold z2 in R. rewrite R by lia. clear R.
  cbn [mbind res_bind]. change COPYLENGTH with 8. rewrite (proj2 (Z.ltb_ge _ op)), (proj2 (Z.ltb_lt (m - 8) _)), (proj2 (Z.ltb_ge m _)) by (unfold m; lia). cbn [orb].
  rewrite (proj2 (Z.eqb_eq _ isize)) by lia. cbn [negb].
  destruct (last_copied z (zlen z2) (zlen ll) d op m) as (d' & -> & Hw & Hu); [lia..|]. exists d'. split; [done|].
  split; [by apply (writes_weaken op m); [lia..|]|]. unfold m. rewrite Hu. f_equal. rewrite E2. apply sub_bytes_mid.
Qed.

Lemma length_expand_seqs n qs out : seqs_ok n out qs -> qs <> [] -> zlen (expand_seqs qs out) <= n - 5.
Proof.
  revert out. induction qs as [|q qs IH]; intros out; [done|]. intros [Hq Hqs] _. cbn [expand_seqs foldl]. destruct qs as [|q' qs]; [|by apply IH].
  cbn [foldl]. rewrite (length_expand_seq n) by done. by destruct Hq.
Qed.

Lemma expand_seqs_longer n qs out : seqs_ok n out qs -> zlen out <= zlen (expand_seqs qs out).
Proof.
  revert out. induction qs as [|q qs IH]; intros out; [cbn; lia|]. intros [Hq Hqs]. specialize (IH _ Hqs). cbn [expand_seqs foldl].
  fold (expand_seqs qs (expand_seq out q)). pose proof (length_expand_seq _ _ _ Hq). destruct Hq. app_len. lia.
Qed.

Lemma decode_block fuel zpre qs ll tl isize m d op :
  seqs_ok m (upto d op) qs -> Forall is_u8 (upto d op) -> Forall is_u8 (zpre ++ block_bytes qs ll ++ tl) ->
  isize = zlen (zpre ++ block_bytes qs ll) -> 0 <= op -> m = zlen (expand_seqs qs (upto d op)) + zlen ll -> m <= zlen d -> m < B64 - 15 ->
  op <= m -> (length qs < fuel)%nat ->
  exists d', uncompress_loop (zpre ++ block_bytes qs ll ++ tl) isize m fuel d (zlen zpre) op = Ok (m, d') /\
    writes 0 m d d' /\ upto d' m = expand_seqs qs (upto d op) ++ ll.
Proof.
  revert fuel zpre d op. induction qs as [|q qs IH]; intros fuel zpre d op Hqs H8 Hz Hs Ho Hm Hd Hbig Hom Hf; (destruct fuel as [|fuel]; [lia|]).
  { apply decode_last; try done. cbn [expand_seqs foldl] in Hm. rewrite length_upto in Hm by lia. done. }
  pose proof (length_expand_seqs m (q :: qs) _ Hqs) as Hll. pose proof Hqs as [Hq Hqs']. specialize (Hll ltac:(done)).
  assert (Eb : block_bytes (q :: qs) ll = seq_bytes q ++ block_bytes qs ll) by (unfold block_bytes; cbn [mbind list_bind]; by rewrite <- app_assoc).
  assert (Hb : 6 <= zlen (block_bytes qs ll)) by (unfold block_bytes, last_bytes; app_len; lia).
  rewrite Eb in *. rewrite <- (app_assoc (seq_bytes q)) in *.
  destruct (decode_seq fuel zpre q (block_bytes qs ll ++ tl) isize m d op) as (d1 & -> & Hw1 & Hu1); try done; [rewrite Hs; app_len; lia..|].
  pose proof (wr_len _ _ _ _ Hw1) as Hl1. pose proof (expand_seqs_longer _ _ _ Hqs') as Hlong. cbn [expand_seqs foldl] in Hm. fold (expand_seqs qs (expand_seq (upto d op) q)) in Hm.
  specialize (IH fuel (zpre ++ seq_bytes q) d1 (zlen (expand_seq (upto d op) q))). rewrite Hu1, <- !app_assoc in IH.
  destruct IH as (d' & -> & Hw2 & Hu2); try (done || lia).
  { by eapply expand_seq_u8. }
  { cbn [length] in Hf. lia. }
  exists d'. split; [done|]. split; [|done]. by apply (writes_trans _ _ _ d1).
Qed.

Lemma seqs_length qs : (length qs <= length (q ← qs; seq_bytes q))%nat.
Proof. induction qs as [|q qs IH]; [done|]. rewrite bind_cons, length_app. unfold seq_bytes at 1. cbn [length]. lia. Qed.

(** ** Properties *)

(** C14: on any input, also a corrupt one, decompression returns, reads only the
    input, writes only the first [maxOutputSize] bytes of the output, and reports
    an error or at most that many bytes. *)
Theorem lz4_uncompress_safe s isize maxOutputSize d :
  Forall is_u8 s -> isize <= zlen s -> 0 <= maxOutputSize <= zlen d ->
  exists r d', LZ4_uncompress_unknownOutputSize s isize maxOutputSize d = Ok (r, d') /\ -1 <= r <= maxOutputSize /\ length d' = length d /\
    drop (Z.to_nat maxOutputSize) d' = drop (Z.to_nat maxOutputSize) d.
Proof.
  intros Hu Hs Hm. destruct (uncompress_loop_safe (copy_fuel isize) s isize maxOutputSize d 0 0) as ([r d'] & E & Hr & []);
    [done|done|done|lia|lia|unfold copy_fuel; lia|]. by exists r, d'.
Qed.

(** A block in the format is expanded. *)
Lemma uncompress_block qs ll tl d m :
  seqs_ok m [] qs -> Forall is_u8 (block_bytes qs ll ++ tl) -> m = zlen (expand_seqs qs [] ++ ll) -> m <= zlen d -> m < B64 - 15 ->
  exists d', LZ4_uncompress_unknownOutputSize (block_bytes qs ll ++ tl) (zlen (block_bytes qs ll)) m d = Ok (m, d') /\
    writes 0 m d d' /\ upto d' m = expand_seqs qs [] ++ ll.
Proof.
  intros Hqs H8 Hm Hd Hbig. rewrite length_app in Hm. unfold LZ4_uncompress_unknownOutputSize.
  apply (decode_block (copy_fuel (zlen (block_bytes qs ll))) [] qs ll tl _ m d 0); try (done || lia).
  { change (upto d 0) with (@nil Z). lia. }
  unfold copy_fuel. pose proof (seqs_length qs). unfold block_bytes. app_len. lia.
Qed.

Module Example.

(** A length field that runs past the input. *)
Lemma lz4_uncompress_safe_witness :
  exists r d', LZ4_uncompress_unknownOutputSize [240; 255; 255; 3; 9; 9] 6 20 (replicate 30 7) = Ok (r, d') /\ -1 <= r <= 20 /\ drop 20 d' = replicate 10 7.
Proof.
  destruct (lz4_uncompress_safe [240; 255; 255; 3; 9; 9] 6 20 (replicate 30 7)) as (r & d' & E & Hr & _ & Hd).
  - repeat (constructor; [split; vm_compute; done|]). constructor.
  - vm_compute. discriminate.
  - vm_compute. split; discriminate.
  - exists r, d'. split; [exact E|]. split; [exact Hr|exact Hd].
Defined.

End Example.
