(* ===== verification/Lz4Encode.v ===== *)
(** * Compression to LZ4 blocks

    Whatever the hash table finds, the compressors write a block in the format of
    [Lz4Format] that expands to their input, or report that the target is too
    small.  Their checks of the room left count a length byte for every 256 bytes
    where the format takes one for every 255, so they can write a few bytes past
    the size they are given: [slack] bounds them. *)

From S2P Require Import Prelude Bits Buffer Codec Lz4 Lz4Format Lz4Decode.

(** ** Common bytes of two words *)

Lemma ctz_zero_bits n k v :
  0 <= k <= Z.of_nat n -> (2 ^ k | v) -> count_trailing_zeros n v = k + count_trailing_zeros (n - Z.to_nat k) (v / 2 ^ k).
Proof.
  revert k v. induction n as [|n IH]; intros k v Hk Hd.
  { assert (k = 0) as -> by lia. change (2 ^ 0) with 1. by rewrite Z.div_1_r. }
  destruct (decide (k = 0)) as [->|Hk0]. { change (2 ^ 0) with 1. by rewrite Z.div_1_r. }
  cbn [count_trailing_zeros]. assert (E : 2 ^ k = 2 * 2 ^ (k - 1)) by (rewrite <- Z.pow_succ_r by lia; f_equal; lia). rewrite E in Hd |- *. destruct Hd as [q ->].
  assert (0 < 2 ^ (k - 1)) by (apply Z.pow_pos_nonneg; lia).
  replace (q * (2 * 2 ^ (k - 1))) with (2 * (q * 2 ^ (k - 1))) by lia. rewrite Z.odd_mul. cbn [Z.odd andb].
  rewrite Z.shiftr_div_pow2 by lia. change (2 ^ 1) with 2. rewrite Z.mul_comm, Z.div_mul by lia.
  rewrite (IH (k - 1)) by (lia || by exists q). rewrite Z.div_mul by lia.
  replace (q * 2 ^ (k - 1) * 2 / (2 * 2 ^ (k - 1))) with q by (apply (Z.div_unique_exact _ _ q); lia).
  replace (S n - Z.to_nat k)%nat with (n - Z.to_nat (k - 1))%nat by lia. lia.
Qed.

Lemma ctz_small n k v : (k <= n)%nat -> v mod 2 ^ Z.of_nat k <> 0 -> 0 <= count_trailing_zeros n v < Z.of_nat k.
Proof.
  revert k v. induction n as [|n IH]; intros k v Hk Hv.
  { assert (k = 0%nat) as -> by lia. cbn in Hv. by rewrite Z.mod_1_r in Hv. }
  destruct k as [|k]. { cbn in Hv. by rewrite Z.mod_1_r in Hv. }
  cbn [count_trailing_zeros]. destruct (Z.odd v) eqn:Eo; [lia|]. rewrite Z.shiftr_div_pow2 by lia. change (2 ^ 1) with 2.
  assert (Ev : v = 2 * (v / 2)). { apply Z.div_exact; [lia|]. rewrite Zmod_odd, Eo. done. }
  specialize (IH k (v / 2) ltac:(lia)). rewrite Nat2Z.inj_succ, Z.pow_succ_r in Hv by lia.
  assert (0 < 2 ^ Z.of_nat k) by (apply Z.pow_pos_nonneg; lia).
  enough (v / 2 mod 2 ^ Z.of_nat k <> 0) as H0 by (specialize (IH H0); lia).
  intros H0. apply Hv. rewrite Ev, Z.mul_mod_distr_l, H0 by lia. done.
Qed.

Lemma lxor_cons a b v w : is_u8 a -> is_u8 b -> Z.lxor (a + 256 * v) (b + 256 * w) = Z.lxor a b + 256 * Z.lxor v w.
Proof.
  intros Ha Hb. change (0 <= a < 2 ^ 8) in Ha. change (0 <= b < 2 ^ 8) in Hb. change 256 with (2 ^ 8). rewrite !(Z.mul_comm (2 ^ 8)), !(Z.add_comm _ (_ * 2 ^ 8)).
  assert (Hx : 0 <= Z.lxor a b < 2 ^ 8).
  { apply width_of_bits; [lia|]. intros i Hi. rewrite Z.lxor_spec. by rewrite !(testbit_high _ 8 i) by lia. }
  rewrite <- !lor_shiftl_add by lia. apply Z.bits_inj'. intros i Hi. rewrite !Z.lxor_spec, !Z.lor_spec, !Z.lxor_spec.
  destruct (Z.ltb_spec i 8).
  - by rewrite !Z.shiftl_spec_low by lia.
  - rewrite (testbit_high a 8 i), (testbit_high b 8 i) by lia. cbn [xorb]. by rewrite !orb_false_r, !Z.shiftl_spec_high, Z.lxor_spec by lia.
Qed.

Lemma common_bytes n x y :
  length x = n -> length y = n -> Forall is_u8 x -> Forall is_u8 y -> x <> y ->
  exists j, Z.shiftr (count_trailing_zeros (8 * n) (Z.lxor (le_word x) (le_word y))) 3 = j /\ 0 <= j < Z.of_nat n /\
    (forall i, 0 <= i < j -> byte x i = byte y i) /\ byte x j <> byte y j.
Proof.
  revert x y. induction n as [|n IH]; intros x y Hx Hy Hu Hv Hne; [by destruct x, y|]. destruct x as [|a x], y as [|b y]; try done.
  apply Forall_cons in Hu as [Ha Hu]. apply Forall_cons in Hv as [Hb Hv]. injection Hx as Hx. injection Hy as Hy.
  cbn [le_word]. rewrite lxor_cons by done. rewrite !Z.shiftr_div_pow2 by lia. change (2 ^ 3) with 8. destruct (decide (a = b)) as [->|Hab].
  - destruct (IH x y) as (j & Ej & Hj & Heq & Hdiff); [done..|congruence|]. rewrite Z.shiftr_div_pow2 in Ej by lia. change (2 ^ 3) with 8 in Ej.
    exists (1 + j). rewrite Z.lxor_nilpotent, Z.add_0_l, Z.mul_comm. rewrite (ctz_zero_bits _ 8) by (lia || by eexists).
    change (2 ^ 8) with 256. rewrite Z.div_mul by lia. replace (8 * S n - Z.to_nat 8)%nat with (8 * n)%nat by lia.
    split; [|split; [lia|]]. { rewrite <- Ej. set (c := count_trailing_zeros _ _). clearbody c. Z.to_euclidean_division_equations. lia. }
    assert (Hb1 : forall k (l : list Z) c, 0 <= k -> byte (c :: l) (1 + k) = byte l k).
    { intros k l c Hk. unfold byte. replace (Z.to_nat (1 + k)) with (S (Z.to_nat k)) by lia. done. }
    split; [|by rewrite !Hb1 by lia]. intros i Hi. destruct (decide (i = 0)) as [->|]; [done|].
    replace i with (1 + (i - 1)) by lia. rewrite !Hb1 by lia. apply Heq. lia.
  - exists 0. assert (H8 : 0 <= count_trailing_zeros (8 * S n) (Z.lxor a b + 256 * Z.lxor (le_word x) (le_word y)) < Z.of_nat 8).
    { apply ctz_small; [lia|]. change (2 ^ Z.of_nat 8) with 256. rewrite Z.mul_comm, Z_mod_plus_full, Z.mod_small.
      - intros E. apply Hab. by apply Z.lxor_eq_0_iff.
      - change 256 with (2 ^ 8). apply width_of_bits; [lia|]. intros i Hi. rewrite Z.lxor_spec, (testbit_high a 8 i), (testbit_high b 8 i); done || lia. }
    split; [rewrite Z.div_small; lia|]. split; [lia|]. split; [lia|done].
Qed.

Section Input.

Context (small : bool) (s : list Z) (isize osize : Z).
Hypothesis Hu : Forall is_u8 s.
Hypothesis Hs : isize <= zlen s.

(** ** Words of the source *)

Lemma sub_bytes_agree i j n : 0 <= i -> 0 <= j -> 0 <= n -> i + n <= zlen s -> j + n <= zlen s ->
  sub_bytes s i (i + n) = sub_bytes s j (j + n) <-> agree s i j n.
Proof.
  intros Hi Hj Hn Hi' Hj'. split.
  - intros E k Hk. rewrite <- (byte_sub_bytes s i (i + n)), <- (byte_sub_bytes s j (j + n)) by lia. by rewrite E.
  - intros H. apply list_eq_same_length with (n := Z.to_nat n).
    + pose proof (length_sub_bytes s j (j + n) ltac:(lia) ltac:(lia)). lia.
    + pose proof (length_sub_bytes s i (i + n) ltac:(lia) ltac:(lia)). lia.
    + intros k x y Hk Hx Hy. pose proof (byte_sub_bytes s i (i + n) (Z.of_nat k) ltac:(lia) ltac:(lia)) as B1.
      pose proof (byte_sub_bytes s j (j + n) (Z.of_nat k) ltac:(lia) ltac:(lia)) as B2.
      rewrite (byte_lookup _ _ x) in B1 by (by rewrite Nat2Z.id). rewrite (byte_lookup _ _ y) in B2 by (by rewrite Nat2Z.id).
      rewrite B1, B2. apply H. lia.
Qed.

Lemma word_agree i j n : 0 <= i -> 0 <= j -> 0 <= n -> i + n <= zlen s -> j + n <= zlen s ->
  le_word (sub_bytes s i (i + n)) = le_word (sub_bytes s j (j + n)) <-> agree s i j n.
Proof.
  intros Hi Hj Hn Hi' Hj'. rewrite <- sub_bytes_agree by done. split; [|by intros ->]. apply le_word_inj.
  - pose proof (length_sub_bytes s i (i + n) ltac:(lia) ltac:(lia)). pose proof (length_sub_bytes s j (j + n) ltac:(lia) ltac:(lia)). lia.
  - by apply sub_bytes_u8.
  - by apply sub_bytes_u8.
Qed.

Lemma A32_ok i : 0 <= i -> i + 4 <= zlen s -> A32 s i = Ok (le_word (sub_bytes s i (i + 4))).
Proof. intros Hi Hl. unfold A32. by rewrite get_n_sub by lia. Qed.

Lemma A64_ok i : 0 <= i -> i + 8 <= zlen s -> A64 s i = Ok (le_word (sub_bytes s i (i + 8))).
Proof. intros Hi Hl. unfold A64. by rewrite get_n_sub by lia. Qed.

Lemma agree_sym i j n : agree s i j n -> agree s j i n.
Proof. intros H k Hk. symmetry. by apply H. Qed.

Lemma agree_app i j n k : 0 <= n -> agree s i j n -> agree s (i + n) (j + n) k -> agree s i j (n + k).
Proof.
  intros Hn H1 H2 x Hx. destruct (Z_lt_ge_dec x n); [apply H1; lia|]. specialize (H2 (x - n) ltac:(lia)).
  replace (i + n + (x - n)) with (i + x) in H2 by lia. by replace (j + n + (x - n)) with (j + x) in H2 by lia.
Qed.

(** ** Counting a match *)

(** [n] bytes agree and no more before [stop]. *)
Definition longest (ip ref stop n : Z) : Prop := 0 <= n /\ ip + n <= stop /\ agree s ip ref n /\ (ip + n < stop -> byte s (ip + n) <> byte s (ref + n)).

Lemma longest_le ip ref stop n k : longest ip ref stop n -> agree s ip ref k -> ip + k <= stop -> k <= n.
Proof. intros (Hn & Hi & Ha & Hd) Hk Hle. destruct (Z_le_gt_dec k n); [done|]. destruct Hd; [lia|]. apply Hk. lia. Qed.

Lemma longest_add ip ref stop n k : 0 <= n -> agree s ip ref n -> longest (ip + n) (ref + n) stop k -> longest ip ref stop (n + k).
Proof.
  intros Hn Ha (Hk & Hle & Ha' & Hd). split_and!; [lia|lia|by apply agree_app|]. rewrite !Z.add_assoc. done.
Qed.

Lemma count_words_ok fuel ip ref :
  0 <= ref <= ip -> ip <= matchlimit isize -> (Z.to_nat (isize - ip) < fuel)%nat ->
  exists stop n, count_words s isize fuel ip ref = Ok (stop, ip + n, (if stop : bool then ref + n - n mod 8 else ref + n)) /\ 0 <= n /\ agree s ip ref n /\
    if stop then longest ip ref (matchlimit isize) n else ip + n <= matchlimit isize /\ matchlimit isize - (ip + n) <= 7.
Proof.
  revert ip ref. induction fuel as [|fuel IH]; intros ip ref Hr Hi Hf; [lia|]. cbn [count_words]. change STEPSIZE with 8. change (8 - 1) with 7.
  unfold matchlimit in *. change LASTLITERALS with 5 in *.
  destruct (Z.ltb_spec ip (isize - 5 - 7)).
  - rewrite !A64_ok by lia. cbn [mbind res_bind]. destruct (Z.eqb_spec (Z.lxor (le_word (sub_bytes s ref (ref + 8))) (le_word (sub_bytes s ip (ip + 8)))) 0) as [E|E].
    + apply Z.lxor_eq_0_iff, word_agree, agree_sym in E; [|lia..].
      destruct (IH (ip + 8) (ref + 8)) as (stop & n & Ec & Hn & Ha & Hl); [lia..|]. exists stop, (8 + n). rewrite Ec. split_and!.
      * replace (8 + n) with (n + 1 * 8) by lia. rewrite Z_mod_plus_full. destruct stop; (f_equal; f_equal; [f_equal; lia|lia]).
      * lia.
      * by apply agree_app; [lia|..].
      * destruct stop; [by apply longest_add; [lia|..]|lia].
    + destruct (common_bytes 8 (sub_bytes s ref (ref + 8)) (sub_bytes s ip (ip + 8))) as (j & Ej & Hj & Heq & Hd).
      { pose proof (length_sub_bytes s ref (ref + 8) ltac:(lia) ltac:(lia)). lia. } { pose proof (length_sub_bytes s ip (ip + 8) ltac:(lia) ltac:(lia)). lia. }
      { by apply sub_bytes_u8. } { by apply sub_bytes_u8. } { intros E'. rewrite E' in E. by rewrite Z.lxor_nilpotent in E. }
      exists true, j. unfold LZ4_NbCommonBytes. change 64%nat with (8 * 8)%nat. rewrite Ej. rewrite Z.mod_small by lia.
      assert (Ha : agree s ip ref j).
      { intros k Hk. specialize (Heq k ltac:(lia)). rewrite !byte_sub_bytes in Heq by lia. done. }
      split_and!; [f_equal; f_equal; lia|lia|done|]. split_and!; [lia|lia|done|]. intros _ E'. apply Hd. rewrite !byte_sub_bytes by lia. done.
  - exists false, 0. rewrite !Z.add_0_r. split_and!; [done|lia| |lia|lia]. intros k Hk. lia.
Qed.

(** A comparison of [w] bytes at the end of the count. *)
Lemma count_tail_ok w ip ref n stop A :
  (forall i, 0 <= i -> i + w <= zlen s -> A i = Ok (le_word (sub_bytes s i (i + w)))) ->
  0 < w -> 0 <= ref <= ip -> 0 <= n -> stop <= zlen s ->
  exists k : Z, (if ip + n <? stop - (w - 1) then a ← A (ref + n); b ← A (ip + n); Ok (if a =? b then (ip + n + w, ref + n + w) else (ip + n, ref + n))
      else Ok (ip + n, ref + n)) = Ok (ip + k, ref + k) /\
    ((k = n + w /\ ip + n + w <= stop /\ agree s (ip + n) (ref + n) w) \/
     (k = n /\ (stop < ip + n + w \/ ~ agree s (ip + n) (ref + n) w))).
Proof.
  intros HA Hw Hr Hn Hst. destruct (Z.ltb_spec (ip + n) (stop - (w - 1))); [|exists n; split; [done|right; split; [done|left; lia]]].
  rewrite !HA by lia. cbn [mbind res_bind].
  pose proof (word_agree (ref + n) (ip + n) w ltac:(lia) ltac:(lia) ltac:(lia) ltac:(lia) ltac:(lia)) as Hwa. destruct (Z.eqb_spec (le_word (sub_bytes s (ref + n) (ref + n + w))) (le_word (sub_bytes s (ip + n) (ip + n + w)))) as [E|E].
  - exists (n + w). split; [f_equal; f_equal; lia|]. left. split_and!; [done|lia|]. by apply agree_sym, Hwa.
  - exists n. split; [done|]. right. split; [done|]. right. intros H1. apply E, Hwa. by apply agree_sym.
Qed.

Lemma byte_word i : 0 <= i -> i + 1 <= zlen s -> get s i = Ok (le_word (sub_bytes s i (i + 1))).
Proof. intros Hi Hl. rewrite get_ok, sub_bytes_1 by lia. cbn [le_word]. f_equal. lia. Qed.

Lemma agree_from i j n k m : 0 <= n -> n + m <= k -> agree s i j k -> agree s (i + n) (j + n) m.
Proof. intros Hn Hm H x Hx. rewrite <- !Z.add_assoc. apply H. lia. Qed.

Lemma count_match_ok ip ref :
  0 <= ref <= ip -> ip <= matchlimit isize -> exists n, count_match s isize ip ref = Ok (ip + n) /\ longest ip ref (matchlimit isize) n.
Proof.
  intros Hr Hi. unfold count_match. destruct (count_words_ok (copy_fuel isize) ip ref) as (stop & n & -> & Hn & Ha & Hl); [done|done|unfold copy_fuel; lia|].
  cbn [mbind res_bind]. destruct stop; [by exists n|]. set (m := matchlimit isize) in *.
  assert (Hm : m <= zlen s) by (unfold m, matchlimit; change LASTLITERALS with 5; lia).
  destruct (count_tail_ok 4 ip ref n m (A32 s)) as (k4 & E4 & H4); [apply A32_ok|lia..|]. change (4 - 1) with 3 in E4. rewrite E4. cbn [mbind res_bind].
  destruct (count_tail_ok 2 ip ref k4 m (A16 s)) as (k2 & E2 & H2); [intros i Hi0 Hi1; by apply A16_ok|lia..|]. change (2 - 1) with 1 in E2. rewrite E2. cbn [mbind res_bind].
  destruct (count_tail_ok 1 ip ref k2 m (get s)) as (k1 & E1 & H1); [apply byte_word|lia..|]. change (1 - 1) with 0 in E1. rewrite Z.sub_0_r in E1.
  exists k1. split.
  { destruct (Z.ltb_spec (ip + k2) m).
    - assert (Hk2 : 0 <= k2) by lia. rewrite !get_ok in E1 |- * by lia. cbn [mbind res_bind] in E1 |- *. destruct (_ =? _); injection E1 as E1 _; f_equal; lia.
    - injection E1 as E1 _. f_equal. lia. }
  assert (A4 : agree s ip ref k4). { destruct H4 as [(-> & ? & ?)|(-> & ?)]; [by apply agree_app; [lia|..]|done]. }
  assert (A2 : agree s ip ref k2). { destruct H2 as [(-> & ? & ?)|(-> & ?)]; [by apply agree_app; [lia|..]|done]. }
  assert (A1 : agree s ip ref k1). { destruct H1 as [(-> & ? & ?)|(-> & ?)]; [by apply agree_app; [lia|..]|done]. }
  split_and!; [lia|lia|done|]. intros Hlt E. assert (A0 : agree s ip ref (k1 + 1)) by (by apply agree_snoc).
  destruct H1 as [(-> & ? & ?)|(-> & [?|Hd])]; [|lia|apply Hd; apply agree_from with (k2 + 1); [lia|lia|done]].
  destruct H2 as [(-> & ? & ?)|(-> & [?|Hd])]; [|lia|apply Hd; apply agree_from with (k4 + 1 + 1); [lia|lia|done]].
  destruct H4 as [(-> & ? & ?)|(-> & [?|Hd])]; [lia|lia|apply Hd; apply agree_from with (n + 2 + 1 + 1); [lia|lia|done]].
Qed.

(** ** Finding a match *)

Hypothesis Hsize : isize < B32.
Hypothesis Hsmall : small = true -> isize < LZ4_64KLIMIT.

(** The entries of the table are positions before [p]. *)
Definition tbl_ok (t : list Z) (p : Z) : Prop := zlen t = 2 ^ hash_log small /\ Forall (fun x => 0 <= x < p) t.

Definition hash_ok (h : Z) : Prop := 0 <= h < 2 ^ hash_log small.

Lemma hash_value_ok p : 0 <= p -> p + 4 <= zlen s -> exists h, hash_value small s p = Ok h /\ hash_ok h.
Proof.
  intros Hp Hl. unfold hash_value. rewrite A32_ok by done. cbn [mbind res_bind]. eexists. split; [done|].
  unfold hash_ok, LZ4_HASH_FUNCTION. set (w := _ * _). assert (Hw : 0 <= wrap32 w < B32) by (apply Z.mod_pos_bound; done).
  assert (Hl0 : 0 < hash_log small < 32) by (by destruct small).
  rewrite Z.shiftr_div_pow2 by (change (MINMATCH * 8) with 32; lia). change (MINMATCH * 8) with 32.
  assert (0 < 2 ^ (32 - hash_log small)) by (apply Z.pow_pos_nonneg; lia). split; [apply Z.div_pos; lia|].
  apply Z.div_lt_upper_bound; [done|]. rewrite <- Z.pow_add_r by lia. replace (32 - hash_log small + hash_log small) with 32 by lia. change (2 ^ 32) with B32. lia.
Qed.

Lemma table_get_ok t p h : tbl_ok t p -> hash_ok h -> exists ref, table_get t h = Ok ref /\ 0 <= ref < p.
Proof.
  intros [Hl Hf] Hh. unfold table_get, hash_ok in *. destruct (lookup_lt_is_Some_2 t (Z.to_nat h)) as [ref E]; [lia|]. rewrite E. exists ref. split; [done|].
  by eapply Forall_lookup in Hf.
Qed.

Lemma table_set_ok t p h pos q : tbl_ok t p -> 0 <= pos <= mflimit isize -> pos < q -> p <= q -> tbl_ok (table_set small t h pos) q.
Proof.
  intros [Hl Hf] Hpos Hq Hp. unfold table_set, tbl_ok. rewrite length_insert. split; [done|].
  assert (E : (if small then pos mod 65536 else wrap32 pos) = pos).
  { unfold mflimit in Hpos. change MFLIMIT with 12 in Hpos. change LZ4_64KLIMIT with 65547 in Hsmall. destruct small.
    - specialize (Hsmall eq_refl). apply Z.mod_small. lia.
    - apply Z.mod_small. lia. }
  rewrite E. apply Forall_insert; [|lia]. eapply Forall_impl; [done|]. cbn. lia.
Qed.

Lemma tbl_ok_le t p q : p <= q -> tbl_ok t p -> tbl_ok t q.
Proof. intros Hp [Hl Hf]. split; [done|]. eapply Forall_impl; [done|]. cbn. lia. Qed.

(** What the search finds at [ip]. *)
Record match_at (ip ref : Z) : Prop := {
  ma_ip : ip <= mflimit isize;
  ma_ref : 0 <= ref < ip;
  ma_dist : ip - ref <= 65535;
  ma_agree : agree s ip ref 4
}.

Lemma same_word ip ref : 0 <= ref < ip -> ip <= mflimit isize -> exists b, (a ← A32 s ref; b ← A32 s ip; Ok (a =? b)) = Ok b /\ (b = true -> agree s ip ref 4).
Proof.
  intros Hr Hi. unfold mflimit in Hi. change MFLIMIT with 12 in Hi. rewrite !A32_ok by lia. cbn [mbind res_bind]. eexists. split; [done|].
  intros E%Z.eqb_eq%word_agree; [by apply agree_sym|lia..].
Qed.

Lemma small_distance ip ref : small = true -> 0 <= ref -> ip <= mflimit isize -> ip - ref <= 65535.
Proof. intros E Hr. unfold mflimit. change MFLIMIT with 12. specialize (Hsmall E). change LZ4_64KLIMIT with 65547 in Hsmall. lia. Qed.

Lemma no_match_ok ip ref : 0 <= ref < ip -> ip <= mflimit isize -> exists b, no_match small s ref ip = Ok b /\ (b = false -> match_at ip ref).
Proof.
  intros Hr Hi. unfold no_match. change MAX_DISTANCE with 65535. destruct (negb small && (ref <? ip - 65535)) eqn:E; [by exists true|].
  destruct (same_word ip ref) as (b & Eb & Hb); [done..|]. exists (negb b).
  unfold mflimit in Hi. change MFLIMIT with 12 in Hi. rewrite !A32_ok in Eb |- * by lia. cbn [mbind res_bind] in Eb |- *. injection Eb as ->.
  split; [done|]. intros ->%negb_false_iff. constructor; [done..| |by apply Hb].
  apply andb_false_iff in E as [E|E]; [|apply Z.ltb_ge in E; lia].
  apply small_distance; [by apply negb_false_iff|lia|done].
Qed.

Lemma find_match_ok fuel t p ip h attempts :
  tbl_ok t p -> 0 < p <= ip -> hash_ok h -> 64 <= attempts -> (Z.to_nat (isize - ip) < fuel)%nat ->
  exists r, find_match small s isize fuel t ip h attempts = Ok r /\
    forall ip' ref t', r = Some (ip', ref, t') -> ip <= ip' /\ match_at ip' ref /\ tbl_ok t' (ip' + 1).
Proof.
  revert t p ip h attempts. induction fuel as [|fuel IH]; intros t p ip h attempts Ht Hp Hh Ha Hf; [lia|]. cbn [find_match]. cbv zeta. change SKIPSTRENGTH with 6.
  assert (Hstep : 1 <= Z.shiftr attempts 6) by (rewrite Z.shiftr_div_pow2 by lia; apply Z.div_le_lower_bound; [done|]; change (2 ^ 6) with 64; lia).
  set (step := Z.shiftr attempts 6) in *. clearbody step. destruct (Z.ltb_spec (mflimit isize) (ip + step)) as [|Hlt]; [by exists None|].
  assert (Hip : ip + step <= isize - 12) by exact Hlt. destruct (hash_value_ok (ip + step)) as (h' & -> & Hh'); [lia..|]. cbn [mbind res_bind].
  destruct (table_get_ok t p h) as (ref & -> & Href); [done..|]. cbn [mbind res_bind].
  assert (Ht' : tbl_ok (table_set small t h ip) (ip + 1)) by (apply (table_set_ok _ p); [done|lia..]).
  destruct (no_match_ok ip ref) as (b & -> & Hb); [lia..|]. cbn [mbind res_bind]. destruct b.
  - destruct (IH (table_set small t h ip) (ip + 1) (ip + step) h' (attempts + 1)) as (r & -> & Hr); [done|lia|done|lia|lia|]. exists r. split; [done|].
    intros ip' ref' t' E. destruct (Hr ip' ref' t' E) as (Hle & Hm & Ht2). split; [lia|done].
  - eexists. split; [done|]. intros ip' ref' t' [= <- <- <-]. split; [lia|]. split; [by apply Hb|done].
Qed.

Lemma agree_back i j n : agree s i j n -> byte s (i - 1) = byte s (j - 1) -> agree s (i - 1) (j - 1) (n + 1).
Proof.
  intros H E k Hk. destruct (decide (k = 0)) as [->|]; [by rewrite !Z.add_0_r|]. specialize (H (k - 1) ltac:(lia)).
  replace (i - 1 + k) with (i + (k - 1)) by lia. by replace (j - 1 + k) with (j + (k - 1)) by lia.
Qed.

Lemma catch_up_ok fuel ip ref anchor n :
  0 <= anchor <= ip -> 0 <= ref < ip -> ip <= zlen s -> agree s ip ref n -> (Z.to_nat ip < fuel)%nat ->
  exists k, catch_up s fuel ip ref anchor = Ok (ip - k, ref - k) /\ 0 <= k <= ip - anchor /\ k <= ref /\ agree s (ip - k) (ref - k) (n + k).
Proof.
  revert ip ref n. induction fuel as [|fuel IH]; intros ip ref n Hip Hr Hl Ha Hf; [lia|]. cbn [catch_up].
  assert (Hstop : exists k, @Ok (Z * Z) (ip, ref) = Ok (ip - k, ref - k) /\ 0 <= k <= ip - anchor /\ k <= ref /\ agree s (ip - k) (ref - k) (n + k)).
  { exists 0. rewrite !Z.sub_0_r, Z.add_0_r. split; [done|]. split; [lia|]. split; [lia|done]. }
  destruct (Z.ltb_spec anchor ip); [|done]. destruct (Z.ltb_spec 0 ref); [|done]. cbn [andb]. rewrite !get_ok by lia. cbn [mbind res_bind].
  destruct (Z.eqb_spec (byte s (ip - 1)) (byte s (ref - 1))) as [E|]; [|done].
  destruct (IH (ip - 1) (ref - 1) (n + 1)) as (k & -> & Hk & Hk' & Ha'); [lia..|by apply agree_back|lia|].
  exists (1 + k). split; [f_equal; f_equal; lia|]. split; [lia|]. split; [lia|].
  replace (ip - (1 + k)) with (ip - 1 - k) by lia. replace (ref - (1 + k)) with (ref - 1 - k) by lia. by replace (n + (1 + k)) with (n + 1 + k) by lia.
Qed.

(** ** Writing a sequence *)

(** The call has filled the buffer, of the size of [d], up to the end of [out]. *)
Definition wrote (d out : list Z) (r : res (Z * list Z)) : Prop := exists rest, r = Ok (zlen out, out ++ rest) /\ length (out ++ rest) = length d.

Lemma wrote_put d out r rest v (k : list Z -> res (Z * list Z)) out' :
  is_u8 v -> length (out ++ r :: rest) = length d -> wrote d out' (k ((out ++ [v]) ++ rest)) -> wrote d out' (d ← put (out ++ r :: rest) (zlen out) v; k d).
Proof. intros Hv Hl. rewrite put_next, wrap8_small by done. cbn [mbind res_bind]. by rewrite <- app_assoc. Qed.

Lemma wrote_done d out rest : length (out ++ rest) = length d -> wrote d out (Ok (zlen out, out ++ rest)).
Proof. intros H. by exists rest. Qed.

Lemma put_length_ok fuel d out rest len :
  0 <= len -> (Z.to_nat len < fuel)%nat -> length (out ++ rest) = length d -> zlen (out ++ ext (len + 15)) <= zlen d ->
  wrote d (out ++ ext (len + 15)) (put_length fuel (out ++ rest) (zlen out) len).
Proof.
  revert out rest len. induction fuel as [|fuel IH]; intros out rest len Hn Hf Hl Hr; [lia|]. cbn [put_length]. destruct (Z.ltb_spec 254 len).
  - rewrite ext_step in Hr |- * by lia. destruct (room_cons rest 1) as (r & rest' & -> & _); [done|app_len; lia|].
    apply wrote_put; [by split|done|]. replace (zlen out + 1) with (zlen (out ++ [255])) by (app_len; lia).
    replace (len + 15 - 255) with (len - 255 + 15) in * by lia. rewrite cons_middle, app_assoc in Hr |- *. apply IH; [lia|lia|app_len; lia|done].
  - rewrite ext_last in Hr |- * by lia. replace (len + 15 - 15) with len in * by lia. destruct (room_cons rest 1) as (r & rest' & -> & _); [done|app_len; lia|].
    apply wrote_put; [split; lia|done|]. replace (zlen out + 1) with (zlen (out ++ [len])) by (app_len; lia). apply wrote_done. app_len. lia.
Qed.

Lemma put_run_ok d out r rest l :
  0 <= l -> length (out ++ r :: rest) = length d -> zlen (out ++ [r] ++ ext l) <= zlen d ->
  wrote d (out ++ 16 * Z.min 15 l :: ext l) (put_run (out ++ r :: rest) (zlen out) (zlen out + 1) l).
Proof.
  intros Hl0 Hl Hr. unfold put_run. change RUN_MASK with 15. change ML_BITS with 4. rewrite cons_middle, app_assoc. destruct (Z.leb_spec 15 l).
  - change (Z.shiftl 15 4) with 240. rewrite Z.min_l by lia. change (16 * 15) with 240. apply wrote_put; [by split|done|].
    replace (zlen out + 1) with (zlen (out ++ [240])) by (app_len; lia). replace (ext l) with (ext (l - 15 + 15)) by (f_equal; lia).
    apply put_length_ok; [lia|unfold copy_fuel; lia|app_len; lia|]. replace (l - 15 + 15) with l by lia. app_len. lia.
  - unfold ext. rewrite (proj2 (Z.ltb_lt l 15)), app_nil_r, Z.min_r by lia. rewrite Z.shiftl_mul_pow2 by lia. change (2 ^ 4) with 16. rewrite (Z.mul_comm l).
    apply wrote_put; [split; lia|done|]. replace (zlen out + 1) with (zlen (out ++ [16 * l])) by (app_len; lia). apply wrote_done. app_len. lia.
Qed.

Lemma put_match_length_ok fuel d out rest len :
  0 <= len -> (Z.to_nat len < fuel)%nat -> length (out ++ rest) = length d -> zlen (out ++ ext (len + 15)) <= zlen d ->
  wrote d (out ++ ext (len + 15)) (put_match_length fuel (out ++ rest) (zlen out) len).
Proof.
  revert out rest len. induction fuel as [|fuel IH]; intros out rest len Hn Hf Hl Hr; [lia|]. cbn [put_match_length]. destruct (Z.ltb_spec 509 len).
  - rewrite ext_step, ext_step in Hr |- * by lia. destruct (room_cons rest 2) as (r & rest' & -> & ?); [done|app_len; lia|].
    destruct (room_cons rest' 1) as (r' & rest & -> & _); [done|lia|]. apply wrote_put; [by split|done|].
    replace (zlen out + 1) with (zlen (out ++ [255])) by (app_len; lia). apply wrote_put; [by split|app_len; lia|].
    replace (zlen out + 2) with (zlen ((out ++ [255]) ++ [255])) by (app_len; lia). replace (len + 15 - 255 - 255) with (len - 510 + 15) in * by lia.
    rewrite !(cons_middle 255), !app_assoc in Hr |- *. apply IH; [lia|lia|app_len; lia|done].
  - destruct (Z.ltb_spec 254 len).
    + rewrite ext_step, ext_last in Hr |- * by lia. replace (len + 15 - 255 - 15) with (len - 255) in * by lia.
      destruct (room_cons rest 2) as (r & rest' & -> & ?); [done|app_len; lia|]. destruct (room_cons rest' 1) as (r' & rest & -> & _); [done|lia|].
      rewrite put_next, wrap8_small by (by split). cbn [mbind res_bind].
      replace (out ++ [255; len - 255]) with ((out ++ [255]) ++ [len - 255]) by (by rewrite <- app_assoc).
      replace (out ++ 255 :: r' :: rest) with ((out ++ [255]) ++ r' :: rest) by (by rewrite <- app_assoc).
      replace (zlen out + 1) with (zlen (out ++ [255])) by (app_len; lia). apply wrote_put; [split; lia|app_len; lia|].
      replace (zlen (out ++ [255]) + 1) with (zlen ((out ++ [255]) ++ [len - 255])) by (app_len; lia). apply wrote_done. app_len. lia.
    + cbn [mbind res_bind]. rewrite ext_last in Hr |- * by lia. replace (len + 15 - 15) with len in * by lia.
      destruct (room_cons rest 1) as (r & rest' & -> & _); [done|app_len; lia|].
      apply wrote_put; [split; lia|done|]. replace (zlen out + 1) with (zlen (out ++ [len])) by (app_len; lia). apply wrote_done. app_len. lia.
Qed.

Lemma put_match_ok d pre tok mid rest len :
  0 <= len -> 0 <= tok <= 240 -> length (pre ++ tok :: mid ++ rest) = length d -> zlen (pre ++ tok :: mid ++ ext len) <= zlen d ->
  wrote d (pre ++ (tok + Z.min 15 len) :: mid ++ ext len) (put_match (pre ++ tok :: mid ++ rest) (zlen pre) (zlen (pre ++ tok :: mid)) len).
Proof.
  intros Hlen Htok Hl Hr. unfold put_match. change ML_MASK with 15. rewrite get_ok by (app_len; lia). cbn [mbind res_bind].
  rewrite byte_app_r, Z.sub_diag by lia. change (byte (tok :: mid ++ rest) 0) with tok. destruct (Z.leb_spec 15 len).
  - rewrite Z.min_l by lia. apply wrote_put; [split; lia|done|]. replace (zlen (pre ++ tok :: mid)) with (zlen (pre ++ (tok + 15) :: mid)) by (app_len; lia).
    rewrite (app_comm_cons mid), !app_assoc, (cons_middle (tok + 15) pre), app_assoc. replace (ext len) with (ext (len - 15 + 15)) by (f_equal; lia).
    apply put_match_length_ok; [lia|unfold copy_fuel; lia|app_len; lia|]. replace (len - 15 + 15) with len by lia. app_len. lia.
  - unfold ext. rewrite (proj2 (Z.ltb_lt len 15)), app_nil_r, Z.min_r by lia. apply wrote_put; [split; lia|done|].
    replace (zlen (pre ++ tok :: mid)) with (zlen (pre ++ (tok + len) :: mid)) by (app_len; lia).
    rewrite !app_assoc, (cons_middle (tok + len) pre), app_assoc. apply wrote_done. app_len. lia.
Qed.

Lemma LZ4_BLINDCOPY_ok d anchor out rest l :
  0 <= anchor -> 0 <= l -> anchor + l + 8 <= zlen s -> length (out ++ rest) = length d -> zlen out + l + 8 <= zlen d ->
  wrote d (out ++ sub_bytes s anchor (anchor + l)) (LZ4_BLINDCOPY s anchor (out ++ rest) (zlen out) l).
Proof.
  intros Ha Hl Hs' Hd Hr. unfold LZ4_BLINDCOPY. destruct (wild_copy_ok (copy_fuel l) s anchor (out ++ rest) (zlen out) (zlen out + l)) as (n & d' & -> & Hn & He & Hm & Hw & Hup);
    [unfold copy_fuel; lia..|]. cbn [mbind res_bind]. pose proof (wr_len _ _ _ _ Hw).
  assert (E : upto d' (zlen out + l) = out ++ sub_bytes s anchor (anchor + l)).
  { unfold upto in *. rewrite <- (take_take_le d' _ (Z.to_nat (zlen out + n))) by lia. rewrite Hup, Nat2Z.id, take_app_length.
    rewrite <- (sub_bytes_app s anchor (anchor + l) (anchor + n)), app_assoc by lia. apply take_app_length'.
    pose proof (length_sub_bytes s anchor (anchor + l) ltac:(lia) ltac:(lia)). app_len. lia. }
  exists (drop (Z.to_nat (zlen out + l)) d'). rewrite <- E. unfold upto. rewrite take_drop. split; [|lia].
  f_equal. f_equal. rewrite length_take. lia.
Qed.

(** ** A sequence after another *)

Definition body (qs : list lz4_seq) : list Z := q ← qs; seq_bytes q.

(** The sequences stand for the source up to [anchor]. *)
Definition covers (qs : list lz4_seq) (anchor : Z) : Prop := upto s anchor = expand_seqs qs [] /\ seqs_ok isize [] qs.

(** The start of a sequence, up to its literals. *)
Definition seq_head (lits : list Z) : list Z := 16 * Z.min 15 (zlen lits) :: ext (zlen lits) ++ lits.

Lemma body_snoc qs q : body (qs ++ [q]) = body qs ++ seq_bytes q.
Proof. unfold body. rewrite bind_app. f_equal. cbn. by rewrite app_nil_r. Qed.

Lemma seq_bytes_head lits off len :
  seq_bytes (Seq lits off len) = (16 * Z.min 15 (zlen lits) + Z.min 15 (len - 4)) :: (ext (zlen lits) ++ lits ++ le_bytes 2 off) ++ ext (len - 4).
Proof. unfold seq_bytes. cbn [sq_lits sq_off sq_len]. by rewrite <- !app_assoc. Qed.

Lemma covers_snoc qs lits ip ref len :
  seqs_ok isize [] qs -> upto s ip = expand_seqs qs [] ++ lits -> 0 <= ref < ip -> ip <= mflimit isize -> ip - ref <= 65535 ->
  4 <= len -> ip + len <= matchlimit isize -> agree s ip ref len -> covers (qs ++ [Seq lits (ip - ref) len]) (ip + len).
Proof.
  intros Hqs Hup Hr Hip Hd Hl He Ha. unfold mflimit, matchlimit in *. change MFLIMIT with 12 in *. change LASTLITERALS with 5 in *.
  pose proof (length_upto s ip ltac:(lia)) as Hlen. rewrite Hup in Hlen. split.
  - rewrite expand_seqs_snoc. unfold expand_seq. cbn [sq_lits sq_off sq_len]. rewrite <- Hup. unfold upto. rewrite lz_copy_source; [done|lia..|].
    intros j Hj. rewrite (Ha j Hj). f_equal. lia.
  - apply seqs_ok_snoc; [done|]. constructor; cbn [sq_lits sq_off sq_len]; try lia.
    apply (Forall_app is_u8 (expand_seqs qs []) lits). rewrite <- Hup. by apply Forall_take.
Qed.

(** ** From the label [_next_match] *)

(** What the checks of the room left do not count. *)
Definition slack : Z := isize / 65280 + 2.

(** The sequences [qs] are in the buffer. *)
Record seqs_written (d : list Z) (qs : list lz4_seq) (anchor op : Z) (d' : list Z) : Prop := {
  wn_body : exists rest, d' = body qs ++ rest;
  wn_op : op = zlen (body qs);
  wn_len : length d' = length d;
  wn_covers : covers qs anchor
}.

Definition next_ok (d : list Z) (ip0 : Z) (r : res lz4_next) : Prop :=
  match r with
  | Panic => False
  | Ok (NextFail d') => length d' = length d
  | Ok (NextLast anchor op d') => ip0 < anchor <= matchlimit isize /\ exists qs, seqs_written d qs anchor op d'
  | Ok (NextLoop ip anchor forwardH op d' t) =>
      ip0 < anchor <= mflimit isize /\ ip = anchor + 1 /\ hash_ok forwardH /\ tbl_ok t ip /\ exists qs, seqs_written d qs anchor op d'
  end.

Lemma next_ok_mono d ip0 ip1 r : ip0 <= ip1 -> next_ok d ip1 r -> next_ok d ip0 r.
Proof. intros Hle. destruct r as [[]|]; cbn; try done; intros (? & ?); (split; [lia|done]). Qed.

Lemma shiftr_8 n : Z.shiftr n 8 = n / 256.
Proof. by rewrite Z.shiftr_div_pow2. Qed.

Lemma ext_room n : 0 <= n <= isize -> zlen (ext n) <= n / 256 + slack.
Proof. intros Hn. unfold slack. pose proof (length_ext n ltac:(lia)). pose proof (Z.div_le_mono n isize 65280 ltac:(lia) ltac:(lia)). lia. Qed.

(** The offset is written and the match counted. *)
Lemma match_written d qs lits rest ip ref n0 :
  seqs_ok isize [] qs -> upto s ip = expand_seqs qs [] ++ lits -> 0 <= ref < ip -> ip <= mflimit isize -> ip - ref <= 65535 ->
  4 <= n0 -> ip + n0 <= matchlimit isize -> agree s ip ref n0 ->
  length (body qs ++ seq_head lits ++ rest) = length d -> 2 <= zlen rest -> osize + slack <= zlen d ->
  let op := zlen (body qs ++ seq_head lits) in
  exists len d1, 4 <= len /\ n0 <= len /\ ip + len <= matchlimit isize /\
    put_n (body qs ++ seq_head lits ++ rest) op (le_bytes 2 (ip - ref)) = Ok d1 /\ length d1 = length d /\
    count_match s isize (ip + MINMATCH) (ref + MINMATCH) = Ok (ip + len) /\
    (op + 2 + 6 + (len - 4) / 256 <= osize -> exists qs' d2, put_match d1 (zlen (body qs)) (op + 2) (len - 4) = Ok (zlen (body qs'), d2) /\
      zlen (body qs') + 4 <= zlen d /\ seqs_written d qs' (ip + len) (zlen (body qs')) d2).
Proof.
  intros Hqs Hup Hr Hip Hdist Hn0 Hn0' Ha Hl Hroom Hd op. change MINMATCH with 4.
  assert (Hsz : ip <= isize - 12) by exact Hip. assert (Hmt : matchlimit isize = isize - 5) by done.
  destruct (count_match_ok (ip + 4) (ref + 4)) as (n & Ec & Hlong); [lia..|].
  assert (H4 : n0 - 4 <= n). { eapply longest_le; [done| |lia]. apply agree_from with n0; [lia|lia|done]. }
  assert (Hag : agree s ip ref (4 + n)). { apply agree_app; [lia| |by apply Hlong]. intros k Hk. apply Ha. lia. }
  destruct Hlong as (Hn & Hle & _ & _). destruct (split_at rest 2) as (mid & rest' & -> & Hmid); [lia|].
  exists (4 + n), (body qs ++ seq_head lits ++ le_bytes 2 (ip - ref) ++ rest'). split_and!; [lia..| | | |].
  - subst op. rewrite !(app_assoc (body qs)), put_n_next by (rewrite length_le_bytes; lia). by rewrite <- !app_assoc.
  - rewrite <- Hl. app_len. rewrite length_le_bytes. lia.
  - rewrite Ec. f_equal. lia.
  - intros Hchk. exists (qs ++ [Seq lits (ip - ref) (4 + n)]). replace (4 + n - 4) with n in * by lia.
    pose proof (ext_room n ltac:(lia)) as Hext. pose proof (seq_bytes_head lits (ip - ref) (4 + n)) as Hq. replace (4 + n - 4) with n in Hq by lia.
    assert (Eop : op + 2 = zlen (body qs ++ 16 * Z.min 15 (zlen lits) :: ext (zlen lits) ++ lits ++ le_bytes 2 (ip - ref))).
    { unfold op, seq_head. app_len. rewrite length_le_bytes. lia. }
    destruct (put_match_ok d (body qs) (16 * Z.min 15 (zlen lits)) (ext (zlen lits) ++ lits ++ le_bytes 2 (ip - ref)) rest' n) as (rest2 & E & Hl2).
    + lia.
    + lia.
    + rewrite <- Hl. unfold seq_head. app_len. rewrite length_le_bytes. lia.
    + replace (zlen _) with (op + 2 + zlen (ext n)) by (rewrite Eop; app_len; lia). lia.
    + rewrite <- Hq, <- body_snoc in E, Hl2. exists (body (qs ++ [Seq lits (ip - ref) (4 + n)]) ++ rest2). split_and!.
      * rewrite <- E, Eop. f_equal. unfold seq_head. by rewrite <- !app_comm_cons, <- !app_assoc.
      * rewrite body_snoc, Hq. replace (zlen _) with (op + 2 + zlen (ext n)) by (rewrite Eop; app_len; lia). lia.
      * constructor; [by eexists|done|done|]. by apply covers_snoc; try lia.
Qed.

Lemma next_match_ok fuel d qs lits rest t p ip ref n0 :
  seqs_ok isize [] qs -> upto s ip = expand_seqs qs [] ++ lits -> 0 <= ref < ip -> ip <= mflimit isize -> ip - ref <= 65535 ->
  4 <= n0 -> ip + n0 <= matchlimit isize -> agree s ip ref n0 -> tbl_ok t p -> p <= ip + n0 ->
  length (body qs ++ seq_head lits ++ rest) = length d -> 2 <= zlen rest -> osize + slack <= zlen d -> (Z.to_nat (isize - ip) < fuel)%nat ->
  next_ok d ip (next_match small s isize osize fuel (body qs ++ seq_head lits ++ rest) t ip ref (zlen (body qs)) (zlen (body qs ++ seq_head lits))).
Proof.
  revert qs lits rest t p ip ref n0. induction fuel as [|fuel IH]; intros qs lits rest t p ip ref n0 Hqs Hup Hr Hip Hdist Hn0 Hn0' Ha Ht Hp Hl Hroom Hd Hf; [lia|].
  cbn [next_match]. cbv zeta. assert (Hmf : mflimit isize = isize - 12) by done. assert (Hml : matchlimit isize = isize - 5) by done.
  destruct (match_written d qs lits rest ip ref n0) as (len & d1 & Hlen & Hlen0 & Hle & -> & Hl1 & Ec & Hput); [done..|].
  cbn [mbind res_bind]. rewrite Ec. cbn [mbind res_bind]. rewrite shiftr_8. change MINMATCH with 4. change (1 + LASTLITERALS) with 6.
  replace (ip + len - (ip + 4)) with (len - 4) by lia. destruct (Z.ltb_spec osize (zlen (body qs ++ seq_head lits) + 2 + 6 + (len - 4) / 256)); [done|].
  destruct Hput as (qs' & d2 & -> & Hop & Hw); [lia|]. cbn [mbind res_bind].
  destruct (Z.ltb_spec (mflimit isize) (ip + len)). { split; [lia|by exists qs']. }
  destruct (hash_value_ok (ip + len - 2)) as (h1 & -> & Hh1); [lia..|]. cbn [mbind res_bind].
  destruct (hash_value_ok (ip + len)) as (h2 & -> & Hh2); [lia..|]. cbn [mbind res_bind].
  assert (Ht1 : tbl_ok (table_set small t h1 (ip + len - 2)) (ip + len)) by (apply (table_set_ok _ p); [done|lia..]).
  destruct (table_get_ok _ _ h2 Ht1 Hh2) as (ref2 & -> & Hr2). cbn [mbind res_bind].
  assert (Ht2 : tbl_ok (table_set small (table_set small t h1 (ip + len - 2)) h2 (ip + len)) (ip + len + 1)) by (apply (table_set_ok _ (ip + len)); [done|lia..]).
  set (t2 := table_set small _ h2 _) in *. clearbody t2. clear Ht1. change MAX_DISTANCE with 65535.
  assert (Hfound : exists b, (if small || (ip + len - (65535 + 1) <? ref2) then a ← A32 s ref2; b ← A32 s (ip + len); Ok (a =? b) else Ok false) = Ok b /\
    (b = true -> match_at (ip + len) ref2)).
  { destruct (small || (ip + len - (65535 + 1) <? ref2)) eqn:Edist; [|by exists false]. destruct (same_word (ip + len) ref2) as (b & -> & Hb); [lia..|].
    exists b. split; [done|]. intros Eb. constructor; [lia|lia| |by apply Hb]. apply orb_true_iff in Edist as [Es|El]; [apply small_distance; [done|lia|lia]|]. apply Z.ltb_lt in El. lia. }
  destruct Hfound as (b & -> & Hb). cbn [mbind res_bind]. destruct b.
  - destruct (Hb eq_refl) as [_ Hr2' Hdist2 Ha2]. destruct Hw as [[rest2 ->] _ Hl2 [Hcov Hok]]. apply (next_ok_mono d ip (ip + len)); [lia|].
    destruct (room_cons rest2 3) as (r2 & rest3 & -> & Hroom2); [done|app_len; lia|]. rewrite put_next, wrap8_small by (by split). cbn [mbind res_bind].
    change (0 :: rest3) with (seq_head [] ++ rest3). replace (zlen (body qs') + 1) with (zlen (body qs' ++ seq_head [])) by (change (seq_head []) with [0]; app_len; lia).
    apply (IH qs' [] rest3 t2 (ip + len + 1) (ip + len) ref2 4); try done; try lia; [by rewrite app_nil_r|rewrite <- Hl2; change (seq_head []) with [0]; app_len; lia].
  - destruct (hash_value_ok (ip + len + 1)) as (h3 & -> & Hh3); [lia..|]. cbn [mbind res_bind next_ok]. split_and!; [lia..|done|done|done|by exists qs'].
Qed.

(** ** The whole block *)

(** The size is zero, or the buffer starts with a block that stands for the source. *)
Definition block_ok (d : list Z) (r : res (Z * list Z)) : Prop :=
  exists c d', r = Ok (c, d') /\ length d' = length d /\
    (c = 0 \/ exists qs ll rest, d' = block_bytes qs ll ++ rest /\ c = zlen (block_bytes qs ll) /\ c <= osize /\ lz4_block s isize qs ll).

Lemma ext_count n : 0 <= n -> zlen (ext n) = (n + 240) / 255.
Proof.
  intros Hn. unfold ext. destruct (Z.ltb_spec n 15). { rewrite Z.div_small; [done|lia]. }
  app_len. rewrite length_replicate. pose proof (Z.div_pos (n - 15) 255 ltac:(lia) ltac:(lia)). replace (n + 240) with (n - 15 + 1 * 255) by lia. rewrite Z.div_add; lia.
Qed.

Lemma last_literals_ok d d' qs anchor op :
  seqs_written d qs anchor op d' -> 0 <= anchor <= isize -> osize <= zlen d -> block_ok d (last_literals s isize osize d' anchor op).
Proof.
  intros [[rest ->] -> Hl [Hcov Hok]] Ha Hd. unfold last_literals. cbv zeta. change RUN_MASK with 15. set (n := isize - anchor).
  replace (n + 255 - 15) with (n + 240) by lia. rewrite <- ext_count by lia.
  destruct (Z.ltb_spec osize (zlen (body qs) + n + 1 + zlen (ext n))). { exists 0, (body qs ++ rest). split_and!; [done..|by left]. }
  destruct (room_cons rest 1) as (r & rest' & -> & _); [done|app_len; lia|].
  destruct (put_run_ok d (body qs) r rest' n) as (rest2 & -> & Hl2); [lia|done|app_len; lia|]. cbn [mbind res_bind].
  rewrite get_n_sub by lia. cbn [mbind res_bind]. set (ll := sub_bytes s anchor (anchor + n)).
  assert (Hll : zlen ll = n) by (unfold ll; rewrite length_sub_bytes; lia).
  destruct (split_at rest2 n) as (mid & rest3 & -> & Hmid); [app_len; lia|]. rewrite put_n_next by lia. cbn [mbind res_bind].
  assert (Eb : (body qs ++ 16 * Z.min 15 n :: ext n) ++ ll = block_bytes qs ll) by (unfold block_bytes, last_bytes; rewrite Hll, <- app_assoc; done).
  rewrite app_assoc, Eb. assert (Ec : zlen (body qs ++ 16 * Z.min 15 n :: ext n) + n = zlen (block_bytes qs ll)) by (rewrite <- Eb; app_len; lia). rewrite Ec.
  eexists _, _. split; [done|]. split; [rewrite <- Hl2, <- Eb; app_len; lia|]. right. exists qs, ll, rest3. split_and!; [done|done|rewrite <- Ec; app_len; lia|].
  split_and!; [|done|by apply sub_bytes_u8]. fold (upto s isize). rewrite (upto_sub s anchor isize), Hcov by lia. f_equal. unfold ll. f_equal. lia.
Qed.

Lemma main_loop_ok fuel d d' qs t ip anchor h op :
  seqs_written d qs anchor op d' -> tbl_ok t ip -> 0 <= anchor < ip -> anchor <= isize -> hash_ok h -> osize + slack <= zlen d -> (Z.to_nat (isize - anchor) < fuel)%nat ->
  block_ok d (main_loop small s isize osize fuel d' t ip anchor h op).
Proof.
  revert d' qs t ip anchor h op. induction fuel as [|fuel IH]; intros d' qs t ip anchor h op Hw Ht Ha Hai Hh Hd Hf; [lia|]. cbn [main_loop].
  assert (Hmf : mflimit isize = isize - 12) by done. assert (Hml : matchlimit isize = isize - 5) by done.
  assert (Hsl : 2 <= slack) by (unfold slack; pose proof (Z.div_pos isize 65280); lia).
  destruct (find_match_ok (copy_fuel isize) t ip ip h (Z.shiftl 1 SKIPSTRENGTH + 3)) as (found & -> & Hfound); [done|lia|done|done|unfold copy_fuel; lia|].
  cbn [mbind res_bind]. destruct found as [[[ip0 ref0] t']|]; [|by apply (last_literals_ok d d' qs); [|lia..]].
  destruct (Hfound ip0 ref0 t' eq_refl) as (Hip0 & [Hmi Href Hdist Hag] & Ht').
  destruct (catch_up_ok (copy_fuel isize) ip0 ref0 anchor 4) as (k & -> & Hk & Hkr & Hagk); [lia..|done|unfold copy_fuel; lia|]. cbn [mbind res_bind]. cbv zeta.
  set (l := ip0 - k - anchor). change (2 + 1 + LASTLITERALS) with 8. rewrite shiftr_8. destruct (Z.ltb_spec osize (op + 1 + l + 8 + l / 256)).
  { exists 0, d'. split_and!; [done|by destruct Hw|by left]. }
  destruct Hw as [[rest ->] -> Hl [Hcov Hok]]. pose proof (ext_room l ltac:(lia)) as Hext. pose proof (Z.div_pos l 256 ltac:(lia) ltac:(lia)).
  destruct (room_cons rest 1) as (r & rest' & -> & _); [done|app_len; lia|].
  destruct (put_run_ok d (body qs) r rest' l) as (rest2 & -> & Hl2); [lia|done|app_len; lia|]. cbn [mbind res_bind].
  destruct (LZ4_BLINDCOPY_ok d anchor (body qs ++ 16 * Z.min 15 l :: ext l) rest2 l) as (rest3 & -> & Hl3); [lia|lia|lia|done|app_len; lia|]. cbn [mbind res_bind].
  set (lits := sub_bytes s anchor (anchor + l)) in *. assert (Hlits : zlen lits = l) by (unfold lits; rewrite length_sub_bytes; lia).
  assert (E : (body qs ++ 16 * Z.min 15 l :: ext l) ++ lits = body qs ++ seq_head lits) by (unfold seq_head; rewrite Hlits, <- app_assoc; done).
  rewrite E, <- app_assoc in Hl3 |- *.
  pose proof (next_match_ok (copy_fuel isize) d qs lits rest3 t' (ip0 + 1) (ip0 - k) (ref0 - k) (4 + k)) as Hnext.
  assert (Hn : next_ok d (ip0 - k) (next_match small s isize osize (copy_fuel isize) (body qs ++ seq_head lits ++ rest3) t' (ip0 - k) (ref0 - k) (zlen (body qs)) (zlen (body qs ++ seq_head lits)))).
  { apply Hnext; try done; try lia; [| |unfold copy_fuel; lia].
    - rewrite (upto_sub s anchor), Hcov by lia. f_equal. unfold lits. f_equal. lia.
    - assert (zlen (body qs ++ seq_head lits) = zlen (body qs) + 1 + zlen (ext l) + l) by (rewrite <- E; app_len; lia). app_len. lia. }
  clear Hnext. destruct (next_match _ _ _ _ _ _ _ _ _ _ _) as [[d2|anchor2 op2 d2|ip2 anchor2 h2 op2 d2 t2]|]; [| | |done]; cbn [mbind res_bind next_ok] in *.
  - exists 0, d2. split_and!; [done..|by left].
  - destruct Hn as (Han & qs2 & Hw2). apply (last_literals_ok d d2 qs2); [done|lia..].
  - destruct Hn as (Han & -> & Hh2 & Ht2 & qs2 & Hw2). apply (IH d2 qs2); [done|done|lia|lia|done|done|lia].
Qed.

Lemma seqs_written_nil d : seqs_written d [] 0 0 d.
Proof. constructor; [by exists d|done|done|by split]. Qed.

Lemma compress_ctx_ok t d :
  0 <= isize -> osize + slack <= zlen d -> tbl_ok t 1 -> block_ok d (compress_ctx small s isize osize t d).
Proof.
  intros Hi Hd Ht. assert (Hsl : 0 <= slack) by (unfold slack; pose proof (Z.div_pos isize 65280); lia). unfold compress_ctx. change MINLENGTH with 13.
  destruct (Z.ltb_spec isize 13); [apply (last_literals_ok d d []); [apply seqs_written_nil|lia..]|].
  assert (Ht' : exists t', (if small then Ok t else h ← hash_value small s 0; Ok (table_set small t h 0)) = Ok t' /\ tbl_ok t' 1).
  { destruct (hash_value_ok 0) as (h & E & _); [lia..|]. rewrite E. cbn [mbind res_bind].
    assert (tbl_ok (table_set small t h 0) 1) by (apply (table_set_ok _ 1); [done|unfold mflimit; change MFLIMIT with 12; lia..]).
    revert Ht H0. case small; intros; by eexists. }
  destruct Ht' as (t' & -> & Ht'). cbn [mbind res_bind]. destruct (hash_value_ok 1) as (h & -> & Hh); [lia..|]. cbn [mbind res_bind].
  apply (main_loop_ok _ d d []); [apply seqs_written_nil|done|lia|lia|done|done|unfold copy_fuel; lia].
Qed.

End Input.

Lemma tbl_ok_zero small : tbl_ok small (replicate (Z.to_nat (Z.shiftl 1 (hash_log small))) 0) 1.
Proof. split; [by destruct small; vm_compute|]. apply Forall_replicate. lia. Qed.

Lemma real_LZ4_compress_ok s d isize osize :
  Forall is_u8 s -> 0 <= isize <= zlen s -> isize < B32 -> osize + slack isize <= zlen d ->
  block_ok s isize osize d (real_LZ4_compress s d isize osize).
Proof.
  intros Hu Hs Hsize Hd. unfold real_LZ4_compress. destruct (Z.ltb_spec isize LZ4_64KLIMIT).
  - apply (compress_ctx_ok true); try done; try lia. apply (tbl_ok_zero true).
  - apply (compress_ctx_ok false); try done; try lia. apply (tbl_ok_zero false).
Qed.

Lemma be32_back w : is_u32 w -> le_word (rev (be32_bytes w)) = w.
Proof. intros Hw. unfold be32_bytes. rewrite rev_involutive. by apply le_word_bytes. Qed.

Lemma length_be32 w : length (be32_bytes w) = 4%nat.
Proof. unfold be32_bytes. by rewrite length_rev, length_le_bytes. Qed.

(** A buffer that starts like another. *)
Lemma take_eq_app (z d x rest : list Z) n : n = length x -> (n <= length z)%nat -> d = x ++ rest -> take n z = take n d -> exists tl, z = x ++ tl.
Proof. intros -> Hl -> E. rewrite take_app_length in E. exists (drop (length x) z). symmetry. by rewrite <- E at 1; apply take_drop. Qed.

(** The decompressor on a size and a block. *)
Lemma lz4_decompress_block s s_len qs ll tl o z_len :
  lz4_block s s_len qs ll -> 0 <= s_len <= zlen s -> s_len < B32 / 2 -> Forall is_u8 (block_bytes qs ll ++ tl) -> zlen (block_bytes qs ll) < B32 / 2 ->
  zlen (block_bytes qs ll) + 4 <= z_len -> s_len <= zlen o ->
  lz4_decompress_zfs (be32_bytes (zlen (block_bytes qs ll)) ++ block_bytes qs ll ++ tl) o z_len s_len 0 = Ok (0, take (Z.to_nat s_len) s ++ drop (Z.to_nat s_len) o).
Proof.
  intros (Hs & Hqs & Hll) Hl Hs31 H8 Hb31 Hz Ho. change (B32 / 2) with 2147483648 in *. unfold lz4_decompress_zfs, BE_IN32. set (c := zlen (block_bytes qs ll)) in *.
  rewrite get_n_sub by (app_len; rewrite ?length_be32; lia). cbn [mbind res_bind]. unfold sub_bytes. rewrite Z.add_simpl_l, drop_0.
  rewrite (take_app_length' (be32_bytes c)), be32_back by (rewrite ?length_be32; unfold is_u32; lia). rewrite (proj2 (Z.ltb_ge _ _)) by lia.
  rewrite (drop_app_length' (be32_bytes c)) by (by rewrite length_be32). rewrite !to_int_small by (change (B32 / 2) with 2147483648; lia).
  destruct (uncompress_block qs ll tl o s_len) as (o' & E & Hw & Hup); [done|done|rewrite <- Hs, length_take; lia|done|lia|]. fold c in E. rewrite E. cbn [mbind res_bind].
  rewrite (proj2 (Z.ltb_ge _ _)) by lia. f_equal. f_equal. rewrite <- (take_drop (Z.to_nat s_len) o'). f_equal; [by rewrite Hs, <- Hup|]. apply (wr_hi _ _ _ _ Hw).
Qed.

Lemma lz4_compress_restores s d s_len d_len n :
  Forall is_u8 s -> 0 <= s_len <= zlen s -> s_len < B32 / 2 -> 4 <= d_len -> d_len + slack s_len <= zlen d -> d_len < B32 / 2 ->
  exists c_len d', lz4_compress_zfs s d s_len d_len n = Ok (c_len, d') /\ length d' = length d /\
    (c_len < s_len -> 0 < c_len <= d_len /\ restores (fun z o z_len o_len => lz4_decompress_zfs z o z_len o_len n) s s_len d' c_len).
Proof.
  intros Hu Hs Hs31 Hd4 Hd Hd31. change (B32 / 2) with 2147483648 in *. assert (Hsl : 2 <= slack s_len) by (unfold slack; pose proof (Z.div_pos s_len 65280); lia).
  unfold lz4_compress_zfs. rewrite !to_int_small by (change (B32 / 2) with 2147483648; lia). destruct (split_at d 4) as (pre & body & -> & Hpre); [lia|]. rewrite drop_app_length', take_app_length' by lia. app_len.
  destruct (real_LZ4_compress_ok s body s_len (d_len - 4)) as (c & body' & -> & Hlen & Hc); [done|done|lia|app_len; lia|]. cbn [mbind res_bind].
  destruct (Z.eqb_spec c 0). { eexists _, _. split; [done|]. split; [app_len; lia|lia]. }
  destruct Hc as [|(qs & ll & rest & -> & Ec & Hfit & Hblk)]; [done|].
  pose proof (put_n_next [] pre (block_bytes qs ll ++ rest) (be32_bytes c) ltac:(rewrite length_be32; lia)) as Eput. cbn [length app] in Eput. change (Z.of_nat 0) with 0 in Eput. rewrite Eput. cbn [mbind res_bind app]. eexists _, _. split; [done|].
  split; [app_len; rewrite length_be32; lia|]. intros Hlt. split; [lia|]. intros z o z_len Hz8 Hz Hzl Ho.
  destruct (take_eq_app z _ (be32_bytes c ++ block_bytes qs ll) rest (Z.to_nat (c + 4)) ltac:(app_len; rewrite length_be32; lia) ltac:(lia) (app_assoc _ _ _) Hz) as (tl & ->).
  rewrite <- app_assoc in Hz8 |- *. rewrite Ec. apply lz4_decompress_block; change (B32 / 2) with 2147483648; try done; try lia. by apply Forall_app in Hz8 as [_ ?].
Qed.

#[export] Instance lz4_codec n : Codec (fun _ => lz4_compress_zfs) (fun _ => lz4_decompress_zfs) n.
Proof.
  apply codec_intro. intros _ s d s_len Hu Hb Hs Hd. destruct (compress_room s_len Hb) as [H8 E8]. unfold block_size in Hb. change (B32 / 2) with 2147483648 in Hb.
  assert (slack s_len <= Z.shiftr s_len 3) by (unfold slack; clear Hs Hd; Z.to_euclidean_division_equations; lia).
  destruct (lz4_compress_restores s d s_len (s_len - Z.shiftr s_len 3) n) as (c & d' & E & El & Hc); [done|change (B32 / 2) with 2147483648; lia..|].
  exists c, d'. split_and!; [done..|]. intros Hlt. destruct (Hc Hlt) as [Hle Hr]. split; [done|]. intros _. exact Hr.
Qed.

(** ** Properties *)

(** C13: what [lz4_compress_zfs] writes when it makes a block smaller fits in the
    size it was given, and [lz4_decompress_zfs] expands it to the block again, also
    from a larger buffer that only starts with it.  The target has room for the
    bytes the checks do not count. *)
Theorem lz4_roundtrip s d s_len d_len n :
  Forall is_u8 s -> 0 <= s_len <= zlen s -> s_len < B32 / 2 -> 4 <= d_len -> d_len + slack s_len <= zlen d -> d_len < B32 / 2 ->
  exists c_len d', lz4_compress_zfs s d s_len d_len n = Ok (c_len, d') /\ length d' = length d /\
    (c_len < s_len -> 0 < c_len <= d_len /\
      forall z o z_len, Forall is_u8 z -> take (Z.to_nat c_len) z = take (Z.to_nat c_len) d' -> c_len <= z_len <= zlen z -> s_len <= zlen o ->
        lz4_decompress_zfs z o z_len s_len n = Ok (0, take (Z.to_nat s_len) s ++ drop (Z.to_nat s_len) o)).
Proof. apply lz4_compress_restores. Qed.

Module Example.

(** 5625 bytes without a repetition, then a part of them again. *)
Definition fresh : list Z := 255 :: (i ← seq 0 2812; [Z.of_nat i / 256; Z.of_nat i mod 256]).
Definition repeating : list Z := fresh ++ sub_bytes fresh 101 701.

(** C37: the compressor, told that the target has 5655 bytes, overwrites the byte
    after them: its check counts a length byte for every 256 literals where it
    writes one for every 255. *)
Theorem lz4_overruns_target :
  match real_LZ4_compress repeating (replicate 5655 0 ++ [77]) (zlen repeating) 5655 with
  | Ok (_, d') => byte d' 5655 <> 77
  | Panic => False
  end.
Proof. vm_compute. discriminate. Qed.

Definition text : list Z := [10; 20; 30; 40; 50; 60; 70; 80] ++ (i ← seq 0 9; [10; 20; 30; 40; 50; 60; 70; 80]) ++ [1; 2; 3].

Lemma text_u8 : Forall is_u8 text.
Proof. repeat (constructor; [split; vm_compute; done|]). constructor. Defined.

Lemma lz4_roundtrip_witness :
  exists d', lz4_compress_zfs text (replicate 100 7) 83 73 0 = Ok (22, d') /\
    lz4_decompress_zfs d' (replicate 83 9) 60 83 0 = Ok (0, text).
Proof.
  destruct (lz4_roundtrip text (replicate 100 7) 83 73 0) as (c & d' & E & El & Hrt).
  - exact text_u8.
  - vm_compute. split; discriminate.
  - vm_compute. reflexivity.
  - lia.
  - vm_compute. discriminate.
  - vm_compute. reflexivity.
  - vm_compute in E. injection E as <- <-. eexists. split; [vm_compute; reflexivity|].
    apply Hrt; [lia| |reflexivity|vm_compute; split; discriminate|vm_compute; discriminate].
    repeat (constructor; [split; vm_compute; done|]). constructor.
Defined.

End Example.
