(* ===== verification/ZioCompress.v ===== *)
(** * Compression of blocks: [module/zfs/zio_compress.c], [module/zfs/gzip.c]

    The table of compressors and the functions through which the pool compresses
    and expands the data of a block.  They are verified against the interface
    [Codec], of which every compressor of the table is an instance; that of gzip
    rests on the zlib library, whose two functions are parameters.  The data of a block is a scatter buffer of
    [Abd] in byte memory, and the other side a plain buffer. *)

From stdpp Require Import gmap strings.
From S2P Require Import Prelude Buffer Codec Zle Lzjb Lz4 Lz4Format Lz4Encode Memory Abd.

Inductive zio_compress : Type :=
| ZIO_COMPRESS_INHERIT
| ZIO_COMPRESS_ON
| ZIO_COMPRESS_OFF
| ZIO_COMPRESS_LZJB
| ZIO_COMPRESS_EMPTY
| ZIO_COMPRESS_GZIP_1
| ZIO_COMPRESS_GZIP_2
| ZIO_COMPRESS_GZIP_3
| ZIO_COMPRESS_GZIP_4
| ZIO_COMPRESS_GZIP_5
| ZIO_COMPRESS_GZIP_6
| ZIO_COMPRESS_GZIP_7
| ZIO_COMPRESS_GZIP_8
| ZIO_COMPRESS_GZIP_9
| ZIO_COMPRESS_ZLE
| ZIO_COMPRESS_LZ4
| ZIO_COMPRESS_FUNCTIONS.

#[export] Instance zio_compress_eq_dec : EqDecision zio_compress.
Proof. solve_decision. Defined.

Record zio_compress_info : Type := CompressInfo {
  ci_name : string;
  ci_level : Z;
  ci_compress : option zio_compress_func;
  ci_decompress : option zio_compress_func
}.

Definition EINVAL : Z := 22.

(** [ZIO_COMPRESS_LZ4_ON_VALUE] and [ZIO_COMPRESS_LEGACY_ON_VALUE] *)
Definition zio_compress_select (lz4_active : bool) (child parent : zio_compress) : zio_compress :=
  let result := if decide (child = ZIO_COMPRESS_INHERIT) then parent else child in
  if decide (result = ZIO_COMPRESS_ON) then if lz4_active then ZIO_COMPRESS_LZ4 else ZIO_COMPRESS_LZJB
  else result.

(** ** gzip *)

(** [Z_OK] of zlib. *)
Definition Z_OK : Z := 0.

Section Gzip.

(** [compress2] and [uncompress] of zlib: from a target, its size, a source and
    its size (and a level), the status, the size written and the target. *)
Variable compress2 : list Z -> Z -> list Z -> Z -> Z -> res (Z * Z * list Z).
Variable uncompress : list Z -> Z -> list Z -> Z -> res (Z * Z * list Z).

Definition gzip_compress (s d : list Z) (s_len d_len n : Z) : res (Z * list Z) :=
  '(status, dstlen, d) ← compress2 d d_len s s_len n;
  if negb (status =? Z_OK) then
    if negb (d_len =? s_len) then Ok (s_len, d)
    else vs ← get_n s 0 s_len; d ← put_n d 0 vs; Ok (s_len, d)
  else Ok (dstlen, d).

Definition gzip_decompress (s d : list Z) (s_len d_len n : Z) : res (Z * list Z) :=
  '(status, _, d) ← uncompress d d_len s s_len;
  if negb (status =? Z_OK) then Ok (-1, d) else Ok (0, d).

End Gzip.

(** ** The table and its users *)

Section Compress.

Variable compress2 : list Z -> Z -> list Z -> Z -> Z -> res (Z * Z * list Z).
Variable uncompress : list Z -> Z -> list Z -> Z -> res (Z * Z * list Z).
Variable kmem_alloc : mem -> Z -> Z * list Z.

(** The address of a location. *)
Variable addr : ptr -> Z.

Definition gzip_info (name : string) (level : Z) : zio_compress_info :=
  CompressInfo name level (Some (fun _ => gzip_compress compress2)) (Some (fun _ => gzip_decompress uncompress)).

Definition zio_compress_table (c : zio_compress) : option zio_compress_info :=
  match c with
  | ZIO_COMPRESS_INHERIT => Some (CompressInfo "inherit" 0 None None)
  | ZIO_COMPRESS_ON => Some (CompressInfo "on" 0 None None)
  | ZIO_COMPRESS_OFF => Some (CompressInfo "uncompressed" 0 None None)
  | ZIO_COMPRESS_LZJB => Some (CompressInfo "lzjb" 0 (Some lzjb_compress) (Some (fun _ => lzjb_decompress)))
  | ZIO_COMPRESS_EMPTY => Some (CompressInfo "empty" 0 None None)
  | ZIO_COMPRESS_GZIP_1 => Some (gzip_info "gzip-1" 1)
  | ZIO_COMPRESS_GZIP_2 => Some (gzip_info "gzip-2" 2)
  | ZIO_COMPRESS_GZIP_3 => Some (gzip_info "gzip-3" 3)
  | ZIO_COMPRESS_GZIP_4 => Some (gzip_info "gzip-4" 4)
  | ZIO_COMPRESS_GZIP_5 => Some (gzip_info "gzip-5" 5)
  | ZIO_COMPRESS_GZIP_6 => Some (gzip_info "gzip-6" 6)
  | ZIO_COMPRESS_GZIP_7 => Some (gzip_info "gzip-7" 7)
  | ZIO_COMPRESS_GZIP_8 => Some (gzip_info "gzip-8" 8)
  | ZIO_COMPRESS_GZIP_9 => Some (gzip_info "gzip-9" 9)
  | ZIO_COMPRESS_ZLE => Some (CompressInfo "zle" 64 (Some (fun _ => zle_compress)) (Some (fun _ => zle_decompress)))
  | ZIO_COMPRESS_LZ4 => Some (CompressInfo "lz4" 0 (Some (fun _ => lz4_compress_zfs)) (Some (fun _ => lz4_decompress_zfs)))
  | ZIO_COMPRESS_FUNCTIONS => None
  end.

(** [for (word = data; word < end; word++) if ( *word != 0) return (1);] *)
Fixpoint zeroed_loop (fuel : nat) (m : mem) (word : ptr) (e : Z) : res Z :=
  match fuel with
  | O => Panic
  | S fuel' =>
      if p_off word <? e then
        bs ← load m word 8;
        if negb (le_word bs =? 0) then Ok 1 else zeroed_loop fuel' m (ptr_add word 8) e
      else Ok 0
  end.

Definition zio_compress_zeroed_cb (m : mem) (data : ptr) (len : Z) (_ : unit) : res (Z * unit) :=
  r ← zeroed_loop (S (Z.to_nat len)) m data (p_off data + len); Ok (r, tt).

(** A call of a function of the table: it reads [s_len] bytes of the source and
    may write from the target on.  The model covers a source and a target in
    different blocks of memory; one block for both is [Panic]. *)
Definition call_codec (f : zio_compress_func) (m : mem) (src dst : ptr) (s_len d_len level : Z) : res (Z * mem) :=
  sb ← load m src s_len;
  db ← deref (m !! p_blk dst);
  VERIFY (0 <=? p_off dst) && negb (p_blk src =? p_blk dst) ;;
  '(r, db') ← f (addr src) sb (drop (Z.to_nat (p_off dst)) db) s_len d_len level;
  Ok (r, <[p_blk dst := take (Z.to_nat (p_off dst)) db ++ db']> m).

Definition zio_compress_data (m : mem) (c : zio_compress) (src : abd) (dst : ptr) (s_len : Z) : res (Z * abd * mem) :=
  '(nonzero, _) ← abd_iterate_func (zio_compress_zeroed_cb m) src 0 s_len tt;
  if nonzero =? 0 then Ok (0, src, m)
  else if decide (c = ZIO_COMPRESS_EMPTY) then Ok (s_len, src, m)
  else
    let d_len := s_len - Z.shiftr s_len 3 in
    '(tmp, src, m) ← abd_borrow_buf_copy kmem_alloc m src s_len;
    ci ← deref (zio_compress_table c);
    f ← deref (ci_compress ci);
    '(c_len, m) ← call_codec f m tmp dst s_len d_len (ci_level ci);
    '(src, m) ← abd_return_buf m src tmp s_len;
    Ok (if d_len <? c_len then s_len else c_len, src, m).

Definition zio_decompress_data_buf (m : mem) (c : zio_compress) (src dst : ptr) (s_len d_len : Z) : res (Z * mem) :=
  match zio_compress_table c with
  | None => Ok (EINVAL, m)
  | Some ci =>
      match ci_decompress ci with
      | None => Ok (EINVAL, m)
      | Some g => call_codec g m src dst s_len d_len (ci_level ci)
      end
  end.

Definition zio_decompress_data (m : mem) (c : zio_compress) (src : abd) (dst : ptr) (s_len d_len : Z) : res (Z * abd * mem) :=
  '(tmp, src, m) ← abd_borrow_buf_copy kmem_alloc m src s_len;
  '(ret, m) ← zio_decompress_data_buf m c tmp dst s_len d_len;
  '(src, m) ← abd_return_buf m src tmp s_len;
  Ok (ret, src, m).

End Compress.

(** ** The compressors of the table *)

Section Zlib.

Variable compress2 : list Z -> Z -> list Z -> Z -> Z -> res (Z * Z * list Z).
Variable uncompress : list Z -> Z -> list Z -> Z -> res (Z * Z * list Z).

(** What the manual of zlib says of the two: [compress2] writes at most the size
    of the target; [uncompress] gives the data of a complete stream, and does
    not look at what follows it. *)
Definition zlib_ok : Prop :=
  forall d d_len s s_len level, 1 <= level <= 9 -> Forall is_u8 s -> 0 <= s_len <= zlen s -> 0 <= d_len <= zlen d ->
  exists status c_len d', compress2 d d_len s s_len level = Ok (status, c_len, d') /\ length d' = length d /\
    (status = Z_OK -> 0 < c_len <= d_len /\
      forall z z_len o, Forall is_u8 z -> take (Z.to_nat c_len) z = take (Z.to_nat c_len) d' -> c_len <= z_len <= zlen z -> s_len <= zlen o ->
        uncompress o s_len z z_len = Ok (Z_OK, s_len, take (Z.to_nat s_len) s ++ drop (Z.to_nat s_len) o)).

Hypothesis zlib : zlib_ok.

Lemma gzip_codec n : 1 <= n <= 9 -> Codec (fun _ => gzip_compress compress2) (fun _ => gzip_decompress uncompress) n.
Proof.
  intros Hn. apply codec_intro. intros _ s d s_len Hu Hb Hs Hd. destruct (compress_room s_len Hb) as [H8 _]. unfold block_size in Hb.
  destruct (zlib d (s_len - Z.shiftr s_len 3) s s_len n) as (status & c & d' & E & El & Hok); [done|done|lia|lia|].
  unfold gzip_compress. rewrite E. cbn [mbind res_bind]. destruct (Z.eqb_spec status Z_OK) as [->|]; cbn [negb].
  - exists c, d'. split_and!; [done..|]. intros _. destruct (Hok eq_refl) as [Hc Hun]. split; [done|]. intros _ z o z_len Hz Ez Hzl Ho.
    unfold gzip_decompress. by rewrite Hun.
  - rewrite (proj2 (Z.eqb_neq _ _)) by lia. cbn [negb]. exists s_len, d'. split_and!; [done..|lia].
Qed.

Lemma table_codec c ci f :
  zio_compress_table compress2 uncompress c = Some ci -> ci_compress ci = Some f -> exists g, ci_decompress ci = Some g /\ Codec f g (ci_level ci).
Proof.
  intros Ec Ef. destruct c; cbn in Ec; try done; injection Ec as <-; cbn in Ef; try done; injection Ef as <-; eexists; (split; [done|]);
    (by apply gzip_codec) || by typeclasses eauto || by apply zle_codec.
Qed.

End Zlib.

(** ** Blocks of zeros *)

Definition all_zero (bs : list Z) : bool := forallb (Z.eqb 0) bs.

Lemma all_zero_app b1 b2 : all_zero (b1 ++ b2) = all_zero b1 && all_zero b2.
Proof. apply forallb_app. Qed.

Lemma le_word_zero bs : Forall is_u8 bs -> (le_word bs =? 0) = all_zero bs.
Proof.
  induction 1 as [|b bs Hb Hbs IH]; [done|]. cbn [le_word all_zero forallb]. fold (all_zero bs). rewrite <- IH.
  pose proof (le_word_range bs Hbs). unfold is_u8 in Hb. destruct (Z.eqb_spec 0 b) as [<-|]; cbn [andb].
  - destruct (Z.eqb_spec (le_word bs) 0); [apply Z.eqb_eq; lia|apply Z.eqb_neq; lia].
  - apply Z.eqb_neq. lia.
Qed.

Lemma zeroed_loop_ok k fuel m p vs :
  (k < fuel)%nat -> Forall is_u8 vs -> holds m (span p (8 * Z.of_nat k)) vs ->
  zeroed_loop fuel m p (p_off p + 8 * Z.of_nat k) = Ok (if all_zero vs then 0 else 1).
Proof.
  revert fuel p vs. induction k as [|k IH]; intros fuel p vs Hf Hu Hh; (destruct fuel as [|fuel]; [lia|]); cbn [zeroed_loop].
  - apply holds_length in Hh. destruct vs; [|done]. rewrite (proj2 (Z.ltb_ge _ _)) by lia. done.
  - rewrite (proj2 (Z.ltb_lt _ _)) by lia. replace (8 * Z.of_nat (S k)) with (8 + 8 * Z.of_nat k) in * by lia. rewrite span_app in Hh by lia.
    apply Forall2_app_inv_l in Hh as (b1 & b2 & H1 & H2 & ->). apply Forall_app in Hu as [Hu1 Hu2]. rewrite (load_holds m p 8 b1) by done. cbn [mbind res_bind].
    rewrite le_word_zero, all_zero_app by done. destruct (all_zero b1); cbn [negb andb]; [|done].
    replace (p_off p + (8 + 8 * Z.of_nat k)) with (p_off (ptr_add p 8) + 8 * Z.of_nat k) by (cbn; lia). apply IH; [lia|done..].
Qed.

Lemma zeroed_pieces m cs bs :
  Forall (fun c => 0 < c.2) cs -> Forall (fun c => (8 | c.2)) cs -> Forall is_u8 bs -> holds m (c ← cs; span c.1 c.2) bs ->
  run_pieces (zio_compress_zeroed_cb m) cs tt = Ok (if all_zero bs then 0 else 1, tt).
Proof.
  intros Hpos. revert bs. induction Hpos as [|[p n] cs Hn Hpos IH]; intros bs Hd Hu Hh; [by apply Forall2_nil_inv_l in Hh as ->|].
  cbn [mbind list_bind fst snd run_pieces] in *. apply Forall_cons in Hd as [[q Hq] Hd]. cbn in Hn, Hq.
  apply Forall2_app_inv_l in Hh as (b1 & b2 & H1 & H2 & ->). apply Forall_app in Hu as [Hu1 Hu2].
  assert (E : zio_compress_zeroed_cb m p n tt = Ok (if all_zero b1 then 0 else 1, tt)).
  { unfold zio_compress_zeroed_cb. replace n with (8 * Z.of_nat (Z.to_nat q)) in H1 |- * by lia. by rewrite (zeroed_loop_ok _ _ _ _ b1) by (done || lia). }
  rewrite E. cbn [mbind res_bind]. rewrite all_zero_app. destruct (all_zero b1); cbn [negb andb Z.eqb]; [|done]. by apply IH.
Qed.

Lemma zeroed_abd m a size vs :
  abd_wf a -> abd_multiple 8 a -> 0 <= size <= abd_size a -> (8 | size) -> holds m (locs a) vs -> Forall is_u8 vs ->
  abd_iterate_func (zio_compress_zeroed_cb m) a 0 size tt = Ok (if all_zero (slice 0 size vs) then 0 else 1, tt).
Proof.
  intros Hwf Ha Hs Hd Hh Hu. destruct (iterate_pieces a 0 size Hwf) as (cs & Hrun & Hpos & Hl & Hdiv); [lia..|]. rewrite Hrun.
  apply zeroed_pieces; [done| | |].
  - apply Hdiv; [by apply multiple_init|apply Z.divide_0_r|done].
  - by apply Forall_take, Forall_drop.
  - rewrite Hl. by apply holds_take_drop.
Qed.

(** ** Calls on memory *)

Lemma drop_holds m p bs n : m !! p_blk p = Some bs -> 0 <= p_off p -> n = zlen (drop (Z.to_nat (p_off p)) bs) ->
  holds m (span p n) (drop (Z.to_nat (p_off p)) bs).
Proof.
  intros E Hp ->. apply Forall2_same_length_lookup_2; [rewrite length_span; lia|]. intros i l v Hl Hv. rewrite span_lookup in Hl.
  destruct (decide _); [|done]. injection Hl as <-. unfold mbyte. cbn [p_blk p_off ptr_add]. rewrite E. cbn [mbind option_bind].
  rewrite (proj2 (Z.leb_le 0 _)) by lia. rewrite lookup_drop in Hv. by replace (Z.to_nat (p_off p + Z.of_nat i)) with (Z.to_nat (p_off p) + i)%nat by lia.
Qed.

Lemma holds_prefix m p n k vs : 0 <= k <= n -> holds m (span p n) vs -> holds m (span p k) (take (Z.to_nat k) vs).
Proof.
  intros Hk H. replace n with (k + (n - k)) in H by lia. rewrite span_app in H by lia. apply Forall2_app_inv_l in H as (v1 & v2 & H1 & H2 & ->).
  pose proof (holds_length _ _ _ H1) as El. rewrite length_span in El. by rewrite take_app_length' by lia.
Qed.

Lemma call_codec_ok addr m src dst n k vs ws :
  0 < n -> 0 < k -> holds m (span src n) vs -> holds m (span dst k) ws -> p_blk src <> p_blk dst ->
  exists db, k <= zlen db /\ forall f d_len level r db', f (addr src) vs db n d_len level = Ok (r, db') -> length db' = length db ->
    exists m', call_codec addr f m src dst n d_len level = Ok (r, m') /\ holds m' (span dst k) (take (Z.to_nat k) db') /\
      (forall l, p_blk l <> p_blk dst -> mbyte m' l = mbyte m l) /\ (forall b, is_Some (m !! b) -> is_Some (m' !! b)).
Proof.
  intros Hn Hk Hs Hd Hne. destruct (mbyte_block m dst k ws Hk Hd) as (bs & E & H0 & H1). exists (drop (Z.to_nat (p_off dst)) bs).
  rewrite length_drop. split; [lia|]. intros f d_len level r db' Ef El. unfold call_codec. rewrite (load_holds m src n vs) by done. cbn [mbind res_bind]. rewrite E. cbn [deref mbind res_bind].
  rewrite (proj2 (Z.leb_le _ _) H0), (proj2 (Z.eqb_neq _ _) Hne), Ef. cbn [andb negb mbind res_bind]. eexists. split; [done|]. split_and!.
  - apply (holds_prefix _ _ (zlen db')); [lia|]. set (bs' := take _ bs ++ db').
    assert (Ed : drop (Z.to_nat (p_off dst)) bs' = db') by (unfold bs'; apply drop_app_length'; rewrite length_take; lia). rewrite <- Ed at 2.
    apply drop_holds; [by rewrite lookup_insert_eq|done|by rewrite Ed].
  - intros l Hl. by apply mbyte_insert.
  - intros b Hb. destruct (decide (b = p_blk dst)) as [->|]; [rewrite lookup_insert_eq; by eexists|by rewrite lookup_insert_ne].
Qed.

(** ** Properties *)

Section Roundtrip.

Variable compress2 : list Z -> Z -> list Z -> Z -> Z -> res (Z * Z * list Z).
Variable uncompress : list Z -> Z -> list Z -> Z -> res (Z * Z * list Z).
Variable kmem_alloc : mem -> Z -> Z * list Z.
Variable addr : ptr -> Z.

Hypothesis zlib : zlib_ok compress2 uncompress.
Hypothesis kmem_fresh : forall m n, m !! (kmem_alloc m n).1 = None.
Hypothesis kmem_size : forall m n, length (kmem_alloc m n).2 = Z.to_nat n.

Abbreviation table := (zio_compress_table compress2 uncompress).
Abbreviation compress_data := (zio_compress_data compress2 uncompress kmem_alloc addr).
Abbreviation decompress_data := (zio_decompress_data compress2 uncompress kmem_alloc addr).

(** A call on a borrowed copy of the buffer. *)
Lemma with_borrowed m a n dst k vs ws :
  abd_wf a -> 0 < n <= abd_size a -> 0 < k -> holds m (locs a) vs -> holds m (span dst k) ws -> (forall l, l ∈ locs a -> p_blk l <> p_blk dst) ->
  exists tmp a1 m1 db, abd_borrow_buf_copy kmem_alloc m a n = Ok (tmp, a1, m1) /\ k <= zlen db /\
    forall f d_len level r db', f (addr tmp) (slice 0 n vs) db n d_len level = Ok (r, db') -> length db' = length db ->
    exists m2 a3 m3, call_codec addr f m1 tmp dst n d_len level = Ok (r, m2) /\ abd_return_buf m2 a1 tmp n = Ok (a3, m3) /\
      locs a3 = locs a /\ holds m3 (locs a) vs /\ holds m3 (span dst k) (take (Z.to_nat k) db').
Proof.
  intros Hwf Hn Hk Hh Hd Hdis. destruct (borrow_read kmem_alloc kmem_fresh kmem_size m a n vs) as (tmp & a1 & m1 & Eb & Ht & Hold & Htmp & Hret); [done..|].
  assert (Hdst : is_Some (m !! p_blk dst)) by (destruct (mbyte_block m dst k ws Hk Hd) as (bs & -> & _); by eexists).
  assert (Hne : p_blk tmp <> p_blk dst).
  { destruct Htmp as [E|(l & Hl & <-)]; [|by apply Hdis]. intros E'. rewrite E' in E. rewrite E in Hdst. by apply is_Some_None in Hdst. }
  assert (Hd1 : holds m1 (span dst k) ws). { eapply holds_ext; [exact Hd|]. intros l Hl%elem_of_span. apply Hold. by replace (p_blk l) with (p_blk dst) by (symmetry; apply Hl). }
  destruct (call_codec_ok addr m1 tmp dst n k (slice 0 n vs) ws) as (db & Hdb & Hcall); [lia|done..|].
  exists tmp, a1, m1, db. split; [done|]. split; [done|]. intros f d_len level r db' Ef El.
  destruct (Hcall f d_len level r db' Ef El) as (m2 & E2 & Hd2 & Hfr & Hsome).
  destruct (Hret m2) as (a3 & m3 & E3 & El3 & _ & Hm3).
  { apply Hsome. destruct (mbyte_block m1 tmp n (slice 0 n vs) ltac:(lia) Ht) as (bs & -> & _). by eexists. }
  exists m2, a3, m3. split_and!; [done..| |].
  - eapply holds_ext; [exact Hh|]. intros l Hl. assert (is_Some (m !! p_blk l)) by (exact (holds_block m (locs a) vs l Hh Hl)). rewrite Hm3, Hfr, Hold; [done|done|by apply Hdis|done].
  - eapply holds_ext; [exact Hd2|]. intros l Hl%elem_of_span. apply Hm3. by replace (p_blk l) with (p_blk dst) by (symmetry; apply Hl).
Qed.

Lemma all_zero_spec bs : all_zero bs = true <-> Forall (eq 0) bs.
Proof.
  unfold all_zero. rewrite forallb_forall, Forall_forall. split; intros H x Hx; apply Z.eqb_eq, H; by apply list_elem_of_In.
Qed.

(** Expanding what restores [s]. *)
Lemma decompress_restores c ci g s d c_len m z z_len out zs os :
  table c = Some ci -> ci_decompress ci = Some g -> (forall addr', restores (fun z o z_len o_len => g addr' z o z_len o_len (ci_level ci)) s (zlen s) d c_len) ->
  0 < zlen s -> 0 < c_len <= z_len -> abd_wf z -> z_len <= abd_size z -> holds m (locs z) zs -> Forall is_u8 zs ->
  take (Z.to_nat c_len) zs = take (Z.to_nat c_len) d -> holds m (span out (zlen s)) os -> (forall l, l ∈ locs z -> p_blk l <> p_blk out) ->
  exists z' m', decompress_data m c z out z_len (zlen s) = Ok (0, z', m') /\ locs z' = locs z /\ holds m' (locs z) zs /\ holds m' (span out (zlen s)) s.
Proof.
  intros Ec Eg Hg Hs Hc Hwf Hz Hh Hu Etake Hos Hdis. unfold zio_decompress_data, zio_decompress_data_buf.
  destruct (with_borrowed m z z_len out (zlen s) zs os) as (tmp & a1 & m1 & db & -> & Hdb & Hcall); [done|lia|lia|done..|]. cbn [mbind res_bind]. rewrite Ec, Eg.
  assert (Hlen : length zs = Z.to_nat (abd_size z)) by (rewrite <- (holds_length _ _ _ Hh); by apply length_locs).
  destruct (Hcall g (zlen s) (ci_level ci) 0 (s ++ drop (Z.to_nat (zlen s)) db)) as (m2 & a3 & m3 & -> & E3 & El3 & Hh3 & Hd3).
  - unfold slice. rewrite drop_0, Hg; [by rewrite Nat2Z.id, take_ge by lia|by apply Forall_take| |rewrite length_take; lia|done].
    rewrite take_take_le by lia. done.
  - rewrite length_app, length_drop. lia.
  - cbn [mbind res_bind]. rewrite E3. cbn [mbind res_bind]. eexists _, _. split; [done|]. split_and!; [done..|]. by rewrite take_app_length' in Hd3 by lia.
Qed.

(** C12: the data of a block survives the pool.  [zio_compress_data] returns and
    leaves the buffer as it was.  It answers 0 for zeros alone, and otherwise a
    size of at most that of the block.  When the size is smaller it saves an
    eighth, and [zio_decompress_data], given a buffer that starts with the bytes
    written, however it is laid out in memory, gives the data back. *)
Theorem zio_compress_roundtrip c ci f m src dst s_len vs ws :
  table c = Some ci -> ci_compress ci = Some f ->
  abd_wf src -> abd_multiple 8 src -> (8 | s_len) -> block_size s_len -> s_len <= abd_size src -> holds m (locs src) vs -> Forall is_u8 vs ->
  holds m (span dst s_len) ws -> (forall l, l ∈ locs src -> p_blk l <> p_blk dst) ->
  exists r src' m', compress_data m c src dst s_len = Ok (r, src', m') /\ locs src' = locs src /\ holds m' (locs src) vs /\
    0 <= r <= s_len /\ (r = 0 <-> Forall (eq 0) (take (Z.to_nat s_len) vs)) /\
    (0 < r < s_len -> r <= s_len - s_len / 8 /\ exists cs, holds m' (span dst r) cs /\
      forall mz z z_len out zs os, abd_wf z -> r <= z_len <= abd_size z -> holds mz (locs z) zs -> Forall is_u8 zs -> take (Z.to_nat r) zs = cs ->
        holds mz (span out s_len) os -> (forall l, l ∈ locs z -> p_blk l <> p_blk out) ->
        exists z' m2, decompress_data mz c z out z_len s_len = Ok (0, z', m2) /\ locs z' = locs z /\ holds m2 (locs z) zs /\
          holds m2 (span out s_len) (take (Z.to_nat s_len) vs)).
Proof.
  intros Ec Ef Hwf Ha Hd8 Hb Hs Hh Hu Hd Hdis. destruct (table_codec compress2 uncompress zlib c ci f Ec Ef) as (g & Eg & Hcodec).
  pose proof (compress_room s_len Hb) as [Hr8 _]. pose proof Hb as Hb'. unfold block_size in Hb'.
  set (s := take (Z.to_nat s_len) vs). assert (Es : slice 0 s_len vs = s) by (unfold slice; by rewrite drop_0).
  assert (Hlen : zlen s = s_len) by (unfold s; rewrite length_take, <- (holds_length _ _ _ Hh), length_locs by done; lia).
  unfold zio_compress_data. rewrite (zeroed_abd m src s_len vs) by (done || lia). cbn [mbind res_bind]. rewrite Es.
  destruct (all_zero s) eqn:Ez; cbn [Z.eqb].
  { exists 0, src, m. split_and!; [done..|lia|lia|by rewrite <- all_zero_spec|lia]. }
  assert (Hnz : ~ Forall (eq 0) s) by (intros H%all_zero_spec; by rewrite Ez in H).
  destruct (decide (c = ZIO_COMPRESS_EMPTY)) as [->|_]; [injection Ec as <-; done|]. cbv zeta.
  destruct (with_borrowed m src s_len dst s_len vs ws) as (tmp & a1 & m1 & db & -> & Hdb & Hcall); [done|lia|lia|done..|]. cbn [mbind res_bind].
  rewrite Ec. cbn [deref mbind res_bind]. rewrite Ef. cbn [deref mbind res_bind].
  rewrite Es in Hcall. destruct (codec_ok (addr tmp) s db s_len) as (c_len & db' & Ecc & Ell & Hpos & Hres); [by apply Forall_take|done|lia|done|].
  destruct (Hcall _ _ _ _ _ Ecc Ell) as (m2 & a3 & m3 & -> & E3 & El3 & Hh3 & Hd3). cbn [mbind res_bind]. rewrite E3. cbn [mbind res_bind].
  eexists _, _, _. split; [done|]. split; [done|]. split; [done|]. destruct (Z.ltb_spec (s_len - Z.shiftr s_len 3) c_len).
  { split; [lia|]. split; [|lia]. split; [lia|done]. }
  split; [lia|]. split; [split; [lia|done]|]. intros Hc. split; [rewrite Z.shiftr_div_pow2 in * by lia; done|].
  eexists. split; [apply (holds_prefix _ _ s_len); [lia|exact Hd3]|]. intros mz z z_len out zs os Hwz Hzl Hhz Huz Etake Hos Hdz.
  destruct Hres as [_ Hres]; [lia|]. rewrite take_take_le in Etake by lia.
  pose proof (decompress_restores c ci g s db' c_len mz z z_len out zs os) as Hdec. rewrite Hlen in Hdec. by apply Hdec; try lia.
Qed.

End Roundtrip.

(** The algorithm chosen for a dataset is one the table can run: it is never
    the request to inherit or the request for the default, and it has no functions
    only when it is one that stores blocks as they are. *)
Theorem zio_compress_select_runs compress2 uncompress lz4_active child parent :
  child <> ZIO_COMPRESS_FUNCTIONS -> parent <> ZIO_COMPRESS_FUNCTIONS -> parent <> ZIO_COMPRESS_INHERIT ->
  let c := zio_compress_select lz4_active child parent in
  c <> ZIO_COMPRESS_INHERIT /\ c <> ZIO_COMPRESS_ON /\
  exists ci, zio_compress_table compress2 uncompress c = Some ci /\
    (ci_compress ci = None \/ ci_decompress ci = None -> c = ZIO_COMPRESS_OFF \/ c = ZIO_COMPRESS_EMPTY).
Proof.
  intros Hc Hp Hi c. assert (Hsel : c <> ZIO_COMPRESS_INHERIT /\ c <> ZIO_COMPRESS_ON /\ c <> ZIO_COMPRESS_FUNCTIONS).
  { unfold c, zio_compress_select. destruct child, parent, lz4_active; done. }
  clearbody c. destruct Hsel as (H1 & H2 & H3). split; [done|]. split; [done|]. destruct c; try done; eexists; (split; [done|]); intros [|]; auto; done.
Qed.

(** An algorithm without functions is refused, and nothing is written. *)
Theorem zio_decompress_unknown compress2 uncompress addr m c src dst s_len d_len :
  (forall ci, zio_compress_table compress2 uncompress c = Some ci -> ci_decompress ci = None) ->
  zio_decompress_data_buf compress2 uncompress addr m c src dst s_len d_len = Ok (EINVAL, m).
Proof. intros H. unfold zio_decompress_data_buf. destruct (zio_compress_table _ _ c) as [ci|]; [|done]. by rewrite (H ci eq_refl). Qed.

(** ** Examples *)

Module Example.

(** A library with the behaviour of zlib. *)
Definition compress2 (d : list Z) (d_len : Z) (s : list Z) (s_len level : Z) : res (Z * Z * list Z) :=
  '(c_len, d) ← lzjb_compress 0 s d s_len d_len 0; Ok (if c_len <? s_len then Z_OK else -5, c_len, d).
Definition uncompress (o : list Z) (o_len : Z) (z : list Z) (z_len : Z) : res (Z * Z * list Z) :=
  '(r, o) ← lzjb_decompress z o z_len o_len 0; Ok (r, o_len, o).

Lemma zlib : zlib_ok compress2 uncompress.
Proof.
  intros d d_len s s_len level _ Hu Hs Hd. destruct (lzjb_compress_restores 0 s d s_len d_len 0) as (c & d' & E & El & Hc); [done|lia|lia|].
  unfold compress2. rewrite E. cbn [mbind res_bind]. eexists _, _, _. split; [done|]. split; [done|]. destruct (Z.ltb_spec c s_len); [|done].
  intros _. destruct (Hc H) as [Hle Hr]. split; [done|]. intros z z_len o Hz Ez Hzl Ho. unfold uncompress. by rewrite Hr.
Qed.

(** Two pages of 64 bytes and a target. *)
Definition page : list Z := seqZ 1 32 ++ replicate 32 7.
Definition m0 : mem := {[ 1 := page; 2 := page; 3 := replicate 128 0 ]}.
Definition a0 : abd := Abd true false 128 0 (AbdScatter 0 2 [Sg (Ptr 1 0) 64; Sg (Ptr 2 0) 64]).

Lemma page_u8 : Forall is_u8 (page ++ page).
Proof. repeat (constructor; [split; vm_compute; done|]). constructor. Qed.

Lemma gz_wf : abd_wf a0.
Proof. constructor; vm_compute; try done. by repeat constructor. Qed.

Lemma gz_disjoint l : l ∈ locs a0 -> p_blk l <> 3.
Proof. intros Hl%list_elem_of_In. vm_compute in Hl. repeat destruct Hl as [<-|Hl]; done. Qed.

Lemma zio_compress_roundtrip_witness :
  exists r src' m', zio_compress_data compress2 uncompress Abd.Example.kmem p_off m0 ZIO_COMPRESS_GZIP_6 a0 (Ptr 3 0) 128 = Ok (r, src', m') /\
    holds m' (locs a0) (page ++ page) /\ 0 < r <= 128.
Proof.
  destruct (zio_compress_roundtrip compress2 uncompress Abd.Example.kmem p_off zlib Abd.Example.kmem_fresh Abd.Example.kmem_size
    ZIO_COMPRESS_GZIP_6 (gzip_info compress2 uncompress "gzip-6" 6) (fun _ => gzip_compress compress2) m0 a0 (Ptr 3 0) 128 (page ++ page) (replicate 128 0))
    as (r & src' & m' & E & _ & Hh & Hr & H0 & _).
  - reflexivity.
  - reflexivity.
  - exact gz_wf.
  - split_and!; [by exists 16|by exists 0|]. repeat constructor; by exists 8.
  - by exists 16.
  - vm_compute. split; done.
  - vm_compute. done.
  - unfold holds. Abd.Example.decided.
  - exact page_u8.
  - unfold holds. Abd.Example.decided.
  - exact gz_disjoint.
  - exists r, src', m'. split; [exact E|]. split; [exact Hh|]. assert (r <> 0); [|lia]. intros Er. apply H0 in Er. vm_compute in Er. apply Forall_cons in Er as [Er _]. discriminate.
Defined.

Lemma zio_compress_select_runs_witness :
  zio_compress_select true ZIO_COMPRESS_INHERIT ZIO_COMPRESS_ON <> ZIO_COMPRESS_ON.
Proof. apply (zio_compress_select_runs compress2 uncompress true ZIO_COMPRESS_INHERIT ZIO_COMPRESS_ON); discriminate. Defined.

Lemma zio_decompress_unknown_witness :
  zio_decompress_data_buf compress2 uncompress p_off m0 ZIO_COMPRESS_OFF (Ptr 1 0) (Ptr 3 0) 64 64 = Ok (EINVAL, m0).
Proof. apply zio_decompress_unknown. intros ci [= <-]. reflexivity. Defined.

End Example.
