(* ===== verification/Avl.v ===== *)
(** * AVL trees: [module/avl/avl.c]

    A tree node keeps its balance, its two children and a parent pointer.  A
    node's parent chain is represented by a zipper: a [path] lists, from the
    parent upwards, the ancestor frames, each with the child index under which
    the chain continues, the ancestor's balance, its data and its other child.
    An [avl_index_t] (a parent and a child index) is the path that starts with
    that parent's frame; the null index is the empty path.  A data pointer is
    the element itself: the elements of a tree are distinct, and [locate] is
    the map from a data pointer to the place of its node. *)

From S2P Require Import Prelude.

(** A child index of [avl_child\[2\]]. *)
Inductive dir : Type := DLeft | DRight.

#[export] Instance dir_eq_dec : EqDecision dir.
Proof. solve_decision. Defined.

Definition opp (d : dir) : dir := match d with DLeft => DRight | DRight => DLeft end.

(** [AVL_BEFORE] and [AVL_AFTER] are the child indices 0 and 1. *)
Abbreviation AVL_BEFORE := DLeft.
Abbreviation AVL_AFTER := DRight.

(** The comparison function of a tree, [tree->avl_compar]. *)
Class AvlCompar (A : Type) := avl_compar : A -> A -> Z.

Definition avl_child2balance (d : dir) : Z := match d with DLeft => -1 | DRight => 1 end.

(** [avl_balance2child\[\]], indexed by a balance (or difference) plus one. *)
Definition avl_balance2child (i : Z) : dir := if i =? 2 then DRight else DLeft.

Inductive tree (A : Type) : Type :=
| Leaf
| Node (bal : Z) (l : tree A) (x : A) (r : tree A).
Arguments Leaf {A}.
Arguments Node {A} _ _ _ _.

Record avl_tree (A : Type) : Type := AvlTree {
  avl_root : tree A;
  avl_numnodes : Z
}.
Arguments AvlTree {A} _ _.
Arguments avl_root {A} _.
Arguments avl_numnodes {A} _.

Record frame (A : Type) : Type := Frame {
  f_dir : dir;       (* the child index under which the chain continues *)
  f_bal : Z;         (* the ancestor's balance *)
  f_data : A;        (* the ancestor's data *)
  f_sib : tree A     (* the ancestor's other child *)
}.
Arguments Frame {A} _ _ _ _.
Arguments f_dir {A} _.
Arguments f_bal {A} _.
Arguments f_data {A} _.
Arguments f_sib {A} _.

Abbreviation path A := (list (frame A)).

(** What [avl_find] returns: the data found, or the insertion point. *)
Inductive find_result (A : Type) : Type :=
| Found (x : A)
| NotFound (where_ : path A).
Arguments Found {A} _.
Arguments NotFound {A} _.

(** The cookie of [avl_destroy_nodes]: [NULL], [CHILDBIT], or a parent with
    the child index last visited. *)
Inductive cookie (A : Type) : Type :=
| CookieNull
| CookieDone
| CookieAt (p : path A).
Arguments CookieNull {A}.
Arguments CookieDone {A}.
Arguments CookieAt {A} _.

Section Operations.
Context {A : Type} `{!EqDecision A}.
Implicit Types (t : tree A) (p : path A).

(** [node->avl_child\[d\]] *)
Definition child (d : dir) t : tree A :=
  match t with
  | Leaf => Leaf
  | Node _ l _ r => match d with DLeft => l | DRight => r end
  end.

(** The node with child [t] at index [d] and child [s] at the other index. *)
Definition join (d : dir) (b : Z) t (x : A) (s : tree A) : tree A :=
  match d with DLeft => Node b t x s | DRight => Node b s x t end.

Fixpoint zip p t : tree A :=
  match p with
  | [] => t
  | f :: p' => zip p' (join (f_dir f) (f_bal f) t (f_data f) (f_sib f))
  end.

(** The node of a data pointer: its ancestors and the subtree below it. *)
Fixpoint locate (x : A) t p : option (path A * tree A) :=
  match t with
  | Leaf => None
  | Node b l y r =>
      if decide (y = x) then Some (p, t)
      else match locate x l (Frame DLeft b y r :: p) with
           | Some q => Some q
           | None => locate x r (Frame DRight b y l :: p)
           end
  end.

(** The loop that follows [avl_child\[d\]] to the last node, keeping [prev]. *)
Fixpoint avl_end (d : dir) t (prev : option A) : option A :=
  match t with
  | Leaf => prev
  | Node _ l x r => avl_end d (match d with DLeft => l | DRight => r end) (Some x)
  end.

(** The same loop, keeping the place of the last node. *)
Fixpoint descend_last (d : dir) t p : option (path A * tree A) :=
  match t with
  | Leaf => None
  | Node b l x r =>
      match d with
      | DLeft =>
          match l with
          | Leaf => Some (p, t)
          | _ => descend_last d l (Frame DLeft b x r :: p)
          end
      | DRight =>
          match r with
          | Leaf => Some (p, t)
          | _ => descend_last d r (Frame DRight b x l :: p)
          end
      end
  end.

(** The loop that returns through parents until it comes from child [right]. *)
Fixpoint walk_up (right : dir) p : option A :=
  match p with
  | [] => None
  | f :: p' => if decide (f_dir f = right) then Some (f_data f) else walk_up right p'
  end.

Definition avl_walk (tr : avl_tree A) (oldnode : A) (left : dir) : option A :=
  match locate oldnode (avl_root tr) [] with
  | None => None
  | Some (p, node) =>
      let right := opp left in
      match child left node with
      | Leaf => walk_up right p
      | c => avl_end right c None
      end
  end.

Definition avl_first (tr : avl_tree A) : option A := avl_end DLeft (avl_root tr) None.

Definition avl_last (tr : avl_tree A) : option A := avl_end DRight (avl_root tr) None.

Definition avl_nearest (tr : avl_tree A) (where_ : path A) (direction : dir) : option A :=
  match where_ with
  | [] => None
  | f :: _ =>
      if decide (f_dir f = direction) then avl_walk tr (f_data f) direction
      else Some (f_data f)
  end.

(** The rotation at [node] for the new balance [balance] (-2 or +2): the new
    subtree and whether it is shorter.  A null child that the code would
    dereference is a [Panic]. *)
Definition avl_rotation (node : tree A) (balance : Z) : res (tree A * bool) :=
  let left := if balance <? 0 then DLeft else DRight in
  let right := opp left in
  let left_heavy := Z.shiftr balance 1 in
  let right_heavy := - left_heavy in
  match node with
  | Leaf => Panic
  | Node _ _ nx _ =>
      match child left node with
      | Leaf => Panic
      | Node cb _ cx _ =>
          let chld := child left node in
          if negb (cb =? right_heavy) then
            let child_bal := cb + right_heavy in
            let cright := child right chld in
            let node' := join left (- child_bal) cright nx (child right node) in
            Ok (join right child_bal node' cx (child left chld), child_bal =? 0)
          else
            match child right chld with
            | Leaf => Panic
            | Node gb _ gx _ =>
                let gchild := child right chld in
                let gleft := child left gchild in
                let gright := child right gchild in
                let child' := join right (if gb =? right_heavy then left_heavy else 0)
                                gleft cx (child left chld) in
                let node' := join left (if gb =? left_heavy then right_heavy else 0)
                               gright nx (child right node) in
                Ok (join left 0 child' gx node', true)
            end
      end
  end.

(** The loop of [avl_insert] that backs up the tree from the grown child [t]. *)
Fixpoint insert_fixup t p : res (tree A) :=
  match p with
  | [] => Ok t
  | f :: p' =>
      let old_balance := f_bal f in
      let new_balance := old_balance + avl_child2balance (f_dir f) in
      if new_balance =? 0 then
        Ok (zip p' (join (f_dir f) 0 t (f_data f) (f_sib f)))
      else if negb (old_balance =? 0) then
        '(t', _) ← avl_rotation (join (f_dir f) old_balance t (f_data f) (f_sib f)) new_balance;
        Ok (zip p' t')
      else insert_fixup (join (f_dir f) new_balance t (f_data f) (f_sib f)) p'
  end.

Definition avl_insert (tr : avl_tree A) (new_data : A) (where_ : path A) : res (avl_tree A) :=
  root ← insert_fixup (Node 0 Leaf new_data Leaf) where_;
  Ok (AvlTree root (wrap64 (avl_numnodes tr + 1))).

(** The walk of [avl_insert_here] to the empty child where the node goes. *)
Fixpoint descend_empty (d : dir) t p : path A :=
  match t with
  | Leaf => p
  | Node b l x r =>
      match d with
      | DLeft => descend_empty d l (Frame DLeft b x r :: p)
      | DRight => descend_empty d r (Frame DRight b x l :: p)
      end
  end.

Definition avl_insert_here (tr : avl_tree A) (new_data here : A) (direction : dir)
    : res (avl_tree A) :=
  match locate here (avl_root tr) [] with
  | Some (p, Node b l x r) =>
      let node := Node b l x r in
      let idx := Frame direction b x (child (opp direction) node) :: p in
      match child direction node with
      | Leaf => avl_insert tr new_data idx
      | c => avl_insert tr new_data (descend_empty (opp direction) c idx)
      end
  | _ => Panic
  end.

(** The loop of [avl_remove] that backs up the tree from the shrunk child [t]. *)
Fixpoint remove_fixup t p : res (tree A) :=
  match p with
  | [] => Ok t
  | f :: p' =>
      let old_balance := f_bal f in
      let new_balance := old_balance - avl_child2balance (f_dir f) in
      if old_balance =? 0 then
        Ok (zip p' (join (f_dir f) new_balance t (f_data f) (f_sib f)))
      else if new_balance =? 0 then
        remove_fixup (join (f_dir f) new_balance t (f_data f) (f_sib f)) p'
      else
        '(t', shorter) ← avl_rotation (join (f_dir f) old_balance t (f_data f) (f_sib f)) new_balance;
        if shorter : bool then remove_fixup t' p' else Ok (zip p' t')
  end.

(** The place from which a node with at most one child is unlinked: the node's
    own place or, when it has two children, the place of the neighbour whose
    data takes the node's place. *)
Definition remove_place (b : Z) (l : tree A) (x : A) (r : tree A) p : option (path A * tree A) :=
  match l, r with
  | Node _ _ _ _, Node _ _ _ _ =>
      let left := avl_balance2child (b + 1) in
      let right := opp left in
      let del := Node b l x r in
      match avl_end right (child left del) None with
      | Some nx => descend_last right (child left del) (Frame left b nx (child right del) :: p)
      | None => None
      end
  | _, _ => Some (p, Node b l x r)
  end.

Definition avl_remove (tr : avl_tree A) (data : A) : res (avl_tree A) :=
  match locate data (avl_root tr) [] with
  | Some (p, Node b l x r) =>
      match remove_place b l x r p with
      | Some (q, del) =>
          let node := match child DLeft del with Leaf => child DRight del | c => c end in
          root ← remove_fixup node q;
          Ok (AvlTree root (wrap64 (avl_numnodes tr - 1)))
      | None => Panic
      end
  | _ => Panic
  end.

Definition avl_swap (tree1 tree2 : avl_tree A) : avl_tree A * avl_tree A :=
  (AvlTree (avl_root tree2) (avl_numnodes tree2),
   AvlTree (avl_root tree1) (avl_numnodes tree1)).

Definition avl_create : avl_tree A := AvlTree Leaf 0.

Definition avl_is_empty (tr : avl_tree A) : bool := avl_numnodes tr =? 0.

(** The tail of [avl_destroy_nodes] from [check_right_side] on. *)
Definition destroy_check_right p (node : tree A) : path A * tree A :=
  match node with
  | Node b l x (Node _ _ _ _ as r) => (Frame DRight b x l :: p, r)
  | _ => (p, node)
  end.

Definition destroy_done (tr : avl_tree A) (pn : path A * tree A)
    : option A * avl_tree A * cookie A :=
  let '(p, node) := pn in
  match node with
  | Leaf => (None, tr, CookieDone)
  | Node _ _ x _ => (Some x, tr, match p with [] => CookieDone | _ => CookieAt p end)
  end.

Definition avl_destroy_nodes (tr : avl_tree A) (ck : cookie A)
    : option A * avl_tree A * cookie A :=
  match ck with
  | CookieNull =>
      match descend_last DLeft (avl_root tr) [] with
      | None => (None, tr, CookieDone)
      | Some (p, node) => destroy_done tr (destroy_check_right p node)
      end
  | CookieDone | CookieAt [] =>
      match avl_root tr with
      | Leaf => (None, tr, CookieDone)
      | _ => (None, AvlTree Leaf 0, CookieDone)
      end
  | CookieAt (f :: p) =>
      let parent := join (f_dir f) (f_bal f) Leaf (f_data f) (f_sib f) in
      let tr' := AvlTree (zip p parent) (wrap64 (avl_numnodes tr - 1)) in
      match f_dir f, child DRight parent with
      | DLeft, (Node _ _ _ _ as c) =>
          match descend_last DLeft c (Frame DRight (f_bal f) (f_data f) Leaf :: p) with
          | None => (None, tr', CookieDone)
          | Some (q, node) => destroy_done tr' (destroy_check_right q node)
          end
      | _, _ => destroy_done tr' (p, parent)
      end
  end.

(** [while ((node = avl_destroy_nodes(tree, &cookie)) != NULL) ...]: the nodes
    visited, in order, and the tree that is left. *)
Fixpoint avl_destroy_loop (fuel : nat) (tr : avl_tree A) (ck : cookie A)
    : option (list A * avl_tree A) :=
  match fuel with
  | O => None
  | S fuel' =>
      match avl_destroy_nodes tr ck with
      | (None, tr', _) => Some ([], tr')
      | (Some x, tr', ck') =>
          match avl_destroy_loop fuel' tr' ck' with
          | Some (xs, tr'') => Some (x :: xs, tr'')
          | None => None
          end
      end
  end.

(** A write through a data pointer: the node's data changes in place. *)
Definition avl_write (tr : avl_tree A) (old new : A) : res (avl_tree A) :=
  match locate old (avl_root tr) [] with
  | Some (p, Node b l _ r) => Ok (AvlTree (zip p (Node b l new r)) (avl_numnodes tr))
  | _ => Panic
  end.

End Operations.

Section Compared.
Context {A : Type} `{!EqDecision A} `{!AvlCompar A}.

Fixpoint avl_find_loop (value : A) (t : tree A) (p : path A) : find_result A :=
  match t with
  | Leaf => NotFound p
  | Node b l x r =>
      let diff := avl_compar value x in
      if diff =? 0 then Found x
      else match avl_balance2child (1 + diff) with
           | DLeft => avl_find_loop value l (Frame DLeft b x r :: p)
           | DRight => avl_find_loop value r (Frame DRight b x l :: p)
           end
  end.

Definition avl_find (tr : avl_tree A) (value : A) : find_result A :=
  avl_find_loop value (avl_root tr) [].

(** When an element compares equal to the new one, [avl_find] leaves the null
    index and the [ASSERT(0)] of user space does nothing in a production build:
    the insertion goes on with the null index. *)
Definition avl_add (tr : avl_tree A) (new_node : A) : res (avl_tree A) :=
  match avl_find tr new_node with
  | Found _ => avl_insert tr new_node []
  | NotFound w => avl_insert tr new_node w
  end.

Definition AVL_REINSERT (tr : avl_tree A) (obj : A) : res (avl_tree A) :=
  tr' ← avl_remove tr obj; avl_add tr' obj.

Definition avl_update_lt (tr : avl_tree A) (obj : A) : res (avl_tree A * bool) :=
  match avl_walk tr obj DLeft with
  | Some neighbor =>
      if avl_compar obj neighbor <? 0
      then tr' ← AVL_REINSERT tr obj; Ok (tr', true)
      else Ok (tr, false)
  | None => Ok (tr, false)
  end.

Definition avl_update_gt (tr : avl_tree A) (obj : A) : res (avl_tree A * bool) :=
  match avl_walk tr obj DRight with
  | Some neighbor =>
      if 0 <? avl_compar obj neighbor
      then tr' ← AVL_REINSERT tr obj; Ok (tr', true)
      else Ok (tr, false)
  | None => Ok (tr, false)
  end.

Definition avl_update (tr : avl_tree A) (obj : A) : res (avl_tree A * bool) :=
  '(tr', moved) ← avl_update_lt tr obj;
  if moved : bool then Ok (tr', true) else avl_update_gt tr obj.

End Compared.

(** ** Elements, heights and the balance invariant *)

Section Invariant.
Context {A : Type}.
Implicit Types (t : tree A) (p : path A).

Fixpoint elements t : list A :=
  match t with Leaf => [] | Node _ l x r => elements l ++ x :: elements r end.

Fixpoint height t : Z :=
  match t with Leaf => 0 | Node _ l _ r => 1 + Z.max (height l) (height r) end.

(** Every stored balance is the difference of the heights, within [-1, 1]. *)
Fixpoint balanced t : Prop :=
  match t with
  | Leaf => True
  | Node b l _ r => b = height r - height l /\ -1 <= b <= 1 /\ balanced l /\ balanced r
  end.

(** The elements before and after a place in the tree. *)
Fixpoint p_left p : list A :=
  match p with
  | [] => []
  | f :: p' =>
      match f_dir f with
      | DLeft => p_left p'
      | DRight => p_left p' ++ elements (f_sib f) ++ [f_data f]
      end
  end.

Fixpoint p_right p : list A :=
  match p with
  | [] => []
  | f :: p' =>
      match f_dir f with
      | DLeft => f_data f :: elements (f_sib f) ++ p_right p'
      | DRight => p_right p'
      end
  end.

(** The frames are balanced when the hole is filled at height [h]. *)
Fixpoint path_ok p (h : Z) : Prop :=
  match p with
  | [] => True
  | f :: p' =>
      let hs := height (f_sib f) in
      f_bal f = (match f_dir f with DLeft => hs - h | DRight => h - hs end) /\
      -1 <= f_bal f <= 1 /\ balanced (f_sib f) /\ path_ok p' (1 + Z.max h hs)
  end.

(** [down pt qn]: the place [qn] is reached from [pt] by following children. *)
Inductive down : path A * tree A -> path A * tree A -> Prop :=
| down_refl pt : down pt pt
| down_step d b l x r p qn :
    down (Frame d b x (child (opp d) (Node b l x r)) :: p, child d (Node b l x r)) qn ->
    down (p, Node b l x r) qn.

(** The invariant of a tree: balanced, and the node count is kept. *)
Definition avl_wf (tr : avl_tree A) : Prop :=
  balanced (avl_root tr) /\
  avl_numnodes tr = wrap64 (Z.of_nat (length (elements (avl_root tr)))).

Definition avl_elements (tr : avl_tree A) : list A := elements (avl_root tr).

End Invariant.

(** ** Lemmas on places *)

Section Places.
Context {A : Type} `{!EqDecision A}.
Implicit Types (t : tree A) (p : path A).

Lemma height_nonneg t : 0 <= height t.
Proof. induction t; simpl; lia. Qed.

Lemma elements_join d b t x (s : tree A) :
  elements (join d b t x s) =
  match d with DLeft => elements t ++ x :: elements s | DRight => elements s ++ x :: elements t end.
Proof. by destruct d. Qed.

Lemma height_join d b t x (s : tree A) :
  height (join d b t x s) = 1 + Z.max (height t) (height s).
Proof. destruct d; simpl; lia. Qed.

Lemma elements_zip p t : elements (zip p t) = p_left p ++ elements t ++ p_right p.
Proof.
  revert t; induction p as [|[d b x s] p IH]; intros t; simpl.
  - by rewrite app_nil_r.
  - rewrite IH. destruct d; simpl; by rewrite <- ?app_assoc.
Qed.

Lemma zip_balanced p t : path_ok p (height t) -> balanced t -> balanced (zip p t).
Proof.
  revert t; induction p as [|[d b x s] p IH]; intros t; simpl; [done|].
  intros (Hb & Hr & Hs & Hp) Ht. apply IH.
  - by rewrite height_join.
  - destruct d; simpl in *; split_and!; auto; lia.
Qed.

Lemma down_zip (pt qn : path A * tree A) : down pt qn -> zip qn.1 qn.2 = zip pt.1 pt.2.
Proof.
  induction 1 as [|d b l x r p qn _ IH]; [done|].
  rewrite IH. by destruct d.
Qed.

Lemma down_balanced (pt qn : path A * tree A) :
  down pt qn -> path_ok pt.1 (height pt.2) -> balanced pt.2 ->
  path_ok qn.1 (height qn.2) /\ balanced qn.2.
Proof.
  induction 1 as [|d b l x r p qn _ IH]; [done|]; simpl in *.
  intros Hp (Hb & Hr & Hl & Hrr). apply IH; [|by destruct d].
  destruct d; simpl; split_and!; auto; try lia.
  by rewrite Z.max_comm.
Qed.

Lemma locate_down x t p q n :
  locate x t p = Some (q, n) ->
  down (p, t) (q, n) /\ exists b l r, n = Node b l x r.
Proof.
  revert p; induction t as [|b l IHl y r IHr]; intros p; simpl; [done|].
  case_decide; subst.
  - intros [= <- <-]. split; [constructor|eauto].
  - destruct (locate x l _) as [[q' n']|] eqn:E.
    + intros [= <- <-]. destruct (IHl _ E) as [? ?]. split; [|done].
      by apply (down_step DLeft).
    + intros E'. destruct (IHr _ E') as [? ?]. split; [|done].
      by apply (down_step DRight).
Qed.

Lemma locate_in x t p : x ∈ elements t -> is_Some (locate x t p).
Proof.
  revert p; induction t as [|b l IHl y r IHr]; intros p; simpl; [set_solver|].
  rewrite elem_of_app, elem_of_cons. intros Hx.
  case_decide; [eauto|].
  destruct (locate x l _) eqn:E; [eauto|].
  destruct Hx as [Hx|[->|Hx]]; [|done|eauto].
  destruct (IHl (Frame DLeft b y r :: p) Hx) as [? E']. congruence.
Qed.

(** In a list without duplicates an element splits it in one way. *)
Lemma NoDup_split_eq (x : A) l1 l2 k1 k2 :
  NoDup (l1 ++ x :: l2) -> l1 ++ x :: l2 = k1 ++ x :: k2 -> l1 = k1 /\ l2 = k2.
Proof.
  revert k1; induction l1 as [|y l1 IH]; intros [|z k1] Hnd E; simplify_eq/=.
  - done.
  - apply NoDup_cons in Hnd as [Hn _]. set_solver.
  - apply NoDup_cons in Hnd as [Hn _]. set_solver.
  - apply NoDup_cons in Hnd as [_ Hnd]. by destruct (IH k1 Hnd) as [-> ->].
Qed.

Lemma avl_end_spec d t prev :
  avl_end d t prev =
  match d with
  | DLeft => match head (elements t) with Some x => Some x | None => prev end
  | DRight => match last (elements t) with Some x => Some x | None => prev end
  end.
Proof.
  revert prev; induction t as [|b l IHl x r IHr]; intros prev; simpl; [by destruct d|].
  destruct d; rewrite ?IHl, ?IHr.
  - by destruct (elements l).
  - rewrite last_app. simpl. destruct (elements r) eqn:E; simpl; [done|].
    by rewrite <- E; destruct (last (elements r)) eqn:E2; [|rewrite E in E2; apply last_None in E2].
Qed.

End Places.

(** ** Rotation, insertion and removal *)

Section Rebalance.
Context {A : Type} `{!EqDecision A}.
Implicit Types (t : tree A) (p : path A).

Definition root_bal t : Z := match t with Leaf => 0 | Node b _ _ _ => b end.

Ltac heights :=
  repeat match goal with
  | t : tree A |- _ =>
      lazymatch goal with
      | _ : 0 <= height t |- _ => fail
      | _ => pose proof (height_nonneg t)
      end
  end.

#[local] Arguments avl_rotation {A} _ _ : simpl never.

Ltac dlia := match goal with d : dir |- _ => destruct d; simpl in *; lia end.

Ltac rot_done :=
  split; [reflexivity|]; simpl; heights;
  repeat match goal with H : _ /\ _ |- _ => destruct H end;
  split_and?; zcase; repeat (rewrite <- app_assoc; simpl); auto; try lia.

(** A rotation at a node whose child [t] is two levels higher than its other
    child keeps the elements and restores the balance; its result says whether
    the subtree became shorter. *)
Lemma avl_rotation_spec d b0 t x (s : tree A) :
  height t = height s + 2 -> balanced t -> balanced s ->
  exists t' sh, avl_rotation (join d b0 t x s) (2 * avl_child2balance d) = Ok (t', sh) /\
    balanced t' /\ elements t' = elements (join d b0 t x s) /\
    height t' = 1 + height t - (if sh : bool then 1 else 0) /\
    sh = negb (root_bal t =? 0).
Proof.
  intros Hbal Ht Hs.
  destruct t as [|cb cl cx cr]; simpl in *; [pose proof (height_nonneg s); lia|].
  destruct d; unfold avl_rotation; simpl.
  - change (Z.shiftr (2 * -1) 1) with (-1). change (- (-1)) with 1.
    destruct (Z.eqb_spec cb 1); simpl; [|by eexists _, _; rot_done].
    destruct cr as [|gb gl gx gr]; simpl in *; heights; [lia|].
    by eexists _, true; rot_done.
  - change (Z.shiftr (2 * 1) 1) with 1. change (- (1)) with (-1).
    destruct (Z.eqb_spec cb (-1)); simpl; [|by eexists _, _; rot_done].
    destruct cl as [|gb gl gx gr]; simpl in *; heights; [lia|].
    by eexists _, true; rot_done.
Qed.

Lemma join_balanced d b t x (s : tree A) :
  b = avl_child2balance d * (height t - height s) -> -1 <= b <= 1 ->
  balanced t -> balanced s -> balanced (join d b t x s).
Proof. destruct d; simpl; intros; split_and!; auto; lia. Qed.

Lemma path_ok_cons d b x (s : tree A) p h :
  path_ok (Frame d b x s :: p) h ->
  b = avl_child2balance d * (h - height s) /\ -1 <= b <= 1 /\ balanced s /\
  path_ok p (1 + Z.max h (height s)).
Proof. destruct d; simpl; intros (? & ? & ? & ?); split_and!; auto; lia. Qed.

Lemma places_join d b b' x (s : tree A) p t :
  p_left p ++ elements (join d b' t x s) ++ p_right p =
  p_left (Frame d b x s :: p) ++ elements t ++ p_right (Frame d b x s :: p).
Proof. destruct d; simpl; repeat (rewrite <- app_assoc; simpl); done. Qed.

(** Closing a place: a balanced subtree of the height the path expects. *)
Lemma zip_ok p t h :
  path_ok p h -> balanced t -> height t = h ->
  exists t', Ok (zip p t) = Ok t' /\ balanced t' /\ elements t' = p_left p ++ elements t ++ p_right p.
Proof.
  intros Hp Ht <-. exists (zip p t). split_and!; auto using zip_balanced. apply elements_zip.
Qed.

Lemma insert_fixup_spec p t h :
  balanced t -> height t = h + 1 -> (root_bal t <> 0 \/ h = 0) -> path_ok p h ->
  exists t', insert_fixup t p = Ok t' /\ balanced t' /\
    elements t' = p_left p ++ elements t ++ p_right p.
Proof.
  revert t h; induction p as [|[d b x s] p IH]; intros t h Ht Hh Hg Hp; cbn [insert_fixup].
  { exists t. simpl. by rewrite app_nil_r. }
  cbn [f_dir f_bal f_data f_sib]. rewrite <- (places_join d b 0).
  apply path_ok_cons in Hp as (Hb & Hrng & Hs & Hp). pose proof (height_nonneg s).
  assert (Hpos : 0 <= h) by (destruct t; simpl in *; heights; lia).
  assert (Hd : avl_child2balance d = 1 \/ avl_child2balance d = -1) by (destruct d; simpl; lia).
  destruct (Z.eqb_spec (b + avl_child2balance d) 0) as [E|E].
  - eapply zip_ok; [done|apply join_balanced; auto; nia|rewrite height_join; dlia].
  - destruct (Z.eqb_spec b 0) as [E0|E0]; simpl.
    + rewrite (elements_join d 0), <- (elements_join d (b + avl_child2balance d)).
      apply (IH _ (1 + Z.max h (height s)));
        [apply join_balanced; auto; nia|rewrite height_join; dlia| |done].
      left. dlia.
    + replace (b + avl_child2balance d) with (2 * avl_child2balance d) by nia.
      destruct (avl_rotation_spec d b t x s) as (t' & sh & -> & Hbt & He & Hh' & Hsh);
        auto; [nia|]. simpl.
      rewrite (proj2 (Z.eqb_neq (root_bal t) 0)) in Hsh by nia. subst sh.
      rewrite (elements_join d 0), <- (elements_join d b), <- He. eapply zip_ok; [done..|dlia].
Qed.

Lemma remove_fixup_spec p t h :
  balanced t -> height t = h - 1 -> path_ok p h ->
  exists t', remove_fixup t p = Ok t' /\ balanced t' /\
    elements t' = p_left p ++ elements t ++ p_right p.
Proof.
  revert t h; induction p as [|[d b x s] p IH]; intros t h Ht Hh Hp; cbn [remove_fixup].
  { exists t. simpl. by rewrite app_nil_r. }
  cbn [f_dir f_bal f_data f_sib]. rewrite <- (places_join d b 0).
  apply path_ok_cons in Hp as (Hb & Hrng & Hs & Hp). pose proof (height_nonneg s).
  assert (Hd : avl_child2balance d = 1 \/ avl_child2balance d = -1) by (destruct d; simpl; lia).
  destruct (Z.eqb_spec b 0) as [E|E].
  - rewrite (elements_join d 0), <- (elements_join d (b - avl_child2balance d)).
    eapply zip_ok; [done|apply join_balanced; auto; nia|rewrite height_join; dlia].
  - destruct (Z.eqb_spec (b - avl_child2balance d) 0) as [E0|E0]; simpl.
    + rewrite (elements_join d 0), <- (elements_join d (b - avl_child2balance d)).
      apply (IH _ (1 + Z.max h (height s)));
        [apply join_balanced; auto; nia|rewrite height_join; dlia|done].
    + replace (b - avl_child2balance d) with (2 * avl_child2balance (opp d)) by (destruct d; simpl in *; nia).
      replace (join d b t x s) with (join (opp d) b s x t) by (by destruct d).
      destruct (avl_rotation_spec (opp d) b s x t) as (t' & sh & -> & Hbt & He & Hh' & Hsh);
        auto; [nia|]. simpl.
      replace (elements (join d 0 t x s)) with (elements t') by (rewrite He; by destruct d).
      destruct sh; [apply (IH _ (1 + Z.max h (height s)))|eapply zip_ok]; eauto; dlia.
Qed.

End Rebalance.

(** ** The operations on the element list

    A tree stands for the list of its elements from left to right.  These
    lemmas say what each operation does to that list; the components that keep
    their data in AVL trees use them. *)

Section Interface.
Context {A : Type} `{!EqDecision A}.
Implicit Types (t : tree A) (p w : path A) (tr : avl_tree A).

#[export] Instance leaf_dec t : Decision (t = Leaf).
Proof. destruct t; [left|right]; done. Defined.

(** [w] is an insertion point of [tr]: an empty child of one of its nodes. *)
Definition is_place tr w : Prop := down ([], avl_root tr) (w, Leaf).

Lemma is_place_elements tr w : is_place tr w -> avl_elements tr = p_left w ++ p_right w.
Proof.
  intros H%down_zip. simpl in H. unfold avl_elements. by rewrite <- H, elements_zip.
Qed.

Lemma avl_insert_place tr w x :
  avl_wf tr -> is_place tr w ->
  exists tr', avl_insert tr x w = Ok tr' /\ avl_wf tr' /\
    avl_elements tr' = p_left w ++ x :: p_right w.
Proof.
  intros [Hb Hn] Hw. pose proof (is_place_elements _ _ Hw) as He.
  destruct (down_balanced _ _ Hw I Hb) as [Hp _].
  destruct (insert_fixup_spec w (Node 0 Leaf x Leaf) 0) as (t' & E & Hb' & He');
    simpl in *; auto; [split_and!; auto; lia|].
  unfold avl_insert. rewrite E. simpl. eexists. split; [done|]. split; [split|]; simpl.
  - done.
  - rewrite Hn, wrap64_add_l. f_equal. unfold avl_elements in He.
    rewrite He', He. rewrite !length_app. simpl. lia.
  - done.
Qed.

Lemma descend_last_spec d t p :
  t <> Leaf ->
  exists q b l x r, descend_last d t p = Some (q, Node b l x r) /\
    down (p, t) (q, Node b l x r) /\ child d (Node b l x r) = Leaf /\
    avl_end d t None = Some x /\
    (match d with DLeft => p_left q = p_left p | DRight => p_right q = p_right p end).
Proof.
  assert (Hprev : forall d t o, t <> Leaf -> avl_end d t o = avl_end d t None)
    by (intros ? [] ?; done).
  revert p; induction t as [|b l IHl x r IHr]; intros p Hne; [done|].
  destruct d.
  - destruct (decide (l = Leaf)) as [->|Hl].
    + exists p, b, Leaf, x, r. split_and!; auto using down_refl.
    + destruct (IHl (Frame DLeft b x r :: p) Hl) as (q & b' & l' & x' & r' & E & Hd & Hc & He & Hq).
      exists q, b', l', x', r'. split_and!; auto.
      * cbn [descend_last]. destruct l; done.
      * by apply (down_step DLeft).
      * simpl. by rewrite Hprev.
  - destruct (decide (r = Leaf)) as [->|Hr].
    + exists p, b, l, x, Leaf. split_and!; auto using down_refl.
    + destruct (IHr (Frame DRight b x l :: p) Hr) as (q & b' & l' & x' & r' & E & Hd & Hc & He & Hq).
      exists q, b', l', x', r'. split_and!; auto.
      * cbn [descend_last]. destruct r; done.
      * by apply (down_step DRight).
      * simpl. by rewrite Hprev.
Qed.

(** Unlinking a node with at most one child. *)
Lemma unlink_spec (q : path A) b l x r node :
  path_ok q (height (Node b l x r)) -> balanced (Node b l x r) ->
  (l = Leaf /\ node = r \/ r = Leaf /\ node = l) ->
  exists root, remove_fixup node q = Ok root /\ balanced root /\
    elements root = p_left q ++ (elements l ++ elements r) ++ p_right q.
Proof.
  intros Hp Hb Hn. simpl in Hb, Hp. destruct Hb as (? & ? & ? & ?).
  pose proof (height_nonneg l). pose proof (height_nonneg r).
  destruct (remove_fixup_spec q node (1 + Z.max (height l) (height r))) as (root & E & Hbr & He).
  - by destruct Hn as [[-> ->]|[-> ->]].
  - destruct Hn as [[-> ->]|[-> ->]]; simpl in *; lia.
  - done.
  - exists root. split_and!; auto. rewrite He.
    destruct Hn as [[-> ->]|[-> ->]]; simpl; by rewrite ?app_nil_r.
Qed.

(** The place chosen by [remove_place] holds a node with at most one child,
    and filling it with that child drops exactly the removed element. *)
Lemma remove_place_spec b l x r p :
  path_ok p (height (Node b l x r)) -> balanced (Node b l x r) ->
  exists q b' l' x' r', remove_place b l x r p = Some (q, Node b' l' x' r') /\
    (l' = Leaf \/ r' = Leaf) /\
    path_ok q (height (Node b' l' x' r')) /\ balanced (Node b' l' x' r') /\
    p_left q ++ (elements l' ++ elements r') ++ p_right q =
    p_left p ++ (elements l ++ elements r) ++ p_right p.
Proof.
  intros Hp Hb. destruct (decide (l = Leaf)) as [->|Hl].
  { exists p, b, Leaf, x, r. split_and!; auto. }
  destruct (decide (r = Leaf)) as [->|Hr].
  { exists p, b, l, x, Leaf. split_and!; auto. by destruct l. }
  simpl in Hb, Hp. destruct Hb as (Hbb & Hrng & Hbl & Hbr).
  assert (Hrp : remove_place b l x r p =
    let left := avl_balance2child (b + 1) in let right := opp left in
    match avl_end right (child left (Node b l x r)) None with
    | Some nx => descend_last right (child left (Node b l x r))
                   (Frame left b nx (child right (Node b l x r)) :: p)
    | None => None end) by (by destruct l, r).
  rewrite Hrp. clear Hrp. cbv zeta.
  destruct (avl_balance2child (b + 1)); cbn [opp child].
  - destruct (descend_last_spec DRight l [] Hl) as (_ & _ & _ & nx & _ & _ & _ & _ & En & _).
    rewrite En.
    destruct (descend_last_spec DRight l (Frame DLeft b nx r :: p) Hl)
      as (q & b' & l' & x' & r' & -> & Hd & Hc & En' & Hq).
    rewrite En in En'. injection En' as <-. simpl in Hc; subst r'.
    exists q, b', l', nx, Leaf. split; [done|]. split; [auto|].
    destruct (down_balanced _ _ Hd) as [Hp1 Hb1]; [simpl; split_and!; auto; lia|done|].
    split; [done|]. split; [done|].
    pose proof (f_equal elements (down_zip _ _ Hd)) as Hz.
    rewrite !elements_zip in Hz. simpl in Hz, Hq. rewrite Hq in Hz |- *.
    assert (E2 : (p_left q ++ elements l') ++ [nx] = p_left p ++ elements l)
      by (apply (app_inv_tail (nx :: elements r ++ p_right p)); app_norm; app_norm_in Hz; done).
    change (nx :: elements r ++ p_right p) with ([nx] ++ elements r ++ p_right p).
    apply (f_equal (.++ elements r ++ p_right p)) in E2. simpl. app_norm; app_norm_in E2. done.
  - destruct (descend_last_spec DLeft r [] Hr) as (_ & _ & _ & nx & _ & _ & _ & _ & En & _).
    rewrite En.
    destruct (descend_last_spec DLeft r (Frame DRight b nx l :: p) Hr)
      as (q & b' & l' & x' & r' & -> & Hd & Hc & En' & Hq).
    rewrite En in En'. injection En' as <-. simpl in Hc; subst l'.
    exists q, b', Leaf, nx, r'. split; [done|]. split; [auto|].
    destruct (down_balanced _ _ Hd) as [Hp1 Hb1];
      [simpl; split_and!; auto; try lia; by rewrite Z.max_comm|done|].
    split; [done|]. split; [done|].
    pose proof (f_equal elements (down_zip _ _ Hd)) as Hz.
    rewrite !elements_zip in Hz. simpl in Hz, Hq. rewrite Hq in Hz |- *.
    assert (E2 : [nx] ++ elements r' ++ p_right q = elements r ++ p_right p)
      by (apply (app_inv_head (p_left p ++ elements l ++ [nx])); app_norm; app_norm_in Hz; done).
    apply (f_equal ((p_left p ++ elements l) ++.)) in E2. simpl. app_norm; app_norm_in E2. done.
Qed.

(** An element that occurs once: its node, and the elements around it. *)
Lemma locate_split tr l1 x l2 :
  NoDup (avl_elements tr) -> avl_elements tr = l1 ++ x :: l2 ->
  exists p b l r, locate x (avl_root tr) [] = Some (p, Node b l x r) /\
    l1 = p_left p ++ elements l /\ l2 = elements r ++ p_right p /\
    down ([], avl_root tr) (p, Node b l x r) /\
    (balanced (avl_root tr) ->
     path_ok p (height (Node b l x r)) /\ balanced (Node b l x r)).
Proof.
  intros Hnd He. destruct (locate_in x (avl_root tr) []) as [[p n] E].
  { unfold avl_elements in He. rewrite He. set_solver. }
  destruct (locate_down _ _ _ _ _ E) as [Hd (b & l & r & ->)].
  assert (Hel : avl_elements tr = (p_left p ++ elements l) ++ x :: elements r ++ p_right p).
  { unfold avl_elements. pose proof (down_zip _ _ Hd) as Hz. simpl in Hz.
    rewrite <- Hz, elements_zip. simpl. by app_norm. }
  exists p, b, l, r. split; [done|]. rewrite He in Hnd, Hel.
  destruct (NoDup_split_eq x _ _ _ _ Hnd Hel) as [-> ->]. split_and!; auto.
  intros Hb. by apply (down_balanced _ _ Hd).
Qed.

Lemma avl_remove_split tr l1 x l2 :
  avl_wf tr -> NoDup (avl_elements tr) -> avl_elements tr = l1 ++ x :: l2 ->
  exists tr', avl_remove tr x = Ok tr' /\ avl_wf tr' /\ avl_elements tr' = l1 ++ l2.
Proof.
  intros [Hb Hn] Hnd He.
  destruct (locate_split tr l1 x l2 Hnd He) as (p & b & l & r & E & -> & -> & _ & Hbal).
  destruct (Hbal Hb) as [Hp Hbn]. unfold avl_remove. rewrite E.
  destruct (remove_place_spec b l x r p Hp Hbn)
    as (q & b' & l' & x' & r' & -> & Hc & Hp' & Hb' & Hel').
  destruct (unlink_spec q b' l' x' r'
    (match child DLeft (Node b' l' x' r') with
     | Leaf => child DRight (Node b' l' x' r') | c => c end) Hp' Hb')
    as (root & E' & Hbr & Her).
  { destruct Hc as [-> | ->]; [by left|destruct l'; simpl; auto]. }
  rewrite E'. simpl. eexists. split; [done|].
  assert (Hfin : elements root = (p_left p ++ elements l) ++ elements r ++ p_right p)
    by (rewrite Her, Hel'; by app_norm).
  split; [split|]; simpl; auto.
  rewrite Hn, wrap64_sub_l. f_equal. unfold avl_elements in He. rewrite Hfin, He.
  rewrite !length_app. cbn [length]. rewrite !length_app. lia.
Qed.

Lemma avl_write_split tr l1 x l2 y :
  avl_wf tr -> NoDup (avl_elements tr) -> avl_elements tr = l1 ++ x :: l2 ->
  exists tr', avl_write tr x y = Ok tr' /\ avl_wf tr' /\ avl_elements tr' = l1 ++ y :: l2.
Proof.
  intros [Hb Hn] Hnd He.
  destruct (locate_split tr l1 x l2 Hnd He) as (p & b & l & r & E & -> & -> & _ & Hbal).
  destruct (Hbal Hb) as [Hp Hbn]. unfold avl_write. rewrite E. eexists. split; [done|].
  assert (Hfin : elements (zip p (Node b l y r)) =
    (p_left p ++ elements l) ++ y :: elements r ++ p_right p)
    by (rewrite elements_zip; simpl; by app_norm).
  split; [split|]; simpl; auto.
  - apply zip_balanced; simpl in *; tauto.
  - rewrite Hn, Hfin. unfold avl_elements in He. rewrite He. by rewrite !length_app.
Qed.

Lemma avl_walk_split tr l1 x l2 d :
  NoDup (avl_elements tr) -> avl_elements tr = l1 ++ x :: l2 ->
  avl_walk tr x d = match d with DLeft => last l1 | DRight => head l2 end.
Proof.
  intros Hnd He.
  destruct (locate_split tr l1 x l2 Hnd He) as (p & b & l & r & E & -> & -> & _).
  unfold avl_walk. rewrite E.
  assert (Hup : forall d, walk_up d p = match d with DRight => last (p_left p) | DLeft => head (p_right p) end).
  { clear. intros d. induction p as [|[d' b x s] p IH]; simpl; [by destruct d|].
    case_decide as Ed; subst; destruct d; simpl; auto.
    - rewrite !last_app. done.
    - destruct d'; simpl; auto; congruence.
    - destruct d'; simpl; auto; congruence. }
  destruct d; cbn [opp child].
  - rewrite last_app. destruct l as [|bl ll xl rl]; [apply Hup|]. rewrite avl_end_spec.
    destruct (last (elements (Node bl ll xl rl))) eqn:El; [done|].
    apply last_None in El. simpl in El. by destruct (elements ll).
  - destruct r as [|bl ll xl rl]; [apply Hup|]. rewrite avl_end_spec.
    destruct (elements (Node bl ll xl rl)) eqn:El; [|done]. simpl in El. by destruct (elements ll).
Qed.

Lemma avl_first_head tr : avl_first tr = head (avl_elements tr).
Proof. unfold avl_first. rewrite avl_end_spec. by destruct (head _). Qed.

Lemma avl_last_last tr : avl_last tr = last (avl_elements tr).
Proof. unfold avl_last. rewrite avl_end_spec. by destruct (last _). Qed.

Lemma avl_nearest_place tr w d :
  NoDup (avl_elements tr) -> is_place tr w ->
  avl_nearest tr w d = match d with DLeft => last (p_left w) | DRight => head (p_right w) end.
Proof.
  intros Hnd Hw%is_place_elements. destruct w as [|[d' b x s] p]; [by destruct d|].
  cbn [avl_nearest f_dir f_data]. case_decide as Ed; [subst d'|].
  - destruct d; simpl in *.
    + by rewrite (avl_walk_split tr (p_left p) x (elements s ++ p_right p) DLeft).
    + app_norm_in Hw. rewrite (avl_walk_split tr (p_left p ++ elements s) x (p_right p) DRight); auto.
      by app_norm.
  - destruct d, d'; simpl; try done. by rewrite !last_app.
Qed.

Lemma descend_empty_spec d t p :
  down (p, t) (descend_empty d t p, Leaf) /\
  match d with
  | DLeft => p_left (descend_empty d t p) = p_left p /\
             p_right (descend_empty d t p) = elements t ++ p_right p
  | DRight => p_left (descend_empty d t p) = p_left p ++ elements t /\
              p_right (descend_empty d t p) = p_right p
  end.
Proof.
  revert p; induction t as [|b l IHl x r IHr]; intros p; simpl.
  { split; [constructor|]. destruct d; by app_norm. }
  destruct d.
  - destruct (IHl (Frame DLeft b x r :: p)) as (? & -> & ->).
    split; [by apply (down_step DLeft)|]. simpl. by app_norm.
  - destruct (IHr (Frame DRight b x l :: p)) as (? & -> & ->).
    split; [by apply (down_step DRight)|]. simpl. by app_norm.
Qed.

Lemma down_trans (a b c : path A * tree A) : down a b -> down b c -> down a c.
Proof. induction 1; eauto using down. Qed.

Lemma avl_insert_here_split tr l1 here l2 x d :
  avl_wf tr -> NoDup (avl_elements tr) -> avl_elements tr = l1 ++ here :: l2 ->
  exists tr', avl_insert_here tr x here d = Ok tr' /\ avl_wf tr' /\
    avl_elements tr' = match d with
                       | DLeft => l1 ++ x :: here :: l2
                       | DRight => l1 ++ here :: x :: l2
                       end.
Proof.
  intros Hwf Hnd He.
  destruct (locate_split tr l1 here l2 Hnd He) as (p & b & l & r & E & -> & -> & Hd & _).
  unfold avl_insert_here. rewrite E. cbv zeta.
  set (w := descend_empty (opp d) (child d (Node b l here r))
         (Frame d b here (child (opp d) (Node b l here r)) :: p)).
  assert (Hins : (match child d (Node b l here r) with
     | Leaf => avl_insert tr x (Frame d b here (child (opp d) (Node b l here r)) :: p)
     | c => avl_insert tr x (descend_empty (opp d) c
              (Frame d b here (child (opp d) (Node b l here r)) :: p)) end) = avl_insert tr x w)
    by (unfold w; by destruct (child d (Node b l here r))).
  rewrite Hins. clear Hins.
  destruct (descend_empty_spec (opp d) (child d (Node b l here r))
    (Frame d b here (child (opp d) (Node b l here r)) :: p)) as [Hd' Hlr]. fold w in Hd', Hlr.
  destruct (avl_insert_place tr w x Hwf) as (tr' & -> & Hwf' & He').
  { eapply down_trans; [done|]. by apply (down_step d). }
  exists tr'. split_and!; auto. rewrite He'.
  destruct d; simpl in Hlr; destruct Hlr as [-> ->]; by app_norm.
Qed.

End Interface.

(** ** Searching *)

Section Find.
Context {A : Type} `{!EqDecision A} `{!AvlCompar A}.
Implicit Types (t : tree A) (p w : path A) (tr : avl_tree A).

(** The comparisons of [v] with a list of elements are in range and do not
    increase from left to right: what a search for [v] needs of the order. *)
Definition search_ok (v : A) (l : list A) : Prop :=
  Forall (fun x => -1 <= avl_compar v x <= 1) l /\
  StronglySorted (fun x y => avl_compar v y <= avl_compar v x) l.

Definition find_spec tr (v : A) (res : find_result A) : Prop :=
  match res with
  | Found x => x ∈ avl_elements tr /\ avl_compar v x = 0
  | NotFound w => is_place tr w /\
      Forall (fun x => 0 < avl_compar v x) (p_left w) /\
      Forall (fun x => avl_compar v x < 0) (p_right w)
  end.

Lemma avl_find_loop_spec tr v t p :
  down ([], avl_root tr) (p, t) -> search_ok v (elements t) ->
  Forall (fun x => 0 < avl_compar v x) (p_left p) ->
  Forall (fun x => avl_compar v x < 0) (p_right p) ->
  find_spec tr v (avl_find_loop v t p).
Proof.
  revert p; induction t as [|b l IHl x r IHr]; intros p Hd [Hrng Hmono] Hlt Hgt; simpl in *.
  { done. }
  apply Forall_app in Hrng as [Hr1 Hr2]. apply Forall_cons in Hr2 as [Hr2 Hr3].
  apply StronglySorted_app_inv in Hmono as (Hm1 & Hm2 & Hm3).
  apply StronglySorted_inv in Hm2 as [Hm2 Hm4]. rewrite Forall_forall in Hm4.
  destruct (Z.eqb_spec (avl_compar v x) 0) as [E|E].
  - split; [|done]. apply down_zip in Hd. simpl in Hd.
    unfold avl_elements. rewrite <- Hd, elements_zip. simpl. set_solver.
  - unfold avl_balance2child. destruct (Z.eqb_spec (1 + avl_compar v x) 2) as [E2|E2].
    + apply IHr; [|done| |done].
      * eapply down_trans; [done|]. apply (down_step DRight). constructor.
      * simpl. rewrite !Forall_app, Forall_singleton. split_and!; [done| |lia].
        apply Forall_forall. intros y Hy.
        assert (avl_compar v x <= avl_compar v y) by (apply Hm3; set_solver). lia.
    + apply IHl; [|done|done|].
      * eapply down_trans; [done|]. apply (down_step DLeft). constructor.
      * simpl. rewrite Forall_cons, Forall_app. split_and!; [lia| |done].
        apply Forall_forall. intros y Hy. specialize (Hm4 y Hy). lia.
Qed.

Lemma avl_find_spec tr v :
  search_ok v (avl_elements tr) -> find_spec tr v (avl_find tr v).
Proof. intros H. apply avl_find_loop_spec; auto using down_refl. Qed.

(** A search misses exactly when no element compares equal. *)
Lemma find_spec_notfound tr v w :
  find_spec tr v (NotFound w) -> Forall (fun x => avl_compar v x <> 0) (avl_elements tr).
Proof.
  intros (Hw & Hl & Hr). rewrite (is_place_elements _ _ Hw), Forall_app.
  split; eapply Forall_impl; eauto; simpl; lia.
Qed.

(** The order of a tree whose comparison is a total preorder on its type. *)
Class AvlOrder : Prop := {
  avl_compar_range x y : -1 <= avl_compar x y <= 1;
  avl_compar_opp x y : avl_compar y x = - avl_compar x y;
  avl_compar_trans x y z : avl_compar x y <= 0 -> avl_compar y z <= 0 -> avl_compar x z <= 0
}.

Definition avl_sorted (l : list A) : Prop := StronglySorted (fun x y => avl_compar x y < 0) l.

Context `{!AvlOrder}.

Lemma avl_compar_lt_trans x y z :
  avl_compar x y < 0 -> avl_compar y z <= 0 -> avl_compar x z < 0.
Proof.
  intros H1 H2. pose proof (avl_compar_trans x y z). pose proof (avl_compar_trans y z x).
  rewrite (avl_compar_opp x z) in *. rewrite (avl_compar_opp x y) in *. lia.
Qed.

Lemma sorted_NoDup l : avl_sorted l -> NoDup l.
Proof.
  induction 1 as [|x l _ IH Hx]; constructor; auto.
  intros Hin. rewrite Forall_forall in Hx. specialize (Hx x Hin).
  pose proof (avl_compar_opp x x). lia.
Qed.

Lemma sorted_search_ok v l : avl_sorted l -> search_ok v l.
Proof.
  intros Hs. split; [apply Forall_forall; intros; apply avl_compar_range|].
  induction Hs as [|x l _ IH Hx]; constructor; auto.
  eapply Forall_impl; [apply Hx|]. intros y Hy. simpl in *.
  pose proof (avl_compar_range v x). pose proof (avl_compar_range v y).
  pose proof (avl_compar_trans v x y). pose proof (avl_compar_lt_trans x y v).
  rewrite (avl_compar_opp x v) in *. rewrite (avl_compar_opp y v) in *.
  rewrite (avl_compar_opp v x), (avl_compar_opp v y) in *. lia.
Qed.

Lemma sorted_insert v l1 l2 :
  avl_sorted (l1 ++ l2) ->
  Forall (fun x => 0 < avl_compar v x) l1 -> Forall (fun x => avl_compar v x < 0) l2 ->
  avl_sorted (l1 ++ v :: l2).
Proof.
  unfold avl_sorted. rewrite !StronglySorted_app_inv. intros (H1 & H2 & H3) Hl Hr.
  split_and!; auto; [by constructor|].
  intros x y Hx [->|Hy]%elem_of_cons; auto.
  rewrite Forall_forall in Hl. specialize (Hl x Hx).
  rewrite (avl_compar_opp v x). lia.
Qed.

Lemma sorted_remove (l1 l2 : list A) x : avl_sorted (l1 ++ x :: l2) -> avl_sorted (l1 ++ l2).
Proof.
  unfold avl_sorted. rewrite !StronglySorted_app_inv. intros (H1 & H2 & H3).
  apply StronglySorted_inv in H2 as [H2 _]. split_and!; auto. set_solver.
Qed.

Lemma avl_add_sorted tr x :
  avl_wf tr -> avl_sorted (avl_elements tr) ->
  Forall (fun y => avl_compar x y <> 0) (avl_elements tr) ->
  exists tr' l1 l2, avl_add tr x = Ok tr' /\ avl_wf tr' /\
    avl_elements tr = l1 ++ l2 /\ avl_elements tr' = l1 ++ x :: l2 /\
    avl_sorted (l1 ++ x :: l2).
Proof.
  intros Hwf Hs Hne. pose proof (avl_find_spec tr x (sorted_search_ok x _ Hs)) as Hf.
  unfold avl_add. destruct (avl_find tr x) as [y|w]; simpl in Hf.
  { destruct Hf as [Hy E]. rewrite Forall_forall in Hne. by destruct (Hne y). }
  destruct Hf as (Hw & Hl & Hr). pose proof (is_place_elements _ _ Hw) as He.
  destruct (avl_insert_place tr w x Hwf Hw) as (tr' & -> & Hwf' & He').
  exists tr', (p_left w), (p_right w). split_and!; auto.
  apply sorted_insert; auto. by rewrite <- He.
Qed.

(** Searching and adding in a tree that need not be in order. *)
Lemma avl_find_any tr v :
  match avl_find tr v with
  | Found x => x ∈ avl_elements tr /\ avl_compar v x = 0
  | NotFound w => is_place tr w
  end.
Proof.
  unfold avl_find. assert (Hd : down ([], avl_root tr) ([], avl_root tr)) by apply down_refl.
  revert Hd. generalize (avl_root tr) at 2 3. intros t. generalize (@nil (frame A)) at 2 3.
  induction t as [|b l IHl x r IHr]; intros p Hd; simpl; [done|].
  destruct (Z.eqb_spec (avl_compar v x) 0) as [E|E].
  - split; [|done]. apply down_zip in Hd. simpl in Hd.
    unfold avl_elements. rewrite <- Hd, elements_zip. simpl. set_solver.
  - destruct (avl_balance2child _).
    + apply IHl. eapply down_trans; [done|]. apply (down_step DLeft). constructor.
    + apply IHr. eapply down_trans; [done|]. apply (down_step DRight). constructor.
Qed.

Lemma avl_add_any tr x :
  avl_wf tr -> Forall (fun y => avl_compar x y <> 0) (avl_elements tr) ->
  exists tr', avl_add tr x = Ok tr' /\ avl_wf tr' /\ avl_elements tr' ≡ₚ x :: avl_elements tr /\
    (avl_sorted (avl_elements tr) -> avl_sorted (avl_elements tr')).
Proof.
  intros Hwf Hne. pose proof (avl_find_any tr x) as Hf. destruct (avl_find tr x) as [y|w] eqn:Ef.
  { destruct Hf as [Hy E]. rewrite Forall_forall in Hne. by destruct (Hne y). }
  destruct (avl_insert_place tr w x Hwf Hf) as (tr' & E & Hwf' & He').
  assert (Ea : avl_add tr x = Ok tr') by (unfold avl_add; by rewrite Ef).
  exists tr'. split; [done|]. split; [done|]. split.
  - rewrite He', (is_place_elements _ _ Hf). by rewrite Permutation_middle.
  - intros Hs. destruct (avl_add_sorted tr x Hwf Hs Hne) as (tr'' & l1 & l2 & E2 & _ & _ & He2 & Hs2).
    rewrite Ea in E2. injection E2 as <-. by rewrite He2.
Qed.

End Find.
Arguments AvlOrder A {_}.

(** ** Destroying a tree in post-order *)

Section Destroy.
Context {A : Type} `{!EqDecision A}.
Implicit Types (t : tree A) (p : path A) (tr : avl_tree A).

Fixpoint postorder t : list A :=
  match t with Leaf => [] | Node _ l x r => postorder l ++ postorder r ++ [x] end.

(** What is left to visit once the subtree at a place is done. *)
Fixpoint post_path p : list A :=
  match p with
  | [] => []
  | f :: p' =>
      match f_dir f with DLeft => postorder (f_sib f) | DRight => [] end ++ f_data f :: post_path p'
  end.

Definition post_cookie (ck : cookie A) tr : list A :=
  match ck with
  | CookieNull => postorder (avl_root tr)
  | CookieDone => []
  | CookieAt p => post_path p
  end.

(** The subtrees still to be visited are balanced. *)
Definition sibs_ok p : Prop := Forall (fun f => f_dir f = DLeft -> balanced (f_sib f)) p.

Definition cookie_ok (ck : cookie A) tr : Prop :=
  match ck with
  | CookieNull => avl_wf tr
  | CookieDone => avl_root tr <> Leaf
  | CookieAt p => sibs_ok p /\ p <> []
  end.

Lemma postorder_Permutation t : postorder t ≡ₚ elements t.
Proof.
  induction t as [|b l IHl x r IHr]; simpl; [done|].
  rewrite IHl, IHr. f_equiv. by rewrite <- Permutation_cons_append.
Qed.

Lemma height_0 t : height t <= 0 -> t = Leaf.
Proof.
  destruct t as [|b l x r]; simpl; [done|].
  pose proof (height_nonneg l). pose proof (height_nonneg r). lia.
Qed.

(** Entering a subtree: the first node visited is a leaf of it. *)
Lemma destroy_enter t p :
  t <> Leaf -> balanced t -> sibs_ok p ->
  exists q n q' b x, descend_last DLeft t p = Some (q, n) /\
    destroy_check_right q n = (q', Node b Leaf x Leaf) /\ sibs_ok q' /\
    postorder t ++ post_path p = x :: post_path q'.
Proof.
  revert p; induction t as [|b l IHl x r _]; intros p Hne Hb Hs; [done|].
  simpl in Hb. destruct Hb as (Hb & Hr & Hbl & Hbr).
  destruct (decide (l = Leaf)) as [->|Hl].
  - exists p, (Node b Leaf x r). destruct r as [|rb rl rx rr].
    + exists p, b, x. split_and!; auto.
    + simpl in *. destruct Hbr as (? & ? & _ & _).
      pose proof (height_nonneg rl). pose proof (height_nonneg rr).
      rewrite (height_0 rl), (height_0 rr) by lia. exists (Frame DRight b x Leaf :: p), rb, rx.
      split_and!; auto. constructor; [done|auto].
  - destruct (IHl (Frame DLeft b x r :: p)) as (q & n & q' & b' & x' & E & Ec & Hs' & Hp); auto.
    { constructor; auto. }
    exists q, n, q', b', x'. split_and!; auto.
    + cbn [descend_last]. destruct l; [done|exact E].
    + rewrite <- Hp. simpl. by app_norm.
Qed.

(** One call: it returns the next node in post-order. *)
Lemma avl_destroy_nodes_step tr ck x rest :
  cookie_ok ck tr -> post_cookie ck tr = x :: rest ->
  exists tr' ck', avl_destroy_nodes tr ck = (Some x, tr', ck') /\
    cookie_ok ck' tr' /\ post_cookie ck' tr' = rest.
Proof.
  assert (Hdone : forall tr' q b l y r, (q = [] -> avl_root tr' <> Leaf) -> sibs_ok q ->
    exists ck', destroy_done tr' (q, Node b l y r) = (Some y, tr', ck') /\
      cookie_ok ck' tr' /\ post_cookie ck' tr' = post_path q).
  { intros tr' [|f q] b l y r Hq Hs; eexists; (split; [reflexivity|]); simpl; auto. }
  assert (Hzip : forall p t, t <> Leaf -> zip p t <> Leaf).
  { clear. induction p as [|f p IH]; intros t Ht; simpl; auto.
    apply IH. by destruct (f_dir f). }
  intros Hok Hpost. destruct ck as [| |[|f p]]; simpl in Hpost, Hok; [|done|by destruct Hok|].
  - unfold avl_destroy_nodes. destruct Hok as [Hb _].
    assert (Hne : avl_root tr <> Leaf) by (intros E; by rewrite E in Hpost).
    destruct (destroy_enter (avl_root tr) [] Hne Hb) as (q & n & q' & b & y & -> & -> & Hs & Hp).
    { constructor. }
    simpl in Hp. rewrite app_nil_r in Hp. rewrite Hpost in Hp. injection Hp as -> ->.
    destruct (Hdone tr q' b Leaf y Leaf) as (ck' & E & ? & ?); eauto.
  - destruct Hok as [Hs _]. apply Forall_cons in Hs as [Hf Hs].
    destruct f as [d b y s]. simpl in Hf, Hpost. unfold avl_destroy_nodes. cbn [f_dir f_bal f_data f_sib].
    set (tr' := AvlTree (zip p (join d b Leaf y s)) _).
    assert (Hroot : avl_root tr' <> Leaf) by (apply Hzip; by destruct d).
    destruct (decide (d = DLeft /\ s <> Leaf)) as [[-> Hsl]|Hd].
    + destruct (destroy_enter s (Frame DRight b y Leaf :: p) Hsl (Hf eq_refl))
        as (q & n & q' & b' & y' & E & Ec & Hs' & Hp).
      { constructor; [done|auto]. }
      assert (Hg : (match DLeft, child DRight (join DLeft b Leaf y s) with
        | DLeft, (Node _ _ _ _ as c) => match descend_last DLeft c (Frame DRight b y Leaf :: p) with
            | None => (None, tr', CookieDone)
            | Some (q, node) => destroy_done tr' (destroy_check_right q node) end
        | _, _ => destroy_done tr' (p, join DLeft b Leaf y s) end)
        = destroy_done tr' (q', Node b' Leaf y' Leaf))
        by (cbn [child join]; destruct s; [done|]; rewrite E; by rewrite Ec).
      simpl in Hp. rewrite Hp in Hpost. injection Hpost as -> <-.
      destruct (Hdone tr' q' b' Leaf x Leaf) as (ck' & E' & ? & ?); auto.
      exists tr', ck'. split_and!; auto. by rewrite <- E', <- Hg.
    + assert (Hp : y :: post_path p = x :: rest).
      { rewrite <- Hpost. destruct d; [|done]. destruct s; [done|]. destruct Hd. done. }
      injection Hp as -> <-.
      destruct (Hdone tr' p b (child DLeft (join d b Leaf x s)) x (child DRight (join d b Leaf x s)))
        as (ck' & E' & ? & ?); auto.
      exists tr', ck'. split_and!; auto. rewrite <- E'.
      destruct d; [|done]. destruct s; [done|]. destruct Hd. done.
Qed.

Lemma avl_destroy_loop_spec fuel tr ck :
  (length (post_cookie ck tr) < fuel)%nat -> cookie_ok ck tr ->
  avl_destroy_loop fuel tr ck = Some (post_cookie ck tr, AvlTree Leaf 0).
Proof.
  revert tr ck; induction fuel as [|fuel IH]; intros tr ck Hf Hok; [lia|].
  cbn [avl_destroy_loop]. destruct (post_cookie ck tr) as [|x rest] eqn:Hp.
  - destruct ck as [| |[|f p]]; simpl in Hp, Hok.
    + destruct tr as [t n], Hok as [Hb Hn]. simpl in *. destruct t as [|b l x r]; simpl in Hp.
      * simpl in Hn. by rewrite Hn.
      * by destruct (postorder l), (postorder r).
    + simpl. by destruct (avl_root tr).
    + by destruct Hok.
    + by destruct (f_dir f), (postorder (f_sib f)).
  - destruct (avl_destroy_nodes_step tr ck x rest Hok Hp) as (tr' & ck' & -> & Hok' & Hp').
    rewrite (IH tr' ck'); auto; [by rewrite Hp'|rewrite Hp'; simpl in Hf; lia].
Qed.

End Destroy.

(** ** Depth, iteration and repositioning *)

Section Depth.
Context {A : Type} `{!EqDecision A}.
Implicit Types (t : tree A) (p : path A) (tr : avl_tree A).

Lemma down_depth (pt qn : path A * tree A) :
  down pt qn ->
  Z.of_nat (length qn.1) + height qn.2 <= Z.of_nat (length pt.1) + height pt.2.
Proof.
  induction 1 as [|d b l x r p qn _ IH]; [lia|]. simpl in *.
  pose proof (height_nonneg l). pose proof (height_nonneg r). destruct d; simpl in *; lia.
Qed.

(** A balanced tree of [n] nodes has height at most [2 log2 (n + 1)]. *)
Lemma balanced_height t :
  balanced t -> 2 ^ height t <= (Z.of_nat (length (elements t)) + 1) ^ 2.
Proof.
  induction t as [|b l IHl x r IHr]; [simpl; lia|].
  cbn [balanced height elements]. intros (Hb & Hrng & Hl & Hr).
  specialize (IHl Hl). specialize (IHr Hr).
  pose proof (height_nonneg l) as Hl0. pose proof (height_nonneg r) as Hr0.
  rewrite length_app. cbn [length].
  set (n := Z.of_nat (length (elements l))) in *. set (m := Z.of_nat (length (elements r))) in *.
  replace (Z.of_nat (length (elements l) + S (length (elements r))) + 1)
    with ((n + 1) + (m + 1)) by lia.
  assert (Hn : 0 <= n) by lia. assert (Hm : 0 <= m) by lia. clearbody n m.
  assert (Hcase : height l = height r \/ height l = height r + 1 \/ height r = height l + 1) by lia.
  destruct Hcase as [E|[E|E]]; rewrite E in *.
  - rewrite Z.max_id, Z.pow_add_r in * by lia. nia.
  - rewrite Z.max_l by lia. rewrite !Z.pow_add_r in * by lia. nia.
  - rewrite Z.max_r by lia. rewrite !Z.pow_add_r in * by lia. nia.
Qed.

Lemma place_depth tr w :
  avl_wf tr -> is_place tr w ->
  2 ^ Z.of_nat (length w) <= (Z.of_nat (length (avl_elements tr)) + 1) ^ 2.
Proof.
  intros [Hb _] Hw%down_depth. simpl in Hw. etrans; [|by apply balanced_height].
  apply Z.pow_le_mono_r; lia.
Qed.

(** [for (x = avl_first(t); x != NULL; x = AVL_NEXT(t, x))]: the data visited. *)
Fixpoint avl_iterate (fuel : nat) tr (cur : option A) : list A :=
  match fuel, cur with
  | S fuel', Some x => x :: avl_iterate fuel' tr (avl_walk tr x DRight)
  | _, _ => []
  end.

Lemma avl_iterate_suffix tr l1 l2 fuel :
  NoDup (avl_elements tr) -> avl_elements tr = l1 ++ l2 -> (length l2 <= fuel)%nat ->
  avl_iterate fuel tr (head l2) = l2.
Proof.
  intros Hnd. revert l1 fuel; induction l2 as [|x l2 IH]; intros l1 fuel He Hf; simpl.
  { by destruct fuel. }
  destruct fuel as [|fuel]; simpl in *; [lia|]. f_equal.
  rewrite (avl_walk_split tr l1 x l2 DRight) by done.
  apply (IH (l1 ++ [x])); [by app_norm|lia].
Qed.

Lemma avl_iterate_elements tr fuel :
  NoDup (avl_elements tr) -> (length (avl_elements tr) <= fuel)%nat ->
  avl_iterate fuel tr (avl_first tr) = avl_elements tr.
Proof. intros. rewrite avl_first_head. by apply (avl_iterate_suffix tr []). Qed.

End Depth.

Section Update.
Context {A : Type} `{!EqDecision A} `{!AvlCompar A} `{!AvlOrder A}.
Implicit Types tr : avl_tree A.

(** After an element changed in place, the others are still in order. *)
Definition one_moved (l1 : list A) (obj : A) (l2 : list A) : Prop :=
  avl_sorted (l1 ++ l2) /\ Forall (fun y => avl_compar obj y <> 0) (l1 ++ l2).

Lemma one_moved_NoDup l1 obj l2 : one_moved l1 obj l2 -> NoDup (l1 ++ obj :: l2).
Proof.
  intros [Hs Hne]. rewrite <- Permutation_middle. constructor; [|by apply sorted_NoDup].
  intros Hin. rewrite Forall_forall in Hne. apply (Hne obj Hin).
  pose proof (avl_compar_opp obj obj). lia.
Qed.

Lemma AVL_REINSERT_spec tr l1 obj l2 :
  avl_wf tr -> avl_elements tr = l1 ++ obj :: l2 -> one_moved l1 obj l2 ->
  exists tr', AVL_REINSERT tr obj = Ok tr' /\ avl_wf tr' /\
    avl_sorted (avl_elements tr') /\ avl_elements tr' ≡ₚ avl_elements tr.
Proof.
  intros Hwf He Hm. pose proof (one_moved_NoDup _ _ _ Hm) as Hnd. destruct Hm as [Hs Hne].
  destruct (avl_remove_split tr l1 obj l2 Hwf) as (tr1 & E1 & Hwf1 & He1); [by rewrite He|done|].
  destruct (avl_add_sorted tr1 obj Hwf1) as (tr2 & k1 & k2 & E2 & Hwf2 & Hk & He2 & Hs2);
    [by rewrite He1|by rewrite He1|].
  unfold AVL_REINSERT. rewrite E1. simpl. exists tr2. rewrite E2, He2, He.
  split_and!; auto. rewrite <- !Permutation_middle. by rewrite <- Hk, He1.
Qed.

(** In place next to its neighbours, the element is in place in the list. *)
Lemma one_moved_sorted l1 obj l2 :
  one_moved l1 obj l2 ->
  (forall y, last l1 = Some y -> ~ avl_compar obj y < 0) ->
  (forall y, head l2 = Some y -> ~ 0 < avl_compar obj y) ->
  avl_sorted (l1 ++ obj :: l2).
Proof.
  intros [Hs Hne] Hl Hr. apply Forall_app in Hne as [Hn1 Hn2]. apply sorted_insert; [done| |].
  - destruct l1 as [|y l1 _] using rev_ind; [constructor|].
    specialize (Hl y). rewrite last_snoc in Hl. specialize (Hl eq_refl).
    apply Forall_app in Hn1 as [_ Hy]. rewrite Forall_singleton in Hy.
    unfold avl_sorted in Hs. rewrite !StronglySorted_app_inv in Hs.
    destruct Hs as ((_ & _ & Hs) & _ & _).
    apply Forall_app. split; [|apply Forall_singleton; lia].
    apply Forall_forall. intros z Hz. specialize (Hs z y Hz ltac:(set_solver)).
    pose proof (avl_compar_lt_trans z y obj). rewrite (avl_compar_opp obj z), (avl_compar_opp obj y) in *.
    lia.
  - destruct l2 as [|y l2]; [constructor|]. specialize (Hr y eq_refl).
    apply Forall_cons in Hn2 as [Hy _].
    unfold avl_sorted in Hs. rewrite StronglySorted_app_inv in Hs.
    destruct Hs as (_ & Hs & _). apply StronglySorted_inv in Hs as [_ Hs].
    constructor; [lia|]. eapply Forall_impl; [apply Hs|]. simpl. intros z Hz.
    eapply avl_compar_lt_trans; [|by apply Z.lt_le_incl]. lia.
Qed.

Lemma avl_update_spec tr l1 obj l2 :
  avl_wf tr -> avl_elements tr = l1 ++ obj :: l2 -> one_moved l1 obj l2 ->
  exists tr' moved, avl_update tr obj = Ok (tr', moved) /\ avl_wf tr' /\
    avl_sorted (avl_elements tr') /\ avl_elements tr' ≡ₚ avl_elements tr /\
    (moved = false -> tr' = tr).
Proof.
  intros Hwf He Hm. pose proof (one_moved_NoDup _ _ _ Hm) as Hnd. rewrite <- He in Hnd.
  destruct (AVL_REINSERT_spec tr l1 obj l2 Hwf He Hm) as (tr' & E & Hwf' & Hs' & Hp').
  unfold avl_update, avl_update_lt, avl_update_gt.
  rewrite (avl_walk_split tr l1 obj l2 DLeft), (avl_walk_split tr l1 obj l2 DRight) by done.
  pose proof (one_moved_sorted l1 obj l2 Hm) as Hsort.
  destruct (last l1) as [y|] eqn:El.
  - destruct (Z.ltb_spec (avl_compar obj y) 0).
    + rewrite E. simpl. by exists tr', true.
    + simpl. destruct (head l2) as [z|] eqn:Eh; [destruct (Z.ltb_spec 0 (avl_compar obj z))|].
      * rewrite E. simpl. by exists tr', true.
      * exists tr, false. split_and!; auto. rewrite He. apply Hsort; naive_solver lia.
      * exists tr, false. split_and!; auto. rewrite He. apply Hsort; naive_solver lia.
  - simpl. destruct (head l2) as [z|] eqn:Eh; [destruct (Z.ltb_spec 0 (avl_compar obj z))|].
    + rewrite E. simpl. by exists tr', true.
    + exists tr, false. split_and!; auto. rewrite He. apply Hsort; naive_solver lia.
    + exists tr, false. split_and!; auto. rewrite He. apply Hsort; naive_solver lia.
Qed.

(** An element that is still in order is not moved. *)
Lemma avl_update_stays tr l1 obj l2 :
  avl_elements tr = l1 ++ obj :: l2 -> avl_sorted (avl_elements tr) ->
  avl_update tr obj = Ok (tr, false).
Proof.
  intros He Hs. pose proof (sorted_NoDup _ Hs) as Hnd.
  unfold avl_update, avl_update_lt, avl_update_gt.
  rewrite (avl_walk_split tr l1 obj l2 DLeft), (avl_walk_split tr l1 obj l2 DRight) by done.
  rewrite He in Hs. unfold avl_sorted in Hs. rewrite StronglySorted_app_inv in Hs.
  destruct Hs as (_ & Hs2 & Hs3). apply StronglySorted_inv in Hs2 as [_ Hs2].
  assert (Hr : match head l2 with Some z => (0 <? avl_compar obj z) = false | None => True end).
  { destruct l2 as [|z l2]; simpl; [done|]. apply Forall_cons in Hs2 as [? _]. apply Z.ltb_ge. lia. }
  destruct (last l1) as [y|] eqn:El.
  - apply last_Some_elem_of in El. specialize (Hs3 y obj El ltac:(set_solver)).
    rewrite (avl_compar_opp y obj), (proj2 (Z.ltb_ge _ _)) by lia. simpl.
    destruct (head l2); [by rewrite Hr|done].
  - simpl. destruct (head l2); [by rewrite Hr|done].
Qed.

End Update.

(** ** Properties *)

(** [AVL_CMP(a, b)] *)
Definition AVL_CMP (a b : Z) : Z := Z.b2z (b <? a) - Z.b2z (a <? b).

Lemma AVL_CMP_cases a b :
  (a < b /\ AVL_CMP a b = -1) \/ (a = b /\ AVL_CMP a b = 0) \/ (b < a /\ AVL_CMP a b = 1).
Proof. unfold AVL_CMP. zcase; simpl; lia. Qed.

Module Order.

#[export] Instance Z_compar : AvlCompar Z := AVL_CMP.

#[export] Instance Z_order : AvlOrder Z.
Proof.
  split; unfold avl_compar, Z_compar, AVL_CMP; intros *; zcase; simpl; lia.
Qed.

Section Theorems.
Context {A : Type} `{!EqDecision A} `{!AvlCompar A} `{!AvlOrder A}.
Implicit Types tr : avl_tree A.

(** C23: [avl_add] on a balanced, ordered tree returns.  When no element compares
    equal to the new one, the tree is balanced and ordered again with its count
    of nodes right, and its elements are the old ones and the new one.  When one
    does, the production build in user space loses the tree: the new element is
    the only one, and the count is one more than that of the old tree. *)
Theorem avl_add_correct tr (x : A) :
  avl_wf tr -> avl_sorted (avl_elements tr) ->
  exists tr', avl_add tr x = Ok tr' /\
    (Forall (fun y => avl_compar x y <> 0) (avl_elements tr) ->
       avl_wf tr' /\ avl_sorted (avl_elements tr') /\ avl_elements tr' ≡ₚ x :: avl_elements tr) /\
    (Exists (fun y => avl_compar x y = 0) (avl_elements tr) ->
       avl_elements tr' = [x] /\ avl_numnodes tr' = wrap64 (avl_numnodes tr + 1)).
Proof.
  intros Hwf Hs. destruct (decide (Exists (fun y => avl_compar x y = 0) (avl_elements tr))) as [He|Hn].
  - pose proof (avl_find_spec tr x (sorted_search_ok x _ Hs)) as Hf.
    unfold avl_add. destruct (avl_find tr x) as [y|w].
    + eexists. split; [done|]. split; [|done]. intros Hn%Forall_Exists_neg. contradiction.
    + apply find_spec_notfound in Hf. apply Forall_Exists_neg in Hf. contradiction.
  - pose proof Hn as Hne. apply not_Exists_Forall in Hne; [|tc_solve].
    destruct (avl_add_sorted tr x Hwf Hs Hne) as (tr' & l1 & l2 & E & Hwf' & He & He' & Hs').
    exists tr'. split; [done|]. split; [|contradiction]. intros _.
    rewrite He', He. split_and!; auto. by rewrite Permutation_middle.
Qed.

(** C24: [avl_remove] of an element returns, leaves the tree balanced and
    ordered with the node count kept, and takes out exactly that element. *)
Theorem avl_remove_correct tr (x : A) :
  avl_wf tr -> avl_sorted (avl_elements tr) -> x ∈ avl_elements tr ->
  exists tr', avl_remove tr x = Ok tr' /\ avl_wf tr' /\
    avl_sorted (avl_elements tr') /\ x ∉ avl_elements tr' /\
    avl_elements tr ≡ₚ x :: avl_elements tr'.
Proof.
  intros Hwf Hs (l1 & l2 & He)%list_elem_of_split. pose proof (sorted_NoDup _ Hs) as Hnd.
  destruct (avl_remove_split tr l1 x l2 Hwf Hnd He) as (tr' & E & Hwf' & He').
  exists tr'. rewrite He', He in *. split_and!; auto.
  - by eapply sorted_remove.
  - rewrite <- Permutation_middle in Hnd. by apply NoDup_cons in Hnd as [? _].
  - by rewrite <- Permutation_middle.
Qed.

(** [avl_find] returns an element that compares equal when there is one;
    otherwise it returns an insertion point from which [avl_nearest] gives the
    closest smaller and the closest greater element, at a depth of at most
    twice the logarithm of the number of nodes. *)
Theorem avl_find_correct tr (v : A) :
  avl_wf tr -> avl_sorted (avl_elements tr) ->
  match avl_find tr v with
  | Found x => x ∈ avl_elements tr /\ avl_compar v x = 0
  | NotFound w =>
      Forall (fun x => avl_compar v x <> 0) (avl_elements tr) /\
      avl_nearest tr w AVL_BEFORE = last (filter (fun x => 0 < avl_compar v x) (avl_elements tr)) /\
      avl_nearest tr w AVL_AFTER = head (filter (fun x => avl_compar v x < 0) (avl_elements tr)) /\
      2 ^ Z.of_nat (length w) <= (Z.of_nat (length (avl_elements tr)) + 1) ^ 2
  end.
Proof.
  intros Hwf Hs. pose proof (avl_find_spec tr v (sorted_search_ok v _ Hs)) as Hf.
  destruct (avl_find tr v) as [x|w]; [done|].
  split; [by eapply find_spec_notfound|]. destruct Hf as (Hw & Hl & Hr).
  rewrite !(avl_nearest_place tr w) by (done || by apply sorted_NoDup).
  rewrite (is_place_elements _ _ Hw), !filter_app. split_and!.
  - rewrite (filter_true _ (p_left w)), (filter_false _ (p_right w)); [by app_norm| |done].
    eapply Forall_impl; [apply Hr|]. simpl. lia.
  - rewrite (filter_false _ (p_left w)), (filter_true _ (p_right w)); [done|done|].
    eapply Forall_impl; [apply Hl|]. simpl. lia.
  - rewrite <- (is_place_elements _ _ Hw). by apply place_depth.
Qed.

(** The loop over [avl_first] and [AVL_NEXT] visits the elements from the
    smallest to the greatest, each once. *)
Theorem avl_iterate_correct tr :
  avl_wf tr -> avl_sorted (avl_elements tr) ->
  avl_iterate (length (avl_elements tr)) tr (avl_first tr) = avl_elements tr /\
  avl_last tr = last (avl_elements tr).
Proof.
  intros Hwf Hs. split; [|apply avl_last_last].
  by apply avl_iterate_elements; [apply sorted_NoDup|].
Qed.

(** After an element was changed in place so that it still differs from the
    others, [avl_update] returns a balanced and ordered tree with the same
    elements, and reports a move exactly when it had to reposition it. *)
Theorem avl_update_correct tr l1 (obj : A) l2 :
  avl_wf tr -> avl_elements tr = l1 ++ obj :: l2 -> one_moved l1 obj l2 ->
  exists tr' moved, avl_update tr obj = Ok (tr', moved) /\ avl_wf tr' /\
    avl_sorted (avl_elements tr') /\ avl_elements tr' ≡ₚ avl_elements tr /\
    (moved = false <-> avl_sorted (avl_elements tr)).
Proof.
  intros Hwf He Hm.
  destruct (avl_update_spec tr l1 obj l2 Hwf He Hm) as (tr' & moved & E & Hwf' & Hs & Hp & Hmv).
  exists tr', moved. split_and!; auto. split.
  - intros Hf. by rewrite <- (Hmv Hf).
  - intros Hsorted. pose proof (avl_update_stays tr l1 obj l2 He Hsorted) as E'. congruence.
Qed.

(** The loop over [avl_destroy_nodes] ends within as many calls as there
    are nodes and one more, visits every node exactly once (each after its
    children) and leaves the empty tree. *)
Theorem avl_destroy_correct tr :
  avl_wf tr ->
  avl_destroy_loop (S (length (avl_elements tr))) tr CookieNull =
    Some (postorder (avl_root tr), AvlTree Leaf 0) /\
  postorder (avl_root tr) ≡ₚ avl_elements tr.
Proof.
  intros Hwf. pose proof (postorder_Permutation (avl_root tr)) as Hp. split; [|done].
  apply (avl_destroy_loop_spec _ tr CookieNull); [|done]. simpl. rewrite Hp. unfold avl_elements. lia.
Qed.

End Theorems.

(** *** Witnesses: a tree of five nodes *)

Definition tree5 : avl_tree Z :=
  AvlTree (Node 0 (Node 1 Leaf 1 (Node 0 Leaf 2 Leaf)) 3 (Node 1 Leaf 5 (Node 0 Leaf 7 Leaf))) 5.

Lemma tree5_wf : avl_wf tree5.
Proof. by repeat split. Qed.

Lemma tree5_sorted : avl_sorted (avl_elements tree5).
Proof. unfold avl_sorted. simpl. repeat constructor. Qed.

Lemma avl_add_correct_witness :
  (exists tr', avl_add tree5 6 = Ok tr' /\ avl_sorted (avl_elements tr') /\
     avl_elements tr' ≡ₚ 6 :: avl_elements tree5) /\
  exists tr', avl_add tree5 3 = Ok tr' /\ avl_elements tr' = [3] /\ avl_numnodes tr' = 6.
Proof.
  destruct (avl_add_correct tree5 6 tree5_wf tree5_sorted) as (t1 & E1 & H1 & _).
  destruct (avl_add_correct tree5 3 tree5_wf tree5_sorted) as (t2 & E2 & _ & H2). split.
  - exists t1. destruct H1 as (_ & Hs & Hp); [by repeat constructor|]. by split_and!.
  - exists t2. destruct H2 as [He Hn]; [|by split_and!].
    apply Exists_exists. exists 3. split; [|reflexivity]. unfold tree5; simpl. set_solver.
Defined.

Lemma avl_remove_correct_witness :
  exists tr', avl_remove tree5 3 = Ok tr' /\ avl_elements tree5 ≡ₚ 3 :: avl_elements tr'.
Proof.
  destruct (avl_remove_correct tree5 3 tree5_wf tree5_sorted) as (tr' & H & _ & _ & _ & Hp).
  - unfold tree5; simpl. set_solver.
  - by exists tr'.
Defined.

Lemma avl_find_correct_witness :
  match avl_find tree5 4 with
  | Found _ => False
  | NotFound w => avl_nearest tree5 w AVL_BEFORE = Some 3 /\ avl_nearest tree5 w AVL_AFTER = Some 5
  end.
Proof.
  pose proof (avl_find_correct tree5 4 tree5_wf tree5_sorted) as H.
  vm_compute in H |- *. tauto.
Defined.

Lemma avl_iterate_correct_witness :
  avl_iterate 5 tree5 (avl_first tree5) = [1; 2; 3; 5; 7].
Proof. apply (avl_iterate_correct tree5 tree5_wf tree5_sorted). Defined.

(** The root of [tree5] changed from 3 to 9. *)
Definition tree5_changed : avl_tree Z :=
  AvlTree (Node 0 (Node 1 Leaf 1 (Node 0 Leaf 2 Leaf)) 9 (Node 1 Leaf 5 (Node 0 Leaf 7 Leaf))) 5.

Lemma avl_update_correct_witness :
  exists tr' moved, avl_update tree5_changed 9 = Ok (tr', moved) /\ avl_sorted (avl_elements tr').
Proof.
  destruct (avl_update_correct tree5_changed [1; 2] 9 [5; 7])
    as (tr' & moved & H & _ & Hs & _).
  - by repeat split.
  - done.
  - split; [unfold avl_sorted; simpl; repeat constructor|simpl; repeat constructor; done].
  - by exists tr', moved.
Defined.

Lemma avl_destroy_correct_witness :
  avl_destroy_loop 6 tree5 CookieNull = Some ([2; 1; 7; 5; 3], AvlTree Leaf 0).
Proof. apply (avl_destroy_correct tree5 tree5_wf). Defined.

End Order.
