(* ===== verification/RangeTree.v ===== *)
(** * Range trees: [module/zfs/range_tree.c]

    A range tree is an offset-ordered AVL tree of disjoint, non-adjacent
    segments with the total space and a histogram of segment sizes.  The
    optional [rt_ops] callbacks let a client keep a second index of the same
    segments: [range_tree_ops] is the record of callbacks and [RtOpsSpec] is
    what the tree relies on; [Metaslab] discharges it. *)

From S2P Require Import Prelude Bits Avl.

Definition RANGE_TREE_HISTOGRAM_SIZE : nat := 64.

Record range_seg : Type := RangeSeg { rs_start : Z; rs_end : Z }.

#[export] Instance range_seg_eq_dec : EqDecision range_seg.
Proof. solve_decision. Defined.

Definition range_tree_seg_compare (r1 r2 : range_seg) : Z :=
  Z.b2z (rs_end r2 <=? rs_start r1) - Z.b2z (rs_end r1 <=? rs_start r2).

#[export] Instance range_seg_compar : AvlCompar range_seg := range_tree_seg_compare.

(** The callbacks of a tree over the client's state [St] (the [arg] of the C
    code).  A callback that can panic returns in [res]. *)
Record range_tree_ops (St : Type) : Type := RangeTreeOps {
  rtop_create : St -> St;
  rtop_destroy : St -> St;
  rtop_add : range_seg -> St -> res St;
  rtop_remove : range_seg -> St -> res St;
  rtop_vacate : St -> St
}.
Arguments rtop_create {St} _ _.
Arguments rtop_destroy {St} _ _.
Arguments rtop_add {St} _ _ _.
Arguments rtop_remove {St} _ _ _.
Arguments rtop_vacate {St} _ _.

Record range_tree (St : Type) : Type := RangeTree {
  rt_root : avl_tree range_seg;
  rt_space : Z;
  rt_ops : option (range_tree_ops St);
  rt_arg : St;
  rt_histogram : list Z
}.
Arguments RangeTree {St} _ _ _ _ _.
Arguments rt_root {St} _.
Arguments rt_space {St} _.
Arguments rt_ops {St} _.
Arguments rt_arg {St} _.
Arguments rt_histogram {St} _.

(** [rs->rs_end - rs->rs_start] *)
Definition rs_size (rs : range_seg) : Z := wrap64 (rs_end rs - rs_start rs).

(** An update of [rt_histogram\[highbit64(size) - 1\]]; an index out of the
    array is a [Panic]. *)
Definition hist_update (f : Z -> Z) (rs : range_seg) (h : list Z) : res (list Z) :=
  let idx := highbit64 (rs_size rs) - 1 in
  if (0 <=? idx) && (idx <? 64) then Ok (alter f (Z.to_nat idx) h) else Panic.

Section Operations.
Context {St : Type}.
(** The tunable [zfs_recover]: whether [zfs_panic_recover] only warns. *)
Variable zfs_recover : bool.
Implicit Types rt : range_tree St.

Definition zfs_panic_recover {A} (a : A) : res A := if zfs_recover then Ok a else Panic.

Definition range_tree_stat_incr (h : list Z) (rs : range_seg) : res (list Z) :=
  hist_update (fun n => wrap64 (n + 1)) rs h.

Definition range_tree_stat_decr (h : list Z) (rs : range_seg) : res (list Z) :=
  hist_update (fun n => wrap64 (n - 1)) rs h.

(** The loop of [range_tree_stat_verify] that recounts the segments. *)
Fixpoint stat_recount (segs : list range_seg) (hist : list Z) : res (list Z) :=
  match segs with
  | [] => Ok hist
  | rs :: segs' => hist' ← hist_update (fun n => wrap64 (n + 1)) rs hist; stat_recount segs' hist'
  end.

Definition range_tree_segs rt : list range_seg :=
  avl_iterate (length (avl_elements (rt_root rt))) (rt_root rt) (avl_first (rt_root rt)).

Definition range_tree_stat_verify rt : res unit :=
  hist ← stat_recount (range_tree_segs rt) (replicate RANGE_TREE_HISTOGRAM_SIZE 0);
  VERIFY bool_decide (hist = rt_histogram rt) ;; Ok tt.

Definition range_tree_create (ops : option (range_tree_ops St)) (arg : St) : range_tree St :=
  let arg' := match ops with Some o => rtop_create o arg | None => arg end in
  RangeTree avl_create 0 ops arg' (replicate RANGE_TREE_HISTOGRAM_SIZE 0).

Definition range_tree_destroy rt : res St :=
  VERIFY (rt_space rt =? 0) ;;
  Ok (match rt_ops rt with Some o => rtop_destroy o (rt_arg rt) | None => rt_arg rt end).

Definition call_add (ops : option (range_tree_ops St)) (rs : range_seg) (arg : St) : res St :=
  match ops with Some o => rtop_add o rs arg | None => Ok arg end.

Definition call_remove (ops : option (range_tree_ops St)) (rs : range_seg) (arg : St) : res St :=
  match ops with Some o => rtop_remove o rs arg | None => Ok arg end.

(** The part of [range_tree_add] that merges the range with the neighbours
    that touch it, or inserts it: the tree, the client's state and the histogram
    after it, and the segment that now holds the range. *)
Definition add_merge rt (where_ : path range_seg) (start end_ : Z)
    : res (avl_tree range_seg * St * list Z * range_seg) :=
  let ops := rt_ops rt in
  let rs_before := avl_nearest (rt_root rt) where_ AVL_BEFORE in
  let rs_after := avl_nearest (rt_root rt) where_ AVL_AFTER in
  let merge_before := match rs_before with Some b => rs_end b =? start | None => false end in
  let merge_after := match rs_after with Some a => rs_start a =? end_ | None => false end in
  match rs_before, rs_after, merge_before, merge_after with
  | Some b, Some a, true, true =>
      root ← avl_remove (rt_root rt) b;
      arg ← call_remove ops b (rt_arg rt);
      arg ← call_remove ops a arg;
      hist ← range_tree_stat_decr (rt_histogram rt) b;
      hist ← range_tree_stat_decr hist a;
      let rs := RangeSeg (rs_start b) (rs_end a) in
      root ← avl_write root a rs;
      Ok (root, arg, hist, rs)
  | Some b, _, true, _ =>
      arg ← call_remove ops b (rt_arg rt);
      hist ← range_tree_stat_decr (rt_histogram rt) b;
      let rs := RangeSeg (rs_start b) end_ in
      root ← avl_write (rt_root rt) b rs;
      Ok (root, arg, hist, rs)
  | _, Some a, _, true =>
      arg ← call_remove ops a (rt_arg rt);
      hist ← range_tree_stat_decr (rt_histogram rt) a;
      let rs := RangeSeg start (rs_end a) in
      root ← avl_write (rt_root rt) a rs;
      Ok (root, arg, hist, rs)
  | _, _, _, _ =>
      let rs := RangeSeg start end_ in
      root ← avl_insert (rt_root rt) rs where_;
      Ok (root, rt_arg rt, rt_histogram rt, rs)
  end.

Definition range_tree_add rt (start size : Z) : res (range_tree St) :=
  let end_ := wrap64 (start + size) in
  let ops := rt_ops rt in
  VERIFY negb (size =? 0) ;;
  match avl_find (rt_root rt) (RangeSeg start end_) with
  | Found rs =>
      if (rs_start rs <=? start) && (end_ <=? rs_end rs)
      then zfs_panic_recover rt
      else Panic
  | NotFound where_ =>
      '(root, arg, hist, rs) ← add_merge rt where_ start end_;
      arg ← call_add ops rs arg;
      hist ← range_tree_stat_incr hist rs;
      Ok (RangeTree root (wrap64 (rt_space rt + size)) ops arg hist)
  end.

(** The part of [range_tree_remove] that cuts the range out of the segment
    [rs]: the tree, the client's state and the histogram after it, and what
    [rs] has become (none when the whole segment went). *)
Definition remove_cut (root : avl_tree range_seg) (ops : option (range_tree_ops St)) (arg : St)
    (hist : list Z) (rs : range_seg) (start end_ : Z) (left_over right_over : bool)
    : res (avl_tree range_seg * St * list Z * option range_seg) :=
  match left_over, right_over with
  | true, true =>
      let newseg := RangeSeg end_ (rs_end rs) in
      hist ← range_tree_stat_incr hist newseg;
      let rs' := RangeSeg (rs_start rs) start in
      root ← avl_write root rs rs';
      root ← avl_insert_here root newseg rs' AVL_AFTER;
      arg ← call_add ops newseg arg;
      Ok (root, arg, hist, Some rs')
  | true, false =>
      let rs' := RangeSeg (rs_start rs) start in
      root ← avl_write root rs rs';
      Ok (root, arg, hist, Some rs')
  | false, true =>
      let rs' := RangeSeg end_ (rs_end rs) in
      root ← avl_write root rs rs';
      Ok (root, arg, hist, Some rs')
  | false, false =>
      root ← avl_remove root rs;
      Ok (root, arg, hist, None)
  end.

Definition range_tree_remove rt (start size : Z) : res (range_tree St) :=
  let end_ := wrap64 (start + size) in
  let ops := rt_ops rt in
  VERIFY negb (size =? 0) ;;
  VERIFY (size <=? rt_space rt) ;;
  match avl_find (rt_root rt) (RangeSeg start end_) with
  | NotFound _ => zfs_panic_recover rt
  | Found rs =>
      VERIFY (rs_start rs <=? start) ;;
      VERIFY (end_ <=? rs_end rs) ;;
      let left_over := negb (rs_start rs =? start) in
      let right_over := negb (rs_end rs =? end_) in
      hist ← range_tree_stat_decr (rt_histogram rt) rs;
      arg ← call_remove ops rs (rt_arg rt);
      '(root, arg, hist, rs') ← remove_cut (rt_root rt) ops arg hist rs start end_ left_over right_over;
      '(arg, hist) ←
        match rs' with
        | Some rs' =>
            hist ← range_tree_stat_incr hist rs';
            arg ← call_add ops rs' arg;
            Ok (arg, hist)
        | None => Ok (arg, hist)
        end;
      Ok (RangeTree root (wrap64 (rt_space rt - size)) ops arg hist)
  end.

Definition range_tree_find_impl rt (start size : Z) : res (option range_seg) :=
  VERIFY negb (size =? 0) ;;
  Ok (match avl_find (rt_root rt) (RangeSeg start (wrap64 (start + size))) with
      | Found rs => Some rs
      | NotFound _ => None
      end).

Definition range_tree_find rt (start size : Z) : res (option range_seg) :=
  rs ← range_tree_find_impl rt start size;
  Ok (match rs with
      | Some rs => if (rs_start rs <=? start) && (wrap64 (start + size) <=? rs_end rs)
                   then Some rs else None
      | None => None
      end).

Definition range_tree_verify rt (off size : Z) : res unit :=
  rs ← range_tree_find rt off size;
  match rs with Some _ => Panic | None => Ok tt end.

Definition range_tree_contains rt (start size : Z) : res bool :=
  rs ← range_tree_find rt start size;
  Ok (match rs with Some _ => true | None => false end).

(** The loop of [range_tree_clear], one segment per iteration. *)
Fixpoint clear_loop (fuel : nat) rt (start size : Z) : res (range_tree St) :=
  match fuel with
  | O => Panic
  | S fuel' =>
      rs ← range_tree_find_impl rt start size;
      match rs with
      | None => Ok rt
      | Some rs =>
          let free_start := Z.max (rs_start rs) start in
          let free_end := Z.min (rs_end rs) (wrap64 (start + size)) in
          rt' ← range_tree_remove rt free_start (wrap64 (free_end - free_start));
          clear_loop fuel' rt' start size
      end
  end.

(** As many iterations as there are segments, and one to find none. *)
Definition range_tree_clear rt (start size : Z) : res (range_tree St) :=
  clear_loop (S (length (avl_elements (rt_root rt)))) rt start size.

Definition range_tree_swap (rtsrc rtdst : range_tree St) : range_tree St * range_tree St :=
  (rtdst, rtsrc).

(** The calls [func(arg, rs_start, rs_end - rs_start)] on the segments visited. *)
Fixpoint call_each {T} (func : T -> Z -> Z -> res T) (segs : list range_seg) (arg : T) : res T :=
  match segs with
  | [] => Ok arg
  | rs :: segs' => arg' ← func arg (rs_start rs) (rs_size rs); call_each func segs' arg'
  end.

Definition range_tree_vacate {T} rt (func : option (T -> Z -> Z -> res T)) (arg : T)
    : res (range_tree St * T) :=
  let rarg := match rt_ops rt with Some o => rtop_vacate o (rt_arg rt) | None => rt_arg rt end in
  match avl_destroy_loop (S (length (avl_elements (rt_root rt)))) (rt_root rt) CookieNull with
  | None => Panic
  | Some (segs, root) =>
      arg' ← match func with Some f => call_each f segs arg | None => Ok arg end;
      Ok (RangeTree root 0 (rt_ops rt) rarg (replicate RANGE_TREE_HISTOGRAM_SIZE 0), arg')
  end.

Definition range_tree_walk {T} rt (func : T -> Z -> Z -> res T) (arg : T) : res T :=
  call_each func (range_tree_segs rt) arg.

Definition range_tree_space rt : Z := rt_space rt.

End Operations.

(** ** The invariant *)

Definition seg_ok (rs : range_seg) : Prop := 0 <= rs_start rs < rs_end rs /\ rs_end rs < B64.

(** Consecutive segments neither overlap nor touch. *)
Definition seg_sep (a b : range_seg) : Prop := rs_end a < rs_start b.

Definition segs_ok (l : list range_seg) : Prop := Forall seg_ok l /\ StronglySorted seg_sep l.

(** The integers a list of segments stands for. *)
Definition covers (l : list range_seg) (z : Z) : Prop :=
  Exists (fun rs => rs_start rs <= z < rs_end rs) l.

#[export] Instance covers_dec l z : Decision (covers l z).
Proof. unfold covers. apply _. Defined.

Definition total (l : list range_seg) : Z :=
  foldr (fun rs n => rs_end rs - rs_start rs + n) 0 l.

(** The histogram bucket of a segment. *)
Definition bucket (rs : range_seg) : nat := Z.to_nat (highbit64 (rs_size rs) - 1).

Definition hist_of (l : list range_seg) : list Z :=
  (fun i => Z.of_nat (length (filter (fun rs => bucket rs = i) l))) <$> seq 0 64.

(** What a tree relies on of its callbacks: they maintain a relation between
    the multiset of segments and the client's state. *)
Class RtOpsSpec {St} (o : range_tree_ops St) (R : list range_seg -> St -> Prop) : Prop := {
  rtops_perm l1 l2 s : l1 ≡ₚ l2 -> R l1 s -> R l2 s;
  rtops_add l rs s : R l s -> Forall seg_ok (rs :: l) -> rs ∉ l ->
    exists s', rtop_add o rs s = Ok s' /\ R (rs :: l) s';
  rtops_remove l rs s : R (rs :: l) s -> Forall seg_ok (rs :: l) -> NoDup (rs :: l) ->
    exists s', rtop_remove o rs s = Ok s' /\ R l s';
  rtops_vacate l s : R l s -> R [] (rtop_vacate o s)
}.

Section Invariant.
Context {St : Type} (R : list range_seg -> St -> Prop).

Definition ops_inv (ops : option (range_tree_ops St)) (arg : St) (l : list range_seg) : Prop :=
  match ops with None => True | Some o => RtOpsSpec o R /\ R l arg end.

Definition rt_segs (rt : range_tree St) : list range_seg := avl_elements (rt_root rt).

Definition rt_inv (rt : range_tree St) : Prop :=
  avl_wf (rt_root rt) /\ segs_ok (rt_segs rt) /\ rt_space rt = total (rt_segs rt) /\
  rt_histogram rt = hist_of (rt_segs rt) /\ ops_inv (rt_ops rt) (rt_arg rt) (rt_segs rt).

End Invariant.

(** ** Lists of segments *)

Lemma rs_size_ok rs : seg_ok rs -> rs_size rs = rs_end rs - rs_start rs.
Proof. intros [? ?]. apply wrap64_small. unfold is_u64. lia. Qed.

Lemma total_app l1 l2 : total (l1 ++ l2) = total l1 + total l2.
Proof. induction l1; simpl; lia. Qed.

Lemma total_perm l1 l2 : l1 ≡ₚ l2 -> total l1 = total l2.
Proof. induction 1; simpl; lia. Qed.

Lemma covers_app l1 l2 z : covers (l1 ++ l2) z <-> covers l1 z \/ covers l2 z.
Proof. apply Exists_app. Qed.

Lemma covers_cons rs l z : covers (rs :: l) z <-> rs_start rs <= z < rs_end rs \/ covers l z.
Proof. apply Exists_cons. Qed.

Lemma covers_nil z : covers [] z <-> False.
Proof. apply Exists_nil. Qed.

Lemma covers_perm l1 l2 z : l1 ≡ₚ l2 -> covers l1 z <-> covers l2 z.
Proof. intros H. unfold covers. by rewrite H. Qed.

Lemma total_bound lo l :
  segs_ok l -> Forall (fun rs => lo <= rs_start rs) l -> 0 <= lo < B64 ->
  Z.of_nat (length l) <= total l <= B64 - 1 - lo.
Proof.
  intros [Hok Hs]. revert lo. induction Hs as [|rs l Hs IH Hx]; intros lo Hlo Hb; simpl.
  { lia. }
  apply Forall_cons in Hok as [[H1 H2] Hok]. apply Forall_cons in Hlo as [H3 _].
  assert (Z.of_nat (length l) <= total l <= B64 - 1 - rs_end rs); [|lia].
  apply IH; auto; [|lia]. eapply Forall_impl; [apply Hx|]. unfold seg_sep. simpl. lia.
Qed.

Lemma total_u64 l : segs_ok l -> Z.of_nat (length l) <= total l < B64.
Proof.
  intros H. assert (Z.of_nat (length l) <= total l <= B64 - 1 - 0); [|lia].
  apply total_bound; auto; [|lia]. destruct H as [H _].
  eapply Forall_impl; [apply H|]. intros rs [? ?]. lia.
Qed.

Lemma segs_ok_mid l1 m l2 :
  segs_ok (l1 ++ m :: l2) <->
  segs_ok l1 /\ segs_ok l2 /\ seg_ok m /\
  Forall (fun x => rs_end x < rs_start m) l1 /\ Forall (fun x => rs_end m < rs_start x) l2.
Proof.
  unfold segs_ok. rewrite Forall_app, Forall_cons, StronglySorted_app_inv. split.
  - intros ((H1 & Hm & H2) & Hs1 & Hs2 & Hx). apply StronglySorted_inv in Hs2 as [Hs2 Hm2].
    split_and!; auto. apply Forall_forall. intros x Hx1. apply Hx; [done|set_solver].
  - intros ((H1 & Hs1) & (H2 & Hs2) & Hm & Hl & Hr). split_and!; auto; [by constructor|].
    rewrite Forall_forall in Hl, Hr. destruct Hm as [Hm _]. unfold seg_sep.
    intros x y Hx [->|Hy]%elem_of_cons; auto. specialize (Hl x Hx). specialize (Hr y Hy). lia.
Qed.

Lemma segs_ok_app l1 l2 :
  segs_ok (l1 ++ l2) <-> segs_ok l1 /\ segs_ok l2 /\ (forall x y, x ∈ l1 -> y ∈ l2 -> seg_sep x y).
Proof. unfold segs_ok. rewrite Forall_app, StronglySorted_app_inv. tauto. Qed.

Lemma segs_ok_NoDup l : segs_ok l -> NoDup l.
Proof.
  intros [Hok Hs]. induction Hs as [|rs l Hs IH Hx]; [constructor|].
  apply Forall_cons in Hok as [[? ?] Hok]. constructor; auto.
  intros Hin. rewrite Forall_forall in Hx. specialize (Hx rs Hin). unfold seg_sep in Hx. lia.
Qed.

Lemma segs_ok_search v l : rs_start v < rs_end v -> segs_ok l -> search_ok v l.
Proof.
  intros Hv [Hok Hs]. split.
  - apply Forall_forall. intros x Hx. unfold avl_compar, range_seg_compar, range_tree_seg_compare.
    zcase; simpl; lia.
  - induction Hs as [|rs l Hs IH Hx]; constructor.
    + apply IH. by apply Forall_cons in Hok as [_ ?].
    + apply Forall_cons in Hok as [[? ?] Hok]. rewrite Forall_forall in Hx, Hok |- *.
      intros y Hy. specialize (Hx y Hy). destruct (Hok y Hy) as [? ?]. unfold seg_sep in Hx.
      unfold avl_compar, range_seg_compar, range_tree_seg_compare. zcase; simpl; lia.
Qed.

(** A sorted list below [s] whose last segment does not touch [s]. *)
Lemma strict_before l s :
  segs_ok l -> Forall (fun x => rs_end x <= s) l ->
  (forall b, last l = Some b -> rs_end b <> s) -> Forall (fun x => rs_end x < s) l.
Proof.
  intros Hok Hle Hne. destruct l as [|b l _] using rev_ind; [constructor|].
  specialize (Hne b). rewrite last_snoc in Hne. specialize (Hne eq_refl).
  apply Forall_app in Hle as [_ Hb]. rewrite Forall_singleton in Hb.
  apply segs_ok_mid in Hok as (_ & _ & [? ?] & Hl & _).
  apply Forall_app. split; [|apply Forall_singleton; lia].
  eapply Forall_impl; [apply Hl|]. simpl. lia.
Qed.

Lemma strict_after l e :
  segs_ok l -> Forall (fun x => e <= rs_start x) l ->
  (forall a, head l = Some a -> rs_start a <> e) -> Forall (fun x => e < rs_start x) l.
Proof.
  intros Hok Hle Hne. destruct l as [|a l]; [constructor|].
  specialize (Hne a eq_refl). apply Forall_cons in Hle as [Ha _].
  apply (segs_ok_mid []) in Hok as (_ & _ & [? ?] & _ & Hr).
  constructor; [lia|]. eapply Forall_impl; [apply Hr|]. simpl. lia.
Qed.

(** ** The histogram *)

Lemma length_hist_of l : length (hist_of l) = 64%nat.
Proof. by unfold hist_of. Qed.

Lemma hist_of_lookup l i :
  (i < 64)%nat -> hist_of l !! i = Some (Z.of_nat (length (filter (fun rs => bucket rs = i) l))).
Proof. intros Hi. unfold hist_of. rewrite list_lookup_fmap, lookup_seq_lt by lia. done. Qed.

Lemma hist_of_perm l1 l2 : l1 ≡ₚ l2 -> hist_of l1 = hist_of l2.
Proof. intros H. unfold hist_of. apply list_fmap_ext. intros i x _. by rewrite H. Qed.

Lemma hist_of_cons rs l :
  (bucket rs < 64)%nat -> hist_of (rs :: l) = alter (fun n => n + 1) (bucket rs) (hist_of l).
Proof.
  intros Hb. apply list_eq. intros i. destruct (decide (i < 64)%nat) as [Hi|Hi].
  - rewrite hist_of_lookup, filter_cons by lia. destruct (decide (bucket rs = i)) as [<-|Hne].
    + rewrite list_lookup_alter_eq, hist_of_lookup by lia. simpl. f_equal. lia.
    + by rewrite list_lookup_alter_ne, hist_of_lookup by (lia || congruence).
  - rewrite !lookup_ge_None_2; auto; rewrite ?length_alter, length_hist_of; lia.
Qed.

Lemma bucket_range rs : seg_ok rs -> 0 <= highbit64 (rs_size rs) - 1 < 64.
Proof.
  intros Hok. rewrite (rs_size_ok _ Hok). destruct Hok as [? ?].
  rewrite highbit64_log2 by lia. pose proof (Z.log2_nonneg (rs_end rs - rs_start rs)).
  assert (Z.log2 (rs_end rs - rs_start rs) < 64) by (apply Z.log2_lt_pow2; lia). lia.
Qed.

Lemma hist_update_ok f rs h :
  seg_ok rs -> hist_update f rs h = Ok (alter f (bucket rs) h).
Proof.
  intros Hok%bucket_range. unfold hist_update, bucket.
  rewrite (proj2 (Z.leb_le _ _)), (proj2 (Z.ltb_lt _ _)) by lia. done.
Qed.

Lemma stat_incr_ok rs l :
  seg_ok rs -> Z.of_nat (length (rs :: l)) < B64 ->
  range_tree_stat_incr (hist_of l) rs = Ok (hist_of (rs :: l)).
Proof.
  intros Hok Hl. unfold range_tree_stat_incr. rewrite hist_update_ok by done. f_equal.
  pose proof (bucket_range rs Hok). rewrite hist_of_cons by (unfold bucket; lia).
  apply list_alter_ext; [|done]. intros n Hn. rewrite hist_of_lookup in Hn by (unfold bucket; lia).
  injection Hn as <-. apply wrap64_small. unfold is_u64.
  pose proof (length_filter (fun x => bucket x = bucket rs) l). simpl in Hl. lia.
Qed.

Lemma stat_decr_ok rs l :
  seg_ok rs -> Z.of_nat (length (rs :: l)) < B64 ->
  range_tree_stat_decr (hist_of (rs :: l)) rs = Ok (hist_of l).
Proof.
  intros Hok Hl. unfold range_tree_stat_decr. rewrite hist_update_ok by done. f_equal.
  pose proof (bucket_range rs Hok). rewrite hist_of_cons by (unfold bucket; lia).
  rewrite list_alter_alter_eq. rewrite <- (list_alter_id id (hist_of l) (bucket rs)) at 2 by done.
  apply list_alter_ext; [|done]. intros n Hn. rewrite hist_of_lookup in Hn by (unfold bucket; lia).
  injection Hn as <-. simpl. unfold id. rewrite Z.add_simpl_r. apply wrap64_small. unfold is_u64.
  pose proof (length_filter (fun x => bucket x = bucket rs) l). simpl in Hl. lia.
Qed.

(** ** The two indices kept beside the tree: the histogram and the callbacks *)

Section Index.
Context {St : Type} {R : list range_seg -> St -> Prop}.

Definition idx_inv (ops : option (range_tree_ops St)) (arg : St) (hist : list Z)
    (l : list range_seg) : Prop :=
  ops_inv R ops arg l /\ hist = hist_of l /\ Forall seg_ok l /\ NoDup l /\ Z.of_nat (length l) < B64.

Lemma idx_of_segs ops arg l : ops_inv R ops arg l -> segs_ok l -> idx_inv ops arg (hist_of l) l.
Proof.
  intros Ho Hs. pose proof (total_u64 l Hs). split_and!; auto using segs_ok_NoDup; [|lia].
  by destruct Hs.
Qed.

Lemma idx_remove ops arg hist l rs l' :
  idx_inv ops arg hist l -> l ≡ₚ rs :: l' ->
  exists arg' hist', call_remove ops rs arg = Ok arg' /\
    range_tree_stat_decr hist rs = Ok hist' /\ idx_inv ops arg' hist' l'.
Proof.
  intros (Ho & -> & Hok & Hnd & Hlen) Hp. rewrite Hp in Hok, Hnd, Hlen.
  rewrite (hist_of_perm _ _ Hp). rewrite (stat_decr_ok rs l'); [|by inversion Hok|done].
  apply Forall_cons in Hok as Hok'. destruct Hok' as [_ Hok']. apply NoDup_cons in Hnd as Hnd'.
  assert (Hlen' : Z.of_nat (length l') < B64) by (simpl in Hlen; lia).
  destruct ops as [o|]; simpl in *.
  - destruct Ho as [Hspec Hr]. apply (rtops_perm _ _ _ Hp) in Hr.
    destruct (rtops_remove l' rs arg Hr Hok Hnd) as (s' & E & Hr').
    exists s', (hist_of l'). split_and!; auto. unfold idx_inv. simpl. naive_solver.
  - exists arg, (hist_of l'). split_and!; auto. unfold idx_inv. simpl. naive_solver.
Qed.

Lemma idx_add ops arg hist l rs :
  idx_inv ops arg hist l -> seg_ok rs -> rs ∉ l -> Z.of_nat (length (rs :: l)) < B64 ->
  exists arg' hist', call_add ops rs arg = Ok arg' /\
    range_tree_stat_incr hist rs = Ok hist' /\ idx_inv ops arg' hist' (rs :: l).
Proof.
  intros (Ho & -> & Hok & Hnd & _) Hrs Hni Hlen. rewrite stat_incr_ok by done.
  assert (Forall seg_ok (rs :: l)) by (by constructor).
  assert (NoDup (rs :: l)) by (by constructor).
  destruct ops as [o|]; simpl in *.
  - destruct Ho as [Hspec Hr].
    destruct (rtops_add l rs arg Hr) as (s' & E & Hr'); auto.
    exists s', (hist_of (rs :: l)). split_and!; auto. unfold idx_inv. simpl. naive_solver.
  - exists arg, (hist_of (rs :: l)). split_and!; auto. unfold idx_inv. simpl. naive_solver.
Qed.

Lemma idx_inv_perm ops arg hist l l' : l ≡ₚ l' -> idx_inv ops arg hist l -> idx_inv ops arg hist l'.
Proof.
  intros Hp (Ho & -> & Hok & Hnd & Hlen). 
  split_and!; [|by apply hist_of_perm|by rewrite <- Hp..].
  destruct ops as [o|]; simpl in *; [|done].
  destruct Ho as [Hspec Hr]. split; [done|]. by eapply rtops_perm.
Qed.

End Index.
Arguments idx_inv {St} R _ _ _ _.

(** ** Adding and removing ranges *)

Section Specs.
Context {St : Type} {R : list range_seg -> St -> Prop} (zfs_recover : bool).
Implicit Types rt : range_tree St.

(** The range [[start, start + size)] is a non-empty range of 64-bit offsets. *)
Definition range_ok (start size : Z) : Prop := 0 <= start /\ 0 < size /\ start + size < B64.

Lemma range_ok_end start size : range_ok start size -> wrap64 (start + size) = start + size.
Proof. intros (? & ? & ?). apply wrap64_small. unfold is_u64. lia. Qed.

(** A tree assembled from its parts satisfies the invariant. *)
Lemma rt_inv_intro root sp ops arg hist l :
  avl_wf root -> avl_elements root ≡ₚ l -> segs_ok (avl_elements root) ->
  sp = total l -> idx_inv R ops arg hist l ->
  rt_inv R (RangeTree root sp ops arg hist).
Proof.
  intros Hwf Hp Hs -> Hi. symmetry in Hp. apply (idx_inv_perm _ _ _ _ _ Hp) in Hi.
  destruct Hi as (Ho & -> & _). split_and!; auto. simpl. by apply total_perm.
Qed.

(** What a search by a range finds: a segment that overlaps it, or the place
    between the segments below and above it. *)
Lemma range_find rt start size :
  rt_inv R rt -> range_ok start size ->
  match avl_find (rt_root rt) (RangeSeg start (wrap64 (start + size))) with
  | Found rs => rs ∈ rt_segs rt /\ rs_start rs < start + size /\ start < rs_end rs
  | NotFound w => is_place (rt_root rt) w /\ rt_segs rt = p_left w ++ p_right w /\
      Forall (fun x => rs_end x <= start) (p_left w) /\
      Forall (fun x => start + size <= rs_start x) (p_right w)
  end.
Proof.
  intros (Hwf & Hs & _) Hr. rewrite (range_ok_end _ _ Hr). destruct Hr as (? & ? & ?).
  pose proof (avl_find_spec (rt_root rt) (RangeSeg start (start + size))) as Hf.
  specialize (Hf (segs_ok_search (RangeSeg start (start + size)) _ ltac:(simpl; lia) Hs)).
  destruct (avl_find _ _) as [rs|w]; simpl in Hf.
  - destruct Hf as [Hin Hc]. split; [done|]. destruct Hs as [Hs _].
    rewrite Forall_forall in Hs. destruct (Hs rs Hin) as [? _].
    unfold avl_compar, range_seg_compar, range_tree_seg_compare in Hc. simpl in Hc.
    revert Hc. zcase; simpl; lia.
  - destruct Hf as (Hw & Hl & Hr). split; [done|]. split; [by apply is_place_elements|].
    split; [eapply Forall_impl; [apply Hl|]|eapply Forall_impl; [apply Hr|]];
      unfold avl_compar, range_seg_compar, range_tree_seg_compare; simpl;
      intros x; zcase; simpl; lia.
Qed.

Lemma fresh_seg l1 rs l2 : segs_ok (l1 ++ rs :: l2) -> rs ∉ l1 ++ l2.
Proof.
  intros Hs%segs_ok_NoDup. rewrite <- Permutation_middle in Hs. by apply NoDup_cons in Hs as [? _].
Qed.

Ltac cover_solve :=
  repeat match goal with |- context [covers ?l ?z] => generalize (covers l z); intro end;
  simpl; intuition lia.

(** The list after a range was added, absorbing the neighbours that touch it. *)
Lemma add_segs l1 (ob oa : option range_seg) l2 start size :
  let lo := from_option rs_start start ob in
  let hi := from_option rs_end (start + size) oa in
  range_ok start size -> segs_ok (l1 ++ option_list ob ++ option_list oa ++ l2) ->
  Forall (fun x => rs_end x <= start) (l1 ++ option_list ob) ->
  Forall (fun x => start + size <= rs_start x) (option_list oa ++ l2) ->
  (forall b, ob = Some b -> rs_end b = start) ->
  (forall a, oa = Some a -> rs_start a = start + size) ->
  (ob = None -> forall b, last l1 = Some b -> rs_end b <> start) ->
  (oa = None -> forall a, head l2 = Some a -> rs_start a <> start + size) ->
  segs_ok (l1 ++ RangeSeg lo hi :: l2) /\
  total (l1 ++ RangeSeg lo hi :: l2) = total (l1 ++ option_list ob ++ option_list oa ++ l2) + size /\
  (forall z, covers (l1 ++ RangeSeg lo hi :: l2) z <->
     covers (l1 ++ option_list ob ++ option_list oa ++ l2) z \/ start <= z < start + size).
Proof.
  intros lo hi (Hr1 & Hr2 & Hr3) Hs Hl Hr Hb Ha Hnb Hna.
  apply Forall_app in Hl as [Hl _]. apply Forall_app in Hr as [_ Hr].
  assert (Hlo : 0 <= lo <= start /\ (ob = None -> lo = start) /\
    Forall (fun x => rs_end x < lo) l1 /\ segs_ok l1).
  { destruct ob as [b|]; simpl in *.
    - specialize (Hb b eq_refl). apply segs_ok_mid in Hs as (? & _ & [? ?] & ? & _). unfold lo; split_and!; auto; try lia; done.
    - apply segs_ok_app in Hs as (? & _ & _). unfold lo. split_and!; auto; [lia..|].
      apply strict_before; auto. }
  assert (Hhi : start + size <= hi < B64 /\ (oa = None -> hi = start + size) /\
    Forall (fun x => hi < rs_start x) l2 /\ segs_ok l2).
  { rewrite app_assoc in Hs. destruct oa as [a|]; simpl in *.
    - specialize (Ha a eq_refl). apply segs_ok_mid in Hs as (_ & ? & [? ?] & _ & ?). unfold hi; split_and!; auto; try lia; done.
    - apply segs_ok_app in Hs as (_ & ? & _). unfold hi. split_and!; auto; [lia..|].
      apply strict_after; auto. }
  destruct Hlo as (Hlo & Hlo' & Hl1 & Hs1), Hhi as (Hhi & Hhi' & Hl2 & Hs2). split_and!.
  - apply segs_ok_mid. split_and!; auto. split; simpl; lia.
  - rewrite !total_app. simpl. destruct ob as [b|], oa as [a|]; simpl in *;
      unfold lo, hi; simpl; rewrite ?(Hb _ eq_refl), ?(Ha _ eq_refl); lia.
  - intros z. assert (Hb' : forall b, ob = Some b -> rs_start b < rs_end b).
    { intros b ->. destruct Hs as [Hs _]. rewrite !Forall_app in Hs. destruct Hs as (_ & Hs & _).
      simpl in Hs. rewrite Forall_singleton in Hs. destruct Hs. lia. }
    assert (Ha' : forall a, oa = Some a -> rs_start a < rs_end a).
    { intros a ->. destruct Hs as [Hs _]. rewrite !Forall_app in Hs. destruct Hs as (_ & _ & Hs & _).
      simpl in Hs. rewrite Forall_singleton in Hs. destruct Hs. lia. }
    rewrite !covers_app, covers_cons. unfold lo, hi.
    destruct ob as [b|], oa as [a|]; simpl; rewrite ?covers_cons, ?covers_nil;
      try (specialize (Hb _ eq_refl); specialize (Hb' _ eq_refl));
      try (specialize (Ha _ eq_refl); specialize (Ha' _ eq_refl)); cover_solve.
Qed.

(** The common end of [range_tree_add]: index the segment and build the tree. *)
Lemma add_finish root ops arg hist rs l1 l2 sp size :
  avl_wf root -> avl_elements root = l1 ++ rs :: l2 -> segs_ok (l1 ++ rs :: l2) ->
  idx_inv R ops arg hist (l1 ++ l2) -> total (l1 ++ rs :: l2) = sp + size ->
  exists rt', (arg ← call_add ops rs arg; hist ← range_tree_stat_incr hist rs;
      Ok (RangeTree root (wrap64 (sp + size)) ops arg hist)) = Ok rt' /\ rt_inv R rt' /\
    rt_ops rt' = ops /\ rt_space rt' = sp + size /\ rt_segs rt' = l1 ++ rs :: l2.
Proof.
  intros Hwf He Hs Hi Ht. pose proof (total_u64 _ Hs) as Hlen.
  assert (Hrs : seg_ok rs) by (by apply segs_ok_mid in Hs as (_ & _ & ? & _)).
  destruct (idx_add ops arg hist (l1 ++ l2) rs Hi Hrs) as (arg' & hist' & -> & E & Hi').
  { by apply fresh_seg. }
  { rewrite length_app in *. simpl in *. rewrite length_app. lia. }
  simpl. rewrite E. simpl. eexists. split; [done|].
  assert (Hw : wrap64 (sp + size) = sp + size) by (apply wrap64_small; unfold is_u64; lia).
  split; [|simpl; split_and!; auto]. eapply rt_inv_intro; [done| |by rewrite He| |done].
  - rewrite He. by rewrite Permutation_middle.
  - rewrite Hw, <- Ht. apply total_perm. by rewrite Permutation_middle.
Qed.

(** The merge at the place a search returned, by the neighbours absorbed. *)
Lemma add_merge_ok rt w start end_ l1 ob oa l2 :
  avl_wf (rt_root rt) -> NoDup (rt_segs rt) -> is_place (rt_root rt) w ->
  p_left w = l1 ++ option_list ob -> p_right w = option_list oa ++ l2 ->
  idx_inv R (rt_ops rt) (rt_arg rt) (rt_histogram rt) (rt_segs rt) ->
  (forall b, ob = Some b -> rs_end b = start) -> (forall a, oa = Some a -> rs_start a = end_) ->
  (ob = None -> forall b, last l1 = Some b -> rs_end b <> start) ->
  (oa = None -> forall a, head l2 = Some a -> rs_start a <> end_) ->
  let rs := RangeSeg (from_option rs_start start ob) (from_option rs_end end_ oa) in
  exists root arg hist, add_merge rt w start end_ = Ok (root, arg, hist, rs) /\
    avl_wf root /\ avl_elements root = l1 ++ rs :: l2 /\
    idx_inv R (rt_ops rt) arg hist (l1 ++ l2).
Proof.
  intros Hwf Hnd Hw El Er Hidx Hb Ha Hnb Hna. unfold add_merge.
  rewrite !(avl_nearest_place _ _ _ Hnd Hw). pose proof (is_place_elements _ _ Hw) as He.
  unfold rt_segs in *. rewrite He, El, Er in Hidx, Hnd. app_norm_in Hidx. app_norm_in Hnd.
  destruct ob as [b|], oa as [a|]; simpl in *.
  - specialize (Hb b eq_refl). specialize (Ha a eq_refl).
    rewrite El, Er, last_snoc. simpl. rewrite Hb, Ha, !Z.eqb_refl.
    destruct (avl_remove_split (rt_root rt) l1 b (a :: l2)) as (root1 & -> & Hwf1 & He1);
      [done|by rewrite He, El, Er; app_norm|by rewrite He, El, Er; app_norm|].
    destruct (idx_remove _ _ _ _ b (l1 ++ a :: l2) Hidx) as (arg1 & hist1 & -> & Ed1 & Hi1);
      [by rewrite Permutation_middle|]. simpl.
    destruct (idx_remove _ _ _ _ a (l1 ++ l2) Hi1) as (arg2 & hist2 & -> & Ed2 & Hi2);
      [by rewrite Permutation_middle|]. simpl. rewrite Ed1. simpl. rewrite Ed2. simpl.
    destruct (avl_write_split root1 l1 a l2 (RangeSeg (rs_start b) (rs_end a)))
      as (root2 & -> & Hwf2 & He2); [done| |done|].
    { rewrite He1. rewrite <- Permutation_middle in Hnd. by apply NoDup_cons in Hnd as [_ ?]. }
    simpl. eauto 10.
  - specialize (Hb b eq_refl). specialize (Hna eq_refl). app_norm_in El.
    rewrite El, Er, last_snoc. simpl. rewrite Hb, Z.eqb_refl.
    destruct (idx_remove _ _ _ _ b (l1 ++ l2) Hidx) as (arg1 & hist1 & -> & Ed1 & Hi1);
      [by rewrite Permutation_middle|]. simpl. rewrite Ed1. simpl.
    destruct (avl_write_split (rt_root rt) l1 b l2 (RangeSeg (rs_start b) end_))
      as (root2 & -> & Hwf2 & He2); [done|by rewrite He, El, Er; app_norm|by rewrite He, El, Er; app_norm|].
    destruct (head l2) as [a|] eqn:Eh; simpl; [|by eauto 10].
    rewrite (proj2 (Z.eqb_neq _ _)) by eauto. by eauto 10.
  - specialize (Ha a eq_refl). specialize (Hnb eq_refl). app_norm_in El.
    rewrite El, Er. simpl. rewrite Ha, Z.eqb_refl.
    destruct (idx_remove _ _ _ _ a (l1 ++ l2) Hidx) as (arg1 & hist1 & -> & Ed1 & Hi1);
      [by rewrite Permutation_middle|]. simpl. rewrite Ed1. simpl.
    destruct (avl_write_split (rt_root rt) l1 a l2 (RangeSeg start (rs_end a)))
      as (root2 & -> & Hwf2 & He2); [done|by rewrite He, El, Er; app_norm|by rewrite He, El, Er; app_norm|].
    destruct (last l1) as [b|] eqn:Eh; simpl; [|by eauto 10].
    rewrite (proj2 (Z.eqb_neq _ _)) by eauto. by eauto 10.
  - specialize (Hnb eq_refl). specialize (Hna eq_refl). app_norm_in El.
    destruct (avl_insert_place (rt_root rt) w (RangeSeg start end_) Hwf Hw) as (root2 & -> & Hwf2 & He2).
    rewrite El, Er in He2 |- *. simpl.
    destruct (last l1) as [b|] eqn:Eb, (head l2) as [a|] eqn:Ea; simpl;
      rewrite ?(proj2 (Z.eqb_neq (rs_end _) _)) by eauto;
      rewrite ?(proj2 (Z.eqb_neq (rs_start _) _)) by eauto; by eauto 10.
Qed.

(** The neighbours that touch a range are the last below and the first above. *)
Lemma touching_below (l : list range_seg) s :
  exists l1 ob, l = l1 ++ option_list ob /\ (forall b, ob = Some b -> rs_end b = s) /\
    (ob = None -> forall b, last l1 = Some b -> rs_end b <> s).
Proof.
  destruct l as [|b l _] using rev_ind; [|destruct (decide (rs_end b = s))].
  - by exists [], None.
  - exists l, (Some b). split_and!; [done| |done]. by intros ? [= ->].
  - exists (l ++ [b]), None. rewrite last_snoc. split_and!; [by app_norm|done|]. by intros _ ? [= ->].
Qed.

Lemma touching_above (l : list range_seg) e :
  exists oa l2, l = option_list oa ++ l2 /\ (forall a, oa = Some a -> rs_start a = e) /\
    (oa = None -> forall a, head l2 = Some a -> rs_start a <> e).
Proof.
  destruct l as [|a l]; [|destruct (decide (rs_start a = e))].
  - by exists None, [].
  - exists (Some a), l. split_and!; [done| |done]. by intros ? [= ->].
  - exists None, (a :: l). split_and!; [done|done|]. by intros _ ? [= ->].
Qed.

(** A segment found by a range search meets the range. *)
Lemma found_meets l rs start size :
  segs_ok l -> rs ∈ l -> 0 < size -> rs_start rs < start + size -> start < rs_end rs ->
  exists z, start <= z < start + size /\ rs_start rs <= z < rs_end rs /\ covers l z.
Proof.
  intros [Hs _] Hin Hsz H1 H2. rewrite Forall_forall in Hs. destruct (Hs rs Hin).
  exists (Z.max start (rs_start rs)). split_and!; try lia.
  apply Exists_exists. exists rs. split; [done|lia].
Qed.

(** Adding a range that meets no segment. *)
Lemma range_tree_add_disjoint rt start size :
  rt_inv R rt -> range_ok start size ->
  (forall z, start <= z < start + size -> ~ covers (rt_segs rt) z) ->
  exists rt', range_tree_add zfs_recover rt start size = Ok rt' /\ rt_inv R rt' /\
    rt_ops rt' = rt_ops rt /\ rt_space rt' = rt_space rt + size /\
    (forall z, covers (rt_segs rt') z <-> covers (rt_segs rt) z \/ start <= z < start + size).
Proof.
  intros Hinv Hr Hd. pose proof (range_find rt start size Hinv Hr) as Hf.
  pose proof Hinv as (Hwf & Hs & Hsp & Hh & Ho).
  pose proof (idx_of_segs _ _ _ Ho Hs) as Hidx. rewrite <- Hh in Hidx.
  unfold range_tree_add. rewrite (proj2 (Z.eqb_neq size 0)) by (destruct Hr; lia). simpl.
  rewrite (range_ok_end _ _ Hr) in Hf |- *. destruct (avl_find _ _) as [rs|w].
  { destruct Hf as (Hin & H1 & H2), Hr as (_ & ? & _).
    destruct (found_meets _ _ start size Hs Hin) as (z & Hz & _ & Hc); auto. by destruct (Hd z). }
  destruct Hf as (Hw & He & Hl & Hrr).
  destruct (touching_below (p_left w) start) as (l1 & ob & El & Hb1 & Hb2).
  destruct (touching_above (p_right w) (start + size)) as (oa & l2 & Er & Ha1 & Ha2).
  destruct (add_merge_ok rt w start (start + size) l1 ob oa l2)
    as (root & arg & hist & -> & Hwf' & He' & Hi'); auto using segs_ok_NoDup. simpl.
  rewrite He, El, Er, <- app_assoc in Hs, Hsp. rewrite El in Hl. rewrite Er in Hrr.
  destruct (add_segs l1 ob oa l2 start size) as (Hs' & Ht & Hc); auto.
  destruct (add_finish root (rt_ops rt) arg hist _ l1 l2 (rt_space rt) size Hwf' He' Hs' Hi')
    as (rt' & -> & Hinv' & Hops & Hsp' & Hsegs); [lia|].
  exists rt'. split_and!; auto. intros z. rewrite Hsegs, He, El, Er, <- app_assoc. apply Hc.
Qed.

(** Two segments of a tree are the same or apart. *)
Lemma segs_apart l x y : segs_ok l -> x ∈ l -> y ∈ l -> x = y \/ seg_sep x y \/ seg_sep y x.
Proof.
  intros Hs (l1 & l2 & ->)%list_elem_of_split Hy.
  apply segs_ok_mid in Hs as (_ & _ & _ & H1 & H2). rewrite Forall_forall in H1, H2.
  unfold seg_sep. apply elem_of_app in Hy as [Hy|[->|Hy]%elem_of_cons]; auto.
Qed.

Lemma covers_elem l z : covers l z <-> exists rs, rs ∈ l /\ rs_start rs <= z < rs_end rs.
Proof. apply Exists_exists. Qed.

(** A search by a range finds a segment exactly when the range meets one. *)
Lemma range_find_meets rt start size z :
  rt_inv R rt -> range_ok start size -> start <= z < start + size -> covers (rt_segs rt) z ->
  exists rs, avl_find (rt_root rt) (RangeSeg start (start + size)) = Found rs /\
    rs ∈ rt_segs rt /\ rs_start rs < start + size /\ start < rs_end rs.
Proof.
  intros Hinv Hr Hz Hc. pose proof (range_find rt start size Hinv Hr) as Hf.
  rewrite (range_ok_end _ _ Hr) in Hf. destruct (avl_find _ _) as [rs|w]; [by exists rs|].
  exfalso. destruct Hf as (_ & He & Hl & Hrr). rewrite He, covers_app, !covers_elem in Hc.
  rewrite Forall_forall in Hl, Hrr.
  destruct Hc as [(rs & Hin & ?)|(rs & Hin & ?)]; [specialize (Hl rs Hin)|specialize (Hrr rs Hin)]; lia.
Qed.

(** A segment that meets a covered range contains it. *)
Lemma covered_contained l rs start size :
  segs_ok l -> range_ok start size -> rs ∈ l -> rs_start rs < start + size -> start < rs_end rs ->
  (forall z, start <= z < start + size -> covers l z) ->
  rs_start rs <= start /\ start + size <= rs_end rs.
Proof.
  intros Hs (Hr1 & Hr2 & Hr3) Hin H1 H2 Hc. pose proof Hs as [Hok _].
  rewrite Forall_forall in Hok. split; apply Z.nlt_ge; intros Hlt.
  - destruct (Hok rs Hin). assert (Hz : covers l (rs_start rs - 1)) by (apply Hc; lia).
    apply covers_elem in Hz as (rs' & Hin' & ?). destruct (Hok rs' Hin').
    destruct (segs_apart l rs rs') as [->|[?|?]]; auto; unfold seg_sep in *; lia.
  - destruct (Hok rs Hin). assert (Hz : covers l (rs_end rs)) by (apply Hc; lia).
    apply covers_elem in Hz as (rs' & Hin' & ?). destruct (Hok rs' Hin').
    destruct (segs_apart l rs rs') as [->|[?|?]]; auto; unfold seg_sep in *; lia.
Qed.

(** Adding a range that is already in the tree: a warning or a panic. *)
Lemma range_tree_add_contained rt start size :
  rt_inv R rt -> range_ok start size ->
  (forall z, start <= z < start + size -> covers (rt_segs rt) z) ->
  range_tree_add zfs_recover rt start size = zfs_panic_recover zfs_recover rt.
Proof.
  intros Hinv Hr Hc. pose proof Hr as (? & ? & ?). pose proof Hinv as (_ & Hs & _).
  destruct (range_find_meets rt start size start Hinv Hr) as (rs & E & Hin & H2 & H3);
    [lia|apply Hc; lia|].
  unfold range_tree_add. rewrite (proj2 (Z.eqb_neq size 0)) by lia. simpl.
  rewrite (range_ok_end _ _ Hr), E.
  destruct (covered_contained _ rs start size Hs Hr Hin H2 H3 Hc).
  by rewrite (proj2 (Z.leb_le _ _)), (proj2 (Z.leb_le _ _)).
Qed.

(** Adding a range of which only a part is in the tree: a panic. *)
Lemma range_tree_add_partial rt start size z z' :
  rt_inv R rt -> range_ok start size -> start <= z < start + size -> start <= z' < start + size ->
  covers (rt_segs rt) z -> ~ covers (rt_segs rt) z' ->
  range_tree_add zfs_recover rt start size = Panic.
Proof.
  intros Hinv Hr Hz Hz' Hc Hn. pose proof Hr as (? & ? & ?).
  destruct (range_find_meets rt start size z Hinv Hr Hz Hc) as (rs & E & Hin & H2 & H3).
  unfold range_tree_add. rewrite (proj2 (Z.eqb_neq size 0)) by lia. simpl.
  rewrite (range_ok_end _ _ Hr), E.
  destruct (Z.leb_spec (rs_start rs) start), (Z.leb_spec (start + size) (rs_end rs)); simpl; try done.
  destruct Hn. apply covers_elem. exists rs. split; [done|lia].
Qed.

(** What is left of a segment after a range was cut out of it. *)
Definition cut_mid (rs : range_seg) (start end_ : Z) (left_over right_over : bool)
    : list range_seg :=
  (if left_over then [RangeSeg (rs_start rs) start] else []) ++
  (if right_over then [RangeSeg end_ (rs_end rs)] else []).

(** The list after a range was cut out of the segment that contains it. *)
Lemma cut_segs l1 rs l2 start size (left_over right_over : bool) :
  let mid := cut_mid rs start (start + size) left_over right_over in
  range_ok start size -> segs_ok (l1 ++ rs :: l2) ->
  rs_start rs <= start -> start + size <= rs_end rs ->
  left_over = negb (rs_start rs =? start) -> right_over = negb (rs_end rs =? start + size) ->
  segs_ok (l1 ++ mid ++ l2) /\ total (l1 ++ mid ++ l2) = total (l1 ++ rs :: l2) - size /\
  (forall z, covers (l1 ++ mid ++ l2) z <->
     covers (l1 ++ rs :: l2) z /\ ~ start <= z < start + size).
Proof.
  intros mid (Hr1 & Hr2 & Hr3) Hs Hle1 Hle2 -> ->.
  pose proof Hs as (Hs1 & Hs2 & [Hrs1 Hrs2] & Hl & Hr)%segs_ok_mid. split_and!.
  - unfold mid, cut_mid. destruct (Z.eqb_spec (rs_start rs) start), (Z.eqb_spec (rs_end rs) (start + size));
      simpl; rewrite ?app_nil_r; try apply segs_ok_mid.
    + apply segs_ok_app. split_and!; auto. rewrite Forall_forall in Hl, Hr. unfold seg_sep.
      intros x y Hx Hy. specialize (Hl x Hx). specialize (Hr y Hy). lia.
    + split_and!; auto; [split; simpl; lia|]. eapply Forall_impl; [apply Hl|]. simpl. lia.
    + split_and!; auto; [split; simpl; lia|]. eapply Forall_impl; [apply Hr|]. simpl. lia.
    + split_and!; auto; [|split; simpl; lia|].
      * apply (segs_ok_mid []). split; [split; constructor|]. split; [done|].
        split; [split; simpl; lia|]. by split; [constructor|].
      * constructor; [simpl; lia|]. eapply Forall_impl; [apply Hr|]. simpl. lia.
  - unfold mid, cut_mid. rewrite !total_app. simpl.
    destruct (Z.eqb_spec (rs_start rs) start), (Z.eqb_spec (rs_end rs) (start + size)); simpl; lia.
  - intros z. unfold mid, cut_mid. rewrite !covers_app, covers_cons.
    assert (Hz : covers l1 z \/ covers l2 z -> ~ rs_start rs <= z < rs_end rs).
    { rewrite !covers_elem. rewrite Forall_forall in Hl, Hr.
      intros [(x & Hx & ?)|(x & Hx & ?)]; [specialize (Hl x Hx)|specialize (Hr x Hx)]; lia. }
    destruct (Z.eqb_spec (rs_start rs) start), (Z.eqb_spec (rs_end rs) (start + size));
      simpl; rewrite ?covers_cons, ?covers_nil; revert Hz; cover_solve.
Qed.

(** A segment cut at one end stays one segment. *)
Lemma write_one root ops (arg : St) hist l1 rs l2 rs1 :
  avl_wf root -> avl_elements root = l1 ++ rs :: l2 -> NoDup (l1 ++ rs :: l2) ->
  segs_ok (l1 ++ rs1 :: l2) -> idx_inv R ops arg hist (l1 ++ l2) ->
  exists root' arg' hist' ors l', (root ← avl_write root rs rs1; Ok (root, arg, hist, Some rs1)) =
      Ok (root', arg', hist', ors) /\
    avl_wf root' /\ avl_elements root' = l1 ++ rs1 :: l2 /\
    idx_inv R ops arg' hist' l' /\ option_list ors ++ l' ≡ₚ l1 ++ rs1 :: l2 /\
    Forall (fun x => seg_ok x /\ x ∉ l') (option_list ors).
Proof.
  intros Hwf He Hnd Hs Hi. pose proof (segs_ok_NoDup _ Hs) as Hnd'. destruct Hs as [Hok _].
  destruct (avl_write_split root l1 rs l2 rs1 Hwf) as (root1 & -> & Hwf1 & He1);
    [by rewrite He|done|]. simpl.
  eexists root1, arg, hist, (Some rs1), _. split_and!; eauto; simpl.
  - by rewrite <- Permutation_middle.
  - rewrite Forall_singleton. rewrite <- Permutation_middle in Hnd', Hok.
    apply NoDup_cons in Hnd' as [? ?]. apply Forall_cons in Hok as [? ?]. done.
Qed.

Lemma remove_cut_ok root ops arg hist l1 rs l2 start end_ (left_over right_over : bool) :
  let mid := cut_mid rs start end_ left_over right_over in
  avl_wf root -> avl_elements root = l1 ++ rs :: l2 -> NoDup (l1 ++ rs :: l2) ->
  segs_ok (l1 ++ mid ++ l2) -> rs_start rs <= start < end_ -> end_ <= rs_end rs ->
  idx_inv R ops arg hist (l1 ++ l2) ->
  exists root' arg' hist' ors l', remove_cut root ops arg hist rs start end_ left_over right_over =
      Ok (root', arg', hist', ors) /\
    avl_wf root' /\ avl_elements root' = l1 ++ mid ++ l2 /\
    idx_inv R ops arg' hist' l' /\ option_list ors ++ l' ≡ₚ l1 ++ mid ++ l2 /\
    Forall (fun x => seg_ok x /\ x ∉ l') (option_list ors).
Proof.
  intros mid Hwf He Hnd Hs Hle1 Hle2 Hi. unfold remove_cut. pose proof (total_u64 _ Hs) as Hlen.
  pose proof (segs_ok_NoDup _ Hs) as Hnd'. pose proof Hs as [Hok _].
  destruct left_over, right_over; simpl in *.
  - set (rs1 := RangeSeg (rs_start rs) start) in *. set (rs2 := RangeSeg end_ (rs_end rs)) in *.
    assert (Hn : NoDup (rs1 :: rs2 :: l1 ++ l2)).
    { by rewrite <- !Permutation_middle in Hnd'. }
    apply NoDup_cons in Hn as [Hn1 Hn2]. apply NoDup_cons in Hn2 as [Hn2 Hn3].
    rewrite !Forall_app, !Forall_cons in Hok. destruct Hok as (? & ? & ? & ?).
    destruct (idx_add ops arg hist (l1 ++ l2) rs2 Hi) as (arg' & hist' & E1 & -> & Hi'); auto.
    { rewrite !length_app in *. simpl in *. rewrite length_app. lia. }
    simpl. destruct (avl_write_split root l1 rs l2 rs1 Hwf) as (root1 & -> & Hwf1 & He1);
      [by rewrite He|done|]. simpl.
    destruct (avl_insert_here_split root1 l1 rs1 l2 rs2 DRight Hwf1) as (root2 & -> & Hwf2 & He2);
      [|done|].
    { rewrite He1, <- Permutation_middle. constructor; [|done]. set_solver. }
    simpl. rewrite E1. simpl. eexists root2, arg', hist', (Some rs1), _.
    split_and!; eauto; simpl.
    + by rewrite <- !Permutation_middle.
    + rewrite Forall_singleton. split; [done|]. set_solver.
  - apply write_one; auto.
  - apply write_one; auto.
  - destruct (avl_remove_split root l1 rs l2 Hwf) as (root1 & -> & Hwf1 & He1);
      [by rewrite He|done|]. simpl.
    by eexists root1, arg, hist, None, _; split_and!; eauto.
Qed.

(** The common end of [range_tree_remove]: index what is left of the segment. *)
Lemma remove_finish root ops (arg : St) hist ors l' sp :
  avl_wf root -> segs_ok (avl_elements root) -> idx_inv R ops arg hist l' ->
  option_list ors ++ l' ≡ₚ avl_elements root ->
  Forall (fun x => seg_ok x /\ x ∉ l') (option_list ors) -> total (avl_elements root) = sp ->
  exists rt', ('(arg, hist) ← match ors with
        | Some rs' => hist ← range_tree_stat_incr hist rs'; arg ← call_add ops rs' arg; Ok (arg, hist)
        | None => Ok (arg, hist)
        end;
      Ok (RangeTree root (wrap64 sp) ops arg hist)) = Ok rt' /\ rt_inv R rt' /\
    rt_ops rt' = ops /\ rt_space rt' = sp /\ rt_segs rt' = avl_elements root.
Proof.
  intros Hwf Hs Hi Hp Hors Ht. pose proof (total_u64 _ Hs) as Hlen.
  assert (Hw : wrap64 sp = sp) by (apply wrap64_small; unfold is_u64; lia). rewrite Hw.
  destruct ors as [rs|]; simpl in *.
  - rewrite Forall_singleton in Hors. destruct Hors as [Hok Hni].
    destruct (idx_add ops arg hist l' rs Hi Hok Hni) as (arg' & hist' & E & -> & Hi').
    { rewrite Hp. lia. }
    simpl. rewrite E. simpl. eexists. split; [done|]. split; [|by split_and!].
    apply (rt_inv_intro _ _ _ _ _ (rs :: l')); [done|by symmetry|done| |done].
    rewrite <- Ht. by apply total_perm.
  - eexists. split; [done|]. split; [|by split_and!].
    apply (rt_inv_intro _ _ _ _ _ l'); [done|by symmetry|done| |done].
    rewrite <- Ht. by apply total_perm.
Qed.

(** Removing a range that lies in a segment cuts it out of that segment. *)
Lemma range_tree_remove_cut rt start size l1 rs l2 :
  rt_inv R rt -> range_ok start size -> rt_segs rt = l1 ++ rs :: l2 ->
  rs_start rs <= start -> start + size <= rs_end rs ->
  exists rt', range_tree_remove zfs_recover rt start size = Ok rt' /\ rt_inv R rt' /\
    rt_ops rt' = rt_ops rt /\ rt_space rt' = rt_space rt - size /\
    rt_segs rt' = l1 ++ cut_mid rs start (start + size) (negb (rs_start rs =? start))
      (negb (rs_end rs =? start + size)) ++ l2.
Proof.
  intros Hinv Hr He Hc1 Hc2. pose proof Hr as (Hr1 & Hr2 & Hr3).
  pose proof Hinv as (Hwf & Hs & Hsp & Hh & Ho).
  pose proof (idx_of_segs _ _ _ Ho Hs) as Hidx. rewrite <- Hh in Hidx.
  destruct (range_find_meets rt start size start Hinv Hr) as (rs' & E & Hin & H2 & H3);
    [lia|rewrite He, covers_app, covers_cons; lia|].
  assert (rs' = rs) as ->.
  { destruct (segs_apart _ rs' rs Hs Hin) as [?|[?|?]]; auto; unfold seg_sep in *; [|lia..].
    rewrite He. set_solver. }
  rewrite He in Hs, Hsp, Hidx.
  destruct (cut_segs l1 rs l2 start size _ _ Hr Hs Hc1 Hc2 eq_refl eq_refl) as (Hs' & Ht & _).
  assert (Hsz : size <= rt_space rt) by (pose proof (total_u64 _ Hs'); lia).
  unfold range_tree_remove. rewrite (proj2 (Z.eqb_neq size 0)), (proj2 (Z.leb_le size _)) by lia.
  simpl. rewrite (range_ok_end _ _ Hr), E, (proj2 (Z.leb_le _ start)), (proj2 (Z.leb_le (start + size) _)) by lia.
  destruct (idx_remove _ _ _ _ rs (l1 ++ l2) Hidx) as (arg1 & hist1 & E1 & -> & Hi1);
    [by rewrite Permutation_middle|]. simpl. rewrite E1. simpl.
  destruct (remove_cut_ok (rt_root rt) (rt_ops rt) arg1 hist1 l1 rs l2 start (start + size) _ _
    Hwf He (segs_ok_NoDup _ Hs) Hs' ltac:(lia) Hc2 Hi1)
    as (root' & arg' & hist' & ors & l' & -> & Hwf' & He' & Hi' & Hp & Hors). simpl.
  rewrite <- He' in Hs', Ht, Hp.
  destruct (remove_finish root' (rt_ops rt) arg' hist' ors l' (rt_space rt - size))
    as (rt' & -> & Hinv' & Ho' & Hsp' & Hsegs); auto; [lia|].
  exists rt'. split_and!; auto. by rewrite Hsegs.
Qed.

(** Removing a range that is in the tree. *)
Lemma range_tree_remove_contained rt start size :
  rt_inv R rt -> range_ok start size ->
  (forall z, start <= z < start + size -> covers (rt_segs rt) z) ->
  exists rt', range_tree_remove zfs_recover rt start size = Ok rt' /\ rt_inv R rt' /\
    rt_ops rt' = rt_ops rt /\ rt_space rt' = rt_space rt - size /\
    (forall z, covers (rt_segs rt') z <-> covers (rt_segs rt) z /\ ~ start <= z < start + size).
Proof.
  intros Hinv Hr Hc. pose proof Hr as (Hr1 & Hr2 & Hr3). pose proof Hinv as (_ & Hs & _).
  destruct (range_find_meets rt start size start Hinv Hr) as (rs & E & Hin & H2 & H3);
    [lia|apply Hc; lia|].
  destruct (covered_contained _ rs start size Hs Hr Hin H2 H3 Hc) as [Hc1 Hc2].
  apply list_elem_of_split in Hin as (l1 & l2 & He). rewrite He in Hs.
  destruct (range_tree_remove_cut rt start size l1 rs l2) as (rt' & Hrm & Hinv' & Ho' & Hsp' & Hsegs); auto.
  exists rt'. split_and!; auto. intros z. rewrite Hsegs, He.
  by apply (cut_segs l1 rs l2 start size _ _ Hr Hs Hc1 Hc2 eq_refl eq_refl).
Qed.

(** Removing a range that meets no segment: a warning or a panic. *)
Lemma range_tree_remove_disjoint rt start size :
  rt_inv R rt -> range_ok start size -> size <= rt_space rt ->
  (forall z, start <= z < start + size -> ~ covers (rt_segs rt) z) ->
  range_tree_remove zfs_recover rt start size = zfs_panic_recover zfs_recover rt.
Proof.
  intros Hinv Hr Hsz Hd. pose proof (range_find rt start size Hinv Hr) as Hf.
  pose proof Hr as (Hr1 & Hr2 & Hr3). pose proof Hinv as (_ & Hs & _).
  unfold range_tree_remove. rewrite (proj2 (Z.eqb_neq size 0)), (proj2 (Z.leb_le size _)) by lia.
  simpl. destruct (avl_find _ _) as [rs|w]; [|done].
  destruct Hf as (Hin & H1 & H2).
  destruct (found_meets _ _ start size Hs Hin) as (z & Hz & _ & Hc); auto. by destruct (Hd z).
Qed.

(** Removing more than the tree holds, or a range partly in it: a panic. *)
Lemma range_tree_remove_partial rt start size z z' :
  rt_inv R rt -> range_ok start size -> start <= z < start + size -> start <= z' < start + size ->
  covers (rt_segs rt) z -> ~ covers (rt_segs rt) z' ->
  range_tree_remove zfs_recover rt start size = Panic.
Proof.
  intros Hinv Hr Hz Hz' Hc Hn. pose proof Hr as (Hr1 & Hr2 & Hr3).
  destruct (range_find_meets rt start size z Hinv Hr Hz Hc) as (rs & E & Hin & H2 & H3).
  unfold range_tree_remove. rewrite (proj2 (Z.eqb_neq size 0)) by lia. simpl.
  rewrite (range_ok_end _ _ Hr), E. destruct (Z.leb_spec size (rt_space rt)); [|done].
  destruct (Z.leb_spec (rs_start rs) start), (Z.leb_spec (start + size) (rs_end rs)); try done.
  destruct Hn. apply covers_elem. exists rs. split; [done|lia].
Qed.

(** ** Clearing a range *)

(** The segment overlaps the range [[start, end_)]. *)
Definition meets (start end_ : Z) (rs : range_seg) : Prop := rs_start rs < end_ /\ start < rs_end rs.

#[export] Instance meets_dec start end_ rs : Decision (meets start end_ rs).
Proof. unfold meets. apply _. Defined.

Lemma cut_mid_apart rs start end_ :
  let s := Z.max (rs_start rs) start in
  let e := Z.min (rs_end rs) end_ in
  filter (meets start end_) (cut_mid rs s e (negb (rs_start rs =? s)) (negb (rs_end rs =? e))) = [].
Proof.
  simpl. apply filter_false. unfold cut_mid, meets. rewrite Forall_app.
  destruct (Z.eqb_spec (rs_start rs) (Z.max (rs_start rs) start)),
    (Z.eqb_spec (rs_end rs) (Z.min (rs_end rs) end_)); simpl;
    rewrite ?Forall_nil, ?Forall_singleton; simpl; lia.
Qed.

(** As many iterations as segments meet the range remove them all. *)
Lemma clear_loop_spec fuel rt start size :
  rt_inv R rt -> range_ok start size ->
  (length (filter (meets start (start + size)) (rt_segs rt)) < fuel)%nat ->
  exists rt', clear_loop zfs_recover fuel rt start size = Ok rt' /\ rt_inv R rt' /\
    rt_ops rt' = rt_ops rt /\
    (forall z, covers (rt_segs rt') z <-> covers (rt_segs rt) z /\ ~ start <= z < start + size).
Proof.
  revert rt. induction fuel as [|fuel IH]; intros rt Hinv Hr Hlen; [lia|].
  pose proof Hr as (Hr1 & Hr2 & Hr3). pose proof (range_find rt start size Hinv Hr) as Hf.
  simpl. unfold range_tree_find_impl. rewrite (proj2 (Z.eqb_neq size 0)) by lia. simpl.
  rewrite (range_ok_end _ _ Hr) in Hf |- *. destruct (avl_find _ _) as [rs|w]; simpl.
  - destruct Hf as (Hin & H1 & H2). pose proof Hinv as (_ & Hs & _).
    pose proof Hs as [Hok _]. rewrite Forall_forall in Hok. destruct (Hok rs Hin) as [Hrs1 Hrs2].
    apply list_elem_of_split in Hin as (l1 & l2 & He).
    set (s := Z.max (rs_start rs) start) in *. set (e := Z.min (rs_end rs) (start + size)) in *.
    assert (Hr' : range_ok s (e - s)) by (unfold range_ok; lia).
    rewrite (wrap64_small (e - s)) by (unfold is_u64; lia).
    destruct (range_tree_remove_cut rt s (e - s) l1 rs l2) as (rt' & -> & Hinv' & Ho' & _ & Hsegs);
      auto; try lia. simpl. rewrite Zplus_minus in Hsegs.
    destruct (IH rt' Hinv' Hr) as (rt'' & -> & Hinv'' & Ho'' & Hc).
    { rewrite He, filter_app, filter_cons_True, length_app in Hlen by done. simpl in Hlen.
      rewrite Hsegs, !filter_app. unfold s, e. rewrite cut_mid_apart, !length_app. simpl. lia. }
    exists rt''. split_and!; auto; [congruence|]. intros z. rewrite Hc, Hsegs, He.
    rewrite He in Hs.
    destruct (cut_segs l1 rs l2 s (e - s) _ _ Hr' Hs ltac:(lia) ltac:(lia) eq_refl eq_refl)
      as (_ & _ & Hcut). rewrite Zplus_minus in Hcut. rewrite Hcut. intuition lia.
  - exists rt. split_and!; auto. intros z. split; [|tauto]. intros Hz. split; [done|].
    destruct Hf as (_ & He & Hl & Hrr). rewrite He, covers_app, !covers_elem in Hz.
    rewrite Forall_forall in Hl, Hrr.
    destruct Hz as [(x & Hx & ?)|(x & Hx & ?)]; [specialize (Hl x Hx)|specialize (Hrr x Hx)]; lia.
Qed.

(** ** Searching *)

(** [range_tree_find] returns the segment that contains the whole range. *)
Lemma range_tree_find_spec rt start size :
  rt_inv R rt -> range_ok start size ->
  exists ors, range_tree_find rt start size = Ok ors /\
    (forall rs, ors = Some rs -> rs ∈ rt_segs rt /\ rs_start rs <= start /\ start + size <= rs_end rs) /\
    ((exists rs, ors = Some rs) <-> forall z, start <= z < start + size -> covers (rt_segs rt) z).
Proof.
  intros Hinv Hr. pose proof Hr as (Hr1 & Hr2 & Hr3). pose proof Hinv as (_ & Hs & _).
  pose proof (range_find rt start size Hinv Hr) as Hf.
  unfold range_tree_find, range_tree_find_impl. rewrite (proj2 (Z.eqb_neq size 0)) by lia. simpl.
  rewrite (range_ok_end _ _ Hr) in Hf |- *. destruct (avl_find _ _) as [rs|w] eqn:E; simpl.
  - destruct Hf as (Hin & H1 & H2). eexists. split; [done|].
    destruct ((rs_start rs <=? start) && (start + size <=? rs_end rs)) eqn:Eb; split.
    + intros ? [= <-]. bool_hyps. split_and!; auto; lia.
    + bool_hyps. split; [|by eauto]. intros _ z Hz. apply covers_elem. exists rs. split; [done|lia].
    + done.
    + split; [by intros [? ?]|]. intros Hc.
      destruct (covered_contained _ rs start size Hs Hr Hin H1 H2 Hc).
      apply andb_false_iff in Eb as [?%Z.leb_gt|?%Z.leb_gt]; lia.
  - eexists. split; [done|]. split; [done|]. split; [by intros [? ?]|]. intros Hc.
    destruct (range_find_meets rt start size start Hinv Hr) as (rs & E' & _); [lia|apply Hc; lia|].
    congruence.
Qed.

(** ** Emptying a tree, and pouring it into another *)

Lemma hist_of_nil : replicate RANGE_TREE_HISTOGRAM_SIZE 0 = hist_of [].
Proof. done. Qed.

Lemma range_tree_create_inv ops arg :
  match ops with Some o => RtOpsSpec o R /\ R [] (rtop_create o arg) | None => True end ->
  rt_inv R (range_tree_create ops arg).
Proof.
  intros Ho. split_and!; try done; [split; constructor|].
  by destruct ops.
Qed.

Lemma range_tree_vacate_spec {T} rt (func : option (T -> Z -> Z -> res T)) arg :
  rt_inv R rt ->
  exists segs rt', segs ≡ₚ rt_segs rt /\ rt_inv R rt' /\ rt_segs rt' = [] /\ rt_ops rt' = rt_ops rt /\
    range_tree_vacate rt func arg =
      (arg' ← match func with Some f => call_each f segs arg | None => Ok arg end; Ok (rt', arg')).
Proof.
  intros (Hwf & Hs & Hsp & Hh & Ho). unfold range_tree_vacate.
  assert (Hl : length (postorder (avl_root (rt_root rt))) = length (rt_segs rt)).
  { by rewrite (postorder_Permutation (avl_root (rt_root rt))). }
  rewrite avl_destroy_loop_spec; [|simpl; rewrite Hl; unfold rt_segs, avl_elements; lia|done]. simpl.
  eexists _, (RangeTree (AvlTree Leaf 0) 0 (rt_ops rt) _ _).
  split; [apply postorder_Permutation|]. split; [|split; [done|]; split; done].
  split_and!; try done; [split; constructor|]. simpl. unfold ops_inv in *.
  destruct (rt_ops rt) as [o|]; [|done]. destruct Ho as [Hspec Hr]. split; [done|].
  by eapply rtops_vacate.
Qed.

(** The calls [range_tree_add] on disjoint segments, in any order. *)
Lemma call_each_add dst (l : list range_seg) :
  rt_inv R dst -> NoDup l -> Forall seg_ok l ->
  (forall x y, x ∈ l -> y ∈ l -> x = y \/ seg_sep x y \/ seg_sep y x) ->
  (forall z, covers l z -> ~ covers (rt_segs dst) z) ->
  exists dst', call_each (range_tree_add zfs_recover) l dst = Ok dst' /\ rt_inv R dst' /\
    rt_ops dst' = rt_ops dst /\ rt_space dst' = rt_space dst + total l /\
    (forall z, covers (rt_segs dst') z <-> covers (rt_segs dst) z \/ covers l z).
Proof.
  revert dst. induction l as [|rs l IH]; intros dst Hinv Hnd Hok Hap Hd; simpl.
  { exists dst. split_and!; auto; [lia|]. intros z. rewrite covers_nil. tauto. }
  apply NoDup_cons in Hnd as [Hni Hnd]. apply Forall_cons in Hok as [Hrs Hok].
  rewrite (rs_size_ok _ Hrs). pose proof Hrs as [Hrs1 Hrs2].
  destruct (range_tree_add_disjoint dst (rs_start rs) (rs_end rs - rs_start rs))
    as (dst1 & -> & Hinv1 & Ho1 & Hsp1 & Hc1); auto.
  { unfold range_ok. lia. }
  { intros z Hz. apply Hd. apply covers_cons. lia. }
  rewrite Zplus_minus in Hc1. simpl.
  destruct (IH dst1) as (dst' & -> & Hinv' & Ho' & Hsp' & Hc'); auto.
  { intros x y Hx Hy. apply Hap; set_solver. }
  { intros z Hz. rewrite Hc1. intros [Hz'|Hz'].
    - apply (Hd z); [apply covers_cons; tauto|done].
    - apply covers_elem in Hz as (x & Hx & ?). destruct (Hap rs x) as [->|[?|?]]; [set_solver..|done| |];
        unfold seg_sep in *; lia. }
  exists dst'. split_and!; auto; [congruence|lia|]. intros z. rewrite Hc', Hc1, covers_cons. tauto.
Qed.

(** Pouring a tree into another one that holds none of its offsets. *)
Lemma range_tree_vacate_into rt dst :
  rt_inv R rt -> rt_inv R dst -> (forall z, covers (rt_segs rt) z -> ~ covers (rt_segs dst) z) ->
  exists rt' dst', range_tree_vacate rt (Some (range_tree_add zfs_recover)) dst = Ok (rt', dst') /\
    rt_inv R rt' /\ rt_segs rt' = [] /\ rt_ops rt' = rt_ops rt /\ rt_inv R dst' /\ rt_ops dst' = rt_ops dst /\
    rt_space dst' = rt_space dst + rt_space rt /\
    (forall z, covers (rt_segs dst') z <-> covers (rt_segs dst) z \/ covers (rt_segs rt) z).
Proof.
  intros Hinv Hdst Hd.
  destruct (range_tree_vacate_spec rt (Some (range_tree_add zfs_recover)) dst Hinv)
    as (segs & rt' & Hp & Hinv' & He & Ho & ->).
  pose proof Hinv as (_ & Hs & Hsp & _).
  destruct (call_each_add dst segs) as (dst' & -> & Hdst' & Ho' & Hsp' & Hc); auto.
  - rewrite Hp. by apply segs_ok_NoDup.
  - rewrite Hp. by destruct Hs.
  - intros x y. rewrite Hp. by apply segs_apart.
  - intros z. rewrite (covers_perm _ _ _ Hp). apply Hd.
  - exists rt', dst'. split_and!; auto.
    + by rewrite Hsp', Hsp, (total_perm _ _ Hp).
    + intros z. by rewrite Hc, (covers_perm _ _ _ Hp).
Qed.

(** ** The histogram recounted *)

Lemma stat_recount_spec (segs l : list range_seg) :
  Forall seg_ok segs -> Z.of_nat (length (segs ++ l)) < B64 ->
  stat_recount segs (hist_of l) = Ok (hist_of (segs ++ l)).
Proof.
  revert l. induction segs as [|rs segs IH]; intros l Hok Hlen; [done|].
  apply Forall_cons in Hok as [Hrs Hok]. simpl in *.
  pose proof (stat_incr_ok rs l Hrs) as H. unfold range_tree_stat_incr in H. rewrite H.
  - simpl. rewrite IH; auto.
    + f_equal. apply hist_of_perm. by rewrite <- Permutation_middle.
    + rewrite length_app in *. simpl. lia.
  - rewrite length_app in Hlen. simpl. lia.
Qed.

Lemma range_tree_segs_ok rt : rt_inv R rt -> range_tree_segs rt = rt_segs rt.
Proof. intros (_ & Hs & _). by apply avl_iterate_elements; [apply segs_ok_NoDup|]. Qed.

End Specs.

(** ** Canonical form *)

Lemma covers_from a l z : segs_ok (a :: l) -> covers (a :: l) z -> rs_start a <= z.
Proof.
  intros (_ & _ & [? ?] & _ & Hr)%(segs_ok_mid []). rewrite covers_cons, covers_elem.
  rewrite Forall_forall in Hr. intros [?|(x & Hx & ?)]; [lia|]. specialize (Hr x Hx). lia.
Qed.

Lemma covers_gap a l : segs_ok (a :: l) -> ~ covers (a :: l) (rs_end a).
Proof.
  intros (_ & _ & _ & _ & Hr)%(segs_ok_mid []). rewrite covers_cons, covers_elem.
  rewrite Forall_forall in Hr. intros [?|(x & Hx & ?)]; [lia|]. specialize (Hr x Hx). lia.
Qed.

Lemma covers_tail a l z : segs_ok (a :: l) -> covers l z <-> covers (a :: l) z /\ rs_end a <= z.
Proof.
  intros (_ & _ & [? ?] & _ & Hr)%(segs_ok_mid []). rewrite covers_cons, covers_elem.
  rewrite Forall_forall in Hr. split; [|intros [[?|?] ?]; [lia|done]].
  intros (x & Hx & ?). split; [eauto|]. specialize (Hr x Hx). lia.
Qed.

(** The calls [range_tree_remove] on the segments of a list the tree covers. *)
Lemma call_each_remove {St} {R : list range_seg -> St -> Prop} zfs_recover dst l :
  rt_inv R dst -> segs_ok l -> (forall z, covers l z -> covers (rt_segs dst) z) ->
  exists dst', call_each (range_tree_remove zfs_recover) l dst = Ok dst' /\ rt_inv R dst' /\
    rt_ops dst' = rt_ops dst /\ rt_space dst' = rt_space dst - total l /\
    (forall z, covers (rt_segs dst') z <-> covers (rt_segs dst) z /\ ~ covers l z).
Proof.
  revert dst. induction l as [|rs l IH]; intros dst Hinv Hs Hc; simpl.
  { exists dst. split_and!; auto; [lia|]. intros z. rewrite covers_nil. tauto. }
  pose proof Hs as (_ & Hs' & [H1 H2] & _)%(segs_ok_mid []).
  rewrite (rs_size_ok rs) by (by split).
  destruct (range_tree_remove_contained (R := R) zfs_recover dst (rs_start rs) (rs_end rs - rs_start rs))
    as (dst1 & -> & Hinv1 & Ho1 & Hsp1 & Hc1); auto.
  { unfold range_ok. lia. }
  { intros z Hz. apply Hc, covers_cons. lia. }
  rewrite Zplus_minus in Hc1. simpl.
  destruct (IH dst1) as (dst' & -> & Hinv' & Ho' & Hsp' & Hc'); auto.
  { intros z Hz. apply Hc1. split; [by apply Hc, covers_cons; right|].
    apply (covers_tail rs l z Hs) in Hz as [_ Hz]. lia. }
  exists dst'. split_and!; auto; [congruence|lia|]. intros z. rewrite Hc', Hc1, covers_cons. tauto.
Qed.

(** Segments inside [[lo, hi)] take no more space than it has. *)
Lemma total_within lo hi l :
  segs_ok l -> lo <= hi -> (forall z, covers l z -> lo <= z < hi) -> total l <= hi - lo.
Proof.
  revert lo. induction l as [|rs l IH]; intros lo Hs Hle Hc; simpl; [lia|].
  pose proof Hs as (_ & Hs' & [H1 H2] & _ & Hr)%(segs_ok_mid []).
  assert (lo <= rs_start rs < hi) by (apply Hc, covers_cons; lia).
  assert (lo <= rs_end rs - 1 < hi) by (apply Hc, covers_cons; lia).
  assert (total l <= hi - rs_end rs); [|lia]. apply IH; [done|lia|].
  intros z Hz. split; [|by apply Hc, covers_cons; right].
  apply (covers_tail rs l z Hs) in Hz as [_ ?]. lia.
Qed.

Lemma covers_head_le a l b l' :
  segs_ok (a :: l) -> segs_ok (b :: l') -> (forall z, covers (a :: l) z <-> covers (b :: l') z) ->
  rs_start b <= rs_start a /\ (rs_start a = rs_start b -> rs_end b <= rs_end a).
Proof.
  intros Ha Hb Hc. pose proof Ha as (_ & _ & [? ?] & _)%(segs_ok_mid []). split.
  - apply (covers_from b l'); [done|]. apply Hc, covers_cons. lia.
  - intros E. apply Z.nlt_ge. intros Hlt. apply (covers_gap a l Ha). apply Hc, covers_cons. lia.
Qed.

Lemma segs_ok_canonical l l' :
  segs_ok l -> segs_ok l' -> (forall z, covers l z <-> covers l' z) -> l = l'.
Proof.
  revert l'. induction l as [|a l IH]; intros [|b l'] Hs Hs' Hc; [done| | |].
  - pose proof Hs' as (_ & _ & [? ?] & _)%(segs_ok_mid []).
    exfalso. apply (covers_nil (rs_start b)), Hc, covers_cons. lia.
  - pose proof Hs as (_ & _ & [? ?] & _)%(segs_ok_mid []).
    exfalso. apply (covers_nil (rs_start a)), Hc, covers_cons. lia.
  - destruct (covers_head_le a l b l') as [H1 H2]; auto.
    destruct (covers_head_le b l' a l) as [H3 H4]; [done..|by intros z; rewrite Hc|].
    assert (a = b) as ->. { destruct a, b; simpl in *. f_equal; lia. }
    f_equal. apply IH.
    + by apply (segs_ok_mid []) in Hs as (_ & ? & _).
    + by apply (segs_ok_mid []) in Hs' as (_ & ? & _).
    + intros z. by rewrite (covers_tail b l z), (covers_tail b l' z), Hc.
Qed.

(** ** What the component promises *)

Section Correct.
Context {St : Type} (R : list range_seg -> St -> Prop) (zfs_recover : bool).
Implicit Types rt : range_tree St.

(** C21: [range_tree_add] on every branch.  A range that meets no segment is
    added: the tree keeps its invariant, stands for the union and accounts for
    the new space.  A range the tree already has is a recoverable panic that
    leaves the tree alone, and a range partly in the tree is a panic. *)
Theorem range_tree_add_correct rt start size :
  rt_inv R rt -> range_ok start size ->
  ((forall z, start <= z < start + size -> ~ covers (rt_segs rt) z) ->
    exists rt', range_tree_add zfs_recover rt start size = Ok rt' /\ rt_inv R rt' /\
      rt_ops rt' = rt_ops rt /\ rt_space rt' = rt_space rt + size /\
      (forall z, covers (rt_segs rt') z <-> covers (rt_segs rt) z \/ start <= z < start + size)) /\
  ((forall z, start <= z < start + size -> covers (rt_segs rt) z) ->
    range_tree_add zfs_recover rt start size = zfs_panic_recover zfs_recover rt) /\
  ((exists z z', start <= z < start + size /\ start <= z' < start + size /\
      covers (rt_segs rt) z /\ ~ covers (rt_segs rt) z') ->
    range_tree_add zfs_recover rt start size = Panic).
Proof.
  intros Hinv Hr. split_and!.
  - by apply range_tree_add_disjoint.
  - by apply (@range_tree_add_contained St R).
  - intros (z & z' & Hz & Hz' & Hc & Hn). by eapply (@range_tree_add_partial St R _ _ _ _ z z').
Qed.

(** C22: [range_tree_remove] on every branch: a range of the tree is cut out of
    it, a range that meets no segment is a recoverable panic, and a range partly
    in the tree or larger than its space is a panic. *)
Theorem range_tree_remove_correct rt start size :
  rt_inv R rt -> range_ok start size ->
  ((forall z, start <= z < start + size -> covers (rt_segs rt) z) ->
    exists rt', range_tree_remove zfs_recover rt start size = Ok rt' /\ rt_inv R rt' /\
      rt_ops rt' = rt_ops rt /\ rt_space rt' = rt_space rt - size /\
      (forall z, covers (rt_segs rt') z <-> covers (rt_segs rt) z /\ ~ start <= z < start + size)) /\
  (size <= rt_space rt -> (forall z, start <= z < start + size -> ~ covers (rt_segs rt) z) ->
    range_tree_remove zfs_recover rt start size = zfs_panic_recover zfs_recover rt) /\
  (rt_space rt < size \/ (exists z z', start <= z < start + size /\ start <= z' < start + size /\
      covers (rt_segs rt) z /\ ~ covers (rt_segs rt) z') ->
    range_tree_remove zfs_recover rt start size = Panic).
Proof.
  intros Hinv Hr. split_and!.
  - by apply range_tree_remove_contained.
  - by apply (@range_tree_remove_disjoint St R).
  - intros [Hlt|(z & z' & Hz & Hz' & Hc & Hn)].
    + unfold range_tree_remove. destruct Hr as (? & ? & ?).
      by rewrite (proj2 (Z.eqb_neq size 0)), (proj2 (Z.leb_gt size _)) by lia.
    + by eapply (@range_tree_remove_partial St R _ _ _ _ z z').
Qed.

(** [range_tree_clear] terminates without a panic, whatever part of the
    range the tree holds, and removes exactly the range. *)
Theorem range_tree_clear_correct rt start size :
  rt_inv R rt -> range_ok start size ->
  exists rt', range_tree_clear zfs_recover rt start size = Ok rt' /\ rt_inv R rt' /\
    rt_ops rt' = rt_ops rt /\
    (forall z, covers (rt_segs rt') z <-> covers (rt_segs rt) z /\ ~ start <= z < start + size).
Proof.
  intros Hinv Hr. apply clear_loop_spec; auto. pose proof (length_filter (meets start (start + size)) (rt_segs rt)).
  unfold rt_segs in *. lia.
Qed.

(** [range_tree_contains] decides whether the whole range is in the tree,
    and [range_tree_verify] panics exactly when it is. *)
Theorem range_tree_contains_correct rt start size :
  rt_inv R rt -> range_ok start size ->
  exists b, range_tree_contains rt start size = Ok b /\
    range_tree_verify rt start size = (if b then Panic else Ok tt) /\
    (b = true <-> forall z, start <= z < start + size -> covers (rt_segs rt) z).
Proof.
  intros Hinv Hr. destruct (range_tree_find_spec rt start size Hinv Hr) as (ors & E & _ & Hc).
  unfold range_tree_contains, range_tree_verify. rewrite E. simpl. eexists. split; [done|].
  rewrite <- Hc. destruct ors; naive_solver.
Qed.

(** The segments of a tree are determined by the set of offsets it stands
    for: two trees with the same offsets have the same segments, the same space
    and the same histogram, whatever operations built them. *)
Theorem range_tree_canonical rt1 rt2 :
  rt_inv R rt1 -> rt_inv R rt2 ->
  (forall z, covers (rt_segs rt1) z <-> covers (rt_segs rt2) z) ->
  rt_segs rt1 = rt_segs rt2 /\ rt_space rt1 = rt_space rt2 /\ rt_histogram rt1 = rt_histogram rt2.
Proof.
  intros (_ & Hs1 & -> & -> & _) (_ & Hs2 & -> & -> & _) Hc.
  by rewrite (segs_ok_canonical _ _ Hs1 Hs2 Hc).
Qed.

(** A tree vacated into another one that holds none of its offsets is left
    empty and the other stands for the union, with the space of both. *)
Theorem range_tree_vacate_correct rt dst :
  rt_inv R rt -> rt_inv R dst -> (forall z, covers (rt_segs rt) z -> ~ covers (rt_segs dst) z) ->
  exists rt' dst', range_tree_vacate rt (Some (range_tree_add zfs_recover)) dst = Ok (rt', dst') /\
    rt_inv R rt' /\ rt_segs rt' = [] /\ rt_inv R dst' /\
    rt_space dst' = rt_space dst + rt_space rt /\
    (forall z, covers (rt_segs dst') z <-> covers (rt_segs dst) z \/ covers (rt_segs rt) z).
Proof.
  intros Hinv Hdst Hd.
  destruct (range_tree_vacate_into (R := R) zfs_recover rt dst Hinv Hdst Hd)
    as (rt' & dst' & E & H1 & H2 & _ & H3 & _ & H4 & H5).
  exists rt', dst'. auto 10.
Qed.

(** The histogram a tree maintains is the one [range_tree_stat_verify]
    recounts, and [range_tree_walk] calls its function on the segments of the
    tree in the order of their offsets. *)
Theorem range_tree_walk_correct {T} rt (func : T -> Z -> Z -> res T) arg :
  rt_inv R rt ->
  range_tree_stat_verify rt = Ok tt /\
  range_tree_walk rt func arg = call_each func (rt_segs rt) arg /\
  StronglySorted seg_sep (rt_segs rt).
Proof.
  intros Hinv. pose proof (range_tree_segs_ok _ Hinv) as E. destruct Hinv as (_ & Hs & _ & Hh & _).
  pose proof (total_u64 _ Hs). unfold range_tree_stat_verify, range_tree_walk. rewrite E. split_and!.
  - rewrite hist_of_nil, stat_recount_spec; [|by destruct Hs|rewrite app_nil_r; lia].
    simpl. rewrite app_nil_r, <- Hh. by rewrite bool_decide_true.
  - done.
  - by destruct Hs.
Qed.

(** A created tree satisfies the invariant and is empty, and a tree can be
    destroyed exactly when it is empty. *)
Theorem range_tree_create_destroy (ops : option (range_tree_ops St)) arg rt :
  match ops with Some o => RtOpsSpec o R /\ R [] (rtop_create o arg) | None => True end ->
  rt_inv R rt ->
  rt_inv R (range_tree_create ops arg) /\ rt_segs (range_tree_create ops arg) = [] /\
  ((exists s, range_tree_destroy rt = Ok s) <-> rt_segs rt = []).
Proof.
  intros Ho (_ & Hs & Hsp & _). split; [by apply range_tree_create_inv|]. split; [done|].
  pose proof (total_u64 _ Hs). unfold range_tree_destroy. rewrite Hsp.
  destruct (rt_segs rt) as [|rs l] eqn:E; simpl in *; [naive_solver|].
  rewrite (proj2 (Z.eqb_neq _ 0)) by lia. naive_solver.
Qed.

End Correct.

(** ** Witnesses: a tree without callbacks that holds [[0,10)] and [[20,30)] *)

Module Example.

Definition no_index (l : list range_seg) (s : unit) : Prop := True.

Definition rt2 : range_tree unit :=
  RangeTree (AvlTree (Node 1 Leaf (RangeSeg 0 10) (Node 0 Leaf (RangeSeg 20 30) Leaf)) 2) 20 None tt
    (<[3%nat := 2]> (replicate RANGE_TREE_HISTOGRAM_SIZE 0)).

Lemma rt2_inv : rt_inv no_index rt2.
Proof.
  split_and!; [by repeat split| |done|by vm_compute|done].
  split; [repeat constructor; simpl; lia|]. repeat constructor.
Qed.

(** The same segments in a tree of another shape. *)
Definition rt2' : range_tree unit :=
  RangeTree (AvlTree (Node (-1) (Node 0 Leaf (RangeSeg 0 10) Leaf) (RangeSeg 20 30) Leaf) 2) 20 None tt
    (<[3%nat := 2]> (replicate RANGE_TREE_HISTOGRAM_SIZE 0)).

Lemma rt2'_inv : rt_inv no_index rt2'.
Proof. destruct rt2_inv as (_ & H). split; [by repeat split|exact H]. Qed.

Lemma rt2_covers z : covers (rt_segs rt2) z <-> 0 <= z < 10 \/ 20 <= z < 30.
Proof.
  change (rt_segs rt2) with [RangeSeg 0 10; RangeSeg 20 30].
  rewrite !covers_cons, covers_nil. simpl. lia.
Qed.

Ltac rt2_solve := intros; rewrite ?rt2_covers in *; lia.

Lemma range_tree_add_correct_witness :
  exists rt', range_tree_add false rt2 10 10 = Ok rt' /\
    rt_segs rt' = [RangeSeg 0 30] /\ range_tree_add false rt2 2 3 = Panic /\
    range_tree_add true rt2 5 10 = Panic.
Proof.
  destruct (range_tree_add_correct no_index false rt2 10 10 rt2_inv ltac:(done)) as [H _].
  destruct H as (rt' & H & _ & _ & _ & _); [rt2_solve|].
  destruct (range_tree_add_correct no_index false rt2 2 3 rt2_inv ltac:(done)) as (_ & -> & _); [|rt2_solve].
  destruct (range_tree_add_correct no_index true rt2 5 10 rt2_inv ltac:(done)) as (_ & _ & ->).
  - exists rt'. split_and!; auto. vm_compute in H. by injection H as <-.
  - exists 5, 10. rt2_solve.
Defined.

Lemma range_tree_remove_correct_witness :
  exists rt', range_tree_remove false rt2 2 3 = Ok rt' /\
    rt_segs rt' = [RangeSeg 0 2; RangeSeg 5 10; RangeSeg 20 30] /\
    range_tree_remove true rt2 12 2 = Ok rt2.
Proof.
  destruct (range_tree_remove_correct no_index false rt2 2 3 rt2_inv ltac:(done)) as [H _].
  destruct H as (rt' & H & _ & _ & _ & _); [rt2_solve|].
  destruct (range_tree_remove_correct no_index true rt2 12 2 rt2_inv ltac:(done)) as (_ & -> & _);
    [|done|rt2_solve].
  exists rt'. split_and!; auto. vm_compute in H. by injection H as <-.
Defined.

Lemma range_tree_clear_correct_witness :
  exists rt', range_tree_clear false rt2 5 20 = Ok rt' /\
    rt_segs rt' = [RangeSeg 0 5; RangeSeg 25 30].
Proof.
  destruct (range_tree_clear_correct no_index false rt2 5 20 rt2_inv ltac:(done)) as (rt' & H & _).
  exists rt'. split; [done|]. vm_compute in H. by injection H as <-.
Defined.

Lemma range_tree_contains_correct_witness : range_tree_contains rt2 22 5 = Ok true.
Proof.
  destruct (range_tree_contains_correct no_index rt2 22 5 rt2_inv ltac:(done)) as (b & -> & _ & Hb).
  f_equal. apply Hb. rt2_solve.
Defined.

Lemma range_tree_canonical_witness :
  rt_segs rt2 = rt_segs rt2' /\ rt_space rt2 = rt_space rt2' /\ rt_histogram rt2 = rt_histogram rt2'.
Proof. by apply (range_tree_canonical no_index rt2 rt2' rt2_inv rt2'_inv). Defined.

Lemma range_tree_vacate_correct_witness :
  exists rt' dst',
    range_tree_vacate rt2 (Some (range_tree_add false)) (range_tree_create None tt) = Ok (rt', dst') /\
    rt_segs rt' = [] /\ rt_space dst' = 20.
Proof.
  destruct (range_tree_vacate_correct no_index false rt2 (range_tree_create None tt))
    as (rt' & dst' & H & _ & He & _ & Hsp & _).
  - apply rt2_inv.
  - by apply range_tree_create_inv.
  - intros z _ Hz. by apply covers_nil in Hz.
  - by exists rt', dst'.
Defined.

Lemma range_tree_walk_correct_witness :
  range_tree_walk rt2 (fun n _ size => Ok (n + size)) 0 = Ok 20.
Proof.
  destruct (range_tree_walk_correct no_index rt2 (fun n _ size => Ok (n + size)) 0 rt2_inv)
    as (_ & -> & _). done.
Defined.

Lemma range_tree_create_destroy_witness :
  ~ exists s, range_tree_destroy rt2 = Ok s.
Proof.
  destruct (range_tree_create_destroy no_index None tt rt2 I rt2_inv) as (_ & _ & H). by rewrite H.
Defined.

End Example.
