(* ===== verification/SpaceMap.v ===== *)
(** * Space maps: [module/zfs/space_map.c], [include/sys/space_map.h]

    A space map is a log of 64-bit entries in a DMU object: each entry records
    that a run of blocks was allocated or freed.  [space_map_write] appends the
    segments of a range tree to the log; [space_map_load] replays the log into a
    range tree.  The object layer under it is the interface [DmuOps]/[DmuSpec]. *)

From S2P Require Import Prelude Bits Avl RangeTree.

(** ** The object layer *)

Definition SPACE_MAP_SIZE_V0 : Z := 24.
Definition SPACE_MAP_HISTOGRAM_SIZE : nat := 32.
(** [sizeof (space_map_phys_t)]: eight words and the histogram. *)
Definition sizeof_space_map_phys : Z := 320.

Record space_map_phys : Type := SpaceMapPhys {
  smp_object : Z;
  smp_objsize : Z;
  smp_alloc : Z;
  smp_histogram : list Z
}.

(** What [dmu_object_info_from_db] reports of an object. *)
Record dmu_object_info : Type := DmuObjectInfo {
  doi_bonus_size : Z;
  doi_data_block_size : Z
}.

(** The calls of the object layer ([dmu.c], [dmu_object.c], [zfeature.c]) a
    space map makes, on the state [D] of an object set.  Data is read and
    written in 64-bit words; offsets and sizes are in bytes. *)
Class DmuOps (D : Type) : Type := {
  dmu_word : D -> Z -> Z -> Z;
  dmu_exists : D -> Z -> bool;
  dmu_read : D -> Z -> Z -> Z -> Z + list Z;
  dmu_write : D -> Z -> Z -> Z -> list Z -> D;
  dmu_info : D -> Z -> dmu_object_info;
  dmu_object_alloc : D -> Z -> Z -> D * Z;
  dmu_object_free : D -> Z -> Z * D;
  dmu_free_range : D -> Z -> Z * D;
  dmu_bonus_hold : D -> Z -> Z + Z * space_map_phys;
  feature_enabled : D -> bool;
  feature_active : D -> bool;
  feature_incr : D -> D;
  feature_decr : D -> D
}.

(** What space maps rely on: a successful read returns the words of the object,
    and a write changes exactly the words it covers. *)
Class DmuSpec (D : Type) `{!DmuOps D} : Prop := {
  dmu_read_spec d obj off size ws :
    (8 | off) -> (8 | size) -> 0 <= size -> dmu_read d obj off size = inr ws ->
    ws = (fun i => dmu_word d obj (off / 8 + Z.of_nat i)) <$> seq 0 (Z.to_nat (size / 8));
  dmu_write_spec d obj off ws obj' i :
    (8 | off) ->
    dmu_word (dmu_write d obj off (8 * Z.of_nat (length ws)) ws) obj' i =
    if decide (obj' = obj /\ off / 8 <= i < off / 8 + Z.of_nat (length ws))
    then nth (Z.to_nat (i - off / 8)) ws 0 else dmu_word d obj' i
}.

(** Objects other than [obj] that exist in [d] are the same in [d']. *)
Definition dmu_frame {D} `{!DmuOps D} (d d' : D) (obj : Z) : Prop :=
  forall o i, o <> obj -> dmu_exists d o = true ->
    dmu_exists d' o = true /\ dmu_word d' o i = dmu_word d o i.

(** The state of the feature [SPA_FEATURE_SPACEMAP_HISTOGRAM] is the same. *)
Definition same_feature {D} `{!DmuOps D} (d d' : D) : Prop :=
  feature_enabled d' = feature_enabled d /\ feature_active d' = feature_active d.

(** The life of objects: a new object has a number that is not 0 and not in use,
    the sizes asked for and a zeroed bonus buffer that can be held; calls on one
    object leave the others alone; an object that exists can be freed or emptied
    (its dnode is in memory while its bonus buffer is held); and an increment of
    the count of the feature makes the feature active. *)
Class DmuObjSpec (D : Type) `{!DmuOps D} : Prop := {
  dmu_write_exists d obj off size ws o :
    dmu_exists (dmu_write d obj off size ws) o = dmu_exists d o;
  dmu_write_keeps d obj off size ws o :
    same_feature d (dmu_write d obj off size ws) /\
    doi_bonus_size (dmu_info (dmu_write d obj off size ws) o) = doi_bonus_size (dmu_info d o);
  dmu_object_alloc_spec d blksz bonus d' obj :
    dmu_object_alloc d blksz bonus = (d', obj) ->
    obj <> 0 /\ dmu_exists d obj = false /\ dmu_exists d' obj = true /\ dmu_frame d d' obj /\ same_feature d d' /\
    dmu_info d' obj = DmuObjectInfo bonus blksz /\
    exists phys, dmu_bonus_hold d' obj = inr (bonus, phys) /\
      smp_objsize phys = 0 /\ smp_alloc phys = 0;
  dmu_object_free_spec d obj :
    dmu_exists d obj = true -> (dmu_object_free d obj).1 = 0 /\ dmu_frame d (dmu_object_free d obj).2 obj;
  dmu_free_range_spec d obj :
    dmu_exists d obj = true ->
    (dmu_free_range d obj).1 = 0 /\ dmu_frame d (dmu_free_range d obj).2 obj /\
    dmu_exists (dmu_free_range d obj).2 obj = true /\ same_feature d (dmu_free_range d obj).2 /\
    doi_bonus_size (dmu_info (dmu_free_range d obj).2 obj) = doi_bonus_size (dmu_info d obj);
  feature_incr_spec d obj :
    dmu_frame d (feature_incr d) obj /\ feature_active (feature_incr d) = true;
  feature_decr_spec d obj : dmu_frame d (feature_decr d) obj
}.

(** ** Entries *)

Inductive maptype : Type := SM_ALLOC | SM_FREE.

#[export] Instance maptype_eq_dec : EqDecision maptype.
Proof. solve_decision. Defined.

(** The value of the enumerator. *)
Definition maptype_val (t : maptype) : Z := match t with SM_ALLOC => 0 | SM_FREE => 1 end.

Definition SM_RUN_DECODE (x : Z) : Z := BF64_DECODE x 0 15 + 1.
Definition SM_RUN_ENCODE (x : Z) : Z := BF64_ENCODE (wrap64 (x - 1)) 0 15.
Definition SM_TYPE_DECODE (x : Z) : Z := BF64_DECODE x 15 1.
Definition SM_TYPE_ENCODE (x : Z) : Z := BF64_ENCODE x 15 1.
Definition SM_OFFSET_DECODE (x : Z) : Z := BF64_DECODE x 16 47.
Definition SM_OFFSET_ENCODE (x : Z) : Z := BF64_ENCODE x 16 47.
Definition SM_DEBUG_DECODE (x : Z) : Z := BF64_DECODE x 63 1.
Definition SM_DEBUG_ENCODE (x : Z) : Z := BF64_ENCODE x 63 1.
Definition SM_DEBUG_ACTION_DECODE (x : Z) : Z := BF64_DECODE x 60 3.
Definition SM_DEBUG_ACTION_ENCODE (x : Z) : Z := BF64_ENCODE x 60 3.
Definition SM_DEBUG_SYNCPASS_DECODE (x : Z) : Z := BF64_DECODE x 50 10.
Definition SM_DEBUG_SYNCPASS_ENCODE (x : Z) : Z := BF64_ENCODE x 50 10.
Definition SM_DEBUG_TXG_DECODE (x : Z) : Z := BF64_DECODE x 0 50.
Definition SM_DEBUG_TXG_ENCODE (x : Z) : Z := BF64_ENCODE x 0 50.
Definition SM_RUN_MAX : Z := SM_RUN_DECODE (B64 - 1).

(** The entry [space_map_write] stores for a run. *)
Definition sm_entry (start : Z) (t : maptype) (run_len : Z) : Z :=
  Z.lor (Z.lor (SM_OFFSET_ENCODE start) (SM_TYPE_ENCODE (maptype_val t))) (SM_RUN_ENCODE run_len).

(** The debug entry that starts each batch. *)
Definition sm_debug_entry (t : maptype) (sync_pass txg : Z) : Z :=
  Z.lor (Z.lor (Z.lor (SM_DEBUG_ENCODE 1) (SM_DEBUG_ACTION_ENCODE (maptype_val t)))
    (SM_DEBUG_SYNCPASS_ENCODE sync_pass)) (SM_DEBUG_TXG_ENCODE txg).

(** ** State *)

Record space_map : Type := SpaceMap {
  sm_start : Z;
  sm_size : Z;
  sm_shift : Z;
  sm_length : Z;
  sm_alloc : Z;
  sm_object : Z;
  sm_blksz : Z;
  sm_db_size : Z;
  sm_phys : space_map_phys
}.

Definition set_phys (sm : space_map) (p : space_map_phys) : space_map :=
  SpaceMap (sm_start sm) (sm_size sm) (sm_shift sm) (sm_length sm) (sm_alloc sm) (sm_object sm)
    (sm_blksz sm) (sm_db_size sm) p.

Definition space_map_object (sm : option space_map) : Z := from_option sm_object 0 sm.
Definition space_map_allocated (sm : option space_map) : Z := from_option sm_alloc 0 sm.
Definition space_map_length (sm : option space_map) : Z := from_option sm_length 0 sm.

(** [int64_t]: the difference as a signed word. *)
Definition space_map_alloc_delta (sm : option space_map) : Z :=
  match sm with
  | None => 0
  | Some m =>
      let d := wrap64 (smp_alloc (sm_phys m) - space_map_allocated sm) in
      if d <? B64 / 2 then d else d - B64
  end.

Section Operations.
Context {D St : Type} `{!DmuOps D}.
Variable zfs_recover : bool.
Implicit Types rt : range_tree St.
Implicit Types sm : space_map.

(** The body of the loop of [space_map_load] over the entries of a block. *)
Definition load_entry sm (maptype : maptype) rt (e : Z) : res (range_tree St) :=
  if negb (SM_DEBUG_DECODE e =? 0) then Ok rt else
  let offset := wrap64 (wrap64 (Z.shiftl (SM_OFFSET_DECODE e) (sm_shift sm)) + sm_start sm) in
  let size := wrap64 (Z.shiftl (SM_RUN_DECODE e) (sm_shift sm)) in
  VERIFY (P2PHASE offset (Z.shiftl 1 (sm_shift sm)) =? 0) ;;
  VERIFY (P2PHASE size (Z.shiftl 1 (sm_shift sm)) =? 0) ;;
  VERIFY (sm_start sm <=? offset) ;;
  VERIFY (wrap64 (offset + size) <=? wrap64 (sm_start sm + sm_size sm)) ;;
  if SM_TYPE_DECODE e =? maptype_val maptype then
    VERIFY (wrap64 (range_tree_space rt + size) <=? sm_size sm) ;;
    range_tree_add zfs_recover rt offset size
  else range_tree_remove zfs_recover rt offset size.

Fixpoint load_entries sm (maptype : maptype) (es : list Z) rt : res (range_tree St) :=
  match es with
  | [] => Ok rt
  | e :: es' => rt' ← load_entry sm maptype rt e; load_entries sm maptype es' rt'
  end.

(** The loop over the blocks of the object: the error of the failed read, or 0. *)
Fixpoint load_blocks (fuel : nat) (d : D) sm (maptype : maptype) (end_ bufsize offset : Z) rt
    : res (Z * range_tree St) :=
  if offset <? end_ then
    match fuel with
    | O => Panic
    | S fuel' =>
        let size := Z.min (wrap64 (end_ - offset)) bufsize in
        VERIFY (P2PHASE size 8 =? 0) ;;
        VERIFY negb (size =? 0) ;;
        match dmu_read d (space_map_object (Some sm)) offset size with
        | inl error => Ok (error, rt)
        | inr entry_map =>
            rt' ← load_entries sm maptype entry_map rt;
            load_blocks fuel' d sm maptype end_ bufsize (wrap64 (offset + bufsize)) rt'
        end
    end
  else Ok (0, rt).

Definition space_map_load (d : D) sm rt (maptype : maptype) : res (Z * range_tree St) :=
  let end_ := space_map_length (Some sm) in
  let space := space_map_allocated (Some sm) in
  VERIFY (range_tree_space rt =? 0) ;;
  '(rt, space) ←
    (if decide (maptype = SM_FREE) then
       rt ← range_tree_add zfs_recover rt (sm_start sm) (sm_size sm);
       Ok (rt, wrap64 (sm_size sm - space))
     else Ok (rt, space));
  let bufsize := Z.max (sm_blksz sm) SPA_MINBLOCKSIZE in
  '(error, rt) ← load_blocks (Z.to_nat (end_ / bufsize + 1)) d sm maptype end_ bufsize 0 rt;
  if error =? 0 then
    VERIFY (range_tree_space rt =? space) ;; Ok (error, rt)
  else
    '(rt, _) ← range_tree_vacate (T := unit) rt None tt;
    Ok (error, rt).

Definition space_map_histogram_clear sm : space_map :=
  if negb (sm_db_size sm =? sizeof_space_map_phys) then sm else
  let p := sm_phys sm in
  set_phys sm (SpaceMapPhys (smp_object p) (smp_objsize p) (smp_alloc p)
    (replicate SPACE_MAP_HISTOGRAM_SIZE 0)).

Definition space_map_histogram_verify sm rt : bool :=
  forallb (fun n => n =? 0) (take (Z.to_nat (sm_shift sm)) (rt_histogram rt)).

(** The loop of [space_map_histogram_add] over the buckets [hist] from index
    [i = idx + sm_shift + extra], where [extra] counts the buckets past the
    last one of the space map. *)
Fixpoint histogram_loop (hist : list Z) (idx extra : nat) (smh : list Z) : list Z :=
  match hist with
  | [] => smh
  | n :: hist' =>
      let smh' := alter (fun x => wrap64 (x + wrap64 (Z.shiftl n (Z.of_nat extra)))) idx smh in
      if (idx <? SPACE_MAP_HISTOGRAM_SIZE - 1)%nat
      then histogram_loop hist' (S idx) extra smh'
      else histogram_loop hist' idx (S extra) smh'
  end.

Definition space_map_histogram_add sm rt : res space_map :=
  VERIFY negb (space_map_object (Some sm) =? 0) ;;
  if negb (sm_db_size sm =? sizeof_space_map_phys) then Ok sm else
  let p := sm_phys sm in
  Ok (set_phys sm (SpaceMapPhys (smp_object p) (smp_objsize p) (smp_alloc p)
    (histogram_loop (drop (Z.to_nat (sm_shift sm)) (rt_histogram rt)) 0 0 (smp_histogram p)))).

Definition howmany (x y : Z) : Z := wrap64 (x + (y - 1)) / y.

(** The size of a segment in units of [1 << sm_shift]. *)
Definition seg_units sm (rs : range_seg) : Z := Z.shiftr (rs_size rs) (sm_shift sm).

Definition space_map_entries sm rt : Z :=
  fold_left (fun entries rs => wrap64 (entries + howmany (seg_units sm rs) SM_RUN_MAX))
    (range_tree_segs rt) 1.

(** The buffer [entry_map] up to [entry], the object size and the objects. *)
Record wstate : Type := WState { w_buf : list Z; w_objsize : Z; w_dmu : D }.

(** [*entry++ = e] on a buffer of [sm_blksz / 8] words. *)
Definition put_entry sm (e : Z) (w : wstate) : res wstate :=
  if Z.of_nat (length (w_buf w)) <? sm_blksz sm / 8
  then Ok (WState (w_buf w ++ [e]) (w_objsize w) (w_dmu w)) else Panic.

(** The loop that splits a segment into runs. *)
Fixpoint write_runs (fuel : nat) sm (maptype : maptype) (start size : Z) (w : wstate) : res wstate :=
  if size =? 0 then Ok w else
  match fuel with
  | O => Panic
  | S fuel' =>
      let run_len := Z.min size SM_RUN_MAX in
      let w :=
        if Z.of_nat (length (w_buf w)) =? sm_blksz sm / 8 then
          WState [] (wrap64 (w_objsize w + sm_blksz sm))
            (dmu_write (w_dmu w) (space_map_object (Some sm)) (w_objsize w) (sm_blksz sm) (w_buf w))
        else w in
      w ← put_entry sm (sm_entry start maptype run_len) w;
      write_runs fuel' sm maptype (wrap64 (start + run_len)) (size - run_len) w
  end.

(** The loop over the segments, with the running [total]. *)
Fixpoint write_segs sm (maptype : maptype) (segs : list range_seg) (w : wstate) (total : Z)
    : res (wstate * Z) :=
  match segs with
  | [] => Ok (w, total)
  | rs :: segs' =>
      let size := seg_units sm rs in
      let start := Z.shiftr (wrap64 (rs_start rs - sm_start sm)) (sm_shift sm) in
      w ← write_runs (Z.to_nat (size / SM_RUN_MAX + 1)) sm maptype start size w;
      write_segs sm maptype segs' w (wrap64 (total + wrap64 (Z.shiftl size (sm_shift sm))))
  end.

(** The last, partly filled block. *)
Definition finish_write sm (w : wstate) : wstate :=
  match w_buf w with
  | [] => w
  | buf =>
      let size := 8 * Z.of_nat (length buf) in
      WState [] (wrap64 (w_objsize w + size))
        (dmu_write (w_dmu w) (space_map_object (Some sm)) (w_objsize w) size buf)
  end.

(** The entries of a batch, from the debug entry to the last block. *)
Definition write_batch (d : D) sm (maptype : maptype) (sync_pass txg : Z) (segs : list range_seg)
    : res (wstate * Z) :=
  w ← put_entry sm (sm_debug_entry maptype sync_pass txg) (WState [] (smp_objsize (sm_phys sm)) d);
  '(w, total) ← write_segs sm maptype segs w 0;
  Ok (finish_write sm w, total).

Definition space_map_write (d : D) sm rt (maptype : maptype) (sync_pass txg : Z)
    : res (space_map * D) :=
  VERIFY negb (space_map_object (Some sm) =? 0) ;;
  let p := sm_phys sm in
  let object := sm_object sm in
  if range_tree_space rt =? 0 then
    Ok (set_phys sm (SpaceMapPhys object (smp_objsize p) (smp_alloc p) (smp_histogram p)), d)
  else
    let alloc := match maptype with
      | SM_ALLOC => wrap64 (smp_alloc p + range_tree_space rt)
      | SM_FREE => wrap64 (smp_alloc p - range_tree_space rt)
      end in
    '(w, total) ← write_batch d sm maptype sync_pass txg (range_tree_segs rt);
    VERIFY (range_tree_space rt =? total) ;;
    Ok (set_phys sm (SpaceMapPhys object (w_objsize w) alloc (smp_histogram p)), w_dmu w).

Definition space_map_update sm : space_map :=
  SpaceMap (sm_start sm) (sm_size sm) (sm_shift sm) (smp_objsize (sm_phys sm))
    (smp_alloc (sm_phys sm)) (sm_object sm) (sm_blksz sm) (sm_db_size sm) (sm_phys sm).

Definition space_map_alloc (d : D) (space_map_blksz : Z) : D * Z :=
  let '(d, bonuslen) :=
    if feature_enabled d then (feature_incr d, sizeof_space_map_phys) else (d, SPACE_MAP_SIZE_V0) in
  dmu_object_alloc d space_map_blksz bonuslen.

(** The space map is freed: its object, and its share of the feature. *)
Definition space_map_free (d : D) sm : res (D * space_map) :=
  d ← (if feature_enabled d && negb (doi_bonus_size (dmu_info d (sm_object sm)) =? SPACE_MAP_SIZE_V0)
       then VERIFY feature_active d ;; Ok (feature_decr d)
       else Ok d);
  let '(error, d) := dmu_object_free d (space_map_object (Some sm)) in
  VERIFY (error =? 0) ;;
  Ok (d, SpaceMap (sm_start sm) (sm_size sm) (sm_shift sm) (sm_length sm) (sm_alloc sm) 0
    (sm_blksz sm) (sm_db_size sm) (sm_phys sm)).

(** The bonus buffer and the block size of the object are attached. *)
Definition space_map_open_impl (d : D) sm : Z + space_map :=
  match dmu_bonus_hold d (sm_object sm) with
  | inl error => inl error
  | inr (db_size, phys) =>
      inr (SpaceMap (sm_start sm) (sm_size sm) (sm_shift sm) (sm_length sm) (sm_alloc sm)
        (sm_object sm) (doi_data_block_size (dmu_info d (sm_object sm))) db_size phys)
  end.

Definition space_map_open (d : D) (object start size shift : Z) : Z + space_map :=
  space_map_open_impl d
    (SpaceMap start size shift 0 0 object 0 0 (SpaceMapPhys 0 0 0 [])).

(** Empty the log; an object of the wrong sizes is replaced by a new one. *)
Definition space_map_truncate (d : D) sm (space_map_blksz txg final_dirty_txg : Z)
    : res (D * space_map) :=
  VERIFY (txg <=? final_dirty_txg) ;;
  let doi := dmu_info d (sm_object sm) in
  '(d, sm) ←
    (if (feature_enabled d && negb (doi_bonus_size doi =? sizeof_space_map_phys))
        || negb (doi_data_block_size doi =? space_map_blksz) then
       '(d, sm) ← space_map_free d sm;
       let '(d, object) := space_map_alloc d space_map_blksz in
       match space_map_open_impl d (SpaceMap (sm_start sm) (sm_size sm) (sm_shift sm) (sm_length sm)
               (sm_alloc sm) object (sm_blksz sm) (sm_db_size sm) (sm_phys sm)) with
       | inl _ => Panic
       | inr sm => Ok (d, sm)
       end
     else
       let '(error, d) := dmu_free_range d (space_map_object (Some sm)) in
       VERIFY (error =? 0) ;;
       let p := sm_phys sm in
       Ok (d, set_phys sm (SpaceMapPhys (smp_object p) (smp_objsize p) (smp_alloc p)
         (replicate SPACE_MAP_HISTOGRAM_SIZE 0))));
  let p := sm_phys sm in
  Ok (d, set_phys sm (SpaceMapPhys (smp_object p) 0 0 (smp_histogram p))).

End Operations.
Arguments wstate D : clear implicits.
Arguments load_entry : simpl never.
Arguments sm_entry : simpl never.
Arguments sm_debug_entry : simpl never.

(** ** Entries and their fields *)

Lemma SM_RUN_MAX_eq : SM_RUN_MAX = 2 ^ 15.
Proof. done. Qed.

Lemma sm_entry_fields start t run :
  0 <= start < 2 ^ 47 -> 1 <= run <= SM_RUN_MAX ->
  SM_DEBUG_DECODE (sm_entry start t run) = 0 /\ SM_OFFSET_DECODE (sm_entry start t run) = start /\
  SM_TYPE_DECODE (sm_entry start t run) = maptype_val t /\ SM_RUN_DECODE (sm_entry start t run) = run.
Proof.
  rewrite SM_RUN_MAX_eq. intros Hs Hr.
  unfold sm_entry, SM_DEBUG_DECODE, SM_OFFSET_DECODE, SM_TYPE_DECODE, SM_RUN_DECODE,
    SM_OFFSET_ENCODE, SM_TYPE_ENCODE, SM_RUN_ENCODE.
  rewrite (wrap64_small (run - 1)) by (unfold is_u64; lia).
  assert (0 <= maptype_val t < 2 ^ 1) by (by destruct t).
  autorewrite with bf64. split_and!; lia.
Qed.

Lemma sm_debug_entry_fields t sync_pass txg :
  SM_DEBUG_DECODE (sm_debug_entry t sync_pass txg) = 1 /\
  SM_DEBUG_ACTION_DECODE (sm_debug_entry t sync_pass txg) = maptype_val t /\
  (0 <= sync_pass < 2 ^ 10 -> SM_DEBUG_SYNCPASS_DECODE (sm_debug_entry t sync_pass txg) = sync_pass) /\
  (0 <= txg < 2 ^ 50 -> SM_DEBUG_TXG_DECODE (sm_debug_entry t sync_pass txg) = txg).
Proof.
  unfold sm_debug_entry, SM_DEBUG_DECODE, SM_DEBUG_ACTION_DECODE, SM_DEBUG_SYNCPASS_DECODE,
    SM_DEBUG_TXG_DECODE, SM_DEBUG_ENCODE, SM_DEBUG_ACTION_ENCODE, SM_DEBUG_SYNCPASS_ENCODE,
    SM_DEBUG_TXG_ENCODE.
  assert (0 <= maptype_val t < 2 ^ 3) by (by destruct t).
  split_and!; intros; autorewrite with bf64; done.
Qed.

(** ** What a log means *)

(** The geometry of a map: [sm_start], [sm_size] and [sm_shift] are those of a
    region of whole units that entries can address. *)
Record geom_ok (st sz sh : Z) : Prop := {
  geom_shift : 0 <= sh < 64;
  geom_start : 0 <= st;
  geom_size : 0 < sz;
  geom_end : st + sz < B64;
  geom_start_aligned : (2 ^ sh | st);
  geom_size_aligned : (2 ^ sh | sz);
  geom_units : sz <= 2 ^ 47 * 2 ^ sh
}.

Section Log.
Variables st sz sh : Z.

(** The offsets of a run of [run] units from unit [start]. *)
Definition in_run (start run z : Z) : Prop :=
  st + start * 2 ^ sh <= z < st + (start + run) * 2 ^ sh.

Definition in_region (z : Z) : Prop := st <= z < st + sz.

(** [log_sets l A n]: replaying the log [l] from its start allocates exactly the
    offsets [A], [n] of them; no entry allocates twice or frees what is free. *)
Inductive log_sets : list Z -> (Z -> Prop) -> Z -> Prop :=
| log_nil A : (forall z, ~ A z) -> log_sets [] A 0
| log_debug l A n e : log_sets l A n -> SM_DEBUG_DECODE e <> 0 -> log_sets (l ++ [e]) A n
| log_alloc l A A' n start run :
    log_sets l A n -> 0 <= start -> 1 <= run <= SM_RUN_MAX -> (start + run) * 2 ^ sh <= sz ->
    (forall z, in_run start run z -> ~ A z) -> (forall z, A' z <-> A z \/ in_run start run z) ->
    log_sets (l ++ [sm_entry start SM_ALLOC run]) A' (n + run * 2 ^ sh)
| log_free l A A' n start run :
    log_sets l A n -> 0 <= start -> 1 <= run <= SM_RUN_MAX -> (start + run) * 2 ^ sh <= sz ->
    (forall z, in_run start run z -> A z) -> (forall z, A' z <-> A z /\ ~ in_run start run z) ->
    log_sets (l ++ [sm_entry start SM_FREE run]) A' (n - run * 2 ^ sh).

Lemma log_sets_ext l A A' n : (forall z, A z <-> A' z) -> log_sets l A n -> log_sets l A' n.
Proof.
  intros HA Hl. revert A' HA. induction Hl; intros A'' HA.
  - apply log_nil. intros z. by rewrite <- HA.
  - apply log_debug; auto.
  - eapply log_alloc; eauto. intros z. by rewrite <- HA.
  - eapply log_free; eauto. intros z. by rewrite <- HA.
Qed.

Hypothesis Hg : geom_ok st sz sh.

Lemma in_run_region start run z :
  0 <= start -> (start + run) * 2 ^ sh <= sz -> in_run start run z -> in_region z.
Proof. unfold in_run, in_region. destruct Hg. nia. Qed.

Lemma log_sets_region l A n z : log_sets l A n -> A z -> in_region z.
Proof.
  intros Hl. revert z. induction Hl; intros z Hz; eauto.
  - by destruct (H z).
  - apply H3 in Hz as [Hz|Hz]; eauto using in_run_region.
  - apply H3 in Hz as [Hz _]; eauto.
Qed.

Lemma log_sets_prefix l1 l2 A n :
  log_sets (l1 ++ l2) A n -> exists A' n', log_sets l1 A' n'.
Proof.
  remember (l1 ++ l2) as l eqn:El. intros Hl. revert l1 l2 El.
  assert (Hsnoc : forall l1 l2 (l : list Z) e, l ++ [e] = l1 ++ l2 -> l1 = l ++ [e] \/ exists l2', l = l1 ++ l2').
  { intros l1 l2 l0 e E. destruct l2 as [|x l2 _] using rev_ind; [left; by rewrite app_nil_r in E|].
    right. exists l2. rewrite app_assoc in E. by apply app_inj_tail in E as [-> _]. }
  induction Hl; intros l1 l2 El.
  - symmetry in El. apply app_eq_nil in El as [-> ->]. exists A, 0. by apply log_nil.
  - destruct (Hsnoc _ _ _ _ El) as [->|[l2' ->]]; [|by eapply IHHl]. exists A, n. by apply log_debug.
  - destruct (Hsnoc _ _ _ _ El) as [->|[l2' ->]]; [|by eapply IHHl]. eexists _, _. by eapply log_alloc.
  - destruct (Hsnoc _ _ _ _ El) as [->|[l2' ->]]; [|by eapply IHHl]. eexists _, _. by eapply log_free.
Qed.

End Log.

(** ** Loading *)

(** The offsets a load of type [mt] gives when [A] is allocated. *)
Definition loaded (st sz : Z) (mt : maptype) (A : Z -> Prop) (z : Z) : Prop :=
  match mt with SM_ALLOC => A z | SM_FREE => in_region st sz z /\ ~ A z end.

Definition loaded_space (sz : Z) (mt : maptype) (n : Z) : Z :=
  match mt with SM_ALLOC => n | SM_FREE => sz - n end.

Definition sm_geom (sm : space_map) : Prop := geom_ok (sm_start sm) (sm_size sm) (sm_shift sm).

Section Load.
Context {St : Type} {R : list range_seg -> St -> Prop} (zfs_recover : bool) (sm : space_map).
Context (Hg : sm_geom sm).
Implicit Types rt : range_tree St.
Abbreviation st := (sm_start sm).
Abbreviation sz := (sm_size sm).
Abbreviation sh := (sm_shift sm).

(** The range of a run, in bytes. *)
Lemma run_range start run :
  0 <= start -> 1 <= run -> (start + run) * 2 ^ sh <= sz ->
  start < 2 ^ 47 /\ range_ok (st + start * 2 ^ sh) (run * 2 ^ sh) /\
  run * 2 ^ sh <= sz /\ 0 <= start * 2 ^ sh < B64.
Proof.
  intros H1 H2 H3. destruct Hg. assert (0 < 2 ^ sh) by (apply pow_pos; lia).
  unfold range_ok. split_and!; nia.
Qed.

Lemma load_entry_run mt t rt start run :
  0 <= start -> 1 <= run <= SM_RUN_MAX -> (start + run) * 2 ^ sh <= sz ->
  load_entry zfs_recover sm mt rt (sm_entry start t run) =
  if decide (t = mt) then
    VERIFY (wrap64 (rt_space rt + run * 2 ^ sh) <=? sz) ;;
    range_tree_add zfs_recover rt (st + start * 2 ^ sh) (run * 2 ^ sh)
  else range_tree_remove zfs_recover rt (st + start * 2 ^ sh) (run * 2 ^ sh).
Proof.
  intros H1 H2 H3. destruct (run_range start run) as (Hs & (Hr1 & Hr2 & Hr3) & Hle & Hb); [lia..|].
  destruct (sm_entry_fields start t run) as (Ed & Eo & Et & Er); [lia..|].
  unfold load_entry. rewrite Ed, Eo, Et, Er. destruct Hg.
  rewrite !Z.shiftl_mul_pow2, Z.mul_1_l by lia.
  rewrite (wrap64_small (start * _)) by done. rewrite (wrap64_small (run * _)) by (split; lia).
  rewrite (Z.add_comm (start * _)), (wrap64_small (st + start * _)) by (split; lia).
  rewrite !(wrap64_small (st + _)), !wrap64_small by (split; nia).
  rewrite !P2PHASE_mod by lia.
  assert (E0 : (st + start * 2 ^ sh) mod 2 ^ sh = 0).
  { rewrite Z.mod_add by (pose proof (pow_pos sh); lia). by apply Z.mod_divide;
      [pose proof (pow_pos sh); lia|]. }
  rewrite E0, Z.mod_mul by (pose proof (pow_pos sh); lia). simpl.
  rewrite (proj2 (Z.leb_le _ _)) by lia. rewrite (proj2 (Z.leb_le _ _)) by nia.
  destruct t, mt; done.
Qed.

Lemma load_entry_debug mt rt e :
  SM_DEBUG_DECODE e <> 0 -> load_entry zfs_recover sm mt rt e = Ok rt.
Proof. intros He. unfold load_entry. by rewrite (proj2 (Z.eqb_neq _ _) He). Qed.

#[local] Opaque load_entry range_tree_add range_tree_remove.

Lemma load_entries_app mt l1 l2 rt :
  load_entries zfs_recover sm mt (l1 ++ l2) rt =
  (rt' ← load_entries zfs_recover sm mt l1 rt; load_entries zfs_recover sm mt l2 rt').
Proof.
  revert rt. induction l1 as [|e l1 IH]; intros rt; [reflexivity|]. cbn [load_entries app].
  destruct (load_entry _ _ _ _ _); [apply IH|reflexivity].
Qed.

(** One more run: the load of the type of the entry adds it, the other removes it. *)
Lemma load_run_add mt rt start run :
  rt_inv R rt -> 0 <= start -> 1 <= run <= SM_RUN_MAX -> (start + run) * 2 ^ sh <= sz ->
  (forall z, in_run st sh start run z -> ~ covers (rt_segs rt) z) ->
  (forall z, covers (rt_segs rt) z -> in_region st sz z) ->
  exists rt', load_entry zfs_recover sm mt rt (sm_entry start mt run) = Ok rt' /\ rt_inv R rt' /\
    rt_ops rt' = rt_ops rt /\ rt_space rt' = rt_space rt + run * 2 ^ sh /\
    (forall z, covers (rt_segs rt') z <-> covers (rt_segs rt) z \/ in_run st sh start run z).
Proof.
  intros Hinv H1 H2 H3 Hd Hreg. rewrite load_entry_run, decide_True by done.
  destruct (run_range start run) as (_ & Hr & Hle & _); [lia..|].
  destruct (range_tree_add_disjoint (R := R) zfs_recover rt _ _ Hinv Hr) as (rt' & -> & Hinv' & Ho & Hsp & Hc).
  { intros z Hz. apply Hd. unfold in_run. lia. }
  assert (Hc' : forall z, covers (rt_segs rt') z <-> covers (rt_segs rt) z \/ in_run st sh start run z).
  { intros z. rewrite Hc. unfold in_run. by rewrite Z.mul_add_distr_r, Z.add_assoc. }
  assert (rt_space rt' <= sz).
  { destruct Hinv' as (_ & Hs' & -> & _). replace sz with (st + sz - st) by lia.
    destruct Hg. apply total_within; [done|lia|]. intros z [Hz|Hz]%Hc'; [by apply Hreg|].
    by apply (in_run_region st sz sh Hg start run z). }
  pose proof Hinv as (_ & Hs & Hsp0 & _). pose proof (total_u64 _ Hs). destruct Hr as (_ & Hr & _), Hg.
  rewrite wrap64_small, (proj2 (Z.leb_le _ _)) by first [lia|split; lia]. eauto 10.
Qed.

Lemma load_run_remove mt t rt start run :
  t <> mt -> rt_inv R rt -> 0 <= start -> 1 <= run <= SM_RUN_MAX -> (start + run) * 2 ^ sh <= sz ->
  (forall z, in_run st sh start run z -> covers (rt_segs rt) z) ->
  exists rt', load_entry zfs_recover sm mt rt (sm_entry start t run) = Ok rt' /\ rt_inv R rt' /\
    rt_ops rt' = rt_ops rt /\ rt_space rt' = rt_space rt - run * 2 ^ sh /\
    (forall z, covers (rt_segs rt') z <-> covers (rt_segs rt) z /\ ~ in_run st sh start run z).
Proof.
  intros Hne Hinv H1 H2 H3 Hd. rewrite load_entry_run, decide_False by done.
  destruct (run_range start run) as (_ & Hr & Hle & _); [lia..|].
  destruct (range_tree_remove_contained (R := R) zfs_recover rt _ _ Hinv Hr) as (rt' & -> & Hinv' & Ho & Hsp & Hc).
  { intros z Hz. apply Hd. unfold in_run. lia. }
  exists rt'. split_and!; auto. intros z. rewrite Hc. unfold in_run.
  by rewrite Z.mul_add_distr_r, Z.add_assoc.
Qed.

(** Replaying a log from the initial tree of the load. *)
Lemma load_log mt l A n rt0 :
  log_sets st sz sh l A n -> rt_inv R rt0 ->
  (forall z, covers (rt_segs rt0) z <-> loaded st sz mt (fun _ => False) z) ->
  rt_space rt0 = loaded_space sz mt 0 ->
  exists rt, load_entries zfs_recover sm mt l rt0 = Ok rt /\ rt_inv R rt /\ rt_ops rt = rt_ops rt0 /\
    rt_space rt = loaded_space sz mt n /\ (forall z, covers (rt_segs rt) z <-> loaded st sz mt A z).
Proof.
  intros Hl Hinv0 Hc0 Hsp0.
  induction Hl as [A HA|l A n e Hl IH He|l A A' n start run Hl IH H1 H2 H3 Hd HA|
                   l A A' n start run Hl IH H1 H2 H3 Hd HA].
  - exists rt0. split_and!; auto. intros z. rewrite Hc0. specialize (HA z). destruct mt; simpl; tauto.
  - destruct IH as (rt & E & IH). exists rt. split; [|done].
    rewrite load_entries_app, E. simpl. by rewrite load_entry_debug.
  - destruct IH as (rt & E & Hinv & Ho & Hsp & Hc). rewrite load_entries_app, E. simpl.
    pose proof (fun z => in_run_region st sz sh Hg start run z H1 H3) as Hreg. destruct mt; simpl in *.
    + destruct (load_run_add SM_ALLOC rt start run) as (rt' & -> & Hinv' & Ho' & Hsp' & Hc'); auto.
      { intros z Hz. rewrite Hc. by apply Hd. }
      { intros z Hz. apply Hc in Hz. by apply (log_sets_region _ _ _ Hg _ _ _ _ Hl). }
      simpl. exists rt'. split_and!; [done..|congruence|lia|]. intros z. by rewrite Hc', Hc, HA.
    + destruct (load_run_remove SM_FREE SM_ALLOC rt start run) as (rt' & -> & Hinv' & Ho' & Hsp' & Hc'); auto.
      { intros z Hz. rewrite Hc. auto. }
      simpl. exists rt'. split_and!; [done..|congruence|lia|].
      intros z. rewrite Hc', Hc, HA. tauto.
  - destruct IH as (rt & E & Hinv & Ho & Hsp & Hc). rewrite load_entries_app, E. simpl.
    pose proof (fun z => in_run_region st sz sh Hg start run z H1 H3) as Hreg. destruct mt; simpl in *.
    + destruct (load_run_remove SM_ALLOC SM_FREE rt start run) as (rt' & -> & Hinv' & Ho' & Hsp' & Hc'); auto.
      { intros z Hz. rewrite Hc. auto. }
      simpl. exists rt'. split_and!; [done..|congruence|lia|].
      intros z. by rewrite Hc', Hc, HA.
    + destruct (load_run_add SM_FREE rt start run) as (rt' & -> & Hinv' & Ho' & Hsp' & Hc'); auto.
      { intros z Hz. rewrite Hc. intros [_ Hn]. by apply Hn, Hd. }
      { intros z Hz. by apply Hc in Hz as [? _]. }
      simpl. exists rt'. split_and!; [done..|congruence|lia|].
      intros z. rewrite Hc', Hc, HA. specialize (Hreg z).
      assert (in_run st sh start run z \/ ~ in_run st sh start run z) by (unfold in_run; lia).
      tauto.
Qed.

End Load.

(** ** The words of an object *)

Section Words.
Context {D : Type} `{!DmuOps D} `{!DmuSpec D}.
Implicit Types d : D.

Definition words d (obj k : Z) (n : nat) : list Z :=
  (fun i => dmu_word d obj (k + Z.of_nat i)) <$> seq 0 n.

Lemma length_words d obj k n : length (words d obj k n) = n.
Proof. unfold words. by rewrite length_fmap, length_seq. Qed.

Lemma words_ext d d' obj k n :
  (forall i, k <= i < k + Z.of_nat n -> dmu_word d obj i = dmu_word d' obj i) ->
  words d obj k n = words d' obj k n.
Proof.
  intros H. apply list_fmap_ext. intros j i Hi. apply lookup_seq in Hi as [-> Hi]. apply H. lia.
Qed.

Lemma words_app d obj k n m :
  words d obj k (n + m) = words d obj k n ++ words d obj (k + Z.of_nat n) m.
Proof.
  unfold words. rewrite seq_app, fmap_app. f_equal. simpl. apply list_eq. intros i.
  rewrite !list_lookup_fmap. destruct (decide (i < m)%nat).
  - rewrite !lookup_seq_lt by lia. simpl. do 2 f_equal. lia.
  - by rewrite !lookup_seq_ge by lia.
Qed.

Lemma words_write d obj off ws :
  (8 | off) -> words (dmu_write d obj off (8 * Z.of_nat (length ws)) ws) obj (off / 8) (length ws) = ws.
Proof.
  intros Ho. apply list_eq. intros i. destruct (decide (i < length ws)%nat) as [Hi|Hi].
  - unfold words. rewrite list_lookup_fmap, lookup_seq_lt by done. simpl.
    rewrite dmu_write_spec by done. rewrite decide_True by (split; [done|lia]).
    replace (off / 8 + Z.of_nat i - off / 8) with (Z.of_nat i) by lia. rewrite Nat2Z.id.
    destruct (nth_lookup_or_length ws i 0); [done|lia].
  - rewrite !lookup_ge_None_2; rewrite ?length_words; [done|lia..].
Qed.

Lemma words_read d obj off size ws :
  (8 | off) -> (8 | size) -> 0 <= size -> dmu_read d obj off size = inr ws ->
  ws = words d obj (off / 8) (Z.to_nat (size / 8)).
Proof. apply dmu_read_spec. Qed.

End Words.

(** ** The invariant of a space map *)

Record sm_wf (sm : space_map) : Prop := {
  wf_geom : sm_geom sm;
  wf_object : sm_object sm <> 0;
  wf_blksz : 8 <= sm_blksz sm < B32;
  wf_blksz8 : (8 | sm_blksz sm);
  wf_objsize : 0 <= smp_objsize (sm_phys sm) < 2 ^ 63;
  wf_objsize8 : (8 | smp_objsize (sm_phys sm))
}.

(** The log of a map: the words of its object up to [smp_objsize]. *)
Definition sm_log {D} `{!DmuOps D} (d : D) (sm : space_map) : list Z :=
  words d (sm_object sm) 0 (Z.to_nat (smp_objsize (sm_phys sm) / 8)).

(** The map records that exactly the offsets [A] are allocated. *)
Definition sm_inv {D} `{!DmuOps D} (d : D) (sm : space_map) (A : Z -> Prop) : Prop :=
  sm_wf sm /\
  log_sets (sm_start sm) (sm_size sm) (sm_shift sm) (sm_log d sm) A (smp_alloc (sm_phys sm)).

(** [space_map_update] has been called since the last change. *)
Definition sm_synced (sm : space_map) : Prop :=
  sm_length sm = smp_objsize (sm_phys sm) /\ sm_alloc sm = smp_alloc (sm_phys sm).

(** The amount of allocated space is that of a set of offsets of the region. *)
Lemma log_sets_bounds st sz sh l A n : geom_ok st sz sh -> log_sets st sz sh l A n -> 0 <= n <= sz.
Proof.
  intros Hg Hl. set (sm := SpaceMap st sz sh 0 0 0 0 0 (SpaceMapPhys 0 0 0 [])).
  destruct (load_log (R := fun _ (_ : unit) => True) false sm Hg SM_ALLOC l A n (range_tree_create None tt))
    as (rt & _ & Hinv & _ & Hsp & Hc).
  - done.
  - by apply range_tree_create_inv.
  - intros z. apply covers_nil.
  - done.
  - simpl in Hsp. rewrite <- Hsp. destruct Hinv as (_ & Hs & -> & _).
    pose proof (total_u64 _ Hs). split; [lia|]. replace sz with (st + sz - st) by lia.
    destruct Hg. apply total_within; [done|lia|]. intros z Hz. apply Hc in Hz.
    by apply (log_sets_region st sz sh ltac:(done) _ _ _ _ Hl).
Qed.

(** The allocated offsets as segments. *)
Lemma log_sets_segs st sz sh l A n : geom_ok st sz sh -> log_sets st sz sh l A n ->
  exists segs, segs_ok segs /\ total segs = n /\ (forall z, covers segs z <-> A z).
Proof.
  intros Hg Hl. set (sm := SpaceMap st sz sh 0 0 0 0 0 (SpaceMapPhys 0 0 0 [])).
  destruct (load_log (R := fun _ (_ : unit) => True) false sm Hg SM_ALLOC l A n (range_tree_create None tt))
    as (rt & _ & (_ & Hs & Hsp & _) & _ & Hn & Hc).
  - done.
  - by apply range_tree_create_inv.
  - intros z. apply covers_nil.
  - done.
  - exists (rt_segs rt). split; [done|]. simpl in Hn. split; [by rewrite <- Hsp|]. apply Hc.
Qed.

Section LoadBlocks.
Context {D St : Type} `{!DmuOps D} `{!DmuSpec D} {R : list range_seg -> St -> Prop}.
Context (zfs_recover : bool) (d : D) (sm : space_map) (mt : maptype) (end_ bufsize : Z).
Context (rt0 : range_tree St).
Abbreviation log := (words d (sm_object sm) 0 (Z.to_nat (end_ / 8))).

(** Reads do not return success as an error code. *)
Definition read_errors_nonzero : Prop :=
  forall off size e, dmu_read d (sm_object sm) off size = inl e -> e <> 0.

Definition reads_succeed : Prop :=
  forall off size, 0 <= off -> 0 < size -> off + size <= end_ ->
    exists ws, dmu_read d (sm_object sm) off size = inr ws.

Context (Hend : 0 <= end_ < 2 ^ 63) (Hend8 : (8 | end_)).
Context (Hbuf : 8 <= bufsize < B32) (Hbuf8 : (8 | bufsize)).
Context (Herr : read_errors_nonzero).
Context (Hpre : forall j, exists rt, load_entries zfs_recover sm mt (take j log) rt0 = Ok rt /\
  rt_inv R rt /\ rt_ops rt = rt_ops rt0).

(** The prefix of the log before a byte offset. *)
Abbreviation before offset := (take (Z.to_nat (offset / 8)) log).

Lemma before_all offset : end_ <= offset -> before offset = log.
Proof.
  intros H. apply take_ge. rewrite length_words.
  assert (end_ / 8 <= offset / 8) by (apply Z.div_le_mono; lia). lia.
Qed.

(** A block read at [offset] continues the prefix to the next offset. *)
Lemma before_next offset :
  0 <= offset < end_ -> (8 | offset) ->
  let size := Z.min (end_ - offset) bufsize in
  before (offset + bufsize) =
  before offset ++ words d (sm_object sm) (offset / 8) (Z.to_nat (size / 8)).
Proof.
  intros Ho Ho8 size. assert (Hs8 : (8 | size)).
  { unfold size. destruct (Z.min_spec (end_ - offset) bufsize) as [[_ ->]|[_ ->]]; [|done].
    by apply Z.divide_sub_r. }
  destruct Ho8 as [k ->], Hend8 as [m Em], Hs8 as [n En].
  assert (Hsz : size = Z.min (end_ - k * 8) bufsize) by done. clearbody size.
  rewrite Z.div_mul, En, Z.div_mul by lia.
  transitivity (take (Z.to_nat (k + n)) log).
  - destruct (Z.le_gt_cases bufsize (end_ - k * 8)) as [Hle|Hgt].
    + f_equal. f_equal. replace (k * 8 + bufsize) with ((k + n) * 8) by lia. apply Z.div_mul. lia.
    + rewrite before_all by lia. rewrite take_ge; [done|]. rewrite length_words, Em, Z.div_mul by lia. lia.
  - rewrite Em, Z.div_mul by lia.
    replace (Z.to_nat m) with (Z.to_nat k + (Z.to_nat n + Z.to_nat (m - k - n)))%nat by lia.
    rewrite !words_app, (take_app_length' _ _ (Z.to_nat k)) by (by rewrite length_words).
    rewrite app_assoc, take_app_length' by (rewrite length_app, !length_words; lia).
    do 2 f_equal. lia.
Qed.

(** Reading the log block by block loads the same entries as reading it whole,
    up to the first failed read. *)
Lemma load_blocks_spec fuel offset rt :
  0 <= offset -> (8 | offset) -> end_ - offset < Z.of_nat fuel * bufsize ->
  load_entries zfs_recover sm mt (before offset) rt0 = Ok rt ->
  exists error rt', load_blocks zfs_recover fuel d sm mt end_ bufsize offset rt = Ok (error, rt') /\
    rt_inv R rt' /\ rt_ops rt' = rt_ops rt0 /\
    (error = 0 -> load_entries zfs_recover sm mt log rt0 = Ok rt') /\ (reads_succeed -> error = 0).
Proof.
  revert offset rt. induction fuel as [|fuel IH]; intros offset rt Ho Ho8 Hf E;
    destruct (Hpre (Z.to_nat (offset / 8))) as (rt' & E' & Hinv & Hops); rewrite E in E';
    injection E' as <-; cbn [load_blocks]; destruct (Z.ltb_spec offset end_) as [Hlt|Hge].
  - lia.
  - exists 0, rt. rewrite before_all in E by lia. auto.
  - pose proof (before_next offset ltac:(lia) Ho8) as Hnext. simpl in Hnext.
    rewrite (wrap64_small (end_ - offset)) by (split; lia).
    set (size := Z.min (end_ - offset) bufsize) in *.
    assert (Hs8 : (8 | size)).
    { unfold size. destruct (Z.min_spec (end_ - offset) bufsize) as [[_ ->]|[_ ->]]; [|done].
      by apply Z.divide_sub_r. }
    change (P2PHASE size 8) with (P2PHASE size (2 ^ 3)). rewrite P2PHASE_mod by lia.
    rewrite (proj2 (Z.mod_divide size (2 ^ 3) ltac:(lia)) Hs8), (proj2 (Z.eqb_neq size 0)) by lia. simpl.
    destruct (dmu_read d (sm_object sm) offset size) as [e|ws] eqn:Er.
    + pose proof (Herr _ _ _ Er). exists e, rt. split_and!; auto; [done|].
      intros Hok. destruct (Hok offset size) as [ws Er']; [lia..|congruence].
    + apply words_read in Er as ->; [|done|done|lia].
      destruct (Hpre (Z.to_nat ((offset + bufsize) / 8))) as (rt1 & E1 & _ & _).
      pose proof E1 as E2. rewrite Hnext, load_entries_app, E in E2. simpl in E2. rewrite E2. simpl.
      rewrite wrap64_small by (split; lia). apply IH; auto; [lia|by apply Z.divide_add_r|lia].
  - exists 0, rt. rewrite before_all in E by lia. auto.
Qed.
End LoadBlocks.

(** ** What a batch of entries does to a log *)

(** The allocated offsets after a batch of type [mt] for the offsets [P]. *)
Definition sm_effect (mt : maptype) (P A A' : Z -> Prop) : Prop :=
  match mt with
  | SM_ALLOC => (forall z, P z -> ~ A z) /\ (forall z, A' z <-> A z \/ P z)
  | SM_FREE => (forall z, P z -> A z) /\ (forall z, A' z <-> A z /\ ~ P z)
  end.

Definition signed (mt : maptype) (m : Z) : Z := match mt with SM_ALLOC => m | SM_FREE => - m end.

(** The entries [es] record [P], of [m] bytes. *)
Definition es_for (st sz sh : Z) (mt : maptype) (es : list Z) (P : Z -> Prop) (m : Z) : Prop :=
  forall l A A' n, log_sets st sz sh l A n -> sm_effect mt P A A' ->
    log_sets st sz sh (l ++ es) A' (n + signed mt m).

Section Batch.
Context (st sz sh : Z) (mt : maptype).
Implicit Types P : Z -> Prop.

Lemma es_for_nil P : (forall z, ~ P z) -> es_for st sz sh mt [] P 0.
Proof.
  intros HP l A A' n Hl He. rewrite app_nil_r.
  replace (n + signed mt 0) with n by (destruct mt; simpl; lia).
  eapply log_sets_ext; [|done]. intros z. specialize (HP z).
  destruct mt; destruct He as [_ He]; rewrite He; tauto.
Qed.

Lemma es_for_app es1 es2 P1 P2 P m1 m2 :
  es_for st sz sh mt es1 P1 m1 -> es_for st sz sh mt es2 P2 m2 ->
  (forall z, P1 z -> ~ P2 z) -> (forall z, P z <-> P1 z \/ P2 z) ->
  es_for st sz sh mt (es1 ++ es2) P (m1 + m2).
Proof.
  intros H1 H2 Hd HP l A A' n Hl He. rewrite app_assoc.
  replace (n + signed mt (m1 + m2)) with (n + signed mt m1 + signed mt m2) by (destruct mt; simpl; lia).
  eapply (H2 _ (match mt with SM_ALLOC => fun z => A z \/ P1 z | SM_FREE => fun z => A z /\ ~ P1 z end)).
  - eapply H1; [done|]. destruct mt; simpl in *; destruct He as [He _]; (split; [|done]);
      intros z Hz; apply He, HP; tauto.
  - destruct mt; simpl in *; destruct He as [He1 He2]; split; intros z;
      specialize (He1 z); specialize (He2 z); specialize (HP z); specialize (Hd z); tauto.
Qed.

Lemma es_for_run start run :
  0 <= start -> 1 <= run <= SM_RUN_MAX -> (start + run) * 2 ^ sh <= sz ->
  es_for st sz sh mt [sm_entry start mt run] (in_run st sh start run) (run * 2 ^ sh).
Proof.
  intros H1 H2 H3 l A A' n Hl He. destruct mt; destruct He as [He1 He2].
  - by eapply log_alloc.
  - by eapply log_free.
Qed.

Lemma es_for_debug t sync_pass txg es P m :
  es_for st sz sh mt es P m -> es_for st sz sh mt (sm_debug_entry t sync_pass txg :: es) P m.
Proof.
  intros H l A A' n Hl He. change (sm_debug_entry t sync_pass txg :: es) with ([sm_debug_entry t sync_pass txg] ++ es).
  rewrite app_assoc. eapply H; [|done]. apply log_debug; [done|].
  destruct (sm_debug_entry_fields t sync_pass txg) as [-> _]. done.
Qed.

End Batch.

(** ** Writing *)

Section Write.
Context {D : Type} `{!DmuOps D} `{!DmuSpec D} (sm : space_map) (mt : maptype).
Context (Hwf : sm_wf sm).
Implicit Types w : wstate D.
Abbreviation st := (sm_start sm).
Abbreviation sz := (sm_size sm).
Abbreviation sh := (sm_shift sm).

(** The log a writer has produced: what it flushed and what it buffers. *)
Definition wlog w : list Z :=
  words (w_dmu w) (sm_object sm) 0 (Z.to_nat (w_objsize w / 8)) ++ w_buf w.

(** The length of that log in bytes. *)
Definition wlen w : Z := w_objsize w + 8 * Z.of_nat (length (w_buf w)).

Definition w_ok w : Prop :=
  0 <= w_objsize w /\ (8 | w_objsize w) /\ 8 * Z.of_nat (length (w_buf w)) <= sm_blksz sm /\
  wlen w < 2 ^ 63.

(** [w'] has flushed or buffered [es] after [w] and touched no other object. *)
Definition w_step w (es : list Z) w' : Prop :=
  w_ok w' /\ wlog w' = wlog w ++ es /\ wlen w' = wlen w + 8 * Z.of_nat (length es) /\
  (forall obj i, obj <> sm_object sm -> dmu_word (w_dmu w') obj i = dmu_word (w_dmu w) obj i).

Lemma w_step_app w es w' es' w'' :
  w_step w es w' -> w_step w' es' w'' -> w_step w (es ++ es') w''.
Proof.
  intros (_ & Hl1 & Hn1 & Ho1) (Hok & Hl2 & Hn2 & Ho2). split_and!; auto.
  - by rewrite Hl2, Hl1, app_assoc.
  - rewrite length_app. lia.
  - intros obj i Hne. by rewrite Ho2, Ho1.
Qed.

Lemma w_step_refl w : w_ok w -> w_step w [] w.
Proof. intros H. split_and!; auto; [by rewrite app_nil_r|simpl; lia]. Qed.

(** Writing the buffer out at the end of the object. *)
Definition flush w : wstate D :=
  let size := 8 * Z.of_nat (length (w_buf w)) in
  WState [] (wrap64 (w_objsize w + size))
    (dmu_write (w_dmu w) (sm_object sm) (w_objsize w) size (w_buf w)).

Lemma flush_step w : w_ok w -> w_step w [] (flush w) /\ w_buf (flush w) = [].
Proof.
  intros (H0 & H8 & Hb & Hlen). split; [|done]. unfold wlen in Hlen.
  assert (Hw : wrap64 (w_objsize w + 8 * Z.of_nat (length (w_buf w))) =
    w_objsize w + 8 * Z.of_nat (length (w_buf w))) by (apply wrap64_small; split; lia).
  assert (Hf8 : (8 | w_objsize w + 8 * Z.of_nat (length (w_buf w)))).
  { apply Z.divide_add_r; [done|]. apply Z.divide_factor_l. }
  split_and!.
  - unfold w_ok, wlen, flush. simpl. rewrite Hw. pose proof (wf_blksz _ Hwf). split_and!; done || lia.
  - unfold wlog, flush. simpl. rewrite Hw, !app_nil_r.
    replace (Z.to_nat ((w_objsize w + 8 * Z.of_nat (length (w_buf w))) / 8))
      with (Z.to_nat (w_objsize w / 8) + length (w_buf w))%nat.
    2:{ destruct H8 as [k Ek]. rewrite Ek, (Z.mul_comm 8), <- Z.mul_add_distr_r, !Z.div_mul by lia. lia. }
    rewrite words_app. f_equal.
    + apply words_ext. intros i Hi. rewrite dmu_write_spec, decide_False; [done|lia|done].
    + rewrite Z.add_0_l, Z2Nat.id by (apply Z.div_pos; lia). by apply words_write.
  - unfold wlen, flush. simpl. rewrite Hw. lia.
  - intros obj i Hne. simpl. rewrite dmu_write_spec, decide_False; [done|tauto|done].
Qed.

Lemma put_entry_step w e :
  w_ok w -> wlen w + 8 < 2 ^ 63 -> 8 * Z.of_nat (length (w_buf w)) < sm_blksz sm ->
  exists w', put_entry sm e w = Ok w' /\ w_step w [e] w'.
Proof.
  intros (H0 & H8 & Hb & Hlen) Hl Hlt. unfold put_entry. destruct Hwf as [_ _ ? [b Eb] _ _].
  rewrite (proj2 (Z.ltb_lt _ _)) by (rewrite Eb, Z.div_mul; lia). eexists. split; [done|].
  unfold w_step, w_ok, wlen, wlog in *. simpl. rewrite length_app. simpl.
  split_and!; auto; [lia..|by rewrite app_assoc|lia].
Qed.

Lemma howmany_eq size : 0 <= size < 2 ^ 48 -> howmany size SM_RUN_MAX = (size + 32767) / 32768.
Proof. intros. unfold howmany. rewrite SM_RUN_MAX_eq, wrap64_small by (split; lia). done. Qed.

Lemma howmany_step size :
  0 < size < 2 ^ 48 ->
  howmany size SM_RUN_MAX = 1 + howmany (size - Z.min size SM_RUN_MAX) SM_RUN_MAX.
Proof.
  intros. rewrite !howmany_eq, SM_RUN_MAX_eq by (rewrite ?SM_RUN_MAX_eq; lia).
  Z.div_mod_to_equations. lia.
Qed.

Lemma howmany_pos size : 0 < size < 2 ^ 48 -> 0 < howmany size SM_RUN_MAX <= size.
Proof. intros. rewrite howmany_eq by lia. Z.div_mod_to_equations. lia. Qed.

(** Room for one more entry, after a flush if the buffer is full. *)
Lemma room_step w e :
  w_ok w -> wlen w + 8 < 2 ^ 63 ->
  exists w', put_entry sm e
      (if Z.of_nat (length (w_buf w)) =? sm_blksz sm / 8 then
         WState [] (wrap64 (w_objsize w + sm_blksz sm))
           (dmu_write (w_dmu w) (space_map_object (Some sm)) (w_objsize w) (sm_blksz sm) (w_buf w))
       else w) = Ok w' /\ w_step w [e] w'.
Proof.
  intros Hok Hl. destruct Hwf as [_ _ Hb [b Eb] _ _]. rewrite Eb, Z.div_mul by lia. rewrite <- Eb.
  destruct (Z.eqb_spec (Z.of_nat (length (w_buf w))) b) as [E|E]; simpl.
  - assert (Ef : WState [] (wrap64 (w_objsize w + sm_blksz sm))
      (dmu_write (w_dmu w) (sm_object sm) (w_objsize w) (sm_blksz sm) (w_buf w)) = flush w).
    { unfold flush. by replace (8 * Z.of_nat (length (w_buf w))) with (sm_blksz sm) by lia. }
    rewrite Ef. destruct (flush_step w Hok) as [Hs Hnil]. pose proof Hs as (Hok' & _ & Hlen & _).
    simpl in Hlen. destruct (put_entry_step (flush w) e Hok') as (w' & E' & Hs'); [lia|rewrite Hnil; simpl; lia|].
    exists w'. split; [done|]. by apply (w_step_app w [] _ [e] w' Hs).
  - apply put_entry_step; [done..|]. destruct Hok as (_ & _ & Hle & _). lia.
Qed.

Lemma write_runs_spec fuel start size w :
  w_ok w -> 0 <= size < 2 ^ 48 -> howmany size SM_RUN_MAX <= Z.of_nat fuel -> 0 <= start ->
  (start + size) * 2 ^ sh <= sz -> wlen w + 8 * size < 2 ^ 63 ->
  exists es w', write_runs fuel sm mt start size w = Ok w' /\ w_step w es w' /\
    es_for st sz sh mt es (in_run st sh start size) (size * 2 ^ sh) /\
    Z.of_nat (length es) = howmany size SM_RUN_MAX.
Proof.
  pose proof (wf_geom _ Hwf) as Hg. assert (Hp : 0 < 2 ^ sh) by (destruct Hg; apply pow_pos; lia).
  revert start size w. induction fuel as [|fuel IH]; intros start size w Hok Hsz Hf Hst Hend Hlen.
  all: cbn [write_runs]; destruct (Z.eqb_spec size 0) as [->|Hne];
    [exists [], w; split_and!; [done|by apply w_step_refl| |done];
     apply es_for_nil; unfold in_run; intros z; lia|].
  { pose proof (howmany_pos size). lia. }
  set (run := Z.min size SM_RUN_MAX).
  assert (Hrun : 1 <= run <= size /\ run <= SM_RUN_MAX) by (unfold run; rewrite SM_RUN_MAX_eq; lia).
  destruct (room_step w (sm_entry start mt run) Hok) as (w1 & Ew & Hs1); [lia|].
  cbv zeta. rewrite Ew. simpl.
  pose proof Hs1 as (Hok1 & _ & Hlen1 & _). simpl in Hlen1.
  assert (Hst1 : start + run < B64) by (destruct Hg; nia).
  rewrite wrap64_small by (split; lia).
  destruct (IH (start + run) (size - run) w1) as (es & w2 & E & Hs2 & Hes & Hn); auto; [lia| |lia| |lia|].
  { rewrite (howmany_step size) in Hf by lia. fold run in Hf. lia. }
  { replace (start + run + (size - run)) with (start + size) by lia. done. }
  exists (sm_entry start mt run :: es), w2. split_and!.
  - done.
  - by apply (w_step_app w [_] w1 es w2).
  - replace (size * 2 ^ sh) with (run * 2 ^ sh + (size - run) * 2 ^ sh) by lia.
    apply (es_for_app st sz sh mt [_] es (in_run st sh start run) (in_run st sh (start + run) (size - run))).
    + apply es_for_run; nia.
    + done.
    + unfold in_run. lia.
    + unfold in_run. intros z. replace (start + run + (size - run)) with (start + size) by lia. nia.
  - simpl length. rewrite (howmany_step size) by lia. fold run. lia.
Qed.

(** A segment of whole units inside the region. *)
Definition seg_in (rs : range_seg) : Prop :=
  (2 ^ sh | rs_start rs) /\ (2 ^ sh | rs_end rs) /\
  st <= rs_start rs < rs_end rs /\ rs_end rs <= st + sz.

Lemma seg_as_run rs :
  seg_in rs -> exists a n, 0 <= a /\ 0 < n < 2 ^ 48 /\ (a + n) * 2 ^ sh <= sz /\
    seg_units sm rs = n /\ Z.shiftr (wrap64 (rs_start rs - st)) sh = a /\
    rs_start rs = st + a * 2 ^ sh /\ rs_end rs = st + (a + n) * 2 ^ sh.
Proof.
  intros ([x Hx] & [y Hy] & H1 & H2). destruct (wf_geom _ Hwf). destruct geom_start_aligned0 as [k Hk].
  assert (Hp : 0 < 2 ^ sh) by (apply pow_pos; lia).
  exists (x - k), (y - x). unfold seg_units, rs_size.
  rewrite !wrap64_small, !Z.shiftr_div_pow2 by first [lia|split; lia].
  assert (E1 : rs_end rs - rs_start rs = (y - x) * 2 ^ sh) by lia.
  assert (E2 : rs_start rs - st = (x - k) * 2 ^ sh) by lia.
  rewrite E1, E2, !Z.div_mul by lia. split_and!; try done; try nia.
Qed.

Definition units (segs : list range_seg) : Z := foldr (fun rs n => seg_units sm rs + n) 0 segs.

Definition entry_count (segs : list range_seg) : Z :=
  foldr (fun rs n => howmany (seg_units sm rs) SM_RUN_MAX + n) 0 segs.

Lemma units_total segs : Forall seg_in segs ->
  total segs = units segs * 2 ^ sh /\ 0 <= entry_count segs <= units segs.
Proof.
  induction 1 as [|rs segs Hrs _ IH]; simpl; [lia|].
  destruct (seg_as_run rs Hrs) as (a & n & Ha & Hn & Hle & -> & _ & E1 & E2).
  pose proof (howmany_pos n). lia.
Qed.

Lemma write_segs_spec segs w tot :
  w_ok w -> segs_ok segs -> Forall seg_in segs -> wlen w + 8 * units segs < 2 ^ 63 ->
  0 <= tot -> tot + total segs < B64 ->
  exists es w', write_segs sm mt segs w tot = Ok (w', tot + total segs) /\ w_step w es w' /\
    es_for st sz sh mt es (covers segs) (total segs) /\ Z.of_nat (length es) = entry_count segs.
Proof.
  revert w tot. induction segs as [|rs segs IH]; intros w tot Hok Hs Hin Hlen Ht Htot.
  { exists [], w. split_and!; [simpl; do 2 f_equal; lia|by apply w_step_refl| |done].
    apply es_for_nil. intros z. rewrite covers_nil. tauto. }
  pose proof Hs as (_ & Hs' & _ & _ & _)%(segs_ok_mid []). pose proof (total_u64 _ Hs') as Htu.
  apply Forall_cons in Hin as [Hrs Hin]. destruct (units_total segs Hin) as [_ Hun].
  destruct (seg_as_run rs Hrs) as (a & n & Ha & Hn & Hle & En & Ea & E1 & E2). simpl in *.
  rewrite En, Ea in *. assert (Hmul : rs_end rs - rs_start rs = n * 2 ^ sh) by lia.
  assert (Hfuel : howmany n SM_RUN_MAX <= Z.of_nat (Z.to_nat (n / SM_RUN_MAX + 1))).
  { rewrite howmany_eq, SM_RUN_MAX_eq by lia. Z.div_mod_to_equations. lia. }
  destruct (write_runs_spec _ a n w Hok ltac:(lia) Hfuel Ha Hle) as (es1 & w1 & -> & Hs1 & He1 & Hn1); [lia|].
  simpl. pose proof Hs1 as (Hok1 & _ & Hlen1 & _). pose proof (howmany_pos n ltac:(lia)).
  assert (0 <= sh) by (destruct (wf_geom _ Hwf); lia).
  rewrite Z.shiftl_mul_pow2, <- Hmul by done. destruct Hrs as (_ & _ & Hrs & _).
  rewrite (wrap64_small (rs_end rs - _)), wrap64_small by (split; lia).
  destruct (IH w1 (tot + (rs_end rs - rs_start rs))) as (es2 & w2 & -> & Hs2 & He2 & Hn2); auto; [lia..|].
  exists (es1 ++ es2), w2. split_and!.
  - do 2 f_equal. lia.
  - by eapply w_step_app.
  - rewrite Hmul. apply (es_for_app st sz sh mt es1 es2 (in_run st sh a n) (covers segs)); auto.
    + unfold in_run. intros z Hz Hc. apply (covers_tail rs segs z Hs) in Hc as [_ Hc]. lia.
    + intros z. rewrite covers_cons. unfold in_run. by rewrite E1, E2.
  - rewrite length_app. lia.
Qed.

Lemma space_map_entries_eq {St} (rt : range_tree St) :
  Forall seg_in (range_tree_segs rt) -> units (range_tree_segs rt) < 2 ^ 62 ->
  space_map_entries sm rt = 1 + entry_count (range_tree_segs rt).
Proof.
  unfold space_map_entries. generalize (range_tree_segs rt) as segs.
  assert (H : forall segs acc, Forall seg_in segs -> 0 <= acc -> acc + units segs < 2 ^ 63 ->
    fold_left (fun entries rs => wrap64 (entries + howmany (seg_units sm rs) SM_RUN_MAX)) segs acc =
    acc + entry_count segs); [|intros; apply H; auto; lia].
  induction segs as [|rs segs IH]; intros acc Hin Hacc Hu; simpl in *; [lia|].
  apply Forall_cons in Hin as [Hrs Hin]. destruct (units_total segs Hin) as [_ Hun].
  destruct (seg_as_run rs Hrs) as (a & n & Ha & Hn & _ & En & _). rewrite En in *.
  pose proof (howmany_pos n). rewrite wrap64_small by (split; lia). rewrite IH; auto; lia.
Qed.

Lemma units_bound segs : segs_ok segs -> Forall seg_in segs -> units segs <= 2 ^ 47.
Proof.
  intros Hs Hin. destruct (units_total segs Hin) as [Htot _]. destruct (wf_geom _ Hwf).
  assert (total segs <= st + sz - st).
  { apply total_within; [done|lia|]. intros z (rs & Hrs & Hz)%covers_elem.
    rewrite Forall_forall in Hin. destruct (Hin rs Hrs) as (_ & _ & ? & ?). lia. }
  pose proof (pow_pos sh). nia.
Qed.

Lemma write_batch_spec d segs sync_pass txg :
  segs_ok segs -> Forall seg_in segs -> smp_objsize (sm_phys sm) < 2 ^ 62 ->
  exists es w, write_batch d sm mt sync_pass txg segs = Ok (w, total segs) /\
    w_step (WState [] (smp_objsize (sm_phys sm)) d) es w /\ w_buf w = [] /\
    es_for st sz sh mt es (covers segs) (total segs) /\ Z.of_nat (length es) = 1 + entry_count segs.
Proof.
  intros Hs Hin Hsize. pose proof (units_bound segs Hs Hin) as Hun. pose proof (total_u64 _ Hs).
  pose proof (wf_objsize _ Hwf). pose proof (wf_objsize8 _ Hwf). pose proof (wf_blksz _ Hwf).
  set (w0 := WState [] (smp_objsize (sm_phys sm)) d).
  assert (Hok0 : w_ok w0) by (unfold w_ok, wlen, w0; simpl; split_and!; done || lia).
  destruct (put_entry_step w0 (sm_debug_entry mt sync_pass txg) Hok0) as (w1 & E1 & Hs1);
    [unfold wlen; simpl; lia|simpl; lia|]. pose proof Hs1 as (Hok1 & _ & Hlen1 & _).
  destruct (write_segs_spec segs w1 0 Hok1 Hs Hin) as (es & w2 & E2 & Hs2 & Hes & Hn);
    [unfold wlen in *; simpl in *; lia|lia|lia|].
  assert (Hfin : w_step w2 [] (finish_write sm w2) /\ w_buf (finish_write sm w2) = []).
  { pose proof Hs2 as (Hok2 & _). pose proof (flush_step w2 Hok2) as Hf. unfold finish_write, flush in *.
    destruct (w_buf w2) eqn:E; [|done]. split; [by apply w_step_refl|done]. }
  destruct Hfin as [Hs3 Hb]. unfold write_batch. fold w0. rewrite E1. simpl. rewrite E2. simpl.
  exists (sm_debug_entry mt sync_pass txg :: es), (finish_write sm w2). split_and!; auto.
  - rewrite <- (app_nil_r es). eapply (w_step_app w0 [_]); [done|]. by eapply w_step_app.
  - by apply es_for_debug.
  - simpl length. lia.
Qed.

End Write.

(** ** The histogram *)

(** The counts [l] of buckets of growing size, in units of the first one. *)
Fixpoint wsum (e : nat) (l : list Z) : Z :=
  match l with [] => 0 | n :: l' => n * 2 ^ Z.of_nat e + wsum (S e) l' end.

Lemma histogram_last hist extra smh x :
  (31 < length smh)%nat -> smh !! 31%nat = Some x -> is_u64 x ->
  histogram_loop hist 31 extra smh = <[31%nat := wrap64 (x + wsum extra hist)]> smh.
Proof.
  revert extra smh x. induction hist as [|n hist IH]; intros extra smh x Hl Hx Hu; simpl.
  - rewrite Z.add_0_r, wrap64_small by done. by rewrite list_insert_id.
  - rewrite (IH _ _ (wrap64 (x + wrap64 (Z.shiftl n (Z.of_nat extra))))).
    + rewrite Z.shiftl_mul_pow2 by lia. rewrite wrap64_add_r, wrap64_add_l, Z.add_assoc.
      apply list_eq. intros i. destruct (decide (i = 31%nat)) as [->|Hne].
      * by rewrite !list_lookup_insert_eq by (rewrite ?length_alter; lia).
      * by rewrite !list_lookup_insert_ne, list_lookup_alter_ne by done.
    + by rewrite length_alter.
    + by rewrite list_lookup_alter_eq, Hx.
    + apply wrap64_range.
Qed.

(** Below the last bucket each count is added to its own bucket; the last one
    takes all the larger ranges, in units of its own size. *)
Lemma histogram_loop_spec hist idx smh :
  length smh = SPACE_MAP_HISTOGRAM_SIZE -> (idx <= 31)%nat -> Forall is_u64 smh ->
  (forall j, (j < 31)%nat -> histogram_loop hist idx 0 smh !! j =
     if decide (idx <= j)%nat then (fun x => wrap64 (x + nth (j - idx) hist 0)) <$> smh !! j else smh !! j) /\
  histogram_loop hist idx 0 smh !! 31%nat =
    (fun x => wrap64 (x + wsum 0 (drop (31 - idx) hist))) <$> smh !! 31%nat.
Proof.
  assert (Hid : forall smh j, Forall is_u64 smh -> smh !! j = (fun x => wrap64 (x + 0)) <$> smh !! j).
  { intros l j Hu. destruct (l !! j) as [x|] eqn:E; simpl; [|done].
    rewrite Z.add_0_r, wrap64_small; [done|]. by eapply Forall_lookup. }
  revert idx smh. induction hist as [|n hist IH]; intros idx smh Hl Hi Hu.
  { simpl. rewrite drop_nil. split; [|by apply Hid].
    intros j Hj. destruct (decide _); [|done]. destruct (j - idx)%nat; by apply Hid. }
  destruct (decide (idx = 31%nat)) as [->|Hne].
  - destruct (lookup_lt_is_Some_2 smh 31%nat) as [x Hx]; [rewrite Hl; unfold SPACE_MAP_HISTOGRAM_SIZE; lia|].
    rewrite (histogram_last _ _ _ x) by (done || (rewrite Hl; unfold SPACE_MAP_HISTOGRAM_SIZE; lia) || by eapply Forall_lookup).
    split.
    + intros j Hj. rewrite list_lookup_insert_ne, decide_False by lia. done.
    + rewrite Hx, list_lookup_insert_eq by (rewrite Hl; unfold SPACE_MAP_HISTOGRAM_SIZE; lia). done.
  - cbn [histogram_loop]. rewrite (proj2 (Nat.ltb_lt idx _)) by (unfold SPACE_MAP_HISTOGRAM_SIZE; lia).
    change (Z.of_nat 0) with 0. rewrite Z.shiftl_0_r.
    destruct (IH (S idx) (alter (fun x => wrap64 (x + wrap64 n)) idx smh)) as [IH1 IH2];
      [by rewrite length_alter|lia| |].
    { apply Forall_alter; [done|]. intros. apply wrap64_range. }
    split.
    + intros j Hj. rewrite IH1 by done. destruct (decide (S idx <= j)%nat).
      * rewrite decide_True, list_lookup_alter_ne by lia.
        by replace (j - idx)%nat with (S (j - S idx)) by lia.
      * destruct (decide (idx = j)) as [->|].
        -- rewrite list_lookup_alter_eq, decide_True, Nat.sub_diag by lia. simpl.
           destruct (smh !! j); simpl; [|done]. by rewrite wrap64_add_r.
        -- by rewrite list_lookup_alter_ne, decide_False by lia.
    + rewrite IH2, list_lookup_alter_ne by lia. by replace (31 - idx)%nat with (S (31 - S idx)) by lia.
Qed.

(** ** What the component promises *)

Section Correct.
Context {D St : Type} `{!DmuOps D} `{!DmuSpec D} (R : list range_seg -> St -> Prop).
Context (zfs_recover : bool).

(** A run entry decodes to the offset, type and length it was built from
    and is not a debug entry; a debug entry decodes to its action, sync pass and
    transaction group. *)
Theorem sm_entry_roundtrip start t run sync_pass txg :
  0 <= start < 2 ^ 47 -> 1 <= run <= SM_RUN_MAX -> 0 <= sync_pass < 2 ^ 10 -> 0 <= txg < 2 ^ 50 ->
  SM_DEBUG_DECODE (sm_entry start t run) = 0 /\ SM_OFFSET_DECODE (sm_entry start t run) = start /\
  SM_TYPE_DECODE (sm_entry start t run) = maptype_val t /\
  SM_RUN_DECODE (sm_entry start t run) = run /\
  SM_DEBUG_DECODE (sm_debug_entry t sync_pass txg) = 1 /\
  SM_DEBUG_ACTION_DECODE (sm_debug_entry t sync_pass txg) = maptype_val t /\
  SM_DEBUG_SYNCPASS_DECODE (sm_debug_entry t sync_pass txg) = sync_pass /\
  SM_DEBUG_TXG_DECODE (sm_debug_entry t sync_pass txg) = txg.
Proof.
  intros H1 H2 H3 H4. destruct (sm_entry_fields start t run H1 H2) as (? & ? & ? & ?).
  destruct (sm_debug_entry_fields t sync_pass txg) as (? & ? & ? & ?). auto 10.
Qed.

(** A write of the tree [rt] to a map that records [A]. *)
Lemma space_map_write_spec (d : D) sm A (rt : range_tree St) mt sync_pass txg A' :
  sm_inv d sm A -> rt_inv R rt -> Forall (seg_in sm) (rt_segs rt) ->
  smp_objsize (sm_phys sm) < 2 ^ 62 -> sm_effect mt (covers (rt_segs rt)) A A' ->
  exists p d' es, space_map_write d sm rt mt sync_pass txg = Ok (set_phys sm p, d') /\
    sm_inv d' (set_phys sm p) A' /\ sm_log d' (set_phys sm p) = sm_log d sm ++ es /\
    (rt_segs rt <> [] -> Z.of_nat (length es) = space_map_entries sm rt) /\
    (forall obj i, obj <> sm_object sm -> dmu_word d' obj i = dmu_word d obj i) /\
    smp_objsize p <= smp_objsize (sm_phys sm) + 2 ^ 51.
Proof.
  intros [Hwf Hlog] Hinv Hin Hsize Heff. pose proof (wf_geom _ Hwf) as Hg.
  pose proof (range_tree_segs_ok rt Hinv) as Esegs. pose proof Hinv as (_ & Hs & Hsp & _).
  pose proof (total_u64 _ Hs) as Htu.
  unfold space_map_write. simpl. rewrite (proj2 (Z.eqb_neq _ _)) by (apply (wf_object _ Hwf)). simpl.
  unfold range_tree_space. destruct (Z.eqb_spec (rt_space rt) 0) as [Hz|Hnz].
  - assert (Enil : rt_segs rt = []).
    { apply length_zero_iff_nil. lia. }
    eexists _, d, []. split; [done|].
    split; [split|split; [by rewrite app_nil_r|split_and!; [done|done|simpl; lia]]].
    + destruct Hwf. by constructor.
    + simpl. rewrite Enil in Heff. eapply log_sets_ext; [|done]. intros z.
      destruct mt; destruct Heff as [_ Heff]; rewrite Heff, covers_nil; tauto.
  - rewrite Esegs. destruct (write_batch_spec sm mt Hwf d (rt_segs rt) sync_pass txg Hs Hin Hsize)
      as (es & w & -> & (Hok & Hlog' & Hwl & Hoth) & Hb & Hes & Hn). simpl. rewrite Hsp, Z.eqb_refl.
    unfold wlog in Hlog'. simpl in Hlog'. rewrite Hb, !app_nil_r in Hlog'.
    assert (Hnew : log_sets (sm_start sm) (sm_size sm) (sm_shift sm) (sm_log d sm ++ es) A'
      (smp_alloc (sm_phys sm) + signed mt (total (rt_segs rt)))) by (by eapply Hes).
    pose proof (log_sets_bounds _ _ _ _ _ _ Hg Hnew) as Hbd.
    assert (Ealloc : match mt with
      | SM_ALLOC => wrap64 (smp_alloc (sm_phys sm) + total (rt_segs rt))
      | SM_FREE => wrap64 (smp_alloc (sm_phys sm) - total (rt_segs rt))
      end = smp_alloc (sm_phys sm) + signed mt (total (rt_segs rt))).
    { destruct Hg. destruct mt; simpl in *; apply wrap64_small; split; lia. }
    rewrite Ealloc. eexists _, _, es. split; [done|]. split; [split|split; [|split; [|split; [done|]]]].
    + destruct Hwf, Hok as (H0 & H8 & _ & Hlt). unfold wlen in Hlt. constructor; simpl; done || lia.
    + simpl. unfold sm_log in *. simpl. by rewrite Hlog'.
    + simpl. unfold sm_log in *. simpl. by rewrite Hlog'.
    + intros _. rewrite (space_map_entries_eq sm Hwf), Esegs; rewrite ?Esegs; auto.
      pose proof (units_bound sm Hwf (rt_segs rt) Hs Hin). lia.
    + pose proof (units_bound sm Hwf (rt_segs rt) Hs Hin). destruct (units_total sm Hwf (rt_segs rt) Hin) as [_ ?].
      unfold wlen in Hwl. simpl in Hwl |- *. rewrite Hb in Hwl. simpl in Hwl. lia.
Qed.

(** C20: [space_map_write] appends to the log exactly the entries that record
    the segments of the tree: a map that records the allocated set [A] records
    [A] with the tree's offsets added (or taken out) after it, with the new
    amount allocated, the number of entries that [space_map_entries] computes,
    the old log a prefix of the new one and other objects untouched.  Segments
    longer than a run are split and full blocks are flushed on the way. *)
Theorem space_map_write_correct (d : D) sm A (rt : range_tree St) mt sync_pass txg A' :
  sm_inv d sm A -> rt_inv R rt -> Forall (seg_in sm) (rt_segs rt) ->
  smp_objsize (sm_phys sm) < 2 ^ 62 -> sm_effect mt (covers (rt_segs rt)) A A' ->
  exists sm' d' es, space_map_write d sm rt mt sync_pass txg = Ok (sm', d') /\ sm_inv d' sm' A' /\
    sm_log d' sm' = sm_log d sm ++ es /\
    (rt_segs rt <> [] -> Z.of_nat (length es) = space_map_entries sm rt) /\
    sm_object sm' = sm_object sm /\
    (forall obj i, obj <> sm_object sm -> dmu_word d' obj i = dmu_word d obj i).
Proof.
  intros Hinv Hrt Hin Hsize Heff.
  destruct (space_map_write_spec d sm A rt mt sync_pass txg A' Hinv Hrt Hin Hsize Heff)
    as (p & d' & es & H1 & H2 & H3 & H4 & H5 & _).
  exists (set_phys sm p), d', es. auto 10.
Qed.

(** The tree a load starts from: empty, or the whole region. *)
Lemma load_start sm mt (rt : range_tree St) :
  sm_geom sm -> rt_inv R rt -> rt_segs rt = [] -> 0 <= sm_alloc sm <= sm_size sm ->
  exists rt0, (if decide (mt = SM_FREE) then
       rt ← range_tree_add zfs_recover rt (sm_start sm) (sm_size sm);
       Ok (rt, wrap64 (sm_size sm - space_map_allocated (Some sm)))
     else Ok (rt, space_map_allocated (Some sm))) = Ok (rt0, loaded_space (sm_size sm) mt (sm_alloc sm)) /\
    rt_inv R rt0 /\ rt_ops rt0 = rt_ops rt /\ rt_space rt0 = loaded_space (sm_size sm) mt 0 /\
    (forall z, covers (rt_segs rt0) z <-> loaded (sm_start sm) (sm_size sm) mt (fun _ => False) z).
Proof.
  intros Hg Hinv Hnil Hal. pose proof Hinv as (_ & _ & Hsp & _). rewrite Hnil in Hsp. destruct Hg.
  destruct mt; simpl in *.
  - exists rt. split_and!; auto. intros z. by rewrite Hnil, covers_nil.
  - destruct (range_tree_add_disjoint (R := R) zfs_recover rt (sm_start sm) (sm_size sm) Hinv)
      as (rt0 & -> & Hinv0 & Ho & Hsp0 & Hc).
    + unfold range_ok. lia.
    + intros z _. rewrite Hnil, covers_nil. tauto.
    + simpl. rewrite wrap64_small by (split; lia). exists rt0. split_and!; auto; [lia|].
      intros z. rewrite Hc, Hnil, covers_nil. unfold in_region. tauto.
Qed.

(** A load of a map that records [A] into an empty tree. *)
Lemma space_map_load_spec (d : D) sm A (rt : range_tree St) mt :
  sm_inv d sm A -> sm_synced sm -> read_errors_nonzero d sm -> rt_inv R rt -> rt_segs rt = [] ->
  exists error rt', space_map_load zfs_recover d sm rt mt = Ok (error, rt') /\ rt_inv R rt' /\
    rt_ops rt' = rt_ops rt /\ (error <> 0 -> rt_segs rt' = []) /\
    (reads_succeed d sm (sm_length sm) -> error = 0) /\
    (error = 0 -> rt_space rt' = loaded_space (sm_size sm) mt (sm_alloc sm) /\
       forall z, covers (rt_segs rt') z <-> loaded (sm_start sm) (sm_size sm) mt A z).
Proof.
  intros [Hwf Hlog] [Hlen Hal] Herr Hinv Hnil. pose proof (wf_geom _ Hwf) as Hg.
  pose proof (log_sets_bounds _ _ _ _ _ _ Hg Hlog) as Hbd. rewrite <- Hal in Hlog, Hbd.
  pose proof Hinv as (_ & _ & Hsp & _). rewrite Hnil in Hsp. simpl in Hsp.
  destruct (load_start sm mt rt Hg Hinv Hnil Hbd) as (rt0 & Estart & Hinv0 & Ho0 & Hsp0 & Hc0).
  unfold space_map_load. cbv zeta. unfold range_tree_space. rewrite Hsp. simpl (_ =? _). cbv iota.
  rewrite Estart. cbn [mbind res_bind].
  destruct (wf_blksz _ Hwf) as [Hb1 Hb2]. pose proof (wf_blksz8 _ Hwf) as Hb8.
  set (bufsize := Z.max (sm_blksz sm) SPA_MINBLOCKSIZE).
  assert (Hbuf : 8 <= bufsize < B32) by (unfold bufsize, SPA_MINBLOCKSIZE; lia).
  assert (Hbuf8 : (8 | bufsize)).
  { unfold bufsize. destruct (Z.max_spec (sm_blksz sm) SPA_MINBLOCKSIZE) as [[_ ->]|[_ ->]]; [by exists 64|done]. }
  unfold sm_log in Hlog. rewrite <- Hlen in Hlog.
  pose proof (wf_objsize _ Hwf) as Hob. pose proof (wf_objsize8 _ Hwf) as Hob8. rewrite <- Hlen in Hob, Hob8.
  destruct (load_blocks_spec (R := R) zfs_recover d sm mt (sm_length sm) bufsize rt0 Hob Hob8 Hbuf Hbuf8 Herr)
    with (fuel := Z.to_nat (sm_length sm / bufsize + 1)) (offset := 0) (rt := rt0)
    as (error & rt' & E & Hinv' & Ho' & Hres & Hsucc).
  - intros j. rewrite <- (take_drop j (words d (sm_object sm) 0 _)) in Hlog. destruct (log_sets_prefix _ _ _ _ _ _ _ Hlog) as (A' & n' & Hlog').
    destruct (load_log (R := R) zfs_recover sm Hg mt _ _ _ rt0 Hlog') as (rtj & E & Hj & Hoj & _); eauto.
  - lia.
  - apply Z.divide_0_r.
  - pose proof (Z.div_pos (sm_length sm) bufsize). Z.div_mod_to_equations. nia.
  - done.
  - unfold space_map_length. simpl from_option. rewrite E. cbn [mbind res_bind].
    destruct (Z.eqb_spec error 0) as [->|Hne].
    + destruct (load_log (R := R) zfs_recover sm Hg mt _ _ _ rt0 Hlog) as (rtf & Ef & _ & _ & Hspf & Hcf); auto.
      rewrite Hres in Ef by done. injection Ef as <-. rewrite Hspf, Z.eqb_refl.
      exists 0, rt'. split_and!; auto; congruence.
    + destruct (range_tree_vacate_spec (T := unit) rt' None tt Hinv') as (segs & rt'' & _ & Hinv'' & Hnil'' & Ho'' & ->).
      simpl. exists error, rt''. split_and!; auto; try done. congruence.
Qed.

(** C19: [space_map_load] into an empty tree, block by block, does not panic:
    either a read failed and the tree is empty again, or the tree holds exactly
    the allocated offsets (or the free ones of the region) the map records.
    With reads that succeed it is the latter. *)
Theorem space_map_load_correct (d : D) sm A (rt : range_tree St) mt :
  sm_inv d sm A -> sm_synced sm -> read_errors_nonzero d sm -> rt_inv R rt -> rt_segs rt = [] ->
  exists error rt', space_map_load zfs_recover d sm rt mt = Ok (error, rt') /\ rt_inv R rt' /\
    rt_ops rt' = rt_ops rt /\ (error <> 0 -> rt_segs rt' = []) /\
    (reads_succeed d sm (sm_length sm) -> error = 0) /\
    (error = 0 -> rt_space rt' = loaded_space (sm_size sm) mt (sm_alloc sm) /\
       forall z, covers (rt_segs rt') z <-> loaded (sm_start sm) (sm_size sm) mt A z).
Proof. apply space_map_load_spec. Qed.

(** [space_map_histogram_add] adds the count of each size of range to the
    bucket of that size, and the ranges too large for the last bucket to the
    last bucket, counted in units of its own size. *)
Theorem space_map_histogram_add_correct sm (rt : range_tree St) :
  sm_object sm <> 0 -> sm_db_size sm = sizeof_space_map_phys -> 0 <= sm_shift sm ->
  length (smp_histogram (sm_phys sm)) = SPACE_MAP_HISTOGRAM_SIZE ->
  Forall is_u64 (smp_histogram (sm_phys sm)) ->
  exists sm', space_map_histogram_add sm rt = Ok sm' /\
    (forall j, (j < 31)%nat -> smp_histogram (sm_phys sm') !! j =
       (fun x => wrap64 (x + nth (Z.to_nat (sm_shift sm) + j) (rt_histogram rt) 0)) <$>
         smp_histogram (sm_phys sm) !! j) /\
    smp_histogram (sm_phys sm') !! 31%nat =
      (fun x => wrap64 (x + wsum 0 (drop (Z.to_nat (sm_shift sm) + 31) (rt_histogram rt)))) <$>
        smp_histogram (sm_phys sm) !! 31%nat.
Proof.
  intros Ho Hdb Hsh Hl Hu. unfold space_map_histogram_add. simpl.
  rewrite (proj2 (Z.eqb_neq _ _) Ho), Hdb, Z.eqb_refl. simpl. eexists. split; [done|].
  destruct (histogram_loop_spec (drop (Z.to_nat (sm_shift sm)) (rt_histogram rt)) 0 _ Hl ltac:(lia) Hu)
    as [H1 H2]. cbn [sm_phys set_phys smp_histogram]. split.
  - intros j Hj. rewrite H1, decide_True by lia. rewrite Nat.sub_0_r.
    destruct (_ !! j); simpl; [|done]. do 3 f_equal. rewrite !nth_lookup, lookup_drop. done.
  - rewrite H2, Nat.sub_0_r, drop_drop. done.
Qed.

(** The object of a map exists, and the feature is active while the object has
    the larger bonus buffer. *)
Definition object_ok (d : D) (obj : Z) : Prop :=
  dmu_exists d obj = true /\
  (feature_enabled d = true -> doi_bonus_size (dmu_info d obj) <> SPACE_MAP_SIZE_V0 -> feature_active d = true).

Lemma object_ok_write `{!DmuObjSpec D} (d : D) obj off size ws o :
  object_ok d o -> object_ok (dmu_write d obj off size ws) o.
Proof.
  intros [H1 H2]. split; [by rewrite dmu_write_exists|].
  destruct (dmu_write_keeps d obj off size ws o) as [[-> ->] ->]. done.
Qed.

(** A new object for a space map. *)
Lemma space_map_alloc_spec `{!DmuObjSpec D} (d : D) blksz d' obj :
  space_map_alloc d blksz = (d', obj) ->
  obj <> 0 /\ (forall o, dmu_exists d o = true -> o <> obj) /\ dmu_frame d d' obj /\
  doi_data_block_size (dmu_info d' obj) = blksz /\ object_ok d' obj /\
  exists bonus phys, dmu_bonus_hold d' obj = inr (bonus, phys) /\ smp_objsize phys = 0 /\ smp_alloc phys = 0.
Proof.
  unfold space_map_alloc. set (d1 := if feature_enabled d then feature_incr d else d).
  assert (Hf : forall o i, dmu_exists d o = true -> dmu_exists d1 o = true /\ dmu_word d1 o i = dmu_word d o i).
  { intros o i Ho. unfold d1. destruct (feature_enabled d); [|done].
    by apply (feature_incr_spec d (o + 1)); [lia|]. }
  assert (Ha : feature_enabled d1 = true -> feature_active d1 = true).
  { unfold d1. destruct (feature_enabled d) eqn:E; [intros _; apply (feature_incr_spec d 0)|]. rewrite E. done. }
  replace (if feature_enabled d then (feature_incr d, sizeof_space_map_phys) else (d, SPACE_MAP_SIZE_V0))
    with (d1, if feature_enabled d then sizeof_space_map_phys else SPACE_MAP_SIZE_V0)
    by (unfold d1; by destruct (feature_enabled d)).
  intros E. apply dmu_object_alloc_spec in E as (H1 & H2 & He & H3 & [Hs1 Hs2] & H4 & phys & H5 & H6).
  split; [done|]. split.
  { intros o Ho ->. destruct (Hf obj 0 Ho) as [? _]. congruence. }
  split; [|split; [by rewrite H4|split; [|by eauto]]].
  - intros o i Hne Ho. destruct (Hf o i Ho) as [He1 Hw]. destruct (H3 o i Hne He1) as [He' Hw'].
    split; [done|congruence].
  - split; [done|]. rewrite Hs1, Hs2. auto.
Qed.

Lemma space_map_free_spec `{!DmuObjSpec D} (d : D) sm :
  object_ok d (sm_object sm) ->
  exists d', space_map_free d sm = Ok (d', SpaceMap (sm_start sm) (sm_size sm) (sm_shift sm) (sm_length sm)
      (sm_alloc sm) 0 (sm_blksz sm) (sm_db_size sm) (sm_phys sm)) /\ dmu_frame d d' (sm_object sm).
Proof.
  intros [Hex Hf]. unfold space_map_free.
  set (cond := (feature_enabled d && negb (doi_bonus_size (dmu_info d (sm_object sm)) =? SPACE_MAP_SIZE_V0))%bool).
  assert (Hd : exists d1, (if cond then VERIFY feature_active d;; Ok (feature_decr d) else Ok d) = Ok d1 /\
    forall o i, dmu_exists d o = true -> dmu_exists d1 o = true /\ dmu_word d1 o i = dmu_word d o i).
  { destruct cond eqn:E; [|by exists d].
    unfold cond in E. bool_hyps. rewrite Hf by done. eexists. split; [done|]. intros o i Ho.
    by apply (feature_decr_spec d (o + 1)); [lia|]. }
  destruct Hd as (d1 & -> & Hd1). simpl.
  destruct (dmu_object_free_spec d1 (sm_object sm)) as [H1 H2]; [by apply (Hd1 _ 0)|].
  destruct (dmu_object_free d1 (sm_object sm)) as [err d2]. simpl in *. subst err. simpl.
  exists d2. split; [done|]. intros o i Hne Ho. destruct (Hd1 o i Ho) as [He Hw].
  destruct (H2 o i Hne He) as [He' Hw']. split; [done|congruence].
Qed.

(** Truncation of a map that records [A]: the map records nothing, and objects
    other than the map's are untouched. *)
Lemma space_map_truncate_spec `{!DmuObjSpec D} (d : D) sm blksz txg final_txg ms_array :
  sm_wf sm -> txg <= final_txg -> object_ok d (sm_object sm) -> 8 <= blksz < B32 -> (8 | blksz) ->
  dmu_exists d ms_array = true -> ms_array <> sm_object sm ->
  exists d' sm', space_map_truncate d sm blksz txg final_txg = Ok (d', sm') /\
    sm_inv d' sm' (fun _ => False) /\ smp_objsize (sm_phys sm') = 0 /\
    sm_start sm' = sm_start sm /\ sm_size sm' = sm_size sm /\ sm_shift sm' = sm_shift sm /\
    object_ok d' (sm_object sm') /\
    dmu_exists d' ms_array = true /\ ms_array <> sm_object sm' /\
    (forall i, dmu_word d' ms_array i = dmu_word d ms_array i).
Proof.
  intros Hwf Htxg Hf Hb Hb8 Hex Hne. unfold space_map_truncate. rewrite (proj2 (Z.leb_le _ _) Htxg).
  destruct (_ || _)%bool.
  - destruct (space_map_free_spec d sm Hf) as (d1 & -> & Hfr1). cbn [mbind res_bind].
    destruct (space_map_alloc d1 blksz) as [d2 obj] eqn:Ea.
    apply space_map_alloc_spec in Ea as (Ho & Hfresh & Hfr2 & Hinfo & Hobj & bonus & phys & Eb & Hp1 & Hp2).
    unfold space_map_open_impl. cbn [sm_object]. rewrite Eb. simpl. eexists _, _. split; [done|].
    assert (Hex1 : dmu_exists d1 ms_array = true) by (by apply (Hfr1 ms_array 0)).
    pose proof (Hfresh _ Hex1) as Hne'.
    split; [split; [|apply log_nil; tauto]|split_and!; try done].
    + destruct Hwf as [Hg]. constructor; simpl; rewrite ?Hinfo; done || lia || apply Z.divide_0_r.
    + by apply (Hfr2 ms_array 0).
    + intros i. destruct (Hfr1 ms_array i Hne Hex) as [_ <-]. by apply (Hfr2 ms_array i).
  - destruct Hf as [Hobj Hf]. destruct (dmu_free_range_spec d (sm_object sm) Hobj) as (H1 & H2 & H3 & [H4 H5] & H6).
    simpl space_map_object.
    destruct (dmu_free_range d (sm_object sm)) as [err d1]. simpl in *. subst err. simpl.
    eexists _, _. split; [done|]. split; [split; [|apply log_nil; tauto]|split_and!; try done].
    + destruct Hwf. constructor; simpl; done || lia || apply Z.divide_0_r.
    + split; [done|]. simpl. by rewrite H4, H5, H6.
    + by apply (H2 ms_array 0).
    + intros i. by apply (H2 ms_array i).
Qed.

(** [space_map_truncate] leaves a map that records nothing allocated, both
    when it empties the object in place and when it replaces an object of the
    wrong sizes. *)
Theorem space_map_truncate_correct (d : D) sm space_map_blksz txg final_txg :
  sm_wf sm -> txg <= final_txg ->
  let doi := dmu_info d (sm_object sm) in
  let realloc := (feature_enabled d && negb (doi_bonus_size doi =? sizeof_space_map_phys))
    || negb (doi_data_block_size doi =? space_map_blksz) in
  (realloc = false -> (dmu_free_range d (sm_object sm)).1 = 0 ->
     exists d' sm', space_map_truncate d sm space_map_blksz txg final_txg = Ok (d', sm') /\
       sm_inv d' sm' (fun _ => False) /\ smp_alloc (sm_phys sm') = 0) /\
  (realloc = true -> forall d1 sm1 d2 object db_size phys,
     space_map_free d sm = Ok (d1, sm1) -> space_map_alloc d1 space_map_blksz = (d2, object) ->
     dmu_bonus_hold d2 object = inr (db_size, phys) -> object <> 0 ->
     8 <= doi_data_block_size (dmu_info d2 object) < B32 ->
     (8 | doi_data_block_size (dmu_info d2 object)) ->
     exists sm', space_map_truncate d sm space_map_blksz txg final_txg = Ok (d2, sm') /\
       sm_inv d2 sm' (fun _ => False) /\ sm_object sm' = object).
Proof.
  intros Hwf Htxg doi realloc. split.
  - intros Hre Hfree. unfold space_map_truncate. rewrite (proj2 (Z.leb_le _ _) Htxg).
    fold doi. fold realloc. rewrite Hre. simpl.
    destruct (dmu_free_range d (sm_object sm)) as [err d'] eqn:E. simpl in Hfree. subst err. simpl.
    eexists _, _. split; [done|]. split; [|done]. split.
    + destruct Hwf. constructor; simpl; done || lia || apply Z.divide_0_r.
    + apply log_nil. tauto.
  - intros Hre d1 sm1 d2 object db_size phys Ef Ea Eb Hobj Hblk Hblk8.
    assert (Hgeo : sm_start sm1 = sm_start sm /\ sm_size sm1 = sm_size sm /\ sm_shift sm1 = sm_shift sm).
    { unfold space_map_free in Ef. destruct (if feature_enabled d && _ then _ else _) as [d0|]; [|done].
      simpl in Ef. destruct (dmu_object_free d0 _) as [err d3]. destruct (err =? 0); [|done].
      by injection Ef as _ <-. }
    destruct Hgeo as (E1 & E2 & E3).
    unfold space_map_truncate. rewrite (proj2 (Z.leb_le _ _) Htxg). fold doi. fold realloc. rewrite Hre.
    rewrite Ef. simpl. rewrite Ea. unfold space_map_open_impl. simpl. rewrite Eb.
    eexists. split; [done|]. split; [|done]. split.
    + destruct (wf_geom _ Hwf). constructor; simpl; try done || lia || apply Z.divide_0_r.
      unfold sm_geom. simpl. rewrite E1, E2, E3. by constructor.
    + apply log_nil. tauto.
Qed.

End Correct.

(** ** Witnesses: an object layer in memory whose calls succeed *)

Module MemDmu.

Record mem : Type := Mem {
  mem_word : Z -> Z -> Z;
  mem_info : Z -> dmu_object_info;
  mem_next : positive
}.

(** Objects are numbered from 1; freed numbers are not used again. *)
#[export] Instance mem_ops : DmuOps mem := {|
  dmu_word := mem_word;
  dmu_exists d obj := (0 <? obj) && (obj <? Zpos (mem_next d));
  dmu_read d obj off size := inr ((fun i => mem_word d obj (off / 8 + Z.of_nat i)) <$> seq 0 (Z.to_nat (size / 8)));
  dmu_write d obj off size ws :=
    Mem (fun obj' i => if decide (obj' = obj /\ off / 8 <= i < off / 8 + Z.of_nat (length ws))
                       then nth (Z.to_nat (i - off / 8)) ws 0 else mem_word d obj' i)
      (mem_info d) (mem_next d);
  dmu_info := mem_info;
  dmu_object_alloc d blksz bonus :=
    (Mem (mem_word d)
       (fun o => if o =? Zpos (mem_next d) then DmuObjectInfo bonus blksz else mem_info d o)
       (Pos.succ (mem_next d)), Zpos (mem_next d));
  dmu_object_free d _ := (0, d);
  dmu_free_range d _ := (0, d);
  dmu_bonus_hold d o := inr (doi_bonus_size (mem_info d o), SpaceMapPhys 0 0 0 (replicate 32 0));
  feature_enabled _ := true;
  feature_active _ := true;
  feature_incr d := d;
  feature_decr d := d
|}.

#[export] Instance mem_spec : DmuSpec mem.
Proof.
  split.
  - intros d obj off size ws _ _ _ [= <-]. done.
  - done.
Qed.

#[export] Instance mem_obj_spec : DmuObjSpec mem.
Proof.
  split; try done.
  intros d blksz bonus d' obj [= <- <-]. unfold dmu_frame. simpl. split; [lia|].
  split; [by rewrite Z.ltb_irrefl|]. split; [apply Z.ltb_lt; lia|]. split; [|split; [done|]].
  - intros o i Hne Ho. bool_hyps. split; [|done]. apply andb_true_iff. rewrite !Z.ltb_lt. lia.
  - rewrite Pos.eqb_refl. split; [done|]. eauto.
Qed.

(** A map of one megabyte in units of 512 bytes, whose log allocates units 1 and 2. *)
Definition mem1 : mem :=
  Mem (fun _ i => if i =? 0 then sm_entry 1 SM_ALLOC 2 else 0) (fun _ => DmuObjectInfo 320 4096) 7.
Definition sm1 : space_map :=
  SpaceMap 0 (2 ^ 20) 9 8 1024 5 4096 320 (SpaceMapPhys 5 8 1024 (replicate 32 0)).
Definition A1 (z : Z) : Prop := 512 <= z < 1536.

Lemma sm1_wf : sm_wf sm1.
Proof.
  constructor; simpl; [|lia|lia|by exists 512|lia|by exists 1].
  constructor; simpl; [lia..|by exists 0|by exists 2048|lia].
Qed.

Lemma sm1_inv : sm_inv mem1 sm1 A1.
Proof.
  split; [apply sm1_wf|].
  change (log_sets 0 (2 ^ 20) 9 ([] ++ [sm_entry 1 SM_ALLOC 2]) A1 (0 + 2 * 2 ^ 9)).
  apply (log_alloc _ _ _ [] (fun _ => False)).
  - apply log_nil. tauto.
  - lia.
  - rewrite SM_RUN_MAX_eq. lia.
  - lia.
  - tauto.
  - intros z. unfold in_run, A1. lia.
Qed.

(** A tree that holds units 4 to 6. *)
Definition rt1 : range_tree unit :=
  RangeTree (AvlTree (Node 0 Leaf (RangeSeg 2048 3584) Leaf) 1) 1536 None tt
    (<[10%nat := 1]> (replicate RANGE_TREE_HISTOGRAM_SIZE 0)).

Definition no_index (l : list range_seg) (s : unit) : Prop := True.

Lemma rt1_inv : rt_inv no_index rt1.
Proof.
  split_and!; [by repeat split| |done|by vm_compute|done].
  split; [repeat constructor; simpl; lia|]. repeat constructor.
Qed.

Lemma rt1_covers z : covers (rt_segs rt1) z <-> 2048 <= z < 3584.
Proof.
  change (rt_segs rt1) with [RangeSeg 2048 3584]. rewrite covers_cons, covers_nil. simpl. lia.
Qed.

Lemma sm_entry_roundtrip_witness : SM_OFFSET_DECODE (sm_entry 77 SM_FREE 12) = 77.
Proof. by apply (sm_entry_roundtrip 77 SM_FREE 12 1 100). Defined.

Lemma space_map_write_correct_witness :
  exists sm' d', space_map_write mem1 sm1 rt1 SM_ALLOC 1 100 = Ok (sm', d') /\
    sm_inv d' sm' (fun z => A1 z \/ 2048 <= z < 3584).
Proof.
  destruct (space_map_write_correct no_index mem1 sm1 A1 rt1 SM_ALLOC 1 100
    (fun z => A1 z \/ 2048 <= z < 3584)) as (sm' & d' & es & H1 & H2 & _).
  - apply sm1_inv.
  - apply rt1_inv.
  - constructor; [|constructor]. split_and!; simpl; [by exists 4|by exists 7|lia..].
  - simpl. lia.
  - split; intros z; rewrite rt1_covers; unfold A1; lia.
  - by exists sm', d'.
Defined.

Lemma space_map_load_correct_witness :
  exists rt', space_map_load false mem1 sm1 (range_tree_create None tt) SM_FREE = Ok (0, rt') /\
    rt_space rt' = 2 ^ 20 - 1024.
Proof.
  destruct (space_map_load_correct no_index false mem1 sm1 A1 (range_tree_create None tt) SM_FREE)
    as (error & rt' & H1 & _ & _ & _ & H2 & H3).
  - apply sm1_inv.
  - done.
  - by intros off size e.
  - by apply range_tree_create_inv.
  - done.
  - assert (error = 0) as ->.
    { apply H2. intros off size _ _ _. by eexists. }
    exists rt'. split; [done|]. by destruct H3 as [-> _].
Defined.

Lemma space_map_histogram_add_correct_witness :
  exists sm', space_map_histogram_add sm1 rt1 = Ok sm' /\
    smp_histogram (sm_phys sm') !! 1%nat = Some 1.
Proof.
  destruct (space_map_histogram_add_correct sm1 rt1) as (sm' & H & H1 & _); [done|done|done|done| |].
  - apply Forall_replicate. split; lia.
  - exists sm'. split; [done|]. by rewrite H1 by lia.
Defined.

Lemma space_map_truncate_correct_witness :
  exists d' sm', space_map_truncate mem1 sm1 4096 10 20 = Ok (d', sm') /\
    sm_inv d' sm' (fun _ => False).
Proof.
  destruct (space_map_truncate_correct mem1 sm1 4096 10 20 sm1_wf) as [H _]; [lia|].
  destruct H as (d' & sm' & H1 & H2 & _); [done..|]. by exists d', sm'.
Defined.

End MemDmu.
