(* ===== verification/SpaceReftree.v ===== *)
(** * Space reference trees: [module/zfs/space_reftree.c]

    A reference tree counts references to ranges of offsets as an AVL tree of
    boundary nodes; [space_reftree_generate_map] turns it back into the range
    tree of the offsets with at least [minref] references.  Nodes at the same
    offset are ordered by their addresses, which the allocator chooses. *)

From S2P Require Import Prelude Avl RangeTree.

Record space_ref : Type := SpaceRef { sr_addr : Z; sr_offset : Z; sr_refcnt : Z }.

#[export] Instance space_ref_eq_dec : EqDecision space_ref.
Proof. solve_decision. Defined.

(** Comparison of the node addresses. *)
Definition AVL_PCMP (a b : Z) : Z := Z.b2z (b <? a) - Z.b2z (a <? b).

Definition space_reftree_compare (sr1 sr2 : space_ref) : Z :=
  let cmp := AVL_CMP (sr_offset sr1) (sr_offset sr2) in
  if negb (cmp =? 0) then cmp else AVL_PCMP (sr_addr sr1) (sr_addr sr2).

#[export] Instance space_ref_compar : AvlCompar space_ref := space_reftree_compare.

(** [int64_t] arithmetic. *)
Definition wrap_s64 (x : Z) : Z := let y := wrap64 x in if y <? B64 / 2 then y else y - B64.

Section Operations.
Context {St : Type}.
Variable zfs_recover : bool.
(** [kmem_alloc]: the address of a new node, given the nodes alive in the tree. *)
Variable kmem_alloc : list space_ref -> Z.
Implicit Types t : avl_tree space_ref.
Implicit Types rt : range_tree St.

Definition space_reftree_create : avl_tree space_ref := avl_create.

(** The nodes freed, in order, and the tree left. *)
Definition space_reftree_destroy t : option (list space_ref * avl_tree space_ref) :=
  avl_destroy_loop (S (length (avl_elements t))) t CookieNull.

Definition space_reftree_add_node t (offset refcnt : Z) : res (avl_tree space_ref) :=
  avl_add t (SpaceRef (kmem_alloc (avl_elements t)) offset refcnt).

Definition space_reftree_add_seg t (start end_ refcnt : Z) : res (avl_tree space_ref) :=
  t ← space_reftree_add_node t start refcnt;
  space_reftree_add_node t end_ (wrap_s64 (- refcnt)).

(** The loop of [space_reftree_add_map] over the segments. *)
Fixpoint add_segs t (segs : list range_seg) (refcnt : Z) : res (avl_tree space_ref) :=
  match segs with
  | [] => Ok t
  | rs :: segs' => t ← space_reftree_add_seg t (rs_start rs) (rs_end rs) refcnt; add_segs t segs' refcnt
  end.

Definition space_reftree_add_map t rt (refcnt : Z) : res (avl_tree space_ref) :=
  add_segs t (range_tree_segs rt) refcnt.

(** The body of the loop of [space_reftree_generate_map]: the tree, [start] and
    [refcnt] after a node. *)
Definition generate_step (sr : space_ref) rt (minref start refcnt : Z) : res (range_tree St * Z * Z) :=
  let refcnt := wrap_s64 (refcnt + sr_refcnt sr) in
  if minref <=? refcnt then
    Ok (rt, if start =? B64 - 1 then sr_offset sr else start, refcnt)
  else if negb (start =? B64 - 1) then
    let end_ := sr_offset sr in
    rt ← (if start <? end_ then range_tree_add zfs_recover rt start (wrap64 (end_ - start)) else Ok rt);
    Ok (rt, B64 - 1, refcnt)
  else Ok (rt, start, refcnt).

Fixpoint generate_loop (srs : list space_ref) rt (minref start refcnt : Z) : res (range_tree St) :=
  match srs with
  | [] => Ok rt
  | sr :: srs' =>
      '(rt, start, refcnt) ← generate_step sr rt minref start refcnt;
      generate_loop srs' rt minref start refcnt
  end.

Definition space_reftree_generate_map t rt (minref : Z) : res (range_tree St) :=
  '(rt, _) ← range_tree_vacate (T := unit) rt None tt;
  generate_loop (avl_iterate (length (avl_elements t)) t (avl_first t)) rt minref (B64 - 1) 0.

End Operations.

(** ** The order of the nodes *)

Lemma space_reftree_compare_cases x y :
  let lt x y := sr_offset x < sr_offset y \/ sr_offset x = sr_offset y /\ sr_addr x < sr_addr y in
  (lt x y /\ avl_compar x y = -1) \/ (lt y x /\ avl_compar x y = 1) \/
  (sr_offset x = sr_offset y /\ sr_addr x = sr_addr y /\ avl_compar x y = 0).
Proof.
  simpl. unfold avl_compar, space_ref_compar, space_reftree_compare.
  change (AVL_PCMP (sr_addr x) (sr_addr y)) with (AVL_CMP (sr_addr x) (sr_addr y)).
  destruct (AVL_CMP_cases (sr_offset x) (sr_offset y)) as [[? ->]|[[? ->]|[? ->]]]; simpl; try lia.
  destruct (AVL_CMP_cases (sr_addr x) (sr_addr y)) as [[? ->]|[[? ->]|[? ->]]]; lia.
Qed.

#[export] Instance space_ref_order : AvlOrder space_ref.
Proof.
  split.
  - intros x y. pose proof (space_reftree_compare_cases x y). cbv zeta in *. lia.
  - intros x y. pose proof (space_reftree_compare_cases x y).
    pose proof (space_reftree_compare_cases y x). cbv zeta in *. lia.
  - intros x y z. pose proof (space_reftree_compare_cases x y).
    pose proof (space_reftree_compare_cases y z). pose proof (space_reftree_compare_cases x z). cbv zeta in *. lia.
Qed.

Lemma sorted_offsets l : avl_sorted l -> StronglySorted (fun a b => sr_offset a <= sr_offset b) l.
Proof.
  induction 1 as [|x l _ IH Hx]; constructor; auto. eapply Forall_impl; [apply Hx|]. simpl.
  intros y Hy. pose proof (space_reftree_compare_cases x y). cbv zeta in *. lia.
Qed.

(** A total of the reference counts of some nodes. *)
Definition ref_total (l : list space_ref) : Z := foldr (fun sr n => sr_refcnt sr + n) 0 l.

(** The references to the offset [z]: those of the nodes at or below it. *)
Definition refcount (l : list space_ref) (z : Z) : Z :=
  ref_total (filter (fun sr => sr_offset sr <= z) l).

(** An upper bound of every partial sum. *)
Definition ref_weight (l : list space_ref) : Z := foldr (fun sr n => Z.abs (sr_refcnt sr) + n) 0 l.

Lemma ref_total_app l1 l2 : ref_total (l1 ++ l2) = ref_total l1 + ref_total l2.
Proof. induction l1; simpl; lia. Qed.

Lemma ref_total_perm l1 l2 : l1 ≡ₚ l2 -> ref_total l1 = ref_total l2.
Proof. induction 1; simpl; lia. Qed.

Lemma ref_weight_perm l1 l2 : l1 ≡ₚ l2 -> ref_weight l1 = ref_weight l2.
Proof. induction 1; simpl; lia. Qed.

Lemma ref_weight_app l1 l2 : ref_weight (l1 ++ l2) = ref_weight l1 + ref_weight l2.
Proof. induction l1; simpl; lia. Qed.

Lemma ref_weight_total l : Z.abs (ref_total l) <= ref_weight l.
Proof. induction l; simpl; lia. Qed.

Lemma refcount_perm l1 l2 z : l1 ≡ₚ l2 -> refcount l1 z = refcount l2 z.
Proof. intros H. apply ref_total_perm. by rewrite H. Qed.

Lemma refcount_cons sr l z :
  refcount (sr :: l) z = (if sr_offset sr <=? z then sr_refcnt sr else 0) + refcount l z.
Proof.
  unfold refcount. rewrite filter_cons.
  destruct (decide _), (Z.leb_spec (sr_offset sr) z); simpl; lia.
Qed.

Lemma wrap_s64_small x : - 2 ^ 63 <= x < 2 ^ 63 -> wrap_s64 x = x.
Proof.
  intros H. unfold wrap_s64, wrap64. change (B64 / 2) with (2 ^ 63).
  destruct (Z.le_gt_cases 0 x).
  - rewrite Z.mod_small by lia. zcase; lia.
  - rewrite <- (Z.mod_add x 1 B64), Z.mod_small by lia. zcase; lia.
Qed.

(** ** Adding ranges *)

Section Add.
Context (kmem_alloc : list space_ref -> Z).
(** The allocator never returns the address of a live node. *)
Context (alloc_fresh : forall l, kmem_alloc l ∉ sr_addr <$> l).
Implicit Types t : avl_tree space_ref.

Definition reftree_ok t : Prop :=
  avl_wf t /\ avl_sorted (avl_elements t) /\
  Forall (fun sr => 0 <= sr_offset sr < B64 - 1) (avl_elements t) /\ ref_total (avl_elements t) = 0.

Definition nodes_ok t : Prop :=
  avl_wf t /\ avl_sorted (avl_elements t) /\
  Forall (fun sr => 0 <= sr_offset sr < B64 - 1) (avl_elements t).

Lemma space_reftree_add_node_ok t offset refcnt :
  nodes_ok t -> 0 <= offset < B64 - 1 ->
  exists t' sr, space_reftree_add_node kmem_alloc t offset refcnt = Ok t' /\ nodes_ok t' /\
    sr_offset sr = offset /\ sr_refcnt sr = refcnt /\ avl_elements t' ≡ₚ sr :: avl_elements t.
Proof.
  intros (Hwf & Hs & Hoff) Ho. unfold space_reftree_add_node.
  set (sr := SpaceRef (kmem_alloc (avl_elements t)) offset refcnt).
  destruct (avl_add_sorted t sr Hwf Hs) as (t' & l1 & l2 & -> & Hwf' & E & E' & Hs').
  - apply Forall_forall. intros y Hy. pose proof (space_reftree_compare_cases sr y).
    assert (sr_addr sr <> sr_addr y).
    { intros Ha. apply (alloc_fresh (avl_elements t)).
      change (kmem_alloc (avl_elements t)) with (sr_addr sr). rewrite Ha. by apply list_elem_of_fmap_2. }
    simpl in *. lia.
  - exists t', sr. rewrite E in Hoff. split; [done|]. split; [|split; [done|]; split; [done|]].
    + split; [done|]. rewrite E'. split; [done|].
      rewrite <- Permutation_middle. by constructor.
    + by rewrite E', E, <- Permutation_middle.
Qed.

Lemma space_reftree_add_seg_ok t start end_ refcnt :
  reftree_ok t -> 0 <= start < end_ -> end_ < B64 - 1 -> - 2 ^ 63 < refcnt < 2 ^ 63 ->
  exists t', space_reftree_add_seg kmem_alloc t start end_ refcnt = Ok t' /\ reftree_ok t' /\
    ref_weight (avl_elements t') = ref_weight (avl_elements t) + 2 * Z.abs refcnt /\
    (forall z, refcount (avl_elements t') z = refcount (avl_elements t) z +
       (if (start <=? z) && (z <? end_) then refcnt else 0)).
Proof.
  intros (Hwf & Hs & Hoff & Ht) H1 H2 H3. unfold space_reftree_add_seg.
  destruct (space_reftree_add_node_ok t start refcnt) as (t1 & sr1 & -> & Hn1 & Eo1 & Er1 & Hp1);
    [by split_and!|lia|]. simpl.
  rewrite wrap_s64_small by lia.
  destruct (space_reftree_add_node_ok t1 end_ (- refcnt)) as (t2 & sr2 & -> & Hn2 & Eo2 & Er2 & Hp2);
    [done|lia|].
  rewrite Hp1 in Hp2. exists t2. split; [done|]. destruct Hn2 as (Hwf2 & Hs2 & Hoff2).
  assert (Ht2 : ref_total (avl_elements t2) = 0) by (rewrite (ref_total_perm _ _ Hp2); simpl; lia).
  split; [done|]. split.
  - rewrite (ref_weight_perm _ _ Hp2). simpl. lia.
  - intros z. rewrite (refcount_perm _ _ z Hp2), !refcount_cons, Eo1, Eo2, Er1, Er2.
    destruct (Z.leb_spec start z), (Z.leb_spec end_ z), (Z.ltb_spec z end_); simpl; lia.
Qed.

Lemma add_segs_ok segs t refcnt :
  reftree_ok t -> segs_ok segs -> Forall (fun rs => rs_end rs < B64 - 1) segs ->
  - 2 ^ 63 < refcnt < 2 ^ 63 ->
  exists t', add_segs kmem_alloc t segs refcnt = Ok t' /\ reftree_ok t' /\
    ref_weight (avl_elements t') =
      ref_weight (avl_elements t) + 2 * Z.abs refcnt * Z.of_nat (length segs) /\
    (forall z, (covers segs z -> refcount (avl_elements t') z = refcount (avl_elements t) z + refcnt) /\
       (~ covers segs z -> refcount (avl_elements t') z = refcount (avl_elements t) z)).
Proof.
  revert t. induction segs as [|rs segs IH]; intros t Ht Hs He Hr; simpl.
  { exists t. split_and!; auto; [lia|]. intros z. rewrite covers_nil. tauto. }
  pose proof Hs as (_ & Hs' & [H1 H2] & _ & _)%(segs_ok_mid []). apply Forall_cons in He as [He He'].
  destruct (space_reftree_add_seg_ok t (rs_start rs) (rs_end rs) refcnt) as (t1 & -> & Ht1 & Hw1 & Hc1); auto.
  simpl. destruct (IH t1) as (t2 & -> & Ht2 & Hw2 & Hc2); auto.
  exists t2. split_and!; auto; [lia|]. intros z. destruct (Hc2 z) as [Hc Hn].
  specialize (Hc1 z). pose proof (covers_tail rs segs z Hs) as Htl. rewrite covers_cons in *.
  destruct (Z.leb_spec (rs_start rs) z), (Z.ltb_spec z (rs_end rs)); simpl in Hc1; split; intros Hz.
  - rewrite Hn; [lia|]. intros Hx. apply Htl in Hx as [_ ?]. lia.
  - exfalso. apply Hz. left. lia.
  - destruct Hz as [?|Hz]; [lia|]. rewrite Hc by done. lia.
  - rewrite Hn by tauto. lia.
  - destruct Hz as [?|Hz]; [lia|]. rewrite Hc by done. lia.
  - rewrite Hn by tauto. lia.
  - lia.
  - lia.
Qed.

End Add.

(** ** Generating a range tree *)

Section Generate.
Context {St : Type} {R : list range_seg -> St -> Prop} (zfs_recover : bool) (minref : Z).
Context (Hmin : 0 < minref).
Implicit Types rt : range_tree St.

(** The offsets decided so far: those in the tree, and those from the start of
    the range being collected. *)
Definition decided rt (start z : Z) : Prop :=
  covers (rt_segs rt) z \/ (start <> B64 - 1 /\ start <= z).

(** The state of the loop after the nodes [l1] of [l1 ++ l2], the last of them
    at [o]: below [o] the offsets decided are those with enough references. *)
Record gen_inv (l1 l2 : list space_ref) (o : Z) rt (start : Z) : Prop := {
  gen_rt : rt_inv R rt;
  gen_start : 0 <= start < B64;
  gen_open : start <> B64 - 1 <-> minref <= ref_total l1;
  gen_bound : start <> B64 - 1 -> start <= o;
  gen_below z : covers (rt_segs rt) z -> z < o /\ (start <> B64 - 1 -> z < start);
  gen_decided z : z < o -> decided rt start z <-> minref <= refcount (l1 ++ l2) z
}.

Lemma refcount_between l1 l2 o o' z :
  Forall (fun sr => sr_offset sr <= o) l1 -> Forall (fun sr => o' <= sr_offset sr) l2 ->
  o <= z < o' -> refcount (l1 ++ l2) z = ref_total l1.
Proof.
  intros H1 H2 Hz. unfold refcount. rewrite filter_app.
  rewrite filter_true, filter_false, app_nil_r; [done| |].
  - eapply Forall_impl; [apply H2|]. simpl. lia.
  - eapply Forall_impl; [apply H1|]. simpl. lia.
Qed.

(** The offsets up to the next node [o'] are decided by the state. *)
Lemma gen_advance l1 l2 o o' rt start :
  gen_inv l1 l2 o rt start -> o <= o' ->
  Forall (fun sr => sr_offset sr <= o) l1 -> Forall (fun sr => o' <= sr_offset sr) l2 ->
  gen_inv l1 l2 o' rt start.
Proof.
  intros [Hrt Hst Hop Hbd Hbl Hd] Ho H1 H2. constructor; auto.
  - intros H. specialize (Hbd H). lia.
  - intros z Hz. destruct (Hbl z Hz). split; [lia|done].
  - intros z Hz. destruct (Z.lt_ge_cases z o) as [Hlt|Hge]; [by apply Hd|].
    rewrite (refcount_between l1 l2 o o') by (done || lia). rewrite <- Hop. unfold decided. split.
    + intros [Hc|[? ?]]; [|done]. destruct (Hbl z Hc). lia.
    + intros Hne. right. split; [done|]. specialize (Hbd Hne). lia.
Qed.

Lemma generate_step_spec l1 sr l2 rt start :
  gen_inv l1 (sr :: l2) (sr_offset sr) rt start -> 0 <= sr_offset sr < B64 - 1 ->
  ref_weight (l1 ++ [sr]) < 2 ^ 63 ->
  exists rt' start',
    generate_step zfs_recover sr rt minref start (ref_total l1) =
      Ok (rt', start', ref_total (l1 ++ [sr])) /\
    rt_ops rt' = rt_ops rt /\ gen_inv (l1 ++ [sr]) l2 (sr_offset sr) rt' start'.
Proof.
  intros [Hrt Hst Hop Hbd Hbl Hd] Ho Hw. pose proof (ref_weight_total (l1 ++ [sr])) as Hwt.
  assert (Hcat : l1 ++ sr :: l2 = (l1 ++ [sr]) ++ l2) by (by rewrite <- app_assoc).
  setoid_rewrite Hcat in Hd. unfold generate_step.
  replace (ref_total l1 + sr_refcnt sr) with (ref_total (l1 ++ [sr])) by (rewrite ref_total_app; simpl; lia).
  rewrite wrap_s64_small by lia.
  destruct (Z.leb_spec minref (ref_total (l1 ++ [sr]))) as [Hge|Hlt].
  - eexists rt, _. split; [done|]. split; [done|].
    destruct (Z.eqb_spec start (B64 - 1)) as [->|Hne]; [|by constructor; auto; tauto].
    constructor; auto; try lia.
    + intros z Hz. destruct (Hbl z Hz). lia.
    + intros z Hz. rewrite <- Hd by done. unfold decided. intuition lia.
  - destruct (Z.eqb_spec start (B64 - 1)) as [->|Hne]; simpl.
    { eexists rt, _. split; [done|]. split; [done|]. constructor; auto. lia. }
    specialize (Hbd Hne). destruct (Z.ltb_spec start (sr_offset sr)) as [Hlt'|Heq]; simpl.
    + destruct (range_tree_add_disjoint (R := R) zfs_recover rt start (sr_offset sr - start) Hrt)
        as (rt1 & E1 & Hrt1 & Hops & _ & Hc1).
      { unfold range_ok. lia. }
      { intros z Hz Hc. destruct (Hbl z Hc) as [_ ?]. lia. }
      rewrite wrap64_small by (split; lia). rewrite E1. simpl. rewrite Zplus_minus in Hc1.
      eexists rt1, _. split; [done|]. split; [done|]. constructor; auto; try lia.
      * intros z [Hz|Hz]%Hc1; [destruct (Hbl z Hz)|]; lia.
      * intros z Hz. rewrite <- Hd by done. unfold decided. rewrite Hc1. intuition lia.
    + eexists rt, _. split; [done|]. split; [done|]. constructor; auto; try lia.
      * intros z Hz. destruct (Hbl z Hz). lia.
      * intros z Hz. rewrite <- Hd by done. unfold decided. intuition lia.
Qed.

Lemma generate_loop_spec l1 l2 o rt start :
  gen_inv l1 l2 o rt start -> 0 <= o < B64 - 1 ->
  Forall (fun sr => sr_offset sr <= o) l1 ->
  StronglySorted (fun a b => sr_offset a <= sr_offset b) l2 ->
  Forall (fun sr => o <= sr_offset sr < B64 - 1) l2 -> ref_weight (l1 ++ l2) < 2 ^ 63 ->
  exists rt' o', generate_loop zfs_recover l2 rt minref start (ref_total l1) = Ok rt' /\
    rt_ops rt' = rt_ops rt /\ Forall (fun sr => sr_offset sr <= o') (l1 ++ l2) /\
    exists start', gen_inv (l1 ++ l2) [] o' rt' start'.
Proof.
  revert l1 o rt start. induction l2 as [|sr l2 IH]; intros l1 o rt start Hg Ho H1 Hs H2 Hw.
  { rewrite app_nil_r in *. exists rt, o. split_and!; try done. by exists start. }
  apply StronglySorted_inv in Hs as [Hs Hsr]. apply Forall_cons in H2 as [H2sr H2].
  apply (gen_advance _ _ _ (sr_offset sr)) in Hg; [|lia|done|].
  2:{ constructor; [lia|]. eapply Forall_impl; [apply Hsr|]. done. }
  assert (Hcat : l1 ++ sr :: l2 = (l1 ++ [sr]) ++ l2) by (by rewrite <- app_assoc).
  rewrite Hcat in Hw |- *.
  assert (0 <= ref_weight l2) by (pose proof (ref_weight_total l2); lia).
  destruct (generate_step_spec l1 sr l2 rt start Hg) as (rt1 & start1 & E1 & Ho1 & Hg1); [lia| |].
  { rewrite ref_weight_app in Hw. lia. }
  cbn [generate_loop]. rewrite E1, <- Ho1. cbn [mbind res_bind].
  apply (IH _ (sr_offset sr)); auto; [lia| |].
  - apply Forall_app. split; [|by constructor]. eapply Forall_impl; [apply H1|]. simpl. lia.
  - rewrite Forall_forall in H2, Hsr |- *. intros x Hx. specialize (H2 x Hx). specialize (Hsr x Hx). lia.
Qed.

End Generate.

(** ** What the component promises *)

Section Correct.
Context {St : Type} (R : list range_seg -> St -> Prop) (zfs_recover : bool).
Context (kmem_alloc : list space_ref -> Z).
Context (alloc_fresh : forall l, kmem_alloc l ∉ sr_addr <$> l).
Implicit Types rt : range_tree St.

(** The maps [rts] added one after the other with one reference each. *)
Fixpoint add_maps t (rts : list (range_tree St)) : res (avl_tree space_ref) :=
  match rts with
  | [] => Ok t
  | rt :: rts' => t ← space_reftree_add_map kmem_alloc t rt 1; add_maps t rts'
  end.

Lemma generate_map_ok t rt minref :
  reftree_ok t -> ref_weight (avl_elements t) < 2 ^ 63 -> 0 < minref -> rt_inv R rt ->
  exists rt', space_reftree_generate_map zfs_recover t rt minref = Ok rt' /\ rt_inv R rt' /\
    rt_ops rt' = rt_ops rt /\
    (forall z, covers (rt_segs rt') z <-> minref <= refcount (avl_elements t) z).
Proof.
  intros (Hwf & Hs & Hoff & Ht) Hw Hm Hrt. unfold space_reftree_generate_map.
  destruct (range_tree_vacate_spec (T := unit) rt None tt Hrt) as (segs & rt0 & _ & Hrt0 & Hnil & Ho0 & ->).
  simpl. rewrite avl_iterate_elements by (done || by apply sorted_NoDup).
  assert (Hz : forall z, z < 0 -> refcount (avl_elements t) z = 0).
  { intros z Hz. unfold refcount. rewrite filter_false; [done|].
    eapply Forall_impl; [apply Hoff|]. simpl. lia. }
  destruct (generate_loop_spec (R := R) zfs_recover minref Hm [] (avl_elements t) 0 rt0 (B64 - 1))
    as (rt' & o' & E & Ho & Hb & start' & Hg); auto; try lia.
  - constructor; simpl; auto; try lia.
    + intros z Hc. rewrite Hnil in Hc. by apply covers_nil in Hc.
    + intros z Hlt. rewrite Hz by done. unfold decided. rewrite Hnil, covers_nil. lia.
  - by apply sorted_offsets.
  - exists rt'. split; [done|]. destruct Hg as [Hrt' Hst Hop Hbd Hbl Hd].
    rewrite app_nil_l, app_nil_r in *.
    assert (start' = B64 - 1) as -> by (rewrite Ht in Hop; destruct (Z.eq_dec start' (B64 - 1)); [done|lia]).
    split; [done|]. split; [congruence|]. intros z. destruct (Z.lt_ge_cases z o') as [Hlt|Hge].
    + rewrite <- Hd by done. unfold decided. intuition lia.
    + unfold refcount. rewrite filter_true, Ht; [|eapply Forall_impl; [apply Hb|]; simpl; lia].
      split; [|lia]. intros Hc. destruct (Hbl z Hc). lia.
Qed.

(** [space_reftree_generate_map] gives the range tree of exactly the
    offsets with at least [minref] references, whatever it held before, and
    whatever the order of the boundary nodes at one offset. *)
Theorem space_reftree_generate_map_correct t rt minref :
  reftree_ok t -> ref_weight (avl_elements t) < 2 ^ 63 -> 0 < minref -> rt_inv R rt ->
  exists rt', space_reftree_generate_map zfs_recover t rt minref = Ok rt' /\ rt_inv R rt' /\
    rt_ops rt' = rt_ops rt /\
    (forall z, covers (rt_segs rt') z <-> minref <= refcount (avl_elements t) z).
Proof. apply generate_map_ok. Qed.

(** How many of the trees hold the offset [z]. *)
Definition nrefs (rts : list (range_tree St)) (z : Z) : Z :=
  Z.of_nat (length (filter (fun rt => covers (rt_segs rt) z) rts)).

Lemma nrefs_cons rt rts z :
  nrefs (rt :: rts) z = (if decide (covers (rt_segs rt) z) then 1 else 0) + nrefs rts z.
Proof. unfold nrefs. rewrite filter_cons. destruct (decide _); simpl; lia. Qed.

Definition nsegs (rts : list (range_tree St)) : Z :=
  foldr (fun rt n => Z.of_nat (length (rt_segs rt)) + n) 0 rts.

Lemma add_maps_ok rts t :
  reftree_ok t -> Forall (rt_inv R) rts ->
  Forall (fun rt => Forall (fun rs => rs_end rs < B64 - 1) (rt_segs rt)) rts ->
  exists t', add_maps t rts = Ok t' /\ reftree_ok t' /\
    ref_weight (avl_elements t') = ref_weight (avl_elements t) + 2 * nsegs rts /\
    (forall z, refcount (avl_elements t') z = refcount (avl_elements t) z + nrefs rts z).
Proof.
  revert t. induction rts as [|rt rts IH]; intros t Ht Hrt He; simpl.
  { exists t. split_and!; auto; [lia|]. intros z. unfold nrefs. simpl. lia. }
  apply Forall_cons in Hrt as [Hrt Hrts]. apply Forall_cons in He as [He Hes].
  unfold space_reftree_add_map. rewrite (range_tree_segs_ok rt Hrt). pose proof Hrt as (_ & Hs & _).
  destruct (add_segs_ok kmem_alloc alloc_fresh (rt_segs rt) t 1) as (t1 & -> & Ht1 & Hw1 & Hc1); auto; [lia|].
  simpl. destruct (IH t1) as (t2 & -> & Ht2 & Hw2 & Hc2); auto.
  exists t2. split; [done|]. split; [done|]. split; [lia|]. intros z. rewrite Hc2, nrefs_cons.
  destruct (Hc1 z) as [Hin Hout]. destruct (decide _); [rewrite Hin by done|rewrite Hout by done]; lia.
Qed.

(** C34: a tree built by adding range trees and generated with threshold
    [minref] holds the offsets that at least [minref] of the trees hold: their
    union for 1, their intersection for their number. *)
Theorem space_reftree_threshold rts rt minref :
  Forall (rt_inv R) rts ->
  Forall (fun rt => Forall (fun rs => rs_end rs < B64 - 1) (rt_segs rt)) rts ->
  nsegs rts < 2 ^ 62 -> 0 < minref -> rt_inv R rt ->
  exists t rt', add_maps space_reftree_create rts = Ok t /\
    space_reftree_generate_map zfs_recover t rt minref = Ok rt' /\ rt_inv R rt' /\
    (forall z, covers (rt_segs rt') z <-> minref <= nrefs rts z).
Proof.
  intros Hrts He Hn Hm Hrt.
  destruct (add_maps_ok rts space_reftree_create) as (t & E & Ht & Hw & Hc); auto.
  { split; [done|]. split; [constructor|]. split; [constructor|done]. }
  destruct (generate_map_ok t rt minref Ht) as (rt' & E' & Hrt' & _ & Hc'); auto.
  { rewrite Hw. simpl. lia. }
  exists t, rt'. split; [done|]. split; [done|]. split; [done|]. intros z.
  rewrite Hc', Hc. done.
Qed.

End Correct.

(** ** Witnesses *)

Module Example.
Import RangeTree.Example.

(** An allocator that returns an address above all live nodes. *)
Definition alloc_above (l : list space_ref) : Z := 1 + foldr (fun sr n => Z.max (sr_addr sr) n) 0 l.

Lemma alloc_above_fresh l : alloc_above l ∉ sr_addr <$> l.
Proof.
  assert (H : Forall (fun a => a < alloc_above l) (sr_addr <$> l)).
  { apply Forall_fmap, Forall_forall. intros sr Hin. unfold alloc_above. simpl.
    induction l as [|x l IH]; [by apply elem_of_nil in Hin|].
    apply elem_of_cons in Hin as [->|Hin]; simpl; [lia|]. specialize (IH Hin). lia. }
  intros Hin. rewrite Forall_forall in H. specialize (H _ Hin). lia.
Qed.

(** The tree with one reference to [[5,25)]. *)
Definition reft : avl_tree space_ref :=
  AvlTree (Node 1 Leaf (SpaceRef 9 5 1) (Node 0 Leaf (SpaceRef 8 25 (-1)) Leaf)) 2.

Lemma reft_ok : reftree_ok reft.
Proof. split; [by repeat split|]. split; [repeat constructor|]. split; [repeat constructor; simpl; lia|done]. Qed.

Lemma space_reftree_generate_map_correct_witness :
  exists rt', space_reftree_generate_map false reft rt2 1 = Ok rt' /\ rt_segs rt' = [RangeSeg 5 25].
Proof.
  destruct (space_reftree_generate_map_correct no_index false reft rt2 1 reft_ok) as (rt' & H & _);
    [done|lia|apply rt2_inv|].
  exists rt'. split; [done|]. vm_compute in H. by injection H as <-.
Defined.

Lemma space_reftree_threshold_witness :
  exists t rt', add_maps alloc_above space_reftree_create [rt2; rt2'] = Ok t /\
    space_reftree_generate_map false t rt2 2 = Ok rt' /\ covers (rt_segs rt') 25.
Proof.
  destruct (space_reftree_threshold no_index false alloc_above alloc_above_fresh [rt2; rt2'] rt2 2)
    as (t & rt' & H1 & H2 & _ & H3).
  - apply Forall_cons. split; [apply rt2_inv|]. apply Forall_singleton, rt2'_inv.
  - repeat constructor; simpl; lia.
  - done.
  - lia.
  - apply rt2_inv.
  - exists t, rt'. split; [done|]. split; [done|]. apply H3. done.
Defined.

End Example.
