(* ===== verification/Metaslab.v ===== *)
(** * Metaslabs: the free tree and the block allocators of [module/zfs/metaslab.c]

    A metaslab keeps its free segments in a range tree ordered by offset and,
    through the callbacks [metaslab_rt_ops], in a second AVL tree ordered by
    size.  The callbacks discharge the interface [RtOpsSpec], so every theorem
    about range trees applies to the free tree.  The allocators pick a segment
    from one of the two trees; each is proved to return only free space. *)

From S2P Require Import Prelude Bits Avl RangeTree SpaceMap.

Definition SPA_MINBLOCKSHIFT : Z := 9.
Definition TXG_SIZE : nat := 4.
Definition TXG_MASK : Z := 3.
Definition TXG_DEFER_SIZE : nat := 2.
Definition TXG_CONCURRENT_STATES : nat := 3.
Definition MAX_LBAS : nat := 64.

(** [-1ULL], the value of a failed allocation. *)
Definition NO_OFFSET : Z := B64 - 1.

(** ** The size-ordered index *)

Definition metaslab_rangesize_compare (r1 r2 : range_seg) : Z :=
  let cmp := AVL_CMP (rs_size r1) (rs_size r2) in
  if negb (cmp =? 0) then cmp else AVL_CMP (rs_start r1) (rs_start r2).

(** The part of a metaslab its range tree callbacks work on. *)
Record ms_arg : Type := MsArg {
  ms_size_tree : avl_tree range_seg;
  ms_condensing : bool
}.

Definition metaslab_rt_create (arg : ms_arg) : ms_arg := MsArg avl_create (ms_condensing arg).

Definition metaslab_rt_destroy (arg : ms_arg) : ms_arg := arg.

Definition metaslab_rt_add (rs : range_seg) (arg : ms_arg) : res ms_arg :=
  VERIFY negb (ms_condensing arg) ;;
  t ← avl_add (AvlCompar0 := metaslab_rangesize_compare) (ms_size_tree arg) rs;
  Ok (MsArg t (ms_condensing arg)).

Definition metaslab_rt_remove (rs : range_seg) (arg : ms_arg) : res ms_arg :=
  VERIFY negb (ms_condensing arg) ;;
  t ← avl_remove (ms_size_tree arg) rs;
  Ok (MsArg t (ms_condensing arg)).

Definition metaslab_rt_vacate (arg : ms_arg) : ms_arg := MsArg avl_create (ms_condensing arg).

Definition metaslab_rt_ops : range_tree_ops ms_arg :=
  RangeTreeOps _ metaslab_rt_create metaslab_rt_destroy metaslab_rt_add metaslab_rt_remove
    metaslab_rt_vacate.

(** ** State *)

Abbreviation rtree := (range_tree ms_arg).

Record metaslab : Type := Metaslab {
  ms_sm : option space_map;
  ms_id : Z;
  ms_start : Z;
  ms_size : Z;
  ms_fragmentation : Z;
  ms_alloctree : list rtree;
  ms_tree : rtree;
  ms_freeingtree : rtree;
  ms_freedtree : rtree;
  ms_defertree : list rtree;
  ms_condense_wanted : bool;
  ms_loaded : bool;
  ms_deferspace : Z;
  ms_weight : Z;
  ms_activation_weight : Z;
  ms_selected_txg : Z;
  ms_alloc_txg : Z;
  ms_max_size : Z;
  ms_lbas : list Z
}.

(** Assignments to the fields. *)
Definition set_ms_sm (msp : metaslab) (v : option space_map) : metaslab :=
  Metaslab v (ms_id msp) (ms_start msp) (ms_size msp) (ms_fragmentation msp) (ms_alloctree msp)
    (ms_tree msp) (ms_freeingtree msp) (ms_freedtree msp) (ms_defertree msp)
    (ms_condense_wanted msp) (ms_loaded msp) (ms_deferspace msp) (ms_weight msp)
    (ms_activation_weight msp) (ms_selected_txg msp) (ms_alloc_txg msp) (ms_max_size msp)
    (ms_lbas msp).

Definition set_ms_fragmentation (msp : metaslab) (v : Z) : metaslab :=
  Metaslab (ms_sm msp) (ms_id msp) (ms_start msp) (ms_size msp) v (ms_alloctree msp) (ms_tree msp)
    (ms_freeingtree msp) (ms_freedtree msp) (ms_defertree msp) (ms_condense_wanted msp)
    (ms_loaded msp) (ms_deferspace msp) (ms_weight msp) (ms_activation_weight msp)
    (ms_selected_txg msp) (ms_alloc_txg msp) (ms_max_size msp) (ms_lbas msp).

Definition set_ms_alloctree (msp : metaslab) (v : list rtree) : metaslab :=
  Metaslab (ms_sm msp) (ms_id msp) (ms_start msp) (ms_size msp) (ms_fragmentation msp) v
    (ms_tree msp) (ms_freeingtree msp) (ms_freedtree msp) (ms_defertree msp)
    (ms_condense_wanted msp) (ms_loaded msp) (ms_deferspace msp) (ms_weight msp)
    (ms_activation_weight msp) (ms_selected_txg msp) (ms_alloc_txg msp) (ms_max_size msp)
    (ms_lbas msp).

Definition set_ms_tree (msp : metaslab) (v : rtree) : metaslab :=
  Metaslab (ms_sm msp) (ms_id msp) (ms_start msp) (ms_size msp) (ms_fragmentation msp)
    (ms_alloctree msp) v (ms_freeingtree msp) (ms_freedtree msp) (ms_defertree msp)
    (ms_condense_wanted msp) (ms_loaded msp) (ms_deferspace msp) (ms_weight msp)
    (ms_activation_weight msp) (ms_selected_txg msp) (ms_alloc_txg msp) (ms_max_size msp)
    (ms_lbas msp).

Definition set_ms_freeingtree (msp : metaslab) (v : rtree) : metaslab :=
  Metaslab (ms_sm msp) (ms_id msp) (ms_start msp) (ms_size msp) (ms_fragmentation msp)
    (ms_alloctree msp) (ms_tree msp) v (ms_freedtree msp) (ms_defertree msp)
    (ms_condense_wanted msp) (ms_loaded msp) (ms_deferspace msp) (ms_weight msp)
    (ms_activation_weight msp) (ms_selected_txg msp) (ms_alloc_txg msp) (ms_max_size msp)
    (ms_lbas msp).

Definition set_ms_freedtree (msp : metaslab) (v : rtree) : metaslab :=
  Metaslab (ms_sm msp) (ms_id msp) (ms_start msp) (ms_size msp) (ms_fragmentation msp)
    (ms_alloctree msp) (ms_tree msp) (ms_freeingtree msp) v (ms_defertree msp)
    (ms_condense_wanted msp) (ms_loaded msp) (ms_deferspace msp) (ms_weight msp)
    (ms_activation_weight msp) (ms_selected_txg msp) (ms_alloc_txg msp) (ms_max_size msp)
    (ms_lbas msp).

Definition set_ms_defertree (msp : metaslab) (v : list rtree) : metaslab :=
  Metaslab (ms_sm msp) (ms_id msp) (ms_start msp) (ms_size msp) (ms_fragmentation msp)
    (ms_alloctree msp) (ms_tree msp) (ms_freeingtree msp) (ms_freedtree msp) v
    (ms_condense_wanted msp) (ms_loaded msp) (ms_deferspace msp) (ms_weight msp)
    (ms_activation_weight msp) (ms_selected_txg msp) (ms_alloc_txg msp) (ms_max_size msp)
    (ms_lbas msp).

Definition set_ms_condense_wanted (msp : metaslab) (v : bool) : metaslab :=
  Metaslab (ms_sm msp) (ms_id msp) (ms_start msp) (ms_size msp) (ms_fragmentation msp)
    (ms_alloctree msp) (ms_tree msp) (ms_freeingtree msp) (ms_freedtree msp) (ms_defertree msp) v
    (ms_loaded msp) (ms_deferspace msp) (ms_weight msp) (ms_activation_weight msp)
    (ms_selected_txg msp) (ms_alloc_txg msp) (ms_max_size msp) (ms_lbas msp).

Definition set_ms_loaded (msp : metaslab) (v : bool) : metaslab :=
  Metaslab (ms_sm msp) (ms_id msp) (ms_start msp) (ms_size msp) (ms_fragmentation msp)
    (ms_alloctree msp) (ms_tree msp) (ms_freeingtree msp) (ms_freedtree msp) (ms_defertree msp)
    (ms_condense_wanted msp) v (ms_deferspace msp) (ms_weight msp) (ms_activation_weight msp)
    (ms_selected_txg msp) (ms_alloc_txg msp) (ms_max_size msp) (ms_lbas msp).

Definition set_ms_deferspace (msp : metaslab) (v : Z) : metaslab :=
  Metaslab (ms_sm msp) (ms_id msp) (ms_start msp) (ms_size msp) (ms_fragmentation msp)
    (ms_alloctree msp) (ms_tree msp) (ms_freeingtree msp) (ms_freedtree msp) (ms_defertree msp)
    (ms_condense_wanted msp) (ms_loaded msp) v (ms_weight msp) (ms_activation_weight msp)
    (ms_selected_txg msp) (ms_alloc_txg msp) (ms_max_size msp) (ms_lbas msp).

Definition set_ms_weight (msp : metaslab) (v : Z) : metaslab :=
  Metaslab (ms_sm msp) (ms_id msp) (ms_start msp) (ms_size msp) (ms_fragmentation msp)
    (ms_alloctree msp) (ms_tree msp) (ms_freeingtree msp) (ms_freedtree msp) (ms_defertree msp)
    (ms_condense_wanted msp) (ms_loaded msp) (ms_deferspace msp) v (ms_activation_weight msp)
    (ms_selected_txg msp) (ms_alloc_txg msp) (ms_max_size msp) (ms_lbas msp).

Definition set_ms_activation_weight (msp : metaslab) (v : Z) : metaslab :=
  Metaslab (ms_sm msp) (ms_id msp) (ms_start msp) (ms_size msp) (ms_fragmentation msp)
    (ms_alloctree msp) (ms_tree msp) (ms_freeingtree msp) (ms_freedtree msp) (ms_defertree msp)
    (ms_condense_wanted msp) (ms_loaded msp) (ms_deferspace msp) (ms_weight msp) v
    (ms_selected_txg msp) (ms_alloc_txg msp) (ms_max_size msp) (ms_lbas msp).

Definition set_ms_selected_txg (msp : metaslab) (v : Z) : metaslab :=
  Metaslab (ms_sm msp) (ms_id msp) (ms_start msp) (ms_size msp) (ms_fragmentation msp)
    (ms_alloctree msp) (ms_tree msp) (ms_freeingtree msp) (ms_freedtree msp) (ms_defertree msp)
    (ms_condense_wanted msp) (ms_loaded msp) (ms_deferspace msp) (ms_weight msp)
    (ms_activation_weight msp) v (ms_alloc_txg msp) (ms_max_size msp) (ms_lbas msp).

Definition set_ms_alloc_txg (msp : metaslab) (v : Z) : metaslab :=
  Metaslab (ms_sm msp) (ms_id msp) (ms_start msp) (ms_size msp) (ms_fragmentation msp)
    (ms_alloctree msp) (ms_tree msp) (ms_freeingtree msp) (ms_freedtree msp) (ms_defertree msp)
    (ms_condense_wanted msp) (ms_loaded msp) (ms_deferspace msp) (ms_weight msp)
    (ms_activation_weight msp) (ms_selected_txg msp) v (ms_max_size msp) (ms_lbas msp).

Definition set_ms_max_size (msp : metaslab) (v : Z) : metaslab :=
  Metaslab (ms_sm msp) (ms_id msp) (ms_start msp) (ms_size msp) (ms_fragmentation msp)
    (ms_alloctree msp) (ms_tree msp) (ms_freeingtree msp) (ms_freedtree msp) (ms_defertree msp)
    (ms_condense_wanted msp) (ms_loaded msp) (ms_deferspace msp) (ms_weight msp)
    (ms_activation_weight msp) (ms_selected_txg msp) (ms_alloc_txg msp) v (ms_lbas msp).

Definition set_ms_lbas (msp : metaslab) (v : list Z) : metaslab :=
  Metaslab (ms_sm msp) (ms_id msp) (ms_start msp) (ms_size msp) (ms_fragmentation msp)
    (ms_alloctree msp) (ms_tree msp) (ms_freeingtree msp) (ms_freedtree msp) (ms_defertree msp)
    (ms_condense_wanted msp) (ms_loaded msp) (ms_deferspace msp) (ms_weight msp)
    (ms_activation_weight msp) (ms_selected_txg msp) (ms_alloc_txg msp) (ms_max_size msp) v.

(** ** The allocators *)

Definition metaslab_block_maxsize (msp : metaslab) : Z :=
  match avl_last (ms_size_tree (rt_arg (ms_tree msp))) with
  | None => 0
  | Some rs => rs_size rs
  end.

(** The trees the picker searches carry their own comparison. *)
Section Picker.
Context {compar : AvlCompar range_seg}.

Definition metaslab_block_find (t : avl_tree range_seg) (start size : Z) : option range_seg :=
  match avl_find t (RangeSeg start (wrap64 (start + size))) with
  | Found rs => Some rs
  | NotFound where_ => avl_nearest t where_ AVL_AFTER
  end.

(** The loop of [metaslab_block_picker] along the tree. *)
Fixpoint picker_loop (fuel : nat) (t : avl_tree range_seg) (rs : option range_seg) (size align : Z)
    : option Z :=
  match fuel, rs with
  | S fuel', Some rs =>
      let offset := P2ROUNDUP (rs_start rs) align in
      if wrap64 (offset + size) <=? rs_end rs then Some offset
      else picker_loop fuel' t (avl_walk t rs AVL_AFTER) size align
  | _, _ => None
  end.

(** The offset picked (or [NO_OFFSET]) and the cursor left.  The function calls
    itself at most once, with the cursor at 0: [depth] counts the calls left. *)
Fixpoint block_picker (depth : nat) (t : avl_tree range_seg) (cursor size align : Z) : Z * Z :=
  let n := length (avl_elements t) in
  match picker_loop n t (metaslab_block_find t cursor size) size align with
  | Some offset => (offset, wrap64 (offset + size))
  | None =>
      if cursor =? 0 then (NO_OFFSET, cursor) else
      match depth with
      | O => (NO_OFFSET, cursor)
      | S depth' => block_picker depth' t 0 size align
      end
  end.

Definition metaslab_block_picker (t : avl_tree range_seg) (cursor size align : Z) : Z * Z :=
  block_picker 1 t cursor size align.

End Picker.

(** [size & -size], the largest power of two that divides the size. *)
Definition size_align (size : Z) : Z := Z.land size (wrap64 (- size)).

(** The cursor of a metaslab for an index of [ms_lbas]. *)
Definition lba (msp : metaslab) (i : Z) : Z := nth (Z.to_nat i) (ms_lbas msp) 0.
Definition set_lba (msp : metaslab) (i v : Z) : metaslab :=
  set_ms_lbas msp (<[Z.to_nat i := v]> (ms_lbas msp)).

Definition metaslab_ff_alloc (msp : metaslab) (size : Z) : Z * metaslab :=
  let align := size_align size in
  let i := highbit64 align - 1 in
  let t := rt_root (ms_tree msp) in
  let '(offset, cursor) := metaslab_block_picker t (lba msp i) size align in
  (offset, set_lba msp i cursor).

Definition metaslab_df_alloc (metaslab_df_alloc_threshold metaslab_df_free_pct : Z)
    (msp : metaslab) (size : Z) : Z * metaslab :=
  let align := size_align size in
  let i := highbit64 align - 1 in
  let rt := ms_tree msp in
  let max_size := metaslab_block_maxsize msp in
  let free_pct := to_int (wrap64 (range_tree_space rt * 100) / ms_size msp) in
  if max_size <? size then (NO_OFFSET, msp)
  else if (max_size <? metaslab_df_alloc_threshold) || (free_pct <? metaslab_df_free_pct) then
    let '(offset, cursor) :=
      metaslab_block_picker (compar := metaslab_rangesize_compare) (ms_size_tree (rt_arg rt)) 0 size 1 in
    (offset, set_lba msp i cursor)
  else
    let '(offset, cursor) := metaslab_block_picker (rt_root rt) (lba msp i) size 1 in
    (offset, set_lba msp i cursor).

Definition metaslab_cf_alloc (msp : metaslab) (size : Z) : Z * metaslab :=
  let cursor := lba msp 0 in
  let cursor_end := lba msp 1 in
  if cursor_end <? wrap64 (cursor + size) then
    match avl_last (ms_size_tree (rt_arg (ms_tree msp))) with
    | None => (NO_OFFSET, msp)
    | Some rs =>
        if rs_size rs <? size then (NO_OFFSET, msp) else
        (rs_start rs, set_lba (set_lba msp 0 (wrap64 (rs_start rs + size))) 1 (rs_end rs))
    end
  else (cursor, set_lba msp 0 (wrap64 (cursor + size))).

(** The segment at the cursor, or one of the size wanted from the size tree. *)
Definition metaslab_ndf_alloc (metaslab_ndf_clump_shift : Z) (msp : metaslab) (size : Z) : res (Z * metaslab) :=
  let hbit := highbit64 size in
  let i := hbit - 1 in
  let cursor := lba msp i in
  let max_size := metaslab_block_maxsize msp in
  if max_size <? size then Ok (NO_OFFSET, msp) else
  let by_size :=
    metaslab_block_find (compar := metaslab_rangesize_compare) (ms_size_tree (rt_arg (ms_tree msp))) 0
      (Z.min max_size (wrap64 (Z.shiftl 1 (hbit + metaslab_ndf_clump_shift)))) in
  let rs :=
    match avl_find (rt_root (ms_tree msp)) (RangeSeg cursor (wrap64 (cursor + size))) with
    | Found rs => if rs_size rs <? size then by_size else Some rs
    | NotFound _ => by_size
    end in
  match rs with
  | None => Panic
  | Some rs =>
      if size <=? rs_size rs
      then Ok (rs_start rs, set_lba msp i (wrap64 (rs_start rs + size)))
      else Ok (NO_OFFSET, msp)
  end.

(** ** The order of the size tree *)

Abbreviation size_compar := (metaslab_rangesize_compare : AvlCompar range_seg).

Lemma rangesize_compare_cases (x y : range_seg) :
  let lt x y := rs_size x < rs_size y \/ rs_size x = rs_size y /\ rs_start x < rs_start y in
  (lt x y /\ metaslab_rangesize_compare x y = -1) \/ (lt y x /\ metaslab_rangesize_compare x y = 1) \/
  (rs_size x = rs_size y /\ rs_start x = rs_start y /\ metaslab_rangesize_compare x y = 0).
Proof.
  simpl. unfold metaslab_rangesize_compare.
  destruct (AVL_CMP_cases (rs_size x) (rs_size y)) as [[? ->]|[[? ->]|[? ->]]]; simpl; try lia.
  destruct (AVL_CMP_cases (rs_start x) (rs_start y)) as [[? ->]|[[? ->]|[? ->]]]; lia.
Qed.

Lemma size_order : AvlOrder range_seg (AvlCompar0 := size_compar).
Proof.
  split; unfold avl_compar.
  - intros x y. pose proof (rangesize_compare_cases x y). cbv zeta in *. lia.
  - intros x y. pose proof (rangesize_compare_cases x y).
    pose proof (rangesize_compare_cases y x). cbv zeta in *. lia.
  - intros x y z. pose proof (rangesize_compare_cases x y).
    pose proof (rangesize_compare_cases y z). pose proof (rangesize_compare_cases x z).
    cbv zeta in *. lia.
Qed.

(** ** The callbacks keep the size tree in step with the range tree *)

(** The size tree holds exactly the segments [l], in the order of their sizes. *)
Definition size_index (l : list range_seg) (arg : ms_arg) : Prop :=
  avl_wf (ms_size_tree arg) /\ avl_sorted (AvlCompar0 := size_compar) (avl_elements (ms_size_tree arg)) /\
  avl_elements (ms_size_tree arg) ≡ₚ l /\ ms_condensing arg = false.

#[export] Instance metaslab_rt_ops_spec : RtOpsSpec metaslab_rt_ops size_index.
Proof.
  split.
  - intros l1 l2 s Hp (Hwf & Hs & He & Hc). split; [done|]. split; [done|]. split; [|done].
    by rewrite He.
  - intros l rs s (Hwf & Hs & He & Hc) Hok Hni. simpl. unfold metaslab_rt_add. rewrite Hc. simpl.
    destruct (avl_add_sorted (AvlCompar0 := size_compar) (H := size_order) (ms_size_tree s) rs Hwf Hs)
      as (t' & l1 & l2 & -> & Hwf' & E & E' & Hs').
    + rewrite He. apply Forall_cons in Hok as [Hrs Hok]. rewrite Forall_forall in Hok |- *.
      intros y Hy. unfold avl_compar. pose proof (rangesize_compare_cases rs y) as Hcmp. cbv zeta in Hcmp.
      assert (rs <> y) by congruence. pose proof (rs_size_ok _ Hrs). pose proof (rs_size_ok _ (Hok y Hy)).
      assert (~ (rs_size rs = rs_size y /\ rs_start rs = rs_start y)); [|lia].
      intros [? ?]. destruct rs, y; simpl in *. apply H. f_equal; lia.
    + simpl. eexists. split; [done|]. split; [done|]. simpl. rewrite E'. split; [done|].
      split; [|done]. by rewrite <- Permutation_middle, <- E, He.
  - intros l rs s (Hwf & Hs & He & Hc) Hok Hnd. simpl. unfold metaslab_rt_remove. rewrite Hc. simpl.
    assert (Hin : rs ∈ avl_elements (ms_size_tree s)) by (rewrite He; set_solver).
    apply list_elem_of_split in Hin as (l1 & l2 & E).
    destruct (avl_remove_split (ms_size_tree s) l1 rs l2 Hwf) as (t' & -> & Hwf' & E'); [|done|].
    { by apply (sorted_NoDup (AvlCompar0 := size_compar) (H := size_order)). }
    simpl. eexists. split; [done|]. split; [done|]. simpl. rewrite E'. rewrite E in Hs, He. split; [|split; [|done]].
    + by apply (sorted_remove (AvlCompar0 := size_compar) (H := size_order)) in Hs.
    + apply (Permutation_cons_inv (a := rs)). by rewrite Permutation_middle.
  - intros l s (_ & _ & _ & Hc). split; [done|]. split; [constructor|]. done.
Qed.

(** ** What the picker finds *)

(** The block of [size] bytes at the first aligned offset of the segment fits. *)
Definition fits (size align : Z) (rs : range_seg) : Prop :=
  wrap64 (P2ROUNDUP (rs_start rs) align + size) <= rs_end rs.

Section PickerSpec.
Context {compar : AvlCompar range_seg} (t : avl_tree range_seg) (size align : Z).
Context (Hnd : NoDup (avl_elements t)).

Lemma picker_loop_spec fuel l1 l2 :
  avl_elements t = l1 ++ l2 -> (length l2 <= fuel)%nat ->
  match picker_loop fuel t (head l2) size align with
  | Some offset => exists rs, rs ∈ l2 /\ fits size align rs /\ offset = P2ROUNDUP (rs_start rs) align
  | None => Forall (fun rs => ~ fits size align rs) l2
  end.
Proof.
  revert l1 l2. induction fuel as [|fuel IH]; intros l1 [|rs l2] E Hf; simpl in *; try lia; try constructor.
  destruct (Z.leb_spec (wrap64 (P2ROUNDUP (rs_start rs) align + size)) (rs_end rs)) as [Hle|Hgt].
  - exists rs. split; [set_solver|]. done.
  - rewrite (avl_walk_split t l1 rs l2) by done.
    specialize (IH (l1 ++ [rs]) l2). rewrite <- app_assoc in IH. specialize (IH E ltac:(lia)).
    destruct (picker_loop _ _ _ _ _).
    + destruct IH as (rs' & Hin & Hr). exists rs'. split; [set_solver|done].
    + constructor; [unfold fits; lia|done].
Qed.

(** A search starts somewhere in the tree; from 0 it skips no block that fits. *)
Definition find_ok : Prop := forall start, 0 <= start -> start + size < B64 ->
  exists l1 l2, avl_elements t = l1 ++ l2 /\ metaslab_block_find t start size = head l2 /\
    (start = 0 -> Forall (fun rs => ~ fits size align rs) l1).

Lemma block_picker_spec cursor :
  find_ok -> 0 <= cursor -> 0 <= size -> cursor + size < B64 ->
  let '(offset, cursor') := metaslab_block_picker t cursor size align in
  (offset = NO_OFFSET /\ cursor' = 0 /\ Forall (fun rs => ~ fits size align rs) (avl_elements t)) \/
  (exists rs, rs ∈ avl_elements t /\ fits size align rs /\
     offset = P2ROUNDUP (rs_start rs) align /\ cursor' = wrap64 (offset + size)).
Proof.
  intros Hfind Hc Hsz Hc'. unfold metaslab_block_picker.
  assert (Hrec : forall start, 0 <= start -> start + size < B64 ->
    match picker_loop (length (avl_elements t)) t (metaslab_block_find t start size) size align with
    | Some offset => exists rs, rs ∈ avl_elements t /\ fits size align rs /\ offset = P2ROUNDUP (rs_start rs) align
    | None => start = 0 -> Forall (fun rs => ~ fits size align rs) (avl_elements t)
    end).
  { intros start Hst Hst'. destruct (Hfind start Hst Hst') as (l1 & l2 & E & -> & Hskip).
    pose proof (picker_loop_spec (length (avl_elements t)) l1 l2 E) as H.
    rewrite E, length_app in H at 1. specialize (H ltac:(lia)). rewrite E, length_app in H |- *.
    destruct (picker_loop _ _ _ _ _).
    - destruct H as (rs & Hin & Hr). exists rs. split; [set_solver|done].
    - intros H0. apply Forall_app. auto. }
  cbn [block_picker]. pose proof (Hrec cursor Hc Hc') as H1.
  pose proof (Hrec 0 ltac:(lia) ltac:(lia)) as H0.
  destruct (picker_loop _ t (metaslab_block_find t cursor size) size align) as [off|].
  - right. destruct H1 as (rs & Hin & Hf & ->). eauto 10.
  - destruct (Z.eqb_spec cursor 0) as [->|Hne]; [left; auto|].
    destruct (picker_loop _ t (metaslab_block_find t 0 size) size align) as [off|].
    + right. destruct H0 as (rs & Hin & Hf & ->). eauto 10.
    + simpl. left. auto.
Qed.

End PickerSpec.

(** The splitting of a tree at the segment a search returns. *)
Lemma block_find_split {compar : AvlCompar range_seg} t start size :
  let v := RangeSeg start (wrap64 (start + size)) in
  NoDup (avl_elements t) -> search_ok v (avl_elements t) ->
  exists l1 l2, avl_elements t = l1 ++ l2 /\ metaslab_block_find t start size = head l2 /\
    ((exists rs l2', l2 = rs :: l2' /\ avl_compar v rs = 0) \/
     Forall (fun x => 0 < avl_compar v x) l1 /\ Forall (fun x => avl_compar v x < 0) l2).
Proof.
  intros v Hnd Hs. unfold metaslab_block_find. fold v.
  pose proof (avl_find_spec t v Hs) as Hf. destruct (avl_find t v) as [rs|w]; simpl in Hf.
  - destruct Hf as [Hin Hc]. apply list_elem_of_split in Hin as (l1 & l2 & E).
    exists l1, (rs :: l2). split; [done|]. split; [done|]. left. eauto.
  - destruct Hf as (Hw & Hl & Hr). rewrite (avl_nearest_place t w AVL_AFTER Hnd Hw).
    exists (p_left w), (p_right w). split; [by apply is_place_elements|]. auto.
Qed.

(** Segments of a metaslab lie below [2^63], so rounding up does not wrap. *)
Lemma fits_bounds size align rs :
  seg_ok rs -> rs_end rs <= 2 ^ 63 -> 0 < size < 2 ^ 62 -> (exists k, 0 <= k <= 62 /\ align = 2 ^ k) ->
  fits size align rs <-> P2ROUNDUP (rs_start rs) align + size <= rs_end rs.
Proof.
  intros [H1 H2] H3 Hs (k & Hk & ->). unfold fits.
  assert (2 ^ k <= 2 ^ 62) by (apply Z.pow_le_mono_r; lia).
  destruct (P2ROUNDUP_spec (rs_start rs) k) as [_ Hb]; [lia..|].
  rewrite wrap64_small by (split; lia). done.
Qed.

Lemma fits_size size align rs :
  seg_ok rs -> rs_end rs <= 2 ^ 63 -> 0 < size < 2 ^ 62 -> (exists k, 0 <= k <= 62 /\ align = 2 ^ k) ->
  fits size align rs ->
  rs_start rs <= P2ROUNDUP (rs_start rs) align /\ P2ROUNDUP (rs_start rs) align + size <= rs_end rs.
Proof.
  intros Hok He Hs Ha Hf. pose proof (proj1 (fits_bounds _ _ _ Hok He Hs Ha) Hf).
  destruct Ha as (k & Hk & ->), Hok. assert (2 ^ k <= 2 ^ 62) by (apply Z.pow_le_mono_r; lia).
  destruct (P2ROUNDUP_spec (rs_start rs) k) as [_ Hb]; lia.
Qed.

Lemma fits_unaligned size rs :
  seg_ok rs -> rs_end rs <= 2 ^ 63 -> 0 < size < 2 ^ 62 -> fits size 1 rs <-> size <= rs_size rs.
Proof.
  intros Hok He Hs. rewrite (fits_bounds size 1 rs) by (done || by exists 0).
  rewrite (rs_size_ok _ Hok). destruct Hok.
  destruct (P2ROUNDUP_spec (rs_start rs) 0) as [_ Hb]; [lia..|]. change (2 ^ 0) with 1 in Hb. lia.
Qed.

(** A search of the size tree from offset 0 splits it at the size wanted. *)
Lemma size_search t size :
  Forall seg_ok (avl_elements t) -> avl_sorted (AvlCompar0 := size_compar) (avl_elements t) ->
  0 < size < B64 ->
  exists l1 l2, avl_elements t = l1 ++ l2 /\
    metaslab_block_find (compar := size_compar) t 0 size = head l2 /\
    Forall (fun rs => rs_size rs < size) l1 /\ (forall rs, head l2 = Some rs -> size <= rs_size rs).
Proof.
  intros Hok Hs Hsz.
  pose proof (sorted_NoDup (AvlCompar0 := size_compar) (H := size_order) _ Hs) as Hnd.
  destruct (block_find_split (compar := size_compar) t 0 size Hnd) as (l1 & l2 & E & Ef & Hl).
  { by apply (sorted_search_ok (AvlCompar0 := size_compar) (H := size_order)). }
  exists l1, l2. split; [done|]. split; [done|].
  rewrite wrap64_small in Hl by (split; lia). unfold avl_compar in Hl.
  set (v := RangeSeg 0 (0 + size)) in *.
  assert (Hv : rs_size v = size) by (unfold rs_size; simpl; rewrite wrap64_small by (split; lia); lia).
  rewrite E in Hok. apply Forall_app in Hok as [Hok _]. rewrite Forall_forall in Hok.
  destruct Hl as [(rs & l2' & -> & Hc)|[Hl Hr]].
  - pose proof (rangesize_compare_cases v rs) as H2. cbv zeta in H2. rewrite Hv in H2. simpl in H2. split.
    + apply Forall_forall. intros x Hx. destruct (Hok x Hx) as [? _].
      unfold avl_sorted in Hs. rewrite E, StronglySorted_app_inv in Hs. destruct Hs as (_ & _ & Hs).
      specialize (Hs x rs Hx ltac:(set_solver)). unfold avl_compar in Hs.
      pose proof (rangesize_compare_cases x rs). cbv zeta in *. lia.
    + intros rs' [= <-]. lia.
  - rewrite Forall_forall in Hl, Hr. split.
    + apply Forall_forall. intros x Hx. destruct (Hok x Hx) as [? _]. specialize (Hl x Hx).
      pose proof (rangesize_compare_cases v x) as H2. cbv zeta in H2. rewrite Hv in H2. simpl in H2. lia.
    + intros rs Hrs. destruct l2 as [|x l2]; [done|]. injection Hrs as ->.
      specialize (Hr rs ltac:(set_solver)).
      pose proof (rangesize_compare_cases v rs) as H2. cbv zeta in H2. rewrite Hv in H2. lia.
Qed.

Section FindOk.
Context (t : avl_tree range_seg) (size align : Z).
Context (Hok : Forall seg_ok (avl_elements t)).
Context (Hend : Forall (fun rs => rs_end rs <= 2 ^ 63) (avl_elements t)).
Context (Hsize : 0 < size < 2 ^ 62) (Halign : exists k, 0 <= k <= 62 /\ align = 2 ^ k).

Lemma short_misfit (l : list range_seg) :
  l ⊆ avl_elements t -> Forall (fun rs => rs_end rs < size \/ rs_size rs < size) l ->
  Forall (fun rs => ~ fits size align rs) l.
Proof.
  intros Hsub Hl. rewrite Forall_forall in Hok, Hend, Hl |- *. intros rs Hin Hf.
  pose proof (Hok rs (Hsub rs Hin)) as Hrs. pose proof (rs_size_ok _ Hrs).
  destruct (fits_size size align rs Hrs (Hend rs (Hsub rs Hin)) Hsize Halign Hf).
  specialize (Hl rs Hin). destruct Hrs. lia.
Qed.

(** In the tree ordered by offset, what lies before the first hit of a search
    from 0 ends before the size wanted. *)
Lemma offset_find_ok : segs_ok (avl_elements t) -> find_ok t size align.
Proof.
  intros Hs start H0 H1. destruct (block_find_split t start size) as (l1 & l2 & E & Ef & Hl).
  - by apply segs_ok_NoDup.
  - apply segs_ok_search; [|done]. simpl. rewrite wrap64_small by (split; lia). lia.
  - exists l1, l2. split; [done|]. split; [done|]. intros ->.
    rewrite wrap64_small in Hl by (split; lia). unfold avl_compar, range_seg_compar, range_tree_seg_compare in Hl.
    simpl in Hl. apply short_misfit; [rewrite E; set_solver|].
    destruct Hl as [(rs & l2' & -> & Hc)|[Hl _]].
    + rewrite E in Hs. apply segs_ok_mid in Hs as (_ & _ & Hrs & Hlt & _).
      eapply Forall_impl; [apply Hlt|]. intros x Hx. simpl in *. left. destruct Hrs.
      revert Hc. zcase; simpl; lia.
    + rewrite Forall_forall in Hl |- *. intros x Hx. specialize (Hl x Hx). left.
      revert Hl. zcase; simpl; lia.
Qed.

(** In the tree ordered by size, it is shorter than the size wanted. *)
Lemma size_find_ok : avl_sorted (AvlCompar0 := size_compar) (avl_elements t) ->
  find_ok (compar := size_compar) t size align.
Proof.
  intros Hs start H0 H1.
  pose proof (sorted_NoDup (AvlCompar0 := size_compar) (H := size_order) _ Hs) as Hnd.
  destruct (Z.eq_dec start 0) as [->|Hne].
  - destruct (size_search t size Hok Hs) as (l1 & l2 & E & Ef & Hl & _); [lia|].
    exists l1, l2. split; [done|]. split; [done|]. intros _.
    apply short_misfit; [rewrite E; set_solver|]. eapply Forall_impl; [apply Hl|]. auto.
  - destruct (block_find_split (compar := size_compar) t start size Hnd) as (l1 & l2 & E & Ef & _).
    + by apply (sorted_search_ok (AvlCompar0 := size_compar) (H := size_order)).
    + exists l1, l2. split; [done|]. split; [done|]. lia.
Qed.

End FindOk.

(** ** The largest segment and the alignment of a size *)

(** The last segment of the size tree is a largest free segment. *)
Lemma size_tree_last msp :
  rt_inv size_index (ms_tree msp) -> rt_ops (ms_tree msp) = Some metaslab_rt_ops ->
  match avl_last (ms_size_tree (rt_arg (ms_tree msp))) with
  | None => rt_segs (ms_tree msp) = []
  | Some b => b ∈ rt_segs (ms_tree msp) /\ forall rs, rs ∈ rt_segs (ms_tree msp) -> rs_size rs <= rs_size b
  end.
Proof.
  intros (_ & _ & _ & _ & Ho) Eo. rewrite Eo in Ho. destruct Ho as [_ (_ & Hs & Hp & _)].
  rewrite avl_last_last. set (l := avl_elements (ms_size_tree (rt_arg (ms_tree msp)))) in *.
  destruct l as [|b l' _] using rev_ind.
  - by apply Permutation_nil_l in Hp.
  - rewrite last_snoc. split; [rewrite <- Hp; set_solver|].
    intros rs. rewrite <- Hp, elem_of_app, list_elem_of_singleton. intros [Hin| ->]; [|done].
    unfold avl_sorted in Hs. rewrite StronglySorted_app_inv in Hs. destruct Hs as (_ & _ & Hs).
    specialize (Hs rs b Hin ltac:(set_solver)). unfold avl_compar in Hs.
    pose proof (rangesize_compare_cases rs b). cbv zeta in *. lia.
Qed.

Lemma metaslab_block_maxsize_spec msp :
  rt_inv size_index (ms_tree msp) -> rt_ops (ms_tree msp) = Some metaslab_rt_ops ->
  (forall rs, rs ∈ rt_segs (ms_tree msp) -> rs_size rs <= metaslab_block_maxsize msp) /\
  (rt_segs (ms_tree msp) = [] /\ metaslab_block_maxsize msp = 0 \/
   exists rs, rs ∈ rt_segs (ms_tree msp) /\ metaslab_block_maxsize msp = rs_size rs).
Proof.
  intros Hinv Eo. pose proof (size_tree_last msp Hinv Eo) as H. unfold metaslab_block_maxsize.
  destruct (avl_last _) as [b|].
  - destruct H as [Hin Hmax]. split; [done|]. right. eauto.
  - rewrite H. split; [by intros rs ?%elem_of_nil|auto].
Qed.

Lemma size_align_pow size :
  0 < size < 2 ^ 62 -> exists k, 0 <= k <= 62 /\ size_align size = 2 ^ k /\ (2 ^ k | size).
Proof.
  intros Hs. destruct (odd_part size) as (k & j & Hk & Hj & E); [lia|].
  assert (Hp : 0 < 2 ^ k) by (by apply pow_pos).
  assert (k <= 62).
  { apply Z.nlt_ge. intros Hlt. assert (2 ^ 62 < 2 ^ k) by (apply Z.pow_lt_mono_r; lia). nia. }
  exists k. split; [lia|]. split; [|exists (2 * j + 1); lia]. unfold size_align, wrap64.
  change B64 with (2 ^ 64). apply Z.bits_inj'. intros i Hi. rewrite Z.land_spec.
  assert (Hneg : - size = Z.lnot (2 ^ k * (2 * j) + (2 ^ k - 1))) by (unfold Z.lnot; lia).
  assert (Hlow : forall n, 0 <= n -> Z.testbit (2 ^ k * (2 * j) + (2 ^ k - 1)) n =
    if n <? k then true else Z.testbit (2 * j) (n - k)).
  { intros n Hn. pose proof (lor_ones (2 ^ k * (2 * j)) k Hk) as Hl.
    rewrite (Z.mul_comm (2 ^ k)), Z.div_mul in Hl by lia. rewrite (Z.mul_comm (2 ^ k)), <- Hl.
    replace (2 ^ k - 1) with (Z.ones k) by (rewrite Z.ones_equiv; lia).
    rewrite Z.lor_spec, Z.mul_pow2_bits by lia. destruct (Z.ltb_spec n k).
    - by rewrite Z.ones_spec_low, orb_true_r by lia.
    - by rewrite Z.ones_spec_high, orb_false_r by lia. }
  assert (Hx : forall n, 0 <= n -> Z.testbit size n = if n <? k then false else Z.testbit (2 * j + 1) (n - k)).
  { intros n Hn. rewrite E, Z.mul_comm, Z.mul_pow2_bits by lia.
    destruct (Z.ltb_spec n k); [by rewrite Z.testbit_neg_r by lia|done]. }
  rewrite Hx, Z.pow2_bits_eqb, Hneg by lia.
  destruct (Z.ltb_spec i k), (Z.eqb_spec k i) as [<-|Hne]; try lia.
  - rewrite Z.mod_pow2_bits_low, Z.lnot_spec, Hlow, Z.ltb_irrefl, Z.sub_diag by lia.
    by rewrite Z.testbit_odd_0, Z.testbit_even_0.
  - destruct (Z.ltb_spec i 64); [|by rewrite Z.mod_pow2_bits_high, andb_false_r by lia].
    rewrite Z.mod_pow2_bits_low, Z.lnot_spec, Hlow, (proj2 (Z.ltb_ge i k)) by lia.
    replace (i - k) with (Z.succ (i - k - 1)) by lia.
    rewrite Z.testbit_odd_succ, Z.testbit_even_succ by lia. by destruct (Z.testbit j _).
Qed.

(** ** What the allocators promise *)

(** A metaslab ready to allocate: the free tree and its size index satisfy their
    invariants, and the cursors point into the metaslab. *)
Record ms_ok (msp : metaslab) : Prop := {
  ok_tree : rt_inv size_index (ms_tree msp);
  ok_ops : rt_ops (ms_tree msp) = Some metaslab_rt_ops;
  ok_end : Forall (fun rs => rs_end rs <= 2 ^ 63) (rt_segs (ms_tree msp));
  ok_lbas : Forall (fun c => 0 <= c <= 2 ^ 63) (ms_lbas msp)
}.

(** The range returned is free: all its offsets are in the free tree. *)
Definition free_range (msp : metaslab) (offset size : Z) : Prop :=
  range_ok offset size /\ forall z, offset <= z < offset + size -> covers (rt_segs (ms_tree msp)) z.

(** The result of an allocator: only the cursors change, and the offset is that
    of a free range, or [NO_OFFSET] when no free segment is suitable. *)
Definition alloc_result (msp : metaslab) (size : Z) (suits : range_seg -> Prop) (r : Z * metaslab) : Prop :=
  let '(offset, msp') := r in
  (exists l, msp' = set_ms_lbas msp l) /\ ms_ok msp' /\
  ((offset = NO_OFFSET /\ Forall (fun rs => ~ suits rs) (rt_segs (ms_tree msp))) \/
   (offset <> NO_OFFSET /\ free_range msp offset size)).

Lemma lba_range msp i : ms_ok msp -> 0 <= lba msp i <= 2 ^ 63.
Proof.
  intros H. unfold lba. destruct (nth_lookup_or_length (ms_lbas msp) (Z.to_nat i) 0) as [E|E].
  - by apply (Forall_lookup_1 _ _ _ _ (ok_lbas _ H) E).
  - rewrite nth_overflow by done. lia.
Qed.

Lemma set_lba_ok msp i c : ms_ok msp -> 0 <= c <= 2 ^ 63 -> ms_ok (set_lba msp i c).
Proof. intros [] Hc. constructor; simpl; auto. by apply Forall_insert. Qed.

Lemma ms_ok_segs msp rs : ms_ok msp -> rs ∈ rt_segs (ms_tree msp) -> seg_ok rs /\ rs_end rs <= 2 ^ 63.
Proof.
  intros [(_ & [Hs _] & _) _ He _] Hin. rewrite Forall_forall in Hs, He. auto.
Qed.

(** A block inside a segment of the free tree is a free range. *)
Lemma seg_free_range msp rs offset size :
  ms_ok msp -> rs ∈ rt_segs (ms_tree msp) -> 0 < size -> rs_start rs <= offset ->
  offset + size <= rs_end rs ->
  offset <> NO_OFFSET /\ free_range msp offset size /\ 0 <= wrap64 (offset + size) <= 2 ^ 63.
Proof.
  intros Hok Hin Hs H1 H2. destruct (ms_ok_segs msp rs Hok Hin) as [[H3 H4] H5].
  unfold NO_OFFSET, free_range, range_ok. rewrite wrap64_small by (split; lia).
  split_and!; try lia. intros z Hz. apply covers_elem. exists rs. split; [done|lia].
Qed.

(** What the picker returns from a tree of the metaslab's free segments. *)
Lemma picker_result {compar : AvlCompar range_seg} msp t i cursor size align :
  ms_ok msp -> avl_elements t ≡ₚ rt_segs (ms_tree msp) -> find_ok t size align ->
  0 < size < 2 ^ 62 -> (exists k, 0 <= k <= 62 /\ align = 2 ^ k) -> 0 <= cursor <= 2 ^ 63 ->
  alloc_result msp size (fits size align)
    (let '(offset, c) := metaslab_block_picker t cursor size align in (offset, set_lba msp i c)).
Proof.
  intros Hok Hp Hfind Hs Ha Hc.
  assert (Hnd : NoDup (avl_elements t)).
  { rewrite Hp. destruct Hok as [(_ & Hsg & _) _ _ _]. by apply segs_ok_NoDup. }
  pose proof (block_picker_spec t size align Hnd cursor Hfind ltac:(lia) ltac:(lia) ltac:(lia)) as H.
  destruct (metaslab_block_picker t cursor size align) as [offset c]. unfold alloc_result.
  split; [by eexists|]. destruct H as [(-> & -> & Hno)|(rs & Hin & Hf & -> & ->)].
  - split; [apply set_lba_ok; [done|lia]|]. left. split; [done|]. by rewrite <- Hp.
  - rewrite Hp in Hin. destruct (ms_ok_segs msp rs Hok Hin) as [Hrs He].
    destruct (fits_size size align rs Hrs He Hs Ha Hf) as [H1 H2].
    destruct (seg_free_range msp rs _ size Hok Hin ltac:(lia) H1 H2) as (Hne & Hfree & Hcur).
    split; [by apply set_lba_ok|]. auto.
Qed.

Section Allocators.
Context (msp : metaslab) (size : Z) (Hok : ms_ok msp) (Hsize : 0 < size < 2 ^ 62).

Lemma tree_perm : avl_elements (rt_root (ms_tree msp)) ≡ₚ rt_segs (ms_tree msp).
Proof. done. Qed.

Lemma size_tree_perm :
  avl_elements (ms_size_tree (rt_arg (ms_tree msp))) ≡ₚ rt_segs (ms_tree msp) /\
  avl_sorted (AvlCompar0 := size_compar) (avl_elements (ms_size_tree (rt_arg (ms_tree msp)))).
Proof.
  destruct Hok as [(_ & _ & _ & _ & Ho) Eo _ _]. rewrite Eo in Ho. by destruct Ho as [_ (_ & ? & ? & _)].
Qed.

Lemma tree_find_ok align :
  (exists k, 0 <= k <= 62 /\ align = 2 ^ k) -> find_ok (rt_root (ms_tree msp)) size align.
Proof.
  intros Ha. destruct Hok as [(_ & Hs & _) _ He _]. apply offset_find_ok; auto. by destruct Hs.
Qed.

Lemma size_tree_find_ok align :
  (exists k, 0 <= k <= 62 /\ align = 2 ^ k) ->
  find_ok (compar := size_compar) (ms_size_tree (rt_arg (ms_tree msp))) size align.
Proof.
  intros Ha. destruct size_tree_perm as [Hp Hs]. destruct Hok as [(_ & [Hsg _] & _) _ He _].
  apply size_find_ok; auto; by rewrite Hp.
Qed.

Lemma suits_unaligned : Forall (fun rs => fits size 1 rs <-> size <= rs_size rs) (rt_segs (ms_tree msp)).
Proof.
  apply Forall_forall. intros rs Hin. destruct (ms_ok_segs msp rs Hok Hin). by apply fits_unaligned.
Qed.

(** The first-fit allocator returns a free range aligned to the largest
    power of two that divides the size, and fails only when no free segment
    holds such an aligned block, wherever its cursor was. *)
Theorem metaslab_ff_alloc_correct :
  alloc_result msp size (fits size (size_align size)) (metaslab_ff_alloc msp size) /\
  ((metaslab_ff_alloc msp size).1 <> NO_OFFSET ->
     exists k, size_align size = 2 ^ k /\ (2 ^ k | (metaslab_ff_alloc msp size).1)).
Proof.
  destruct (size_align_pow size Hsize) as (k & Hk & Ek & _).
  assert (Ha : exists k, 0 <= k <= 62 /\ size_align size = 2 ^ k) by eauto. split.
  - apply picker_result; auto using tree_find_ok, lba_range.
  - unfold metaslab_ff_alloc.
    pose proof (lba_range msp (highbit64 (size_align size) - 1) Hok) as Hc.
    pose proof (block_picker_spec (rt_root (ms_tree msp)) size (size_align size)
      (segs_ok_NoDup _ (proj1 (proj2 (ok_tree _ Hok)))) (lba msp (highbit64 (size_align size) - 1))
      (tree_find_ok _ Ha) ltac:(lia) ltac:(lia) ltac:(lia)) as H.
    destruct (metaslab_block_picker _ _ _ _) as [offset c]. simpl.
    destruct H as [(-> & _)|(rs & Hin & _ & -> & _)]; [done|]. intros _. exists k. split; [done|].
    rewrite Ek. destruct (ms_ok_segs msp rs Hok Hin) as [[? ?] ?].
    assert (2 ^ k <= 2 ^ 62) by (apply Z.pow_le_mono_r; lia). by apply P2ROUNDUP_spec; lia.
Qed.

(** C33: the dynamic-fit allocator, in both its first-fit and its best-fit mode,
    returns a free range, and fails only when every free segment is shorter than
    the size. *)
Theorem metaslab_df_alloc_correct threshold free_pct :
  alloc_result msp size (fun rs => size <= rs_size rs)
    (metaslab_df_alloc threshold free_pct msp size).
Proof.
  assert (Ha : exists k, 0 <= k <= 62 /\ 1 = 2 ^ k) by (by exists 0).
  assert (Hconv : forall r, alloc_result msp size (fits size 1) r ->
    alloc_result msp size (fun rs => size <= rs_size rs) r).
  { intros [offset msp'] (H1 & H2 & [[-> H3]|H3]); (split; [done|]; split; [done|]); [left|by right].
    split; [done|]. rewrite Forall_forall in H3 |- *. intros rs Hin. pose proof suits_unaligned as Hsu.
    rewrite Forall_forall in Hsu. rewrite <- (Hsu rs Hin). auto. }
  unfold metaslab_df_alloc. destruct (Z.ltb_spec (metaslab_block_maxsize msp) size) as [Hlt|Hge].
  - split; [exists (ms_lbas msp); by destruct msp|]. split; [done|]. left. split; [done|].
    destruct (metaslab_block_maxsize_spec msp (ok_tree _ Hok) (ok_ops _ Hok)) as [Hmax _].
    apply Forall_forall. intros rs Hin. specialize (Hmax rs Hin). lia.
  - destruct (_ || _); apply Hconv.
    + apply (picker_result (compar := size_compar)); auto using size_tree_find_ok; [|lia].
      apply size_tree_perm.
    + apply picker_result; auto using tree_find_ok, lba_range.
Qed.

Lemma set_lba_eq m i v : (Z.to_nat i < length (ms_lbas m))%nat -> lba (set_lba m i v) i = v.
Proof. intros Hl. unfold lba. simpl. apply nth_lookup_Some. by apply list_lookup_insert_eq. Qed.

Lemma set_lba_ne m i j v : Z.to_nat i <> Z.to_nat j -> lba (set_lba m i v) j = lba m j.
Proof. intros Hne. unfold lba. simpl. rewrite !nth_lookup. by rewrite list_lookup_insert_ne. Qed.

(** The cursor-fit allocator returns a free range when the range between
    its cursors is free, and leaves the rest of that range to the next call. *)
Theorem metaslab_cf_alloc_correct :
  (2 <= length (ms_lbas msp))%nat ->
  (forall z, lba msp 0 <= z < lba msp 1 -> covers (rt_segs (ms_tree msp)) z) ->
  let '(offset, msp') := metaslab_cf_alloc msp size in
  alloc_result msp size (fun rs => size <= rs_size rs) (offset, msp') /\
  (offset <> NO_OFFSET -> lba msp' 0 = offset + size /\ lba msp' 0 <= lba msp' 1 /\
     (forall z, lba msp' 0 <= z < lba msp' 1 -> covers (rt_segs (ms_tree msp)) z)).
Proof.
  intros Hlen Hfree. pose proof (lba_range msp 0 Hok). pose proof (lba_range msp 1 Hok).
  unfold metaslab_cf_alloc. rewrite (wrap64_small (lba msp 0 + size)) by (split; lia).
  assert (Hid : exists l, msp = set_ms_lbas msp l) by (exists (ms_lbas msp); by destruct msp).
  destruct (Z.ltb_spec (lba msp 1) (lba msp 0 + size)) as [Hlt|Hge].
  - pose proof (size_tree_last msp (ok_tree _ Hok) (ok_ops _ Hok)) as Hl.
    destruct (avl_last _) as [rs|].
    + destruct Hl as [Hin Hmax]. destruct (ms_ok_segs msp rs Hok Hin) as [Hrs He].
      destruct (Z.ltb_spec (rs_size rs) size) as [Hsm|Hbig].
      { split; [|done]. split; [done|]. split; [done|]. left. split; [done|].
        apply Forall_forall. intros x Hx. specialize (Hmax x Hx). lia. }
      rewrite (rs_size_ok _ Hrs) in Hbig. pose proof Hrs as [Hr1 Hr2].
      destruct (seg_free_range msp rs (rs_start rs) size) as (Hne & Hfr & Hcur); auto; [lia..|].
      split.
      * split; [by eexists|]. split; [|auto]. apply set_lba_ok; [by apply set_lba_ok|lia].
      * intros _. rewrite set_lba_ne, !set_lba_eq by (simpl; rewrite ?length_insert; simpl; lia).
        rewrite wrap64_small by (split; lia). split; [done|]. split; [lia|].
        intros z Hz. apply covers_elem. exists rs. split; [done|lia].
    + split; [|done]. split; [done|]. split; [done|]. left. split; [done|]. rewrite Hl. constructor.
  - split.
    + split; [by eexists|]. split; [apply set_lba_ok; [done|lia]|]. right.
      unfold NO_OFFSET, free_range, range_ok. split_and!; try lia. intros z Hz. apply Hfree. lia.
    + intros _. rewrite set_lba_eq, set_lba_ne by (simpl; lia). split; [done|]. split; [lia|].
      intros z Hz. apply Hfree. lia.
Qed.

(** A segment long enough is cut at its start. *)
Lemma take_segment rs i :
  rs ∈ rt_segs (ms_tree msp) -> size <= rs_size rs ->
  exists r, (if size <=? rs_size rs then Ok (rs_start rs, set_lba msp i (wrap64 (rs_start rs + size)))
             else Ok (NO_OFFSET, msp)) = Ok r /\
    alloc_result msp size (fun rs => size <= rs_size rs) r.
Proof.
  intros Hin Hle. rewrite (proj2 (Z.leb_le _ _) Hle). eexists. split; [done|].
  destruct (ms_ok_segs msp rs Hok Hin) as [Hrs He]. rewrite (rs_size_ok _ Hrs) in Hle. pose proof Hrs as [? ?].
  destruct (seg_free_range msp rs (rs_start rs) size) as (Hne & Hfr & Hcur); auto; [lia..|].
  split; [by eexists|]. split; [by apply set_lba_ok|auto].
Qed.

(** The size tree has a segment of any size up to the largest. *)
Lemma find_by_size want :
  0 < want <= metaslab_block_maxsize msp -> size <= want ->
  exists rs, metaslab_block_find (compar := size_compar) (ms_size_tree (rt_arg (ms_tree msp))) 0 want
    = Some rs /\ rs ∈ rt_segs (ms_tree msp) /\ size <= rs_size rs.
Proof.
  intros Hw Hle. destruct size_tree_perm as [Hp Hs].
  destruct (metaslab_block_maxsize_spec msp (ok_tree _ Hok) (ok_ops _ Hok)) as [_ [[_ ?]|(mx & Hmx & Emx)]]; [lia|].
  pose proof (wrap64_range (rs_end mx - rs_start mx)) as Hu. unfold is_u64 in Hu. fold (rs_size mx) in Hu.
  destruct (size_search (ms_size_tree (rt_arg (ms_tree msp))) want) as (l1 & l2 & E & -> & Hl & Hr);
    [|done|lia|].
  { rewrite Hp. by destruct (ok_tree _ Hok) as (_ & [? _] & _). }
  rewrite E in Hp. destruct l2 as [|rs l2].
  - exfalso. rewrite <- Hp, app_nil_r in Hmx. rewrite Forall_forall in Hl. specialize (Hl mx Hmx). lia.
  - exists rs. split; [done|]. split; [rewrite <- Hp; set_solver|]. specialize (Hr rs eq_refl). lia.
Qed.

(** [1 << (hbit + shift)] exceeds the size. *)
Lemma clump_size clump_shift :
  0 <= clump_shift -> highbit64 size + clump_shift < 64 ->
  size < wrap64 (Z.shiftl 1 (highbit64 size + clump_shift)).
Proof.
  intros Hc Hsh. pose proof (Z.log2_spec size ltac:(lia)). pose proof (Z.log2_nonneg size).
  rewrite highbit64_log2 in * by lia. rewrite shiftl1_pow by lia. rewrite wrap64_small.
  - assert (2 ^ Z.succ (Z.log2 size) <= 2 ^ (Z.log2 size + 1 + clump_shift)) by (apply Z.pow_le_mono_r; lia). lia.
  - split; [apply Z.pow_nonneg; lia|]. change B64 with (2 ^ 64). apply Z.pow_lt_mono_r; lia.
Qed.

(** The new dynamic-fit allocator never dereferences a missing segment, returns
    the start of a free segment at least as long as the size, and fails only when
    every free segment is shorter. *)
Theorem metaslab_ndf_alloc_correct clump_shift :
  0 <= clump_shift -> highbit64 size + clump_shift < 64 ->
  exists r, metaslab_ndf_alloc clump_shift msp size = Ok r /\
    alloc_result msp size (fun rs => size <= rs_size rs) r.
Proof.
  intros Hc Hsh. unfold metaslab_ndf_alloc. set (i := highbit64 size - 1).
  destruct (metaslab_block_maxsize_spec msp (ok_tree _ Hok) (ok_ops _ Hok)) as [Hmax _].
  destruct (Z.ltb_spec (metaslab_block_maxsize msp) size) as [Hlt|Hge].
  { eexists. split; [done|]. split; [exists (ms_lbas msp); by destruct msp|]. split; [done|]. left. split; [done|].
    apply Forall_forall. intros rs Hin. specialize (Hmax rs Hin). lia. }
  pose proof (clump_size clump_shift Hc Hsh) as Hbig.
  destruct (find_by_size (Z.min (metaslab_block_maxsize msp)
    (wrap64 (Z.shiftl 1 (highbit64 size + clump_shift))))) as (rs & -> & Hin & Hle); [lia..|].
  destruct (avl_find _ _) as [rs'|w] eqn:Ef; [|by apply take_segment].
  destruct (Z.ltb_spec (rs_size rs') size); [by apply take_segment|]. apply take_segment; [|lia].
  pose proof (lba_range msp i Hok).
  pose proof (avl_find_spec (rt_root (ms_tree msp)) (RangeSeg (lba msp i) (wrap64 (lba msp i + size)))) as Hf.
  rewrite Ef in Hf. apply Hf. apply segs_ok_search; [simpl; rewrite wrap64_small by (split; lia); lia|].
  apply (ok_tree _ Hok).
Qed.

End Allocators.

(** ** The interface of the allocators *)

(** What the rest of the metaslab code relies on of the allocator of the class:
    it changes the cursors only, and returns [NO_OFFSET] or the offset of a free
    range; with segments, cursors and sizes of whole units, so is the offset. *)
Class MsopSpec (msop_alloc : metaslab -> Z -> res (Z * metaslab)) : Prop :=
  msop_spec sh msp size :
    0 <= sh -> ms_ok msp -> 0 < size < 2 ^ 62 -> (2 ^ sh | size) ->
    (forall rs, rs ∈ rt_segs (ms_tree msp) -> (2 ^ sh | rs_start rs)) ->
    Forall (fun c => (2 ^ sh | c)) (ms_lbas msp) ->
    exists offset l, msop_alloc msp size = Ok (offset, set_ms_lbas msp l) /\
      ms_ok (set_ms_lbas msp l) /\ Forall (fun c => (2 ^ sh | c)) l /\
      (offset = NO_OFFSET \/ offset <> NO_OFFSET /\ free_range msp offset size /\ (2 ^ sh | offset)).

(** The picker on a tree of the metaslab's free segments. *)
Lemma picker_msop {compar : AvlCompar range_seg} msp t i cursor size align sh :
  ms_ok msp -> avl_elements t ≡ₚ rt_segs (ms_tree msp) -> find_ok t size align ->
  0 < size < 2 ^ 62 -> (exists k, 0 <= k <= 62 /\ align = 2 ^ k) -> 0 <= cursor <= 2 ^ 63 ->
  0 <= sh -> (2 ^ sh | size) -> (forall rs, rs ∈ rt_segs (ms_tree msp) -> (2 ^ sh | P2ROUNDUP (rs_start rs) align)) ->
  Forall (fun c => (2 ^ sh | c)) (ms_lbas msp) ->
  exists offset l,
    (let '(offset, c) := metaslab_block_picker t cursor size align in Ok (offset, set_lba msp i c))
      = Ok (offset, set_ms_lbas msp l) /\
    ms_ok (set_ms_lbas msp l) /\ Forall (fun c => (2 ^ sh | c)) l /\
    (offset = NO_OFFSET \/ offset <> NO_OFFSET /\ free_range msp offset size /\ (2 ^ sh | offset)).
Proof.
  intros Hok Hp Hfind Hs Ha Hc Hsh Hd Hround Hlbas.
  assert (Hnd : NoDup (avl_elements t)).
  { rewrite Hp. destruct Hok as [(_ & Hsg & _) _ _ _]. by apply segs_ok_NoDup. }
  pose proof (block_picker_spec t size align Hnd cursor Hfind ltac:(lia) ltac:(lia) ltac:(lia)) as Hb.
  pose proof (picker_result msp t i cursor size align Hok Hp Hfind Hs Ha Hc) as Hr.
  destruct (metaslab_block_picker t cursor size align) as [offset c]. unfold alloc_result in Hr.
  destruct Hr as (_ & Hok' & Hr). exists offset, (<[Z.to_nat i := c]> (ms_lbas msp)).
  split; [done|]. split; [done|].
  destruct Hb as [(-> & -> & _)|(rs & Hin & _ & -> & ->)].
  - split; [|by left]. apply Forall_insert; [done|apply Z.divide_0_r].
  - rewrite Hp in Hin. specialize (Hround rs Hin). split.
    + apply Forall_insert; [done|]. destruct Hr as [[E _]|[_ (Hfr & _)]].
      * rewrite E in *. unfold NO_OFFSET in *. unfold wrap64.
        replace (B64 - 1 + size) with (size - 1 + 1 * B64) by lia. rewrite Z.mod_add by lia.
        rewrite Z.mod_small by lia. exfalso.
        destruct (ms_ok_segs msp rs Hok Hin) as [[H1 H2] H3]. destruct Ha as (k & Hk & ->).
        assert (2 ^ k <= 2 ^ 62) by (apply Z.pow_le_mono_r; lia).
        destruct (P2ROUNDUP_spec (rs_start rs) k) as [_ Hsp]; lia.
      * rewrite (range_ok_end _ _ Hfr). by apply Z.divide_add_r.
    + destruct Hr as [[E _]|[Hne Hfr]]; [by left|right; auto].
Qed.

Section Msop.
Context (msp : metaslab) (size sh : Z) (Hok : ms_ok msp) (Hsize : 0 < size < 2 ^ 62).
Context (Hsh : 0 <= sh) (Hdiv : (2 ^ sh | size)).
Context (Hsegs : forall rs, rs ∈ rt_segs (ms_tree msp) -> (2 ^ sh | rs_start rs)).
Context (Hlbas : Forall (fun c => (2 ^ sh | c)) (ms_lbas msp)).

Lemma df_msop threshold free_pct :
  exists offset l, metaslab_df_alloc threshold free_pct msp size = (offset, set_ms_lbas msp l) /\
    ms_ok (set_ms_lbas msp l) /\ Forall (fun c => (2 ^ sh | c)) l /\
    (offset = NO_OFFSET \/ offset <> NO_OFFSET /\ free_range msp offset size /\ (2 ^ sh | offset)).
Proof.
  assert (Ha : exists k, 0 <= k <= 62 /\ 1 = 2 ^ k) by (by exists 0).
  assert (Hround : forall rs, rs ∈ rt_segs (ms_tree msp) -> (2 ^ sh | P2ROUNDUP (rs_start rs) 1)).
  { intros rs Hin. destruct (ms_ok_segs msp rs Hok Hin) as [[? ?] ?].
    destruct (P2ROUNDUP_spec (rs_start rs) 0) as [_ Hr]; [simpl; lia|lia|]. change (2 ^ 0) with 1 in Hr.
    replace (P2ROUNDUP (rs_start rs) 1) with (rs_start rs) by lia. auto. }
  unfold metaslab_df_alloc. destruct (_ <? size).
  { exists NO_OFFSET, (ms_lbas msp). split; [by destruct msp|]. split; [by destruct msp|]. auto. }
  destruct (_ || _).
  - destruct (picker_msop (compar := size_compar) msp _ (highbit64 (size_align size) - 1) 0 size 1 sh Hok
      (proj1 (size_tree_perm msp Hok)) (size_tree_find_ok msp size Hok Hsize 1 Ha) Hsize Ha ltac:(lia) Hsh Hdiv
      Hround Hlbas) as (offset & l & E & H).
    exists offset, l. split; [|done]. destruct (metaslab_block_picker _ _ _ _) as [o c].
    by inversion E.
  - destruct (picker_msop msp _ (highbit64 (size_align size) - 1) _ size 1 sh Hok
      (tree_perm msp) (tree_find_ok msp size Hok Hsize 1 Ha) Hsize Ha (lba_range msp (highbit64 (size_align size) - 1) Hok) Hsh Hdiv
      Hround Hlbas) as (offset & l & E & H).
    exists offset, l. split; [|done]. destruct (metaslab_block_picker _ _ _ _) as [o c].
    by inversion E.
Qed.

Lemma ff_msop :
  exists offset l, metaslab_ff_alloc msp size = (offset, set_ms_lbas msp l) /\
    ms_ok (set_ms_lbas msp l) /\ Forall (fun c => (2 ^ sh | c)) l /\
    (offset = NO_OFFSET \/ offset <> NO_OFFSET /\ free_range msp offset size /\ (2 ^ sh | offset)).
Proof.
  destruct (size_align_pow size Hsize) as (k & Hk & Ek & _).
  assert (Hle : sh <= k).
  { apply Z.nlt_ge. intros Hlt. assert (Hbit : Z.testbit (size_align size) k = true).
    { rewrite Ek, Z.pow2_bits_eqb by lia. apply Z.eqb_refl. }
    unfold size_align in Hbit. rewrite Z.land_spec in Hbit. apply andb_prop in Hbit as [Hbit _].
    destruct Hdiv as [q ->]. by rewrite Z.mul_pow2_bits_low in Hbit by lia. }
  assert (Ha : exists k, 0 <= k <= 62 /\ size_align size = 2 ^ k) by eauto.
  assert (Hround : forall rs, rs ∈ rt_segs (ms_tree msp) -> (2 ^ sh | P2ROUNDUP (rs_start rs) (size_align size))).
  { intros rs Hin. destruct (ms_ok_segs msp rs Hok Hin) as [[? ?] ?]. rewrite Ek.
    assert (2 ^ k <= 2 ^ 62) by (apply Z.pow_le_mono_r; lia).
    destruct (P2ROUNDUP_spec (rs_start rs) k) as [Hd _]; [lia..|].
    eapply Z.divide_trans; [|exact Hd]. exists (2 ^ (k - sh)). rewrite <- Z.pow_add_r by lia. f_equal. lia. }
  unfold metaslab_ff_alloc.
  destruct (picker_msop msp _ (highbit64 (size_align size) - 1) _ size (size_align size) sh Hok
    (tree_perm msp) (tree_find_ok msp size Hok Hsize _ Ha) Hsize Ha (lba_range msp (highbit64 (size_align size) - 1) Hok) Hsh Hdiv
    Hround Hlbas) as (offset & l & E & H).
  exists offset, l. split; [|done]. destruct (metaslab_block_picker _ _ _ _) as [o c].
    by inversion E.
Qed.

End Msop.

#[export] Instance metaslab_df_msop threshold free_pct :
  MsopSpec (fun msp size => Ok (metaslab_df_alloc threshold free_pct msp size)).
Proof.
  intros sh msp size Hsh Hok Hs Hd Hsegs Hl.
  destruct (df_msop msp size sh Hok Hs Hsh Hd Hsegs Hl threshold free_pct) as (offset & l & -> & H).
  by exists offset, l.
Qed.

#[export] Instance metaslab_ff_msop : MsopSpec (fun msp size => Ok (metaslab_ff_alloc msp size)).
Proof.
  intros sh msp size Hsh Hok Hs Hd Hsegs Hl.
  destruct (ff_msop msp size sh Hok Hs Hsh Hd Hl) as (offset & l & -> & H). by exists offset, l.
Qed.

(** ** Witnesses *)

Module Example.

(** A metaslab with one free segment of 1536 bytes. *)
Definition ms_arg1 : ms_arg := MsArg (AvlTree (Node 0 Leaf (RangeSeg 2048 3584) Leaf) 1) false.
Definition free1 : range_tree ms_arg :=
  RangeTree (AvlTree (Node 0 Leaf (RangeSeg 2048 3584) Leaf) 1) 1536 (Some metaslab_rt_ops) ms_arg1
    (<[10%nat := 1]> (replicate RANGE_TREE_HISTOGRAM_SIZE 0)).
Definition empty_tree : range_tree ms_arg := range_tree_create None (MsArg avl_create false).
Definition ms1 : metaslab :=
  Metaslab (Some MemDmu.sm1) 0 0 (2 ^ 20) 0 (replicate 4 empty_tree) free1 empty_tree empty_tree
    (replicate 2 empty_tree) false true 0 0 0 0 0 0 (replicate 64 0).

Lemma free1_inv : rt_inv size_index free1.
Proof.
  split_and!; [by repeat split| |done|by vm_compute|].
  - split; [repeat constructor; simpl; lia|]. repeat constructor.
  - split; [apply _|]. split; [by repeat split|]. split; [repeat constructor|]. done.
Qed.

Lemma ms1_ok : ms_ok ms1.
Proof.
  constructor; [apply free1_inv|done| |].
  - repeat constructor; simpl; lia.
  - apply Forall_replicate. lia.
Qed.

Lemma metaslab_ff_alloc_correct_witness :
  (metaslab_ff_alloc ms1 1024).1 = 2048 /\ alloc_result ms1 1024 (fits 1024 (size_align 1024)) (metaslab_ff_alloc ms1 1024).
Proof.
  split; [by vm_compute|].
  exact (proj1 (metaslab_ff_alloc_correct ms1 1024 ms1_ok ltac:(lia))).
Defined.

Lemma metaslab_df_alloc_correct_witness :
  (metaslab_df_alloc 131072 4 ms1 1024).1 = 2048 /\ (metaslab_df_alloc 131072 4 ms1 2048).1 = NO_OFFSET /\
  alloc_result ms1 1024 (fun rs => 1024 <= rs_size rs) (metaslab_df_alloc 131072 4 ms1 1024).
Proof.
  split; [by vm_compute|]. split; [by vm_compute|].
  exact (metaslab_df_alloc_correct ms1 1024 ms1_ok ltac:(lia) 131072 4).
Defined.

Lemma metaslab_cf_alloc_correct_witness :
  (metaslab_cf_alloc ms1 1024).1 = 2048 /\ lba (metaslab_cf_alloc ms1 1024).2 0 = 2048 + 1024.
Proof.
  assert (E0 : lba ms1 0 = 0) by (vm_compute; reflexivity).
  assert (E1 : lba ms1 1 = 0) by (vm_compute; reflexivity).
  assert (E : (metaslab_cf_alloc ms1 1024).1 = 2048) by (vm_compute; reflexivity).
  pose proof (metaslab_cf_alloc_correct ms1 1024 ms1_ok ltac:(lia)) as H. rewrite E0, E1 in H.
  destruct (metaslab_cf_alloc ms1 1024) as [offset msp']. simpl in E |- *. subst offset.
  split; [reflexivity|]. destruct H as [_ H]; [vm_compute; lia|lia|].
  destruct H as [-> _]; [unfold NO_OFFSET; lia|reflexivity].
Defined.

Lemma metaslab_ndf_alloc_correct_witness :
  exists r, metaslab_ndf_alloc 4 ms1 1024 = Ok r /\ alloc_result ms1 1024 (fun rs => 1024 <= rs_size rs) r.
Proof. exact (metaslab_ndf_alloc_correct ms1 1024 ms1_ok ltac:(lia) 4 ltac:(lia) eq_refl). Defined.

End Example.
