(* ===== verification/MetaslabWeight.v ===== *)
(** * Metaslab weights: the selection of metaslabs in [module/zfs/metaslab.c]

    The weight of a metaslab encodes how attractive it is to the allocator:
    either its (fragmentation-scaled) free space, or the index and count of its
    largest free segments.  The fields of a weight are bit fields of a word. *)

From S2P Require Import Prelude Bits Avl RangeTree SpaceMap Metaslab.

Definition METASLAB_WEIGHT_PRIMARY : Z := Z.shiftl 1 63.
Definition METASLAB_WEIGHT_SECONDARY : Z := Z.shiftl 1 62.
Definition METASLAB_WEIGHT_TYPE : Z := Z.shiftl 1 61.
Definition METASLAB_ACTIVE_MASK : Z := Z.lor METASLAB_WEIGHT_PRIMARY METASLAB_WEIGHT_SECONDARY.
Definition ZFS_FRAG_INVALID : Z := B64 - 1.
Definition FRAGMENTATION_TABLE_SIZE : Z := 17.

Definition WEIGHT_GET_ACTIVE (weight : Z) : Z := BF64_GET weight 62 2.
Definition WEIGHT_SET_ACTIVE (weight x : Z) : Z := BF64_SET weight 62 2 x.
Definition WEIGHT_IS_SPACEBASED (weight : Z) : bool :=
  (weight =? 0) || negb (BF64_GET weight 61 1 =? 0).
Definition WEIGHT_SET_SPACEBASED (weight : Z) : Z := BF64_SET weight 61 1 1.
Definition WEIGHT_GET_INDEX (weight : Z) : Z := BF64_GET weight 55 6.
Definition WEIGHT_SET_INDEX (weight x : Z) : Z := BF64_SET weight 55 6 x.
Definition WEIGHT_GET_COUNT (weight : Z) : Z := BF64_GET weight 0 55.
Definition WEIGHT_SET_COUNT (weight x : Z) : Z := BF64_SET weight 0 55 x.

(** The last entry is not initialised in the source, so it is 0. *)
Definition zfs_frag_table : list Z :=
  [100; 100; 98; 95; 90; 80; 70; 60; 50; 40; 30; 20; 15; 10; 5; 0; 0].

(** What the weights read of the pool, the device and the tunables. *)
Record ms_env : Type := MsEnv {
  env_histogram_enabled : bool;
  env_writeable : bool;
  env_syncing_txg : Z;
  env_final_dirty_txg : Z;
  env_sync_pass : Z;
  env_ashift : Z;
  env_nonrot : bool;
  env_removing : bool;
  env_ms_count : Z;
  env_fragmentation_factor_enabled : bool;
  env_lba_weighting_enabled : bool;
  env_fragmentation_threshold : Z;
  env_segment_weight_enabled : bool;
  env_switch_threshold : Z;
  env_condense_pct : Z;
  env_condense_block_threshold : Z
}.

Section Weights.
Variable env : ms_env.
Implicit Types msp : metaslab.

(** The loop over the buckets of the space map histogram: bucket [i] and the rest. *)
Fixpoint frag_loop (hist : list Z) (i shift total fragmentation : Z) : Z * Z :=
  match hist with
  | [] => (total, fragmentation)
  | n :: hist' =>
      let idx := Z.min (shift - SPA_MINBLOCKSHIFT + i) (FRAGMENTATION_TABLE_SIZE - 1) in
      if n =? 0 then frag_loop hist' (i + 1) shift total fragmentation else
      let space := wrap64 (Z.shiftl n (i + shift)) in
      frag_loop hist' (i + 1) shift (wrap64 (total + space))
        (wrap64 (fragmentation + wrap64 (space * nth (Z.to_nat idx) zfs_frag_table 0)))
  end.

(** The metaslab, and the transaction group it is marked dirty for, if any. *)
Definition metaslab_set_fragmentation msp : metaslab * option Z :=
  if negb (env_histogram_enabled env) then (set_ms_fragmentation msp ZFS_FRAG_INVALID, None) else
  match ms_sm msp with
  | None => (set_ms_fragmentation msp 0, None)
  | Some sm =>
      if negb (sm_db_size sm =? sizeof_space_map_phys) then
        let txg := env_syncing_txg env in
        if env_writeable env && (txg <? env_final_dirty_txg env) then
          (set_ms_fragmentation (set_ms_condense_wanted msp true) ZFS_FRAG_INVALID, Some (wrap64 (txg + 1)))
        else (set_ms_fragmentation msp ZFS_FRAG_INVALID, None)
      else
        let '(total, fragmentation) := frag_loop (smp_histogram (sm_phys sm)) 0 (sm_shift sm) 0 0 in
        (set_ms_fragmentation msp (if 0 <? total then fragmentation / total else fragmentation), None)
  end.

(** The weight by free space.  The quotient is by [vdev_ms_count], the number of
    metaslabs of the device, which is not 0 when it is computed for one of them. *)
Definition metaslab_space_weight msp : Z :=
  let space := wrap64 (ms_size msp - space_map_allocated (ms_sm msp)) in
  let space :=
    if env_fragmentation_factor_enabled env && negb (ms_fragmentation msp =? ZFS_FRAG_INVALID) then
      let space := wrap64 (space * wrap64 (100 - wrap64 (ms_fragmentation msp - 1))) / 100 in
      if (0 <? space) && (space <? SPA_MINBLOCKSIZE) then SPA_MINBLOCKSIZE else space
    else space in
  let weight := space in
  let weight :=
    if negb (env_nonrot env) && env_lba_weighting_enabled env
    then wrap64 (wrap64 (2 * weight) - wrap64 (ms_id msp * weight) / env_ms_count env)
    else weight in
  let weight :=
    if ms_loaded msp && negb (ms_fragmentation msp =? ZFS_FRAG_INVALID)
       && (ms_fragmentation msp <=? env_fragmentation_threshold env)
    then Z.lor weight (Z.land (ms_weight msp) METASLAB_ACTIVE_MASK) else weight in
  WEIGHT_SET_SPACEBASED weight.

(** The weight of [count] segments in bucket [index]. *)
Definition segment_weight (count index : Z) : Z :=
  WEIGHT_SET_ACTIVE (WEIGHT_SET_INDEX (WEIGHT_SET_COUNT 0 count) index) 0.

(** The loop of [metaslab_weight_from_range_tree] from bucket [i] down to
    [SPA_MINBLOCKSHIFT]; [segments] is a 32-bit counter. *)
Fixpoint rt_weight_loop (fuel : nat) (hist : list Z) (i max_idx segments : Z) : Z :=
  match fuel with
  | O => 0
  | S fuel' =>
      if i <? SPA_MINBLOCKSHIFT then 0 else
      let segments := wrap32 (Z.shiftl segments 1) in
      let segments := wrap32 (segments + nth (Z.to_nat i) hist 0) in
      if max_idx <? i then rt_weight_loop fuel' hist (i - 1) max_idx segments
      else if negb (segments =? 0) then segment_weight segments i
      else rt_weight_loop fuel' hist (i - 1) max_idx segments
  end.

Definition metaslab_weight_from_range_tree msp : Z :=
  rt_weight_loop RANGE_TREE_HISTOGRAM_SIZE (rt_histogram (ms_tree msp)) 63
    (32 + env_ashift env - 1) 0.

(** The loop of [metaslab_weight_from_spacemap] from bucket [i] down. *)
Fixpoint sm_weight_loop (fuel : nat) (hist : list Z) (shift : Z) : Z :=
  match fuel with
  | O => 0
  | S i =>
      let n := nth i hist 0 in
      if negb (n =? 0) then segment_weight n (Z.of_nat i + shift) else sm_weight_loop i hist shift
  end.

Definition metaslab_weight_from_spacemap msp : res Z :=
  match ms_sm msp with
  | None => Panic
  | Some sm => Ok (sm_weight_loop SPACE_MAP_HISTOGRAM_SIZE (smp_histogram (sm_phys sm)) (sm_shift sm))
  end.

Definition metaslab_segment_weight msp : res Z :=
  if space_map_allocated (ms_sm msp) =? 0 then
    let idx := highbit64 (ms_size msp) - 1 in
    let max_idx := 32 + env_ashift env - 1 in
    Ok (if idx <? max_idx then segment_weight 1 idx
        else segment_weight (wrap64 (Z.shiftl 1 (idx - max_idx))) max_idx)
  else if space_map_allocated (ms_sm msp) =? ms_size msp then Ok 0
  else
    weight ← (if ms_loaded msp then Ok (metaslab_weight_from_range_tree msp)
              else metaslab_weight_from_spacemap msp);
    Ok (if negb (ms_activation_weight msp =? 0) && negb (weight =? 0)
        then WEIGHT_SET_ACTIVE weight (WEIGHT_GET_ACTIVE (ms_weight msp)) else weight).

Definition metaslab_should_allocate msp (asize : Z) : bool :=
  if negb (ms_max_size msp =? 0) then asize <=? ms_max_size msp
  else if negb (WEIGHT_IS_SPACEBASED (ms_weight msp)) then
    asize <? wrap64 (Z.shiftl 1 (WEIGHT_GET_INDEX (ms_weight msp) + 1))
  else asize <=? Z.land (ms_weight msp) (Z.lxor METASLAB_WEIGHT_TYPE (B64 - 1)).

(** The weight, the metaslab with its new fragmentation and maximum size, and
    the transaction group it is marked dirty for. *)
Definition metaslab_weight msp : res (Z * metaslab * option Z) :=
  if env_removing env then Ok (0, msp, None) else
  let '(msp, dirty) := metaslab_set_fragmentation msp in
  let msp := if ms_loaded msp then set_ms_max_size msp (metaslab_block_maxsize msp) else msp in
  weight ← (if env_segment_weight_enabled env && env_histogram_enabled env
               && match ms_sm msp with None => true | Some sm => sm_db_size sm =? sizeof_space_map_phys end
            then metaslab_segment_weight msp
            else Ok (metaslab_space_weight msp));
  Ok (weight, msp, dirty).

(** Whether the space map should be rewritten, given the block size [doi_size]
    of its object. *)
Definition metaslab_should_condense msp (sm : space_map) (doi_size : Z) : bool :=
  match avl_last (ms_size_tree (rt_arg (ms_tree msp))) with
  | None => true
  | Some rs =>
      if ms_condense_wanted msp then true else
      let size := Z.shiftr (rs_size rs) (sm_shift sm) in
      let entries := size / Z.min size SM_RUN_MAX in
      let segsz := wrap64 (entries * 8) in
      let optimal_size := wrap64 (8 * avl_numnodes (rt_root (ms_tree msp))) in
      let object_size := space_map_length (Some sm) in
      let record_size := Z.max doi_size (Z.shiftl 1 (env_ashift env)) in
      (segsz <=? object_size)
      && (wrap64 (optimal_size * env_condense_pct env) / 100 <=? object_size)
      && (wrap64 (env_condense_block_threshold env * record_size) <? object_size)
  end.

End Weights.

(** ** Fields of a segment weight *)

Lemma segment_weight_fields count index :
  0 <= count < 2 ^ 55 -> 0 <= index < 64 ->
  let w := segment_weight count index in
  is_u64 w /\ WEIGHT_GET_COUNT w = count /\ WEIGHT_GET_INDEX w = index /\ WEIGHT_GET_ACTIVE w = 0 /\
  (0 < count -> WEIGHT_IS_SPACEBASED w = false).
Proof.
  intros Hc Hi. unfold segment_weight, WEIGHT_SET_ACTIVE, WEIGHT_SET_INDEX, WEIGHT_SET_COUNT,
    WEIGHT_GET_COUNT, WEIGHT_GET_INDEX, WEIGHT_GET_ACTIVE, WEIGHT_IS_SPACEBASED.
  assert (H0 : is_u64 0) by done.
  assert (H1 : is_u64 (BF64_SET 0 0 55 count)) by (apply BF64_SET_u64; done || lia).
  assert (H2 : is_u64 (BF64_SET (BF64_SET 0 0 55 count) 55 6 index)) by (apply BF64_SET_u64; done || lia).
  set (w := BF64_SET (BF64_SET (BF64_SET 0 0 55 count) 55 6 index) 62 2 0).
  assert (Hw : is_u64 w) by (apply BF64_SET_u64; done || lia).
  assert (Ecount : BF64_GET w 0 55 = count).
  { unfold w. rewrite !BF64_GET_SET_other by (done || lia). by rewrite BF64_GET_SET_same by lia. }
  split_and!; auto.
  - unfold w. rewrite BF64_GET_SET_other by (done || lia). by rewrite BF64_GET_SET_same by (done || lia).
  - unfold w. by rewrite BF64_GET_SET_same by (done || lia).
  - intros Hpos. apply orb_false_iff. split.
    + apply Z.eqb_neq. intros E. rewrite E in Ecount.
      change (BF64_GET 0 0 55) with 0 in Ecount. lia.
    + unfold w. rewrite !BF64_GET_SET_other by (done || lia). done.
Qed.

(** ** The range tree histogram, normalised to a bucket *)

(** The counts [l] of buckets of doubling size, in units of the first. *)
Fixpoint nsum (l : list Z) : Z := match l with [] => 0 | n :: l' => n + 2 * nsum l' end.

Lemma nsum_nonneg l : Forall (fun n => 0 <= n) l -> 0 <= nsum l.
Proof. induction 1; simpl; lia. Qed.

Lemma nsum_zero l : Forall (fun n => 0 <= n) l -> nsum l = 0 <-> Forall (fun n => n = 0) l.
Proof.
  induction 1 as [|n l Hn Hl IH]; simpl; [done|]. pose proof (nsum_nonneg l Hl).
  rewrite Forall_cons, <- IH. lia.
Qed.

Lemma rt_weight_loop_spec fuel hist i max_idx :
  length hist = 64%nat -> Forall (fun n => 0 <= n < B32) hist -> 9 <= max_idx -> 8 <= i < 64 ->
  (forall j : nat, max_idx <= Z.of_nat j -> nsum (drop j hist) < B32) ->
  (i < max_idx -> nsum (drop (Z.to_nat (i + 1)) hist) = 0) -> i - 8 < Z.of_nat fuel ->
  let w := rt_weight_loop fuel hist i max_idx (nsum (drop (Z.to_nat (i + 1)) hist)) in
  (w = 0 /\ nsum (drop 9 hist) = 0) \/
  (exists k, 9 <= k <= max_idx /\ k < 64 /\ w = segment_weight (nsum (drop (Z.to_nat k) hist)) k /\
     0 < nsum (drop (Z.to_nat k) hist) < B32 /\
     (k < max_idx -> nsum (drop (Z.to_nat (k + 1)) hist) = 0)).
Proof.
  intros Hl Hh Hm. revert i. induction fuel as [|fuel IH]; intros i Hi Hb Hz Hf; [lia|].
  cbn [rt_weight_loop]. unfold SPA_MINBLOCKSHIFT. destruct (Z.ltb_spec i 9) as [Hlt|Hge].
  { left. split; [done|]. replace i with 8 in Hz by lia. apply Hz. lia. }
  destruct (lookup_lt_is_Some_2 hist (Z.to_nat i)) as [n En]; [lia|].
  pose proof (Forall_lookup_1 _ _ _ _ Hh En) as Hn. simpl in Hn.
  assert (Hpos : forall j : nat, 0 <= nsum (drop j hist)).
  { intros j. apply nsum_nonneg, Forall_drop. eapply Forall_impl; [apply Hh|]. simpl. lia. }
  assert (Estep : nsum (drop (Z.to_nat i) hist) = n + 2 * nsum (drop (Z.to_nat (i + 1)) hist)).
  { rewrite (drop_S _ _ _ En). simpl. by replace (S (Z.to_nat i)) with (Z.to_nat (i + 1)) by lia. }
  pose proof (Hpos (Z.to_nat (i + 1))) as Hp1.
  assert (Hbi : nsum (drop (Z.to_nat i) hist) < B32).
  { destruct (Z.lt_ge_cases i max_idx) as [Hlt|Hge']; [rewrite Estep, Hz by done; lia|apply Hb; lia]. }
  rewrite Z.shiftl_mul_pow2, (nth_lookup_Some _ _ _ _ En) by lia.
  unfold wrap32. rewrite (Z.mod_small (nsum _ * 2 ^ 1)), Z.mod_small by lia.
  replace (nsum (drop (Z.to_nat (i + 1)) hist) * 2 ^ 1 + n) with (nsum (drop (Z.to_nat i) hist)) by lia.
  specialize (IH (i - 1)). replace (i - 1 + 1) with i in IH by lia.
  destruct (Z.ltb_spec max_idx i); [apply IH; [lia|done|lia|lia]|].
  destruct (Z.eqb_spec (nsum (drop (Z.to_nat i) hist)) 0) as [E|E]; simpl.
  - apply IH; [lia|done|auto|lia].
  - right. exists i. specialize (Hpos (Z.to_nat i)). split_and!; auto; lia.
Qed.

(** A segment adds its bucket's share to the normalised count. *)
Lemma nsum_alter l b i :
  (b < length l)%nat ->
  nsum (drop i (alter (fun n => n + 1) b l)) =
  nsum (drop i l) + (if (i <=? b)%nat then 2 ^ Z.of_nat (b - i) else 0).
Proof.
  revert b i. induction l as [|n l IH]; intros b i Hb; simpl in Hb; [lia|].
  destruct b as [|b], i as [|i]; cbn [alter list_alter drop].
  - change (nsum (n + 1 :: l) = nsum (n :: l) + 2 ^ 0). simpl. lia.
  - simpl. lia.
  - change (nsum (n :: alter (fun n => n + 1) b l) = nsum (n :: l) + 2 ^ Z.of_nat (S b)).
    cbn [nsum]. pose proof (IH b 0%nat ltac:(lia)) as H. rewrite !drop_0 in H. rewrite H. simpl (_ <=? _)%nat.
    rewrite Nat.sub_0_r, Nat2Z.inj_succ, Z.pow_succ_r by lia. simpl. lia.
  - change (nsum (drop i (alter (fun n => n + 1) b l)) = nsum (drop i l) + (if (i <=? b)%nat then 2 ^ Z.of_nat (b - i) else 0)).
    apply IH. lia.
Qed.

Lemma bucket_size rs : seg_ok rs -> 2 ^ Z.of_nat (bucket rs) <= rs_size rs < 2 ^ (Z.of_nat (bucket rs) + 1).
Proof.
  intros Hok. pose proof (bucket_range rs Hok). unfold bucket.
  assert (0 < rs_size rs < B64) by (rewrite (rs_size_ok _ Hok); destruct Hok; lia).
  rewrite highbit64_log2 in * by lia. rewrite Z2Nat.id by lia.
  replace (Z.log2 (rs_size rs) + 1 - 1) with (Z.log2 (rs_size rs)) by lia.
  rewrite Z.add_1_r. apply Z.log2_spec. lia.
Qed.

Lemma hist_nsum_total l i : Forall seg_ok l -> nsum (drop i (hist_of l)) * 2 ^ Z.of_nat i <= total l.
Proof.
  induction 1 as [|rs l Hrs Hl IH].
  - simpl. assert (nsum (drop i (hist_of [])) = 0); [|lia].
    apply nsum_zero; apply Forall_drop; rewrite <- hist_of_nil; apply Forall_replicate; lia.
  - pose proof (bucket_range rs Hrs) as Hb. pose proof (bucket_size rs Hrs) as Hs.
    rewrite hist_of_cons by (unfold bucket; lia). rewrite nsum_alter by (rewrite length_hist_of; unfold bucket; lia).
    cbn [total foldr]. fold (total l). rewrite (rs_size_ok _ Hrs) in Hs. destruct Hrs as [Hr1 Hr2].
    destruct (Nat.leb_spec i (bucket rs)) as [Hle|Hgt]; [|lia].
    rewrite Z.mul_add_distr_r, <- Z.pow_add_r by lia.
    replace (Z.of_nat (bucket rs - i) + Z.of_nat i) with (Z.of_nat (bucket rs)) by lia. lia.
Qed.

Lemma hist_nsum_zero l i :
  Forall seg_ok l -> nsum (drop i (hist_of l)) = 0 <-> Forall (fun rs => rs_size rs < 2 ^ Z.of_nat i) l.
Proof.
  intros Hok. induction Hok as [|rs l Hrs Hl IH].
  - split; [constructor|]. intros _.
    apply nsum_zero; apply Forall_drop; rewrite <- hist_of_nil; apply Forall_replicate; lia.
  - pose proof (bucket_range rs Hrs) as Hb. pose proof (bucket_size rs Hrs) as Hs.
    rewrite hist_of_cons by (unfold bucket; lia). rewrite nsum_alter by (rewrite length_hist_of; unfold bucket; lia).
    assert (0 <= nsum (drop i (hist_of l))).
    { apply nsum_nonneg, Forall_drop, Forall_forall. intros n Hn.
      apply list_elem_of_fmap in Hn as (j & -> & _). lia. }
    rewrite Forall_cons, <- IH. destruct (Nat.leb_spec i (bucket rs)) as [Hle|Hgt].
    + pose proof (pow_pos (Z.of_nat (bucket rs - i)) ltac:(lia)).
      assert (2 ^ Z.of_nat i <= 2 ^ Z.of_nat (bucket rs)) by (apply Z.pow_le_mono_r; lia). lia.
    + assert (2 ^ (Z.of_nat (bucket rs) + 1) <= 2 ^ Z.of_nat i) by (apply Z.pow_le_mono_r; lia). lia.
Qed.

(** ** Fragmentation *)

(** The free space a space map histogram stands for. *)
Fixpoint hist_space (hist : list Z) (i shift : Z) : Z :=
  match hist with [] => 0 | n :: hist' => n * 2 ^ (i + shift) + hist_space hist' (i + 1) shift end.

Lemma hist_space_nonneg hist i shift :
  Forall (fun n => 0 <= n) hist -> 0 <= i + shift -> 0 <= hist_space hist i shift.
Proof.
  intros H. revert i. induction H as [|n hist Hn Hh IH]; intros i Hi; simpl; [lia|].
  specialize (IH (i + 1) ltac:(lia)). pose proof (pow_pos (i + shift)). nia.
Qed.

Lemma frag_table_range idx : 0 <= nth idx zfs_frag_table 0 <= 100.
Proof. do 17 (destruct idx as [|idx]; [simpl; lia|]). destruct idx; simpl; lia. Qed.

Lemma frag_loop_spec hist i shift total frag :
  Forall (fun n => 0 <= n) hist -> 0 <= i + shift -> 0 <= frag <= 100 * total ->
  100 * (total + hist_space hist i shift) < B64 ->
  let '(T, F) := frag_loop hist i shift total frag in
  T = total + hist_space hist i shift /\ 0 <= F <= 100 * T.
Proof.
  intros Hh. revert i total frag. induction Hh as [|n hist Hn Hh IH]; intros i total frag Hi Hf Hb;
    cbn [hist_space frag_loop] in *.
  { lia. }
  pose proof (hist_space_nonneg hist (i + 1) shift Hh ltac:(lia)) as Hs.
  pose proof (pow_pos (i + shift) Hi) as Hp.
  destruct (Z.eqb_spec n 0) as [->|Hne].
  - specialize (IH (i + 1) total frag ltac:(lia) Hf ltac:(lia)).
    destruct (frag_loop hist (i + 1) shift total frag) as [T F]. lia.
  - rewrite Z.shiftl_mul_pow2 by lia.
    set (space := n * 2 ^ (i + shift)) in *. assert (0 < space) by (unfold space; nia).
    set (idx := Z.to_nat _). pose proof (frag_table_range idx) as Ht.
    assert (Hst : 0 <= space * nth idx zfs_frag_table 0 <= 100 * space) by nia.
    rewrite !(wrap64_small space) by (split; lia). rewrite (wrap64_small (total + space)) by (split; lia).
    rewrite (wrap64_small (space * _)) by (split; lia). rewrite wrap64_small by (split; lia).
    specialize (IH (i + 1) (total + space) (frag + space * nth idx zfs_frag_table 0)).
    destruct (frag_loop _ _ _ _ _) as [T F].
    destruct IH as [-> ?]; lia.
Qed.

(** ** What the component promises *)

(** The weight computed from the free tree is 0 exactly when no free
    segment has [SPA_MINBLOCKSIZE] bytes; otherwise it is an inactive segment
    weight whose index [k] names the largest bucket with free segments (clipped
    to the buckets a space map has), so that some free segment has at least
    [2^k] bytes and, below the clip, none has [2^(k+1)]. *)
Theorem metaslab_weight_from_range_tree_correct env msp :
  rt_inv size_index (ms_tree msp) -> 0 <= env_ashift env ->
  Z.of_nat (length (rt_segs (ms_tree msp))) < B32 ->
  rt_space (ms_tree msp) < 2 ^ (32 + (31 + env_ashift env)) ->
  let w := metaslab_weight_from_range_tree env msp in
  let segs := rt_segs (ms_tree msp) in
  (w = 0 /\ Forall (fun rs => rs_size rs < SPA_MINBLOCKSIZE) segs) \/
  (exists k, 9 <= k <= 31 + env_ashift env /\ WEIGHT_GET_INDEX w = k /\ 0 < WEIGHT_GET_COUNT w /\
     WEIGHT_GET_ACTIVE w = 0 /\ WEIGHT_IS_SPACEBASED w = false /\
     Exists (fun rs => 2 ^ k <= rs_size rs) segs /\
     (k < 31 + env_ashift env -> Forall (fun rs => rs_size rs < 2 ^ (k + 1)) segs)).
Proof.
  intros (_ & [Hok Hsrt] & Hsp & Hh & _) Ha Hlen Hspace w segs. unfold metaslab_weight_from_range_tree in w.
  pose proof (rt_weight_loop_spec 64 (rt_histogram (ms_tree msp)) 63 (32 + env_ashift env - 1)) as H.
  rewrite Hh in H. change (nsum (drop (Z.to_nat (63 + 1)) (hist_of (rt_segs (ms_tree msp))))) with 0 in H.
  fold segs in H, Hok, Hlen, Hsp. destruct H as [[Ew Hz]|(k & Hk & Hk64 & Ew & Hn & Hz)].
  - apply length_hist_of.
  - apply Forall_forall. intros n Hn. apply list_elem_of_fmap in Hn as (j & -> & _).
    pose proof (length_filter (fun rs => bucket rs = j) segs). lia.
  - lia.
  - lia.
  - intros j Hj. pose proof (hist_nsum_total segs j Hok) as Ht. rewrite <- Hsp in Ht.
    assert (2 ^ (31 + env_ashift env) <= 2 ^ Z.of_nat j) by (apply Z.pow_le_mono_r; lia).
    rewrite Z.pow_add_r in Hspace by lia. pose proof (pow_pos (31 + env_ashift env) ltac:(lia)).
    apply Z.nle_gt. intros Hge. nia.
  - done.
  - lia.
  - left. unfold w. rewrite Hh. split; [done|]. by apply (hist_nsum_zero segs 9).
  - right. exists k. unfold w. rewrite Hh. fold segs. unfold RANGE_TREE_HISTOGRAM_SIZE. rewrite Ew.
    destruct (segment_weight_fields (nsum (drop (Z.to_nat k) (hist_of segs))) k) as (_ & -> & -> & -> & Hsb);
      [lia..|].
    split_and!; try lia; [apply Hsb; lia| |].
    + destruct (decide (Forall (fun rs => rs_size rs < 2 ^ k) segs)) as [Hall|Hall].
      * exfalso. assert (nsum (drop (Z.to_nat k) (hist_of segs)) = 0); [|lia].
        apply hist_nsum_zero; [done|]. by rewrite Z2Nat.id by lia.
      * apply not_Forall_Exists in Hall; [|apply _]. eapply Exists_impl; [apply Hall|]. simpl. lia.
    + intros Hlt. specialize (Hz ltac:(lia)). apply hist_nsum_zero in Hz; [|done].
      rewrite Z2Nat.id in Hz by lia. done.
Qed.

(** The fragmentation metric is [ZFS_FRAG_INVALID] or a percentage, as its
    callers assume, when the space the histogram counts does not overflow. *)
Theorem metaslab_set_fragmentation_correct env msp :
  (forall sm, ms_sm msp = Some sm -> Forall (fun n => 0 <= n) (smp_histogram (sm_phys sm)) /\
     0 <= sm_shift sm /\ 100 * hist_space (smp_histogram (sm_phys sm)) 0 (sm_shift sm) < B64) ->
  let '(msp', _) := metaslab_set_fragmentation env msp in
  ms_fragmentation msp' = ZFS_FRAG_INVALID \/ 0 <= ms_fragmentation msp' <= 100.
Proof.
  intros Hsm. unfold metaslab_set_fragmentation. destruct (env_histogram_enabled env); simpl; [|auto].
  destruct (ms_sm msp) as [sm|]; simpl; [|right; lia].
  destruct (negb _); [destruct (_ && _); simpl; auto|].
  destruct (Hsm sm eq_refl) as (Hh & Hs & Hb).
  pose proof (frag_loop_spec (smp_histogram (sm_phys sm)) 0 (sm_shift sm) 0 0 Hh ltac:(lia) ltac:(lia) ltac:(lia)) as H.
  destruct (frag_loop _ _ _ _ _) as [T F]. simpl. destruct H as [-> HF]. right.
  destruct (Z.ltb_spec 0 (0 + hist_space (smp_histogram (sm_phys sm)) 0 (sm_shift sm))); [|lia].
  split; [apply Z.div_pos; lia|]. apply Z.div_le_upper_bound; lia.
Qed.

(** ** Witnesses *)

Module Example.
Import Metaslab.Example.

Definition env1 : ms_env := MsEnv true true 5 100 1 9 true false 16 true true 70 true 2 200 4.

Lemma metaslab_weight_from_range_tree_correct_witness :
  WEIGHT_GET_INDEX (metaslab_weight_from_range_tree env1 ms1) = 10.
Proof.
  destruct (metaslab_weight_from_range_tree_correct env1 ms1 free1_inv) as [[H _]|(k & _ & <- & _)];
    [done|done|done|by vm_compute in H|by vm_compute].
Defined.

Lemma metaslab_set_fragmentation_correct_witness :
  ms_fragmentation (metaslab_set_fragmentation env1 ms1).1 = ZFS_FRAG_INVALID \/
  0 <= ms_fragmentation (metaslab_set_fragmentation env1 ms1).1 <= 100.
Proof.
  pose proof (metaslab_set_fragmentation_correct env1 ms1) as H.
  destruct (metaslab_set_fragmentation env1 ms1). apply H. intros sm [= <-].
  split; [apply Forall_replicate; lia|]. split; [simpl; lia|]. done.
Defined.

End Example.
