(* ===== verification/MetaslabGroup.v ===== *)
(** * Metaslab groups and classes: [module/zfs/metaslab.c], [module/zfs/vdev.c]

    A class keeps its groups (one for each top-level device) in a circular list
    reached from the rotor; a group keeps its metaslabs in an AVL tree ordered by
    weight.  The groups live in a heap, a map from addresses to groups, so that
    the links of the list are the pointers of the source. *)

From stdpp Require Import gmap.
From S2P Require Import Prelude Bits Avl RangeTree SpaceMap Metaslab MetaslabWeight.

(** ** State *)

(** A metaslab as its group's tree sees it: the fields the comparison reads. *)
Record ms_ref : Type := MsRef {
  mr_weight : Z;
  mr_start : Z
}.

#[export] Instance ms_ref_eq_dec : EqDecision ms_ref.
Proof. solve_decision. Defined.

Definition ms_ref_of (msp : metaslab) : ms_ref := MsRef (ms_weight msp) (ms_start msp).

Definition metaslab_compare (m1 m2 : ms_ref) : Z :=
  let cmp := AVL_CMP (mr_weight m2) (mr_weight m1) in
  if negb (cmp =? 0) then cmp else AVL_CMP (mr_start m1) (mr_start m2).

#[export] Instance ms_ref_compar : AvlCompar ms_ref := metaslab_compare.

Record vdev_stat : Type := VdevStat {
  vs_alloc : Z;
  vs_space : Z;
  vs_dspace : Z
}.

(** The fields of a top-level device the allocator reads. *)
Record vdev : Type := Vdev {
  vdev_stat_ : vdev_stat;
  vdev_children : Z;
  vdev_ms_shift : Z;
  vdev_ms_count : Z;
  vdev_ashift : Z;
  vdev_asize : Z;
  vdev_max_asize : Z;
  vdev_ishole : bool;
  vdev_deflate_ratio : Z
}.

Record metaslab_group : Type := MetaslabGroup {
  mg_metaslab_tree : avl_tree ms_ref;
  mg_aliquot : Z;
  mg_allocatable : bool;
  mg_initialized : bool;
  mg_free_capacity : Z;
  mg_activation_count : Z;
  mg_vd : vdev;
  mg_prev : option Z;
  mg_next : option Z;
  mg_max_alloc_queue_depth : Z;
  mg_alloc_queue_depth : Z;
  mg_no_free_space : bool;
  mg_fragmentation : Z;
  mg_histogram : list Z
}.

Record metaslab_class : Type := MetaslabClass {
  mc_rotor : option Z;
  mc_groups : Z;
  mc_alloc_throttle_enabled : bool;
  mc_alloc_groups : Z;
  mc_alloc : Z;
  mc_deferred : Z;
  mc_space : Z;
  mc_dspace : Z;
  mc_histogram : list Z
}.

(** The groups of a class by their addresses. *)
Abbreviation heap := (gmap Z metaslab_group).

(** Assignments to the fields. *)
Definition set_mg_tree (mg : metaslab_group) (v : avl_tree ms_ref) : metaslab_group :=
  MetaslabGroup v (mg_aliquot mg) (mg_allocatable mg) (mg_initialized mg) (mg_free_capacity mg)
    (mg_activation_count mg) (mg_vd mg) (mg_prev mg) (mg_next mg) (mg_max_alloc_queue_depth mg)
    (mg_alloc_queue_depth mg) (mg_no_free_space mg) (mg_fragmentation mg) (mg_histogram mg).

Definition set_mg_aliquot (mg : metaslab_group) (v : Z) : metaslab_group :=
  MetaslabGroup (mg_metaslab_tree mg) v (mg_allocatable mg) (mg_initialized mg) (mg_free_capacity mg)
    (mg_activation_count mg) (mg_vd mg) (mg_prev mg) (mg_next mg) (mg_max_alloc_queue_depth mg)
    (mg_alloc_queue_depth mg) (mg_no_free_space mg) (mg_fragmentation mg) (mg_histogram mg).

Definition set_mg_state (mg : metaslab_group) (allocatable initialized no_free_space : bool)
    (free_capacity : Z) : metaslab_group :=
  MetaslabGroup (mg_metaslab_tree mg) (mg_aliquot mg) allocatable initialized free_capacity
    (mg_activation_count mg) (mg_vd mg) (mg_prev mg) (mg_next mg) (mg_max_alloc_queue_depth mg)
    (mg_alloc_queue_depth mg) no_free_space (mg_fragmentation mg) (mg_histogram mg).

Definition set_mg_activation_count (mg : metaslab_group) (v : Z) : metaslab_group :=
  MetaslabGroup (mg_metaslab_tree mg) (mg_aliquot mg) (mg_allocatable mg) (mg_initialized mg)
    (mg_free_capacity mg) v (mg_vd mg) (mg_prev mg) (mg_next mg) (mg_max_alloc_queue_depth mg)
    (mg_alloc_queue_depth mg) (mg_no_free_space mg) (mg_fragmentation mg) (mg_histogram mg).

Definition set_mg_prev (v : option Z) (mg : metaslab_group) : metaslab_group :=
  MetaslabGroup (mg_metaslab_tree mg) (mg_aliquot mg) (mg_allocatable mg) (mg_initialized mg)
    (mg_free_capacity mg) (mg_activation_count mg) (mg_vd mg) v (mg_next mg)
    (mg_max_alloc_queue_depth mg) (mg_alloc_queue_depth mg) (mg_no_free_space mg)
    (mg_fragmentation mg) (mg_histogram mg).

Definition set_mg_next (v : option Z) (mg : metaslab_group) : metaslab_group :=
  MetaslabGroup (mg_metaslab_tree mg) (mg_aliquot mg) (mg_allocatable mg) (mg_initialized mg)
    (mg_free_capacity mg) (mg_activation_count mg) (mg_vd mg) (mg_prev mg) v
    (mg_max_alloc_queue_depth mg) (mg_alloc_queue_depth mg) (mg_no_free_space mg)
    (mg_fragmentation mg) (mg_histogram mg).

Definition set_mg_fragmentation (mg : metaslab_group) (v : Z) : metaslab_group :=
  MetaslabGroup (mg_metaslab_tree mg) (mg_aliquot mg) (mg_allocatable mg) (mg_initialized mg)
    (mg_free_capacity mg) (mg_activation_count mg) (mg_vd mg) (mg_prev mg) (mg_next mg)
    (mg_max_alloc_queue_depth mg) (mg_alloc_queue_depth mg) (mg_no_free_space mg) v
    (mg_histogram mg).

Definition set_mg_histogram (mg : metaslab_group) (v : list Z) : metaslab_group :=
  MetaslabGroup (mg_metaslab_tree mg) (mg_aliquot mg) (mg_allocatable mg) (mg_initialized mg)
    (mg_free_capacity mg) (mg_activation_count mg) (mg_vd mg) (mg_prev mg) (mg_next mg)
    (mg_max_alloc_queue_depth mg) (mg_alloc_queue_depth mg) (mg_no_free_space mg)
    (mg_fragmentation mg) v.

Definition set_mc_rotor (mc : metaslab_class) (v : option Z) : metaslab_class :=
  MetaslabClass v (mc_groups mc) (mc_alloc_throttle_enabled mc) (mc_alloc_groups mc) (mc_alloc mc)
    (mc_deferred mc) (mc_space mc) (mc_dspace mc) (mc_histogram mc).

Definition set_mc_counts (mc : metaslab_class) (groups alloc_groups : Z) : metaslab_class :=
  MetaslabClass (mc_rotor mc) groups (mc_alloc_throttle_enabled mc) alloc_groups (mc_alloc mc)
    (mc_deferred mc) (mc_space mc) (mc_dspace mc) (mc_histogram mc).

Definition set_mc_histogram (mc : metaslab_class) (v : list Z) : metaslab_class :=
  MetaslabClass (mc_rotor mc) (mc_groups mc) (mc_alloc_throttle_enabled mc) (mc_alloc_groups mc)
    (mc_alloc mc) (mc_deferred mc) (mc_space mc) (mc_dspace mc) v.

(** ** Space accounting *)

Definition metaslab_class_space_update (mc : metaslab_class)
    (alloc_delta defer_delta space_delta dspace_delta : Z) : metaslab_class :=
  MetaslabClass (mc_rotor mc) (mc_groups mc) (mc_alloc_throttle_enabled mc) (mc_alloc_groups mc)
    (wrap64 (mc_alloc mc + alloc_delta)) (wrap64 (mc_deferred mc + defer_delta))
    (wrap64 (mc_space mc + space_delta)) (wrap64 (mc_dspace mc + dspace_delta)) (mc_histogram mc).

Definition metaslab_class_get_alloc (mc : metaslab_class) : Z := mc_alloc mc.
Definition metaslab_class_get_deferred (mc : metaslab_class) : Z := mc_deferred mc.
Definition metaslab_class_get_space (mc : metaslab_class) : Z := mc_space mc.
Definition metaslab_class_get_dspace (deflate : bool) (mc : metaslab_class) : Z :=
  if deflate then mc_dspace mc else mc_space mc.

Definition stat_update (vs : vdev_stat) (alloc_delta space_delta dspace_delta : Z) : vdev_stat :=
  VdevStat (wrap64 (vs_alloc vs + alloc_delta)) (wrap64 (vs_space vs + space_delta))
    (wrap64 (vs_dspace vs + dspace_delta)).

(** The statistics of the device, of the root device (changed for the normal
    class only) and of the class, when the device has one. *)
Definition vdev_space_update (deflate_ratio : Z) (normal : bool) (vs rvs : vdev_stat)
    (mc : option metaslab_class) (alloc_delta defer_delta space_delta : Z)
    : vdev_stat * vdev_stat * option metaslab_class :=
  let dspace_delta := Z.shiftr space_delta SPA_MINBLOCKSHIFT * deflate_ratio in
  (stat_update vs alloc_delta space_delta dspace_delta,
   if normal then stat_update rvs alloc_delta space_delta dspace_delta else rvs,
   (fun mc => metaslab_class_space_update mc alloc_delta defer_delta space_delta dspace_delta) <$> mc).

Definition metaslab_group_get_space (mg : metaslab_group) : Z :=
  wrap64 (wrap64 (Z.shiftl 1 (vdev_ms_shift (mg_vd mg))) * vdev_ms_count (mg_vd mg)).

(** The groups of the class: those of the children that are not holes and are
    initialised. *)
Definition skipped (mg : metaslab_group) : bool :=
  vdev_ishole (mg_vd mg) || (vdev_ms_shift (mg_vd mg) =? 0).

(** The loop of [metaslab_class_fragmentation] over the groups of the class. *)
Fixpoint class_frag_loop (mgs : list metaslab_group) (fragmentation : Z) : option Z :=
  match mgs with
  | [] => Some fragmentation
  | mg :: mgs' =>
      if skipped mg then class_frag_loop mgs' fragmentation
      else if mg_fragmentation mg =? ZFS_FRAG_INVALID then None
      else class_frag_loop mgs'
        (wrap64 (fragmentation + wrap64 (mg_fragmentation mg * metaslab_group_get_space mg)))
  end.

(** Division by a class of no space is a trap. *)
Definition metaslab_class_fragmentation (mgs : list metaslab_group) (mc : metaslab_class) : res Z :=
  match class_frag_loop mgs 0 with
  | None => Ok ZFS_FRAG_INVALID
  | Some fragmentation =>
      VERIFY negb (metaslab_class_get_space mc =? 0) ;;
      Ok (fragmentation / metaslab_class_get_space mc)
  end.

Fixpoint metaslab_class_expandable_space (mgs : list metaslab_group) (space : Z) : Z :=
  match mgs with
  | [] => space
  | mg :: mgs' =>
      if skipped mg then metaslab_class_expandable_space mgs' space
      else metaslab_class_expandable_space mgs'
        (wrap64 (space + P2ALIGN (wrap64 (vdev_max_asize (mg_vd mg) - vdev_asize (mg_vd mg)))
          (wrap64 (Z.shiftl 1 (vdev_ms_shift (mg_vd mg))))))
  end.

(** ** Histograms *)

(** [h[i + k] op= vals[k]] for every [k]. *)
Fixpoint hist_apply (op : Z -> Z -> Z) (i : nat) (vals h : list Z) : list Z :=
  match vals with
  | [] => h
  | v :: vals' => hist_apply op (S i) vals' (alter (fun x => wrap64 (op x v)) i h)
  end.

Definition metaslab_group_histogram_add (mg : metaslab_group) (mc : metaslab_class) (msp : metaslab)
    : metaslab_group * metaslab_class :=
  let ashift := Z.to_nat (vdev_ashift (mg_vd mg)) in
  match ms_sm msp with
  | None => (mg, mc)
  | Some sm =>
      let vals := take SPACE_MAP_HISTOGRAM_SIZE (smp_histogram (sm_phys sm)) in
      (set_mg_histogram mg (hist_apply Z.add ashift vals (mg_histogram mg)),
       set_mc_histogram mc (hist_apply Z.add ashift vals (mc_histogram mc)))
  end.

Definition metaslab_group_histogram_remove (mg : metaslab_group) (mc : metaslab_class) (msp : metaslab)
    : metaslab_group * metaslab_class :=
  let ashift := Z.to_nat (vdev_ashift (mg_vd mg)) in
  match ms_sm msp with
  | None => (mg, mc)
  | Some sm =>
      let vals := take SPACE_MAP_HISTOGRAM_SIZE (smp_histogram (sm_phys sm)) in
      (set_mg_histogram mg (hist_apply Z.sub ashift vals (mg_histogram mg)),
       set_mc_histogram mc (hist_apply Z.sub ashift vals (mc_histogram mc)))
  end.

(** The histogram recounted from the metaslabs of the device. *)
Fixpoint group_hist (ashift : nat) (mss : list metaslab) (h : list Z) : list Z :=
  match mss with
  | [] => h
  | msp :: mss' =>
      match ms_sm msp with
      | None => group_hist ashift mss' h
      | Some sm =>
          group_hist ashift mss'
            (hist_apply Z.add ashift (take SPACE_MAP_HISTOGRAM_SIZE (smp_histogram (sm_phys sm))) h)
      end
  end.

Definition metaslab_group_histogram_verify (verify : bool) (mss : list metaslab) (mg : metaslab_group)
    : res unit :=
  if negb verify then Ok tt else
  let mg_hist := group_hist (Z.to_nat (vdev_ashift (mg_vd mg))) mss
    (replicate RANGE_TREE_HISTOGRAM_SIZE 0) in
  VERIFY bool_decide (mg_hist = mg_histogram mg) ;; Ok tt.

Fixpoint class_hist (mgs : list metaslab_group) (h : list Z) : list Z :=
  match mgs with
  | [] => h
  | mg :: mgs' =>
      if skipped mg then class_hist mgs' h
      else class_hist mgs' (hist_apply Z.add 0 (mg_histogram mg) h)
  end.

Definition metaslab_class_histogram_verify (verify : bool) (mgs : list metaslab_group)
    (mc : metaslab_class) : res unit :=
  if negb verify then Ok tt else
  VERIFY bool_decide (class_hist mgs (replicate RANGE_TREE_HISTOGRAM_SIZE 0) = mc_histogram mc) ;;
  Ok tt.

(** ** The group's tree *)

(** The result is the group, the class and the metaslab. *)
Definition metaslab_group_add (mg : metaslab_group) (mc : metaslab_class) (msp : metaslab)
    : res (metaslab_group * metaslab_class * metaslab) :=
  let msp := set_ms_weight msp 0 in
  t ← avl_add (mg_metaslab_tree mg) (ms_ref_of msp);
  Ok (metaslab_group_histogram_add (set_mg_tree mg t) mc msp, msp).

Definition metaslab_group_remove (mg : metaslab_group) (mc : metaslab_class) (msp : metaslab)
    : res (metaslab_group * metaslab_class) :=
  let '(mg, mc) := metaslab_group_histogram_remove mg mc msp in
  t ← avl_remove (mg_metaslab_tree mg) (ms_ref_of msp);
  Ok (set_mg_tree mg t, mc).

Definition metaslab_group_sort (mg : metaslab_group) (msp : metaslab) (weight : Z)
    : res (metaslab_group * metaslab) :=
  t ← avl_remove (mg_metaslab_tree mg) (ms_ref_of msp);
  let msp := set_ms_weight msp weight in
  t ← avl_add t (ms_ref_of msp);
  Ok (set_mg_tree mg t, msp).

(** The loop of [metaslab_group_fragmentation]. *)
Fixpoint group_frag_loop (mss : list metaslab) (valid_ms fragmentation : Z) : Z * Z :=
  match mss with
  | [] => (valid_ms, fragmentation)
  | msp :: mss' =>
      if ms_fragmentation msp =? ZFS_FRAG_INVALID then group_frag_loop mss' valid_ms fragmentation
      else group_frag_loop mss' (wrap64 (valid_ms + 1)) (wrap64 (fragmentation + ms_fragmentation msp))
  end.

Definition metaslab_group_fragmentation (mss : list metaslab) (mg : metaslab_group) : Z :=
  let '(valid_ms, fragmentation) := group_frag_loop mss 0 0 in
  if valid_ms <=? vdev_ms_count (mg_vd mg) / 2 then ZFS_FRAG_INVALID
  else fragmentation / valid_ms.

(** ** Activation and the rotor *)

Section Groups.
(** The tunables. *)
Variables metaslab_aliquot zfs_mg_noalloc_threshold zfs_mg_fragmentation_threshold : Z.

Definition metaslab_group_initialized (mg : metaslab_group) : bool :=
  negb (vs_space (vdev_stat_ (mg_vd mg)) =? 0) && (0 <? mg_activation_count mg).

Definition metaslab_group_alloc_update (mg : metaslab_group) (mc : metaslab_class)
    : metaslab_group * metaslab_class :=
  let vs := vdev_stat_ (mg_vd mg) in
  let was_allocatable := mg_allocatable mg in
  let was_initialized := mg_initialized mg in
  let free_capacity :=
    wrap64 (wrap64 (vs_space vs - vs_alloc vs) * 100) / wrap64 (vs_space vs + 1) in
  let initialized := metaslab_group_initialized mg in
  let groups :=
    if negb was_initialized && initialized then wrap64 (mc_groups mc + 1)
    else if was_initialized && negb initialized then wrap64 (mc_groups mc - 1)
    else mc_groups mc in
  let no_free_space := if initialized then false else mg_no_free_space mg in
  let allocatable :=
    (0 <? mg_activation_count mg) && (wrap64 zfs_mg_noalloc_threshold <? free_capacity) &&
    ((mg_fragmentation mg =? ZFS_FRAG_INVALID) ||
     (mg_fragmentation mg <=? wrap64 zfs_mg_fragmentation_threshold)) in
  let alloc_groups :=
    if was_allocatable && negb allocatable then wrap64 (mc_alloc_groups mc - 1)
    else if negb was_allocatable && allocatable then wrap64 (mc_alloc_groups mc + 1)
    else mc_alloc_groups mc in
  (set_mg_state mg allocatable initialized no_free_space free_capacity,
   set_mc_counts mc groups alloc_groups).

Definition metaslab_group_activate (h : heap) (mc : metaslab_class) (id : Z)
    : res (heap * metaslab_class) :=
  mg ← deref (h !! id);
  let mg := set_mg_activation_count mg (mg_activation_count mg + 1) in
  if mg_activation_count mg <=? 0 then Ok (<[id := mg]> h, mc) else
  let mg := set_mg_aliquot mg (wrap64 (metaslab_aliquot * Z.max 1 (vdev_children (mg_vd mg)))) in
  let '(mg, mc) := metaslab_group_alloc_update mg mc in
  let h := <[id := mg]> h in
  match mc_rotor mc with
  | None =>
      let h := alter (set_mg_prev (Some id)) id h in
      let h := alter (set_mg_next (Some id)) id h in
      Ok (h, set_mc_rotor mc (Some id))
  | Some prev =>
      mgprev ← deref (h !! prev);
      next ← deref (mg_next mgprev);
      let h := alter (set_mg_prev (Some prev)) id h in
      let h := alter (set_mg_next (Some next)) id h in
      let h := alter (set_mg_next (Some id)) prev h in
      let h := alter (set_mg_prev (Some id)) next h in
      Ok (h, set_mc_rotor mc (Some id))
  end.

Definition metaslab_group_passivate (h : heap) (mc : metaslab_class) (id : Z)
    : res (heap * metaslab_class) :=
  mg ← deref (h !! id);
  let mg := set_mg_activation_count mg (mg_activation_count mg - 1) in
  if negb (mg_activation_count mg =? 0) then Ok (<[id := mg]> h, mc) else
  let '(mg, mc) := metaslab_group_alloc_update mg mc in
  let h := <[id := mg]> h in
  prev ← deref (mg_prev mg);
  next ← deref (mg_next mg);
  let '(h, mc) :=
    if id =? next then (h, set_mc_rotor mc None)
    else
      (alter (set_mg_prev (Some prev)) next (alter (set_mg_next (Some next)) prev h),
       set_mc_rotor mc (Some next)) in
  let h := alter (set_mg_prev None) id h in
  let h := alter (set_mg_next None) id h in
  Ok (h, mc).

(** The loop of [metaslab_group_allocatable] over the groups up to the rotor:
    whether one of them can take the allocation. *)
Fixpoint other_group (fuel : nat) (h : heap) (mgp rotor : Z) : res bool :=
  if mgp =? rotor then Ok false else
  match fuel with
  | O => Panic
  | S fuel' =>
      g ← deref (h !! mgp);
      if (mg_alloc_queue_depth g <? mg_max_alloc_queue_depth g) && negb (mg_no_free_space g)
      then Ok true
      else next ← deref (mg_next g); other_group fuel' h next rotor
  end.

(** [normal]: the class is the pool's normal class. *)
Definition metaslab_group_allocatable (normal : bool) (h : heap) (mc : metaslab_class) (id rotor : Z)
    (psize : Z) : res bool :=
  if negb normal || (mc_groups mc <=? 1) then Ok true else
  mg ← deref (h !! id);
  if mg_allocatable mg then
    if negb (mc_alloc_throttle_enabled mc) then Ok true
    else if mg_no_free_space mg then Ok false
    else if (mg_alloc_queue_depth mg <? mg_max_alloc_queue_depth mg) || (mc_alloc_groups mc =? 1)
    then Ok true
    else next ← deref (mg_next mg); other ← other_group (size h) h next rotor; Ok (negb other)
  else Ok ((mc_alloc_groups mc =? 0) || (psize =? SPA_MINBLOCKSIZE)).

End Groups.

(** ** The order of the metaslabs of a group *)

Lemma metaslab_compare_cases (x y : ms_ref) :
  let before x y := mr_weight y < mr_weight x \/ mr_weight x = mr_weight y /\ mr_start x < mr_start y in
  (before x y /\ metaslab_compare x y = -1) \/ (before y x /\ metaslab_compare x y = 1) \/
  (mr_weight x = mr_weight y /\ mr_start x = mr_start y /\ metaslab_compare x y = 0).
Proof.
  simpl. unfold metaslab_compare.
  destruct (AVL_CMP_cases (mr_weight y) (mr_weight x)) as [[? ->]|[[? ->]|[? ->]]]; simpl; try lia.
  destruct (AVL_CMP_cases (mr_start x) (mr_start y)) as [[? ->]|[[? ->]|[? ->]]]; lia.
Qed.

#[export] Instance ms_ref_order : AvlOrder ms_ref.
Proof.
  split; unfold avl_compar, ms_ref_compar.
  - intros x y. pose proof (metaslab_compare_cases x y). cbv zeta in *. lia.
  - intros x y. pose proof (metaslab_compare_cases x y).
    pose proof (metaslab_compare_cases y x). cbv zeta in *. lia.
  - intros x y z. pose proof (metaslab_compare_cases x y).
    pose proof (metaslab_compare_cases y z). pose proof (metaslab_compare_cases x z).
    cbv zeta in *. lia.
Qed.

(** The tree of a group has one node for each metaslab ... *)
Definition mg_tree_wf (t : avl_tree ms_ref) : Prop :=
  avl_wf t /\ NoDup (mr_start <$> avl_elements t).

(** ... and is ordered by weight. *)
Definition mg_tree_ok (t : avl_tree ms_ref) : Prop :=
  mg_tree_wf t /\ avl_sorted (avl_elements t).

Lemma mg_tree_NoDup t : mg_tree_wf t -> NoDup (avl_elements t).
Proof. intros [_ H]. by eapply NoDup_fmap_1. Qed.

Lemma mg_tree_remove t r :
  mg_tree_wf t -> r ∈ avl_elements t ->
  exists t', avl_remove t r = Ok t' /\ mg_tree_wf t' /\ avl_elements t ≡ₚ r :: avl_elements t' /\
    (avl_sorted (avl_elements t) -> avl_sorted (avl_elements t')).
Proof.
  intros Hok (l1 & l2 & He)%list_elem_of_split. pose proof Hok as [Hwf Hnd].
  destruct (avl_remove_split t l1 r l2 Hwf (mg_tree_NoDup t Hok) He) as (t' & E & Hwf' & He').
  exists t'. split; [done|]. rewrite He in Hnd |- *. split; [split; [done|]; rewrite He'|split].
  - rewrite <- Permutation_middle in Hnd. by apply NoDup_cons in Hnd as [_ ?].
  - by rewrite He', <- Permutation_middle.
  - intros Hs. rewrite He'. by apply sorted_remove in Hs.
Qed.

Lemma mg_tree_add t r :
  mg_tree_wf t -> mr_start r ∉ mr_start <$> avl_elements t ->
  exists t', avl_add t r = Ok t' /\ mg_tree_wf t' /\ avl_elements t' ≡ₚ r :: avl_elements t /\
    (avl_sorted (avl_elements t) -> avl_sorted (avl_elements t')).
Proof.
  intros [Hwf Hnd] Hni. destruct (avl_add_any t r Hwf) as (t' & E & Hwf' & Hp & Hs).
  { apply Forall_forall. intros y Hy E. apply Hni, list_elem_of_fmap. exists y. split; [|done].
    pose proof (metaslab_compare_cases r y). unfold avl_compar, ms_ref_compar in E. cbv zeta in *. lia. }
  exists t'. split; [done|]. split; [|done]. split; [done|]. rewrite Hp. by apply NoDup_cons.
Qed.

(** The first metaslab of the tree has the greatest weight. *)
Lemma mg_tree_first t r f :
  mg_tree_ok t -> avl_first t = Some f -> r ∈ avl_elements t -> mr_weight r <= mr_weight f.
Proof.
  intros [_ Hs] Hf Hr. rewrite avl_first_head in Hf.
  destruct (avl_elements t) as [|x l]; [done|]. injection Hf as ->.
  apply elem_of_cons in Hr as [->|Hr]; [done|]. apply StronglySorted_inv in Hs as [_ Hs].
  rewrite Forall_forall in Hs. specialize (Hs r Hr).
  pose proof (metaslab_compare_cases f r). unfold avl_compar, ms_ref_compar in Hs. cbv zeta in *. lia.
Qed.

(** A metaslab given a new weight, in a tree in order or not. *)
Lemma metaslab_group_sort_spec mg msp weight :
  mg_tree_wf (mg_metaslab_tree mg) -> ms_ref_of msp ∈ avl_elements (mg_metaslab_tree mg) ->
  exists t rest, metaslab_group_sort mg msp weight = Ok (set_mg_tree mg t, set_ms_weight msp weight) /\
    mg_tree_wf t /\ avl_elements (mg_metaslab_tree mg) ≡ₚ ms_ref_of msp :: rest /\
    avl_elements t ≡ₚ MsRef weight (ms_start msp) :: rest /\
    (avl_sorted (avl_elements (mg_metaslab_tree mg)) -> avl_sorted (avl_elements t)).
Proof.
  intros Hok Hin. unfold metaslab_group_sort.
  destruct (mg_tree_remove _ _ Hok Hin) as (t1 & -> & Hok1 & Hp1 & Hs1). simpl.
  destruct (mg_tree_add t1 (ms_ref_of (set_ms_weight msp weight)) Hok1) as (t2 & -> & Hok2 & Hp2 & Hs2).
  { destruct Hok as [_ Hnd]. rewrite Hp1 in Hnd. by apply NoDup_cons in Hnd as [? _]. }
  simpl. exists t2, (avl_elements t1). split_and!; auto; apply Hok2.
Qed.

(** C35: [metaslab_group_sort] gives the metaslab its new weight and moves it to
    its place: the tree stays ordered with the same metaslabs, and its first
    metaslab is one of the greatest weight. *)
Theorem metaslab_group_sort_correct mg msp weight :
  mg_tree_ok (mg_metaslab_tree mg) -> ms_ref_of msp ∈ avl_elements (mg_metaslab_tree mg) ->
  exists mg' rest, metaslab_group_sort mg msp weight = Ok (mg', set_ms_weight msp weight) /\
    mg_tree_ok (mg_metaslab_tree mg') /\
    avl_elements (mg_metaslab_tree mg) ≡ₚ ms_ref_of msp :: rest /\
    avl_elements (mg_metaslab_tree mg') ≡ₚ MsRef weight (ms_start msp) :: rest /\
    (forall f, avl_first (mg_metaslab_tree mg') = Some f ->
       weight <= mr_weight f /\ Forall (fun r => mr_weight r <= mr_weight f) rest).
Proof.
  intros [Hok Hs] Hin.
  destruct (metaslab_group_sort_spec mg msp weight Hok Hin) as (t & rest & -> & Hok' & Hp & Hp' & Hs').
  assert (Hokt : mg_tree_ok t) by (split; auto).
  exists (set_mg_tree mg t), rest. split; [done|]. split_and!; auto. intros f Hf. split.
  - apply (mg_tree_first t (MsRef weight (ms_start msp)) f Hokt Hf). rewrite Hp'. by left.
  - apply Forall_forall. intros r Hr. apply (mg_tree_first t r f Hokt Hf). rewrite Hp'. by right.
Qed.

(** A metaslab added to a group is in its tree with weight 0, and removing
    it gives back a tree with the metaslabs there were. *)
Theorem metaslab_group_add_remove mg mc msp :
  mg_tree_ok (mg_metaslab_tree mg) -> ms_start msp ∉ mr_start <$> avl_elements (mg_metaslab_tree mg) ->
  exists mg' mc' mg'' mc'', metaslab_group_add mg mc msp = Ok (mg', mc', set_ms_weight msp 0) /\
    mg_tree_ok (mg_metaslab_tree mg') /\
    avl_elements (mg_metaslab_tree mg') ≡ₚ MsRef 0 (ms_start msp) :: avl_elements (mg_metaslab_tree mg) /\
    metaslab_group_remove mg' mc' (set_ms_weight msp 0) = Ok (mg'', mc'') /\
    mg_tree_ok (mg_metaslab_tree mg'') /\
    avl_elements (mg_metaslab_tree mg'') ≡ₚ avl_elements (mg_metaslab_tree mg).
Proof.
  intros [Hok Hs] Hni. unfold metaslab_group_add.
  destruct (mg_tree_add (mg_metaslab_tree mg) (ms_ref_of (set_ms_weight msp 0)) Hok Hni)
    as (t1 & -> & Hok1 & Hp1 & Hs1). simpl.
  destruct (mg_tree_remove t1 (ms_ref_of (set_ms_weight msp 0)) Hok1) as (t2 & E2 & Hok2 & Hp2 & Hs2).
  { rewrite Hp1. by left. }
  rewrite Hp1 in Hp2. apply (inj (cons _)) in Hp2.
  assert (Ht1 : mg_tree_ok t1) by (split; auto). assert (Ht2 : mg_tree_ok t2) by (split; auto).
  unfold metaslab_group_histogram_add, metaslab_group_remove, metaslab_group_histogram_remove.
  simpl. destruct (ms_sm msp) as [sm|]; simpl; eexists _, _, _, _; (split; [done|]); simpl; rewrite E2; simpl;
    (split; [done|split; [done|split; [done|split; [done|by symmetry]]]]).
Qed.

(** ** The rotor as a list *)

Definition linked (h : heap) (a b : Z) : Prop :=
  mg_next <$> h !! a = Some (Some b) /\ mg_prev <$> h !! b = Some (Some a).

(** Consecutive groups of the list point to each other. *)
Fixpoint chain (h : heap) (l : list Z) : Prop :=
  match l with
  | a :: (b :: _) as l' => linked h a b /\ chain h l'
  | _ => True
  end.

(** The groups of the class from the rotor on, in the order of [mg_next]. *)
Definition ring (h : heap) (rotor : option Z) (l : list Z) : Prop :=
  NoDup l /\ rotor = head l /\ match l with [] => True | a :: _ => chain h (l ++ [a]) end.

Lemma chain_app h l1 a l2 : chain h (l1 ++ a :: l2) <-> chain h (l1 ++ [a]) /\ chain h (a :: l2).
Proof.
  induction l1 as [|b [|c l1] IH]; simpl in *; [tauto| |].
  - tauto.
  - rewrite IH. tauto.
Qed.

Lemma chain_ext h h' l a b :
  chain h (a :: l ++ [b]) ->
  (forall x, x ∈ a :: l -> mg_next <$> h' !! x = mg_next <$> h !! x) ->
  (forall x, x ∈ l ++ [b] -> mg_prev <$> h' !! x = mg_prev <$> h !! x) ->
  chain h' (a :: l ++ [b]).
Proof.
  revert a. induction l as [|c l IH]; intros a H Hn Hp; simpl in *.
  - destruct H as [[H1 H2] _]. split; [|done]. split.
    + rewrite Hn; [done|by left].
    + rewrite Hp; [done|by left].
  - destruct H as [[H1 H2] H3]. split.
    + split; [rewrite Hn; [done|by left]|rewrite Hp; [done|by left]].
    + apply IH; [done| |]; intros x Hx; [apply Hn|apply Hp]; by right.
Qed.

(** The list may be read from any of its groups. *)
Lemma ring_rotate h r l1 a l2 : ring h r (l1 ++ a :: l2) -> ring h (Some a) (a :: l2 ++ l1).
Proof.
  intros (Hnd & _ & Hc). split_and!; [by rewrite app_comm_cons, (Permutation_app_comm (a :: l2))|done|].
  destruct l1 as [|b l1]; [by rewrite app_nil_r|].
  assert (Hc' : chain h ((b :: l1 ++ a :: l2) ++ [b])) by exact Hc. clear Hc. rename Hc' into Hc.
  assert (E : (b :: l1 ++ a :: l2) ++ [b] = (b :: l1) ++ a :: (l2 ++ [b])).
  { simpl. by rewrite <- app_assoc. }
  rewrite E in Hc. apply chain_app in Hc as [H1 H2].
  replace ((a :: l2 ++ b :: l1) ++ [a]) with ((a :: l2) ++ b :: (l1 ++ [a])).
  - apply chain_app. split; [done|]. done.
  - simpl. by rewrite <- !app_assoc.
Qed.

Lemma ring_next h r l1 a b l2 :
  ring h r (l1 ++ a :: b :: l2) -> linked h a b.
Proof.
  intros (_ & _ & Hc). destruct l1 as [|c l1]; [by destruct Hc|].
  assert (Hc' : chain h ((c :: l1) ++ a :: (b :: l2 ++ [c]))).
  { assert (E : (c :: l1) ++ a :: (b :: l2 ++ [c]) = ((c :: l1) ++ a :: b :: l2) ++ [c]).
    { simpl. by rewrite <- app_assoc. }
    rewrite E. exact Hc. }
  by apply chain_app in Hc' as [_ [Hl _]].
Qed.

(** The field of a group after an assignment to a group. *)
Lemma alter_next (h : heap) f i x :
  (forall mg, mg_next (f mg) = mg_next mg) -> mg_next <$> alter f i h !! x = mg_next <$> h !! x.
Proof.
  intros Hf. destruct (decide (x = i)) as [->|Hne].
  - rewrite lookup_alter_eq. destruct (h !! i); simpl; [by rewrite Hf|done].
  - by rewrite lookup_alter_ne.
Qed.

Lemma alter_prev (h : heap) f i x :
  (forall mg, mg_prev (f mg) = mg_prev mg) -> mg_prev <$> alter f i h !! x = mg_prev <$> h !! x.
Proof.
  intros Hf. destruct (decide (x = i)) as [->|Hne].
  - rewrite lookup_alter_eq. destruct (h !! i); simpl; [by rewrite Hf|done].
  - by rewrite lookup_alter_ne.
Qed.

Lemma alter_set_next (h : heap) v i x :
  is_Some (h !! x) ->
  mg_next <$> alter (set_mg_next v) i h !! x = if decide (x = i) then Some v else mg_next <$> h !! x.
Proof.
  intros [mg E]. case_decide as D; [subst|by rewrite lookup_alter_ne]. by rewrite lookup_alter_eq, E.
Qed.

Lemma alter_set_prev (h : heap) v i x :
  is_Some (h !! x) ->
  mg_prev <$> alter (set_mg_prev v) i h !! x = if decide (x = i) then Some v else mg_prev <$> h !! x.
Proof.
  intros [mg E]. case_decide as D; [subst|by rewrite lookup_alter_ne]. by rewrite lookup_alter_eq, E.
Qed.

Lemma alter_some (h : heap) f i x : is_Some (alter f i h !! x) <-> is_Some (h !! x).
Proof.
  destruct (decide (x = i)) as [->|Hne].
  - rewrite lookup_alter_eq. by rewrite fmap_is_Some.
  - by rewrite lookup_alter_ne.
Qed.

Lemma linked_some h a b : linked h a b -> is_Some (h !! a) /\ is_Some (h !! b).
Proof. intros [H1 H2]. by destruct (h !! a), (h !! b). Qed.

Lemma chain_some h l a b x : chain h (a :: l ++ [b]) -> x ∈ a :: l ++ [b] -> is_Some (h !! x).
Proof.
  revert a. induction l as [|c l IH]; intros a H Hx; simpl in H; destruct H as [Hl H];
    apply linked_some in Hl as [Ha Hb]; apply elem_of_cons in Hx as [->|Hx]; try done.
  - by apply list_elem_of_singleton in Hx as ->.
  - by apply IH with c.
Qed.

Lemma ring_some h r l x : ring h r l -> x ∈ l -> is_Some (h !! x).
Proof.
  intros (_ & _ & Hc) Hx. destruct l as [|a l]; [set_solver|].
  apply (chain_some h l a a); [done|]. set_solver.
Qed.

(** Linking [x] in after the rotor [r]. *)
Definition link_after (h : heap) (r next x : Z) : heap :=
  alter (set_mg_prev (Some x)) next (alter (set_mg_next (Some x)) r
    (alter (set_mg_next (Some next)) x (alter (set_mg_prev (Some r)) x h))).

Lemma link_after_next h r next x y : is_Some (h !! y) ->
  mg_next <$> link_after h r next x !! y =
  if decide (y = r) then Some (Some x) else if decide (y = x) then Some (Some next) else mg_next <$> h !! y.
Proof.
  intros Hy. unfold link_after. rewrite alter_next by done.
  rewrite alter_set_next by by rewrite !alter_some. case_decide; [done|].
  rewrite alter_set_next by by rewrite alter_some. case_decide; [done|]. by rewrite alter_next.
Qed.

Lemma link_after_prev h r next x y : is_Some (h !! y) ->
  mg_prev <$> link_after h r next x !! y =
  if decide (y = next) then Some (Some x) else if decide (y = x) then Some (Some r) else mg_prev <$> h !! y.
Proof.
  intros Hy. unfold link_after. rewrite alter_set_prev by by rewrite !alter_some. case_decide; [done|].
  rewrite !alter_prev by done. rewrite alter_set_prev by done. by case_decide.
Qed.

Lemma ring_link h r l x next :
  ring h (Some r) (r :: l) -> x ∉ r :: l -> is_Some (h !! x) -> head (l ++ [r]) = Some next ->
  ring (link_after h r next x) (Some x) (x :: l ++ [r]).
Proof.
  intros Hr Hx Hsx Hhd. pose proof Hr as (Hnd & _ & Hc).
  assert (Hs : forall y, y ∈ r :: l -> is_Some (h !! y)) by (intros; by eapply ring_some).
  assert (Hp : x :: l ++ [r] ≡ₚ x :: r :: l) by (by rewrite (Permutation_app_comm l [r])).
  split; [rewrite Hp; by apply NoDup_cons|split; [done|]].
  assert (Hnext : next ∈ r :: l).
  { destruct l as [|c l]; simpl in Hhd; injection Hhd as ->; set_solver. }
  assert (Hfirst : linked (link_after h r next x) x next).
  { split; [rewrite link_after_next by done|rewrite link_after_prev by auto];
      repeat case_decide; try done; set_solver. }
  assert (Hlast : linked (link_after h r next x) r x).
  { assert (is_Some (h !! r)) by (apply Hs; by left).
    split; [rewrite link_after_next by done|rewrite link_after_prev by auto];
      repeat case_decide; try done; set_solver. }
  replace ((x :: l ++ [r]) ++ [x]) with ((x :: l) ++ r :: [x]) by (simpl; by rewrite <- app_assoc).
  apply chain_app. split; [|by split].
  destruct l as [|c l]; simpl in Hhd; injection Hhd as <-; [by split|]. split; [done|].
  destruct Hc as [_ Hc]. apply NoDup_cons in Hnd as [Hrl Hnd]. apply NoDup_cons in Hnd as [Hcl Hnd].
  eapply chain_ext; [exact Hc| |].
  - intros y Hy. rewrite link_after_next by (apply Hs; by right).
    repeat case_decide; try done; subst; set_solver.
  - intros y Hy. rewrite link_after_prev by (apply Hs; set_solver).
    repeat case_decide; try done; subst; set_solver.
Qed.

(** Taking [x], between [prev] and [next], out. *)
Definition unlink (h : heap) (prev next x : Z) : heap :=
  alter (set_mg_next None) x (alter (set_mg_prev None) x
    (alter (set_mg_prev (Some prev)) next (alter (set_mg_next (Some next)) prev h))).

Lemma unlink_next h prev next x y : is_Some (h !! y) -> y <> x ->
  mg_next <$> unlink h prev next x !! y =
  if decide (y = prev) then Some (Some next) else mg_next <$> h !! y.
Proof.
  intros Hy Hx. unfold unlink. rewrite alter_set_next by by rewrite !alter_some. rewrite decide_False by done.
  rewrite !alter_next by done. by rewrite alter_set_next.
Qed.

Lemma unlink_prev h prev next x y : is_Some (h !! y) -> y <> x ->
  mg_prev <$> unlink h prev next x !! y =
  if decide (y = next) then Some (Some prev) else mg_prev <$> h !! y.
Proof.
  intros Hy Hx. unfold unlink. rewrite alter_prev by done.
  rewrite alter_set_prev by by rewrite !alter_some. rewrite decide_False by done.
  rewrite alter_set_prev by by rewrite !alter_some. case_decide; [done|]. by rewrite alter_prev.
Qed.

Lemma ring_unlink h x m next prev :
  ring h (Some x) (x :: m) -> head m = Some next -> last m = Some prev ->
  ring (unlink h prev next x) (Some next) m.
Proof.
  intros Hr Hhd Hl. pose proof Hr as (Hnd & _ & Hc). apply NoDup_cons in Hnd as [Hxm Hnd].
  assert (Hs : forall y, y ∈ m -> is_Some (h !! y) /\ y <> x).
  { intros y Hy. split; [eapply ring_some; [done|by right]|by intros ->]. }
  split; [done|]. split; [done|]. apply last_Some in Hl as [m0 ->].
  assert (Hnm : next ∈ m0 ++ [prev]) by (destruct m0; simpl in Hhd; injection Hhd as ->; set_solver).
  assert (Hlink : linked (unlink h prev next x) prev next).
  { split; [rewrite unlink_next by (apply Hs; set_solver)|rewrite unlink_prev by (by apply Hs)];
      by rewrite decide_True. }
  assert (Hgoal : chain (unlink h prev next x) ((m0 ++ [prev]) ++ [next])).
  { rewrite <- app_assoc. simpl. apply chain_app. split; [|by split].
    destruct m0 as [|c m0]; [done|]. simpl in Hhd. injection Hhd as <-.
    assert (Hc' : chain h ((c :: m0) ++ prev :: [x])).
    { assert (E : (c :: m0) ++ prev :: [x] = ((c :: m0) ++ [prev]) ++ [x]) by (by rewrite <- app_assoc).
      rewrite E. by destruct Hc as [_ Hc]. }
    clear Hc. apply chain_app in Hc' as [Hc _].
    apply NoDup_app in Hnd as (Hnd0 & Hdis & _). apply NoDup_cons in Hnd0 as [Hcm _].
    eapply chain_ext; [exact Hc| |].
    - intros y Hy. rewrite unlink_next by (apply Hs; set_solver). rewrite decide_False; [done|].
      intros ->. apply (Hdis prev Hy). by left.
    - intros y Hy. rewrite unlink_prev by (apply Hs; set_solver). rewrite decide_False; [done|].
      intros ->. apply elem_of_app in Hy as [Hy|Hy]; [done|]. apply (Hdis c); [by left|done]. }
  destruct m0; simpl in Hhd; injection Hhd as ->; exact Hgoal.
Qed.

(** ** The counts of a class *)

Definition count (P : metaslab_group -> bool) (h : heap) : nat :=
  size (filter (fun kv : Z * metaslab_group => P kv.2 = true) h).

Lemma count_fresh P h i mg : h !! i = None -> count P (<[i := mg]> h) = (Nat.b2n (P mg) + count P h)%nat.
Proof.
  intros Hi. unfold count. rewrite map_filter_insert. case_decide as D; simpl in D.
  - rewrite map_size_insert_None, D; [done|]. apply map_lookup_filter_None_2. by left.
  - rewrite delete_id by done. by destruct (P mg).
Qed.

Lemma count_insert P h i mg mg' :
  h !! i = Some mg -> (count P (<[i := mg']> h) + Nat.b2n (P mg) = count P h + Nat.b2n (P mg'))%nat.
Proof.
  intros Hi. rewrite <- insert_delete_eq. rewrite count_fresh by apply lookup_delete_eq.
  rewrite <- (insert_delete_id h i mg Hi) at 2. rewrite count_fresh by apply lookup_delete_eq. lia.
Qed.

Lemma count_alter P h f i : (forall mg, P (f mg) = P mg) -> count P (alter f i h) = count P h.
Proof.
  intros Hf. destruct (h !! i) as [mg|] eqn:E.
  - rewrite (alter_alt_Some f h i mg E). pose proof (count_insert P h i mg (f mg) E) as H.
    rewrite Hf in H. lia.
  - rewrite alter_id; [done|]. intros ? Hx. congruence.
Qed.

Lemma count_size P h : (count P h <= size h)%nat.
Proof. apply map_size_filter. Qed.

(** [mc_groups] counts the initialised groups and [mc_alloc_groups] the
    allocatable ones. *)
Definition class_ok (h : heap) (mc : metaslab_class) : Prop :=
  mc_groups mc = Z.of_nat (count mg_initialized h) /\
  mc_alloc_groups mc = Z.of_nat (count mg_allocatable h) /\
  Z.of_nat (size h) < B64.

Lemma class_ok_alter h mc f i :
  (forall mg, mg_initialized (f mg) = mg_initialized mg) ->
  (forall mg, mg_allocatable (f mg) = mg_allocatable mg) -> class_ok h mc -> class_ok (alter f i h) mc.
Proof.
  unfold class_ok. intros H1 H2. rewrite !count_alter by done.
  assert (size (alter f i h) = size h) as ->; [|done].
  rewrite alter_alt. destruct (h !! i) as [mg|] eqn:E; [|done]. by rewrite map_size_insert, E.
Qed.

Lemma class_ok_rotor h mc r : class_ok h mc -> class_ok h (set_mc_rotor mc r).
Proof. done. Qed.

#[local] Hint Resolve class_ok_alter class_ok_rotor : zfs.

Lemma ring_ext h h' r l :
  (forall y, y ∈ l -> mg_next <$> h' !! y = mg_next <$> h !! y /\ mg_prev <$> h' !! y = mg_prev <$> h !! y) ->
  ring h r l -> ring h' r l.
Proof.
  intros He (Hnd & Hr & Hc). split; [done|]. split; [done|]. destruct l as [|a l]; [done|].
  eapply chain_ext; [exact Hc| |]; intros y Hy; apply He; set_solver.
Qed.

(** A group replaced by one with the same links. *)
Lemma ring_insert h r l x mg mg' :
  h !! x = Some mg -> mg_next mg' = mg_next mg -> mg_prev mg' = mg_prev mg ->
  ring h r l -> ring (<[x := mg']> h) r l.
Proof.
  intros Hx Hn Hp. apply ring_ext. intros y _. destruct (decide (y = x)) as [->|Hne].
  - rewrite lookup_insert_eq, Hx. simpl. by rewrite Hn, Hp.
  - by rewrite lookup_insert_ne.
Qed.

Section Rotor.
Variables metaslab_aliquot zfs_mg_noalloc_threshold zfs_mg_fragmentation_threshold : Z.
Abbreviation alloc_update := (metaslab_group_alloc_update zfs_mg_noalloc_threshold zfs_mg_fragmentation_threshold).
Abbreviation activate :=
  (metaslab_group_activate metaslab_aliquot zfs_mg_noalloc_threshold zfs_mg_fragmentation_threshold).
Abbreviation passivate := (metaslab_group_passivate zfs_mg_noalloc_threshold zfs_mg_fragmentation_threshold).

(** The update of a group in the heap, its links and counter apart. *)
Lemma alloc_update_ok h mc x mg mg1 :
  class_ok h mc -> h !! x = Some mg -> mg_initialized mg1 = mg_initialized mg ->
  mg_allocatable mg1 = mg_allocatable mg ->
  let '(mg', mc') := alloc_update mg1 mc in
  class_ok (<[x := mg']> h) mc' /\ mc_rotor mc' = mc_rotor mc /\
  mg_prev mg' = mg_prev mg1 /\ mg_next mg' = mg_next mg1 /\
  mg_initialized mg' = metaslab_group_initialized mg1 /\
  (mg_activation_count mg1 <= 0 -> mg_allocatable mg' = false) /\
  mg_activation_count mg' = mg_activation_count mg1 /\ mg_aliquot mg' = mg_aliquot mg1.
Proof.
  intros (Hg & Ha & Hsz) Hx Hi Hal. unfold metaslab_group_alloc_update. cbv zeta. rewrite Hi, Hal.
  set (init := metaslab_group_initialized mg1). set (allocatable := (_ && _ && _)%bool).
  set (mg' := set_mg_state _ _ _ _ _). split_and!; try done.
  - pose proof (count_insert mg_initialized h x mg mg' Hx) as H1.
    pose proof (count_insert mg_allocatable h x mg mg' Hx) as H2.
    pose proof (count_size mg_initialized (<[x := mg']> h)). pose proof (count_size mg_allocatable (<[x := mg']> h)).
    assert (Hsz' : size (<[x := mg']> h) = size h) by (by rewrite map_size_insert, Hx).
    unfold class_ok. simpl. simpl in H1, H2. rewrite Hsz' in *. rewrite Hg, Ha.
    repeat split; [| |done]; destruct (mg_initialized mg), (mg_allocatable mg), init, allocatable;
      simpl in *; rewrite ?wrap64_small by (unfold is_u64; lia); lia.
  - intros Hc. simpl. unfold allocatable. by rewrite (proj2 (Z.ltb_ge _ _)).
Qed.

(** The list after [x] is linked in. *)
Definition rotor_insert (x : Z) (l : list Z) : list Z :=
  x :: match l with [] => [] | r :: l' => l' ++ [r] end.

(** A group but for its links. *)
Definition unlinked (mg : metaslab_group) : metaslab_group := set_mg_next None (set_mg_prev None mg).

Lemma unlinked_prev h p k y : unlinked <$> alter (set_mg_prev p) k h !! y = unlinked <$> (h : heap) !! y.
Proof. destruct (decide (k = y)) as [->|Hne]; [rewrite lookup_alter_eq; by destruct (h !! y)|by rewrite lookup_alter_ne]. Qed.

Lemma unlinked_next h p k y : unlinked <$> alter (set_mg_next p) k h !! y = unlinked <$> (h : heap) !! y.
Proof. destruct (decide (k = y)) as [->|Hne]; [rewrite lookup_alter_eq; by destruct (h !! y)|by rewrite lookup_alter_ne]. Qed.

(** What linking leaves of the group stored at [x] and of the others. *)
Lemma activated_groups (h h' : heap) x mg1 : (forall y, unlinked <$> h' !! y = unlinked <$> (<[x := mg1]> h) !! y) ->
  (exists mg', h' !! x = Some mg' /\ unlinked mg' = unlinked mg1) /\ forall y, y <> x -> unlinked <$> h' !! y = unlinked <$> h !! y.
Proof.
  intros H. split.
  - specialize (H x). rewrite lookup_insert_eq in H. destruct (h' !! x) as [mg'|]; [|done]. exists mg'. split; [done|]. apply (inj Some). exact H.
  - intros y Hy. by rewrite H, lookup_insert_ne.
Qed.

(** C36: [metaslab_group_activate] raises the group's count by one.  While the count
    is not positive, nothing else changes.  A group whose count becomes positive gets
    its share of a rotation and is linked in as the rotor, after the old rotor and
    before its successor, so that the old order follows it.  The list stays a ring,
    the class counts its initialised and its allocatable groups, and of the other
    groups nothing but links changes. *)
Theorem metaslab_group_activate_correct h mc l x mg :
  ring h (mc_rotor mc) l -> class_ok h mc -> h !! x = Some mg -> x ∉ l ->
  exists h' mc' mg', activate h mc x = Ok (h', mc') /\ class_ok h' mc' /\
    ring h' (mc_rotor mc') (if mg_activation_count mg <? 0 then l else rotor_insert x l) /\
    h' !! x = Some mg' /\ mg_activation_count mg' = mg_activation_count mg + 1 /\
    (if mg_activation_count mg <? 0 then h' = <[x := set_mg_activation_count mg (mg_activation_count mg + 1)]> h /\ mc' = mc
     else mg_aliquot mg' = wrap64 (metaslab_aliquot * Z.max 1 (vdev_children (mg_vd mg)))) /\
    forall y, y <> x -> unlinked <$> h' !! y = unlinked <$> h !! y.
Proof.
  intros Hr Hok Hx Hni. unfold metaslab_group_activate. rewrite Hx. cbn [deref mbind res_bind].
  set (mg1 := set_mg_activation_count mg (mg_activation_count mg + 1)).
  destruct (Z.leb_spec (mg_activation_count mg1) 0) as [Hle|Hgt]; simpl in Hle || simpl in Hgt.
  - rewrite (proj2 (Z.ltb_lt _ _)) by lia. eexists _, _, mg1. split; [done|]. split; [|split; [by eapply ring_insert|]].
    + destruct Hok as (H1 & H2 & H3). unfold class_ok. rewrite map_size_insert, Hx.
      pose proof (count_insert mg_initialized h x mg mg1 Hx). pose proof (count_insert mg_allocatable h x mg mg1 Hx).
      simpl in *. repeat split; lia || done.
    + split_and!; [apply lookup_insert_eq|done|done|done|]. intros y Hy. by rewrite lookup_insert_ne.
  - rewrite (proj2 (Z.ltb_ge _ _)) by lia. set (mg2 := set_mg_aliquot mg1 _).
    pose proof (alloc_update_ok h mc x mg mg2 Hok Hx eq_refl eq_refl) as Hu.
    destruct (alloc_update mg2 mc) as [mg3 mc3].
    destruct Hu as (Hok' & Hrot & Hp & Hn & _ & _ & Hcnt & Hali). set (h1 := <[x := mg3]> h) in *.
    assert (Hr1 : ring h1 (mc_rotor mc) l) by (by eapply ring_insert).
    assert (Hx1 : h1 !! x = Some mg3) by apply lookup_insert_eq.
    assert (Hdone : forall h' mc', (forall y, unlinked <$> h' !! y = unlinked <$> h1 !! y) -> class_ok h' mc' /\ ring h' (mc_rotor mc') (rotor_insert x l) ->
      exists h'' mc'' mg', Ok (h', mc') = Ok (h'', mc'') /\ class_ok h'' mc'' /\ ring h'' (mc_rotor mc'') (rotor_insert x l) /\ h'' !! x = Some mg' /\
        mg_activation_count mg' = mg_activation_count mg + 1 /\ mg_aliquot mg' = wrap64 (metaslab_aliquot * Z.max 1 (vdev_children (mg_vd mg))) /\
        forall y, y <> x -> unlinked <$> h'' !! y = unlinked <$> h !! y).
    { intros h' mc' Hu [Hc Hring]. destruct (activated_groups h h' x mg3 Hu) as [(mg' & Hx' & Eu) Ho]. exists h', mc', mg'.
      split_and!; try done; [by rewrite (f_equal mg_activation_count Eu : mg_activation_count mg' = mg_activation_count mg3), Hcnt|by rewrite (f_equal mg_aliquot Eu : mg_aliquot mg' = mg_aliquot mg3), Hali]. }
    rewrite Hrot. destruct Hr1 as (Hnd & Hhd & Hc). rewrite Hhd. destruct l as [|r l]; simpl.
    + apply Hdone; [intros y; by rewrite unlinked_next, unlinked_prev|]. split; [auto with zfs|]. split; [apply NoDup_singleton|]. split; [done|].
      assert (Hs : is_Some (h1 !! x)) by by rewrite Hx1.
      split; [|done]. split.
      * rewrite alter_set_next by by rewrite alter_some. by rewrite decide_True.
      * rewrite alter_prev by done. rewrite alter_set_prev by done. by rewrite decide_True.
    + assert (Hl : exists next, head (l ++ [r]) = Some next /\ linked h1 r next).
      { destruct l as [|c l]; simpl in *; destruct Hc as [Hl _]; eauto. }
      destruct Hl as (next & Hhd' & [Hl1 _]). destruct (h1 !! r) as [mgr|] eqn:Er; [|done].
      simpl in *. injection Hl1 as Hl1. rewrite Hl1. simpl.
      apply Hdone; [intros y; by rewrite unlinked_prev, unlinked_next, unlinked_next, unlinked_prev|]. split; [auto 10 with zfs|].
      apply (ring_link h1 r l x next); [done|done|by rewrite Hx1|done].
Qed.

(** [metaslab_group_passivate] of a group of the ring lowers its count; at
    zero the group is taken out of the ring, the rotor moves to its successor,
    and the group is neither initialised nor allocatable any more, which the
    counts of the class record. *)
Theorem metaslab_group_passivate_correct h mc l1 x l2 mg :
  ring h (mc_rotor mc) (l1 ++ x :: l2) -> class_ok h mc -> h !! x = Some mg ->
  mg_activation_count mg = 1 ->
  exists h' mc' mg', passivate h mc x = Ok (h', mc') /\ class_ok h' mc' /\
    ring h' (mc_rotor mc') (l2 ++ l1) /\
    h' !! x = Some mg' /\ mg_prev mg' = None /\ mg_next mg' = None /\
    mg_initialized mg' = false /\ mg_allocatable mg' = false.
Proof.
  intros Hr Hok Hx Hone. unfold metaslab_group_passivate. rewrite Hx. cbn [deref mbind res_bind].
  set (mg1 := set_mg_activation_count mg (mg_activation_count mg - 1)).
  replace (mg_activation_count mg1 =? 0) with true by (simpl; rewrite Hone; done).
  pose proof (alloc_update_ok h mc x mg mg1 Hok Hx eq_refl eq_refl) as Hu. cbn [negb].
  destruct (alloc_update mg1 mc) as [mg' mc'].
  destruct Hu as (Hok' & Hrot & Hp & Hn & Hi & Ha). set (h1 := <[x := mg']> h) in *.
  assert (Hx1 : h1 !! x = Some mg') by apply lookup_insert_eq.
  assert (Hr1 : ring h1 (Some x) (x :: l2 ++ l1)) by (by eapply ring_rotate, ring_insert).
  assert (Hi' : mg_initialized mg' = false).
  { rewrite Hi. unfold metaslab_group_initialized. simpl. rewrite Hone. by rewrite andb_false_r. }
  assert (Ha' : mg_allocatable mg' = false) by (apply Ha; simpl; lia).
  destruct (decide (l2 ++ l1 = [])) as [Em|Hm].
  - rewrite Em in *. destruct Hr1 as (_ & _ & [[H1 H2] _]). rewrite Hx1 in H1, H2.
    simpl in H1, H2. injection H1 as H1. injection H2 as H2. rewrite H1, H2. simpl. rewrite Z.eqb_refl.
    eexists _, _, (set_mg_next None (set_mg_prev None mg')). split; [done|]. split; [auto 10 with zfs|].
    split; [by split; [apply NoDup_nil|]|]. split; [|done].
    by rewrite lookup_alter_eq, lookup_alter_eq, Hx1.
  - assert (exists next, head (l2 ++ l1) = Some next) as [next Hhd] by (destruct (l2 ++ l1); simpl; eauto; done).
    destruct (last (l2 ++ l1)) as [prev|] eqn:Hl; [|by apply last_None in Hl].
    assert (Hne : x <> next /\ x <> prev).
    { destruct Hr1 as (Hnd & _). apply NoDup_cons in Hnd as [Hnd _].
      split; intros ->; apply Hnd; [by apply head_Some_elem_of|by apply last_Some_elem_of]. }
    assert (Hlinks : mg_next mg' = Some next /\ mg_prev mg' = Some prev).
    { pose proof Hr1 as (_ & _ & Hc). pose proof Hl as [m0 E0]%last_Some.
      destruct (l2 ++ l1) as [|c m]; [done|]. injection Hhd as ->. split.
      - destruct Hc as [[H1 _] _]. rewrite Hx1 in H1. by injection H1.
      - assert (Hc' : chain h1 ((x :: m0) ++ prev :: [x])).
        { assert (E : (x :: m0) ++ prev :: [x] = (x :: m0 ++ [prev]) ++ [x]) by (simpl; by rewrite <- app_assoc).
          rewrite E, <- E0. exact Hc. }
        apply chain_app in Hc' as [_ [[_ H2] _]]. rewrite Hx1 in H2. by injection H2. }
    destruct Hlinks as [En Ep]. rewrite En, Ep. simpl. rewrite (proj2 (Z.eqb_neq _ _)) by apply Hne.
    eexists _, _, (set_mg_next None (set_mg_prev None mg')). split; [done|]. split; [auto 10 with zfs|].
    split; [by apply ring_unlink|]. split; [|done].
    rewrite lookup_alter_eq, lookup_alter_eq, !lookup_alter_ne by (symmetry; apply Hne). by rewrite Hx1.
Qed.

End Rotor.

(** ** Histograms as sums *)

(** What a list of values shifted by [i] adds to bucket [j]. *)
Definition shifted (i : nat) (vals : list Z) (j : nat) : Z :=
  if decide (i <= j)%nat then nth (j - i) vals 0 else 0.

Lemma shifted_cons i v vals j :
  shifted i (v :: vals) j = (if decide (i = j) then v else 0) + shifted (S i) vals j.
Proof.
  unfold shifted. repeat case_decide; subst; try lia.
  - rewrite Nat.sub_diag. simpl. lia.
  - replace (j - i)%nat with (S (j - S i)) by lia. simpl. lia.
Qed.

Lemma hist_apply_u64 op i vals h : Forall is_u64 h -> Forall is_u64 (hist_apply op i vals h).
Proof.
  revert i h. induction vals as [|v vals IH]; intros i h Hh; [done|]. simpl. apply IH.
  apply Forall_lookup. intros j x Hj. rewrite list_lookup_alter in Hj. case_decide; [|by eapply Forall_lookup_1].
  destruct (h !! i); simpl in Hj; [|done]. injection Hj as <-. apply wrap64_range.
Qed.

Lemma hist_apply_lookup op i vals h j :
  (forall x a b, op (op x a) b = op x (a + b)) -> (forall x, op x 0 = x) ->
  (forall x y, wrap64 (op (wrap64 x) y) = wrap64 (op x y)) -> Forall is_u64 h ->
  hist_apply op i vals h !! j = (fun x => wrap64 (op x (shifted i vals j))) <$> h !! j.
Proof.
  intros Hop Hz Hw. revert i h. induction vals as [|v vals IH]; intros i h Hh.
  - simpl. unfold shifted. destruct (h !! j) as [x|] eqn:E; [|done]. simpl.
    destruct (decide _); [destruct (j - i)%nat|]; rewrite Hz, wrap64_small; auto; by eapply Forall_lookup_1.
  - change (hist_apply op i (v :: vals) h) with (hist_apply op (S i) vals (alter (fun x => wrap64 (op x v)) i h)).
    rewrite IH by (apply (hist_apply_u64 op i [v] h Hh)). rewrite shifted_cons.
    destruct (decide (i = j)) as [->|Hne].
    + rewrite list_lookup_alter_eq. destruct (h !! j); [|done]. simpl. f_equal. by rewrite Hw, Hop.
    + rewrite list_lookup_alter_ne by done. by rewrite Z.add_0_l.
Qed.

Lemma hist_add_lookup i vals h j : Forall is_u64 h ->
  hist_apply Z.add i vals h !! j = (fun x => wrap64 (x + shifted i vals j)) <$> h !! j.
Proof. apply hist_apply_lookup; intros; [lia..|]. apply wrap64_add_l. Qed.

Lemma hist_sub_lookup i vals h j : Forall is_u64 h ->
  hist_apply Z.sub i vals h !! j = (fun x => wrap64 (x - shifted i vals j)) <$> h !! j.
Proof. apply hist_apply_lookup; intros; [lia..|]. apply wrap64_sub_l. Qed.

(** What a metaslab contributes to bucket [j] of its group. *)
Definition contrib (ashift : nat) (j : nat) (msp : metaslab) : Z :=
  match ms_sm msp with
  | None => 0
  | Some sm => shifted ashift (take SPACE_MAP_HISTOGRAM_SIZE (smp_histogram (sm_phys sm))) j
  end.

Lemma group_hist_lookup ashift mss h j : Forall is_u64 h ->
  group_hist ashift mss h !! j = (fun x => wrap64 (x + zsum (contrib ashift j) mss)) <$> h !! j.
Proof.
  revert h. induction mss as [|msp mss IH]; intros h Hh; simpl.
  - destruct (h !! j) as [x|] eqn:E; [|done]. simpl. rewrite Z.add_0_r, wrap64_small; [done|].
    by eapply Forall_lookup_1.
  - unfold contrib at 1. destruct (ms_sm msp) as [sm|]; simpl; rewrite IH by auto using hist_apply_u64; [|done].
    rewrite hist_add_lookup by done. destruct (h !! j); simpl; [|done].
    by rewrite wrap64_add_l, Z.add_assoc.
Qed.

Definition group_contrib (j : nat) (mg : metaslab_group) : Z :=
  if skipped mg then 0 else shifted 0 (mg_histogram mg) j.

Lemma class_hist_lookup mgs h j : Forall is_u64 h ->
  class_hist mgs h !! j = (fun x => wrap64 (x + zsum (group_contrib j) mgs)) <$> h !! j.
Proof.
  revert h. induction mgs as [|mg mgs IH]; intros h Hh; simpl.
  - destruct (h !! j) as [x|] eqn:E; [|done]. simpl. rewrite Z.add_0_r, wrap64_small; [done|].
    by eapply Forall_lookup_1.
  - unfold group_contrib at 1. destruct (skipped mg); rewrite IH by auto using hist_apply_u64; [done|].
    rewrite hist_add_lookup by done. destruct (h !! j); simpl; [|done].
    by rewrite wrap64_add_l, Z.add_assoc.
Qed.

Abbreviation zeros := (replicate RANGE_TREE_HISTOGRAM_SIZE 0).

Lemma zeros_u64 : Forall is_u64 zeros.
Proof. apply Forall_replicate. unfold is_u64. lia. Qed.

Lemma group_verify_ok mss mg :
  metaslab_group_histogram_verify true mss mg = Ok tt <->
  forall j, mg_histogram mg !! j =
    (fun x => wrap64 (x + zsum (contrib (Z.to_nat (vdev_ashift (mg_vd mg))) j) mss)) <$> zeros !! j.
Proof.
  unfold metaslab_group_histogram_verify. simpl negb. cbv iota. split.
  - intros H j. case_bool_decide as E; [|done]. rewrite <- E. apply group_hist_lookup, zeros_u64.
  - intros H. rewrite bool_decide_true; [done|]. apply list_eq. intros j.
    rewrite H. apply group_hist_lookup, zeros_u64.
Qed.

Lemma class_verify_ok mgs mc :
  metaslab_class_histogram_verify true mgs mc = Ok tt <->
  forall j, mc_histogram mc !! j = (fun x => wrap64 (x + zsum (group_contrib j) mgs)) <$> zeros !! j.
Proof.
  unfold metaslab_class_histogram_verify. simpl negb. cbv iota. split.
  - intros H j. case_bool_decide as E; [|done]. rewrite <- E. apply class_hist_lookup, zeros_u64.
  - intros H. rewrite bool_decide_true; [done|]. apply list_eq. intros j.
    rewrite H. apply class_hist_lookup, zeros_u64.
Qed.

Lemma hist_sum_u64 h (f : nat -> Z) :
  (forall j, h !! j = (fun x => wrap64 (x + f j)) <$> zeros !! j) -> Forall is_u64 h.
Proof.
  intros H. apply Forall_lookup. intros j x. rewrite H. destruct (zeros !! j); simpl; [|done].
  intros [= <-]. apply wrap64_range.
Qed.

(** Taking a metaslab's histogram out and putting its new one in. *)
Lemma hist_replace ashift h f msp msp' :
  (forall j, h !! j = (fun x => wrap64 (x + f j)) <$> zeros !! j) ->
  let out h := match ms_sm msp with None => h | Some sm =>
    hist_apply Z.sub ashift (take SPACE_MAP_HISTOGRAM_SIZE (smp_histogram (sm_phys sm))) h end in
  let into h := match ms_sm msp' with None => h | Some sm =>
    hist_apply Z.add ashift (take SPACE_MAP_HISTOGRAM_SIZE (smp_histogram (sm_phys sm))) h end in
  forall j, into (out h) !! j =
    (fun x => wrap64 (x + (f j - contrib ashift j msp + contrib ashift j msp'))) <$> zeros !! j.
Proof.
  intros Hh out into j. pose proof (hist_sum_u64 h f Hh) as Hu.
  assert (H1 : Forall is_u64 (out h) /\
    out h !! j = (fun x => wrap64 (x + (f j - contrib ashift j msp))) <$> zeros !! j).
  { unfold out, contrib. destruct (ms_sm msp); [|by rewrite Hh, Z.sub_0_r].
    split; [by apply hist_apply_u64|]. rewrite hist_sub_lookup, Hh by done.
    destruct (zeros !! j); simpl; [|done]. rewrite wrap64_sub_l. do 2 f_equal. lia. }
  destruct H1 as [Hu1 H1]. unfold into, contrib at 2. destruct (ms_sm msp'); [|by rewrite H1, Z.add_0_r].
  rewrite hist_add_lookup, H1 by done. destruct (zeros !! j); simpl; [|done].
  rewrite wrap64_add_l. do 2 f_equal. lia.
Qed.

(** When the group and class histograms are those the debug checks recount,
    taking a metaslab's space map histogram out, changing the metaslab and
    putting its new histogram in (as [metaslab_sync] does) leaves histograms
    that the checks accept again, for the group and for the class. *)
Theorem metaslab_group_histogram_correct mss mgs mg mc k i msp msp' :
  metaslab_group_histogram_verify true mss mg = Ok tt ->
  metaslab_class_histogram_verify true mgs mc = Ok tt ->
  mgs !! k = Some mg -> skipped mg = false -> mss !! i = Some msp ->
  let '(mg1, mc1) := metaslab_group_histogram_remove mg mc msp in
  let '(mg2, mc2) := metaslab_group_histogram_add mg1 mc1 msp' in
  metaslab_group_histogram_verify true (<[i := msp']> mss) mg2 = Ok tt /\
  metaslab_class_histogram_verify true (<[k := mg2]> mgs) mc2 = Ok tt.
Proof.
  rewrite group_verify_ok, class_verify_ok. intros Hg Hc Hk Hskip Hi.
  set (ash := Z.to_nat (vdev_ashift (mg_vd mg))) in *.
  pose proof (hist_replace ash (mg_histogram mg) _ msp msp' Hg) as Hg'. cbv zeta in Hg'.
  pose proof (hist_replace ash (mc_histogram mc) _ msp msp' Hc) as Hc'. cbv zeta in Hc'.
  assert (Heq : forall mg2 mc2,
    vdev_ashift (mg_vd mg2) = vdev_ashift (mg_vd mg) -> skipped mg2 = false ->
    (forall j, mg_histogram mg2 !! j = (fun x => wrap64 (x + (zsum (contrib ash j) mss - contrib ash j msp + contrib ash j msp'))) <$> zeros !! j) ->
    (forall j, mc_histogram mc2 !! j = (fun x => wrap64 (x + (zsum (group_contrib j) mgs - contrib ash j msp + contrib ash j msp'))) <$> zeros !! j) ->
    metaslab_group_histogram_verify true (<[i := msp']> mss) mg2 = Ok tt /\
    metaslab_class_histogram_verify true (<[k := mg2]> mgs) mc2 = Ok tt).
  { intros mg2 mc2 Ea Es H1 H2. rewrite group_verify_ok, class_verify_ok. split; intros j.
    - rewrite H1, Ea, (zsum_insert _ _ _ msp) by done. done.
    - rewrite H2, (zsum_insert _ _ _ mg) by done. unfold group_contrib at 3 4. rewrite Es, Hskip.
      unfold shifted. rewrite decide_True, Nat.sub_0_r, !nth_lookup, H1, Hg by lia.
      destruct (zeros !! j) as [x|] eqn:Ez; [|done]. simpl. f_equal.
      apply lookup_replicate in Ez as [-> _]. rewrite !Z.add_0_l.
      unfold wrap64. rewrite Zplus_mod_idemp_r.
      rewrite <- (Zplus_mod_idemp_l (_ - _ mod _)), Zminus_mod_idemp_r, Zplus_mod_idemp_l. f_equal. lia. }
  unfold metaslab_group_histogram_remove, metaslab_group_histogram_add. fold ash.
  destruct (ms_sm msp) as [sm|], (ms_sm msp') as [sm'|]; apply Heq; auto.
Qed.

(** ** Fragmentation of a group *)

Definition valid_frag (msp : metaslab) : bool := negb (ms_fragmentation msp =? ZFS_FRAG_INVALID).

Lemma group_frag_loop_spec mss v f :
  Forall (fun msp => valid_frag msp = true -> 0 <= ms_fragmentation msp <= 100) mss ->
  0 <= v -> 0 <= f -> v + Z.of_nat (length mss) < 2 ^ 32 -> f + 100 * Z.of_nat (length mss) < 2 ^ 40 ->
  let valid := filter (fun msp => valid_frag msp = true) mss in
  group_frag_loop mss v f = (v + Z.of_nat (length valid), f + zsum ms_fragmentation valid) /\
  0 <= zsum ms_fragmentation valid <= 100 * Z.of_nat (length valid).
Proof.
  revert v f. induction mss as [|msp mss IH]; intros v f Hall Hv Hf Hlen Hsum; simpl in *.
  { rewrite !Z.add_0_r. split; [done|lia]. }
  apply Forall_cons in Hall as [Hm Hall]. rewrite filter_cons.
  replace (ms_fragmentation msp =? ZFS_FRAG_INVALID) with (negb (valid_frag msp)) by apply negb_involutive.
  destruct (valid_frag msp); simpl; [|apply IH; auto; lia].
  - specialize (Hm eq_refl). rewrite !wrap64_small by (unfold is_u64; lia).
    destruct (IH (v + 1) (f + ms_fragmentation msp)) as [-> Hb]; auto; try lia.
    simpl. split; [f_equal; lia|lia].
Qed.

(** The fragmentation of a group is the average over its metaslabs that
    have a metric, a number between 0 and 100, when more than half of them have
    one; otherwise it is [ZFS_FRAG_INVALID]. *)
Theorem metaslab_group_fragmentation_correct mss mg :
  Forall (fun msp => valid_frag msp = true -> 0 <= ms_fragmentation msp <= 100) mss ->
  vdev_ms_count (mg_vd mg) = Z.of_nat (length mss) -> Z.of_nat (length mss) < 2 ^ 32 ->
  let valid := filter (fun msp => valid_frag msp = true) mss in
  let n := Z.of_nat (length valid) in
  (2 * n <= Z.of_nat (length mss) -> metaslab_group_fragmentation mss mg = ZFS_FRAG_INVALID) /\
  (Z.of_nat (length mss) < 2 * n ->
     metaslab_group_fragmentation mss mg = zsum ms_fragmentation valid / n /\
     0 <= metaslab_group_fragmentation mss mg <= 100).
Proof.
  intros Hall Hc Hlen valid n.
  destruct (group_frag_loop_spec mss 0 0 Hall) as [E Hb]; try lia. fold valid n in E, Hb.
  unfold metaslab_group_fragmentation. rewrite E, Hc, !Z.add_0_l. split; intros Hn.
  - rewrite (proj2 (Z.leb_le _ _)); [done|]. apply Z.div_le_lower_bound; lia.
  - rewrite (proj2 (Z.leb_gt _ _)) by (apply Z.div_lt_upper_bound; lia). split; [done|]. split.
    + apply Z.div_pos; lia.
    + apply Z.div_le_upper_bound; lia.
Qed.

(** ** Skipping a group *)

(** The group has room in its queue and free space. *)
Definition can_take (h : heap) (i : Z) : bool :=
  match h !! i with
  | Some g => (mg_alloc_queue_depth g <? mg_max_alloc_queue_depth g) && negb (mg_no_free_space g)
  | None => false
  end.

Lemma other_group_spec fuel h a l rotor :
  chain h (a :: l ++ [rotor]) -> rotor ∉ l -> (length l <= fuel)%nat ->
  exists next, mg_next <$> h !! a = Some (Some next) /\
    other_group fuel h next rotor = Ok (existsb (can_take h) l).
Proof.
  revert fuel a. induction l as [|b l IH]; intros fuel a Hc Hr Hf; simpl in Hc; destruct Hc as [[Hn _] Hc].
  - exists rotor. split; [done|]. destruct fuel; simpl; by rewrite Z.eqb_refl.
  - exists b. split; [done|]. destruct fuel as [|fuel]; [simpl in Hf; lia|]. simpl in Hf |- *.
    rewrite (proj2 (Z.eqb_neq _ _)) by set_solver.
    destruct (IH fuel b Hc ltac:(set_solver) ltac:(lia)) as (next & Hn' & E). unfold can_take at 1.
    destruct (h !! b) as [g|] eqn:Eb; [|done]. simpl in Hn' |- *. injection Hn' as ->. simpl.
    destruct (_ && _)%bool; simpl; [done|]. apply E.
Qed.

(** [metaslab_group_allocatable] always answers (its walk of the ring ends at
    the rotor and follows no null link), and it skips a group exactly when the
    class is the normal one with several groups and either the group is over its
    thresholds while some group is not and the block is not of the smallest size,
    or the throttle is on and the group is out of space or at its queue limit
    while a group further on in the ring can take the block. *)
Theorem metaslab_group_allocatable_correct normal h mc l1 id l2 rotor psize mg :
  ring h (Some rotor) (l1 ++ id :: l2) -> h !! id = Some mg ->
  exists b, metaslab_group_allocatable normal h mc id rotor psize = Ok b /\
    (b = false <-> normal = true /\ 1 < mc_groups mc /\
      ((mg_allocatable mg = false /\ mc_alloc_groups mc <> 0 /\ psize <> SPA_MINBLOCKSIZE) \/
       (mg_allocatable mg = true /\ mc_alloc_throttle_enabled mc = true /\
        (mg_no_free_space mg = true \/
         mg_max_alloc_queue_depth mg <= mg_alloc_queue_depth mg /\ mc_alloc_groups mc <> 1 /\
         exists g, g ∈ l2 /\ can_take h g = true)))).
Proof.
  intros Hr Hid. pose proof Hr as (Hnd & Hhd & Hc).
  assert (Hl : rotor ∉ l2 /\ chain h (id :: l2 ++ [rotor])).
  { destruct l1 as [|a l1]; injection Hhd as ->; [split; [by apply NoDup_cons in Hnd as [? _]|done]|].
    split; [apply NoDup_cons in Hnd as [Hnd _]; set_solver|].
    assert (Hc' : chain h ((a :: l1) ++ id :: l2 ++ [a])).
    { assert (E : (a :: l1) ++ id :: l2 ++ [a] = ((a :: l1) ++ id :: l2) ++ [a]) by (by rewrite <- app_assoc).
      rewrite E. exact Hc. }
    by apply chain_app in Hc' as [_ ?]. }
  destruct Hl as [Hr2 Hc2].
  assert (Hlen : (length l2 <= size h)%nat).
  { transitivity (length (l1 ++ id :: l2)); [rewrite length_app; simpl; lia|].
    rewrite <- (size_list_to_set (C := gset Z)) by done. rewrite <- size_dom.
    apply subseteq_size. intros x Hx. apply elem_of_list_to_set in Hx. apply elem_of_dom.
    by eapply ring_some. }
  destruct (other_group_spec (size h) h id l2 rotor Hc2 Hr2 Hlen) as (next & Hn & Eo).
  rewrite Hid in Hn. injection Hn as Hn. unfold metaslab_group_allocatable. rewrite Hid.
  cbn [deref mbind res_bind]. rewrite Hn. cbn [deref mbind res_bind]. rewrite Eo. cbn [mbind res_bind].
  assert (Hex : existsb (can_take h) l2 = true <-> exists g, g ∈ l2 /\ can_take h g = true).
  { rewrite existsb_exists. setoid_rewrite list_elem_of_In. done. }
  destruct normal; simpl; [|exists true; naive_solver].
  destruct (Z.leb_spec (mc_groups mc) 1); [exists true; split; [done|]; naive_solver lia|].
  destruct (mg_allocatable mg); [destruct (mc_alloc_throttle_enabled mc); simpl|].
  - destruct (mg_no_free_space mg); [exists false; naive_solver|].
    destruct (Z.ltb_spec (mg_alloc_queue_depth mg) (mg_max_alloc_queue_depth mg));
      [exists true; split; [done|]; naive_solver lia|]. simpl.
    destruct (Z.eqb_spec (mc_alloc_groups mc) 1); [exists true; naive_solver|].
    exists (negb (existsb (can_take h) l2)). split; [done|]. rewrite negb_false_iff, Hex. naive_solver.
  - exists true. naive_solver.
  - eexists. split; [done|]. rewrite orb_false_iff, !Z.eqb_neq. naive_solver.
Qed.

(** ** Witnesses *)

Module Example.

Definition vdev1 : vdev := Vdev (VdevStat 0 1048576 1048576) 1 20 1 9 1048576 1048576 false 512.
Definition mg_of (n p : option Z) (c : Z) : metaslab_group :=
  MetaslabGroup avl_create 0 false false 0 c vdev1 p n 10 10 false 0 zeros.
Definition mc1 (r : option Z) : metaslab_class := MetaslabClass r 0 true 0 0 0 0 0 zeros.
(** Two active groups in the ring, and a third one. *)
Definition heap3 : heap := <[1 := mg_of (Some 2) (Some 2) 1]> (<[2 := mg_of (Some 1) (Some 1) 1]>
  (<[3 := mg_of None None 0]> ∅)).

Lemma ring3 : ring heap3 (Some 1) [1; 2].
Proof. split; [by apply (bool_decide_unpack _); vm_compute|]. by repeat split. Qed.

Lemma class3 : class_ok heap3 (mc1 (Some 1)).
Proof. by repeat split. Qed.

Definition mt1 : avl_tree ms_ref := AvlTree (Node 0 Leaf (MsRef 7 0) Leaf) 1.

Lemma mt1_ok : mg_tree_ok mt1.
Proof.
  split; [split; [by repeat split|]|].
  - apply NoDup_singleton.
  - repeat constructor.
Qed.

Definition msp1 : metaslab := set_ms_weight Metaslab.Example.ms1 7.
Definition mg1 : metaslab_group := set_mg_tree (mg_of None None 0) mt1.

Lemma metaslab_group_sort_correct_witness :
  exists mg' rest, metaslab_group_sort mg1 msp1 9 = Ok (mg', set_ms_weight msp1 9) /\
    avl_elements (mg_metaslab_tree mg') ≡ₚ MsRef 9 0 :: rest.
Proof.
  destruct (metaslab_group_sort_correct mg1 msp1 9 mt1_ok ltac:(left)) as (mg' & rest & H1 & _ & _ & H2 & _).
  exists mg', rest. split; [exact H1|exact H2].
Defined.

Lemma metaslab_group_add_remove_witness :
  exists mg' mc', metaslab_group_add (mg_of None None 0) (mc1 None) msp1 = Ok (mg', mc', set_ms_weight msp1 0).
Proof.
  destruct (metaslab_group_add_remove (mg_of None None 0) (mc1 None) msp1) as (mg' & mc' & _ & _ & H & _).
  - split; [split; [by repeat split|apply NoDup_nil_2]|constructor].
  - apply not_elem_of_nil.
  - exists mg', mc'. exact H.
Defined.

Lemma metaslab_group_activate_correct_witness :
  exists h' mc', metaslab_group_activate 512 0 85 heap3 (mc1 (Some 1)) 3 = Ok (h', mc') /\
    ring h' (mc_rotor mc') [3; 2; 1] /\ mg_activation_count <$> h' !! 3 = Some 1.
Proof.
  destruct (metaslab_group_activate_correct 512 0 85 heap3 (mc1 (Some 1)) [1; 2] 3 (mg_of None None 0))
    as (h' & mc' & mg' & H1 & _ & H2 & H3 & H4 & _); [apply ring3|apply class3|reflexivity|set_solver|].
  exists h', mc'. split; [exact H1|]. split; [exact H2|]. rewrite H3. simpl. by rewrite H4.
Defined.

Lemma metaslab_group_passivate_correct_witness :
  exists h' mc', metaslab_group_passivate 0 85 heap3 (mc1 (Some 1)) 1 = Ok (h', mc') /\
    ring h' (mc_rotor mc') [2].
Proof.
  destruct (metaslab_group_passivate_correct 0 85 heap3 (mc1 (Some 1)) [] 1 [2] (mg_of (Some 2) (Some 2) 1))
    as (h' & mc' & _ & H1 & _ & H2 & _); [apply ring3|apply class3|reflexivity|reflexivity|].
  exists h', mc'. split; [exact H1|exact H2].
Defined.

(** A metaslab whose space map gains a free range of the smallest size. *)
Definition sm_h (n : Z) : space_map :=
  set_phys MemDmu.sm1 (SpaceMapPhys 1 0 0 (<[0%nat := n]> (replicate SPACE_MAP_HISTOGRAM_SIZE 0))).
Definition msp_h (n : Z) : metaslab := set_ms_sm msp1 (Some (sm_h n)).
Definition mg_h (n : Z) : metaslab_group := set_mg_histogram mg1 (<[9%nat := n]> zeros).
Definition mc_h (n : Z) : metaslab_class := set_mc_histogram (mc1 None) (<[9%nat := n]> zeros).

Lemma metaslab_group_histogram_correct_witness :
  metaslab_group_histogram_verify true [msp_h 3] (mg_h 3) = Ok tt.
Proof.
  exact (proj1 (metaslab_group_histogram_correct [msp_h 2] [mg_h 2] (mg_h 2) (mc_h 2) 0 0 (msp_h 2) (msp_h 3)
    eq_refl eq_refl eq_refl eq_refl eq_refl)).
Defined.

Lemma metaslab_group_fragmentation_correct_witness :
  metaslab_group_fragmentation [set_ms_fragmentation msp1 60] mg1 = 60.
Proof.
  destruct (metaslab_group_fragmentation_correct [set_ms_fragmentation msp1 60] mg1) as [_ H];
    [constructor; [simpl; lia|constructor]|reflexivity|simpl; lia|].
  destruct H as [-> _]; [vm_compute; reflexivity|]. vm_compute. reflexivity.
Defined.

Lemma metaslab_group_allocatable_correct_witness :
  exists b, metaslab_group_allocatable true heap3 (mc1 (Some 1)) 1 1 512 = Ok b.
Proof.
  destruct (metaslab_group_allocatable_correct true heap3 (mc1 (Some 1)) [] 1 [2] 1 512
    (mg_of (Some 2) (Some 2) 1) ring3 eq_refl) as (b & H & _).
  exists b. exact H.
Defined.

End Example.
