(* ===== verification/MetaslabSync.v ===== *)
(** * The life of a block in a metaslab: [module/zfs/metaslab.c]

    Blocks move between the range trees of a metaslab: from the free tree to the
    tree of the transaction group that allocates them, from the freeing tree
    through the freed tree and the deferred trees back to the free tree, while
    [metaslab_sync] records allocations and frees in the space map and
    [metaslab_sync_done] ends the transaction group.  This file models these
    operations, each as one step; [MetaslabInv] proves what they maintain. *)

From S2P Require Import Prelude Bits Avl RangeTree SpaceMap Metaslab MetaslabWeight MetaslabGroup.

(** What the operations read of the pool and the tunables. *)
Record sync_env : Type := SyncEnv {
  sy_env : ms_env;
  sy_recover : bool;
  sy_space_map_blksz : Z;
  sy_ms_array : Z;
  sy_debug_metaslab_verify : bool;
  sy_unload_delay : Z;
  sy_debug_unload : bool;
  sy_slop_space : Z;
  sy_deflate_ratio : Z;
  sy_normal_class : bool
}.

(** The index of a transaction group in the per-group arrays. *)
Definition txg_idx (txg : Z) : nat := Z.to_nat (Z.land txg TXG_MASK).

(** An access to one of the trees of an array. *)
Definition tree_at (l : list rtree) (i : nat) : res rtree := deref (l !! i).

(** A range tree of the metaslab without callbacks. *)
Definition plain_tree : rtree := range_tree_create None (MsArg avl_create false).

(** [ms_condensing], which the callbacks of the free tree read. *)
Definition set_ms_condensing (msp : metaslab) (v : bool) : metaslab :=
  let rt := ms_tree msp in
  set_ms_tree msp (RangeTree (rt_root rt) (rt_space rt) (rt_ops rt)
    (MsArg (ms_size_tree (rt_arg rt)) v) (rt_histogram rt)).

Definition ms_is_condensing (msp : metaslab) : bool := ms_condensing (rt_arg (ms_tree msp)).

Section Operations.
Context {D : Type} `{!DmuOps D}.
Variable env : sync_env.
Implicit Types msp : metaslab.

Abbreviation recover := (sy_recover env).
Abbreviation ashift := (env_ashift (sy_env env)).

(** [range_tree_walk(t, range_tree_remove, dst)] for each tree. *)
Fixpoint walk_remove (ts : list rtree) (dst : rtree) : res rtree :=
  match ts with
  | [] => Ok dst
  | t :: ts' => dst ← range_tree_walk t (range_tree_remove recover) dst; walk_remove ts' dst
  end.

(** ** Checking the accounting *)

Fixpoint future_space (ts : list rtree) (txg : Z) (n : nat) : res Z :=
  match n with
  | O => Ok 0
  | S n' =>
      sum ← future_space ts txg n';
      t ← tree_at ts (txg_idx (txg + Z.of_nat n'));
      Ok (wrap64 (sum + range_tree_space t))
  end.

Definition metaslab_verify_space msp (txg : Z) : res unit :=
  if negb (sy_debug_metaslab_verify env) then Ok tt else
  match ms_sm msp with
  | None => Ok tt
  | Some sm =>
      if negb (txg =? env_syncing_txg (sy_env env)) || negb (ms_loaded msp) then Ok tt else
      let sm_free_space :=
        wrap64 (ms_size msp - space_map_allocated (Some sm) - space_map_alloc_delta (Some sm)) in
      allocated ← future_space (ms_alloctree msp) txg TXG_CONCURRENT_STATES;
      let msp_free_space :=
        wrap64 (range_tree_space (ms_tree msp) + allocated + ms_deferspace msp
          + range_tree_space (ms_freedtree msp)) in
      VERIFY (sm_free_space =? msp_free_space) ;; Ok tt
  end.

(** ** Loading *)

(** The error of the load, or 0. *)
Definition metaslab_load (d : D) msp : res (Z * metaslab) :=
  '(error, t) ←
    match ms_sm msp with
    | Some sm => space_map_load recover d sm (ms_tree msp) SM_FREE
    | None => t ← range_tree_add recover (ms_tree msp) (ms_start msp) (ms_size msp); Ok (0, t)
    end;
  let msp := set_ms_tree msp t in
  if error =? 0 then
    t ← walk_remove (take TXG_DEFER_SIZE (ms_defertree msp)) (ms_tree msp);
    let msp := set_ms_tree (set_ms_loaded msp true) t in
    Ok (error, set_ms_max_size msp (metaslab_block_maxsize msp))
  else Ok (error, msp).

Definition metaslab_unload msp : res metaslab :=
  '(t, _) ← range_tree_vacate (T := unit) (ms_tree msp) None tt;
  let msp := set_ms_tree msp t in
  let msp := set_ms_loaded msp false in
  let msp := set_ms_weight msp (Z.land (ms_weight msp) (Z.lxor METASLAB_ACTIVE_MASK (B64 - 1))) in
  Ok (set_ms_max_size msp 0).

(** The tree of the group holds the metaslab itself: it sees an assignment to
    [ms_weight] that leaves the metaslab where it is. *)
Definition mg_write (mg : metaslab_group) (old new : metaslab) : res metaslab_group :=
  t ← avl_write (mg_metaslab_tree mg) (ms_ref_of old) (ms_ref_of new);
  Ok (set_mg_tree mg t).

(** ** Allocating and freeing blocks *)

(** The allocator of the class, and the metaslab it leaves. *)
Variable msop_alloc : metaslab -> Z -> res (Z * metaslab).

(** The offset, the metaslab, and the transaction group the metaslab is marked
    dirty for. *)
Definition metaslab_block_alloc msp (size txg : Z) : res (Z * metaslab * option Z) :=
  VERIFY negb (ms_is_condensing msp) ;;
  '(start, msp) ← msop_alloc msp size;
  '(msp, dirty) ←
    (if start =? NO_OFFSET then Ok (msp, None) else
     VERIFY (P2PHASE start (Z.shiftl 1 ashift) =? 0) ;;
     VERIFY (P2PHASE size (Z.shiftl 1 ashift) =? 0) ;;
     VERIFY (wrap64 (range_tree_space (ms_tree msp) - size) <=? ms_size msp) ;;
     t ← range_tree_remove recover (ms_tree msp) start size;
     let msp := set_ms_tree msp t in
     alloctree ← tree_at (ms_alloctree msp) (txg_idx txg);
     let dirty := if range_tree_space alloctree =? 0 then Some txg else None in
     alloctree ← range_tree_add recover alloctree start size;
     let msp := set_ms_alloctree msp (<[txg_idx txg := alloctree]> (ms_alloctree msp)) in
     let msp := set_ms_alloc_txg msp txg in
     _ ← metaslab_verify_space msp txg;
     Ok (msp, dirty));
  Ok (start, set_ms_max_size msp (metaslab_block_maxsize msp), dirty).

(** The part of [metaslab_free_dva] under the lock of the metaslab. *)
Definition metaslab_free_block msp (offset size txg : Z) (now : bool) : res (metaslab * option Z) :=
  if now then
    alloctree ← tree_at (ms_alloctree msp) (txg_idx txg);
    alloctree ← range_tree_remove recover alloctree offset size;
    let msp := set_ms_alloctree msp (<[txg_idx txg := alloctree]> (ms_alloctree msp)) in
    VERIFY negb (ms_is_condensing msp) ;;
    VERIFY (ms_start msp <=? offset) ;;
    VERIFY (wrap64 (offset + size) <=? wrap64 (ms_start msp + ms_size msp)) ;;
    VERIFY (wrap64 (range_tree_space (ms_tree msp) + size) <=? ms_size msp) ;;
    VERIFY (P2PHASE offset (Z.shiftl 1 ashift) =? 0) ;;
    VERIFY (P2PHASE size (Z.shiftl 1 ashift) =? 0) ;;
    t ← range_tree_add recover (ms_tree msp) offset size;
    let msp := set_ms_tree msp t in
    Ok (set_ms_max_size msp (metaslab_block_maxsize msp), None)
  else
    VERIFY (txg =? env_syncing_txg (sy_env env)) ;;
    let dirty := if range_tree_space (ms_freeingtree msp) =? 0 then Some txg else None in
    t ← range_tree_add recover (ms_freeingtree msp) offset size;
    Ok (set_ms_freeingtree msp t, dirty).

(** ** Selecting a metaslab *)

(** The error of the load (0 when there is none), the group and the metaslab. *)
Definition metaslab_activate (d : D) (mg : metaslab_group) msp (activation_weight : Z)
    : res (Z * metaslab_group * metaslab) :=
  if Z.land (ms_weight msp) METASLAB_ACTIVE_MASK =? 0 then
    '(error, msp) ← (if ms_loaded msp then Ok (0, msp) else metaslab_load d msp);
    if negb (error =? 0) then
      '(mg, msp) ← metaslab_group_sort mg msp 0; Ok (error, mg, msp)
    else
      let msp := set_ms_activation_weight msp (ms_weight msp) in
      '(mg, msp) ← metaslab_group_sort mg msp (Z.lor (ms_weight msp) activation_weight);
      Ok (0, mg, msp)
  else Ok (0, mg, msp).

Definition metaslab_passivate (mg : metaslab_group) msp (weight : Z) : res (metaslab_group * metaslab) :=
  metaslab_group_sort mg (set_ms_activation_weight msp 0) weight.

Definition metaslab_segment_may_passivate (mg : metaslab_group) msp : res (metaslab_group * metaslab) :=
  if WEIGHT_IS_SPACEBASED (ms_weight msp) || (1 <? env_sync_pass (sy_env env)) then Ok (mg, msp) else
  let weight := metaslab_weight_from_range_tree (sy_env env) msp in
  let activation_idx := WEIGHT_GET_INDEX (ms_activation_weight msp) in
  let current_idx := WEIGHT_GET_INDEX weight in
  if current_idx <=? activation_idx - env_switch_threshold (sy_env env)
  then metaslab_passivate mg msp weight else Ok (mg, msp).

(** [metaslab_preload]: load the metaslab and note that it was selected. *)
Definition metaslab_preload (d : D) msp : res metaslab :=
  '(_, msp) ← (if ms_loaded msp then Ok (0, msp) else metaslab_load d msp);
  Ok (set_ms_selected_txg msp (env_syncing_txg (sy_env env))).

(** [ENOENT], the error of a claim of space that is not free. *)
Definition ENOENT : Z := 2.

(** The part of [metaslab_claim_dva] under the lock of the metaslab: the error,
    the group, the metaslab and the transaction group it is marked dirty for. *)
Definition metaslab_claim_block (d : D) (mg : metaslab_group) msp (offset size txg : Z)
    : res (Z * metaslab_group * metaslab * option Z) :=
  let writeable := env_writeable (sy_env env) in
  '(error, mg, msp) ←
    (if (negb (txg =? 0) && writeable) || negb (ms_loaded msp)
     then metaslab_activate d mg msp METASLAB_WEIGHT_SECONDARY else Ok (0, mg, msp));
  error ←
    (if error =? 0 then
       b ← range_tree_contains (ms_tree msp) offset size; Ok (if b : bool then 0 else ENOENT)
     else Ok error);
  if negb (error =? 0) || (txg =? 0) then Ok (error, mg, msp, None) else
  VERIFY negb (ms_is_condensing msp) ;;
  VERIFY (P2PHASE offset (Z.shiftl 1 ashift) =? 0) ;;
  VERIFY (P2PHASE size (Z.shiftl 1 ashift) =? 0) ;;
  VERIFY (wrap64 (range_tree_space (ms_tree msp) - size) <=? ms_size msp) ;;
  t ← range_tree_remove recover (ms_tree msp) offset size;
  let msp := set_ms_tree msp t in
  if writeable then
    alloctree ← tree_at (ms_alloctree msp) (txg_idx txg);
    let dirty := if range_tree_space alloctree =? 0 then Some txg else None in
    alloctree ← range_tree_add recover alloctree offset size;
    Ok (0, mg, set_ms_alloctree msp (<[txg_idx txg := alloctree]> (ms_alloctree msp)), dirty)
  else Ok (0, mg, msp, None).

(** ** Synchronising a transaction group *)

(** The map rewritten.  The source drops the lock of the metaslab around
    [space_map_truncate] and the writes, with [ms_condensing] set; here the call is
    one step, with nothing of other threads in between. *)
Definition metaslab_condense (d : D) msp (txg : Z) : res (D * metaslab) :=
  sm ← deref (ms_sm msp);
  let msp := set_ms_condense_wanted msp false in
  condense_tree ← range_tree_add recover plain_tree (ms_start msp) (ms_size msp);
  condense_tree ← range_tree_walk (ms_freeingtree msp) (range_tree_remove recover) condense_tree;
  condense_tree ← walk_remove (take TXG_DEFER_SIZE (ms_defertree msp)) condense_tree;
  t1 ← tree_at (ms_alloctree msp) (txg_idx (txg + 1));
  t2 ← tree_at (ms_alloctree msp) (txg_idx (txg + 2));
  condense_tree ← walk_remove [t1; t2] condense_tree;
  let msp := set_ms_condensing msp true in
  '(d, sm) ← space_map_truncate d sm (sy_space_map_blksz env) txg (env_final_dirty_txg (sy_env env));
  '(sm, d) ← space_map_write d sm condense_tree SM_ALLOC (env_sync_pass (sy_env env)) txg;
  '(condense_tree, _) ← range_tree_vacate (T := unit) condense_tree None tt;
  _ ← range_tree_destroy condense_tree;
  '(sm, d) ← space_map_write d sm (ms_tree msp) SM_FREE (env_sync_pass (sy_env env)) txg;
  Ok (d, set_ms_condensing (set_ms_sm msp (Some sm)) false).

(** [space_map_histogram_add] of each tree. *)
Fixpoint histogram_adds sm (ts : list rtree) : res space_map :=
  match ts with
  | [] => Ok sm
  | t :: ts' => sm ← space_map_histogram_add sm t; histogram_adds sm ts'
  end.

(** The space map of the metaslab, created with its object when there is none. *)
Definition open_space_map (d : D) msp : res (D * space_map) :=
  match ms_sm msp with
  | Some sm => Ok (d, sm)
  | None =>
      let '(d, new_object) := space_map_alloc d (sy_space_map_blksz env) in
      VERIFY negb (new_object =? 0) ;;
      match space_map_open d new_object (ms_start msp) (ms_size msp) ashift with
      | inl _ => Panic
      | inr sm => Ok (d, sm)
      end
  end.

(** The object set, the group, the class and the metaslab after a sync pass,
    without the calls other threads may make while the lock of the metaslab is
    dropped around the calls of the object layer.
    The histogram checks of the group and the class are debug code that runs
    under a flag of its own; they are modelled in [MetaslabGroup]. *)
Definition metaslab_sync (d : D) (mg : metaslab_group) (mc : metaslab_class) msp (txg : Z)
    : res (D * metaslab_group * metaslab_class * metaslab) :=
  let object := space_map_object (ms_sm msp) in
  match ms_alloctree msp with
  | [] => Ok (d, mg, mc, msp)
  | _ =>
    alloctree ← tree_at (ms_alloctree msp) (txg_idx txg);
    if (range_tree_space alloctree =? 0) && (range_tree_space (ms_freeingtree msp) =? 0)
       && negb (ms_loaded msp && ms_condense_wanted msp)
    then Ok (d, mg, mc, msp) else
    VERIFY (txg <=? env_final_dirty_txg (sy_env env)) ;;
    '(d, sm) ← open_space_map d msp;
    let msp := set_ms_sm msp (Some sm) in
    let '(mg, mc) := metaslab_group_histogram_remove mg mc msp in
    '(d, msp) ←
      (if ms_loaded msp && (env_sync_pass (sy_env env) =? 1)
          && metaslab_should_condense (sy_env env) msp sm (doi_data_block_size (dmu_info d (sm_object sm)))
       then metaslab_condense d msp txg
       else
         '(sm, d) ← space_map_write d sm alloctree SM_ALLOC (env_sync_pass (sy_env env)) txg;
         '(sm, d) ← space_map_write d sm (ms_freeingtree msp) SM_FREE (env_sync_pass (sy_env env)) txg;
         Ok (d, set_ms_sm msp (Some sm)));
    sm ← deref (ms_sm msp);
    sm ← (if ms_loaded msp
          then histogram_adds (space_map_histogram_clear sm)
            (ms_tree msp :: ms_freedtree msp :: take TXG_DEFER_SIZE (ms_defertree msp))
          else Ok sm);
    sm ← space_map_histogram_add sm (ms_freeingtree msp);
    let msp := set_ms_sm msp (Some sm) in
    let '(mg, mc) := metaslab_group_histogram_add mg mc msp in
    msp ←
      (if env_sync_pass (sy_env env) =? 1 then
         let '(freeing, freed) := range_tree_swap (ms_freeingtree msp) (ms_freedtree msp) in
         Ok (set_ms_freedtree (set_ms_freeingtree msp freeing) freed)
       else
         '(freeing, freed) ←
           range_tree_vacate (ms_freeingtree msp) (Some (range_tree_add recover)) (ms_freedtree msp);
         Ok (set_ms_freedtree (set_ms_freeingtree msp freeing) freed));
    '(alloctree, _) ← range_tree_vacate (T := unit) alloctree None tt;
    let msp := set_ms_alloctree msp (<[txg_idx txg := alloctree]> (ms_alloctree msp)) in
    let d :=
      if object =? space_map_object (ms_sm msp) then d
      else dmu_write d (sy_ms_array env) (8 * ms_id msp) 8 [space_map_object (ms_sm msp)] in
    Ok (d, mg, mc, msp)
  end.

(** The trees of a metaslab that becomes available. *)
Definition create_trees msp : metaslab :=
  let msp := set_ms_alloctree msp (replicate TXG_SIZE plain_tree) in
  let msp := set_ms_freeingtree msp plain_tree in
  let msp := set_ms_freedtree msp plain_tree in
  set_ms_defertree msp (replicate TXG_DEFER_SIZE plain_tree).

(** [range_tree_vacate(t, ms_loaded ? range_tree_add : NULL, ms_tree)]: the
    emptied tree and the free tree. *)
Definition vacate_to_free msp (t : rtree) : res (rtree * rtree) :=
  range_tree_vacate t (if ms_loaded msp then Some (range_tree_add recover) else None) (ms_tree msp).

(** The statistics of the device and of the pool. *)
Record space_stats : Type := SpaceStats {
  ss_vdev : vdev_stat;
  ss_root : vdev_stat;
  ss_class : metaslab_class
}.

Definition stats_update (ss : space_stats) (alloc_delta defer_delta space_delta : Z) : space_stats :=
  let '(vs, rvs, mc) := vdev_space_update (sy_deflate_ratio env) (sy_normal_class env) (ss_vdev ss)
    (ss_root ss) (Some (ss_class ss)) alloc_delta defer_delta space_delta in
  SpaceStats vs rvs (from_option id (ss_class ss) mc).

(** [free_space]: the free space of the normal class, [normal_free] when that
    is not the metaslab's class. *)
Definition class_free_space (ss : space_stats) (normal_free : Z) : Z :=
  if sy_normal_class env
  then wrap64 (metaslab_class_get_space (ss_class ss) - metaslab_class_get_alloc (ss_class ss))
  else normal_free.

(** The group, the metaslab, the statistics and the transaction groups the
    metaslab is marked dirty for. *)
Definition metaslab_sync_done (mg : metaslab_group) msp (ss : space_stats) (normal_free txg : Z)
    : res (metaslab_group * metaslab * space_stats * list Z) :=
  let '(msp, ss) :=
    match ms_alloctree msp with
    | [] => (create_trees msp, stats_update ss 0 0 (ms_size msp))
    | _ => (msp, ss)
    end in
  let di := Z.to_nat (txg mod Z.of_nat TXG_DEFER_SIZE) in
  defer_tree ← tree_at (ms_defertree msp) di;
  let defer_allowed := negb (class_free_space ss normal_free <=? sy_slop_space env) in
  let alloc_delta := space_map_alloc_delta (ms_sm msp) in
  let defer_delta :=
    if defer_allowed then range_tree_space (ms_freedtree msp) - range_tree_space defer_tree
    else - range_tree_space defer_tree in
  let ss := stats_update ss (alloc_delta + defer_delta) defer_delta 0 in
  '(defer_tree, t) ← vacate_to_free msp defer_tree;
  let msp := set_ms_tree msp t in
  msp ←
    (if defer_allowed then
       let '(freed, defer_tree) := range_tree_swap (ms_freedtree msp) defer_tree in
       Ok (set_ms_defertree (set_ms_freedtree msp freed) (<[di := defer_tree]> (ms_defertree msp)))
     else
       '(freed, t) ← vacate_to_free msp (ms_freedtree msp);
       Ok (set_ms_defertree (set_ms_tree (set_ms_freedtree msp freed) t)
         (<[di := defer_tree]> (ms_defertree msp))));
  let msp := set_ms_sm msp (space_map_update <$> ms_sm msp) in
  let msp := set_ms_deferspace msp (ms_deferspace msp + defer_delta) in
  let dirty1 := if negb (ms_deferspace msp =? 0) then [wrap64 (txg + 1)] else [] in
  '(weight, msp, dirty2) ← metaslab_weight (sy_env env) msp;
  '(mg, msp) ← metaslab_group_sort mg msp weight;
  '(mg, msp) ←
    (if ms_loaded msp && (wrap64 (ms_selected_txg msp + sy_unload_delay env) <? txg) then
       t1 ← tree_at (ms_alloctree msp) (txg_idx (txg + 1));
       VERIFY (range_tree_space t1 =? 0) ;;
       t2 ← tree_at (ms_alloctree msp) (txg_idx (txg + 2));
       VERIFY (range_tree_space t2 =? 0) ;;
       if sy_debug_unload env then Ok (mg, msp) else
       msp' ← metaslab_unload msp;
       mg ← mg_write mg msp msp';
       Ok (mg, msp')
     else Ok (mg, msp));
  Ok (mg, msp, ss, dirty1 ++ option_list dirty2).

(** ** Creating and destroying a metaslab *)

Definition TXG_INITIAL : Z := 4.

(** A metaslab with no space map and no tree but the free tree; the other trees
    do not exist before [metaslab_sync_done]. *)
Definition new_metaslab (id ms_shift : Z) : metaslab :=
  Metaslab None id (wrap64 (Z.shiftl id ms_shift)) (wrap64 (Z.shiftl 1 ms_shift)) 0 []
    (range_tree_create (Some metaslab_rt_ops) (MsArg avl_create false)) plain_tree plain_tree []
    false false 0 0 0 0 0 0 (replicate MAX_LBAS 0).

(** The error of opening the space map, or the group, the metaslab, the
    statistics and the transaction groups the metaslab is marked dirty for. *)
Definition metaslab_init (debug_load : bool) (d : D) (mg : metaslab_group) (ss : space_stats)
    (normal_free id object txg : Z)
    : res (Z + metaslab_group * metaslab * space_stats * list Z) :=
  let ms := new_metaslab id (vdev_ms_shift (mg_vd mg)) in
  let opened :=
    if object =? 0 then inr ms
    else match space_map_open d object (ms_start ms) (ms_size ms) (vdev_ashift (mg_vd mg)) with
         | inl error => inl error
         | inr sm => inr (set_ms_sm ms (Some sm))
         end in
  match opened with
  | inl error => Ok (inl error)
  | inr ms =>
      '(mg, mc, ms) ← metaslab_group_add mg (ss_class ss) ms;
      let ss := SpaceStats (ss_vdev ss) (ss_root ss) mc in
      let '(ms, dirty0) := metaslab_set_fragmentation (sy_env env) ms in
      '(mg, ms, ss, dirty1) ←
        (if txg <=? TXG_INITIAL then metaslab_sync_done mg ms ss normal_free 0 else Ok (mg, ms, ss, []));
      ms ←
        (if debug_load && match ms_sm ms with Some _ => true | None => false end then
           '(error, ms) ← metaslab_load d ms; VERIFY (error =? 0) ;; Ok ms
         else Ok ms);
      Ok (inr (mg, ms, ss, option_list dirty0 ++ dirty1 ++ if txg =? 0 then [] else [txg]))
  end.

Fixpoint destroy_trees (ts : list rtree) : res unit :=
  match ts with
  | [] => Ok tt
  | t :: ts' => _ ← range_tree_destroy t; destroy_trees ts'
  end.

Definition metaslab_fini (mg : metaslab_group) msp (ss : space_stats)
    : res (metaslab_group * space_stats) :=
  '(mg, mc) ← metaslab_group_remove mg (ss_class ss) msp;
  let ss := SpaceStats (ss_vdev ss) (ss_root ss) mc in
  let ss := stats_update ss (- space_map_allocated (ms_sm msp)) 0 (- ms_size msp) in
  msp ← metaslab_unload msp;
  _ ← destroy_trees (ms_tree msp :: ms_freeingtree msp :: ms_freedtree msp
        :: ms_alloctree msp ++ ms_defertree msp);
  Ok (mg, ss).

End Operations.
