(* ===== verification/MetaslabInv.v ===== *)
(** * What the operations of a metaslab maintain

    Every offset of a metaslab is in exactly one place: allocated on disk, in
    the free tree, in the tree of a transaction group that allocated it, in the
    freed tree or in a deferred tree.  The places are counted offset by offset,
    so that an operation that moves a range from one tree to another is an
    equation between counts. *)

From S2P Require Import Prelude Bits Avl RangeTree SpaceMap Metaslab MetaslabWeight MetaslabGroup MetaslabSync.

(** ** Sets of whole units *)

Definition unit_set (sh : Z) (P : Z -> Prop) : Prop :=
  forall z z', z / 2 ^ sh = z' / 2 ^ sh -> P z -> P z'.

Lemma unit_set_range sh a b : 0 <= sh -> (2 ^ sh | a) -> (2 ^ sh | b) -> unit_set sh (fun z => a <= z < b).
Proof.
  intros Hsh [x ->] [y ->] z z' E [H1 H2]. pose proof (pow_pos sh Hsh) as Hp. split.
  - assert (H : x <= z / 2 ^ sh) by (apply Z.div_le_lower_bound; lia).
    rewrite E in H. pose proof (Z.mul_div_le z' (2 ^ sh)). nia.
  - assert (H : z / 2 ^ sh < y) by (apply Z.div_lt_upper_bound; lia).
    rewrite E in H. pose proof (Z.mul_succ_div_gt z' (2 ^ sh)). nia.
Qed.

Lemma unit_set_ext sh P Q : (forall z, P z <-> Q z) -> unit_set sh P -> unit_set sh Q.
Proof. intros H HP z z' E. rewrite <- !H. by apply HP. Qed.

Lemma unit_set_or sh P Q : unit_set sh P -> unit_set sh Q -> unit_set sh (fun z => P z \/ Q z).
Proof. intros HP HQ z z' E [H|H]; [left; by apply (HP z)|right; by apply (HQ z)]. Qed.

Lemma unit_set_diff sh P Q : unit_set sh P -> unit_set sh Q -> unit_set sh (fun z => P z /\ ~ Q z).
Proof.
  intros HP HQ z z' E [H1 H2]. split; [by apply (HP z)|]. intros H. apply H2, (HQ z'); [by symmetry|done].
Qed.

(** Adjacent offsets are in the same unit unless a unit starts between them. *)
Lemma same_unit sh z : 0 <= sh -> (z / 2 ^ sh = (z - 1) / 2 ^ sh) \/ (2 ^ sh | z).
Proof.
  intros Hsh. pose proof (pow_pos sh Hsh). destruct (decide (z mod 2 ^ sh = 0)) as [E|E].
  - right. by apply Z.mod_divide; [lia|].
  - left. pose proof (Z.mod_pos_bound z (2 ^ sh)). pose proof (Z.div_mod z (2 ^ sh)).
    apply (Z.div_unique_pos (z - 1) _ (z / 2 ^ sh) (z mod 2 ^ sh - 1)); lia.
Qed.

Lemma covers_start l rs : rs ∈ l -> segs_ok l -> covers l (rs_start rs) /\ ~ covers l (rs_start rs - 1).
Proof.
  intros Hin Hs. pose proof Hs as [Hok _]. rewrite Forall_forall in Hok. destruct (Hok rs Hin) as [H1 _]. split.
  - apply covers_elem. exists rs. split; [done|lia].
  - intros (x & Hx & Hz)%covers_elem. destruct (segs_apart l rs x Hs Hin Hx) as [->|[H|H]];
      unfold seg_sep in *; lia.
Qed.

Lemma covers_end l rs : rs ∈ l -> segs_ok l -> covers l (rs_end rs - 1) /\ ~ covers l (rs_end rs).
Proof.
  intros Hin Hs. pose proof Hs as [Hok _]. rewrite Forall_forall in Hok. destruct (Hok rs Hin) as [H1 _]. split.
  - apply covers_elem. exists rs. split; [done|lia].
  - intros (x & Hx & Hz)%covers_elem. destruct (segs_apart l rs x Hs Hin Hx) as [->|[H|H]];
      unfold seg_sep in *; lia.
Qed.

(** The segments of a set of whole units start and end at units. *)
Lemma unit_set_aligned sh l rs :
  0 <= sh -> segs_ok l -> unit_set sh (covers l) -> rs ∈ l -> (2 ^ sh | rs_start rs) /\ (2 ^ sh | rs_end rs).
Proof.
  intros Hsh Hs Hu Hin. destruct (covers_start l rs Hin Hs) as [H1 H2].
  destruct (covers_end l rs Hin Hs) as [H3 H4]. split.
  - destruct (same_unit sh (rs_start rs) Hsh) as [E|?]; [|done]. destruct H2. by apply (Hu (rs_start rs)).
  - destruct (same_unit sh (rs_end rs) Hsh) as [E|?]; [|done]. destruct H4. by apply (Hu (rs_end rs - 1)).
Qed.

(** ** Counting offsets *)

(** 1 when the tree holds the offset, else 0. *)
Definition ind (t : rtree) (z : Z) : Z := if decide (covers (rt_segs t) z) then 1 else 0.

Definition rng (a n z : Z) : Z := if decide (a <= z < a + n) then 1 else 0.

Lemma ind_bit t z : ind t z = 0 \/ ind t z = 1.
Proof. unfold ind. case_decide; auto. Qed.

Lemma ind_1 t z : ind t z = 1 <-> covers (rt_segs t) z.
Proof. unfold ind. case_decide; split; intros; first [done|lia|tauto]. Qed.

Lemma ind_0 t z : ind t z = 0 <-> ~ covers (rt_segs t) z.
Proof. unfold ind. case_decide; split; intros; first [done|lia|tauto]. Qed.

Lemma ind_nil t z : rt_segs t = [] -> ind t z = 0.
Proof. intros E. apply ind_0. rewrite E, covers_nil. tauto. Qed.

Lemma ind_ext t t' z : (covers (rt_segs t') z <-> covers (rt_segs t) z) -> ind t' z = ind t z.
Proof. intros H. unfold ind. by apply decide_ext. Qed.

Lemma rng_bit a n z : rng a n z = 0 \/ rng a n z = 1.
Proof. unfold rng. case_decide; auto. Qed.

Lemma rng_1 a n z : rng a n z = 1 <-> a <= z < a + n.
Proof. unfold rng. case_decide; split; intros; lia. Qed.

Lemma ind_or t t' z (P : Prop) `{!Decision P} :
  (covers (rt_segs t') z <-> covers (rt_segs t) z \/ P) -> (P -> ~ covers (rt_segs t) z) ->
  ind t' z = ind t z + (if decide P then 1 else 0).
Proof. intros H1 H2. unfold ind. repeat case_decide; try tauto; lia. Qed.

Lemma ind_minus t t' z (P : Prop) `{!Decision P} :
  (covers (rt_segs t') z <-> covers (rt_segs t) z /\ ~ P) -> (P -> covers (rt_segs t) z) ->
  ind t' z = ind t z - (if decide P then 1 else 0).
Proof. intros H1 H2. unfold ind. repeat case_decide; try tauto; lia. Qed.

(** ** Trees of a region *)

Section Region.
Variables st sz sh : Z.
Context (Hg : geom_ok st sz sh).

(** A well-formed tree of whole units of the region. *)
Record tree_ok (t : rtree) : Prop := {
  to_inv : rt_inv size_index t;
  to_region z : covers (rt_segs t) z -> in_region st sz z;
  to_units : unit_set sh (covers (rt_segs t))
}.

Lemma tree_space t : tree_ok t -> 0 <= rt_space t <= sz /\ (rt_space t = 0 <-> rt_segs t = []).
Proof.
  intros [(_ & Hs & -> & _) Hr _]. pose proof (total_u64 _ Hs) as Hu.
  pose proof (total_within st (st + sz) _ Hs) as Hw. destruct Hg. split; [split; [lia|]|].
  - replace sz with (st + sz - st) by lia. apply Hw; [lia|]. apply Hr.
  - split; [intros E; apply length_zero_iff_nil; lia|by intros ->].
Qed.

Lemma tree_nil t : tree_ok t -> (forall z, ind t z = 0) -> rt_segs t = [].
Proof.
  intros [(_ & Hs & _) _ _] H0. destruct (rt_segs t) as [|rs l] eqn:E; [done|].
  destruct (covers_start _ rs ltac:(by left) Hs) as [Hc _]. rewrite <- E in Hc.
  by apply ind_0 in Hc.
Qed.

Lemma tree_seg_in t sm :
  tree_ok t -> sm_start sm = st -> sm_size sm = sz -> sm_shift sm = sh -> Forall (seg_in sm) (rt_segs t).
Proof.
  intros [(_ & Hs & _) Hr Hu] E1 E2 E3. apply Forall_forall. intros rs Hin.
  pose proof Hs as [Hok _]. rewrite Forall_forall in Hok. destruct (Hok rs Hin) as [H1 _].
  assert (Hsh : 0 <= sh) by (destruct Hg; lia).
  destruct (unit_set_aligned sh _ rs Hsh Hs Hu Hin) as [H2 H3].
  destruct (covers_start _ rs Hin Hs) as [H4%Hr _]. destruct (covers_end _ rs Hin Hs) as [H5%Hr _].
  unfold seg_in, in_region in *. rewrite E1, E2, E3. split_and!; done || lia.
Qed.

(** A range of whole units of the region. *)
Definition range_in (a n : Z) : Prop :=
  0 < n /\ st <= a /\ a + n <= st + sz /\ (2 ^ sh | a) /\ (2 ^ sh | n).

Lemma range_in_ok a n : range_in a n -> range_ok a n /\ unit_set sh (fun z => a <= z < a + n).
Proof.
  intros (H1 & H2 & H3 & H4 & H5). destruct Hg. split; [unfold range_ok; lia|].
  apply unit_set_range; [lia|done|by apply Z.divide_add_r].
Qed.

Lemma tree_add zfs_recover t a n :
  tree_ok t -> range_in a n -> (forall z, ind t z + rng a n z <= 1) ->
  exists t', range_tree_add zfs_recover t a n = Ok t' /\ tree_ok t' /\ rt_ops t' = rt_ops t /\
    (forall z, ind t' z = ind t z + rng a n z).
Proof.
  intros [Hinv Hr Hu] Ha Hd. destruct (range_in_ok a n Ha) as [Hok Hua].
  assert (Hdis : forall z, a <= z < a + n -> ~ covers (rt_segs t) z).
  { intros z Hz. specialize (Hd z). rewrite (proj2 (rng_1 a n z)) in Hd by done. apply ind_0.
    destruct (ind_bit t z); lia. }
  destruct (range_tree_add_disjoint (R := size_index) zfs_recover t a n Hinv Hok Hdis)
    as (t' & E & Hinv' & Ho & _ & Hc).
  exists t'. split; [done|]. split; [|split; [done|]].
  - split; [done| |].
    + intros z [Hz|Hz]%Hc; [by apply Hr|]. destruct Ha as (_ & ? & ? & _). unfold in_region. lia.
    + eapply unit_set_ext; [intros z; symmetry; apply Hc|]. by apply unit_set_or.
  - intros z. apply ind_or; auto.
Qed.

Lemma tree_remove zfs_recover t a n :
  tree_ok t -> range_in a n -> (forall z, rng a n z <= ind t z) ->
  exists t', range_tree_remove zfs_recover t a n = Ok t' /\ tree_ok t' /\ rt_ops t' = rt_ops t /\
    (forall z, ind t' z = ind t z - rng a n z).
Proof.
  intros [Hinv Hr Hu] Ha Hd. destruct (range_in_ok a n Ha) as [Hok Hua].
  assert (Hsub : forall z, a <= z < a + n -> covers (rt_segs t) z).
  { intros z Hz. specialize (Hd z). rewrite (proj2 (rng_1 a n z)) in Hd by done. apply ind_1.
    destruct (ind_bit t z); lia. }
  destruct (range_tree_remove_contained (R := size_index) zfs_recover t a n Hinv Hok Hsub)
    as (t' & E & Hinv' & Ho & _ & Hc).
  exists t'. split; [done|]. split; [|split; [done|]].
  - split; [done|by intros z [Hz _]%Hc; apply Hr|].
    eapply unit_set_ext; [intros z; symmetry; apply Hc|]. by apply unit_set_diff.
  - intros z. apply ind_minus; auto.
Qed.

(** An emptied tree. *)
Lemma tree_vacate {T} t (arg : T) :
  tree_ok t -> exists t', range_tree_vacate t None arg = Ok (t', arg) /\ tree_ok t' /\
    rt_segs t' = [] /\ rt_ops t' = rt_ops t.
Proof.
  intros [Hinv Hr Hu].
  destruct (range_tree_vacate_spec (T := T) t None arg Hinv) as (segs & t' & _ & Hinv' & He & Ho & ->).
  exists t'. split; [done|]. split; [|done]. split; [done| |]; rewrite He.
  - intros z []%covers_nil.
  - intros z z' _ []%covers_nil.
Qed.

Lemma tree_vacate_into zfs_recover t dst :
  tree_ok t -> tree_ok dst -> (forall z, ind t z + ind dst z <= 1) ->
  exists t' dst', range_tree_vacate t (Some (range_tree_add zfs_recover)) dst = Ok (t', dst') /\
    tree_ok t' /\ rt_segs t' = [] /\ rt_ops t' = rt_ops t /\
    tree_ok dst' /\ rt_ops dst' = rt_ops dst /\ (forall z, ind dst' z = ind dst z + ind t z).
Proof.
  intros [Hinv Hr Hu] [Hinv2 Hr2 Hu2] Hd.
  assert (Hdis : forall z, covers (rt_segs t) z -> ~ covers (rt_segs dst) z).
  { intros z Hz%ind_1. apply ind_0. specialize (Hd z). destruct (ind_bit dst z); lia. }
  destruct (range_tree_vacate_into (R := size_index) zfs_recover t dst Hinv Hinv2 Hdis)
    as (t' & dst' & E & Hinv' & He & Ho & Hinv2' & Ho2 & _ & Hc).
  exists t', dst'. split; [done|]. split; [|split; [done|split; [done|split; [|split; [done|]]]]].
  - split; [done| |]; rewrite He; [intros z []%covers_nil|intros z z' _ []%covers_nil].
  - split; [done|by intros z [?|?]%Hc; auto|].
    eapply unit_set_ext; [intros z; symmetry; apply Hc|]. by apply unit_set_or.
  - intros z. apply ind_or; [apply Hc|apply Hdis].
Qed.

Lemma tree_walk_remove zfs_recover t dst :
  tree_ok t -> tree_ok dst -> (forall z, ind t z <= ind dst z) ->
  exists dst', range_tree_walk t (range_tree_remove zfs_recover) dst = Ok dst' /\
    tree_ok dst' /\ rt_ops dst' = rt_ops dst /\ (forall z, ind dst' z = ind dst z - ind t z).
Proof.
  intros [Hinv Hr Hu] [Hinv2 Hr2 Hu2] Hd. pose proof Hinv as (_ & Hs & _).
  assert (Hsub : forall z, covers (rt_segs t) z -> covers (rt_segs dst) z).
  { intros z Hz%ind_1. apply ind_1. specialize (Hd z). destruct (ind_bit dst z); lia. }
  unfold range_tree_walk. rewrite (range_tree_segs_ok t Hinv).
  destruct (call_each_remove (R := size_index) zfs_recover dst (rt_segs t) Hinv2 Hs Hsub)
    as (dst' & E & Hinv2' & Ho & _ & Hc).
  exists dst'. split; [done|]. split; [|split; [done|]].
  - split; [done|by intros z [? _]%Hc; auto|].
    eapply unit_set_ext; [intros z; symmetry; apply Hc|]. by apply unit_set_diff.
  - intros z. apply ind_minus; [apply Hc|apply Hsub].
Qed.

Lemma plain_tree_ok : tree_ok plain_tree /\ rt_segs plain_tree = [].
Proof.
  split; [|done]. split.
  - by apply range_tree_create_inv.
  - intros z []%covers_nil.
  - intros z z' _ []%covers_nil.
Qed.

End Region.

(** ** The space of a tree as a sum over the region *)

Lemma zsum_rng a k lo n : lo <= a -> 0 <= k -> a + k <= lo + n -> zsum (rng a k) (seqZ lo n) = k.
Proof.
  intros H1 H2 H3. assert (Hc : forall lo n v, 0 <= n -> (forall z, lo <= z < lo + n -> rng a k z = v) ->
    zsum (rng a k) (seqZ lo n) = v * n).
  { intros lo' n' v Hn Hv. rewrite (zsum_ext _ (fun _ => v)).
    - replace n' with (Z.of_nat (length (seqZ lo' n'))) at 2 by (rewrite length_seqZ; lia).
      induction (seqZ lo' n') as [|x l IH]; cbn [zsum foldr length]; [lia|]. unfold zsum in IH. rewrite IH. lia.
    - intros z Hz. apply elem_of_seqZ in Hz. by apply Hv. }
  replace n with ((a - lo) + (k + (lo + n - (a + k)))) by lia.
  rewrite !seqZ_app, !zsum_app by lia. replace (lo + (a - lo)) with a by lia.
  rewrite (Hc lo (a - lo) 0), (Hc a k 1), (Hc (a + k) _ 0); try lia;
    intros z Hz; unfold rng; case_decide; lia.
Qed.

Lemma total_sum lo n l :
  segs_ok l -> (forall z, covers l z -> lo <= z < lo + n) ->
  total l = zsum (fun z => if decide (covers l z) then 1 else 0) (seqZ lo n).
Proof.
  induction l as [|rs l IH]; intros Hs Hc.
  { symmetry. apply zsum_zero, Forall_forall. intros z _. by destruct (decide (covers [] z)) as [[]%covers_nil|]. }
  pose proof Hs as (_ & Hs' & [H1 H2] & _)%(segs_ok_mid []). simpl total.
  assert (lo <= rs_start rs < lo + n) by (apply Hc, covers_cons; lia).
  assert (lo <= rs_end rs - 1 < lo + n) by (apply Hc, covers_cons; lia).
  rewrite IH; [|done|intros z Hz; apply Hc, covers_cons; by right].
  rewrite <- (zsum_rng (rs_start rs) (rs_end rs - rs_start rs) lo n) at 1 by lia.
  rewrite <- zsum_add. apply zsum_ext. intros z _. unfold rng. rewrite Zplus_minus.
  pose proof (covers_tail rs l z Hs). pose proof (covers_cons rs l z).
  destruct (decide (covers (rs :: l) z)), (decide (covers l z)), (decide (rs_start rs <= z < rs_end rs));
    intuition lia.
Qed.

Lemma tree_space_sum st sz sh t : tree_ok st sz sh t -> rt_space t = zsum (ind t) (seqZ st sz).
Proof. intros [(_ & Hs & -> & _) Hr _]. by apply total_sum. Qed.

(** The remainder of a tree after several others are taken out. *)
Lemma walk_remove_spec env st sz sh ts dst :
  geom_ok st sz sh -> Forall (tree_ok st sz sh) ts -> tree_ok st sz sh dst ->
  (forall z, zsum (fun t => ind t z) ts <= ind dst z) ->
  exists dst', walk_remove env ts dst = Ok dst' /\ tree_ok st sz sh dst' /\ rt_ops dst' = rt_ops dst /\
    (forall z, ind dst' z = ind dst z - zsum (fun t => ind t z) ts).
Proof.
  intros Hg. revert dst. induction ts as [|t ts IH]; intros dst Hts Hdst Hsub; simpl in *.
  { exists dst. split_and!; auto. intros z. lia. }
  apply Forall_cons in Hts as [Ht Hts].
  assert (Hnn : forall z, 0 <= zsum (fun t => ind t z) ts).
  { intros z. apply zsum_nonneg. intros x. destruct (ind_bit x z); lia. }
  destruct (tree_walk_remove st sz sh (sy_recover env) t dst Ht Hdst) as (dst1 & -> & Hok1 & Ho1 & Hi1).
  { intros z. specialize (Hsub z). specialize (Hnn z). lia. }
  simpl. destruct (IH dst1 Hts Hok1) as (dst' & -> & Hok' & Ho' & Hi').
  { intros z. rewrite Hi1. specialize (Hsub z). lia. }
  exists dst'. split_and!; auto; [congruence|]. intros z. rewrite Hi', Hi1. lia.
Qed.

(** ** The four transaction groups of the array *)

Lemma txg_idx_mod txg : txg_idx txg = Z.to_nat (txg mod 4).
Proof. unfold txg_idx, TXG_MASK. change 3 with (Z.ones 2). by rewrite Z.land_ones by lia. Qed.

Lemma txg_idx_next s k : txg_idx (s + k) = Z.to_nat ((s mod 4 + k) mod 4).
Proof. rewrite txg_idx_mod. by rewrite Zplus_mod_idemp_l. Qed.

(** The trees of [s], [s + 1], [s + 2] and [s + 3] are all the trees. *)
Lemma txg_trees {A} (l : list A) s :
  length l = TXG_SIZE ->
  exists t0 t1 t2 t3, l !! txg_idx s = Some t0 /\ l !! txg_idx (s + 1) = Some t1 /\
    l !! txg_idx (s + 2) = Some t2 /\ l !! txg_idx (s + 3) = Some t3 /\ l ≡ₚ [t0; t1; t2; t3].
Proof.
  intros Hl. destruct l as [|a [|b [|c [|e [|]]]]]; try discriminate Hl.
  replace (txg_idx s) with (txg_idx (s + 0)) by (f_equal; lia). rewrite !txg_idx_next.
  pose proof (Z.mod_pos_bound s 4 ltac:(lia)) as Hb.
  assert (Hs : s mod 4 = 0 \/ s mod 4 = 1 \/ s mod 4 = 2 \/ s mod 4 = 3) by lia.
  destruct Hs as [-> | [-> | [-> | ->]]]; eexists _, _, _, _; (split_and!; [reflexivity..|]).
  - done.
  - by rewrite (Permutation_app_comm [a] [b; c; e]).
  - by rewrite (Permutation_app_comm [a; b] [c; e]).
  - by rewrite (Permutation_app_comm [a; b; c] [e]).
Qed.

Lemma zsum_perm {A} (f : A -> Z) l l' : l ≡ₚ l' -> zsum f l = zsum f l'.
Proof. induction 1; simpl; lia. Qed.

Lemma zsum_swap {A B} (f : A -> B -> Z) l l' :
  zsum (fun z => zsum (fun t => f t z) l) l' = zsum (fun t => zsum (f t) l') l.
Proof.
  induction l as [|t l IH]; simpl.
  - by apply zsum_zero, Forall_forall.
  - rewrite zsum_add, IH. done.
Qed.

(** ** The invariant of a metaslab *)

(** How many of the trees hold the offset. *)
Definition own (msp : metaslab) (z : Z) : Z :=
  ind (ms_tree msp) z + ind (ms_freedtree msp) z + zsum (fun t => ind t z) (ms_alloctree msp)
  + zsum (fun t => ind t z) (ms_defertree msp).

Section Inv.
Context {D : Type} `{!DmuOps D} `{!DmuSpec D} `{!DmuObjSpec D}.
Variable env : sync_env.
Implicit Types msp : metaslab.

Abbreviation ashift := (env_ashift (sy_env env)).
Abbreviation region_tree msp := (tree_ok (ms_start msp) (ms_size msp) ashift).
Abbreviation plain msp t := (region_tree msp t /\ rt_ops t = None).

(** The space map records the allocated offsets, and the array of the device
    names its object. *)
Definition sm_records (d : D) (A : Z -> Prop) msp : Prop :=
  match ms_sm msp with
  | None => forall z, ~ A z
  | Some sm =>
      sm_inv d sm A /\ sm_start sm = ms_start msp /\ sm_size sm = ms_size msp /\ sm_shift sm = ashift /\
      sy_ms_array env <> sm_object sm /\ dmu_word d (sy_ms_array env) (ms_id msp) = sm_object sm
  end.

(** What [space_map_load] reads: the log as it was at the last
    [space_map_update].  Before the offsets of the freed tree were freed they
    were allocated. *)
Definition loadable (d : D) (A : Z -> Prop) msp : Prop :=
  match ms_sm msp with
  | None => rt_segs (ms_freedtree msp) = []
  | Some sm =>
      0 <= sm_length sm <= smp_objsize (sm_phys sm) /\ (8 | sm_length sm) /\
      log_sets (sm_start sm) (sm_size sm) (sm_shift sm)
        (words d (sm_object sm) 0 (Z.to_nat (sm_length sm / 8)))
        (fun z => A z \/ ind (ms_freedtree msp) z = 1) (sm_alloc sm)
  end.

(** The allocated offsets are in no tree; an offset that is not allocated is in
    one tree at most, and in one exactly when the metaslab is loaded. *)
Definition owned (A : Z -> Prop) msp : Prop :=
  forall z, (A z /\ own msp z = 0) \/
    (~ A z /\ own msp z <= 1 /\
     (ms_loaded msp = true -> in_region (ms_start msp) (ms_size msp) z -> own msp z = 1)).

Record ms_inv (d : D) (s : Z) (A : Z -> Prop) msp : Prop := {
  mi_geom : geom_ok (ms_start msp) (ms_size msp) ashift;
  mi_end : ms_start msp + ms_size msp <= 2 ^ 63 /\ ms_size msp < 2 ^ 62;
  mi_id : 0 <= ms_id msp /\ dmu_exists d (sy_ms_array env) = true;
  mi_sm : sm_records d A msp;
  mi_object sm : ms_sm msp = Some sm -> object_ok d (sm_object sm);
  mi_lbas : Forall (fun c => 0 <= c <= 2 ^ 63 /\ (2 ^ ashift | c)) (ms_lbas msp);
  mi_tree : region_tree msp (ms_tree msp) /\ rt_ops (ms_tree msp) = Some metaslab_rt_ops;
  mi_freeing : plain msp (ms_freeingtree msp);
  mi_freed : plain msp (ms_freedtree msp);
  mi_alloc : Forall (fun t => plain msp t) (ms_alloctree msp) /\ length (ms_alloctree msp) = TXG_SIZE;
  mi_defer : Forall (fun t => plain msp t) (ms_defertree msp) /\ length (ms_defertree msp) = TXG_DEFER_SIZE;
  mi_owned : owned A msp;
  mi_freeing_sub z : ind (ms_freeingtree msp) z = 1 ->
    A z \/ exists a, ms_alloctree msp !! txg_idx s = Some a /\ ind a z = 1;
  mi_clean t : ms_alloctree msp !! txg_idx (s + 3) = Some t -> rt_segs t = [];
  mi_unloaded : ms_loaded msp = false ->
    rt_segs (ms_tree msp) = [] /\ Forall (fun t => rt_segs t = []) (ms_alloctree msp);
  mi_loadable : ms_loaded msp = false -> loadable d A msp;
  mi_deferspace : ms_deferspace msp = zsum rt_space (ms_defertree msp);
  mi_selected k t : 1 <= k <= 2 -> ms_alloctree msp !! txg_idx (s + k) = Some t -> rt_segs t <> [] ->
    s + k <= ms_selected_txg msp + 2;
  mi_seltxg : 0 <= s /\ 0 <= ms_selected_txg msp <= s + 2
}.

(** ** Consequences *)

Lemma zsum_ind_nonneg (l : list rtree) z : 0 <= zsum (fun t => ind t z) l.
Proof. apply zsum_nonneg. intros t. destruct (ind_bit t z); lia. Qed.

Lemma zsum_ind_elem (l : list rtree) i t z : l !! i = Some t -> ind t z <= zsum (fun t => ind t z) l.
Proof.
  intros E. apply (zsum_elem (fun t => ind t z) l i t); [|done]. intros x. destruct (ind_bit x z); lia.
Qed.

Lemma inv_alloc_lookup d s A msp txg :
  ms_inv d s A msp -> exists t, ms_alloctree msp !! txg_idx txg = Some t /\ plain msp t.
Proof.
  intros Hi. destruct (mi_alloc _ _ _ _ Hi) as [Hall Hlen].
  assert (Hlt : (txg_idx txg < length (ms_alloctree msp))%nat).
  { rewrite Hlen. unfold txg_idx, TXG_MASK, TXG_SIZE. change 3 with (Z.ones 2).
    rewrite Z.land_ones by lia. pose proof (Z.mod_pos_bound txg (2 ^ 2)). lia. }
  destruct (lookup_lt_is_Some_2 _ _ Hlt) as [t E]. exists t. split; [done|].
  by apply (Forall_lookup_1 _ _ _ _ Hall E).
Qed.

(** A metaslab as the allocators need it. *)
Lemma inv_ms_ok d s A msp : ms_inv d s A msp -> ms_ok msp.
Proof.
  intros Hi. destruct (mi_tree _ _ _ _ Hi) as [[Hinv Hr _] Ho]. constructor; auto.
  - pose proof Hinv as (_ & Hs & _). apply Forall_forall. intros rs Hin.
    destruct (covers_end _ rs Hin Hs) as [Hz%Hr _]. unfold in_region in Hz.
    destruct (mi_end _ _ _ _ Hi). lia.
  - eapply Forall_impl; [apply (mi_lbas _ _ _ _ Hi)|]. by intros c [? _].
Qed.

Lemma inv_aligned d s A msp rs :
  ms_inv d s A msp -> rs ∈ rt_segs (ms_tree msp) -> (2 ^ ashift | rs_start rs) /\ (2 ^ ashift | rs_end rs).
Proof.
  intros Hi Hin. destruct (mi_tree _ _ _ _ Hi) as [[Hinv _ Hu] _]. pose proof Hinv as (_ & Hs & _).
  destruct (mi_geom _ _ _ _ Hi). eapply unit_set_aligned; eauto; lia.
Qed.

(** ** The accounting check *)

(** The space of the trees of a loaded metaslab and the space the map records
    add up to its size. *)
Lemma inv_space d s A msp sm :
  ms_inv d s A msp -> ms_sm msp = Some sm -> ms_loaded msp = true ->
  smp_alloc (sm_phys sm) + rt_space (ms_tree msp) + rt_space (ms_freedtree msp)
    + zsum rt_space (ms_alloctree msp) + ms_deferspace msp = ms_size msp.
Proof.
  intros Hi Esm Hl. pose proof (mi_sm _ _ _ _ Hi) as Hsm. unfold sm_records in Hsm. rewrite Esm in Hsm.
  destruct Hsm as ((Hwf & Hlog) & E1 & E2 & E3 & _). pose proof (wf_geom _ Hwf) as Hg. unfold sm_geom in Hg.
  destruct (log_sets_segs _ _ _ _ _ _ Hg Hlog) as (segs & Hs & <- & Hc).
  set (zs := seqZ (ms_start msp) (ms_size msp)).
  assert (Hst : forall t, region_tree msp t -> rt_space t = zsum (ind t) zs) by (intros t; apply tree_space_sum).
  assert (Hlist : forall l, Forall (fun t => plain msp t) l ->
    zsum rt_space l = zsum (fun z => zsum (fun t => ind t z) l) zs).
  { intros l Hall. rewrite zsum_swap. apply zsum_ext. intros t Ht. rewrite Forall_forall in Hall.
    by apply Hst, Hall. }
  rewrite (mi_deferspace _ _ _ _ Hi).
  rewrite (Hlist (ms_alloctree msp)) by apply (mi_alloc _ _ _ _ Hi).
  rewrite (Hlist (ms_defertree msp)) by apply (mi_defer _ _ _ _ Hi).
  rewrite (Hst (ms_tree msp)) by apply (mi_tree _ _ _ _ Hi).
  rewrite (Hst (ms_freedtree msp)) by apply (mi_freed _ _ _ _ Hi).
  rewrite (total_sum (ms_start msp) (ms_size msp) segs Hs).
  2:{ intros z Hz%Hc. rewrite <- E1, <- E2. by apply (log_sets_region _ _ _ Hg _ _ _ z Hlog). }
  fold zs. rewrite <- !zsum_add. pose proof (mi_geom _ _ _ _ Hi) as [_ _ Hsz _ _ _ _].
  transitivity (zsum (fun _ => 1) zs).
  - apply zsum_ext. intros z Hz. apply elem_of_seqZ in Hz.
    pose proof (mi_owned _ _ _ _ Hi z) as Ho. unfold own in Ho.
    assert (Hr : in_region (ms_start msp) (ms_size msp) z) by (unfold in_region; lia).
    destruct Ho as [[HA Ho]|(HA & _ & Ho)].
    + rewrite decide_True by (by apply Hc). lia.
    + rewrite decide_False by (by rewrite Hc). specialize (Ho Hl Hr). lia.
  - assert (Hone : forall l : list Z, zsum (fun _ => 1) l = Z.of_nat (length l)).
    { induction l; cbn [zsum foldr length] in *; [done|]. unfold zsum in IHl. lia. }
    rewrite Hone. unfold zs. rewrite length_seqZ. lia.
Qed.

(** [metaslab_verify_space] does not fire. *)
Lemma verify_space_ok d s A msp txg :
  ms_inv d s A msp -> env_syncing_txg (sy_env env) = s -> metaslab_verify_space env msp txg = Ok tt.
Proof.
  intros Hi Hs. unfold metaslab_verify_space. destruct (sy_debug_metaslab_verify env); [|done]. cbn [negb].
  destruct (ms_sm msp) as [sm|] eqn:Esm; [|done]. rewrite Hs.
  destruct (Z.eqb_spec txg s) as [->|]; [|done]. destruct (ms_loaded msp) eqn:El; [|done]. cbn [negb orb].
  pose proof (inv_space d s A msp sm Hi Esm El) as Hsum.
  destruct (mi_alloc _ _ _ _ Hi) as [Hall Hlen].
  destruct (txg_trees (ms_alloctree msp) s Hlen) as (t0 & t1 & t2 & t3 & E0 & E1 & E2 & E3 & Hp).
  pose proof (mi_clean _ _ _ _ Hi t3 E3) as Hclean.
  rewrite (zsum_perm _ _ _ Hp) in Hsum. simpl in Hsum. rewrite Hp in Hall.
  apply Forall_cons in Hall as [[H0 _] Hall]. apply Forall_cons in Hall as [[H1 _] Hall].
  apply Forall_cons in Hall as [[H2 _] Hall]. apply Forall_cons in Hall as [[H3 _] _].
  pose proof (mi_geom _ _ _ _ Hi) as Hg. destruct (mi_end _ _ _ _ Hi) as [_ Hsz].
  apply (tree_space _ _ _ Hg) in H0 as [H0 _], H1 as [H1 _], H2 as [H2 _], H3 as [_ [_ H3]].
  specialize (H3 Hclean).
  assert (Ef : future_space (ms_alloctree msp) s TXG_CONCURRENT_STATES =
    Ok (rt_space t0 + rt_space t1 + rt_space t2)).
  { unfold future_space, tree_at, TXG_CONCURRENT_STATES.
    change (Z.of_nat 0) with 0. change (Z.of_nat 1) with 1. change (Z.of_nat 2) with 2.
    rewrite Z.add_0_r, E0, E1, E2. unfold range_tree_space. cbn [deref mbind res_bind].
    rewrite (wrap64_small (0 + rt_space t0)), wrap64_add_l, wrap64_small by (unfold is_u64; lia). by f_equal. }
  rewrite Ef. cbn [mbind res_bind]. unfold range_tree_space, space_map_allocated. simpl.
  set (delta := if _ <? _ then _ else _).
  assert (Hd : wrap64 (ms_size msp - sm_alloc sm - delta) = wrap64 (ms_size msp - smp_alloc (sm_phys sm))).
  { assert (Hk : exists k, delta = smp_alloc (sm_phys sm) - sm_alloc sm + k * B64).
    { set (x := smp_alloc (sm_phys sm) - sm_alloc sm) in *.
      assert (Ew : wrap64 x = x + - (x / B64) * B64) by (unfold wrap64; pose proof (Z.div_mod x B64); lia).
      unfold delta. destruct (_ <? _).
      - exists (- (x / B64)). done.
      - exists (- (x / B64) - 1). rewrite Ew. lia. }
    destruct Hk as [k ->]. unfold wrap64.
    replace (ms_size msp - sm_alloc sm - _) with (ms_size msp - smp_alloc (sm_phys sm) + - k * B64) by lia.
    apply Z.mod_add. lia. }
  rewrite Hd. rewrite (proj2 (Z.eqb_eq _ _)); [done|]. f_equal. lia.
Qed.

(** ** Allocating and freeing blocks *)

Lemma free_range_in d s A msp offset size :
  ms_inv d s A msp -> free_range msp offset size -> (2 ^ ashift | offset) -> (2 ^ ashift | size) ->
  range_in (ms_start msp) (ms_size msp) ashift offset size /\
  (forall z, rng offset size z <= ind (ms_tree msp) z).
Proof.
  intros Hi [(H1 & H2 & H3) Hc] Hd1 Hd2. destruct (mi_tree _ _ _ _ Hi) as [Ht _].
  pose proof (to_region _ _ _ _ Ht _ (Hc offset ltac:(lia))) as Hr1.
  pose proof (to_region _ _ _ _ Ht _ (Hc (offset + size - 1) ltac:(lia))) as Hr2.
  unfold in_region in Hr1, Hr2. split; [unfold range_in; split_and!; done || lia|].
  intros z. destruct (rng_bit offset size z) as [->|E].
  - destruct (ind_bit (ms_tree msp) z); lia.
  - rewrite E. apply rng_1 in E. rewrite (proj2 (ind_1 _ _) (Hc z E)). done.
Qed.

Lemma P2PHASE_aligned x : 0 <= ashift -> (2 ^ ashift | x) -> (P2PHASE x (Z.shiftl 1 ashift) =? 0) = true.
Proof.
  intros Ha Hd. rewrite shiftl1_pow, P2PHASE_mod by done. apply Z.eqb_eq. apply Z.mod_divide; [|done].
  pose proof (pow_pos ashift Ha). lia.
Qed.

Lemma tree_inv_condensing d s A msp : ms_inv d s A msp -> ms_is_condensing msp = false.
Proof.
  intros Hi. destruct (mi_tree _ _ _ _ Hi) as [[(_ & _ & _ & _ & Ho) _ _] Eo]. rewrite Eo in Ho.
  by destruct Ho as [_ (_ & _ & _ & ?)].
Qed.

(** The fields no part of the invariant looks at. *)
Lemma inv_max_size d s A msp v : ms_inv d s A msp -> ms_inv d s A (set_ms_max_size msp v).
Proof. by intros []; constructor. Qed.

Lemma inv_alloc_txg d s A msp v : ms_inv d s A msp -> ms_inv d s A (set_ms_alloc_txg msp v).
Proof. by intros []; constructor. Qed.

Lemma inv_lbas d s A msp l :
  ms_inv d s A msp -> Forall (fun c => 0 <= c <= 2 ^ 63 /\ (2 ^ ashift | c)) l ->
  ms_inv d s A (set_ms_lbas msp l).
Proof. by intros [] ?; constructor. Qed.

(** Selecting the metaslab for a transaction group that is not over. *)
Lemma inv_select d s A msp txg :
  ms_inv d s A msp -> s <= txg <= s + 2 -> ms_inv d s A (set_ms_selected_txg msp txg).
Proof. intros [] Hs. constructor; auto; simpl; [intros k t Hk _ _|]; lia. Qed.

(** A change of nothing but the free tree and what is derived from it. *)
Definition kept msp msp' : Prop :=
  ms_alloctree msp' = ms_alloctree msp /\ ms_freeingtree msp' = ms_freeingtree msp /\
  ms_freedtree msp' = ms_freedtree msp /\ ms_start msp' = ms_start msp /\ ms_size msp' = ms_size msp.

(** ... and of the tree of one transaction group, to which [delta] is added. *)
Definition moved msp msp' (i : nat) (delta : Z -> Z) : Prop :=
  (exists a a', ms_alloctree msp !! i = Some a /\ ms_alloctree msp' = <[i := a']> (ms_alloctree msp) /\
    (forall z, ind a' z = ind a z + delta z)) /\
  ms_freeingtree msp' = ms_freeingtree msp /\ ms_freedtree msp' = ms_freedtree msp /\
  ms_start msp' = ms_start msp /\ ms_size msp' = ms_size msp.

(** Space moved between the free tree and the tree of a transaction group. *)
Lemma inv_move d s A msp t' i a a' :
  ms_inv d s A msp -> ms_loaded msp = true ->
  region_tree msp t' -> rt_ops t' = Some metaslab_rt_ops ->
  ms_alloctree msp !! i = Some a -> plain msp a' ->
  (forall z, ind t' z + ind a' z = ind (ms_tree msp) z + ind a z) ->
  i <> txg_idx (s + 3) -> (forall z, ind (ms_freeingtree msp) z = 1 -> ind a z <= ind a' z) ->
  (forall k, 1 <= k <= 2 -> i = txg_idx (s + k) -> rt_segs a' <> [] -> s + k <= ms_selected_txg msp + 2) ->
  ms_inv d s A (set_ms_alloctree (set_ms_tree msp t') (<[i := a']> (ms_alloctree msp))).
Proof.
  intros Hi Hl Ht Hto Ha Ha' Hsum Hne Hkeep Hsel. pose proof Hi as [].
  constructor; try done; simpl.
  - destruct mi_alloc0 as [Hall Hlen]. rewrite length_insert. split; [|done]. by apply Forall_insert.
  - intros z. specialize (mi_owned0 z). unfold own in *. simpl.
    rewrite (zsum_insert _ _ _ a a' Ha). specialize (Hsum z).
    destruct mi_owned0 as [[? ?]|(? & ? & Ho)]; [left; split; [done|lia]|right].
    split; [done|]. split; [lia|]. intros H1 H2. specialize (Ho H1 H2). lia.
  - intros z Hz. destruct (mi_freeing_sub0 z Hz) as [?|(x & Ex & Hx)]; [by left|right].
    destruct (decide (i = txg_idx s)) as [->|]; [|exists x; by rewrite list_lookup_insert_ne].
    rewrite Ha in Ex. injection Ex as <-. exists a'. split; [|specialize (Hkeep z Hz); destruct (ind_bit a' z); lia].
    apply list_lookup_insert_eq. by eapply lookup_lt_Some.
  - intros t. rewrite list_lookup_insert_ne by done. apply mi_clean0.
  - congruence.
  - intros k t Hk. destruct (decide (i = txg_idx (s + k))) as [E|E].
    + intros Et. assert (t = a') as ->; [|by apply Hsel].
      rewrite <- E, list_lookup_insert_eq in Et; [by injection Et|]. by apply lookup_lt_Some in Ha.
    + rewrite list_lookup_insert_ne by done. by apply mi_selected0.
Qed.

Lemma txg_idx_clean s txg : s <= txg <= s + 2 -> txg_idx txg <> txg_idx (s + 3).
Proof.
  intros H. rewrite !txg_idx_mod. assert (E : txg = s \/ txg = s + 1 \/ txg = s + 2) by lia.
  pose proof (Z.mod_pos_bound s 4 ltac:(lia)). intros Heq.
  assert (Hm : txg mod 4 = (s + 3) mod 4).
  { pose proof (Z.mod_pos_bound txg 4). pose proof (Z.mod_pos_bound (s + 3) 4). lia. }
  destruct E as [-> | [-> | ->]]; revert Hm; Z.div_mod_to_equations; lia.
Qed.

Lemma tree_space_range msp t t' offset size :
  geom_ok (ms_start msp) (ms_size msp) ashift -> region_tree msp t -> region_tree msp t' ->
  range_in (ms_start msp) (ms_size msp) ashift offset size ->
  (forall z, ind t' z = ind t z + rng offset size z) -> rt_space t' = rt_space t + size.
Proof.
  intros Hg Ht Ht' (? & ? & ? & _) Hind.
  rewrite (tree_space_sum _ _ _ _ Ht), (tree_space_sum _ _ _ _ Ht').
  rewrite <- (zsum_rng offset size (ms_start msp) (ms_size msp)) at 1 by lia.
  rewrite <- zsum_add. apply zsum_ext. auto.
Qed.

(** A free range becomes a range the transaction group allocated. *)
Lemma alloc_move d s A msp offset size txg :
  ms_inv d s A msp -> s <= txg <= s + 2 -> txg = s \/ s <= ms_selected_txg msp ->
  range_in (ms_start msp) (ms_size msp) ashift offset size ->
  (forall z, rng offset size z <= ind (ms_tree msp) z) ->
  exists t' a a', range_tree_remove (sy_recover env) (ms_tree msp) offset size = Ok t' /\
    ms_alloctree msp !! txg_idx txg = Some a /\ range_tree_add (sy_recover env) a offset size = Ok a' /\
    (wrap64 (range_tree_space (ms_tree msp) - size) <=? ms_size msp) = true /\
    ms_inv d s A (set_ms_alloctree (set_ms_tree msp t') (<[txg_idx txg := a']> (ms_alloctree msp))) /\
    (forall z, ind t' z = ind (ms_tree msp) z - rng offset size z) /\
    (forall z, ind a' z = ind a z + rng offset size z) /\
    (forall z, rng offset size z = 1 -> ~ A z /\ own msp z = 1 /\ ind (ms_tree msp) z = 1).
Proof.
  intros Hi Htxg Hsel Hrin Hsub. pose proof (mi_geom _ _ _ _ Hi) as Hg. destruct (mi_tree _ _ _ _ Hi) as [Ht Hto].
  destruct (inv_alloc_lookup d s A _ txg Hi) as (a & Ea & Hpa & Hoa).
  assert (Hown : forall z, rng offset size z = 1 -> ~ A z /\ own msp z = 1 /\ ind (ms_tree msp) z = 1).
  { intros z Hz. specialize (Hsub z). rewrite Hz in Hsub. pose proof (mi_owned _ _ _ _ Hi z) as Ho.
    pose proof (zsum_ind_nonneg (ms_alloctree msp) z). pose proof (zsum_ind_nonneg (ms_defertree msp) z).
    unfold own in *. destruct (ind_bit (ms_tree msp) z), (ind_bit (ms_freedtree msp) z); lia || intuition lia. }
  assert (Hdis : forall z, ind a z + rng offset size z <= 1).
  { intros z. destruct (rng_bit offset size z) as [->|Ez]; [destruct (ind_bit a z); lia|].
    destruct (Hown z Ez) as (_ & Ho & H1). pose proof (zsum_ind_elem _ _ _ z Ea) as Hle.
    pose proof (zsum_ind_nonneg (ms_defertree msp) z). unfold own in Ho.
    destruct (ind_bit (ms_freedtree msp) z); simpl in *; lia. }
  destruct (tree_remove _ _ _ Hg (sy_recover env) (ms_tree msp) offset size Ht Hrin Hsub)
    as (t' & Et & Ht' & Ho' & Hind').
  destruct (tree_add _ _ _ Hg (sy_recover env) a offset size Hpa Hrin Hdis) as (a' & Eadd & Ha' & Hoa' & Hinda').
  pose proof Hrin as (R1 & R2 & R3 & _).
  exists t', a, a'. split_and!; try done.
  - destruct (tree_space _ _ _ Hg _ Ht') as [Hsp' _].
    assert (rt_space (ms_tree msp) = rt_space t' + size).
    { apply (tree_space_range msp t' _ offset size); try done. intros z. rewrite Hind'. lia. }
    unfold range_tree_space. destruct (mi_end _ _ _ _ Hi) as [_ Hb].
    rewrite wrap64_small by (unfold is_u64; lia). apply Z.leb_le. lia.
  - apply (inv_move d s A msp t' (txg_idx txg) a a' Hi); try done.
    + destruct (ms_loaded msp) eqn:El; [done|]. destruct (mi_unloaded _ _ _ _ Hi El) as [Hn _].
      destruct (Hown offset) as (_ & _ & H1); [apply rng_1; lia|]. rewrite ind_nil in H1 by done. lia.
    + by rewrite Ho'.
    + split; [done|]. by rewrite Hoa'.
    + intros z. rewrite Hinda', Hind'. lia.
    + by apply txg_idx_clean.
    + intros z _. rewrite Hinda'. destruct (rng_bit offset size z); lia.
    + intros k Hk E _. destruct Hsel as [-> | Hsel]; [|lia].
      exfalso. apply (txg_idx_clean (s + k - 3) s); [lia|]. rewrite E. f_equal. lia.
Qed.

Context (msop_alloc : metaslab -> Z -> res (Z * metaslab)) `{!MsopSpec msop_alloc}.

(** An allocation: the metaslab is selected, then asked for a block. *)
Lemma block_alloc_ok d s A msp size txg :
  ms_inv d s A msp -> env_syncing_txg (sy_env env) = s -> s <= txg <= s + 2 ->
  0 < size < 2 ^ 62 -> (2 ^ ashift | size) ->
  exists offset msp' dirty,
    metaslab_block_alloc env msop_alloc (set_ms_selected_txg msp txg) size txg = Ok (offset, msp', dirty) /\
    ms_inv d s A msp' /\ ms_weight msp' = ms_weight msp /\
    ((offset = NO_OFFSET /\ kept msp msp' /\ (forall z, ind (ms_tree msp') z = ind (ms_tree msp) z)) \/
     (offset <> NO_OFFSET /\ moved msp msp' (txg_idx txg) (rng offset size) /\ range_in (ms_start msp) (ms_size msp) ashift offset size /\
      (forall z, rng offset size z = 1 -> ~ A z /\ own msp z = 1 /\ ind (ms_tree msp) z = 1) /\
      (forall z, ind (ms_tree msp') z = ind (ms_tree msp) z - rng offset size z))).
Proof.
  intros Hi0 Hs Htxg Hsize Hd. set (m := set_ms_selected_txg msp txg).
  assert (Hi : ms_inv d s A m) by (apply inv_select; [done|lia]).
  pose proof (mi_geom _ _ _ _ Hi) as Hg. assert (Ha : 0 <= ashift) by (destruct Hg; lia).
  destruct (msop_spec ashift m size Ha (inv_ms_ok _ _ _ _ Hi) Hsize Hd) as (offset & l & E & Hok & Hl & Hres).
  { intros rs Hin. by apply (inv_aligned d s A m rs). }
  { eapply Forall_impl; [apply (mi_lbas _ _ _ _ Hi)|]. by intros c [_ ?]. }
  assert (Hil : ms_inv d s A (set_ms_lbas m l)).
  { apply inv_lbas; [done|]. pose proof (ok_lbas _ Hok) as Hlb. simpl in Hlb. apply Forall_and. by split. }
  unfold metaslab_block_alloc. rewrite (tree_inv_condensing _ _ _ _ Hi). cbn [negb]. rewrite E. cbn [mbind res_bind].
  destruct (Z.eqb_spec offset NO_OFFSET) as [->|Hne].
  { eexists _, _, _. split; [done|]. split; [by apply inv_max_size|]. split; [done|]. by left. }
  destruct Hres as [?|(_ & Hfree & Hdo)]; [done|].
  destruct (free_range_in d s A m offset size Hi Hfree Hdo Hd) as [Hrin Hsub].
  destruct (alloc_move d s A (set_ms_lbas m l) offset size txg Hil Htxg) as
    (t' & a & a' & Et & Ea & Eadd & Esp & Hfin & Hind & Hinda & Hown); [simpl; lia|done|done|].
  rewrite !P2PHASE_aligned, Esp, Et by done. cbn [mbind res_bind].
  change (ms_alloctree (set_ms_tree (set_ms_lbas m l) t')) with (ms_alloctree (set_ms_lbas m l)).
  unfold tree_at. rewrite Ea. cbn [deref mbind res_bind]. rewrite Eadd. cbn [mbind res_bind].
  erewrite verify_space_ok; [|apply inv_alloc_txg, Hfin|done]. cbn [mbind res_bind].
  eexists _, _, _. split; [done|]. split; [apply inv_max_size, inv_alloc_txg, Hfin|].
  split; [done|]. right. split; [done|]. split; [split_and!; try done; by exists a, a'|].
  split; [done|]. split; [exact Hown|exact Hind].
Qed.

(** A range of one of the trees is free to move: nothing else holds it. *)
Lemma own_alloc_range d s A msp txg a offset size z :
  ms_inv d s A msp -> ms_alloctree msp !! txg_idx txg = Some a -> rng offset size z <= ind a z ->
  rng offset size z = 1 -> ~ A z /\ ind (ms_tree msp) z = 0.
Proof.
  intros Hi Ea Hsub Hz. pose proof (mi_owned _ _ _ _ Hi z) as Ho. unfold own in Ho.
  pose proof (zsum_ind_elem _ _ _ z Ea). pose proof (zsum_ind_nonneg (ms_defertree msp) z).
  destruct (ind_bit (ms_tree msp) z), (ind_bit (ms_freedtree msp) z); intuition lia.
Qed.

(** Freeing at once a block of a transaction group that is not over. *)
Lemma free_now_ok d s A msp offset size txg a :
  ms_inv d s A msp -> s <= txg <= s + 2 ->
  range_in (ms_start msp) (ms_size msp) ashift offset size ->
  ms_alloctree msp !! txg_idx txg = Some a -> (forall z, rng offset size z <= ind a z) ->
  (forall z, rng offset size z = 1 -> ind (ms_freeingtree msp) z = 0) ->
  exists msp', metaslab_free_block env msp offset size txg true = Ok (msp', None) /\ ms_inv d s A msp' /\
    ms_weight msp' = ms_weight msp /\ moved msp msp' (txg_idx txg) (fun z => - rng offset size z) /\
    (forall z, ind (ms_tree msp') z = ind (ms_tree msp) z + rng offset size z).
Proof.
  intros Hi Htxg Hrin Ea Hsub Hnf. pose proof (mi_geom _ _ _ _ Hi) as Hg.
  destruct (inv_alloc_lookup d s A msp txg Hi) as (a0 & Ea0 & Hpa & Hoa).
  rewrite Ea in Ea0. injection Ea0 as <-. destruct (mi_tree _ _ _ _ Hi) as [Ht Hto].
  pose proof (tree_inv_condensing _ _ _ _ Hi) as Hcond.
  destruct (tree_remove _ _ _ Hg (sy_recover env) a offset size Hpa Hrin Hsub) as (a' & Er & Ha' & Hoa' & Hinda').
  destruct (tree_add _ _ _ Hg (sy_recover env) (ms_tree msp) offset size Ht Hrin) as (t' & Et & Ht' & Hot' & Hindt').
  { intros z. destruct (rng_bit offset size z) as [->|Ez]; [destruct (ind_bit (ms_tree msp) z); lia|].
    destruct (own_alloc_range d s A msp txg a offset size z Hi Ea (Hsub z) Ez). lia. }
  unfold metaslab_free_block, tree_at. rewrite Ea. cbn [deref mbind res_bind]. rewrite Er. cbn [mbind res_bind].
  assert (Hsp : rt_space t' = rt_space (ms_tree msp) + size) by (by apply (tree_space_range msp _ _ offset size)).
  destruct (tree_space _ _ _ Hg _ Ht') as [Hsp' _]. destruct (mi_end _ _ _ _ Hi) as [Hb1 Hb2].
  pose proof Hrin as (R1 & R2 & R3 & R4 & R5). destruct Hg as [G1 G2 G3 G4 _ _ _].
  change (ms_is_condensing (set_ms_alloctree msp _)) with (ms_is_condensing msp). rewrite Hcond.
  cbn [negb ms_start ms_size set_ms_alloctree ms_tree]. unfold range_tree_space.
  rewrite !wrap64_small by (unfold is_u64; lia).
  rewrite !(proj2 (Z.leb_le _ _)) by lia. rewrite !P2PHASE_aligned by (done || lia).
  rewrite Et. cbn [mbind res_bind]. eexists. split; [done|].
  split; [|split; [done|]; split; [split_and!; try done; exists a, a'; split_and!; try done; intros z; rewrite Hinda'; lia|exact Hindt']].
  apply inv_max_size.
  change (set_ms_tree (set_ms_alloctree msp ?l) t') with (set_ms_alloctree (set_ms_tree msp t') l).
  apply (inv_move d s A msp t' (txg_idx txg) a a' Hi); try done.
  - destruct (ms_loaded msp) eqn:El; [done|]. destruct (mi_unloaded _ _ _ _ Hi El) as [_ Hn].
    pose proof (Forall_lookup_1 _ _ _ _ Hn Ea) as Hna. specialize (Hsub offset).
    rewrite (proj2 (rng_1 _ _ _)), ind_nil in Hsub by (done || lia). lia.
  - by rewrite Hot'.
  - split; [done|]. by rewrite Hoa'.
  - intros z. rewrite Hinda', Hindt'. lia.
  - by apply txg_idx_clean.
  - intros z Hz. rewrite Hinda'. destruct (rng_bit offset size z) as [->|E]; [lia|].
    specialize (Hnf z E). lia.
  - intros k Hk E Hne. apply (mi_selected _ _ _ _ Hi k a Hk); [by rewrite <- E|].
    intros Hna. apply Hne. eapply tree_nil; [exact Ha'|]. intros z. specialize (Hinda' z).
    rewrite (ind_nil a) in Hinda' by done. destruct (rng_bit offset size z), (ind_bit a' z); lia.
Qed.

(** Freeing, in the transaction group that syncs, a block allocated by then. *)
Lemma free_later_ok d s A msp offset size :
  ms_inv d s A msp -> env_syncing_txg (sy_env env) = s ->
  range_in (ms_start msp) (ms_size msp) ashift offset size ->
  (forall z, rng offset size z = 1 ->
     (A z \/ exists a, ms_alloctree msp !! txg_idx s = Some a /\ ind a z = 1) /\ ind (ms_freeingtree msp) z = 0) ->
  exists msp' dirty, metaslab_free_block env msp offset size s false = Ok (msp', dirty) /\
    ms_inv d s A msp' /\ ms_weight msp' = ms_weight msp /\ ms_tree msp' = ms_tree msp /\ ms_alloctree msp' = ms_alloctree msp /\
    ms_freedtree msp' = ms_freedtree msp /\ ms_start msp' = ms_start msp /\ ms_size msp' = ms_size msp /\
    (forall z, ind (ms_freeingtree msp') z = ind (ms_freeingtree msp) z + rng offset size z).
Proof.
  intros Hi Hs Hrin Hsub. pose proof (mi_geom _ _ _ _ Hi) as Hg. destruct (mi_freeing _ _ _ _ Hi) as [Hf Hfo].
  destruct (tree_add _ _ _ Hg (sy_recover env) (ms_freeingtree msp) offset size Hf Hrin) as (t' & Et & Ht' & Hot' & Hind).
  { intros z. destruct (rng_bit offset size z) as [->|Ez]; [destruct (ind_bit (ms_freeingtree msp) z); lia|].
    destruct (Hsub z Ez). lia. }
  unfold metaslab_free_block. rewrite Hs, Z.eqb_refl. cbn [negb]. rewrite Et. cbn [mbind res_bind].
  eexists _, _. split; [done|]. split; [|split_and!; [done..|exact Hind]].
  pose proof Hi as []. constructor; try done.
  - split; [exact Ht'|]. simpl. by rewrite Hot'.
  - intros z. simpl. rewrite Hind. intros Hz. destruct (rng_bit offset size z) as [E|E].
    + apply mi_freeing_sub0. lia.
    + by apply Hsub.
Qed.

(** ** Loading and unloading *)

Lemma in_run_units st sh start run : 0 <= sh -> (2 ^ sh | st) -> unit_set sh (in_run st sh start run).
Proof.
  intros Hsh Hst. apply unit_set_range; [done| |]; apply Z.divide_add_r; try done; by apply Z.divide_mul_r.
Qed.

(** A log allocates whole units. *)
Lemma log_sets_units st sz sh l A n : geom_ok st sz sh -> log_sets st sz sh l A n -> unit_set sh A.
Proof.
  intros [Hsh _ _ _ Hst _ _] Hl. induction Hl as [A H|l A n e _ IH _|l A A' n start run _ IH _ _ _ _ H|
    l A A' n start run _ IH _ _ _ _ H].
  - intros z z' _ Hz. by destruct (H z).
  - done.
  - eapply unit_set_ext; [intros z; symmetry; apply H|]. apply unit_set_or; [done|]. by apply in_run_units; [lia|].
  - eapply unit_set_ext; [intros z; symmetry; apply H|]. apply unit_set_diff; [done|]. by apply in_run_units; [lia|].
Qed.

Lemma zsum_ind_region msp l z :
  Forall (fun t => plain msp t) l -> 0 < zsum (fun t => ind t z) l -> in_region (ms_start msp) (ms_size msp) z.
Proof.
  induction 1 as [|t l [Ht _] _ IH]; cbn [zsum foldr]; [lia|]. intros Hz.
  destruct (ind_bit t z) as [E|E]; [apply IH; unfold zsum; lia|]. by apply ind_1, (to_region _ _ _ _ Ht) in E.
Qed.

Lemma unloaded_allocs d s A msp z :
  ms_inv d s A msp -> ms_loaded msp = false -> zsum (fun t => ind t z) (ms_alloctree msp) = 0.
Proof.
  intros Hi Hl. destruct (mi_unloaded _ _ _ _ Hi Hl) as [_ Hn]. apply zsum_zero.
  eapply Forall_impl; [exact Hn|]. intros t. apply ind_nil.
Qed.

(** The free tree as the map has it: every offset neither allocated nor freed
    since. *)
Definition map_tree (A : Z -> Prop) msp (t : rtree) : Prop :=
  region_tree msp t /\ rt_ops t = Some metaslab_rt_ops /\
  (forall z, ind t z = 1 <-> in_region (ms_start msp) (ms_size msp) z /\ ~ A z /\ ind (ms_freedtree msp) z = 0).

Lemma unloaded_tree d s A msp :
  ms_inv d s A msp -> ms_loaded msp = false ->
  rt_inv size_index (ms_tree msp) /\ rt_segs (ms_tree msp) = [] /\ rt_ops (ms_tree msp) = Some metaslab_rt_ops.
Proof.
  intros Hi Hl. destruct (mi_unloaded _ _ _ _ Hi Hl) as [Hn _]. destruct (mi_tree _ _ _ _ Hi) as [[] ?]. done.
Qed.

(** A map without entries: the whole region is free. *)
Lemma load_region d s A msp :
  ms_inv d s A msp -> ms_loaded msp = false -> ms_sm msp = None ->
  exists t, range_tree_add (sy_recover env) (ms_tree msp) (ms_start msp) (ms_size msp) = Ok t /\ map_tree A msp t.
Proof.
  intros Hi Hl Esm. destruct (mi_tree _ _ _ _ Hi) as [Ht Hto]. pose proof (mi_geom _ _ _ _ Hi) as Hg.
  destruct (unloaded_tree _ _ _ _ Hi Hl) as (_ & Hn & _).
  destruct (tree_add _ _ _ Hg (sy_recover env) (ms_tree msp) (ms_start msp) (ms_size msp) Ht) as (t & E & Ht' & Ho & Hind).
  { destruct Hg. unfold range_in. split_and!; done || lia. }
  { intros z. rewrite ind_nil by done. destruct (rng_bit (ms_start msp) (ms_size msp) z); lia. }
  exists t. split; [done|]. split; [done|]. split; [by rewrite Ho|]. intros z.
  rewrite Hind, (ind_nil (ms_tree msp)) by done. rewrite Z.add_0_l, rng_1.
  pose proof (mi_sm _ _ _ _ Hi) as HA. unfold sm_records in HA. rewrite Esm in HA.
  pose proof (mi_loadable _ _ _ _ Hi Hl) as Hf. unfold loadable in Hf. rewrite Esm in Hf.
  rewrite (ind_nil _ z Hf). specialize (HA z). unfold in_region. tauto.
Qed.

(** The map as it was at its last update. *)
Definition sm_at_update (sm : space_map) : space_map :=
  let p := sm_phys sm in set_phys sm (SpaceMapPhys (smp_object p) (sm_length sm) (sm_alloc sm) (smp_histogram p)).

Lemma load_entries_phys sm p mt es (rt : rtree) :
  load_entries (sy_recover env) (set_phys sm p) mt es rt = load_entries (sy_recover env) sm mt es rt.
Proof.
  revert rt. induction es as [|e es IH]; intros rt; [done|]. cbn [load_entries].
  assert (E : load_entry (sy_recover env) (set_phys sm p) mt rt e = load_entry (sy_recover env) sm mt rt e)
    by reflexivity.
  rewrite E. destruct (load_entry _ sm _ _ _); [apply IH|done].
Qed.

Lemma load_blocks_phys d sm p mt fuel end_ bufsize off (rt : rtree) :
  load_blocks (sy_recover env) fuel d (set_phys sm p) mt end_ bufsize off rt =
  load_blocks (sy_recover env) fuel d sm mt end_ bufsize off rt.
Proof.
  revert off rt. induction fuel as [|fuel IH]; intros off rt; [done|]. cbn [load_blocks].
  destruct (off <? end_); [|done]. destruct (P2PHASE _ 8 =? 0); [|done]. destruct (negb _); [|done].
  change (space_map_object (Some (set_phys sm p))) with (space_map_object (Some sm)).
  destruct (dmu_read _ _ _ _) as [|es]; [done|]. rewrite load_entries_phys.
  destruct (load_entries _ _ _ _ _); [apply IH|done].
Qed.

(** The counters of the bonus buffer are not read. *)
Lemma space_map_load_phys d sm p mt (rt : rtree) :
  space_map_load (sy_recover env) d (set_phys sm p) rt mt = space_map_load (sy_recover env) d sm rt mt.
Proof.
  unfold space_map_load. cbn [sm_blksz set_phys sm_start sm_size].
  change (space_map_length (Some (set_phys sm p))) with (space_map_length (Some sm)).
  change (space_map_allocated (Some (set_phys sm p))) with (space_map_allocated (Some sm)).
  destruct (_ =? 0); [|done]. destruct (if decide _ then _ else _) as [[]|]; [|done].
  cbn [mbind res_bind]. by rewrite load_blocks_phys.
Qed.

Lemma load_map d s A msp sm :
  ms_inv d s A msp -> ms_loaded msp = false -> ms_sm msp = Some sm -> read_errors_nonzero d sm ->
  exists error t, space_map_load (sy_recover env) d sm (ms_tree msp) SM_FREE = Ok (error, t) /\
    (error <> 0 -> region_tree msp t /\ rt_ops t = Some metaslab_rt_ops /\ rt_segs t = []) /\
    (reads_succeed d sm (sm_length sm) -> error = 0) /\ (error = 0 -> map_tree A msp t).
Proof.
  intros Hi Hl Esm Herr. pose proof (mi_sm _ _ _ _ Hi) as HA. unfold sm_records in HA. rewrite Esm in HA.
  destruct HA as ([Hwf Hlog] & E1 & E2 & E3 & _).
  pose proof (mi_loadable _ _ _ _ Hi Hl) as Hf. unfold loadable in Hf. rewrite Esm in Hf.
  destruct Hf as (Hlen & Hlen8 & Hlog').
  destruct (unloaded_tree _ _ _ _ Hi Hl) as (Hinv & Hn & Hto).
  assert (Hsm : sm_inv d (sm_at_update sm) (fun z => A z \/ ind (ms_freedtree msp) z = 1)).
  { split; [|done]. destruct Hwf. constructor; try done. simpl. lia. }
  destruct (space_map_load_spec size_index (sy_recover env) d (sm_at_update sm) _ (ms_tree msp) SM_FREE Hsm)
    as (error & t & E & Hinv' & Ho & He & Hs & Hok); [by split|exact Herr|exact Hinv|exact Hn|].
  exists error, t. split; [by rewrite <- E; symmetry; apply space_map_load_phys|].
  split; [|split; [exact Hs|]].
  - intros Hne. specialize (He Hne). split; [|by rewrite Ho].
    split; [done| |]; rewrite He; [intros z []%covers_nil|intros z z' _ []%covers_nil].
  - intros E0. destruct (Hok E0) as [_ Hc]. unfold loaded in Hc. simpl in Hc. rewrite E1, E2 in Hc.
    pose proof (mi_geom _ _ _ _ Hi) as Hg. split; [|split; [by rewrite Ho|]].
    + split; [done|by intros z [? _]%Hc|]. eapply unit_set_ext; [intros z; symmetry; apply Hc|].
      apply unit_set_diff.
      * apply unit_set_range; [destruct Hg; lia|apply Hg|apply Z.divide_add_r; apply Hg].
      * rewrite E1, E2, E3 in Hlog'. by apply (log_sets_units _ _ _ _ _ _ Hg Hlog').
    + intros z. rewrite ind_1, Hc. destruct (ind_bit (ms_freedtree msp) z) as [-> | ->]; intuition lia.
Qed.

(** What the map has free, less what is deferred, completes the other trees. *)
Lemma map_tree_owned d s A msp t :
  ms_inv d s A msp -> ms_loaded msp = false -> map_tree A msp t ->
  exists t', walk_remove env (ms_defertree msp) t = Ok t' /\ region_tree msp t' /\
    rt_ops t' = Some metaslab_rt_ops /\
    (forall z, ind t' z = ind t z - zsum (fun t => ind t z) (ms_defertree msp)) /\
    owned A (set_ms_tree (set_ms_loaded msp true) t').
Proof.
  intros Hi Hl (Ht & Hto & Hc). pose proof (mi_geom _ _ _ _ Hi) as Hg.
  destruct (mi_defer _ _ _ _ Hi) as [Hdall _].
  assert (Hbefore : forall z, (A z /\ ind (ms_freedtree msp) z + zsum (fun t => ind t z) (ms_defertree msp) = 0) \/
    (~ A z /\ ind (ms_freedtree msp) z + zsum (fun t => ind t z) (ms_defertree msp) <= 1)).
  { intros z. pose proof (mi_owned _ _ _ _ Hi z) as Ho. unfold own in Ho.
    destruct (unloaded_tree _ _ _ _ Hi Hl) as (_ & Hn & _).
    rewrite (ind_nil (ms_tree msp)), (unloaded_allocs _ _ _ _ z Hi Hl) in Ho by done.
    destruct Ho as [[? ?]|(? & ? & _)]; [left|right]; split; done || lia. }
  assert (Hbits : forall z, 0 <= zsum (fun t => ind t z) (ms_defertree msp) /\
    (0 < zsum (fun t => ind t z) (ms_defertree msp) -> in_region (ms_start msp) (ms_size msp) z)).
  { intros z. split; [apply zsum_ind_nonneg|]. by apply (zsum_ind_region msp). }
  destruct (walk_remove_spec env _ _ _ (ms_defertree msp) t Hg) as (t' & E & Ht' & Ho' & Hind); [|done| |].
  { eapply Forall_impl; [exact Hdall|]. by intros ? []. }
  { intros z. destruct (ind_bit t z) as [E|E]; [|rewrite E; destruct (Hbefore z); destruct (ind_bit (ms_freedtree msp) z); lia].
    destruct (Hbits z) as [H1 H2]. destruct (Hbefore z) as [[_ ?]|[HA ?]].
    { destruct (ind_bit (ms_freedtree msp) z); lia. }
    destruct (decide (0 < zsum (fun t => ind t z) (ms_defertree msp))) as [Hp|]; [|lia].
    assert (ind t z = 1); [|lia]. apply Hc. split; [by apply H2|]. split; [done|].
    destruct (ind_bit (ms_freedtree msp) z); lia. }
  exists t'. split; [done|]. split; [done|]. split; [by rewrite Ho'|]. split; [done|].
  intros z. unfold own. simpl. rewrite Hind, (unloaded_allocs _ _ _ _ z Hi Hl).
  specialize (Hc z). destruct (Hbefore z) as [[HA Hb]|[HA Hb]].
  - left. split; [done|]. destruct (ind_bit t z) as [->|Et]; [|tauto].
    destruct (Hbits z), (ind_bit (ms_freedtree msp) z); lia.
  - right. split; [done|]. pose proof (proj1 (Hbits z)).
    destruct (ind_bit t z), (ind_bit (ms_freedtree msp) z); intuition lia.
Qed.

(** A load fills the free tree or, on a read error, changes nothing. *)
Lemma load_ok d s A msp :
  ms_inv d s A msp -> ms_loaded msp = false ->
  (forall sm, ms_sm msp = Some sm -> read_errors_nonzero d sm) ->
  exists error msp', metaslab_load env d msp = Ok (error, msp') /\ ms_inv d s A msp' /\
    ms_loaded msp' = bool_decide (error = 0) /\
    ((forall sm, ms_sm msp = Some sm -> reads_succeed d sm (sm_length sm)) -> error = 0) /\
    ms_ref_of msp' = ms_ref_of msp /\ kept msp msp'.
Proof.
  intros Hi Hl Herr. unfold metaslab_load.
  assert (Hmap : exists error t, match ms_sm msp with
      | Some sm => space_map_load (sy_recover env) d sm (ms_tree msp) SM_FREE
      | None => t ← range_tree_add (sy_recover env) (ms_tree msp) (ms_start msp) (ms_size msp); Ok (0, t)
      end = Ok (error, t) /\
    (error <> 0 -> region_tree msp t /\ rt_ops t = Some metaslab_rt_ops /\ rt_segs t = []) /\
    ((forall sm, ms_sm msp = Some sm -> reads_succeed d sm (sm_length sm)) -> error = 0) /\
    (error = 0 -> map_tree A msp t)).
  { destruct (ms_sm msp) as [sm|] eqn:Esm.
    - destruct (load_map d s A msp sm Hi Hl Esm (Herr sm eq_refl)) as (error & t & H1 & H2 & H3 & H4).
      exists error, t. split; [done|]. split; [done|]. split; [|done]. intros H. by apply H3, H.
    - destruct (load_region d s A msp Hi Hl Esm) as (t & -> & Ht). by exists 0, t. }
  destruct Hmap as (error & t & -> & Hfail & Hsucc & Hmap). cbn [mbind res_bind].
  destruct (Z.eqb_spec error 0) as [->|Hne].
  - destruct (map_tree_owned d s A msp t Hi Hl (Hmap eq_refl)) as (t' & E & Ht' & Hto' & _ & Hown).
    cbn [ms_defertree ms_tree set_ms_tree]. rewrite take_ge by (by rewrite (proj2 (mi_defer _ _ _ _ Hi))).
    rewrite E. cbn [mbind res_bind]. eexists 0, _. split; [done|]. split; [|done].
    apply inv_max_size. pose proof Hi as []. by constructor.
  - destruct (Hfail Hne) as (Ht & Hto & Hn). eexists error, _. split; [done|].
    split; [|split; [by rewrite bool_decide_false|done]].
    destruct (unloaded_tree _ _ _ _ Hi Hl) as (_ & Hn0 & _). pose proof Hi as []. constructor; try done.
    + intros z. specialize (mi_owned0 z). unfold own in *. simpl. rewrite (ind_nil t) by done.
      by rewrite (ind_nil (ms_tree msp)) in mi_owned0 by done.
    + simpl. intros _. split; [done|]. by apply mi_unloaded0.
Qed.

(** An unload forgets the free tree; the map holds it. *)
Lemma unload_ok d s A msp :
  ms_inv d s A msp -> Forall (fun t => rt_segs t = []) (ms_alloctree msp) -> loadable d A msp ->
  exists msp', metaslab_unload msp = Ok msp' /\ ms_inv d s A msp' /\ ms_loaded msp' = false /\
    ms_start msp' = ms_start msp /\ ms_size msp' = ms_size msp /\ ms_freedtree msp' = ms_freedtree msp.
Proof.
  intros Hi Hn Hload. unfold metaslab_unload. destruct (mi_tree _ _ _ _ Hi) as [Ht Hto].
  destruct (tree_vacate _ _ _ (ms_tree msp) tt Ht) as (t' & -> & Ht' & Hn' & Ho').
  cbn [mbind res_bind]. eexists. split; [done|]. split; [|done]. apply inv_max_size.
  pose proof Hi as []. constructor; try done.
  - split; [exact Ht'|]. simpl. by rewrite Ho'.
  - intros z. specialize (mi_owned0 z). unfold own in *. simpl. rewrite (ind_nil t') by done.
    destruct (ind_bit (ms_tree msp) z), mi_owned0 as [[? ?]|(? & ? & _)];
      ((left; split; [done|]) || (right; split; [done|split; [|done]]));
      pose proof (zsum_ind_nonneg (ms_alloctree msp) z); pose proof (zsum_ind_nonneg (ms_defertree msp) z);
      destruct (ind_bit (ms_freedtree msp) z); lia.
Qed.

(** ** The metaslab in its group *)

Definition in_group (mg : metaslab_group) msp : Prop :=
  mg_tree_wf (mg_metaslab_tree mg) /\ ms_ref_of msp ∈ avl_elements (mg_metaslab_tree mg).

Lemma inv_weight d s A msp w : ms_inv d s A msp -> ms_inv d s A (set_ms_weight msp w).
Proof. by intros []; constructor. Qed.

Lemma inv_activation_weight d s A msp w : ms_inv d s A msp -> ms_inv d s A (set_ms_activation_weight msp w).
Proof. by intros []; constructor. Qed.

Lemma sort_ok mg msp w :
  in_group mg msp -> exists t, metaslab_group_sort mg msp w = Ok (set_mg_tree mg t, set_ms_weight msp w) /\
    in_group (set_mg_tree mg t) (set_ms_weight msp w).
Proof.
  intros [Hw Hin]. destruct (metaslab_group_sort_spec mg msp w Hw Hin) as (t & rest & -> & Hwf & _ & Hp & _).
  exists t. split; [done|]. split; [done|]. simpl. rewrite Hp. by left.
Qed.

(** An activation: the metaslab is loaded, or the error is that of its load. *)
Lemma activate_ok d s A mg msp w :
  ms_inv d s A msp -> in_group mg msp ->
  (forall sm, ms_sm msp = Some sm -> read_errors_nonzero d sm) ->
  exists error mg' msp', metaslab_activate env d mg msp w = Ok (error, mg', msp') /\
    ms_inv d s A msp' /\ in_group mg' msp' /\
    (Z.land (ms_weight msp) METASLAB_ACTIVE_MASK = 0 -> ms_loaded msp' = bool_decide (error = 0)) /\
    (ms_loaded msp = true -> error = 0 /\ ms_tree msp' = ms_tree msp /\ ms_loaded msp' = true) /\
    kept msp msp'.
Proof.
  intros Hi Hin Herr. unfold metaslab_activate.
  destruct (Z.eqb_spec (Z.land (ms_weight msp) METASLAB_ACTIVE_MASK) 0) as [Ew|Ew].
  2:{ eexists 0, _, _. split; [done|]. by split_and!. }
  assert (Hload : exists error m, (if ms_loaded msp then Ok (0, msp) else metaslab_load env d msp) = Ok (error, m) /\
    ms_inv d s A m /\ in_group mg m /\ ms_loaded m = bool_decide (error = 0) /\
    (ms_loaded msp = true -> error = 0 /\ ms_tree m = ms_tree msp /\ ms_loaded m = true) /\
    kept msp m).
  { destruct (ms_loaded msp) eqn:El.
    - exists 0, msp. by split_and!.
    - destruct (load_ok d s A msp Hi El Herr) as (error & m & -> & Hm & Hl & _ & Hr & ?).
      exists error, m. split_and!; try done; unfold in_group; rewrite ?Hr; apply Hin. }
  destruct Hload as (error & m & -> & Hm & Hg & Hl & Hk & H1). cbn [mbind res_bind].
  destruct (Z.eqb_spec error 0) as [->|Hne]; cbn [negb].
  - assert (Hg' : in_group mg (set_ms_activation_weight m (ms_weight m))) by exact Hg.
    destruct (sort_ok _ _ (Z.lor (ms_weight (set_ms_activation_weight m (ms_weight m))) w) Hg') as (t & -> & Hg''). cbn [mbind res_bind].
    eexists 0, _, _. split; [done|]. split; [by apply inv_weight, inv_activation_weight|]. by split_and!.
  - destruct (sort_ok _ _ 0 Hg) as (t & -> & Hg''). cbn [mbind res_bind].
    eexists error, _, _. split; [done|]. split; [by apply inv_weight|]. by split_and!.
Qed.

Lemma preload_ok d s A mg msp :
  ms_inv d s A msp -> in_group mg msp -> env_syncing_txg (sy_env env) = s ->
  (forall sm, ms_sm msp = Some sm -> read_errors_nonzero d sm) ->
  exists msp', metaslab_preload env d msp = Ok msp' /\ ms_inv d s A msp' /\ in_group mg msp' /\ kept msp msp'.
Proof.
  intros Hi Hin Hs Herr. unfold metaslab_preload. destruct (ms_loaded msp) eqn:El.
  - cbn [mbind res_bind]. eexists. split; [done|]. split; [apply inv_select; [done|lia]|]. by split_and!.
  - destruct (load_ok d s A msp Hi El Herr) as (error & m & -> & Hm & Hl & _ & Hr & ?).
    cbn [mbind res_bind]. eexists. split; [done|]. split; [apply inv_select; [done|lia]|].
    split_and!; try done. split; [apply Hin|].
    change (ms_ref_of (set_ms_selected_txg m _)) with (ms_ref_of m). rewrite Hr. apply Hin.
Qed.

(** The activation with which a claim starts: none on a dry run (group 0) or on
    a pool that is not writeable, unless the metaslab has to be loaded. *)
Definition claim_activation d mg msp txg : res (Z * metaslab_group * metaslab) :=
  if (negb (txg =? 0) && env_writeable (sy_env env)) || negb (ms_loaded msp)
  then metaslab_activate env d mg msp METASLAB_WEIGHT_SECONDARY else Ok (0, mg, msp).

Lemma claim_activation_ok d s A mg msp txg :
  ms_inv d s A msp -> in_group mg msp -> (forall sm, ms_sm msp = Some sm -> read_errors_nonzero d sm) ->
  exists error mg1 m, claim_activation d mg msp txg = Ok (error, mg1, m) /\
    ms_inv d s A m /\ in_group mg1 m /\
    (ms_loaded msp = true -> error = 0 /\ ms_tree m = ms_tree msp) /\ kept msp m.
Proof.
  intros Hi Hin Herr. destruct (activate_ok d s A mg msp METASLAB_WEIGHT_SECONDARY Hi Hin Herr)
    as (error & mg1 & m & E & H1 & H2 & _ & H3 & H4). unfold claim_activation.
  destruct (_ || _); [|by exists 0, mg, msp; split_and!]. exists error, mg1, m. split_and!; try done; intros H; by destruct (H3 H) as (? & ? & _).
Qed.

(** A tree contains a block when every offset of it is in one of its segments. *)
Lemma contains_ok m offset size d s A :
  ms_inv d s A m -> range_in (ms_start m) (ms_size m) ashift offset size ->
  exists b, range_tree_contains (ms_tree m) offset size = Ok b /\
    (b = true <-> forall z, rng offset size z <= ind (ms_tree m) z).
Proof.
  intros Hm Hrin. pose proof (mi_geom _ _ _ _ Hm) as Hgeom. destruct (range_in_ok _ _ _ Hgeom _ _ Hrin) as [Hrok _].
  destruct (mi_tree _ _ _ _ Hm) as [[Hinv _ _] _].
  destruct (range_tree_find_spec (R := size_index) (ms_tree m) offset size Hinv Hrok) as (ors & Ef & _ & Hc).
  unfold range_tree_contains. rewrite Ef. cbn [mbind res_bind].
  assert (Hsub : is_Some ors <-> forall z, rng offset size z <= ind (ms_tree m) z).
  { rewrite Hc. split; intros H z.
    - destruct (rng_bit offset size z) as [->|E]; [destruct (ind_bit (ms_tree m) z); lia|].
      rewrite E. apply rng_1 in E. by rewrite (proj2 (ind_1 _ _) (H z E)).
    - intros Hz%rng_1. specialize (H z). apply ind_1. destruct (ind_bit (ms_tree m) z); lia. }
  eexists. split; [done|]. rewrite <- Hsub. destruct ors; by rewrite ?is_Some_alt.
Qed.

(** Claiming a block of the intent log, after the activation: the load's error,
    [ENOENT], a dry run, and the removal from the free tree, which a writeable
    pool records in the tree of the transaction group. *)
Lemma claim_cases d s A mg msp offset size txg error mg1 m :
  claim_activation d mg msp txg = Ok (error, mg1, m) -> ms_inv d s A m -> txg = 0 \/ txg = s ->
  range_in (ms_start m) (ms_size m) ashift offset size ->
  exists error' msp' dirty, metaslab_claim_block env d mg msp offset size txg = Ok (error', mg1, msp', dirty) /\
    (error <> 0 -> error' = error /\ msp' = m /\ dirty = None) /\
    (error = 0 -> ~ (forall z, rng offset size z <= ind (ms_tree m) z) ->
       error' = ENOENT /\ msp' = m /\ dirty = None) /\
    (error = 0 -> (forall z, rng offset size z <= ind (ms_tree m) z) -> error' = 0 /\
       (txg = 0 -> msp' = m /\ dirty = None) /\
       (txg <> 0 -> exists t' a a', ms_alloctree m !! txg_idx txg = Some a /\
          (forall z, ind t' z = ind (ms_tree m) z - rng offset size z) /\
          (forall z, ind a' z = ind a z + rng offset size z) /\
          (forall z, rng offset size z = 1 -> ~ A z /\ own m z = 1 /\ ind (ms_tree m) z = 1) /\
          if env_writeable (sy_env env)
          then ms_inv d s A msp' /\ dirty = (if range_tree_space a =? 0 then Some txg else None) /\
            msp' = set_ms_alloctree (set_ms_tree m t') (<[txg_idx txg := a']> (ms_alloctree m))
          else msp' = set_ms_tree m t' /\ dirty = None)).
Proof.
  intros Hact Hm Htxg Hrin. unfold metaslab_claim_block.
  unfold claim_activation in Hact. rewrite Hact. cbn [mbind res_bind].
  destruct (Z.eqb_spec error 0) as [->|Hne].
  2:{ cbn [mbind res_bind]. rewrite (proj2 (Z.eqb_neq error 0) Hne). cbn [negb orb].
      eexists error, _, _. by split_and!. }
  destruct (contains_ok m offset size d s A Hm Hrin) as (b & Ec & Hsub). rewrite Ec. cbn [mbind res_bind].
  destruct b.
  2:{ cbn. eexists _, _, _. split; [done|]. split_and!; try done. intros _ H%Hsub. done. }
  pose proof (proj1 Hsub eq_refl) as Hs1. change (0 =? 0) with true. cbn [negb orb].
  destruct (Z.eqb_spec txg 0) as [->|Hnz]; [by eexists _, _, _; split_and!|].
  destruct Htxg as [?| ->]; [done|].
  destruct (alloc_move d s A m offset size s Hm ltac:(lia) ltac:(by left) Hrin Hs1) as
    (t' & a & a' & Et & Ea & Eadd & Esp & Hfin & Hind & Hinda & Hown).
  pose proof Hrin as (R1 & R2 & R3 & R4 & R5). pose proof (mi_geom _ _ _ _ Hm) as Hgeom.
  rewrite (tree_inv_condensing _ _ _ _ Hm), !P2PHASE_aligned, Esp, Et by (done || destruct Hgeom; lia).
  cbn [negb mbind res_bind ms_alloctree set_ms_tree]. destruct (env_writeable (sy_env env)).
  - unfold tree_at. rewrite Ea. cbn [deref mbind res_bind]. rewrite Eadd. cbn [mbind res_bind].
    eexists _, _, _. split; [done|]. split_and!; try done. intros _ _. split_and!; [done..|].
    intros _. by exists t', a, a'.
  - eexists _, _, _. split; [done|]. split_and!; try done. intros _ _. split_and!; [done..|].
    intros _. by exists t', a, a'.
Qed.

(** A claim in a writeable pool takes free space only. *)
Lemma claim_ok d s A mg msp offset size txg :
  ms_inv d s A msp -> in_group mg msp -> env_writeable (sy_env env) = true -> txg = 0 \/ txg = s ->
  (forall sm, ms_sm msp = Some sm -> read_errors_nonzero d sm) ->
  range_in (ms_start msp) (ms_size msp) ashift offset size ->
  exists error mg' msp' dirty, metaslab_claim_block env d mg msp offset size txg = Ok (error, mg', msp', dirty) /\
    ms_inv d s A msp' /\ in_group mg' msp' /\
    (if decide (error = 0 /\ txg <> 0)
     then moved msp msp' (txg_idx txg) (rng offset size) /\ (forall z, rng offset size z = 1 -> ~ A z /\ zsum (fun t => ind t z) (ms_alloctree msp) = 0)
     else kept msp msp').
Proof.
  intros Hi Hin Hwr Htxg Herr Hrin.
  destruct (claim_activation_ok d s A mg msp txg Hi Hin Herr) as (eact & mg1 & m & Eact & Hm & Hg & _ & Hk).
  pose proof Hk as (K1 & K2 & K3 & E1 & E2). rewrite <- E1, <- E2 in Hrin.
  destruct (claim_cases d s A mg msp offset size txg eact mg1 m Eact Hm Htxg Hrin)
    as (error & msp' & dirty & E & H1 & H2 & H3). exists error, mg1, msp', dirty. split; [done|].
  destruct (decide (eact = 0)) as [->|Hne].
  2:{ destruct (H1 Hne) as (-> & -> & _). rewrite decide_False by (by intros []). done. }
  destruct (contains_ok m offset size d s A Hm Hrin) as (b & _ & Hsub). destruct b.
  2:{ destruct H2 as (-> & -> & _); [done|by intros H%Hsub|]. rewrite decide_False by (by intros []). done. }
  destruct (H3 eq_refl (proj1 Hsub eq_refl)) as (-> & H0 & Hmv). destruct (decide (txg = 0)) as [Hz|Hnz].
  { destruct (H0 Hz) as [-> _]. rewrite decide_False by (by intros []). done. }
  destruct (Hmv Hnz) as (t' & a & a' & Ea & Ht & Ha & Hown & Hfin). rewrite Hwr in Hfin.
  destruct Hfin as (Hinv' & _ & ->). rewrite decide_True by done. split_and!; try done.
  - unfold moved. rewrite <- K1. split_and!; try done. by exists a, a'.
  - intros z Hz. destruct (Hown z Hz) as (HA & Ho & Hone). split; [done|]. unfold own in Ho. rewrite K1 in Ho.
    pose proof (zsum_ind_nonneg (ms_alloctree msp) z). pose proof (zsum_ind_nonneg (ms_defertree m) z).
    destruct (ind_bit (ms_freedtree m) z); lia.
Qed.

(** ** Writing the map *)

(** What a write to an object keeps, a write to the map keeps. *)
Section Keeps.
Variable P : D -> Prop.
Hypothesis P_write : forall d obj off size ws, P d -> P (dmu_write d obj off size ws).

Lemma write_runs_keeps fuel sm mt start size (w w' : wstate D) :
  write_runs fuel sm mt start size w = Ok w' -> P (w_dmu w) -> P (w_dmu w').
Proof using P_write.
  revert start size w. induction fuel as [|fuel IH]; intros start size w; cbn [write_runs];
    (destruct (size =? 0); [by intros [= ->]|]); [done|].
  match goal with |- context [put_entry _ _ ?x] => set (w1 := x) end.
  assert (E1 : P (w_dmu w) -> P (w_dmu w1)) by (unfold w1; destruct (_ =? _); [apply P_write|done]).
  unfold put_entry. destruct (_ <? _); [|done]. cbn [mbind res_bind]. intros E H. apply (IH _ _ _ E). by apply E1.
Qed.

Lemma space_map_write_keeps d sm (rt : rtree) mt sync_pass txg sm' d' :
  space_map_write d sm rt mt sync_pass txg = Ok (sm', d') -> P d -> P d'.
Proof using P_write.
  assert (Hsegs : forall segs (w : wstate D) tot w' tot',
    write_segs sm mt segs w tot = Ok (w', tot') -> P (w_dmu w) -> P (w_dmu w')).
  { induction segs as [|rs segs IH]; intros w tot w' tot'; cbn [write_segs]; [by intros [= -> _]|].
    destruct (write_runs _ _ _ _ _ w) as [w1|] eqn:E; [|done]. cbn [mbind res_bind].
    intros E' H. apply (IH _ _ _ _ E'). by apply (write_runs_keeps _ _ _ _ _ _ _ E). }
  unfold space_map_write. destruct (negb _); [|done]. destruct (_ =? 0); [by intros [= _ ->]|].
  unfold write_batch, put_entry. destruct (_ <? _); [|done]. cbn [mbind res_bind].
  destruct (write_segs _ _ _ _ _) as [[w tot]|] eqn:E; [|done]. cbn [mbind res_bind].
  destruct (_ =? tot); [|done]. intros [= _ <-] H. unfold finish_write. apply Hsegs in E; [|done].
  destruct (w_buf w); [done|]. by apply P_write.
Qed.

End Keeps.

(** An open map of the metaslab, that records [A], of at most [b] bytes. *)
Record sm_at (d : D) msp (A : Z -> Prop) (sm : space_map) (b : Z) : Prop := {
  sa_inv : sm_inv d sm A;
  sa_geom : sm_start sm = ms_start msp /\ sm_size sm = ms_size msp /\ sm_shift sm = ashift;
  sa_size : smp_objsize (sm_phys sm) <= b;
  sa_array : dmu_exists d (sy_ms_array env) = true /\ sy_ms_array env <> sm_object sm;
  sa_object : object_ok d (sm_object sm)
}.

Lemma sm_inv_ext (d : D) sm A A' : (forall z, A z <-> A' z) -> sm_inv d sm A -> sm_inv d sm A'.
Proof. intros H [? Hl]. split; [done|]. by eapply log_sets_ext. Qed.

Lemma sm_at_ext (d : D) msp A A' sm b : (forall z, A z <-> A' z) -> sm_at d msp A sm b -> sm_at d msp A' sm b.
Proof. intros H []. constructor; try done. by eapply sm_inv_ext. Qed.

Lemma words_prefix (d d' : D) obj n m es :
  (n <= m)%nat -> words d' obj 0 (m + length es) = words d obj 0 m ++ es -> words d' obj 0 n = words d obj 0 n.
Proof.
  intros Hn H. replace (m + length es)%nat with (n + (m - n + length es))%nat in H by lia.
  replace m with (n + (m - n))%nat in H at 2 by lia. rewrite !words_app, <- app_assoc in H.
  apply app_inj_1 in H as [H _]; [done|]. by rewrite !length_words.
Qed.

(** A tree of the region is added to the map or taken out of it. *)
Lemma sm_write_ok d msp A A' sm b (t : rtree) mt pass txg :
  geom_ok (ms_start msp) (ms_size msp) ashift -> sm_at d msp A sm b -> b < 2 ^ 62 -> region_tree msp t ->
  sm_effect mt (covers (rt_segs t)) A A' ->
  exists p d', space_map_write d sm t mt pass txg = Ok (set_phys sm p, d') /\
    sm_at d' msp A' (set_phys sm p) (b + 2 ^ 51) /\ smp_objsize (sm_phys sm) <= smp_objsize p /\
    (forall i, dmu_word d' (sy_ms_array env) i = dmu_word d (sy_ms_array env) i) /\
    (forall n, 8 * Z.of_nat n <= smp_objsize (sm_phys sm) ->
       words d' (sm_object sm) 0 n = words d (sm_object sm) 0 n).
Proof.
  intros Hg [Hinv (E1 & E2 & E3) Hb [Hex Hne] Hob] Hb62 Ht Heff. pose proof Ht as [Hrt _ _].
  pose proof (tree_seg_in _ _ _ Hg t sm Ht E1 E2 E3) as Hin.
  destruct (space_map_write_spec size_index d sm A t mt pass txg A' Hinv Hrt Hin ltac:(lia) Heff)
    as (p & d' & es & E & Hinv' & Hlog & _ & Hoth & Hsz).
  exists p, d'. split; [done|].
  assert (Hlen : smp_objsize p = smp_objsize (sm_phys sm) + 8 * Z.of_nat (length es)).
  { destruct Hinv as [[_ _ _ _ [H1 _] H2] _], Hinv' as [[_ _ _ _ [H3 _] H4] _]. simpl in *.
    apply (f_equal (@length Z)) in Hlog. unfold sm_log in Hlog. rewrite length_app, !length_words in Hlog.
    simpl in Hlog. destruct H2 as [x Hx], H4 as [y Hy]. rewrite Hx, Hy, !Z.div_mul in Hlog by lia. lia. }
  split.
  { constructor; simpl; [done|done|lia|split; [|done]|].
    - apply (space_map_write_keeps (fun d => dmu_exists d (sy_ms_array env) = true)) in E; [done| |done].
      intros *. by rewrite dmu_write_exists.
    - apply (space_map_write_keeps (fun d => object_ok d (sm_object sm))) in E; [done| |done].
      intros *. apply object_ok_write. }
  split; [lia|]. split; [intros i; by apply Hoth|].
  intros n Hn. apply (words_prefix d d' _ n (Z.to_nat (smp_objsize (sm_phys sm) / 8)) es).
  - destruct Hinv as [[_ _ _ _ _ [x Hx]] _]. rewrite Hx in *. rewrite Z.div_mul by lia. lia.
  - unfold sm_log in Hlog. simpl in Hlog. rewrite <- Hlog. f_equal. rewrite Hlen.
    destruct Hinv as [[_ _ _ _ [H _] [x Hx]] _]. rewrite Hx in *.
    replace (x * 8 + 8 * Z.of_nat (length es)) with ((x + Z.of_nat (length es)) * 8) by lia.
    rewrite !Z.div_mul by lia. lia.
Qed.

(** ** Recording a transaction group *)

(** The offsets allocated once the group with the allocations [a] is synced. *)
Definition synced_set (A : Z -> Prop) msp (a : rtree) (z : Z) : Prop :=
  (A z \/ ind a z = 1) /\ ind (ms_freeingtree msp) z = 0.

(** Where an offset can be, with the trees of the four groups apart. *)
Lemma owned_groups d s A msp a0 a1 a2 a3 z :
  ms_inv d s A msp -> ms_alloctree msp !! txg_idx s = Some a0 -> ms_alloctree msp ≡ₚ [a0; a1; a2; a3] ->
  let others := ind (ms_tree msp) z + ind (ms_freedtree msp) z + ind a0 z + ind a1 z + ind a2 z + ind a3 z
    + zsum (fun t => ind t z) (ms_defertree msp) in
  (A z /\ others = 0) \/
  (~ A z /\ ind (ms_freeingtree msp) z <= ind a0 z /\ others <= 1 /\
   (ms_loaded msp = true -> in_region (ms_start msp) (ms_size msp) z -> others = 1)).
Proof.
  intros Hi E0 Hp. pose proof (mi_owned _ _ _ _ Hi z) as Ho. unfold own in Ho.
  rewrite (zsum_perm _ _ _ Hp) in Ho. simpl in Ho. simpl.
  pose proof (mi_freeing_sub _ _ _ _ Hi z) as Hf.
  destruct Ho as [[? ?]|(HA & ? & Hr)]; [left; split; [done|lia]|right].
  split; [done|]. split.
  { destruct (ind_bit (ms_freeingtree msp) z) as [->|F]; [destruct (ind_bit a0 z); lia|].
    destruct (Hf F) as [?|(a & E & H')]; [done|]. rewrite E0 in E. injection E as <-. lia. }
  split; [lia|].
  intros H1 H2. specialize (Hr H1 H2). lia.
Qed.

(** The map written in the ordinary way. *)
Lemma record_ok d0 d s A msp sm b a m pass txg :
  ms_inv d0 s A msp -> sm_at d msp A sm b -> b < 2 ^ 61 -> ms_alloctree msp !! txg_idx s = Some a ->
  exists p d', ('(sm, d) ← space_map_write d sm a SM_ALLOC pass txg;
     '(sm, d) ← space_map_write d sm (ms_freeingtree msp) SM_FREE pass txg;
     Ok (d, set_ms_sm m (Some sm))) = Ok (d', set_ms_sm m (Some (set_phys sm p))) /\
    sm_at d' msp (synced_set A msp a) (set_phys sm p) (b + 2 ^ 52) /\ smp_objsize (sm_phys sm) <= smp_objsize p /\
    (forall i, dmu_word d' (sy_ms_array env) i = dmu_word d (sy_ms_array env) i) /\
    (forall n, 8 * Z.of_nat n <= smp_objsize (sm_phys sm) ->
       words d' (sm_object sm) 0 n = words d (sm_object sm) 0 n).
Proof.
  intros Hi Hsm Hb Ea. pose proof (mi_geom _ _ _ _ Hi) as Hg.
  assert (Hta : region_tree msp a) by (by apply (Forall_lookup_1 _ _ _ _ (proj1 (mi_alloc _ _ _ _ Hi)) Ea)).
  destruct (mi_freeing _ _ _ _ Hi) as [Htf _].
  destruct (sm_write_ok d msp A (fun z => A z \/ ind a z = 1) sm b a SM_ALLOC pass txg Hg Hsm ltac:(lia) Hta)
    as (p1 & d1 & E1 & Hsm1 & Hle1 & Harr1 & Hpre1).
  { split; [|intros z; by rewrite ind_1]. intros z Hz%ind_1 HA. pose proof (zsum_ind_elem _ _ _ z Ea).
    pose proof (mi_owned _ _ _ _ Hi z) as [[_ Ho]|[? _]]; [|done]. unfold own in Ho.
    pose proof (zsum_ind_nonneg (ms_defertree msp) z).
    destruct (ind_bit (ms_tree msp) z), (ind_bit (ms_freedtree msp) z); lia. }
  destruct (sm_write_ok d1 msp _ (synced_set A msp a) (set_phys sm p1) _ (ms_freeingtree msp) SM_FREE pass txg Hg Hsm1
    ltac:(lia) Htf) as (p2 & d2 & E2 & Hsm2 & Hle2 & Harr2 & Hpre2).
  { split.
    { intros z Hz%ind_1. destruct (mi_freeing_sub _ _ _ _ Hi z Hz) as [?|(x & E & Hx)]; [by left|right; congruence]. }
   
    intros z. unfold synced_set. by rewrite ind_0. }
  rewrite E1. cbn [mbind res_bind]. rewrite E2. cbn [mbind res_bind]. exists p2, d2. split; [done|].
  split; [destruct Hsm2; constructor; done || (simpl in *; lia)|]. simpl in *. split; [lia|]. split.
  - intros i. by rewrite Harr2.
  - intros n Hn. rewrite Hpre2 by lia. by apply Hpre1.
Qed.

(** ** Condensing *)

Lemma condensing_id msp x :
  ms_is_condensing msp = false ->
  set_ms_condensing (set_ms_sm (set_ms_condensing msp true) x) false = set_ms_sm msp x.
Proof. destruct msp as [? ? ? ? ? ? [? ? ? [? ?] ?]]. unfold ms_is_condensing. simpl. by intros ->. Qed.

Lemma tree_destroy st sz sh (t : rtree) :
  tree_ok st sz sh t -> exists t' arg, range_tree_vacate t None tt = Ok (t', tt) /\ range_tree_destroy t' = Ok arg.
Proof.
  intros Ht. destruct (tree_vacate _ _ _ t tt Ht) as (t' & E & [(_ & _ & Hsp & _) _ _] & Hn & _).
  exists t'. eexists. split; [done|]. unfold range_tree_destroy. by rewrite Hsp, Hn.
Qed.

(** The tree a condense writes: all that is not being freed, deferred or
    allocated by a later group. *)
Lemma condense_tree_ok d s A msp a0 a1 a2 a3 :
  ms_inv d s A msp -> ms_alloctree msp !! txg_idx s = Some a0 -> ms_alloctree msp ≡ₚ [a0; a1; a2; a3] ->
  exists t1 t2 t3 t4,
    range_tree_add (sy_recover env) plain_tree (ms_start msp) (ms_size msp) = Ok t1 /\
    range_tree_walk (ms_freeingtree msp) (range_tree_remove (sy_recover env)) t1 = Ok t2 /\
    walk_remove env (ms_defertree msp) t2 = Ok t3 /\ walk_remove env [a1; a2] t3 = Ok t4 /\
    region_tree msp t4 /\
    (forall z, ind t4 z = rng (ms_start msp) (ms_size msp) z - ind (ms_freeingtree msp) z
       - zsum (fun t => ind t z) (ms_defertree msp) - ind a1 z - ind a2 z).
Proof.
  intros Hi E0 Hp. pose proof (mi_geom _ _ _ _ Hi) as Hg. destruct (mi_freeing _ _ _ _ Hi) as [Hf _].
  destruct (mi_alloc _ _ _ _ Hi) as [Hall _], (mi_defer _ _ _ _ Hi) as [Hdef _]. rewrite Hp in Hall.
  apply Forall_cons in Hall as [[H0 _] Hall]. apply Forall_cons in Hall as [[H1 _] Hall].
  apply Forall_cons in Hall as [[H2 _] Hall].
  assert (Hr : forall t z, region_tree msp t -> ind t z <= rng (ms_start msp) (ms_size msp) z).
  { intros t z Ht. destruct (ind_bit t z) as [->|E]; [destruct (rng_bit (ms_start msp) (ms_size msp) z); lia|].
    rewrite E. apply ind_1, (to_region _ _ _ _ Ht), rng_1 in E. lia. }
  assert (Hsum : forall z, ind (ms_freeingtree msp) z + zsum (fun t => ind t z) (ms_defertree msp) + ind a1 z + ind a2 z
    <= rng (ms_start msp) (ms_size msp) z).
  { intros z. pose proof (owned_groups d s A msp a0 a1 a2 a3 z Hi E0 Hp) as Ho. cbv zeta in Ho.
    pose proof (Hr _ z Hf). pose proof (Hr _ z H1). pose proof (Hr _ z H2).
    pose proof (zsum_ind_nonneg (ms_defertree msp) z). pose proof (zsum_ind_region msp _ z Hdef) as Hz.
    unfold in_region in Hz. rewrite <- rng_1 in Hz. destruct (ind_bit (ms_tree msp) z), (ind_bit (ms_freedtree msp) z), (ind_bit a0 z),
      (ind_bit a1 z), (ind_bit a2 z), (ind_bit a3 z), (ind_bit (ms_freeingtree msp) z),
      (rng_bit (ms_start msp) (ms_size msp) z); lia. }
  destruct (plain_tree_ok (ms_start msp) (ms_size msp) ashift) as [Hp1 Hp2].
  destruct (tree_add _ _ _ Hg (sy_recover env) plain_tree (ms_start msp) (ms_size msp) Hp1) as (t1 & E1 & Ht1 & _ & I1).
  { destruct Hg. unfold range_in. split_and!; done || lia. }
  { intros z. rewrite ind_nil by done. destruct (rng_bit (ms_start msp) (ms_size msp) z); lia. }
  assert (I1' : forall z, ind t1 z = rng (ms_start msp) (ms_size msp) z) by (intros z; rewrite I1, ind_nil by done; lia).
  destruct (tree_walk_remove _ _ _ (sy_recover env) (ms_freeingtree msp) t1 Hf Ht1) as (t2 & E2 & Ht2 & _ & I2).
  { intros z. rewrite I1'. by apply Hr. }
  destruct (walk_remove_spec env _ _ _ (ms_defertree msp) t2 Hg) as (t3 & E3 & Ht3 & _ & I3); [|done| |].
  { eapply Forall_impl; [exact Hdef|]. by intros ? []. }
  { intros z. rewrite I2, I1'. specialize (Hsum z). destruct (ind_bit a1 z), (ind_bit a2 z); lia. }
  destruct (walk_remove_spec env _ _ _ [a1; a2] t3 Hg) as (t4 & E4 & Ht4 & _ & I4); [by rewrite !Forall_cons|done| |].
  { intros z. simpl. rewrite I3, I2, I1'. specialize (Hsum z). lia. }
  exists t1, t2, t3, t4. split_and!; try done. intros z. rewrite I4, I3, I2, I1'. simpl. lia.
Qed.

(** The map rewritten: it records the same set as the ordinary way. *)
Lemma condense_ok d0 d s A msp sm b :
  ms_inv d0 s A msp -> sm_at d msp A sm b -> ms_loaded msp = true -> rt_segs (ms_freedtree msp) = [] ->
  s <= env_final_dirty_txg (sy_env env) ->
  8 <= sy_space_map_blksz env < B32 -> (8 | sy_space_map_blksz env) ->
  exists a d' sm', ms_alloctree msp !! txg_idx s = Some a /\
    metaslab_condense env d (set_ms_sm msp (Some sm)) s =
      Ok (d', set_ms_sm (set_ms_condense_wanted msp false) (Some sm')) /\
    sm_at d' msp (synced_set A msp a) sm' (2 ^ 52) /\
    (forall i, dmu_word d' (sy_ms_array env) i = dmu_word d (sy_ms_array env) i).
Proof.
  intros Hi [Hinv (E1 & E2 & E3) _ [Hex Hne] Hob] Hl Hfreed Hfin Hb1 Hb2.
  pose proof (mi_geom _ _ _ _ Hi) as Hg. destruct (mi_alloc _ _ _ _ Hi) as [Hall Hlen].
  destruct (txg_trees (ms_alloctree msp) s Hlen) as (a0 & a1 & a2 & a3 & L0 & L1 & L2 & L3 & Hp).
  destruct (condense_tree_ok d0 s A msp a0 a1 a2 a3 Hi L0 Hp) as (t1 & t2 & t3 & t4 & T1 & T2 & T3 & T4 & Ht4 & Hind).
  pose proof (mi_clean _ _ _ _ Hi a3 L3) as Hclean. destruct (mi_tree _ _ _ _ Hi) as [Ht Hto].
  destruct (space_map_truncate_spec d sm (sy_space_map_blksz env) s (env_final_dirty_txg (sy_env env)) (sy_ms_array env))
    as (d1 & sm1 & Etr & Hinv1 & Hsz1 & G1 & G2 & G3 & Hob1 & Hex1 & Hne1 & Harr1); try done; [apply Hinv|].
  assert (Hsm1 : sm_at d1 msp (fun _ => False) sm1 0).
  { constructor; [done| |lia|done|done]. split_and!; congruence. }
  destruct (sm_write_ok d1 msp _ (fun z => ind t4 z = 1) sm1 0 t4 SM_ALLOC (env_sync_pass (sy_env env)) s Hg Hsm1
    ltac:(lia) Ht4) as (p2 & d2 & W2 & Hsm2 & _ & Harr2 & _).
  { split; [by intros z _ []|]. intros z. rewrite ind_1. tauto. }
  assert (Hset : forall z, (ind (ms_tree msp) z = 1 -> ind t4 z = 1) /\
    (ind t4 z = 1 /\ ind (ms_tree msp) z <> 1 <-> synced_set A msp a0 z)).
  { intros z. pose proof (owned_groups d0 s A msp a0 a1 a2 a3 z Hi L0 Hp) as Ho. cbv zeta in Ho.
    rewrite (ind_nil _ z Hfreed), (ind_nil _ z Hclean) in Ho. rewrite Hind. unfold synced_set.
    assert (Hr : A z \/ ind (ms_tree msp) z = 1 \/ ind a0 z = 1 -> rng (ms_start msp) (ms_size msp) z = 1).
    { rewrite rng_1. intros [HA|[H%ind_1|H%ind_1]].
      - rewrite <- E1, <- E2. destruct Hinv as [[Hsg _ _ _ _ _] Hlog].
        by apply (log_sets_region _ _ _ Hsg _ _ _ z Hlog).
      - by apply (to_region _ _ _ _ Ht) in H.
      - apply (Forall_lookup_1 _ _ _ _ Hall) in L0 as [L0 _]. by apply (to_region _ _ _ _ L0) in H. }
    assert (Hr' : rng (ms_start msp) (ms_size msp) z = 1 -> in_region (ms_start msp) (ms_size msp) z) by apply rng_1.
    pose proof (zsum_ind_nonneg (ms_defertree msp) z).
    pose proof (ind_bit (ms_tree msp) z). pose proof (ind_bit a0 z). pose proof (ind_bit a1 z).
    pose proof (ind_bit a2 z). pose proof (ind_bit (ms_freeingtree msp) z). pose proof (rng_bit (ms_start msp) (ms_size msp) z).
    destruct Ho as [[HA Ho]|(HA & Hf & Ho & Ho1)].
    - specialize (Hr (or_introl HA)). split; [lia|]. split; [intros [? _]; split; [by left|lia]|intros [_ ?]; lia].
    - split; [intros H'; specialize (Hr (or_intror (or_introl H'))); lia|]. split.
      + intros [K1 K2]. assert (Hr1 : rng (ms_start msp) (ms_size msp) z = 1) by lia.
        specialize (Ho1 Hl (Hr' Hr1)). split; [right|]; lia.
      + intros [[?|K1] K2]; [done|]. specialize (Hr (or_intror (or_intror K1))). lia. }
  destruct (sm_write_ok d2 msp _ (synced_set A msp a0) (set_phys sm1 p2) _ (ms_tree msp) SM_FREE
    (env_sync_pass (sy_env env)) s Hg Hsm2 ltac:(lia) Ht) as (p3 & d3 & W3 & Hsm3 & _ & Harr3 & _).
  { split; intros z.
    - intros Hz%ind_1. by apply (proj1 (Hset z)).
    - rewrite <- ind_1. symmetry. apply Hset. }
  destruct (tree_destroy _ _ _ t4 Ht4) as (t5 & arg & V & De).
  exists a0, d3, (set_phys sm1 p3). split; [done|]. split.
  - unfold metaslab_condense. cbn [ms_sm set_ms_sm deref mbind res_bind].
    cbn [ms_start ms_size set_ms_condense_wanted set_ms_sm ms_freeingtree ms_defertree ms_alloctree].
    rewrite take_ge by (by rewrite (proj2 (mi_defer _ _ _ _ Hi))). unfold tree_at.
    rewrite T1. cbn [mbind res_bind]. rewrite T2. cbn [mbind res_bind]. rewrite T3. cbn [mbind res_bind].
    rewrite L1, L2. cbn [deref mbind res_bind]. rewrite T4. cbn [mbind res_bind].
    rewrite Etr. cbn [mbind res_bind]. rewrite W2. cbn [mbind res_bind]. rewrite V. cbn [mbind res_bind].
    rewrite De. cbn [mbind res_bind].
    change (space_map_write d2 (set_phys sm1 p2) (ms_tree (set_ms_condensing _ true)) SM_FREE
      (env_sync_pass (sy_env env)) s) with
      (space_map_write d2 (set_phys sm1 p2) (ms_tree msp) SM_FREE (env_sync_pass (sy_env env)) s).
    rewrite W3. cbn [mbind res_bind]. do 2 f_equal. rewrite condensing_id; [done|].
    exact (tree_inv_condensing _ _ _ _ Hi).
  - split; [destruct Hsm3; constructor; done || (simpl in *; lia)|].
    intros i. by rewrite Harr3, Harr2, Harr1.
Qed.

(** ** A sync pass *)

(** What a pass relies on: the transaction group may still be written, the log
    has room, and the first pass of a group starts with no freed blocks. *)
Record sync_ready (d : D) (s : Z) msp : Prop := {
  sr_final : s <= env_final_dirty_txg (sy_env env);
  sr_blksz : 8 <= sy_space_map_blksz env < B32 /\ (8 | sy_space_map_blksz env);
  sr_room sm : ms_sm msp = Some sm -> smp_objsize (sm_phys sm) < 2 ^ 60;
  sr_first : env_sync_pass (sy_env env) = 1 -> rt_segs (ms_freedtree msp) = []
}.

Lemma inv_ext d s A A' msp : (forall z, A z <-> A' z) -> ms_inv d s A msp -> ms_inv d s A' msp.
Proof.
  intros H []. constructor; try done.
  - unfold sm_records in *. destruct (ms_sm msp); [|intros z; by rewrite <- H].
    destruct mi_sm0 as (? & ?). split; [by eapply sm_inv_ext|done].
  - intros z. rewrite <- H. apply mi_owned0.
  - intros z. rewrite <- H. apply mi_freeing_sub0.
  - intros Hl. specialize (mi_loadable0 Hl). unfold loadable in *. destruct (ms_sm msp); [|done].
    destruct mi_loadable0 as (? & ? & Hlog). split; [done|]. split; [done|]. eapply log_sets_ext; [|exact Hlog].
    intros z. simpl. by rewrite H.
Qed.

(** The map of the metaslab, or a new one. *)
Lemma open_ok d s A msp :
  ms_inv d s A msp -> sync_ready d s msp ->
  exists d1 sm, open_space_map env d msp = Ok (d1, sm) /\ sm_at d1 msp A sm (2 ^ 60) /\
    (forall i, dmu_word d1 (sy_ms_array env) i = dmu_word d (sy_ms_array env) i) /\
    (ms_sm msp = Some sm /\ d1 = d \/ ms_sm msp = None).
Proof.
  intros Hi Hr. pose proof (mi_sm _ _ _ _ Hi) as Hsm. destruct (mi_id _ _ _ _ Hi) as [_ Hex].
  unfold open_space_map, sm_records in *. destruct (ms_sm msp) as [sm|] eqn:Esm.
  - destruct Hsm as (H1 & H2 & H3 & H4 & H5 & H6). exists d, sm. split; [done|]. split; [|by auto].
    constructor; try done; [pose proof (sr_room _ _ _ Hr sm Esm); lia|by apply (mi_object _ _ _ _ Hi)].
  - destruct (space_map_alloc d (sy_space_map_blksz env)) as [d1 obj] eqn:Ea.
    apply space_map_alloc_spec in Ea as (Ho & Hfresh & Hfr & Hinfo & Hob & bonus & phys & Eb & Hp1 & Hp2).
    rewrite (proj2 (Z.eqb_neq _ _) Ho). cbn [negb]. unfold space_map_open, space_map_open_impl. cbn [sm_object].
    rewrite Eb. eexists d1, _. split; [done|]. pose proof (Hfresh _ Hex) as Hne.
    split; [|split; [intros i; by apply (Hfr (sy_ms_array env) i)|by right]].
    constructor; simpl; [|done|lia|split; [by apply (Hfr (sy_ms_array env) 0)|done]|done].
    destruct (sr_blksz _ _ _ Hr) as [Hb1 Hb2]. split; [|simpl].
    + constructor; simpl; rewrite ?Hinfo, ?Hp1; try done; [apply (mi_geom _ _ _ _ Hi)|apply Z.divide_0_r].
    + unfold sm_log. simpl. rewrite Hp1, Hp2. by apply log_nil.
Qed.

(** A change of the histogram only. *)
Definition same_counts (p q : space_map_phys) : Prop := smp_objsize q = smp_objsize p /\ smp_alloc q = smp_alloc p.

Lemma sm_at_counts (d : D) msp A sm b q :
  same_counts (sm_phys sm) q -> sm_at d msp A sm b -> sm_at d msp A (set_phys sm q) b.
Proof.
  intros [H1 H2] [[[] Hlog] Hg Hb Hd Hob]. constructor; simpl; try done; [|lia]. split.
  - constructor; simpl; try done; by rewrite H1.
  - unfold sm_log in *. simpl. by rewrite H1, H2.
Qed.

Lemma histogram_add_same sm (t : rtree) :
  sm_object sm <> 0 ->
  exists q, space_map_histogram_add sm t = Ok (set_phys sm q) /\ same_counts (sm_phys sm) q.
Proof.
  intros Ho. unfold space_map_histogram_add. cbn [space_map_object from_option].
  rewrite (proj2 (Z.eqb_neq _ _) Ho). cbn [negb]. destruct (negb _).
  - exists (sm_phys sm). by destruct sm.
  - by eexists.
Qed.

Lemma histogram_adds_same sm (ts : list rtree) :
  sm_object sm <> 0 -> exists q, histogram_adds sm ts = Ok (set_phys sm q) /\ same_counts (sm_phys sm) q.
Proof.
  revert sm. induction ts as [|t ts IH]; intros sm Ho; [exists (sm_phys sm); by destruct sm|].
  cbn [histogram_adds]. destruct (histogram_add_same sm t Ho) as (q & -> & Hq). cbn [mbind res_bind].
  destruct (IH (set_phys sm q) Ho) as (q' & -> & Hq'). exists q'. split; [done|].
  destruct Hq as [? ?], Hq' as [? ?]. simpl in *. split; congruence.
Qed.

(** The histograms of the trees, after the space map is written. *)
Lemma sync_histogram_same sm (loaded : bool) ts (t : rtree) :
  sm_object sm <> 0 ->
  exists sm1 q, (if loaded then histogram_adds (space_map_histogram_clear sm) ts else Ok sm) = Ok sm1 /\
    space_map_histogram_add sm1 t = Ok (set_phys sm q) /\ same_counts (sm_phys sm) q.
Proof.
  intros Ho. assert (Hc : exists q, space_map_histogram_clear sm = set_phys sm q /\ same_counts (sm_phys sm) q).
  { unfold space_map_histogram_clear. destruct (negb _); [exists (sm_phys sm); by destruct sm|by eexists]. }
  assert (H1 : exists q, (if loaded then histogram_adds (space_map_histogram_clear sm) ts else Ok sm) =
    Ok (set_phys sm q) /\ same_counts (sm_phys sm) q).
  { destruct loaded; [|exists (sm_phys sm); by destruct sm]. destruct Hc as (q & -> & [Q1 Q2]).
    destruct (histogram_adds_same (set_phys sm q) ts Ho) as (q' & -> & [Q3 Q4]).
    exists q'. split; [done|]. split; simpl in *; congruence. }
  destruct H1 as (q & -> & [Q1 Q2]).
  destruct (histogram_add_same (set_phys sm q) t Ho) as (q' & E & [Q3 Q4]).
  exists (set_phys sm q), q'. split; [done|]. split; [done|]. split; simpl in *; congruence.
Qed.

(** The metaslab at the end of a pass. *)
Lemma inv_synced d d' s A msp a a' freeing' freed' sm' cw b :
  ms_inv d s A msp -> ms_alloctree msp !! txg_idx s = Some a ->
  plain msp a' -> rt_segs a' = [] -> plain msp freeing' -> rt_segs freeing' = [] -> plain msp freed' ->
  (forall z, ind freed' z = ind (ms_freedtree msp) z + ind (ms_freeingtree msp) z) ->
  sm_at d' msp (synced_set A msp a) sm' b -> dmu_word d' (sy_ms_array env) (ms_id msp) = sm_object sm' ->
  let msp' := set_ms_alloctree (set_ms_freedtree (set_ms_freeingtree
    (set_ms_sm (set_ms_condense_wanted msp cw) (Some sm')) freeing') freed') (<[txg_idx s := a']> (ms_alloctree msp)) in
  (ms_loaded msp = false -> loadable d' (synced_set A msp a) msp') ->
  ms_inv d' s (synced_set A msp a) msp'.
Proof.
  intros Hi Ea Hpa Hna Hpf Hnf Hpd Hfr [Hinv (E1 & E2 & E3) _ [Hex Hne] Hob] Hw msp' Hload.
  pose proof Hi as []. constructor; try done.
  - split; [apply mi_id0|done].
  - by intros sm [= <-].
  - simpl. rewrite length_insert. split; [|apply mi_alloc0]. by apply Forall_insert; [apply mi_alloc0|].
  - intros z. unfold own. simpl. rewrite (zsum_insert _ _ _ a a' Ea), Hfr, (ind_nil a') by done.
    specialize (mi_owned0 z). specialize (mi_freeing_sub0 z). unfold own in mi_owned0. unfold synced_set.
    pose proof (zsum_ind_elem _ _ _ z Ea). pose proof (zsum_ind_nonneg (ms_defertree msp) z).
    pose proof (ind_bit (ms_tree msp) z). pose proof (ind_bit (ms_freedtree msp) z). pose proof (ind_bit a z).
    destruct (ind_bit (ms_freeingtree msp) z) as [F|F]; rewrite F in *.
    + destruct mi_owned0 as [[HA Ho]|(HA & Ho & Hr)].
      * left. split; [split; [by left|done]|lia].
      * destruct (ind_bit a z) as [Fa|Fa]; [right|left].
        { split; [intros [[?|?] _]; [done|lia]|]. split; [lia|]. intros H1' H2'. specialize (Hr H1' H2'). lia. }
        { split; [split; [by right|done]|lia]. }
    + right. split; [intros [_ ?]; lia|].
      assert (Hz : ind a z = 0 /\ A z \/ ind a z = 1 /\ ~ A z).
      { destruct mi_owned0 as [[? ?]|(HA & ? & _)]; [left; split; [lia|done]|right; split; [|done]].
        destruct (mi_freeing_sub0 eq_refl) as [?|(x & Ex & Hx)]; [done|congruence]. }
      destruct Hz as [[Fa HA]|[Fa HA]], mi_owned0 as [[? Ho]|(? & Ho & Hr)]; try done; split; lia.
  - intros z. simpl. rewrite ind_nil by done. lia.
  - intros t. simpl. rewrite list_lookup_insert_ne by (apply txg_idx_clean; lia). apply mi_clean0.
  - intros Hl. simpl in *. destruct (mi_unloaded0 Hl) as [? Hall]. split; [done|]. by apply Forall_insert.
  - intros k t Hk. simpl. rewrite list_lookup_insert_ne; [by apply mi_selected0|].
    intros E. apply (txg_idx_clean (s + k - 3) s); [lia|]. rewrite E. f_equal. lia.
Qed.

(** The object array of the device is updated. *)
Lemma array_write_ok d msp A sm b obj0 :
  sm_at d msp A sm b -> obj0 = sm_object sm -> 0 <= ms_id msp ->
  let d' := dmu_write d (sy_ms_array env) (8 * ms_id msp) 8 [obj0] in
  sm_at d' msp A sm b /\ dmu_word d' (sy_ms_array env) (ms_id msp) = sm_object sm /\
  (forall n, words d' (sm_object sm) 0 n = words d (sm_object sm) 0 n).
Proof.
  intros [[Hwf Hlog] Hg Hb [Hex Hne] Hob] -> Hid. cbv zeta.
  assert (Hd : (8 | 8 * ms_id msp)) by apply Z.divide_factor_l.
  assert (Hdiv : 8 * ms_id msp / 8 = ms_id msp) by (rewrite Z.mul_comm; by apply Z.div_mul).
  assert (Hword : forall o i, dmu_word (dmu_write d (sy_ms_array env) (8 * ms_id msp) 8 [sm_object sm]) o i =
    if decide (o = sy_ms_array env /\ ms_id msp <= i < ms_id msp + 1) then sm_object sm else dmu_word d o i).
  { intros o i. pose proof (dmu_write_spec d (sy_ms_array env) (8 * ms_id msp) [sm_object sm] o i Hd) as Hs.
    simpl length in Hs. change (8 * Z.of_nat 1) with 8 in Hs. rewrite Hdiv in Hs. rewrite Hs.
    change (Z.of_nat 1) with 1. destruct (decide _) as [[-> ?]|]; [|done].
    replace (i - ms_id msp) with 0 by lia. done. }
  assert (Hw : forall n, words (dmu_write d (sy_ms_array env) (8 * ms_id msp) 8 [sm_object sm]) (sm_object sm) 0 n =
    words d (sm_object sm) 0 n).
  { intros n. apply words_ext. intros i _. rewrite Hword, decide_False; [done|]. intros [? _]. congruence. }
  split; [|split; [rewrite Hword, decide_True by lia; done|done]].
  constructor; try done; [|by rewrite dmu_write_exists|by apply object_ok_write]. split; [done|]. unfold sm_log. rewrite Hw. exact Hlog.
Qed.

Lemma array_ok d d2 s A A' msp sm b :
  ms_inv d s A msp -> sm_at d2 msp A' sm b ->
  (forall i, dmu_word d2 (sy_ms_array env) i = dmu_word d (sy_ms_array env) i) ->
  let d3 := if space_map_object (ms_sm msp) =? sm_object sm then d2
    else dmu_write d2 (sy_ms_array env) (8 * ms_id msp) 8 [sm_object sm] in
  sm_at d3 msp A' sm b /\ dmu_word d3 (sy_ms_array env) (ms_id msp) = sm_object sm /\
  (forall n, words d3 (sm_object sm) 0 n = words d2 (sm_object sm) 0 n).
Proof.
  intros Hi Hsm Harr d3. unfold d3. destruct (Z.eqb_spec (space_map_object (ms_sm msp)) (sm_object sm)) as [E|E].
  - split; [done|]. split; [|done]. rewrite Harr. pose proof (mi_sm _ _ _ _ Hi) as H. unfold sm_records in H.
    destruct (ms_sm msp) as [sm0|]; simpl in E.
    + destruct H as (_ & _ & _ & _ & _ & H). congruence.
    + destruct Hsm as [[[_ Ho _ _ _ _] _] _ _ _ _]. congruence.
  - apply array_write_ok; try done. apply (mi_id _ _ _ _ Hi).
Qed.

(** The space map is condensed or written in the ordinary way. *)
Lemma sync_map_ok d0 d s A msp sm a :
  ms_inv d0 s A msp -> sm_at d msp A sm (2 ^ 60) -> sync_ready d0 s msp ->
  ms_alloctree msp !! txg_idx s = Some a ->
  let m := set_ms_sm msp (Some sm) in
  exists d' sm' cw,
    (if ms_loaded m && (env_sync_pass (sy_env env) =? 1)
        && metaslab_should_condense (sy_env env) m sm (doi_data_block_size (dmu_info d (sm_object sm)))
     then metaslab_condense env d m s
     else
       '(sm, d) ← space_map_write d sm a SM_ALLOC (env_sync_pass (sy_env env)) s;
       '(sm, d) ← space_map_write d sm (ms_freeingtree m) SM_FREE (env_sync_pass (sy_env env)) s;
       Ok (d, set_ms_sm m (Some sm))) = Ok (d', set_ms_sm (set_ms_condense_wanted msp cw) (Some sm')) /\
    sm_at d' msp (synced_set A msp a) sm' (2 ^ 61) /\
    (forall i, dmu_word d' (sy_ms_array env) i = dmu_word d (sy_ms_array env) i) /\
    (ms_loaded msp = false -> exists p, sm' = set_phys sm p /\ smp_objsize (sm_phys sm) <= smp_objsize p /\
      forall n, 8 * Z.of_nat n <= smp_objsize (sm_phys sm) ->
        words d' (sm_object sm) 0 n = words d (sm_object sm) 0 n).
Proof.
  intros Hi Hsm Hr Ea m. destruct (_ && _) eqn:Ec.
  - apply andb_true_iff in Ec as [[El Ep%Z.eqb_eq]%andb_true_iff _]. simpl in El.
    destruct (sr_blksz _ _ _ Hr) as [Hb1 Hb2].
    destruct (condense_ok d0 d s A msp sm _ Hi Hsm El (sr_first _ _ _ Hr Ep) (sr_final _ _ _ Hr) Hb1 Hb2)
      as (a' & d' & sm' & Ea' & E & Hsm' & Harr).
    rewrite Ea in Ea'. injection Ea' as <-. exists d', sm', false. split; [exact E|].
    split; [destruct Hsm'; constructor; done || lia|]. split; [done|]. rewrite El. done.
  - destruct (record_ok d0 d s A msp sm _ a m (env_sync_pass (sy_env env)) s Hi Hsm ltac:(lia) Ea)
      as (p & d' & E & Hsm' & Hle & Harr & Hpre).
    exists d', (set_phys sm p), (ms_condense_wanted msp). split; [etransitivity; [exact E|]; by destruct msp|].
    split; [destruct Hsm'; constructor; done || lia|]. split; [done|]. by exists p.
Qed.

(** The freeing tree joins the freed tree. *)
Lemma freeing_to_freed d s A msp m :
  ms_inv d s A msp -> (env_sync_pass (sy_env env) = 1 -> rt_segs (ms_freedtree msp) = []) ->
  ms_freeingtree m = ms_freeingtree msp -> ms_freedtree m = ms_freedtree msp ->
  exists freeing' freed',
    (if env_sync_pass (sy_env env) =? 1 then
       let '(freeing, freed) := range_tree_swap (ms_freeingtree m) (ms_freedtree m) in
       Ok (set_ms_freedtree (set_ms_freeingtree m freeing) freed)
     else
       '(freeing, freed) ←
         range_tree_vacate (ms_freeingtree m) (Some (range_tree_add (sy_recover env))) (ms_freedtree m);
       Ok (set_ms_freedtree (set_ms_freeingtree m freeing) freed)) =
      Ok (set_ms_freedtree (set_ms_freeingtree m freeing') freed') /\
    plain msp freeing' /\ rt_segs freeing' = [] /\ plain msp freed' /\
    (forall z, ind freed' z = ind (ms_freedtree msp) z + ind (ms_freeingtree msp) z).
Proof.
  intros Hi Hp E1 E2. rewrite E1, E2. destruct (mi_freeing _ _ _ _ Hi) as [Hf Hfo], (mi_freed _ _ _ _ Hi) as [Hd Hdo].
  destruct (Z.eqb_spec (env_sync_pass (sy_env env)) 1) as [E|E].
  - eexists _, _. split; [done|]. split_and!; try done; [by apply Hp|]. intros z. rewrite (ind_nil (ms_freedtree msp)); [lia|by apply Hp].
  - destruct (tree_vacate_into _ _ _ (sy_recover env) _ _ Hf Hd) as (t & t' & -> & H1 & H2 & H3 & H4 & H5 & H6).
    { intros z. pose proof (mi_freeing_sub _ _ _ _ Hi z) as Hz. pose proof (mi_owned _ _ _ _ Hi z) as Ho. unfold own in Ho.
      pose proof (zsum_ind_nonneg (ms_alloctree msp) z). pose proof (zsum_ind_nonneg (ms_defertree msp) z).
      pose proof (ind_bit (ms_tree msp) z).
      destruct (ind_bit (ms_freeingtree msp) z) as [F|F], (ind_bit (ms_freedtree msp) z) as [G|G]; rewrite F, G; try lia.
      destruct Ho as [[_ ?]|(? & Ho & _)]; [lia|]. destruct (Hz F) as [?|(x & Ex & Hx)]; [done|].
      pose proof (zsum_ind_elem _ _ _ z Ex). lia. }
    cbn [mbind res_bind]. eexists _, _. split; [done|]. split_and!; congruence || auto.
Qed.

Lemma loadable_synced d d' s A msp sm p a freed' :
  ms_inv d s A msp -> ms_loaded msp = false -> ms_sm msp = Some sm -> ms_alloctree msp !! txg_idx s = Some a ->
  smp_objsize (sm_phys sm) <= smp_objsize p ->
  (forall n, 8 * Z.of_nat n <= smp_objsize (sm_phys sm) ->
     words d' (sm_object sm) 0 n = words d (sm_object sm) 0 n) ->
  (forall z, ind freed' z = ind (ms_freedtree msp) z + ind (ms_freeingtree msp) z) ->
  forall msp', ms_sm msp' = Some (set_phys sm p) -> ms_freedtree msp' = freed' ->
  loadable d' (synced_set A msp a) msp'.
Proof.
  intros Hi Hl Esm Ea Hle Hpre Hfr msp' E1 E2. pose proof (mi_loadable _ _ _ _ Hi Hl) as Hload.
  unfold loadable in *. rewrite E1, E2. rewrite Esm in Hload. destruct Hload as (Hlen & Hlen8 & Hlog). simpl.
  split; [lia|]. split; [done|]. destruct Hlen8 as [x Hx].
  rewrite Hpre by (rewrite Hx in *; rewrite Z.div_mul by lia; lia).
  eapply log_sets_ext; [|exact Hlog]. intros z. cbv beta. unfold synced_set. rewrite Hfr.
  assert (Hna : ind a z = 0).
  { apply ind_nil. destruct (mi_unloaded _ _ _ _ Hi Hl) as [_ Hn]. by apply (Forall_lookup_1 _ _ _ _ Hn Ea). }
  assert (Hsub : ind (ms_freeingtree msp) z = 1 -> A z).
  { intros F. destruct (mi_freeing_sub _ _ _ _ Hi z F) as [?|(y & Ey & Hy)]; [done|congruence]. }
  pose proof (mi_owned _ _ _ _ Hi z) as Ho. unfold own in Ho.
  pose proof (zsum_ind_nonneg (ms_alloctree msp) z). pose proof (zsum_ind_nonneg (ms_defertree msp) z).
  pose proof (ind_bit (ms_tree msp) z).
  destruct (ind_bit (ms_freeingtree msp) z) as [F|F], (ind_bit (ms_freedtree msp) z) as [G|G]; rewrite ?F, ?G in *;
    intuition lia.
Qed.

(** One pass of [metaslab_sync] over the transaction group [s]: the map records
    the allocations of the group and the frees of the pass. *)
Lemma sync_ok d s A mg mc msp a :
  ms_inv d s A msp -> in_group mg msp -> sync_ready d s msp -> ms_alloctree msp !! txg_idx s = Some a ->
  exists d' mg' mc' msp', metaslab_sync env d mg mc msp s = Ok (d', mg', mc', msp') /\
    ms_inv d' s (synced_set A msp a) msp' /\ in_group mg' msp' /\
    rt_segs (ms_freeingtree msp') = [] /\
    (exists a', ms_alloctree msp' = <[txg_idx s := a']> (ms_alloctree msp) /\ rt_segs a' = []) /\
    (forall z, ind (ms_freedtree msp') z = ind (ms_freedtree msp) z + ind (ms_freeingtree msp) z) /\
    ms_tree msp' = ms_tree msp /\ ms_defertree msp' = ms_defertree msp /\
    ms_start msp' = ms_start msp /\ ms_size msp' = ms_size msp.
Proof.
  intros Hi Hin Hr Ea. pose proof (mi_geom _ _ _ _ Hi) as Hg. destruct (mi_freeing _ _ _ _ Hi) as [Hf Hfo].
  assert (Hta : plain msp a) by (by apply (Forall_lookup_1 _ _ _ _ (proj1 (mi_alloc _ _ _ _ Hi)) Ea)).
  unfold metaslab_sync. destruct (ms_alloctree msp) as [|x l] eqn:El; [by rewrite lookup_nil in Ea|].
  rewrite <- El in *. unfold tree_at. rewrite Ea. cbn [deref mbind res_bind]. unfold range_tree_space.
  destruct (tree_space _ _ _ Hg a (proj1 Hta)) as [Hsa Hza], (tree_space _ _ _ Hg _ Hf) as [Hsf Hzf].
  destruct (_ && _ && _) eqn:Ec.
  { apply andb_true_iff in Ec as [[E1%Z.eqb_eq E2%Z.eqb_eq]%andb_true_iff _]. apply Hza in E1. apply Hzf in E2.
    eexists _, _, _, _. split; [done|].
    split; [eapply inv_ext; [|exact Hi]; intros z; unfold synced_set; rewrite (ind_nil a), (ind_nil (ms_freeingtree msp)) by done; intuition lia|].
    split_and!; try done; [exists a; by rewrite list_insert_id|]. intros z. rewrite (ind_nil (ms_freeingtree msp)) by done. lia. }
  rewrite (proj2 (Z.leb_le _ _) (sr_final _ _ _ Hr)).
  destruct (open_ok d s A msp Hi Hr) as (d1 & sm & Eo & Hsm & Harr1 & Hsame).
  rewrite Eo. cbn [mbind res_bind]. set (m := set_ms_sm msp (Some sm)).
  assert (Hhr : exists mg1 mc1, metaslab_group_histogram_remove mg mc m = (mg1, mc1) /\
    mg_metaslab_tree mg1 = mg_metaslab_tree mg) by (by eexists _, _).
  destruct Hhr as (mg1 & mc1 & -> & Hmg1).
  destruct (sync_map_ok d d1 s A msp sm a Hi Hsm Hr Ea)
    as (d2 & sm2 & cw & E2 & Hsm2 & Harr2 & Hun). fold m in E2. rewrite E2. clear E2. cbn [mbind res_bind].
  set (m2 := set_ms_sm (set_ms_condense_wanted msp cw) (Some sm2)). cbn [ms_sm m2 set_ms_sm deref mbind res_bind].
  assert (Ho2 : sm_object sm2 <> 0) by (destruct Hsm2 as [[[] _] _ _ _ _]; done).
  destruct (sync_histogram_same sm2 (ms_loaded m2) (ms_tree m2 :: ms_freedtree m2 :: take TXG_DEFER_SIZE (ms_defertree m2))
    (ms_freeingtree m2) Ho2) as (sm3 & q & E3 & E4 & Hq). rewrite E3. cbn [mbind res_bind]. rewrite E4. cbn [mbind res_bind].
  pose proof (sm_at_counts _ _ _ _ _ _ Hq Hsm2) as Hsm3. set (m3 := set_ms_sm m2 (Some (set_phys sm2 q))).
  assert (Hha : exists mg2 mc2, metaslab_group_histogram_add mg1 mc1 m3 = (mg2, mc2) /\
    mg_metaslab_tree mg2 = mg_metaslab_tree mg1) by (by eexists _, _).
  destruct Hha as (mg2 & mc2 & -> & Hmg2).
  destruct (freeing_to_freed d s A msp m3 Hi (sr_first _ _ _ Hr) eq_refl eq_refl)
    as (freeing' & freed' & E5 & Hpf & Hnf & Hpd & Hfr). rewrite E5. clear E5. cbn [mbind res_bind].
  destruct (tree_vacate _ _ _ a tt (proj1 Hta)) as (a' & E6 & Hta' & Hna' & Hoa'). rewrite E6. cbn [mbind res_bind].
  assert (Hpa' : plain msp a') by (split; [done|]; rewrite Hoa'; apply Hta).
  assert (Hgr : forall m', ms_ref_of m' = ms_ref_of msp -> in_group mg2 m').
  { intros m' Hm. unfold in_group. by rewrite Hm, Hmg2, Hmg1. }
  destruct (array_ok d d2 s A _ msp (set_phys sm2 q) _ Hi Hsm3) as (Hsm4 & Hw4 & Hpre4).
  { intros i. by rewrite Harr2, Harr1. }
  eexists _, mg2, mc2, _. split; [done|].
  split; [|split; [by apply Hgr|split_and!; try done; by exists a']].
  apply (inv_synced d _ s A msp a a' freeing' freed' (set_phys sm2 q) cw (2 ^ 61)); try done.
  intros Hl. destruct (Hun Hl) as (p & -> & Hle & Hpre).
  assert (Esm : ms_sm msp = Some sm /\ d1 = d).
  { destruct Hsame as [?|Esm]; [done|exfalso]. pose proof (mi_sm _ _ _ _ Hi) as HA. unfold sm_records in HA. rewrite Esm in HA.
    destruct (mi_unloaded _ _ _ _ Hi Hl) as [_ Hn]. pose proof (Forall_lookup_1 _ _ _ _ Hn Ea) as Hn1. apply Hza in Hn1.
    assert (Hn2 : rt_segs (ms_freeingtree msp) = []).
    { eapply tree_nil; [exact Hf|]. intros z. specialize (HA z).
      destruct (ind_bit (ms_freeingtree msp) z) as [?|F]; [done|].
      destruct (mi_freeing_sub _ _ _ _ Hi z F) as [?|(y & Ey & Hy)]; [done|].
      rewrite (ind_nil y) in Hy; [lia|]. by apply (Forall_lookup_1 _ _ _ _ Hn Ey). }
    apply Hzf in Hn2. rewrite Hn1, Hn2, Hl in Ec. done. }
  destruct Esm as [Esm ->]. destruct Hq as [Hq _]. simpl in Hq.
  eapply (loadable_synced d _ s A msp sm q a freed' Hi Hl Esm Ea); [lia| |done|done|done].
  intros n Hn. simpl in Hpre4. rewrite <- Hpre by done. apply Hpre4.
Qed.

(** ** The end of a transaction group *)

Lemma fragmentation_ok msp :
  exists c f dirty, metaslab_set_fragmentation (sy_env env) msp =
    (set_ms_fragmentation (set_ms_condense_wanted msp c) f, dirty).
Proof.
  unfold metaslab_set_fragmentation. destruct (negb _); [destruct msp; by eexists _, _, _|].
  destruct (ms_sm msp); [|destruct msp; by eexists _, _, _].
  destruct (negb _); [destruct (_ && _)|destruct (frag_loop _ _ _ _ _)]; destruct msp; by eexists _, _, _.
Qed.

Lemma weight_ok msp :
  exists w c f v dirty, metaslab_weight (sy_env env) msp =
    Ok (w, set_ms_max_size (set_ms_fragmentation (set_ms_condense_wanted msp c) f) v, dirty).
Proof.
  unfold metaslab_weight. destruct (env_removing _); [destruct msp; eexists _, _, _, _, _; reflexivity|].
  destruct (fragmentation_ok msp) as (c & f & dirty & ->). set (m := if ms_loaded _ then _ else _).
  assert (Hm : exists v, m = set_ms_max_size (set_ms_fragmentation (set_ms_condense_wanted msp c) f) v).
  { unfold m. destruct (ms_loaded _); destruct msp; by eexists. }
  assert (Hw : exists w, metaslab_segment_weight (sy_env env) m = Ok w).
  { unfold metaslab_segment_weight, metaslab_weight_from_spacemap. destruct (ms_sm m) eqn:E; simpl; [|by eexists].
    destruct (_ =? 0); [by eexists|]. destruct (_ =? _); [by eexists|]. destruct (ms_loaded m); by eexists. }
  destruct Hm as [v ->], Hw as [w Hw].
  destruct (_ && _); [rewrite Hw|]; eexists _, c, f, v, dirty; reflexivity.
Qed.

Lemma inv_weighed d s A msp c f v :
  ms_inv d s A msp ->
  ms_inv d s A (set_ms_max_size (set_ms_fragmentation (set_ms_condense_wanted msp c) f) v).
Proof. by intros []; constructor. Qed.

(** An assignment to the weight that leaves the metaslab where it is. *)
Lemma mg_write_ok mg msp msp' :
  in_group mg msp -> ms_start msp' = ms_start msp ->
  exists mg', mg_write mg msp msp' = Ok mg' /\ in_group mg' msp'.
Proof.
  intros [[Hwf Hnd] (l1 & l2 & He)%list_elem_of_split] Hst. unfold mg_write.
  destruct (avl_write_split (mg_metaslab_tree mg) l1 (ms_ref_of msp) l2 (ms_ref_of msp') Hwf) as (t & -> & Hwf' & He').
  { apply mg_tree_NoDup. by split. }
  { done. }
  cbn [mbind res_bind]. eexists. split; [done|]. unfold in_group. simpl. rewrite He'. split; [split; [done|]|].
  - rewrite He'. rewrite He, !fmap_app in Hnd. rewrite !fmap_app, !fmap_cons in *. simpl in *. by rewrite Hst.
  - apply elem_of_app. right. by left.
Qed.

(** A tree given back to the free tree, or forgotten when there is none. *)
Lemma vacate_to_free_ok msp m t :
  region_tree msp (ms_tree m) -> region_tree msp t -> (forall z, ind (ms_tree m) z + ind t z <= 1) ->
  exists t' free, vacate_to_free env m t = Ok (t', free) /\ region_tree msp t' /\ rt_segs t' = [] /\
    rt_ops t' = rt_ops t /\ region_tree msp free /\ rt_ops free = rt_ops (ms_tree m) /\
    (forall z, ind free z = ind (ms_tree m) z + (if ms_loaded m then ind t z else 0)).
Proof.
  intros Hf Ht Hd. unfold vacate_to_free. destruct (ms_loaded m).
  - destruct (tree_vacate_into _ _ _ (sy_recover env) t (ms_tree m) Ht Hf) as (t' & free & -> & H1 & H2 & H3 & H4 & H5 & H6).
    { intros z. specialize (Hd z). lia. }
    exists t', free. by split_and!.
  - destruct (tree_vacate _ _ _ t (ms_tree m) Ht) as (t' & -> & H1 & H2 & H3).
    exists t', (ms_tree m). split_and!; try done. intros z. lia.
Qed.

Lemma group_add_ok mg mc msp :
  mg_tree_wf (mg_metaslab_tree mg) -> ms_start msp ∉ mr_start <$> avl_elements (mg_metaslab_tree mg) ->
  exists mg' mc', metaslab_group_add mg mc msp = Ok (mg', mc', set_ms_weight msp 0) /\
    in_group mg' (set_ms_weight msp 0) /\ mg_vd mg' = mg_vd mg.
Proof.
  intros Hwf Hni. unfold metaslab_group_add.
  destruct (mg_tree_add (mg_metaslab_tree mg) (ms_ref_of (set_ms_weight msp 0)) Hwf Hni) as (t & -> & Hwf' & Hp & _).
  cbn [mbind res_bind].
  assert (Hh : exists mg' mc', metaslab_group_histogram_add (set_mg_tree mg t) mc (set_ms_weight msp 0) = (mg', mc') /\
    mg_metaslab_tree mg' = t /\ mg_vd mg' = mg_vd mg).
  { unfold metaslab_group_histogram_add. destruct (ms_sm _); by eexists _, _. }
  destruct Hh as (mg' & mc' & -> & Ht & Hv). exists mg', mc'. split; [done|]. split; [|done].
  unfold in_group. rewrite Ht. split; [done|]. rewrite Hp. by left.
Qed.

(** The trees of the next transaction group: the freed blocks are deferred or
    given back, and the blocks deferred two groups ago are given back. *)
Lemma inv_rotated d s A msp a di dt t' freed' dt' ds :
  ms_inv d s A msp -> ms_alloctree msp !! txg_idx s = Some a -> rt_segs a = [] ->
  rt_segs (ms_freeingtree msp) = [] -> ms_defertree msp !! di = Some dt ->
  region_tree msp t' -> rt_ops t' = Some metaslab_rt_ops -> plain msp freed' -> rt_segs freed' = [] -> plain msp dt' ->
  (forall z, ind t' z + ind dt' z <= ind (ms_tree msp) z + ind dt z + ind (ms_freedtree msp) z) ->
  (ms_loaded msp = true ->
     forall z, ind t' z + ind dt' z = ind (ms_tree msp) z + ind dt z + ind (ms_freedtree msp) z) ->
  (ms_loaded msp = false -> rt_segs t' = []) ->
  ds = ms_deferspace msp - rt_space dt + rt_space dt' ->
  let m := set_ms_deferspace (set_ms_sm (set_ms_defertree (set_ms_freedtree (set_ms_tree msp t') freed')
    (<[di := dt']> (ms_defertree msp))) (space_map_update <$> ms_sm msp)) ds in
  ms_inv d (s + 1) A m /\ loadable d A m.
Proof.
  intros Hi Ea Hna Hnf Edt Ht' Hto' Hpf Hnf' Hpd Hle Heq Hun -> m. pose proof Hi as [].
  assert (Hload : loadable d A m).
  { unfold loadable, m. simpl. unfold sm_records in mi_sm0. destruct (ms_sm msp) as [sm|]; simpl; [|done].
    destruct mi_sm0 as ([Hwf Hlog] & _). pose proof (wf_objsize _ Hwf). pose proof (wf_objsize8 _ Hwf).
    split; [lia|]. split; [done|]. eapply log_sets_ext; [|exact Hlog]. intros z. cbv beta. rewrite ind_nil by done. intuition lia. }
  split; [|done]. constructor; try done.
  - unfold sm_records, m in *. simpl. destruct (ms_sm msp) as [sm|]; [|done].
    destruct mi_sm0 as ([[] Hlog] & H). split; [|exact H]. split; [by constructor|done].
  - simpl. destruct (ms_sm msp) as [sm|] eqn:Esm; [|done]. intros ? [= <-]. by apply (mi_object0 sm).
  - simpl. rewrite length_insert. split; [|apply mi_defer0]. by apply Forall_insert; [apply mi_defer0|].
  - intros z. specialize (mi_owned0 z). specialize (Hle z). unfold own in *. simpl.
    rewrite (zsum_insert _ _ _ dt dt' Edt), (ind_nil freed') by done.
    pose proof (zsum_ind_nonneg (ms_alloctree msp) z). pose proof (zsum_ind_elem _ _ _ z Edt).
    pose proof (ind_bit t' z). pose proof (ind_bit dt' z).
    destruct mi_owned0 as [[HA Ho]|(HA & Ho & Hr)]; [left; split; [done|lia]|right].
    split; [done|]. split; [lia|]. intros L1 L2. specialize (Hr L1 L2). specialize (Heq L1 z). lia.
  - intros z. simpl. rewrite ind_nil by done. lia.
  - intros t. simpl. replace (txg_idx (s + 1 + 3)) with (txg_idx s); [congruence|].
    rewrite !txg_idx_mod. f_equal. replace (s + 1 + 3) with (s + 1 * 4) by lia. by rewrite Z.mod_add.
  - intros Hl. simpl in *. split; [by apply Hun|]. by apply mi_unloaded0.
  - simpl. rewrite (zsum_insert _ _ _ dt dt' Edt). lia.
  - simpl. intros k t Hk. replace (s + 1 + k) with (s + (1 + k)) by lia. intros Et Hne.
    destruct (decide (k = 1)) as [->|]; [apply (mi_selected0 2 t); [lia|done|done]|].
    replace k with 2 in * by lia. by destruct Hne, (mi_clean0 t).
  - simpl. lia.
Qed.

(** The metaslab is unloaded when nothing selected it lately. *)
Lemma unload_step_ok d s A mg m t0 t1 t2 t3 :
  ms_inv d (s + 1) A m -> in_group mg m -> loadable d A m ->
  ms_alloctree m ≡ₚ [t0; t1; t2; t3] -> ms_alloctree m !! txg_idx (s + 1) = Some t1 ->
  ms_alloctree m !! txg_idx (s + 2) = Some t2 -> rt_segs t0 = [] -> rt_segs t3 = [] ->
  (rt_segs t1 <> [] -> s + 1 <= ms_selected_txg m + 2) -> (rt_segs t2 <> [] -> s + 2 <= ms_selected_txg m + 2) ->
  1 <= sy_unload_delay env -> s + 3 + sy_unload_delay env < B64 ->
  exists mg' m',
    (if ms_loaded m && (wrap64 (ms_selected_txg m + sy_unload_delay env) <? s) then
       t1 ← tree_at (ms_alloctree m) (txg_idx (s + 1));
       VERIFY (range_tree_space t1 =? 0) ;;
       t2 ← tree_at (ms_alloctree m) (txg_idx (s + 2));
       VERIFY (range_tree_space t2 =? 0) ;;
       if sy_debug_unload env then Ok (mg, m) else
       m' ← metaslab_unload m;
       mg ← mg_write mg m m';
       Ok (mg, m')
     else Ok (mg, m)) = Ok (mg', m') /\
    ms_inv d (s + 1) A m' /\ in_group mg' m' /\ ms_start m' = ms_start m /\ ms_size m' = ms_size m /\
    ms_freedtree m' = ms_freedtree m /\ ms_freeingtree m' = ms_freeingtree m /\ ms_defertree m' = ms_defertree m /\
    ms_alloctree m' = ms_alloctree m /\ ms_sm m' = ms_sm m /\
    if ms_loaded m' then ms_loaded m = true /\ ms_tree m' = ms_tree m else rt_segs (ms_tree m') = [].
Proof.
  intros Hi Hin Hload Hp L1 L2 N0 N3 S1 S2 Hd1 Hd2. pose proof (mi_seltxg _ _ _ _ Hi) as Hsel.
  rewrite wrap64_small by (unfold is_u64; lia).
  assert (Hself : if ms_loaded m then ms_loaded m = true /\ ms_tree m = ms_tree m else rt_segs (ms_tree m) = []).
  { destruct (ms_loaded m) eqn:El; [done|]. by apply (mi_unloaded _ _ _ _ Hi). }
  destruct (_ && _) eqn:Ec; [|eexists _, _; split; [done|]; by split_and!].
  apply andb_true_iff in Ec as [El Hlt%Z.ltb_lt].
  assert (N1 : rt_segs t1 = []) by (destruct (rt_segs t1); [done|specialize (S1 ltac:(done)); lia]).
  assert (N2 : rt_segs t2 = []) by (destruct (rt_segs t2); [done|specialize (S2 ltac:(done)); lia]).
  pose proof (proj1 (mi_alloc _ _ _ _ Hi)) as Hall. pose proof (mi_geom _ _ _ _ Hi) as Hg.
  assert (Hz : forall i t, ms_alloctree m !! i = Some t -> rt_segs t = [] -> (range_tree_space t =? 0) = true).
  { intros i t Et Hn. apply (Forall_lookup_1 _ _ _ _ Hall) in Et as [Et _].
    destruct (tree_space _ _ _ Hg t Et) as [_ Hs]. by apply Z.eqb_eq, Hs. }
  unfold tree_at. rewrite L1, L2. cbn [deref mbind res_bind]. rewrite (Hz _ _ L1 N1), (Hz _ _ L2 N2).
  destruct (sy_debug_unload env); [eexists _, _; split; [done|]; by split_and!|].
  destruct (unload_ok d (s + 1) A m Hi) as (m' & E & Hi' & El' & E1 & E2 & E3); [|done|].
  { rewrite Hp. by rewrite !Forall_cons. }
  rewrite E. cbn [mbind res_bind]. destruct (mg_write_ok mg m m' Hin E1) as (mg' & -> & Hin').
  cbn [mbind res_bind]. eexists _, _. split; [done|]. split_and!; try done.
  all: try (rewrite El'; by apply (mi_unloaded _ _ _ _ Hi')).
  all: unfold metaslab_unload in E; destruct (range_tree_vacate _ _ _) as [[]|]; [|done]; by injection E as <-.
Qed.

Abbreviation defer_idx s := (Z.to_nat (s mod Z.of_nat TXG_DEFER_SIZE)).

Lemma inv_defer_lookup d s A msp txg :
  ms_inv d s A msp -> exists t, ms_defertree msp !! defer_idx txg = Some t /\ plain msp t.
Proof.
  intros Hi. destruct (mi_defer _ _ _ _ Hi) as [Hall Hlen].
  assert (Hlt : (defer_idx txg < length (ms_defertree msp))%nat).
  { rewrite Hlen. unfold TXG_DEFER_SIZE. pose proof (Z.mod_pos_bound txg 2). lia. }
  destruct (lookup_lt_is_Some_2 _ _ Hlt) as [t E]. exists t. split; [done|]. by apply (Forall_lookup_1 _ _ _ _ Hall E).
Qed.

(** The two ways of rotating the trees. *)
Lemma rotate_ok d s A msp a dt (allowed : bool) :
  ms_inv d s A msp -> ms_alloctree msp !! txg_idx s = Some a -> rt_segs a = [] ->
  rt_segs (ms_freeingtree msp) = [] -> ms_defertree msp !! defer_idx s = Some dt ->
  exists dt0 t t' freed' dt', vacate_to_free env msp dt = Ok (dt0, t) /\
    (if allowed then
       let '(freed, defer_tree) := range_tree_swap (ms_freedtree (set_ms_tree msp t)) dt0 in
       Ok (set_ms_defertree (set_ms_freedtree (set_ms_tree msp t) freed)
         (<[defer_idx s := defer_tree]> (ms_defertree (set_ms_tree msp t))))
     else
       '(freed, t') ← vacate_to_free env (set_ms_tree msp t) (ms_freedtree (set_ms_tree msp t));
       Ok (set_ms_defertree (set_ms_tree (set_ms_freedtree (set_ms_tree msp t) freed) t')
         (<[defer_idx s := dt0]> (ms_defertree (set_ms_tree msp t))))) =
    Ok (set_ms_defertree (set_ms_freedtree (set_ms_tree msp t') freed') (<[defer_idx s := dt']> (ms_defertree msp))) /\
    dt' = (if allowed then ms_freedtree msp else dt') /\ (allowed = false -> rt_segs dt' = [] /\ rt_space dt' = 0) /\
    (ms_loaded msp = true ->
       forall z, ind t' z + ind dt' z = ind (ms_tree msp) z + ind dt z + ind (ms_freedtree msp) z) /\
    forall ds, ds = ms_deferspace msp - rt_space dt + rt_space dt' ->
    let m := set_ms_deferspace (set_ms_sm (set_ms_defertree (set_ms_freedtree (set_ms_tree msp t') freed')
      (<[defer_idx s := dt']> (ms_defertree msp))) (space_map_update <$> ms_sm msp)) ds in
    ms_inv d (s + 1) A m /\ loadable d A m /\ rt_segs freed' = [].
Proof.
  intros Hi Ea Hna Hnf Edt. destruct (mi_tree _ _ _ _ Hi) as [Ht Hto], (mi_freed _ _ _ _ Hi) as [Hfd Hfdo].
  assert (Hpd : plain msp dt) by (by apply (Forall_lookup_1 _ _ _ _ (proj1 (mi_defer _ _ _ _ Hi)) Edt)).
  assert (Hsum : forall z, ind (ms_tree msp) z + ind dt z + ind (ms_freedtree msp) z <= 1).
  { intros z. pose proof (mi_owned _ _ _ _ Hi z) as Ho. unfold own in Ho. pose proof (zsum_ind_elem _ _ _ z Edt).
    pose proof (zsum_ind_nonneg (ms_alloctree msp) z). lia. }
  destruct (vacate_to_free_ok msp msp dt Ht (proj1 Hpd)) as (dt0 & t & Ev & Hd1 & Hd2 & Hd3 & Hf1 & Hf2 & Hf3).
  { intros z. specialize (Hsum z). pose proof (ind_bit (ms_freedtree msp) z). lia. }
  assert (Hp0 : plain msp dt0) by (split; [done|]; rewrite Hd3; apply Hpd).
  pose proof (mi_unloaded _ _ _ _ Hi) as Hun. rewrite Hto in Hf2. destruct allowed.
  - exists dt0, t, t, dt0, (ms_freedtree msp). split; [done|]. split; [done|]. split; [done|]. split; [done|].
    assert (Heq : ms_loaded msp = true ->
      forall z, ind t z + ind (ms_freedtree msp) z = ind (ms_tree msp) z + ind dt z + ind (ms_freedtree msp) z)
      by (intros El z; rewrite Hf3, El; lia).
    split; [done|]. intros ds Hds. cbv zeta. rewrite (and_assoc (ms_inv _ _ _ _)). split; [|done].
    apply (inv_rotated d s A msp a _ dt t dt0 (ms_freedtree msp) ds); try done.
    + intros z. rewrite Hf3. pose proof (ind_bit dt z). destruct (ms_loaded msp); lia.
    + intros El. eapply tree_nil; [exact Hf1|]. intros z. rewrite Hf3, El, ind_nil by (by apply Hun). lia.
  - destruct (vacate_to_free_ok msp (set_ms_tree msp t) (ms_freedtree msp) Hf1 Hfd)
      as (freed' & t' & Ev2 & Hr1 & Hr2 & Hr3 & Hg1 & Hg2 & Hg3).
    { intros z. simpl. rewrite Hf3. specialize (Hsum z). pose proof (ind_bit dt z). destruct (ms_loaded msp); lia. }
    simpl in Hg2, Hg3. exists dt0, t, t', freed', dt0. split; [done|]. cbn [ms_freedtree set_ms_tree ms_defertree].
    split; [rewrite Ev2; done|]. split; [done|].
    split; [intros _; split; [done|]; by apply (tree_space _ _ _ (mi_geom _ _ _ _ Hi) dt0 Hd1)|].
    assert (Heq : ms_loaded msp = true ->
      forall z, ind t' z + ind dt0 z = ind (ms_tree msp) z + ind dt z + ind (ms_freedtree msp) z)
      by (intros El z; rewrite Hg3, Hf3, El, (ind_nil dt0) by done; lia).
    split; [done|].
    intros ds Hds. cbv zeta. rewrite (and_assoc (ms_inv _ _ _ _)). split; [|done].
    apply (inv_rotated d s A msp a _ dt t' freed' dt0 ds); try done.
    + congruence.
    + split; [done|]. congruence.
    + intros z. rewrite Hg3, Hf3, (ind_nil dt0) by done.
      pose proof (ind_bit dt z). pose proof (ind_bit (ms_freedtree msp) z). destruct (ms_loaded msp); lia.
    + intros El. eapply tree_nil; [exact Hg1|]. intros z. rewrite Hg3, Hf3, El, ind_nil by (by apply Hun). lia.
Qed.

(** [metaslab_sync_done] of a group whose passes are over. *)
Lemma sync_done_ok d s A mg msp ss normal_free a :
  ms_inv d s A msp -> in_group mg msp -> ms_alloctree msp !! txg_idx s = Some a -> rt_segs a = [] ->
  rt_segs (ms_freeingtree msp) = [] -> 1 <= sy_unload_delay env -> s + 3 + sy_unload_delay env < B64 ->
  exists mg' msp' ss' dirty, metaslab_sync_done env mg msp ss normal_free s = Ok (mg', msp', ss', dirty) /\
    ms_inv d (s + 1) A msp' /\ in_group mg' msp' /\
    rt_segs (ms_freedtree msp') = [] /\ rt_segs (ms_freeingtree msp') = [] /\
    ms_alloctree msp' = ms_alloctree msp /\ ms_start msp' = ms_start msp /\ ms_size msp' = ms_size msp /\
    ms_sm msp' = space_map_update <$> ms_sm msp /\ 
    exists dt dt', ms_defertree msp !! defer_idx s = Some dt /\
      ms_defertree msp' = <[defer_idx s := dt']> (ms_defertree msp) /\
      (if class_free_space env ss normal_free <=? sy_slop_space env then rt_segs dt' = []
       else dt' = ms_freedtree msp) /\
      if ms_loaded msp' then ms_loaded msp = true /\
        forall z, ind (ms_tree msp') z + ind dt' z = ind (ms_tree msp) z + ind dt z + ind (ms_freedtree msp) z
      else rt_segs (ms_tree msp') = [].
Proof.
  intros Hi Hin Ea Hna Hnf Hd1 Hd2. unfold metaslab_sync_done.
  assert (E0 : forall X, match ms_alloctree msp with [] => X | _ => (msp, ss) end = (msp, ss)).
  { intros X. destruct (ms_alloctree msp); [by rewrite lookup_nil in Ea|done]. }
  rewrite E0. clear E0.
  destruct (inv_defer_lookup d s A msp s Hi) as (dt & Edt & Hpdt).
  assert (Et : tree_at (ms_defertree msp) (defer_idx s) = Ok dt) by (unfold tree_at; by rewrite Edt). rewrite Et. clear Et.
  cbn [mbind res_bind]. set (allowed := negb (class_free_space env ss normal_free <=? sy_slop_space env)).
  destruct (rotate_ok d s A msp a dt allowed Hi Ea Hna Hnf Edt) as (dt0 & t & t' & freed' & dt' & Ev & Er & Hdt & Hdt' & Heq & Hrot).
  rewrite Ev. cbn [mbind res_bind]. rewrite Er. cbn [mbind res_bind].
  match goal with |- context [metaslab_weight _ ?x] => set (m := x) end.
  assert (Hm : ms_inv d (s + 1) A m /\ loadable d A m /\ rt_segs freed' = []).
  { apply Hrot. simpl. unfold range_tree_space. destruct allowed; [subst dt'; lia|].
    destruct (Hdt' eq_refl) as [_ ->]. lia. }
  destruct Hm as (Him & Hload & Hnfr). destruct (weight_ok m) as (w & c & f & v & dirty & ->). cbn [mbind res_bind].
  set (m1 := set_ms_max_size _ v). assert (Him1 : ms_inv d (s + 1) A m1) by (by apply inv_weighed).
  assert (Hin1 : in_group mg m1) by exact Hin.
  destruct (sort_ok mg m1 w Hin1) as (tr & -> & Hin2). cbn [mbind res_bind].
  destruct (txg_trees (ms_alloctree msp) s (proj2 (mi_alloc _ _ _ _ Hi))) as (t0 & t1 & t2 & t3 & L0 & L1 & L2 & L3 & Hp).
  destruct (unload_step_ok d s A (set_mg_tree mg tr) (set_ms_weight m1 w) t0 t1 t2 t3) as (mg' & m' & E & Hi' & Hin' & S1 & S2 & F1 & F2 & F3 & F4 & F5 & F6);
    try done.
  { by apply inv_weight. }
  { congruence. }
  { by apply (mi_clean _ _ _ _ Hi). }
  { intros Hne. by apply (mi_selected _ _ _ _ Hi 1 t1). }
  { intros Hne. by apply (mi_selected _ _ _ _ Hi 2 t2). }
  rewrite E. cbn [mbind res_bind]. eexists _, _, _, _. split; [done|]. rewrite F1, F2, F3, F4, F5, S1, S2. split_and!; try done.
  exists dt, dt'. split; [done|]. split; [done|].
  split; [unfold allowed in *; destruct (_ <=? _); [by apply Hdt'|done]|].
  destruct (ms_loaded m'); [|done]. destruct F6 as [Hl ->]. split; [done|]. by apply Heq.
Qed.

(** A transaction group that did not touch the metaslab. *)
Lemma idle_ok d s A msp :
  ms_inv d s A msp -> (forall a, ms_alloctree msp !! txg_idx s = Some a -> rt_segs a = []) ->
  rt_segs (ms_freeingtree msp) = [] -> ms_inv d (s + 1) A msp.
Proof.
  intros [] Ha Hf. constructor; try done.
  - intros z. rewrite ind_nil by done. lia.
  - intros t. replace (txg_idx (s + 1 + 3)) with (txg_idx s); [apply Ha|].
    rewrite !txg_idx_mod. f_equal. replace (s + 1 + 3) with (s + 1 * 4) by lia. by rewrite Z.mod_add.
  - intros k t Hk. replace (s + 1 + k) with (s + (1 + k)) by lia. intros Et Hne.
    destruct (decide (k = 1)) as [->|]; [apply (mi_selected0 2 t); [lia|done|done]|].
    replace k with 2 in * by lia. by destruct Hne, (mi_clean0 t).
  - lia.
Qed.

Lemma passivate_ok d s A mg msp w :
  ms_inv d s A msp -> in_group mg msp ->
  exists mg' msp', metaslab_passivate mg msp w = Ok (mg', msp') /\ ms_inv d s A msp' /\ in_group mg' msp' /\ kept msp msp'.
Proof.
  intros Hi Hin. unfold metaslab_passivate.
  assert (Hin' : in_group mg (set_ms_activation_weight msp 0)) by exact Hin.
  destruct (sort_ok _ _ w Hin') as (t & -> & Hin2). eexists _, _. split; [done|].
  split; [by apply inv_weight, inv_activation_weight|]. by split_and!.
Qed.

Lemma may_passivate_ok d s A mg msp :
  ms_inv d s A msp -> in_group mg msp ->
  exists mg' msp', metaslab_segment_may_passivate env mg msp = Ok (mg', msp') /\ ms_inv d s A msp' /\
    in_group mg' msp' /\ kept msp msp'.
Proof.
  intros Hi Hin. unfold metaslab_segment_may_passivate.
  destruct (_ || _); [eexists _, _; split; [done|]; by split_and!|].
  destruct (_ <=? _); [by apply (passivate_ok d s A)|eexists _, _; split; [done|]; by split_and!].
Qed.

End Inv.
