(* ===== verification/MetaslabLife.v ===== *)
(** * The life of a metaslab

    The operations of a metaslab in any order its callers may use them, as an
    executable step function over the metaslab, its group, the object layer and
    the blocks its callers hold.  The theorems are about every state that can be
    reached: no check of the code fires, no block is handed out twice, no space
    is lost, and the space map records what is allocated.  A call is one step:
    [metaslab_sync], [metaslab_condense] and [space_map_load] drop the lock of the
    metaslab around calls of the object layer, and what other threads do to the
    metaslab in between is not modelled. *)

From S2P Require Import Prelude Bits Avl RangeTree SpaceMap Metaslab MetaslabWeight MetaslabGroup MetaslabSync MetaslabInv.

(** A block a caller holds; [b_txg] is the transaction group that allocated it,
    until that group is synced. *)
Record block : Type := Block { b_offset : Z; b_size : Z; b_txg : option Z }.

#[export] Instance block_eq_dec : EqDecision block.
Proof. solve_decision. Defined.

(** The calls, in the order of their callers: allocation and freeing, the claim
    of a block of the intent log, loading and (de)activation, the passes of the
    transaction group that syncs, its end, and the end of a group that did not
    touch the metaslab. *)
Inductive op : Type :=
| OpAlloc (size txg : Z)
| OpFreeNow (b : block) (txg : Z)
| OpFree (b : block)
| OpClaim (offset size : Z)
| OpActivate (weight : Z)
| OpPassivate (weight : Z)
| OpSegmentMayPassivate
| OpPreload
| OpSync
| OpSyncDone (normal_free : Z)
| OpIdle.

Section Life.
Context {D : Type} `{!DmuOps D} `{!DmuSpec D} `{!DmuObjSpec D}.
Context (msop_alloc : metaslab -> Z -> res (Z * metaslab)) `{!MsopSpec msop_alloc}.

Record state : Type := State {
  st_dmu : D;
  st_mg : metaslab_group;
  st_mc : metaslab_class;
  st_ss : space_stats;
  st_ms : metaslab;
  st_txg : Z;
  st_first : bool;
  st_live : list block
}.
Implicit Types st : state.

Definition with_ms st (mg : metaslab_group) (msp : metaslab) (live : list block) : state :=
  State (st_dmu st) mg (st_mc st) (st_ss st) msp (st_txg st) (st_first st) live.

Fixpoint remove_block (b : block) (l : list block) : list block :=
  match l with
  | [] => []
  | x :: l' => if decide (x = b) then l' else x :: remove_block b l'
  end.

(** The blocks of the group that syncs are recorded. *)
Definition settle (s : Z) (b : block) : block :=
  if decide (b_txg b = Some s) then Block (b_offset b) (b_size b) None else b.

Definition run_op (e : sync_env) (o : op) st : res state :=
  let msp := st_ms st in
  let mg := st_mg st in
  let live := st_live st in
  let s := st_txg st in
  match o with
  | OpAlloc size txg =>
      '(offset, msp, _) ← metaslab_block_alloc e msop_alloc (set_ms_selected_txg msp txg) size txg;
      Ok (with_ms st mg msp (if offset =? NO_OFFSET then live else Block offset size (Some txg) :: live))
  | OpFreeNow b txg =>
      '(msp, _) ← metaslab_free_block e msp (b_offset b) (b_size b) txg true;
      Ok (with_ms st mg msp (remove_block b live))
  | OpFree b =>
      '(msp, _) ← metaslab_free_block e msp (b_offset b) (b_size b) s false;
      Ok (with_ms st mg msp (remove_block b live))
  | OpClaim offset size =>
      '(error, mg, msp, _) ← metaslab_claim_block e (st_dmu st) mg msp offset size s;
      Ok (with_ms st mg msp (if error =? 0 then Block offset size (Some s) :: live else live))
  | OpActivate weight =>
      '(_, mg, msp) ← metaslab_activate e (st_dmu st) mg msp weight; Ok (with_ms st mg msp live)
  | OpPassivate weight =>
      '(mg, msp) ← metaslab_passivate mg msp weight; Ok (with_ms st mg msp live)
  | OpSegmentMayPassivate =>
      '(mg, msp) ← metaslab_segment_may_passivate e mg msp; Ok (with_ms st mg msp live)
  | OpPreload =>
      msp ← metaslab_preload e (st_dmu st) msp; Ok (with_ms st mg msp live)
  | OpSync =>
      '(d, mg, mc, msp) ← metaslab_sync e (st_dmu st) mg (st_mc st) msp s;
      Ok (State d mg mc (st_ss st) msp s false (settle s <$> live))
  | OpSyncDone normal_free =>
      '(mg, msp, ss, _) ← metaslab_sync_done e mg msp (st_ss st) normal_free s;
      Ok (State (st_dmu st) mg (st_mc st) ss msp (s + 1) true live)
  | OpIdle => Ok (State (st_dmu st) mg (st_mc st) (st_ss st) msp (s + 1) true live)
  end.

(** Whether nothing of the group that syncs is left to write. *)
Definition group_empty st : Prop :=
  rt_segs (ms_freeingtree (st_ms st)) = [] /\
  forall a, ms_alloctree (st_ms st) !! txg_idx (st_txg st) = Some a -> rt_segs a = [].

(** The pool and the device the metaslab belongs to. *)
Variable env : sync_env.

(** What every call can rely on: the device, and the transaction group. *)
Definition env_ok (e : sync_env) st : Prop :=
  env_ashift (sy_env e) = env_ashift (sy_env env) /\ sy_ms_array e = sy_ms_array env /\
  env_syncing_txg (sy_env e) = st_txg st.

Definition reads_ok st : Prop :=
  forall sm, ms_sm (st_ms st) = Some sm -> read_errors_nonzero (st_dmu st) sm.

Abbreviation in_range msp := (range_in (ms_start msp) (ms_size msp) (env_ashift (sy_env env))).

(** What the callers observe: blocks are whole units, allocated for one of the
    three groups that are not over, freed once by who holds them, at once only
    before their group is synced; a block claimed is a range of whole units of
    the metaslab; the passes of a group are numbered from 1, the group is not
    after the last one that may write ([spa_final_dirty_txg]), and its end comes
    when nothing is left to write.  The code verifies the units, the range of a
    claim and the last group: they are conditions on what the caller passes. *)
Definition op_ok (e : sync_env) (o : op) st : Prop :=
  env_ok e st /\
  match o with
  | OpAlloc size txg =>
      st_txg st <= txg <= st_txg st + 2 /\ 0 < size < 2 ^ 62 /\ (2 ^ env_ashift (sy_env env) | size)
  | OpFreeNow b txg => b ∈ st_live st /\ b_txg b = Some txg
  | OpFree b => b ∈ st_live st /\ (b_txg b = None \/ b_txg b = Some (st_txg st))
  | OpClaim offset size =>
      in_range (st_ms st) offset size /\ env_writeable (sy_env e) = true /\ st_txg st <> 0 /\ reads_ok st
  | OpActivate _ => reads_ok st
  | OpPassivate _ => True
  | OpSegmentMayPassivate => True
  | OpPreload => reads_ok st
  | OpSync =>
      (env_sync_pass (sy_env e) = 1 <-> st_first st = true) /\
      st_txg st <= env_final_dirty_txg (sy_env e) /\
      8 <= sy_space_map_blksz e < B32 /\ (8 | sy_space_map_blksz e) /\
      (forall sm, ms_sm (st_ms st) = Some sm -> smp_objsize (sm_phys sm) < 2 ^ 60)
  | OpSyncDone _ =>
      group_empty st /\ 1 <= sy_unload_delay e /\ st_txg st + 3 + sy_unload_delay e < B64
  | OpIdle => group_empty st /\ st_first st = true
  end.

(** ** The invariant *)

(** How many of the blocks hold the offset. *)
Definition live_count (l : list block) (z : Z) : Z := zsum (fun b => rng (b_offset b) (b_size b) z) l.

Definition block_ok (A : Z -> Prop) st (b : block) : Prop :=
  in_range (st_ms st) (b_offset b) (b_size b) /\
  match b_txg b with
  | None => forall z, rng (b_offset b) (b_size b) z = 1 -> A z
  | Some t =>
      st_txg st <= t <= st_txg st + 2 /\
      exists a, ms_alloctree (st_ms st) !! txg_idx t = Some a /\
        forall z, rng (b_offset b) (b_size b) z <= ind a z
  end.

(** The allocated offsets are those of the blocks held and those being freed. *)
Definition accounted (A : Z -> Prop) st : Prop :=
  forall z, (A z /\ live_count (st_live st) z + ind (ms_freeingtree (st_ms st)) z = 1) \/
    (~ A z /\ live_count (st_live st) z + ind (ms_freeingtree (st_ms st)) z =
       zsum (fun t => ind t z) (ms_alloctree (st_ms st))).

Record st_inv (A : Z -> Prop) st : Prop := {
  si_ms : ms_inv env (st_dmu st) (st_txg st) A (st_ms st);
  si_group : in_group (st_mg st) (st_ms st);
  si_blocks : Forall (block_ok A st) (st_live st);
  si_accounted : accounted A st;
  si_first : st_first st = true -> rt_segs (ms_freedtree (st_ms st)) = []
}.

Lemma inv_env (e e' : sync_env) d s A msp :
  env_ashift (sy_env e') = env_ashift (sy_env e) -> sy_ms_array e' = sy_ms_array e ->
  ms_inv e d s A msp -> ms_inv e' d s A msp.
Proof.
  intros E1 E2 []. constructor; rewrite ?E1, ?E2; try done.
  unfold sm_records in *. by rewrite E1, E2.
Qed.

Lemma live_count_nonneg l z : 0 <= live_count l z.
Proof. apply zsum_nonneg. intros b. destruct (rng_bit (b_offset b) (b_size b) z); lia. Qed.

Lemma live_count_elem l b z : b ∈ l -> rng (b_offset b) (b_size b) z <= live_count l z.
Proof.
  intros (i & E)%list_elem_of_lookup. apply (zsum_elem (fun b => rng (b_offset b) (b_size b) z) l i b); [|done].
  intros x. destruct (rng_bit (b_offset x) (b_size x) z); lia.
Qed.

Lemma remove_block_count b l z :
  b ∈ l -> live_count (remove_block b l) z = live_count l z - rng (b_offset b) (b_size b) z.
Proof.
  induction l as [|x l IH]; [by intros ?%elem_of_nil|]. intros [->|Hb]%elem_of_cons; cbn [remove_block].
  - rewrite decide_True by done. unfold live_count. cbn [zsum foldr]. unfold zsum. lia.
  - case_decide as E; [subst x; unfold live_count, zsum; simpl; lia|].
    specialize (IH Hb). unfold live_count, zsum in *. simpl. lia.
Qed.

Lemma remove_block_sub b l x : x ∈ remove_block b l -> x ∈ l.
Proof.
  induction l as [|y l IH]; [done|]. cbn [remove_block]. case_decide; [by right|].
  intros [->|H']%elem_of_cons; [by left|right; auto].
Qed.

Lemma settle_count s l z : live_count (settle s <$> l) z = live_count l z.
Proof.
  unfold live_count. induction l as [|b l IH]; [done|]. cbn [fmap list_fmap zsum foldr]. unfold zsum in IH. rewrite IH.
  unfold settle. by case_decide.
Qed.

(** A call that keeps the blocks where they are. *)
Lemma inv_keep A st mg msp live :
  st_inv A st -> ms_inv env (st_dmu st) (st_txg st) A msp -> in_group mg msp ->
  ms_alloctree msp = ms_alloctree (st_ms st) -> ms_freeingtree msp = ms_freeingtree (st_ms st) ->
  ms_freedtree msp = ms_freedtree (st_ms st) -> ms_start msp = ms_start (st_ms st) -> ms_size msp = ms_size (st_ms st) ->
  live = st_live st -> st_inv A (with_ms st mg msp live).
Proof.
  intros [] Hi Hin Ea Ef Efd Es Ez ->. constructor; try done; simpl.
  - eapply Forall_impl; [exact si_blocks0|]. intros b. unfold block_ok. simpl. by rewrite Ea, Es, Ez.
  - intros z. simpl. rewrite Ea, Ef. apply si_accounted0.
  - intros Hf. rewrite Efd. by apply si_first0.
Qed.

(** At most one block holds an offset. *)
Lemma live_le A st z : st_inv A st -> live_count (st_live st) z + ind (ms_freeingtree (st_ms st)) z <= 1.
Proof.
  intros Hi. destruct (si_accounted _ _ Hi z) as [[_ ?]|[_ E]]; [lia|].
  pose proof (mi_owned _ _ _ _ _ (si_ms _ _ Hi) z) as Ho. unfold own in Ho.
  pose proof (zsum_ind_nonneg (ms_defertree (st_ms st)) z).
  destruct (ind_bit (ms_tree (st_ms st)) z), (ind_bit (ms_freedtree (st_ms st)) z); intuition lia.
Qed.

Lemma live_le1 A st z : st_inv A st -> live_count (st_live st) z <= 1.
Proof. intros Hi. pose proof (live_le A st z Hi). destruct (ind_bit (ms_freeingtree (st_ms st)) z); lia. Qed.

(** The tree of a group after a range is added to it or taken out of it. *)
Lemma moved_lookup msp msp' i delta j a :
  moved msp msp' i delta -> ms_alloctree msp !! j = Some a ->
  exists a', ms_alloctree msp' !! j = Some a' /\
    forall z, ind a' z = ind a z + (if decide (j = i) then delta z else 0).
Proof.
  intros [(x & x' & Ex & El & Hx) _] Ea. rewrite El. destruct (decide (j = i)) as [->|Hne].
  - rewrite Ex in Ea. injection Ea as <-. exists x'. split; [|done].
    apply list_lookup_insert_eq. by eapply lookup_lt_Some.
  - exists a. rewrite list_lookup_insert_ne by done. split; [done|]. intros z. lia.
Qed.

Lemma moved_sum msp msp' i delta z :
  moved msp msp' i delta ->
  zsum (fun t => ind t z) (ms_alloctree msp') = zsum (fun t => ind t z) (ms_alloctree msp) + delta z.
Proof.
  intros [(x & x' & Ex & El & Hx) _]. rewrite El, (zsum_insert _ _ _ x x' Ex). specialize (Hx z). lia.
Qed.

(** A block is handed out. *)
Lemma inv_new_block A st mg msp o n t :
  st_inv A st -> ms_inv env (st_dmu st) (st_txg st) A msp -> in_group mg msp ->
  moved (st_ms st) msp (txg_idx t) (rng o n) -> st_txg st <= t <= st_txg st + 2 ->
  in_range (st_ms st) o n ->
  (forall z, rng o n z = 1 -> ~ A z /\ zsum (fun t => ind t z) (ms_alloctree (st_ms st)) = 0) ->
  st_inv A (with_ms st mg msp (Block o n (Some t) :: st_live st)) /\
  (forall b z, b ∈ st_live st -> rng (b_offset b) (b_size b) z + rng o n z <= 1).
Proof.
  intros Hst Hi Hin Hm Ht Hr Hfree. pose proof Hm as (_ & Ef & Efd & Es & Ez). pose proof Hst as [].
  assert (Hlive : forall z, rng o n z = 1 -> live_count (st_live st) z = 0).
  { intros z Hz. destruct (Hfree z Hz) as [HA H0]. destruct (si_accounted0 z) as [[? _]|[_ E]]; [done|].
    pose proof (live_count_nonneg (st_live st) z). destruct (ind_bit (ms_freeingtree (st_ms st)) z); lia. }
  split.
  - constructor; try done; simpl; [| |by rewrite Efd].
    + apply Forall_cons. split.
      * split; [simpl; by rewrite Es, Ez|]. simpl. split; [done|].
        destruct (inv_alloc_lookup env _ _ _ _ t si_ms0) as (a & Ea & _).
        destruct (moved_lookup _ _ _ _ _ a Hm Ea) as (a' & Ea' & Ha'). exists a'. split; [done|]. intros z.
        rewrite Ha', decide_True by done. destruct (ind_bit a z); lia.
      * eapply Forall_impl; [exact si_blocks0|]. intros b [Hb1 Hb2]. split; [simpl; by rewrite Es, Ez|].
        destruct (b_txg b) as [t'|]; [|done]. simpl. destruct Hb2 as (H1 & a & Ea & Ha). split; [done|].
        destruct (moved_lookup _ _ _ _ _ a Hm Ea) as (a' & Ea' & Ha'). exists a'. split; [done|]. intros z.
        rewrite Ha'. specialize (Ha z). destruct (decide _); [|lia]. destruct (rng_bit o n z); lia.
    + intros z. simpl. rewrite Ef, (moved_sum _ _ _ _ z Hm). unfold live_count, zsum. cbn [foldr b_offset b_size].
      specialize (si_accounted0 z). unfold live_count, zsum in si_accounted0.
      destruct si_accounted0 as [[HA E]|[HA E]]; [left|right]; (split; [done|]); [|lia].
      destruct (rng_bit o n z) as [->|Hz]; [lia|]. by destruct (Hfree z Hz).
  - intros b z Hb. pose proof (live_count_elem _ b z Hb). destruct (rng_bit o n z) as [->|Hz].
    + destruct (rng_bit (b_offset b) (b_size b) z); lia.
    + specialize (Hlive z Hz). lia.
Qed.

(** A block is taken back before its group is synced. *)
Lemma inv_free_now A st mg msp b t :
  st_inv A st -> ms_inv env (st_dmu st) (st_txg st) A msp -> in_group mg msp -> b ∈ st_live st -> b_txg b = Some t ->
  moved (st_ms st) msp (txg_idx t) (fun z => - rng (b_offset b) (b_size b) z) ->
  st_inv A (with_ms st mg msp (remove_block b (st_live st))).
Proof.
  intros Hst Hi Hin Hb Hbt Hm. pose proof Hm as (_ & Ef & Efd & Es & Ez). pose proof Hst as [].
  constructor; try done; simpl; [| |by rewrite Efd].
  - apply Forall_forall. intros b' Hb'. pose proof (remove_block_sub _ _ _ Hb') as Hb0.
    rewrite Forall_forall in si_blocks0. destruct (si_blocks0 b' Hb0) as [Hb1 Hb2].
    split; [simpl; by rewrite Es, Ez|]. destruct (b_txg b') as [t'|]; [|done]. simpl.
    destruct Hb2 as (H1 & a & Ea & Ha). split; [done|].
    destruct (moved_lookup _ _ _ _ _ a Hm Ea) as (a' & Ea' & Ha'). exists a'. split; [done|]. intros z.
    rewrite Ha'. specialize (Ha z). destruct (decide _) as [Ei|]; [|lia].
    destruct (si_blocks0 b Hb) as [_ Hbb]. rewrite Hbt in Hbb. destruct Hbb as (_ & ab & Eab & Hab).
    rewrite <- Ei, Ea in Eab. injection Eab as <-. specialize (Hab z).
    pose proof (live_count_elem _ _ z Hb') as Hc. rewrite (remove_block_count b _ z Hb) in Hc.
    pose proof (live_le1 A st z Hst). pose proof (ind_bit a z).
    destruct (rng_bit (b_offset b) (b_size b) z), (rng_bit (b_offset b') (b_size b') z); lia.
  - intros z. simpl. rewrite Ef, (moved_sum _ _ _ _ z Hm), (remove_block_count b _ z Hb).
    destruct (si_accounted0 z) as [[HA E]|[HA E]]; [left|right]; (split; [done|]); [|lia].
    rewrite Forall_forall in si_blocks0. destruct (si_blocks0 b Hb) as [_ Hb2]. rewrite Hbt in Hb2.
    destruct Hb2 as (_ & a & Ea & Ha). specialize (Ha z).
    pose proof (zsum_ind_elem _ _ _ z Ea). pose proof (mi_owned _ _ _ _ _ si_ms0 z) as Ho. unfold own in Ho.
    pose proof (zsum_ind_nonneg (ms_defertree (st_ms st)) z).
    pose proof (ind_bit (ms_tree (st_ms st)) z). pose proof (ind_bit (ms_freedtree (st_ms st)) z).
    destruct Ho as [[_ Ho]|[? _]]; [|done]. destruct (rng_bit (b_offset b) (b_size b) z); lia.
Qed.

(** A block is freed by the group that syncs. *)
Lemma inv_free A st mg msp b :
  st_inv A st -> ms_inv env (st_dmu st) (st_txg st) A msp -> in_group mg msp -> b ∈ st_live st ->
  ms_alloctree msp = ms_alloctree (st_ms st) -> ms_freedtree msp = ms_freedtree (st_ms st) ->
  ms_start msp = ms_start (st_ms st) -> ms_size msp = ms_size (st_ms st) ->
  (forall z, ind (ms_freeingtree msp) z = ind (ms_freeingtree (st_ms st)) z + rng (b_offset b) (b_size b) z) ->
  st_inv A (with_ms st mg msp (remove_block b (st_live st))).
Proof.
  intros Hst Hi Hin Hb Ea Efd Es Ez Hf. pose proof Hst as []. constructor; try done; simpl; [| |by rewrite Efd].
  - apply Forall_forall. intros b' Hb'%remove_block_sub. rewrite Forall_forall in si_blocks0.
    destruct (si_blocks0 b' Hb') as [Hb1 Hb2]. split; simpl; [by rewrite Es, Ez|].
    destruct (b_txg b'); [by rewrite Ea|done].
  - intros z. simpl. rewrite Ea, Hf, (remove_block_count b _ z Hb).
    destruct (si_accounted0 z) as [[HA E]|[HA E]]; [left|right]; (split; [done|lia]).
Qed.

(** What is freed is allocated and not being freed already. *)
Lemma live_allocated A st b z :
  st_inv A st -> b ∈ st_live st -> b_txg b = None \/ b_txg b = Some (st_txg st) ->
  rng (b_offset b) (b_size b) z = 1 ->
  (A z \/ exists a, ms_alloctree (st_ms st) !! txg_idx (st_txg st) = Some a /\ ind a z = 1) /\
  ind (ms_freeingtree (st_ms st)) z = 0.
Proof.
  intros Hst Hb Ht Hz. pose proof (live_count_elem _ b z Hb). pose proof (live_le A st z Hst).
  split; [|destruct (ind_bit (ms_freeingtree (st_ms st)) z); lia].
  pose proof (si_blocks _ _ Hst) as Hbl. rewrite Forall_forall in Hbl. destruct (Hbl b Hb) as [_ Hb2].
  destruct Ht as [E|E]; rewrite E in Hb2; [left; by apply Hb2|right]. destruct Hb2 as (_ & a & Ea & Ha). exists a. split; [done|].
  specialize (Ha z). destruct (ind_bit a z); lia.
Qed.

(** A pass over the group that syncs. *)
Lemma inv_sync A st d mg mc msp a a' :
  st_inv A st -> let A' := synced_set A (st_ms st) a in
  ms_inv env d (st_txg st) A' msp -> in_group mg msp ->
  ms_alloctree (st_ms st) !! txg_idx (st_txg st) = Some a ->
  ms_alloctree msp = <[txg_idx (st_txg st) := a']> (ms_alloctree (st_ms st)) -> rt_segs a' = [] ->
  rt_segs (ms_freeingtree msp) = [] -> ms_start msp = ms_start (st_ms st) -> ms_size msp = ms_size (st_ms st) ->
  st_inv A' (State d mg mc (st_ss st) msp (st_txg st) false (settle (st_txg st) <$> st_live st)).
Proof.
  intros Hst A' Hi Hin Ea El Hna Hnf Es Ez. pose proof Hst as []. constructor; try done; simpl.
  - apply Forall_fmap, Forall_forall. intros b Hb. rewrite Forall_forall in si_blocks0.
    destruct (si_blocks0 b Hb) as [Hb1 Hb2].
    assert (Hset : b_txg b = None \/ b_txg b = Some (st_txg st) ->
      forall z, rng (b_offset b) (b_size b) z = 1 -> A' z).
    { intros Ht z Hz. destruct (live_allocated A st b z Hst Hb Ht Hz) as [HA Hf0]. split; [|done].
      destruct HA as [?|(x & Ex & Hx)]; [by left|right; congruence]. }
    unfold compose, block_ok, settle. case_decide as Ht; simpl; rewrite Es, Ez; (split; [done|]); [by apply Hset; right|].
    destruct (b_txg b) as [t|] eqn:Eb; [|by apply Hset; left]. destruct Hb2 as (H1 & x & Ex & Hx). split; [done|].
    exists x. split; [|done]. rewrite El, list_lookup_insert_ne; [done|].
    intros E. assert (st_txg st <> t) by congruence. apply (txg_idx_clean (t - 3) (st_txg st)); [lia|].
    rewrite E. f_equal. lia.
  - intros z. simpl. rewrite settle_count, El, (zsum_insert _ _ _ a a' Ea), (ind_nil a'), (ind_nil (ms_freeingtree msp)) by done.
    pose proof (live_le A st z Hst). pose proof (live_count_nonneg (st_live st) z). pose proof (zsum_ind_elem _ _ _ z Ea).
    pose proof (mi_freeing_sub _ _ _ _ _ si_ms0 z) as Hsub. pose proof (mi_owned _ _ _ _ _ si_ms0 z) as Ho. unfold own in Ho.
    pose proof (zsum_ind_nonneg (ms_defertree (st_ms st)) z).
    pose proof (ind_bit (ms_tree (st_ms st)) z). pose proof (ind_bit (ms_freedtree (st_ms st)) z).
    unfold A', synced_set. destruct (ind_bit (ms_freeingtree (st_ms st)) z) as [F|F].
    + destruct (si_accounted0 z) as [[HA E]|[HA E]]; [left; split; [by split; [left|]|lia]|].
      destruct Ho as [[? _]|(_ & Ho & _)]; [done|].
      destruct (ind_bit a z) as [Fa|Fa]; [right; split; [intros [[?|?] _]; [done|lia]|lia]|].
      left. split; [by split; [right|]|]. lia.
    + right. split; [intros [_ ?]; lia|].
      destruct (si_accounted0 z) as [[HA E]|[HA E]], Ho as [[? Ho]|(? & Ho & _)]; try done; [destruct (ind_bit a z); lia|].
      destruct (Hsub F) as [?|(x & Ex & Hx)]; [done|]. assert (x = a) as -> by congruence. lia.
Qed.

(** The next group begins. *)
Lemma inv_next A st mg mc ss msp :
  st_inv A st -> group_empty st -> ms_inv env (st_dmu st) (st_txg st + 1) A msp -> in_group mg msp ->
  ms_alloctree msp = ms_alloctree (st_ms st) -> rt_segs (ms_freeingtree msp) = [] -> rt_segs (ms_freedtree msp) = [] ->
  ms_start msp = ms_start (st_ms st) -> ms_size msp = ms_size (st_ms st) ->
  st_inv A (State (st_dmu st) mg mc ss msp (st_txg st + 1) true (st_live st)).
Proof.
  intros Hst [Hf Ha] Hi Hin El Hnf Hnd Es Ez. pose proof Hst as []. constructor; try done; simpl.
  - eapply Forall_impl; [exact si_blocks0|]. intros b [Hb1 Hb2]. split; simpl; [by rewrite Es, Ez|].
    destruct (b_txg b) as [t|]; [|done]. destruct Hb2 as (H1 & x & Ex & Hx). rewrite El.
    split; [|by exists x]. destruct (decide (t = st_txg st)) as [->|]; [|lia]. exfalso.
    specialize (Hx (b_offset b)). rewrite (ind_nil x) in Hx by (by apply Ha).
    destruct Hb1 as (? & _). rewrite (proj2 (rng_1 _ _ _)) in Hx by lia. lia.
  - intros z. simpl. rewrite El, (ind_nil (ms_freeingtree msp)) by done.
    specialize (si_accounted0 z). by rewrite (ind_nil (ms_freeingtree (st_ms st))) in si_accounted0.
Qed.

Lemma inv_to A st e : st_inv A st -> env_ok e st -> ms_inv e (st_dmu st) (st_txg st) A (st_ms st).
Proof. intros Hst (E1 & E2 & _). by apply (inv_env env e); [| |apply Hst]. Qed.

Lemma inv_from e st d s A msp : env_ok e st -> ms_inv e d s A msp -> ms_inv env d s A msp.
Proof. intros (E1 & E2 & _). by apply inv_env. Qed.

Lemma inv_keep' A st e mg msp :
  st_inv A st -> env_ok e st -> ms_inv e (st_dmu st) (st_txg st) A msp -> in_group mg msp -> kept (st_ms st) msp ->
  st_inv A (with_ms st mg msp (st_live st)).
Proof. intros Hst He Hi Hin (? & ? & ? & ? & ?). apply inv_keep; try done. by eapply inv_from. Qed.

Lemma group_keep mg msp msp' :
  in_group mg msp -> ms_weight msp' = ms_weight msp -> ms_start msp' = ms_start msp -> in_group mg msp'.
Proof. intros Hin E1 E2. unfold in_group, ms_ref_of. by rewrite E1, E2. Qed.

(** ** Every call *)

Lemma step_alloc A e st size txg :
  st_inv A st -> op_ok e (OpAlloc size txg) st ->
  exists st', run_op e (OpAlloc size txg) st = Ok st' /\ st_inv A st' /\
    (st_live st' = st_live st \/
     exists offset, st_live st' = Block offset size (Some txg) :: st_live st /\
       in_range (st_ms st) offset size /\
       (forall z, rng offset size z = 1 -> ~ A z /\ own (st_ms st) z = 1 /\ ind (ms_tree (st_ms st)) z = 1) /\
       (forall b z, b ∈ st_live st -> rng (b_offset b) (b_size b) z + rng offset size z <= 1)).
Proof.
  intros Hst [He (Ht & Hs & Hd)]. pose proof (inv_to A st e Hst He) as Hi. pose proof He as (E1 & E2 & E3).
  rewrite <- E1 in Hd. destruct (block_alloc_ok e msop_alloc _ _ _ _ size txg Hi E3 Ht Hs Hd)
    as (offset & msp' & dirty & E & Hi' & Hw & Hcase).
  unfold run_op. rewrite E. cbn [mbind res_bind]. eexists. split; [done|].
  destruct Hcase as [(-> & Hk & _)|(Hne & Hm & Hr & Hown & _)].
  - change (NO_OFFSET =? NO_OFFSET) with true. cbv iota. split; [|by left].
    apply (inv_keep' A st e); try done. apply (group_keep _ (st_ms st)); [apply Hst|done|apply Hk].
  - rewrite (proj2 (Z.eqb_neq _ _) Hne). rewrite E1 in Hr.
    destruct (inv_new_block A st (st_mg st) msp' offset size txg Hst) as [Hinv Hdis]; try done.
    + by eapply inv_from.
    + apply (group_keep _ (st_ms st)); [apply Hst|done|apply Hm].
    + intros z Hz. destruct (Hown z Hz) as (HA & Ho & H1). split; [done|]. unfold own in Ho.
      pose proof (zsum_ind_nonneg (ms_alloctree (st_ms st)) z). pose proof (zsum_ind_nonneg (ms_defertree (st_ms st)) z).
      destruct (ind_bit (ms_freedtree (st_ms st)) z); lia.
    + split; [done|]. right. exists offset. by split_and!.
Qed.

Lemma step_free_now A e st b txg :
  st_inv A st -> op_ok e (OpFreeNow b txg) st ->
  exists st', run_op e (OpFreeNow b txg) st = Ok st' /\ st_inv A st'.
Proof.
  intros Hst [He (Hb & Hbt)]. pose proof (inv_to A st e Hst He) as Hi. pose proof He as (E1 & E2 & E3).
  pose proof (si_blocks _ _ Hst) as Hbl. rewrite Forall_forall in Hbl. destruct (Hbl b Hb) as [Hr Hb2].
  rewrite Hbt in Hb2. destruct Hb2 as (Ht & a & Ea & Ha). rewrite <- E1 in Hr.
  destruct (free_now_ok e _ _ _ _ (b_offset b) (b_size b) txg a Hi Ht Hr Ea Ha) as (msp' & E & Hi' & Hw & Hm & _).
  { intros z Hz. pose proof (live_count_elem _ b z Hb). pose proof (live_le A st z Hst).
    destruct (ind_bit (ms_freeingtree (st_ms st)) z); lia. }
  unfold run_op. rewrite E. cbn [mbind res_bind]. eexists. split; [done|].
  apply (inv_free_now A st _ msp' b txg); try done; [by eapply inv_from|].
  apply (group_keep _ (st_ms st)); [apply Hst|done|apply Hm].
Qed.

Lemma step_free A e st b :
  st_inv A st -> op_ok e (OpFree b) st -> exists st', run_op e (OpFree b) st = Ok st' /\ st_inv A st'.
Proof.
  intros Hst [He (Hb & Hbt)]. pose proof (inv_to A st e Hst He) as Hi. pose proof He as (E1 & E2 & E3).
  pose proof (si_blocks _ _ Hst) as Hbl. rewrite Forall_forall in Hbl. destruct (Hbl b Hb) as [Hr _].
  rewrite <- E1 in Hr.
  destruct (free_later_ok e _ _ _ _ (b_offset b) (b_size b) Hi E3 Hr)
    as (msp' & dirty & E & Hi' & Hw & _ & Ha & Hfd & Es & Ez & Hf).
  { intros z Hz. by apply (live_allocated A st b z Hst). }
  unfold run_op. rewrite E. cbn [mbind res_bind]. eexists. split; [done|].
  apply (inv_free A st _ msp' b); try done; [by eapply inv_from|]. apply (group_keep _ (st_ms st)); [apply Hst|done|done].
Qed.

Lemma step_claim A e st offset size :
  st_inv A st -> op_ok e (OpClaim offset size) st ->
  exists st', run_op e (OpClaim offset size) st = Ok st' /\ st_inv A st'.
Proof.
  intros Hst [He (Hr & Hwr & Hnz & Herr)]. pose proof (inv_to A st e Hst He) as Hi. pose proof He as (E1 & E2 & E3).
  rewrite <- E1 in Hr.
  destruct (claim_ok e _ _ _ _ _ offset size (st_txg st) Hi (si_group _ _ Hst) Hwr ltac:(by right) Herr Hr)
    as (error & mg' & msp' & dirty & E & Hi' & Hin & Hcase).
  unfold run_op. rewrite E. cbn [mbind res_bind]. eexists. split; [done|]. rewrite E1 in Hr.
  destruct (Z.eqb_spec error 0) as [->|Hne].
  - rewrite decide_True in Hcase by done. destruct Hcase as [Hm Hf].
    apply (inv_new_block A st mg' msp' offset size (st_txg st) Hst); try done; [by eapply inv_from|lia].
  - rewrite decide_False in Hcase by tauto. by apply (inv_keep' A st e).
Qed.

(** The calls that load the metaslab or move it in its group. *)
Lemma step_group A e st o :
  st_inv A st -> op_ok e o st ->
  (exists w, o = OpActivate w \/ o = OpPassivate w) \/ o = OpSegmentMayPassivate \/ o = OpPreload ->
  exists st', run_op e o st = Ok st' /\ st_inv A st'.
Proof.
  intros Hst [He Ho] Hcase. pose proof (inv_to A st e Hst He) as Hi. pose proof He as (E1 & E2 & E3).
  pose proof (si_group _ _ Hst) as Hgr. destruct Hcase as [(w & [-> | ->])|[-> | ->]]; unfold run_op.
  - destruct (activate_ok e _ _ _ _ _ w Hi Hgr Ho) as (error & mg' & m & -> & H1 & H2 & _ & _ & H3).
    eexists. split; [done|]. by apply (inv_keep' A st e).
  - destruct (passivate_ok e _ _ _ _ _ w Hi Hgr) as (mg' & m & -> & H1 & H2 & H3).
    eexists. split; [done|]. by apply (inv_keep' A st e).
  - destruct (may_passivate_ok e _ _ _ _ _ Hi Hgr) as (mg' & m & -> & H1 & H2 & H3).
    eexists. split; [done|]. by apply (inv_keep' A st e).
  - destruct (preload_ok e _ _ _ _ _ Hi Hgr E3 Ho) as (m & -> & H1 & H2 & H3).
    eexists. split; [done|]. by apply (inv_keep' A st e).
Qed.

Lemma step_sync A e st :
  st_inv A st -> op_ok e OpSync st ->
  exists st' a, run_op e OpSync st = Ok st' /\ ms_alloctree (st_ms st) !! txg_idx (st_txg st) = Some a /\
    st_inv (synced_set A (st_ms st) a) st' /\ group_empty st'.
Proof.
  intros Hst [He (Hp & Hfin & Hb1 & Hb2 & Hroom)].
  pose proof (inv_to A st e Hst He) as Hi. pose proof He as (E1 & E2 & E3).
  assert (Hr : sync_ready e (st_dmu st) (st_txg st) (st_ms st)).
  { constructor; try done. intros H1. by apply (si_first _ _ Hst), Hp. }
  destruct (inv_alloc_lookup e _ _ _ _ (st_txg st) Hi) as (a & Ea & _).
  destruct (sync_ok e _ _ _ _ (st_mc st) _ a Hi (si_group _ _ Hst) Hr Ea)
    as (d' & mg' & mc' & msp' & E & Hi' & Hin & Hnf & (a' & El & Hna) & _ & _ & _ & Es & Ez).
  unfold run_op. rewrite E. cbn [mbind res_bind]. eexists _, a. split; [done|]. split; [done|]. split.
  - apply (inv_sync A st d' mg' mc' msp' a a' Hst); try done. by eapply inv_from.
  - split; [done|]. simpl. intros x. rewrite El. rewrite list_lookup_insert_eq by (by eapply lookup_lt_Some).
    intros [= <-]. done.
Qed.

Abbreviation defer_idx s := (Z.to_nat (s mod Z.of_nat TXG_DEFER_SIZE)).

Lemma step_sync_done A e st normal_free :
  st_inv A st -> op_ok e (OpSyncDone normal_free) st ->
  exists st', run_op e (OpSyncDone normal_free) st = Ok st' /\ st_inv A st' /\
    exists dt dt', ms_defertree (st_ms st) !! defer_idx (st_txg st) = Some dt /\
      ms_defertree (st_ms st') = <[defer_idx (st_txg st) := dt']> (ms_defertree (st_ms st)) /\
      (if class_free_space e (st_ss st) normal_free <=? sy_slop_space e then rt_segs dt' = []
       else dt' = ms_freedtree (st_ms st)) /\
      if ms_loaded (st_ms st') then ms_loaded (st_ms st) = true /\
        forall z, ind (ms_tree (st_ms st')) z + ind dt' z =
          ind (ms_tree (st_ms st)) z + ind dt z + ind (ms_freedtree (st_ms st)) z
      else rt_segs (ms_tree (st_ms st')) = [].
Proof.
  intros Hst [He (Hge & Hd1 & Hd2)]. pose proof (inv_to A st e Hst He) as Hi. pose proof He as (E1 & E2 & E3).
  pose proof Hge as [Hf Ha]. destruct (inv_alloc_lookup e _ _ _ _ (st_txg st) Hi) as (a & Ea & _).
  destruct (sync_done_ok e _ _ _ _ _ (st_ss st) normal_free a Hi (si_group _ _ Hst) Ea (Ha a Ea) Hf Hd1 Hd2)
    as (mg' & msp' & ss' & dirty & E & Hi' & Hin & Hnd & Hnf & El & Es & Ez & _ & Hdt).
  unfold run_op. rewrite E. cbn [mbind res_bind]. eexists. split; [done|]. split; [|done].
  apply inv_next; try done. by eapply inv_from.
Qed.

Lemma step_idle A e st :
  st_inv A st -> op_ok e OpIdle st -> exists st', run_op e OpIdle st = Ok st' /\ st_inv A st'.
Proof.
  intros Hst [He (Hge & Hf)]. eexists. split; [done|]. pose proof Hst as []. pose proof Hge as [? ?].
  apply inv_next; try done; [|by apply si_first0]. by apply idle_ok.
Qed.

Lemma step_ok A e o st : st_inv A st -> op_ok e o st -> exists st' A', run_op e o st = Ok st' /\ st_inv A' st'.
Proof.
  intros Hst Ho. destruct o.
  - destruct (step_alloc A e st size txg Hst Ho) as (st' & ? & ? & _); eauto.
  - destruct (step_free_now A e st b txg Hst Ho) as (st' & ? & ?); eauto.
  - destruct (step_free A e st b Hst Ho) as (st' & ? & ?); eauto.
  - destruct (step_claim A e st offset size Hst Ho) as (st' & ? & ?); eauto.
  - destruct (step_group A e st _ Hst Ho) as (st' & ? & ?); eauto.
  - destruct (step_group A e st _ Hst Ho) as (st' & ? & ?); eauto.
  - destruct (step_group A e st _ Hst Ho) as (st' & ? & ?); eauto.
  - destruct (step_group A e st _ Hst Ho) as (st' & ? & ?); eauto.
  - destruct (step_sync A e st Hst Ho) as (st' & a & ? & ? & ? & ?); eauto.
  - destruct (step_sync_done A e st normal_free Hst Ho) as (st' & ? & ? & _); eauto.
  - destruct (step_idle A e st Hst Ho) as (st' & ? & ?); eauto.
Qed.

(** ** A new metaslab *)

(** The same weighing and sorting on both sides. *)
Ltac weigh_and_sort :=
  match goal with |- mbind _ ?a = _ -> exists _, mbind _ ?b = _ =>
    change b with a; destruct a as [[[? ?] ?]|]; [|done] end;
  cbn [mbind res_bind];
  match goal with |- mbind _ ?a = _ -> _ => destruct a as [[? ?]|]; [|done] end; cbn [mbind res_bind];
  match goal with |- mbind _ ?a = _ -> _ => destruct a as [[? ?]|]; [|done] end; cbn [mbind res_bind];
  intros [= <- <- _ <-]; by eexists.

(** The counters of the last update are not read but for the statistics. *)
Lemma sync_done_update (e : sync_env) mg m sm ss normal_free s mg' m' ss' dirty :
  ms_sm m = Some sm -> ms_alloctree m <> [] ->
  metaslab_sync_done e mg (set_ms_sm m (Some (space_map_update sm))) ss normal_free s = Ok (mg', m', ss', dirty) ->
  exists ss'', metaslab_sync_done e mg m ss normal_free s = Ok (mg', m', ss'', dirty).
Proof.
  intros Esm Hne. destruct m as [x0 x1 x2 x3 x4 x5 x6 x7 x8 x9 y0 y1 y2 y3 y4 y5 y6 y7 y8]. simpl in Esm. subst x0.
  set (m := Metaslab (Some sm) x1 x2 x3 x4 x5 x6 x7 x8 x9 y0 y1 y2 y3 y4 y5 y6 y7 y8) in *.
  unfold metaslab_sync_done.
  change (ms_alloctree (set_ms_sm m (Some (space_map_update sm)))) with (ms_alloctree m).
  destruct (ms_alloctree m) as [|x l] eqn:El; [done|]. cbv zeta iota. clear Hne.
  change (ms_defertree (set_ms_sm m (Some (space_map_update sm)))) with (ms_defertree m).
  destruct (tree_at (ms_defertree m) _) as [dt|]; [|done]. cbn [mbind res_bind].
  change (vacate_to_free e (set_ms_sm m (Some (space_map_update sm))) dt) with (vacate_to_free e m dt).
  destruct (vacate_to_free e m dt) as [[dt0 t]|]; [|done]. cbn [mbind res_bind].
  destruct (negb (class_free_space _ _ _ <=? _)).
  - cbn [range_tree_swap mbind res_bind]. unfold range_tree_swap. cbn [mbind res_bind].
    weigh_and_sort.
  - change (vacate_to_free e (set_ms_tree (set_ms_sm m (Some (space_map_update sm))) t)
      (ms_freedtree (set_ms_tree (set_ms_sm m (Some (space_map_update sm))) t)))
      with (vacate_to_free e (set_ms_tree m t) (ms_freedtree (set_ms_tree m t))).
    destruct (vacate_to_free e (set_ms_tree m t) _) as [[freed t2]|]; [|done]. cbn [mbind res_bind].
    weigh_and_sort.
Qed.

(** What the pool must give [metaslab_init]: a free place in the region of the
    device and in the group, and an object that holds the map of [A] or none; an
    object that can be opened exists, with the feature active if it needs it. *)
Record init_ready (d : D) (mg : metaslab_group) (id object : Z) (A : Z -> Prop) : Prop := {
  ir_geom : let ms := new_metaslab id (vdev_ms_shift (mg_vd mg)) in
    geom_ok (ms_start ms) (ms_size ms) (env_ashift (sy_env env)) /\
    ms_start ms + ms_size ms <= 2 ^ 63 /\ ms_size ms < 2 ^ 62;
  ir_id : 0 <= id /\ dmu_exists d (sy_ms_array env) = true;
  ir_ashift : vdev_ashift (mg_vd mg) = env_ashift (sy_env env);
  ir_group : mg_tree_wf (mg_metaslab_tree mg) /\
    ms_start (new_metaslab id (vdev_ms_shift (mg_vd mg))) ∉ mr_start <$> avl_elements (mg_metaslab_tree mg);
  ir_map : if decide (object = 0) then forall z, ~ A z else
    sy_ms_array env <> object /\ dmu_word d (sy_ms_array env) id = object /\
    forall sm, space_map_open d object (ms_start (new_metaslab id (vdev_ms_shift (mg_vd mg))))
        (ms_size (new_metaslab id (vdev_ms_shift (mg_vd mg)))) (vdev_ashift (mg_vd mg)) = inr sm ->
      sm_inv d sm A /\ read_errors_nonzero d sm /\ object_ok d object
}.

(** A metaslab that has all its trees, all empty, and the map of [A]. *)
Lemma empty_trees_inv d id shift (osm : option space_map) A s m :
  let ms0 := new_metaslab id shift in
  geom_ok (ms_start ms0) (ms_size ms0) (env_ashift (sy_env env)) ->
  ms_start ms0 + ms_size ms0 <= 2 ^ 63 /\ ms_size ms0 < 2 ^ 62 ->
  0 <= id /\ dmu_exists d (sy_ms_array env) = true -> 0 <= s ->
  match osm with
  | None => forall z, ~ A z
  | Some sm => sm_inv d sm A /\ sm_synced sm /\ sm_start sm = ms_start ms0 /\ sm_size sm = ms_size ms0 /\
      sm_shift sm = env_ashift (sy_env env) /\ sy_ms_array env <> sm_object sm /\
      dmu_word d (sy_ms_array env) id = sm_object sm /\ object_ok d (sm_object sm)
  end ->
  (exists c f, m = create_trees (set_ms_sm (set_ms_fragmentation (set_ms_condense_wanted (set_ms_weight ms0 0) c) f) osm)) ->
  ms_inv env d s A m.
Proof.
  intros ms0 Hg Hend Hid Hs Hsm (c & f & ->).
  destruct (plain_tree_ok (ms_start ms0) (ms_size ms0) (env_ashift (sy_env env))) as [Hp Hpn].
  assert (Hall : forall n, Forall (fun t => tree_ok (ms_start ms0) (ms_size ms0) (env_ashift (sy_env env)) t /\ rt_ops t = None)
    (replicate n plain_tree)) by (intros n; by apply Forall_replicate).
  assert (Hnil : forall n, Forall (fun t : rtree => rt_segs t = []) (replicate n plain_tree)) by (intros n; by apply Forall_replicate).
  constructor; try done.
  - unfold sm_records. simpl. destruct osm as [sm|]; [|done].
    destruct Hsm as (H1 & _ & H2 & H3 & H4 & H5 & H6 & _). split; [exact H1|]. by split_and!.
  - simpl. intros sm ->. apply Hsm.
  - change (ms_lbas _) with (replicate MAX_LBAS 0). apply Forall_replicate. split; [lia|apply Z.divide_0_r].
  - split; [|done]. split; [apply range_tree_create_inv; split; [apply _|by split_and!; constructor]|intros z []%covers_nil|intros z z' _ []%covers_nil].
  - split; [apply Hall|done].
  - split; [apply Hall|done].
  - intros z. assert (Hz : own (create_trees (set_ms_sm (set_ms_fragmentation
      (set_ms_condense_wanted (set_ms_weight ms0 0) c) f) osm)) z = 0).
    { assert (Hzs : forall n, zsum (fun t => ind t z) (replicate n plain_tree) = 0).
      { intros n. apply zsum_zero. eapply Forall_impl; [apply Hnil|]. intros t. apply ind_nil. }
      unfold own. change (ms_alloctree _) with (replicate TXG_SIZE plain_tree).
      change (ms_defertree _) with (replicate TXG_DEFER_SIZE plain_tree). rewrite !Hzs, !ind_nil; done. }
    rewrite Hz. assert (Hdec : A z \/ ~ A z).
    { destruct osm as [sm|]; [|by right]. destruct Hsm as ([Hwf Hlog] & _).
      destruct (log_sets_segs _ _ _ _ _ _ (wf_geom _ Hwf) Hlog) as (segs & _ & _ & Hc).
      destruct (decide (covers segs z)) as [H|H]; [left|right]; by rewrite <- Hc. }
    destruct Hdec; [by left|]. right. split; [done|]. split; [lia|]. done.
  - intros t. apply (Forall_lookup_1 _ _ _ _ (Hnil _)).
  - intros _. split; [done|apply Hnil].
  - intros _. unfold loadable. simpl. destruct osm as [sm|]; [|done].
    destruct Hsm as ([Hwf Hlog] & [S1 S2] & _). rewrite S1, S2. pose proof (wf_objsize _ Hwf).
    split; [lia|]. split; [apply (wf_objsize8 _ Hwf)|]. eapply log_sets_ext; [|exact Hlog].
    intros z. cbv beta. rewrite ind_nil by done. intuition lia.
  - intros k t _ Ht Hne. destruct Hne. exact (Forall_lookup_1 _ _ _ _ (Hnil _) Ht).
  - simpl. lia.
Qed.

(** A metaslab as [metaslab_init] leaves it when its trees do not exist yet. *)
Definition fresh (d : D) (A : Z -> Prop) (mg : metaslab_group) (id : Z) (m : metaslab) : Prop :=
  let ms0 := new_metaslab id (vdev_ms_shift (mg_vd mg)) in
  (exists c f osm, m = set_ms_sm (set_ms_fragmentation (set_ms_condense_wanted (set_ms_weight ms0 0) c) f) osm) /\
  match ms_sm m with
  | None => forall z, ~ A z
  | Some sm => sm_inv d sm A /\ sm_start sm = ms_start ms0 /\ sm_size sm = ms_size ms0 /\
      sm_shift sm = env_ashift (sy_env env) /\ sy_ms_array env <> sm_object sm /\
      dmu_word d (sy_ms_array env) id = sm_object sm /\ object_ok d (sm_object sm)
  end.

Lemma sm_inv_update (d : D) sm A : sm_inv d sm A -> sm_inv d (space_map_update sm) A.
Proof. intros [[] Hlog]. split; [by constructor|done]. Qed.

Lemma sync_done_first mg m ss normal_free s :
  ms_alloctree m = [] -> metaslab_sync_done env mg m ss normal_free s =
    metaslab_sync_done env mg (create_trees m) (stats_update env ss 0 0 (ms_size m)) normal_free s.
Proof.
  intros E. unfold metaslab_sync_done. rewrite E.
  assert (E' : ms_alloctree (create_trees m) = plain_tree :: replicate 3 plain_tree) by done. by rewrite E'.
Qed.

(** The first [metaslab_sync_done] makes it usable. *)
Lemma first_sync_done d A mg0 mg id m ss normal_free s :
  (let ms := new_metaslab id (vdev_ms_shift (mg_vd mg0)) in
     geom_ok (ms_start ms) (ms_size ms) (env_ashift (sy_env env)) /\
     ms_start ms + ms_size ms <= 2 ^ 63 /\ ms_size ms < 2 ^ 62) ->
  0 <= id /\ dmu_exists d (sy_ms_array env) = true ->
  fresh d A mg0 id m -> in_group mg m -> 0 <= s -> 1 <= sy_unload_delay env -> s + 3 + sy_unload_delay env < B64 ->
  exists mg' m' ss' dirty, metaslab_sync_done env mg m ss normal_free s = Ok (mg', m', ss', dirty) /\
    ms_inv env d (s + 1) A m' /\ in_group mg' m' /\
    ms_sm m' = space_map_update <$> ms_sm m /\ ms_loaded m' = false /\
    Forall (fun t => rt_segs t = []) (ms_alloctree m') /\
    rt_segs (ms_freeingtree m') = [] /\ rt_segs (ms_freedtree m') = [].
Proof.
  intros [Hg Hend] Hid [(c & f & osm & ->) Hsm] Hin Hs Hd1 Hd2. cbn [ms_sm set_ms_sm] in Hsm.
  set (ms0 := new_metaslab id (vdev_ms_shift (mg_vd mg0))) in *.
  set (m0 := set_ms_fragmentation (set_ms_condense_wanted (set_ms_weight ms0 0) c) f) in *.
  assert (Hstart : forall osm' ss, (match osm' with None => forall z, ~ A z | Some sm => sm_synced sm /\ sm_inv d sm A /\
      sm_start sm = ms_start ms0 /\ sm_size sm = ms_size ms0 /\ sm_shift sm = env_ashift (sy_env env) /\
      sy_ms_array env <> sm_object sm /\ dmu_word d (sy_ms_array env) id = sm_object sm /\
      object_ok d (sm_object sm) end) ->
    exists mg' m' ss' dirty, metaslab_sync_done env mg (create_trees (set_ms_sm m0 osm')) ss normal_free s
      = Ok (mg', m', ss', dirty) /\ ms_inv env d (s + 1) A m' /\ in_group mg' m' /\
      ms_sm m' = space_map_update <$> osm' /\ ms_loaded m' = false /\
      Forall (fun t => rt_segs t = []) (ms_alloctree m') /\
      rt_segs (ms_freeingtree m') = [] /\ rt_segs (ms_freedtree m') = []).
  { intros osm' ss0 Hosm. assert (Hi : ms_inv env d s A (create_trees (set_ms_sm m0 osm'))).
    { apply (empty_trees_inv d id (vdev_ms_shift (mg_vd mg0)) osm'); try done; [|by exists c, f].
      destruct osm' as [sm|]; [|done]. destruct Hosm as (S & I & H1 & H2 & H3 & H4 & H5 & H6).
      split; [exact I|]. split; [done|]. repeat (split; [done|]). done. }
    destruct (inv_alloc_lookup env d s A _ s Hi) as (a & Ea & _).
    destruct (sync_done_ok env d s A mg _ ss0 normal_free a Hi) as (mg' & m' & ss' & dirty & E & H1 & H2 & H3 & H4 & H5 & _ & _ & H6 & (dt & dt' & _ & _ & _ & H7));
      try done.
    { exact (Forall_lookup_1 _ _ _ _ (Forall_replicate (fun t => rt_segs t = []) TXG_SIZE plain_tree eq_refl) Ea). }
    exists mg', m', ss', dirty. split_and!; try done; [destruct (ms_loaded m'); [by destruct H7|done]|]. rewrite H5. by apply Forall_replicate. }
  rewrite sync_done_first by done. destruct osm as [sm|]; [|by apply Hstart]. destruct Hsm as (I & H1 & H2 & H3 & H4 & H5 & H6).
  destruct (Hstart (Some (space_map_update sm)) (stats_update env ss 0 0 (ms_size (set_ms_sm m0 (Some sm)))))
    as (mg' & m' & ss' & dirty & E & Hrest).
  { split; [by split|]. split; [by apply sm_inv_update|]. repeat (split; [done|]). done. }
  destruct (sync_done_update env mg (create_trees (set_ms_sm m0 (Some sm))) sm
    (stats_update env ss 0 0 (ms_size (set_ms_sm m0 (Some sm)))) normal_free s mg' m' ss' dirty)
    as [ss'' E'']; [done|done|exact E|]. by exists mg', m', ss'', dirty.
Qed.

Lemma restart d s s' A msp :
  ms_inv env d s A msp -> Forall (fun t => rt_segs t = []) (ms_alloctree msp) ->
  rt_segs (ms_freeingtree msp) = [] -> s <= s' -> ms_inv env d s' A msp.
Proof.
  intros [] Ha Hf Hs. constructor; try done.
  - intros z. rewrite ind_nil by done. lia.
  - intros t Et. apply (Forall_lookup_1 _ _ _ _ Ha Et).
  - intros k t _ Et Hne. destruct Hne. by apply (Forall_lookup_1 _ _ _ _ Ha Et).
  - lia.
Qed.

(** The map of the metaslab is opened, or there is none yet. *)
Definition opened (d : D) (A : Z -> Prop) (ms0 : metaslab) (id object : Z) (osm : option space_map) : Prop :=
  match osm with
  | None => forall z, ~ A z
  | Some sm => sm_inv d sm A /\ sm_start sm = ms_start ms0 /\ sm_size sm = ms_size ms0 /\
      sm_shift sm = env_ashift (sy_env env) /\ sy_ms_array env <> sm_object sm /\
      dmu_word d (sy_ms_array env) id = sm_object sm /\ object_ok d (sm_object sm) /\
      sm_object sm = object /\ read_errors_nonzero d sm
  end.

Lemma init_open d mg id object A :
  init_ready d mg id object A -> let ms0 := new_metaslab id (vdev_ms_shift (mg_vd mg)) in
  (exists error, object <> 0 /\
     space_map_open d object (ms_start ms0) (ms_size ms0) (vdev_ashift (mg_vd mg)) = inl error) \/
  exists osm, (if object =? 0 then inr ms0 else
      match space_map_open d object (ms_start ms0) (ms_size ms0) (vdev_ashift (mg_vd mg)) with
      | inl error => inl error | inr sm => inr (set_ms_sm ms0 (Some sm)) end) = inr (A := Z) (set_ms_sm ms0 osm) /\
    opened d A ms0 id object osm.
Proof.
  intros [_ _ Hash _ Hmap] ms0. fold ms0 in Hmap.
  destruct (Z.eqb_spec object 0) as [->|Hne]; [right; exists None; by rewrite decide_True in Hmap|].
  rewrite decide_False in Hmap by done. destruct Hmap as (M1 & M2 & M3).
  destruct (space_map_open d object _ _ _) as [error|sm] eqn:Eo; [left; by exists error|].
  right. exists (Some sm). split; [done|]. destruct (M3 sm eq_refl) as (I & Herr & Hob). split; [exact I|].
  unfold space_map_open, space_map_open_impl in Eo. cbn [sm_object] in Eo.
  destruct (dmu_bonus_hold d object) as [|[b p]]; [done|]. injection Eo as <-. simpl. by rewrite Hash.
Qed.

(** The load of [metaslab_debug_load]. *)
Lemma init_load (debug_load : bool) d A ms0 id object osm mg m :
  ms_inv env d 1 A m -> in_group mg m -> ms_loaded m = false -> opened d A ms0 id object osm ->
  ms_sm m = space_map_update <$> osm ->
  (debug_load = true -> forall sm, sm_object sm = object -> reads_succeed d sm (sm_length sm)) ->
  exists m', (if debug_load && match ms_sm m with Some _ => true | None => false end
      then '(error, ms) ← metaslab_load env d m; VERIFY (error =? 0) ;; Ok ms else Ok m) = Ok m' /\
    ms_inv env d 1 A m' /\ in_group mg m' /\ kept m m'.
Proof.
  intros Hi Hin El Hsm Esm Hdbg. destruct (_ && _) eqn:Ed; [|by exists m].
  apply andb_true_iff in Ed as [-> Ed]. rewrite Esm in Ed. destruct osm as [sm|]; [|done].
  destruct Hsm as (_ & _ & _ & _ & _ & _ & _ & Hobj & Herr).
  destruct (load_ok env d 1 A m Hi El) as (error & m' & -> & Hi' & _ & Hok & Href & Hk).
  { rewrite Esm. by intros ? [= <-]. }
  rewrite Hok; [|rewrite Esm; intros ? [= <-]; by apply Hdbg].
  cbn. exists m'. split; [done|]. split; [done|]. split; [|done]. unfold in_group. by rewrite Href.
Qed.

(** No block of a transaction group that is not over. *)
Definition quiet (msp : metaslab) : Prop :=
  rt_segs (ms_freedtree msp) = [] /\ rt_segs (ms_freeingtree msp) = [] /\
  Forall (fun t => rt_segs t = []) (ms_alloctree msp).

Lemma init_ok debug_load d mg ss normal_free id object txg A :
  init_ready d mg id object A -> 1 <= sy_unload_delay env < 2 ^ 32 ->
  (debug_load = true -> txg <= TXG_INITIAL /\
     forall sm, sm_object sm = object -> reads_succeed d sm (sm_length sm)) ->
  exists r, metaslab_init env debug_load d mg ss normal_free id object txg = Ok r /\
  match r with
  | inl error =>
      object <> 0 /\ space_map_open d object (ms_start (new_metaslab id (vdev_ms_shift (mg_vd mg))))
        (ms_size (new_metaslab id (vdev_ms_shift (mg_vd mg)))) (vdev_ashift (mg_vd mg)) = inl error
  | inr (mg', ms, ss', dirty) =>
      in_group mg' ms /\
      if txg <=? TXG_INITIAL then forall s, 1 <= s -> ms_inv env d s A ms /\ quiet ms
      else forall s ss nf, 0 <= s < 2 ^ 63 ->
        exists mg2 ms2 ss2 dirty2, metaslab_sync_done env mg' ms ss nf s = Ok (mg2, ms2, ss2, dirty2) /\
          ms_inv env d (s + 1) A ms2 /\ in_group mg2 ms2 /\ quiet ms2
  end.
Proof.
  intros Hr Hdelay Hdbg. pose proof Hr as [Hg Hid Hash [Hwf Hni] _]. unfold metaslab_init.
  set (ms0 := new_metaslab id (vdev_ms_shift (mg_vd mg))) in *.
  destruct (init_open d mg id object A Hr) as [(error & Hne & Eo)|(osm & Eosm & Hsm)];
    [fold ms0 in Eo|fold ms0 in Eosm, Hsm].
  { exists (inl error). rewrite (proj2 (Z.eqb_neq _ _) Hne), Eo. by split_and!. }
  rewrite Eosm.
  destruct (group_add_ok mg (ss_class ss) (set_ms_sm ms0 osm) Hwf Hni) as (mg1 & mc1 & -> & Hin & _). cbn [mbind res_bind].
  destruct (fragmentation_ok env (set_ms_weight (set_ms_sm ms0 osm) 0)) as (c & f & dirty & ->).
  set (m := set_ms_fragmentation _ f).
  assert (Hfresh : fresh d A mg id m).
  { split; [by exists c, f, osm|]. cbn. destruct osm as [sm|]; [|done].
    destruct Hsm as (H1 & H2 & H3 & H4 & H5 & H6 & H7 & _). split; [exact H1|]. repeat (split; [done|]). done. }
  destruct (Z.leb_spec txg TXG_INITIAL) as [Ht|Ht].
  - destruct (first_sync_done d A mg mg1 id m (SpaceStats (ss_vdev ss) (ss_root ss) mc1) normal_free 0 Hg Hid Hfresh Hin)
      as (mg2 & m2 & ss2 & dirty2 & -> & Hi & Hin2 & Esm & El & Ha & Hf & Hfd); [lia..|]. cbn [mbind res_bind].
    destruct (init_load debug_load d A ms0 id object osm mg2 m2) as (m3 & -> & Hi3 & Hin3 & (K1 & K2 & K3 & _)); try done.
    { intros Hd. by apply Hdbg. }
    cbn [mbind res_bind].
    eexists. split; [done|]. split; [done|]. intros s Hs. split; [|unfold quiet; by rewrite K1, K2, K3].
    eapply restart; [exact Hi3|by rewrite K1|by rewrite K2|done].
  - cbn [mbind res_bind]. destruct debug_load; [destruct (Hdbg eq_refl); lia|]. cbn [andb mbind res_bind].
    eexists. split; [done|]. split; [exact Hin|]. intros s ss' nf Hs.
    destruct (first_sync_done d A mg mg1 id m ss' nf s Hg Hid Hfresh Hin)
      as (mg2 & m2 & ss2 & dirty2 & E & Hi & Hin2 & _ & _ & Ha & Hf & Hfd); [lia..|].
    by exists mg2, m2, ss2, dirty2.
Qed.

(** C18: [metaslab_init] returns the error of opening the space map or a metaslab
    of the group that satisfies the invariant of an idle metaslab for every later
    transaction group; a metaslab of a device that is being added gets there
    with its first [metaslab_sync_done]. *)
Theorem metaslab_init_correct debug_load d mg ss normal_free id object txg A :
  init_ready d mg id object A -> 1 <= sy_unload_delay env < 2 ^ 32 ->
  (debug_load = true -> txg <= TXG_INITIAL /\
     forall sm, sm_object sm = object -> reads_succeed d sm (sm_length sm)) ->
  exists r, metaslab_init env debug_load d mg ss normal_free id object txg = Ok r /\
  match r with
  | inl error =>
      object <> 0 /\ space_map_open d object (ms_start (new_metaslab id (vdev_ms_shift (mg_vd mg))))
        (ms_size (new_metaslab id (vdev_ms_shift (mg_vd mg)))) (vdev_ashift (mg_vd mg)) = inl error
  | inr (mg', ms, ss', dirty) =>
      in_group mg' ms /\
      if txg <=? TXG_INITIAL then forall s, 1 <= s -> ms_inv env d s A ms /\ quiet ms
      else forall s ss nf, 0 <= s < 2 ^ 63 ->
        exists mg2 ms2 ss2 dirty2, metaslab_sync_done env mg' ms ss nf s = Ok (mg2, ms2, ss2, dirty2) /\
          ms_inv env d (s + 1) A ms2 /\ in_group mg2 ms2 /\ quiet ms2
  end.
Proof. apply init_ok. Qed.

(** ** The states that can be reached *)

(** A metaslab of a pool that is created or imported, with the blocks its map
    records, and every state the calls lead to. *)
Inductive reachable : state -> Prop :=
| reach_init debug_load d mg ss normal_free id object txg A mg' ms ss' dirty mc s live :
    init_ready d mg id object A -> 1 <= sy_unload_delay env < 2 ^ 32 -> txg <= TXG_INITIAL ->
    (debug_load = true -> forall sm, sm_object sm = object -> reads_succeed d sm (sm_length sm)) ->
    metaslab_init env debug_load d mg ss normal_free id object txg = Ok (inr (mg', ms, ss', dirty)) -> 1 <= s ->
    Forall (fun b => b_txg b = None /\ in_range ms (b_offset b) (b_size b)) live ->
    (forall z, (A z /\ live_count live z = 1) \/ (~ A z /\ live_count live z = 0)) ->
    reachable (State d mg' mc ss' ms s true live)
| reach_step e o st st' : reachable st -> op_ok e o st -> run_op e o st = Ok st' -> reachable st'.

Lemma reachable_inv st : reachable st -> exists A, st_inv A st.
Proof.
  induction 1 as [debug_load d mg ss nf id object txg A mg' ms ss' dirty mc s live Hr Hd Ht Hdbg E Hs Hb Hl|
    e o st st' _ [A Hi] Ho E].
  - destruct (init_ok debug_load d mg ss nf id object txg A Hr Hd) as (r & E' & Hr'); [by auto|].
    rewrite E in E'. injection E' as <-. destruct Hr' as [Hin Hq]. rewrite (proj2 (Z.leb_le _ _) Ht) in Hq.
    destruct (Hq s Hs) as (Hi & Hfd & Hf & Ha). exists A. constructor; try done.
    + apply Forall_forall. intros b Hb'. rewrite Forall_forall in Hb. destruct (Hb b Hb') as [Hn Hr1].
      split; [done|]. rewrite Hn. intros z Hz. pose proof (live_count_elem _ b z Hb').
      destruct (Hl z) as [[? _]|[_ ?]]; [done|]. simpl in *. lia.
    + intros z. simpl. rewrite (ind_nil (ms_freeingtree ms)) by done.
      rewrite zsum_zero; [|eapply Forall_impl; [exact Ha|]; intros t; apply ind_nil].
      destruct (Hl z) as [[? ?]|[? ?]]; [left|right]; (split; [done|lia]).
  - destruct (step_ok A e o st Hi Ho) as (st1 & A' & E1 & Hi'). rewrite E in E1. injection E1 as <-. by exists A'.
Qed.


(** C8: an allocation fails or hands out a range of whole units of the
    metaslab that no block held overlaps, and that no block freed overlaps while
    it waits in the freeing tree, the freed tree or a deferred tree. *)
Theorem metaslab_alloc_exclusive e size txg st st' :
  reachable st -> op_ok e (OpAlloc size txg) st -> run_op e (OpAlloc size txg) st = Ok st' ->
  st_live st' = st_live st \/
  exists offset, st_live st' = Block offset size (Some txg) :: st_live st /\
    in_range (st_ms st) offset size /\
    (forall b, b ∈ st_live st -> b_offset b + b_size b <= offset \/ offset + size <= b_offset b) /\
    (forall t z, t ∈ ms_freeingtree (st_ms st) :: ms_freedtree (st_ms st) :: ms_defertree (st_ms st) ->
       offset <= z < offset + size -> ~ covers (rt_segs t) z).
Proof.
  intros Hr Ho E. destruct (reachable_inv st Hr) as [A Hi].
  destruct (step_alloc A e st size txg Hi Ho) as (st1 & E1 & Hi' & Hcase). rewrite E in E1. injection E1 as <-.
  destruct Hcase as [?|(offset & El & Hrin & Hown & Hdis)]; [by left|]. right. exists offset. split_and!; try done.
  - intros b Hb. pose proof (si_blocks _ _ Hi) as Hbl. rewrite Forall_forall in Hbl. destruct (Hbl b Hb) as [(B1 & _) _].
    destruct Hrin as (R1 & _). pose proof (Hdis b (Z.max (b_offset b) offset) Hb) as Hd. unfold rng in Hd.
    repeat case_decide; lia.
  - intros t z Ht Hz%rng_1. destruct (Hown z Hz) as (HA & Ho' & H1). apply ind_0.
    unfold own in Ho'. pose proof (zsum_ind_nonneg (ms_alloctree (st_ms st)) z).
    pose proof (zsum_ind_nonneg (ms_defertree (st_ms st)) z). pose proof (ind_bit (ms_freedtree (st_ms st)) z).
    apply elem_of_cons in Ht as [->|[->|Ht]%elem_of_cons]; [|lia|].
    + destruct (ind_bit (ms_freeingtree (st_ms st)) z) as [?|F]; [done|].
      destruct (mi_freeing_sub _ _ _ _ _ (si_ms _ _ Hi) z F) as [?|(a & Ea & Ha)]; [done|].
      pose proof (zsum_ind_elem _ _ _ z Ea). lia.
    + apply list_elem_of_lookup in Ht as [i Et]. pose proof (zsum_ind_elem _ _ _ z Et). destruct (ind_bit t z); lia.
Qed.

(** C9: no space is lost.  In every state that can be reached, every offset of a
    loaded metaslab is in exactly one place: a block held, the free tree, the
    freeing tree, the freed tree or a deferred tree.  Without the free tree of a
    metaslab that is not loaded it is in one of the other places at most. *)
Theorem metaslab_space_conserved st z :
  reachable st -> in_region (ms_start (st_ms st)) (ms_size (st_ms st)) z ->
  let others := live_count (st_live st) z + ind (ms_freeingtree (st_ms st)) z
    + ind (ms_freedtree (st_ms st)) z + zsum (fun t => ind t z) (ms_defertree (st_ms st)) in
  if ms_loaded (st_ms st) then others + ind (ms_tree (st_ms st)) z = 1 else others <= 1.
Proof.
  intros Hr Hz. destruct (reachable_inv st Hr) as [A Hi]. cbv zeta.
  pose proof (si_accounted _ _ Hi z) as Hacc. pose proof (mi_owned _ _ _ _ _ (si_ms _ _ Hi) z) as Ho.
  unfold own in Ho. pose proof (zsum_ind_nonneg (ms_alloctree (st_ms st)) z).
  pose proof (zsum_ind_nonneg (ms_defertree (st_ms st)) z). pose proof (ind_bit (ms_tree (st_ms st)) z).
  pose proof (ind_bit (ms_freedtree (st_ms st)) z).
  destruct (ms_loaded (st_ms st)), Hacc as [[HA E]|[HA E]], Ho as [[? Ho]|(? & Ho & Hl)]; try done; try lia.
  specialize (Hl eq_refl Hz). lia.
Qed.

(** C10: the space map records the blocks.  Once the group that syncs is written,
    the log of the map replays to exactly the offsets of the blocks held whose
    groups are over, and the array of the device names the object of the log. *)
Theorem metaslab_map_records st sm :
  reachable st -> group_empty st -> ms_sm (st_ms st) = Some sm ->
  sm_inv (st_dmu st) sm (fun z => exists b, b ∈ st_live st /\ b_txg b = None /\
    b_offset b <= z < b_offset b + b_size b) /\
  dmu_word (st_dmu st) (sy_ms_array env) (ms_id (st_ms st)) = sm_object sm.
Proof.
  intros Hr [Hf Ha] Esm. destruct (reachable_inv st Hr) as [A Hi]. pose proof Hi as [[]].
  unfold sm_records in mi_sm. rewrite Esm in mi_sm. destruct mi_sm as (Hsm & _ & _ & _ & _ & Hw).
  split; [|done]. eapply sm_inv_ext; [|exact Hsm]. intros z. rewrite Forall_forall in si_blocks0. split.
  - intros HA. destruct (si_accounted0 z) as [[_ E]|[? _]]; [|done]. rewrite ind_nil in E by done.
    assert (Hb : exists b, b ∈ st_live st /\ rng (b_offset b) (b_size b) z = 1).
    { revert E. clear. unfold live_count. induction (st_live st) as [|b l IH]; cbn [zsum foldr]; [lia|]. intros E.
      destruct (rng_bit (b_offset b) (b_size b) z) as [E0|E1]; [|exists b; split; [by left|done]].
      destruct IH as (b' & Hb' & E'); [unfold zsum; lia|]. exists b'. split; [by right|done]. }
    destruct Hb as (b & Hb & E1). exists b. split; [done|]. split; [|by apply rng_1].
    destruct (si_blocks0 b Hb) as [_ Hb2]. destruct (b_txg b) as [t|]; [exfalso|done].
    destruct Hb2 as (_ & a & Ea & Hsub). specialize (Hsub z). pose proof (zsum_ind_elem _ _ _ z Ea).
    pose proof (zsum_ind_nonneg (ms_defertree (st_ms st)) z). destruct (mi_owned z) as [[_ Ho]|[? _]]; [|done].
    unfold own in Ho. destruct (ind_bit (ms_tree (st_ms st)) z), (ind_bit (ms_freedtree (st_ms st)) z); lia.
  - intros (b & Hb & En & Hz%rng_1). destruct (si_blocks0 b Hb) as [_ Hb2]. rewrite En in Hb2. by apply Hb2.
Qed.

(** C11: the end of a transaction group gives the blocks deferred two groups ago
    back to the free tree and defers the blocks the group freed, unless the pool
    is so full that these are given back at once. *)
Theorem metaslab_sync_done_defers e normal_free st st' :
  reachable st -> op_ok e (OpSyncDone normal_free) st -> run_op e (OpSyncDone normal_free) st = Ok st' ->
  rt_segs (ms_freedtree (st_ms st')) = [] /\
  exists dt dt', ms_defertree (st_ms st) !! defer_idx (st_txg st) = Some dt /\
    ms_defertree (st_ms st') = <[defer_idx (st_txg st) := dt']> (ms_defertree (st_ms st)) /\
    (if class_free_space e (st_ss st) normal_free <=? sy_slop_space e then rt_segs dt' = []
     else dt' = ms_freedtree (st_ms st)) /\
    (ms_loaded (st_ms st') = true ->
       forall z, covers (rt_segs (ms_tree (st_ms st'))) z <->
         covers (rt_segs (ms_tree (st_ms st))) z \/ covers (rt_segs dt) z \/
         (class_free_space e (st_ss st) normal_free <= sy_slop_space e /\
          covers (rt_segs (ms_freedtree (st_ms st))) z)).
Proof.
  intros Hr Ho E. destruct (reachable_inv st Hr) as [A Hi].
  destruct (step_sync_done A e st normal_free Hi Ho) as (st1 & E1 & Hi' & dt & dt' & Edt & Edt' & Hdt & Htree).
  rewrite E in E1. injection E1 as <-. split.
  { apply (si_first _ _ Hi'). unfold run_op in E. destruct (metaslab_sync_done _ _ _ _ _ _) as [[[[] ?] ?]|]; [|done].
    by injection E as <-. }
  exists dt, dt'. split_and!; try done. intros Hl. rewrite Hl in Htree. destruct Htree as [_ Ht]. intros z.
  specialize (Ht z). pose proof (mi_owned _ _ _ _ _ (si_ms _ _ Hi) z) as Ho'. unfold own in Ho'.
  pose proof (zsum_ind_nonneg (ms_alloctree (st_ms st)) z). pose proof (zsum_ind_elem _ _ _ z Edt).
  rewrite <- !ind_1. pose proof (ind_bit (ms_tree (st_ms st)) z). pose proof (ind_bit (ms_freedtree (st_ms st)) z).
  pose proof (ind_bit dt z). pose proof (ind_bit (ms_tree (st_ms st')) z).
  destruct (Z.leb_spec (class_free_space e (st_ss st) normal_free) (sy_slop_space e)); [rewrite (ind_nil dt') in Ht by done|subst dt'];
    intuition lia.
Qed.

(** ** Single operations *)

Lemma load_defertree (e : sync_env) d msp error msp' :
  metaslab_load e d msp = Ok (error, msp') -> ms_defertree msp' = ms_defertree msp.
Proof.
  unfold metaslab_load. match goal with |- mbind _ ?x = _ -> _ => destruct x as [[err t]|]; [|done] end.
  cbn [mbind res_bind]. destruct (err =? 0); [|by intros [= _ <-]].
  destruct (walk_remove _ _ _) as [t'|]; [|done]. cbn [mbind res_bind]. by intros [= _ <-].
Qed.

Lemma unload_trees msp msp' :
  metaslab_unload msp = Ok msp' ->
  ms_defertree msp' = ms_defertree msp /\ ms_alloctree msp' = ms_alloctree msp /\ ms_sm msp' = ms_sm msp.
Proof.
  unfold metaslab_unload. destruct (range_tree_vacate _ _ _) as [[]|]; [|done]. cbn [mbind res_bind]. by intros [= <-].
Qed.

(** C15: an idle metaslab that is unloaded and loaded again has the free tree it
    had: the same segments, the same space and the same histogram. *)
Theorem metaslab_reload d s A msp :
  ms_inv env d s A msp -> ms_loaded msp = true -> quiet msp ->
  (forall sm, ms_sm msp = Some sm ->
     sm_synced sm /\ read_errors_nonzero d sm /\ reads_succeed d sm (sm_length sm)) ->
  exists msp1 msp2, metaslab_unload msp = Ok msp1 /\ rt_segs (ms_tree msp1) = [] /\
    metaslab_load env d msp1 = Ok (0, msp2) /\
    rt_segs (ms_tree msp2) = rt_segs (ms_tree msp) /\ rt_space (ms_tree msp2) = rt_space (ms_tree msp) /\
    rt_histogram (ms_tree msp2) = rt_histogram (ms_tree msp).
Proof.
  intros Hi Hl (Hfd & Hf & Ha) Hsm.
  destruct (unload_ok env d s A msp Hi Ha) as (m1 & E1 & Hi1 & Hl1 & S1 & Z1 & F1).
  { unfold loadable. pose proof (mi_sm _ _ _ _ _ Hi) as H. unfold sm_records in H.
    destruct (ms_sm msp) as [sm|]; [|done]. destruct (Hsm sm eq_refl) as ([T1 T2] & _). destruct H as ([Hwf Hlog] & _).
    rewrite T1, T2. pose proof (wf_objsize _ Hwf). split; [lia|]. split; [apply (wf_objsize8 _ Hwf)|].
    eapply log_sets_ext; [|exact Hlog]. intros z. cbv beta. rewrite ind_nil by done. intuition lia. }
  destruct (unload_trees _ _ E1) as (D1 & A1 & M1).
  destruct (load_ok env d s A m1 Hi1 Hl1) as (error & m2 & E2 & Hi2 & Hl2 & Hok & _ & (A2 & _ & F2 & S2 & Z2)).
  { intros sm. rewrite M1. intros H. by apply Hsm. }
  rewrite Hok in E2, Hl2 by (intros sm; rewrite M1; intros H; by apply Hsm). pose proof (load_defertree _ _ _ _ _ E2) as D2.
  exists m1, m2. split; [done|]. split; [by apply (mi_unloaded _ _ _ _ _ Hi1)|]. split; [done|].
  destruct (mi_tree _ _ _ _ _ Hi) as [[(_ & Hs & -> & -> & _) Hreg _] _].
  destruct (mi_tree _ _ _ _ _ Hi2) as [[(_ & Hs2 & -> & -> & _) Hreg2 _] _].
  rewrite (segs_ok_canonical (rt_segs (ms_tree m2)) (rt_segs (ms_tree msp)) Hs2 Hs); [done|]. intros z.
  rewrite <- !ind_1. pose proof (mi_owned _ _ _ _ _ Hi z) as O1. pose proof (mi_owned _ _ _ _ _ Hi2 z) as O2.
  unfold own in O1, O2. rewrite D2, D1, A2, A1, F2, F1 in O2. rewrite S2, S1, Z2, Z1 in O2, Hreg2.
  specialize (Hreg z). specialize (Hreg2 z). rewrite <- !ind_1 in *.
  pose proof (zsum_ind_nonneg (ms_defertree msp) z). pose proof (zsum_ind_nonneg (ms_alloctree msp) z).
  pose proof (ind_bit (ms_freedtree msp) z). pose proof (ind_bit (ms_tree msp) z). pose proof (ind_bit (ms_tree m2) z).
  destruct O1 as [[? O1]|(? & ? & O1)], O2 as [[? O2]|(? & ? & O2)]; try done; try lia.
  split; intros H'; [specialize (Hreg2 H'); specialize (O1 Hl Hreg2)|specialize (Hreg H'); specialize (O2 Hl2 Hreg)]; lia.
Qed.

(** C16: condensing is equivalent to writing the map in the ordinary way: both
    record the allocated offsets with the allocations of the group and without
    its frees, and the same amount of space; condensing keeps the free tree. *)
Theorem metaslab_condense_equivalent d s A msp sm a :
  ms_inv env d s A msp -> ms_sm msp = Some sm -> ms_loaded msp = true -> rt_segs (ms_freedtree msp) = [] ->
  ms_alloctree msp !! txg_idx s = Some a -> smp_objsize (sm_phys sm) < 2 ^ 60 ->
  s <= env_final_dirty_txg (sy_env env) ->
  8 <= sy_space_map_blksz env < B32 -> (8 | sy_space_map_blksz env) ->
  exists d1 msp1 sm1 d2 sm2 d3 sm3,
    metaslab_condense env d msp s = Ok (d1, msp1) /\ ms_sm msp1 = Some sm1 /\ ms_tree msp1 = ms_tree msp /\
    space_map_write d sm a SM_ALLOC (env_sync_pass (sy_env env)) s = Ok (sm2, d2) /\
    space_map_write d2 sm2 (ms_freeingtree msp) SM_FREE (env_sync_pass (sy_env env)) s = Ok (sm3, d3) /\
    sm_inv d1 sm1 (synced_set A msp a) /\ sm_inv d3 sm3 (synced_set A msp a) /\
    smp_alloc (sm_phys sm1) = smp_alloc (sm_phys sm3).
Proof.
  intros Hi Esm Hl Hfd Ea Hsz Hfin Hb1 Hb2. pose proof (mi_sm _ _ _ _ _ Hi) as Hsm.
  unfold sm_records in Hsm. rewrite Esm in Hsm. destruct Hsm as (Hinv & G1 & G2 & G3 & Hne & _).
  assert (Hat : sm_at env d msp A sm (2 ^ 60)).
  { constructor; try done; [lia| |by apply (mi_object _ _ _ _ _ Hi)]. split; [apply (mi_id _ _ _ _ _ Hi)|done]. }
  destruct (condense_ok env d d s A msp sm _ Hi Hat Hl Hfd Hfin Hb1 Hb2) as (a' & d1 & sm1 & Ea' & E1 & Hsm1 & _).
  rewrite Ea in Ea'. injection Ea' as <-.
  destruct (record_ok env d d s A msp sm _ a msp (env_sync_pass (sy_env env)) s Hi Hat ltac:(lia) Ea)
    as (p & d3 & E3 & Hsm3 & _).
  replace (set_ms_sm msp (Some sm)) with msp in E1 by (rewrite <- Esm; by destruct msp).
  destruct (space_map_write d sm a SM_ALLOC _ s) as [[sm2 d2]|] eqn:E2; [|done]. cbn [mbind res_bind] in E3.
  destruct (space_map_write d2 sm2 _ SM_FREE _ s) as [[sm3 d4]|] eqn:E4; [|done]. cbn [mbind res_bind] in E3.
  assert (d4 = d3 /\ sm3 = set_phys sm p) as [-> ->].
  { injection E3 as -> E3. split; [done|]. congruence. }
  eexists d1, _, sm1, d2, sm2, d3, _. split; [exact E1|]. split; [done|]. split; [done|]. split; [done|]. split; [done|].
  destruct Hsm1 as [I1 _ _ _ _], Hsm3 as [I3 _ _ _ _]. split; [exact I1|]. split; [exact I3|].
  destruct I1 as [W1 L1], I3 as [W3 L3].
  destruct (log_sets_segs _ _ _ _ _ _ (wf_geom _ W1) L1) as (l1 & S1 & <- & C1).
  destruct (log_sets_segs _ _ _ _ _ _ (wf_geom _ W3) L3) as (l3 & S3 & <- & C3).
  f_equal. apply segs_ok_canonical; try done. intros z. by rewrite C1, C3.
Qed.

(** C17: claiming a block of the intent log, a range of whole units, for the group
    that syncs or as a dry run, on every path.  The claim first
    activates the metaslab, unless it is loaded and the claim is a dry run (group
    0) or the pool not writeable; the error of a load that fails is the result.  A
    block that is not all free then gives [ENOENT], and a dry run reports 0 for
    one that is: neither changes the trees.  Otherwise the block leaves the free
    tree, and a writeable pool adds it to the tree of the transaction group,
    marking the metaslab dirty when that tree was empty; one that is not
    writeable records it nowhere. *)
Theorem metaslab_claim_correct d s A mg msp offset size txg :
  ms_inv env d s A msp -> in_group mg msp -> txg = 0 \/ txg = s ->
  (forall sm, ms_sm msp = Some sm -> read_errors_nonzero d sm) -> in_range msp offset size ->
  exists eact m error mg' msp' dirty,
    claim_activation env d mg msp txg = Ok (eact, mg', m) /\
    metaslab_claim_block env d mg msp offset size txg = Ok (error, mg', msp', dirty) /\
    ms_inv env d s A m /\ ms_alloctree m = ms_alloctree msp /\
    (ms_loaded msp = true -> eact = 0 /\ ms_tree m = ms_tree msp) /\
    (eact <> 0 -> error = eact /\ msp' = m /\ dirty = None) /\
    (eact = 0 -> (exists z, offset <= z < offset + size /\ ~ covers (rt_segs (ms_tree m)) z) ->
       error = ENOENT /\ msp' = m /\ dirty = None) /\
    (eact = 0 -> (forall z, offset <= z < offset + size -> covers (rt_segs (ms_tree m)) z) ->
       error = 0 /\
       (txg = 0 -> msp' = m /\ dirty = None) /\
       (txg <> 0 ->
          (forall z, covers (rt_segs (ms_tree msp')) z <->
             covers (rt_segs (ms_tree m)) z /\ ~ offset <= z < offset + size) /\
          if env_writeable (sy_env env)
          then ms_inv env d s A msp' /\ exists a a', ms_alloctree m !! txg_idx txg = Some a /\
            msp' = set_ms_alloctree (set_ms_tree m (ms_tree msp')) (<[txg_idx txg := a']> (ms_alloctree m)) /\
            (forall z, covers (rt_segs a') z <-> covers (rt_segs a) z \/ offset <= z < offset + size) /\
            dirty = if range_tree_space a =? 0 then Some txg else None
          else msp' = set_ms_tree m (ms_tree msp') /\ dirty = None)).
Proof.
  intros Hi Hin Htxg Herr Hr.
  destruct (claim_activation_ok env d s A mg msp txg Hi Hin Herr) as (eact & mg1 & m & Eact & Hm & _ & Hl & Hk).
  destruct Hk as (K1 & K2 & K3 & E1 & E2). rewrite <- E1, <- E2 in Hr.
  destruct (claim_cases env d s A mg msp offset size txg eact mg1 m Eact Hm Htxg Hr)
    as (error & msp' & dirty & E & H1 & H2 & H3). exists eact, m, error, mg1, msp', dirty.
  split_and!; try done.
  - intros He (z & Hz & Hn). apply H2; [done|]. intros H. specialize (H z). apply Hn, ind_1. apply rng_1 in Hz.
    destruct (ind_bit (ms_tree m) z); lia.
  - intros He Hall. assert (Hsub : forall z, rng offset size z <= ind (ms_tree m) z).
    { intros z. destruct (rng_bit offset size z) as [->|Ez]; [destruct (ind_bit (ms_tree m) z); lia|].
      rewrite Ez. apply rng_1 in Ez. by rewrite (proj2 (ind_1 _ _) (Hall z Ez)). }
    destruct (H3 He Hsub) as (-> & H0 & Hmv). split_and!; try done. intros Hnz.
    destruct (Hmv Hnz) as (t' & a & a' & Ea & Ht & Ha & _ & Hfin).
    assert (Hbit : forall z, ind a z + rng offset size z <= 1) by (intros z; rewrite <- Ha; destruct (ind_bit a' z); lia).
    assert (Hcov : forall z, covers (rt_segs t') z <-> covers (rt_segs (ms_tree m)) z /\ ~ offset <= z < offset + size).
    { intros z. rewrite <- !ind_1, <- rng_1, Ht. specialize (Hsub z).
      destruct (ind_bit (ms_tree m) z), (rng_bit offset size z); intuition lia. }
    destruct (env_writeable (sy_env env)).
    + destruct Hfin as (Hi' & -> & ->). split; [done|]. split; [done|]. exists a, a'. split_and!; try done.
      intros z. rewrite <- !ind_1, <- rng_1, Ha. specialize (Hbit z). destruct (ind_bit a z), (rng_bit offset size z); intuition lia.
    + by destruct Hfin as (-> & ->).
Qed.

End Life.

(** ** Witnesses: a metaslab of one megabyte over an object layer in memory *)

Module Example.
Import MemDmu MetaslabGroup.Example.

(** The transaction group [s] in its pass [pass]. *)
Definition env_at (s pass : Z) : sync_env :=
  SyncEnv (MsEnv true true s 100 pass 9 true false 16 true true 70 true 2 200 4) false 4096 1 true 8 false 0 512 true.

Definition df : metaslab -> Z -> res (Z * metaslab) :=
  fun msp size => Ok (metaslab_df_alloc 131072 4 msp size).

#[export] Instance df_spec : MsopSpec df := metaslab_df_msop 131072 4.

Definition mem0 : mem := Mem (fun _ _ => 0) (fun _ => DmuObjectInfo 320 4096) 7.
Definition mg0 : metaslab_group := mg_of None None 1.
Definition ss0 : space_stats := SpaceStats (VdevStat 0 0 0) (VdevStat 0 0 0) (mc1 None).

Definition ok_or {A} (x : A) (r : res A) : A := match r with Ok a => a | Panic => x end.

Definition start : state (D := mem) :=
  match metaslab_init (env_at 5 1) false mem0 mg0 ss0 0 0 0 0 with
  | Ok (inr (mg, ms, ss, _)) => State mem0 mg (mc1 None) ss ms 5 true []
  | _ => State mem0 mg0 (mc1 None) ss0 Metaslab.Example.ms1 5 true []
  end.

(** The metaslab loaded, a block of two units allocated, recorded, the group
    ended, and a block allocated by the next group. *)
Definition next (s pass : Z) (o : op) (st : state) : state := ok_or st (run_op df (env_at s pass) o st).
Definition st1 : state := next 5 1 (OpActivate METASLAB_WEIGHT_PRIMARY) start.
Definition st2 : state := next 5 1 (OpAlloc 1024 5) st1.
Definition st3 : state := next 5 1 OpSync st2.
Definition st4 : state := next 5 1 (OpSyncDone 0) st3.
Definition st5 : state := next 6 1 (OpAlloc 512 6) st4.

Lemma start_ready : init_ready (env_at 5 1) mem0 mg0 0 0 (fun _ => False).
Proof.
  assert (E1 : ms_start (new_metaslab 0 (vdev_ms_shift (mg_vd mg0))) = 0) by reflexivity.
  assert (E2 : ms_size (new_metaslab 0 (vdev_ms_shift (mg_vd mg0))) = 2 ^ 20) by reflexivity.
  constructor; rewrite ?E1, ?E2; try done.
  - cbv zeta. rewrite E1, E2. split; [|lia]. constructor; [simpl; lia..|by exists 0|by exists 2048|simpl; lia].
  - split; [split; [by split|constructor]|]. apply not_elem_of_nil.
  - rewrite decide_True by done. tauto.
Qed.

Lemma start_reachable : reachable df (env_at 5 1) start.
Proof.
  assert (H : match metaslab_init (env_at 5 1) false mem0 mg0 ss0 0 0 0 0 with Ok (inr _) => true | _ => false end = true)
    by (vm_compute; reflexivity).
  unfold start. destruct (metaslab_init (env_at 5 1) false mem0 mg0 ss0 0 0 0 0) as [[|[[[mg ms] ss] dirty]]|] eqn:E; try done.
  eapply (reach_init df _ false mem0 mg0 ss0 0 0 0 0); [exact start_ready|done|done|done|exact E|lia|constructor|].
  intros z. right. split; [tauto|done].
Qed.

Definition is_ok {A} (r : res A) : bool := match r with Ok _ => true | Panic => false end.

Lemma next_ok s pass o st :
  is_ok (run_op df (env_at s pass) o st) = true -> run_op df (env_at s pass) o st = Ok (next s pass o st).
Proof. unfold next. by destruct (run_op _ _ _ _). Qed.

Lemma next_reachable s pass o st :
  reachable df (env_at 5 1) st -> op_ok (env_at 5 1) (env_at s pass) o st ->
  is_ok (run_op df (env_at s pass) o st) = true -> reachable df (env_at 5 1) (next s pass o st).
Proof. intros Hr Ho H. eapply reach_step; [exact Hr|exact Ho|by apply next_ok]. Qed.

#[local] Opaque start next.

(** Evaluate a field of a state. *)
Ltac evaluate := vm_compute; reflexivity.

Lemma reads st : reads_ok (D := mem) st.
Proof. intros sm _ off size e. done. Qed.

Lemma env1_ok pass st : st_txg st = 5 -> env_ok (D := mem) (env_at 5 1) (env_at 5 pass) st.
Proof. intros E. split_and!; [done|done|]. by rewrite E. Qed.

Lemma reachable1 : reachable df (env_at 5 1) st1.
Proof.
  apply next_reachable; [exact start_reachable| |evaluate]. split; [apply env1_ok; evaluate|apply reads].
Qed.

Lemma op2_ok : op_ok (env_at 5 1) (env_at 5 1) (OpAlloc 1024 5) st1.
Proof.
  split; [apply env1_ok; evaluate|]. assert (E : st_txg st1 = 5) by evaluate. cbn. rewrite E. split_and!; try lia. by exists 2.
Qed.

Lemma reachable2 : reachable df (env_at 5 1) st2.
Proof. apply next_reachable; [exact reachable1|exact op2_ok|evaluate]. Qed.

Lemma op3_ok : op_ok (env_at 5 1) (env_at 5 1) OpSync st2.
Proof.
  split; [apply env1_ok; evaluate|]. assert (E : st_txg st2 = 5) by evaluate. assert (E1 : st_first st2 = true) by evaluate.
  rewrite E, E1. clear E E1. split; [done|]. split; [simpl; lia|]. split; [simpl; lia|]. split; [by exists 512|].
  intros sm H. assert (E2 : match ms_sm (st_ms st2) with None => true | Some _ => false end = true) by evaluate.
  rewrite H in E2. discriminate E2.
Qed.

Lemma reachable3 : reachable df (env_at 5 1) st3.
Proof. apply next_reachable; [exact reachable2|exact op3_ok|evaluate]. Qed.

(** All the trees of the group that syncs are empty. *)
Definition group_emptyb (st : state (D := mem)) : bool :=
  match rt_segs (ms_freeingtree (st_ms st)), ms_alloctree (st_ms st) !! txg_idx (st_txg st) with
  | [], Some a => match rt_segs a with [] => true | _ => false end
  | _, _ => false
  end.

Lemma group_emptyb_ok st : group_emptyb st = true -> group_empty st.
Proof.
  unfold group_emptyb, group_empty. destruct (rt_segs (ms_freeingtree (st_ms st))); [|done].
  destruct (_ !! _) as [a|]; [|done]. intros H. split; [done|]. intros ? [= <-]. by destruct (rt_segs a).
Qed.

Lemma op4_ok : op_ok (env_at 5 1) (env_at 5 1) (OpSyncDone 0) st3.
Proof.
  split; [apply env1_ok; evaluate|]. split; [apply group_emptyb_ok; evaluate|].
  assert (E : st_txg st3 = 5) by evaluate. rewrite E. simpl. lia.
Qed.

Lemma reachable4 : reachable df (env_at 5 1) st4.
Proof. apply next_reachable; [exact reachable3|exact op4_ok|evaluate]. Qed.

Lemma reachable5 : reachable df (env_at 5 1) st5.
Proof.
  apply next_reachable; [exact reachable4| |evaluate]. assert (E : st_txg st4 = 6) by evaluate.
  split; [split_and!; [done|done|by rewrite E]|]. simpl. rewrite E. split_and!; try lia. by exists 1.
Qed.

Lemma metaslab_init_correct_witness :
  exists r, metaslab_init (env_at 5 1) false mem0 mg0 ss0 0 0 0 0 = Ok r.
Proof.
  destruct (metaslab_init_correct (env_at 5 1) false mem0 mg0 ss0 0 0 0 0 (fun _ => False) start_ready) as (r & E & _);
    [simpl; lia|discriminate|]. by exists r.
Defined.


Lemma metaslab_alloc_exclusive_witness :
  exists offset, st_live st2 = Block offset 1024 (Some 5) :: st_live st1.
Proof.
  destruct (metaslab_alloc_exclusive df (env_at 5 1) (env_at 5 1) 1024 5 st1 st2 reachable1 op2_ok) as [E|(offset & E & _)].
  - apply next_ok. evaluate.
  - exfalso. apply (f_equal length) in E. vm_compute in E. discriminate E.
  - exists offset. exact E.
Defined.
Lemma metaslab_space_conserved_witness :
  live_count (st_live st2) 0 + ind (ms_freeingtree (st_ms st2)) 0 + ind (ms_freedtree (st_ms st2)) 0
    + zsum (fun t => ind t 0) (ms_defertree (st_ms st2)) + ind (ms_tree (st_ms st2)) 0 = 1.
Proof.
  pose proof (metaslab_space_conserved df (env_at 5 1) st2 0 reachable2) as H.
  assert (E : ms_loaded (st_ms st2) = true) by evaluate. rewrite E in H. apply H.
  assert (E1 : ms_start (st_ms st2) = 0) by evaluate. assert (E2 : ms_size (st_ms st2) = 1048576) by evaluate.
  unfold in_region. rewrite E1, E2. lia.
Defined.

Lemma metaslab_map_records_witness :
  exists sm, ms_sm (st_ms st3) = Some sm /\
    sm_inv (st_dmu st3) sm (fun z => exists b, b ∈ st_live st3 /\ b_txg b = None /\
      b_offset b <= z < b_offset b + b_size b).
Proof.
  destruct (ms_sm (st_ms st3)) as [sm|] eqn:E.
  - exists sm. split; [reflexivity|].
    refine (proj1 (metaslab_map_records df (env_at 5 1) st3 sm reachable3 _ E)). apply group_emptyb_ok. evaluate.
  - exfalso. assert (H : match ms_sm (st_ms st3) with Some _ => true | None => false end = true) by evaluate.
    rewrite E in H. discriminate H.
Defined.

Lemma metaslab_sync_done_defers_witness : rt_segs (ms_freedtree (st_ms st4)) = [].
Proof.
  refine (proj1 (metaslab_sync_done_defers df (env_at 5 1) (env_at 5 1) 0 st3 st4 reachable3 op4_ok _)).
  apply next_ok. evaluate.
Defined.

Definition syncedb (o : option space_map) : bool :=
  match o with
  | Some sm => (sm_length sm =? smp_objsize (sm_phys sm)) && (sm_alloc sm =? smp_alloc (sm_phys sm))
  | None => false
  end.

Definition quietb (msp : metaslab) : bool :=
  bool_decide (rt_segs (ms_freedtree msp) = []) && bool_decide (rt_segs (ms_freeingtree msp) = [])
  && bool_decide (Forall (fun t => rt_segs t = []) (ms_alloctree msp)).

Lemma quietb_ok msp : quietb msp = true -> quiet msp.
Proof. unfold quietb, quiet. rewrite !andb_true_iff, !bool_decide_eq_true. tauto. Qed.

Lemma metaslab_reload_witness :
  exists msp1 msp2, metaslab_unload (st_ms st4) = Ok msp1 /\ metaslab_load (env_at 5 1) (st_dmu st4) msp1 = Ok (0, msp2) /\
    rt_segs (ms_tree msp2) = rt_segs (ms_tree (st_ms st4)).
Proof.
  destruct (reachable_inv df (env_at 5 1) st4 reachable4) as [A Hi].
  destruct (metaslab_reload (env_at 5 1) (st_dmu st4) (st_txg st4) A (st_ms st4) (si_ms _ _ _ Hi))
    as (msp1 & msp2 & E1 & _ & E2 & E3 & _).
  - evaluate.
  - apply quietb_ok. evaluate.
  - intros sm E. assert (H : syncedb (ms_sm (st_ms st4)) = true) by evaluate. rewrite E in H.
    apply andb_true_iff in H as [H1%Z.eqb_eq H2%Z.eqb_eq]. split; [split; assumption|].
    split; [intros off size e; discriminate|]. intros off size _ _ _. eexists. reflexivity.
  - exists msp1, msp2. split; [exact E1|]. split; [exact E2|exact E3].
Defined.

Lemma metaslab_condense_equivalent_witness :
  exists d msp1, metaslab_condense (env_at 5 1) (st_dmu st5) (st_ms st5) (st_txg st5) = Ok (d, msp1) /\
    ms_tree msp1 = ms_tree (st_ms st5).
Proof.
  destruct (reachable_inv df (env_at 5 1) st5 reachable5) as [A Hi].
  destruct (ms_sm (st_ms st5)) as [sm|] eqn:Esm.
  2:{ exfalso. assert (H : match ms_sm (st_ms st5) with Some _ => true | None => false end = true) by evaluate.
      rewrite Esm in H. discriminate H. }
  destruct (ms_alloctree (st_ms st5) !! txg_idx (st_txg st5)) as [a|] eqn:Ea.
  2:{ exfalso. assert (H : match ms_alloctree (st_ms st5) !! txg_idx (st_txg st5) with Some _ => true | None => false end = true)
        by evaluate. rewrite Ea in H. discriminate H. }
  destruct (metaslab_condense_equivalent (env_at 5 1) (st_dmu st5) (st_txg st5) A (st_ms st5) sm a (si_ms _ _ _ Hi) Esm)
    as (d1 & msp1 & _ & _ & _ & _ & _ & E1 & _ & E2 & _).
  - evaluate.
  - assert (H : bool_decide (rt_segs (ms_freedtree (st_ms st5)) = []) = true) by evaluate. by apply bool_decide_eq_true in H.
  - exact Ea.
  - assert (H : match ms_sm (st_ms st5) with Some sm => smp_objsize (sm_phys sm) <? 2 ^ 60 | None => false end = true)
      by evaluate. rewrite Esm in H. by apply Z.ltb_lt.
  - assert (H : (st_txg st5 <=? 100) = true) by evaluate. by apply Z.leb_le.
  - simpl. lia.
  - by exists 512.
  - exists d1, msp1. split; [exact E1|exact E2].
Defined.

Lemma metaslab_claim_correct_witness :
  exists mg' msp' dirty,
    metaslab_claim_block (env_at 5 1) (st_dmu st1) (st_mg st1) (st_ms st1) 4096 512 (st_txg st1)
    = Ok (0, mg', msp', dirty) /\
    (forall z, covers (rt_segs (ms_tree msp')) z <-> 0 <= z < 1048576 /\ ~ 4096 <= z < 4608) /\
    exists a', ms_alloctree msp' !! txg_idx (st_txg st1) = Some a' /\
      forall z, 4096 <= z < 4608 -> covers (rt_segs a') z.
Proof.
  destruct (reachable_inv df (env_at 5 1) st1 reachable1) as [A Hi].
  destruct (metaslab_claim_correct (env_at 5 1) (st_dmu st1) (st_txg st1) A (st_mg st1) (st_ms st1) 4096 512 (st_txg st1)
    (si_ms _ _ _ Hi) (si_group _ _ _ Hi)) as (eact & m & error & mg' & msp' & dirty & E1 & E & _ & Ha & Hl & _ & _ & Hc).
  - by right.
  - intros sm _ off size e. discriminate.
  - assert (E1 : ms_start (st_ms st1) = 0) by evaluate. assert (E2 : ms_size (st_ms st1) = 1048576) by evaluate.
    rewrite E1, E2. split_and!; [lia..|by exists 8|by exists 1].
  - destruct Hl as [-> Et]; [evaluate|].
    assert (Es : rt_segs (ms_tree (st_ms st1)) = [RangeSeg 0 1048576]) by evaluate.
    assert (Hcov : forall z, covers (rt_segs (ms_tree m)) z <-> 0 <= z < 1048576).
    { intros z. rewrite Et, Es. unfold covers. rewrite Exists_cons, Exists_nil. simpl. tauto. }
    destruct Hc as (-> & _ & Hmv); [done|intros z Hz; apply Hcov; lia|].
    destruct Hmv as (Hfree & _ & a & a' & Ea & Em & Hcl & _).
    { intros H. assert (H' : (st_txg st1 =? 0) = false) by evaluate. rewrite H in H'. discriminate H'. }
    exists mg', msp', dirty. split; [exact E|]. split; [intros z; by rewrite Hfree, Hcov|].
    exists a'. split; [|intros z Hz; apply Hcl; right; lia].
    rewrite Em. cbn [ms_alloctree set_ms_alloctree]. apply list_lookup_insert_eq. by eapply lookup_lt_Some.
Defined.

(** Another metaslab of the group, not active, whose weight is the greater but
    for the active bits. *)
Definition other : ms_ref := MsRef (2 ^ 61 - 1) 1048576.

Definition mg_two : metaslab_group :=
  set_mg_tree (st_mg st4) (ok_or avl_create (avl_add (mg_metaslab_tree (st_mg st4)) other)).

Lemma mg_two_ok :
  mg_tree_ok (mg_metaslab_tree mg_two) /\ ms_ref_of (st_ms st4) ∈ avl_elements (mg_metaslab_tree mg_two).
Proof.
  destruct (reachable_inv df (env_at 5 1) st4 reachable4) as [A Hi]. destruct (si_group _ _ _ Hi) as [Hwf Hin].
  assert (E : avl_elements (mg_metaslab_tree (st_mg st4)) = [MsRef 9907919180215091201 0]) by evaluate.
  destruct (mg_tree_add _ other Hwf) as (t & Et & Hwf' & Hp & Hs).
  { rewrite E. simpl. rewrite elem_of_cons, elem_of_nil. intros [|[]]. discriminate. }
  assert (E2 : mg_metaslab_tree mg_two = t) by (unfold mg_two; rewrite Et; reflexivity).
  rewrite E2. split; [split; [exact Hwf'|apply Hs]|rewrite Hp; by right]. rewrite E. by repeat constructor.
Qed.

(** C40: [metaslab_unload] clears the active bits of the weight of a metaslab
    that stays where it is in the tree of its group.  [metaslab_sync_done], which
    sorts the metaslab before it unloads it, can leave a tree that was ordered by
    weight out of order. *)
Theorem metaslab_unload_unsorts_group :
  exists mg' msp' ss' dirty,
    mg_tree_ok (mg_metaslab_tree mg_two) /\ ms_ref_of (st_ms st4) ∈ avl_elements (mg_metaslab_tree mg_two) /\
    metaslab_sync_done (env_at 20 1) mg_two (st_ms st4) (st_ss st4) 0 20 = Ok (mg', msp', ss', dirty) /\
    ms_loaded msp' = false /\ ~ avl_sorted (avl_elements (mg_metaslab_tree mg')).
Proof.
  assert (H : match metaslab_sync_done (env_at 20 1) mg_two (st_ms st4) (st_ss st4) 0 20 with
    | Ok (mg', msp', _, _) => Some (avl_elements (mg_metaslab_tree mg'), ms_loaded msp') | Panic => None end =
    Some ([MsRef 684547143360315393 0; other], false)) by evaluate.
  destruct (metaslab_sync_done (env_at 20 1) mg_two (st_ms st4) (st_ss st4) 0 20) as [[[[mg' msp'] ss'] dirty]|]; [|discriminate H].
  injection H as He Hl. exists mg', msp', ss', dirty. split; [apply mg_two_ok|]. split; [apply mg_two_ok|].
  split; [reflexivity|]. split; [exact Hl|]. rewrite He. intros Hs.
  apply StronglySorted_inv in Hs as [_ Hs]. apply Forall_cons in Hs as [Hs _]. vm_compute in Hs. discriminate Hs.
Qed.

End Example.
